(* ===== verification/_CoqProject ===== *)
-Q . S2P
Prelude.v
Control.v
HttpDefs.v
HttpUrl.v
HttpUrlProps.v
HttpUrlTrip.v
HttpParser.v
HttpInv.v
HttpSafety.v
HttpProps.v
HttpOrder.v
HttpOrderProps.v
Multipart.v
MultipartSafety.v
MultipartSpec.v
MultipartProps.v
Streams.v
JsonValue.v
JsonWriter.v
JsonReader.v
JsonPaths.v
JsonSafety.v
JsonText.v
JsonTrip.v
JsonStyled.v
JsonTyping.v
JsonProps.v
JsonOrder.v
JsonIter.v
JsonPath.v
JsonStream.v
JsonMemory.v
JsonMemoryProps.v
JsonArray.v
SimParam.v
SimRequest.v
SimSafety.v
SimProps.v
SimResponse.v
ThreadPool.v
ThreadPoolProps.v
EpollSocket.v
EpollProps.v
HttpServer.v
HttpServerProps.v
HttpLoop.v
HttpStart.v
HttpStartProps.v
HttpLife.v
Messages.v
MessagesProps.v
TimeSection.v
CmsClient.v
CmsClientProps.v
Adapter.v
AdapterProps.v
AdapterLoop.v
AdapterLoopProps.v
ConnPool.v
ConnPoolLife.v
Database.v
AdapterStart.v
DatabaseProps.v
Log.v
WebSocket.v
WebSocketProps.v
LiveRooms.v
LiveReplies.v
LiveView.v
LiveRefine.v
LiveStart.v
LivePresence.v
LiveRoomsProps.v
LiveThreads.v
LiveExamples.v
LiveLocks.v
Service.v
ServiceProps.v
ServiceRefine.v
Main.v
