(* ===== verification/Prelude.v ===== *)
(** * Verification of the atb video service

    The repository is a service that accepts HTTP requests and web sockets from
    viewers and a binary protocol from the devices ("adapters") that own the cameras.
    This library models its core in Rocq and proves what makes it correct.  All paths
    below are relative to [src/].

    ** The parts of the program and the files that model them

    Shared: [Prelude] (bytes as [Z], machine widths, slices of buffers, faults, the
    reports of a push parser with the pieces of a datum joined, tactics), [Control]
    (state passing with early exits and its weakest preconditions), [Streams]
    ([std::stringstream] and [std::getline]).

    - [atb_http/deps/http-parser/http_parser.c]: data, tables and character classes
      in [HttpDefs]; [http_parser_execute] with one definition per [case] of its
      [switch] in [HttpParser]; the URL parser in [HttpUrl].  The parser object is a
      record with the widths of its bit fields, the local variables of a call are the
      state [ctx] of the monad [Ctl], [goto] and [return] are its jumps.
    - [atb_http/deps/multipart-parser-c/multipart_parser.c]: [Multipart].
    - [atb_http/src/sim_parser.cpp]: query strings in [SimParam], the [Request]
      object with its callbacks on the two parsers in [SimRequest], the [Response]
      with its string stream in [SimResponse].
    - [atb_http/src/http_server.cpp]: the method table, the dispatch and the two
      handlers of a connection in [HttpServer]; the object [HttpServer] with its settings,
      its start, its thread and its end in [HttpStart].
    - [atb_http/src/epoll_socket.cpp]: the event loop, its threads and the part of the
      kernel it relies on as a machine of steps in [EpollSocket].  The class
      [EpollSocketWatcher] is the interface to the handlers, [HttpLoop] gives the
      instance for [HttpEpollWatcher].  The sockets, the epoll instance and the pool that
      a start makes, with the addresses, ports and backlogs they are given, are in
      [HttpStart].
    - [atb_sak/src/thread/threadpool.cpp]: workers, callers and the owner as
      interleaved machines over a mutex and a condition variable in [ThreadPool].
    - [atb_adapter]: the structures of the device protocol, the socket functions and
      the reading task in [Messages]; tokens, times and time sections in
      [TimeSection]; the object of one adapter, with its cameras, its messages and its
      heart-beat, in [CmsClient]; the table of adapters over a heap of clients, the
      handlers of its messages and the interface to the web side in [Adapter]; the event
      loop with the events of the kernel and the tasks of the pool in [AdapterLoop]; which
      objects a start makes and a stop leaves in [AdapterStart]; the database helper, over
      the class [Database] of what it asks of MySQL, in [Database].
    - [atb_sak/src/mysql/mysql_connection_pool.cpp]: the threads that fetch and give back
      connections in [ConnPool]; settings, opening, waiting and closing in [ConnPoolLife].
    - [atb_sak/src/json] (jsoncpp): values with their comments, conversions and
      containers in [JsonValue]; [FastWriter] and [StyledWriter] in [JsonWriter]; the
      [Reader] with the tree it builds, pointers into it being paths, in [JsonReader].
      The comparisons of values are in [JsonOrder], the iterators in [JsonIter], [Path] in
      [JsonPath], [StyledStreamWriter] in [JsonStream] (another instance of the class
      [Layout] over which [JsonWriter] states the methods that both writers share).
      [JsonMemory] has the operations on values once more with their pointers: which
      string, comment or map is allocated, copied and released where.  [JsonArray] is the
      container [ValueInternalArray] with the [BatchAllocator] of its pages, which the
      build of the service does not use.
      The class [Doubles] stands for what the C library does with [double].
    - [atb_wss/WebSocketServer.cc]: connections on a heap, their messages and values,
      and the callback of the library in [WebSocket]; what a derived class overrides is
      the class [Callbacks].
    - [atb_wss/LiveRoom.cc], [atb_wss/PlayMngr.cc]: the rooms in which viewers watch a
      stream, in [LiveRooms], with an instance of [Callbacks]; the exact texts of the
      answers in [LiveReplies]; the same operations cut where a thread gives up its lock
      or waits, interleaved, in [LiveThreads]; the order in which they take locks in
      [LiveLocks]; construction, the two threads, the loop around [lws_service] and the
      schedule of the state thread in [LiveStart].
    - [atb_sak/src/log], [atb_sak/src/cfg]: the configuration file and the log, over a
      small disk, in [Log].
    - [AdapterService.cpp]: the HTTP handlers, the interface between live rooms and
      adapters, start and stop in [Service].
    - [main.cpp]: the loop that reads characters and the signal handlers, which can come
      between any two steps, in [Main].

    How they interact: the event loop hands a readable connection to the thread pool,
    whose worker calls [on_readable] of the server; that feeds what was received to
    [parse_request] and so to [http_parser_execute], whose callbacks fill the request
    and, at the end of a form, run [multipart_parser_execute]; the dispatched handler
    fills the response, and the loop calls [on_writeable] until it has been sent.  On
    the other side the adapters log in over their own protocol: a task reads one
    message and calls the handler of its command, which asks the database over a
    connection of the pool and fills the table; the web side finds the adapter of a
    camera there and sends it the request to start or stop a stream, whose answer
    arrives as one more message.  Viewers are on web sockets: a message becomes a task of
    the pool, which asks the adapters for the state of a camera, has its stream started
    and puts the viewer into the room of the stream; the media server asks over HTTP
    whether a stream may come in, and says when it is ready, which is passed on to the
    room; one more thread takes silent viewers out and stops the streams of rooms that
    have been empty for a minute.

    ** What the theorems show

    - Safety of the parsers ([HttpInv], [HttpSafety], [HttpProps.execute_safe],
      [MultipartSafety], [MultipartProps.multipart_safe], [HttpUrlProps.url_safe],
      [SimSafety], [SimProps.parse_request_safe]): for every input, however it is cut,
      a call returns, stays inside its buffers and fails no assertion.  Two faults are
      left, and both are reached: an exception of [std::string::substr]
      ([SimProps.disposition_throws]), and, while debug messages are logged, a read buffer
      without NUL that is printed as a C string ([SimProps.full_array]), the fault
      [Unterminated].  [HttpInv] and [MultipartSafety] also have the
      instances of their interfaces for an application that records what it is told.
    - Function of the parsers: what a call consumes, exact bounds of the numbers
      ([HttpProps]), the order of the callbacks as a grammar ([HttpOrder],
      [HttpOrderProps.callback_order]), URLs and multipart bodies and query strings
      read back from what they were written from ([HttpUrlTrip], [MultipartProps],
      [SimParam]), and the refinement of a byte-by-byte machine without look-behind
      buffer ([MultipartSpec], [MultipartProps.multipart_refines]).
    - The server ([HttpServerProps]): every request gets an answer, the bytes of a
      response reach the peer in order whatever room its socket has.
    - The loop and the pool ([EpollProps], [ThreadPoolProps], [HttpLoop]): ownership
      of connections, exact counts, no lost wake-up, every task once, clean stops; events
      with neither input nor output, which the loop forgets, and registrations that fail
      are part of the runs; the laws [WatcherLaws] that the loop asks of its handlers are proved of the HTTP
      handlers, so that [HttpLoop.server_safe] speaks of the whole server.  A start
      listens on exactly what was set ([HttpStartProps]), and a server used as it is meant
      to be is safe from its constructor to its end ([HttpLife.life_safe]).
    - The protocol ([MessagesProps]): each structure is a codec with its round trip
      (the class [WireLaws]); messages arrive as they were sent, but for the sequence number
      of those without a body; when exactly a message overruns the buffer of the task.
    - The adapters ([CmsClientProps], [AdapterProps]): start of a stream and its key
      while other threads run, state reports with their exact faults, the schedule and
      the heart-beat, answers to logins, the table without duplicates or dangling
      pointers; executable examples show where overlapping handlers break this.  Under
      the event loop what has arrived always has an event or a task to come, but on
      connections that an error event has left disarmed ([AdapterLoopProps]); an [AdapterServer] lives only once ([AdapterStart]).
    - The database helper and its pool ([DatabaseProps], [ConnPool]): connections come
      back, cameras are read as stored up to the exact bound, the two schedule tests
      agree, no connection is lost or shared; settings are read back up to the length
      of their fields, and closing frees what is in the pool ([ConnPoolLife]).
    - The live rooms: [LiveRefine] proves that the operations on the tables of pointers
      have exactly the effects that [LiveView] states on two finite maps, which is
      [LiveRoomsProps.rooms_refine], as long as events are allowed by [event_ok], which
      names what nobody promises; [LivePresence] is the invariant that holds for clients
      who keep to the protocol, from which rooms are closed when and only when they should
      be by the history of the run; messages are handed to the library in order, once;
      which messages abort the process.  With
      all threads and arbitrary clients the table stays sound ([LiveThreads]), and every
      operation but one takes its locks in an order that excludes deadlock ([LiveLocks]).
      [LiveExamples] runs the sessions in which the code does not do what it means to.
      The rounds of the state thread keep an exact schedule ([LiveStart.schedule_kept]).
    - The service ([ServiceProps], [ServiceRefine]): the requests of viewers served by
      rooms and adapters together, where the adapters discharge what the rooms ask of
      [PlayctrlHandler], for cameras that they know; from the start of a stream to the answer to the media server;
      the answers of the web side read back.  What the program does on its signals, and
      when it uses a service that is gone ([Main]).
    - The log: a configuration is read as it was written; no file loses a line when the
      day changes ([Log.config_read], [Log.log_appends]).
    - JSON ([JsonProps]): the reader returns on every document ([JsonSafety]) and
      leaves a well-formed tree ([JsonTyping]); it reads every text of a grammar that gives
      escapes, code points and numbers their meaning independently of the reader
      ([JsonText]), but for integers out of range that it takes for others; the writers print texts of that grammar ([JsonTrip],
      [JsonStyled]), so that what is printed is read back; exactly which numbers wrap
      around.
    - JSON values: the comparison is a strict total order ([JsonOrder]), iterators walk
      over the entries in order ([JsonIter]), a path that was made resolves to what was put
      there ([JsonPath]), what the writer to a stream prints is read back
      ([JsonStream]).  The operations with pointers refine those of [JsonValue], and
      every block has exactly one owner, so that nothing is freed twice or leaks
      ([JsonMemoryProps.values_own_memory]).
    - The paged array ([JsonArray]): within its bounds it holds the list that its
      operations describe; where it does not (an index rounded down, a copy that fills one
      slot, a page that leaks) the exact behaviour is proved.  The allocator hands out
      memory that is apart and inside its batches while these are a whole number of pages;
      the batches that the code asks for are not, and are overrun.

    ** Bounds and fuel

    The loops over buffers recurse with fuel: [length + 1] rounds in
    [HttpParser.main_loop] (each round consumes a byte), 4 rounds of
    [goto reexecute] (no chain of states is longer), [2 * length + 2] in
    [Multipart.main_loop] (it may step back one byte), [length + 2] in the loops over
    [getline], the binary logarithm in [Streams.dec_text], and in [JsonReader] the
    number of characters left, which bounds the nesting as well; in [WebSocket] the
    messages that wait and one more round, and two rounds of the loop at one connection
    (after a time-out its room is empty, so it is passed).  The safety theorems
    prove that this is enough: the fault [OutOfFuel] is never reached.  Sizes are [Z]
    with their wrap-around written out where the code computes with them.

    ** Not modelled

    - Allocations that fail, but where the code tests for it; what a format makes of its
      arguments; the clock but as an input.  What system calls answer is an input of the
      steps; [inet_addr] is a parameter.
    - Of jsoncpp: reading from a stream of the standard library, [asFloat], and
      [ValueInternalMap] ([json_internalmap.inl] calls [makeMemberName], which is declared
      nowhere).  The stack that recursions take.
    - libwebsockets and the MySQL client library, which are not in the repository: what
      they call and answer is an input.
    - The text of the stack trace that [main.cpp] writes at a crash; the test drivers.
    - While [check_rooms] runs, [stop_play] is only recorded; its effect on the adapters
      is [Service.stop_play].  The handlers of [Service] run one after the other. *)
From stdpp Require Export base list numbers strings.
From Stdlib Require Export ZArith Ascii Lia.

#[global] Open Scope Z_scope.

(** ** Characters and byte strings

    A C [char] is its unsigned byte value in [0 .. 255]; the sources only
    compare characters with ASCII constants or use them as unsigned table
    indices, so the signedness of [char] never matters. *)

Declare Scope c_scope.
Delimit Scope c_scope with C.
#[global] Open Scope c_scope.

Definition char_code (a : ascii) : Z := Z.of_N (N_of_ascii a).

Notation "'chr' c" :=
  (ltac:(let v := eval vm_compute in (char_code c%char) in exact v))
  (at level 9, c at level 0, only parsing) : c_scope.

Abbreviation CR := 13 (only parsing).
Abbreviation LF := 10 (only parsing).
Abbreviation HT := 9 (only parsing).
Abbreviation FF := 12 (only parsing).

Fixpoint bytes (s : string) : list Z :=
  match s with
  | EmptyString => []
  | String a s' => char_code a :: bytes s'
  end.

(** [s[i]] for a C string literal: the terminating NUL is at index
    [strlen s]; [None] is a read outside the array. *)
Definition cstr_at (s : string) (i : Z) : option Z :=
  if i <? 0 then None else (bytes s ++ [0]) !! Z.to_nat i.

Definition strlen (s : string) : Z := Z.of_nat (length (bytes s)).

(** A byte buffer. *)
Definition is_byte (z : Z) : Prop := 0 <= z < 256.
Abbreviation is_buf := (Forall is_byte).

(** ** Fixed-width unsigned integers: reduction modulo [2^w]. *)

Definition uwrap (w : Z) (z : Z) : Z := z mod 2 ^ w.
Abbreviation u7 := (uwrap 7).
Abbreviation u8 := (uwrap 8).
Abbreviation u16 := (uwrap 16).
Abbreviation u32 := (uwrap 32).
Abbreviation u64 := (uwrap 64).

(** A conversion to a 32-bit [int]. *)
Definition s32 (z : Z) : Z := uwrap 32 (z + 2 ^ 31) - 2 ^ 31.

(** ** Buffer slices: [at] and [length] of the data callbacks. *)

Definition zlen {A} (l : list A) : Z := Z.of_nat (length l).

Definition slice {A} (l : list A) (off len : Z) : list A :=
  take (Z.to_nat len) (drop (Z.to_nat off) l).

Definition zlookup {A} (l : list A) (i : Z) : option A :=
  if i <? 0 then None else l !! Z.to_nat i.

(** [memchr(p, c, n)]: the index of the first [c] among the first [n] bytes. *)
Fixpoint memchr (l : list Z) (c : Z) (n : nat) : option nat :=
  match n, l with
  | S n', x :: l' => if x =? c then Some O else S <$> memchr l' c n'
  | _, _ => None
  end.

(** [l.erase(it)] for the first element equal to [x]. *)
Fixpoint erase (x : Z) (l : list Z) : list Z :=
  match l with
  | [] => []
  | y :: l' => if y =? x then l' else y :: erase x l'
  end.

(** [strtoul(s, NULL, 10)] with a 64-bit [unsigned long]: leading white space,
    an optional sign, then the longest run of digits, saturating at the largest
    value.  The characters are read one by one up to the first that is not a
    digit; [None] is a read behind the end of the memory [l]. *)
Definition isspace (c : Z) : bool := (c =? 32) || ((9 <=? c) && (c <=? 13)).

Fixpoint strtoul_digits (l : list Z) (acc : Z) : option Z :=
  match l with
  | [] => None
  | c :: l' =>
      if (48 <=? c) && (c <=? 57)
      then strtoul_digits l' (Z.min (2 ^ 64 - 1) (acc * 10 + (c - 48)))
      else Some acc
  end.

Definition strtoul_signed (l : list Z) : option Z :=
  match l with
  | [] => None
  | c :: l' =>
      if c =? 45 then (fun v => uwrap 64 (- v)) <$> strtoul_digits l' 0
      else if c =? 43 then strtoul_digits l' 0
      else strtoul_digits l 0
  end.

Fixpoint strtoul (l : list Z) : option Z :=
  match l with
  | [] => None
  | c :: l' => if isspace c then strtoul l' else strtoul_signed l
  end.

(** The value of a digit string in a base, continuing from [acc]. *)
Definition digits_value (base : Z) (dig : Z -> Z) (acc : Z) (l : list Z) : Z :=
  fold_left (fun a c => a * base + dig c) l acc.

Definition dec_digit (c : Z) : Z := c - chr "0".

(** ** Faults: what a C execution must never do. *)

Inductive fault :=
  | AssertFailed   (* [assert] fails, the process aborts *)
  | OutOfBounds    (* a read outside an array *)
  | Unterminated   (* a C string is read on behind its array *)
  | OutOfFuel      (* the bound of a loop of the model was too small *)
  | Uncaught       (* a C++ exception that nothing catches *)
  | Overflow.      (* a signed integer overflows *)

(** ** Tactics *)

(** A decidable fact about concrete data, by evaluation. *)
Ltac decide_now := refine (proj1 (bool_decide_eq_true _) _); vm_compute; reflexivity.

Create HintDb atb.

Ltac destr_bool :=
  repeat match goal with
  | H : (_ && _) = true |- _ => apply andb_true_iff in H; destruct H
  | H : (_ || _) = false |- _ => apply orb_false_iff in H; destruct H
  | H : negb _ = true |- _ => apply negb_true_iff in H
  | H : negb _ = false |- _ => apply negb_false_iff in H
  | H : (_ =? _) = true |- _ => apply Z.eqb_eq in H
  | H : (_ =? _) = false |- _ => apply Z.eqb_neq in H
  | H : (_ <? _) = true |- _ => apply Z.ltb_lt in H
  | H : (_ <? _) = false |- _ => apply Z.ltb_ge in H
  | H : (_ <=? _) = true |- _ => apply Z.leb_le in H
  | H : (_ <=? _) = false |- _ => apply Z.leb_gt in H
  end.

(** ** Generic lemmas *)

Lemma uwrap_small w z : 0 <= z < 2 ^ w -> uwrap w z = z.
Proof. intros H. unfold uwrap. by apply Z.mod_small. Qed.

Lemma s32_small z : - 2 ^ 31 <= z < 2 ^ 31 -> s32 z = z.
Proof. intros Hz. unfold s32. rewrite uwrap_small; lia. Qed.

Lemma uwrap_range w z : 0 <= w -> 0 <= uwrap w z < 2 ^ w.
Proof. intros Hw. unfold uwrap. apply Z.mod_pos_bound. lia. Qed.

Lemma uwrap_pred_succ w z : 0 <= z < 2 ^ w -> uwrap w (uwrap w (z - 1) + 1) = z.
Proof.
  intros H. unfold uwrap. rewrite Zplus_mod_idemp_l. replace (z - 1 + 1) with z by lia.
  by apply Z.mod_small.
Qed.

Lemma zlen_to_nat {A} (l : list A) : Z.to_nat (zlen l) = length l.
Proof. unfold zlen. apply Nat2Z.id. Qed.

Lemma zlen_nonneg {A} (l : list A) : 0 <= zlen l.
Proof. unfold zlen. lia. Qed.

Lemma zlen_app {A} (l k : list A) : zlen (l ++ k) = zlen l + zlen k.
Proof. unfold zlen. rewrite length_app. lia. Qed.

Lemma zlen_cons {A} (x : A) l : zlen (x :: l) = 1 + zlen l.
Proof. unfold zlen. simpl. lia. Qed.

Lemma zlookup_Some {A} (l : list A) i :
  0 <= i < zlen l -> exists x, zlookup l i = Some x.
Proof.
  intros H. unfold zlookup, zlen in *.
  destruct (Z.ltb_spec i 0); [lia|]. apply lookup_lt_is_Some_2. lia.
Qed.

Lemma zlookup_bound {A} (l : list A) i x : zlookup l i = Some x -> 0 <= i < zlen l.
Proof.
  unfold zlookup, zlen. destruct (Z.ltb_spec i 0); [done|].
  intros Hl%lookup_lt_Some. lia.
Qed.

Lemma zlookup_byte l i x : is_buf l -> zlookup l i = Some x -> is_byte x.
Proof.
  unfold zlookup. destruct (i <? 0); [done|]. apply Forall_lookup_1.
Qed.

Lemma slice_length {A} (l : list A) off len :
  0 <= off -> 0 <= len -> off + len <= zlen l -> zlen (slice l off len) = len.
Proof.
  intros. unfold slice, zlen in *. rewrite length_take, length_drop. lia.
Qed.

Lemma slice_app {A} (l : list A) off n m :
  0 <= off -> 0 <= n -> 0 <= m ->
  slice l off (n + m) = slice l off n ++ slice l (off + n) m.
Proof.
  intros. unfold slice. rewrite !Z2Nat.inj_add, <-take_take_drop by lia.
  by rewrite drop_drop.
Qed.

Lemma slice_one {A} (l : list A) i x : zlookup l i = Some x -> slice l i 1 = [x].
Proof.
  intros Hx. pose proof (zlookup_bound _ _ _ Hx). unfold zlookup in Hx.
  destruct (Z.ltb_spec i 0); [done|]. unfold slice. change (Z.to_nat 1) with 1%nat.
  by rewrite (drop_S _ _ _ Hx).
Qed.

Lemma cstr_at_Some s i : 0 <= i <= strlen s -> exists c, cstr_at s i = Some c.
Proof.
  intros H. unfold cstr_at, strlen in *. destruct (Z.ltb_spec i 0); [lia|].
  apply lookup_lt_is_Some_2. rewrite length_app. simpl. lia.
Qed.

Lemma memchr_lookup l c n i :
  memchr l c n = Some i -> (i < n)%nat /\ l !! i = Some c.
Proof.
  revert n i. induction l as [|x l IH]; intros [|n] i; simpl; try done.
  destruct (Z.eqb_spec x c) as [->|].
  - intros [= <-]. split; [lia|done].
  - destruct (memchr l c n) eqn:E; simpl; [|done]. intros [= <-].
    destruct (IH _ _ E). split; [lia|done].
Qed.

Lemma drop_zlookup {A} (l : list A) i : 0 <= i -> drop (Z.to_nat i) l !! 0%nat = zlookup l i.
Proof.
  intros. unfold zlookup. destruct (Z.ltb_spec i 0); [lia|].
  rewrite lookup_drop. by rewrite Nat.add_0_r.
Qed.

Lemma digits_value_mono base dig acc l :
  1 <= base -> 0 <= acc -> Forall (fun c => 0 <= dig c) l ->
  acc <= digits_value base dig acc l.
Proof.
  unfold digits_value. intros Hb. revert acc.
  induction l as [|c l IH]; intros acc Ha Hl; simpl; [lia|].
  apply Forall_cons in Hl as [Hc Hl].
  specialize (IH (acc * base + dig c) ltac:(nia) Hl). nia.
Qed.

Lemma filter_keeps {A} (P : A -> Prop) `{forall x, Decision (P x)} l : Forall P l -> filter P l = l.
Proof. induction 1 as [|x l Hx _ IH]; [done|]. by rewrite filter_cons_True, IH. Qed.

Lemma zlen_insert {A} (l : list A) k x : zlen (<[k := x]> l) = zlen l.
Proof. unfold zlen. by rewrite length_insert. Qed.

(** Writing at the end of a prefix extends it. *)
Lemma take_insert_snoc {A} (l : list A) k x :
  (k < length l)%nat -> take (S k) (<[k := x]> l) = take k l ++ [x].
Proof.
  intros Hk. rewrite (take_S_r _ _ x) by by apply list_lookup_insert_eq.
  by rewrite take_insert_ge by lia.
Qed.

Lemma drop_zlookup_cons {A} (l : list A) i x :
  zlookup l i = Some x -> drop (Z.to_nat i) l = x :: drop (Z.to_nat (i + 1)) l.
Proof.
  intros Hx. pose proof (zlookup_bound _ _ _ Hx). unfold zlookup in Hx.
  destruct (Z.ltb_spec i 0); [done|]. rewrite (drop_S _ _ _ Hx).
  by replace (Z.to_nat (i + 1)) with (S (Z.to_nat i)) by lia.
Qed.

Lemma elem_of_erase p q l : NoDup l -> q ∈ erase p l <-> q ∈ l /\ q <> p.
Proof.
  induction 1 as [|x l Hx Hnd IH]; cbn [erase]; [split; [by intros ?%not_elem_of_nil|by intros [?%not_elem_of_nil _]]|].
  destruct (Z.eqb_spec x p) as [->|Hne]; rewrite elem_of_cons.
  - split; [intros Hq; split; [by right|congruence]|]. by intros [[->|?] ?].
  - rewrite elem_of_cons, IH. intuition congruence.
Qed.

Lemma erase_NoDup p l : NoDup l -> NoDup (erase p l).
Proof.
  intros Hnd. induction Hnd as [|x l Hx Hnd IH]; cbn [erase]; [apply NoDup_nil_2|].
  destruct (x =? p); [done|]. apply NoDup_cons_2; [|done]. by rewrite elem_of_erase by done; intros [].
Qed.

Lemma erase_Permutation x l : x ∈ l -> x :: erase x l ≡ₚ l.
Proof.
  induction l as [|y l IH]; intros Hx; [by apply not_elem_of_nil in Hx|]. cbn [erase].
  destruct (Z.eqb_spec y x) as [->|Hne]; [done|]. apply elem_of_cons in Hx as [->|Hx]; [done|].
  by rewrite Permutation_swap, IH.
Qed.

#[export] Hint Resolve zlen_nonneg : atb.

(** ** What a push parser reports

    The trace of a parser's callbacks, newest first: notifications of kind [N] and data
    of kind [K].  A datum may be delivered in several pieces ([mark] to end of buffer,
    then the rest), so consecutive pieces of one kind are joined; two traces are equal
    when an application that concatenates the pieces sees the same. *)

Inductive event (N K : Type) :=
  | Note (n : N)
  | Data (k : K) (d : list Z).
Arguments Note {N K}.
Arguments Data {N K}.

Abbreviation trace N K := (list (event N K)).

Definition push_data {N K} `{EqDecision K} (k : K) (d : list Z) (t : trace N K)
  : trace N K :=
  match t with
  | Data k' d' :: t' =>
      if decide (k = k') then Data k (d' ++ d) :: t' else Data k d :: t
  | _ => Data k d :: t
  end.

(** Two pieces of one datum are recorded like the whole. *)
Lemma push_data_app {N K} `{EqDecision K} (k : K) d1 d2 (t : trace N K) :
  push_data k d2 (push_data k d1 t) = push_data k (d1 ++ d2) t.
Proof.
  destruct t as [|[] t']; simpl; try (by rewrite decide_True by done).
  case_decide; simpl; rewrite decide_True by done; [by rewrite app_assoc | done].
Qed.
