(* ===== verification/Control.v ===== *)
(** * Control: state passing with early exits

    The C routines thread a parser through long [switch] statements that leave
    early by [return], [goto error] or [goto reexecute].  A routine that uses
    state [S] and yields [A] is a function [S -> (A * S) + (J * S)]: [inl] is
    normal completion, [inr (j, s)] is the jump [j] taken in state [s].  [wp] is
    the corresponding weakest precondition. *)
From stdpp Require Import base tactics.
From S2P Require Import Prelude.

Definition Ctl (J S A : Type) : Type := S -> (A * S) + (J * S).

#[export] Instance ctl_ret J S : MRet (Ctl J S) := fun A a s => inl (a, s).

#[export] Instance ctl_bind J S : MBind (Ctl J S) := fun A B f m s =>
  match m s with
  | inl (a, s') => f a s'
  | inr e => inr e
  end.

Section Primitives.
Context {J S : Type}.

Definition gets {A} (f : S -> A) : Ctl J S A := fun s => inl (f s, s).
Definition modify (f : S -> S) : Ctl J S unit := fun s => inl (tt, f s).
Definition exit {A} (j : J) : Ctl J S A := fun s => inr (j, s).

(** [when b m]: an [if] without [else]. *)
Definition when (b : bool) (m : Ctl J S unit) : Ctl J S unit :=
  if b then m else mret tt.

Definition wp {A} (m : Ctl J S A) (s : S)
    (Q : A -> S -> Prop) (E : J -> S -> Prop) : Prop :=
  match m s with
  | inl (a, s') => Q a s'
  | inr (j, s') => E j s'
  end.

Lemma wp_ret {A} (a : A) s Q E : Q a s -> wp (mret a) s Q E.
Proof. done. Qed.

Lemma wp_bind {A B} (m : Ctl J S A) (f : A -> Ctl J S B) s Q E :
  wp m s (fun a s' => wp (f a) s' Q E) E -> wp (m ≫= f) s Q E.
Proof.
  unfold wp, mbind, ctl_bind. destruct (m s) as [[a s']|[j s']]; done.
Qed.

Lemma wp_gets {A} (f : S -> A) s Q E : Q (f s) s -> wp (gets f) s Q E.
Proof. done. Qed.

Lemma wp_modify (f : S -> S) s Q E : Q tt (f s) -> wp (modify f) s Q E.
Proof. done. Qed.

Lemma wp_exit {A} j s (Q : A -> S -> Prop) (E : J -> S -> Prop) :
  E j s -> wp (exit j) s Q E.
Proof. done. Qed.

Lemma wp_if {A} (b : bool) (m k : Ctl J S A) s Q E :
  (b = true -> wp m s Q E) -> (b = false -> wp k s Q E) ->
  wp (if b then m else k) s Q E.
Proof. destruct b; auto. Qed.

Lemma wp_when (b : bool) m s (Q : unit -> S -> Prop) E :
  (b = true -> wp m s Q E) -> (b = false -> Q tt s) -> wp (when b m) s Q E.
Proof. intros Hm Hn. destruct b; [exact (Hm eq_refl) | exact (Hn eq_refl)]. Qed.

Lemma wp_mono {A} (m : Ctl J S A) s (Q Q' : A -> S -> Prop) (E E' : J -> S -> Prop) :
  (forall a s', Q a s' -> Q' a s') -> (forall j s', E j s' -> E' j s') ->
  wp m s Q E -> wp m s Q' E'.
Proof. unfold wp. destruct (m s) as [[]|[]]; auto. Qed.

Lemma wp_and {A} (m : Ctl J S A) s (Q Q' : A -> S -> Prop) (E E' : J -> S -> Prop) :
  wp m s Q E -> wp m s Q' E' ->
  wp m s (fun a s' => Q a s' /\ Q' a s') (fun j s' => E j s' /\ E' j s').
Proof. unfold wp. destruct (m s) as [[]|[]]; auto. Qed.

(** The two directions between [wp] and the value of a computation. *)
Lemma wp_run {A} (m : Ctl J S A) s (Q : A -> S -> Prop) :
  wp m s Q (fun _ _ => False) -> exists a s', m s = inl (a, s') /\ Q a s'.
Proof. unfold wp. destruct (m s) as [[a s']|[]]; [eauto|done]. Qed.

Lemma wp_returns {A} (m : Ctl J S A) s Q : wp m s Q (fun _ _ => False) -> exists a s', m s = inl (a, s').
Proof. unfold wp. destruct (m s) as [[a s']|[j s']]; [by eexists _, _|done]. Qed.

Lemma wp_inl {A} (m : Ctl J S A) s a s' (Q : A -> S -> Prop) E :
  m s = inl (a, s') -> wp m s Q E -> Q a s'.
Proof. unfold wp. by intros ->. Qed.

Lemma wp_inr {A} (m : Ctl J S A) s j s' (Q : A -> S -> Prop) E :
  m s = inr (j, s') -> wp m s Q E -> E j s'.
Proof. unfold wp. by intros ->. Qed.

Lemma wp_of_run {A} (m : Ctl J S A) s a s' (Q : A -> S -> Prop) E : m s = inl (a, s') -> Q a s' -> wp m s Q E.
Proof. unfold wp. by intros ->. Qed.

(** Running a computation step by step. *)
Lemma run_bind {A B} (m : Ctl J S A) (f : A -> Ctl J S B) s a s' r :
  m s = inl (a, s') -> f a s' = r -> (m ≫= f) s = r.
Proof. unfold mbind, ctl_bind. by intros -> ->. Qed.

Lemma run_when (b : bool) (m : Ctl J S unit) s s' : (b = true -> m s = inl (tt, s')) -> (b = false -> s' = s) -> when b m s = inl (tt, s').
Proof. destruct b; [auto|]. intros _ H. by rewrite H. Qed.

End Primitives.

#[global] Opaque wp.

(** One syntactic step of a weakest-precondition goal. *)
Ltac wp_step :=
  lazymatch goal with
  | |- wp (_ ≫= _) _ _ _ => apply wp_bind
  | |- wp (mret _) _ _ _ => apply wp_ret
  | |- wp (gets _) _ _ _ => apply wp_gets
  | |- wp (modify _) _ _ _ => apply wp_modify
  | |- wp (exit _) _ _ _ => apply wp_exit
  | |- wp (when _ _) _ _ _ => apply wp_when; intros ?
  | |- wp (if _ then _ else _) _ _ _ => apply wp_if; intros ?
  end.
