(* ===== verification/HttpDefs.v ===== *)
(** * HttpDefs: the data of http_parser

    The types of [http_parser.h] (methods, parser types, flags, error numbers,
    the parser object, the URL object) and the enumerations, tables and
    character-class macros of [http_parser.c].  The build switch
    [HTTP_PARSER_STRICT] is the boolean argument [strict] of the definitions
    that depend on it ([make package] builds the library with the value 0,
    the header's default is 1). *)
From S2P Require Import Prelude.

(** ** http_parser.h *)

Inductive http_method :=
  | HTTP_DELETE | HTTP_GET | HTTP_HEAD | HTTP_POST | HTTP_PUT
  | HTTP_CONNECT | HTTP_OPTIONS | HTTP_TRACE
  | HTTP_COPY | HTTP_LOCK | HTTP_MKCOL | HTTP_MOVE | HTTP_PROPFIND
  | HTTP_PROPPATCH | HTTP_SEARCH | HTTP_UNLOCK | HTTP_BIND | HTTP_REBIND
  | HTTP_UNBIND | HTTP_ACL
  | HTTP_REPORT | HTTP_MKACTIVITY | HTTP_CHECKOUT | HTTP_MERGE
  | HTTP_MSEARCH | HTTP_NOTIFY | HTTP_SUBSCRIBE | HTTP_UNSUBSCRIBE
  | HTTP_PATCH | HTTP_PURGE | HTTP_MKCALENDAR | HTTP_LINK | HTTP_UNLINK.

#[export] Instance http_method_eq_dec : EqDecision http_method.
Proof. solve_decision. Defined.

Definition all_methods : list http_method :=
  [HTTP_DELETE; HTTP_GET; HTTP_HEAD; HTTP_POST; HTTP_PUT; HTTP_CONNECT;
   HTTP_OPTIONS; HTTP_TRACE; HTTP_COPY; HTTP_LOCK; HTTP_MKCOL; HTTP_MOVE;
   HTTP_PROPFIND; HTTP_PROPPATCH; HTTP_SEARCH; HTTP_UNLOCK; HTTP_BIND;
   HTTP_REBIND; HTTP_UNBIND; HTTP_ACL; HTTP_REPORT; HTTP_MKACTIVITY;
   HTTP_CHECKOUT; HTTP_MERGE; HTTP_MSEARCH; HTTP_NOTIFY; HTTP_SUBSCRIBE;
   HTTP_UNSUBSCRIBE; HTTP_PATCH; HTTP_PURGE; HTTP_MKCALENDAR; HTTP_LINK;
   HTTP_UNLINK].

(** The [num] column of [HTTP_METHOD_MAP]. *)
Definition http_method_num (m : http_method) : Z :=
  match m with
  | HTTP_DELETE => 0 | HTTP_GET => 1 | HTTP_HEAD => 2 | HTTP_POST => 3
  | HTTP_PUT => 4 | HTTP_CONNECT => 5 | HTTP_OPTIONS => 6 | HTTP_TRACE => 7
  | HTTP_COPY => 8 | HTTP_LOCK => 9 | HTTP_MKCOL => 10 | HTTP_MOVE => 11
  | HTTP_PROPFIND => 12 | HTTP_PROPPATCH => 13 | HTTP_SEARCH => 14
  | HTTP_UNLOCK => 15 | HTTP_BIND => 16 | HTTP_REBIND => 17
  | HTTP_UNBIND => 18 | HTTP_ACL => 19 | HTTP_REPORT => 20
  | HTTP_MKACTIVITY => 21 | HTTP_CHECKOUT => 22 | HTTP_MERGE => 23
  | HTTP_MSEARCH => 24 | HTTP_NOTIFY => 25 | HTTP_SUBSCRIBE => 26
  | HTTP_UNSUBSCRIBE => 27 | HTTP_PATCH => 28 | HTTP_PURGE => 29
  | HTTP_MKCALENDAR => 30 | HTTP_LINK => 31 | HTTP_UNLINK => 32
  end.

(** [static const char *method_strings[]]: the [string] column, in order. *)
Definition method_strings : list string :=
  ["DELETE"; "GET"; "HEAD"; "POST"; "PUT"; "CONNECT"; "OPTIONS"; "TRACE";
   "COPY"; "LOCK"; "MKCOL"; "MOVE"; "PROPFIND"; "PROPPATCH"; "SEARCH";
   "UNLOCK"; "BIND"; "REBIND"; "UNBIND"; "ACL"; "REPORT"; "MKACTIVITY";
   "CHECKOUT"; "MERGE"; "M-SEARCH"; "NOTIFY"; "SUBSCRIBE"; "UNSUBSCRIBE";
   "PATCH"; "PURGE"; "MKCALENDAR"; "LINK"; "UNLINK"]%string.

(** [method_strings[m]] for a value of the enumeration. *)
Definition method_string (m : http_method) : string :=
  default "<unknown>"%string (zlookup method_strings (http_method_num m)).

(** [http_method_str]: [ELEM_AT(method_strings, m, "<unknown>")], where [m] is
    the number passed by the caller, converted to [unsigned int]. *)
Definition http_method_str (m : Z) : string :=
  if u32 m <? zlen method_strings
  then default "<unknown>"%string (zlookup method_strings (u32 m))
  else "<unknown>"%string.

Inductive http_parser_type := HTTP_REQUEST | HTTP_RESPONSE | HTTP_BOTH.

#[export] Instance http_parser_type_eq_dec : EqDecision http_parser_type.
Proof. solve_decision. Defined.

(** [enum flags]: bits of the 7-bit field [http_parser.flags]. *)
Definition F_CHUNKED : Z := Z.shiftl 1 0.
Definition F_CONNECTION_KEEP_ALIVE : Z := Z.shiftl 1 1.
Definition F_CONNECTION_CLOSE : Z := Z.shiftl 1 2.
Definition F_CONNECTION_UPGRADE : Z := Z.shiftl 1 3.
Definition F_TRAILING : Z := Z.shiftl 1 4.
Definition F_UPGRADE : Z := Z.shiftl 1 5.
Definition F_SKIPBODY : Z := Z.shiftl 1 6.

(** [enum http_errno], generated from [HTTP_ERRNO_MAP]. *)
Inductive http_errno :=
  | HPE_OK
  | HPE_CB_message_begin | HPE_CB_url | HPE_CB_header_field
  | HPE_CB_header_value | HPE_CB_headers_complete | HPE_CB_body
  | HPE_CB_message_complete | HPE_CB_status | HPE_CB_chunk_header
  | HPE_CB_chunk_complete
  | HPE_INVALID_EOF_STATE | HPE_HEADER_OVERFLOW | HPE_CLOSED_CONNECTION
  | HPE_INVALID_VERSION | HPE_INVALID_STATUS | HPE_INVALID_METHOD
  | HPE_INVALID_URL | HPE_INVALID_HOST | HPE_INVALID_PORT
  | HPE_INVALID_PATH | HPE_INVALID_QUERY_STRING | HPE_INVALID_FRAGMENT
  | HPE_LF_EXPECTED | HPE_INVALID_HEADER_TOKEN
  | HPE_INVALID_CONTENT_LENGTH | HPE_INVALID_CHUNK_SIZE
  | HPE_INVALID_CONSTANT | HPE_INVALID_INTERNAL_STATE | HPE_STRICT
  | HPE_PAUSED | HPE_UNKNOWN.

#[export] Instance http_errno_eq_dec : EqDecision http_errno.
Proof. solve_decision. Defined.

(** [http_strerror_tab[err].description]. *)
Definition http_errno_description (e : http_errno) : string :=
  match e with
  | HPE_OK => "success"
  | HPE_CB_message_begin => "the on_message_begin callback failed"
  | HPE_CB_url => "the on_url callback failed"
  | HPE_CB_header_field => "the on_header_field callback failed"
  | HPE_CB_header_value => "the on_header_value callback failed"
  | HPE_CB_headers_complete => "the on_headers_complete callback failed"
  | HPE_CB_body => "the on_body callback failed"
  | HPE_CB_message_complete => "the on_message_complete callback failed"
  | HPE_CB_status => "the on_status callback failed"
  | HPE_CB_chunk_header => "the on_chunk_header callback failed"
  | HPE_CB_chunk_complete => "the on_chunk_complete callback failed"
  | HPE_INVALID_EOF_STATE => "stream ended at an unexpected time"
  | HPE_HEADER_OVERFLOW => "too many header bytes seen; overflow detected"
  | HPE_CLOSED_CONNECTION =>
      "data received after completed connection: close message"
  | HPE_INVALID_VERSION => "invalid HTTP version"
  | HPE_INVALID_STATUS => "invalid HTTP status code"
  | HPE_INVALID_METHOD => "invalid HTTP method"
  | HPE_INVALID_URL => "invalid URL"
  | HPE_INVALID_HOST => "invalid host"
  | HPE_INVALID_PORT => "invalid port"
  | HPE_INVALID_PATH => "invalid path"
  | HPE_INVALID_QUERY_STRING => "invalid query string"
  | HPE_INVALID_FRAGMENT => "invalid fragment"
  | HPE_LF_EXPECTED => "LF character expected"
  | HPE_INVALID_HEADER_TOKEN => "invalid character in header"
  | HPE_INVALID_CONTENT_LENGTH => "invalid character in content-length header"
  | HPE_INVALID_CHUNK_SIZE => "invalid character in chunk size header"
  | HPE_INVALID_CONSTANT => "invalid constant string"
  | HPE_INVALID_INTERNAL_STATE => "encountered unexpected internal state"
  | HPE_STRICT => "strict mode assertion failed"
  | HPE_PAUSED => "parser is paused"
  | HPE_UNKNOWN => "an unknown error occurred"
  end%string.

(** [http_strerror_tab[err].name]: ["HPE_" #n]. *)
Definition http_errno_name (e : http_errno) : string :=
  match e with
  | HPE_OK => "HPE_OK"
  | HPE_CB_message_begin => "HPE_CB_message_begin"
  | HPE_CB_url => "HPE_CB_url"
  | HPE_CB_header_field => "HPE_CB_header_field"
  | HPE_CB_header_value => "HPE_CB_header_value"
  | HPE_CB_headers_complete => "HPE_CB_headers_complete"
  | HPE_CB_body => "HPE_CB_body"
  | HPE_CB_message_complete => "HPE_CB_message_complete"
  | HPE_CB_status => "HPE_CB_status"
  | HPE_CB_chunk_header => "HPE_CB_chunk_header"
  | HPE_CB_chunk_complete => "HPE_CB_chunk_complete"
  | HPE_INVALID_EOF_STATE => "HPE_INVALID_EOF_STATE"
  | HPE_HEADER_OVERFLOW => "HPE_HEADER_OVERFLOW"
  | HPE_CLOSED_CONNECTION => "HPE_CLOSED_CONNECTION"
  | HPE_INVALID_VERSION => "HPE_INVALID_VERSION"
  | HPE_INVALID_STATUS => "HPE_INVALID_STATUS"
  | HPE_INVALID_METHOD => "HPE_INVALID_METHOD"
  | HPE_INVALID_URL => "HPE_INVALID_URL"
  | HPE_INVALID_HOST => "HPE_INVALID_HOST"
  | HPE_INVALID_PORT => "HPE_INVALID_PORT"
  | HPE_INVALID_PATH => "HPE_INVALID_PATH"
  | HPE_INVALID_QUERY_STRING => "HPE_INVALID_QUERY_STRING"
  | HPE_INVALID_FRAGMENT => "HPE_INVALID_FRAGMENT"
  | HPE_LF_EXPECTED => "HPE_LF_EXPECTED"
  | HPE_INVALID_HEADER_TOKEN => "HPE_INVALID_HEADER_TOKEN"
  | HPE_INVALID_CONTENT_LENGTH => "HPE_INVALID_CONTENT_LENGTH"
  | HPE_INVALID_CHUNK_SIZE => "HPE_INVALID_CHUNK_SIZE"
  | HPE_INVALID_CONSTANT => "HPE_INVALID_CONSTANT"
  | HPE_INVALID_INTERNAL_STATE => "HPE_INVALID_INTERNAL_STATE"
  | HPE_STRICT => "HPE_STRICT"
  | HPE_PAUSED => "HPE_PAUSED"
  | HPE_UNKNOWN => "HPE_UNKNOWN"
  end%string.

(** [HTTP_MAX_HEADER_SIZE], [ULLONG_MAX] and the version. *)
Definition HTTP_MAX_HEADER_SIZE : Z := 80 * 1024.
Definition ULLONG_MAX : Z := 2 ^ 64 - 1.

Definition http_parser_version : Z :=
  Z.lor (Z.lor (2 * 0x10000) (6 * 0x00100)) (0 * 0x00001).

(** ** http_parser.c: enumerations *)

Inductive state :=
  | s_dead
  | s_start_req_or_res | s_res_or_resp_H | s_start_res | s_res_H | s_res_HT
  | s_res_HTT | s_res_HTTP | s_res_first_http_major | s_res_http_major
  | s_res_first_http_minor | s_res_http_minor | s_res_first_status_code
  | s_res_status_code | s_res_status_start | s_res_status
  | s_res_line_almost_done
  | s_start_req
  | s_req_method | s_req_spaces_before_url | s_req_schema
  | s_req_schema_slash | s_req_schema_slash_slash | s_req_server_start
  | s_req_server | s_req_server_with_at | s_req_path
  | s_req_query_string_start | s_req_query_string | s_req_fragment_start
  | s_req_fragment | s_req_http_start | s_req_http_H | s_req_http_HT
  | s_req_http_HTT | s_req_http_HTTP | s_req_first_http_major
  | s_req_http_major | s_req_first_http_minor | s_req_http_minor
  | s_req_line_almost_done
  | s_header_field_start | s_header_field | s_header_value_discard_ws
  | s_header_value_discard_ws_almost_done | s_header_value_discard_lws
  | s_header_value_start | s_header_value | s_header_value_lws
  | s_header_almost_done
  | s_chunk_size_start | s_chunk_size | s_chunk_parameters
  | s_chunk_size_almost_done
  | s_headers_almost_done | s_headers_done
  | s_chunk_data | s_chunk_data_almost_done | s_chunk_data_done
  | s_body_identity | s_body_identity_eof
  | s_message_done.

#[export] Instance state_eq_dec : EqDecision state.
Proof. solve_decision. Defined.

(** [PARSING_HEADER(state)]: [state <= s_headers_done] in declaration order. *)
Definition PARSING_HEADER (s : state) : bool :=
  match s with
  | s_chunk_data | s_chunk_data_almost_done | s_chunk_data_done
  | s_body_identity | s_body_identity_eof | s_message_done => false
  | _ => true
  end.

Inductive header_states :=
  | h_general | h_C | h_CO | h_CON
  | h_matching_connection | h_matching_proxy_connection
  | h_matching_content_length | h_matching_transfer_encoding
  | h_matching_upgrade
  | h_connection | h_content_length | h_transfer_encoding | h_upgrade
  | h_matching_transfer_encoding_chunked | h_matching_connection_token_start
  | h_matching_connection_keep_alive | h_matching_connection_close
  | h_matching_connection_upgrade | h_matching_connection_token
  | h_transfer_encoding_chunked | h_connection_keep_alive
  | h_connection_close | h_connection_upgrade.

#[export] Instance header_states_eq_dec : EqDecision header_states.
Proof. solve_decision. Defined.

Inductive http_host_state :=
  | s_http_host_dead | s_http_userinfo_start | s_http_userinfo
  | s_http_host_start | s_http_host_v6_start | s_http_host | s_http_host_v6
  | s_http_host_v6_end | s_http_host_v6_zone_start | s_http_host_v6_zone
  | s_http_host_port_start | s_http_host_port.

#[export] Instance http_host_state_eq_dec : EqDecision http_host_state.
Proof. solve_decision. Defined.

(** ** http_parser.c: tables *)

(** [static const char tokens[256]]; the entries from 128 on are left out of
    the initialiser and therefore 0. *)
Definition tokens : list Z :=
  [0; 0; 0; 0; 0; 0; 0; 0;
   0; 0; 0; 0; 0; 0; 0; 0;
   0; 0; 0; 0; 0; 0; 0; 0;
   0; 0; 0; 0; 0; 0; 0; 0;
   0; chr "!"; 0; chr "#"; chr "$"; chr "%"; chr "&"; chr "'";
   0; 0; chr "*"; chr "+"; 0; chr "-"; chr "."; 0;
   chr "0"; chr "1"; chr "2"; chr "3"; chr "4"; chr "5"; chr "6"; chr "7";
   chr "8"; chr "9"; 0; 0; 0; 0; 0; 0;
   0; chr "a"; chr "b"; chr "c"; chr "d"; chr "e"; chr "f"; chr "g";
   chr "h"; chr "i"; chr "j"; chr "k"; chr "l"; chr "m"; chr "n"; chr "o";
   chr "p"; chr "q"; chr "r"; chr "s"; chr "t"; chr "u"; chr "v"; chr "w";
   chr "x"; chr "y"; chr "z"; 0; 0; 0; chr "^"; chr "_";
   chr "`"; chr "a"; chr "b"; chr "c"; chr "d"; chr "e"; chr "f"; chr "g";
   chr "h"; chr "i"; chr "j"; chr "k"; chr "l"; chr "m"; chr "n"; chr "o";
   chr "p"; chr "q"; chr "r"; chr "s"; chr "t"; chr "u"; chr "v"; chr "w";
   chr "x"; chr "y"; chr "z"; 0; chr "|"; 0; chr "~"; 0]
  ++ repeat 0 128.

(** [static const int8_t unhex[256]]: eight rows of sixteen, the missing
    entries from 128 on are 0. *)
Definition unhex : list Z :=
  repeat (-1) 48
  ++ [0; 1; 2; 3; 4; 5; 6; 7; 8; 9; -1; -1; -1; -1; -1; -1]
  ++ [-1; 10; 11; 12; 13; 14; 15; -1; -1; -1; -1; -1; -1; -1; -1; -1]
  ++ repeat (-1) 16
  ++ [-1; 10; 11; 12; 13; 14; 15; -1; -1; -1; -1; -1; -1; -1; -1; -1]
  ++ repeat (-1) 16
  ++ repeat 0 128.

(** [T(v)]: 0 in strict mode, [v] otherwise. *)
Definition T (strict : bool) (v : Z) : Z := if strict then 0 else v.

(** [static const uint8_t normal_url_char[32]], one byte per eight
    characters; the entries from 16 on are 0. *)
Definition normal_url_char (strict : bool) : list Z :=
  let full := 255 in
  [0; Z.lor (T strict 2) (T strict 16); 0; 0;
   2 + 4 + 16 + 32 + 64 + 128; full; full; 1 + 2 + 4 + 8 + 16 + 32 + 64;
   full; full; full; full; full; full; full; 1 + 2 + 4 + 8 + 16 + 32 + 64]
  ++ repeat 0 16.

(** [BIT_AT(a, i)] *)
Definition BIT_AT (a : list Z) (i : Z) : bool :=
  negb (Z.land (default 0 (zlookup a (Z.shiftr i 3)))
               (Z.shiftl 1 (Z.land i 7)) =? 0).

(** ** http_parser.c: character classes *)

Definition LOWER (c : Z) : Z := u8 (Z.lor c 0x20).
Definition IS_ALPHA (c : Z) : bool :=
  (chr "a" <=? LOWER c) && (LOWER c <=? chr "z").
Definition IS_NUM (c : Z) : bool := (chr "0" <=? c) && (c <=? chr "9").
Definition IS_ALPHANUM (c : Z) : bool := IS_ALPHA c || IS_NUM c.
Definition IS_HEX (c : Z) : bool :=
  IS_NUM c || ((chr "a" <=? LOWER c) && (LOWER c <=? chr "f")).
Definition IS_MARK (c : Z) : bool :=
  (c =? chr "-") || (c =? chr "_") || (c =? chr ".") || (c =? chr "!")
  || (c =? chr "~") || (c =? chr "*") || (c =? chr "'") || (c =? chr "(")
  || (c =? chr ")").
Definition IS_USERINFO_CHAR (c : Z) : bool :=
  IS_ALPHANUM c || IS_MARK c || (c =? chr "%") || (c =? chr ";")
  || (c =? chr ":") || (c =? chr "&") || (c =? chr "=") || (c =? chr "+")
  || (c =? chr "$") || (c =? chr ",").

(** [tokens[(unsigned char)c]]; the index is always inside the table. *)
Definition STRICT_TOKEN (c : Z) : Z := default 0 (zlookup tokens (u8 c)).

Definition TOKEN (strict : bool) (c : Z) : Z :=
  if strict then STRICT_TOKEN c
  else if c =? chr " " then chr " " else STRICT_TOKEN c.

Definition IS_URL_CHAR (strict : bool) (c : Z) : bool :=
  if strict then BIT_AT (normal_url_char strict) (u8 c)
  else BIT_AT (normal_url_char strict) (u8 c) || negb (Z.land c 0x80 =? 0).

Definition IS_HOST_CHAR (strict : bool) (c : Z) : bool :=
  if strict then IS_ALPHANUM c || (c =? chr ".") || (c =? chr "-")
  else IS_ALPHANUM c || (c =? chr ".") || (c =? chr "-") || (c =? chr "_").

(** [unhex[(unsigned char)ch]] *)
Definition unhex_at (c : Z) : Z := default (-1) (zlookup unhex (u8 c)).

(** ** Digits *)

Lemma dec_digits_pos l :
  Forall (fun ch => IS_NUM ch = true) l -> Forall (fun ch => 0 <= dec_digit ch) l.
Proof.
  intros H. eapply Forall_impl; [exact H|]. intros x Hx. cbn beta in Hx.
  unfold IS_NUM in Hx. destr_bool. unfold dec_digit. lia.
Qed.
