(* ===== verification/HttpUrl.v ===== *)
(** * HttpUrl: the URL parser of http_parser.c

    [parse_url_char], [http_parse_host_char], [http_parse_host] and
    [http_parser_parse_url], over the memory [buf] that starts at the pointer
    passed by the caller (it may extend beyond the [buflen] bytes of the URL). *)
From S2P Require Import Prelude HttpDefs.

Section UrlChar.
Variable strict : bool.

(** [parse_url_char]: the transition of the URL automaton. *)
Definition parse_url_char (s : state) (ch : Z) : state :=
  if (ch =? chr " ") || (ch =? CR) || (ch =? LF) then s_dead
  else if strict && ((ch =? HT) || (ch =? FF)) then s_dead
  else
  let server :=
    if ch =? chr "/" then s_req_path
    else if ch =? chr "?" then s_req_query_string_start
    else if ch =? chr "@" then s_req_server_with_at
    else if IS_USERINFO_CHAR ch || (ch =? chr "[") || (ch =? chr "]")
    then s_req_server
    else s_dead in
  match s with
  | s_req_spaces_before_url =>
      if (ch =? chr "/") || (ch =? chr "*") then s_req_path
      else if IS_ALPHA ch then s_req_schema
      else s_dead
  | s_req_schema =>
      if IS_ALPHA ch then s
      else if ch =? chr ":" then s_req_schema_slash
      else s_dead
  | s_req_schema_slash =>
      if ch =? chr "/" then s_req_schema_slash_slash else s_dead
  | s_req_schema_slash_slash =>
      if ch =? chr "/" then s_req_server_start else s_dead
  | s_req_server_with_at =>
      if ch =? chr "@" then s_dead else server
  | s_req_server_start | s_req_server => server
  | s_req_path =>
      if IS_URL_CHAR strict ch then s
      else if ch =? chr "?" then s_req_query_string_start
      else if ch =? chr "#" then s_req_fragment_start
      else s_dead
  | s_req_query_string_start | s_req_query_string =>
      if IS_URL_CHAR strict ch then s_req_query_string
      else if ch =? chr "?" then s_req_query_string
      else if ch =? chr "#" then s_req_fragment_start
      else s_dead
  | s_req_fragment_start =>
      if IS_URL_CHAR strict ch then s_req_fragment
      else if ch =? chr "?" then s_req_fragment
      else if ch =? chr "#" then s
      else s_dead
  | s_req_fragment =>
      if IS_URL_CHAR strict ch then s
      else if (ch =? chr "?") || (ch =? chr "#") then s
      else s_dead
  | _ => s_dead
  end.

(** [http_parse_host_char]: the transition of the host automaton. *)
Definition http_parse_host_char (s : http_host_state) (ch : Z)
  : http_host_state :=
  let host_v6_end :=
    if ch =? chr ":" then s_http_host_port_start else s_http_host_dead in
  let host_v6_start :=
    if IS_HEX ch || (ch =? chr ":") || (ch =? chr ".") then s_http_host_v6
    else if bool_decide (s = s_http_host_v6) && (ch =? chr "%")
    then s_http_host_v6_zone_start
    else s_http_host_dead in
  let host_v6_zone_start :=
    if IS_ALPHANUM ch || (ch =? chr "%") || (ch =? chr ".")
       || (ch =? chr "-") || (ch =? chr "_") || (ch =? chr "~")
    then s_http_host_v6_zone
    else s_http_host_dead in
  match s with
  | s_http_userinfo | s_http_userinfo_start =>
      if ch =? chr "@" then s_http_host_start
      else if IS_USERINFO_CHAR ch then s_http_userinfo
      else s_http_host_dead
  | s_http_host_start =>
      if ch =? chr "[" then s_http_host_v6_start
      else if IS_HOST_CHAR strict ch then s_http_host
      else s_http_host_dead
  | s_http_host =>
      if IS_HOST_CHAR strict ch then s_http_host else host_v6_end
  | s_http_host_v6_end => host_v6_end
  | s_http_host_v6 =>
      if ch =? chr "]" then s_http_host_v6_end else host_v6_start
  | s_http_host_v6_start => host_v6_start
  | s_http_host_v6_zone =>
      if ch =? chr "]" then s_http_host_v6_end else host_v6_zone_start
  | s_http_host_v6_zone_start => host_v6_zone_start
  | s_http_host_port | s_http_host_port_start =>
      if IS_NUM ch then s_http_host_port else s_http_host_dead
  | s_http_host_dead => s_http_host_dead
  end.

End UrlChar.

(** ** struct http_parser_url *)

Inductive http_parser_url_fields :=
  | UF_SCHEMA | UF_HOST | UF_PORT | UF_PATH | UF_QUERY | UF_FRAGMENT
  | UF_USERINFO | UF_MAX.

#[export] Instance http_parser_url_fields_eq_dec :
  EqDecision http_parser_url_fields.
Proof. solve_decision. Defined.

Definition uf_num (f : http_parser_url_fields) : Z :=
  match f with
  | UF_SCHEMA => 0 | UF_HOST => 1 | UF_PORT => 2 | UF_PATH => 3
  | UF_QUERY => 4 | UF_FRAGMENT => 5 | UF_USERINFO => 6 | UF_MAX => 7
  end.

(** [field_data[UF_MAX]] as a function of the field; [off] and [len] are
    [uint16_t]. *)
Record http_parser_url := mk_url {
  field_set : Z;
  port : Z;
  fd_off : http_parser_url_fields -> Z;
  fd_len : http_parser_url_fields -> Z;
}.

(** [memset] of the whole object with 0. *)
Definition http_parser_url_init : http_parser_url :=
  mk_url 0 0 (fun _ => 0) (fun _ => 0).

Definition fset (f : http_parser_url_fields) (v : Z)
    (g : http_parser_url_fields -> Z) : http_parser_url_fields -> Z :=
  fun f' => if bool_decide (f' = f) then v else g f'.

Definition set_off (f : http_parser_url_fields) (v : Z) (u : http_parser_url)
  : http_parser_url := mk_url (field_set u) (port u) (fset f (u16 v) (fd_off u)) (fd_len u).
Definition set_len (f : http_parser_url_fields) (v : Z) (u : http_parser_url)
  : http_parser_url := mk_url (field_set u) (port u) (fd_off u) (fset f (u16 v) (fd_len u)).
Definition add_field (f : http_parser_url_fields) (u : http_parser_url)
  : http_parser_url :=
  mk_url (u16 (Z.lor (field_set u) (Z.shiftl 1 (uf_num f)))) (port u) (fd_off u) (fd_len u).
Definition set_port (v : Z) (u : http_parser_url) : http_parser_url :=
  mk_url (field_set u) (u16 v) (fd_off u) (fd_len u).

(** [u->field_set & (1 << f)] *)
Definition has_field (u : http_parser_url) (f : http_parser_url_fields) : bool :=
  negb (Z.land (field_set u) (Z.shiftl 1 (uf_num f)) =? 0).

Section ParseUrl.
Variable strict : bool.
Variable buf : list Z.

(** The [switch(new_s)] of the loop of [http_parse_host]: record the byte at
    offset [p], whose transition was from [s] to [new_s]. *)
Definition host_record (s new_s : http_host_state) (p : Z)
    (u : http_parser_url) : http_parser_url :=
  let inc f u := set_len f (fd_len u f + 1) u in
  match new_s with
  | s_http_host =>
      let u := if bool_decide (s = s_http_host) then u else set_off UF_HOST p u in
      inc UF_HOST u
  | s_http_host_v6 =>
      let u := if bool_decide (s = s_http_host_v6) then u else set_off UF_HOST p u in
      inc UF_HOST u
  | s_http_host_v6_zone_start | s_http_host_v6_zone => inc UF_HOST u
  | s_http_host_port =>
      let u := if bool_decide (s = s_http_host_port) then u
               else add_field UF_PORT (set_len UF_PORT 0 (set_off UF_PORT p u)) in
      inc UF_PORT u
  | s_http_userinfo =>
      let u := if bool_decide (s = s_http_userinfo) then u
               else add_field UF_USERINFO
                      (set_len UF_USERINFO 0 (set_off UF_USERINFO p u)) in
      inc UF_USERINFO u
  | _ => u
  end.

(** The [for] loop of [http_parse_host], [n] iterations from offset [p]:
    [inl (None, u)] is [return 1], [inl (Some s, u)] the end of the loop. *)
Fixpoint http_parse_host_loop (n : nat) (p : Z) (s : http_host_state)
    (u : http_parser_url) : (option http_host_state * http_parser_url) + fault :=
  match n with
  | O => inl (Some s, u)
  | S n' =>
      match zlookup buf p with
      | None => inr OutOfBounds
      | Some ch =>
          let new_s := http_parse_host_char strict s ch in
          if bool_decide (new_s = s_http_host_dead) then inl (None, u)
          else http_parse_host_loop n' (p + 1) new_s (host_record s new_s p u)
      end
  end.

(** The final [switch(s)]: states in which a host must not end. *)
Definition host_bad_end (s : http_host_state) : bool :=
  match s with
  | s_http_host_start | s_http_host_v6_start | s_http_host_v6
  | s_http_host_v6_zone_start | s_http_host_v6_zone
  | s_http_host_port_start | s_http_userinfo | s_http_userinfo_start => true
  | _ => false
  end.

Definition http_parse_host (u : http_parser_url) (found_at : bool)
  : (Z * http_parser_url) + fault :=
  if negb (has_field u UF_HOST) then inr AssertFailed else
  let off := fd_off u UF_HOST in
  let buflen := off + fd_len u UF_HOST in
  let u := set_len UF_HOST 0 u in
  let s := if found_at then s_http_userinfo_start else s_http_host_start in
  match http_parse_host_loop (Z.to_nat (buflen - off)) off s u with
  | inr f => inr f
  | inl (None, u) => inl (1, u)
  | inl (Some s, u) => if host_bad_end s then inl (1, u) else inl (0, u)
  end.

(** The first [switch(s)] of the loop of [http_parser_parse_url]. *)
Inductive url_action :=
  | UA_fail                                (* [return 1] *)
  | UA_skip                                (* a delimiter: [continue] *)
  | UA_field (uf : http_parser_url_fields) (* a byte of the field [uf] *)
  | UA_assert.                             (* [assert(!"Unexpected state")] *)

Definition url_action_of (s : state) : url_action :=
  match s with
  | s_dead => UA_fail
  | s_req_schema_slash | s_req_schema_slash_slash | s_req_server_start
  | s_req_query_string_start | s_req_fragment_start => UA_skip
  | s_req_schema => UA_field UF_SCHEMA
  | s_req_server_with_at | s_req_server => UA_field UF_HOST
  | s_req_path => UA_field UF_PATH
  | s_req_query_string => UA_field UF_QUERY
  | s_req_fragment => UA_field UF_FRAGMENT
  | _ => UA_assert
  end.

(** The [for] loop of [http_parser_parse_url], [n] iterations from offset [p];
    [inl (None, u)] is [return 1]. *)
Fixpoint parse_url_loop (n : nat) (p : Z) (s : state)
    (old_uf : http_parser_url_fields) (found_at : bool) (u : http_parser_url)
  : (option bool * http_parser_url) + fault :=
  match n with
  | O => inl (Some found_at, u)
  | S n' =>
      match zlookup buf p with
      | None => inr OutOfBounds
      | Some ch =>
          let s := parse_url_char strict s ch in
          let found_at :=
            if bool_decide (s = s_req_server_with_at) then true else found_at in
          match url_action_of s with
          | UA_fail => inl (None, u)
          | UA_assert => inr AssertFailed
          | UA_skip => parse_url_loop n' (p + 1) s old_uf found_at u
          | UA_field uf =>
              if bool_decide (uf = old_uf)
              then parse_url_loop n' (p + 1) s old_uf found_at
                     (set_len uf (fd_len u uf + 1) u)
              else parse_url_loop n' (p + 1) s uf found_at
                     (add_field uf (set_len uf 1 (set_off uf p u)))
          end
      end
  end.

(** The port conversion at the end of [http_parser_parse_url]. *)
Definition parse_url_port (u : http_parser_url) : (Z * http_parser_url) + fault :=
  if has_field u UF_PORT then
    match strtoul (drop (Z.to_nat (fd_off u UF_PORT)) buf) with
    | None => inr OutOfBounds
    | Some v => if 0xffff <? v then inl (1, u) else inl (0, set_port v u)
    end
  else inl (0, u).

Definition parse_url_checks (is_connect found_at : bool) (u : http_parser_url)
  : (Z * http_parser_url) + fault :=
  if has_field u UF_SCHEMA && negb (has_field u UF_HOST) then inl (1, u) else
  let k u :=
    if is_connect
       && negb (field_set u =? Z.lor (Z.shiftl 1 (uf_num UF_HOST))
                                     (Z.shiftl 1 (uf_num UF_PORT)))
    then inl (1, u)
    else parse_url_port u in
  if has_field u UF_HOST then
    match http_parse_host u found_at with
    | inr f => inr f
    | inl (r, u) => if negb (r =? 0) then inl (1, u) else k u
    end
  else k u.

(** [http_parser_parse_url]: the return value and the URL object. *)
Definition http_parser_parse_url (buflen : Z) (is_connect : bool)
    (u : http_parser_url) : (Z * http_parser_url) + fault :=
  let u := mk_url 0 0 (fd_off u) (fd_len u) in
  let s := if is_connect then s_req_server_start else s_req_spaces_before_url in
  match parse_url_loop (Z.to_nat buflen) 0 s UF_MAX false u with
  | inr f => inr f
  | inl (None, u) => inl (1, u)
  | inl (Some found_at, u) => parse_url_checks is_connect found_at u
  end.

End ParseUrl.
