(* ===== verification/HttpUrlProps.v ===== *)
(** * HttpUrlProps: properties of http_parser_parse_url

    No fault and fields inside the URL for every input, and the parse of a URL
    that was built from its components. *)
From S2P Require Import Prelude HttpDefs HttpUrl.

(** ** Vocabulary *)

(** Some byte at or behind [n] is not a digit: where [strtoul] has to stop. *)
Definition terminated (buf : list Z) (n : Z) : Prop :=
  exists c, zlookup buf n = Some c /\ IS_NUM c = false.

(** A recorded field. *)
Definition field_in (u : http_parser_url) (f : http_parser_url_fields) (n : Z) : Prop :=
  has_field u f = true -> 0 <= fd_off u f /\ 0 <= fd_len u f /\ fd_off u f + fd_len u f <= n.

(** The fields of the first loop. *)
Definition main_field (f : http_parser_url_fields) : bool :=
  match f with
  | UF_SCHEMA | UF_HOST | UF_PATH | UF_QUERY | UF_FRAGMENT => true
  | _ => false
  end.

(** ** Lemmas on the URL object *)

Lemma has_field_testbit u f : has_field u f = Z.testbit (field_set u) (uf_num f).
Proof.
  unfold has_field. rewrite Z.shiftl_1_l.
  assert (0 <= uf_num f) by by destruct f.
  destruct (Z.testbit (field_set u) (uf_num f)) eqn:Hb.
  - apply negb_true_iff, Z.eqb_neq. intros H0.
    apply (f_equal (fun z => Z.testbit z (uf_num f))) in H0.
    by rewrite Z.land_spec, Hb, Z.pow2_bits_true, Z.bits_0 in H0 by done.
  - apply negb_false_iff, Z.eqb_eq, Z.bits_inj_0. intros n.
    rewrite Z.land_spec. destruct (decide (n = uf_num f)) as [->|Hn]; [by rewrite Hb|].
    by rewrite Z.pow2_bits_false, andb_false_r.
Qed.

Lemma uf_num_inj f g : uf_num f = uf_num g -> f = g.
Proof. by destruct f, g. Qed.

Lemma has_add_field f u g :
  has_field (add_field f u) g = bool_decide (g = f) || has_field u g.
Proof.
  rewrite !has_field_testbit. unfold add_field, uwrap. cbn [field_set].
  assert (0 <= uf_num g < 16) by by destruct g.
  assert (0 <= uf_num f) by by destruct f.
  rewrite Z.mod_pow2_bits_low by lia. rewrite Z.lor_spec, Z.shiftl_1_l, orb_comm. f_equal.
  case_bool_decide as Hg; [subst; by apply Z.pow2_bits_true|].
  apply Z.pow2_bits_false. intros Hn. by apply Hg, uf_num_inj.
Qed.

Lemma fset_eq f v g : fset f v g f = v.
Proof. unfold fset. by rewrite bool_decide_true. Qed.

Lemma fset_ne f v g f' : f' <> f -> fset f v g f' = g f'.
Proof. intros. unfold fset. by rewrite bool_decide_false. Qed.

Ltac url_simp :=
  unfold set_off, set_len; cbn [field_set port fd_off fd_len];
  rewrite ?has_add_field; cbn [add_field field_set port fd_off fd_len];
  rewrite ?fset_eq; rewrite ?fset_ne by done; rewrite ?(uwrap_small 16) by lia.

(** ** The main loop *)

(** What the main loop has recorded when it is at offset [p]. *)
Record main_inv (p : Z) (old_uf : http_parser_url_fields) (u : http_parser_url) : Prop := {
  mi_in f : field_in u f p;
  mi_main f : has_field u f = true -> main_field f = true;
  mi_old : old_uf = UF_MAX \/ has_field u old_uf = true;
}.

Lemma field_in_mono u f n m : n <= m -> field_in u f n -> field_in u f m.
Proof. intros ? Hin Hf. destruct (Hin Hf) as (? & ? & ?). lia. Qed.

Lemma url_action_main s uf : url_action_of s = UA_field uf -> main_field uf = true.
Proof. destruct s; intros [= <-]; done. Qed.

Lemma url_action_dead strict s ch : url_action_of (parse_url_char strict s ch) <> UA_assert.
Proof. unfold parse_url_char. repeat case_match; done. Qed.

Lemma has_set_len u f v g : has_field (set_len f v u) g = has_field u g.
Proof. done. Qed.

Lemma main_extend p uf u :
  0 <= p < 65535 -> main_inv p uf u -> uf <> UF_MAX ->
  main_inv (p + 1) uf (set_len uf (fd_len u uf + 1) u).
Proof.
  intros Hp [Hin Hmain Hold] Huf. assert (Hset : has_field u uf = true) by by destruct Hold.
  destruct (Hin uf Hset) as (? & ? & ?). split.
  - intros f Hf. rewrite has_set_len in Hf. unfold set_len. cbn [fd_off fd_len].
    destruct (decide (f = uf)) as [->|Hne].
    + rewrite fset_eq, uwrap_small by lia. lia.
    + rewrite fset_ne by done. destruct (Hin f Hf) as (? & ? & ?). lia.
  - intros f. rewrite has_set_len. apply Hmain.
  - right. by rewrite has_set_len.
Qed.

Lemma main_add p old uf u :
  0 <= p < 65535 -> main_inv p old u -> main_field uf = true ->
  main_inv (p + 1) uf (add_field uf (set_len uf 1 (set_off uf p u))).
Proof.
  intros Hp [Hin Hmain _] Huf. split.
  - intros f Hf. rewrite has_add_field in Hf. unfold add_field, set_len, set_off.
    cbn [fd_off fd_len]. destruct (decide (f = uf)) as [->|Hne].
    + rewrite !fset_eq, !uwrap_small by lia. lia.
    + rewrite !fset_ne by done. rewrite bool_decide_false in Hf by done.
      destruct (Hin f Hf) as (? & ? & ?). lia.
  - intros f. rewrite has_add_field. case_bool_decide; [by subst|]. apply Hmain.
  - right. rewrite has_add_field. by rewrite bool_decide_true.
Qed.

Lemma main_loop_total strict buf : forall n p s old fa u,
  0 <= p -> p + Z.of_nat n <= zlen buf -> p + Z.of_nat n <= 65535 -> main_inv p old u ->
  exists r u', parse_url_loop strict buf n p s old fa u = inl (r, u') /\
    (r <> None -> exists old', main_inv (p + Z.of_nat n) old' u').
Proof.
  induction n as [|n IH]; intros p s old fa u Hp Hn Hmax Hinv; cbn [parse_url_loop].
  - exists (Some fa), u. split; [done|]. intros _. exists old. by rewrite Z.add_0_r.
  - destruct (zlookup_Some buf p) as [ch Hch]; [lia|]. rewrite Hch.
    pose proof (url_action_dead strict s ch) as Hdead.
    replace (p + Z.of_nat (S n)) with (p + 1 + Z.of_nat n) by lia.
    destruct (url_action_of (parse_url_char strict s ch)) as [| |uf|] eqn:Hact; try done.
    + by exists None, u.
    + apply IH; try lia. destruct Hinv as [Hin Hmain Hold]. split; [|done..].
      intros f. eapply field_in_mono; [|apply Hin]. lia.
    + pose proof (url_action_main _ _ Hact) as Huf.
      case_bool_decide as He; apply IH; try lia.
      * subst. apply main_extend; [lia|done|by destruct old].
      * apply (main_add _ old); done || lia.
Qed.

(** ** The host *)

(** The states before the first byte of the host proper. *)
Definition host_empty (s : http_host_state) : bool :=
  match s with
  | s_http_userinfo_start | s_http_userinfo | s_http_host_start | s_http_host_v6_start => true
  | _ => false
  end.

(** The fields of the host loop. *)
Definition host_field (f : http_parser_url_fields) : bool :=
  match f with UF_HOST | UF_PORT | UF_USERINFO => true | _ => false end.

Definition host_in (u : http_parser_url) (f : http_parser_url_fields) (n : Z) : Prop :=
  host_field f = true -> field_in u f n.

(** What the host loop has recorded when it is at offset [p] in state [s]. *)
Record host_inv (buf : list Z) (p : Z) (s : http_host_state) (u : http_parser_url) : Prop := {
  hi_in f : host_in u f p;
  hi_host : has_field u UF_HOST = true;
  hi_empty : host_empty s = true -> fd_len u UF_HOST = 0;
  hi_port : has_field u UF_PORT = bool_decide (s = s_http_host_port);
  hi_userinfo : s = s_http_userinfo -> has_field u UF_USERINFO = true;
  hi_digits : has_field u UF_PORT = true ->
    0 < fd_len u UF_PORT /\ fd_off u UF_PORT + fd_len u UF_PORT = p /\
    Forall (fun c => IS_NUM c = true) (slice buf (fd_off u UF_PORT) (fd_len u UF_PORT));
}.

Lemma slice_snoc (buf : list Z) i n x :
  0 <= i -> 0 <= n -> zlookup buf (i + n) = Some x ->
  slice buf i (n + 1) = slice buf i n ++ [x].
Proof. intros. rewrite slice_app by lia. by rewrite (slice_one _ _ x). Qed.

(** The transitions that the invariant depends on. *)
Lemma host_char_empty strict s ch :
  host_empty (http_parse_host_char strict s ch) = true -> host_empty s = true.
Proof. unfold http_parse_host_char. destruct s; repeat case_match; done. Qed.

Lemma host_char_enter strict s ch s' :
  http_parse_host_char strict s ch = s' -> s' = s_http_host \/ s' = s_http_host_v6 ->
  s = s' \/ host_empty s = true.
Proof.
  unfold http_parse_host_char. intros <- Hs. destruct s; repeat case_match; destruct Hs; auto; done.
Qed.

Lemma host_char_port strict s ch :
  http_parse_host_char strict s ch = s_http_host_port -> IS_NUM ch = true.
Proof. unfold http_parse_host_char. destruct s; repeat case_match; done. Qed.

Lemma host_char_userinfo strict s ch :
  http_parse_host_char strict s ch = s_http_userinfo -> host_empty s = true.
Proof. unfold http_parse_host_char. destruct s; repeat case_match; done. Qed.

Lemma host_char_leave strict ch :
  http_parse_host_char strict s_http_host_port ch = s_http_host_port \/
  http_parse_host_char strict s_http_host_port ch = s_http_host_dead.
Proof. simpl. destruct (IS_NUM ch); auto. Qed.

(** One more byte of a field that is already recorded. *)
Lemma inc_in u f p g :
  0 <= p < 65535 -> (forall g, host_in u g p) -> host_field f = true ->
  has_field u f = true -> host_in (set_len f (fd_len u f + 1) u) g (p + 1).
Proof.
  intros Hp Hin Hh Hf Hgh Hg. rewrite has_set_len in Hg. destruct (Hin f Hh Hf) as (? & ? & ?).
  unfold set_len. cbn [fd_off fd_len]. destruct (decide (g = f)) as [->|Hne].
  - rewrite fset_eq, uwrap_small by lia. lia.
  - rewrite fset_ne by done. destruct (Hin g Hgh Hg) as (? & ? & ?). lia.
Qed.

Lemma start_in u f p g :
  0 <= p < 65535 -> (forall g, host_in u g p) -> (g = f -> fd_len u f = 0) ->
  host_in (set_off f p u) g p.
Proof.
  intros Hp Hin Hlen Hgh Hg. unfold set_off in *. cbn [fd_off fd_len].
  change (has_field _ g = true) with (has_field u g = true) in Hg.
  destruct (decide (g = f)) as [->|Hne].
  - rewrite fset_eq, uwrap_small by lia. rewrite Hlen by done. lia.
  - rewrite fset_ne by done. by apply Hin.
Qed.

Lemma add_in u f p g :
  0 <= p < 65535 -> (forall g, host_in u g p) ->
  host_in (add_field f (set_len f 0 (set_off f p u))) g p.
Proof.
  intros Hp Hin Hgh Hg. rewrite has_add_field in Hg. unfold add_field, set_len, set_off in *.
  cbn [fd_off fd_len]. destruct (decide (g = f)) as [->|Hne].
  - rewrite !fset_eq, !uwrap_small by lia. lia.
  - rewrite !fset_ne by done. rewrite bool_decide_false in Hg by done. by apply Hin.
Qed.

Lemma inc_other u f g v : g <> f -> fd_len (set_len f v u) g = fd_len u g.
Proof. intros. unfold set_len. cbn [fd_len]. by rewrite fset_ne. Qed.

(** In a state without a port, the invariant needs these facts only. *)
Lemma host_inv_intro buf p s u :
  (forall f, host_in u f p) -> has_field u UF_HOST = true ->
  (host_empty s = true -> fd_len u UF_HOST = 0) -> has_field u UF_PORT = false ->
  s <> s_http_host_port -> (s = s_http_userinfo -> has_field u UF_USERINFO = true) ->
  host_inv buf p s u.
Proof.
  intros. split; try done; [by rewrite bool_decide_false|congruence].
Qed.

(** The first byte of the port. *)
Lemma port_first buf p u ch :
  0 <= p < 65535 -> zlookup buf p = Some ch -> IS_NUM ch = true ->
  (forall f, host_in u f p) -> has_field u UF_HOST = true ->
  host_inv buf (p + 1) s_http_host_port
    (let u := add_field UF_PORT (set_len UF_PORT 0 (set_off UF_PORT p u)) in
     set_len UF_PORT (fd_len u UF_PORT + 1) u).
Proof.
  intros Hp Hch Hnum Hin Hhost. cbv zeta. set (v := add_field _ _).
  assert (Hv : has_field v UF_PORT = true) by (unfold v; by rewrite has_add_field).
  assert (Hlen : fd_len v UF_PORT = 0) by done.
  assert (Hoff : fd_off v UF_PORT = p) by (apply uwrap_small; lia).
  split; try done.
  - intros f. apply inc_in; [lia|intros g; apply add_in; done || lia|done|done].
  - rewrite has_set_len. unfold v. rewrite has_add_field. by rewrite bool_decide_false.
  - rewrite Hlen. intros _. change (fd_off (set_len _ _ v) UF_PORT) with (fd_off v UF_PORT).
    change (fd_len (set_len UF_PORT (0 + 1) v) UF_PORT) with 1. rewrite Hoff.
    split; [lia|]. split; [done|]. rewrite (slice_one _ _ _ Hch). by constructor.
Qed.

(** A byte of the host proper: [off] is set on entry. *)
Lemma host_byte buf p s u v :
  0 <= p < 65535 -> (forall f, host_in u f p) -> has_field u UF_HOST = true ->
  has_field u UF_PORT = false -> host_empty s = false -> s <> s_http_host_port ->
  s <> s_http_userinfo ->
  v = u \/ v = set_off UF_HOST p u /\ fd_len u UF_HOST = 0 ->
  host_inv buf (p + 1) s (set_len UF_HOST (fd_len v UF_HOST + 1) v).
Proof.
  intros Hp Hin Hhost Hport He Hs Hs' Hv.
  apply host_inv_intro; try done; try (rewrite ?He; done).
  - intros f. apply inc_in; [lia| |done|by destruct Hv as [->|[-> ?]]].
    destruct Hv as [->|[-> ?]]; [done|]. intros g. by apply start_in.
  - by destruct Hv as [->|[-> ?]].
  - by destruct Hv as [->|[-> ?]].
Qed.

Lemma userinfo_byte buf p s u :
  0 <= p < 65535 -> host_inv buf p s u -> s <> s_http_host_port -> host_empty s = true ->
  host_inv buf (p + 1) s_http_userinfo (host_record s s_http_userinfo p u).
Proof.
  intros Hp [Hin Hhost Hempty Hport Huser _] Hs He. rewrite bool_decide_false in Hport by done.
  specialize (Hempty He). unfold host_record. case_bool_decide as Hsu.
  - apply host_inv_intro; try done; [|auto..].
    intros f. apply inc_in; auto.
  - apply host_inv_intro; rewrite ?has_set_len, ?has_add_field; try done.
    intros f. apply inc_in; [lia|intros g; apply add_in; done || lia|done|].
    by rewrite has_add_field, bool_decide_true.
Qed.

(** The next byte of the port. *)
Lemma port_next buf p u ch :
  0 <= p < 65535 -> zlookup buf p = Some ch -> IS_NUM ch = true ->
  host_inv buf p s_http_host_port u ->
  host_inv buf (p + 1) s_http_host_port
    (host_record s_http_host_port s_http_host_port p u).
Proof.
  intros Hp Hch Hnum [Hin Hhost _ Hport _ Hdig]. rewrite bool_decide_true in Hport by done.
  unfold host_record. rewrite bool_decide_true by done.
  destruct (Hdig Hport) as (Hl & Hend & Hall). destruct (Hin UF_PORT eq_refl Hport) as (? & ? & ?).
  split; try done.
  - intros f. by apply inc_in.
  - intros _. unfold set_len. cbn [fd_off fd_len]. rewrite fset_eq, uwrap_small by lia.
    split; [lia|]. split; [lia|]. rewrite (slice_snoc _ _ _ ch) by (rewrite ?Hend; done || lia).
    apply Forall_app. split; [done|]. by constructor.
Qed.

(** A transition that records nothing. *)
Lemma silent_step buf p s s' u :
  host_inv buf p s u -> s <> s_http_host_port -> s' <> s_http_host_port ->
  s' <> s_http_userinfo -> (host_empty s' = true -> host_empty s = true) ->
  host_inv buf (p + 1) s' u.
Proof.
  intros [Hin Hhost Hempty Hport _ _] Hs Hs' Hu He. rewrite bool_decide_false in Hport by done.
  apply host_inv_intro; auto; try congruence. intros f Hf. eapply field_in_mono; [|by apply Hin]. lia.
Qed.

(** A transition into the host proper or its zone. *)
Lemma proper_step buf p s s' u :
  0 <= p < 65535 -> host_inv buf p s u -> s <> s_http_host_port ->
  s' = s_http_host \/ s' = s_http_host_v6 \/ s' = s_http_host_v6_zone_start \/
  s' = s_http_host_v6_zone ->
  (s' = s_http_host \/ s' = s_http_host_v6 -> s = s' \/ host_empty s = true) ->
  host_inv buf (p + 1) s' (host_record s s' p u).
Proof.
  intros Hp [Hin Hhost Hempty Hport _ _] Hs Hs' Hent. rewrite bool_decide_false in Hport by done.
  destruct Hs' as [->|[->|[->| ->]]]; unfold host_record; try case_bool_decide;
    apply (host_byte _ _ _ u); auto; right; (split; [done|]); apply Hempty;
    destruct Hent as [?|?]; auto; done.
Qed.

Lemma host_step strict buf p s u ch :
  0 <= p < 65535 -> zlookup buf p = Some ch -> host_inv buf p s u ->
  let s' := http_parse_host_char strict s ch in
  s' <> s_http_host_dead -> host_inv buf (p + 1) s' (host_record s s' p u).
Proof.
  intros Hp Hch Hinv s' Hdead.
  pose proof (host_char_empty strict s ch) as He. pose proof (host_char_enter strict s ch s' eq_refl) as Hent.
  pose proof (host_char_port strict s ch) as Hnum. pose proof (host_char_userinfo strict s ch) as Hu.
  fold s' in He, Hnum, Hu.
  destruct (decide (s = s_http_host_port)) as [->|Hsp].
  { destruct (host_char_leave strict ch) as [Hs'|Hs']; fold s' in Hs'; [|done]. rewrite Hs' in *.
    apply (port_next _ _ _ ch); auto. }
  clearbody s'. destruct s'; try (by apply proper_step; auto).
  - by apply (silent_step _ _ s).
  - apply userinfo_byte; auto.
  - by apply (silent_step _ _ s).
  - by apply (silent_step _ _ s).
  - by apply (silent_step _ _ s).
  - by apply (silent_step _ _ s).
  - destruct Hinv as [Hin Hhost _ _ _ _]. unfold host_record. rewrite bool_decide_false by done.
    apply (port_first _ _ _ ch); auto.
Qed.

(** The whole loop. *)
Lemma host_loop_total strict buf : forall n p s u,
  0 <= p -> p + Z.of_nat n <= zlen buf -> p + Z.of_nat n <= 65535 -> host_inv buf p s u ->
  exists r u', http_parse_host_loop strict buf n p s u = inl (r, u') /\
    (forall s', r = Some s' -> host_inv buf (p + Z.of_nat n) s' u').
Proof.
  induction n as [|n IH]; intros p s u Hp Hn Hmax Hinv; cbn [http_parse_host_loop].
  - exists (Some s), u. split; [done|]. intros s' [= <-]. by rewrite Z.add_0_r.
  - destruct (zlookup_Some buf p) as [ch Hch]; [lia|]. rewrite Hch.
    replace (p + Z.of_nat (S n)) with (p + 1 + Z.of_nat n) by lia.
    case_bool_decide; [by exists None, u|].
    apply IH; try lia. apply (host_step strict _ _ _ _ ch); done || lia.
Qed.

(** ** The port *)

Lemma strtoul_digits_stop l acc :
  Exists (fun c => IS_NUM c = false) l -> exists v, strtoul_digits l acc = Some v.
Proof.
  revert acc. induction l as [|c l IH]; intros acc Hl; [by inversion Hl|].
  cbn [strtoul_digits]. change ((48 <=? c) && (c <=? 57)) with (IS_NUM c).
  destruct (IS_NUM c) eqn:Hc; [|by eexists]. apply IH.
  apply Exists_cons in Hl as [Hl|Hl]; [congruence|done].
Qed.

(** Saturation commutes with reading digits. *)
Lemma strtoul_digits_value ds c rest acc :
  0 <= acc -> Forall (fun c => IS_NUM c = true) ds -> IS_NUM c = false ->
  strtoul_digits (ds ++ c :: rest) (Z.min (2 ^ 64 - 1) acc) =
  Some (Z.min (2 ^ 64 - 1) (digits_value 10 dec_digit acc ds)).
Proof.
  intros Ha Hds Hc. revert acc Ha. induction ds as [|d ds IH]; intros acc Ha;
    cbn [app strtoul_digits].
  - change ((48 <=? c) && (c <=? 57)) with (IS_NUM c). by rewrite Hc.
  - apply Forall_cons in Hds as [Hd Hds].
    change ((48 <=? d) && (d <=? 57)) with (IS_NUM d). rewrite Hd.
    unfold IS_NUM in Hd. destr_bool.
    change (digits_value 10 dec_digit acc (d :: ds))
      with (digits_value 10 dec_digit (acc * 10 + dec_digit d) ds).
    rewrite <-(IH Hds (acc * 10 + dec_digit d)) by (unfold dec_digit; lia).
    f_equal. unfold dec_digit. lia.
Qed.

Lemma strtoul_first d l : IS_NUM d = true -> strtoul (d :: l) = strtoul_digits (d :: l) 0.
Proof.
  intros Hd. unfold IS_NUM in Hd. destr_bool. unfold strtoul, isspace, strtoul_signed.
  rewrite (proj2 (Z.eqb_neq d 32)), (proj2 (Z.leb_gt d 13)), andb_false_r by lia.
  by rewrite (proj2 (Z.eqb_neq d 45)), (proj2 (Z.eqb_neq d 43)) by lia.
Qed.

Lemma drop_slice (buf : list Z) i n :
  0 <= i -> 0 <= n -> drop (Z.to_nat i) buf = slice buf i n ++ drop (Z.to_nat (i + n)) buf.
Proof.
  intros. unfold slice. rewrite Z2Nat.inj_add, <-drop_drop by lia. by rewrite take_drop.
Qed.

Lemma terminated_exists buf i n :
  0 <= i <= n -> terminated buf n -> Exists (fun c => IS_NUM c = false) (drop (Z.to_nat i) buf).
Proof.
  intros Hi (c & Hc & Hd). apply Exists_exists. exists c. split; [|done].
  apply list_elem_of_lookup. exists (Z.to_nat n - Z.to_nat i)%nat.
  unfold zlookup in Hc. rewrite (proj2 (Z.ltb_ge n 0)) in Hc by lia.
  rewrite lookup_drop. by replace (Z.to_nat i + (Z.to_nat n - Z.to_nat i))%nat with (Z.to_nat n) by lia.
Qed.

(** [strtoul] on a run of digits: it stops, and reads the run if a byte that is
    not a digit follows. *)
Lemma port_strtoul buf off len n :
  0 <= off -> 0 < len -> off + len <= n -> terminated buf n ->
  Forall (fun c => IS_NUM c = true) (slice buf off len) ->
  exists v, strtoul (drop (Z.to_nat off) buf) = Some v /\
    (terminated buf (off + len) ->
     v = Z.min (2 ^ 64 - 1) (digits_value 10 dec_digit 0 (slice buf off len))).
Proof.
  intros Ho Hl Hn Hterm Hall.
  assert (Hlen : zlen (slice buf off len) = len).
  { destruct Hterm as (c & Hc & _). apply zlookup_bound in Hc. apply slice_length; lia. }
  pose proof (terminated_exists buf off n ltac:(lia) Hterm) as Hex.
  pose proof (drop_slice buf off len Ho ltac:(lia)) as Hdrop.
  destruct (slice buf off len) as [|d ds] eqn:Hds; [unfold zlen in Hlen; simpl in Hlen; lia|].
  pose proof (Forall_inv Hall) as Hd. cbn beta in Hd.
  rewrite Hdrop in Hex |- *. cbn [app] in Hex |- *. rewrite strtoul_first by done.
  destruct (strtoul_digits_stop _ 0 Hex) as [v Hv]. exists v. split; [done|].
  intros (c & Hc & Hcn). rewrite (drop_zlookup_cons _ _ _ Hc) in Hv.
  change (strtoul_digits _ 0) with
    (strtoul_digits ((d :: ds) ++ c :: drop (Z.to_nat (off + len + 1)) buf)
       (Z.min (2 ^ 64 - 1) 0)) in Hv.
  rewrite strtoul_digits_value in Hv by done. congruence.
Qed.

(** A port field: digits up to [e], and what is stored for them. *)
Lemma port_total buf u e n :
  host_inv buf e s_http_host_port u \/ has_field u UF_PORT = false ->
  0 <= e <= n -> terminated buf n ->
  exists r u', parse_url_port buf u = inl (r, u') /\
    (r = 0 -> field_set u' = field_set u /\ fd_off u' = fd_off u /\ fd_len u' = fd_len u /\
      (has_field u UF_PORT = true -> terminated buf e ->
       port u' = digits_value 10 dec_digit 0 (slice buf (fd_off u UF_PORT) (fd_len u UF_PORT)))).
Proof.
  intros Hinv He Hn. unfold parse_url_port.
  destruct (has_field u UF_PORT) eqn:Hport.
  2: { exists 0, u. by repeat split. }
  destruct Hinv as [[Hin _ _ _ _ Hdig]|]; [|done].
  destruct (Hdig Hport) as (Hl & Hend & Hall). destruct (Hin UF_PORT eq_refl Hport) as (Ho & _ & _).
  destruct (port_strtoul buf _ _ n Ho Hl ltac:(lia) Hn Hall) as (v & -> & Hv). rewrite Hend in Hv.
  destruct (Z.ltb_spec 0xffff v).
  - by exists 1, u.
  - exists 0, (set_port v u). split; [done|]. intros _. repeat split. intros _ Ht.
    specialize (Hv Ht). unfold set_port. cbn [port].
    pose proof (digits_value_mono 10 dec_digit 0 _ ltac:(lia) ltac:(lia) (dec_digits_pos _ Hall)).
    rewrite uwrap_small; lia.
Qed.

(** ** The whole function *)

(** The two objects agree on a field. *)
Definition same_field (u v : http_parser_url) (f : http_parser_url_fields) : Prop :=
  has_field v f = has_field u f /\ fd_off v f = fd_off u f /\ fd_len v f = fd_len u f.

Lemma same_set_len u g f v : f <> g -> same_field u (set_len g v u) f.
Proof. intros. split; [done|]. split; [done|]. by apply inc_other. Qed.

Lemma same_set_off u g f v : f <> g -> same_field u (set_off g v u) f.
Proof. intros. split; [done|]. unfold set_off. cbn [fd_off fd_len]. by rewrite fset_ne. Qed.

Lemma same_add_field u g f : f <> g -> same_field u (add_field g u) f.
Proof. intros. split; [|done]. rewrite has_add_field. by rewrite bool_decide_false. Qed.

Lemma same_trans u v w f : same_field u v f -> same_field v w f -> same_field u w f.
Proof. unfold same_field. intuition congruence. Qed.

(** Through a chain of assignments to other fields. *)
Ltac same_chain :=
  repeat first
    [ by repeat split
    | eapply same_trans;
      [| first [apply same_set_len; done | apply same_set_off; done | apply same_add_field; done]] ].

Lemma host_record_other s s' p u f :
  host_field f = false -> same_field u (host_record s s' p u) f.
Proof.
  intros Hf. assert (f <> UF_HOST /\ f <> UF_PORT /\ f <> UF_USERINFO) as (? & ? & ?)
    by by destruct f.
  destruct s'; unfold host_record; try case_bool_decide; same_chain.
Qed.

Lemma host_loop_other strict buf f : host_field f = false -> forall n p s u r u',
  http_parse_host_loop strict buf n p s u = inl (r, u') -> same_field u u' f.
Proof.
  intros Hf. induction n as [|n IH]; intros p s u r u'; cbn [http_parse_host_loop].
  - by intros [= <- <-].
  - destruct (zlookup buf p) as [ch|]; [|done]. case_bool_decide; [by intros [= <- <-]|].
    intros H1%IH. eapply same_trans; [|exact H1]. by apply host_record_other.
Qed.

Lemma host_total strict buf u found_at n :
  (forall f, field_in u f n) -> (forall f, has_field u f = true -> main_field f = true) ->
  has_field u UF_HOST = true -> 0 <= n <= 65535 -> n < zlen buf ->
  exists r u', http_parse_host strict buf u found_at = inl (r, u') /\
    (r = 0 -> (exists s, host_inv buf (fd_off u UF_HOST + fd_len u UF_HOST) s u') /\
              forall f, host_field f = false -> same_field u u' f).
Proof.
  intros Hin Hmain Hhost Hn Hbuf. unfold http_parse_host. rewrite Hhost. cbn [negb].
  destruct (Hin _ Hhost) as (Ho & Hl & He).
  set (s := if found_at then _ else _). set (k := Z.to_nat _).
  destruct (host_loop_total strict buf k (fd_off u UF_HOST) s (set_len UF_HOST 0 u))
    as (r & u' & Hloop & Hinv); try lia.
  { apply host_inv_intro; try done; try (by destruct found_at).
    - intros f Hhf Hf. rewrite has_set_len in Hf.
      destruct f; try done; try (by apply Hmain in Hf).
      change (fd_len (set_len _ _ u) UF_HOST) with 0.
      change (fd_off (set_len _ _ u) UF_HOST) with (fd_off u UF_HOST). lia.
    - destruct (has_field _ UF_PORT) eqn:Hp; [|done]. by apply Hmain in Hp. }
  rewrite Hloop. destruct r as [s'|]; [|by exists 1, u'].
  destruct (host_bad_end s'); [by exists 1, u'|]. exists 0, u'. split; [done|]. intros _. split.
  - exists s'. specialize (Hinv s' eq_refl).
    by replace (fd_off u UF_HOST + Z.of_nat k) with (fd_off u UF_HOST + fd_len u UF_HOST) in Hinv by lia.
  - intros f Hf. eapply same_trans; [|by eapply host_loop_other].
    apply same_set_len. by destruct f.
Qed.

(** What a successful parse promises. *)
Definition url_ok (buf : list Z) (buflen : Z) (u : http_parser_url) : Prop :=
  (forall f, f <> UF_MAX -> field_in u f buflen) /\
  (has_field u UF_PORT = true ->
   0 < fd_len u UF_PORT /\
   Forall (fun c => IS_NUM c = true) (slice buf (fd_off u UF_PORT) (fd_len u UF_PORT)) /\
   (terminated buf (fd_off u UF_PORT + fd_len u UF_PORT) ->
    port u = digits_value 10 dec_digit 0 (slice buf (fd_off u UF_PORT) (fd_len u UF_PORT)))).

Lemma url_ok_port buf n u :
  (forall f, f <> UF_MAX -> field_in u f n) ->
  (exists e, (host_inv buf e s_http_host_port u \/ has_field u UF_PORT = false) /\ 0 <= e <= n) ->
  0 <= n <= 65535 -> terminated buf n ->
  exists r u', parse_url_port buf u = inl (r, u') /\ (r = 0 -> url_ok buf n u').
Proof.
  intros Hin (e & Hinv & He) Hn Hterm.
  destruct (port_total buf u e n Hinv He Hterm) as (r & u' & Hport & Hok).
  exists r, u'. split; [done|]. intros Hr. destruct (Hok Hr) as (Hs & Hoff & Hlen & Hval).
  assert (Hhas : forall f, has_field u' f = has_field u f) by (intros; unfold has_field; by rewrite Hs).
  split.
  - intros f Hf. unfold field_in. rewrite Hhas, Hoff, Hlen. by apply Hin.
  - rewrite Hhas, Hoff, Hlen. intros Hp.
    destruct Hinv as [[_ _ _ _ _ Hdig]|]; [|congruence].
    destruct (Hdig Hp) as (? & Hend & ?). rewrite Hend in *. auto.
Qed.

Lemma checks_total strict buf is_connect found_at u n :
  (forall f, field_in u f n) -> (forall f, has_field u f = true -> main_field f = true) ->
  0 <= n <= 65535 -> terminated buf n ->
  exists r u', parse_url_checks strict buf is_connect found_at u = inl (r, u') /\
    (r = 0 -> url_ok buf n u').
Proof.
  intros Hin Hmain Hn Hterm. unfold parse_url_checks.
  assert (Hbuf : n < zlen buf) by (destruct Hterm as (c & Hc & _); apply zlookup_bound in Hc; lia).
  destruct (_ && _); [by exists 1, u|].
  destruct (has_field u UF_HOST) eqn:Hhost.
  - destruct (host_total strict buf u found_at n Hin Hmain Hhost Hn Hbuf) as (r & u' & Hh & Hok).
    rewrite Hh. destruct (Z.eqb_spec r 0) as [->|]; [|by exists 1, u'].
    cbn [negb]. destruct (_ && _); [by exists 1, u'|].
    destruct (Hok eq_refl) as ((s & Hinv) & Hsame). destruct (Hin _ Hhost) as (? & ? & ?).
    apply url_ok_port; try done.
    + intros f Hf. destruct (host_field f) eqn:Hhf.
      * eapply field_in_mono; [|by apply Hinv]. lia.
      * destruct (Hsame f Hhf) as (Hs1 & Hs2 & Hs3). unfold field_in. rewrite Hs1, Hs2, Hs3. apply Hin.
    + eexists. split; [|split; [|eassumption]; lia].
      destruct (decide (s = s_http_host_port)) as [->|Hs]; [by left|right].
      destruct Hinv as [_ _ _ Hport _ _]. by rewrite bool_decide_false in Hport.
  - destruct (_ && _); [by exists 1, u|]. apply url_ok_port; try done.
    exists 0. split; [|lia]. right. destruct (has_field u UF_PORT) eqn:Hp; [|done].
    by apply Hmain in Hp.
Qed.

Lemma parse_url_total strict buf buflen is_connect u :
  0 <= buflen <= 65535 -> terminated buf buflen ->
  exists r u', http_parser_parse_url strict buf buflen is_connect u = inl (r, u') /\
    (r = 0 -> url_ok buf buflen u').
Proof.
  intros Hn Hterm.
  assert (Hbuf : buflen < zlen buf) by (destruct Hterm as (c & Hc & _); apply zlookup_bound in Hc; lia).
  unfold http_parser_parse_url. set (s := if is_connect then _ else _).
  set (u0 := mk_url 0 0 _ _).
  destruct (main_loop_total strict buf (Z.to_nat buflen) 0 s UF_MAX false u0)
    as (r & u' & Hloop & Hinv); try lia.
  { split; [by intros f|by intros f|by left]. }
  rewrite Hloop. destruct r as [fa|]; [|by exists 1, u'].
  destruct (Hinv ltac:(done)) as (old & [Hin Hmain _]).
  replace (0 + Z.of_nat (Z.to_nat buflen)) with buflen in Hin by lia.
  by apply checks_total.
Qed.

(** C32. Safety of the URL parser: on a buffer of at most 65535 bytes behind
    which a byte that is no digit follows in memory, [http_parser_parse_url]
    returns 0 or 1 with every access inside the memory; when it returns 0,
    every recorded field lies inside the buffer, and a recorded port is not
    empty, consists of digits, and the number reported for it is its decimal
    value wherever a byte that is no digit follows it. *)
Theorem url_safe strict buf buflen is_connect u :
  0 <= buflen <= 65535 -> terminated buf buflen ->
  exists r u', http_parser_parse_url strict buf buflen is_connect u = inl (r, u') /\
    (r = 0 -> url_ok buf buflen u').
Proof. apply parse_url_total. Qed.

Definition sample_target : list Z := bytes "media.example.org:1935 HTTP/1.1".

Lemma url_safe_witness :
  exists r u', http_parser_parse_url true sample_target 22 true http_parser_url_init = inl (r, u') /\
    (r = 0 -> url_ok sample_target 22 u').
Proof.
  apply (url_safe true sample_target 22 true http_parser_url_init); [lia|].
  exists (chr " "). split; reflexivity.
Defined.

(** The same target is accepted, with its port. *)
Example target_port :
  match http_parser_parse_url true sample_target 22 true http_parser_url_init with
  | inl (r, u) => (r, port u, fd_off u UF_HOST, fd_len u UF_HOST)
  | inr _ => (-1, 0, 0, 0)
  end = (0, 1935, 0, 17).
Proof. reflexivity. Qed.

(** Without a byte behind the port, [strtoul] leaves the buffer. *)
Example port_overread :
  http_parser_parse_url true (bytes "media.example.org:1935") 22 true http_parser_url_init = inr OutOfBounds.
Proof. reflexivity. Qed.
