(* ===== verification/HttpUrlTrip.v ===== *)
(** * HttpUrlTrip: the parse of a URL built from its components

    A URL is written from its components; [http_parser_parse_url] finds each of
    them again. *)
From S2P Require Import Prelude HttpDefs HttpUrl HttpUrlProps.

(** ** URLs and their text *)

Record authority := mk_authority {
  a_schema : list Z;
  a_host : list Z;
  a_port : option (list Z);
}.

Record url := mk_full_url {
  u_authority : option authority;
  u_path : list Z;
  u_query : option (list Z);
  u_fragment : option (list Z);
}.

Definition opt_text (sep : list Z) (o : option (list Z)) : list Z :=
  match o with Some t => sep ++ t | None => [] end.

(** [host:port], the text of the host field before it is taken apart. *)
Definition host_text (a : authority) : list Z := a_host a ++ opt_text [chr ":"] (a_port a).

Definition authority_text (o : option authority) : list Z :=
  match o with
  | Some a => a_schema a ++ bytes "://" ++ host_text a
  | None => []
  end.

Definition url_text (x : url) : list Z :=
  authority_text (u_authority x) ++ u_path x ++ opt_text [chr "?"] (u_query x)
  ++ opt_text [chr "#"] (u_fragment x).

Definition component (x : url) (f : http_parser_url_fields) : option (list Z) :=
  match f with
  | UF_SCHEMA => a_schema <$> u_authority x
  | UF_HOST => a_host <$> u_authority x
  | UF_PORT => u_authority x ≫= a_port
  | UF_PATH => Some (u_path x)
  | UF_QUERY => u_query x
  | UF_FRAGMENT => u_fragment x
  | _ => None
  end.

Definition url_port (x : url) : option Z :=
  digits_value 10 dec_digit 0 <$> (u_authority x ≫= a_port).

(** *** Well-formed URLs *)

Definition server_char (strict : bool) (c : Z) : bool :=
  IS_HOST_CHAR strict c || (c =? chr ":").
Definition query_char (strict : bool) (c : Z) : bool :=
  IS_URL_CHAR strict c || (c =? chr "?").
Definition fragment_char (strict : bool) (c : Z) : bool :=
  IS_URL_CHAR strict c || (c =? chr "?") || (c =? chr "#").

Definition all (p : Z -> bool) (l : list Z) : Prop := Forall (fun c => p c = true) l.

Definition authority_wf (strict : bool) (a : authority) : Prop :=
  a_schema a <> [] /\ all IS_ALPHA (a_schema a) /\
  a_host a <> [] /\ all (IS_HOST_CHAR strict) (a_host a) /\
  match a_port a with
  | Some ds => ds <> [] /\ all IS_NUM ds /\ digits_value 10 dec_digit 0 ds <= 0xffff
  | None => True
  end.

(** A path starts with a slash; a query and a fragment are not empty and start
    with an ordinary character (the parser skips separators in front of
    them). *)
Definition url_wf (strict : bool) (x : url) : Prop :=
  match u_authority x with Some a => authority_wf strict a | None => True end /\
  (exists t, u_path x = chr "/" :: t /\ all (IS_URL_CHAR strict) t) /\
  match u_query x with
  | Some q => exists c t, q = c :: t /\ IS_URL_CHAR strict c = true /\ all (query_char strict) t
  | None => True
  end /\
  match u_fragment x with
  | Some q => exists c t, q = c :: t /\ IS_URL_CHAR strict c = true /\ all (fragment_char strict) t
  | None => True
  end.

(** ** What is recorded *)

Definition rec (u : http_parser_url) (f : http_parser_url_fields) : option (Z * Z) :=
  if has_field u f then Some (fd_off u f, fd_len u f) else None.

Lemma rec_inc u f o k :
  rec u f = Some (o, k) -> 0 <= k < 65535 ->
  rec (set_len f (fd_len u f + 1) u) f = Some (o, k + 1).
Proof.
  unfold rec. rewrite has_set_len. destruct (has_field u f); [|done]. intros [= <- <-] Hk.
  unfold set_len. cbn [fd_off fd_len]. rewrite fset_eq, uwrap_small by lia. done.
Qed.

Lemma rec_same u v f : same_field u v f -> rec v f = rec u f.
Proof. intros (H1 & H2 & H3). unfold rec. by rewrite H1, H2, H3. Qed.

Lemma rec_new u f p :
  0 <= p <= 65535 -> rec (add_field f (set_len f 1 (set_off f p u))) f = Some (p, 1).
Proof.
  intros Hp. unfold rec. rewrite has_add_field, bool_decide_true by done. cbn [orb].
  unfold add_field, set_len, set_off. cbn [fd_off fd_len].
  by rewrite !fset_eq, !uwrap_small by lia.
Qed.

(** ** Runs of the main loop *)

Section Run.
Variable strict : bool.
Variable buf : list Z.

(** [text] is what the buffer holds from [p] on. *)
Definition at_pos (p : Z) (text : list Z) : Prop :=
  0 <= p /\ exists rest, drop (Z.to_nat p) buf = text ++ rest.

Lemma at_pos_cons p c text :
  at_pos p (c :: text) -> zlookup buf p = Some c /\ at_pos (p + 1) text.
Proof using.
  intros (Hp & rest & Hd). split; [|split; [lia|]].
  - by rewrite <-drop_zlookup, Hd.
  - exists rest. replace (Z.to_nat (p + 1)) with (Z.to_nat p + 1)%nat by lia.
    by rewrite <-drop_drop, Hd.
Qed.

Lemma at_pos_app p a b : at_pos p (a ++ b) -> at_pos p a /\ at_pos (p + zlen a) b.
Proof using.
  intros (Hp & rest & Hd). split.
  - split; [done|]. exists (b ++ rest). by rewrite app_assoc.
  - split; [pose proof (zlen_nonneg a); lia|]. exists rest.
    rewrite Z2Nat.inj_add by (done || apply zlen_nonneg). unfold zlen. rewrite Nat2Z.id.
    rewrite <-drop_drop, Hd, <-app_assoc, drop_app_length. done.
Qed.

Lemma at_pos_slice p t : at_pos p t -> slice buf p (zlen t) = t.
Proof using.
  intros (Hp & rest & Hd). unfold slice, zlen. rewrite Hd, Nat2Z.id. apply take_app_length.
Qed.

(** One byte of the main loop. *)
Lemma skip_step n p s old fa u c text :
  at_pos p (c :: text) -> url_action_of (parse_url_char strict s c) = UA_skip ->
  parse_url_loop strict buf (S n) p s old fa u =
  parse_url_loop strict buf n (p + 1) (parse_url_char strict s c) old fa u.
Proof using.
  intros [Hc _]%at_pos_cons Hact. cbn [parse_url_loop]. rewrite Hc, Hact.
  rewrite bool_decide_false by (by intros Hs; rewrite Hs in Hact). done.
Qed.

(** A run of bytes that stay in the state [s] of the field [uf]. *)
Lemma seg_run s uf fa n : forall seg p u o k,
  at_pos p seg -> url_action_of s = UA_field uf -> s <> s_req_server_with_at ->
  Forall (fun c => parse_url_char strict s c = s) seg ->
  rec u uf = Some (o, k) -> 0 <= k -> k + zlen seg <= 65535 ->
  exists u', parse_url_loop strict buf (length seg + n) p s uf fa u =
             parse_url_loop strict buf n (p + zlen seg) s uf fa u' /\
    rec u' uf = Some (o, k + zlen seg) /\ forall g, g <> uf -> same_field u u' g.
Proof using.
  induction seg as [|c seg IH]; intros p u o k Hat Hact Hs Hall Hrec Hk Hlen.
  - exists u. rewrite !Z.add_0_r. by repeat split.
  - apply at_pos_cons in Hat as [Hc Hat]. apply Forall_cons in Hall as [Hcs Hall].
    rewrite zlen_cons in *. pose proof (zlen_nonneg seg).
    destruct (IH (p + 1) (set_len uf (fd_len u uf + 1) u) o (k + 1)) as (u' & Hl & Hr & Hg);
      try done; try lia; [apply rec_inc; done || lia|].
    exists u'. split; [|split].
    + cbn [length plus parse_url_loop]. rewrite Hc, Hcs, bool_decide_false, Hact, bool_decide_true by done.
      by replace (p + (1 + zlen seg)) with (p + 1 + zlen seg) by lia.
    + by replace (k + (1 + zlen seg)) with (k + 1 + zlen seg) by lia.
    + intros g Hgu. eapply same_trans; [|by apply Hg]. by apply same_set_len.
Qed.

(** A whole field: its first byte enters the state [s]. *)
Lemma field_run s0 s uf old fa n c seg p u :
  at_pos p (c :: seg) -> parse_url_char strict s0 c = s -> url_action_of s = UA_field uf ->
  s <> s_req_server_with_at -> uf <> old ->
  Forall (fun c => parse_url_char strict s c = s) seg -> p + zlen (c :: seg) <= 65535 ->
  exists u', parse_url_loop strict buf (length (c :: seg) + n) p s0 old fa u =
             parse_url_loop strict buf n (p + zlen (c :: seg)) s uf fa u' /\
    rec u' uf = Some (p, zlen (c :: seg)) /\ forall g, g <> uf -> same_field u u' g.
Proof using.
  intros Hat Hc0 Hact Hs Huf Hall Hlen. pose proof (proj1 Hat) as Hp.
  apply at_pos_cons in Hat as [Hc Hat].
  rewrite zlen_cons in *. pose proof (zlen_nonneg seg).
  destruct (seg_run s uf fa n seg (p + 1) (add_field uf (set_len uf 1 (set_off uf p u))) p 1)
    as (u' & Hl & Hr & Hg); try done; try lia; [apply rec_new; lia|].
  exists u'. split; [|split].
  - cbn [length plus parse_url_loop]. rewrite Hc, Hc0, bool_decide_false, Hact, bool_decide_false by done.
    by replace (p + (1 + zlen seg)) with (p + 1 + zlen seg) by lia.
  - done.
  - intros g Hgu. eapply same_trans; [|by apply Hg]. same_chain.
Qed.

(** *** Runs of the host loop *)

Lemma host_seg_run s f n : forall seg p u o k,
  at_pos p seg -> s <> s_http_host_dead ->
  (forall p u, host_record s s p u = set_len f (fd_len u f + 1) u) ->
  Forall (fun c => http_parse_host_char strict s c = s) seg ->
  rec u f = Some (o, k) -> 0 <= k -> k + zlen seg <= 65535 ->
  exists u', http_parse_host_loop strict buf (length seg + n) p s u =
             http_parse_host_loop strict buf n (p + zlen seg) s u' /\
    rec u' f = Some (o, k + zlen seg) /\ forall g, g <> f -> same_field u u' g.
Proof using.
  induction seg as [|c seg IH]; intros p u o k Hat Hs Hinc Hall Hrec Hk Hlen.
  - exists u. rewrite !Z.add_0_r. by repeat split.
  - apply at_pos_cons in Hat as [Hc Hat]. apply Forall_cons in Hall as [Hcs Hall].
    rewrite zlen_cons in *. pose proof (zlen_nonneg seg).
    destruct (IH (p + 1) (set_len f (fd_len u f + 1) u) o (k + 1)) as (u' & Hl & Hr & Hg);
      try done; try lia; [apply rec_inc; done || lia|].
    exists u'. split; [|split].
    + cbn [length plus http_parse_host_loop]. rewrite Hc, Hcs, bool_decide_false, Hinc by done.
      by replace (p + (1 + zlen seg)) with (p + 1 + zlen seg) by lia.
    + by replace (k + (1 + zlen seg)) with (k + 1 + zlen seg) by lia.
    + intros g Hgu. eapply same_trans; [|by apply Hg]. by apply same_set_len.
Qed.

Lemma host_char_start c : IS_HOST_CHAR strict c = true ->
  http_parse_host_char strict s_http_host_start c = s_http_host.
Proof using.
  intros Hc. cbn [http_parse_host_char]. rewrite Hc. by destruct (Z.eqb_spec c (chr "[")) as [->|]; [destruct strict|].
Qed.

Lemma host_char_stay c : IS_HOST_CHAR strict c = true ->
  http_parse_host_char strict s_http_host c = s_http_host.
Proof using. intros Hc. cbn [http_parse_host_char]. by rewrite Hc. Qed.

(** The host name. *)
Lemma host_name_run n c seg p u :
  at_pos p (c :: seg) -> all (IS_HOST_CHAR strict) (c :: seg) ->
  has_field u UF_HOST = true -> fd_len u UF_HOST = 0 -> p + zlen (c :: seg) <= 65535 ->
  exists u', http_parse_host_loop strict buf (length (c :: seg) + n) p s_http_host_start u =
             http_parse_host_loop strict buf n (p + zlen (c :: seg)) s_http_host u' /\
    rec u' UF_HOST = Some (p, zlen (c :: seg)) /\ forall g, g <> UF_HOST -> same_field u u' g.
Proof using.
  intros Hat Hall Hhas Hlen0 Hlen. pose proof (proj1 Hat) as Hp.
  apply at_pos_cons in Hat as [Hc Hat]. apply Forall_cons in Hall as [Hc0 Hall].
  rewrite zlen_cons in *. pose proof (zlen_nonneg seg).
  set (u1 := set_len UF_HOST (fd_len (set_off UF_HOST p u) UF_HOST + 1) (set_off UF_HOST p u)).
  destruct (host_seg_run s_http_host UF_HOST n seg (p + 1) u1 p 1) as (u' & Hl & Hr & Hg);
    try done; try lia.
  { eapply Forall_impl; [exact Hall|]. intros x. apply host_char_stay. }
  { apply (rec_inc _ _ p 0); [|lia]. unfold rec. change (has_field _ UF_HOST) with (has_field u UF_HOST).
    rewrite Hhas. unfold set_off. cbn [fd_off fd_len]. by rewrite fset_eq, uwrap_small, Hlen0 by lia. }
  exists u'. split; [|split].
  - cbn [length plus http_parse_host_loop]. rewrite Hc, host_char_start, bool_decide_false by done.
    unfold host_record. rewrite bool_decide_false by done. fold u1.
    by replace (p + (1 + zlen seg)) with (p + 1 + zlen seg) by lia.
  - done.
  - intros g Hgu. eapply same_trans; [|by apply Hg]. unfold u1. same_chain.
Qed.

(** The digits of the port. *)
Lemma host_port_run n c seg p u :
  at_pos p (c :: seg) -> all IS_NUM (c :: seg) -> p + zlen (c :: seg) <= 65535 ->
  exists u', http_parse_host_loop strict buf (length (c :: seg) + n) p s_http_host_port_start u =
             http_parse_host_loop strict buf n (p + zlen (c :: seg)) s_http_host_port u' /\
    rec u' UF_PORT = Some (p, zlen (c :: seg)) /\ forall g, g <> UF_PORT -> same_field u u' g.
Proof using.
  intros Hat Hall Hlen. pose proof (proj1 Hat) as Hp.
  apply at_pos_cons in Hat as [Hc Hat]. apply Forall_cons in Hall as [Hc0 Hall].
  rewrite zlen_cons in *. pose proof (zlen_nonneg seg).
  set (u1 := add_field UF_PORT (set_len UF_PORT 0 (set_off UF_PORT p u))).
  destruct (host_seg_run s_http_host_port UF_PORT n seg (p + 1) (set_len UF_PORT (fd_len u1 UF_PORT + 1) u1) p 1)
    as (u' & Hl & Hr & Hg); try done; try lia.
  { eapply Forall_impl; [exact Hall|]. intros x Hx. cbn [http_parse_host_char]. by rewrite Hx. }
  { apply (rec_inc _ _ p 0); [|lia]. unfold rec, u1. rewrite has_add_field, bool_decide_true by done.
    unfold add_field, set_len, set_off. cbn [orb fd_off fd_len]. by rewrite !fset_eq, !uwrap_small by lia. }
  exists u'. split; [|split].
  - cbn [length plus http_parse_host_loop]. rewrite Hc. cbn [http_parse_host_char]. rewrite Hc0.
    rewrite bool_decide_false by done. unfold host_record. rewrite bool_decide_false by done. fold u1.
    by replace (p + (1 + zlen seg)) with (p + 1 + zlen seg) by lia.
  - done.
  - intros g Hgu. eapply same_trans; [|by apply Hg]. unfold u1. same_chain.
Qed.

Lemma colon_not_host : IS_HOST_CHAR strict (chr ":") = false.
Proof using. by destruct strict. Qed.

(** The whole host text. *)
Lemma parse_host_run a o u :
  authority_wf strict a -> at_pos o (host_text a) -> rec u UF_HOST = Some (o, zlen (host_text a)) ->
  o + zlen (host_text a) <= 65535 -> has_field u UF_PORT = false ->
  exists u', http_parse_host strict buf u false = inl (0, u') /\
    rec u' UF_HOST = Some (o, zlen (a_host a)) /\
    rec u' UF_PORT = (fun ds => (o + zlen (a_host a) + 1, zlen ds)) <$> a_port a /\
    forall g, g <> UF_HOST -> g <> UF_PORT -> same_field u u' g.
Proof using.
  intros (_ & _ & Hne & Hhost & Hport) Hat Hrec Hlen Hnp.
  unfold rec in Hrec. destruct (has_field u UF_HOST) eqn:Hhas; [|done]. injection Hrec as Ho Hk.
  unfold http_parse_host. rewrite Hhas, Ho, Hk. cbn [negb].
  set (u0 := set_len UF_HOST 0 u).
  replace (Z.to_nat (o + zlen (host_text a) - o)) with (length (host_text a)) by (unfold zlen; lia).
  unfold host_text in *. rewrite length_app. rewrite zlen_app in *.
  apply at_pos_app in Hat as [Hat1 Hat2].
  pose proof (zlen_nonneg (opt_text [chr ":"] (a_port a))).
  destruct (a_host a) as [|h hs] eqn:Hh; [done|].
  destruct (host_name_run (length (opt_text [chr ":"] (a_port a))) h hs o u0 Hat1 Hhost Hhas eq_refl ltac:(lia))
    as (u1 & -> & Hr1 & Hs1).
  assert (Hs0 : forall g, g <> UF_HOST -> same_field u u1 g).
  { intros g Hg. eapply same_trans; [|by apply Hs1]. by apply same_set_len. }
  destruct (a_port a) as [ds|]; cbn [opt_text app length fmap option_fmap option_map] in *.
  - destruct Hport as (Hds & Hnum & _). destruct ds as [|d ds]; [done|].
    apply at_pos_cons in Hat2 as [Hcolon Hat2]. cbn [http_parse_host_loop]. rewrite Hcolon.
    assert (Hps : http_parse_host_char strict s_http_host (chr ":") = s_http_host_port_start).
    { cbn [http_parse_host_char]. by rewrite colon_not_host. }
    rewrite Hps, bool_decide_false by done. cbn [host_record].
    rewrite (zlen_cons (chr ":")) in *.
    destruct (host_port_run 0 d ds _ u1 Hat2 Hnum ltac:(lia)) as (u2 & Hl2 & Hr2 & Hs2).
    rewrite Nat.add_0_r in Hl2. rewrite Hl2. cbn [http_parse_host_loop host_bad_end].
    exists u2. split; [done|]. split; [by rewrite (rec_same _ _ _ (Hs2 UF_HOST ltac:(done)))|].
    split; [done|]. intros g Hg1 Hg2. eapply same_trans; [by apply Hs0|by apply Hs2].
  - cbn [http_parse_host_loop host_bad_end]. exists u1. split; [done|]. split; [done|]. split.
    + rewrite (rec_same _ _ _ (Hs0 UF_PORT ltac:(done))). unfold rec. by rewrite Hnp.
    + intros g Hg1 _. by apply Hs0.
Qed.

(** *** Characters *)

Lemma pred_neq (P : Z -> bool) c x : P c = true -> P x = false -> (c =? x) = false.
Proof using. intros Hc Hx. apply Z.eqb_neq. intros ->. congruence. Qed.

(** The bytes that end every URL are in none of the classes. *)
Lemma not_blank (P : Z -> bool) c :
  P c = true -> P (chr " ") = false -> P CR = false -> P LF = false ->
  (strict = true -> P HT = false /\ P FF = false) ->
  (c =? chr " ") || (c =? CR) || (c =? LF) = false /\
  strict && ((c =? HT) || (c =? FF)) = false.
Proof using.
  intros Hc Hsp Hcr Hlf Hst. rewrite !(pred_neq P c) by done. split; [done|].
  destruct strict; [|done]. destruct (Hst eq_refl). by rewrite !(pred_neq P c).
Qed.

Ltac blank P Hc :=
  destruct (not_blank P _ Hc) as [Hbl1 Hbl2];
    [by destruct strict | by destruct strict | by destruct strict | by destruct strict|];
  unfold parse_url_char; rewrite Hbl1, Hbl2.

Lemma schema_first c : IS_ALPHA c = true -> parse_url_char strict s_req_spaces_before_url c = s_req_schema.
Proof using. intros Hc. blank IS_ALPHA Hc. by rewrite !(pred_neq IS_ALPHA c), Hc. Qed.

Lemma schema_stay c : IS_ALPHA c = true -> parse_url_char strict s_req_schema c = s_req_schema.
Proof using. intros Hc. blank IS_ALPHA Hc. by rewrite Hc. Qed.

Lemma server_userinfo c : server_char strict c = true -> IS_USERINFO_CHAR c = true.
Proof using.
  unfold server_char, IS_HOST_CHAR, IS_USERINFO_CHAR, IS_MARK.
  destruct (IS_ALPHANUM c); [done|]. destruct (c =? chr "."), (c =? chr "-"), (c =? chr "_"), (c =? chr ":");
    rewrite ?orb_true_r; try done; by destruct strict.
Qed.

Lemma server_stay s c :
  server_char strict c = true -> s = s_req_server \/ s = s_req_server_start ->
  parse_url_char strict s c = s_req_server.
Proof using.
  intros Hc Hs. pose proof (server_userinfo _ Hc) as Hu. blank (server_char strict) Hc.
  rewrite (pred_neq _ c (chr "/") Hc), (pred_neq _ c (chr "?") Hc), (pred_neq _ c (chr "@") Hc), Hu
    by by destruct strict.
  by destruct Hs as [-> | ->].
Qed.

Lemma path_first s :
  s = s_req_server \/ s = s_req_spaces_before_url -> parse_url_char strict s (chr "/") = s_req_path.
Proof using. by intros [-> | ->]; destruct strict. Qed.

Lemma path_stay c : IS_URL_CHAR strict c = true -> parse_url_char strict s_req_path c = s_req_path.
Proof using. intros Hc. blank (IS_URL_CHAR strict) Hc. by rewrite Hc. Qed.

Lemma query_first c :
  IS_URL_CHAR strict c = true -> parse_url_char strict s_req_query_string_start c = s_req_query_string.
Proof using. intros Hc. blank (IS_URL_CHAR strict) Hc. by rewrite Hc. Qed.

Lemma query_stay c :
  query_char strict c = true -> parse_url_char strict s_req_query_string c = s_req_query_string.
Proof using.
  intros Hc. blank (query_char strict) Hc. unfold query_char in Hc.
  by destruct (IS_URL_CHAR strict c), (c =? chr "?").
Qed.

Lemma fragment_first c :
  IS_URL_CHAR strict c = true -> parse_url_char strict s_req_fragment_start c = s_req_fragment.
Proof using. intros Hc. blank (IS_URL_CHAR strict) Hc. by rewrite Hc. Qed.

Lemma fragment_stay c :
  fragment_char strict c = true -> parse_url_char strict s_req_fragment c = s_req_fragment.
Proof using.
  intros Hc. blank (fragment_char strict) Hc. unfold fragment_char in Hc.
  by destruct (IS_URL_CHAR strict c), (c =? chr "?"), (c =? chr "#").
Qed.

Lemma question_skip : parse_url_char strict s_req_path (chr "?") = s_req_query_string_start.
Proof using. by destruct strict. Qed.

Lemma hash_skip s :
  s = s_req_path \/ s = s_req_query_string -> parse_url_char strict s (chr "#") = s_req_fragment_start.
Proof using. by intros [-> | ->]; destruct strict. Qed.

(** *** The parts of a URL *)

Lemma host_text_chars a : authority_wf strict a -> all (server_char strict) (host_text a).
Proof using.
  intros (_ & _ & _ & Hhost & Hport). unfold host_text, all. apply Forall_app. split.
  - eapply Forall_impl; [exact Hhost|]. intros x Hx. unfold server_char. cbn beta in Hx. by rewrite Hx.
  - destruct (a_port a) as [ds|]; [|constructor]. destruct Hport as (_ & Hnum & _).
    apply Forall_cons_2; [by destruct strict|]. eapply Forall_impl; [exact Hnum|].
    intros x Hx. cbn beta in Hx. unfold server_char, IS_HOST_CHAR, IS_ALPHANUM. rewrite Hx.
    destruct strict; by rewrite !orb_true_r.
Qed.

(** The authority: schema, delimiters and host text. *)
Lemma authority_run a n u :
  authority_wf strict a -> at_pos 0 (authority_text (Some a)) ->
  zlen (authority_text (Some a)) <= 65535 ->
  exists u', parse_url_loop strict buf (length (authority_text (Some a)) + n) 0
               s_req_spaces_before_url UF_MAX false u =
             parse_url_loop strict buf n (zlen (authority_text (Some a))) s_req_server UF_HOST false u' /\
    rec u' UF_SCHEMA = Some (0, zlen (a_schema a)) /\
    rec u' UF_HOST = Some (zlen (a_schema a) + 3, zlen (host_text a)) /\
    forall g, g <> UF_SCHEMA -> g <> UF_HOST -> same_field u u' g.
Proof using.
  intros Hwf. pose proof (host_text_chars a Hwf) as Hchars.
  destruct Hwf as (Hsne & Hsc & Hhne & Hhost & Hport). cbn [authority_text].
  destruct (a_schema a) as [|c cs] eqn:Hcs; [done|].
  destruct (host_text a) as [|h hs] eqn:Hht.
  { unfold host_text in Hht. by destruct (a_host a). }
  change (bytes "://") with [chr ":"; chr "/"; chr "/"].
  intros Hat Hlen. rewrite !length_app, !zlen_app in *.
  change (zlen [_; _; _]) with 3 in *.
  apply at_pos_app in Hat as [Hat0 Hat]. pose proof (zlen_nonneg (h :: hs)).
  apply Forall_cons in Hsc as [Hc0 Hsc].
  destruct (field_run s_req_spaces_before_url s_req_schema UF_SCHEMA UF_MAX false
    (3 + length (h :: hs) + n) c cs 0 u Hat0 (schema_first _ Hc0)) as (u1 & Hl1 & Hr1 & Hs1);
    try done; try lia.
  { eapply Forall_impl; [exact Hsc|]. intros x. apply schema_stay. }
  cbn [app] in Hat. pose proof (at_pos_cons _ _ _ Hat) as [_ Hat2].
  pose proof (at_pos_cons _ _ _ Hat2) as [_ Hat3]. pose proof (at_pos_cons _ _ _ Hat3) as [_ Hat4].
  pose proof (Forall_cons_1 _ _ _ Hchars) as [Hh0 Hhs].
  destruct (field_run s_req_server_start s_req_server UF_HOST UF_SCHEMA false n h hs _ u1 Hat4
    (server_stay _ _ Hh0 (or_intror eq_refl))) as (u2 & Hl2 & Hr2 & Hs2); try done; try lia.
  { eapply Forall_impl; [exact Hhs|]. intros x Hx. apply server_stay; [done|by left]. }
  exists u2. split; [|split; [|split]].
  - change (length [chr ":"; chr "/"; chr "/"]) with 3%nat.
    rewrite <-Nat.add_assoc, Hl1.
    change (3 + length (h :: hs) + n)%nat with (S (S (S (length (h :: hs) + n)))).
    rewrite (skip_step _ _ _ _ _ _ _ _ Hat), (skip_step _ _ _ _ _ _ _ _ Hat2),
      (skip_step _ _ _ _ _ _ _ _ Hat3) by by destruct strict.
    assert (Hss : parse_url_char strict (parse_url_char strict (parse_url_char strict s_req_schema (chr ":"))
      (chr "/")) (chr "/") = s_req_server_start) by by destruct strict.
    rewrite Hss, Hl2. f_equal. lia.
  - by rewrite (rec_same _ _ _ (Hs2 UF_SCHEMA ltac:(done))).
  - rewrite Hr2. do 2 f_equal. lia.
  - intros g Hg1 Hg2. eapply same_trans; [by apply Hs1|by apply Hs2].
Qed.

(** A component behind a separator that is skipped. *)
Lemma optional_run s0 sk s uf old (sep : Z) o (P : Z -> bool) n p u :
  uf <> old -> url_action_of s = UA_field uf -> s <> s_req_server_with_at ->
  parse_url_char strict s0 sep = sk -> url_action_of sk = UA_skip ->
  (forall c, IS_URL_CHAR strict c = true -> parse_url_char strict sk c = s) ->
  (forall c, P c = true -> parse_url_char strict s c = s) ->
  match o with
  | Some q => exists c t, q = c :: t /\ IS_URL_CHAR strict c = true /\ all P t
  | None => True
  end ->
  at_pos p (opt_text [sep] o) -> p + zlen (opt_text [sep] o) <= 65535 ->
  exists u', parse_url_loop strict buf (length (opt_text [sep] o) + n) p s0 old false u =
             parse_url_loop strict buf n (p + zlen (opt_text [sep] o))
               (match o with Some _ => s | None => s0 end)
               (match o with Some _ => uf | None => old end) false u' /\
    rec u' uf = match o with Some q => Some (p + 1, zlen q) | None => rec u uf end /\
    forall g, g <> uf -> same_field u u' g.
Proof using.
  intros Huf Hact Hs Hsep Hskip Hfirst Hstay Ho Hat Hlen. destruct o as [q|]; cbn [opt_text] in *.
  - destruct Ho as (c & t & -> & Hc & Ht). pose proof (at_pos_cons _ _ _ Hat) as [_ Hat2].
    cbn [app] in Hlen |- *. rewrite zlen_cons in Hlen.
    destruct (field_run sk s uf old false n c t (p + 1) u Hat2 (Hfirst c Hc) Hact Hs Huf)
      as (u' & Hl & Hr & Hg); [|lia|].
    { eapply Forall_impl; [exact Ht|]. exact Hstay. }
    exists u'. split; [|done]. change (length (sep :: c :: t) + n)%nat with (S (length (c :: t) + n)).
    rewrite (skip_step _ _ _ _ _ _ _ _ Hat), Hsep, Hl by by rewrite Hsep.
    rewrite (zlen_cons sep). f_equal. lia.
  - exists u. rewrite Z.add_0_r. by repeat split.
Qed.

Lemma optional_slice p sep o r :
  at_pos p (opt_text [sep] o) -> r = match o with Some q => Some (p + 1, zlen q) | None => None end ->
  o = (fun r => slice buf r.1 r.2) <$> r.
Proof using.
  intros Hat ->. destruct o as [q|]; [|done]. cbn [opt_text app] in Hat.
  apply at_pos_cons in Hat as [_ Hat]. cbn. by rewrite at_pos_slice.
Qed.

(** Path, query and fragment, to the end of the text. *)
Lemma tail_run x s0 old p u :
  url_wf strict x -> s0 = s_req_server \/ s0 = s_req_spaces_before_url ->
  old = UF_HOST \/ old = UF_MAX ->
  (forall g, g = UF_QUERY \/ g = UF_FRAGMENT -> rec u g = None) ->
  let text := u_path x ++ opt_text [chr "?"] (u_query x) ++ opt_text [chr "#"] (u_fragment x) in
  at_pos p text -> p + zlen text <= 65535 ->
  exists u', parse_url_loop strict buf (length text) p s0 old false u = inl (Some false, u') /\
    (forall f, f = UF_PATH \/ f = UF_QUERY \/ f = UF_FRAGMENT ->
     component x f = (fun r => slice buf r.1 r.2) <$> rec u' f) /\
    forall g, g <> UF_PATH -> g <> UF_QUERY -> g <> UF_FRAGMENT -> same_field u u' g.
Proof using.
  intros (_ & (t & Hpath & Ht) & Hq & Hf) Hs0 Hold Hnone text Hat Hlen. unfold text in *.
  rewrite !zlen_app in Hlen. apply at_pos_app in Hat as [Hat1 Hat]. apply at_pos_app in Hat as [Hat2 Hat3].
  pose proof (zlen_nonneg (opt_text [chr "?"] (u_query x))).
  pose proof (zlen_nonneg (opt_text [chr "#"] (u_fragment x))). pose proof (zlen_nonneg (u_path x)).
  rewrite !length_app. rewrite Hpath in *.
  destruct (field_run s0 s_req_path UF_PATH old false
    (length (opt_text [chr "?"] (u_query x)) + length (opt_text [chr "#"] (u_fragment x)))
    (chr "/") t p u Hat1 (path_first _ Hs0) eq_refl) as (u1 & -> & Hr1 & Hs1);
    [done|by destruct Hold as [-> | ->]|eapply Forall_impl; [exact Ht|]; apply path_stay|lia|].
  destruct (optional_run s_req_path s_req_query_string_start s_req_query_string UF_QUERY UF_PATH
    (chr "?") (u_query x) (query_char strict) (length (opt_text [chr "#"] (u_fragment x))) _ u1
    ltac:(done) eq_refl ltac:(done) question_skip eq_refl query_first query_stay Hq Hat2 ltac:(lia))
    as (u2 & -> & Hr2 & Hs2).
  set (s2 := match u_query x with Some _ => _ | None => _ end).
  set (f2 := match u_query x with Some _ => _ | None => _ end).
  assert (Hs2' : s2 = s_req_path \/ s2 = s_req_query_string) by (unfold s2; destruct (u_query x); auto).
  destruct (optional_run s2 s_req_fragment_start s_req_fragment UF_FRAGMENT f2
    (chr "#") (u_fragment x) (fragment_char strict) 0 _ u2
    ltac:(unfold f2; by destruct (u_query x)) eq_refl ltac:(done) (hash_skip _ Hs2') eq_refl
    fragment_first fragment_stay Hf Hat3 ltac:(lia)) as (u3 & Hl3 & Hr3 & Hs3).
  rewrite Nat.add_0_r in Hl3. rewrite Hl3. cbn [parse_url_loop]. exists u3. split; [done|]. split.
  - intros f [->|[->| ->]]; cbn [component].
    + rewrite (rec_same _ _ _ (Hs3 UF_PATH ltac:(done))), (rec_same _ _ _ (Hs2 UF_PATH ltac:(done))), Hr1.
      cbn. by rewrite Hpath, at_pos_slice.
    + apply (optional_slice _ (chr "?") _ _ Hat2).
      rewrite (rec_same _ _ _ (Hs3 UF_QUERY ltac:(done))), Hr2. destruct (u_query x); [done|].
      rewrite (rec_same _ _ _ (Hs1 UF_QUERY ltac:(done))). auto.
    + apply (optional_slice _ (chr "#") _ _ Hat3). rewrite Hr3. destruct (u_fragment x); [done|].
      rewrite (rec_same _ _ _ (Hs2 UF_FRAGMENT ltac:(done))), (rec_same _ _ _ (Hs1 UF_FRAGMENT ltac:(done))).
      auto.
  - intros g Hg1 Hg2 Hg3. eapply same_trans; [by apply Hs1|]. eapply same_trans; [by apply Hs2|by apply Hs3].
Qed.

(** The authority and what follows it. *)
Lemma url_run x a n u :
  url_wf strict x -> u_authority x = Some a ->
  at_pos 0 (url_text x) -> n = length (url_text x) -> zlen (url_text x) <= 65535 ->
  (forall g, rec u g = None) ->
  let o := zlen (a_schema a) + 3 in
  exists u', parse_url_loop strict buf n 0 s_req_spaces_before_url UF_MAX false u
             = inl (Some false, u') /\
    at_pos o (host_text a) /\ terminated buf (o + zlen (host_text a)) /\
    o + zlen (host_text a) <= zlen (url_text x) /\
    rec u' UF_SCHEMA = Some (0, zlen (a_schema a)) /\
    rec u' UF_HOST = Some (o, zlen (host_text a)) /\
    (forall f, f = UF_PATH \/ f = UF_QUERY \/ f = UF_FRAGMENT ->
     component x f = (fun r => slice buf r.1 r.2) <$> rec u' f) /\
    forall g, g = UF_PORT \/ g = UF_USERINFO -> rec u' g = None.
Proof using.
  intros Hwf Ha Hat -> Hlen Hu o. unfold url_text in *. rewrite Ha in *.
  pose proof Hwf as (Hawf & (t & Hpath & _) & _). rewrite Ha in Hawf.
  set (tail := u_path x ++ _ ++ _) in *. rewrite length_app. rewrite zlen_app in *.
  pose proof (zlen_nonneg tail).
  apply at_pos_app in Hat as [Hat1 Hat2]. rewrite Z.add_0_l in Hat2.
  assert (Hal : zlen (authority_text (Some a)) = o + zlen (host_text a)).
  { cbn [authority_text]. rewrite !zlen_app. change (zlen (bytes "://")) with 3. unfold o. lia. }
  destruct (authority_run a (length tail) u Hawf Hat1 ltac:(lia)) as (u1 & -> & Hs1 & Hh1 & Hsame1).
  rewrite Hal in *.
  assert (Hu1 : forall g, g <> UF_SCHEMA -> g <> UF_HOST -> rec u1 g = None).
  { intros g Hg1 Hg2. rewrite (rec_same u u1 g) by (by apply Hsame1). apply Hu. }
  destruct (tail_run x s_req_server UF_HOST _ u1 Hwf (or_introl eq_refl) (or_introl eq_refl)
    ltac:(intros g [-> | ->]; apply Hu1; done) Hat2 ltac:(fold tail; lia)) as (u2 & Hl2 & Hcomp & Hsame2).
  exists u2. split; [exact Hl2|]. split; [|split; [|split; [lia|]]].
  - apply at_pos_app in Hat1 as [_ Hat1]. change (bytes "://") with [chr ":"; chr "/"; chr "/"] in Hat1.
    apply (at_pos_app _ [_; _; _]) in Hat1 as [_ Hat1]. rewrite Z.add_0_l in Hat1. exact Hat1.
  - unfold tail in Hat2. rewrite Hpath in Hat2. apply at_pos_cons in Hat2 as [Hc _].
    by exists (chr "/").
  - split; [by rewrite (rec_same _ _ _ (Hsame2 UF_SCHEMA ltac:(done) ltac:(done) ltac:(done)))|].
    split; [by rewrite (rec_same _ _ _ (Hsame2 UF_HOST ltac:(done) ltac:(done) ltac:(done)))|].
    split; [exact Hcomp|]. intros g Hg.
    rewrite (rec_same u1 u2 g) by (apply Hsame2; by destruct Hg as [-> | ->]).
    apply Hu1; by destruct Hg as [-> | ->].
Qed.

(** The host and the port of a URL whose main loop is done. *)
Lemma checks_authority a n u :
  authority_wf strict a ->
  let o := zlen (a_schema a) + 3 in
  at_pos o (host_text a) -> terminated buf (o + zlen (host_text a)) ->
  o + zlen (host_text a) <= n -> n <= 65535 -> terminated buf n ->
  rec u UF_SCHEMA = Some (0, zlen (a_schema a)) ->
  rec u UF_HOST = Some (o, zlen (host_text a)) -> rec u UF_PORT = None ->
  exists u', parse_url_checks strict buf false false u = inl (0, u') /\
    rec u' UF_HOST = Some (o, zlen (a_host a)) /\
    rec u' UF_PORT = (fun ds => (o + zlen (a_host a) + 1, zlen ds)) <$> a_port a /\
    (forall ds, a_port a = Some ds -> port u' = digits_value 10 dec_digit 0 ds) /\
    forall g, g <> UF_HOST -> g <> UF_PORT -> same_field u u' g.
Proof using.
  intros Hwf o Hat Hend Hon Hn Hterm Hschema Hhost Hport. unfold parse_url_checks.
  assert (Hhs : has_field u UF_SCHEMA = true) by (unfold rec in Hschema; by destruct (has_field u UF_SCHEMA)).
  assert (Hhh : has_field u UF_HOST = true) by (unfold rec in Hhost; by destruct (has_field u UF_HOST)).
  assert (Hhp : has_field u UF_PORT = false) by (unfold rec in Hport; by destruct (has_field u UF_PORT)).
  rewrite Hhs, Hhh. cbn [negb andb].
  destruct (parse_host_run a o u Hwf Hat Hhost ltac:(lia) Hhp) as (u1 & -> & Hr1 & Hp1 & Hs1).
  cbn [Z.eqb negb]. unfold parse_url_port.
  destruct (a_port a) as [ds|] eqn:Hap; cbn [fmap option_fmap option_map] in Hp1.
  - unfold rec in Hp1. destruct (has_field u1 UF_PORT) eqn:Hh1; [|done]. injection Hp1 as Ho Hl.
    destruct Hwf as (_ & _ & _ & _ & Hpwf). rewrite Hap in Hpwf. destruct Hpwf as (Hne & Hnum & Hval).
    unfold host_text in Hat, Hend, Hon. rewrite Hap in Hat, Hend, Hon. cbn [opt_text] in Hat, Hend, Hon.
    apply at_pos_app in Hat as [_ Hat]. apply (at_pos_cons _ (chr ":") ds) in Hat as [_ Hat].
    pose proof (at_pos_slice _ _ Hat) as Hsl.
    assert (Hlen : zlen (a_host a ++ [chr ":"] ++ ds) = zlen (a_host a) + (1 + zlen ds))
      by by rewrite !zlen_app.
    rewrite Hlen in Hend, Hon.
    pose proof (zlen_nonneg (a_host a)). pose proof (zlen_nonneg (a_schema a)).
    assert (0 < zlen ds) by (destruct ds; [done|rewrite zlen_cons; pose proof (zlen_nonneg ds); lia]).
    destruct (port_strtoul buf (o + zlen (a_host a) + 1) (zlen ds) n) as (v & Hv & Hv'); try done; try lia.
    { by rewrite Hsl. }
    rewrite Ho, Hv. rewrite Hsl in Hv'.
    rewrite Hv' by (by replace (o + zlen (a_host a) + 1 + zlen ds) with (o + (zlen (a_host a) + (1 + zlen ds))) by lia).
    pose proof (digits_value_mono 10 dec_digit 0 ds ltac:(lia) ltac:(lia) (dec_digits_pos _ Hnum)).
    rewrite (proj2 (Z.ltb_ge _ _)) by lia. eexists. split; [done|].
    split; [done|]. split; [|split; [|done]].
    + unfold rec. change (has_field (set_port _ u1) UF_PORT) with (has_field u1 UF_PORT).
      rewrite Hh1. cbn. by rewrite Ho, Hl.
    + intros ds' [= <-]. unfold set_port. cbn [port]. rewrite uwrap_small; lia.
  - unfold rec in Hp1. destruct (has_field u1 UF_PORT) eqn:Hh1; [done|].
    exists u1. split; [done|]. split; [done|]. split; [unfold rec; by rewrite Hh1|]. done.
Qed.

End Run.

(** ** The round trip *)

Lemma at_pos_buf t rest : at_pos (t ++ rest) 0 t.
Proof. split; [done|]. by exists rest. Qed.

Lemma terminated_app t c rest : IS_NUM c = false -> terminated (t ++ c :: rest) (zlen t).
Proof.
  intros Hc. exists c. split; [|done]. unfold zlookup. rewrite (proj2 (Z.ltb_ge _ _)) by apply zlen_nonneg.
  unfold zlen. rewrite Nat2Z.id. by rewrite lookup_app_r, Nat.sub_diag.
Qed.

Definition found (buf : list Z) (u : http_parser_url) (f : http_parser_url_fields) : option (list Z) :=
  (fun r => slice buf r.1 r.2) <$> rec u f.

Lemma found_same buf u v f : same_field u v f -> found buf v f = found buf u f.
Proof. intros H. unfold found. by rewrite (rec_same _ _ _ H). Qed.

(** The URL without an authority. *)
Lemma parse_built_path strict x c rest u0 :
  url_wf strict x -> u_authority x = None -> zlen (url_text x) <= 65535 ->
  let buf := url_text x ++ c :: rest in
  exists u, http_parser_parse_url strict buf (zlen (url_text x)) false u0 = inl (0, u) /\
    forall f, f <> UF_MAX -> found buf u f = component x f.
Proof.
  intros Hwf Ha Hlen buf. pose proof (at_pos_buf (url_text x) (c :: rest)) as Hat. fold buf in Hat.
  unfold http_parser_parse_url. set (u1 := mk_url 0 0 _ _).
  rewrite zlen_to_nat. unfold url_text in *. rewrite Ha in *. cbn [authority_text app] in *.
  destruct (tail_run strict buf x s_req_spaces_before_url UF_MAX 0 u1 Hwf (or_intror eq_refl)
    (or_intror eq_refl)) as (u2 & -> & Hcomp & Hsame); try done.
  assert (Hnone : forall g, g <> UF_PATH -> g <> UF_QUERY -> g <> UF_FRAGMENT -> has_field u2 g = false).
  { intros g Hg1 Hg2 Hg3. by destruct (Hsame g Hg1 Hg2 Hg3) as (-> & _). }
  unfold parse_url_checks, parse_url_port. rewrite !Hnone by done. cbn [andb].
  exists u2. split; [done|]. intros f Hf. unfold found.
  destruct f; try (symmetry; apply Hcomp; auto; done); cbn [component]; rewrite ?Ha;
    unfold rec; rewrite Hnone; done.
Qed.

(** The URL with one. *)
Lemma parse_built_authority strict x a c rest u0 :
  url_wf strict x -> u_authority x = Some a -> zlen (url_text x) <= 65535 -> IS_NUM c = false ->
  let buf := url_text x ++ c :: rest in
  exists u, http_parser_parse_url strict buf (zlen (url_text x)) false u0 = inl (0, u) /\
    (forall f, f <> UF_MAX -> found buf u f = component x f) /\
    (forall ds, a_port a = Some ds -> port u = digits_value 10 dec_digit 0 ds).
Proof.
  intros Hwf Ha Hlen Hc buf. pose proof (at_pos_buf (url_text x) (c :: rest)) as Hat. fold buf in Hat.
  pose proof (terminated_app (url_text x) c rest Hc) as Hterm. fold buf in Hterm.
  unfold http_parser_parse_url. set (u1 := mk_url 0 0 _ _). rewrite zlen_to_nat.
  destruct (url_run strict buf x a _ u1 Hwf Ha Hat eq_refl Hlen ltac:(done))
    as (u2 & -> & Hhat & Hhterm & Hhlen & Hsch & Hhost & Hcomp & Hnone).
  pose proof Hwf as [Hawf _]. rewrite Ha in Hawf.
  destruct (checks_authority strict buf a (zlen (url_text x)) u2 Hawf Hhat Hhterm Hhlen Hlen Hterm
    Hsch Hhost (Hnone _ (or_introl eq_refl))) as (u3 & -> & Hh3 & Hp3 & Hval & Hsame3).
  exists u3. split; [done|]. split; [|exact Hval].
  unfold host_text in Hhat. apply at_pos_app in Hhat as [Hat1 Hat2].
  intros f Hf. destruct f; cbn [component]; rewrite ?Ha; unfold found.
  - rewrite (rec_same _ _ _ (Hsame3 UF_SCHEMA ltac:(done) ltac:(done))), Hsch. cbn.
    f_equal. apply (at_pos_slice buf 0). apply at_pos_app in Hat as [Hat _].
    rewrite Ha in Hat. cbn [authority_text] in Hat. by apply at_pos_app in Hat as [Hat _].
  - rewrite Hh3. cbn. by rewrite at_pos_slice.
  - rewrite Hp3. cbn. destruct (a_port a) as [ds|]; [|done]. cbn.
    cbn [opt_text app] in Hat2. apply at_pos_cons in Hat2 as [_ Hat2]. by rewrite at_pos_slice.
  - rewrite (rec_same _ _ _ (Hsame3 UF_PATH ltac:(done) ltac:(done))). symmetry. apply (Hcomp UF_PATH). auto.
  - rewrite (rec_same _ _ _ (Hsame3 UF_QUERY ltac:(done) ltac:(done))). symmetry. apply (Hcomp UF_QUERY). auto.
  - rewrite (rec_same _ _ _ (Hsame3 UF_FRAGMENT ltac:(done) ltac:(done))). symmetry. apply (Hcomp UF_FRAGMENT). auto.
  - rewrite (rec_same _ _ _ (Hsame3 UF_USERINFO ltac:(done) ltac:(done))), Hnone; auto.
  - done.
Qed.

(** C31. Round trip of the URL parser: a text written from a schema, a host, an
    optional port of at most 65535, a path, a query and a fragment, each made
    of the characters its place allows, and followed in memory by a byte that
    is no digit, is accepted; the slice recorded for each field is the
    component the text was written from, a field is recorded exactly when
    the component is there, and the port number is the value of its digits. *)
Theorem url_roundtrip strict x c rest u0 :
  url_wf strict x -> zlen (url_text x) <= 65535 -> IS_NUM c = false ->
  let buf := url_text x ++ c :: rest in
  exists u, http_parser_parse_url strict buf (zlen (url_text x)) false u0 = inl (0, u) /\
    (forall f, f <> UF_MAX -> found buf u f = component x f) /\
    (forall v, url_port x = Some v -> port u = v).
Proof.
  intros Hwf Hlen Hc buf. unfold url_port. destruct (u_authority x) as [a|] eqn:Ha.
  - destruct (parse_built_authority strict x a c rest u0 Hwf Ha Hlen Hc) as (u & Hu & Hf & Hp).
    exists u. split; [done|]. split; [done|]. cbn. intros v.
    destruct (a_port a) as [ds|]; [|done]. intros [= <-]. auto.
  - destruct (parse_built_path strict x c rest u0 Hwf Ha Hlen) as (u & Hu & Hf).
    exists u. by split.
Qed.

Definition sample_url : url :=
  mk_full_url (Some (mk_authority (bytes "http") (bytes "cam7.example.org") (Some (bytes "8080"))))
    (bytes "/live/room") (Some (bytes "id=7?x")) (Some (bytes "top")).

Lemma url_roundtrip_witness :
  url_text sample_url = bytes "http://cam7.example.org:8080/live/room?id=7?x#top" /\
  url_port sample_url = Some 8080 /\
  let buf := url_text sample_url ++ [chr " "] in
  exists u, http_parser_parse_url true buf (zlen (url_text sample_url)) false (mk_url 0 0 (fun _ => 0) (fun _ => 0))
            = inl (0, u) /\
    (forall f, f <> UF_MAX -> found buf u f = component sample_url f) /\
    (forall v, url_port sample_url = Some v -> port u = v).
Proof.
  split; [reflexivity|]. split; [reflexivity|].
  apply (url_roundtrip true sample_url (chr " ") []).
  - repeat split; try discriminate; try (repeat constructor; fail).
    + eexists. split; [reflexivity|]. repeat constructor.
    + do 2 eexists. split; [reflexivity|]. repeat constructor.
    + do 2 eexists. split; [reflexivity|]. repeat constructor.
  - vm_compute. discriminate.
  - reflexivity.
Defined.
