(* ===== verification/HttpParser.v ===== *)
(** * HttpParser: http_parser_execute

    The incremental HTTP parser of [http_parser.c].  The parser object is a
    record with the widths of the C bit fields; assignments truncate.  The
    application object behind [parser->data] is the parameter [U]; a callback
    may change both.  One call of [http_parser_execute] is a computation in the
    monad of [Control] over the local variables [ctx]; [goto reexecute],
    [goto error] and [return] are jumps, a failing [assert] and a read outside
    an array are faults. *)
From S2P Require Import Prelude Control HttpDefs HttpUrl.

(** ** struct http_parser *)

Record http_parser := mk_parser {
  hp_type : http_parser_type;
  hp_flags : Z;              (* 7 bits *)
  hp_state : state;
  hp_header_state : header_states;
  hp_index : Z;              (* 8 bits *)
  hp_nread : Z;              (* uint32_t *)
  hp_content_length : Z;     (* uint64_t *)
  hp_http_major : Z;         (* unsigned short *)
  hp_http_minor : Z;         (* unsigned short *)
  hp_status_code : Z;        (* 16 bits *)
  hp_method : http_method;
  hp_errno : http_errno;
  hp_upgrade : bool;
}.

Definition set_type v p := mk_parser v (hp_flags p) (hp_state p) (hp_header_state p) (hp_index p) (hp_nread p) (hp_content_length p) (hp_http_major p) (hp_http_minor p) (hp_status_code p) (hp_method p) (hp_errno p) (hp_upgrade p).
Definition set_flags v p := mk_parser (hp_type p) (u7 v) (hp_state p) (hp_header_state p) (hp_index p) (hp_nread p) (hp_content_length p) (hp_http_major p) (hp_http_minor p) (hp_status_code p) (hp_method p) (hp_errno p) (hp_upgrade p).
Definition set_state v p := mk_parser (hp_type p) (hp_flags p) v (hp_header_state p) (hp_index p) (hp_nread p) (hp_content_length p) (hp_http_major p) (hp_http_minor p) (hp_status_code p) (hp_method p) (hp_errno p) (hp_upgrade p).
Definition set_header_state v p := mk_parser (hp_type p) (hp_flags p) (hp_state p) v (hp_index p) (hp_nread p) (hp_content_length p) (hp_http_major p) (hp_http_minor p) (hp_status_code p) (hp_method p) (hp_errno p) (hp_upgrade p).
Definition set_index v p := mk_parser (hp_type p) (hp_flags p) (hp_state p) (hp_header_state p) (u8 v) (hp_nread p) (hp_content_length p) (hp_http_major p) (hp_http_minor p) (hp_status_code p) (hp_method p) (hp_errno p) (hp_upgrade p).
Definition set_nread v p := mk_parser (hp_type p) (hp_flags p) (hp_state p) (hp_header_state p) (hp_index p) (u32 v) (hp_content_length p) (hp_http_major p) (hp_http_minor p) (hp_status_code p) (hp_method p) (hp_errno p) (hp_upgrade p).
Definition set_content_length v p := mk_parser (hp_type p) (hp_flags p) (hp_state p) (hp_header_state p) (hp_index p) (hp_nread p) (u64 v) (hp_http_major p) (hp_http_minor p) (hp_status_code p) (hp_method p) (hp_errno p) (hp_upgrade p).
Definition set_http_major v p := mk_parser (hp_type p) (hp_flags p) (hp_state p) (hp_header_state p) (hp_index p) (hp_nread p) (hp_content_length p) (u16 v) (hp_http_minor p) (hp_status_code p) (hp_method p) (hp_errno p) (hp_upgrade p).
Definition set_http_minor v p := mk_parser (hp_type p) (hp_flags p) (hp_state p) (hp_header_state p) (hp_index p) (hp_nread p) (hp_content_length p) (hp_http_major p) (u16 v) (hp_status_code p) (hp_method p) (hp_errno p) (hp_upgrade p).
Definition set_status_code v p := mk_parser (hp_type p) (hp_flags p) (hp_state p) (hp_header_state p) (hp_index p) (hp_nread p) (hp_content_length p) (hp_http_major p) (hp_http_minor p) (u16 v) (hp_method p) (hp_errno p) (hp_upgrade p).
Definition set_method v p := mk_parser (hp_type p) (hp_flags p) (hp_state p) (hp_header_state p) (hp_index p) (hp_nread p) (hp_content_length p) (hp_http_major p) (hp_http_minor p) (hp_status_code p) v (hp_errno p) (hp_upgrade p).
Definition set_errno v p := mk_parser (hp_type p) (hp_flags p) (hp_state p) (hp_header_state p) (hp_index p) (hp_nread p) (hp_content_length p) (hp_http_major p) (hp_http_minor p) (hp_status_code p) (hp_method p) v (hp_upgrade p).
Definition set_upgrade v p := mk_parser (hp_type p) (hp_flags p) (hp_state p) (hp_header_state p) (hp_index p) (hp_nread p) (hp_content_length p) (hp_http_major p) (hp_http_minor p) (hp_status_code p) (hp_method p) (hp_errno p) v.

(** [parser->flags |= f] and [parser->flags & f] *)
Definition or_flags (f : Z) (p : http_parser) : http_parser :=
  set_flags (Z.lor (hp_flags p) f) p.
Definition has_flag (p : http_parser) (f : Z) : bool :=
  negb (Z.land (hp_flags p) f =? 0).

Definition errno_ok (p : http_parser) : bool := bool_decide (hp_errno p = HPE_OK).

(** ** The small functions of http_parser.c *)

Definition http_parser_init (t : http_parser_type) : http_parser :=
  mk_parser t 0
    match t with
    | HTTP_REQUEST => s_start_req
    | HTTP_RESPONSE => s_start_res
    | HTTP_BOTH => s_start_req_or_res
    end
    h_general 0 0 0 0 0 0 HTTP_DELETE HPE_OK false.

Definition http_message_needs_eof (p : http_parser) : bool :=
  if bool_decide (hp_type p = HTTP_REQUEST) then false
  else if (hp_status_code p / 100 =? 1) || (hp_status_code p =? 204)
       || (hp_status_code p =? 304) || has_flag p F_SKIPBODY then false
  else if has_flag p F_CHUNKED || negb (hp_content_length p =? ULLONG_MAX)
  then false
  else true.

Definition http_should_keep_alive (p : http_parser) : bool :=
  if (0 <? hp_http_major p) && (0 <? hp_http_minor p) then
    if has_flag p F_CONNECTION_CLOSE then false
    else negb (http_message_needs_eof p)
  else
    if negb (has_flag p F_CONNECTION_KEEP_ALIVE) then false
    else negb (http_message_needs_eof p).

(** [inr AssertFailed] is [assert(0 && "Attempting to pause parser in error
    state")]. *)
Definition http_parser_pause (p : http_parser) (paused : bool)
  : http_parser + fault :=
  match hp_errno p with
  | HPE_OK | HPE_PAUSED => inl (set_errno (if paused then HPE_PAUSED else HPE_OK) p)
  | _ => inr AssertFailed
  end.

Definition http_body_is_final (p : http_parser) : bool :=
  bool_decide (hp_state p = s_message_done).

(** ** Callbacks *)

Definition http_cb (U : Type) : Type := http_parser -> U -> Z * http_parser * U.
Definition http_data_cb (U : Type) : Type :=
  http_parser -> U -> list Z -> Z * http_parser * U.

Record http_parser_settings (U : Type) := mk_settings {
  on_message_begin : option (http_cb U);
  on_url : option (http_data_cb U);
  on_status : option (http_data_cb U);
  on_header_field : option (http_data_cb U);
  on_header_value : option (http_data_cb U);
  on_headers_complete : option (http_cb U);
  on_body : option (http_data_cb U);
  on_message_complete : option (http_cb U);
  on_chunk_header : option (http_cb U);
  on_chunk_complete : option (http_cb U);
}.
Arguments on_message_begin {U}.
Arguments on_url {U}.
Arguments on_status {U}.
Arguments on_header_field {U}.
Arguments on_header_value {U}.
Arguments on_headers_complete {U}.
Arguments on_body {U}.
Arguments on_message_complete {U}.
Arguments on_chunk_header {U}.
Arguments on_chunk_complete {U}.

(** [memset(settings, 0, sizeof)]: no callback is installed. *)
Definition http_parser_settings_init (U : Type) : http_parser_settings U :=
  mk_settings U None None None None None None None None None None.

(** The five data callbacks, each with its local [_mark] pointer. *)
Inductive dkind := K_header_field | K_header_value | K_url | K_body | K_status.

#[export] Instance dkind_eq_dec : EqDecision dkind.
Proof. solve_decision. Defined.

Definition cb_errno (k : dkind) : http_errno :=
  match k with
  | K_header_field => HPE_CB_header_field
  | K_header_value => HPE_CB_header_value
  | K_url => HPE_CB_url
  | K_body => HPE_CB_body
  | K_status => HPE_CB_status
  end.

Definition data_cb {U} (st : http_parser_settings U) (k : dkind)
  : option (http_data_cb U) :=
  match k with
  | K_header_field => on_header_field st
  | K_header_value => on_header_value st
  | K_url => on_url st
  | K_body => on_body st
  | K_status => on_status st
  end.

(** ** Local variables of http_parser_execute

    Pointers into [data] are offsets from [data]; a mark that is [NULL] is
    [None]. *)
Record ctx (U : Type) := mk_ctx {
  parser : http_parser;
  app : U;
  pos : Z;                          (* p - data *)
  c_ch : Z;                         (* ch *)
  p_state : state;
  marks : dkind -> option Z;        (* header_field_mark, ..., status_mark *)
}.
Arguments mk_ctx {U}.
Arguments parser {U}.
Arguments app {U}.
Arguments pos {U}.
Arguments c_ch {U}.
Arguments p_state {U}.
Arguments marks {U}.

Inductive jump :=
  | JReexec                 (* goto reexecute *)
  | JError                  (* goto error *)
  | JReturn (n : Z)         (* return n *)
  | JFault (f : fault).

Definition upd_mark (k : dkind) (v : option Z) (m : dkind -> option Z)
  : dkind -> option Z := fun k' => if bool_decide (k' = k) then v else m k'.

Section Execute.
Context {U : Type}.
Variable strict : bool.
Variable settings : http_parser_settings U.
Variable data : list Z.

Abbreviation M := (Ctl jump (ctx U)).

Definition len : Z := zlen data.

Definition with_parser (f : http_parser -> http_parser) (c : ctx U) : ctx U :=
  mk_ctx (f (parser c)) (app c) (pos c) (c_ch c) (p_state c) (marks c).

Definition updp (f : http_parser -> http_parser) : M unit :=
  modify (with_parser f).
Definition set_pos (f : Z -> Z) : M unit :=
  modify (fun c => mk_ctx (parser c) (app c) (f (pos c)) (c_ch c) (p_state c) (marks c)).
Definition set_mark (k : dkind) (v : option Z) : M unit :=
  modify (fun c => mk_ctx (parser c) (app c) (pos c) (c_ch c) (p_state c)
                     (upd_mark k v (marks c))).

(** [ch = *p] *)
Definition read_ch : M Z :=
  p ← gets pos;
  match zlookup data p with
  | None => exit (JFault OutOfBounds)
  | Some ch =>
      modify (fun c => mk_ctx (parser c) (app c) (pos c) ch (p_state c) (marks c));;
      mret ch
  end.

(** *** The macros *)

Definition assert (b : bool) : M unit :=
  if b then mret tt else exit (JFault AssertFailed).

Definition SET_ERRNO (e : http_errno) : M unit := updp (set_errno e).

Definition UPDATE_STATE (s : state) : M unit :=
  modify (fun c => mk_ctx (parser c) (app c) (pos c) (c_ch c) s (marks c)).

(** [SET_ERRNO(e); goto error;] *)
Definition fail {A} (e : http_errno) : M A := SET_ERRNO e;; exit JError.

Definition RETURN {A} (V : Z) : M A :=
  s ← gets p_state;
  updp (set_state s);;
  exit (JReturn V).

Definition REEXECUTE {A} : M A := exit JReexec.

(** The part shared by the callback macros: store the state, run the callback,
    set the error number if it fails, reload the state and leave with [ER] if
    the parser is in error or paused. *)
Definition run_cb (e : http_errno) (f : http_parser -> U -> Z * http_parser * U)
    (ER : Z) : M unit :=
  s ← gets p_state;
  updp (set_state s);;
  p ← gets parser;
  u ← gets app;
  let '(r, p', u') := f p u in
  modify (fun c => mk_ctx p' u' (pos c) (c_ch c) (p_state c) (marks c));;
  when (negb (r =? 0)) (SET_ERRNO e);;
  p ← gets parser;
  UPDATE_STATE (hp_state p);;
  if errno_ok p then mret tt else exit (JReturn ER).

Definition assert_ok : M unit := p ← gets parser; assert (errno_ok p).

Definition CALLBACK_NOTIFY_ (e : http_errno) (cb : option (http_cb U)) (ER : Z)
  : M unit :=
  assert_ok;;
  match cb with
  | None => mret tt
  | Some f => run_cb e f ER
  end.

Definition CALLBACK_NOTIFY (e : http_errno) (cb : option (http_cb U)) : M unit :=
  p ← gets pos; CALLBACK_NOTIFY_ e cb (p + 1).

Definition CALLBACK_NOTIFY_NOADVANCE (e : http_errno) (cb : option (http_cb U))
  : M unit :=
  p ← gets pos; CALLBACK_NOTIFY_ e cb p.

(** [at] and [length] must describe a part of the buffer: a pair outside it
    would be an out-of-bounds access of the callback. *)
Definition in_data (mark n : Z) : bool :=
  (0 <=? mark) && (0 <=? n) && (mark + n <=? len).

Definition CALLBACK_DATA_ (k : dkind) (LEN : Z -> Z) (ER : Z) : M unit :=
  assert_ok;;
  m ← gets (fun c => marks c k);
  match m with
  | None => mret tt
  | Some mark =>
      match data_cb settings k with
      | None => mret tt
      | Some f =>
          if in_data mark (LEN mark) then
            run_cb (cb_errno k) (fun p u => f p u (slice data mark (LEN mark))) ER
          else exit (JFault OutOfBounds)
      end;;
      set_mark k None
  end.

Definition CALLBACK_DATA (k : dkind) : M unit :=
  p ← gets pos; CALLBACK_DATA_ k (fun mark => p - mark) (p + 1).

Definition CALLBACK_DATA_NOADVANCE (k : dkind) : M unit :=
  p ← gets pos; CALLBACK_DATA_ k (fun mark => p - mark) p.

Definition MARK (k : dkind) : M unit :=
  m ← gets (fun c => marks c k);
  p ← gets pos;
  match m with
  | None => set_mark k (Some p)
  | Some _ => mret tt
  end.

Definition COUNT_HEADER_SIZE (V : Z) : M unit :=
  updp (fun p => set_nread (hp_nread p + V) p);;
  p ← gets parser;
  when (HTTP_MAX_HEADER_SIZE <? hp_nread p) (fail HPE_HEADER_OVERFLOW).

Definition STRICT_CHECK (cond : bool) : M unit :=
  when (strict && cond) (fail HPE_STRICT).

Definition start_state (p : http_parser) : state :=
  if bool_decide (hp_type p = HTTP_REQUEST) then s_start_req else s_start_res.

Definition NEW_MESSAGE (p : http_parser) : state :=
  if strict then
    if http_should_keep_alive p then start_state p else s_dead
  else start_state p.

(** [parser->index++; if (index > sizeof(name)-1 || c != name[index]) X = miss;
    else if (index == sizeof(name)-2) X = hit;]: one step of the matchers of
    header names and values; the new value of [X], which was [cur]. *)
Definition match_name (name : string) (c : Z) (cur miss hit : header_states)
  : M header_states :=
  updp (fun p => set_index (hp_index p + 1) p);;
  p ← gets parser;
  if strlen name <? hp_index p then mret miss else
  match cstr_at name (hp_index p) with
  | None => exit (JFault OutOfBounds)
  | Some x =>
      if negb (c =? x) then mret miss
      else if hp_index p =? strlen name - 1 then mret hit
      else mret cur
  end.

(** *** The cases of the switch: status line *)

Definition case_s_dead (ch : Z) : M unit :=
  if (ch =? CR) || (ch =? LF) then mret tt
  else fail HPE_CLOSED_CONNECTION.

Definition case_s_start_req_or_res (ch : Z) : M unit :=
  if (ch =? CR) || (ch =? LF) then mret tt else
  updp (set_flags 0);;
  updp (set_content_length ULLONG_MAX);;
  if ch =? chr "H" then
    UPDATE_STATE s_res_or_resp_H;;
    CALLBACK_NOTIFY HPE_CB_message_begin (on_message_begin settings)
  else
    updp (set_type HTTP_REQUEST);;
    UPDATE_STATE s_start_req;;
    REEXECUTE.

Definition case_s_res_or_resp_H (ch : Z) : M unit :=
  if ch =? chr "T" then
    updp (set_type HTTP_RESPONSE);;
    UPDATE_STATE s_res_HT
  else if negb (ch =? chr "E") then fail HPE_INVALID_CONSTANT
  else
    updp (set_type HTTP_REQUEST);;
    updp (set_method HTTP_HEAD);;
    updp (set_index 2);;
    UPDATE_STATE s_req_method.

Definition case_s_start_res (ch : Z) : M unit :=
  updp (set_flags 0);;
  updp (set_content_length ULLONG_MAX);;
  (if ch =? chr "H" then UPDATE_STATE s_res_H
   else if (ch =? CR) || (ch =? LF) then mret tt
   else fail HPE_INVALID_CONSTANT);;
  CALLBACK_NOTIFY HPE_CB_message_begin (on_message_begin settings).

Definition case_s_res_H (ch : Z) : M unit :=
  STRICT_CHECK (negb (ch =? chr "T"));; UPDATE_STATE s_res_HT.

Definition case_s_res_HT (ch : Z) : M unit :=
  STRICT_CHECK (negb (ch =? chr "T"));; UPDATE_STATE s_res_HTT.

Definition case_s_res_HTT (ch : Z) : M unit :=
  STRICT_CHECK (negb (ch =? chr "P"));; UPDATE_STATE s_res_HTTP.

Definition case_s_res_HTTP (ch : Z) : M unit :=
  STRICT_CHECK (negb (ch =? chr "/"));; UPDATE_STATE s_res_first_http_major.

Definition case_s_res_first_http_major (ch : Z) : M unit :=
  if (ch <? chr "0") || (chr "9" <? ch) then fail HPE_INVALID_VERSION else
  updp (set_http_major (ch - chr "0"));;
  UPDATE_STATE s_res_http_major.

(** [parser->X *= 10; parser->X += ch - '0'; if (parser->X > 999) ...]: the
    digit accumulation of the two version numbers and the status code. *)
Definition acc_major (ch : Z) : M unit :=
  updp (fun p => set_http_major (hp_http_major p * 10) p);;
  updp (fun p => set_http_major (hp_http_major p + (ch - chr "0")) p);;
  p ← gets parser;
  when (999 <? hp_http_major p) (fail HPE_INVALID_VERSION).

Definition acc_minor (ch : Z) : M unit :=
  updp (fun p => set_http_minor (hp_http_minor p * 10) p);;
  updp (fun p => set_http_minor (hp_http_minor p + (ch - chr "0")) p);;
  p ← gets parser;
  when (999 <? hp_http_minor p) (fail HPE_INVALID_VERSION).

Definition acc_status (ch : Z) : M unit :=
  updp (fun p => set_status_code (hp_status_code p * 10) p);;
  updp (fun p => set_status_code (hp_status_code p + (ch - chr "0")) p);;
  p ← gets parser;
  when (999 <? hp_status_code p) (fail HPE_INVALID_STATUS).

Definition case_s_res_http_major (ch : Z) : M unit :=
  if ch =? chr "." then UPDATE_STATE s_res_first_http_minor
  else if negb (IS_NUM ch) then fail HPE_INVALID_VERSION
  else acc_major ch.

Definition case_s_res_first_http_minor (ch : Z) : M unit :=
  if negb (IS_NUM ch) then fail HPE_INVALID_VERSION else
  updp (set_http_minor (ch - chr "0"));;
  UPDATE_STATE s_res_http_minor.

Definition case_s_res_http_minor (ch : Z) : M unit :=
  if ch =? chr " " then UPDATE_STATE s_res_first_status_code
  else if negb (IS_NUM ch) then fail HPE_INVALID_VERSION
  else acc_minor ch.

Definition case_s_res_first_status_code (ch : Z) : M unit :=
  if negb (IS_NUM ch) then
    if ch =? chr " " then mret tt else fail HPE_INVALID_STATUS
  else
    updp (set_status_code (ch - chr "0"));;
    UPDATE_STATE s_res_status_code.

Definition case_s_res_status_code (ch : Z) : M unit :=
  if negb (IS_NUM ch) then
    if ch =? chr " " then UPDATE_STATE s_res_status_start
    else if ch =? CR then UPDATE_STATE s_res_line_almost_done
    else if ch =? LF then UPDATE_STATE s_header_field_start
    else fail HPE_INVALID_STATUS
  else acc_status ch.

Definition case_s_res_status_start (ch : Z) : M unit :=
  if ch =? CR then UPDATE_STATE s_res_line_almost_done
  else if ch =? LF then UPDATE_STATE s_header_field_start
  else
    MARK K_status;;
    UPDATE_STATE s_res_status;;
    updp (set_index 0).

Definition case_s_res_status (ch : Z) : M unit :=
  if ch =? CR then
    UPDATE_STATE s_res_line_almost_done;;
    CALLBACK_DATA K_status
  else if ch =? LF then
    UPDATE_STATE s_header_field_start;;
    CALLBACK_DATA K_status
  else mret tt.

Definition case_s_res_line_almost_done (ch : Z) : M unit :=
  STRICT_CHECK (negb (ch =? LF));;
  UPDATE_STATE s_header_field_start.

(** *** The cases of the switch: request line *)

(** The [switch (ch)] of [s_start_req]; [None] is its [default]. *)
Definition start_method (ch : Z) : option http_method :=
  if ch =? chr "A" then Some HTTP_ACL
  else if ch =? chr "B" then Some HTTP_BIND
  else if ch =? chr "C" then Some HTTP_CONNECT
  else if ch =? chr "D" then Some HTTP_DELETE
  else if ch =? chr "G" then Some HTTP_GET
  else if ch =? chr "H" then Some HTTP_HEAD
  else if ch =? chr "L" then Some HTTP_LOCK
  else if ch =? chr "M" then Some HTTP_MKCOL
  else if ch =? chr "N" then Some HTTP_NOTIFY
  else if ch =? chr "O" then Some HTTP_OPTIONS
  else if ch =? chr "P" then Some HTTP_POST
  else if ch =? chr "R" then Some HTTP_REPORT
  else if ch =? chr "S" then Some HTTP_SUBSCRIBE
  else if ch =? chr "T" then Some HTTP_TRACE
  else if ch =? chr "U" then Some HTTP_UNLOCK
  else None.

Definition case_s_start_req (ch : Z) : M unit :=
  if (ch =? CR) || (ch =? LF) then mret tt else
  updp (set_flags 0);;
  updp (set_content_length ULLONG_MAX);;
  if negb (IS_ALPHA ch) then fail HPE_INVALID_METHOD else
  updp (set_method HTTP_DELETE);;
  updp (set_index 1);;
  match start_method ch with
  | None => fail HPE_INVALID_METHOD
  | Some m =>
      updp (set_method m);;
      UPDATE_STATE s_req_method;;
      CALLBACK_NOTIFY HPE_CB_message_begin (on_message_begin settings)
  end.

(** The [else if] chain of [s_req_method] for a character that differs from the
    expected one: the method that the prefix can still become; [None] is
    [SET_ERRNO(HPE_INVALID_METHOD)]. *)
Definition other_method (m : http_method) (index ch : Z) : option http_method :=
  match m with
  | HTTP_CONNECT =>
      if (index =? 1) && (ch =? chr "H") then Some HTTP_CHECKOUT
      else if (index =? 2) && (ch =? chr "P") then Some HTTP_COPY
      else None
  | HTTP_MKCOL =>
      if (index =? 1) && (ch =? chr "O") then Some HTTP_MOVE
      else if (index =? 1) && (ch =? chr "E") then Some HTTP_MERGE
      else if (index =? 1) && (ch =? chr "-") then Some HTTP_MSEARCH
      else if (index =? 2) && (ch =? chr "A") then Some HTTP_MKACTIVITY
      else if (index =? 3) && (ch =? chr "A") then Some HTTP_MKCALENDAR
      else None
  | HTTP_SUBSCRIBE =>
      if (index =? 1) && (ch =? chr "E") then Some HTTP_SEARCH else None
  | HTTP_REPORT =>
      if (index =? 2) && (ch =? chr "B") then Some HTTP_REBIND else None
  | _ =>
      if index =? 1 then
        match m with
        | HTTP_POST =>
            if ch =? chr "R" then Some HTTP_PROPFIND
            else if ch =? chr "U" then Some HTTP_PUT
            else if ch =? chr "A" then Some HTTP_PATCH
            else None
        | HTTP_LOCK => if ch =? chr "I" then Some HTTP_LINK else None
        | _ => Some m
        end
      else if index =? 2 then
        match m with
        | HTTP_PUT => if ch =? chr "R" then Some HTTP_PURGE else None
        | HTTP_UNLOCK =>
            if ch =? chr "S" then Some HTTP_UNSUBSCRIBE
            else if ch =? chr "B" then Some HTTP_UNBIND
            else None
        | _ => None
        end
      else if (index =? 4) && bool_decide (m = HTTP_PROPFIND) && (ch =? chr "P")
      then Some HTTP_PROPPATCH
      else if (index =? 3) && bool_decide (m = HTTP_UNLOCK) && (ch =? chr "I")
      then Some HTTP_UNLINK
      else None
  end.

Definition case_s_req_method (ch : Z) : M unit :=
  if ch =? 0 then fail HPE_INVALID_METHOD else
  p ← gets parser;
  match cstr_at (method_string (hp_method p)) (hp_index p) with
  | None => exit (JFault OutOfBounds)
  | Some x =>
      (if (ch =? chr " ") && (x =? 0) then UPDATE_STATE s_req_spaces_before_url
       else if ch =? x then mret tt
       else match other_method (hp_method p) (hp_index p) ch with
            | Some m => updp (set_method m)
            | None => fail HPE_INVALID_METHOD
            end);;
      updp (fun p => set_index (hp_index p + 1) p)
  end.

(** [UPDATE_STATE(parse_url_char(CURRENT_STATE(), ch)); if (CURRENT_STATE() ==
    s_dead) { SET_ERRNO(HPE_INVALID_URL); goto error; }] *)
Definition url_step (ch : Z) : M unit :=
  s ← gets p_state;
  UPDATE_STATE (parse_url_char strict s ch);;
  s ← gets p_state;
  when (bool_decide (s = s_dead)) (fail HPE_INVALID_URL).

Definition case_s_req_spaces_before_url (ch : Z) : M unit :=
  if ch =? chr " " then mret tt else
  MARK K_url;;
  p ← gets parser;
  when (bool_decide (hp_method p = HTTP_CONNECT)) (UPDATE_STATE s_req_server_start);;
  url_step ch.

Definition case_s_req_schema (ch : Z) : M unit :=
  if (ch =? chr " ") || (ch =? CR) || (ch =? LF) then fail HPE_INVALID_URL
  else url_step ch.

Definition case_s_req_server (ch : Z) : M unit :=
  if ch =? chr " " then
    UPDATE_STATE s_req_http_start;;
    CALLBACK_DATA K_url
  else if (ch =? CR) || (ch =? LF) then
    updp (set_http_major 0);;
    updp (set_http_minor 9);;
    UPDATE_STATE (if ch =? CR then s_req_line_almost_done else s_header_field_start);;
    CALLBACK_DATA K_url
  else url_step ch.

Definition case_s_req_http_start (ch : Z) : M unit :=
  if ch =? chr "H" then UPDATE_STATE s_req_http_H
  else if ch =? chr " " then mret tt
  else fail HPE_INVALID_CONSTANT.

Definition case_s_req_http_H (ch : Z) : M unit :=
  STRICT_CHECK (negb (ch =? chr "T"));; UPDATE_STATE s_req_http_HT.

Definition case_s_req_http_HT (ch : Z) : M unit :=
  STRICT_CHECK (negb (ch =? chr "T"));; UPDATE_STATE s_req_http_HTT.

Definition case_s_req_http_HTT (ch : Z) : M unit :=
  STRICT_CHECK (negb (ch =? chr "P"));; UPDATE_STATE s_req_http_HTTP.

Definition case_s_req_http_HTTP (ch : Z) : M unit :=
  STRICT_CHECK (negb (ch =? chr "/"));; UPDATE_STATE s_req_first_http_major.

Definition case_s_req_first_http_major (ch : Z) : M unit :=
  if (ch <? chr "1") || (chr "9" <? ch) then fail HPE_INVALID_VERSION else
  updp (set_http_major (ch - chr "0"));;
  UPDATE_STATE s_req_http_major.

Definition case_s_req_http_major (ch : Z) : M unit :=
  if ch =? chr "." then UPDATE_STATE s_req_first_http_minor
  else if negb (IS_NUM ch) then fail HPE_INVALID_VERSION
  else acc_major ch.

Definition case_s_req_first_http_minor (ch : Z) : M unit :=
  if negb (IS_NUM ch) then fail HPE_INVALID_VERSION else
  updp (set_http_minor (ch - chr "0"));;
  UPDATE_STATE s_req_http_minor.

Definition case_s_req_http_minor (ch : Z) : M unit :=
  if ch =? CR then UPDATE_STATE s_req_line_almost_done
  else if ch =? LF then UPDATE_STATE s_header_field_start
  else if negb (IS_NUM ch) then fail HPE_INVALID_VERSION
  else acc_minor ch.

Definition case_s_req_line_almost_done (ch : Z) : M unit :=
  if negb (ch =? LF) then fail HPE_LF_EXPECTED
  else UPDATE_STATE s_header_field_start.

(** *** The cases of the switch: header fields *)

(** The [switch (c)] of [s_header_field_start]. *)
Definition field_start_state (c : Z) : header_states :=
  if c =? chr "c" then h_C
  else if c =? chr "p" then h_matching_proxy_connection
  else if c =? chr "t" then h_matching_transfer_encoding
  else if c =? chr "u" then h_matching_upgrade
  else h_general.

Definition case_s_header_field_start (ch : Z) : M unit :=
  if ch =? CR then UPDATE_STATE s_headers_almost_done
  else if ch =? LF then
    UPDATE_STATE s_headers_almost_done;;
    REEXECUTE
  else
    let c := TOKEN strict ch in
    if c =? 0 then fail HPE_INVALID_HEADER_TOKEN else
    MARK K_header_field;;
    updp (set_index 0);;
    UPDATE_STATE s_header_field;;
    updp (set_header_state (field_start_state c)).

(** The [switch (parser->header_state)] of the loop of [s_header_field]. *)
Definition header_field_char (ch c : Z) : M unit :=
  p ← gets parser;
  let matching name hit :=
    hs ← match_name name c (hp_header_state p) h_general hit;
    updp (set_header_state hs) in
  let next hs :=
    updp (fun p => set_index (hp_index p + 1) p);;
    updp (set_header_state hs) in
  match hp_header_state p with
  | h_general => mret tt
  | h_C => next (if c =? chr "o" then h_CO else h_general)
  | h_CO => next (if c =? chr "n" then h_CON else h_general)
  | h_CON =>
      next (if c =? chr "n" then h_matching_connection
            else if c =? chr "t" then h_matching_content_length
            else h_general)
  | h_matching_connection => matching "connection"%string h_connection
  | h_matching_proxy_connection => matching "proxy-connection"%string h_connection
  | h_matching_content_length => matching "content-length"%string h_content_length
  | h_matching_transfer_encoding =>
      matching "transfer-encoding"%string h_transfer_encoding
  | h_matching_upgrade => matching "upgrade"%string h_upgrade
  | h_connection | h_content_length | h_transfer_encoding | h_upgrade =>
      if negb (ch =? chr " ") then updp (set_header_state h_general) else mret tt
  | _ => exit (JFault AssertFailed)
  end.

(** The [for] loop of [s_header_field]. *)
Fixpoint header_field_loop (fuel : nat) : M unit :=
  match fuel with
  | O => exit (JFault OutOfFuel)
  | S fuel' =>
      p ← gets pos;
      if p =? len then mret tt else
      ch ← read_ch;
      let c := TOKEN strict ch in
      if c =? 0 then mret tt else
      header_field_char ch c;;
      set_pos (fun p => p + 1);;
      header_field_loop fuel'
  end.

Definition loop_fuel : nat := S (length data).

Definition case_s_header_field : M unit :=
  start ← gets pos;
  header_field_loop loop_fuel;;
  p ← gets pos;
  COUNT_HEADER_SIZE (p - start);;
  if p =? len then set_pos (fun p => p - 1) else
  ch ← gets c_ch;
  if ch =? chr ":" then
    UPDATE_STATE s_header_value_discard_ws;;
    CALLBACK_DATA K_header_field
  else fail HPE_INVALID_HEADER_TOKEN.

(** *** The cases of the switch: header values *)

Definition case_s_header_value_start (ch : Z) : M unit :=
  MARK K_header_value;;
  UPDATE_STATE s_header_value;;
  updp (set_index 0);;
  let c := LOWER ch in
  p ← gets parser;
  match hp_header_state p with
  | h_upgrade =>
      updp (or_flags F_UPGRADE);;
      updp (set_header_state h_general)
  | h_transfer_encoding =>
      updp (set_header_state
              (if c =? chr "c" then h_matching_transfer_encoding_chunked
               else h_general))
  | h_content_length =>
      if negb (IS_NUM ch) then fail HPE_INVALID_CONTENT_LENGTH
      else updp (set_content_length (ch - chr "0"))
  | h_connection =>
      updp (set_header_state
              (if c =? chr "k" then h_matching_connection_keep_alive
               else if c =? chr "c" then h_matching_connection_close
               else if c =? chr "u" then h_matching_connection_upgrade
               else h_matching_connection_token))
  | h_matching_connection_token_start => mret tt
  | _ => updp (set_header_state h_general)
  end.

Definition case_s_header_value_discard_ws (ch : Z) : M unit :=
  if (ch =? chr " ") || (ch =? HT) then mret tt
  else if ch =? CR then UPDATE_STATE s_header_value_discard_ws_almost_done
  else if ch =? LF then UPDATE_STATE s_header_value_discard_lws
  else case_s_header_value_start ch.

(** [case h_general] of the loop of [s_header_value]: move [p] to the byte
    before the next CR or LF (or before the end of the data). *)
Definition header_value_skip : M unit :=
  p ← gets pos;
  let limit := Z.to_nat (Z.min (len - p) HTTP_MAX_HEADER_SIZE) in
  let rest := drop (Z.to_nat p) data in
  let target :=
    match memchr rest CR limit, memchr rest LF limit with
    | Some cr, Some lf =>
        if (lf <=? cr)%nat then p + Z.of_nat lf else p + Z.of_nat cr
    | Some cr, None => p + Z.of_nat cr
    | None, Some lf => p + Z.of_nat lf
    | None, None => len
    end in
  set_pos (fun _ => target - 1).

(** [case h_content_length] of the loop of [s_header_value]. *)
Definition content_length_char (h_state : header_states) (ch : Z) : M unit :=
  if ch =? chr " " then mret tt else
  if negb (IS_NUM ch) then
    SET_ERRNO HPE_INVALID_CONTENT_LENGTH;;
    updp (set_header_state h_state);;
    exit JError
  else
    p ← gets parser;
    let t := u64 (hp_content_length p * 10) in
    let t := u64 (t + (ch - chr "0")) in
    if (ULLONG_MAX - 10) / 10 <? hp_content_length p then
      SET_ERRNO HPE_INVALID_CONTENT_LENGTH;;
      updp (set_header_state h_state);;
      exit JError
    else updp (set_content_length t).

(** The [switch (h_state)] of the loop of [s_header_value]; the new [h_state]. *)
Definition header_value_char (h_state : header_states) (ch c : Z)
  : M header_states :=
  match h_state with
  | h_general => header_value_skip;; mret h_state
  | h_connection | h_transfer_encoding => exit (JFault AssertFailed)
  | h_content_length => content_length_char h_state ch;; mret h_state
  | h_matching_transfer_encoding_chunked =>
      match_name "chunked"%string c h_state h_general h_transfer_encoding_chunked
  | h_matching_connection_token_start =>
      mret (if c =? chr "k" then h_matching_connection_keep_alive
            else if c =? chr "c" then h_matching_connection_close
            else if c =? chr "u" then h_matching_connection_upgrade
            else if negb (STRICT_TOKEN c =? 0) then h_matching_connection_token
            else if (c =? chr " ") || (c =? HT) then h_state
            else h_general)
  | h_matching_connection_keep_alive =>
      match_name "keep-alive"%string c h_state h_matching_connection_token
        h_connection_keep_alive
  | h_matching_connection_close =>
      match_name "close"%string c h_state h_matching_connection_token
        h_connection_close
  | h_matching_connection_upgrade =>
      match_name "upgrade"%string c h_state h_matching_connection_token
        h_connection_upgrade
  | h_matching_connection_token =>
      if ch =? chr "," then
        updp (set_index 0);;
        mret h_matching_connection_token_start
      else mret h_state
  | h_transfer_encoding_chunked =>
      mret (if negb (ch =? chr " ") then h_general else h_state)
  | h_connection_keep_alive | h_connection_close | h_connection_upgrade =>
      if ch =? chr "," then
        updp (or_flags match h_state with
                       | h_connection_keep_alive => F_CONNECTION_KEEP_ALIVE
                       | h_connection_close => F_CONNECTION_CLOSE
                       | _ => F_CONNECTION_UPGRADE
                       end);;
        updp (set_index 0);;
        mret h_matching_connection_token_start
      else if negb (ch =? chr " ") then mret h_matching_connection_token
      else mret h_state
  | _ =>
      UPDATE_STATE s_header_value;;
      mret h_general
  end.

(** The [for] loop of [s_header_value]; its result is the final [h_state]. *)
Fixpoint header_value_loop (fuel : nat) (start : Z) (h_state : header_states)
  : M header_states :=
  match fuel with
  | O => exit (JFault OutOfFuel)
  | S fuel' =>
      p ← gets pos;
      if p =? len then mret h_state else
      ch ← read_ch;
      if ch =? CR then
        UPDATE_STATE s_header_almost_done;;
        updp (set_header_state h_state);;
        CALLBACK_DATA K_header_value;;
        mret h_state
      else if ch =? LF then
        UPDATE_STATE s_header_almost_done;;
        COUNT_HEADER_SIZE (p - start);;
        updp (set_header_state h_state);;
        CALLBACK_DATA_NOADVANCE K_header_value;;
        REEXECUTE
      else
        h_state ← header_value_char h_state ch (LOWER ch);
        set_pos (fun p => p + 1);;
        header_value_loop fuel' start h_state
  end.

Definition case_s_header_value : M unit :=
  start ← gets pos;
  p ← gets parser;
  h_state ← header_value_loop loop_fuel start (hp_header_state p);
  updp (set_header_state h_state);;
  p ← gets pos;
  COUNT_HEADER_SIZE (p - start);;
  when (p =? len) (set_pos (fun p => p - 1)).

Definition case_s_header_almost_done (ch : Z) : M unit :=
  STRICT_CHECK (negb (ch =? LF));;
  UPDATE_STATE s_header_value_lws.

(** [switch (parser->header_state)] at the end of a header: the flag it sets. *)
Definition finish_header : M unit :=
  p ← gets parser;
  match hp_header_state p with
  | h_connection_keep_alive => updp (or_flags F_CONNECTION_KEEP_ALIVE)
  | h_connection_close => updp (or_flags F_CONNECTION_CLOSE)
  | h_transfer_encoding_chunked => updp (or_flags F_CHUNKED)
  | h_connection_upgrade => updp (or_flags F_CONNECTION_UPGRADE)
  | _ => mret tt
  end.

Definition case_s_header_value_lws (ch : Z) : M unit :=
  if (ch =? chr " ") || (ch =? HT) then
    UPDATE_STATE s_header_value_start;;
    REEXECUTE
  else
    finish_header;;
    UPDATE_STATE s_header_field_start;;
    REEXECUTE.

Definition case_s_header_value_discard_ws_almost_done (ch : Z) : M unit :=
  STRICT_CHECK (negb (ch =? LF));;
  UPDATE_STATE s_header_value_discard_lws.

Definition case_s_header_value_discard_lws (ch : Z) : M unit :=
  if (ch =? chr " ") || (ch =? HT) then UPDATE_STATE s_header_value_discard_ws
  else
    finish_header;;
    MARK K_header_value;;
    UPDATE_STATE s_header_field_start;;
    CALLBACK_DATA_NOADVANCE K_header_value;;
    REEXECUTE.

(** *** The cases of the switch: end of the headers *)

Definition upgrade_bits : Z := Z.lor F_UPGRADE F_CONNECTION_UPGRADE.

Definition case_s_headers_almost_done (ch : Z) : M unit :=
  STRICT_CHECK (negb (ch =? LF));;
  p ← gets parser;
  if has_flag p F_TRAILING then
    UPDATE_STATE s_message_done;;
    CALLBACK_NOTIFY_NOADVANCE HPE_CB_chunk_complete (on_chunk_complete settings);;
    REEXECUTE
  else
    UPDATE_STATE s_headers_done;;
    updp (fun p => set_upgrade
      ((Z.land (hp_flags p) upgrade_bits =? upgrade_bits)
       || bool_decide (hp_method p = HTTP_CONNECT)) p);;
    pos0 ← gets pos;
    match on_headers_complete settings with
    | None => mret tt
    | Some f =>
        p ← gets parser;
        u ← gets app;
        let '(r, p', u') := f p u in
        modify (fun c => mk_ctx p' u' (pos c) (c_ch c) (p_state c) (marks c));;
        if r =? 0 then mret tt
        else if r =? 1 then updp (or_flags F_SKIPBODY)
        else SET_ERRNO HPE_CB_headers_complete;; RETURN pos0
    end;;
    p ← gets parser;
    if negb (errno_ok p) then RETURN pos0 else REEXECUTE.

(** [UPDATE_STATE(NEW_MESSAGE()); CALLBACK_NOTIFY(message_complete);] *)
Definition message_complete : M unit :=
  p ← gets parser;
  UPDATE_STATE (NEW_MESSAGE p);;
  CALLBACK_NOTIFY HPE_CB_message_complete (on_message_complete settings).

Definition case_s_headers_done (ch : Z) : M unit :=
  STRICT_CHECK (negb (ch =? LF));;
  updp (set_nread 0);;
  p ← gets parser;
  pos0 ← gets pos;
  let hasBody := has_flag p F_CHUNKED
    || ((0 <? hp_content_length p) && negb (hp_content_length p =? ULLONG_MAX)) in
  if hp_upgrade p && (bool_decide (hp_method p = HTTP_CONNECT)
                      || has_flag p F_SKIPBODY || negb hasBody) then
    message_complete;;
    RETURN (pos0 + 1)
  else if has_flag p F_SKIPBODY then message_complete
  else if has_flag p F_CHUNKED then UPDATE_STATE s_chunk_size_start
  else if hp_content_length p =? 0 then message_complete
  else if negb (hp_content_length p =? ULLONG_MAX) then UPDATE_STATE s_body_identity
  else if negb (http_message_needs_eof p) then message_complete
  else UPDATE_STATE s_body_identity_eof.

(** *** The cases of the switch: bodies *)

Definition case_s_body_identity : M unit :=
  p ← gets parser;
  pos0 ← gets pos;
  let to_read := Z.min (hp_content_length p) (len - pos0) in
  assert (negb (hp_content_length p =? 0)
          && negb (hp_content_length p =? ULLONG_MAX));;
  MARK K_body;;
  updp (fun p => set_content_length (hp_content_length p - to_read) p);;
  set_pos (fun p => p + (to_read - 1));;
  p ← gets parser;
  if hp_content_length p =? 0 then
    UPDATE_STATE s_message_done;;
    pos1 ← gets pos;
    CALLBACK_DATA_ K_body (fun mark => pos1 - mark + 1) pos1;;
    REEXECUTE
  else mret tt.

Definition case_s_body_identity_eof : M unit :=
  MARK K_body;;
  set_pos (fun _ => len - 1).

Definition case_s_message_done : M unit :=
  message_complete;;
  p ← gets parser;
  pos0 ← gets pos;
  if hp_upgrade p then RETURN (pos0 + 1) else mret tt.

(** [assert(parser->flags & F_CHUNKED)] *)
Definition assert_chunked : M unit :=
  p ← gets parser; assert (has_flag p F_CHUNKED).

Definition case_s_chunk_size_start (ch : Z) : M unit :=
  p ← gets parser;
  assert (hp_nread p =? 1);;
  assert_chunked;;
  let unhex_val := unhex_at ch in
  if unhex_val =? -1 then fail HPE_INVALID_CHUNK_SIZE else
  updp (set_content_length unhex_val);;
  UPDATE_STATE s_chunk_size.

Definition case_s_chunk_size (ch : Z) : M unit :=
  assert_chunked;;
  if ch =? CR then UPDATE_STATE s_chunk_size_almost_done else
  let unhex_val := unhex_at ch in
  if unhex_val =? -1 then
    if (ch =? chr ";") || (ch =? chr " ") then UPDATE_STATE s_chunk_parameters
    else fail HPE_INVALID_CHUNK_SIZE
  else
    p ← gets parser;
    let t := u64 (hp_content_length p * 16) in
    let t := u64 (t + unhex_val) in
    if (ULLONG_MAX - 16) / 16 <? hp_content_length p
    then fail HPE_INVALID_CONTENT_LENGTH
    else updp (set_content_length t).

Definition case_s_chunk_parameters (ch : Z) : M unit :=
  assert_chunked;;
  if ch =? CR then UPDATE_STATE s_chunk_size_almost_done else mret tt.

Definition case_s_chunk_size_almost_done (ch : Z) : M unit :=
  assert_chunked;;
  STRICT_CHECK (negb (ch =? LF));;
  updp (set_nread 0);;
  p ← gets parser;
  (if hp_content_length p =? 0 then
     updp (or_flags F_TRAILING);;
     UPDATE_STATE s_header_field_start
   else UPDATE_STATE s_chunk_data);;
  CALLBACK_NOTIFY HPE_CB_chunk_header (on_chunk_header settings).

Definition case_s_chunk_data : M unit :=
  p ← gets parser;
  pos0 ← gets pos;
  let to_read := Z.min (hp_content_length p) (len - pos0) in
  assert_chunked;;
  assert (negb (hp_content_length p =? 0)
          && negb (hp_content_length p =? ULLONG_MAX));;
  MARK K_body;;
  updp (fun p => set_content_length (hp_content_length p - to_read) p);;
  set_pos (fun p => p + (to_read - 1));;
  p ← gets parser;
  when (hp_content_length p =? 0) (UPDATE_STATE s_chunk_data_almost_done).

Definition case_s_chunk_data_almost_done (ch : Z) : M unit :=
  assert_chunked;;
  p ← gets parser;
  assert (hp_content_length p =? 0);;
  STRICT_CHECK (negb (ch =? CR));;
  UPDATE_STATE s_chunk_data_done;;
  CALLBACK_DATA K_body.

Definition case_s_chunk_data_done (ch : Z) : M unit :=
  assert_chunked;;
  STRICT_CHECK (negb (ch =? LF));;
  updp (set_nread 0);;
  UPDATE_STATE s_chunk_size_start;;
  CALLBACK_NOTIFY HPE_CB_chunk_complete (on_chunk_complete settings).

(** *** The switch, the loop and the whole function *)

Definition dispatch : M unit :=
  s ← gets p_state;
  ch ← gets c_ch;
  match s with
  | s_dead => case_s_dead ch
  | s_start_req_or_res => case_s_start_req_or_res ch
  | s_res_or_resp_H => case_s_res_or_resp_H ch
  | s_start_res => case_s_start_res ch
  | s_res_H => case_s_res_H ch
  | s_res_HT => case_s_res_HT ch
  | s_res_HTT => case_s_res_HTT ch
  | s_res_HTTP => case_s_res_HTTP ch
  | s_res_first_http_major => case_s_res_first_http_major ch
  | s_res_http_major => case_s_res_http_major ch
  | s_res_first_http_minor => case_s_res_first_http_minor ch
  | s_res_http_minor => case_s_res_http_minor ch
  | s_res_first_status_code => case_s_res_first_status_code ch
  | s_res_status_code => case_s_res_status_code ch
  | s_res_status_start => case_s_res_status_start ch
  | s_res_status => case_s_res_status ch
  | s_res_line_almost_done => case_s_res_line_almost_done ch
  | s_start_req => case_s_start_req ch
  | s_req_method => case_s_req_method ch
  | s_req_spaces_before_url => case_s_req_spaces_before_url ch
  | s_req_schema | s_req_schema_slash | s_req_schema_slash_slash
  | s_req_server_start => case_s_req_schema ch
  | s_req_server | s_req_server_with_at | s_req_path
  | s_req_query_string_start | s_req_query_string | s_req_fragment_start
  | s_req_fragment => case_s_req_server ch
  | s_req_http_start => case_s_req_http_start ch
  | s_req_http_H => case_s_req_http_H ch
  | s_req_http_HT => case_s_req_http_HT ch
  | s_req_http_HTT => case_s_req_http_HTT ch
  | s_req_http_HTTP => case_s_req_http_HTTP ch
  | s_req_first_http_major => case_s_req_first_http_major ch
  | s_req_http_major => case_s_req_http_major ch
  | s_req_first_http_minor => case_s_req_first_http_minor ch
  | s_req_http_minor => case_s_req_http_minor ch
  | s_req_line_almost_done => case_s_req_line_almost_done ch
  | s_header_field_start => case_s_header_field_start ch
  | s_header_field => case_s_header_field
  | s_header_value_discard_ws => case_s_header_value_discard_ws ch
  | s_header_value_discard_ws_almost_done =>
      case_s_header_value_discard_ws_almost_done ch
  | s_header_value_discard_lws => case_s_header_value_discard_lws ch
  | s_header_value_start => case_s_header_value_start ch
  | s_header_value => case_s_header_value
  | s_header_value_lws => case_s_header_value_lws ch
  | s_header_almost_done => case_s_header_almost_done ch
  | s_chunk_size_start => case_s_chunk_size_start ch
  | s_chunk_size => case_s_chunk_size ch
  | s_chunk_parameters => case_s_chunk_parameters ch
  | s_chunk_size_almost_done => case_s_chunk_size_almost_done ch
  | s_headers_almost_done => case_s_headers_almost_done ch
  | s_headers_done => case_s_headers_done ch
  | s_chunk_data => case_s_chunk_data
  | s_chunk_data_almost_done => case_s_chunk_data_almost_done ch
  | s_chunk_data_done => case_s_chunk_data_done ch
  | s_body_identity => case_s_body_identity
  | s_body_identity_eof => case_s_body_identity_eof
  | s_message_done => case_s_message_done
  end.

(** [reexecute: switch (CURRENT_STATE())]: at most [fuel] jumps back. *)
Fixpoint reexecute (fuel : nat) : M unit := fun c =>
  match dispatch c with
  | inr (JReexec, c') =>
      match fuel with
      | O => inr (JFault OutOfFuel, c')
      | S fuel' => reexecute fuel' c'
      end
  | r => r
  end.

(** The bound on the number of [goto reexecute] for one byte; the longest chain
    is value end, header start, end of the headers, end of the message. *)
Definition reexec_fuel : nat := 4.

(** [for (p=data; p != data + len; p++)] *)
Fixpoint main_loop (fuel : nat) : M unit :=
  match fuel with
  | O => exit (JFault OutOfFuel)
  | S fuel' =>
      p ← gets pos;
      if p =? len then mret tt else
      read_ch ≫= fun _ =>
      s ← gets p_state;
      when (PARSING_HEADER s) (COUNT_HEADER_SIZE 1);;
      reexecute reexec_fuel;;
      set_pos (fun p => p + 1);;
      main_loop fuel'
  end.

Definition mark_count (m : dkind -> option Z) : nat :=
  length (filter (fun k => is_Some (m k))
            [K_header_field; K_header_value; K_url; K_body; K_status]).

(** What follows the loop: flush the mark that is left. *)
Definition flush_marks : M Z :=
  m ← gets marks;
  assert (mark_count m <=? 1)%nat;;
  CALLBACK_DATA_NOADVANCE K_header_field;;
  CALLBACK_DATA_NOADVANCE K_header_value;;
  CALLBACK_DATA_NOADVANCE K_url;;
  CALLBACK_DATA_NOADVANCE K_body;;
  CALLBACK_DATA_NOADVANCE K_status;;
  RETURN len.

(** The marks at the start of a call: a datum that was cut by the end of the
    previous buffer continues at [data]. *)
Definition initial_mark (s : state) (k : dkind) : option Z :=
  match k, s with
  | K_header_field, s_header_field => Some 0
  | K_header_value, s_header_value => Some 0
  | K_url, (s_req_path | s_req_schema | s_req_schema_slash
           | s_req_schema_slash_slash | s_req_server_start | s_req_server
           | s_req_server_with_at | s_req_query_string_start
           | s_req_query_string | s_req_fragment_start | s_req_fragment) => Some 0
  | K_status, s_res_status => Some 0
  | _, _ => None
  end.

(** [len == 0] signals the end of the input. *)
Definition execute_eof : M Z :=
  s ← gets p_state;
  match s with
  | s_body_identity_eof =>
      CALLBACK_NOTIFY_NOADVANCE HPE_CB_message_complete
        (on_message_complete settings);;
      exit (JReturn 0)
  | s_dead | s_start_req_or_res | s_start_res | s_start_req => exit (JReturn 0)
  | _ => SET_ERRNO HPE_INVALID_EOF_STATE;; exit (JReturn 1)
  end.

Definition execute_body : M Z :=
  p ← gets parser;
  if negb (errno_ok p) then exit (JReturn 0) else
  if len =? 0 then execute_eof else
  modify (fun c => mk_ctx (parser c) (app c) (pos c) (c_ch c) (p_state c)
                     (initial_mark (p_state c)));;
  main_loop (S (length data));;
  flush_marks.

(** The label [error:]. *)
Definition error_exit (c : ctx U) : Z * http_parser * U :=
  let p := parser c in
  let p := if errno_ok p then set_errno HPE_UNKNOWN p else p in
  (pos c, set_state (p_state c) p, app c).

Definition http_parser_execute (p : http_parser) (u : U)
  : (Z * http_parser * U) + fault :=
  match execute_body (mk_ctx p u 0 0 (hp_state p) (fun _ => None)) with
  | inl (n, c) => inl (n, parser c, app c)
  | inr (JReturn n, c) => inl (n, parser c, app c)
  | inr (JError, c) => inl (error_exit c)
  | inr (JReexec, _) => inr OutOfFuel
  | inr (JFault f, _) => inr f
  end.

End Execute.
