(* ===== verification/HttpInv.v ===== *)
(** * HttpInv: the invariant of http_parser_execute

    The contract of the callbacks, the invariant of the parser object between
    calls and of the local variables inside a call, and weakest-precondition
    rules of the macros with respect to it. *)
From S2P Require Import Prelude Control HttpDefs HttpUrl HttpParser.

(** ** What the parser asks of the application

    A callback called on a parser without error may pause it with
    [http_parser_pause] and leaves every other member alone (they are marked
    private or read-only in [http_parser.h]). *)
Definition cb_ok {U} (f : http_parser -> U -> Z * http_parser * U) : Prop :=
  forall p u, hp_errno p = HPE_OK ->
  let '(_, p', _) := f p u in p' = p \/ p' = set_errno HPE_PAUSED p.

Class CallbacksOk {U} (st : http_parser_settings U) : Prop := {
  ok_message_begin f : on_message_begin st = Some f -> cb_ok f;
  ok_headers_complete f : on_headers_complete st = Some f -> cb_ok f;
  ok_message_complete f : on_message_complete st = Some f -> cb_ok f;
  ok_chunk_header f : on_chunk_header st = Some f -> cb_ok f;
  ok_chunk_complete f : on_chunk_complete st = Some f -> cb_ok f;
  ok_data k f d : data_cb st k = Some f -> cb_ok (fun p u => f p u d);
}.

(** ** The invariant *)

(** Every member is within its width and, once accepted, within the limit that
    the parser imposes on it. *)
Record parser_rng (p : http_parser) : Prop := {
  rng_flags : 0 <= hp_flags p < 2 ^ 7;
  rng_index : 0 <= hp_index p < 2 ^ 8;
  rng_nread : 0 <= hp_nread p <= HTTP_MAX_HEADER_SIZE;
  rng_cl : 0 <= hp_content_length p < 2 ^ 64;
  rng_major : 0 <= hp_http_major p <= 999;
  rng_minor : 0 <= hp_http_minor p <= 999;
  rng_status : 0 <= hp_status_code p <= 999;
}.

(** The header states that occur while a header name is read. *)
Definition field_hs (h : header_states) : bool :=
  match h with
  | h_general | h_C | h_CO | h_CON | h_matching_connection
  | h_matching_proxy_connection | h_matching_content_length
  | h_matching_transfer_encoding | h_matching_upgrade | h_connection
  | h_content_length | h_transfer_encoding | h_upgrade => true
  | _ => false
  end.

(** The header states that occur while a header value is read. *)
Definition value_hs (h : header_states) : bool :=
  match h with
  | h_connection | h_transfer_encoding => false
  | _ => true
  end.

Definition proper_length (p : http_parser) : Prop :=
  0 < hp_content_length p < ULLONG_MAX.

(** What each state promises; [n] is the value of [nread] in
    [s_chunk_size_start] (0 between two bytes, 1 once the byte is counted). *)
Definition state_ok (n : Z) (s : state) (p : http_parser) : Prop :=
  match s with
  | s_req_method => hp_index p <= strlen (method_string (hp_method p))
  | s_header_field => field_hs (hp_header_state p) = true
  | s_header_value => value_hs (hp_header_state p) = true
  | s_body_identity => proper_length p
  | s_chunk_size_start => hp_nread p = n /\ has_flag p F_CHUNKED = true
  | s_chunk_size | s_chunk_parameters | s_chunk_size_almost_done =>
      hp_content_length p < ULLONG_MAX /\ has_flag p F_CHUNKED = true
  | s_chunk_data => proper_length p /\ has_flag p F_CHUNKED = true
  | s_chunk_data_almost_done =>
      hp_content_length p = 0 /\ has_flag p F_CHUNKED = true
  | s_chunk_data_done => has_flag p F_CHUNKED = true
  | _ => True
  end.

(** The invariant of the parser object between two calls. *)
Definition parser_ok (p : http_parser) : Prop :=
  parser_rng p /\ state_ok 0 (hp_state p) p.

(** The states in which a mark may be set. *)
Definition mark_state (k : dkind) (s : state) : bool :=
  match k with
  | K_body =>
      match s with
      | s_body_identity | s_body_identity_eof | s_chunk_data
      | s_chunk_data_almost_done => true
      | _ => false
      end
  | _ => bool_decide (initial_mark s k = Some 0)
  end.

Definition marks_ok {U} (c : ctx U) : Prop :=
  forall k m, marks c k = Some m ->
  mark_state k (p_state c) = true /\ 0 <= m <= pos c.

(** The invariant of the local variables. *)
Record ctx_ok {U} (n : Z) (c : ctx U) : Prop := {
  ok_rng : parser_rng (parser c);
  ok_errno : hp_errno (parser c) = HPE_OK;
  ok_state : state_ok n (p_state c) (parser c);
  ok_marks : marks_ok c;
}.

(** The longest chain of [goto reexecute] that starts in a state. *)
Definition rank (s : state) : nat :=
  match s with
  | s_header_value_lws | s_header_value_discard_lws => 3
  | s_header_field_start => 2
  | s_headers_almost_done | s_header_value | s_body_identity
  | s_start_req_or_res => 1
  | _ => 0
  end.

(** What holds of the parser when a call returns [n] for [l] bytes. *)
Definition ret_ok (l n : Z) (p : http_parser) : Prop :=
  (hp_errno p = HPE_OK -> n = l \/ hp_upgrade p = true) /\
  (hp_errno p = HPE_OK \/ hp_errno p = HPE_PAUSED -> parser_ok p).

(** What holds after a jump out of a case that was entered at offset [p0] in
    a state of rank [r0]. *)
Definition exit_ok {U} (l p0 : Z) (r0 : nat) (j : jump) (c : ctx U) : Prop :=
  match j with
  | JReexec => ctx_ok 1 c /\ p0 <= pos c < l /\ (rank (p_state c) < r0)%nat
  | JError => 0 <= pos c <= l /\ hp_errno (parser c) <> HPE_OK
              /\ hp_errno (parser c) <> HPE_PAUSED
  | JReturn n => 0 <= n <= l /\ ret_ok l n (parser c)
  | JFault _ => False
  end.

Definition post_ok {U} (l p0 : Z) (c : ctx U) : Prop :=
  ctx_ok 0 c /\ p0 <= pos c < l.

Ltac hp_simp :=
  cbn [parser app pos c_ch p_state marks with_parser
       hp_type hp_flags hp_state hp_header_state hp_index hp_nread
       hp_content_length hp_http_major hp_http_minor hp_status_code hp_method
       hp_errno hp_upgrade
       set_type set_flags set_state set_header_state set_index set_nread
       set_content_length set_http_major set_http_minor set_status_code
       set_method set_errno set_upgrade or_flags] in *.

(** ** Ranges under assignment *)

Lemma rng_set_type v p : parser_rng p -> parser_rng (set_type v p).
Proof. intros []; by split. Qed.
Lemma rng_set_flags v p : parser_rng p -> parser_rng (set_flags v p).
Proof. intros []; split; hp_simp; try done. by apply uwrap_range. Qed.
Lemma rng_or_flags v p : parser_rng p -> parser_rng (or_flags v p).
Proof. apply rng_set_flags. Qed.
Lemma rng_set_state v p : parser_rng p -> parser_rng (set_state v p).
Proof. intros []; by split. Qed.
Lemma rng_set_header_state v p : parser_rng p -> parser_rng (set_header_state v p).
Proof. intros []; by split. Qed.
Lemma rng_set_index v p : parser_rng p -> parser_rng (set_index v p).
Proof. intros []; split; hp_simp; try done. by apply uwrap_range. Qed.
Lemma rng_set_nread0 p : parser_rng p -> parser_rng (set_nread 0 p).
Proof. intros []; split; hp_simp; done. Qed.
Lemma rng_set_content_length v p : parser_rng p -> parser_rng (set_content_length v p).
Proof. intros []; split; hp_simp; try done. by apply uwrap_range. Qed.
Lemma rng_set_method v p : parser_rng p -> parser_rng (set_method v p).
Proof. intros []; by split. Qed.
Lemma rng_set_errno v p : parser_rng p -> parser_rng (set_errno v p).
Proof. intros []; by split. Qed.
Lemma rng_set_upgrade v p : parser_rng p -> parser_rng (set_upgrade v p).
Proof. intros []; by split. Qed.
Lemma rng_set_major v p : 0 <= v <= 999 -> parser_rng p -> parser_rng (set_http_major v p).
Proof. intros ? []; split; hp_simp; try done. rewrite uwrap_small; lia. Qed.
Lemma rng_set_minor v p : 0 <= v <= 999 -> parser_rng p -> parser_rng (set_http_minor v p).
Proof. intros ? []; split; hp_simp; try done. rewrite uwrap_small; lia. Qed.
Lemma rng_set_status v p : 0 <= v <= 999 -> parser_rng p -> parser_rng (set_status_code v p).
Proof. intros ? []; split; hp_simp; try done. rewrite uwrap_small; lia. Qed.
Lemma rng_set_nread v p :
  u32 v <= HTTP_MAX_HEADER_SIZE -> parser_rng p -> parser_rng (set_nread v p).
Proof.
  intros ? []; split; hp_simp; try done.
  pose proof (uwrap_range 32 v ltac:(lia)). lia.
Qed.

#[export] Hint Resolve rng_set_type rng_set_flags rng_or_flags rng_set_state
  rng_set_header_state rng_set_index rng_set_nread0 rng_set_content_length
  rng_set_method rng_set_errno rng_set_upgrade rng_set_major rng_set_minor
  rng_set_status rng_set_nread : atb.
#[export] Hint Extern 1 (0 <= _ <= 999) => lia : atb.
#[export] Hint Extern 1 (_ <= HTTP_MAX_HEADER_SIZE) => assumption : atb.

(** The promise of a state depends neither on the stored state nor on the
    error number. *)
Lemma state_ok_set_state n s t p : state_ok n s (set_state t p) <-> state_ok n s p.
Proof. by destruct s. Qed.

Lemma state_ok_set_errno n s e p : state_ok n s (set_errno e p) <-> state_ok n s p.
Proof. by destruct s. Qed.

Lemma parser_ok_stored s e p :
  parser_rng p -> state_ok 0 s p -> parser_ok (set_errno e (set_state s p)).
Proof.
  intros Hr Hs. split; [eauto with atb|].
  by apply state_ok_set_errno, state_ok_set_state.
Qed.

Lemma set_state_id p : set_state (hp_state p) p = p.
Proof. by destruct p. Qed.

Lemma set_errno_id p e : hp_errno p = e -> set_errno e p = p.
Proof. intros <-. by destruct p. Qed.

Lemma errno_ok_true p : hp_errno p = HPE_OK -> errno_ok p = true.
Proof. intros H. unfold errno_ok. by apply bool_decide_eq_true. Qed.

Lemma errno_ok_false p : hp_errno p <> HPE_OK -> errno_ok p = false.
Proof. intros H. unfold errno_ok. by apply bool_decide_eq_false. Qed.

(** ** Rules of the macros *)

Section Rules.
Context {U : Type} (strict : bool) (settings : http_parser_settings U).
Context `{!CallbacksOk settings}.
Variable data : list Z.
Abbreviation M := (Ctl jump (ctx U)).
Abbreviation l := (zlen data).
Variables (p0 : Z) (r0 : nat).
Abbreviation EX := (exit_ok (U := U) l p0 r0).
Implicit Types c : ctx U.

Lemma wp_updp f c (Q : unit -> ctx U -> Prop) E :
  Q tt (with_parser f c) -> wp (updp f) c Q E.
Proof. intros. by apply wp_modify. Qed.

Lemma wp_set_pos f c (Q : unit -> ctx U -> Prop) E :
  Q tt (mk_ctx (parser c) (app c) (f (pos c)) (c_ch c) (p_state c) (marks c)) ->
  wp (set_pos f) c Q E.
Proof. intros. by apply wp_modify. Qed.

Lemma wp_UPDATE_STATE s c (Q : unit -> ctx U -> Prop) E :
  Q tt (mk_ctx (parser c) (app c) (pos c) (c_ch c) s (marks c)) ->
  wp (UPDATE_STATE s) c Q E.
Proof. intros. by apply wp_modify. Qed.

Lemma wp_fail {A} e c (Q : A -> ctx U -> Prop) :
  0 <= pos c <= l -> e <> HPE_OK -> e <> HPE_PAUSED -> wp (fail e) c Q EX.
Proof.
  intros. unfold fail, SET_ERRNO. apply wp_bind, wp_updp, wp_exit.
  split; [hp_simp; lia | done].
Qed.

Lemma wp_RETURN {A} n c (Q : A -> ctx U -> Prop) :
  0 <= n <= l ->
  (hp_errno (parser c) = HPE_OK -> n = l \/ hp_upgrade (parser c) = true) ->
  (hp_errno (parser c) = HPE_OK \/ hp_errno (parser c) = HPE_PAUSED ->
   parser_rng (parser c) /\ state_ok 0 (p_state c) (parser c)) ->
  wp (RETURN n) c Q EX.
Proof.
  intros Hn Hup Hok. unfold RETURN. apply wp_bind, wp_gets, wp_bind, wp_updp, wp_exit.
  split; [done|]. split; [done|]. hp_simp. intros [Hr Hs]%Hok.
  split; [eauto with atb|]. by apply state_ok_set_state.
Qed.

Lemma wp_assert b c (Q : unit -> ctx U -> Prop) E :
  b = true -> Q tt c -> wp (assert b) c Q E.
Proof. intros -> ?. by apply wp_ret. Qed.

Lemma wp_assert_ok c (Q : unit -> ctx U -> Prop) E :
  hp_errno (parser c) = HPE_OK -> Q tt c -> wp assert_ok c Q E.
Proof.
  intros H ?. unfold assert_ok. apply wp_bind, wp_gets, wp_assert; [|done].
  by apply errno_ok_true.
Qed.

Lemma wp_assert_chunked c (Q : unit -> ctx U -> Prop) E :
  has_flag (parser c) F_CHUNKED = true -> Q tt c -> wp assert_chunked c Q E.
Proof. intros. unfold assert_chunked. by apply wp_bind, wp_gets, wp_assert. Qed.

Lemma wp_STRICT_CHECK b c (Q : unit -> ctx U -> Prop) :
  0 <= pos c <= l -> Q tt c -> wp (STRICT_CHECK strict b) c Q EX.
Proof. intros. unfold STRICT_CHECK. apply wp_when; [|done]. intros _. by apply wp_fail. Qed.

Lemma wp_read_ch c (Q : Z -> ctx U -> Prop) E :
  0 <= pos c < l ->
  (forall ch, zlookup data (pos c) = Some ch ->
   Q ch (mk_ctx (parser c) (app c) (pos c) ch (p_state c) (marks c))) ->
  wp (read_ch data) c Q E.
Proof.
  intros Hp HQ. unfold read_ch. apply wp_bind, wp_gets.
  destruct (zlookup_Some data (pos c) Hp) as [ch Hch]. rewrite Hch.
  apply wp_bind, wp_modify, wp_ret. auto.
Qed.

Lemma wp_COUNT v c (Q : unit -> ctx U -> Prop) :
  0 <= pos c <= l ->
  (u32 (hp_nread (parser c) + v) <= HTTP_MAX_HEADER_SIZE ->
   Q tt (with_parser (fun p => set_nread (hp_nread p + v) p) c)) ->
  wp (COUNT_HEADER_SIZE v) c Q EX.
Proof.
  intros Hp HQ. unfold COUNT_HEADER_SIZE.
  apply wp_bind, wp_updp, wp_bind, wp_gets, wp_when; intros Hn.
  - by apply wp_fail.
  - apply HQ. hp_simp. by destr_bool.
Qed.

Lemma wp_MARK k c (Q : unit -> ctx U -> Prop) E :
  (forall m v, m k = Some v -> (marks c k = Some v \/ marks c k = None /\ v = pos c) ->
   (forall k', k' <> k -> m k' = marks c k') ->
   Q tt (mk_ctx (parser c) (app c) (pos c) (c_ch c) (p_state c) m)) ->
  wp (MARK k) c Q E.
Proof.
  intros HQ. unfold MARK. apply wp_bind, wp_gets, wp_bind, wp_gets.
  destruct (marks c k) as [v|] eqn:Hk.
  - apply wp_ret. specialize (HQ (marks c) v). destruct c. apply HQ; auto.
  - apply wp_modify, (HQ _ (pos c)); [|by right|].
    + unfold upd_mark. by rewrite bool_decide_true.
    + intros k' Hk'. unfold upd_mark. by rewrite bool_decide_false.
Qed.

(** A callback either completes, with only the application and the stored state
    changed, or leaves the function with the parser in error or paused. *)
Lemma wp_run_cb e f ER c (Q : unit -> ctx U -> Prop) :
  cb_ok f -> e <> HPE_OK -> e <> HPE_PAUSED ->
  hp_errno (parser c) = HPE_OK -> parser_rng (parser c) ->
  state_ok 0 (p_state c) (parser c) -> 0 <= ER <= l ->
  (forall u, Q tt (mk_ctx (set_state (p_state c) (parser c)) u (pos c) (c_ch c)
                     (p_state c) (marks c))) ->
  wp (run_cb e f ER) c Q EX.
Proof.
  intros Hf He1 He2 Herr Hr Hs HER HQ. unfold run_cb.
  apply wp_bind, wp_gets, wp_bind, wp_updp, wp_bind, wp_gets, wp_bind, wp_gets.
  specialize (Hf (set_state (p_state c) (parser c)) (app c) Herr). hp_simp.
  destruct (f _ _) as [[r p'] u'].
  assert (Hleave : forall e', e' <> HPE_OK ->
            EX (JReturn ER) (mk_ctx (set_errno e' (set_state (p_state c) (parser c)))
                               u' (pos c) (c_ch c) (p_state c) (marks c))).
  { intros e' He'. split; [done|]. split; [done|]. intros _. by apply parser_ok_stored. }
  apply wp_bind, wp_modify, wp_bind, wp_when; intros Hrz.
  - apply wp_updp, wp_bind, wp_gets, wp_bind, wp_UPDATE_STATE. hp_simp.
    rewrite errno_ok_false by (by hp_simp).
    apply wp_exit. destruct Hf as [-> | ->]; by apply (Hleave e).
  - apply wp_bind, wp_gets, wp_bind, wp_UPDATE_STATE. hp_simp.
    destruct Hf as [-> | ->].
    + rewrite errno_ok_true by done. apply wp_ret, HQ.
    + rewrite errno_ok_false by done. apply wp_exit. by apply (Hleave HPE_PAUSED).
Qed.

Lemma wp_NOTIFY_ e cb ER c (Q : unit -> ctx U -> Prop) :
  (forall f, cb = Some f -> cb_ok f) -> e <> HPE_OK -> e <> HPE_PAUSED ->
  hp_errno (parser c) = HPE_OK -> parser_rng (parser c) ->
  state_ok 0 (p_state c) (parser c) -> 0 <= ER <= l ->
  (forall s u, Q tt (mk_ctx (set_state s (parser c)) u (pos c) (c_ch c)
                       (p_state c) (marks c))) ->
  wp (CALLBACK_NOTIFY_ e cb ER) c Q EX.
Proof.
  intros Hcb ? ? ? ? ? ? HQ. unfold CALLBACK_NOTIFY_.
  apply wp_bind, wp_assert_ok; [done|]. destruct cb as [f|].
  - apply wp_run_cb; auto.
  - apply wp_ret. specialize (HQ (hp_state (parser c)) (app c)).
    rewrite set_state_id in HQ. by destruct c.
Qed.

Lemma wp_NOTIFY e cb c (Q : unit -> ctx U -> Prop) :
  (forall f, cb = Some f -> cb_ok f) -> e <> HPE_OK -> e <> HPE_PAUSED ->
  hp_errno (parser c) = HPE_OK -> parser_rng (parser c) ->
  state_ok 0 (p_state c) (parser c) -> 0 <= pos c < l ->
  (forall s u, Q tt (mk_ctx (set_state s (parser c)) u (pos c) (c_ch c)
                       (p_state c) (marks c))) ->
  wp (CALLBACK_NOTIFY e cb) c Q EX.
Proof. intros. unfold CALLBACK_NOTIFY. apply wp_bind, wp_gets, wp_NOTIFY_; auto; lia. Qed.

Lemma wp_NOTIFY_NOADVANCE e cb c (Q : unit -> ctx U -> Prop) :
  (forall f, cb = Some f -> cb_ok f) -> e <> HPE_OK -> e <> HPE_PAUSED ->
  hp_errno (parser c) = HPE_OK -> parser_rng (parser c) ->
  state_ok 0 (p_state c) (parser c) -> 0 <= pos c <= l ->
  (forall s u, Q tt (mk_ctx (set_state s (parser c)) u (pos c) (c_ch c)
                       (p_state c) (marks c))) ->
  wp (CALLBACK_NOTIFY_NOADVANCE e cb) c Q EX.
Proof.
  intros. unfold CALLBACK_NOTIFY_NOADVANCE. apply wp_bind, wp_gets, wp_NOTIFY_; auto; lia.
Qed.

(** The data callbacks: the mark is cleared, the other marks are untouched. *)
Lemma wp_DATA_ k LEN ER c (Q : unit -> ctx U -> Prop) :
  hp_errno (parser c) = HPE_OK -> parser_rng (parser c) ->
  state_ok 0 (p_state c) (parser c) -> 0 <= ER <= l ->
  (forall m, marks c k = Some m -> 0 <= m /\ 0 <= LEN m /\ m + LEN m <= l) ->
  (forall s u mk, mk k = None -> (forall k', k' <> k -> mk k' = marks c k') ->
   Q tt (mk_ctx (set_state s (parser c)) u (pos c) (c_ch c) (p_state c) mk)) ->
  wp (CALLBACK_DATA_ settings data k LEN ER) c Q EX.
Proof.
  intros Herr Hr Hs HER Hm HQ. unfold CALLBACK_DATA_.
  apply wp_bind, wp_assert_ok; [done|]. apply wp_bind, wp_gets.
  destruct (marks c k) as [m|] eqn:Hk.
  - destruct (Hm m eq_refl) as (H1 & H2 & H3).
    assert (Hclear : forall s u, Q tt (mk_ctx (set_state s (parser c)) u (pos c)
              (c_ch c) (p_state c) (upd_mark k None (marks c)))).
    { intros s u. apply HQ; intros; unfold upd_mark;
        [by rewrite bool_decide_true | by rewrite bool_decide_false]. }
    apply wp_bind. destruct (data_cb settings k) as [f|] eqn:Hf.
    + unfold in_data, len. rewrite !(proj2 (Z.leb_le _ _)) by lia. cbn [andb].
      apply wp_run_cb; auto.
      * apply (ok_data k f _ Hf).
      * by destruct k.
      * by destruct k.
      * intros u. apply wp_modify. apply Hclear.
    + apply wp_ret, wp_modify. specialize (Hclear (hp_state (parser c)) (app c)).
      by rewrite set_state_id in Hclear.
  - apply wp_ret. specialize (HQ (hp_state (parser c)) (app c) (marks c) Hk).
    rewrite set_state_id in HQ. destruct c. by apply HQ.
Qed.

Lemma wp_DATA k c (Q : unit -> ctx U -> Prop) :
  hp_errno (parser c) = HPE_OK -> parser_rng (parser c) ->
  state_ok 0 (p_state c) (parser c) -> 0 <= pos c < l ->
  (forall m, marks c k = Some m -> 0 <= m <= pos c) ->
  (forall s u mk, mk k = None -> (forall k', k' <> k -> mk k' = marks c k') ->
   Q tt (mk_ctx (set_state s (parser c)) u (pos c) (c_ch c) (p_state c) mk)) ->
  wp (CALLBACK_DATA settings data k) c Q EX.
Proof.
  intros ? ? ? ? Hm HQ. unfold CALLBACK_DATA. apply wp_bind, wp_gets, wp_DATA_; auto; [lia|].
  intros m Hk%Hm. lia.
Qed.

Lemma wp_DATA_NOADVANCE k c (Q : unit -> ctx U -> Prop) :
  hp_errno (parser c) = HPE_OK -> parser_rng (parser c) ->
  state_ok 0 (p_state c) (parser c) -> 0 <= pos c <= l ->
  (forall m, marks c k = Some m -> 0 <= m <= pos c) ->
  (forall s u mk, mk k = None -> (forall k', k' <> k -> mk k' = marks c k') ->
   Q tt (mk_ctx (set_state s (parser c)) u (pos c) (c_ch c) (p_state c) mk)) ->
  wp (CALLBACK_DATA_NOADVANCE settings data k) c Q EX.
Proof.
  intros ? ? ? ? Hm HQ. unfold CALLBACK_DATA_NOADVANCE.
  apply wp_bind, wp_gets, wp_DATA_; auto. intros m Hk%Hm. lia.
Qed.

(** The matchers: the index moves on, the result is one of the three states. *)
Lemma wp_match_name name ch cur miss hit c (Q : header_states -> ctx U -> Prop) E :
  parser_rng (parser c) ->
  (forall h, h = cur \/ h = miss \/ h = hit ->
   Q h (with_parser (fun p => set_index (hp_index p + 1) p) c)) ->
  wp (match_name name ch cur miss hit) c Q E.
Proof.
  intros Hr HQ. unfold match_name. apply wp_bind, wp_updp, wp_bind, wp_gets, wp_if.
  - intros _. apply wp_ret. auto.
  - intros Hi. hp_simp. destr_bool.
    pose proof (uwrap_range 8 (hp_index (parser c) + 1) ltac:(lia)).
    destruct (cstr_at_Some name (u8 (hp_index (parser c) + 1))) as [x Hx]; [lia|].
    rewrite Hx. apply wp_if; intros _; [apply wp_ret; auto|].
    apply wp_if; intros _; apply wp_ret; auto.
Qed.

(** The digit accumulators reject a value above 999 before it can wrap. *)
Lemma wp_acc_major ch c (Q : unit -> ctx U -> Prop) :
  48 <= ch <= 57 -> parser_rng (parser c) -> 0 <= pos c <= l ->
  (forall v, 0 <= v <= 999 -> Q tt (with_parser (set_http_major v) c)) ->
  wp (acc_major ch) c Q EX.
Proof.
  intros Hch [] Hp HQ. unfold acc_major.
  apply wp_bind, wp_updp, wp_bind, wp_updp, wp_bind, wp_gets, wp_when; intros Hv.
  - by apply wp_fail.
  - hp_simp. destr_bool. rewrite (uwrap_small 16 (_ * 10)) in Hv by lia.
    rewrite uwrap_small in Hv by lia. apply HQ. hp_simp. rewrite uwrap_small; lia.
Qed.

Lemma wp_acc_minor ch c (Q : unit -> ctx U -> Prop) :
  48 <= ch <= 57 -> parser_rng (parser c) -> 0 <= pos c <= l ->
  (forall v, 0 <= v <= 999 -> Q tt (with_parser (set_http_minor v) c)) ->
  wp (acc_minor ch) c Q EX.
Proof.
  intros Hch [] Hp HQ. unfold acc_minor.
  apply wp_bind, wp_updp, wp_bind, wp_updp, wp_bind, wp_gets, wp_when; intros Hv.
  - by apply wp_fail.
  - hp_simp. destr_bool. rewrite (uwrap_small 16 (_ * 10)) in Hv by lia.
    rewrite uwrap_small in Hv by lia. apply HQ. hp_simp. rewrite uwrap_small; lia.
Qed.

Lemma wp_acc_status ch c (Q : unit -> ctx U -> Prop) :
  48 <= ch <= 57 -> parser_rng (parser c) -> 0 <= pos c <= l ->
  (forall v, 0 <= v <= 999 -> Q tt (with_parser (set_status_code v) c)) ->
  wp (acc_status ch) c Q EX.
Proof.
  intros Hch [] Hp HQ. unfold acc_status.
  apply wp_bind, wp_updp, wp_bind, wp_updp, wp_bind, wp_gets, wp_when; intros Hv.
  - by apply wp_fail.
  - hp_simp. destr_bool. rewrite (uwrap_small 16 (_ * 10)) in Hv by lia.
    rewrite uwrap_small in Hv by lia. apply HQ. hp_simp. rewrite uwrap_small; lia.
Qed.

End Rules.

(** ** An application that records what http_parser reports

    Every callback is installed, accepts everything and appends to a trace;
    [http_parser.h] allows a datum to be delivered in several pieces (a data callback may
    be called arbitrarily many times for each string). *)

Inductive note :=
  | Message_begin
  | Headers_complete
  | Message_complete
  | Chunk_header
  | Chunk_complete.

Abbreviation http_trace := (trace note dkind).

Definition notify (e : note) : http_cb http_trace := fun p t => (0, p, Note e :: t).
Definition record (k : dkind) : http_data_cb http_trace :=
  fun p t d => (0, p, push_data k d t).

Definition record_settings : http_parser_settings http_trace :=
  mk_settings http_trace
    (Some (notify Message_begin)) (Some (record K_url)) (Some (record K_status))
    (Some (record K_header_field)) (Some (record K_header_value))
    (Some (notify Headers_complete)) (Some (record K_body))
    (Some (notify Message_complete)) (Some (notify Chunk_header))
    (Some (notify Chunk_complete)).

#[export] Instance record_settings_ok : CallbacksOk record_settings.
Proof.
  split; try (intros f [= <-] p u _; by left).
  intros k f d Hf p u _. destruct k; simplify_eq/=; by left.
Qed.
