(* ===== verification/HttpSafety.v ===== *)
(** * HttpSafety: http_parser_execute respects its invariant

    Every case of the switch preserves the invariant of [HttpInv], fails no
    assertion, reads nothing outside the buffer and makes progress.  It follows
    that a call always returns, and what it returns. *)
From S2P Require Import Prelude Control HttpDefs HttpUrl HttpParser HttpInv.

Section Cases.
Context {U : Type} (strict : bool) (settings : http_parser_settings U).
Context `{!CallbacksOk settings}.
Variable data : list Z.
Abbreviation M := (Ctl jump (ctx U)).
Abbreviation l := (zlen data).
Implicit Types c : ctx U.

(** A case entered with the invariant keeps it, or leaves by a lawful jump. *)
Definition case_ok (m : M unit) (c : ctx U) : Prop :=
  ctx_ok 1 c -> 0 <= pos c < l ->
  wp m c (fun _ c' => post_ok l (pos c) c') (exit_ok l (pos c) (rank (p_state c))).

Ltac hp_step :=
  lazymatch goal with
  | |- wp (_ ≫= _) _ _ _ => apply wp_bind
  | |- wp (mret _) _ _ _ => apply wp_ret
  | |- wp (gets _) _ _ _ => apply wp_gets
  | |- wp (if _ then _ else _) _ _ _ => apply wp_if; intros ?
  | |- wp (when _ _) _ _ _ => apply wp_when; intros ?
  | |- wp (updp _) _ _ _ => apply wp_updp
  | |- wp (set_pos _) _ _ _ => apply wp_set_pos
  | |- wp (UPDATE_STATE _) _ _ _ => apply wp_UPDATE_STATE
  | |- wp (fail _) _ _ _ => apply wp_fail; [hp_simp; lia | done | done]
  | |- wp (STRICT_CHECK _ _) _ _ _ => apply wp_STRICT_CHECK; [hp_simp; lia |]
  | |- wp (REEXECUTE) _ _ _ => apply wp_exit
  | |- wp (assert_chunked) _ _ _ => apply wp_assert_chunked
  | |- wp (assert _) _ _ _ => apply wp_assert
  | |- wp (acc_major _) _ _ _ => apply wp_acc_major; [| | | intros ? ?]
  | |- wp (acc_minor _) _ _ _ => apply wp_acc_minor; [| | | intros ? ?]
  | |- wp (acc_status _) _ _ _ => apply wp_acc_status; [| | | intros ? ?]
  | |- wp (MARK _) _ _ _ => apply wp_MARK; intros ? ? ? ? ?
  | |- wp (CALLBACK_NOTIFY _ _) _ _ _ => apply wp_NOTIFY; [| done | done | | | | | intros ? ?]
  | |- wp (CALLBACK_NOTIFY_NOADVANCE _ _) _ _ _ =>
      apply wp_NOTIFY_NOADVANCE; [| done | done | | | | | intros ? ?]
  | |- wp (CALLBACK_DATA _ _ _) _ _ _ =>
      apply wp_DATA; [done | | | | | | intros ? ? ? ? ?]
  | |- wp (CALLBACK_DATA_NOADVANCE _ _ _) _ _ _ =>
      apply wp_DATA_NOADVANCE; [done | | | | | | intros ? ? ? ? ?]
  end; hp_simp.

Ltac solve_marks :=
  let k := fresh "k" in let v := fresh "v" in let Hk := fresh "Hk" in
  intros k v Hk; hp_simp;
  repeat match goal with
  | H : _ = Some _ \/ (_ = None /\ _) |- _ => destruct H as [?|[? ?]]
  end;
  destruct k;
  repeat match goal with
  | H : forall k', k' <> ?K -> ?mk k' = _, Hk : ?mk _ = Some _ |- _ =>
      rewrite H in Hk by done
  | H : forall k m', ?mk k = Some m' -> _, Hk : ?mk _ = Some _ |- _ =>
      apply H in Hk; destruct Hk as [? ?]
  end; simpl in *; try discriminate; try done;
  simplify_eq; try (split; [done | lia]).

Ltac hp_fin :=
  unfold IS_NUM in *; destr_bool;
  repeat match goal with
  | |- post_ok _ _ _ => split; [constructor |]; hp_simp
  | |- exit_ok _ _ _ JReexec _ => split; [constructor | split]; hp_simp
  end;
  lazymatch goal with
  | |- marks_ok _ => solve_marks
  | |- parser_rng _ => eauto 20 with atb
  | Hm : forall k m', ?m k = Some m' -> _ |- forall m', ?m _ = Some m' -> _ =>
      let H := fresh in intros ? H; destruct (Hm _ _ H); first [done | lia]
  | |- _ => idtac
  end;
  try done; try (cbn [rank]; lia); eauto 3 using ok_message_begin, ok_message_complete,
     ok_headers_complete, ok_chunk_header, ok_chunk_complete.

Ltac hp_case :=
  intros [Hr He Hs Hm] Hp;
  match goal with c : ctx U |- _ => destruct c as [p u i ch0 s m] end;
  unfold marks_ok in Hm; hp_simp; subst.

Ltac hp_auto := hp_case; repeat hp_step; hp_fin.

Lemma ok_s_dead c ch : p_state c = s_dead -> case_ok (case_s_dead ch) c.
Proof using. intros ?. unfold case_s_dead. hp_auto. Qed.

Lemma ok_s_start_req_or_res c ch :
  p_state c = s_start_req_or_res -> case_ok (case_s_start_req_or_res settings ch) c.
Proof using CallbacksOk0. intros ?. unfold case_s_start_req_or_res. hp_auto. Qed.

Lemma ok_s_res_or_resp_H c ch :
  p_state c = s_res_or_resp_H -> case_ok (case_s_res_or_resp_H ch) c.
Proof using. intros ?. unfold case_s_res_or_resp_H. hp_auto. Qed.

Lemma ok_s_start_res c ch :
  p_state c = s_start_res -> case_ok (case_s_start_res settings ch) c.
Proof using CallbacksOk0. intros ?. unfold case_s_start_res. hp_auto. Qed.

Lemma ok_s_res_H c ch : p_state c = s_res_H -> case_ok (case_s_res_H strict ch) c.
Proof using. intros ?. unfold case_s_res_H. hp_auto. Qed.

Lemma ok_s_res_HT c ch : p_state c = s_res_HT -> case_ok (case_s_res_HT strict ch) c.
Proof using. intros ?. unfold case_s_res_HT. hp_auto. Qed.

Lemma ok_s_res_HTT c ch : p_state c = s_res_HTT -> case_ok (case_s_res_HTT strict ch) c.
Proof using. intros ?. unfold case_s_res_HTT. hp_auto. Qed.

Lemma ok_s_res_HTTP c ch : p_state c = s_res_HTTP -> case_ok (case_s_res_HTTP strict ch) c.
Proof using. intros ?. unfold case_s_res_HTTP. hp_auto. Qed.

Lemma ok_s_res_line_almost_done c ch : p_state c = s_res_line_almost_done -> case_ok (case_s_res_line_almost_done strict ch) c.
Proof using. intros ?. unfold case_s_res_line_almost_done. hp_auto. Qed.

Lemma ok_s_req_http_H c ch : p_state c = s_req_http_H -> case_ok (case_s_req_http_H strict ch) c.
Proof using. intros ?. unfold case_s_req_http_H. hp_auto. Qed.

Lemma ok_s_req_http_HT c ch : p_state c = s_req_http_HT -> case_ok (case_s_req_http_HT strict ch) c.
Proof using. intros ?. unfold case_s_req_http_HT. hp_auto. Qed.

Lemma ok_s_req_http_HTT c ch : p_state c = s_req_http_HTT -> case_ok (case_s_req_http_HTT strict ch) c.
Proof using. intros ?. unfold case_s_req_http_HTT. hp_auto. Qed.

Lemma ok_s_req_http_HTTP c ch : p_state c = s_req_http_HTTP -> case_ok (case_s_req_http_HTTP strict ch) c.
Proof using. intros ?. unfold case_s_req_http_HTTP. hp_auto. Qed.

Lemma ok_s_header_almost_done c ch : p_state c = s_header_almost_done -> case_ok (case_s_header_almost_done strict ch) c.
Proof using. intros ?. unfold case_s_header_almost_done. hp_auto. Qed.

Lemma ok_s_header_value_discard_ws_almost_done c ch : p_state c = s_header_value_discard_ws_almost_done -> case_ok (case_s_header_value_discard_ws_almost_done strict ch) c.
Proof using. intros ?. unfold case_s_header_value_discard_ws_almost_done. hp_auto. Qed.

Lemma ok_s_res_first_http_major c ch : p_state c = s_res_first_http_major -> case_ok (case_s_res_first_http_major ch) c.
Proof using. intros ?. unfold case_s_res_first_http_major. hp_auto. Qed.

Lemma ok_s_res_http_major c ch : p_state c = s_res_http_major -> case_ok (case_s_res_http_major ch) c.
Proof using. intros ?. unfold case_s_res_http_major. hp_auto. Qed.

Lemma ok_s_res_first_http_minor c ch : p_state c = s_res_first_http_minor -> case_ok (case_s_res_first_http_minor ch) c.
Proof using. intros ?. unfold case_s_res_first_http_minor. hp_auto. Qed.

Lemma ok_s_res_http_minor c ch : p_state c = s_res_http_minor -> case_ok (case_s_res_http_minor ch) c.
Proof using. intros ?. unfold case_s_res_http_minor. hp_auto. Qed.

Lemma ok_s_res_first_status_code c ch : p_state c = s_res_first_status_code -> case_ok (case_s_res_first_status_code ch) c.
Proof using. intros ?. unfold case_s_res_first_status_code. hp_auto. Qed.

Lemma ok_s_res_status_code c ch : p_state c = s_res_status_code -> case_ok (case_s_res_status_code ch) c.
Proof using. intros ?. unfold case_s_res_status_code. hp_auto. Qed.

Lemma ok_s_res_status_start c ch : p_state c = s_res_status_start -> case_ok (case_s_res_status_start ch) c.
Proof using. intros ?. unfold case_s_res_status_start. hp_auto. Qed.

Lemma ok_s_req_http_start c ch : p_state c = s_req_http_start -> case_ok (case_s_req_http_start ch) c.
Proof using. intros ?. unfold case_s_req_http_start. hp_auto. Qed.

Lemma ok_s_req_first_http_major c ch : p_state c = s_req_first_http_major -> case_ok (case_s_req_first_http_major ch) c.
Proof using. intros ?. unfold case_s_req_first_http_major. hp_auto. Qed.

Lemma ok_s_req_http_major c ch : p_state c = s_req_http_major -> case_ok (case_s_req_http_major ch) c.
Proof using. intros ?. unfold case_s_req_http_major. hp_auto. Qed.

Lemma ok_s_req_first_http_minor c ch : p_state c = s_req_first_http_minor -> case_ok (case_s_req_first_http_minor ch) c.
Proof using. intros ?. unfold case_s_req_first_http_minor. hp_auto. Qed.

Lemma ok_s_req_http_minor c ch : p_state c = s_req_http_minor -> case_ok (case_s_req_http_minor ch) c.
Proof using. intros ?. unfold case_s_req_http_minor. hp_auto. Qed.

Lemma ok_s_req_line_almost_done c ch : p_state c = s_req_line_almost_done -> case_ok (case_s_req_line_almost_done ch) c.
Proof using. intros ?. unfold case_s_req_line_almost_done. hp_auto. Qed.

Lemma ok_s_res_status c ch :
  p_state c = s_res_status -> case_ok (case_s_res_status settings data ch) c.
Proof using CallbacksOk0.
  intros ?. unfold case_s_res_status. hp_auto.
Qed.

(** *** Methods *)

(** The first letter of a method fixes a method with at least two more. *)
Lemma start_method_len ch m :
  start_method ch = Some m -> 3 <= strlen (method_string m).
Proof using.
  unfold start_method. intros H.
  repeat case_match; simplify_eq; by vm_compute.
Qed.

(** When the matcher switches to another method, the next index is still
    inside its name. *)
Lemma other_method_len m i ch m' :
  other_method m i ch = Some m' -> 0 <= i -> i + 1 <= strlen (method_string m').
Proof using.
  unfold other_method. intros H Hi.
  destruct m; repeat case_match; simplify_eq; destr_bool; subst;
    match goal with |- _ <= strlen ?s => let v := eval vm_compute in (strlen s) in
      change (strlen s) with v end; lia.
Qed.

Lemma method_string_len m : 3 <= strlen (method_string m) <= 11.
Proof using. destruct m; vm_compute; split; discriminate. Qed.

(** Only the terminating NUL is at the end of a name. *)
Lemma cstr_at_end s i x : cstr_at s i = Some x -> x <> 0 -> i + 1 <= strlen s.
Proof using.
  unfold cstr_at, strlen. destruct (Z.ltb_spec i 0); [done|].
  intros Hx Hz. pose proof (lookup_lt_Some _ _ _ Hx) as Hl.
  rewrite length_app in Hl. simpl in Hl.
  destruct (decide (Z.to_nat i = length (bytes s))) as [E|]; [|lia].
  rewrite E, lookup_app_r, Nat.sub_diag in Hx by lia. by simplify_eq/=.
Qed.

Lemma ok_s_start_req c ch :
  p_state c = s_start_req -> case_ok (case_s_start_req settings ch) c.
Proof using CallbacksOk0.
  intros ?. unfold case_s_start_req. hp_case. repeat hp_step; try by hp_fin.
  destruct (start_method ch) as [m0|] eqn:Hm0; repeat hp_step; hp_fin.
  all: cbn [state_ok]; hp_simp; apply start_method_len in Hm0; rewrite uwrap_small; lia.
Qed.

Lemma ok_s_req_method c ch :
  p_state c = s_req_method -> case_ok (case_s_req_method ch) c.
Proof using.
  intros ?. unfold case_s_req_method. hp_case. cbn [state_ok] in Hs.
  pose proof (rng_index _ Hr) as Hi. pose proof (method_string_len (hp_method p)).
  destruct (cstr_at_Some (method_string (hp_method p)) (hp_index p)) as [x Hx]; [lia|].
  repeat hp_step; try by hp_fin. rewrite Hx. repeat hp_step; try by hp_fin.
  - hp_fin. cbn [state_ok]. hp_simp. rewrite uwrap_small by lia.
    eapply cstr_at_end; [exact Hx | lia].
  - destruct (other_method _ _ _) as [m'|] eqn:Hm'; repeat hp_step; hp_fin.
    apply other_method_len in Hm'; [|lia]. pose proof (method_string_len m').
    cbn [state_ok]. hp_simp. rewrite uwrap_small; lia.
Qed.

(** *** URLs *)

(** The automaton stays within the states of a URL. *)
Lemma parse_url_char_url s ch :
  parse_url_char strict s ch = s_dead
  \/ initial_mark (parse_url_char strict s ch) K_url = Some 0.
Proof using.
  unfold parse_url_char. repeat case_match; auto.
Qed.

Lemma url_state_free n s p : initial_mark s K_url = Some 0 -> state_ok n s p.
Proof using. by destruct s. Qed.

Lemma wp_url_step ch c p0 r0 (Q : unit -> ctx U -> Prop) :
  0 <= pos c <= l ->
  (forall s, initial_mark s K_url = Some 0 ->
   Q tt (mk_ctx (parser c) (app c) (pos c) (c_ch c) s (marks c))) ->
  wp (url_step strict ch) c Q (exit_ok l p0 r0).
Proof using.
  intros Hp HQ. unfold url_step. repeat hp_step.
  case_bool_decide; [done|]. apply HQ.
  by destruct (parse_url_char_url (p_state c) ch).
Qed.

Lemma url_post p (u : U) i ch s m :
  parser_rng p -> hp_errno p = HPE_OK -> 0 <= i < l ->
  initial_mark s K_url = Some 0 ->
  (forall k v, m k = Some v -> k = K_url /\ 0 <= v <= i) ->
  post_ok l i (mk_ctx p u i ch s m).
Proof using.
  intros Hr He Hp Hs Hm. split; [|simpl; lia]. constructor; simpl; auto.
  - by apply url_state_free.
  - intros k v [-> ?]%Hm. simpl. split; [|done]. by apply bool_decide_true.
Qed.

Lemma ok_s_req_spaces_before_url c ch :
  p_state c = s_req_spaces_before_url -> case_ok (case_s_req_spaces_before_url strict ch) c.
Proof using.
  intros ?. unfold case_s_req_spaces_before_url. hp_case.
  repeat hp_step; try by hp_fin.
  all: apply wp_url_step; hp_simp; [lia|]; intros s Hs'; apply url_post; auto.
  all: intros k v' Hk; destruct (decide (k = K_url)) as [->|Hne];
    [| rewrite H2 in Hk by done; destruct (Hm _ _ Hk); by destruct k].
  all: split; [done|]; simplify_eq; destruct H1 as [H1|[_ ->]]; [|lia]; by destruct (Hm _ _ H1).
Qed.

(** In a state of a URL only the mark of the URL may be set. *)
Lemma url_marks s (m : dkind -> option Z) i :
  initial_mark s K_url = Some 0 ->
  (forall k v, m k = Some v -> mark_state k s = true /\ 0 <= v <= i) ->
  forall k v, m k = Some v -> k = K_url /\ 0 <= v <= i.
Proof using. intros Hu Hm k v Hk. destruct (Hm _ _ Hk). by destruct k, s. Qed.

Lemma plain_post p (u : U) p0 i ch s m :
  parser_rng p -> hp_errno p = HPE_OK -> state_ok 0 s p -> p0 <= i < l ->
  (forall k, m k = None) -> post_ok l p0 (mk_ctx p u i ch s m).
Proof using.
  intros Hr He Hs Hp Hm. split; [|done]. constructor; auto.
  intros k v Hk. hp_simp. by rewrite Hm in Hk.
Qed.

Lemma ok_s_req_schema c ch :
  initial_mark (p_state c) K_url = Some 0 -> case_ok (case_s_req_schema strict ch) c.
Proof using.
  intros Hu. unfold case_s_req_schema. hp_case. repeat hp_step; try by hp_fin.
  apply wp_url_step; hp_simp; [lia|]. intros s' Hs'. apply url_post; auto.
  by apply (url_marks s).
Qed.

Lemma ok_s_req_server c ch :
  initial_mark (p_state c) K_url = Some 0 -> case_ok (case_s_req_server strict settings data ch) c.
Proof using CallbacksOk0.
  intros Hu. unfold case_s_req_server. hp_case.
  pose proof (url_marks s m i Hu Hm) as Hm'.
  assert (Hnone : forall mk : dkind -> option Z, mk K_url = None ->
            (forall k', k' <> K_url -> mk k' = m k') -> forall k, mk k = None).
  { intros mk H1 H2 k. destruct (decide (k = K_url)) as [->|Hk]; [done|].
    rewrite H2 by done. destruct (m k) eqn:E; [|done]. by apply Hm' in E as [? ?]. }
  repeat hp_step; try by hp_fin.
  - by destruct (ch =? CR).
  - apply plain_post; eauto 6 with atb; [by destruct (ch =? CR) | lia].
  - apply wp_url_step; hp_simp; [lia|]. intros s' Hs'. by apply url_post.
Qed.

(** *** Header fields *)

Lemma ok_s_header_field_start c ch :
  p_state c = s_header_field_start -> case_ok (case_s_header_field_start strict ch) c.
Proof using.
  intros ?. unfold case_s_header_field_start. hp_auto.
  cbn [state_ok]. hp_simp. unfold field_start_state. by repeat case_match.
Qed.

(** One character of a header name keeps the header state among those of
    names; nothing else but the index changes. *)
Lemma wp_header_field_char ch tok c (Q : unit -> ctx U -> Prop) E :
  parser_rng (parser c) -> field_hs (hp_header_state (parser c)) = true ->
  (forall p, parser_rng p -> field_hs (hp_header_state p) = true ->
   hp_errno p = hp_errno (parser c) -> hp_nread p = hp_nread (parser c) ->
   Q tt (mk_ctx p (app c) (pos c) (c_ch c) (p_state c) (marks c))) ->
  wp (header_field_char ch tok) c Q E.
Proof using.
  intros Hr Hh HQ. unfold header_field_char. hp_step.
  assert (Hm : forall name hit, field_hs hit = true ->
    wp (hs ← match_name name tok (hp_header_state (parser c)) h_general hit;
        updp (set_header_state hs)) c Q E).
  { intros name hit Hhit. hp_step. apply wp_match_name; [done|]. intros h Hh'. hp_step.
    apply HQ; hp_simp; eauto with atb. by destruct Hh' as [-> | [-> | ->]]. }
  assert (Hid : Q tt c) by (destruct c; by apply HQ).
  hp_step. destruct (hp_header_state (parser c)) eqn:Eh; try discriminate Hh;
    try (by apply Hm); repeat hp_step; try done;
    apply HQ; hp_simp; eauto with atb; by repeat case_match.
Qed.

Lemma wp_header_field_loop fuel : forall c (Q : unit -> ctx U -> Prop) E,
  parser_rng (parser c) -> field_hs (hp_header_state (parser c)) = true ->
  0 <= pos c <= l -> (Z.to_nat (l - pos c) < fuel)%nat ->
  (forall p i ch, parser_rng p -> field_hs (hp_header_state p) = true ->
   hp_errno p = hp_errno (parser c) -> hp_nread p = hp_nread (parser c) ->
   pos c <= i <= l -> Q tt (mk_ctx p (app c) i ch (p_state c) (marks c))) ->
  wp (header_field_loop strict data fuel) c Q E.
Proof using.
  induction fuel as [|fuel IH]; intros c Q E Hr Hh Hp Hf HQ; [lia|].
  cbn [header_field_loop]. repeat hp_step.
  - destruct c; apply HQ; auto; hp_simp; lia.
  - unfold len in *. destr_bool. apply wp_read_ch; [lia|]. intros ch Hch. repeat hp_step.
    + apply HQ; auto; lia.
    + apply wp_header_field_char; hp_simp; [done..|]. intros p Hr' Hh' He Hn. repeat hp_step.
      apply IH; hp_simp; [done | done | lia | lia |].
      intros p' i ch' ? ? ? ? ?. apply HQ; auto; [congruence | congruence | lia].
Qed.

Lemma loop_fuel_enough (i : Z) : 0 <= i <= l -> (Z.to_nat (l - i) < loop_fuel data)%nat.
Proof using. unfold loop_fuel, zlen. lia. Qed.

Lemma ok_s_header_field c :
  p_state c = s_header_field -> case_ok (case_s_header_field strict settings data) c.
Proof using CallbacksOk0.
  intros ?. unfold case_s_header_field. hp_case. cbn [state_ok] in Hs. repeat hp_step.
  apply wp_header_field_loop; hp_simp; [done | done | lia | apply loop_fuel_enough; lia |].
  intros p' i' ch Hr' Hh' He' Hn' Hi'. repeat hp_step.
  apply wp_COUNT; hp_simp; [lia|]. intros Hc. unfold len in *.
  assert (hp_errno p' = HPE_OK) by congruence.
  repeat hp_step; hp_fin.
Qed.

(** *** Header values *)

Lemma ok_s_header_value_start c ch :
  p_state c = s_header_value_start \/ p_state c = s_header_value_discard_ws ->
  case_ok (case_s_header_value_start ch) c.
Proof using.
  intros Hst. unfold case_s_header_value_start. hp_case.
  assert (Hnone : forall k v, m k = Some v -> False).
  { intros k v Hk. destruct (Hm _ _ Hk). by destruct Hst; subst s; destruct k. }
  repeat hp_step.
  assert (Hfin : forall p', parser_rng p' -> hp_errno p' = HPE_OK ->
            value_hs (hp_header_state p') = true ->
            post_ok l i (mk_ctx p' u i ch0 s_header_value m0)).
  { intros p' ? ? ?. split; [constructor; hp_simp; auto | hp_simp; lia].
    intros k w Hk. hp_simp. destruct (decide (k = K_header_value)) as [->|Hne].
    - split; [done|]. simplify_eq. destruct H0 as [H0|[_ ->]]; [by apply Hnone in H0 | lia].
    - rewrite H1 in Hk by done. by apply Hnone in Hk. }
  destruct (hp_header_state p) eqn:Eh; repeat hp_step;
    apply Hfin; hp_simp; eauto with atb; rewrite ?Eh; by repeat case_match.
Qed.

Lemma ok_s_header_value_discard_ws c ch :
  p_state c = s_header_value_discard_ws -> case_ok (case_s_header_value_discard_ws ch) c.
Proof using.
  intros Hst. unfold case_s_header_value_discard_ws.
  pose proof (ok_s_header_value_start c ch (or_intror Hst)) as Hstart.
  intros Hok Hp. specialize (Hstart Hok Hp). revert Hok Hp. hp_case. repeat hp_step; hp_fin.
Qed.

(** Skipping to the next CR or LF moves forward and not beyond the buffer. *)
Lemma wp_header_value_skip ch c (Q : unit -> ctx U -> Prop) E :
  zlookup data (pos c) = Some ch -> ch <> CR -> ch <> LF ->
  (forall t, pos c < t <= l ->
   Q tt (mk_ctx (parser c) (app c) (t - 1) (c_ch c) (p_state c) (marks c))) ->
  wp (header_value_skip data) c Q E.
Proof using.
  intros Hch Hcr Hlf HQ. pose proof (zlookup_bound _ _ _ Hch) as Hp.
  unfold header_value_skip. repeat hp_step. apply HQ. unfold len.
  rewrite <-drop_zlookup in Hch by lia.
  assert (Hx : forall x n i, x <> ch -> memchr (drop (Z.to_nat (pos c)) data) x n = Some i ->
            0 < Z.of_nat i < Z.of_nat n).
  { intros x n i Hne [? Hi]%memchr_lookup. destruct i; [congruence | lia]. }
  repeat case_match;
    repeat match goal with H : memchr _ _ _ = Some _ |- _ => apply Hx in H; [|done] end; lia.
Qed.

Lemma wp_header_value_char ch h p0 r0 c (Q : header_states -> ctx U -> Prop) :
  parser_rng (parser c) -> value_hs h = true -> zlookup data (pos c) = Some ch ->
  ch <> CR -> ch <> LF -> p_state c = s_header_value ->
  (forall p h' i, parser_rng p -> value_hs h' = true ->
   hp_errno p = hp_errno (parser c) -> hp_nread p = hp_nread (parser c) ->
   pos c <= i < l ->
   Q h' (mk_ctx p (app c) i (c_ch c) s_header_value (marks c))) ->
  wp (header_value_char data h ch (LOWER ch)) c Q (exit_ok l p0 r0).
Proof using.
  intros Hr Hh Hch Hcr Hlf Hs HQ. pose proof (zlookup_bound _ _ _ Hch) as Hp.
  assert (Hsame : forall h', value_hs h' = true -> Q h' c).
  { intros h' ?. destruct c as [pp uu ii cc ss mm]. hp_simp. subst ss. apply HQ; auto; lia. }
  assert (Hmatch : forall name miss hit, value_hs miss = true -> value_hs hit = true ->
    wp (match_name name (LOWER ch) h miss hit) c Q (exit_ok l p0 r0)).
  { intros name miss hit Hmiss Hhit. apply wp_match_name; [done|]. intros h' Hh'.
    unfold with_parser. rewrite Hs. apply HQ; hp_simp; eauto with atb; [|lia].
    by destruct Hh' as [-> | [-> | ->]]. }
  unfold header_value_char.
  destruct h; try discriminate Hh; try (by apply Hmatch); repeat hp_step;
    try (by apply Hsame); try (by apply Hsame; repeat case_match);
    try (by unfold with_parser; rewrite ?Hs; apply HQ; hp_simp; eauto with atb; lia).
  - apply (wp_header_value_skip ch); [done..|]. intros t Ht. repeat hp_step. rewrite Hs.
    apply HQ; auto; lia.
  - unfold content_length_char, SET_ERRNO.
    repeat hp_step; try (apply wp_exit; hp_simp; by repeat split; hp_simp; try lia);
      [by apply Hsame|]. unfold with_parser. rewrite Hs. apply HQ; hp_simp; eauto with atb; lia.
Qed.

(** Once the only mark that may be set is cleared, none is left. *)
Lemma no_marks_left K (m mk : dkind -> option Z) i :
  (forall k v, m k = Some v -> k = K /\ 0 <= v <= i) ->
  mk K = None -> (forall k, k <> K -> mk k = m k) -> forall k, mk k = None.
Proof using.
  intros Hm H1 H2 k. destruct (decide (k = K)) as [->|Hk]; [done|].
  rewrite H2 by done. destruct (m k) eqn:E; [|done]. by apply Hm in E as [? ?].
Qed.

Lemma wp_header_value_loop fuel : forall start h p0 r0 c (Q : header_states -> ctx U -> Prop),
  parser_rng (parser c) -> hp_errno (parser c) = HPE_OK -> value_hs h = true ->
  0 <= p0 <= pos c -> pos c <= l -> (Z.to_nat (l - pos c) < fuel)%nat ->
  (0 < r0)%nat -> p_state c = s_header_value ->
  (forall k v, marks c k = Some v -> k = K_header_value /\ 0 <= v <= pos c) ->
  (forall p h' ch, parser_rng p -> hp_errno p = HPE_OK -> value_hs h' = true ->
   Q h' (mk_ctx p (app c) l ch s_header_value (marks c))) ->
  (forall p u h' i ch mk, parser_rng p -> hp_errno p = HPE_OK -> pos c <= i < l ->
   (forall k, mk k = None) -> Q h' (mk_ctx p u i ch s_header_almost_done mk)) ->
  wp (header_value_loop settings data fuel start h) c Q (exit_ok l p0 r0).
Proof using CallbacksOk0.
  induction fuel as [|fuel IH];
    intros start h p0 r0 c Q Hr He Hh Hp0 Hp Hf Hr0 Hs Hm Hend Hcr; [lia|].
  cbn [header_value_loop]. hp_step. hp_step. hp_step; unfold len in *; destr_bool.
  - hp_step. specialize (Hend (parser c) h (c_ch c)). destruct c as [pp uu ii cc ss mm].
    hp_simp. subst. by apply Hend.
  - hp_step. apply wp_read_ch; [lia|]. intros ch Hch. hp_step; [|hp_step].
    + repeat hp_step; try (by eauto with atb); try lia.
      * intros m' Hm'. by apply Hm in Hm' as [? ?].
      * apply Hcr; eauto with atb; [lia|]. by eapply no_marks_left.
    + repeat hp_step. apply wp_COUNT; hp_simp; [lia|]. intros Hc.
      repeat hp_step; try (by eauto with atb); try lia.
      * intros m' Hm'. by apply Hm in Hm' as [? ?].
      * split; [|hp_simp; split; [lia | done]]. constructor; hp_simp; [eauto with atb | done.. |].
        intros k v Hk. hp_simp.
        by rewrite (no_marks_left K_header_value (marks c) mk (pos c)) in Hk.
    + destr_bool. hp_step. apply wp_header_value_char; hp_simp; auto.
      intros p h' i Hr' Hh' He' Hn' Hi. repeat hp_step.
      apply IH; hp_simp; auto; try congruence; try lia.
      * intros k v Hk. apply Hm in Hk. split; [tauto | lia].
      * intros p' u' h'' i' ch' mk ? ? ? ?. apply Hcr; auto. lia.
Qed.

Lemma ok_s_header_value c :
  p_state c = s_header_value -> case_ok (case_s_header_value settings data) c.
Proof using CallbacksOk0.
  intros ?. unfold case_s_header_value. hp_case. cbn [state_ok] in Hs. repeat hp_step.
  assert (Hm' : forall k v, m k = Some v -> k = K_header_value /\ 0 <= v <= i).
  { intros k v Hk. destruct (Hm _ _ Hk). by destruct k. }
  apply wp_header_value_loop; hp_simp; auto; try lia; [apply loop_fuel_enough; lia | |].
  - intros p' h' ch Hr' He' Hh'. repeat hp_step. apply wp_COUNT; hp_simp; [lia|]. intros Hc.
    hp_step; unfold len in *; destr_bool; [|done]. hp_step.
    split; [constructor; hp_simp; eauto with atb | hp_simp; lia].
    intros k v Hk. apply Hm' in Hk as [-> ?]. hp_simp. split; [done | lia].
  - intros p' u' h' i' ch mk Hr' He' Hi' Hmk. repeat hp_step.
    apply wp_COUNT; hp_simp; [lia|]. intros Hc.
    hp_step; unfold len in *; destr_bool; [lia|].
    apply plain_post; hp_simp; [eauto with atb | done | done | lia | done].
Qed.

(** *** End of a header and of the headers *)

Lemma wp_finish_header c (Q : unit -> ctx U -> Prop) E :
  (forall f, Q tt (with_parser (or_flags f) c)) -> Q tt c -> wp finish_header c Q E.
Proof using.
  intros HQ Hid. unfold finish_header. repeat hp_step.
  destruct (hp_header_state (parser c)); repeat hp_step; auto.
Qed.

Lemma ok_s_header_value_lws c ch :
  p_state c = s_header_value_lws -> case_ok (case_s_header_value_lws ch) c.
Proof using.
  intros ?. unfold case_s_header_value_lws. hp_case. repeat hp_step; try by hp_fin.
  apply wp_finish_header; intros; repeat hp_step; hp_fin.
Qed.

Lemma ok_s_header_value_discard_lws c ch :
  p_state c = s_header_value_discard_lws ->
  case_ok (case_s_header_value_discard_lws settings data ch) c.
Proof using CallbacksOk0.
  intros ?. unfold case_s_header_value_discard_lws. hp_case. repeat hp_step; try by hp_fin.
  apply wp_finish_header; intros; repeat hp_step; hp_fin.
  all: intros m1 Hm1; simplify_eq; destruct H1 as [H1|[_ ->]]; [by destruct (Hm _ _ H1) | lia].
Qed.

(** The trailing part of a message: state [s_message_done] or a new message. *)
Lemma new_message_free n p q : state_ok n (NEW_MESSAGE strict p) q.
Proof using. unfold NEW_MESSAGE, start_state. by repeat case_match. Qed.

Lemma wp_message_complete p0 r0 c (Q : unit -> ctx U -> Prop) :
  parser_rng (parser c) -> hp_errno (parser c) = HPE_OK -> 0 <= pos c < l ->
  (forall s u, Q tt (mk_ctx (set_state s (parser c)) u (pos c) (c_ch c)
                      (NEW_MESSAGE strict (parser c)) (marks c))) ->
  wp (message_complete strict settings) c Q (exit_ok l p0 r0).
Proof using CallbacksOk0.
  intros Hr He Hp HQ. unfold message_complete. repeat hp_step; try done.
  - apply ok_message_complete.
  - apply new_message_free.
Qed.

Lemma wp_headers_complete f c pos0 p0 r0 (Q : unit -> ctx U -> Prop) :
  cb_ok f -> parser_rng (parser c) -> hp_errno (parser c) = HPE_OK ->
  state_ok 0 (p_state c) (parser c) -> 0 <= pos0 <= l ->
  (forall p u, p = parser c \/ p = or_flags F_SKIPBODY (parser c) \/
     p = set_errno HPE_PAUSED (parser c) \/
     p = or_flags F_SKIPBODY (set_errno HPE_PAUSED (parser c)) ->
   Q tt (mk_ctx p u (pos c) (c_ch c) (p_state c) (marks c))) ->
  wp (p ← gets parser; u ← gets app;
      let '(r, p', u') := f p u in
      modify (fun c => mk_ctx p' u' (pos c) (c_ch c) (p_state c) (marks c));;
      if r =? 0 then mret tt
      else if r =? 1 then updp (or_flags F_SKIPBODY)
      else SET_ERRNO HPE_CB_headers_complete;; RETURN pos0) c Q (exit_ok l p0 r0).
Proof using.
  intros Hf Hr He Hs Hp HQ. repeat hp_step. specialize (Hf (parser c) (app c) He).
  destruct (f _ _) as [[r p'] u']. apply wp_bind, wp_modify. hp_simp. repeat hp_step.
  - apply HQ. tauto.
  - unfold with_parser. hp_simp. apply HQ. destruct Hf as [-> | ->]; auto.
  - unfold SET_ERRNO. repeat hp_step. apply wp_RETURN; hp_simp; [done | done |].
    by intros [?|?].
Qed.

Lemma ok_s_headers_almost_done c ch :
  p_state c = s_headers_almost_done -> case_ok (case_s_headers_almost_done strict settings ch) c.
Proof using CallbacksOk0.
  intros ?. unfold case_s_headers_almost_done. hp_case. repeat hp_step; try by hp_fin.
  unfold with_parser. hp_simp.
  match goal with |- context [set_upgrade ?b p] => set (p1 := set_upgrade b p) end.
  assert (Hr1 : parser_rng p1) by (subst p1; eauto with atb).
  assert (He1 : hp_errno p1 = HPE_OK) by done.
  assert (Hend : forall p' u', parser_rng p' ->
    wp (A := unit) (p0 ← gets parser; if negb (errno_ok p0) then RETURN i else REEXECUTE)
       (mk_ctx p' u' i ch0 s_headers_done m)
       (fun _ c' => post_ok l i c') (exit_ok l i (rank s_headers_almost_done))).
  { intros p' u' Hr'. repeat hp_step.
    - apply wp_RETURN; hp_simp; [lia | | done].
      intros E. destr_bool. by rewrite errno_ok_true in * by done.
    - hp_fin. unfold errno_ok in *. by case_bool_decide. }
  destruct (on_headers_complete settings) as [f|] eqn:Ef.
  - apply wp_headers_complete; hp_simp; auto; [by eapply ok_headers_complete | lia |].
    intros p' u' Hp'. apply Hend.
    destruct Hp' as [-> | [-> | [-> | ->]]]; eauto with atb.
  - hp_step. by apply Hend.
Qed.

Lemma ok_s_headers_done c ch :
  p_state c = s_headers_done -> case_ok (case_s_headers_done strict settings ch) c.
Proof using CallbacksOk0.
  intros ?. unfold case_s_headers_done. hp_case.
  assert (Hnone : forall k, m k = None).
  { intros k. destruct (m k) eqn:E; [|done]. destruct (Hm _ _ E). by destruct k. }
  assert (Hmc : forall p' s (u' : U), parser_rng p' -> hp_errno p' = HPE_OK ->
    post_ok l i (mk_ctx (set_state s p') u' i ch0 (NEW_MESSAGE strict p') m)).
  { intros. apply plain_post; hp_simp; eauto with atb; [apply new_message_free | lia]. }
  repeat hp_step;
    try (apply wp_message_complete; hp_simp; [by eauto with atb | done | lia | intros s u']);
    repeat hp_step; try (by apply Hmc; eauto with atb).
  - apply wp_RETURN; hp_simp; [lia | destr_bool; auto |]. intros _.
    split; [eauto with atb | apply new_message_free].
  - apply plain_post; hp_simp; [eauto with atb | done | by split | lia | done].
  - apply plain_post; hp_simp; [eauto with atb | done | | lia | done]. destr_bool.
    pose proof (rng_cl _ Hr). unfold state_ok, proper_length, ULLONG_MAX in *. hp_simp. lia.
  - apply plain_post; hp_simp; [eauto with atb | done | done | lia | done].
Qed.

(** *** Bodies *)

(** The marks after [MARK(body)] in a state where only the body mark is set. *)
Lemma mark_only K (m mk : dkind -> option Z) i v :
  (forall k w, m k = Some w -> k = K /\ 0 <= w <= i) -> 0 <= i ->
  mk K = Some v -> (m K = Some v \/ m K = None /\ v = i) ->
  (forall k, k <> K -> mk k = m k) ->
  forall k w, mk k = Some w -> k = K /\ 0 <= w <= i.
Proof using.
  intros Hm Hi Hv Hor Hne k w Hk. destruct (decide (k = K)) as [->|Hn].
  - simplify_eq. split; [done|]. destruct Hor as [H|[_ ->]]; [by apply Hm in H as [? ?] | lia].
  - rewrite Hne in Hk by done. by apply Hm in Hk.
Qed.

Lemma body_marks s (m : dkind -> option Z) i :
  mark_state K_body s = true ->
  (forall k v, m k = Some v -> mark_state k s = true /\ 0 <= v <= i) ->
  forall k v, m k = Some v -> k = K_body /\ 0 <= v <= i.
Proof using. intros Hu Hm k v Hk. destruct (Hm _ _ Hk). by destruct k, s. Qed.

(** [to_read] bytes are taken: at least one, at most the rest of the buffer. *)
Lemma to_read_bounds (p : http_parser) i :
  parser_rng p -> proper_length p -> 0 <= i < l ->
  let t := Z.min (hp_content_length p) (l - i) in
  1 <= t /\ i + t <= l /\
  u64 (hp_content_length p - t) = hp_content_length p - t /\
  0 <= hp_content_length p - t < ULLONG_MAX /\
  (hp_content_length p - t <> 0 -> i + t = l).
Proof using.
  intros Hr [? ?] ? t. pose proof (rng_cl _ Hr). subst t.
  rewrite uwrap_small; unfold ULLONG_MAX in *; lia.
Qed.

Lemma proper_length_assert p :
  proper_length p ->
  negb (hp_content_length p =? 0) && negb (hp_content_length p =? ULLONG_MAX) = true.
Proof using.
  intros [? ?]. rewrite !(proj2 (Z.eqb_neq _ _)) by lia. done.
Qed.

Lemma ok_s_body_identity c :
  p_state c = s_body_identity -> case_ok (case_s_body_identity settings data) c.
Proof using CallbacksOk0.
  intros ?. unfold case_s_body_identity. hp_case. cbn [state_ok] in Hs.
  pose proof (body_marks s_body_identity m i eq_refl Hm) as Hm'.
  destruct (to_read_bounds p i Hr Hs Hp) as (Ht1 & Ht2 & Hcl & Hcl2 & Hend).
  unfold len in *. repeat hp_step; try by apply proper_length_assert.
  all: set (t := Z.min (hp_content_length p) (l - i)) in *.
  - pose proof (mark_only _ _ _ _ _ Hm' (proj1 Hp) H H0 H1) as Hm2.
    rewrite Hcl in H2. destr_bool. apply wp_DATA_; hp_simp; eauto with atb; [done | lia | |].
    + intros w Hw. apply Hm2 in Hw. lia.
    + intros s u' mk Hk1 Hk2. repeat hp_step. split; [|hp_simp; split; [lia | cbn [rank]; lia]].
      constructor; hp_simp; [eauto with atb | done.. |]. intros k w Hk. hp_simp.
      by rewrite (no_marks_left K_body m0 mk i) in Hk.
  - pose proof (mark_only _ _ _ _ _ Hm' (proj1 Hp) H H0 H1) as Hm2.
    rewrite Hcl in H2. destr_bool.
    split; [constructor; hp_simp; [eauto with atb | done | |] | hp_simp; lia].
    + unfold state_ok, proper_length. hp_simp. rewrite Hcl. lia.
    + intros k w Hk. hp_simp. apply Hm2 in Hk as [-> ?]. split; [done | lia].
Qed.

Lemma ok_s_body_identity_eof c :
  p_state c = s_body_identity_eof -> case_ok (case_s_body_identity_eof data) c.
Proof using.
  intros ?. unfold case_s_body_identity_eof. hp_case. repeat hp_step. unfold len in *.
  pose proof (body_marks s_body_identity_eof m i eq_refl Hm) as Hm'.
  pose proof (mark_only _ _ _ _ _ Hm' (proj1 Hp) H H0 H1) as Hm2.
  split; [constructor; hp_simp; [done.. |] | hp_simp; lia].
  intros k w Hk. hp_simp. apply Hm2 in Hk as [-> ?]. split; [done | lia].
Qed.

Lemma ok_s_message_done c :
  p_state c = s_message_done -> case_ok (case_s_message_done strict settings) c.
Proof using CallbacksOk0.
  intros ?. unfold case_s_message_done. hp_case.
  assert (Hnone : forall k, m k = None).
  { intros k. destruct (m k) eqn:E; [|done]. destruct (Hm _ _ E). by destruct k. }
  hp_step. apply wp_message_complete; hp_simp; [done.. | intros s u']. repeat hp_step.
  - apply wp_RETURN; hp_simp; [lia | auto |]. split; [eauto with atb | apply new_message_free].
  - apply plain_post; hp_simp; [eauto with atb | done | apply new_message_free | lia | done].
Qed.

(** *** Chunks *)

Lemma unhex_range ch : -1 <= unhex_at ch <= 15.
Proof using.
  unfold unhex_at. destruct (zlookup unhex (u8 ch)) as [v|] eqn:E; [|simpl; lia].
  assert (Hall : forallb (fun v => (-1 <=? v) && (v <=? 15)) unhex = true) by done.
  unfold zlookup in E. case_match; [done|]. simpl. rewrite forallb_forall in Hall.
  apply list_elem_of_lookup_2, list_elem_of_In, Hall in E. destr_bool. lia.
Qed.

Lemma ok_s_chunk_size_start c ch :
  p_state c = s_chunk_size_start -> case_ok (case_s_chunk_size_start ch) c.
Proof using.
  intros ?. unfold case_s_chunk_size_start. hp_case. destruct Hs as [Hn Hc].
  pose proof (unhex_range ch).
  repeat hp_step; try by apply Z.eqb_eq. all: hp_fin.
  cbn [state_ok]. hp_simp. rewrite uwrap_small by lia. unfold ULLONG_MAX. split; [lia | done].
Qed.

Lemma ok_s_chunk_size c ch :
  p_state c = s_chunk_size -> case_ok (case_s_chunk_size ch) c.
Proof using.
  intros ?. unfold case_s_chunk_size. hp_case. destruct Hs as [Hn Hc].
  pose proof (unhex_range ch). pose proof (rng_cl _ Hr).
  repeat hp_step; hp_fin.
  cbn [state_ok]. hp_simp. split; [|done].
  change ((ULLONG_MAX - 16) / 16) with (2 ^ 60 - 2) in *. unfold ULLONG_MAX in *.
  rewrite (uwrap_small 64 (hp_content_length p * 16)) by lia.
  rewrite !(uwrap_small 64 (_ + _)) by lia. lia.
Qed.

Lemma ok_s_chunk_parameters c ch :
  p_state c = s_chunk_parameters -> case_ok (case_s_chunk_parameters ch) c.
Proof using.
  intros ?. unfold case_s_chunk_parameters. hp_case. destruct Hs as [Hn Hc].
  repeat hp_step; hp_fin.
Qed.

Lemma ok_s_chunk_size_almost_done c ch :
  p_state c = s_chunk_size_almost_done ->
  case_ok (case_s_chunk_size_almost_done strict settings ch) c.
Proof using CallbacksOk0.
  intros ?. unfold case_s_chunk_size_almost_done. hp_case. destruct Hs as [Hn Hc].
  pose proof (rng_cl _ Hr).
  repeat hp_step; hp_fin.
  all: cbn [state_ok]; unfold proper_length; hp_simp; split; [lia | done].
Qed.

Lemma ok_s_chunk_data c :
  p_state c = s_chunk_data -> case_ok (case_s_chunk_data data) c.
Proof using.
  intros ?. unfold case_s_chunk_data. hp_case. destruct Hs as [Hs Hc].
  pose proof (body_marks s_chunk_data m i eq_refl Hm) as Hm'.
  destruct (to_read_bounds p i Hr Hs Hp) as (Ht1 & Ht2 & Hcl & Hcl2 & Hend).
  unfold len in *. repeat hp_step; try done; try by apply proper_length_assert.
  all: set (t := Z.min (hp_content_length p) (l - i)) in *.
  all: pose proof (mark_only _ _ _ _ _ Hm' (proj1 Hp) H H0 H1) as Hm2;
    rewrite Hcl in H2; destr_bool;
    split; [constructor; hp_simp; [eauto with atb | done | |] | hp_simp; lia].
  all: try (intros k w Hk; hp_simp; apply Hm2 in Hk as [-> ?]; split; [done | lia]).
  all: unfold state_ok, proper_length; hp_simp; rewrite Hcl; split; [lia | done].
Qed.

Lemma ok_s_chunk_data_almost_done c ch :
  p_state c = s_chunk_data_almost_done ->
  case_ok (case_s_chunk_data_almost_done strict settings data ch) c.
Proof using CallbacksOk0.
  intros ?. unfold case_s_chunk_data_almost_done. hp_case. destruct Hs as [Hn Hc].
  repeat hp_step; try by apply Z.eqb_eq. all: hp_fin.
Qed.

Lemma ok_s_chunk_data_done c ch :
  p_state c = s_chunk_data_done ->
  case_ok (case_s_chunk_data_done strict settings ch) c.
Proof using CallbacksOk0.
  intros ?. unfold case_s_chunk_data_done. hp_case. cbn [state_ok] in Hs.
  repeat hp_step; hp_fin; by split.
Qed.

(** ** The whole call *)

Lemma dispatch_ok c : case_ok (dispatch strict settings data) c.
Proof using CallbacksOk0.
  intros Hok Hp. unfold dispatch. apply wp_bind, wp_gets, wp_bind, wp_gets.
  destruct (p_state c) eqn:Es; cbn beta;
    match goal with |- wp ?m _ _ _ =>
      assert (Hc : case_ok m c); [|by specialize (Hc Hok Hp); rewrite Es in Hc] end.
  all: eauto using ok_s_dead, ok_s_start_req_or_res, ok_s_res_or_resp_H, ok_s_start_res,
    ok_s_res_H, ok_s_res_HT, ok_s_res_HTT, ok_s_res_HTTP, ok_s_res_first_http_major,
    ok_s_res_http_major, ok_s_res_first_http_minor, ok_s_res_http_minor,
    ok_s_res_first_status_code, ok_s_res_status_code, ok_s_res_status_start,
    ok_s_res_status, ok_s_res_line_almost_done, ok_s_start_req, ok_s_req_method,
    ok_s_req_spaces_before_url, ok_s_req_http_start, ok_s_req_http_H, ok_s_req_http_HT,
    ok_s_req_http_HTT, ok_s_req_http_HTTP, ok_s_req_first_http_major,
    ok_s_req_http_major, ok_s_req_first_http_minor, ok_s_req_http_minor,
    ok_s_req_line_almost_done, ok_s_header_field_start, ok_s_header_field,
    ok_s_header_value_discard_ws, ok_s_header_value_discard_ws_almost_done,
    ok_s_header_value_discard_lws, ok_s_header_value_start, ok_s_header_value,
    ok_s_header_value_lws, ok_s_header_almost_done, ok_s_chunk_size_start,
    ok_s_chunk_size, ok_s_chunk_parameters, ok_s_chunk_size_almost_done,
    ok_s_headers_almost_done, ok_s_headers_done, ok_s_chunk_data,
    ok_s_chunk_data_almost_done, ok_s_chunk_data_done, ok_s_body_identity,
    ok_s_body_identity_eof, ok_s_message_done.
  all: first [apply ok_s_req_schema | apply ok_s_req_server]; by rewrite Es.
Qed.

(** A jump that leaves the function: anything but [goto reexecute]. *)
Definition leave_ok (j : jump) (c : ctx U) : Prop :=
  j <> JReexec /\ exit_ok l 0 0 j c.

Lemma exit_leave p0 r0 j c : exit_ok l p0 r0 j c -> j <> JReexec -> leave_ok j c.
Proof using. intros He Hj. split; [done|]. by destruct j. Qed.

Lemma wp_reexecute fuel c (Q : unit -> ctx U -> Prop) E :
  wp (dispatch strict settings data) c Q
    (fun j c' => match j, fuel with
                 | JReexec, O => E (JFault OutOfFuel) c'
                 | JReexec, S fuel' => wp (reexecute strict settings data fuel') c' Q E
                 | _, _ => E j c'
                 end) ->
  wp (reexecute strict settings data fuel) c Q E.
Proof using.
  with_strategy transparent [wp] unfold wp. destruct fuel as [|fuel]; simpl;
    by destruct (dispatch strict settings data c) as [[[] c']|[[] c']].
Qed.

(** Jumps back to [reexecute] descend in rank, so the bound is never met. *)
Lemma reexecute_ok fuel : forall p0 c,
  ctx_ok 1 c -> 0 <= p0 <= pos c -> pos c < l -> (rank (p_state c) <= fuel)%nat ->
  wp (reexecute strict settings data fuel) c (fun _ c' => post_ok l p0 c') leave_ok.
Proof using CallbacksOk0.
  induction fuel as [|fuel IH]; intros p0 c Hok Hp0 Hp Hf; apply wp_reexecute;
    eapply wp_mono; [| | apply (dispatch_ok c Hok); lia | | | apply (dispatch_ok c Hok); lia].
  all: try (intros _ c' [? ?]; split; [done | lia]).
  all: intros j c' He; destruct j; try (by eapply exit_leave).
  - destruct He as (_ & _ & ?). lia.
  - destruct He as (Hok' & Hp' & Hr). apply IH; [done | lia..].
Qed.

Lemma rank_fuel s : (rank s <= reexec_fuel)%nat.
Proof using. unfold reexec_fuel. destruct s; simpl; lia. Qed.

(** Counting the byte turns the promise between bytes into the one inside. *)
Lemma count_head c :
  ctx_ok 0 c -> 0 <= pos c < l ->
  wp (when (PARSING_HEADER (p_state c)) (COUNT_HEADER_SIZE 1)) c
    (fun _ c' => ctx_ok 1 c' /\ pos c' = pos c) leave_ok.
Proof using.
  intros [Hr He Hs Hm] Hp. apply wp_when; intros Hh.
  - eapply wp_mono; [| | eapply (wp_COUNT data 0 0)]; [| | lia |].
    + intros a c' HQ. exact HQ.
    + intros j c' Hj. destruct j; try (by eapply exit_leave). by destruct Hj as (_ & _ & ?); lia.
    + intros Hn. split; [constructor; hp_simp; eauto with atb | done].
      destruct (p_state c) eqn:Es; try done; cbn [state_ok] in *; hp_simp.
      destruct Hs as [-> Hc]. by rewrite uwrap_small.
  - split; [constructor; auto | done]. by destruct (p_state c).
Qed.

Lemma main_loop_ok fuel : forall c,
  ctx_ok 0 c -> 0 <= pos c <= l -> (Z.to_nat (l - pos c) < fuel)%nat ->
  wp (main_loop strict settings data fuel) c
    (fun _ c' => ctx_ok 0 c' /\ pos c' = l) leave_ok.
Proof using CallbacksOk0.
  induction fuel as [|fuel IH]; intros c Hok Hp Hf; [lia|].
  cbn [main_loop]. hp_step. hp_step. hp_step; unfold len in *; destr_bool; [by hp_step|].
  hp_step. apply wp_read_ch; [lia|]. intros ch Hch. hp_step. hp_step. hp_step.
  set (c1 := mk_ctx _ _ _ ch _ _).
  assert (Hok1 : ctx_ok 0 c1) by (by destruct Hok).
  eapply wp_mono; [| | apply (count_head c1 Hok1); simpl; lia]; [|done].
  intros _ c2 [Hok2 Hp2]. simpl in Hp2. hp_step.
  eapply wp_mono; [| | apply (reexecute_ok _ (pos c) c2 Hok2); [lia | lia | apply rank_fuel]];
    [|done].
  intros _ c3 [Hok3 Hp3]. repeat hp_step. apply IH; hp_simp; [|lia|lia].
  destruct Hok3 as [? ? ? Hm3]. constructor; auto. intros k v Hk.
  destruct (Hm3 k v Hk). hp_simp. split; [done | lia].
Qed.

(** At most one mark is set: the marks of different data belong to different
    states. *)
Lemma mark_state_inj k k' s : mark_state k s = true -> mark_state k' s = true -> k = k'.
Proof using. by destruct s, k, k'. Qed.

Lemma mark_count_le (c : ctx U) : marks_ok c -> (mark_count (marks c) <= 1)%nat.
Proof using.
  intros Hm. unfold mark_count.
  assert (Hinj : forall k k', is_Some (marks c k) -> is_Some (marks c k') -> k = k').
  { intros k k' [v Hv] [v' Hv']. destruct (Hm _ _ Hv), (Hm _ _ Hv').
    eauto using mark_state_inj. }
  repeat (rewrite filter_cons; case_decide); cbn; try lia;
    repeat match goal with
    | H1 : is_Some (marks c ?k), H2 : is_Some (marks c ?k') |- _ =>
        lazymatch k with k' => fail | _ => by pose proof (Hinj _ _ H1 H2) end
    end.
Qed.

(** After the loop: [p] is at the end and the marks lie in the buffer. *)
Record flush_inv (c : ctx U) : Prop := {
  fl_rng : parser_rng (parser c);
  fl_errno : hp_errno (parser c) = HPE_OK;
  fl_state : state_ok 0 (p_state c) (parser c);
  fl_pos : pos c = l;
  fl_marks k v : marks c k = Some v -> 0 <= v <= l;
}.

Lemma wp_flush_one k c (Q : unit -> ctx U -> Prop) :
  flush_inv c -> (forall c', flush_inv c' -> Q tt c') ->
  wp (CALLBACK_DATA_NOADVANCE settings data k) c Q (exit_ok l 0 0).
Proof using CallbacksOk0.
  intros [Hr He Hs Hp Hm] HQ. pose proof (zlen_nonneg data).
  apply wp_DATA_NOADVANCE; auto; [lia | rewrite Hp; eauto |].
  intros s u mk Hk Hne. apply HQ. constructor; hp_simp; eauto with atb.
  intros k' v Hv. destruct (decide (k' = k)) as [->|]; [congruence|].
  rewrite Hne in Hv by done. eauto.
Qed.

Lemma flush_ok c :
  ctx_ok 0 c -> pos c = l ->
  wp (flush_marks settings data) c (fun _ _ => False) leave_ok.
Proof using CallbacksOk0.
  intros [Hr He Hs Hm] Hp. unfold flush_marks. hp_step. hp_step. hp_step.
  apply wp_assert; [by apply Nat.leb_le, mark_count_le|].
  eapply wp_mono with (E := exit_ok l 0 0);
    [intros a c' HF; exact HF | intros j c' Hj; destruct j; try (by eapply exit_leave);
       by destruct Hj as (_ & _ & ?); lia |].
  assert (Hfl : flush_inv c).
  { constructor; auto. intros k v Hk. destruct (Hm _ _ Hk). lia. }
  do 5 (hp_step; apply wp_flush_one; [assumption|]; clear dependent c; intros c Hfl).
  destruct Hfl. pose proof (zlen_nonneg data). apply wp_RETURN; unfold len; auto; lia.
Qed.

(** The end of the input: a lawful exit, or 1 with [HPE_INVALID_EOF_STATE]. *)
Definition eof_ok (j : jump) (c : ctx U) : Prop :=
  leave_ok j c
  \/ j = JReturn 1 /\ hp_errno (parser c) = HPE_INVALID_EOF_STATE.

Lemma execute_eof_ok c :
  l = 0 -> ctx_ok 0 c -> pos c = 0 -> p_state c = hp_state (parser c) ->
  wp (execute_eof settings) c (fun _ _ => False) eof_ok.
Proof using CallbacksOk0.
  intros Hl [Hr He Hs Hm] Hp Hst. unfold execute_eof. hp_step. hp_step.
  assert (Hret : forall s u, s = hp_state (parser c) ->
            eof_ok (JReturn 0) (mk_ctx (set_state s (parser c)) u (pos c) (c_ch c)
                                  (p_state c) (marks c))).
  { intros s u ->. left. split; [done|]. split; [lia|]. split; [intros _; by left|].
    intros _. hp_simp. rewrite set_state_id. split; [done|]. by rewrite <-Hst. }
  assert (Hret0 : eof_ok (JReturn 0) c).
  { specialize (Hret _ (app c) eq_refl). rewrite set_state_id in Hret. by destruct c. }
  destruct (p_state c) eqn:Es; cbn beta; try (by apply wp_exit);
    try (unfold SET_ERRNO; repeat hp_step; apply wp_exit; right; by split).
  hp_step. unfold CALLBACK_NOTIFY_NOADVANCE, CALLBACK_NOTIFY_. hp_step. hp_step. hp_step.
  apply wp_assert_ok; [done|]. destruct (on_message_complete settings) as [f|] eqn:Ef.
  - eapply wp_mono with (E := exit_ok l 0 0); [intros a c' HF; exact HF | |].
    + intros j c' Hj. left. destruct j; try (by eapply exit_leave).
      destruct Hj as (_ & _ & ?). lia.
    + apply wp_run_cb; rewrite ?Es; auto; [by eapply ok_message_complete | lia |].
      intros u. apply wp_exit. by apply Hret.
  - hp_step. by apply wp_exit.
Qed.

(** ** The result of a call *)

Lemma initial_ctx_ok p (u : U) :
  parser_ok p -> hp_errno p = HPE_OK ->
  ctx_ok 0 (mk_ctx p u 0 0 (hp_state p) (initial_mark (hp_state p))).
Proof using.
  intros [Hr Hs] He. constructor; auto. intros k m Hk. hp_simp.
  assert (m = 0) as -> by (destruct k, (hp_state p); simpl in Hk; congruence).
  split; [|lia]. by destruct k, (hp_state p).
Qed.

(** [http_parser_execute] returns: no assertion fails, nothing outside the
    buffer is read, the loops end. *)
Lemma execute_total p u :
  parser_ok p -> hp_errno p = HPE_OK ->
  exists n p' u', http_parser_execute strict settings data p u = inl (n, p', u') /\
  (0 <= n <= l \/ l = 0 /\ n = 1 /\ hp_errno p' = HPE_INVALID_EOF_STATE) /\
  ret_ok l n p'.
Proof using CallbacksOk0.
  intros Hok He. pose proof (initial_ctx_ok p u Hok He) as Hc0.
  assert (Hw : wp (execute_body strict settings data)
                 (mk_ctx p u 0 0 (hp_state p) (fun _ => None)) (fun _ _ => False)
                 (fun j c => leave_ok j c \/ l = 0 /\ eof_ok j c)).
  { unfold execute_body. hp_step. hp_step. rewrite errno_ok_true by done.
    cbn [negb]. hp_step; unfold len in *; destr_bool.
    - eapply wp_mono; [| | apply execute_eof_ok]; try done; [by right|].
      destruct Hc0 as [? ? ? _]. by constructor.
    - hp_step. apply wp_modify. hp_step. eapply wp_mono; [| | apply main_loop_ok];
        [| | exact Hc0 | | ]; hp_simp; try (pose proof (zlen_nonneg data); unfold zlen in *; lia).
      + intros [] c [Hc Hp]. eapply wp_mono; [| | by apply flush_ok]; [done|]. by left.
      + by left. }
  unfold http_parser_execute. with_strategy transparent [wp] unfold wp in Hw.
  destruct (execute_body _ _ _ _) as [[? ?]|[j c]]; [done|].
  assert (Hj : leave_ok j c \/ l = 0 /\ j = JReturn 1
                 /\ hp_errno (parser c) = HPE_INVALID_EOF_STATE).
  { destruct Hw as [|[? [|[? ?]]]]; auto. }
  clear Hw. destruct Hj as [[Hne Hx]|(? & -> & Herr)].
  - destruct j as [| |n|]; try done; do 3 eexists; (split; [reflexivity|]).
    + destruct Hx as (Hp & He1 & He2). rewrite errno_ok_false by done.
      hp_simp. split; [by left|]. split; [done|]. by intros [?|?].
    + destruct Hx as [? ?]. auto.
  - do 3 eexists; (split; [reflexivity|]). split; [by right|].
    unfold ret_ok. rewrite Herr. split; [done|]. by intros [?|?].
Qed.

End Cases.
