(* ===== verification/HttpProps.v ===== *)
(** * HttpProps: properties of http_parser_execute

    Reachable parsers, totality and safety of a call, what a call consumes,
    stickiness of errors, limits of the accepted numbers, and the round trip of
    the request methods. *)
From S2P Require Import Prelude Control HttpDefs HttpUrl HttpParser HttpInv HttpSafety.

(** ** Reachable parser objects

    An application initialises a parser, feeds it buffers (of any content, with
    the application object in any state) and pauses or resumes it. *)
Inductive reachable {U} (strict : bool) (settings : http_parser_settings U)
  : http_parser -> Prop :=
  | reach_init t : reachable strict settings (http_parser_init t)
  | reach_execute p u data n p' u' :
      reachable strict settings p ->
      http_parser_execute strict settings data p u = inl (n, p', u') ->
      reachable strict settings p'
  | reach_pause p b p' :
      reachable strict settings p ->
      http_parser_pause p b = inl p' ->
      reachable strict settings p'.

(** The parser is usable: no error, or only paused. *)
Definition usable (p : http_parser) : Prop :=
  hp_errno p = HPE_OK \/ hp_errno p = HPE_PAUSED.

(** A parser whose data callbacks accept everything and do not touch it. *)
Definition quiet {U} (f : http_data_cb U) : Prop :=
  forall p u d, exists u', f p u d = (0, p, u').

(** ** Lemmas *)

Lemma init_ok t : parser_ok (http_parser_init t).
Proof. split; [by split; vm_compute | by destruct t]. Qed.

Lemma execute_error {U} strict (st : http_parser_settings U) data p u :
  hp_errno p <> HPE_OK -> http_parser_execute strict st data p u = inl (0, p, u).
Proof.
  intros He. unfold http_parser_execute, execute_body. unfold mbind, ctl_bind, gets. simpl.
  by rewrite errno_ok_false.
Qed.

Lemma pause_usable p b p' : http_parser_pause p b = inl p' -> usable p /\ usable p'.
Proof.
  unfold http_parser_pause, usable. intros H.
  destruct (hp_errno p) eqn:E; simplify_eq; destruct b; simpl; auto.
Qed.

Lemma reachable_ok {U} strict (st : http_parser_settings U) `{!CallbacksOk st} p :
  reachable strict st p -> usable p -> parser_ok p.
Proof.
  induction 1 as [t|p u data n p' u' Hp IH Hex|p b p' Hp IH Hpause]; intros Hu.
  - apply init_ok.
  - destruct (decide (hp_errno p = HPE_OK)) as [He|He].
    + destruct (execute_total strict st data p u) as (? & ? & ? & Heq & _ & Hret); auto.
      { apply IH. by left. }
      rewrite Hex in Heq. simplify_eq. by apply Hret.
    + rewrite execute_error in Hex by done. simplify_eq. auto.
  - destruct (pause_usable _ _ _ Hpause) as [Hu1 _]. specialize (IH Hu1).
    unfold http_parser_pause in Hpause. destruct IH as [Hr Hs].
    destruct (hp_errno p); simplify_eq; (split; [eauto with atb|]);
      by apply state_ok_set_errno.
Qed.

(** *** Numbers *)

(** One byte of the loop of [http_parser_execute] whose case completes. *)
Lemma main_loop_byte {U} strict (st : http_parser_settings U) data fuel c ch c1 c2 :
  zlookup data (pos c) = Some ch ->
  when (PARSING_HEADER (p_state c)) (COUNT_HEADER_SIZE 1)
    (mk_ctx (parser c) (app c) (pos c) ch (p_state c) (marks c)) = inl (tt, c1) ->
  dispatch strict st data c1 = inl (tt, c2) ->
  main_loop strict st data (S fuel) c =
  main_loop strict st data fuel
    (mk_ctx (parser c2) (app c2) (pos c2 + 1) (c_ch c2) (p_state c2) (marks c2)).
Proof.
  intros Hch Hcount Hdisp. cbn [main_loop]. unfold mbind, ctl_bind, gets at 1.
  pose proof (zlookup_bound _ _ _ Hch) as Hp. unfold len.
  destruct (Z.eqb_spec (pos c) (zlen data)); [lia|].
  unfold read_ch, mbind, ctl_bind, gets, modify. rewrite Hch. cbn. rewrite Hcount.
  unfold reexec_fuel. cbn [reexecute]. by rewrite Hdisp.
Qed.

Lemma main_loop_jump {U} strict (st : http_parser_settings U) data fuel c ch c1 j c2 :
  zlookup data (pos c) = Some ch ->
  when (PARSING_HEADER (p_state c)) (COUNT_HEADER_SIZE 1)
    (mk_ctx (parser c) (app c) (pos c) ch (p_state c) (marks c)) = inl (tt, c1) ->
  dispatch strict st data c1 = inr (j, c2) -> j <> JReexec ->
  main_loop strict st data (S fuel) c = inr (j, c2).
Proof.
  intros Hch Hcount Hdisp Hj. cbn [main_loop]. unfold mbind, ctl_bind, gets at 1.
  pose proof (zlookup_bound _ _ _ Hch) as Hp. unfold len.
  destruct (Z.eqb_spec (pos c) (zlen data)); [lia|].
  unfold read_ch, mbind, ctl_bind, gets, modify. rewrite Hch. cbn. rewrite Hcount.
  unfold reexec_fuel. cbn [reexecute]. rewrite Hdisp. by destruct j.
Qed.

Lemma count_ok {U} (c : ctx U) v :
  0 <= hp_nread (parser c) + v <= HTTP_MAX_HEADER_SIZE ->
  COUNT_HEADER_SIZE v c =
  inl (tt, with_parser (set_nread (hp_nread (parser c) + v)) c).
Proof.
  intros Hn. unfold COUNT_HEADER_SIZE, updp, modify, gets, mbind, ctl_bind. cbn.
  rewrite uwrap_small by (unfold HTTP_MAX_HEADER_SIZE in Hn; lia).
  by destruct (Z.ltb_spec HTTP_MAX_HEADER_SIZE (hp_nread (parser c) + v)); [lia|].
Qed.

Lemma assert_ok_true {U} (c : ctx U) :
  hp_errno (parser c) = HPE_OK -> assert_ok c = inl (tt, c).
Proof.
  intros He. unfold assert_ok, mbind, ctl_bind, gets, assert. by rewrite errno_ok_true.
Qed.

Lemma data_none {U} (st : http_parser_settings U) data k c :
  marks c k = None -> hp_errno (parser c) = HPE_OK ->
  CALLBACK_DATA_NOADVANCE st data k c = inl (tt, c).
Proof.
  intros Hm He. unfold CALLBACK_DATA_NOADVANCE, CALLBACK_DATA_, mbind, ctl_bind, gets.
  rewrite assert_ok_true by done. by rewrite Hm.
Qed.

(** Nothing is left to deliver: the parser is stored and the length returned. *)
Lemma flush_none {U} (st : http_parser_settings U) data c :
  (forall k, marks c k = None) -> hp_errno (parser c) = HPE_OK ->
  flush_marks st data c =
  inr (JReturn (zlen data), with_parser (set_state (p_state c)) c).
Proof.
  intros Hm He. unfold flush_marks, mbind, ctl_bind, gets, assert, mark_count.
  repeat (rewrite filter_cons, decide_False by (rewrite Hm; by intros [? ?])).
  rewrite filter_nil. cbn [length Nat.leb]. unfold mret, ctl_ret.
  by rewrite !data_none by done.
Qed.

Lemma execute_start {U} strict (st : http_parser_settings U) data p u :
  hp_errno p = HPE_OK -> data <> [] ->
  execute_body strict st data (mk_ctx p u 0 0 (hp_state p) (fun _ => None)) =
  (main_loop strict st data (S (length data)) ≫= fun _ => flush_marks st data)
    (mk_ctx p u 0 0 (hp_state p) (initial_mark (hp_state p))).
Proof.
  intros He Hd. unfold execute_body, mbind, ctl_bind, gets, modify. cbn -[main_loop].
  rewrite errno_ok_true by done. unfold len.
  destruct (Z.eqb_spec (zlen data) 0) as [E|]; [|done].
  destruct data; [done|]. rewrite zlen_cons in E. pose proof (zlen_nonneg data). lia.
Qed.

Lemma case_chunk_digit {U} (c : ctx U) ch :
  unhex_at ch <> -1 -> has_flag (parser c) F_CHUNKED = true ->
  0 <= hp_content_length (parser c) ->
  case_s_chunk_size ch c =
  if (ULLONG_MAX - 16) / 16 <? hp_content_length (parser c)
  then inr (JError, with_parser (set_errno HPE_INVALID_CONTENT_LENGTH) c)
  else inl (tt, with_parser
         (set_content_length (hp_content_length (parser c) * 16 + unhex_at ch)) c).
Proof.
  intros Hh Hf Hcl. pose proof (unhex_range ch).
  unfold case_s_chunk_size, assert_chunked, assert, mbind, ctl_bind, gets. rewrite Hf.
  destruct (Z.eqb_spec ch CR) as [->|]; [by destruct Hh|].
  destruct (Z.eqb_spec (unhex_at ch) (-1)); [done|]. cbn.
  destruct (Z.ltb_spec ((ULLONG_MAX - 16) / 16) (hp_content_length (parser c))) as [|Hle]; [done|].
  change ((ULLONG_MAX - 16) / 16) with (2 ^ 60 - 2) in Hle.
  rewrite !(uwrap_small 64) by (rewrite ?uwrap_small; lia). done.
Qed.

Lemma main_loop_end {U} strict (st : http_parser_settings U) data fuel c :
  pos c = zlen data -> main_loop strict st data (S fuel) c = inl (tt, c).
Proof.
  intros Hp. cbn [main_loop]. unfold mbind, ctl_bind, gets at 1. unfold len.
  by rewrite Hp, Z.eqb_refl.
Qed.

(** One hexadecimal digit of a chunk size, with the count of the header bytes. *)
Lemma chunk_digit_step {U} strict (st : http_parser_settings U) data fuel p u i ch0 m ch :
  zlookup data i = Some ch -> unhex_at ch <> -1 -> has_flag p F_CHUNKED = true ->
  0 <= hp_content_length p -> 0 <= hp_nread p < HTTP_MAX_HEADER_SIZE ->
  main_loop strict st data (S fuel) (mk_ctx p u i ch0 s_chunk_size m) =
  let p1 := set_nread (hp_nread p + 1) p in
  if (ULLONG_MAX - 16) / 16 <? hp_content_length p
  then inr (JError, mk_ctx (set_errno HPE_INVALID_CONTENT_LENGTH p1) u i ch s_chunk_size m)
  else main_loop strict st data fuel
         (mk_ctx (set_content_length (hp_content_length p * 16 + unhex_at ch) p1)
            u (i + 1) ch s_chunk_size m).
Proof.
  intros Hlk Hhex Hf Hcl Hn. set (p1 := set_nread (hp_nread p + 1) p). cbv zeta.
  pose proof (case_chunk_digit (mk_ctx p1 u i ch s_chunk_size m) ch Hhex Hf Hcl) as Hcase.
  assert (Hcount : when (PARSING_HEADER s_chunk_size) (COUNT_HEADER_SIZE 1)
     (mk_ctx p u i ch s_chunk_size m) = inl (tt, mk_ctx p1 u i ch s_chunk_size m)).
  { cbn [PARSING_HEADER when]. by rewrite count_ok by (simpl; lia). }
  cbn [parser] in Hcase. change (hp_content_length p1) with (hp_content_length p) in Hcase.
  destruct (_ <? hp_content_length p).
  - by apply main_loop_jump with (ch := ch) (c1 := mk_ctx p1 u i ch s_chunk_size m).
  - exact (main_loop_byte strict st data fuel (mk_ctx p u i ch0 s_chunk_size m) ch _ _ Hlk Hcount Hcase).
Qed.

Lemma drop_cons_lookup {A} (l : list A) i x r :
  0 <= i -> drop (Z.to_nat i) l = x :: r ->
  zlookup l i = Some x /\ drop (Z.to_nat (i + 1)) l = r.
Proof.
  intros Hi Hd. rewrite <-drop_zlookup, Hd by done. split; [done|].
  replace (Z.to_nat (i + 1)) with (Z.to_nat i + 1)%nat by lia.
  by rewrite <-drop_drop, Hd.
Qed.

Lemma chunk_digits {U} strict (st : http_parser_settings U) data u m :
  forall rest fuel p i ch0,
  0 <= i <= zlen data -> drop (Z.to_nat i) data = rest -> has_flag p F_CHUNKED = true ->
  Forall (fun ch => unhex_at ch <> -1) rest -> (length rest < fuel)%nat ->
  0 <= hp_content_length p <= ULLONG_MAX - 16 -> 0 <= hp_nread p ->
  hp_nread p + zlen rest <= HTTP_MAX_HEADER_SIZE ->
  let v := digits_value 16 unhex_at (hp_content_length p) rest in
  let r := main_loop strict st data fuel (mk_ctx p u i ch0 s_chunk_size m) in
  if v <=? ULLONG_MAX - 16 then
    exists ch q, r = inl (tt, mk_ctx q u (zlen data) ch s_chunk_size m) /\
      hp_content_length q = v /\ hp_errno q = hp_errno p
  else exists c', r = inr (JError, c') /\ app c' = u /\
      hp_errno (parser c') = HPE_INVALID_CONTENT_LENGTH.
Proof.
  induction rest as [|ch rest IH]; intros [|fuel] p i ch0 Hi Hd Hf Hhex Hfuel Hcl Hn0 Hn v r;
    try (simpl in Hfuel; lia).
  - assert (i = zlen data) as ->.
    { apply (f_equal length) in Hd. rewrite length_drop in Hd. unfold zlen in *. simpl in Hd. lia. }
    unfold v, r. cbn [digits_value fold_left]. destruct (Z.leb_spec (hp_content_length p) (ULLONG_MAX - 16)); [|lia].
    exists ch0, p. by rewrite main_loop_end.
  - apply Forall_cons in Hhex as [Hch Hhex]. rewrite zlen_cons in Hn. cbn beta in Hch.
    destruct (drop_cons_lookup _ _ _ _ (proj1 Hi) Hd) as [Hlk Hd'].
    pose proof (zlen_nonneg rest). pose proof (zlookup_bound _ _ _ Hlk). pose proof (unhex_range ch).
    assert (Hpos : Forall (fun ch => 0 <= unhex_at ch) rest).
    { eapply Forall_impl; [exact Hhex|]. intros x Hx. cbn beta in Hx. pose proof (unhex_range x). lia. }
    unfold r. rewrite (chunk_digit_step _ _ _ _ _ _ _ _ _ ch) by (done || lia).
    change ((ULLONG_MAX - 16) / 16) with (2 ^ 60 - 2). unfold ULLONG_MAX in *.
    destruct (Z.ltb_spec (2 ^ 60 - 2) (hp_content_length p)).
    + destruct (Z.leb_spec v (2 ^ 64 - 1 - 16)); [|eauto].
      pose proof (digits_value_mono 16 unhex_at (hp_content_length p * 16 + unhex_at ch) rest
                    ltac:(lia) ltac:(lia) Hpos). unfold v, digits_value in *. simpl in *. lia.
    + set (p2 := set_content_length _ _).
      assert (Hv : v = digits_value 16 unhex_at (hp_content_length p2) rest).
      { unfold v, digits_value, p2. simpl. by rewrite uwrap_small by lia. }
      rewrite Hv. change (hp_errno p) with (hp_errno p2).
      unfold HTTP_MAX_HEADER_SIZE in *.
      apply (IH fuel p2 (i + 1) ch); try done; try lia; unfold p2; simpl;
        rewrite ?uwrap_small by lia; simpl in Hfuel; lia.
Qed.

Lemma case_chunk_first {U} (c : ctx U) ch :
  unhex_at ch <> -1 -> has_flag (parser c) F_CHUNKED = true -> hp_nread (parser c) = 1 ->
  case_s_chunk_size_start ch c =
  inl (tt, mk_ctx (set_content_length (unhex_at ch) (parser c)) (app c) (pos c) (c_ch c)
             s_chunk_size (marks c)).
Proof.
  intros Hh Hf Hn. unfold case_s_chunk_size_start, assert_chunked, assert, mbind, ctl_bind, gets.
  rewrite Hn. cbn. rewrite Hf. by destruct (Z.eqb_spec (unhex_at ch) (-1)).
Qed.

Lemma chunk_first_step {U} strict (st : http_parser_settings U) data fuel p u i ch0 m ch :
  zlookup data i = Some ch -> unhex_at ch <> -1 -> has_flag p F_CHUNKED = true ->
  hp_nread p = 0 ->
  main_loop strict st data (S fuel) (mk_ctx p u i ch0 s_chunk_size_start m) =
  main_loop strict st data fuel
    (mk_ctx (set_content_length (unhex_at ch) (set_nread 1 p)) u (i + 1) ch s_chunk_size m).
Proof.
  intros Hlk Hhex Hf Hn. set (p1 := set_nread 1 p).
  pose proof (case_chunk_first (mk_ctx p1 u i ch s_chunk_size_start m) ch Hhex Hf eq_refl) as Hcase.
  assert (Hcount : when (PARSING_HEADER s_chunk_size_start) (COUNT_HEADER_SIZE 1)
     (mk_ctx p u i ch s_chunk_size_start m) = inl (tt, mk_ctx p1 u i ch s_chunk_size_start m)).
  { cbn [PARSING_HEADER when]. rewrite count_ok by (simpl; rewrite Hn; done).
    cbn [parser]. by rewrite Hn. }
  exact (main_loop_byte strict st data fuel (mk_ctx p u i ch0 s_chunk_size_start m)
           ch _ _ Hlk Hcount Hcase).
Qed.

Lemma set_content_length_id p :
  0 <= hp_content_length p < 2 ^ 64 -> set_content_length (hp_content_length p) p = p.
Proof. intros H. unfold set_content_length. rewrite uwrap_small by done. by destruct p. Qed.

Lemma set_content_length_twice v w p :
  set_content_length v (set_content_length w p) = set_content_length v p.
Proof. done. Qed.

Lemma content_length_digit {U} (c : ctx U) h ch :
  IS_NUM ch = true -> 0 <= hp_content_length (parser c) ->
  content_length_char h ch c =
  if (ULLONG_MAX - 10) / 10 <? hp_content_length (parser c)
  then inr (JError, with_parser (set_header_state h)
                      (with_parser (set_errno HPE_INVALID_CONTENT_LENGTH) c))
  else inl (tt, with_parser
         (set_content_length (hp_content_length (parser c) * 10 + dec_digit ch)) c).
Proof.
  intros Hd Hcl. unfold content_length_char. destruct (Z.eqb_spec ch (chr " ")) as [->|]; [done|].
  rewrite Hd. unfold mbind, ctl_bind, gets. cbn.
  destruct (Z.ltb_spec ((ULLONG_MAX - 10) / 10) (hp_content_length (parser c))) as [|Hle]; [done|].
  change ((ULLONG_MAX - 10) / 10) with 1844674407370955160 in Hle. unfold IS_NUM in Hd. destr_bool.
  rewrite !(uwrap_small 64) by (rewrite ?uwrap_small; lia). done.
Qed.

Definition advance {U} (c : ctx U) : ctx U :=
  mk_ctx (parser c) (app c) (pos c + 1) (c_ch c) (p_state c) (marks c).

(** One character of a header value that does not end it. *)
Lemma header_value_step {U} (st : http_parser_settings U) data fuel start h p u i ch0 s m ch :
  zlookup data i = Some ch -> (ch =? CR) || (ch =? LF) = false ->
  header_value_loop st data (S fuel) start h (mk_ctx p u i ch0 s m) =
  match header_value_char data h ch (LOWER ch) (mk_ctx p u i ch s m) with
  | inl (h', c) => header_value_loop st data fuel start h' (advance c)
  | inr e => inr e
  end.
Proof.
  intros Hlk Hch. pose proof (zlookup_bound _ _ _ Hlk). apply orb_false_iff in Hch as [Hcr Hlf].
  cbn [header_value_loop]. unfold mbind, ctl_bind, gets at 1, len.
  cbn [pos]. destruct (Z.eqb_spec i (zlen data)); [lia|].
  unfold read_ch, mbind, ctl_bind, gets, modify. cbn [pos]. rewrite Hlk. cbn.
  rewrite Hcr, Hlf. by destruct (header_value_char _ _ _ _ _) as [[]|].
Qed.

Lemma IS_NUM_eol ch : IS_NUM ch = true -> (ch =? CR) || (ch =? LF) = false.
Proof.
  unfold IS_NUM. intros. destr_bool. apply orb_false_iff; split; apply Z.eqb_neq; lia.
Qed.

(** The loop over a header value that consists of digits. *)
Lemma content_length_digits {U} (st : http_parser_settings U) data start u s m :
  forall rest fuel p i ch0,
  0 <= i <= zlen data -> drop (Z.to_nat i) data = rest ->
  Forall (fun ch => IS_NUM ch = true) rest -> (length rest < fuel)%nat ->
  0 <= hp_content_length p <= 2 ^ 64 - 7 ->
  let v := digits_value 10 dec_digit (hp_content_length p) rest in
  let r := header_value_loop st data fuel start h_content_length (mk_ctx p u i ch0 s m) in
  if v <=? 2 ^ 64 - 7 then
    exists ch, r = inl (h_content_length, mk_ctx (set_content_length v p) u (zlen data) ch s m)
  else exists c', r = inr (JError, c') /\ app c' = u /\
      hp_errno (parser c') = HPE_INVALID_CONTENT_LENGTH.
Proof.
  induction rest as [|ch rest IH]; intros [|fuel] p i ch0 Hi Hd Hnum Hfuel Hcl v r;
    try (simpl in Hfuel; lia).
  - assert (i = zlen data) as ->.
    { apply (f_equal length) in Hd. rewrite length_drop in Hd. unfold zlen in *. simpl in Hd. lia. }
    unfold v, r. cbn [digits_value fold_left].
    destruct (Z.leb_spec (hp_content_length p) (2 ^ 64 - 7)); [|lia]. exists ch0.
    rewrite set_content_length_id by lia. cbn [header_value_loop].
    unfold mbind, ctl_bind, gets, len. cbn. by rewrite Z.eqb_refl.
  - apply Forall_cons in Hnum as [Hch Hnum]. cbn beta in Hch.
    destruct (drop_cons_lookup _ _ _ _ (proj1 Hi) Hd) as [Hlk Hd'].
    pose proof (zlookup_bound _ _ _ Hlk).
    pose proof (dec_digits_pos _ Hnum) as Hpos.
    assert (Hdig : 0 <= dec_digit ch <= 9).
    { unfold IS_NUM in Hch. destr_bool. unfold dec_digit. lia. }
    unfold r. rewrite (header_value_step _ _ _ _ _ _ _ _ _ _ _ ch) by (done || by apply IS_NUM_eol).
    cbn [header_value_char]. unfold mbind, ctl_bind.
    rewrite content_length_digit by (done || simpl; lia). cbn [parser].
    change ((ULLONG_MAX - 10) / 10) with 1844674407370955160.
    destruct (Z.ltb_spec 1844674407370955160 (hp_content_length p)).
    + destruct (Z.leb_spec v (2 ^ 64 - 7)); [|eauto].
      pose proof (digits_value_mono 10 dec_digit (hp_content_length p * 10 + dec_digit ch) rest
                    ltac:(lia) ltac:(lia) Hpos). unfold v, digits_value in *. simpl in *. lia.
    + cbn [with_parser parser app pos c_ch p_state marks].
      set (p2 := set_content_length (hp_content_length p * 10 + dec_digit ch) p).
      assert (Hv : v = digits_value 10 dec_digit (hp_content_length p2) rest).
      { unfold v, digits_value, p2. simpl. by rewrite uwrap_small by lia. }
      rewrite Hv. rewrite <-(set_content_length_twice _ (hp_content_length p * 10 + dec_digit ch) p).
      simpl in Hfuel. apply (IH fuel p2 (i + 1) ch); try done; try lia.
      unfold p2. cbn [set_content_length hp_content_length]. rewrite uwrap_small; lia.
Qed.

(** The first digit of a content length. *)
Lemma content_length_first {U} strict (st : http_parser_settings U) data fuel p u i ch0 m ch :
  zlookup data i = Some ch -> IS_NUM ch = true -> hp_header_state p = h_content_length ->
  0 <= hp_nread p < HTTP_MAX_HEADER_SIZE -> m K_header_value = None ->
  main_loop strict st data (S fuel) (mk_ctx p u i ch0 s_header_value_discard_ws m) =
  main_loop strict st data fuel
    (mk_ctx (set_content_length (dec_digit ch) (set_index 0 (set_nread (hp_nread p + 1) p)))
       u (i + 1) ch s_header_value (upd_mark K_header_value (Some i) m)).
Proof.
  intros Hlk Hnum Hh Hn Hm. set (p1 := set_nread (hp_nread p + 1) p).
  assert (Hcount : when (PARSING_HEADER s_header_value_discard_ws) (COUNT_HEADER_SIZE 1)
     (mk_ctx p u i ch s_header_value_discard_ws m)
     = inl (tt, mk_ctx p1 u i ch s_header_value_discard_ws m)).
  { cbn [PARSING_HEADER when]. by rewrite count_ok by (simpl; lia). }
  assert (Hcase : case_s_header_value_discard_ws ch (mk_ctx p1 u i ch s_header_value_discard_ws m)
    = inl (tt, mk_ctx (set_content_length (dec_digit ch) (set_index 0 p1)) u i ch
                 s_header_value (upd_mark K_header_value (Some i) m))).
  { unfold case_s_header_value_discard_ws. pose proof (IS_NUM_eol _ Hnum) as Heol.
    apply orb_false_iff in Heol as [-> ->].
    destruct (Z.eqb_spec ch (chr " ")) as [->|]; [done|].
    destruct (Z.eqb_spec ch HT) as [->|]; [done|].
    unfold case_s_header_value_start, MARK, mbind, ctl_bind, gets. cbn. rewrite Hm. cbn.
    rewrite Hh. cbn. by rewrite Hnum. }
  exact (main_loop_byte strict st data fuel (mk_ctx p u i ch0 s_header_value_discard_ws m)
           ch _ _ Hlk Hcount Hcase).
Qed.

(** The other digits, up to the end of the buffer. *)
Lemma content_length_rest {U} strict (st : http_parser_settings U) data fuel p u i ch0 m :
  0 <= i < zlen data -> Forall (fun ch => IS_NUM ch = true) (drop (Z.to_nat i) data) ->
  hp_header_state p = h_content_length -> 0 <= hp_nread p ->
  hp_nread p + 1 + (zlen data - i) <= HTTP_MAX_HEADER_SIZE ->
  0 <= hp_content_length p <= 2 ^ 64 - 7 ->
  let v := digits_value 10 dec_digit (hp_content_length p) (drop (Z.to_nat i) data) in
  let r := main_loop strict st data (S (S fuel)) (mk_ctx p u i ch0 s_header_value m) in
  if v <=? 2 ^ 64 - 7 then
    exists ch q, r = inl (tt, mk_ctx q u (zlen data) ch s_header_value m) /\
      hp_content_length q = v /\ hp_errno q = hp_errno p
  else exists c', r = inr (JError, c') /\ app c' = u /\
      hp_errno (parser c') = HPE_INVALID_CONTENT_LENGTH.
Proof.
  intros Hi Hnum Hh Hn0 Hn Hcl v r. destruct (zlookup_Some data i Hi) as [ch Hlk].
  set (p1 := set_nread (hp_nread p + 1) p).
  assert (Hcount : when (PARSING_HEADER s_header_value) (COUNT_HEADER_SIZE 1)
     (mk_ctx p u i ch s_header_value m) = inl (tt, mk_ctx p1 u i ch s_header_value m)).
  { cbn [PARSING_HEADER when]. by rewrite count_ok by (simpl; lia). }
  pose proof (content_length_digits st data i u s_header_value m _ (loop_fuel data) p1 i ch
    ltac:(lia) eq_refl Hnum) as Hdig. unfold HTTP_MAX_HEADER_SIZE in Hn.
  specialize (Hdig ltac:(unfold loop_fuel; rewrite length_drop; lia) Hcl). cbv zeta in Hdig.
  change (hp_content_length p1) with (hp_content_length p) in Hdig. fold v in Hdig.
  assert (Hdisp : forall x, case_s_header_value st data (mk_ctx p1 u i ch s_header_value m) = x ->
    dispatch strict st data (mk_ctx p1 u i ch s_header_value m) = x) by by intros.
  unfold case_s_header_value, mbind, ctl_bind, gets in Hdisp. cbn [pos parser] in Hdisp.
  change (hp_header_state p1) with (hp_header_state p) in Hdisp. rewrite Hh in Hdisp.
  destruct (v <=? 2 ^ 64 - 7) eqn:Hv.
  - destruct Hdig as [ch' Hdig]. rewrite Hdig in Hdisp. cbn in Hdisp.
    unfold len in Hdisp. rewrite count_ok, Z.eqb_refl in Hdisp by
      (simpl; rewrite uwrap_small; unfold HTTP_MAX_HEADER_SIZE; lia).
    unfold r. rewrite (main_loop_byte strict st data _ (mk_ctx p u i ch0 s_header_value m)
       ch _ _ Hlk Hcount (Hdisp _ eq_refl)).
    cbn [parser app pos c_ch p_state marks with_parser]. eexists _, _.
    rewrite main_loop_end by (cbn [pos]; lia).
    split; [|split]; [do 3 f_equal; lia| |done]. simpl.
    apply uwrap_small. destr_bool. split; [|lia].
    pose proof (digits_value_mono 10 dec_digit (hp_content_length p) (drop (Z.to_nat i) data)
      ltac:(lia) ltac:(lia) (dec_digits_pos _ Hnum)). unfold v. lia.
  - destruct Hdig as (c' & Hdig & Happ & Herr). exists c'. split; [|done].
    rewrite Hdig in Hdisp. 
    by apply (main_loop_jump strict st data _ (mk_ctx p u i ch0 s_header_value m)
       ch _ _ _ Hlk Hcount (Hdisp _ eq_refl)).
Qed.

Lemma one_mark_count i m0 :
  (forall k, m0 k = None) -> mark_count (upd_mark K_header_value (Some i) m0) = 1%nat.
Proof.
  intros Hm. unfold mark_count, upd_mark.
  rewrite filter_cons, decide_False by (simpl; rewrite Hm; by intros [? ?]).
  rewrite filter_cons, decide_True by by eexists.
  repeat (rewrite filter_cons, decide_False by (simpl; rewrite Hm; by intros [? ?])).
  by rewrite filter_nil.
Qed.

(** A header value that is cut by the end of the buffer goes to a quiet
    callback. *)
Lemma flush_value {U} (st : http_parser_settings U) data p u ch s i m0 :
  (forall f, on_header_value st = Some f -> quiet f) -> hp_errno p = HPE_OK ->
  0 <= i <= zlen data -> (forall k, m0 k = None) ->
  exists c, flush_marks st data
    (mk_ctx p u (zlen data) ch s (upd_mark K_header_value (Some i) m0))
  = inr (JReturn (zlen data), c) /\ parser c = set_state s p.
Proof.
  intros Hq He Hi Hm0. set (m := upd_mark _ _ _).
  unfold flush_marks, mbind, ctl_bind at 1, gets at 1, assert.
  cbn [marks]. unfold m at 1. rewrite one_mark_count by done. cbn [Nat.leb]. unfold mret at 1, ctl_ret at 1, ctl_bind at 1.
  unfold ctl_bind. rewrite data_none by (done || apply Hm0).
  assert (Hv : exists u', CALLBACK_DATA_NOADVANCE st data K_header_value (mk_ctx p u (zlen data) ch s m)
    = inl (tt, mk_ctx (match on_header_value st with Some _ => set_state s p | None => p end) u'
        (zlen data) ch s (upd_mark K_header_value None m))).
  { unfold CALLBACK_DATA_NOADVANCE, CALLBACK_DATA_, mbind, ctl_bind, gets.
    rewrite assert_ok_true by done. cbn [pos marks]. change (m K_header_value) with (Some i). cbn [data_cb].
    destruct (on_header_value st) as [f|] eqn:Hf; [|by exists u].
    unfold in_data, len. do 2 rewrite (proj2 (Z.leb_le _ _)) by lia.
    rewrite (proj2 (Z.leb_le _ _)) by lia. cbn [andb].
    unfold run_cb, mbind, ctl_bind, gets, updp, modify. cbn [parser app with_parser p_state].
    destruct (Hq f eq_refl (set_state s p) u (slice data i (zlen data - i))) as [u' ->].
    exists u'. cbn -[errno_ok]. by rewrite errno_ok_true. }
  destruct Hv as [u' ->].
  rewrite !data_none by (apply Hm0 || by destruct (on_header_value st)).
  eexists. split; [done|]. cbn. by destruct (on_header_value st).
Qed.

(** ** Properties *)

(** C1. Memory safety, absence of assertion failures and termination: whatever
    bytes a reachable parser is given, with callbacks that respect the contract,
    [http_parser_execute] returns; the number of bytes it reports is at most
    the number it was given (for an empty buffer, which announces the end of
    the input, it may report 1 together with [HPE_INVALID_EOF_STATE]). *)
Theorem execute_safe {U} strict (st : http_parser_settings U) `{!CallbacksOk st}
    p u data :
  reachable strict st p ->
  exists n p' u',
    http_parser_execute strict st data p u = inl (n, p', u') /\
    (0 <= n <= zlen data
     \/ data = [] /\ n = 1 /\ hp_errno p' = HPE_INVALID_EOF_STATE).
Proof.
  intros Hreach. destruct (decide (hp_errno p = HPE_OK)) as [He|He].
  - destruct (execute_total strict st data p u) as (n & p' & u' & Heq & Hn & _); auto.
    { eapply reachable_ok; [eauto.. | by left]. }
    exists n, p', u'. split; [done|]. destruct Hn as [|(Hl & -> & ?)]; [by left|].
    right. split; [|done]. destruct data; [done|]. rewrite zlen_cons in Hl.
    pose proof (zlen_nonneg data). lia.
  - exists 0, p, u. rewrite execute_error by done. split; [done|]. left.
    pose proof (zlen_nonneg data). lia.
Qed.

(** A call that leaves the parser without error has consumed the whole
    buffer, unless it stopped because the rest belongs to another protocol: the
    check [nparsed != read_size] of the applications is a sound error check. *)
Theorem execute_consumes {U} strict (st : http_parser_settings U) `{!CallbacksOk st}
    p u data n p' u' :
  reachable strict st p ->
  http_parser_execute strict st data p u = inl (n, p', u') ->
  hp_errno p' = HPE_OK -> n = zlen data \/ hp_upgrade p' = true.
Proof.
  intros Hreach Hex He'. destruct (decide (hp_errno p = HPE_OK)) as [He|He].
  - destruct (execute_total strict st data p u) as (n1 & p1 & u1 & Heq & _ & Hret & _); auto.
    { eapply reachable_ok; [eauto.. | by left]. }
    rewrite Hex in Heq. simplify_eq. auto.
  - rewrite execute_error in Hex by done. by simplify_eq.
Qed.

(** Errors and pauses are final until the application acts: a parser in
    error or paused is not changed by further input, no callback is called and
    nothing is consumed. *)
Theorem execute_sticky {U} strict (st : http_parser_settings U) data p u :
  hp_errno p <> HPE_OK -> http_parser_execute strict st data p u = inl (0, p, u).
Proof. apply execute_error. Qed.

(** The numbers of a usable parser stay within the limits that the parser
    announces: the header counter within [HTTP_MAX_HEADER_SIZE], version numbers
    and status code within 999, flags, index and content length within their
    widths, and a body that is being read has a proper length. *)
Theorem reachable_limits {U} strict (st : http_parser_settings U) `{!CallbacksOk st} p :
  reachable strict st p -> usable p ->
  0 <= hp_nread p <= HTTP_MAX_HEADER_SIZE /\ 0 <= hp_http_major p <= 999 /\
  0 <= hp_http_minor p <= 999 /\ 0 <= hp_status_code p <= 999 /\
  0 <= hp_flags p < 2 ^ 7 /\ 0 <= hp_index p < 2 ^ 8 /\
  0 <= hp_content_length p < 2 ^ 64 /\
  (hp_state p = s_body_identity \/ hp_state p = s_chunk_data ->
   0 < hp_content_length p < ULLONG_MAX).
Proof.
  intros Hreach Hu. destruct (reachable_ok _ _ _ Hreach Hu) as [[] Hs].
  repeat (split; [assumption|]). intros [E|E]; rewrite E in Hs; apply Hs.
Qed.

(** Every request method is recognised: after the name of a method and a
    space a request parser is in front of the URL and has that method, in strict
    and in lenient mode. *)
Theorem methods_parsed (strict : bool) (m : http_method) :
  match http_parser_execute strict (http_parser_settings_init unit)
          (bytes (method_string m) ++ [chr " "]) (http_parser_init HTTP_REQUEST) tt with
  | inl (n, p, _) =>
      n = strlen (method_string m) + 1 /\ hp_errno p = HPE_OK /\
      hp_state p = s_req_spaces_before_url /\ hp_method p = m
  | inr _ => False
  end.
Proof. destruct strict, m; vm_compute; auto. Qed.

(** C8. Chunk sizes are read exactly: on a line of hexadecimal digits a parser
    at the start of a chunk ends up with their value as the remaining length,
    for every value up to [2^64 - 17]; from there on the size is refused with
    [HPE_INVALID_CONTENT_LENGTH] (it never wraps around). *)
Theorem chunk_size_exact {U} strict (st : http_parser_settings U) p u d ds :
  hp_errno p = HPE_OK -> hp_state p = s_chunk_size_start ->
  has_flag p F_CHUNKED = true -> hp_nread p = 0 ->
  Forall (fun ch => unhex_at ch <> -1) (d :: ds) -> zlen (d :: ds) <= HTTP_MAX_HEADER_SIZE ->
  let v := digits_value 16 unhex_at 0 (d :: ds) in
  exists n p', http_parser_execute strict st (d :: ds) p u = inl (n, p', u) /\
  if v <=? 2 ^ 64 - 17 then
    n = zlen (d :: ds) /\ hp_errno p' = HPE_OK /\
    hp_state p' = s_chunk_size /\ hp_content_length p' = v
  else hp_errno p' = HPE_INVALID_CONTENT_LENGTH.
Proof.
  intros He Hs Hf Hn Hhex Hlen v. unfold http_parser_execute.
  rewrite execute_start, Hs by done. unfold mbind, ctl_bind.
  pose proof (Forall_inv Hhex) as Hd. cbn beta in Hd. apply Forall_inv_tail in Hhex.
  rewrite (chunk_first_step _ _ _ _ _ _ _ _ _ d) by done.
  change (0 + 1) with 1. pose proof (unhex_range d). pose proof (zlen_nonneg ds). rewrite zlen_cons in Hlen.
  set (p1 := set_content_length _ _).
  assert (Hcl : hp_content_length p1 = unhex_at d) by (simpl; rewrite uwrap_small; lia).
  pose proof (chunk_digits strict st (d :: ds) u (initial_mark s_chunk_size_start)
    ds (length (d :: ds)) p1 1 d) as Hdig. rewrite Hcl, zlen_cons in Hdig.
  specialize (Hdig ltac:(lia) eq_refl Hf Hhex ltac:(simpl; lia) ltac:(unfold ULLONG_MAX; lia)
                ltac:(done) Hlen). cbv zeta in Hdig. change (ULLONG_MAX - 16) with (2 ^ 64 - 17) in Hdig.
  change (digits_value 16 unhex_at (unhex_at d) ds) with v in Hdig.
  destruct (v <=? 2 ^ 64 - 17).
  - destruct Hdig as (ch & q & -> & Hv & Hq). change (hp_errno p1) with (hp_errno p) in Hq.
    rewrite flush_none; [|by intros []|simpl; congruence].
    eexists _, _. split; [done|]. simpl in *. repeat split; congruence.
  - destruct Hdig as (c' & -> & <- & Herr). unfold error_exit.
    rewrite errno_ok_false by by rewrite Herr. by eexists _, _.
Qed.

(** Content lengths are read exactly: a parser that has seen the name
    [Content-Length] and reads a value of digits ends up with that value as the
    content length, for every value up to [2^64 - 7]; a larger one is refused
    with [HPE_INVALID_CONTENT_LENGTH] (it never wraps around). *)
Theorem content_length_exact {U} strict (st : http_parser_settings U) p u d ds :
  (forall f, on_header_value st = Some f -> quiet f) ->
  hp_errno p = HPE_OK -> hp_state p = s_header_value_discard_ws ->
  hp_header_state p = h_content_length -> 0 <= hp_nread p ->
  Forall (fun ch => IS_NUM ch = true) (d :: ds) ->
  hp_nread p + zlen (d :: ds) + 1 <= HTTP_MAX_HEADER_SIZE ->
  let v := digits_value 10 dec_digit 0 (d :: ds) in
  exists n p' u', http_parser_execute strict st (d :: ds) p u = inl (n, p', u') /\
  if v <=? 2 ^ 64 - 7 then
    n = zlen (d :: ds) /\ hp_errno p' = HPE_OK /\
    hp_state p' = s_header_value /\ hp_content_length p' = v
  else hp_errno p' = HPE_INVALID_CONTENT_LENGTH.
Proof.
  intros Hq He Hs Hh Hn0 Hnum Hn v. unfold http_parser_execute.
  rewrite execute_start, Hs by done. unfold mbind, ctl_bind.
  pose proof (Forall_inv Hnum) as Hd. cbn beta in Hd. apply Forall_inv_tail in Hnum.
  rewrite zlen_cons in Hn. pose proof (zlen_nonneg ds).
  rewrite (content_length_first _ _ _ _ _ _ _ _ _ d) by (done || lia).
  change (0 + 1) with 1. set (p1 := set_content_length _ _). set (m0 := initial_mark _).
  assert (Hd9 : 0 <= dec_digit d <= 9) by (unfold IS_NUM in Hd; destr_bool; unfold dec_digit; lia).
  assert (Hcl : hp_content_length p1 = dec_digit d)
    by (cbn [p1 set_content_length hp_content_length]; rewrite uwrap_small; lia).
  assert (Hrest :
    let r := main_loop strict st (d :: ds) (length (d :: ds))
               (mk_ctx p1 u 1 d s_header_value (upd_mark K_header_value (Some 0) m0)) in
    if v <=? 2 ^ 64 - 7 then
      exists ch q, r = inl (tt, mk_ctx q u (zlen (d :: ds)) ch s_header_value
                                  (upd_mark K_header_value (Some 0) m0)) /\
        hp_content_length q = v /\ hp_errno q = hp_errno p1
    else exists c', r = inr (JError, c') /\ app c' = u /\
        hp_errno (parser c') = HPE_INVALID_CONTENT_LENGTH).
  { destruct ds as [|d2 ds].
    - assert (v = dec_digit d) as -> by (unfold v, digits_value; cbn [fold_left]; lia).
      rewrite (proj2 (Z.leb_le _ _)) by lia. exists d, p1.
      by rewrite (main_loop_end strict st [d] 0).
    - change v with (digits_value 10 dec_digit (0 * 10 + dec_digit d) (d2 :: ds)).
      rewrite Z.mul_0_l, Z.add_0_l, <-Hcl.
      apply (content_length_rest strict st (d :: d2 :: ds) _ p1 u 1 d); try done;
        rewrite ?Hcl, ?zlen_cons in *; pose proof (zlen_nonneg ds);
        unfold HTTP_MAX_HEADER_SIZE in *; cbn; rewrite ?uwrap_small; lia. }
  cbv zeta in Hrest. destruct (v <=? 2 ^ 64 - 7).
  - destruct Hrest as (ch & q & -> & Hv & Hqe). change (hp_errno p1) with (hp_errno p) in Hqe.
    destruct (flush_value st (d :: ds) q u ch s_header_value 0 m0) as (c & -> & Hc);
      [done|by rewrite Hqe|rewrite zlen_cons; lia|by intros []|].
    eexists _, _, _. split; [done|]. rewrite Hc. simpl. repeat split; congruence.
  - destruct Hrest as (c' & -> & _ & Herr). unfold error_exit.
    rewrite errno_ok_false by by rewrite Herr. by eexists _, _, _.
Qed.

(** ** Concrete instances *)

(** A request whose head and half of whose body have been read. *)
Definition sample_request : list Z :=
  bytes "POST /a HTTP/1.1" ++ [CR; LF] ++ bytes "Content-Length: 4" ++ [CR; LF; CR; LF]
  ++ bytes "ab".

Definition sample_result : Z * http_parser * http_trace :=
  match http_parser_execute true record_settings sample_request
          (http_parser_init HTTP_REQUEST) [] with
  | inl r => r
  | inr _ => (0, http_parser_init HTTP_REQUEST, [])
  end.

Definition sample_parser : http_parser := sample_result.1.2.

Lemma sample_reachable : reachable true record_settings sample_parser.
Proof.
  eapply (reach_execute _ _ (http_parser_init HTTP_REQUEST) [] sample_request);
    [constructor | vm_compute; reflexivity].
Qed.

Lemma execute_safe_witness :
  reachable true record_settings sample_parser /\
  exists n p' u',
    http_parser_execute true record_settings (bytes "cd") sample_parser [] = inl (n, p', u') /\
    (0 <= n <= zlen (bytes "cd")
     \/ bytes "cd" = [] /\ n = 1 /\ hp_errno p' = HPE_INVALID_EOF_STATE).
Proof.
  split; [apply sample_reachable|].
  apply (execute_safe true record_settings sample_parser [] (bytes "cd")).
  apply sample_reachable.
Defined.

Lemma execute_consumes_witness :
  sample_result.1.1 = zlen sample_request \/ hp_upgrade sample_parser = true.
Proof.
  apply (execute_consumes true record_settings (http_parser_init HTTP_REQUEST) [] sample_request
           sample_result.1.1 sample_parser sample_result.2).
  - constructor.
  - vm_compute. reflexivity.
  - vm_compute. reflexivity.
Defined.

Lemma execute_sticky_witness :
  http_parser_execute true record_settings (bytes "cd") (set_errno HPE_PAUSED sample_parser) []
  = inl (0, set_errno HPE_PAUSED sample_parser, []).
Proof. apply execute_sticky. discriminate. Defined.

Lemma reachable_limits_witness :
  hp_state sample_parser = s_body_identity /\ hp_content_length sample_parser = 2 /\
  0 < hp_content_length sample_parser < ULLONG_MAX.
Proof.
  split; [vm_compute; reflexivity|]. split; [vm_compute; reflexivity|].
  refine (proj2 (proj2 (proj2 (proj2 (proj2 (proj2 (proj2
    (reachable_limits true record_settings sample_parser sample_reachable _))))))) _).
  - left. vm_compute. reflexivity.
  - left. vm_compute. reflexivity.
Defined.

(** A parser in front of a chunk size. *)
Definition chunk_parser : http_parser :=
  set_state s_chunk_size_start (or_flags F_CHUNKED (http_parser_init HTTP_REQUEST)).

Lemma chunk_size_exact_witness :
  exists n p', http_parser_execute false record_settings (bytes "1fA") chunk_parser []
               = inl (n, p', []) /\
  n = 3 /\ hp_errno p' = HPE_OK /\ hp_state p' = s_chunk_size /\ hp_content_length p' = 506.
Proof.
  refine (chunk_size_exact false record_settings chunk_parser [] (chr "1") (bytes "fA")
            _ _ _ _ _ _); try (vm_compute; reflexivity).
  - repeat constructor; discriminate.
  - discriminate.
Defined.

(** A parser in front of the value of a [Content-Length] header. *)
Definition length_parser : http_parser :=
  set_header_state h_content_length
    (set_state s_header_value_discard_ws (http_parser_init HTTP_REQUEST)).

Lemma content_length_exact_witness :
  exists n p' u', http_parser_execute false record_settings (bytes "1024") length_parser []
                  = inl (n, p', u') /\
  n = 4 /\ hp_errno p' = HPE_OK /\ hp_state p' = s_header_value /\ hp_content_length p' = 1024.
Proof.
  refine (content_length_exact false record_settings length_parser [] (chr "1") (bytes "024")
            _ _ _ _ _ _ _); try (vm_compute; reflexivity).
  - intros f [= <-] p u d. by eexists.
  - discriminate.
  - repeat constructor.
  - discriminate.
Defined.
