(* ===== verification/HttpOrder.v ===== *)
(** * HttpOrder: the order of the callbacks of http_parser_execute

    The grammar of the notifications and data of a message, the part of a
    message that each parser state belongs to, and the proof that an
    application which maintains an invariant along the grammar keeps it under
    every input. *)
From S2P Require Import Prelude Control HttpDefs HttpUrl HttpParser HttpInv HttpSafety.

(** ** The grammar *)

(** How much of a message has been reported. *)
Inductive phase :=
  | Ph_idle       (* between two messages *)
  | Ph_line       (* the first line *)
  | Ph_field      (* the name of a header *)
  | Ph_value      (* the value of a header *)
  | Ph_body       (* after the headers, before or between chunks *)
  | Ph_chunk      (* after the size of a chunk *)
  | Ph_tfield     (* the name of a trailing header *)
  | Ph_tvalue.    (* the value of a trailing header *)

#[export] Instance phase_eq_dec : EqDecision phase.
Proof. solve_decision. Defined.

Definition note_next (n : note) (ph : phase) : option phase :=
  match n, ph with
  | Message_begin, (Ph_idle | Ph_line) => Some Ph_line
  | Headers_complete, (Ph_line | Ph_value) => Some Ph_body
  | Chunk_header, Ph_body => Some Ph_chunk
  | Chunk_complete, (Ph_chunk | Ph_tvalue) => Some Ph_body
  | Message_complete, Ph_body => Some Ph_idle
  | _, _ => None
  end.

Definition data_next (k : dkind) (ph : phase) : option phase :=
  match k, ph with
  | (K_url | K_status), Ph_line => Some Ph_line
  | K_header_field, (Ph_line | Ph_field | Ph_value) => Some Ph_field
  | K_header_field, (Ph_chunk | Ph_tfield | Ph_tvalue) => Some Ph_tfield
  | K_header_value, (Ph_field | Ph_value) => Some Ph_value
  | K_header_value, (Ph_tfield | Ph_tvalue) => Some Ph_tvalue
  | K_body, (Ph_body | Ph_chunk) => Some ph
  | _, _ => None
  end.

Definition note_cb {U} (st : http_parser_settings U) (n : note) : option (http_cb U) :=
  match n with
  | Message_begin => on_message_begin st
  | Headers_complete => on_headers_complete st
  | Message_complete => on_message_complete st
  | Chunk_header => on_chunk_header st
  | Chunk_complete => on_chunk_complete st
  end.

(** What an application promises: every callback takes it from a phase to the
    next; a callback that is not installed leaves it as it is. *)
Class AppInvariant {U} (st : http_parser_settings U) (I : phase -> U -> Prop) : Prop := {
  app_note n f ph ph' p u :
    note_cb st n = Some f -> note_next n ph = Some ph' -> I ph u -> I ph' (f p u).2;
  app_data k f ph ph' p u d :
    data_cb st k = Some f -> data_next k ph = Some ph' -> I ph u -> I ph' (f p u d).2;
  app_no_note n ph ph' u :
    note_cb st n = None -> note_next n ph = Some ph' -> I ph u -> I ph' u;
  app_no_data k ph ph' u :
    data_cb st k = None -> data_next k ph = Some ph' -> I ph u -> I ph' u;
}.

(** ** The phases of a state *)

(** [parser->flags & F_TRAILING] *)
Definition trailing (flags : Z) : bool := negb (Z.land flags F_TRAILING =? 0).

(** The phases possible in a state, before ([t = false]) and after the last
    chunk ([t = true]). *)
Definition in_phase (t : bool) (s : state) (ph : phase) : bool :=
  match s, ph with
  | (s_dead | s_start_req_or_res | s_start_req), Ph_idle => true
  | s_start_res, (Ph_idle | Ph_line) => true
  | (s_dead | s_start_req_or_res | s_start_req | s_start_res), _ => false
  | (s_header_field_start | s_headers_almost_done), (Ph_line | Ph_value) => negb t
  | (s_header_field_start | s_headers_almost_done), (Ph_chunk | Ph_tvalue) => t
  | s_header_field, (Ph_line | Ph_field | Ph_value) => negb t
  | s_header_field, (Ph_chunk | Ph_tfield | Ph_tvalue) => t
  | (s_header_value_discard_ws | s_header_value_discard_ws_almost_done
    | s_header_value_discard_lws | s_header_value_start | s_header_value),
    (Ph_field | Ph_value) => negb t
  | (s_header_value_discard_ws | s_header_value_discard_ws_almost_done
    | s_header_value_discard_lws | s_header_value_start | s_header_value),
    (Ph_tfield | Ph_tvalue) => t
  | (s_header_value_lws | s_header_almost_done), Ph_value => negb t
  | (s_header_value_lws | s_header_almost_done), Ph_tvalue => t
  | (s_header_field_start | s_headers_almost_done | s_header_field
    | s_header_value_discard_ws | s_header_value_discard_ws_almost_done
    | s_header_value_discard_lws | s_header_value_start | s_header_value
    | s_header_value_lws | s_header_almost_done), _ => false
  | (s_headers_done | s_chunk_size_start | s_chunk_size | s_chunk_parameters
    | s_chunk_size_almost_done | s_body_identity | s_body_identity_eof
    | s_message_done), Ph_body => true
  | (s_chunk_data | s_chunk_data_almost_done | s_chunk_data_done), Ph_chunk => true
  | (s_headers_done | s_chunk_size_start | s_chunk_size | s_chunk_parameters
    | s_chunk_size_almost_done | s_body_identity | s_body_identity_eof
    | s_message_done | s_chunk_data | s_chunk_data_almost_done
    | s_chunk_data_done), _ => false
  | _, Ph_line => negb t
  | _, _ => false
  end.

(** *** The trailing flag under assignment *)

Lemma trailing_testbit f : trailing f = Z.testbit f 4.
Proof.
  unfold trailing. change F_TRAILING with (2 ^ 4).
  destruct (Z.testbit f 4) eqn:E.
  - apply negb_true_iff, Z.eqb_neq. intros H.
    assert (Hb : Z.testbit (Z.land f (2 ^ 4)) 4 = true) by (by rewrite Z.land_spec, E).
    by rewrite H in Hb.
  - apply negb_false_iff, Z.eqb_eq, Z.bits_inj'. intros n Hn.
    rewrite Z.land_spec, Z.pow2_bits_eqb, Z.bits_0 by lia.
    destruct (Z.eqb_spec 4 n) as [<-|]; [by rewrite E | by rewrite andb_false_r].
Qed.

Lemma trailing_or f g : Z.testbit g 4 = false -> trailing (u7 (Z.lor f g)) = trailing f.
Proof.
  intros Hg. rewrite !trailing_testbit. unfold uwrap.
  by rewrite Z.mod_pow2_bits_low, Z.lor_spec, Hg, orb_false_r by lia.
Qed.

Lemma trailing_set f : trailing (u7 (Z.lor f F_TRAILING)) = true.
Proof.
  rewrite trailing_testbit. unfold uwrap.
  rewrite Z.mod_pow2_bits_low, Z.lor_spec by lia. by rewrite orb_true_r.
Qed.

(** ** The invariant *)

Section Order.
Context {U : Type} (strict : bool) (settings : http_parser_settings U).
Context `{!CallbacksOk settings} (I : phase -> U -> Prop) `{!AppInvariant settings I}.
Variable data : list Z.
Abbreviation M := (Ctl jump (ctx U)).
Implicit Types c : ctx U.

(** The marks that make a callback certain. *)
Definition must_mark (s : state) (m : dkind -> option Z) : Prop :=
  match s with
  | s_header_field => is_Some (m K_header_field)
  | s_header_value => is_Some (m K_header_value)
  | _ => True
  end.

Definition at_phase (P : phase -> bool) (u : U) : Prop := exists ph, I ph u /\ P ph = true.

Abbreviation phases c := (in_phase (trailing (hp_flags (parser c))) (p_state c)).

Record order_ok (c : ctx U) : Prop := {
  ord_app : at_phase (phases c) (app c);
  ord_mark : must_mark (p_state c) (marks c);
}.

(** The invariant between two calls. *)
Definition app_ok (p : http_parser) (u : U) : Prop :=
  at_phase (fun _ => true) u /\
  (hp_errno p = HPE_OK \/ hp_errno p = HPE_PAUSED ->
   at_phase (in_phase (trailing (hp_flags p)) (hp_state p)) u).

Definition order_exit (j : jump) (c : ctx U) : Prop :=
  match j with
  | JReexec => order_ok c
  | JError => at_phase (fun _ => true) (app c) /\ hp_errno (parser c) <> HPE_PAUSED
  | JReturn _ => app_ok (parser c) (app c)
  | JFault _ => True
  end.

Definition after (next : phase -> option phase) (P : phase -> bool) (ph : phase) : bool :=
  match next ph with Some ph' => P ph' | None => false end.

Lemma at_phase_mono (P P' : phase -> bool) u :
  at_phase P u -> (forall ph, P ph = true -> P' ph = true) -> at_phase P' u.
Proof using. intros (ph & Hi & Hp) Hm. exists ph. auto. Qed.

Lemma at_phase_any (P : phase -> bool) u : at_phase P u -> at_phase (fun _ => true) u.
Proof using. intros H. by eapply at_phase_mono. Qed.

Lemma app_ok_phase p u : at_phase (in_phase (trailing (hp_flags p)) (hp_state p)) u -> app_ok p u.
Proof using. intros H. split; [by eapply at_phase_any|done]. Qed.

(** ** Rules of the macros *)

Lemma wp_o_fault {A} f c (Q : A -> ctx U -> Prop) : wp (exit (JFault f)) c Q order_exit.
Proof using. by apply wp_exit. Qed.

Lemma wp_o_fail {A} e c (P : phase -> bool) (Q : A -> ctx U -> Prop) :
  at_phase P (app c) -> e <> HPE_PAUSED -> wp (fail e) c Q order_exit.
Proof using.
  intros Ha ?. unfold fail, SET_ERRNO. apply wp_bind, wp_updp, wp_exit.
  split; [by eapply at_phase_any|done].
Qed.

Lemma wp_o_assert b c (Q : unit -> ctx U -> Prop) :
  (b = true -> Q tt c) -> wp (assert b) c Q order_exit.
Proof using. intros HQ. unfold assert. by apply wp_if; intros Hb; [apply wp_ret, HQ|apply wp_o_fault]. Qed.

Lemma wp_o_read_ch c (Q : Z -> ctx U -> Prop) :
  (forall ch, Q ch (mk_ctx (parser c) (app c) (pos c) ch (p_state c) (marks c))) ->
  wp (read_ch data) c Q order_exit.
Proof using.
  intros HQ. unfold read_ch. apply wp_bind, wp_gets.
  destruct (zlookup data (pos c)) as [ch|]; [|apply wp_o_fault].
  apply wp_bind, wp_modify, wp_ret, HQ.
Qed.

Lemma wp_o_match_name name ch cur miss hit c (Q : header_states -> ctx U -> Prop) :
  (forall h, Q h (with_parser (fun p => set_index (hp_index p + 1) p) c)) ->
  wp (match_name name ch cur miss hit) c Q order_exit.
Proof using.
  intros HQ. unfold match_name. apply wp_bind, wp_updp, wp_bind, wp_gets, wp_if; intros _; [by apply wp_ret|].
  case_match; [|apply wp_o_fault].
  apply wp_if; intros _; [by apply wp_ret|]. apply wp_if; intros _; by apply wp_ret.
Qed.

(** A callback moves the application on; it may also leave the function. *)
Lemma wp_o_run_cb e f ER c (Q : unit -> ctx U -> Prop) :
  cb_ok f -> e <> HPE_OK -> e <> HPE_PAUSED -> hp_errno (parser c) = HPE_OK ->
  at_phase (phases c) (f (set_state (p_state c) (parser c)) (app c)).2 ->
  (forall u, at_phase (phases c) u ->
   Q tt (mk_ctx (set_state (p_state c) (parser c)) u (pos c) (c_ch c) (p_state c) (marks c))) ->
  wp (run_cb e f ER) c Q order_exit.
Proof using.
  intros Hf He1 He2 Herr Happ HQ. unfold run_cb.
  apply wp_bind, wp_gets, wp_bind, wp_updp, wp_bind, wp_gets, wp_bind, wp_gets.
  specialize (Hf (set_state (p_state c) (parser c)) (app c) Herr). hp_simp.
  destruct (f _ _) as [[r p'] u']. cbn [snd] in Happ.
  apply wp_bind, wp_modify, wp_bind, wp_when; intros Hr.
  - apply wp_updp, wp_bind, wp_gets, wp_bind, wp_UPDATE_STATE. hp_simp.
    rewrite errno_ok_false by (by hp_simp). apply wp_exit. hp_simp.
    split; [by eapply at_phase_any|]. hp_simp. by intros [|].
  - apply wp_bind, wp_gets, wp_bind, wp_UPDATE_STATE. hp_simp. destruct Hf as [-> | ->].
    + rewrite errno_ok_true by done. by apply wp_ret, HQ.
    + rewrite errno_ok_false by done. by apply wp_exit, app_ok_phase.
Qed.

Lemma wp_o_NOTIFY_ n e ER c (Q : unit -> ctx U -> Prop) :
  e <> HPE_OK -> e <> HPE_PAUSED -> n <> Headers_complete ->
  at_phase (after (note_next n) (phases c)) (app c) ->
  (forall s u, at_phase (phases c) u ->
   Q tt (mk_ctx (set_state s (parser c)) u (pos c) (c_ch c) (p_state c) (marks c))) ->
  wp (CALLBACK_NOTIFY_ e (note_cb settings n) ER) c Q order_exit.
Proof using CallbacksOk0 AppInvariant0.
  intros He1 He2 Hn (ph & Hph & Hnext) HQ. unfold CALLBACK_NOTIFY_, assert_ok. unfold after in Hnext.
  destruct (note_next n ph) as [ph'|] eqn:Hph'; [|done].
  apply wp_bind, wp_bind, wp_gets, wp_o_assert. intros Herr%bool_decide_eq_true.
  destruct (note_cb settings n) as [f|] eqn:Hf.
  - apply wp_o_run_cb; try done; [|exists ph'; split; [by eapply app_note|done]|by intros; apply HQ].
    by destruct n; eauto using ok_message_begin, ok_message_complete, ok_chunk_header, ok_chunk_complete.
  - apply wp_ret. specialize (HQ (hp_state (parser c)) (app c)). rewrite set_state_id in HQ.
    destruct c. apply HQ. exists ph'. split; [by eapply app_no_note|done].
Qed.

(** A data callback, if its mark is set. *)
Lemma wp_o_DATA_ k LEN ER c (Q : unit -> ctx U -> Prop) :
  (is_Some (marks c k) -> at_phase (after (data_next k) (phases c)) (app c)) ->
  (forall s u mk, is_Some (marks c k) -> (forall k', k' <> k -> mk k' = marks c k') -> mk k = None ->
   at_phase (phases c) u ->
   Q tt (mk_ctx (set_state s (parser c)) u (pos c) (c_ch c) (p_state c) mk)) ->
  (marks c k = None -> Q tt c) ->
  wp (CALLBACK_DATA_ settings data k LEN ER) c Q order_exit.
Proof using CallbacksOk0 AppInvariant0.
  intros Hpre HQ Hnone. unfold CALLBACK_DATA_, assert_ok.
  apply wp_bind, wp_bind, wp_gets, wp_o_assert. intros Herr%bool_decide_eq_true.
  apply wp_bind, wp_gets. destruct (marks c k) as [m|] eqn:Hm; [|by apply wp_ret, Hnone].
  destruct Hpre as (ph & Hph & Hnext); [done|]. unfold after in Hnext.
  destruct (data_next k ph) as [ph'|] eqn:Hph'; [|done].
  assert (Hclear : forall s u, at_phase (phases c) u -> Q tt (mk_ctx (set_state s (parser c)) u (pos c)
            (c_ch c) (p_state c) (upd_mark k None (marks c)))).
  { intros s u Hu. apply HQ; try done; intros; unfold upd_mark;
      [by rewrite bool_decide_false | by rewrite bool_decide_true]. }
  apply wp_bind. destruct (data_cb settings k) as [f|] eqn:Hf.
  - apply wp_if; intros _; [|apply wp_o_fault].
    apply wp_o_run_cb; try done; try (by destruct k).
    + apply (ok_data k f _ Hf).
    + exists ph'. split; [by eapply app_data|done].
    + intros u Hu. by apply wp_modify, Hclear.
  - apply wp_ret, wp_modify. specialize (Hclear (hp_state (parser c)) (app c)).
    rewrite set_state_id in Hclear. apply Hclear. exists ph'. split; [by eapply app_no_data|done].
Qed.

(** ** The cases of the switch *)

Definition case_ord (m : M unit) (c : ctx U) : Prop :=
  order_ok c -> wp m c (fun _ => order_ok) order_exit.

Ltac ord_step :=
  lazymatch goal with
  | |- wp (_ ≫= _) _ _ _ => apply wp_bind
  | |- wp (mret _) _ _ _ => apply wp_ret
  | |- wp (gets _) _ _ _ => apply wp_gets
  | |- wp (if _ then _ else _) _ _ _ => apply wp_if; intros ?
  | |- wp (when _ _) _ _ _ => apply wp_when; intros ?
  | |- wp (updp _) _ _ _ => apply wp_updp
  | |- wp (set_pos _) _ _ _ => apply wp_set_pos
  | |- wp (set_mark _ _) _ _ _ => apply wp_modify
  | |- wp (UPDATE_STATE _) _ _ _ => apply wp_UPDATE_STATE
  | |- wp (fail _) _ _ _ => eapply wp_o_fail; [hp_simp; eassumption | done]
  | |- wp (STRICT_CHECK _ _) _ _ _ => unfold STRICT_CHECK
  | |- wp (COUNT_HEADER_SIZE _) _ _ _ => unfold COUNT_HEADER_SIZE
  | |- wp (REEXECUTE) _ _ _ => apply wp_exit
  | |- wp (exit (JFault _)) _ _ _ => apply wp_o_fault
  | |- wp (assert_chunked) _ _ _ => unfold assert_chunked
  | |- wp (assert _) _ _ _ => apply wp_o_assert; intros ?
  | |- wp (acc_major _) _ _ _ => unfold acc_major
  | |- wp (acc_minor _) _ _ _ => unfold acc_minor
  | |- wp (acc_status _) _ _ _ => unfold acc_status
  | |- wp (MARK _) _ _ _ => apply wp_MARK; intros ? ? ? ? ?
  | |- wp (CALLBACK_NOTIFY _ _) _ _ _ => unfold CALLBACK_NOTIFY
  | |- wp (CALLBACK_NOTIFY_NOADVANCE _ _) _ _ _ => unfold CALLBACK_NOTIFY_NOADVANCE
  | |- wp (CALLBACK_DATA _ _ _) _ _ _ => unfold CALLBACK_DATA
  | |- wp (CALLBACK_DATA_NOADVANCE _ _ _) _ _ _ => unfold CALLBACK_DATA_NOADVANCE
  | |- wp (CALLBACK_DATA_ _ _ _ _ _) _ _ _ => apply wp_o_DATA_; [intros ? | intros ? ? ? ? ? ? ? | intros ?]
  | |- wp (CALLBACK_NOTIFY_ HPE_CB_message_begin _ _) _ _ _ =>
      apply (wp_o_NOTIFY_ Message_begin); [done | done | done | | intros ? ? ?]
  | |- wp (CALLBACK_NOTIFY_ HPE_CB_message_complete _ _) _ _ _ =>
      apply (wp_o_NOTIFY_ Message_complete); [done | done | done | | intros ? ? ?]
  | |- wp (CALLBACK_NOTIFY_ HPE_CB_chunk_header _ _) _ _ _ =>
      apply (wp_o_NOTIFY_ Chunk_header); [done | done | done | | intros ? ? ?]
  | |- wp (CALLBACK_NOTIFY_ HPE_CB_chunk_complete _ _) _ _ _ =>
      apply (wp_o_NOTIFY_ Chunk_complete); [done | done | done | | intros ? ? ?]
  end; hp_simp.

(** From the phases of one state to those of another. *)
Ltac phase_step :=
  eapply at_phase_mono; [eassumption|];
  rewrite ?trailing_set, ?trailing_or by done; cbn [app];
  let ph := fresh "ph" in intros ph; change (trailing (u7 0)) with false;
  repeat match goal with |- context [trailing ?f] => destruct (trailing f) end;
  by destruct ph.

Ltac ord_fin :=
  lazymatch goal with
  | |- order_exit JReexec _ => cbn [order_exit]
  | |- _ => idtac
  end;
  lazymatch goal with
  | |- order_ok _ => constructor; hp_simp
  | |- _ => idtac
  end;
  lazymatch goal with
  | |- must_mark _ _ => first [exact Logic.I | done | cbn [must_mark]; eauto]
  | |- at_phase _ _ => try phase_step
  | |- _ => idtac
  end.

Ltac ord_case :=
  intros [Ha Hk];
  match goal with c : ctx U |- _ => destruct c as [p u i ch0 s m] end; hp_simp; subst.

Ltac ord_auto := ord_case; repeat ord_step; ord_fin.

(** *** Steps the cases share *)

Lemma wp_o_url_step ch c (Q : unit -> ctx U -> Prop) :
  at_phase (fun ph => bool_decide (ph = Ph_line) && negb (trailing (hp_flags (parser c)))) (app c) ->
  (forall s, order_ok (mk_ctx (parser c) (app c) (pos c) (c_ch c) s (marks c)) ->
   Q tt (mk_ctx (parser c) (app c) (pos c) (c_ch c) s (marks c))) ->
  wp (url_step strict ch) c Q order_exit.
Proof using.
  intros Ha HQ. unfold url_step. repeat ord_step.
  case_bool_decide; [done|]. apply HQ.
  assert (Hu : initial_mark (parse_url_char strict (p_state c) ch) K_url = Some 0)
    by by destruct (parse_url_char_url strict (p_state c) ch).
  constructor; hp_simp; [eapply at_phase_mono; [exact Ha|]; intros []; try done|];
    by destruct (parse_url_char _ _ _).
Qed.

Lemma wp_o_message_complete c (Q : unit -> ctx U -> Prop) :
  at_phase (fun ph => bool_decide (ph = Ph_body)) (app c) ->
  (forall s u, at_phase (in_phase (trailing (hp_flags (parser c))) (NEW_MESSAGE strict (parser c))) u ->
   must_mark (NEW_MESSAGE strict (parser c)) (marks c) ->
   Q tt (mk_ctx (set_state s (parser c)) u (pos c) (c_ch c) (NEW_MESSAGE strict (parser c)) (marks c))) ->
  wp (message_complete strict settings) c Q order_exit.
Proof using All.
  intros Ha HQ. unfold message_complete. repeat ord_step.
  - eapply at_phase_mono; [exact Ha|].
    intros []; try done; intros _; cbn. unfold NEW_MESSAGE, start_state. by repeat case_match.
  - apply HQ; [done|]. unfold NEW_MESSAGE, start_state. by repeat case_match.
Qed.

Lemma wp_o_finish_header c (Q : unit -> ctx U -> Prop) :
  at_phase (phases c) (app c) ->
  (forall p u, at_phase (in_phase (trailing (hp_flags p)) (p_state c)) u ->
   Q tt (mk_ctx p u (pos c) (c_ch c) (p_state c) (marks c))) ->
  wp finish_header c Q order_exit.
Proof using.
  intros Ha HQ. unfold finish_header. ord_step. ord_step. cbn beta.
  destruct (hp_header_state (parser c)); repeat ord_step;
    try (unfold with_parser; apply HQ; hp_simp; by rewrite trailing_or).
  all: destruct c as [pp uu ii cc ss mm]; hp_simp; by apply (HQ pp uu).
Qed.

(** *** The cases *)

Lemma ord_s_dead c ch : p_state c = s_dead -> case_ord (case_s_dead ch) c.
Proof using. intros ?. unfold case_s_dead. ord_auto. Qed.

Lemma ord_s_start_req_or_res c ch :
  p_state c = s_start_req_or_res -> case_ord (case_s_start_req_or_res settings ch) c.
Proof using All. intros ?. unfold case_s_start_req_or_res. ord_auto. Qed.

Lemma ord_s_res_or_resp_H c ch :
  p_state c = s_res_or_resp_H -> case_ord (case_s_res_or_resp_H ch) c.
Proof using All. intros ?. unfold case_s_res_or_resp_H. ord_auto. Qed.

Lemma ord_s_start_res c ch :
  p_state c = s_start_res -> case_ord (case_s_start_res settings ch) c.
Proof using All. intros ?. unfold case_s_start_res. ord_auto. Qed.

Lemma ord_s_res_H c ch : p_state c = s_res_H -> case_ord (case_s_res_H strict ch) c.
Proof using All. intros ?. unfold case_s_res_H. ord_auto. Qed.

Lemma ord_s_res_HT c ch : p_state c = s_res_HT -> case_ord (case_s_res_HT strict ch) c.
Proof using All. intros ?. unfold case_s_res_HT. ord_auto. Qed.

Lemma ord_s_res_HTT c ch : p_state c = s_res_HTT -> case_ord (case_s_res_HTT strict ch) c.
Proof using All. intros ?. unfold case_s_res_HTT. ord_auto. Qed.

Lemma ord_s_res_HTTP c ch : p_state c = s_res_HTTP -> case_ord (case_s_res_HTTP strict ch) c.
Proof using All. intros ?. unfold case_s_res_HTTP. ord_auto. Qed.

Lemma ord_s_res_first_http_major c ch : p_state c = s_res_first_http_major -> case_ord (case_s_res_first_http_major ch) c.
Proof using All. intros ?. unfold case_s_res_first_http_major. ord_auto. Qed.

Lemma ord_s_res_http_major c ch : p_state c = s_res_http_major -> case_ord (case_s_res_http_major ch) c.
Proof using All. intros ?. unfold case_s_res_http_major. ord_auto. Qed.

Lemma ord_s_res_first_http_minor c ch : p_state c = s_res_first_http_minor -> case_ord (case_s_res_first_http_minor ch) c.
Proof using All. intros ?. unfold case_s_res_first_http_minor. ord_auto. Qed.

Lemma ord_s_res_http_minor c ch : p_state c = s_res_http_minor -> case_ord (case_s_res_http_minor ch) c.
Proof using All. intros ?. unfold case_s_res_http_minor. ord_auto. Qed.

Lemma ord_s_res_first_status_code c ch : p_state c = s_res_first_status_code -> case_ord (case_s_res_first_status_code ch) c.
Proof using All. intros ?. unfold case_s_res_first_status_code. ord_auto. Qed.

Lemma ord_s_res_status_code c ch : p_state c = s_res_status_code -> case_ord (case_s_res_status_code ch) c.
Proof using All. intros ?. unfold case_s_res_status_code. ord_auto. Qed.

Lemma ord_s_res_status_start c ch : p_state c = s_res_status_start -> case_ord (case_s_res_status_start ch) c.
Proof using All. intros ?. unfold case_s_res_status_start. ord_auto. Qed.

Lemma ord_s_res_status c ch : p_state c = s_res_status -> case_ord (case_s_res_status settings data ch) c.
Proof using All. intros ?. unfold case_s_res_status. ord_auto. Qed.

Lemma ord_s_res_line_almost_done c ch : p_state c = s_res_line_almost_done -> case_ord (case_s_res_line_almost_done strict ch) c.
Proof using All. intros ?. unfold case_s_res_line_almost_done. ord_auto. Qed.

Lemma ord_s_start_req c ch : p_state c = s_start_req -> case_ord (case_s_start_req settings ch) c.
Proof using All.
  intros ?. unfold case_s_start_req. ord_case. repeat ord_step; ord_fin.
  destruct (start_method ch) as [m0|]; repeat ord_step; ord_fin.
Qed.

Lemma ord_s_req_method c ch : p_state c = s_req_method -> case_ord (case_s_req_method ch) c.
Proof using All.
  intros ?. unfold case_s_req_method. ord_case. repeat ord_step; ord_fin.
  destruct (cstr_at _ _) as [x|]; repeat ord_step; ord_fin.
  destruct (other_method _ _ _) as [m'|]; repeat ord_step; ord_fin.
Qed.

Lemma ord_s_req_spaces_before_url c ch : p_state c = s_req_spaces_before_url -> case_ord (case_s_req_spaces_before_url strict ch) c.
Proof using All.
  intros ?. unfold case_s_req_spaces_before_url. ord_case. repeat ord_step; ord_fin.
  all: apply wp_o_url_step; hp_simp; [ord_fin | done].
Qed.

Lemma ord_s_req_http_start c ch : p_state c = s_req_http_start -> case_ord (case_s_req_http_start ch) c.
Proof using All. intros ?. unfold case_s_req_http_start. ord_auto. Qed.

Lemma ord_s_req_http_H c ch : p_state c = s_req_http_H -> case_ord (case_s_req_http_H strict ch) c.
Proof using All. intros ?. unfold case_s_req_http_H. ord_auto. Qed.

Lemma ord_s_req_http_HT c ch : p_state c = s_req_http_HT -> case_ord (case_s_req_http_HT strict ch) c.
Proof using All. intros ?. unfold case_s_req_http_HT. ord_auto. Qed.

Lemma ord_s_req_http_HTT c ch : p_state c = s_req_http_HTT -> case_ord (case_s_req_http_HTT strict ch) c.
Proof using All. intros ?. unfold case_s_req_http_HTT. ord_auto. Qed.

Lemma ord_s_req_http_HTTP c ch : p_state c = s_req_http_HTTP -> case_ord (case_s_req_http_HTTP strict ch) c.
Proof using All. intros ?. unfold case_s_req_http_HTTP. ord_auto. Qed.

Lemma ord_s_req_first_http_major c ch : p_state c = s_req_first_http_major -> case_ord (case_s_req_first_http_major ch) c.
Proof using All. intros ?. unfold case_s_req_first_http_major. ord_auto. Qed.

Lemma ord_s_req_http_major c ch : p_state c = s_req_http_major -> case_ord (case_s_req_http_major ch) c.
Proof using All. intros ?. unfold case_s_req_http_major. ord_auto. Qed.

Lemma ord_s_req_first_http_minor c ch : p_state c = s_req_first_http_minor -> case_ord (case_s_req_first_http_minor ch) c.
Proof using All. intros ?. unfold case_s_req_first_http_minor. ord_auto. Qed.

Lemma ord_s_req_http_minor c ch : p_state c = s_req_http_minor -> case_ord (case_s_req_http_minor ch) c.
Proof using All. intros ?. unfold case_s_req_http_minor. ord_auto. Qed.

Lemma ord_s_req_line_almost_done c ch : p_state c = s_req_line_almost_done -> case_ord (case_s_req_line_almost_done ch) c.
Proof using All. intros ?. unfold case_s_req_line_almost_done. ord_auto. Qed.

Lemma ord_s_header_field_start c ch : p_state c = s_header_field_start -> case_ord (case_s_header_field_start strict ch) c.
Proof using All. intros ?. unfold case_s_header_field_start. ord_auto. Qed.

Lemma ord_s_header_value_discard_ws_almost_done c ch : p_state c = s_header_value_discard_ws_almost_done -> case_ord (case_s_header_value_discard_ws_almost_done strict ch) c.
Proof using All. intros ?. unfold case_s_header_value_discard_ws_almost_done. ord_auto. Qed.

Lemma ord_s_header_value_lws c ch : p_state c = s_header_value_lws -> case_ord (case_s_header_value_lws ch) c.
Proof using All.
  intros ?. unfold case_s_header_value_lws. ord_case. repeat ord_step; ord_fin.
  apply wp_o_finish_header; [done|]. intros p' u' Ha'. repeat ord_step; ord_fin.
Qed.

Lemma ord_s_header_almost_done c ch : p_state c = s_header_almost_done -> case_ord (case_s_header_almost_done strict ch) c.
Proof using All. intros ?. unfold case_s_header_almost_done. ord_auto. Qed.

Lemma ord_s_headers_done c ch : p_state c = s_headers_done -> case_ord (case_s_headers_done strict settings ch) c.
Proof using All.
  intros ?. unfold case_s_headers_done. ord_case. repeat ord_step; ord_fin.
  all: apply wp_o_message_complete; hp_simp; [ord_fin|]; intros s' u' Ha' ?; repeat ord_step; ord_fin.
  unfold RETURN. repeat ord_step. apply wp_exit. by apply app_ok_phase.
Qed.

Lemma ord_s_chunk_size_start c ch : p_state c = s_chunk_size_start -> case_ord (case_s_chunk_size_start ch) c.
Proof using All. intros ?. unfold case_s_chunk_size_start. ord_auto. Qed.

Lemma ord_s_chunk_size c ch : p_state c = s_chunk_size -> case_ord (case_s_chunk_size ch) c.
Proof using All. intros ?. unfold case_s_chunk_size. ord_auto. Qed.

Lemma ord_s_chunk_parameters c ch : p_state c = s_chunk_parameters -> case_ord (case_s_chunk_parameters ch) c.
Proof using All. intros ?. unfold case_s_chunk_parameters. ord_auto. Qed.

Lemma ord_s_chunk_size_almost_done c ch : p_state c = s_chunk_size_almost_done -> case_ord (case_s_chunk_size_almost_done strict settings ch) c.
Proof using All. intros ?. unfold case_s_chunk_size_almost_done. ord_auto. Qed.

Lemma ord_s_chunk_data c : p_state c = s_chunk_data -> case_ord (case_s_chunk_data data) c.
Proof using All. intros ?. unfold case_s_chunk_data. ord_auto. Qed.

Lemma ord_s_chunk_data_almost_done c ch : p_state c = s_chunk_data_almost_done -> case_ord (case_s_chunk_data_almost_done strict settings data ch) c.
Proof using All. intros ?. unfold case_s_chunk_data_almost_done. ord_auto. Qed.

Lemma ord_s_chunk_data_done c ch : p_state c = s_chunk_data_done -> case_ord (case_s_chunk_data_done strict settings ch) c.
Proof using All. intros ?. unfold case_s_chunk_data_done. ord_auto. Qed.

Lemma ord_s_body_identity c : p_state c = s_body_identity -> case_ord (case_s_body_identity settings data) c.
Proof using All. intros ?. unfold case_s_body_identity. ord_auto. Qed.

Lemma ord_s_body_identity_eof c : p_state c = s_body_identity_eof -> case_ord (case_s_body_identity_eof data) c.
Proof using All. intros ?. unfold case_s_body_identity_eof. ord_auto. Qed.

Lemma ord_s_message_done c : p_state c = s_message_done -> case_ord (case_s_message_done strict settings) c.
Proof using All.
  intros ?. unfold case_s_message_done. ord_case. repeat ord_step; ord_fin.
  apply wp_o_message_complete; hp_simp; [ord_fin|]; intros s' u' Ha' ?; repeat ord_step; ord_fin.
  unfold RETURN. repeat ord_step. apply wp_exit. by apply app_ok_phase.
Qed.

Lemma ord_s_req_schema c ch :
  initial_mark (p_state c) K_url = Some 0 -> case_ord (case_s_req_schema strict ch) c.
Proof using All.
  intros Hu. unfold case_s_req_schema. ord_case. repeat ord_step; ord_fin.
  apply wp_o_url_step; hp_simp; [|done].
  eapply at_phase_mono; [exact Ha|]. intros ph. by destruct s, ph.
Qed.

Lemma ord_s_req_server c ch :
  initial_mark (p_state c) K_url = Some 0 -> case_ord (case_s_req_server strict settings data ch) c.
Proof using All.
  intros Hu. unfold case_s_req_server. ord_case.
  assert (Hline : at_phase (fun ph => bool_decide (ph = Ph_line) && negb (trailing (hp_flags p))) u).
  { eapply at_phase_mono; [exact Ha|]. intros ph. by destruct s, ph. }
  clear Ha. repeat ord_step; ord_fin; try (destruct (ch =? CR); ord_fin); try done.
  by apply wp_o_url_step.
Qed.

(** *** Header names *)

Lemma wp_o_header_field_char ch tok c (Q : unit -> ctx U -> Prop) :
  (forall p, hp_flags p = hp_flags (parser c) ->
   Q tt (mk_ctx p (app c) (pos c) (c_ch c) (p_state c) (marks c))) ->
  wp (header_field_char ch tok) c Q order_exit.
Proof using.
  intros HQ. unfold header_field_char. ord_step. ord_step. cbn beta.
  destruct c as [p u i ch0 s m]; hp_simp.
  assert (Hm : forall name hit,
    wp (hs ← match_name name tok (hp_header_state p) h_general hit;
        updp (set_header_state hs)) (mk_ctx p u i ch0 s m) Q order_exit).
  { intros name hit. ord_step. apply wp_o_match_name. intros h. repeat ord_step. by apply HQ. }
  destruct (hp_header_state p); try apply Hm; repeat ord_step; by apply HQ.
Qed.

Lemma wp_o_header_field_loop fuel : forall c (Q : unit -> ctx U -> Prop),
  (forall p i ch, hp_flags p = hp_flags (parser c) ->
   Q tt (mk_ctx p (app c) i ch (p_state c) (marks c))) ->
  wp (header_field_loop strict data fuel) c Q order_exit.
Proof using.
  induction fuel as [|fuel IH]; intros c Q HQ; cbn [header_field_loop]; repeat ord_step.
  - destruct c as [p u i ch0 s m]. by apply HQ.
  - apply wp_o_read_ch. intros ch. repeat ord_step; [by apply HQ|].
    apply wp_o_header_field_char. hp_simp. intros p Hp. repeat ord_step.
    apply IH. hp_simp. intros p' i' ch' Hp'. apply HQ. congruence.
Qed.

Lemma ord_s_header_field c :
  p_state c = s_header_field -> case_ord (case_s_header_field strict settings data) c.
Proof using All.
  intros ?. unfold case_s_header_field. ord_case. repeat ord_step.
  apply wp_o_header_field_loop. hp_simp. intros p' i' ch Hp'. rewrite <-Hp' in Ha.
  repeat ord_step; ord_fin. destruct Hk as [? Hk]. congruence.
Qed.

(** *** Header values *)

Lemma ord_s_header_value_start c ch :
  p_state c = s_header_value_start \/ p_state c = s_header_value_discard_ws ->
  case_ord (case_s_header_value_start ch) c.
Proof using All.
  intros Hs. unfold case_s_header_value_start. ord_case. repeat ord_step.
  assert (Ha' : at_phase (in_phase (trailing (hp_flags p)) s_header_value) u).
  { eapply at_phase_mono; [exact Ha|]. intros ph. by destruct Hs as [-> | ->]. }
  clear Ha. destruct (hp_header_state p); repeat ord_step; ord_fin.
Qed.

Lemma ord_s_header_value_discard_ws c ch :
  p_state c = s_header_value_discard_ws -> case_ord (case_s_header_value_discard_ws ch) c.
Proof using All.
  intros Hs. unfold case_s_header_value_discard_ws.
  pose proof (ord_s_header_value_start c ch (or_intror Hs)) as Hstart.
  intros Hok. specialize (Hstart Hok). revert Hok. ord_case. repeat ord_step; ord_fin. done.
Qed.

Lemma wp_o_header_value_char ch h (P : phase -> bool) c (Q : header_states -> ctx U -> Prop) :
  at_phase P (app c) -> p_state c = s_header_value ->
  (forall p h' i, trailing (hp_flags p) = trailing (hp_flags (parser c)) ->
   Q h' (mk_ctx p (app c) i (c_ch c) s_header_value (marks c))) ->
  wp (header_value_char data h ch (LOWER ch)) c Q order_exit.
Proof using.
  intros Ha Hs HQ. destruct c as [p u i ch0 s m]. hp_simp. subst s.
  assert (Hm : forall name miss hit,
    wp (match_name name (LOWER ch) h miss hit) (mk_ctx p u i ch0 s_header_value m) Q order_exit).
  { intros name miss hit. apply wp_o_match_name. intros h'. by apply HQ. }
  unfold header_value_char, content_length_char, header_value_skip, SET_ERRNO.
  destruct h; try apply Hm; repeat ord_step; try (apply HQ; hp_simp; by rewrite ?trailing_or).
  all: apply wp_exit; split; hp_simp; [by eapply at_phase_any|done].
Qed.

Lemma wp_o_header_value_loop fuel : forall start h c (Q : header_states -> ctx U -> Prop),
  at_phase (in_phase (trailing (hp_flags (parser c))) s_header_value) (app c) ->
  p_state c = s_header_value -> is_Some (marks c K_header_value) ->
  (forall p h' i ch, trailing (hp_flags p) = trailing (hp_flags (parser c)) ->
   Q h' (mk_ctx p (app c) i ch s_header_value (marks c))) ->
  (forall p u h' i ch mk, at_phase (in_phase (trailing (hp_flags p)) s_header_almost_done) u ->
   Q h' (mk_ctx p u i ch s_header_almost_done mk)) ->
  wp (header_value_loop settings data fuel start h) c Q order_exit.
Proof using All.
  induction fuel as [|fuel IH]; intros start h c Q Ha Hs Hk Hend Hcr;
    destruct c as [p u i ch0 s m]; hp_simp; subst s; cbn [header_value_loop]; repeat ord_step.
  - by apply Hend.
  - apply wp_o_read_ch. intros ch. repeat ord_step.
    1-3: try ord_fin; try (by apply Hcr); destruct Hk as [? Hk]; congruence.
    1-3: try ord_fin; destruct Hk as [? Hk]; congruence.
    eapply wp_o_header_value_char; hp_simp; [exact Ha | done |]. intros p' h' i' Hp'.
    repeat ord_step. apply IH; hp_simp; try done; [by rewrite Hp'|].
    intros p'' h'' i'' ch'' Hp''. apply Hend. congruence.
Qed.

Lemma ord_s_header_value c :
  p_state c = s_header_value -> case_ord (case_s_header_value settings data) c.
Proof using All.
  intros ?. unfold case_s_header_value. ord_case. repeat ord_step.
  apply wp_o_header_value_loop; hp_simp; try done.
  - intros p' h' i' ch Hp'. rewrite <-Hp' in Ha. repeat ord_step; ord_fin.
  - intros p' u' h' i' ch mk Ha'. repeat ord_step; ord_fin.
Qed.

Lemma ord_s_header_value_discard_lws c ch :
  p_state c = s_header_value_discard_lws -> case_ord (case_s_header_value_discard_lws settings data ch) c.
Proof using All.
  intros ?. unfold case_s_header_value_discard_lws. ord_case. repeat ord_step; ord_fin.
  apply wp_o_finish_header; [done|]. intros p' u' Ha'. repeat ord_step; ord_fin. congruence.
Qed.

(** *** End of the headers *)

(** The callback of the end of the headers, which may also ask to skip the body. *)
Lemma ord_headers_complete c n (k : M unit) :
  at_phase (after (note_next Headers_complete) (phases c)) (app c) ->
  hp_errno (parser c) = HPE_OK ->
  (forall p u, hp_errno p = HPE_OK \/ hp_errno p = HPE_PAUSED ->
   trailing (hp_flags p) = trailing (hp_flags (parser c)) -> at_phase (phases c) u ->
   wp k (mk_ctx p u (pos c) (c_ch c) (p_state c) (marks c)) (fun _ => order_ok) order_exit) ->
  wp (match on_headers_complete settings with
      | None => mret tt
      | Some f =>
          p ← gets parser;
          u ← gets app;
          let '(r, p', u') := f p u in
          modify (fun c => mk_ctx p' u' (pos c) (c_ch c) (p_state c) (marks c));;
          if r =? 0 then mret tt
          else if r =? 1 then updp (or_flags F_SKIPBODY)
          else SET_ERRNO HPE_CB_headers_complete;; RETURN n
      end;; k) c (fun _ => order_ok) order_exit.
Proof using All.
  intros (ph & Hph & Hnext) Herr Hk. unfold after in Hnext.
  destruct (note_next Headers_complete ph) as [ph'|] eqn:Hph'; [|done]. ord_step.
  destruct (on_headers_complete settings) as [f|] eqn:Hf.
  - ord_step. ord_step. ord_step. ord_step. pose proof (ok_headers_complete f Hf (parser c) (app c) Herr) as Hcb.
    pose proof (app_note Headers_complete f ph ph' (parser c) (app c) Hf Hph' Hph) as Hi.
    destruct (f (parser c) (app c)) as [[r p'] u']. cbn [snd] in Hi.
    assert (Hp' : (hp_errno p' = HPE_OK \/ hp_errno p' = HPE_PAUSED) /\ hp_flags p' = hp_flags (parser c))
      by by destruct Hcb as [-> | ->]; split; auto.
    destruct Hp' as [He' Hfl'].
    assert (Hu' : at_phase (phases c) u') by by exists ph'.
    ord_step. apply wp_modify. repeat ord_step.
    + apply Hk; try done. by rewrite Hfl'.
    + apply Hk; hp_simp; try done. by rewrite trailing_or, Hfl'.
    + unfold SET_ERRNO, RETURN. repeat ord_step. apply wp_exit. split; hp_simp; [by eapply at_phase_any|].
      by intros [|].
  - ord_step. destruct c as [p u i ch0 s m]. hp_simp. apply Hk; auto.
    exists ph'. split; [by eapply (app_no_note Headers_complete)|done].
Qed.

Lemma ord_s_headers_almost_done c ch :
  hp_errno (parser c) = HPE_OK ->
  p_state c = s_headers_almost_done -> case_ord (case_s_headers_almost_done strict settings ch) c.
Proof using All.
  intros Herr ?. unfold case_s_headers_almost_done. ord_case.
  ord_step. ord_step. ord_step; [ord_step; ord_fin|]. ord_step. ord_step. ord_step;
    change (has_flag p F_TRAILING) with (trailing (hp_flags p)) in H0.
  - rewrite H0 in Ha. repeat ord_step; ord_fin.
  - do 6 ord_step. apply ord_headers_complete; hp_simp; [|done|].
    + eapply at_phase_mono; [exact Ha|]. rewrite H0. by intros [].
    + intros p' u' He' Hfl' Ha'. repeat ord_step.
      * unfold RETURN. repeat ord_step. apply wp_exit. apply app_ok_phase. hp_simp. by rewrite Hfl'.
      * constructor; hp_simp; [by rewrite Hfl'|done].
Qed.


(** ** The whole call *)

Lemma ord_dispatch c : hp_errno (parser c) = HPE_OK -> case_ord (dispatch strict settings data) c.
Proof using All.
  intros Herr Hok. unfold dispatch. apply wp_bind, wp_gets, wp_bind, wp_gets.
  destruct (p_state c) eqn:Es; cbn beta;
    match goal with |- wp ?m _ _ _ => enough (Hc : case_ord m c) by exact (Hc Hok) end.
  all: eauto using ord_s_dead, ord_s_start_req_or_res, ord_s_res_or_resp_H, ord_s_start_res,
    ord_s_res_H, ord_s_res_HT, ord_s_res_HTT, ord_s_res_HTTP, ord_s_res_first_http_major,
    ord_s_res_http_major, ord_s_res_first_http_minor, ord_s_res_http_minor,
    ord_s_res_first_status_code, ord_s_res_status_code, ord_s_res_status_start,
    ord_s_res_status, ord_s_res_line_almost_done, ord_s_start_req, ord_s_req_method,
    ord_s_req_spaces_before_url, ord_s_req_http_start, ord_s_req_http_H, ord_s_req_http_HT,
    ord_s_req_http_HTT, ord_s_req_http_HTTP, ord_s_req_first_http_major,
    ord_s_req_http_major, ord_s_req_first_http_minor, ord_s_req_http_minor,
    ord_s_req_line_almost_done, ord_s_header_field_start, ord_s_header_field,
    ord_s_header_value_discard_ws, ord_s_header_value_discard_ws_almost_done,
    ord_s_header_value_discard_lws, ord_s_header_value_start, ord_s_header_value,
    ord_s_header_value_lws, ord_s_header_almost_done, ord_s_chunk_size_start,
    ord_s_chunk_size, ord_s_chunk_parameters, ord_s_chunk_size_almost_done,
    ord_s_headers_almost_done, ord_s_headers_done, ord_s_chunk_data,
    ord_s_chunk_data_almost_done, ord_s_chunk_data_done, ord_s_body_identity,
    ord_s_body_identity_eof, ord_s_message_done.
  all: first [apply ord_s_req_schema | apply ord_s_req_server]; by rewrite Es.
Qed.

Abbreviation l := (zlen data).

(** What holds when the function is left. *)
Definition leave_ord (j : jump) (c : ctx U) : Prop := leave_ok data j c /\ order_exit j c.

Lemma ord_reexecute fuel : forall p0 c,
  ctx_ok 1 c -> 0 <= p0 <= pos c -> pos c < l -> (rank (p_state c) <= fuel)%nat -> order_ok c ->
  wp (reexecute strict settings data fuel) c
    (fun _ c' => post_ok l p0 c' /\ order_ok c') leave_ord.
Proof using All.
  induction fuel as [|fuel IH]; intros p0 c Hok Hp0 Hp Hf Hord; apply wp_reexecute;
    (eapply wp_mono;
      [| | apply (wp_and _ _ _ _ _ _ (dispatch_ok strict settings data c Hok ltac:(lia))
                    (ord_dispatch c (ok_errno _ _ Hok) Hord))]).
  all: try (intros _ c' [[? ?] ?]; split; [split; [done | lia] | done]).
  all: intros j c' [He Ho]; destruct j; try (split; [by eapply exit_leave | done]).
  - destruct He as (_ & _ & ?). lia.
  - destruct He as (Hok' & Hp' & Hr). apply IH; [done | lia.. | done].
Qed.

Lemma ord_count c (P : phase -> bool) :
  order_ok c ->
  wp (when (PARSING_HEADER (p_state c)) (COUNT_HEADER_SIZE 1)) c (fun _ => order_ok) order_exit.
Proof using All.
  destruct c as [p u i ch0 s m]. intros [Ha Hk]. hp_simp. repeat ord_step; by constructor.
Qed.

Lemma ord_main_loop fuel : forall c,
  ctx_ok 0 c -> 0 <= pos c <= l -> (Z.to_nat (l - pos c) < fuel)%nat -> order_ok c ->
  wp (main_loop strict settings data fuel) c
    (fun _ c' => (ctx_ok 0 c' /\ pos c' = l) /\ order_ok c') leave_ord.
Proof using All.
  induction fuel as [|fuel IH]; intros c Hok Hp Hf Hord; [lia|].
  cbn [main_loop]. ord_step. ord_step. ord_step; unfold len in *; destr_bool; [by ord_step|].
  ord_step. apply wp_read_ch; [lia|]. intros ch Hch. ord_step. ord_step. ord_step.
  set (c1 := mk_ctx _ _ _ ch _ _).
  assert (Hok1 : ctx_ok 0 c1) by by destruct Hok.
  assert (Hord1 : order_ok c1) by by destruct Hord.
  eapply wp_mono; [| | apply (wp_and _ _ _ _ _ _ (count_head data c1 Hok1 ltac:(simpl; lia))
    (ord_count c1 (fun _ => true) Hord1))]; [|done].
  intros _ c2 [[Hok2 Hp2] Hord2]. simpl in Hp2. ord_step.
  eapply wp_mono; [| | apply (ord_reexecute _ (pos c) c2 Hok2); [lia | lia | apply rank_fuel | done]];
    [|done].
  intros _ c3 [[Hok3 Hp3] Hord3]. repeat ord_step. apply IH; hp_simp; [|lia|lia|by destruct Hord3].
  destruct Hok3 as [? ? ? Hm3]. constructor; auto. intros k v Hk.
  destruct (Hm3 k v Hk). hp_simp. split; [done | lia].
Qed.

(** A datum that may still be reported fits the phase, and the phase after it
    fits the state. *)
Lemma mark_phase k s t ph :
  mark_state k s = true -> in_phase t s ph = true -> after (data_next k) (in_phase t s) ph = true.
Proof using. destruct k, s; try discriminate; destruct t, ph; done. Qed.

Record flush_ord (c : ctx U) : Prop := {
  flo_app : at_phase (phases c) (app c);
  flo_marks k : is_Some (marks c k) -> mark_state k (p_state c) = true;
}.

Lemma ord_flush_one k c (Q : unit -> ctx U -> Prop) :
  flush_ord c -> (forall c', flush_ord c' -> Q tt c') ->
  wp (CALLBACK_DATA_NOADVANCE settings data k) c Q order_exit.
Proof using All.
  intros [Ha Hm] HQ. repeat ord_step.
  - eapply at_phase_mono; [exact Ha|]. intros ph. by apply mark_phase, Hm.
  - apply HQ. constructor; hp_simp; [done|]. intros k' Hk'. destruct (decide (k' = k)) as [->|].
    + rewrite H1 in Hk'. by destruct Hk'.
    + apply Hm. by rewrite <-H0.
  - by apply HQ.
Qed.

Lemma ord_flush c :
  ctx_ok 0 c -> order_ok c ->
  wp (flush_marks settings data) c (fun _ _ => False) order_exit.
Proof using All.
  intros [_ _ _ Hm] [Ha _]. unfold flush_marks. do 4 ord_step.
  assert (Hfl : flush_ord c) by (constructor; [done|]; intros k [v Hv]; by apply (Hm k v)).
  clear Hm Ha.
  do 5 (ord_step; apply ord_flush_one; [assumption|]; clear dependent c; intros c Hfl).
  unfold RETURN. repeat ord_step. by apply wp_exit, app_ok_phase, Hfl.
Qed.

Lemma ord_initial p u :
  at_phase (in_phase (trailing (hp_flags p)) (hp_state p)) u ->
  order_ok (mk_ctx p u 0 0 (hp_state p) (initial_mark (hp_state p))).
Proof using.
  intros Ha. constructor; [exact Ha|]. hp_simp. destruct (hp_state p); cbn; eauto.
Qed.

(** The end of the input: the message is complete if its body was open-ended. *)
Lemma ord_eof c :
  at_phase (phases c) (app c) ->
  wp (execute_eof settings) c (fun _ _ => False)
    (fun j c' => match j with JFault _ => True | _ => at_phase (fun _ => true) (app c') end).
Proof using AppInvariant0.
  intros Ha. unfold execute_eof. ord_step. ord_step. cbn beta.
  assert (Hany : at_phase (fun _ => true) (app c)) by by eapply at_phase_any.
  destruct (p_state c) eqn:Es; try (by apply wp_exit);
    try (unfold SET_ERRNO; repeat ord_step; by apply wp_exit).
  ord_step. unfold CALLBACK_NOTIFY_NOADVANCE, CALLBACK_NOTIFY_, assert_ok.
  do 4 ord_step. ord_step. unfold assert. apply wp_if; intros _; [ord_step|by apply wp_exit].
  destruct (on_message_complete settings) as [f|] eqn:Hf; [|ord_step; by apply wp_exit].
  destruct Ha as (ph & Hph & Hp). assert (ph = Ph_body) as -> by by destruct ph.
  pose proof (app_note Message_complete f Ph_body Ph_idle (set_state (p_state c) (parser c)) (app c)
    Hf eq_refl Hph) as Hi.
  unfold run_cb, SET_ERRNO. do 8 ord_step. destruct (f _ _) as [[r p'] u'].
  assert (Hu : at_phase (fun _ => true) u') by by exists Ph_idle.
  ord_step. apply wp_modify. repeat ord_step; by apply wp_exit.
Qed.

(** A call keeps the invariant between calls. *)
Lemma ord_execute p u n p' u' :
  parser_ok p -> hp_errno p = HPE_OK -> data <> [] ->
  at_phase (in_phase (trailing (hp_flags p)) (hp_state p)) u ->
  http_parser_execute strict settings data p u = inl (n, p', u') -> app_ok p' u'.
Proof using All.
  intros Hok He Hdata Ha Hex.
  assert (Hl : 0 < l) by (unfold zlen; destruct data; [done | simpl; lia]).
  pose proof (initial_ctx_ok p u Hok He) as Hc0. pose proof (ord_initial p u Ha) as Ho0.
  assert (Hw : wp (execute_body strict settings data)
                 (mk_ctx p u 0 0 (hp_state p) (fun _ => None)) (fun _ _ => False) order_exit).
  { unfold execute_body. ord_step. ord_step. rewrite errno_ok_true by done.
    cbn [negb]. ord_step; unfold len in *; destr_bool; [lia|].
    ord_step. apply wp_modify. ord_step. eapply wp_mono; [| | apply ord_main_loop];
      [| | exact Hc0 | | | exact Ho0]; hp_simp; try (unfold zlen in *; lia).
    - intros [] c [[Hc Hp] Hord]. by apply ord_flush.
    - by intros j c [_ ?]. }
  unfold http_parser_execute in Hex. with_strategy transparent [wp] unfold wp in Hw.
  destruct (execute_body _ _ _ _) as [[? ?]|[j c]]; [done|].
  destruct j; simplify_eq; [|exact Hw]. destruct Hw as [Hany Hne].
  unfold error_exit in Hex. simplify_eq. split; [done|]. hp_simp.
  unfold errno_ok. case_bool_decide; hp_simp; intros [|]; congruence.
Qed.

Lemma ord_execute_eof p u n p' u' :
  hp_errno p = HPE_OK -> data = [] ->
  at_phase (in_phase (trailing (hp_flags p)) (hp_state p)) u ->
  http_parser_execute strict settings data p u = inl (n, p', u') -> at_phase (fun _ => true) u'.
Proof using All.
  intros He Hdata Ha Hex.
  assert (Hw : wp (execute_body strict settings data)
                 (mk_ctx p u 0 0 (hp_state p) (fun _ => None)) (fun _ _ => False)
    (fun j c' => match j with JFault _ => True | _ => at_phase (fun _ => true) (app c') end)).
  { unfold execute_body, len. rewrite Hdata. ord_step. ord_step. rewrite errno_ok_true by done.
    cbn [negb]. ord_step; [|done]. by apply ord_eof. }
  unfold http_parser_execute in Hex. with_strategy transparent [wp] unfold wp in Hw.
  destruct (execute_body _ _ _ _) as [[? ?]|[j c]]; [done|].
  destruct j; try discriminate; unfold error_exit in Hex; by simplify_eq.
Qed.

End Order.
