(* ===== verification/HttpOrderProps.v ===== *)
(** * HttpOrderProps: the callback order of http_parser_execute

    Applications that are fed by the parser, the rule that carries their
    invariant through every run, and its instance for the trace of all
    callbacks. *)
From S2P Require Import Prelude HttpDefs HttpUrl HttpParser HttpInv HttpSafety HttpOrder HttpProps.

(** A parser and the application it feeds, from an application [u0] on: buffers
    of any content that are not empty, pauses and resumptions. *)
Inductive fed {U} (strict : bool) (st : http_parser_settings U) (u0 : U) : http_parser -> U -> Prop :=
  | fed_init t : fed strict st u0 (http_parser_init t) u0
  | fed_data p u data n p' u' :
      fed strict st u0 p u -> data <> [] ->
      http_parser_execute strict st data p u = inl (n, p', u') ->
      fed strict st u0 p' u'
  | fed_pause p u b p' :
      fed strict st u0 p u -> http_parser_pause p b = inl p' -> fed strict st u0 p' u.

Lemma fed_reachable {U} strict (st : http_parser_settings U) u0 p u :
  fed strict st u0 p u -> reachable strict st p.
Proof. induction 1; [constructor | by eapply reach_execute | by eapply reach_pause]. Qed.

Section Fed.
Context {U : Type} (strict : bool) (st : http_parser_settings U).
Context `{!CallbacksOk st} (I : phase -> U -> Prop) `{!AppInvariant st I}.
Variable u0 : U.
Hypothesis Hu0 : I Ph_idle u0.

Lemma fed_app_ok p u : fed strict st u0 p u -> app_ok I p u.
Proof using All.
  induction 1 as [t|p u data n p' u' Hfed IH Hdata Hex|p u b p' Hfed [IH1 IH2] Hp].
  - apply app_ok_phase. exists Ph_idle. split; [done|]. by destruct t.
  - destruct (decide (hp_errno p = HPE_OK)) as [He|He].
    + apply (ord_execute strict st I data p u n p' u'); [| exact He | exact Hdata | | exact Hex].
      * apply (reachable_ok strict st); [by eapply fed_reachable | by left].
      * apply IH. by left.
    + rewrite execute_error in Hex by done. by simplify_eq.
  - split; [done|]. destruct (pause_usable _ _ _ Hp) as [Hu _]. specialize (IH2 Hu). intros _.
    unfold http_parser_pause in Hp. by destruct (hp_errno p); simplify_eq.
Qed.

(** One more call, with any buffer. *)
Lemma fed_execute p u data n p' u' :
  fed strict st u0 p u -> http_parser_execute strict st data p u = inl (n, p', u') ->
  exists ph, I ph u'.
Proof using All.
  intros Hfed Hex. pose proof (fed_app_ok p u Hfed) as [Hany Happ].
  destruct (decide (hp_errno p = HPE_OK)) as [He|He].
  - assert (Hu' : at_phase I (fun _ => true) u').
    { destruct data as [|c data].
      - apply (ord_execute_eof strict st I [] p u n p' u'); [exact He | reflexivity | apply Happ; by left | exact Hex].
      - apply (fed_app_ok p' u'). by apply (fed_data _ _ _ p u (c :: data) n). }
    destruct Hu' as (ph & ? & _). eauto.
  - rewrite execute_error in Hex by done. simplify_eq. destruct Hany as (ph & ? & _). eauto.
Qed.

End Fed.

(** ** The trace of all callbacks *)

(** The phase after a trace that follows the grammar. *)
Fixpoint phase_of (t : http_trace) : option phase :=
  match t with
  | [] => Some Ph_idle
  | Note n :: t' => phase_of t' ≫= note_next n
  | Data k _ :: t' => phase_of t' ≫= data_next k
  end.

(** Two pieces of a datum are no further step. *)
Lemma data_next_idem k ph ph' : data_next k ph = Some ph' -> data_next k ph' = Some ph'.
Proof. by destruct k, ph; intros [= <-]. Qed.

Lemma phase_of_push k d t ph ph' :
  phase_of t = Some ph -> data_next k ph = Some ph' -> phase_of (push_data k d t) = Some ph'.
Proof.
  intros Ht Hk. destruct t as [|[n|k' d'] t]; cbn [push_data].
  - cbn [phase_of] in *. by simplify_eq.
  - cbn [phase_of] in *. by rewrite Ht.
  - destruct (decide (k = k')) as [<-|]; cbn [phase_of] in *; [|by rewrite Ht].
    destruct (phase_of t) as [ph0|]; [|done]. cbn in Ht |- *.
    apply data_next_idem in Ht as Ht'. by simplify_eq.
Qed.

#[export] Instance record_ordered : AppInvariant record_settings (fun ph t => phase_of t = Some ph).
Proof.
  split.
  - intros n f ph ph' p t Hf Hn Ht. destruct n; cbn in Hf; simplify_eq; cbn; by rewrite Ht.
  - intros k f ph ph' p t d Hf Hk Ht. destruct k; cbn in Hf; simplify_eq; by eapply phase_of_push.
  - by intros [].
  - by intros [].
Qed.

(** C22. The order of the callbacks: whatever bytes arrive in whatever pieces,
    the notifications and data that [http_parser_execute] reports follow the
    grammar of HTTP messages: a message begins, its first line is reported,
    then header names and values in turn, the end of the headers, the body or
    the chunks (each between its header and its completion, the last followed
    by trailing headers), the end of the message.  This also holds for a last
    call that announces the end of the input, and while the parser is usable
    its state tells the phase of the message. *)
Theorem callback_order strict p t data n p' t' :
  fed strict record_settings [] p t ->
  http_parser_execute strict record_settings data p t = inl (n, p', t') ->
  exists ph, phase_of t' = Some ph /\
    (usable p' -> data <> [] -> in_phase (has_flag p' F_TRAILING) (hp_state p') ph = true).
Proof.
  intros Hfed Hex. destruct data as [|c data].
  - destruct (fed_execute strict record_settings _ [] eq_refl p t [] n p' t' Hfed Hex) as (ph & ?).
    by exists ph.
  - assert (Hfed' : fed strict record_settings [] p' t') by by apply (fed_data _ _ _ p t (c :: data) n).
    destruct (fed_app_ok strict record_settings _ [] eq_refl p' t' Hfed') as [(ph0 & ? & _) Happ].
    destruct (decide (usable p')) as [Hu|Hu]; [|by exists ph0].
    destruct (Happ Hu) as (ph & Hph & Hin). exists ph. split; [done|]. by intros _ _.
Qed.

Definition chunked_request : list Z :=
  bytes "POST /a HTTP/1.1" ++ [CR; LF] ++ bytes "Transfer-Encoding: chunked" ++ [CR; LF; CR; LF]
  ++ bytes "2" ++ [CR; LF] ++ bytes "ab" ++ [CR; LF] ++ bytes "0" ++ [CR; LF] ++ bytes "T: x" ++ [CR; LF; CR; LF].

Lemma callback_order_witness :
  exists n p t, http_parser_execute true record_settings chunked_request (http_parser_init HTTP_REQUEST) [] = inl (n, p, t)
  /\ n = zlen chunked_request /\ length t = 13%nat
  /\ exists ph, phase_of t = Some ph /\
    (usable p -> chunked_request <> [] -> in_phase (has_flag p F_TRAILING) (hp_state p) ph = true).
Proof.
  do 3 eexists. split; [vm_compute; reflexivity|]. split; [reflexivity|]. split; [reflexivity|].
  eapply (callback_order true (http_parser_init HTTP_REQUEST) [] chunked_request).
  - apply fed_init.
  - vm_compute. reflexivity.
Defined.
