(* ===== verification/Multipart.v ===== *)
(** * Multipart: multipart_parser_execute

    The incremental parser of multipart bodies ([multipart_parser.c]).  The
    struct is opaque to the application, whose object behind [p->data] is the
    parameter [U]; a callback may change that object and refuses the input with a
    non-zero result.  [NULL] callbacks are [None].  A byte of the look-behind
    buffer that was never written is [None]. *)
From S2P Require Import Prelude Control.

(** ** Data *)

Inductive state :=
  | s_uninitialized | s_start | s_start_boundary | s_header_field_start
  | s_header_field | s_headers_almost_done | s_header_value_start
  | s_header_value | s_header_value_almost_done | s_part_data_start
  | s_part_data | s_part_data_almost_boundary | s_part_data_boundary
  | s_part_data_almost_end | s_part_data_end | s_part_data_final_hyphen
  | s_end.

#[export] Instance state_eq_dec : EqDecision state.
Proof. solve_decision. Defined.

Definition multipart_data_cb (U : Type) : Type := U -> list Z -> Z * U.
Definition multipart_notify_cb (U : Type) : Type := U -> Z * U.

Record multipart_parser_settings (U : Type) := mk_settings {
  on_header_field : option (multipart_data_cb U);
  on_header_value : option (multipart_data_cb U);
  on_part_data : option (multipart_data_cb U);
  on_part_data_begin : option (multipart_notify_cb U);
  on_headers_complete : option (multipart_notify_cb U);
  on_part_data_end : option (multipart_notify_cb U);
  on_body_end : option (multipart_notify_cb U);
}.
Arguments on_header_field {U}.
Arguments on_header_value {U}.
Arguments on_part_data {U}.
Arguments on_part_data_begin {U}.
Arguments on_headers_complete {U}.
Arguments on_part_data_end {U}.
Arguments on_body_end {U}.

(** struct multipart_parser; [mp_boundary] is the string in
    [multipart_boundary], without its NUL. *)
Record multipart_parser := mk_mp {
  mp_index : Z;
  mp_boundary_length : Z;
  mp_state : state;
  mp_lookbehind : list (option Z);
  mp_boundary : list Z;
}.

(** The allocation leaves [strlen(boundary) + 9] bytes or more (there may be
    padding) behind the NUL of the boundary. *)
Definition multipart_parser_init (boundary : list Z) : multipart_parser :=
  mk_mp 0 (zlen boundary) s_start (replicate (length boundary + 9) None) boundary.

Definition multipart_parser_set_data {U} (c : multipart_parser * U) (d : U)
  : multipart_parser * U := (c.1, d).
Definition multipart_parser_get_data {U} (c : multipart_parser * U) : U := c.2.

(** [tolower] in the C locale. *)
Definition tolower (c : Z) : Z :=
  if (65 <=? c) && (c <=? 90) then c + 32 else c.

(** ** Local variables of multipart_parser_execute *)

Record ctx (U : Type) := mk_ctx {
  mp : multipart_parser;
  app : U;
  i : Z;
  mark : Z;
}.
Arguments mk_ctx {U}.
Arguments mp {U}.
Arguments app {U}.
Arguments i {U}.
Arguments mark {U}.

Inductive jump :=
  | JReturn (n : Z)
  | JFault (f : fault).

Section Execute.
Context {U : Type}.
Variable settings : multipart_parser_settings U.
Variable buf : list Z.

Abbreviation M := (Ctl jump (ctx U)).

Definition len : Z := zlen buf.

Definition set_mp (p : multipart_parser) (c : ctx U) : ctx U :=
  mk_ctx p (app c) (i c) (mark c).
Definition updp (f : multipart_parser -> multipart_parser) : M unit :=
  modify (fun c => set_mp (f (mp c)) c).
Definition set_state (s : state) : M unit :=
  updp (fun p => mk_mp (mp_index p) (mp_boundary_length p) s (mp_lookbehind p)
                   (mp_boundary p)).
Definition set_index (f : Z -> Z) : M unit :=
  updp (fun p => mk_mp (uwrap 64 (f (mp_index p))) (mp_boundary_length p)
                   (mp_state p) (mp_lookbehind p) (mp_boundary p)).
Definition set_i (f : Z -> Z) : M unit :=
  modify (fun c => mk_ctx (mp c) (app c) (uwrap 64 (f (i c))) (mark c)).
Definition set_mark (v : Z) : M unit :=
  modify (fun c => mk_ctx (mp c) (app c) (i c) v).

(** [return i] *)
Definition return_i {A} : M A := n ← gets i; exit (JReturn n).

(** [p->lookbehind[k] = v] *)
Definition set_lookbehind (k v : Z) : M unit :=
  p ← gets mp;
  if (0 <=? k) && (k <? zlen (mp_lookbehind p)) then
    updp (fun p => mk_mp (mp_index p) (mp_boundary_length p) (mp_state p)
                     (<[Z.to_nat k := Some v]> (mp_lookbehind p)) (mp_boundary p))
  else exit (JFault OutOfBounds).

(** [p->multipart_boundary[k]]: the NUL is part of the array. *)
Definition boundary_at (k : Z) : M Z :=
  p ← gets mp;
  match zlookup (mp_boundary p ++ [0]) k with
  | Some x => mret x
  | None => exit (JFault OutOfBounds)
  end.

(** The macros [NOTIFY_CB] and [EMIT_DATA_CB]. *)
Definition run_cb (f : U -> Z * U) : M unit :=
  u ← gets app;
  let '(r, u') := f u in
  modify (fun c => mk_ctx (mp c) u' (i c) (mark c));;
  when (negb (r =? 0)) return_i.

Definition NOTIFY_CB (cb : option (multipart_notify_cb U)) : M unit :=
  match cb with
  | None => mret tt
  | Some f => run_cb f
  end.

(** [EMIT_DATA_CB(FOR, buf + off, n)] *)
Definition EMIT_DATA_CB (cb : option (multipart_data_cb U)) (off n : Z) : M unit :=
  match cb with
  | None => mret tt
  | Some f =>
      if (0 <=? off) && (0 <=? n) && (off + n <=? len) then
        run_cb (fun u => f u (slice buf off n))
      else exit (JFault OutOfBounds)
  end.

(** [EMIT_DATA_CB(part_data, p->lookbehind, n)] *)
Definition EMIT_lookbehind (n : Z) : M unit :=
  p ← gets mp;
  match on_part_data settings with
  | None => mret tt
  | Some f =>
      if n <=? zlen (mp_lookbehind p) then
        match mapM (fun x => x) (take (Z.to_nat n) (mp_lookbehind p)) with
        | Some d => run_cb (fun u => f u d)
        | None => exit (JFault OutOfBounds)
        end
      else exit (JFault OutOfBounds)
  end.

(** *** The cases of the switch *)

Definition case_s_start_boundary (c : Z) : M unit :=
  p ← gets mp;
  if mp_index p =? mp_boundary_length p then
    if negb (c =? CR) then return_i
    else set_index (fun k => k + 1)
  else if mp_index p =? uwrap 64 (mp_boundary_length p + 1) then
    if negb (c =? LF) then return_i else
    set_index (fun _ => 0);;
    NOTIFY_CB (on_part_data_begin settings);;
    set_state s_header_field_start
  else
    x ← boundary_at (mp_index p);
    if negb (c =? x) then return_i
    else set_index (fun k => k + 1).

Definition case_s_start (c : Z) : M unit :=
  set_index (fun _ => 0);;
  set_state s_start_boundary;;
  case_s_start_boundary c.

Definition case_s_header_field (c : Z) (is_last : bool) : M unit :=
  k ← gets i;
  m ← gets mark;
  if c =? CR then set_state s_headers_almost_done
  else if c =? chr ":" then
    EMIT_DATA_CB (on_header_field settings) m (k - m);;
    set_state s_header_value_start
  else
    let cl := tolower c in
    if negb (c =? chr "-") && ((cl <? chr "a") || (chr "z" <? cl)) then return_i
    else when is_last (EMIT_DATA_CB (on_header_field settings) m (k - m + 1)).

Definition case_s_header_field_start (c : Z) (is_last : bool) : M unit :=
  k ← gets i;
  set_mark k;;
  set_state s_header_field;;
  case_s_header_field c is_last.

Definition case_s_headers_almost_done (c : Z) : M unit :=
  if negb (c =? LF) then return_i else set_state s_part_data_start.

Definition case_s_header_value (c : Z) (is_last : bool) : M unit :=
  k ← gets i;
  m ← gets mark;
  if c =? CR then
    EMIT_DATA_CB (on_header_value settings) m (k - m);;
    set_state s_header_value_almost_done
  else when is_last (EMIT_DATA_CB (on_header_value settings) m (k - m + 1)).

Definition case_s_header_value_start (c : Z) (is_last : bool) : M unit :=
  if c =? chr " " then mret tt else
  k ← gets i;
  set_mark k;;
  set_state s_header_value;;
  case_s_header_value c is_last.

Definition case_s_header_value_almost_done (c : Z) : M unit :=
  if negb (c =? LF) then return_i else set_state s_header_field_start.

Definition case_s_part_data (c : Z) (is_last : bool) : M unit :=
  k ← gets i;
  m ← gets mark;
  if c =? CR then
    EMIT_DATA_CB (on_part_data settings) m (k - m);;
    set_mark k;;
    set_state s_part_data_almost_boundary;;
    set_lookbehind 0 CR
  else when is_last (EMIT_DATA_CB (on_part_data settings) m (k - m + 1)).

Definition case_s_part_data_start (c : Z) (is_last : bool) : M unit :=
  NOTIFY_CB (on_headers_complete settings);;
  k ← gets i;
  set_mark k;;
  set_state s_part_data;;
  case_s_part_data c is_last.

(** [p->state = s_part_data; mark = i --;] *)
Definition back_to_data : M unit :=
  set_state s_part_data;;
  k ← gets i;
  set_mark k;;
  set_i (fun k => k - 1).

Definition case_s_part_data_almost_boundary (c : Z) : M unit :=
  if c =? LF then
    set_state s_part_data_boundary;;
    set_lookbehind 1 LF;;
    set_index (fun _ => 0)
  else
    EMIT_lookbehind 1;;
    back_to_data.

Definition case_s_part_data_boundary (c : Z) : M unit :=
  p ← gets mp;
  x ← boundary_at (mp_index p);
  if negb (x =? c) then
    EMIT_lookbehind (2 + mp_index p);;
    back_to_data
  else
    set_lookbehind (2 + mp_index p) c;;
    set_index (fun k => k + 1);;
    p ← gets mp;
    when (mp_index p =? mp_boundary_length p)
      (NOTIFY_CB (on_part_data_end settings);;
       set_state s_part_data_almost_end).

Definition case_s_part_data_almost_end (c : Z) : M unit :=
  if c =? chr "-" then set_state s_part_data_final_hyphen
  else if c =? CR then set_state s_part_data_end
  else return_i.

Definition case_s_part_data_final_hyphen (c : Z) : M unit :=
  if c =? chr "-" then
    NOTIFY_CB (on_body_end settings);;
    set_state s_end
  else return_i.

Definition case_s_part_data_end (c : Z) : M unit :=
  if c =? LF then
    set_state s_header_field_start;;
    NOTIFY_CB (on_part_data_begin settings)
  else return_i.

Definition dispatch (c : Z) (is_last : bool) : M unit :=
  p ← gets mp;
  match mp_state p with
  | s_start => case_s_start c
  | s_start_boundary => case_s_start_boundary c
  | s_header_field_start => case_s_header_field_start c is_last
  | s_header_field => case_s_header_field c is_last
  | s_headers_almost_done => case_s_headers_almost_done c
  | s_header_value_start => case_s_header_value_start c is_last
  | s_header_value => case_s_header_value c is_last
  | s_header_value_almost_done => case_s_header_value_almost_done c
  | s_part_data_start => case_s_part_data_start c is_last
  | s_part_data => case_s_part_data c is_last
  | s_part_data_almost_boundary => case_s_part_data_almost_boundary c
  | s_part_data_boundary => case_s_part_data_boundary c
  | s_part_data_almost_end => case_s_part_data_almost_end c
  | s_part_data_final_hyphen => case_s_part_data_final_hyphen c
  | s_part_data_end => case_s_part_data_end c
  | s_end => mret tt
  | s_uninitialized => exit (JReturn 0)
  end.

(** [while(i < len)] *)
Fixpoint main_loop (fuel : nat) : M unit :=
  match fuel with
  | O => exit (JFault OutOfFuel)
  | S fuel' =>
      k ← gets i;
      if k <? len then
        match zlookup buf k with
        | None => exit (JFault OutOfBounds)
        | Some c =>
            dispatch c (k =? uwrap 64 (len - 1));;
            set_i (fun k => k + 1);;
            main_loop fuel'
        end
      else mret tt
  end.

(** The fuel: a byte is dispatched at most twice. *)
Definition multipart_parser_execute (p : multipart_parser) (u : U)
  : (Z * multipart_parser * U) + fault :=
  match main_loop (2 * length buf + 2) (mk_ctx p u 0 0) with
  | inl (_, c) => inl (len, mp c, app c)
  | inr (JReturn n, c) => inl (n, mp c, app c)
  | inr (JFault f, _) => inr f
  end.

End Execute.
