(* ===== verification/MultipartSafety.v ===== *)
(** * MultipartSafety: the invariant of multipart_parser_execute

    Totality and memory safety: every access to the boundary and to the
    look-behind buffer is in range, no byte of the look-behind buffer is emitted
    before it was written, and the loop, which may step back by one byte,
    terminates. *)
From S2P Require Import Prelude Control Multipart.

(** ** The invariant *)

Definition state_ok (p : multipart_parser) : Prop :=
  match mp_state p with
  | s_start_boundary => mp_index p <= zlen (mp_boundary p) + 1
  | s_part_data_almost_boundary =>
      take 1 (mp_lookbehind p) = [Some CR]
  | s_part_data_boundary =>
      mp_index p < zlen (mp_boundary p) /\
      take (Z.to_nat (2 + mp_index p)) (mp_lookbehind p)
      = Some <$> (CR :: LF :: take (Z.to_nat (mp_index p)) (mp_boundary p))
  | s_uninitialized => False
  | _ => True
  end.

Record mp_ok (p : multipart_parser) : Prop := {
  ok_length : mp_boundary_length p = zlen (mp_boundary p);
  ok_boundary : 0 < zlen (mp_boundary p) < 2 ^ 62;
  ok_lookbehind : zlen (mp_lookbehind p) = zlen (mp_boundary p) + 9;
  ok_index : 0 <= mp_index p < 2 ^ 64;
  ok_state : state_ok p;
}.

(** The parsers an application can hold: initialised with a non-empty boundary
    and fed buffers that were all accepted. *)
Inductive reachable {U} (settings : multipart_parser_settings U)
  : multipart_parser -> Prop :=
  | reach_init boundary :
      0 < zlen boundary < 2 ^ 62 ->
      reachable settings (multipart_parser_init boundary)
  | reach_execute p u buf p' u' :
      reachable settings p -> zlen buf < 2 ^ 64 ->
      multipart_parser_execute settings buf p u = inl (zlen buf, p', u') ->
      reachable settings p'.

(** ** Lemmas *)

Lemma mapM_id_Some (d : list Z) : mapM (fun x => x) (Some <$> d) = Some d.
Proof. apply mapM_Some. induction d; by constructor. Qed.

Section Safety.
Context {U : Type} (settings : multipart_parser_settings U) (buf : list Z).
Abbreviation M := (Ctl jump (ctx U)).
Abbreviation l := (zlen buf).
Implicit Types (c : ctx U) (p : multipart_parser).

Definition exit_ok (j : jump) (c : ctx U) : Prop :=
  match j with
  | JReturn n => 0 <= n < l
  | JFault _ => False
  end.

(** After the dispatch of the byte at [k] in state [s], the loop goes on with the
    next byte, or with the same one in [s_part_data]. *)
Definition post_ok (k : Z) (s : state) (c : ctx U) : Prop :=
  mp_ok (mp c) /\ 0 <= mark c <= uwrap 64 (i c + 1) /\
  (uwrap 64 (i c + 1) = k + 1 \/
   uwrap 64 (i c + 1) = k /\ mp_state (mp c) = s_part_data /\ s <> s_part_data).

Ltac mp_simp :=
  cbn [mp app i mark set_mp mp_index mp_boundary_length mp_state mp_lookbehind
       mp_boundary] in *.

Lemma wp_return_i {A} c (Q : A -> ctx U -> Prop) :
  0 <= i c < l -> wp return_i c Q exit_ok.
Proof using. intros. by apply wp_bind, wp_gets, wp_exit. Qed.

Lemma mp_wp_run_cb f c (Q : unit -> ctx U -> Prop) :
  0 <= i c < l -> (forall u, Q tt (mk_ctx (mp c) u (i c) (mark c))) ->
  wp (run_cb f) c Q exit_ok.
Proof using.
  intros Hi HQ. unfold run_cb. apply wp_bind, wp_gets. destruct (f (app c)) as [r u'].
  apply wp_bind, wp_modify, wp_when; intros _; [by apply wp_return_i | apply HQ].
Qed.

Lemma wp_NOTIFY_CB cb c (Q : unit -> ctx U -> Prop) :
  0 <= i c < l -> (forall u, Q tt (mk_ctx (mp c) u (i c) (mark c))) ->
  wp (NOTIFY_CB cb) c Q exit_ok.
Proof using.
  intros Hi HQ. destruct cb as [f|]; [by apply mp_wp_run_cb|].
  apply wp_ret. specialize (HQ (app c)). by destruct c.
Qed.

Lemma wp_EMIT cb off n c (Q : unit -> ctx U -> Prop) :
  0 <= i c < l -> 0 <= off -> 0 <= n -> off + n <= l ->
  (forall u, Q tt (mk_ctx (mp c) u (i c) (mark c))) ->
  wp (EMIT_DATA_CB buf cb off n) c Q exit_ok.
Proof using.
  intros Hi Ho Hn Hl HQ. destruct cb as [f|]; simpl.
  - unfold len. rewrite !(proj2 (Z.leb_le _ _)) by lia. by apply mp_wp_run_cb.
  - apply wp_ret. specialize (HQ (app c)). by destruct c.
Qed.

Lemma wp_EMIT_lookbehind n d c (Q : unit -> ctx U -> Prop) :
  0 <= i c < l -> n <= zlen (mp_lookbehind (mp c)) ->
  take (Z.to_nat n) (mp_lookbehind (mp c)) = Some <$> d ->
  (forall u, Q tt (mk_ctx (mp c) u (i c) (mark c))) ->
  wp (EMIT_lookbehind settings n) c Q exit_ok.
Proof using.
  intros Hi Hn Hd HQ. unfold EMIT_lookbehind. apply wp_bind, wp_gets.
  destruct (on_part_data settings) as [f|].
  - rewrite (proj2 (Z.leb_le _ _)) by lia. rewrite Hd.
    rewrite mapM_id_Some. by apply mp_wp_run_cb.
  - apply wp_ret. specialize (HQ (app c)). by destruct c.
Qed.

Lemma wp_set_lookbehind k v c (Q : unit -> ctx U -> Prop) E :
  0 <= k < zlen (mp_lookbehind (mp c)) ->
  Q tt (set_mp (mk_mp (mp_index (mp c)) (mp_boundary_length (mp c)) (mp_state (mp c))
     (<[Z.to_nat k := Some v]> (mp_lookbehind (mp c))) (mp_boundary (mp c))) c) ->
  wp (set_lookbehind k v) c Q E.
Proof using.
  intros Hk HQ. unfold set_lookbehind. apply wp_bind, wp_gets.
  rewrite (proj2 (Z.leb_le _ _)), (proj2 (Z.ltb_lt _ _)) by lia. by apply wp_modify.
Qed.

Lemma wp_boundary_at k c (Q : Z -> ctx U -> Prop) E :
  0 <= k <= zlen (mp_boundary (mp c)) ->
  (forall x, zlookup (mp_boundary (mp c) ++ [0]) k = Some x -> Q x c) ->
  wp (boundary_at k) c Q E.
Proof using.
  intros Hk HQ. unfold boundary_at. apply wp_bind, wp_gets.
  destruct (zlookup_Some (mp_boundary (mp c) ++ [0]) k) as [x Hx].
  { rewrite zlen_app. change (zlen [0]) with 1. lia. }
  rewrite Hx. apply wp_ret. auto.
Qed.

Lemma mp_wp_updp f c (Q : unit -> ctx U -> Prop) E :
  Q tt (set_mp (f (mp c)) c) -> wp (updp f) c Q E.
Proof using. intros. by apply wp_modify. Qed.

(** One more byte of the boundary has been matched and remembered. *)
Lemma extend_match b lb k (x : Z) :
  0 <= k < zlen b -> zlen lb = zlen b + 9 -> zlookup (b ++ [0]) k = Some x ->
  take (Z.to_nat (2 + k)) lb = Some <$> (CR :: LF :: take (Z.to_nat k) b) ->
  take (Z.to_nat (2 + (k + 1))) (<[Z.to_nat (2 + k) := Some x]> lb)
  = Some <$> (CR :: LF :: take (Z.to_nat (k + 1)) b).
Proof using.
  intros Hk Hlb Hx Htake.
  replace (Z.to_nat (2 + (k + 1))) with (S (Z.to_nat (2 + k))) by lia.
  replace (Z.to_nat (k + 1)) with (S (Z.to_nat k)) by lia.
  rewrite take_insert_snoc, Htake by (unfold zlen in *; lia).
  unfold zlookup in Hx. rewrite (proj2 (Z.ltb_ge k 0)) in Hx by lia.
  rewrite lookup_app_l in Hx by (unfold zlen in *; lia).
  rewrite (take_S_r _ _ _ Hx), !fmap_cons, fmap_app. done.
Qed.

Ltac mp_step :=
  lazymatch goal with
  | |- wp (_ ≫= _) _ _ _ => apply wp_bind
  | |- wp (mret _) _ _ _ => apply wp_ret
  | |- wp (gets _) _ _ _ => apply wp_gets
  | |- wp (if _ then _ else _) _ _ _ => apply wp_if; intros ?
  | |- wp (when _ _) _ _ _ => apply wp_when; intros ?
  | |- wp return_i _ _ _ => apply wp_return_i
  | |- wp (NOTIFY_CB _) _ _ _ => apply wp_NOTIFY_CB; [| intros ?]
  | |- wp (EMIT_DATA_CB _ _ _ _) _ _ _ => apply wp_EMIT; [| | | | intros ?]
  | |- wp (set_lookbehind _ _) _ _ _ => apply wp_set_lookbehind
  | |- wp (boundary_at _) _ _ _ => apply wp_boundary_at; [| intros ? ?]
  | |- wp (set_state _) _ _ _ => apply mp_wp_updp
  | |- wp (set_index _) _ _ _ => apply mp_wp_updp
  | |- wp (set_mark _) _ _ _ => apply wp_modify
  | |- wp (set_i _) _ _ _ => apply wp_modify
  end; mp_simp.

Definition case_ok (m : M unit) (c : ctx U) : Prop :=
  mp_ok (mp c) -> 0 <= mark c <= i c -> i c < l < 2 ^ 64 ->
  wp m c (fun _ => post_ok (i c) (mp_state (mp c))) exit_ok.

Ltac mp_case :=
  intros [Hl Hb Hlb Hk Hst] Hm Hi;
  match goal with c : ctx U |- _ => destruct c as [[k n s lb b] u j m] end;
  unfold state_ok in Hst; mp_simp; subst.

Ltac mp_fin :=
  destr_bool;
  repeat match goal with
  | H : context [uwrap 64 _] |- _ => rewrite (uwrap_small 64) in H by lia
  end;
  repeat match goal with
  | |- post_ok _ _ _ => unfold post_ok; mp_simp; rewrite ?(uwrap_small 64) by lia;
      split; [constructor | split; [|try (left; lia)]]; unfold state_ok; mp_simp
  end;
  rewrite ?zlen_insert; try done; try lia.

Lemma take_insert_0 (lb : list (option Z)) x :
  0 < zlen lb -> take 1 (<[Z.to_nat 0 := x]> lb) = [x].
Proof using. intros. rewrite take_insert_snoc; [done|]. unfold zlen in *. lia. Qed.

Ltac mp_auto := mp_case; repeat mp_step; mp_fin.

Lemma mp_ok_s_start_boundary c ch :
  mp_state (mp c) = s_start_boundary -> case_ok (case_s_start_boundary settings ch) c.
Proof using. intros ?. unfold case_s_start_boundary. mp_auto. Qed.

Lemma mp_ok_s_start c ch : mp_state (mp c) = s_start -> case_ok (case_s_start settings ch) c.
Proof using.
  intros ?. unfold case_s_start, case_s_start_boundary. mp_case. do 4 mp_step.
  change (uwrap 64 0) with 0. repeat mp_step; mp_fin.
Qed.

Lemma mp_ok_s_header_field c ch last :
  mp_state (mp c) = s_header_field -> case_ok (case_s_header_field settings buf ch last) c.
Proof using. intros ?. unfold case_s_header_field. mp_auto. Qed.

Lemma mp_ok_s_header_field_start c ch last :
  mp_state (mp c) = s_header_field_start -> case_ok (case_s_header_field_start settings buf ch last) c.
Proof using. intros ?. unfold case_s_header_field_start, case_s_header_field. mp_auto. Qed.

Lemma mp_ok_s_headers_almost_done c ch :
  mp_state (mp c) = s_headers_almost_done -> case_ok (case_s_headers_almost_done ch) c.
Proof using. intros ?. unfold case_s_headers_almost_done. mp_auto. Qed.

Lemma mp_ok_s_header_value c ch last :
  mp_state (mp c) = s_header_value -> case_ok (case_s_header_value settings buf ch last) c.
Proof using. intros ?. unfold case_s_header_value. mp_auto. Qed.

Lemma mp_ok_s_header_value_start c ch last :
  mp_state (mp c) = s_header_value_start -> case_ok (case_s_header_value_start settings buf ch last) c.
Proof using. intros ?. unfold case_s_header_value_start, case_s_header_value. mp_auto. Qed.

Lemma mp_ok_s_header_value_almost_done c ch :
  mp_state (mp c) = s_header_value_almost_done -> case_ok (case_s_header_value_almost_done ch) c.
Proof using. intros ?. unfold case_s_header_value_almost_done. mp_auto. Qed.

Lemma mp_ok_s_part_data c ch last :
  mp_state (mp c) = s_part_data -> case_ok (case_s_part_data settings buf ch last) c.
Proof using. intros ?. unfold case_s_part_data. mp_auto. apply take_insert_0; lia. Qed.

Lemma mp_ok_s_part_data_start c ch last :
  mp_state (mp c) = s_part_data_start -> case_ok (case_s_part_data_start settings buf ch last) c.
Proof using. intros ?. unfold case_s_part_data_start, case_s_part_data. mp_auto. apply take_insert_0; lia. Qed.

Lemma wp_back_to_data c s :
  s <> s_part_data ->
  mp_boundary_length (mp c) = zlen (mp_boundary (mp c)) ->
  0 < zlen (mp_boundary (mp c)) < 2 ^ 62 ->
  zlen (mp_lookbehind (mp c)) = zlen (mp_boundary (mp c)) + 9 ->
  0 <= mp_index (mp c) < 2 ^ 64 -> 0 <= i c < l -> l < 2 ^ 64 ->
  wp back_to_data c (fun _ => post_ok (i c) s) exit_ok.
Proof using.
  intros. unfold back_to_data. repeat mp_step. unfold post_ok. mp_simp.
  rewrite uwrap_pred_succ by lia. split; [by constructor|]. split; [lia|]. by right.
Qed.

Lemma mp_ok_s_part_data_almost_boundary c ch :
  mp_state (mp c) = s_part_data_almost_boundary ->
  case_ok (case_s_part_data_almost_boundary settings ch) c.
Proof using.
  intros ?. unfold case_s_part_data_almost_boundary. mp_case. mp_step.
  - repeat mp_step; mp_fin. split; [lia|].
    change (Z.to_nat (2 + 0)) with 2%nat. change (Z.to_nat 1) with 1%nat.
    rewrite take_insert_snoc by (unfold zlen in *; lia). by rewrite Hst.
  - mp_step. apply wp_EMIT_lookbehind with (d := [CR]); mp_simp; try lia; [done|].
    intros u'. by apply (wp_back_to_data (mk_ctx _ u' j m)); mp_simp; lia || done.
Qed.

Lemma mp_ok_s_part_data_boundary c ch :
  mp_state (mp c) = s_part_data_boundary ->
  case_ok (case_s_part_data_boundary settings ch) c.
Proof using.
  intros ?. unfold case_s_part_data_boundary. mp_case. destruct Hst as [Hkb Htake].
  repeat lazymatch goal with
  | |- wp (EMIT_lookbehind _ _) _ _ _ => fail
  | _ => mp_step
  end; try lia.
  - eapply wp_EMIT_lookbehind; mp_simp; [lia|lia|exact Htake|].
    intros u'. by apply (wp_back_to_data (mk_ctx _ u' j m)); mp_simp; lia || done.
  - mp_fin.
  - mp_fin. subst. split; [lia|]. by apply extend_match; try lia.
Qed.

Lemma mp_ok_s_part_data_almost_end c ch :
  mp_state (mp c) = s_part_data_almost_end -> case_ok (case_s_part_data_almost_end ch) c.
Proof using. intros ?. unfold case_s_part_data_almost_end. mp_auto. Qed.

Lemma mp_ok_s_part_data_final_hyphen c ch :
  mp_state (mp c) = s_part_data_final_hyphen -> case_ok (case_s_part_data_final_hyphen settings ch) c.
Proof using. intros ?. unfold case_s_part_data_final_hyphen. mp_auto. Qed.

Lemma mp_ok_s_part_data_end c ch :
  mp_state (mp c) = s_part_data_end -> case_ok (case_s_part_data_end settings ch) c.
Proof using. intros ?. unfold case_s_part_data_end. mp_auto. Qed.

Lemma mp_dispatch_ok c ch last : case_ok (dispatch settings buf ch last) c.
Proof using.
  intros Hok Hm Hi. unfold dispatch. apply wp_bind, wp_gets.
  destruct (mp_state (mp c)) eqn:Hs; rewrite <-Hs.
  - destruct Hok as [_ _ _ _ Hst]. unfold state_ok in Hst. by rewrite Hs in Hst.
  - by apply mp_ok_s_start.
  - by apply mp_ok_s_start_boundary.
  - by apply mp_ok_s_header_field_start.
  - by apply mp_ok_s_header_field.
  - by apply mp_ok_s_headers_almost_done.
  - by apply mp_ok_s_header_value_start.
  - by apply mp_ok_s_header_value.
  - by apply mp_ok_s_header_value_almost_done.
  - by apply mp_ok_s_part_data_start.
  - by apply mp_ok_s_part_data.
  - by apply mp_ok_s_part_data_almost_boundary.
  - by apply mp_ok_s_part_data_boundary.
  - by apply mp_ok_s_part_data_almost_end.
  - by apply mp_ok_s_part_data_end.
  - by apply mp_ok_s_part_data_final_hyphen.
  - apply wp_ret. unfold post_ok. rewrite uwrap_small by lia.
    split; [done|]. split; [lia|by left].
Qed.

(** What is left of the loop: two turns for a byte that may be given back. *)
Definition turns (c : ctx U) : Z :=
  2 * (l - i c) + (if decide (mp_state (mp c) = s_part_data) then 0 else 1).

Lemma mp_main_loop_ok fuel : forall c,
  mp_ok (mp c) -> 0 <= mark c <= i c -> i c <= l < 2 ^ 64 -> turns c <= Z.of_nat fuel ->
  wp (main_loop settings buf (S fuel)) c (fun _ c' => mp_ok (mp c')) exit_ok.
Proof using.
  induction fuel as [|fuel IH]; intros c Hok Hm Hi Hf; cbn [main_loop];
    apply wp_bind, wp_gets, wp_if; intros Hlt; try (by apply wp_ret); destr_bool; unfold len in Hlt;
    unfold turns in Hf.
  - case_decide; lia.
  - destruct (zlookup_Some buf (i c)) as [ch Hch]; [lia|]. rewrite Hch.
    apply wp_bind. eapply wp_mono; [| |apply mp_dispatch_ok; [done|lia|lia]]; [|done].
    intros [] c' (Hok' & Hm' & Hk). apply wp_bind, wp_modify.
    apply IH; cbn [mp i mark]; [done|done|lia|].
    unfold turns. cbn [mp i mark]. destruct Hk as [Hk|(Hk & Hs' & Hs)]; rewrite Hk.
    + case_decide; case_decide; lia.
    + rewrite decide_True by done. rewrite decide_False in Hf by done. lia.
Qed.

(** A call returns; the result is the length of the buffer exactly when nothing
    was refused, and then the parser can go on. *)
Lemma mp_execute_total p u :
  mp_ok p -> l < 2 ^ 64 ->
  exists n p' u', multipart_parser_execute settings buf p u = inl (n, p', u') /\
    0 <= n <= l /\ (n = l -> mp_ok p').
Proof using.
  intros Hok Hl. pose proof (zlen_nonneg buf).
  pose proof (mp_main_loop_ok (2 * length buf + 1) (mk_ctx p u 0 0) Hok ltac:(simpl; lia)
    ltac:(simpl; lia)) as Hwp. unfold turns in Hwp. cbn [i mp] in Hwp.
  specialize (Hwp ltac:(case_decide; unfold zlen; lia)).
  unfold multipart_parser_execute. replace (2 * length buf + 2)%nat with (S (2 * length buf + 1)) by lia.
  with_strategy transparent [wp] unfold wp in Hwp.
  destruct (main_loop _ _ _ _) as [[[] c]|[[n|f] c]].
  - exists l, (mp c), (app c). split; [done|]. split; [unfold len in *; lia|done].
  - exists n, (mp c), (app c). split; [done|]. simpl in Hwp. split; [lia|]. intros ->. lia.
  - done.
Qed.

End Safety.

Lemma mp_init_ok boundary : 0 < zlen boundary < 2 ^ 62 -> mp_ok (multipart_parser_init boundary).
Proof.
  intros Hb. split; unfold multipart_parser_init; simpl; try done; try lia.
  unfold zlen in *. rewrite length_replicate. lia.
Qed.

Lemma mp_reachable_ok {U} (st : multipart_parser_settings U) p : reachable st p -> mp_ok p.
Proof.
  induction 1 as [b Hb|p u buf p' u' Hp IH Hl Hex]; [by apply mp_init_ok|].
  destruct (mp_execute_total st buf p u IH Hl) as (n & q & u1 & Heq & _ & Hok).
  rewrite Hex in Heq. simplify_eq. auto.
Qed.

(** ** What an application keeps under multipart_parser_execute

    A property of the application object that every callback preserves is preserved by a
    whole call, whatever the buffer holds. *)

Class Preserves {U} (settings : multipart_parser_settings U) (P : U -> Prop) : Prop := {
  pres_header_field f u d : on_header_field settings = Some f -> P u -> P (f u d).2;
  pres_header_value f u d : on_header_value settings = Some f -> P u -> P (f u d).2;
  pres_part_data f u d : on_part_data settings = Some f -> P u -> P (f u d).2;
  pres_part_data_begin f u : on_part_data_begin settings = Some f -> P u -> P (f u).2;
  pres_headers_complete f u : on_headers_complete settings = Some f -> P u -> P (f u).2;
  pres_part_data_end f u : on_part_data_end settings = Some f -> P u -> P (f u).2;
  pres_body_end f u : on_body_end settings = Some f -> P u -> P (f u).2;
}.

Section App.
Context {U : Type} (settings : multipart_parser_settings U) (P : U -> Prop).
Context `{!Preserves settings P}.
Variable buf : list Z.
Abbreviation M := (Ctl jump (ctx U)).

(** [m] keeps the property, however it ends. *)
Definition keeps (m : M unit) : Prop :=
  forall c, P (app c) -> wp m c (fun _ c' => P (app c')) (fun _ c' => P (app c')).

Lemma keeps_bind {A} (m : M A) (k : A -> M unit) c :
  wp m c (fun _ c' => P (app c')) (fun _ c' => P (app c')) -> (forall a, keeps (k a)) ->
  wp (m ≫= k) c (fun _ c' => P (app c')) (fun _ c' => P (app c')).
Proof using. intros Hm Hk. apply wp_bind. eapply wp_mono; [| |exact Hm]; [|done]. intros a c' Hc'. by apply Hk. Qed.

Lemma keeps_run_cb f : (forall u, P u -> P (f u).2) -> keeps (run_cb f).
Proof using.
  intros Hf c Hc. unfold run_cb. apply wp_bind, wp_gets. specialize (Hf (app c) Hc).
  destruct (f (app c)) as [r u']. apply wp_bind, wp_modify, wp_when; intros _; [|done].
  by apply wp_bind, wp_gets, wp_exit.
Qed.

Lemma keeps_NOTIFY cb : (forall f u, cb = Some f -> P u -> P (f u).2) -> keeps (NOTIFY_CB cb).
Proof using.
  intros Hf. unfold NOTIFY_CB. destruct cb as [f|]; [|by intros c Hc; apply wp_ret].
  apply keeps_run_cb. eauto.
Qed.

Lemma keeps_EMIT cb off n : (forall f u d, cb = Some f -> P u -> P (f u d).2) -> keeps (EMIT_DATA_CB buf cb off n).
Proof using.
  intros Hf c Hc. unfold EMIT_DATA_CB. destruct cb as [f|]; [|by apply wp_ret].
  apply wp_if; intros _; [|by apply wp_exit]. apply keeps_run_cb; [|done]. eauto.
Qed.

Lemma keeps_lookbehind n : keeps (EMIT_lookbehind settings n).
Proof using All.
  intros c Hc. unfold EMIT_lookbehind. apply wp_bind, wp_gets.
  destruct (on_part_data settings) as [f|] eqn:Hf; [|by apply wp_ret].
  apply wp_if; intros _; [|by apply wp_exit]. case_match; [|by apply wp_exit].
  apply keeps_run_cb; [|done]. intros u. by apply pres_part_data.
Qed.

Lemma keeps_boundary_at k c :
  P (app c) -> wp (boundary_at k) c (fun _ c' => P (app c')) (fun _ c' => P (app c')).
Proof using.
  intros Hc. unfold boundary_at. apply wp_bind, wp_gets. case_match; [by apply wp_ret|by apply wp_exit].
Qed.

Ltac keep_step :=
  lazymatch goal with
  | |- wp (_ ≫= _) _ _ _ => apply keeps_bind; [|intros ? ? ?]
  | |- wp (mret _) _ _ _ => by apply wp_ret
  | |- wp (gets _) _ _ _ => by apply wp_gets
  | |- wp (if _ then _ else _) _ _ _ => apply wp_if; intros ?
  | |- wp (when _ _) _ _ _ => apply wp_when; intros ?; [|done]
  | |- wp (NOTIFY_CB (on_part_data_begin _)) _ _ _ => apply keeps_NOTIFY; [apply pres_part_data_begin|done]
  | |- wp (NOTIFY_CB (on_headers_complete _)) _ _ _ => apply keeps_NOTIFY; [apply pres_headers_complete|done]
  | |- wp (NOTIFY_CB (on_part_data_end _)) _ _ _ => apply keeps_NOTIFY; [apply pres_part_data_end|done]
  | |- wp (NOTIFY_CB (on_body_end _)) _ _ _ => apply keeps_NOTIFY; [apply pres_body_end|done]
  | |- wp (EMIT_DATA_CB _ (on_header_field _) _ _) _ _ _ => apply keeps_EMIT; [apply pres_header_field|done]
  | |- wp (EMIT_DATA_CB _ (on_header_value _) _ _) _ _ _ => apply keeps_EMIT; [apply pres_header_value|done]
  | |- wp (EMIT_DATA_CB _ (on_part_data _) _ _) _ _ _ => apply keeps_EMIT; [apply pres_part_data|done]
  | |- wp (EMIT_lookbehind _ _) _ _ _ => by apply keeps_lookbehind
  | |- wp (match ?x with _ => _ end) _ _ _ => destruct x
  | |- wp (boundary_at _) _ _ _ => by apply keeps_boundary_at
  | |- wp (exit _) _ _ _ => by apply wp_exit
  | |- wp (modify _) _ _ _ => by apply wp_modify
  | |- wp _ _ _ _ =>
      progress unfold return_i, set_state, set_index, set_i, set_mark, set_lookbehind,
        back_to_data, updp
  end.

Lemma keeps_dispatch ch is_last : keeps (dispatch settings buf ch is_last).
Proof using All.
  intros c Hc. unfold dispatch. apply keeps_bind; [by apply wp_gets|]. clear c Hc. intros p c Hc.
  destruct (mp_state p);
    unfold case_s_start, case_s_start_boundary, case_s_header_field_start, case_s_header_field,
      case_s_headers_almost_done, case_s_header_value_start, case_s_header_value,
      case_s_header_value_almost_done, case_s_part_data_start, case_s_part_data,
      case_s_part_data_almost_boundary, case_s_part_data_boundary, case_s_part_data_almost_end,
      case_s_part_data_final_hyphen, case_s_part_data_end;
    repeat keep_step.
Qed.

Lemma keeps_main_loop fuel : keeps (main_loop settings buf fuel).
Proof using All.
  induction fuel as [|fuel IH]; intros c Hc; cbn [main_loop]; [by apply wp_exit|].
  apply keeps_bind; [by apply wp_gets|]. clear c Hc. intros k c Hc.
  apply wp_if; intros _; [|by apply wp_ret].
  destruct (zlookup buf k) as [ch|]; [|by apply wp_exit].
  apply keeps_bind; [by apply keeps_dispatch|]. clear c Hc. intros [] c Hc.
  apply keeps_bind; [by apply wp_modify|]. intros []. apply IH.
Qed.

Lemma execute_preserves p u n p' u' :
  P u -> multipart_parser_execute settings buf p u = inl (n, p', u') -> P u'.
Proof using All.
  intros Hu Hex. pose proof (keeps_main_loop (2 * length buf + 2) (mk_ctx p u 0 0) Hu) as Hw.
  unfold multipart_parser_execute in Hex. with_strategy transparent [wp] unfold wp in Hw.
  destruct (main_loop _ _ _ _) as [[? c]|[[?|?] c]]; by simplify_eq.
Qed.

End App.
