(* ===== verification/MultipartSpec.v ===== *)
(** * MultipartSpec: what multipart_parser_execute computes

    An abstract machine that reads one byte at a time, has no buffers and no
    look-behind copy, and extends the trace of reports by the bytes it has
    recognised.  The refinement lemma says that a call of
    [multipart_parser_execute] on a whole buffer does what the machine does byte
    by byte. *)
From S2P Require Import Prelude Control Multipart MultipartSafety.

(** ** An application that records the reports *)

Inductive note := Part_data_begin | Headers_complete | Part_data_end | Body_end.
Inductive kind := K_field | K_value | K_data.

#[export] Instance kind_eq_dec : EqDecision kind.
Proof. solve_decision. Defined.

Abbreviation mp_trace := (trace note kind).

Definition notify (n : note) : multipart_notify_cb mp_trace := fun t => (0, Note n :: t).
Definition record (k : kind) : multipart_data_cb mp_trace := fun t d => (0, push_data k d t).

Definition record_settings : multipart_parser_settings mp_trace :=
  mk_settings mp_trace (Some (record K_field)) (Some (record K_value))
    (Some (record K_data)) (Some (notify Part_data_begin))
    (Some (notify Headers_complete)) (Some (notify Part_data_end))
    (Some (notify Body_end)).

(** ** The abstract machine *)

Inductive astate :=
  | A_preamble (k : nat)    (* [k] bytes of the boundary line have been read *)
  | A_field_start | A_field | A_headers_done
  | A_value_start | A_value | A_value_done
  | A_data_start | A_data | A_data_cr
  | A_boundary (k : nat)    (* CR LF and [k] bytes of the boundary, so far *)
  | A_almost_end | A_part_end | A_hyphen | A_end.

Definition data_char (c : Z) (t : mp_trace) : astate * mp_trace :=
  if c =? CR then (A_data_cr, push_data K_data [] t)
  else (A_data, push_data K_data [c] t).

Definition is_name_char (c : Z) : bool :=
  (c =? chr "-") || ((chr "a" <=? tolower c) && (tolower c <=? chr "z")).

(** [None]: the byte is refused. *)
Definition a_step (b : list Z) (a : astate) (c : Z) (t : mp_trace)
  : option (astate * mp_trace) :=
  match a with
  | A_preamble k =>
      match b !! k with
      | Some x => if c =? x then Some (A_preamble (S k), t) else None
      | None =>
          if (k =? length b)%nat then
            if c =? CR then Some (A_preamble (S k), t) else None
          else if c =? LF then Some (A_field_start, Note Part_data_begin :: t)
          else None
      end
  | A_field_start =>
      if c =? CR then Some (A_headers_done, t)
      else if c =? chr ":" then Some (A_value_start, push_data K_field [] t)
      else if is_name_char c then Some (A_field, push_data K_field [c] t)
      else None
  | A_field =>
      if c =? chr ":" then Some (A_value_start, push_data K_field [] t)
      else if is_name_char c then Some (A_field, push_data K_field [c] t)
      else None
  | A_headers_done => if c =? LF then Some (A_data_start, t) else None
  | A_value_start =>
      if c =? chr " " then Some (A_value_start, t)
      else if c =? CR then Some (A_value_done, push_data K_value [] t)
      else Some (A_value, push_data K_value [c] t)
  | A_value =>
      if c =? CR then Some (A_value_done, push_data K_value [] t)
      else Some (A_value, push_data K_value [c] t)
  | A_value_done => if c =? LF then Some (A_field_start, t) else None
  | A_data_start => Some (data_char c (Note Headers_complete :: t))
  | A_data => Some (data_char c t)
  | A_data_cr =>
      if c =? LF then Some (A_boundary 0, t)
      else Some (data_char c (push_data K_data [CR] t))
  | A_boundary k =>
      match b !! k with
      | Some x =>
          if c =? x then
            if (S k =? length b)%nat then Some (A_almost_end, Note Part_data_end :: t)
            else Some (A_boundary (S k), t)
          else Some (data_char c (push_data K_data (CR :: LF :: take k b) t))
      | None => None
      end
  | A_almost_end =>
      if c =? chr "-" then Some (A_hyphen, t)
      else if c =? CR then Some (A_part_end, t)
      else None
  | A_part_end =>
      if c =? LF then Some (A_field_start, Note Part_data_begin :: t) else None
  | A_hyphen => if c =? chr "-" then Some (A_end, Note Body_end :: t) else None
  | A_end => Some (A_end, t)
  end.

Fixpoint a_run (b : list Z) (l : list Z) (s : astate * mp_trace)
  : option (astate * mp_trace) :=
  match l with
  | [] => Some s
  | c :: l' => a_step b s.1 c s.2 ≫= a_run b l'
  end.

(** ** The simulation relation *)

Definition sim_state (a : astate) (p : multipart_parser) : Prop :=
  match a with
  | A_preamble k =>
      mp_state p = s_start /\ k = O \/
      mp_state p = s_start_boundary /\ mp_index p = Z.of_nat k
  | A_field_start => mp_state p = s_header_field_start
  | A_field => mp_state p = s_header_field
  | A_headers_done => mp_state p = s_headers_almost_done
  | A_value_start => mp_state p = s_header_value_start
  | A_value => mp_state p = s_header_value
  | A_value_done => mp_state p = s_header_value_almost_done
  | A_data_start => mp_state p = s_part_data_start
  | A_data => mp_state p = s_part_data
  | A_data_cr => mp_state p = s_part_data_almost_boundary
  | A_boundary k => mp_state p = s_part_data_boundary /\ mp_index p = Z.of_nat k
  | A_almost_end => mp_state p = s_part_data_almost_end
  | A_part_end => mp_state p = s_part_data_end
  | A_hyphen => mp_state p = s_part_data_final_hyphen
  | A_end => mp_state p = s_end
  end.

Definition sim (b : list Z) (a : astate) (p : multipart_parser) : Prop :=
  mp_ok p /\ mp_boundary p = b /\ sim_state a p.

Definition pending (s : state) : option kind :=
  match s with
  | s_header_field => Some K_field
  | s_header_value => Some K_value
  | s_part_data => Some K_data
  | _ => None
  end.

Section Refinement.
Variable b buf : list Z.
Abbreviation l := (zlen buf).
Abbreviation C := (ctx mp_trace).
Implicit Types (c : C) (t : mp_trace).

(** The trace once the bytes since [mark] are delivered; they are, before the
    end of the buffer is reached. *)
Definition view (j m : Z) (s : state) (t : mp_trace) : mp_trace :=
  match pending s with
  | Some k => if (j <? l) && (m <? j) then push_data k (slice buf m (j - m)) t else t
  | None => t
  end.

(** After the byte at [j]: done with it, or back in the part data in front of
    it. *)
Definition step_post (j ch : Z) (r : astate * mp_trace) (c : C) : Prop :=
  i c = j /\ sim_state r.1 (mp c) /\ view (j + 1) (mark c) (mp_state (mp c)) (app c) = r.2
  \/ i c = uwrap 64 (j - 1) /\ mark c = j /\ mp_state (mp c) = s_part_data /\
     a_step b A_data ch (app c) = Some r.

Definition sim_case (m : Z -> Ctl jump C unit) (c : C) : Prop :=
  forall a ch r,
  sim b a (mp c) -> 0 <= mark c <= i c -> i c < l < 2 ^ 64 ->
  zlookup buf (i c) = Some ch ->
  a_step b a ch (view (i c) (mark c) (mp_state (mp c)) (app c)) = Some r ->
  wp (m ch) c (fun _ c' => mp_boundary (mp c') = b /\ step_post (i c) ch r c') (fun _ _ => False).

Lemma wp_emit_rec k off n c (Q : unit -> C -> Prop) E :
  0 <= off -> 0 <= n -> off + n <= l ->
  Q tt (mk_ctx (mp c) (push_data k (slice buf off n) (app c)) (i c) (mark c)) ->
  wp (EMIT_DATA_CB buf (Some (record k)) off n) c Q E.
Proof using.
  intros. unfold EMIT_DATA_CB, len. rewrite !(proj2 (Z.leb_le _ _)) by lia. cbn [andb].
  apply wp_bind, wp_gets. cbn [record]. apply wp_bind, wp_modify, wp_when; done.
Qed.

Lemma wp_notify_rec n c (Q : unit -> C -> Prop) E :
  Q tt (mk_ctx (mp c) (Note n :: app c) (i c) (mark c)) ->
  wp (NOTIFY_CB (Some (notify n))) c Q E.
Proof using. intros. apply wp_bind, wp_gets, wp_bind, wp_modify, wp_when; done. Qed.

Lemma wp_emit_lookbehind_rec n d c (Q : unit -> C -> Prop) E :
  n <= zlen (mp_lookbehind (mp c)) ->
  take (Z.to_nat n) (mp_lookbehind (mp c)) = Some <$> d ->
  Q tt (mk_ctx (mp c) (push_data K_data d (app c)) (i c) (mark c)) ->
  wp (EMIT_lookbehind record_settings n) c Q E.
Proof using.
  intros Hn Hd HQ. unfold EMIT_lookbehind. apply wp_bind, wp_gets. cbn [on_part_data record_settings].
  rewrite (proj2 (Z.leb_le _ _)) by lia. rewrite Hd, mapM_id_Some.
  apply wp_bind, wp_gets, wp_bind, wp_modify, wp_when; done.
Qed.

(** Emission at the end of the buffer. *)
Lemma wp_emit_last (last : bool) k m j c (Q : unit -> C -> Prop) E :
  0 <= m <= j -> j < l ->
  Q tt (mk_ctx (mp c) (if last then push_data k (slice buf m (j - m + 1)) (app c) else app c)
          (i c) (mark c)) ->
  wp (when last (EMIT_DATA_CB buf (Some (record k)) m (j - m + 1))) c Q E.
Proof using.
  intros. apply wp_when; intros ->; [apply wp_emit_rec; try lia; done|]. by destruct c.
Qed.

(** The pending bytes and the byte at [j]. *)
Lemma view_snoc k t m j ch :
  0 <= m <= j -> zlookup buf j = Some ch ->
  push_data k [ch] (if m <? j then push_data k (slice buf m (j - m)) t else t)
  = push_data k (slice buf m (j - m + 1)) t.
Proof using.
  intros Hm Hch. rewrite slice_app by lia. replace (m + (j - m)) with j by lia.
  rewrite (slice_one _ _ _ Hch). destruct (Z.ltb_spec m j).
  - by rewrite push_data_app.
  - replace (j - m) with 0 by lia. done.
Qed.

(** The pending bytes when their end is seen. *)
Lemma view_end k t m j :
  0 <= m <= j ->
  push_data k [] (if m <? j then push_data k (slice buf m (j - m)) t else t)
  = push_data k (slice buf m (j - m)) t.
Proof using.
  intros Hm. destruct (Z.ltb_spec m j).
  - by rewrite push_data_app, app_nil_r.
  - replace (j - m) with 0 by lia. done.
Qed.

Ltac mp_simp :=
  cbn [mp app i mark set_mp mp_index mp_boundary_length mp_state mp_lookbehind
       mp_boundary pending on_header_field on_header_value on_part_data
       on_part_data_begin on_headers_complete on_part_data_end on_body_end
       record_settings sim_state fst snd] in *.

(** A condition of the code decides the same test of the machine. *)
Ltac sp_cond :=
  let H := fresh "H" in intros H;
  lazymatch type of H with
  | negb _ = true => apply negb_true_iff in H
  | negb _ = false => apply negb_false_iff in H
  | _ => idtac
  end;
  match goal with
  | Hs : @eq (option (astate * mp_trace)) _ _ |- _ => rewrite ?H in Hs
  | _ => idtac
  end.

Ltac sp_step :=
  lazymatch goal with
  | |- wp (_ ≫= _) _ _ _ => apply wp_bind
  | |- wp (mret _) _ _ _ => apply wp_ret
  | |- wp (gets _) _ _ _ => apply wp_gets
  | |- wp (if _ then _ else _) _ _ _ => apply wp_if; sp_cond
  | |- wp (when _ (EMIT_DATA_CB _ _ _ _)) _ _ _ => apply wp_emit_last; [lia | lia |]
  | |- wp (when _ _) _ _ _ => apply wp_when; sp_cond
  | |- wp (NOTIFY_CB _) _ _ _ => apply wp_notify_rec
  | |- wp (EMIT_DATA_CB _ _ _ _) _ _ _ => apply wp_emit_rec; [lia | lia | lia |]
  | |- wp (set_lookbehind _ _) _ _ _ => apply wp_set_lookbehind; [mp_simp; lia |]
  | |- wp (boundary_at _) _ _ _ => apply wp_boundary_at; [mp_simp; try lia | intros ? ?]
  | |- wp (set_state _) _ _ _ => apply mp_wp_updp
  | |- wp (set_index _) _ _ _ => apply mp_wp_updp
  | |- wp (set_mark _) _ _ _ => apply wp_modify
  | |- wp (set_i _) _ _ _ => apply wp_modify
  end; mp_simp.

Ltac sp_case :=
  intros a ch r ([Hl Hb Hlb Hk Hst] & Hbd & Hsim) Hm Hi Hch Hstep;
  match goal with c : C |- _ => destruct c as [[k n s lb bd] u j m] end;
  unfold state_ok in Hst; mp_simp; subst;
  destruct a; mp_simp; try discriminate; try (by destruct Hsim as [[? ?]|[? ?]]);
  try (by destruct Hsim); cbn [a_step] in Hstep; unfold data_char in Hstep.

Lemma name_char_cond x :
  negb (x =? chr "-") && ((tolower x <? chr "a") || (chr "z" <? tolower x))
  = negb (is_name_char x).
Proof using.
  unfold is_name_char. destruct (x =? chr "-"); [done|]. cbn [negb andb orb].
  by rewrite negb_andb, <-!Z.ltb_antisym.
Qed.

(** The view after a byte of pending data, delivered if it is the last one. *)
Lemma view_pending j m s k t ch :
  pending s = Some k -> 0 <= m <= j -> j < l -> zlookup buf j = Some ch ->
  view (j + 1) m s
    (if j =? l - 1 then push_data k (slice buf m (j - m + 1)) t else t)
  = push_data k [ch] (view j m s t).
Proof using.
  intros Hs Hm Hj Hch. unfold view. rewrite Hs.
  rewrite (proj2 (Z.ltb_lt j l)) by lia. cbn [andb]. rewrite (view_snoc k t m j ch) by done.
  destruct (Z.eqb_spec j (l - 1)).
  - by rewrite (proj2 (Z.ltb_ge (j + 1) l)) by lia.
  - rewrite (proj2 (Z.ltb_lt (j + 1) l)), (proj2 (Z.ltb_lt m (j + 1))) by lia. cbn [andb].
    by replace (j + 1 - m) with (j - m + 1) by lia.
Qed.

Lemma view_close j m s k t :
  pending s = Some k -> 0 <= m <= j -> j < l ->
  push_data k [] (view j m s t) = push_data k (slice buf m (j - m)) t.
Proof using.
  intros Hs Hm Hj. unfold view. rewrite Hs, (proj2 (Z.ltb_lt j l)) by lia. by apply view_end.
Qed.

Lemma view_here j s t : view j j s t = t.
Proof using. unfold view. destruct (pending s); [|done]. by rewrite Z.ltb_irrefl, andb_false_r. Qed.

Lemma view_pending0 j s k t ch :
  pending s = Some k -> 0 <= j < l -> zlookup buf j = Some ch ->
  view (j + 1) j s (if j =? l - 1 then push_data k (slice buf j (j - j + 1)) t else t)
  = push_data k [ch] t.
Proof using.
  intros. rewrite (view_pending j j s k t ch) by (done || lia). by rewrite view_here.
Qed.

Lemma slice_empty j : slice buf j (j - j) = [].
Proof using. by rewrite Z.sub_diag. Qed.

(** The end of a case: the byte was refused, or it is done with. *)
Ltac sp_fin :=
  lazymatch goal with
  | Hs : None = Some _ |- _ => discriminate
  | |- _ => idtac
  end;
  try (destr_bool; subst; discriminate);
  match goal with
  | Hs : @eq (option (astate * mp_trace)) (Some _) _ |- _ => injection Hs as <-
  | _ => idtac
  end;
  (split; [done|]); left; (split; [done|]); mp_simp; (split; [done|]);
  rewrite ?slice_empty;
  try first
    [ done
    | apply view_pending0; done || lia
    | symmetry; apply view_close; done || lia
    | apply view_pending; done || lia ].

Ltac sp_auto := sp_case; repeat (sp_step; rewrite ?name_char_cond); sp_fin.

Lemma sim_header_field c :
  mp_state (mp c) = s_header_field ->
  sim_case (fun ch => case_s_header_field record_settings buf ch (i c =? l - 1)) c.
Proof using. intros Hs. unfold case_s_header_field; cbv zeta. sp_auto. Qed.

Lemma sim_header_field_start c :
  mp_state (mp c) = s_header_field_start ->
  sim_case (fun ch => case_s_header_field_start record_settings buf ch (i c =? l - 1)) c.
Proof using.
  intros Hs. unfold case_s_header_field_start, case_s_header_field; cbv zeta. sp_auto.
Qed.

Lemma sim_header_value c :
  mp_state (mp c) = s_header_value ->
  sim_case (fun ch => case_s_header_value record_settings buf ch (i c =? l - 1)) c.
Proof using. intros Hs. unfold case_s_header_value. sp_auto. Qed.

Lemma sim_header_value_start c :
  mp_state (mp c) = s_header_value_start ->
  sim_case (fun ch => case_s_header_value_start record_settings buf ch (i c =? l - 1)) c.
Proof using. intros Hs. unfold case_s_header_value_start, case_s_header_value. sp_auto. Qed.

Lemma sim_headers_almost_done c :
  mp_state (mp c) = s_headers_almost_done -> sim_case case_s_headers_almost_done c.
Proof using. intros Hs. unfold case_s_headers_almost_done. sp_auto. Qed.

Lemma sim_header_value_almost_done c :
  mp_state (mp c) = s_header_value_almost_done -> sim_case case_s_header_value_almost_done c.
Proof using. intros Hs. unfold case_s_header_value_almost_done. sp_auto. Qed.

Lemma sim_part_data c :
  mp_state (mp c) = s_part_data ->
  sim_case (fun ch => case_s_part_data record_settings buf ch (i c =? l - 1)) c.
Proof using. intros Hs. unfold case_s_part_data. sp_auto. Qed.

Lemma sim_part_data_start c :
  mp_state (mp c) = s_part_data_start ->
  sim_case (fun ch => case_s_part_data_start record_settings buf ch (i c =? l - 1)) c.
Proof using.
  intros Hs. unfold case_s_part_data_start, case_s_part_data. sp_auto.
  apply (view_pending0 j s_part_data K_data (Note Headers_complete :: u)); done || lia.
Qed.

(** A failed match: the remembered bytes are data, and so is the byte read now,
    which is read again. *)
Lemma wp_back_to_data_sim c ch r E :
  mp_boundary (mp c) = b -> Some (data_char ch (app c)) = Some r ->
  wp back_to_data c (fun _ c' => mp_boundary (mp c') = b /\ step_post (i c) ch r c') E.
Proof using.
  intros Hb Hstep. unfold back_to_data. repeat sp_step. split; [done|]. by right.
Qed.

Lemma sim_almost_boundary c :
  mp_state (mp c) = s_part_data_almost_boundary ->
  sim_case (case_s_part_data_almost_boundary record_settings) c.
Proof using.
  intros Hs. unfold case_s_part_data_almost_boundary. sp_case. sp_step.
  - repeat sp_step. sp_fin.
  - sp_step. apply wp_emit_lookbehind_rec with (d := [CR]); mp_simp; [lia|done|].
    by apply (wp_back_to_data_sim (mk_ctx (mk_mp k (zlen b) s_part_data_almost_boundary lb b)
      (push_data K_data [CR] u) j m)).
Qed.

Lemma boundary_lookup k x :
  0 <= k < zlen b -> zlookup (b ++ [0]) k = Some x -> b !! Z.to_nat k = Some x.
Proof using.
  intros Hk Hx. unfold zlookup in Hx. rewrite (proj2 (Z.ltb_ge k 0)) in Hx by lia.
  by rewrite lookup_app_l in Hx by (unfold zlen in *; lia).
Qed.

Lemma last_index k n :
  0 <= k -> Z.to_nat k = n -> (S n =? length b)%nat = (k + 1 =? zlen b).
Proof using.
  intros Hk <-. unfold zlen. destruct (Nat.eqb_spec (S (Z.to_nat k)) (length b)), (Z.eqb_spec (k + 1) (Z.of_nat (length b))); done || lia.
Qed.

Lemma sim_boundary c :
  mp_state (mp c) = s_part_data_boundary ->
  sim_case (case_s_part_data_boundary record_settings) c.
Proof using.
  intros Hs. unfold case_s_part_data_boundary. sp_case. destruct Hst as [Hkb Htake], Hsim as [_ ->].
  do 4 sp_step. pose proof (boundary_lookup (Z.of_nat k0) _ ltac:(lia) H) as Hx.
  rewrite Nat2Z.id in Hx.
  rewrite Hx, Z.eqb_sym, (last_index (Z.of_nat k0)) in Hstep by lia.
  sp_step.
  - sp_step. eapply wp_emit_lookbehind_rec; mp_simp; [lia|exact Htake|]. rewrite Nat2Z.id.
    apply (wp_back_to_data_sim (mk_ctx (mk_mp _ (zlen b) s_part_data_boundary lb b)
      (push_data K_data _ u) j m)); [done|exact Hstep].
  - repeat sp_step; rewrite (uwrap_small 64) in * by lia; rewrite H1 in Hstep; mp_simp;
      injection Hstep as <-; (split; [done|]); left; (split; [done|]); (split; [|done]); mp_simp;
      [done | split; [done|lia]].
Qed.

Lemma sim_almost_end c :
  mp_state (mp c) = s_part_data_almost_end -> sim_case case_s_part_data_almost_end c.
Proof using. intros Hs. unfold case_s_part_data_almost_end. sp_auto. Qed.

Lemma sim_final_hyphen c :
  mp_state (mp c) = s_part_data_final_hyphen ->
  sim_case (case_s_part_data_final_hyphen record_settings) c.
Proof using. intros Hs. unfold case_s_part_data_final_hyphen. sp_auto. Qed.

Lemma sim_part_data_end c :
  mp_state (mp c) = s_part_data_end -> sim_case (case_s_part_data_end record_settings) c.
Proof using. intros Hs. unfold case_s_part_data_end. sp_auto. Qed.

(** Closes a case of the boundary line, where the machine counts the bytes. *)
Ltac sp_count :=
  try (destr_bool; subst; discriminate);
  match goal with
  | Hs : @eq (option (astate * mp_trace)) (Some _) _ |- _ => injection Hs as <-
  | _ => discriminate
  end;
  (split; [done|]); left; (split; [done|]); (split; [|done]); mp_simp;
  try done; right; (split; [done|]); rewrite ?(uwrap_small 64) by lia; lia.

Lemma sim_start_boundary c :
  mp_state (mp c) = s_start_boundary -> sim_case (case_s_start_boundary record_settings) c.
Proof using.
  intros Hs. unfold case_s_start_boundary. sp_case. destruct Hsim as [[? _]|[_ ->]]; [done|].
  do 2 sp_step. destruct (Z.eqb_spec (Z.of_nat k0) (zlen b)) as [He|He].
  - rewrite lookup_ge_None_2 in Hstep by (unfold zlen in He; lia).
    rewrite (proj2 (Nat.eqb_eq _ _)) in Hstep by (unfold zlen in He; lia).
    repeat sp_step; sp_count.
  - rewrite (uwrap_small 64) by lia. destruct (Z.eqb_spec (Z.of_nat k0) (zlen b + 1)) as [He1|He1].
    + rewrite lookup_ge_None_2 in Hstep by (unfold zlen in He1; lia).
      rewrite (proj2 (Nat.eqb_neq _ _)) in Hstep by (unfold zlen in He; lia).
      repeat sp_step; sp_count.
    + do 2 sp_step. pose proof (boundary_lookup (Z.of_nat k0) _ ltac:(lia) H) as Hx.
      rewrite Nat2Z.id in Hx. rewrite Hx in Hstep. repeat sp_step; sp_count.
Qed.

Lemma sim_start c :
  mp_state (mp c) = s_start -> sim_case (case_s_start record_settings) c.
Proof using.
  intros Hs. unfold case_s_start. sp_case. destruct Hsim as [[_ ->]|[? _]]; [|done].
  do 4 sp_step. rewrite (uwrap_small 64 0) by lia.
  apply (sim_start_boundary (mk_ctx (mk_mp 0 (zlen b) s_start_boundary lb b) u j m) eq_refl
    (A_preamble 0)); try done; mp_simp; try lia.
  split; [split; mp_simp; try lia; unfold state_ok; mp_simp; lia|]. split; [done|]. by right.
Qed.

Lemma dispatch_sim c :
  sim_case (fun ch => dispatch record_settings buf ch (i c =? l - 1)) c.
Proof using.
  intros a ch r Hsim Hm Hi Hch Hstep. unfold dispatch. apply wp_bind, wp_gets.
  destruct (mp_state (mp c)) eqn:Hs; rewrite <-Hs in Hstep.
  - destruct Hsim as ([_ _ _ _ Hst] & _). unfold state_ok in Hst. by rewrite Hs in Hst.
  - by eapply sim_start.
  - by eapply sim_start_boundary.
  - by eapply sim_header_field_start.
  - by eapply sim_header_field.
  - by eapply sim_headers_almost_done.
  - by eapply sim_header_value_start.
  - by eapply sim_header_value.
  - by eapply sim_header_value_almost_done.
  - by eapply sim_part_data_start.
  - by eapply sim_part_data.
  - by eapply sim_almost_boundary.
  - by eapply sim_boundary.
  - by eapply sim_almost_end.
  - by eapply sim_part_data_end.
  - by eapply sim_final_hyphen.
  - apply wp_ret. destruct c as [[k n s lb bd] u j m]. destruct Hsim as (Hok & Hb & Hsim).
    mp_simp. subst. destruct a; mp_simp; try discriminate; try (by destruct Hsim as [[? _]|[? _]]);
      try (by destruct Hsim). cbn [a_step] in Hstep. sp_fin.
Qed.

Lemma main_loop_step fuel c ch :
  i c < l < 2 ^ 64 -> zlookup buf (i c) = Some ch ->
  main_loop record_settings buf (S fuel) c =
  match dispatch record_settings buf ch (i c =? l - 1) c with
  | inl (_, c') =>
      main_loop record_settings buf fuel
        (mk_ctx (mp c') (app c') (uwrap 64 (i c' + 1)) (mark c'))
  | inr e => inr e
  end.
Proof using.
  intros Hi Hch. pose proof (zlookup_bound _ _ _ Hch).
  cbn [main_loop]. unfold mbind, ctl_bind, gets at 1. unfold len.
  rewrite (proj2 (Z.ltb_lt _ _)), Hch, (uwrap_small 64 (l - 1)) by lia.
  by destruct (dispatch _ _ _ _ _) as [[[] ?]|].
Qed.

Lemma mp_main_loop_end fuel c :
  i c = l -> main_loop record_settings buf (S fuel) c = inl (tt, c).
Proof using.
  intros Hi. cbn [main_loop]. unfold mbind, ctl_bind, gets at 1. unfold len.
  by rewrite (proj2 (Z.ltb_ge _ _)) by lia.
Qed.

Lemma main_loop_sim fuel : forall c a r,
  sim b a (mp c) -> 0 <= mark c <= i c -> i c <= l < 2 ^ 64 -> turns buf c <= Z.of_nat fuel ->
  a_run b (drop (Z.to_nat (i c)) buf) (a, view (i c) (mark c) (mp_state (mp c)) (app c)) = Some r ->
  exists c', main_loop record_settings buf (S fuel) c = inl (tt, c') /\
    sim b r.1 (mp c') /\ app c' = r.2.
Proof using.
  induction fuel as [|fuel IH]; intros c a r Hsim Hm Hi Hf Hrun; unfold turns in Hf.
  all: destruct (Z.ltb_spec (i c) l) as [Hlt|Hge];
    [|exists c; rewrite mp_main_loop_end by lia; split; [done|];
      rewrite drop_ge in Hrun by (unfold zlen in *; lia);
      injection Hrun as <-; split; [done|]; unfold view; cbn [snd];
      destruct (pending _); [|done]; by rewrite (proj2 (Z.ltb_ge _ _)) by lia].
  1: case_decide; lia.
  destruct (zlookup_Some buf (i c)) as [ch Hch]; [lia|].
  assert (Hi' : i c < l < 2 ^ 64) by lia. rewrite (main_loop_step _ _ _ Hi' Hch).
  rewrite (drop_zlookup_cons _ _ _ Hch) in Hrun. cbn [a_run fst snd] in Hrun.
  apply bind_Some in Hrun as (r1 & Hstep & Hrun).
  destruct (wp_run _ _ _ (dispatch_sim c a ch r1 Hsim Hm Hi' Hch Hstep))
    as ([] & c' & Hdisp & Hb & Hpost).
  destruct (wp_inl _ _ _ _ _ _ Hdisp (mp_dispatch_ok _ _ _ _ _ (proj1 Hsim) Hm Hi'))
    as (Hok' & Hm' & Hk).
  rewrite Hdisp. destruct Hpost as [(Hic & Hsim' & Hview)|(Hic & Hmc & Hs' & Hstep')].
  - replace (i c + 1) with (i c' + 1) in * by lia.
    destruct (IH (mk_ctx (mp c') (app c') (i c' + 1) (mark c')) r1.1 r) as (c2 & Hl & Hc2);
      cbn [mp app i mark] in *; try done; try lia; try (rewrite uwrap_small in Hm' by lia; lia).
    { unfold turns. cbn [mp app i mark]. repeat case_decide; lia. }
    { rewrite Hview. by destruct r1. }
    exists c2. by rewrite uwrap_small by lia.
  - rewrite Hic, uwrap_pred_succ in Hm', Hk by lia. destruct Hk as [Hk|(_ & _ & Hns)]; [lia|].
    destruct (IH (mk_ctx (mp c') (app c') (i c) (mark c')) A_data r) as (c2 & Hl & Hc2);
      cbn [mp app i mark] in *; try done; try lia.
    { unfold turns. cbn [mp app i mark]. rewrite decide_True by done.
      rewrite decide_False in Hf by done. lia. }
    { rewrite (drop_zlookup_cons _ _ _ Hch), Hmc, view_here. cbn [a_run fst snd].
      by rewrite Hstep'. }
    exists c2. by rewrite Hic, uwrap_pred_succ by lia.
Qed.

(** The refinement: a call computes what the machine computes byte by byte. *)
Lemma execute_refines p a t r :
  sim b a p -> l < 2 ^ 64 -> a_run b buf (a, t) = Some r ->
  exists p', multipart_parser_execute record_settings buf p t = inl (l, p', r.2) /\
    sim b r.1 p'.
Proof using.
  intros Hsim Hl Hrun. pose proof (zlen_nonneg buf).
  destruct (main_loop_sim (2 * length buf + 1) (mk_ctx p t 0 0) a r) as (c' & Hloop & Hs & Ha);
    cbn [mp app i mark]; try done; try lia.
  - unfold turns, zlen. cbn [mp i]. case_decide; lia.
  - by rewrite view_here.
  - exists (mp c'). unfold multipart_parser_execute.
    replace (2 * length buf + 2)%nat with (S (2 * length buf + 1)) by lia.
    by rewrite Hloop, Ha.
Qed.

End Refinement.
