(* ===== verification/MultipartProps.v ===== *)
(** * MultipartProps: properties of multipart_parser_execute

    Memory safety and termination for arbitrary bodies; the refinement of the
    byte-by-byte machine; the round trip of well-formed bodies through the parser,
    cut into buffers in any way. *)
From S2P Require Import Prelude Control Multipart MultipartSafety MultipartSpec.

(** ** Bodies as a client writes them *)

Record part := mk_part {
  part_headers : list (list Z * list Z);
  part_body : list Z;
}.

Definition encode_header (h : list Z * list Z) : list Z :=
  h.1 ++ chr ":" :: chr " " :: h.2 ++ [CR; LF].

Definition encode_part (p : part) : list Z :=
  mjoin (encode_header <$> part_headers p) ++ [CR; LF] ++ part_body p.

(** Every part is followed by CR LF, the boundary and CR LF, the last one by
    CR LF, the boundary and two hyphens. *)
Fixpoint encode_rest (b : list Z) (ps : list part) : list Z :=
  match ps with
  | [] => bytes "--"
  | p :: ps' => [CR; LF] ++ encode_part p ++ [CR; LF] ++ b ++ encode_rest b ps'
  end.

Definition encode (b : list Z) (ps : list part) : list Z := b ++ encode_rest b ps.

(** What the application is to see, in order. *)
Definition part_events (p : part) : list (event note kind) :=
  [Note Part_data_begin]
  ++ mjoin ((fun h => [Data K_field h.1; Data K_value h.2]) <$> part_headers p)
  ++ [Note Headers_complete; Data K_data (part_body p); Note Part_data_end].

Definition body_events (ps : list part) : list (event note kind) :=
  mjoin (part_events <$> ps) ++ [Note Body_end].

Definition occurs (x d : list Z) : Prop := exists l r, d = l ++ x ++ r.

Definition header_ok (h : list Z * list Z) : Prop :=
  h.1 <> [] /\ Forall (fun c => is_name_char c = true) h.1 /\
  (CR ∉ h.2) /\ head h.2 <> Some (chr " ").

Definition part_ok (b : list Z) (p : part) : Prop :=
  Forall header_ok (part_headers p) /\ ~ occurs (CR :: LF :: b) (part_body p).

(** Feeding buffers one after the other, as long as all of each is accepted. *)
Fixpoint feed {U} (st : multipart_parser_settings U) (bufs : list (list Z))
    (p : multipart_parser) (u : U) : option (multipart_parser * U) :=
  match bufs with
  | [] => Some (p, u)
  | buf :: bufs' =>
      match multipart_parser_execute st buf p u with
      | inl (n, p', u') => if n =? zlen buf then feed st bufs' p' u' else None
      | inr _ => None
      end
  end.

(** ** Lemmas *)

Lemma a_run_app b l1 l2 s : a_run b (l1 ++ l2) s = a_run b l1 s ≫= a_run b l2.
Proof.
  revert s. induction l1 as [|c l1 IH]; intros s; [reflexivity|]. cbn [Datatypes.app a_run].
  destruct (a_step b s.1 c s.2) as [s'|]; [|done]. apply IH.
Qed.

Section Machine.
Variable b : list Z.
Implicit Types t : mp_trace.

(** The boundary is recognised. *)
Lemma boundary_run k t :
  (k < length b)%nat ->
  a_run b (drop k b) (A_boundary k, t) = Some (A_almost_end, Note Part_data_end :: t).
Proof using.
  intros Hk. remember (length b - k)%nat as n eqn:Hn. revert k Hk Hn.
  induction n as [|n IH]; intros k Hk Hn; [lia|].
  destruct (lookup_lt_is_Some_2 b k Hk) as [x Hx].
  rewrite (drop_S _ _ _ Hx). cbn [a_run fst snd a_step]. rewrite Hx, Z.eqb_refl.
  destruct (Nat.eqb_spec (S k) (length b)) as [He|He].
  - cbn. by rewrite drop_ge by lia.
  - cbn. apply IH; lia.
Qed.

(** A match that fails after [k] bytes: they were data. *)
Lemma mismatch_run j k x y s t :
  (j <= k)%nat -> b !! k = Some y -> x <> y ->
  a_run b (take (k - j) (drop j b) ++ x :: s) (A_boundary j, t) =
  a_run b (x :: s) (A_data, push_data K_data (CR :: LF :: take k b) t).
Proof using.
  intros Hj Hy Hxy. remember (k - j)%nat as n eqn:Hn. revert j Hj Hn.
  induction n as [|n IH]; intros j Hj Hn.
  - assert (j = k) as -> by lia. rewrite take_0. cbn [Datatypes.app a_run fst snd a_step]. rewrite Hy.
    by rewrite (proj2 (Z.eqb_neq _ _) Hxy).
  - destruct (lookup_lt_is_Some_2 b j) as [z Hz]; [apply lookup_lt_Some in Hy; lia|].
    rewrite (drop_S _ _ _ Hz). cbn [take Datatypes.app a_run fst snd a_step]. rewrite Hz, Z.eqb_refl.
    pose proof (lookup_lt_Some _ _ _ Hy).
    rewrite (proj2 (Nat.eqb_neq _ _)) by lia. cbn [mbind option_bind]. apply IH; lia.
Qed.

(** Where data that does not continue with the boundary departs from it. *)
Lemma departure (bs d : list Z) :
  CR ∉ bs -> (forall r, d <> bs ++ r) ->
  exists k y d' x s, bs !! k = Some y /\ x <> y /\ d = take k bs ++ d' /\
    d' ++ CR :: LF :: b = x :: s.
Proof using.
  revert d. induction bs as [|y bs IH]; intros d Hcr Hd; [by destruct (Hd d)|].
  apply not_elem_of_cons in Hcr as [Hy Hcr]. destruct d as [|x d].
  - by exists 0%nat, y, [], CR, (LF :: b).
  - destruct (decide (x = y)) as [->|Hxy].
    + destruct (IH d Hcr) as (k & z & d' & x & s & Hk & Hx & -> & Hs).
      { intros r ->. by destruct (Hd r). }
      by exists (S k), z, d', x, s.
    + by exists 0%nat, y, (x :: d), x, (d ++ CR :: LF :: b).
Qed.

Lemma data_cr_other x s t :
  x <> LF ->
  a_run b (x :: s) (A_data_cr, t) = a_run b (x :: s) (A_data, push_data K_data [CR] t).
Proof using.
  intros Hx. cbn [a_run fst snd a_step]. by rewrite (proj2 (Z.eqb_neq _ _) Hx).
Qed.

(** Data in which the delimiter does not occur, then the delimiter: exactly the
    data is reported. *)
Lemma data_run d t :
  b <> [] -> CR ∉ b -> ~ occurs (CR :: LF :: b) d ->
  a_run b (d ++ CR :: LF :: b) (A_data, t) =
  Some (A_almost_end, Note Part_data_end :: push_data K_data d t).
Proof using.
  intros Hb Hcr. remember (length d) as n eqn:Hn. revert d t Hn.
  induction (lt_wf n) as [n _ IH]. intros d t -> Hocc. destruct d as [|c d].
  - cbn [Datatypes.app a_run fst snd a_step]. unfold data_char. cbn [Z.eqb Pos.eqb mbind option_bind fst snd].
    apply (boundary_run 0). destruct b; [done|simpl; lia].
  - assert (Hsub : forall l d', c :: d = l ++ d' -> ~ occurs (CR :: LF :: b) d').
    { intros l d' Hd (l' & r & ->). apply Hocc. exists (l ++ l'), r. by rewrite Hd, <-app_assoc. }
    cbn [Datatypes.app a_run fst snd a_step]. unfold data_char. destruct (Z.eqb_spec c CR) as [->|Hc].
    + destruct d as [|x d].
      * cbn [mbind option_bind fst snd Datatypes.app]. rewrite data_cr_other, push_data_app by done.
        pose proof (IH 0%nat (ltac:(simpl; lia)) [] (push_data K_data [CR] t) eq_refl
          (Hsub [CR] [] eq_refl)) as Hend.
        cbn [Datatypes.app] in *. by rewrite Hend, push_data_app.
      * cbn [mbind option_bind fst snd Datatypes.app]. destruct (decide (x = LF)) as [->|Hx].
        -- destruct (departure b d Hcr) as (k & y & d' & x & s & Hk & Hx & -> & Hs).
           { intros r ->. apply Hocc. by exists [], r. }
           rewrite <-app_assoc, Hs. cbn [a_run fst snd a_step Z.eqb Pos.eqb mbind option_bind].
           pose proof (mismatch_run 0 k x y s (push_data K_data [] t) ltac:(lia) Hk Hx) as Hmis.
           rewrite Nat.sub_0_r in Hmis. rewrite drop_0 in Hmis. rewrite Hmis, <-Hs.
           rewrite (IH (length d')), !push_data_app; [done| |done|].
           ++ simpl. rewrite length_app. lia.
           ++ apply (Hsub (CR :: LF :: take k b)). done.
        -- rewrite data_cr_other, push_data_app by done.
           rewrite (IH (length (x :: d)) (ltac:(simpl; lia)) (x :: d)), push_data_app; [done|done|].
           by apply (Hsub [CR]).
    + cbn [mbind option_bind fst snd].
      rewrite (IH (length d)), push_data_app; [done|simpl; lia|done|]. by apply (Hsub [c]).
Qed.

(** *** Headers *)

(** The trace does not end with a datum of kind [k], so the next one starts
    afresh. *)
Definition fresh (k : kind) (t : mp_trace) : Prop :=
  forall d, push_data k d t = Data k d :: t.

Lemma fresh_note k n t : fresh k (Note n :: t).
Proof using. done. Qed.

Lemma fresh_other k k' d t : k <> k' -> fresh k (Data k' d :: t).
Proof using. intros Hk d'. simpl. by rewrite decide_False. Qed.

Lemma name_run n t :
  Forall (fun c => is_name_char c = true) n ->
  a_run b n (A_field, t) = Some (A_field, if decide (n = []) then t else push_data K_field n t).
Proof using.
  revert t. induction n as [|c n IH]; intros t Hn; [by rewrite decide_True|].
  apply Forall_cons in Hn as [Hc Hn]. cbn [a_run fst snd a_step].
  destruct (Z.eqb_spec c (chr ":")) as [->|]; [done|]. rewrite Hc. cbn [mbind option_bind].
  rewrite IH by done. rewrite (decide_False (P := c :: n = [])) by done.
  case_decide as Hnil; [by subst|]. by rewrite push_data_app.
Qed.

Lemma value_run v t :
  (CR ∉ v) ->
  a_run b (v ++ [CR]) (A_value, t) = Some (A_value_done, push_data K_value v t).
Proof using.
  revert t. induction v as [|c v IH]; intros t Hv; [done|].
  apply not_elem_of_cons in Hv as [Hc Hv]. cbn [Datatypes.app a_run fst snd a_step].
  rewrite (proj2 (Z.eqb_neq _ _)) by done. cbn [mbind option_bind].
  by rewrite IH, push_data_app.
Qed.

Lemma header_run h t :
  header_ok h -> fresh K_field t ->
  a_run b (encode_header h) (A_field_start, t)
  = Some (A_field_start, Data K_value h.2 :: Data K_field h.1 :: t).
Proof using.
  destruct h as [n v]. intros (Hn & Hname & Hv & Hsp) Ht. unfold encode_header. cbn [fst snd] in *.
  destruct n as [|c n]; [done|]. apply Forall_cons in Hname as [Hc Hname].
  cbn [Datatypes.app a_run fst snd a_step].
  destruct (Z.eqb_spec c CR) as [->|]; [done|]. destruct (Z.eqb_spec c (chr ":")) as [->|]; [done|].
  rewrite Hc. cbn [mbind option_bind]. rewrite a_run_app, name_run by done.
  cbn [mbind option_bind]. rewrite Ht.
  assert (Hfield : push_data K_field [] (if decide (n = []) then Data K_field [c] :: t
    else push_data K_field n (Data K_field [c] :: t)) = Data K_field (c :: n) :: t).
  { case_decide as Hnil; [by subst|]. simpl. by rewrite app_nil_r. }
  cbn [a_run fst snd a_step Z.eqb Pos.eqb mbind option_bind]. rewrite Hfield.
  replace (v ++ [CR; LF]) with ((v ++ [CR]) ++ [LF]) by by rewrite <-app_assoc.
  rewrite a_run_app.
  assert (Hval : a_run b (v ++ [CR]) (A_value_start, Data K_field (c :: n) :: t) =
    Some (A_value_done, Data K_value v :: Data K_field (c :: n) :: t)).
  { destruct v as [|x v]; [done|]. apply not_elem_of_cons in Hv as [Hx Hv].
    cbn [Datatypes.app a_run fst snd a_step].
    destruct (Z.eqb_spec x (chr " ")) as [->|]; [done|]. rewrite (proj2 (Z.eqb_neq x CR)) by done.
    cbn [mbind option_bind]. by rewrite value_run. }
  by rewrite Hval.
Qed.

Lemma headers_run hs t :
  Forall header_ok hs -> fresh K_field t ->
  a_run b (mjoin (encode_header <$> hs)) (A_field_start, t)
  = Some (A_field_start,
      reverse (mjoin ((fun h => [Data K_field h.1; Data K_value h.2]) <$> hs)) ++ t).
Proof using.
  revert t. induction hs as [|h hs IH]; intros t Hok Ht; [done|].
  apply Forall_cons in Hok as [Hh Hok]. cbn [fmap list_fmap mjoin list_join].
  rewrite a_run_app, header_run by done. cbn [mbind option_bind].
  rewrite IH by (done || by apply fresh_other).
  cbn [Datatypes.app]. by rewrite !reverse_cons, <-!app_assoc.
Qed.

(** *** Parts *)

Lemma data_start_run x s t :
  a_run b (x :: s) (A_data_start, t) = a_run b (x :: s) (A_data, Note Headers_complete :: t).
Proof using. done. Qed.

Lemma part_run p t :
  b <> [] -> CR ∉ b -> part_ok b p ->
  a_run b (encode_part p ++ CR :: LF :: b) (A_field_start, Note Part_data_begin :: t)
  = Some (A_almost_end, reverse (part_events p) ++ t).
Proof using.
  intros Hb Hcr [Hhs Hocc]. unfold encode_part, part_events.
  rewrite <-app_assoc, a_run_app, headers_run by done. cbn [mbind option_bind].
  rewrite !reverse_app, <-!app_assoc.
  change (reverse [Note Part_data_begin] ++ t) with (Note Part_data_begin :: t).
  set (t1 := reverse _ ++ _).
  cbn [Datatypes.app a_run fst snd a_step Z.eqb Pos.eqb mbind option_bind].
  pose proof (data_run (part_body p) (Note Headers_complete :: t1) Hb Hcr Hocc) as Hdata.
  destruct (part_body p) as [|x d]; cbn [Datatypes.app] in *; by rewrite data_start_run.
Qed.

Lemma preamble_run k t :
  (k <= length b)%nat ->
  a_run b (drop k b ++ [CR; LF]) (A_preamble k, t)
  = Some (A_field_start, Note Part_data_begin :: t).
Proof using.
  intros Hk. remember (length b - k)%nat as n eqn:Hn. revert k Hk Hn.
  induction n as [|n IH]; intros k Hk Hn.
  - assert (k = length b) as -> by lia. rewrite drop_all. cbn [Datatypes.app a_run fst snd a_step].
    rewrite lookup_ge_None_2 by lia. rewrite Nat.eqb_refl. cbn [Z.eqb Pos.eqb mbind option_bind fst snd].
    cbn [a_step]. rewrite lookup_ge_None_2 by lia.
    by rewrite (proj2 (Nat.eqb_neq _ _)) by lia.
  - destruct (lookup_lt_is_Some_2 b k) as [x Hx]; [lia|].
    rewrite (drop_S _ _ _ Hx). cbn [Datatypes.app a_run fst snd a_step]. rewrite Hx, Z.eqb_refl.
    apply IH; lia.
Qed.

Lemma part_split p e :
  encode_part p ++ [CR; LF] ++ b ++ e = (encode_part p ++ CR :: LF :: b) ++ e.
Proof using. by rewrite <-app_assoc. Qed.

Lemma parts_run p ps t :
  b <> [] -> CR ∉ b -> Forall (part_ok b) (p :: ps) ->
  a_run b (encode_part p ++ [CR; LF] ++ b ++ encode_rest b ps)
    (A_field_start, Note Part_data_begin :: t)
  = Some (A_end, reverse (body_events (p :: ps)) ++ t).
Proof using.
  intros Hb Hcr. revert p t. induction ps as [|q ps IH]; intros p t Hok;
    apply Forall_cons in Hok as [Hp Hok].
  all: rewrite part_split, a_run_app, part_run by done; cbn [mbind option_bind].
  - cbn [encode_rest]. unfold body_events. cbn [fmap list_fmap mjoin list_join].
    rewrite app_nil_r. by rewrite reverse_app.
  - cbn [encode_rest Datatypes.app a_run fst snd a_step Z.eqb Pos.eqb mbind option_bind].
    rewrite IH by done. unfold body_events. cbn [fmap list_fmap mjoin list_join].
    by rewrite !reverse_app, <-!app_assoc.
Qed.

Lemma encode_run ps :
  b <> [] -> CR ∉ b -> ps <> [] -> Forall (part_ok b) ps ->
  a_run b (encode b ps) (A_preamble 0, []) = Some (A_end, reverse (body_events ps)).
Proof using.
  intros Hb Hcr Hps Hok. destruct ps as [|p ps]; [done|]. unfold encode. cbn [encode_rest].
  rewrite app_assoc, a_run_app. pose proof (preamble_run 0 [] ltac:(lia)) as Hpre.
  rewrite drop_0 in Hpre. rewrite Hpre. cbn [mbind option_bind].
  by rewrite parts_run, app_nil_r.
Qed.

End Machine.

(** Buffers that are fed one after the other are what the machine reads. *)
Lemma feed_refines b bufs : forall p a t r,
  sim b a p -> Forall (fun buf => zlen buf < 2 ^ 64) bufs ->
  a_run b (mjoin bufs) (a, t) = Some r ->
  exists p', feed record_settings bufs p t = Some (p', r.2) /\ sim b r.1 p'.
Proof.
  induction bufs as [|buf bufs IH]; intros p a t r Hsim Hlen Hrun.
  - injection Hrun as <-. by exists p.
  - apply Forall_cons in Hlen as [Hl Hlen]. cbn [mjoin list_join] in Hrun. rewrite a_run_app in Hrun.
    apply bind_Some in Hrun as ([a1 t1] & Hrun1 & Hrun).
    destruct (execute_refines b buf p a t _ Hsim Hl Hrun1) as (p1 & Hex & Hsim1).
    cbn [feed]. rewrite Hex, Z.eqb_refl. by apply (IH p1 a1).
Qed.

Lemma init_sim b : 0 < zlen b < 2 ^ 62 -> sim b (A_preamble 0) (multipart_parser_init b).
Proof. intros Hb. split; [by apply mp_init_ok|]. split; [done|]. by left. Qed.

(** ** Properties *)

(** C7. Memory safety and termination of the multipart parser: whatever bytes a
    parser with a non-empty boundary is given, and whatever its callbacks answer,
    [multipart_parser_execute] returns; it reads and writes only inside the
    buffer, the boundary and the look-behind area, and never delivers a byte of
    the look-behind area that was not written.  It reports at most the length of
    the buffer. *)
Theorem multipart_safe {U} (st : multipart_parser_settings U) p u buf :
  reachable st p -> zlen buf < 2 ^ 64 ->
  exists n p' u', multipart_parser_execute st buf p u = inl (n, p', u') /\
    0 <= n <= zlen buf.
Proof.
  intros Hp Hl.
  destruct (mp_execute_total st buf p u (mp_reachable_ok _ _ Hp) Hl) as (n & p' & u' & ? & ? & _).
  by exists n, p', u'.
Qed.

(** C6. Refinement, and independence of the way the input is cut: if the
    byte-by-byte machine accepts the concatenation of some buffers, then the
    parser accepts each of them completely, ends in the state of the machine and
    has reported exactly what the machine reports (pieces of one datum
    joined). *)
Theorem multipart_refines b bufs a t :
  0 < zlen b < 2 ^ 62 -> Forall (fun buf => zlen buf < 2 ^ 64) bufs ->
  a_run b (mjoin bufs) (A_preamble 0, []) = Some (a, t) ->
  exists p', feed record_settings bufs (multipart_parser_init b) [] = Some (p', t) /\
    sim_state a p'.
Proof.
  intros Hb Hl Hrun.
  destruct (feed_refines b bufs _ _ _ _ (init_sim b Hb) Hl Hrun) as (p' & Hf & _ & _ & Hs).
  by exists p'.
Qed.

(** C5. Round trip: a body that a client has written from a list of parts, with
    header names of letters and hyphens, values without CR, and contents in which
    the delimiter does not occur, is parsed into exactly these parts, header by
    header and content by content, however it is cut into buffers. *)
Theorem multipart_roundtrip b ps bufs :
  0 < zlen b < 2 ^ 62 -> CR ∉ b -> ps <> [] -> Forall (part_ok b) ps ->
  mjoin bufs = encode b ps -> Forall (fun buf => zlen buf < 2 ^ 64) bufs ->
  exists p', feed record_settings bufs (multipart_parser_init b) []
             = Some (p', reverse (body_events ps)) /\ mp_state p' = s_end.
Proof.
  intros Hb Hcr Hps Hok Hbufs Hl.
  assert (Hrun : a_run b (mjoin bufs) (A_preamble 0, []) = Some (A_end, reverse (body_events ps))).
  { rewrite Hbufs. apply encode_run; try done. intros ->. unfold zlen in Hb. cbn in Hb. lia. }
  destruct (feed_refines b bufs _ _ _ _ (init_sim b Hb) Hl Hrun) as (p' & Hf & _ & _ & Hs).
  by exists p'.
Qed.

(** ** Concrete instances *)

Definition sample_boundary : list Z := bytes "--XX".

(** The content starts like a delimiter and departs from it. *)
Definition sample_parts : list part :=
  [ mk_part [(bytes "Name", bytes "a b"); (bytes "X-Y", [])] (CR :: LF :: bytes "--Xc" ++ [CR]);
    mk_part [] [] ].


Lemma sample_parts_ok : Forall (part_ok sample_boundary) sample_parts.
Proof.
  constructor; [|constructor; [|constructor]]; split.
  - repeat apply Forall_cons_2; [| |apply Forall_nil_2];
      (split; [done|]; split; [decide_now|]; split; [decide_now|done]).
  - intros (l & r & Hl). cbn [part_body] in Hl.
    destruct l as [|? [|? l]]; [discriminate | discriminate |].
    apply (f_equal length) in Hl. cbn in Hl. rewrite length_app in Hl. cbn in Hl. lia.
  - constructor.
  - intros ([] & r & Hl); discriminate.
Qed.

Lemma multipart_safe_witness :
  exists n p' u',
    multipart_parser_execute record_settings (bytes "--XX") (multipart_parser_init sample_boundary) []
    = inl (n, p', u') /\ 0 <= n <= 4.
Proof.
  apply (multipart_safe record_settings (multipart_parser_init sample_boundary) [] (bytes "--XX")).
  - by constructor.
  - done.
Defined.

Lemma multipart_refines_witness :
  exists p', feed record_settings [bytes "--X"; bytes "X" ++ [CR]; [LF; chr "a"]]
               (multipart_parser_init sample_boundary) []
             = Some (p', [Data K_field (bytes "a"); Note Part_data_begin]) /\
    mp_state p' = s_header_field.
Proof.
  apply (multipart_refines sample_boundary [bytes "--X"; bytes "X" ++ [CR]; [LF; chr "a"]] A_field).
  - done.
  - by repeat constructor.
  - vm_compute. reflexivity.
Defined.

Lemma multipart_roundtrip_witness :
  exists p', feed record_settings
      [take 7 (encode sample_boundary sample_parts); drop 7 (encode sample_boundary sample_parts)]
      (multipart_parser_init sample_boundary) []
    = Some (p', reverse (body_events sample_parts)) /\ mp_state p' = s_end.
Proof.
  apply (multipart_roundtrip sample_boundary sample_parts).
  - done.
  - decide_now.
  - done.
  - apply sample_parts_ok.
  - vm_compute. reflexivity.
  - by repeat constructor.
Defined.

(** With an empty boundary the parser leaves the array of the boundary: after a
    NUL behind a line end it compares with what lies behind the array. *)
Lemma empty_boundary_overrun :
  multipart_parser_execute record_settings ([CR; LF; CR; LF; CR; LF; 0; 0])
    (multipart_parser_init []) [] = inr OutOfBounds.
Proof. vm_compute. reflexivity. Qed.

(** A header line without a colon is dropped without an error. *)
Lemma nameless_header_dropped :
  match multipart_parser_execute record_settings
      (bytes "--XX" ++ [CR; LF] ++ bytes "name" ++ [CR; LF])
      (multipart_parser_init sample_boundary) [] with
  | inl (n, _, t) => n = 12 /\ t = [Note Part_data_begin]
  | inr _ => False
  end.
Proof. vm_compute. auto. Qed.
