(* ===== verification/Streams.v ===== *)
(** * Streams: reading lines from a string stream

    [std::stringstream] as the sources read it: the characters not yet read and
    the two error bits.  [std::getline] with a delimiter, and the splitting of a
    string that repeated calls amount to; the order of strings, C strings and decimal
    numbers. *)
From S2P Require Import Prelude.

Record istream := mk_istream {
  is_rest : list Z;
  is_eof : bool;
  is_fail : bool;
}.

(** [std::stringstream ss(str)] *)
Definition stream_of (l : list Z) : istream := mk_istream l false false.

Definition good (s : istream) : bool := negb (is_eof s) && negb (is_fail s).

(** The characters up to the delimiter, and those behind it if it is there. *)
Fixpoint extract (d : Z) (l : list Z) : list Z * option (list Z) :=
  match l with
  | [] => ([], None)
  | c :: l' =>
      if c =? d then ([], Some l')
      else let '(t, r) := extract d l' in (c :: t, r)
  end.

(** [std::getline(s, str, d)]: on a stream that is not good, [str] keeps its
    value and [failbit] is set; the delimiter is extracted and dropped; the end
    of the stream sets [eofbit], and [failbit] too if nothing was extracted. *)
Definition getline (d : Z) (str : list Z) (s : istream) : list Z * istream :=
  if good s then
    match extract d (is_rest s) with
    | (t, Some r) => (t, mk_istream r false false)
    | (t, None) => (t, mk_istream [] true (bool_decide (t = [])))
    end
  else (str, mk_istream (is_rest s) (is_eof s) true).

(** The order of [std::string]: lexicographic in the bytes. *)
Fixpoint str_ltb (a b : list Z) : bool :=
  match a, b with
  | [], [] => false
  | [], _ :: _ => true
  | _ :: _, [] => false
  | x :: a', y :: b' => (x <? y) || ((x =? y) && str_ltb a' b')
  end.

(** The bytes of a [std::string] up to a NUL, as [c_str] hands them to [strcpy]. *)
Fixpoint c_text (l : list Z) : list Z :=
  match l with
  | [] => []
  | c :: l' => if c =? 0 then [] else c :: c_text l'
  end.

(** [s << n] for a number that is not negative. *)
Fixpoint dec_text_loop (fuel : nat) (n : Z) (acc : list Z) : list Z :=
  match fuel with
  | O => acc
  | S fuel' =>
      let acc := (n mod 10 + chr "0") :: acc in
      if n / 10 =? 0 then acc else dec_text_loop fuel' (n / 10) acc
  end.

Definition dec_text (n : Z) : list Z := dec_text_loop (S (Z.to_nat (Z.log2 n))) n [].

(** ** Splitting *)

(** The pieces of a string between the delimiters; there is always one. *)
Fixpoint split (d : Z) (l : list Z) : list (list Z) :=
  match l with
  | [] => [[]]
  | c :: l' =>
      if c =? d then [] :: split d l'
      else match split d l' with
           | p :: ps => (c :: p) :: ps
           | [] => [[c]]
           end
  end.

(** The inverse: pieces joined with the delimiter. *)
Fixpoint join (d : Z) (ps : list (list Z)) : list Z :=
  match ps with
  | [] => []
  | [p] => p
  | p :: ps' => p ++ d :: join d ps'
  end.

Lemma split_nonempty d l : split d l <> [].
Proof. destruct l as [|c l]; simpl; [done|]. by repeat case_match. Qed.

Lemma extract_split d l :
  split d l = match extract d l with
              | (t, Some r) => t :: split d r
              | (t, None) => [t]
              end.
Proof.
  induction l as [|c l IH]; [done|]. simpl. destruct (c =? d); [done|].
  rewrite IH. by destruct (extract d l) as [t [r|]].
Qed.

Lemma extract_length d l t r : extract d l = (t, Some r) -> (length l = length t + S (length r))%nat.
Proof.
  revert t r. induction l as [|c l IH]; intros t r; simpl; [done|].
  destruct (c =? d); [intros [= <- <-]; simpl; lia|].
  destruct (extract d l) as [t' r']. intros [= <- ->]. specialize (IH t' r eq_refl). simpl. lia.
Qed.

Lemma extract_None d l t : extract d l = (t, None) -> t = l.
Proof.
  revert t. induction l as [|c l IH]; intros t; simpl; [by intros [= <-]|].
  destruct (c =? d); [done|]. destruct (extract d l) as [t' r']. intros [= <- ->]. by rewrite (IH t').
Qed.

(** A piece without the delimiter is extracted whole. *)
Lemma extract_free d p l : d ∉ p -> extract d (p ++ d :: l) = (p, Some l).
Proof.
  induction p as [|c p IH]; intros Hp; simpl; [by rewrite Z.eqb_refl|].
  apply not_elem_of_cons in Hp as [Hc Hp].
  rewrite (proj2 (Z.eqb_neq c d)) by done. by rewrite IH.
Qed.

Lemma extract_free_end d p : d ∉ p -> extract d p = (p, None).
Proof.
  induction p as [|c p IH]; intros Hp; simpl; [done|].
  apply not_elem_of_cons in Hp as [Hc Hp].
  rewrite (proj2 (Z.eqb_neq c d)) by done. by rewrite IH.
Qed.

Lemma split_join d ps : ps <> [] -> Forall (fun p => d ∉ p) ps -> split d (join d ps) = ps.
Proof.
  intros Hne Hps. induction Hps as [|p ps Hp Hps IH]; [done|].
  destruct ps as [|p' ps].
  - cbn [join]. by rewrite extract_split, extract_free_end.
  - change (join d (p :: p' :: ps)) with (p ++ d :: join d (p' :: ps)). rewrite extract_split, extract_free by done. by rewrite IH.
Qed.

(** A good stream ends, or one call of [getline] shortens it. *)
Lemma getline_good d str s :
  good s = true ->
  let '(t, s') := getline d str s in
  exists ps, split d (is_rest s) = t :: ps /\
    ((ps = [] /\ good s' = false) \/
     (ps = split d (is_rest s') /\ good s' = true /\ (length (is_rest s') < length (is_rest s))%nat)).
Proof.
  intros Hg. unfold getline. rewrite Hg. rewrite extract_split.
  destruct (extract d (is_rest s)) as [t [r|]] eqn:He.
  - exists (split d r). split; [done|]. right. split; [done|]. split; [done|].
    apply extract_length in He. simpl. lia.
  - exists []. split; [done|]. by left.
Qed.
