(* ===== verification/JsonValue.v ===== *)
(** * JsonValue: the values of jsoncpp

    [Json::Value] of [atb_sak/src/json/json_value.cpp], in the configuration of the
    build: [std::map] for arrays and objects, integers of 64 bits, [assert] active.  A
    value is its comments and its data; a reference that a method returns is the child
    in its place, so that an assignment through it is [alter_index] or [alter_member].

    What the C library does with [double] is the class [Doubles]. *)
From stdpp Require Import base list.
From S2P Require Import Prelude Streams.

Class Doubles := {
  double : Type;
  double_of_Z : Z -> double;                    (* static_cast<double> *)
  double_le : double -> double -> bool;
  double_eq : double -> double -> bool;
  double_trunc : double -> Z;                   (* conversion to an integer in range *)
  scan_double : list Z -> option double;        (* sscanf, %lf *)
  print_double : double -> list Z;              (* sprintf, %#.16g *)
}.

(** How an operation ends otherwise: [JSON_ASSERT_MESSAGE] throws [std::runtime_error],
    everything else is a fault. *)
Inductive json_stop :=
  | Throws (what : list Z)
  | Faults (f : fault).

Definition Js (A : Type) : Type := A + json_stop.
#[export] Instance js_ret : MRet Js := fun A a => inl a.
#[export] Instance js_bind : MBind Js := fun A B f m => match m with inl a => f a | inr e => inr e end.

Definition JSON_ASSERT (b : bool) : Js unit := if b then inl tt else inr (Faults AssertFailed).
Definition JSON_ASSERT_MESSAGE (b : bool) (what : string) : Js unit :=
  if b then inl tt else inr (Throws (bytes what)).

(** ** Data *)

Record comments := mk_comments {
  cm_before : option (list Z);
  cm_after_same_line : option (list Z);
  cm_after : option (list Z);
}.
Definition no_comments : comments := mk_comments None None None.

Inductive CommentPlacement := commentBefore | commentAfterOnSameLine | commentAfter.

(** The [std::map] of an array has its indices as keys; both are in the order of the
    keys.  A string is what its pointer points to up to the NUL, or [NULL]. *)
Inductive data {D : Doubles} (V : Type) :=
  | nullValue
  | intValue (n : Z)
  | uintValue (n : Z)
  | realValue (d : double)
  | stringValue (s : option (list Z))
  | booleanValue (b : bool)
  | arrayValue (m : list (Z * V))
  | objectValue (m : list (list Z * V)).
Arguments nullValue {D V}.
Arguments intValue {D V}.
Arguments uintValue {D V}.
Arguments realValue {D V}.
Arguments stringValue {D V}.
Arguments booleanValue {D V}.
Arguments arrayValue {D V}.
Arguments objectValue {D V}.

Inductive Value {D : Doubles} := Val { comments_ : comments; value_ : data Value }.
Arguments Val {D}.

Section Values.
Context {D : Doubles}.

(** Induction that reaches the children. *)
Section Induction.
Variable P : Value -> Prop.
Hypothesis Pval : forall c d,
  match d with
  | arrayValue m => Forall (fun p => P p.2) m
  | objectValue m => Forall (fun p => P p.2) m
  | _ => True
  end -> P (Val c d).

Fixpoint Value_deep_ind (v : Value) : P v :=
  let fix children {K} (m : list (K * Value)) : Forall (fun p => P p.2) m :=
    match m with
    | [] => Forall_nil_2 _
    | p :: m' => Forall_cons_2 _ _ _ (match p as q return P q.2 with (_, c) => Value_deep_ind c end) (children m')
    end in
  match v with
  | Val c d => Pval c d
      (match d as d0 return match d0 with
                            | arrayValue m => Forall (fun p => P p.2) m
                            | objectValue m => Forall (fun p => P p.2) m
                            | _ => True
                            end with
       | arrayValue m => children m
       | objectValue m => children m
       | _ => I
       end)
  end.
End Induction.

(** ** Constructors and assignment *)

Definition Value_null : Value := Val no_comments nullValue.
Definition of_int (n : Z) : Value := Val no_comments (intValue n).
Definition of_uint (n : Z) : Value := Val no_comments (uintValue n).
Definition of_double (d : double) : Value := Val no_comments (realValue d).
Definition of_string (s : list Z) : Value := Val no_comments (stringValue (Some (c_text s))).
Definition of_bool (b : bool) : Value := Val no_comments (booleanValue b).
Definition of_array : Value := Val no_comments (arrayValue []).
Definition of_object : Value := Val no_comments (objectValue []).

(** [operator=]: the comments of the left side stay. *)
Definition assign (other self : Value) : Value := Val (comments_ self) (value_ other).

Definition setComment (text : list Z) (p : CommentPlacement) (v : Value) : Js Value :=
  let text := c_text text in
  JSON_ASSERT_MESSAGE (match text with [] => true | c :: _ => c =? chr "/" end) "Comments must start with /" ;;
  let c := comments_ v in
  mret (Val (match p with
             | commentBefore => mk_comments (Some text) (cm_after_same_line c) (cm_after c)
             | commentAfterOnSameLine => mk_comments (cm_before c) (Some text) (cm_after c)
             | commentAfter => mk_comments (cm_before c) (cm_after_same_line c) (Some text)
             end) (value_ v)).

Definition getComment_opt (p : CommentPlacement) (v : Value) : option (list Z) :=
  match p with
  | commentBefore => cm_before (comments_ v)
  | commentAfterOnSameLine => cm_after_same_line (comments_ v)
  | commentAfter => cm_after (comments_ v)
  end.
Definition hasComment (p : CommentPlacement) (v : Value) : bool := bool_decide (is_Some (getComment_opt p v)).
Definition getComment (p : CommentPlacement) (v : Value) : list Z := default [] (getComment_opt p v).

(** ** Types *)

Definition isNull (v : Value) : bool := match value_ v with nullValue => true | _ => false end.
Definition isBool (v : Value) : bool := match value_ v with booleanValue _ => true | _ => false end.
Definition isInt (v : Value) : bool := match value_ v with intValue _ => true | _ => false end.
Definition isUInt (v : Value) : bool := match value_ v with uintValue _ => true | _ => false end.
Definition isIntegral (v : Value) : bool := isInt v || isUInt v || isBool v.
Definition isDouble (v : Value) : bool := match value_ v with realValue _ => true | _ => false end.
Definition isNumeric (v : Value) : bool := isIntegral v || isDouble v.
Definition isString (v : Value) : bool := match value_ v with stringValue _ => true | _ => false end.
Definition isArray (v : Value) : bool := match value_ v with nullValue | arrayValue _ => true | _ => false end.
Definition isObject (v : Value) : bool := match value_ v with nullValue | objectValue _ => true | _ => false end.

(** ** Conversions *)

Definition minInt : Z := - 2 ^ 31.
Definition maxInt : Z := 2 ^ 31 - 1.
Definition maxUInt : Z := 2 ^ 32 - 1.
Definition minInt64 : Z := - 2 ^ 63.
Definition maxInt64 : Z := 2 ^ 63 - 1.
Definition maxUInt64 : Z := 2 ^ 64 - 1.

Definition between (lo hi : Z) (d : double) : bool :=
  double_le (double_of_Z lo) d && double_le d (double_of_Z hi).

Definition asCString (v : Value) : Js (option (list Z)) :=
  match value_ v with stringValue s => mret s | _ => inr (Faults AssertFailed) end.

Definition asString (v : Value) : Js (list Z) :=
  match value_ v with
  | nullValue => mret []
  | stringValue s => mret (default [] s)
  | booleanValue b => mret (bytes (if b then "true" else "false"))
  | _ => inr (Throws (bytes "Type is not convertible to string"))
  end.

Definition asInt (v : Value) : Js Z :=
  match value_ v with
  | nullValue => mret 0
  | intValue n =>
      JSON_ASSERT_MESSAGE ((minInt <=? n) && (n <=? maxInt)) "unsigned integer out of signed int range" ;; mret n
  | uintValue n => JSON_ASSERT_MESSAGE (n <=? maxInt) "unsigned integer out of signed int range" ;; mret n
  | realValue d => JSON_ASSERT_MESSAGE (between minInt maxInt d) "Real out of signed integer range" ;; mret (double_trunc d)
  | booleanValue b => mret (if b then 1 else 0)
  | _ => inr (Throws (bytes "Type is not convertible to int"))
  end.

Definition asUInt (v : Value) : Js Z :=
  match value_ v with
  | nullValue => mret 0
  | intValue n =>
      JSON_ASSERT_MESSAGE (0 <=? n) "Negative integer can not be converted to unsigned integer" ;;
      JSON_ASSERT_MESSAGE (n <=? maxUInt) "signed integer out of UInt range" ;; mret n
  | uintValue n => JSON_ASSERT_MESSAGE (n <=? maxUInt) "unsigned integer out of UInt range" ;; mret n
  | realValue d => JSON_ASSERT_MESSAGE (between 0 maxUInt d) "Real out of unsigned integer range" ;; mret (double_trunc d)
  | booleanValue b => mret (if b then 1 else 0)
  | _ => inr (Throws (bytes "Type is not convertible to uint"))
  end.

(** The conversion of a [double] to [Int64] goes through [Int], that to [UInt64] through
    [UInt]: behaviour for values beyond is not defined. *)
Definition asInt64 (v : Value) : Js Z :=
  match value_ v with
  | nullValue => mret 0
  | intValue n => mret n
  | uintValue n => JSON_ASSERT_MESSAGE (n <=? maxInt64) "unsigned integer out of Int64 range" ;; mret n
  | realValue d =>
      JSON_ASSERT_MESSAGE (between minInt64 maxInt64 d) "Real out of Int64 range" ;;
      (if between minInt maxInt d then mret (double_trunc d) else inr (Faults Overflow))
  | booleanValue b => mret (if b then 1 else 0)
  | _ => inr (Throws (bytes "Type is not convertible to Int64"))
  end.

Definition asUInt64 (v : Value) : Js Z :=
  match value_ v with
  | nullValue => mret 0
  | intValue n => JSON_ASSERT_MESSAGE (0 <=? n) "Negative integer can not be converted to UInt64" ;; mret n
  | uintValue n => mret n
  | realValue d =>
      JSON_ASSERT_MESSAGE (between 0 maxUInt64 d) "Real out of UInt64 range" ;;
      (if between 0 maxUInt d then mret (double_trunc d) else inr (Faults Overflow))
  | booleanValue b => mret (if b then 1 else 0)
  | _ => inr (Throws (bytes "Type is not convertible to UInt64"))
  end.

Definition asLargestInt : Value -> Js Z := asInt64.
Definition asLargestUInt : Value -> Js Z := asUInt64.

Definition asDouble (v : Value) : Js double :=
  match value_ v with
  | nullValue => mret (double_of_Z 0)
  | intValue n | uintValue n => mret (double_of_Z n)
  | realValue d => mret d
  | booleanValue b => mret (double_of_Z (if b then 1 else 0))
  | _ => inr (Throws (bytes "Type is not convertible to double"))
  end.

Definition asBool (v : Value) : bool :=
  match value_ v with
  | nullValue => false
  | intValue n | uintValue n => negb (n =? 0)
  | realValue d => negb (double_eq d (double_of_Z 0))
  | booleanValue b => b
  | stringValue s => match s with Some (_ :: _) => true | _ => false end
  | arrayValue m => negb (zlen m =? 0)
  | objectValue m => negb (zlen m =? 0)
  end.

(** ** Containers *)

(** [lower_bound] and [insert] of a map with keys ordered by [lt]: the child with a key,
    put in as null if it is not there, is replaced by [f] of it. *)
Fixpoint map_alter {K} (lt : K -> K -> bool) (k : K) (f : Value -> Value) (m : list (K * Value)) : list (K * Value) :=
  match m with
  | [] => [(k, f Value_null)]
  | (k', v) :: m' =>
      if lt k' k then (k', v) :: map_alter lt k f m'
      else if lt k k' then (k, f Value_null) :: m
      else (k', f v) :: m'
  end.

Fixpoint map_find {K V} (lt : K -> K -> bool) (k : K) (m : list (K * V)) : option V :=
  match m with
  | [] => None
  | (k', v) :: m' => if lt k' k then map_find lt k m' else if lt k k' then None else Some v
  end.

Fixpoint map_erase {K V} (lt : K -> K -> bool) (k : K) (m : list (K * V)) : list (K * V) :=
  match m with
  | [] => []
  | (k', v) :: m' => if lt k' k then (k', v) :: map_erase lt k m' else if lt k k' then m else m'
  end.

(** The keys of an object are C strings. *)
Definition Value_size (v : Value) : Z :=
  match value_ v with
  | arrayValue m => match last m with Some (i, _) => uwrap 32 (i + 1) | None => 0 end
  | objectValue m => uwrap 32 (zlen m)
  | _ => 0
  end.

Definition Value_empty (v : Value) : bool := if isNull v || isArray v || isObject v then Value_size v =? 0 else false.

Definition Value_clear (v : Value) : Js Value :=
  JSON_ASSERT (isArray v || isObject v) ;;
  mret (match value_ v with
        | arrayValue _ => Val (comments_ v) (arrayValue [])
        | objectValue _ => Val (comments_ v) (objectValue [])
        | _ => v
        end).

(** [operator[]] for an index and for a key, with what is done to the child. *)
Definition alter_index (i : Z) (f : Value -> Value) (v : Value) : Js Value :=
  JSON_ASSERT (isArray v) ;;
  mret (match value_ v with
        | arrayValue m => Val (comments_ v) (arrayValue (map_alter Z.ltb i f m))
        | _ => Val (comments_ v) (arrayValue (map_alter Z.ltb i f []))
        end).

Definition alter_member (key : list Z) (f : Value -> Value) (v : Value) : Js Value :=
  JSON_ASSERT (isObject v) ;;
  mret (match value_ v with
        | objectValue m => Val (comments_ v) (objectValue (map_alter str_ltb (c_text key) f m))
        | _ => Val (comments_ v) (objectValue (map_alter str_ltb (c_text key) f []))
        end).

(** [v[key] = x] and [append] *)
Definition set_member (key : list Z) (x v : Value) : Js Value := alter_member key (assign x) v.
Definition append (x v : Value) : Js Value := alter_index (Value_size v) (assign x) v.

(** The constant [operator[]]. *)
Definition find_index (i : Z) (v : Value) : Js (option Value) :=
  JSON_ASSERT (isArray v) ;;
  mret (match value_ v with arrayValue m => map_find Z.ltb i m | _ => None end).
Definition find_member (key : list Z) (v : Value) : Js (option Value) :=
  JSON_ASSERT (isObject v) ;;
  mret (match value_ v with objectValue m => map_find str_ltb (c_text key) m | _ => None end).

Definition at_index (i : Z) (v : Value) : Js Value := r ← find_index i v; mret (default Value_null r).
Definition at_member (key : list Z) (v : Value) : Js Value := r ← find_member key v; mret (default Value_null r).

(** [operator[]] of a value that is not constant, to read: the key is put in. *)
Definition fetch_member (key : list Z) (v : Value) : Js (Value * Value) :=
  v' ← alter_member key id v; c ← at_member key v'; mret (c, v').

Definition get_index (i : Z) (dflt v : Value) : Js Value := r ← find_index i v; mret (default dflt r).
Definition get_member (key : list Z) (dflt v : Value) : Js Value := r ← find_member key v; mret (default dflt r).
Definition isValidIndex (i : Z) (v : Value) : bool := i <? Value_size v.
Definition isMember (key : list Z) (v : Value) : Js bool := r ← find_member key v; mret (bool_decide (is_Some r)).

Definition removeMember (key : list Z) (v : Value) : Js (Value * Value) :=
  r ← find_member key v;
  mret (match r, value_ v with
        | Some old, objectValue m => (old, Val (comments_ v) (objectValue (map_erase str_ltb (c_text key) m)))
        | _, _ => (Value_null, v)
        end).

Definition getMemberNames (v : Value) : Js (list (list Z)) :=
  JSON_ASSERT (isObject v) ;;
  mret (match value_ v with objectValue m => m.*1 | _ => [] end).

(** The indices from the new size on are erased, then the size is asserted. *)
Definition resize (newSize : Z) (v : Value) : Js Value :=
  JSON_ASSERT (isArray v) ;;
  let v := if isNull v then assign of_array v else v in
  if newSize =? 0 then Value_clear v
  else if Value_size v <? newSize then alter_index (newSize - 1) id v
  else
    match value_ v with
    | arrayValue m =>
        let v := Val (comments_ v) (arrayValue (filter (fun p => p.1 < newSize) m)) in
        JSON_ASSERT (Value_size v =? newSize) ;; mret v
    | _ => mret v
    end.

(** ** Comparison *)

(** The number of the constructor, as the [enum] has it. *)
Definition type_ (v : Value) : Z :=
  match value_ v with
  | nullValue => 0 | intValue _ => 1 | uintValue _ => 2 | realValue _ => 3
  | stringValue _ => 4 | booleanValue _ => 5 | arrayValue _ => 6 | objectValue _ => 7
  end.

(** [other] is one of the numbers of [type_]; [maxInt] is converted to [unsigned]. *)
Definition isConvertibleTo (other : Z) (v : Value) : bool :=
  let one_of l := existsb (Z.eqb other) l in
  match value_ v with
  | nullValue => true
  | intValue n => ((other =? 0) && (n =? 0)) || (other =? 1) || ((other =? 2) && (0 <=? n)) || one_of [3; 4; 5]
  | uintValue n => ((other =? 0) && (n =? 0)) || ((other =? 1) && (n <=? maxInt)) || one_of [2; 3; 4; 5]
  | realValue d =>
      ((other =? 0) && double_eq d (double_of_Z 0)) || ((other =? 1) && between minInt maxInt d)
      || ((other =? 2) && between 0 maxUInt d) || one_of [3; 4; 5]
  | booleanValue b => ((other =? 0) && negb b) || one_of [1; 2; 3; 4; 5]
  | stringValue s => (other =? 4) || ((other =? 0) && match s with None | Some [] => true | Some _ => false end)
  | arrayValue m => (other =? 6) || ((other =? 0) && bool_decide (length m = 0%nat))
  | objectValue m => (other =? 7) || ((other =? 0) && bool_decide (length m = 0%nat))
  end.

(** [operator==] of [std::map]: the same keys with equal children, in order. *)
Definition map_eq {K} (eqk : K -> K -> bool) (m : list (K * (Value -> bool))) : list (K * Value) -> bool :=
  (fix go m l :=
    match m, l with
    | [], [] => true
    | (k, e) :: m', (k', v) :: l' => eqk k k' && e v && go m' l'
    | _, _ => false
    end) m.

Fixpoint value_eqb (v w : Value) {struct v} : bool :=
  match v, w with
  | Val _ d, Val _ e =>
      match d, e with
      | nullValue, nullValue => true
      | intValue a, intValue b | uintValue a, uintValue b => a =? b
      | realValue a, realValue b => double_eq a b
      | booleanValue a, booleanValue b => Bool.eqb a b
      | stringValue a, stringValue b => bool_decide (a = b)
      | arrayValue m, arrayValue l => map_eq Z.eqb (map (fun p => match p with (k, x) => (k, value_eqb x) end) m) l
      | objectValue m, objectValue l =>
          map_eq (fun a b => bool_decide (a = b)) (map (fun p => match p with (k, x) => (k, value_eqb x) end) m) l
      | _, _ => false
      end
  end.

(** ** The invariant of the containers

    Keys in strictly ascending order; strings without NUL; numbers in their width. *)
Fixpoint sorted_keys {K V} (lt : K -> K -> bool) (m : list (K * V)) : Prop :=
  match m with
  | [] => True
  | (k, _) :: m' => (match m' with (k', _) :: _ => lt k k' = true | [] => True end) /\ sorted_keys lt m'
  end.

Definition c_string (s : list Z) : Prop := is_buf s /\ 0 ∉ s.

Fixpoint value_ok (v : Value) : Prop :=
  match v with
  | Val _ d =>
      match d with
      | nullValue | realValue _ | booleanValue _ => True
      | intValue n => minInt64 <= n <= maxInt64
      | uintValue n => 0 <= n <= maxUInt64
      | stringValue s => match s with Some s => c_string s | None => True end
      | arrayValue m => sorted_keys Z.ltb m /\ Forall (fun p => 0 <= p.1) m /\
          foldr and True (map (fun p => match p with (_, x) => value_ok x end) m)
      | objectValue m => sorted_keys str_ltb m /\ Forall (fun p => c_string p.1) m /\
          foldr and True (map (fun p => match p with (_, x) => value_ok x end) m)
      end
  end.
End Values.
