(* ===== verification/JsonWriter.v ===== *)
(** * JsonWriter: JSON texts

    [valueToString], [valueToQuotedString], [FastWriter] and [StyledWriter] of
    [atb_sak/src/json/json_writer.cpp] and [json_tool.h].  A writer appends to its
    document; its faults are the assertions and a [NULL] string.  The
    sums of lengths, which the code keeps in an [int], are not bounded here. *)
From stdpp Require Import base list.
From S2P Require Import Prelude Control Streams JsonValue.

(** ** Scalars *)

(** [char] is signed: bytes from 128 on are negative. *)
Definition isControlCharacter (ch : Z) : bool := (0 <? ch) && (ch <=? 31).
Definition containsControlCharacter (str : list Z) : bool := existsb isControlCharacter str.

Definition uintToString (value : Z) : list Z := dec_text value.

Definition valueToString_uint (value : Z) : list Z := uintToString value.

(** The negation of the least integer wraps around, and back when it is taken as
    unsigned. *)
Definition valueToString_int (value : Z) : list Z :=
  if value <? 0 then chr "-" :: uintToString (uwrap 64 (- value)) else uintToString value.

Definition valueToString_bool (b : bool) : list Z := bytes (if b then "true" else "false").

Fixpoint skip_while (f : Z -> bool) (l : list Z) : list Z :=
  match l with
  | [] => []
  | c :: l' => if f c then skip_while f l' else l
  end.

Definition is_digit (c : Z) : bool := (chr "0" <=? c) && (c <=? chr "9").

(** Zeros at the end are cut, but for one after the last digit that is none, if the text
    has a point before nothing but digits. *)
Definition valueToString_double {D : Doubles} (d : double) : list Z :=
  let buffer := print_double d in
  match rev buffer with
  | c :: r =>
      if negb (c =? chr "0") then buffer
      else
        let kept := match skip_while (Z.eqb (chr "0")) r with [] => take 1 buffer | k => k end in
        match skip_while is_digit kept with
        | p :: _ => if p =? chr "." then take (length kept + 1) buffer else buffer
        | [] => buffer
        end
  | [] => buffer
  end.

Definition QUOTE : Z := 34.
Definition BACKSLASH : Z := 92.

Definition hex_upper (d : Z) : Z := if d <? 10 then chr "0" + d else chr "A" + (d - 10).

(** A backslash, [u] and [setw(4)] of the number in base 16 *)
Definition u_escape (c : Z) : list Z :=
  [BACKSLASH; chr "u"; hex_upper (c / 4096 mod 16); hex_upper (c / 256 mod 16); hex_upper (c / 16 mod 16); hex_upper (c mod 16)].

Definition escape_char (c : Z) : list Z :=
  if c =? QUOTE then [BACKSLASH; QUOTE]
  else if c =? BACKSLASH then [BACKSLASH; BACKSLASH]
  else if c =? 8 then [BACKSLASH; chr "b"]
  else if c =? 12 then [BACKSLASH; chr "f"]
  else if c =? 10 then [BACKSLASH; chr "n"]
  else if c =? 13 then [BACKSLASH; chr "r"]
  else if c =? 9 then [BACKSLASH; chr "t"]
  else if isControlCharacter c then u_escape c
  else [c].

Definition special_char (c : Z) : bool := existsb (Z.eqb c) [QUOTE; BACKSLASH; 8; 12; 10; 13; 9].

Definition valueToQuotedString (value : list Z) : list Z :=
  if negb (existsb special_char value) && negb (containsControlCharacter value) then QUOTE :: value ++ [QUOTE]
  else QUOTE :: concat (map escape_char value) ++ [QUOTE].

(** The text of a value that has no children; [asCString] may be [NULL]. *)
Definition scalar_text {D : Doubles} {V} (d : data V) : list Z + fault :=
  match d with
  | intValue n => inl (valueToString_int n)
  | uintValue n => inl (valueToString_uint n)
  | realValue d => inl (valueToString_double d)
  | stringValue (Some s) => inl (valueToQuotedString s)
  | stringValue None => inr OutOfBounds
  | booleanValue b => inl (valueToString_bool b)
  | _ => inl (bytes "null")
  end.

(** [int size = value.size()] *)
Definition to_int (n : Z) : Z := if n <? 2 ^ 31 then n else n - 2 ^ 32.

(** ** FastWriter *)
Section Fast.
Context {D : Doubles} (yamlCompatiblityEnabled_ : bool).

Abbreviation FW := (Ctl fault (list Z)).

Definition fw_emit (t : list Z) : FW unit := modify (fun document_ => document_ ++ t).
Definition fw_text (t : list Z + fault) : FW unit := match t with inl t => fw_emit t | inr f => exit f end.

(** The elements between commas. *)
Fixpoint fw_sep (first : bool) (l : list (FW unit)) : FW unit :=
  match l with
  | [] => mret tt
  | w :: l' => when (negb first) (fw_emit (bytes ",")) ;; w ;; fw_sep false l'
  end.

Definition fw_child {K} (lt : K -> K -> bool) (children : list (K * FW unit)) (k : K) : FW unit :=
  default (fw_emit (bytes "null")) (map_find lt k children).

Fixpoint fast_value (v : Value) : FW unit :=
  match v with
  | Val c d =>
      match d with
      | arrayValue m =>
          let children := map (fun p => match p with (i, x) => (i, fast_value x) end) m in
          fw_emit (bytes "[") ;;
          fw_sep true (map (fw_child Z.ltb children) (seqZ 0 (to_int (Value_size v)))) ;;
          fw_emit (bytes "]")
      | objectValue m =>
          let children := map (fun p => match p with (k, x) => (k, fast_value x) end) m in
          fw_emit (bytes "{") ;;
          fw_sep true (map (fun name =>
            fw_emit (valueToQuotedString (c_text name)) ;;
            fw_emit (bytes (if yamlCompatiblityEnabled_ then ": " else ":")) ;;
            fw_child str_ltb children (c_text name)) m.*1) ;;
          fw_emit (bytes "}")
      | _ => fw_text (scalar_text d)
      end
  end.

Definition FastWriter_write (root : Value) : list Z + fault :=
  match (fast_value root ;; fw_emit [LF]) [] with
  | inl (_, document_) => inl document_
  | inr (f, _) => inr f
  end.
End Fast.

(** ** StyledWriter *)
Record StyledWriter := mk_styled {
  sw_document : list Z;
  sw_childValues : list (list Z);
  sw_indentString : list Z;
  sw_addChildValues : bool;
}.

Definition rightMargin_ : Z := 74.
Definition indentSize_ : Z := 3.

Definition set_sw_document (d : list Z) (w : StyledWriter) := mk_styled d (sw_childValues w) (sw_indentString w) (sw_addChildValues w).
Definition set_sw_childValues (l : list (list Z)) (w : StyledWriter) := mk_styled (sw_document w) l (sw_indentString w) (sw_addChildValues w).
Definition set_sw_indentString (s : list Z) (w : StyledWriter) := mk_styled (sw_document w) (sw_childValues w) s (sw_addChildValues w).
Definition set_sw_addChildValues (b : bool) (w : StyledWriter) := mk_styled (sw_document w) (sw_childValues w) (sw_indentString w) b.

Fixpoint normalizeEOL (text : list Z) : list Z :=
  match text with
  | [] => []
  | c :: t =>
      if c =? CR then
        LF :: match t with
              | c' :: t' => if c' =? LF then normalizeEOL t' else normalizeEOL t
              | [] => []
              end
      else c :: normalizeEOL t
  end.

(** What [StyledWriter] and [StyledStreamWriter], whose code is otherwise the same, do
    differently: the indentation of a level and the method [writeIndent]. *)
Class Layout := {
  indentation_ : list Z;
  put_indent : Ctl fault StyledWriter unit;
}.

(** [StyledWriter::writeIndent] *)
Definition writeIndent : Ctl fault StyledWriter unit :=
  modify (fun w =>
    match last (sw_document w) with
    | None => set_sw_document (sw_document w ++ sw_indentString w) w
    | Some c =>
        if c =? chr " " then w
        else set_sw_document (sw_document w ++ (if c =? LF then [] else [LF]) ++ sw_indentString w) w
    end).

Definition styled_layout : Layout := {|
  indentation_ := repeat (chr " ") (Z.to_nat indentSize_);
  put_indent := writeIndent;
|}.

Section Styled.
Context {D : Doubles}.

Abbreviation SW := (Ctl fault StyledWriter).

Definition assert (b : bool) : SW unit := if b then mret tt else exit AssertFailed.
Definition sw_emit (t : list Z) : SW unit := modify (fun w => set_sw_document (sw_document w ++ t) w).

Definition pushValue (value : list Z) : SW unit :=
  modify (fun w => if sw_addChildValues w then set_sw_childValues (sw_childValues w ++ [value]) w
                   else set_sw_document (sw_document w ++ value) w).

Context {L : Layout}.

Definition writeWithIndent (value : list Z) : SW unit := put_indent ;; sw_emit value.

Definition indent : SW unit :=
  modify (fun w => set_sw_indentString (sw_indentString w ++ indentation_) w).

Definition unindent : SW unit :=
  n ← gets (fun w => zlen (sw_indentString w));
  assert (zlen indentation_ <=? n) ;;
  modify (fun w => set_sw_indentString (take (Z.to_nat (n - zlen indentation_)) (sw_indentString w)) w).

Definition writeCommentBeforeValue (root : Value) : SW unit :=
  when (hasComment commentBefore root) (sw_emit (normalizeEOL (getComment commentBefore root) ++ [LF])).

Definition writeCommentAfterValueOnSameLine (root : Value) : SW unit :=
  when (hasComment commentAfterOnSameLine root) (sw_emit (bytes " " ++ normalizeEOL (getComment commentAfterOnSameLine root))) ;;
  when (hasComment commentAfter root) (sw_emit ([LF] ++ normalizeEOL (getComment commentAfter root) ++ [LF])).

(** A child with the way to write it. *)
Definition child : Type := Value * SW unit.
Definition null_child : child := (Value_null, pushValue (bytes "null")).

Definition pick {K} (lt : K -> K -> bool) (children : list (K * child)) (k : K) : child :=
  default null_child (map_find lt k children).

(** The element [childValues_[index]]. *)
Definition childValue (index : Z) : SW (list Z) :=
  l ← gets sw_childValues;
  match zlookup l index with Some t => mret t | None => exit OutOfBounds end.

(** The first pass over a short array: its elements become [childValues_], and their
    lengths are added.  The assignment [isMultiLine && hasCommentForValue( ... )] in its
    loop leaves [isMultiLine] false. *)
Fixpoint push_children (index : Z) (l : list child) (lineLength : Z) : SW Z :=
  match l with
  | [] => mret lineLength
  | (_, w) :: l' =>
      w ;; t ← childValue index; push_children (index + 1) l' (lineLength + zlen t)
  end.

Definition isMultineArray (size : Z) (l : list child) : SW bool :=
  modify (set_sw_childValues []) ;;
  let size := to_int size in
  let l := if size <? 0 then [] else l in
  if negb ((- 2 ^ 31 <=? size * 3) && (size * 3 <? 2 ^ 31)) then exit Overflow
  else if (rightMargin_ <=? size * 3) ||
     existsb (fun p : child => (isArray p.1 || isObject p.1) && (0 <? Value_size p.1)) l
  then mret true
  else
    modify (set_sw_addChildValues true) ;;
    lineLength ← push_children 0 l (4 + (size - 1) * 2);
    modify (set_sw_addChildValues false) ;;
    mret (rightMargin_ <=? lineLength).

(** The elements of an array over several lines. *)
Fixpoint array_lines (hasChildValue : bool) (index : Z) (l : list child) : SW unit :=
  match l with
  | [] => mret tt
  | (c, w) :: l' =>
      writeCommentBeforeValue c ;;
      (if hasChildValue then t ← childValue index; writeWithIndent t else put_indent ;; w) ;;
      when (bool_decide (l' <> [])) (sw_emit (bytes ",")) ;;
      writeCommentAfterValueOnSameLine c ;;
      array_lines hasChildValue (index + 1) l'
  end.

Fixpoint array_line (first : bool) (l : list (list Z)) : SW unit :=
  match l with
  | [] => mret tt
  | t :: l' => when (negb first) (sw_emit (bytes ", ")) ;; sw_emit t ;; array_line false l'
  end.

Definition writeArrayValue (size : Z) (l : list child) : SW unit :=
  if size =? 0 then pushValue (bytes "[]")
  else
    isArrayMultiLine ← isMultineArray size l;
    if (isArrayMultiLine : bool) then
      writeWithIndent (bytes "[") ;;
      indent ;;
      hasChildValue ← gets (fun w => bool_decide (sw_childValues w <> []));
      array_lines hasChildValue 0 l ;;
      unindent ;;
      writeWithIndent (bytes "]")
    else
      texts ← gets sw_childValues;
      assert (zlen texts =? size) ;;
      sw_emit (bytes "[ ") ;;
      array_line true texts ;;
      sw_emit (bytes " ]").

Fixpoint object_lines (l : list (list Z * child)) : SW unit :=
  match l with
  | [] => mret tt
  | (name, (c, w)) :: l' =>
      writeCommentBeforeValue c ;;
      writeWithIndent (valueToQuotedString (c_text name)) ;;
      sw_emit (bytes " : ") ;;
      w ;;
      when (bool_decide (l' <> [])) (sw_emit (bytes ",")) ;;
      writeCommentAfterValueOnSameLine c ;;
      object_lines l'
  end.

Definition writeObjectValue (l : list (list Z * child)) : SW unit :=
  match l with
  | [] => pushValue (bytes "{}")
  | _ => writeWithIndent (bytes "{") ;; indent ;; object_lines l ;; unindent ;; writeWithIndent (bytes "}")
  end.

Fixpoint styled_value (v : Value) : SW unit :=
  match v with
  | Val c d =>
      match d with
      | arrayValue m =>
          let children := map (fun p => match p with (i, x) => (i, (x, styled_value x)) end) m in
          writeArrayValue (Value_size v) (map (pick Z.ltb children) (seqZ 0 (Value_size v)))
      | objectValue m =>
          let children := map (fun p => match p with (k, x) => (k, (x, styled_value x)) end) m in
          writeObjectValue (map (fun name => (name, pick str_ltb children (c_text name))) m.*1)
      | _ => match scalar_text d with inl t => pushValue t | inr f => exit f end
      end
  end.

(** What [write] leaves in a document. *)
Definition write_document (out : list Z) (root : Value) : list Z + fault :=
  match (writeCommentBeforeValue root ;; styled_value root ;; writeCommentAfterValueOnSameLine root ;; sw_emit [LF])
          (mk_styled out [] [] false) with
  | inl (_, w) => inl (sw_document w)
  | inr (f, _) => inr f
  end.
End Styled.

Definition StyledWriter_write {D : Doubles} (root : Value) : list Z + fault := write_document (L := styled_layout) [] root.

Definition toStyledString {D : Doubles} (v : Value) : list Z + fault := StyledWriter_write v.
