(* ===== verification/JsonReader.v ===== *)
(** * JsonReader: parsing JSON texts

    [Reader] of [atb_sak/src/json/json_reader.cpp] on a [std::string].  A [Location] is
    the rest of the document from there, so that [end_] is the empty list, and what lies
    behind it is the NUL of the string.  The tree that is built is part of the state; a
    pointer into it ([nodes_], [lastValue_]) is the path from the root. *)
From stdpp Require Import base list.
From S2P Require Import Prelude Control Streams JsonValue JsonWriter.

(** ** Paths *)
Inductive step := Idx (i : Z) | Key (k : list Z).
Definition path : Type := list step.
#[export] Instance step_eq : EqDecision step.
Proof. solve_decision. Defined.

Section Paths.
Context {D : Doubles}.

Definition step_alter (s : step) (f : Value -> Value) (v : Value) : Value :=
  match s, value_ v with
  | Idx i, arrayValue m => Val (comments_ v) (arrayValue (map_alter Z.ltb i f m))
  | Key k, objectValue m => Val (comments_ v) (objectValue (map_alter str_ltb k f m))
  | _, _ => v
  end.

Fixpoint path_alter (p : path) (f : Value -> Value) (v : Value) : Value :=
  match p with
  | [] => f v
  | s :: p' => step_alter s (path_alter p' f) v
  end.

Definition step_lookup (s : step) (v : Value) : option Value :=
  match s, value_ v with
  | Idx i, arrayValue m => map_find Z.ltb i m
  | Key k, objectValue m => map_find str_ltb k m
  | _, _ => None
  end.

Fixpoint path_lookup (p : path) (v : Value) : option Value :=
  match p with
  | [] => Some v
  | s :: p' => match step_lookup s v with Some x => path_lookup p' x | None => None end
  end.
End Paths.

(** ** Tokens and errors *)
Definition Location : Type := list Z.

Inductive TokenType :=
  | tokenEndOfStream | tokenObjectBegin | tokenObjectEnd | tokenArrayBegin | tokenArrayEnd
  | tokenString | tokenNumber | tokenTrue | tokenFalse | tokenNull
  | tokenArraySeparator | tokenMemberSeparator | tokenComment | tokenError.
#[export] Instance TokenType_eq : EqDecision TokenType.
Proof. solve_decision. Defined.

Record Token := mk_token { tk_type : TokenType; tk_start : Location; tk_end : Location }.

Record ErrorInfo := mk_error { er_token : Token; er_message : list Z; er_extra : option Location }.

(** [*current_] *)
Definition deref (l : Location) : Z := match l with [] => 0 | c :: _ => c end.

(** [std::string( begin, end )] *)
Definition text_between (b e : Location) : list Z := take (length b - length e) b.

Definition containsNewLine (b e : Location) : bool := existsb (fun c => (c =? LF) || (c =? CR)) (text_between b e).

Section Reader.
Context {D : Doubles}.

Record Reader := mk_reader {
  rd_current : Location;
  rd_lastValueEnd : option Location;
  rd_lastValue : option path;
  rd_commentsBefore : list Z;
  rd_errors : list ErrorInfo;
  rd_nodes : list path;
  rd_root : Value;
}.

Definition set_current (v : Location) r := mk_reader v (rd_lastValueEnd r) (rd_lastValue r) (rd_commentsBefore r) (rd_errors r) (rd_nodes r) (rd_root r).
Definition set_lastValue (e : option Location) (v : option path) r := mk_reader (rd_current r) e v (rd_commentsBefore r) (rd_errors r) (rd_nodes r) (rd_root r).
Definition set_commentsBefore (v : list Z) r := mk_reader (rd_current r) (rd_lastValueEnd r) (rd_lastValue r) v (rd_errors r) (rd_nodes r) (rd_root r).
Definition set_errors (v : list ErrorInfo) r := mk_reader (rd_current r) (rd_lastValueEnd r) (rd_lastValue r) (rd_commentsBefore r) v (rd_nodes r) (rd_root r).
Definition set_nodes (v : list path) r := mk_reader (rd_current r) (rd_lastValueEnd r) (rd_lastValue r) (rd_commentsBefore r) (rd_errors r) v (rd_root r).
Definition set_root (v : Value) r := mk_reader (rd_current r) (rd_lastValueEnd r) (rd_lastValue r) (rd_commentsBefore r) (rd_errors r) (rd_nodes r) v.

Abbreviation RD := (Ctl json_stop Reader).

Definition lift {A} (m : Js A) : RD A := match m with inl a => mret a | inr e => exit e end.
Definition rd_assert (b : bool) : RD unit := if b then mret tt else exit (Faults AssertFailed).

Variables (allowComments_ strictRoot_ collectComments_ : bool).

(** ** The tree *)

(** [currentValue()]: the path of the top of [nodes_]; [top] of an empty stack is not
    defined. *)
Definition current_path : RD path :=
  nodes ← gets rd_nodes; match nodes with p :: _ => mret p | [] => exit (Faults OutOfBounds) end.

(** What is at a pointer, replaced; a pointer to nothing is an access to freed memory. *)
Definition change_at (p : path) (f : Value -> Js Value) : RD unit :=
  root ← gets rd_root;
  match path_lookup p root with
  | None => exit (Faults OutOfBounds)
  | Some x => v ← lift (f x); modify (set_root (path_alter p (fun _ => v) root))
  end.

Definition change_current (f : Value -> Js Value) : RD unit := p ← current_path; change_at p f.
Definition assign_current (v : Value) : RD unit := change_current (fun x => mret (assign v x)).

(** [nodes_.push( &currentValue()[ s ] )] *)
Definition push_child (s : step) : RD unit :=
  change_current (fun v => match s with Idx i => alter_index i id v | Key k => alter_member k id v end) ;;
  p ← current_path;
  modify (fun r => set_nodes ((p ++ [match s with Idx i => Idx i | Key k => Key (c_text k) end]) :: rd_nodes r) r).
Definition pop_node : RD unit := modify (fun r => set_nodes (tail (rd_nodes r)) r).

(** ** Characters *)

Definition getNextChar : RD Z :=
  l ← gets rd_current;
  match l with [] => mret 0 | c :: l' => modify (set_current l') ;; mret c end.

Definition is_space (c : Z) : bool := (c =? 32) || (c =? 9) || (c =? 13) || (c =? 10).
Definition skipSpaces : RD unit := modify (fun r => set_current (skip_while is_space (rd_current r)) r).

Fixpoint is_prefix (pattern l : list Z) : bool :=
  match pattern, l with
  | [], _ => true
  | c :: p', d :: l' => (c =? d) && is_prefix p' l'
  | _, [] => false
  end.

Definition match_text (pattern : list Z) : RD bool :=
  l ← gets rd_current;
  if is_prefix pattern l then modify (set_current (drop (length pattern) l)) ;; mret true else mret false.

(** ** Errors *)

Definition addError (message : list Z) (token : Token) (extra : option Location) : RD bool :=
  modify (fun r => set_errors (rd_errors r ++ [mk_error token message extra]) r) ;; mret false.

(** ** Comments *)

Fixpoint c_style_end (l : Location) : Location :=
  match l with
  | [] => []
  | c :: l' => if (c =? chr "*") && (deref l' =? chr "/") then l' else c_style_end l'
  end.
Definition readCStyleComment : RD bool :=
  modify (fun r => set_current (c_style_end (rd_current r)) r) ;; c ← getNextChar; mret (c =? chr "/").

Fixpoint cpp_style_end (l : Location) : Location :=
  match l with
  | [] => []
  | c :: l' => if (c =? CR) || (c =? LF) then l' else cpp_style_end l'
  end.
Definition readCppStyleComment : RD bool :=
  modify (fun r => set_current (cpp_style_end (rd_current r)) r) ;; mret true.

Definition addComment (b e : Location) (sameLine : bool) : RD unit :=
  rd_assert collectComments_ ;;
  if sameLine then
    lv ← gets rd_lastValue;
    match lv with
    | None => exit (Faults AssertFailed)
    | Some p => change_at p (setComment (text_between b e) commentAfterOnSameLine)
    end
  else
    modify (fun r => set_commentsBefore
      (rd_commentsBefore r ++ (match rd_commentsBefore r with [] => [] | _ => [LF] end) ++ text_between b e) r).

Definition readComment (commentBegin : Location) : RD bool :=
  c ← getNextChar;
  successful ← (if c =? chr "*" then readCStyleComment
                else if c =? chr "/" then readCppStyleComment else mret false);
  if negb successful then mret false
  else
    when collectComments_ (
      e ← gets rd_current;
      lve ← gets rd_lastValueEnd;
      let sameLine :=
        match lve with
        | Some lve => negb (containsNewLine lve commentBegin) && (negb (c =? chr "*") || negb (containsNewLine commentBegin e))
        | None => false
        end in
      addComment commentBegin e sameLine) ;;
    mret true.

(** ** Tokens *)

Definition number_char (c : Z) : bool :=
  is_digit c || existsb (Z.eqb c) [chr "."; chr "e"; chr "E"; chr "+"; chr "-"].
Definition readNumber : RD unit := modify (fun r => set_current (skip_while number_char (rd_current r)) r).

(** The last character read and the rest. *)
Fixpoint string_end (c : Z) (l : Location) : Z * Location :=
  match l with
  | [] => (c, [])
  | c :: l' =>
      if c =? BACKSLASH then match l' with [] => (c, []) | _ :: l'' => string_end c l'' end
      else if c =? QUOTE then (c, l')
      else string_end c l'
  end.
Definition readString : RD bool :=
  l ← gets rd_current;
  let '(c, l') := string_end 0 l in
  modify (set_current l') ;; mret (c =? QUOTE).

(** The [switch] on the first character. *)
Definition token_kind (start : Location) (c : Z) : RD (TokenType * bool) :=
  if c =? chr "{" then mret (tokenObjectBegin, true)
  else if c =? chr "}" then mret (tokenObjectEnd, true)
  else if c =? chr "[" then mret (tokenArrayBegin, true)
  else if c =? chr "]" then mret (tokenArrayEnd, true)
  else if c =? QUOTE then ok ← readString; mret (tokenString, ok)
  else if c =? chr "/" then ok ← readComment start; mret (tokenComment, ok)
  else if is_digit c || (c =? chr "-") then readNumber ;; mret (tokenNumber, true)
  else if c =? chr "t" then ok ← match_text (bytes "rue"); mret (tokenTrue, ok)
  else if c =? chr "f" then ok ← match_text (bytes "alse"); mret (tokenFalse, ok)
  else if c =? chr "n" then ok ← match_text (bytes "ull"); mret (tokenNull, ok)
  else if c =? chr "," then mret (tokenArraySeparator, true)
  else if c =? chr ":" then mret (tokenMemberSeparator, true)
  else if c =? 0 then mret (tokenEndOfStream, true)
  else mret (tokenError, false).

Definition readToken : RD Token :=
  skipSpaces ;;
  start ← gets rd_current;
  c ← getNextChar;
  tok ← token_kind start c;
  e ← gets rd_current;
  let '(ty, ok) := tok : TokenType * bool in
  mret (mk_token (if ok then ty else tokenError) start e).

(** Tokens until one is no comment; the bound is the number of characters left. *)
Fixpoint skip_comments (fuel : nat) (token : Token) : RD Token :=
  match tk_type token with
  | tokenComment =>
      match fuel with
      | O => exit (Faults OutOfFuel)
      | S fuel' => t ← readToken; skip_comments fuel' t
      end
  | _ => mret token
  end.
Definition skipComments (token : Token) : RD Token :=
  n ← gets (fun r => length (rd_current r)); skip_comments (S n) token.

Definition skipCommentTokens : RD Token :=
  token ← readToken; if allowComments_ then skipComments token else mret token.

Fixpoint recover_loop (fuel : nat) (skipUntilToken : TokenType) : RD unit :=
  match fuel with
  | O => exit (Faults OutOfFuel)
  | S fuel' =>
      skip ← readToken;
      if bool_decide (tk_type skip = skipUntilToken) || bool_decide (tk_type skip = tokenEndOfStream) then mret tt
      else recover_loop fuel' skipUntilToken
  end.

Definition recoverFromError (skipUntilToken : TokenType) : RD bool :=
  errorCount ← gets (fun r => length (rd_errors r));
  n ← gets (fun r => length (rd_current r));
  recover_loop (S n) skipUntilToken ;;
  modify (fun r => set_errors (take errorCount (rd_errors r)) r) ;;
  mret false.

Definition addErrorAndRecover (message : string) (token : Token) (skipUntilToken : TokenType) : RD bool :=
  addError (bytes message) token None ;; recoverFromError skipUntilToken.

(** ** Numbers *)

Definition not_a_number (token : Token) : list Z :=
  bytes "'" ++ text_between (tk_start token) (tk_end token) ++ bytes "' is not a number.".

Definition decodeDouble (token : Token) : RD bool :=
  match scan_double (text_between (tk_start token) (tk_end token)) with
  | Some value => assign_current (of_double value) ;; mret true
  | None => addError (not_a_number token) token None
  end.

Fixpoint double_chars (first : bool) (l : list Z) : bool :=
  match l with
  | [] => false
  | c :: l' => existsb (Z.eqb c) [chr "."; chr "e"; chr "E"; chr "+"] || ((c =? chr "-") && negb first) || double_chars false l'
  end.

(** What the loop over the digits ends with. *)
Inductive digits_end := Digits_value (value : Z) | Digits_double | Digits_bad.

Fixpoint decode_digits (threshold lastDigitThreshold : Z) (l : list Z) (value : Z) : digits_end :=
  match l with
  | [] => Digits_value value
  | c :: l' =>
      if negb (is_digit c) then Digits_bad
      else
        let digit := c - chr "0" in
        if (threshold <=? value) && (bool_decide (l' <> []) || (lastDigitThreshold <? digit)) then Digits_double
        else decode_digits threshold lastDigitThreshold l' (uwrap 64 (value * 10 + digit))
  end.

Definition s64 (z : Z) : Z := uwrap 64 (z + 2 ^ 63) - 2 ^ 63.

(** [LargestUInt(-Value::minLargestInt)], with the overflow of the negation wrapping
    around, is the same number as an unsigned one; so for [-Value::LargestInt( value )]. *)
Definition decodeNumber (token : Token) : RD bool :=
  let text := text_between (tk_start token) (tk_end token) in
  if double_chars true text then decodeDouble token
  else
    let isNegative := deref text =? chr "-" in
    let maxIntegerValue := if isNegative then uwrap 64 (- minInt64) else maxUInt64 in
    match decode_digits (maxIntegerValue / 10) (maxIntegerValue mod 10) (if isNegative then tail text else text) 0 with
    | Digits_bad => addError (not_a_number token) token None
    | Digits_double => decodeDouble token
    | Digits_value value =>
        assign_current (if isNegative then of_int (s64 (- s64 value))
                        else if value <=? maxInt then of_int value else of_uint value) ;;
        mret true
    end.

(** ** Strings *)

Definition codePointToUTF8 (cp : Z) : list Z :=
  if cp <=? 127 then [cp]
  else if cp <=? 2047 then [Z.lor 192 (Z.land 31 (Z.shiftr cp 6)); Z.lor 128 (Z.land 63 cp)]
  else if cp <=? 65535 then
    [Z.lor 224 (Z.land 15 (Z.shiftr cp 12)); Z.lor 128 (Z.land 63 (Z.shiftr cp 6)); Z.lor 128 (Z.land 63 cp)]
  else if cp <=? 1114111 then
    [Z.lor 240 (Z.land 7 (Z.shiftr cp 18)); Z.lor 128 (Z.land 63 (Z.shiftr cp 12));
     Z.lor 128 (Z.land 63 (Z.shiftr cp 6)); Z.lor 128 (Z.land 63 cp)]
  else [].

Definition hex_value (c : Z) : option Z :=
  if is_digit c then Some (c - chr "0")
  else if (chr "a" <=? c) && (c <=? chr "f") then Some (c - chr "a" + 10)
  else if (chr "A" <=? c) && (c <=? chr "F") then Some (c - chr "A" + 10)
  else None.

(** A piece of a string: what it stands for and the rest, or the message and the place
    of an error.  [l] goes up to the closing quote. *)
Definition decoded (A : Type) : Type := (A * list Z) + (string * list Z).

Fixpoint hex_digits (k : nat) (l : list Z) (unicode : Z) : decoded Z :=
  match k, l with
  | O, _ => inl (unicode, l)
  | S k', c :: l' =>
      match hex_value c with
      | Some d => hex_digits k' l' (unicode * 16 + d)
      | None => inr ("Bad unicode escape sequence in string: hexadecimal digit expected."%string, l')
      end
  | S _, [] => inr ("Bad unicode escape sequence in string: hexadecimal digit expected."%string, l)
  end.

Definition decodeUnicodeEscapeSequence (l : list Z) : decoded Z :=
  if zlen l <? 4 then inr ("Bad unicode escape sequence in string: four digits expected."%string, l)
  else hex_digits 4 l 0.

Definition decodeUnicodeCodePoint (l : list Z) : decoded Z :=
  match decodeUnicodeEscapeSequence l with
  | inr e => inr e
  | inl (unicode, l) =>
      if (55296 <=? unicode) && (unicode <=? 56319) then
        if zlen l <? 6 then inr ("additional six characters expected to parse unicode surrogate pair."%string, l)
        else
          let expecting := "expecting another \u token to begin the second half of a unicode surrogate pair"%string in
          match l with
          | c :: u :: l' =>
              if negb (c =? BACKSLASH) then inr (expecting, u :: l')
              else if negb (u =? chr "u") then inr (expecting, l')
              else
                match decodeUnicodeEscapeSequence l' with
                | inr e => inr e
                | inl (surrogatePair, l) =>
                    inl (65536 + Z.shiftl (Z.land unicode 1023) 10 + Z.land surrogatePair 1023, l)
                end
          | _ => inr (expecting, l)
          end
      else inl (unicode, l)
  end.

Definition simple_escape (e : Z) : option Z :=
  if e =? QUOTE then Some QUOTE
  else if e =? chr "/" then Some (chr "/")
  else if e =? BACKSLASH then Some BACKSLASH
  else if e =? chr "b" then Some 8
  else if e =? chr "f" then Some 12
  else if e =? chr "n" then Some 10
  else if e =? chr "r" then Some 13
  else if e =? chr "t" then Some 9
  else None.

Fixpoint decode_chars (fuel : nat) (l : list Z) (acc : list Z) : decoded (list Z) :=
  match fuel with
  | O => inl (acc, l)
  | S fuel' =>
      match l with
      | [] => inl (acc, [])
      | c :: l' =>
          if c =? QUOTE then inl (acc, l')
          else if c =? BACKSLASH then
            match l' with
            | [] => inr ("Empty escape sequence in string"%string, [])
            | e :: l'' =>
                match simple_escape e with
                | Some d => decode_chars fuel' l'' (acc ++ [d])
                | None =>
                    if e =? chr "u" then
                      match decodeUnicodeCodePoint l'' with
                      | inl (unicode, rest) => decode_chars fuel' rest (acc ++ codePointToUTF8 unicode)
                      | inr err => inr err
                      end
                    else inr ("Bad escape sequence in string"%string, l'')
                end
            end
          else decode_chars fuel' l' (acc ++ [c])
      end
  end.

(** The characters between the quotes. *)
Definition string_body (token : Token) : list Z :=
  let text := text_between (tk_start token) (tk_end token) in slice text 1 (zlen text - 2).

Definition decodeString (token : Token) : RD (option (list Z)) :=
  let body := string_body token in
  match decode_chars (length body) body [] with
  | inl (decoded, _) => mret (Some decoded)
  | inr (message, at_) =>
      addError (bytes message) token (Some (at_ ++ drop (length (tk_start token) - length (tk_end token) - 1) (tk_start token))) ;;
      mret None
  end.

Definition decodeStringValue (token : Token) : RD bool :=
  s ← decodeString token;
  match s with
  | Some decoded => assign_current (of_string decoded) ;; mret true
  | None => mret false
  end.

(** ** Values

    The loops of [readObject] and [readArray], with the call of [readValue] in them; each
    round consumes a character. *)
Section Loops.
Variable read_value : RD bool.

Fixpoint object_loop (fuel : nat) (name : list Z) : RD bool :=
  match fuel with
  | O => exit (Faults OutOfFuel)
  | S fuel' =>
      tokenName ← readToken;
      tokenName ← skipComments tokenName;
      if bool_decide (tk_type tokenName = tokenObjectEnd) && bool_decide (name = []) then mret true
      else if negb (bool_decide (tk_type tokenName = tokenString)) then
        addErrorAndRecover "Missing '}' or object member name" tokenName tokenObjectEnd
      else
        s ← decodeString tokenName;
        match s with
        | None => recoverFromError tokenObjectEnd
        | Some name =>
            colon ← readToken;
            if negb (bool_decide (tk_type colon = tokenMemberSeparator)) then
              addErrorAndRecover "Missing ':' after object member name" colon tokenObjectEnd
            else
              push_child (Key name) ;;
              ok ← read_value;
              pop_node ;;
              if negb ok then recoverFromError tokenObjectEnd
              else
                comma ← readToken;
                if negb (bool_decide (tk_type comma = tokenObjectEnd) || bool_decide (tk_type comma = tokenArraySeparator)
                         || bool_decide (tk_type comma = tokenComment)) then
                  addErrorAndRecover "Missing ',' or '}' in object declaration" comma tokenObjectEnd
                else
                  comma ← skipComments comma;
                  if bool_decide (tk_type comma = tokenObjectEnd) then mret true
                  else object_loop fuel' name
        end
  end.

Fixpoint array_loop (fuel : nat) (index : Z) : RD bool :=
  match fuel with
  | O => exit (Faults OutOfFuel)
  | S fuel' =>
      push_child (Idx index) ;;
      ok ← read_value;
      pop_node ;;
      if negb ok then recoverFromError tokenArrayEnd
      else
        token ← readToken;
        token ← skipComments token;
        if negb (bool_decide (tk_type token = tokenArraySeparator) || bool_decide (tk_type token = tokenArrayEnd)) then
          addErrorAndRecover "Missing ',' or ']' in array declaration" token tokenArrayEnd
        else if bool_decide (tk_type token = tokenArrayEnd) then mret true
        else array_loop fuel' (index + 1)
  end.

Definition readObject : RD bool :=
  assign_current of_object ;; n ← gets (fun r => length (rd_current r)); object_loop (S n) [].

Definition readArray : RD bool :=
  assign_current of_array ;;
  skipSpaces ;;
  l ← gets rd_current;
  if deref l =? chr "]" then readToken ;; mret true else array_loop (S (length l)) 0.

(** The [switch] of [readValue]; [None] stands for the return in its default case. *)
Definition read_token_value (token : Token) : RD (option bool) :=
  match tk_type token with
  | tokenObjectBegin => ok ← readObject; mret (Some ok)
  | tokenArrayBegin => ok ← readArray; mret (Some ok)
  | tokenNumber => ok ← decodeNumber token; mret (Some ok)
  | tokenString => ok ← decodeStringValue token; mret (Some ok)
  | tokenTrue => assign_current (of_bool true) ;; mret (Some true)
  | tokenFalse => assign_current (of_bool false) ;; mret (Some true)
  | tokenNull => assign_current Value_null ;; mret (Some true)
  | _ => addError (bytes "Syntax error: value, object or array expected.") token None ;; mret None
  end.

Definition read_value_body : RD bool :=
  token ← skipCommentTokens;
  cb ← gets rd_commentsBefore;
  when (collectComments_ && bool_decide (cb <> []))
    (change_current (setComment cb commentBefore) ;; modify (set_commentsBefore [])) ;;
  res ← read_token_value token;
  match res with
  | None => mret false
  | Some successful =>
      when collectComments_
        (p ← current_path; modify (fun r => set_lastValue (Some (rd_current r)) (Some p) r)) ;;
      mret successful
  end.
End Loops.

(** The calls inside each other; the bound is their depth. *)
Fixpoint readValue (fuel : nat) : RD bool :=
  match fuel with
  | O => exit (Faults OutOfFuel)
  | S fuel' => read_value_body (readValue fuel')
  end.

(** ** parse *)

Definition parse_body (document : list Z) : RD bool :=
  successful ← readValue (S (length document));
  token ← skipCommentTokens;
  cb ← gets rd_commentsBefore;
  when (collectComments_ && bool_decide (cb <> [])) (change_at [] (setComment cb commentAfter)) ;;
  root ← gets rd_root;
  if strictRoot_ && negb (isArray root) && negb (isObject root) then
    addError (bytes "A valid JSON document must be either an array or an object value.")
      (mk_token tokenError document []) None
  else mret successful.

(** What [parse] does with the members it has set. *)
Definition parse_document (document : list Z) (root : Value) : (bool * Value * list ErrorInfo) + json_stop :=
  match parse_body document (mk_reader document None None [] [] [[]] root) with
  | inl (ok, r) => inl (ok, rd_root r, rd_errors r)
  | inr (e, _) => inr e
  end.
End Reader.

(** [Reader::parse]: without the feature comments are not collected either. *)
Definition parse_with {D : Doubles} (allowComments_ strictRoot_ collectComments : bool) (document : list Z) (root : Value)
  : (bool * Value * list ErrorInfo) + json_stop :=
  let collectComments_ := if negb allowComments_ then false else collectComments in
  parse_document allowComments_ strictRoot_ collectComments_ document root.

(** [Reader::parse] with the features that the constructor sets: comments are allowed,
    and collected if the caller does not object. *)
Definition parse {D : Doubles} (collectComments : bool) (document : list Z) (root : Value)
  : (bool * Value * list ErrorInfo) + json_stop :=
  parse_with true false collectComments document root.

(** ** Messages

    Line and column of a place: [current] runs through the document, [lastLineStart]
    stays behind. *)
Fixpoint line_and_column (current lastLineStart location : Location) (line : Z) : Z * Location :=
  match current with
  | [] => (line, lastLineStart)
  | c :: l =>
      if (length location <? length current)%nat then
        if c =? CR then
          match l with
          | c' :: l' => if c' =? LF then line_and_column l' l' location (line + 1) else line_and_column l l location (line + 1)
          | [] => (line + 1, l)
          end
        else if c =? LF then line_and_column l l location (line + 1)
        else line_and_column l lastLineStart location line
      else (line, lastLineStart)
  end.

Definition getLocationLineAndColumn (begin_ location : Location) : Z * Z :=
  let '(line, start) := line_and_column begin_ begin_ location 0 in
  (line + 1, zlen start - zlen location + 1).

Definition location_text (begin_ location : Location) : list Z :=
  let '(line, column) := getLocationLineAndColumn begin_ location in
  bytes "Line " ++ valueToString_int line ++ bytes ", Column " ++ valueToString_int column.

Definition getFormattedErrorMessages (begin_ : Location) (errors : list ErrorInfo) : list Z :=
  concat (map (fun e =>
    bytes "* " ++ location_text begin_ (tk_start (er_token e)) ++ [LF] ++
    bytes "  " ++ er_message e ++ [LF] ++
    match er_extra e with
    | Some l => bytes "See " ++ location_text begin_ l ++ bytes " for detail." ++ [LF]
    | None => []
    end) errors).
