(* ===== verification/JsonPaths.v ===== *)
(** * JsonPaths: pointers into a tree

    Laws of the containers of a value and of the paths that stand for pointers into it:
    what a change at one place does to the lookup at another. *)
From stdpp Require Import base list.
From S2P Require Import Prelude Streams JsonValue JsonReader.

(** ** Orders of keys *)
Class KeyOrder {K} (lt : K -> K -> bool) := {
  key_irrefl a : lt a a = false;
  key_trans a b c : lt a b = true -> lt b c = true -> lt a c = true;
  key_total a b : lt a b = false -> lt b a = false -> a = b;
}.

#[export] Instance Z_order : KeyOrder Z.ltb.
Proof. split; lia. Qed.

Lemma str_ltb_irrefl a : str_ltb a a = false.
Proof. induction a; cbn; [done|]. rewrite Z.ltb_irrefl, Z.eqb_refl. done. Qed.

Lemma str_ltb_trans a b c : str_ltb a b = true -> str_ltb b c = true -> str_ltb a c = true.
Proof.
  revert b c. induction a as [|x a IH]; intros [|y b] [|z c]; cbn; try done.
  rewrite !orb_true_iff, !andb_true_iff, !Z.ltb_lt, !Z.eqb_eq.
  intros [?|[-> H1]] [?|[-> H2]]; [left; lia|left; lia|left; lia|right; eauto].
Qed.

Lemma str_ltb_total a b : str_ltb a b = false -> str_ltb b a = false -> a = b.
Proof.
  revert b. induction a as [|x a IH]; intros [|y b]; cbn; try done.
  rewrite !orb_false_iff, !andb_false_iff, !Z.ltb_ge, !Z.eqb_neq.
  intros [? H1] [? H2]. assert (x = y) as -> by lia. f_equal. apply IH; naive_solver.
Qed.

#[export] Instance str_order : KeyOrder str_ltb.
Proof. split; [apply str_ltb_irrefl|apply str_ltb_trans|apply str_ltb_total]. Qed.

(** ** Containers *)
Section Maps.
Context {D : Doubles} {K : Type} (lt : K -> K -> bool) `{!KeyOrder lt}.
Implicit Types (m : list (K * Value)) (f g : Value -> Value).

Lemma map_find_alter k f m :
  map_find lt k (map_alter lt k f m) = Some (f (default Value_null (map_find lt k m))).
Proof.
  induction m as [|[k' v] m IH]; cbn.
  - by rewrite key_irrefl.
  - destruct (lt k' k) eqn:E1; cbn; [by rewrite E1|]. destruct (lt k k') eqn:E2; cbn; [by rewrite key_irrefl|by rewrite E1, E2].
Qed.

Lemma map_alter_alter k f g m : map_alter lt k f (map_alter lt k g m) = map_alter lt k (fun v => f (g v)) m.
Proof.
  induction m as [|[k' v] m IH]; cbn; [by rewrite key_irrefl|].
  destruct (lt k' k) eqn:E1; cbn; [by rewrite E1, IH|].
  destruct (lt k k') eqn:E2; cbn; [by rewrite key_irrefl|by rewrite E1, E2].
Qed.

Lemma map_alter_ext k f g m : (forall v, f v = g v) -> map_alter lt k f m = map_alter lt k g m.
Proof.
  intros E. induction m as [|[k' v] m IH]; cbn; [by rewrite E|]. rewrite IH, !E. done.
Qed.

Lemma map_alter_known k f g m x :
  map_find lt k m = Some x -> f x = g x -> map_alter lt k f m = map_alter lt k g m.
Proof.
  intros Hm E. induction m as [|[k' v] m IH]; cbn in *; [done|].
  destruct (lt k' k); [by rewrite IH|]. destruct (lt k k'); [done|]. injection Hm as ->. by rewrite E.
Qed.

Lemma map_find_alter_ne k k2 f m x :
  k2 <> k -> map_find lt k2 m = Some x -> map_find lt k2 (map_alter lt k f m) = Some x.
Proof.
  intros Hne. induction m as [|[k' v] m IH]; cbn; [done|]. intros Hm.
  destruct (lt k' k) eqn:E1; cbn.
  - destruct (lt k' k2); [by apply IH|done].
  - destruct (lt k k') eqn:E2; cbn.
    + assert (E3 : lt k k2 = true); [|by rewrite E3].
      destruct (lt k' k2) eqn:E3; [by eapply key_trans|]. destruct (lt k2 k') eqn:E4; [done|].
      by rewrite <-(key_total _ _ E3 E4).
    + destruct (lt k' k2) eqn:E3; [done|]. destruct (lt k2 k') eqn:E4; [done|].
      destruct Hne. rewrite <-(key_total _ _ E3 E4). by apply key_total.
Qed.
End Maps.

(** ** Paths *)
Section PathLaws.
Context {D : Doubles}.
Implicit Types (p q : path) (v x : Value) (f g : Value -> Value).

(** A step into a value of the right kind. *)
Definition step_ok (s : step) (v : Value) : Prop :=
  match s, value_ v with Idx _, arrayValue _ | Key _, objectValue _ => True | _, _ => False end.

Lemma step_lookup_ok s v x : step_lookup s v = Some x -> step_ok s v.
Proof. destruct v as [c d], s, d; done. Qed.

Lemma step_lookup_alter s v f :
  step_ok s v -> step_lookup s (step_alter s f v) = Some (f (default Value_null (step_lookup s v))).
Proof. destruct v as [c d], s, d; cbn; try done; intros _; by apply map_find_alter; apply _. Qed.

Lemma step_alter_alter s v f g : step_alter s f (step_alter s g v) = step_alter s (fun v => f (g v)) v.
Proof. destruct v as [c d], s, d; cbn; try done; by rewrite map_alter_alter by apply _. Qed.

Lemma step_alter_ext s v f g : (forall x, f x = g x) -> step_alter s f v = step_alter s g v.
Proof. intros E. destruct v as [c d], s, d; cbn; try done; by rewrite (map_alter_ext _ _ _ _ _ E). Qed.

Lemma step_alter_known s v f g x : step_lookup s v = Some x -> f x = g x -> step_alter s f v = step_alter s g v.
Proof. intros Hs E. destruct v as [c d], s, d; cbn in *; try done; by rewrite (map_alter_known _ _ _ _ _ _ Hs E). Qed.

Lemma step_lookup_alter_ne s s2 v f x :
  s2 <> s -> step_lookup s2 v = Some x -> step_lookup s2 (step_alter s f v) = Some x.
Proof.
  intros Hne. destruct v as [c d], s, s2, d; cbn; try done; apply map_find_alter_ne; try apply _; congruence.
Qed.

Lemma comments_step_alter s f v : comments_ (step_alter s f v) = comments_ v.
Proof. by destruct v as [c d], s, d. Qed.

Lemma path_alter_ext p v f g : (forall x, f x = g x) -> path_alter p f v = path_alter p g v.
Proof. intros E. revert v. induction p as [|s p IH]; intros v; cbn; [done|]. by apply step_alter_ext. Qed.

Lemma path_alter_alter p v f g : path_alter p f (path_alter p g v) = path_alter p (fun v => f (g v)) v.
Proof.
  revert v. induction p as [|s p IH]; intros v; cbn; [done|]. rewrite step_alter_alter. by apply step_alter_ext.
Qed.

Lemma path_alter_app p q v f : path_alter (p ++ q) f v = path_alter p (path_alter q f) v.
Proof. revert v. induction p as [|s p IH]; intros v; cbn; [done|]. by apply step_alter_ext. Qed.

Lemma path_alter_known p v f g x : path_lookup p v = Some x -> f x = g x -> path_alter p f v = path_alter p g v.
Proof.
  revert v. induction p as [|s p IH]; intros v; cbn; [by intros [= ->]|].
  destruct (step_lookup s v) as [y|] eqn:Es; [|done]. intros Hp E. eapply step_alter_known; [done|]. by apply IH.
Qed.

Lemma path_lookup_app p q v : path_lookup (p ++ q) v = match path_lookup p v with Some x => path_lookup q x | None => None end.
Proof. revert v. induction p as [|s p IH]; intros v; cbn; [done|]. by destruct (step_lookup s v). Qed.

Lemma path_lookup_alter p v f x : path_lookup p v = Some x -> path_lookup p (path_alter p f v) = Some (f x).
Proof.
  revert v. induction p as [|s p IH]; intros v; cbn; [by intros [= ->]|].
  destruct (step_lookup s v) as [y|] eqn:Es; [|done]. intros Hp.
  rewrite step_lookup_alter by (by eapply step_lookup_ok). rewrite Es. cbn. by apply IH.
Qed.

(** A pointer that does not go through the changed place stays one. *)
Lemma path_lookup_alter_other p q v f x :
  path_lookup p v = Some x -> is_Some (path_lookup q v) ->
  (forall r, q = p ++ r -> is_Some (path_lookup r (f x))) ->
  is_Some (path_lookup q (path_alter p f v)).
Proof.
  revert q v. induction p as [|s p IH]; intros q v; cbn; [intros [= ->] _ H; by apply H|].
  destruct (step_lookup s v) as [y|] eqn:Es; [|done]. intros Hp Hq H.
  destruct q as [|s2 q]; [done|]. cbn in *.
  destruct (decide (s2 = s)) as [->|Hne].
  - rewrite Es in Hq. rewrite step_lookup_alter by (by eapply step_lookup_ok). rewrite Es. cbn.
    apply IH; [done|done|]. intros r ->. by apply H.
  - destruct (step_lookup s2 v) as [z|] eqn:E2; [|by destruct Hq]. by rewrite (step_lookup_alter_ne _ _ _ _ z).
Qed.
End PathLaws.
