(* ===== verification/JsonSafety.v ===== *)
(** * JsonSafety: the reader on any document

    No document, whatever its bytes, makes the reader fail an assertion, throw, follow a
    pointer to a value that was freed, or run out of the bounds of the model. *)
From stdpp Require Import base list.
From S2P Require Import Prelude Control Streams JsonValue JsonWriter JsonReader JsonPaths.

Section Safety.
Context {D : Doubles} (allowComments_ strictRoot_ collectComments_ : bool).
Implicit Types (p q : path) (v x : Value) (r : Reader).

(** ** How the tree changes *)

(** All pointers stay pointers, to values of the same type. *)
Definition grows v v' : Prop :=
  forall q x, path_lookup q v = Some x -> exists x', path_lookup q v' = Some x' /\ type_ x' = type_ x.

Definition below p q : Prop := exists s q', q = p ++ s :: q'.

(** The same, but for the type at [p] and what is below. *)
Definition grows_outside p v v' : Prop :=
  forall q x, path_lookup q v = Some x -> ~ below p q ->
  exists x', path_lookup q v' = Some x' /\ (q <> p -> type_ x' = type_ x).

Lemma tree_grows_refl v : grows v v.
Proof. intros q x ->. eauto. Qed.

Lemma tree_grows_trans v1 v2 v3 : grows v1 v2 -> grows v2 v3 -> grows v1 v3.
Proof. intros H1 H2 q x Hq. destruct (H1 _ _ Hq) as (y & Hy & <-). by apply H2. Qed.

Lemma grows_data v v' : value_ v' = value_ v -> grows v v'.
Proof.
  intros E q x. destruct v as [c d], v' as [c' d']. cbn in E. subst d'.
  destruct q as [|s q]; cbn; [intros [= <-]; eauto|]. intros H. exists x. split; [|done]. by destruct s.
Qed.

Lemma type_step_alter s f v : type_ (step_alter s f v) = type_ v.
Proof. by destruct v as [c d], s, d. Qed.

Lemma grows_alter p f v x : path_lookup p v = Some x -> grows x (f x) -> grows v (path_alter p f v).
Proof.
  revert v. induction p as [|s p IH]; intros v; cbn; [by intros [= ->]|].
  destruct (step_lookup s v) as [y|] eqn:Es; [|done]. intros Hp Hg q z.
  destruct q as [|s2 q]; cbn; [intros [= <-]; eexists; split; [done|apply type_step_alter]|].
  destruct (decide (s2 = s)) as [->|Hne].
  - rewrite Es, step_lookup_alter by (by eapply step_lookup_ok). rewrite Es. cbn. by apply IH.
  - destruct (step_lookup s2 v) as [w|] eqn:E2; [|done]. rewrite (step_lookup_alter_ne _ _ _ _ w) by done. eauto.
Qed.

Lemma grows_outside_trans p v1 v2 v3 : grows_outside p v1 v2 -> grows_outside p v2 v3 -> grows_outside p v1 v3.
Proof.
  intros H1 H2 q x Hq Hb. destruct (H1 _ _ Hq Hb) as (y & Hy & Ey). destruct (H2 _ _ Hy Hb) as (z & Hz & Ez).
  exists z. split; [done|]. intros Hne. by rewrite Ez, Ey.
Qed.

Lemma grows_outside_of p v v' : grows v v' -> grows_outside p v v'.
Proof. intros H q x Hq _. destruct (H _ _ Hq) as (y & ? & ?). eauto. Qed.

Lemma grows_outside_child p s v v' : grows_outside (p ++ [s]) v v' -> grows_outside p v v'.
Proof.
  intros H q x Hq Hb. destruct (H q x Hq) as (y & Hy & Ey).
  - intros (s' & q' & ->). apply Hb. exists s, (s' :: q'). by rewrite <-app_assoc.
  - exists y. split; [done|]. intros _. apply Ey. intros ->. apply Hb. by exists s, [].
Qed.

Lemma grows_outside_alter p f v x : path_lookup p v = Some x -> grows_outside p v (path_alter p f v).
Proof.
  revert v. induction p as [|s p IH]; intros v; cbn.
  - intros _ q y Hq Hb. destruct q as [|s q]; [|by destruct Hb; exists s, q]. cbn. eexists. by split.
  - destruct (step_lookup s v) as [y|] eqn:Es; [|done]. intros Hp q z Hq Hb.
    destruct q as [|s2 q]; cbn in *; [eexists; split; [done|]; intros _; injection Hq as <-; apply type_step_alter|].
    destruct (decide (s2 = s)) as [->|Hne].
    + rewrite Es in Hq. rewrite step_lookup_alter by (by eapply step_lookup_ok). rewrite Es. cbn.
      destruct (IH _ Hp q z Hq) as (w & Hw & Ew).
      * intros (s' & q' & ->). apply Hb. by exists s', q'.
      * exists w. split; [done|]. intros Hn. apply Ew. congruence.
    + destruct (step_lookup s2 v) as [w|] eqn:E2; [|done]. rewrite (step_lookup_alter_ne _ _ _ _ w) by done. eauto.
Qed.

(** ** States *)
Abbreviation left r := (length (rd_current r)).

Record rd_ok r : Prop := {
  ok_last q : rd_lastValue r = Some q -> is_Some (path_lookup q (rd_root r));
  ok_end : is_Some (rd_lastValueEnd r) -> is_Some (rd_lastValue r);
  ok_before : rd_commentsBefore r = [] \/ deref (rd_commentsBefore r) = chr "/";
  ok_collect : collectComments_ = false -> rd_lastValue r = None;
}.

(** What reading tokens does to the state. *)
Record quiet r r' : Prop := {
  q_nodes : rd_nodes r' = rd_nodes r;
  q_last : rd_lastValue r' = rd_lastValue r;
  q_left : (left r' <= left r)%nat;
  q_grows : grows (rd_root r) (rd_root r');
  q_ok : rd_ok r';
}.

Lemma quiet_refl r : rd_ok r -> quiet r r.
Proof. split; try done. apply tree_grows_refl. Qed.

Lemma quiet_trans r1 r2 r3 : quiet r1 r2 -> quiet r2 r3 -> quiet r1 r3.
Proof. intros [] []. split; [congruence|congruence|lia|by eapply tree_grows_trans|done]. Qed.

(** Changes of the position or the errors alone. *)
Lemma quiet_current r l : rd_ok r -> (length l <= left r)%nat -> quiet r (set_current l r).
Proof. intros [H1 H2 H3 H4] Hl. split; cbn; first [done | apply tree_grows_refl | by split]. Qed.

Lemma quiet_errors r l : rd_ok r -> quiet r (set_errors l r).
Proof. intros [H1 H2 H3 H4]. split; cbn; first [done | apply tree_grows_refl | by split]. Qed.

Lemma quiet_root r v : rd_ok r -> grows (rd_root r) v -> quiet r (set_root v r).
Proof.
  intros [H1 H2 H3 H4] Hg. split; cbn; try done; split; cbn; try done.
  intros q Hq. destruct (H1 _ Hq) as [x Hx]. destruct (Hg _ _ Hx) as (y & -> & _). done.
Qed.

Lemma quiet_before r cb : rd_ok r -> cb = [] \/ deref cb = chr "/" -> quiet r (set_commentsBefore cb r).
Proof. intros [H1 H2 H3 H4] Hc. split; cbn; first [done | apply tree_grows_refl | by split]. Qed.

Abbreviation safe m r Q := (@wp json_stop Reader _ m r Q (fun _ _ => False)).

Lemma safe_weaken {A} (m : Ctl json_stop Reader A) r (Q Q' : A -> Reader -> Prop) :
  safe m r Q -> (forall a r', Q a r' -> Q' a r') -> safe m r Q'.
Proof. intros H HQ. by eapply wp_mono; [exact HQ| |exact H]. Qed.

Lemma safe_change_at p f r x y (Q : unit -> Reader -> Prop) :
  path_lookup p (rd_root r) = Some x -> f x = inl y ->
  Q tt (set_root (path_alter p (fun _ => y) (rd_root r)) r) -> safe (change_at p f) r Q.
Proof. intros Hp Hf HQ. unfold change_at. do 2 wp_step. rewrite Hp, Hf. cbn. by repeat wp_step. Qed.

Lemma safe_current_path p ns r (Q : path -> Reader -> Prop) : rd_nodes r = p :: ns -> Q p r -> safe current_path r Q.
Proof. intros Hn HQ. unfold current_path. do 2 wp_step. rewrite Hn. by wp_step. Qed.

Lemma setComment_ok text k x :
  text = [] \/ deref text = chr "/" -> exists y, setComment text k x = inl y /\ value_ y = value_ x.
Proof.
  intros H. unfold setComment, JSON_ASSERT_MESSAGE.
  assert (E : match c_text text with [] => true | c :: _ => c =? chr "/" end = true).
  { destruct H as [->|H]; [done|]. destruct text as [|c t]; [done|]. cbn in *. subst c. done. }
  rewrite E. eexists. split; [done|]. by destruct k.
Qed.

(** ** Tokens *)

Lemma skip_while_length f l : (length (skip_while f l) <= length l)%nat.
Proof. induction l as [|c l IH]; cbn; [done|]. destruct (f c); cbn; lia. Qed.

Lemma c_style_end_length l : (length (c_style_end l) <= length l)%nat.
Proof. induction l as [|c l IH]; cbn [c_style_end]; [done|]. case_match; cbn; lia. Qed.

Lemma cpp_style_end_length l : (length (cpp_style_end l) <= length l)%nat.
Proof. induction l as [|c l IH]; cbn [cpp_style_end]; [done|]. case_match; cbn; lia. Qed.

Lemma string_end_length c l : (length (string_end c l).2 <= length l)%nat.
Proof.
  remember (length l) as n eqn:E. assert (Hn : (length l <= n)%nat) by lia. clear E. revert c l Hn.
  induction n as [|n IH]; intros c [|d l] Hn; cbn in *; try lia.
  destruct (d =? BACKSLASH).
  - destruct l as [|e l]; cbn in *; [lia|]. etrans; [apply IH; lia|lia].
  - destruct (d =? QUOTE); cbn; [lia|]. etrans; [apply IH; lia|lia].
Qed.

(** Steps that only move the position. *)
Lemma safe_move f r (Q : unit -> Reader -> Prop) :
  rd_ok r -> (length (f (rd_current r)) <= left r)%nat ->
  (forall r', quiet r r' -> rd_current r' = f (rd_current r) -> Q tt r') ->
  safe (modify (fun r => set_current (f (rd_current r)) r)) r Q.
Proof. intros H Hl HQ. wp_step. apply HQ; [by apply quiet_current|done]. Qed.

Lemma safe_getNextChar r (Q : Z -> Reader -> Prop) :
  rd_ok r ->
  (forall r', quiet r r' -> rd_current r' = tail (rd_current r) -> Q (deref (rd_current r)) r') ->
  safe getNextChar r Q.
Proof.
  intros H HQ. unfold getNextChar. do 2 wp_step. destruct (rd_current r) as [|c l] eqn:E.
  - wp_step. apply HQ; [by apply quiet_refl|by rewrite E].
  - repeat wp_step. apply HQ; [|done]. apply quiet_current; [done|]. rewrite E. cbn. lia.
Qed.

Lemma text_between_slash b e :
  deref b = chr "/" -> (length e < length b)%nat -> deref (text_between b e) = chr "/".
Proof. intros H Hl. unfold text_between. destruct b as [|c b]; [cbn in *; lia|]. cbn in H. subst c. by replace (length (chr "/" :: b) - length e)%nat with (S (length b - length e)) by (cbn in *; lia). Qed.

Lemma safe_addComment b e sameLine r :
  rd_ok r -> collectComments_ = true -> (sameLine = true -> is_Some (rd_lastValueEnd r)) ->
  deref b = chr "/" -> (length e < length b)%nat ->
  safe (addComment collectComments_ b e sameLine) r (fun _ r' => quiet r r' /\ rd_current r' = rd_current r).
Proof.
  intros H -> Hs Hb He. pose proof (text_between_slash _ _ Hb He) as Ht.
  unfold addComment. wp_step. cbn. wp_step. destruct sameLine.
  - do 2 wp_step. destruct (ok_end _ H) as [q Hq]; [by apply Hs|]. rewrite Hq.
    destruct (ok_last _ H _ Hq) as [x Hx].
    destruct (setComment_ok (text_between b e) commentAfterOnSameLine x) as (y & Ey & Hy); [by right|].
    eapply safe_change_at; [done|done|]. split; [|done]. apply quiet_root; [done|].
    eapply grows_alter; [done|]. by apply grows_data.
  - wp_step. split; [|done]. apply quiet_before; [done|]. right.
    destruct (ok_before _ H) as [->|Hc]; [done|]. by destruct (rd_commentsBefore r).
Qed.

Lemma safe_readComment b r :
  rd_ok r -> deref b = chr "/" -> (left r < length b)%nat ->
  safe (readComment collectComments_ b) r (fun _ r' => quiet r r').
Proof.
  intros H Hb Hl. unfold readComment. wp_step. apply safe_getNextChar; [done|]. intros r1 Hq1 E1. wp_step.
  eapply (safe_weaken _ _ (fun _ r' => quiet r r')).
  - destruct (_ =? chr "*"); [|destruct (_ =? chr "/")].
    + unfold readCStyleComment. wp_step. apply safe_move; [apply Hq1|apply c_style_end_length|]. intros r2 Hq2 _.
      wp_step. apply safe_getNextChar; [apply Hq2|]. intros r3 Hq3 _. wp_step. eauto using quiet_trans.
    + unfold readCppStyleComment. wp_step. apply safe_move; [apply Hq1|apply cpp_style_end_length|]. intros r2 Hq2 _.
      wp_step. eauto using quiet_trans.
    + by wp_step.
  - intros ok r2 Hq2. wp_step; [by wp_step|]. wp_step. wp_step; [|by wp_step].
    do 4 wp_step. eapply safe_weaken.
    + apply safe_addComment; [apply Hq2|done| |done|].
      * destruct (rd_lastValueEnd r2); [done|]. done.
      * pose proof (q_left _ _ Hq2). lia.
    + cbn. intros _ r3 [Hq3 _]. wp_step. by eapply quiet_trans.
Qed.

Lemma safe_token_kind start c r :
  rd_ok r -> (c = chr "/" -> deref start = chr "/") -> (left r < length start)%nat ->
  safe (token_kind collectComments_ start c) r (fun _ r' => quiet r r').
Proof.
  intros H Hc Hl. unfold token_kind.
  assert (Hm : forall t, safe (match_text t) r (fun _ r' => quiet r r')).
  { intros t. unfold match_text. do 2 wp_step. wp_step; repeat wp_step; [|by apply quiet_refl].
    apply quiet_current; [done|]. rewrite length_drop. lia. }
  repeat first
    [ by apply quiet_refl
    | apply safe_move; [done|apply skip_while_length|]; intros ?? _
    | match goal with |- wp (match_text _) _ _ _ => eapply safe_weaken; [apply Hm|]; intros end
    | match goal with |- wp (readComment _ _) _ _ _ => eapply safe_weaken; [apply safe_readComment; [done|by apply Hc, Z.eqb_eq|done]|]; intros end
    | match goal with |- wp readString _ _ _ => unfold readString end
    | match goal with |- context [string_end ?a ?b] => pose proof (string_end_length a b); destruct (string_end a b); cbn in * end
    | wp_step ]; try done.
  apply quiet_current; [done|]. cbn in *. lia.
Qed.

Lemma safe_readToken r :
  rd_ok r ->
  safe (readToken collectComments_) r
    (fun tok r' => quiet r r' /\ (tk_type tok <> tokenEndOfStream -> (left r' < left r)%nat)).
Proof.
  intros H. unfold readToken. wp_step. apply safe_move; [done|apply skip_while_length|]. intros r1 Hq1 E1.
  do 3 wp_step. apply safe_getNextChar; [apply Hq1|]. intros r2 Hq2 E2. wp_step.
  destruct (rd_current r1) as [|c l] eqn:El.
  - unfold token_kind. cbn. repeat wp_step. cbn. split; [|done]. by eapply quiet_trans.
  - eapply safe_weaken; [apply safe_token_kind; [apply Hq2|by intros ->|rewrite E2; cbn; lia]|]. cbn.
    intros [ty ok] r3 Hq3. repeat wp_step. cbn. pose proof (q_left _ _ Hq3). pose proof (q_left _ _ Hq1). rewrite E2 in *.
    rewrite El in *. cbn in *. split; [by do 2 (eapply quiet_trans; [done|])|lia].
Qed.

Lemma safe_skip_comments n token r :
  rd_ok r -> (left r < n)%nat ->
  safe (skip_comments collectComments_ n token) r
    (fun tok r' => quiet r r' /\ (left r' = left r /\ tok = token \/ tk_type tok = tokenEndOfStream \/ (left r' < left r)%nat)).
Proof.
  revert token r. induction n as [|n IH]; intros token r H Hn; [lia|].
  cbn [skip_comments]. destruct (tk_type token) eqn:Et; try (wp_step; split; [by apply quiet_refl|by left]).
  wp_step. eapply safe_weaken; [by apply safe_readToken|]. cbn. intros t r1 [Hq1 Hl1].
  destruct (decide (tk_type t = tokenEndOfStream)) as [E|E].
  - destruct n; cbn [skip_comments]; rewrite E; wp_step; split; auto.
  - specialize (Hl1 E). eapply safe_weaken; [apply IH; [apply Hq1|lia]|]. cbn. intros t2 r2 [Hq2 Hl2].
    split; [by eapply quiet_trans|]. right. pose proof (q_left _ _ Hq2). destruct Hl2 as [[? _]|[?|?]]; [right; lia|by left|right; lia].
Qed.

(** A token that is no comment, or the end. *)
Lemma safe_skipComments token r :
  rd_ok r ->
  safe (skipComments collectComments_ token) r
    (fun tok r' => quiet r r' /\ (left r' = left r /\ tok = token \/ tk_type tok = tokenEndOfStream \/ (left r' < left r)%nat)).
Proof. intros H. unfold skipComments. do 2 wp_step. apply safe_skip_comments; [done|lia]. Qed.

Lemma safe_skipCommentTokens r :
  rd_ok r ->
  safe (skipCommentTokens allowComments_ collectComments_) r
    (fun tok r' => quiet r r' /\ (tk_type tok <> tokenEndOfStream -> (left r' < left r)%nat)).
Proof.
  intros H. unfold skipCommentTokens. wp_step. eapply safe_weaken; [by apply safe_readToken|]. cbn. intros t r1 [Hq1 Hl1].
  wp_step; [|by wp_step]. eapply safe_weaken; [apply safe_skipComments, Hq1|]. cbn. intros t2 r2 [Hq2 Hl2].
  split; [by eapply quiet_trans|]. intros Hne. destruct Hl2 as [[-> ->]|[?|?]]; [by apply Hl1|done|].
  pose proof (q_left _ _ Hq1). lia.
Qed.

Lemma safe_recover_loop n skip r :
  rd_ok r -> (left r < n)%nat -> safe (recover_loop collectComments_ n skip) r (fun _ r' => quiet r r').
Proof.
  revert r. induction n as [|n IH]; intros r H Hn; [lia|]. cbn [recover_loop]. wp_step.
  eapply safe_weaken; [by apply safe_readToken|]. cbn. intros t r1 [Hq1 Hl1].
  wp_step; [by wp_step|]. destr_bool. repeat case_bool_decide; try done.
  eapply safe_weaken; [apply IH; [apply Hq1|specialize (Hl1 ltac:(done)); lia]|]. cbn. intros _ r2 Hq2. by eapply quiet_trans.
Qed.

Lemma safe_recoverFromError skip r :
  rd_ok r -> safe (recoverFromError collectComments_ skip) r (fun ok r' => ok = false /\ quiet r r').
Proof.
  intros H. unfold recoverFromError. do 5 wp_step. eapply safe_weaken; [apply safe_recover_loop; [done|lia]|]. cbn.
  intros _ r1 Hq1. repeat wp_step. split; [done|]. eapply quiet_trans; [done|]. apply quiet_errors, Hq1.
Qed.

Lemma safe_addError message token extra r :
  rd_ok r -> safe (addError message token extra) r (fun ok r' => ok = false /\ quiet r r').
Proof. intros H. unfold addError. repeat wp_step. split; [done|]. by apply quiet_errors. Qed.

Lemma safe_addErrorAndRecover message token skip r :
  rd_ok r -> safe (addErrorAndRecover collectComments_ message token skip) r (fun ok r' => ok = false /\ quiet r r').
Proof.
  intros H. unfold addErrorAndRecover. wp_step. eapply safe_weaken; [by apply safe_addError|]. cbn. intros _ r1 [_ Hq1].
  eapply safe_weaken; [apply safe_recoverFromError, Hq1|]. cbn. intros ok r2 [-> Hq2]. split; [done|by eapply quiet_trans].
Qed.

Lemma safe_decodeString token r : rd_ok r -> safe (decodeString token) r (fun _ r' => quiet r r').
Proof.
  intros H. unfold decodeString. cbv zeta. destruct (decode_chars _ _ _) as [[t ?]|[m a]]; [by wp_step; apply quiet_refl|].
  wp_step. eapply safe_weaken; [by apply safe_addError|]. cbn. intros _ r1 [_ Hq1]. by wp_step.
Qed.

(** ** Values *)

(** A pointer that an assignment at [p] does not free. *)
Definition apart p (o : option path) : Prop := forall q, o = Some q -> ~ below p q.

(** What reading a value at [p] does. *)
Record wrote p r r' (ok : bool) : Prop := {
  w_nodes : rd_nodes r' = rd_nodes r;
  w_left : (left r' <= left r)%nat;
  w_grows : grows_outside p (rd_root r) (rd_root r');
  w_ok : rd_ok r';
  w_last : ok = true -> rd_lastValue r' = Some p \/ rd_lastValue r' = rd_lastValue r;
}.

Lemma wrote_quiet p r r' ok : quiet r r' -> wrote p r r' ok.
Proof. intros []. split; try done; [by apply grows_outside_of|by right]. Qed.

Lemma wrote_trans p r1 r2 r3 ok : wrote p r1 r2 true -> wrote p r2 r3 ok -> wrote p r1 r3 ok.
Proof.
  intros [] []. split; try done; [congruence|lia|by eapply grows_outside_trans|].
  intros Hok. destruct w_last1 as [?|E]; [done|by left|]. destruct w_last0; [done|left; congruence|right; congruence].
Qed.

Lemma wrote_pointer p q r r' ok :
  wrote p r r' ok -> is_Some (path_lookup q (rd_root r)) -> ~ below p q -> is_Some (path_lookup q (rd_root r')).
Proof. intros H [x Hx] Hb. destruct (w_grows _ _ _ _ H _ _ Hx Hb) as (y & -> & _). done. Qed.

Lemma not_below_self p : ~ below p p.
Proof. intros (s & q & E). apply (f_equal length) in E. rewrite length_app in E. cbn in E. lia. Qed.

Lemma safe_assign_current p ns v r x :
  rd_ok r -> rd_nodes r = p :: ns -> path_lookup p (rd_root r) = Some x -> apart p (rd_lastValue r) ->
  safe (assign_current v) r (fun _ r' => wrote p r r' true /\ rd_current r' = rd_current r /\ rd_lastValue r' = rd_lastValue r /\
    path_lookup p (rd_root r') = Some (assign v x)).
Proof.
  intros H Hn Hp Ha. unfold assign_current, change_current. wp_step. eapply safe_current_path; [done|].
  eapply safe_change_at; [done|done|]. split; [|split; [done|split; [done|by apply path_lookup_alter with (f := fun _ => assign v x) (x := x)]]].
  assert (Hg := grows_outside_alter p (fun _ => assign v x) (rd_root r) x Hp).
  split; cbn; try done; [|by right]. destruct H as [Hl He Hb Hc]. split; cbn; try done.
  intros q Hq. destruct (Hl _ Hq) as [y Hy]. destruct (Hg _ _ Hy (Ha _ Hq)) as (z & -> & _). done.
Qed.

Lemma safe_decodeNumber p ns token r x :
  rd_ok r -> rd_nodes r = p :: ns -> path_lookup p (rd_root r) = Some x -> apart p (rd_lastValue r) ->
  safe (decodeNumber token) r (fun ok r' => wrote p r r' ok).
Proof.
  intros H Hn Hp Ha.
  assert (Hv : forall v, safe (assign_current v ;; mret true) r (fun ok r' => wrote p r r' ok)).
  { intros v. wp_step. eapply safe_weaken; [by eapply safe_assign_current|]. cbn. intros _ r1 (? & _). by wp_step. }
  assert (He : forall m, safe (addError m token None) r (fun ok r' => wrote p r r' ok)).
  { intros m. eapply safe_weaken; [by apply safe_addError|]. cbn. intros ? r1 [-> ?]. by apply wrote_quiet. }
  assert (Hd : safe (decodeDouble token) r (fun ok r' => wrote p r r' ok)).
  { unfold decodeDouble. destruct (scan_double _); [apply Hv|apply He]. }
  unfold decodeNumber. destruct (double_chars _ _); [done|]. destruct (decode_digits _ _ _ _); auto.
Qed.

Lemma safe_decodeStringValue p ns token r x :
  rd_ok r -> rd_nodes r = p :: ns -> path_lookup p (rd_root r) = Some x -> apart p (rd_lastValue r) ->
  safe (decodeStringValue token) r (fun ok r' => wrote p r r' ok).
Proof.
  intros H Hn Hp Ha. unfold decodeStringValue. wp_step. eapply safe_weaken; [by apply safe_decodeString|]. cbn.
  intros s r1 Hq1. destruct (q_grows _ _ Hq1 _ _ Hp) as (y & Hy & _). destruct s as [t|]; [|wp_step; by apply wrote_quiet].
  wp_step. eapply safe_weaken; [eapply safe_assign_current; [apply Hq1|by rewrite (q_nodes _ _ Hq1)|done|by rewrite (q_last _ _ Hq1)]|].
  cbn. intros _ r2 (Hw & _). wp_step. eapply wrote_trans; [by apply wrote_quiet|done].
Qed.

(** ** Containers *)

Definition shallow p (o : option path) : Prop := forall q, o = Some q -> forall s, ~ below (p ++ [s]) q.

Lemma shallow_apart p s o : shallow p o -> apart (p ++ [s]) o.
Proof. intros H q Hq. by apply H. Qed.

Lemma apart_shallow p o : apart p o -> shallow p o.
Proof. intros H q Hq s (s' & q' & ->). apply (H _ Hq). exists s, (s' :: q'). by rewrite <-app_assoc. Qed.

Lemma shallow_child p s o : o = Some (p ++ [s]) -> shallow p o.
Proof.
  intros -> q [= <-] s' (s'' & q' & E). apply (f_equal length) in E. rewrite !length_app in E. cbn in E. lia.
Qed.

Record looped p r r' : Prop := {
  l_nodes : rd_nodes r' = rd_nodes r;
  l_left : (left r' <= left r)%nat;
  l_grows : grows_outside p (rd_root r) (rd_root r');
  l_ok : rd_ok r';
}.

Lemma looped_quiet p r r' : quiet r r' -> looped p r r'.
Proof. intros []. split; try done. by apply grows_outside_of. Qed.

Lemma looped_trans p r1 r2 r3 : looped p r1 r2 -> looped p r2 r3 -> looped p r1 r3.
Proof. intros [] []. split; [congruence|lia|by eapply grows_outside_trans|done]. Qed.

Lemma grows_step_id s x : step_ok s x -> grows x (step_alter s id x).
Proof.
  intros Hs q y. destruct q as [|s2 q]; cbn; [intros [= <-]; eexists; split; [done|apply type_step_alter]|].
  destruct (decide (s2 = s)) as [->|Hne].
  - rewrite step_lookup_alter by done. destruct (step_lookup s x); [|done]. cbn. eauto.
  - destruct (step_lookup s2 x) as [w|] eqn:E2; [|done]. rewrite (step_lookup_alter_ne _ _ _ _ w) by done. eauto.
Qed.

Definition norm (s : step) : step := match s with Idx i => Idx i | Key k => Key (c_text k) end.

Lemma safe_push_child p ns s x r :
  rd_ok r -> rd_nodes r = p :: ns -> path_lookup p (rd_root r) = Some x -> step_ok (norm s) x ->
  safe (push_child s) r (fun _ r' =>
    rd_ok r' /\ rd_nodes r' = (p ++ [norm s]) :: rd_nodes r /\ rd_current r' = rd_current r /\ rd_lastValue r' = rd_lastValue r /\
    grows (rd_root r) (rd_root r') /\ is_Some (path_lookup (p ++ [norm s]) (rd_root r'))).
Proof.
  intros H Hn Hp Hs. unfold push_child, change_current. do 2 wp_step. eapply safe_current_path; [done|].
  assert (E : match s with Idx i => alter_index i id x | Key k => alter_member k id x end = inl (step_alter (norm s) id x)).
  { destruct s, x as [c d], d; done. }
  eapply safe_change_at; [done|exact E|]. clear E. wp_step. eapply safe_current_path; [done|]. wp_step. fold (norm s).
  set (root' := path_alter p (fun _ => step_alter (norm s) id x) (rd_root r)).
  assert (Hg : grows (rd_root r) root').
  { eapply grows_alter; [done|]. by apply grows_step_id. }
  destruct (quiet_root r root' H Hg) as [_ _ _ _ Hok]. destruct Hok as [Hl He Hb Hc].
  split; [by split|]. split; [done|]. split; [done|]. split; [done|]. split; [done|]. cbn.
  rewrite path_lookup_app. unfold root'. rewrite (path_lookup_alter _ _ _ x) by done. cbn.
  rewrite step_lookup_alter by done. done.
Qed.

(** What is asked of the call of [readValue] in a loop, on less than [n] characters. *)
Definition reads (n : nat) (rv : Ctl json_stop Reader bool) : Prop :=
  forall p ns r x, rd_ok r -> rd_nodes r = p :: ns -> path_lookup p (rd_root r) = Some x -> apart p (rd_lastValue r) ->
  (left r < n)%nat ->
  safe rv r (fun ok r' => wrote p r r' ok /\ (ok = true -> (left r' < left r)%nat)).

Lemma safe_then {A B C X} (m1 : Ctl json_stop Reader A) (m2 : Ctl json_stop Reader B) (m3 : Ctl json_stop Reader C)
  (K : B -> Ctl json_stop Reader X) r Q' Q :
  safe (m1 ;; b ← m2; m3 ;; mret b) r Q' -> (forall b r', Q' b r' -> safe (K b) r' Q) ->
  safe (m1 ;; b ← m2; m3 ;; K b) r Q.
Proof.
  Local Transparent wp. unfold wp, mbind, ctl_bind. intros H HK.
  destruct (m1 r) as [[a r1]|[]]; [|done]. destruct (m2 r1) as [[b r2]|[]]; [|done].
  destruct (m3 r2) as [[c r3]|[]]; [|done]. by apply HK.
Qed.
#[local] Opaque wp.

(** An error in a good state. *)
Ltac loop_error H :=
  eapply safe_weaken;
  [lazymatch goal with
   | |- wp (recoverFromError _ _) _ _ _ => apply safe_recoverFromError
   | _ => apply safe_addErrorAndRecover
   end; exact H|];
  cbn; intros ? ? [_ ?].

Section Loop.
Variables (n : nat) (rv : Ctl json_stop Reader bool).
Hypothesis rv_reads : reads n rv.

(** One child: pushed, read, popped. *)
Lemma safe_child p ns s x r :
  rd_ok r -> rd_nodes r = p :: ns -> path_lookup p (rd_root r) = Some x -> step_ok (norm s) x ->
  shallow p (rd_lastValue r) -> (left r < n)%nat ->
  safe (push_child s ;; ok ← rv; pop_node ;; mret ok) r
    (fun ok r' => looped p r r' /\
      (ok = true -> (left r' < left r)%nat /\ shallow p (rd_lastValue r') /\
        exists x', path_lookup p (rd_root r') = Some x' /\ type_ x' = type_ x)).
Proof.
  intros H Hn Hp Hs Ha Hf. wp_step. eapply safe_weaken; [by eapply safe_push_child|]. cbn.
  intros _ r1 (Hok1 & Hn1 & Hc1 & Hl1 & Hg1 & [y Hy]). wp_step.
  assert (Hw : safe rv r1
    (fun ok r' => wrote (p ++ [norm s]) r1 r' ok /\ (ok = true -> (left r' < left r1)%nat))).
  { eapply rv_reads; [done|done|done|rewrite Hl1; by apply shallow_apart|rewrite Hc1; lia]. }
  eapply safe_weaken; [exact Hw|]. cbn. intros ok r2 [[Wn Wl Wg Wo Wa] Hlt]. unfold pop_node. repeat wp_step.
  assert (Hn2 : tail (rd_nodes r2) = rd_nodes r) by (by rewrite Wn, Hn1).
  rewrite Hc1 in *. split.
  - split; cbn; [done|lia| |destruct Wo; by split].
    eapply grows_outside_trans; [by apply grows_outside_of|]. by eapply grows_outside_child.
  - cbn. intros Hok. split; [by apply Hlt|]. split.
    + destruct (Wa Hok) as [E|E]; [by eapply shallow_child|]. by rewrite E, Hl1.
    + destruct (Hg1 _ _ Hp) as (x1 & Hx1 & E1). destruct (Wg _ _ Hx1) as (x2 & Hx2 & E2).
      * intros (s' & q' & E). apply (f_equal length) in E. rewrite !length_app in E. cbn in E. lia.
      * exists x2. split; [done|]. rewrite E2; [done|]. intros E. apply (f_equal length) in E. rewrite length_app in E. cbn in E. lia.
Qed.

Lemma safe_object_loop k p ns name r x :
  rd_ok r -> rd_nodes r = p :: ns -> path_lookup p (rd_root r) = Some x -> type_ x = 7 ->
  shallow p (rd_lastValue r) -> (left r < k)%nat -> (left r < n)%nat ->
  safe (object_loop collectComments_ rv k name) r (fun _ r' => looped p r r').
Proof.
  revert name r x. induction k as [|k IH]; intros name r x H Hn Hp Ht Ha Hk Hf; [lia|]. cbn [object_loop].
  wp_step. eapply safe_weaken; [by apply safe_readToken|]. cbn. intros t r0 [Hq0 Hlt0].
  wp_step. eapply safe_weaken; [apply safe_skipComments, Hq0|]. cbn. intros t1 r1 [Hq1 Hlt1].
  assert (Hq : quiet r r1) by (eapply quiet_trans; eassumption). pose proof (q_left _ _ Hq0). pose proof (q_left _ _ Hq1).
  wp_step; [wp_step; apply looped_quiet; assumption|]. wp_step; [loop_error (q_ok _ _ Hq); apply looped_quiet; eapply quiet_trans; eassumption|].
  assert (Hl1 : (left r1 < left r)%nat).
  { destr_bool. case_bool_decide as Et; [|done]. destruct Hlt1 as [[El ->]|[?|?]]; [|congruence|lia].
    assert (left r0 < left r)%nat by (apply Hlt0; congruence). lia. }
  wp_step. eapply safe_weaken; [apply safe_decodeString, Hq|]. cbn. intros s r2 Hq2.
  assert (Hq2' : quiet r r2) by (eapply quiet_trans; eassumption). pose proof (q_left _ _ Hq2).
  destruct s as [name'|]; [|loop_error (q_ok _ _ Hq2); apply looped_quiet; eapply quiet_trans; eassumption].
  wp_step. eapply safe_weaken; [apply safe_readToken, Hq2|]. cbn. intros colon r3 [Hq3 _].
  assert (Hq3' : quiet r r3) by (eapply quiet_trans; eassumption). pose proof (q_left _ _ Hq3).
  wp_step; [loop_error (q_ok _ _ Hq3); apply looped_quiet; eapply quiet_trans; eassumption|].
  destruct (q_grows _ _ Hq3' _ _ Hp) as (x3 & Hx3 & Ex3).
  eapply safe_then.
  { apply (safe_child p ns (Key name') x3); [apply Hq3'|by rewrite (q_nodes _ _ Hq3')|done| |by rewrite (q_last _ _ Hq3')|lia].
    destruct x3 as [c d]. rewrite Ht in Ex3. by destruct d. }
  intros ok r4 [Hl4 Hok].
  assert (Hl4' : looped p r r4) by (eapply looped_trans; [apply looped_quiet; eassumption|eassumption]).
  wp_step; [loop_error (l_ok _ _ _ Hl4); eapply looped_trans; [eassumption|apply looped_quiet; assumption]|].
  match goal with Hn : negb ok = false |- _ => apply negb_false_iff in Hn; destruct (Hok Hn) as (Hlt4 & Ha4 & x4 & Hx4 & Ex4) end.
  wp_step. eapply safe_weaken; [apply safe_readToken, Hl4|]. cbn. intros comma r5 [Hq5 _].
  wp_step; [loop_error (q_ok _ _ Hq5); eapply looped_trans; [eassumption|apply looped_quiet; eapply quiet_trans; eassumption]|].
  wp_step. eapply safe_weaken; [apply safe_skipComments, Hq5|]. cbn. intros comma' r6 [Hq6 _].
  assert (Hq6' : quiet r4 r6) by (eapply quiet_trans; eassumption). pose proof (q_left _ _ Hq6').
  wp_step; [wp_step; eapply looped_trans; [eassumption|apply looped_quiet; assumption]|].
  destruct (q_grows _ _ Hq6' _ _ Hx4) as (x6 & Hx6 & Ex6).
  eapply safe_weaken.
  { apply (IH _ _ x6); [apply Hq6'|by rewrite (q_nodes _ _ Hq6'), (l_nodes _ _ _ Hl4')|done|congruence|by rewrite (q_last _ _ Hq6')|lia|lia]. }
  cbn. intros _ r7 Hl7. eapply looped_trans; [eassumption|]. eapply looped_trans; [apply looped_quiet; eassumption|eassumption].
Qed.

Lemma safe_array_loop k p ns i r x :
  rd_ok r -> rd_nodes r = p :: ns -> path_lookup p (rd_root r) = Some x -> type_ x = 6 ->
  shallow p (rd_lastValue r) -> (left r < k)%nat -> (left r < n)%nat ->
  safe (array_loop collectComments_ rv k i) r (fun _ r' => looped p r r').
Proof.
  revert i r x. induction k as [|k IH]; intros i r x H Hn Hp Ht Ha Hk Hf; [lia|]. cbn [array_loop].
  eapply safe_then.
  { apply (safe_child p ns (Idx i) x); try done. destruct x as [c d]. by destruct d. }
  intros ok r4 [Hl4 Hok].
  wp_step; [loop_error (l_ok _ _ _ Hl4); eapply looped_trans; [eassumption|apply looped_quiet; assumption]|].
  match goal with Hn : negb ok = false |- _ => apply negb_false_iff in Hn; destruct (Hok Hn) as (Hlt4 & Ha4 & x4 & Hx4 & Ex4) end.
  wp_step. eapply safe_weaken; [apply safe_readToken, Hl4|]. cbn. intros comma r5 [Hq5 _].
  wp_step. eapply safe_weaken; [apply safe_skipComments, Hq5|]. cbn. intros comma' r6 [Hq6 _].
  assert (Hq6' : quiet r4 r6) by (eapply quiet_trans; eassumption). pose proof (q_left _ _ Hq6').
  wp_step; [loop_error (q_ok _ _ Hq6); eapply looped_trans; [eassumption|apply looped_quiet; eapply quiet_trans; eassumption]|].
  wp_step; [wp_step; eapply looped_trans; [eassumption|apply looped_quiet; assumption]|].
  destruct (q_grows _ _ Hq6' _ _ Hx4) as (x6 & Hx6 & Ex6).
  eapply safe_weaken.
  { apply (IH _ _ x6); [apply Hq6'|by rewrite (q_nodes _ _ Hq6'), (l_nodes _ _ _ Hl4)|done|congruence|by rewrite (q_last _ _ Hq6')|lia|lia]. }
  cbn. intros _ r7 Hl7. eapply looped_trans; [eassumption|]. eapply looped_trans; [apply looped_quiet; eassumption|eassumption].
Qed.
End Loop.

(** ** readValue *)

Lemma read_token_value_safe n rv token p ns r x :
  reads n rv -> rd_ok r -> rd_nodes r = p :: ns -> path_lookup p (rd_root r) = Some x -> apart p (rd_lastValue r) ->
  (left r < n)%nat ->
  safe (read_token_value collectComments_ rv token) r (fun o r' =>
    wrote p r r' false /\ match o with
                         | Some ok => collectComments_ = false -> rd_lastValue r' = rd_lastValue r
                         | None => True
                         end).
Proof.
  intros Hrv H Hn Hp Ha Hl.
  assert (Hnone : forall r', rd_ok r' -> collectComments_ = false -> rd_lastValue r' = rd_lastValue r).
  { intros r' Hr' Hc. by rewrite (ok_collect _ Hr' Hc), (ok_collect _ H Hc). }
  assert (Hw : forall r' ok, wrote p r r' ok -> wrote p r r' false /\ (collectComments_ = false -> rd_lastValue r' = rd_lastValue r)).
  { intros r' ok [W1 W2 W3 W4 W5]. split; [by split|by apply Hnone]. }
  assert (Hassign : forall v, safe (assign_current v ;; mret (Some true)) r (fun o r' => wrote p r r' false /\
    match o with Some ok => collectComments_ = false -> rd_lastValue r' = rd_lastValue r | None => True end)).
  { intros v. wp_step. eapply safe_weaken; [by eapply safe_assign_current|]. cbn. intros _ r1 (W & _). wp_step. by eapply Hw. }
  assert (Hloop : forall v r1 r2, looped p r1 r2 -> rd_current r1 = rd_current r \/ (left r1 <= left r)%nat ->
    wrote p r r1 true -> wrote p r r2 false /\ (collectComments_ = false -> rd_lastValue r2 = rd_lastValue r)).
  { intros v r1 r2 [L1 L2 L3 L4] _ [W1 W2 W3 W4 W5]. split; [|by apply Hnone].
    split; [congruence|lia|by eapply grows_outside_trans|done|done]. }
  unfold read_token_value. destruct (tk_type token); try apply Hassign;
    try (wp_step; eapply safe_weaken; [by apply safe_addError|]; cbn; intros ? r1 [_ Hq]; wp_step; split; [by apply wrote_quiet|done]).
  - wp_step. unfold readObject. wp_step. eapply safe_weaken; [by eapply safe_assign_current|]. cbn.
    intros _ r1 (W & Ec & El & Hp1). do 2 wp_step.
    eapply safe_weaken.
    { eapply (safe_object_loop n rv Hrv (S (left r1)) p ns [] r1); [apply W|by rewrite (w_nodes _ _ _ _ W)|done|done| | |].
      - rewrite El. by apply apart_shallow.
      - lia.
      - by rewrite Ec. }
    cbn. intros ok r2 L. wp_step. eapply (Hloop x); [done|by left|done].
  - wp_step. unfold readArray. wp_step. eapply safe_weaken; [by eapply safe_assign_current|]. cbn.
    intros _ r1 (W & Ec & El & Hp1). wp_step. apply safe_move; [apply W|apply skip_while_length|]. intros r2 Hq2 E2.
    do 2 wp_step. wp_step.
    + wp_step. eapply safe_weaken; [apply safe_readToken, Hq2|]. cbn. intros t r3 [Hq3 _]. do 2 wp_step.
      eapply (Hloop x); [apply looped_quiet, (quiet_trans _ _ _ Hq2 Hq3)|by left|done].
    + destruct (q_grows _ _ Hq2 _ _ Hp1) as (y & Hy & Ey). pose proof (q_left _ _ Hq2).
      eapply safe_weaken.
      { eapply (safe_array_loop n rv Hrv (S (left r2)) p ns 0 r2); [apply Hq2|by rewrite (q_nodes _ _ Hq2), (w_nodes _ _ _ _ W)|done|by rewrite Ey| | |].
        - rewrite (q_last _ _ Hq2), El. by apply apart_shallow.
        - lia.
        - rewrite Ec in *. lia. }
      cbn. intros ok r3 L. wp_step. eapply (Hloop x); [eapply looped_trans; [by apply looped_quiet|exact L]|by left|done].
  - wp_step. eapply safe_weaken; [by eapply safe_decodeStringValue|]. cbn. intros ok r1 W. wp_step. by eapply Hw.
  - wp_step. eapply safe_weaken; [by eapply safe_decodeNumber|]. cbn. intros ok r1 W. wp_step. by eapply Hw.
Qed.

Lemma read_value_body_safe n rv p ns r x :
  reads n rv -> rd_ok r -> rd_nodes r = p :: ns -> path_lookup p (rd_root r) = Some x -> apart p (rd_lastValue r) ->
  (left r < S n)%nat ->
  safe (read_value_body allowComments_ collectComments_ rv) r
    (fun ok r' => wrote p r r' ok /\ (ok = true -> (left r' < left r)%nat)).
Proof.
  intros Hrv H Hn Hp Ha Hl. unfold read_value_body. wp_step. eapply safe_weaken; [by apply safe_skipCommentTokens|]. cbn.
  intros token r1 [Hq1 Hlt1]. do 3 wp_step.
  eapply (safe_weaken _ _ (fun _ r' => quiet r r' /\ rd_current r' = rd_current r1)).
  - wp_step; [|by split]. unfold change_current. wp_step. wp_step.
    destruct (q_grows _ _ Hq1 _ _ Hp) as (y & Hy & _).
    eapply safe_current_path; [by rewrite (q_nodes _ _ Hq1)|].
    destruct (setComment_ok (rd_commentsBefore r1) commentBefore y) as (z & Hz & Ez); [apply Hq1|].
    eapply safe_change_at; [done|done|]. wp_step. split; [|done].
    set (root' := path_alter p (fun _ => z) (rd_root r1)).
    assert (Hq : quiet r1 (set_root root' r1)).
    { apply quiet_root; [apply Hq1|]. eapply grows_alter; [done|]. by apply grows_data. }
    eapply quiet_trans; [done|]. eapply quiet_trans; [exact Hq|]. apply quiet_before; [apply Hq|by left].
  - cbn. intros _ r2 [Hq2 Ec]. wp_step. destruct (q_grows _ _ Hq2 _ _ Hp) as (y & Hy & _). pose proof (q_left _ _ Hq2).
    destruct (decide (tk_type token = tokenEndOfStream)) as [Et|Et].
    + unfold read_token_value. rewrite Et. wp_step. eapply safe_weaken; [apply safe_addError, Hq2|]. cbn. intros _ r3 [_ Hq3].
      repeat wp_step. split; [apply wrote_quiet; by eapply quiet_trans|done].
    + specialize (Hlt1 Et).
      eapply safe_weaken.
      { eapply (read_token_value_safe n rv token p ns r2 y); [done|apply Hq2|by rewrite (q_nodes _ _ Hq2)|done|by rewrite (q_last _ _ Hq2)|rewrite Ec; lia]. }
      cbn. intros o r3 [W Hlast].
      assert (W' : wrote p r r3 false) by (eapply wrote_trans; [by apply wrote_quiet|done]).
      pose proof (w_left _ _ _ _ W). rewrite Ec in *.
      destruct o as [ok|]; wp_step; [|by split].
      wp_step; [|wp_step; split; [|intros; lia]; destruct W' as [V1 V2 V3 V4 V5]; split; try done; right; rewrite Hlast, (q_last _ _ Hq2); done].
      wp_step. eapply safe_current_path; [by rewrite (w_nodes _ _ _ _ W')|]. wp_step. wp_step. split; [|intros; cbn; lia].
      destruct W' as [V1 V2 V3 V4 V5]. split; cbn; try done; [|by left].
      destruct V4 as [O1 O2 O3 O4]. split; cbn; try done; [|by intros E; rewrite E in *].
      intros q [= <-]. destruct (V3 p x Hp (not_below_self p)) as (z & -> & _). done.
Qed.

Lemma readValue_safe n : reads n (readValue allowComments_ collectComments_ n).
Proof.
  induction n as [|n IH]; intros p ns r x H Hn Hp Ha Hl; [lia|]. cbn [readValue].
  by eapply read_value_body_safe.
Qed.

Lemma parse_body_safe document root :
  safe (parse_body allowComments_ strictRoot_ collectComments_ document) (mk_reader document None None [] [] [[]] root)
    (fun _ _ => True).
Proof.
  set (r := mk_reader _ _ _ _ _ _ _). unfold parse_body. wp_step. eapply safe_weaken.
  { eapply (readValue_safe _ [] [] r root); [split; cbn; [done|by intros []|by left|done]|done|done|done|cbn; lia]. }
  cbn. intros ok r1 [W _]. wp_step. eapply safe_weaken; [apply safe_skipCommentTokens, W|]. cbn. intros token r2 [Hq2 _].
  do 3 wp_step.
  eapply (safe_weaken _ _ (fun _ _ => True)).
  - wp_step; [|done]. destruct (setComment_ok (rd_commentsBefore r2) commentAfter (rd_root r2)) as (z & Hz & Ez); [apply Hq2|].
    by eapply safe_change_at.
  - cbn. intros _ r3 _. do 2 wp_step. unfold addError. by repeat wp_step.
Qed.

(** [parse] returns, whatever the document. *)
Lemma parse_returns document root :
  exists ok v errors, parse_document allowComments_ strictRoot_ collectComments_ document root = inl (ok, v, errors).
Proof.
  unfold parse_document. destruct (wp_run _ _ _ (parse_body_safe document root)) as (ok & r & -> & _). eauto.
Qed.
End Safety.
