(* ===== verification/JsonText.v ===== *)
(** * JsonText: what a JSON text stands for, and that the reader reads it

    The texts of JSON as a relation: any white space, any escapes, numbers of any form,
    members in any order.  What an escape, a code point and a number stand for is stated
    here anew, not taken from the reader.  [parse_text]: from such a text the reader builds
    the value. *)
From stdpp Require Import base list.
From S2P Require Import Prelude Control Streams JsonValue JsonWriter JsonReader JsonPaths JsonSafety.

(** ** White space *)

Definition white (c : Z) : bool := existsb (Z.eqb c) [32; HT; LF; CR].
Definition spaces (w : list Z) : Prop := Forall (fun c => white c = true) w.

Lemma white_space c : is_space c = white c.
Proof. unfold is_space, white. cbn. rewrite orb_false_r. by destruct (c =? 32), (c =? 9), (c =? 13), (c =? 10). Qed.

(** ** Strings *)

(** What stands behind a backslash, and the character that it stands for. *)
Definition escapes : list (Z * Z) :=
  [(QUOTE, 34); (chr "\", 92); (chr "/", 47); (chr "b", 8); (chr "f", 12); (chr "n", 10); (chr "r", 13); (chr "t", 9)].

(** A digit in base 16, and four of them. *)
Definition hex_char (c d : Z) : Prop :=
  0 <= d /\ (bytes "0123456789abcdef" !! Z.to_nat d = Some c \/ bytes "0123456789ABCDEF" !! Z.to_nat d = Some c).
Definition hex4 (h : list Z) (u : Z) : Prop :=
  exists a b c d, Forall2 hex_char h [a; b; c; d] /\ u = a * 4096 + b * 256 + c * 16 + d.

(** The bytes of a code point in UTF-8. *)
Inductive utf8 : Z -> list Z -> Prop :=
  | utf8_1 a : 0 <= a < 128 -> utf8 a [a]
  | utf8_2 a b : 2 <= a < 32 -> 0 <= b < 64 -> utf8 (a * 64 + b) [192 + a; 128 + b]
  | utf8_3 a b c : 0 <= a < 16 -> 0 <= b < 64 -> 0 <= c < 64 -> 2048 <= a * 4096 + b * 64 ->
      utf8 (a * 4096 + b * 64 + c) [224 + a; 128 + b; 128 + c]
  | utf8_4 a b c d : 0 <= a < 8 -> 0 <= b < 64 -> 0 <= c < 64 -> 0 <= d < 64 ->
      65536 <= a * 262144 + b * 4096 -> a * 262144 + b * 4096 + c * 64 + d <= 1114111 ->
      utf8 (a * 262144 + b * 4096 + c * 64 + d) [240 + a; 128 + b; 128 + c; 128 + d].

Inductive string_text : list Z -> list Z -> Prop :=
  | st_end : string_text [] []
  | st_plain c s t : c <> QUOTE -> c <> BACKSLASH -> string_text s t -> string_text (c :: s) (c :: t)
  | st_escape e d s t : (e, d) ∈ escapes -> string_text s t -> string_text (d :: s) (BACKSLASH :: e :: t)
  | st_unicode h u b s t :
      hex4 h u -> ~ (55296 <= u <= 57343) -> utf8 u b -> string_text s t ->
      string_text (b ++ s) (BACKSLASH :: chr "u" :: h ++ t)
  | st_pair h u h' u' b s t :
      hex4 h u -> 55296 <= u <= 56319 -> hex4 h' u' -> 56320 <= u' <= 57343 ->
      utf8 (65536 + (u - 55296) * 1024 + (u' - 56320)) b -> string_text s t ->
      string_text (b ++ s) (BACKSLASH :: chr "u" :: h ++ BACKSLASH :: chr "u" :: h' ++ t).

(** The reader agrees. *)
Lemma escapes_read e d : (e, d) ∈ escapes -> simple_escape e = Some d.
Proof.
  unfold escapes. rewrite !elem_of_cons.
  intros H. repeat (destruct H as [[= -> ->]|H]; [reflexivity|]). by apply not_elem_of_nil in H.
Qed.

Lemma hex_char_value c d : hex_char c d -> hex_value c = Some d.
Proof.
  intros [H0 H]. assert (Hd : d ∈ seqZ 0 16).
  { apply elem_of_seqZ. destruct H as [H|H]; apply lookup_lt_Some in H; cbn in H; lia. }
  clear H0. revert d Hd H. assert (Hall : Forall (fun d => forall c,
    bytes "0123456789abcdef" !! Z.to_nat d = Some c \/ bytes "0123456789ABCDEF" !! Z.to_nat d = Some c -> hex_value c = Some d) (seqZ 0 16)).
  { vm_compute seqZ. repeat constructor; intros x [[= <-]|[= <-]]; reflexivity. }
  intros d Hd H. rewrite Forall_forall in Hall. by apply (Hall d Hd c).
Qed.

Lemma hex4_read h u : hex4 h u ->
  length h = 4%nat /\ Forall (fun c => is_Some (hex_value c)) h /\ forall l, hex_digits 4 (h ++ l) 0 = inl (u, l).
Proof.
  intros (a & b & c & d & H & ->). split; [by apply Forall2_length in H|].
  assert (H' : Forall2 (fun c d => hex_value c = Some d) h [a; b; c; d]) by (eapply Forall2_impl; [done|apply hex_char_value]).
  clear H. inversion H' as [|c1 ? h1 ? E1 H1]; subst. inversion H1 as [|c2 ? h2 ? E2 H2]; subst.
  inversion H2 as [|c3 ? h3 ? E3 H3]; subst. inversion H3 as [|c4 ? h4 ? E4 H4]; subst. inversion H4; subst.
  split; [by repeat constructor; eexists|]. intros l. cbn. rewrite E1, E2, E3, E4. do 2 f_equal. lia.
Qed.

(** Bits above and below. *)
Lemma lor_add base n x : 0 <= n -> 0 <= x < 2 ^ n -> base mod 2 ^ n = 0 -> Z.lor base x = base + x.
Proof.
  intros Hn Hx Hb. symmetry. apply Z.add_nocarry_lor. apply Z.bits_inj'. intros i Hi. rewrite Z.land_spec, Z.bits_0.
  destruct (Z.ltb_spec i n).
  - replace base with (base / 2 ^ n * 2 ^ n) by (pose proof (Z.div_mod base (2 ^ n)); lia).
    by rewrite Z.mul_pow2_bits_low.
  - rewrite <-(Z.mod_small x (2 ^ n)), Z.mod_pow2_bits_high by lia. by rewrite andb_false_r.
Qed.

Lemma lead_byte base mask n x cp k :
  0 <= n -> 0 <= k -> mask = Z.ones n -> base mod 2 ^ n = 0 -> 0 <= x < 2 ^ n -> cp / 2 ^ k = x ->
  Z.lor base (Z.land mask (Z.shiftr cp k)) = base + x.
Proof.
  intros Hn Hk -> Hb Hx E. rewrite Z.shiftr_div_pow2, E, Z.land_comm, Z.land_ones by done.
  rewrite Z.mod_small by done. by apply (lor_add base n).
Qed.

Lemma next_byte x cp k : 0 <= k -> 0 <= x < 64 -> (cp / 2 ^ k) mod 64 = x ->
  Z.lor 128 (Z.land 63 (Z.shiftr cp k)) = 128 + x.
Proof.
  intros Hk Hx E. rewrite Z.shiftr_div_pow2, Z.land_comm by done. change 63 with (Z.ones 6). rewrite Z.land_ones by done.
  change (2 ^ 6) with 64. rewrite E. by apply (lor_add 128 6).
Qed.

Lemma last_byte x cp : 0 <= x < 64 -> cp mod 64 = x -> Z.lor 128 (Z.land 63 cp) = 128 + x.
Proof. intros Hx E. rewrite <-(next_byte x cp 0) by (rewrite ?Z.div_1_r; done). by rewrite Z.shiftr_0_r. Qed.

Lemma utf8_read cp b : utf8 cp b -> codePointToUTF8 cp = b.
Proof.
  unfold codePointToUTF8. intros [a Ha|a b0 Ha Hb|a b0 c Ha Hb Hc Hm|a b0 c d Ha Hb Hc Hd Hm Hx].
  - by rewrite (proj2 (Z.leb_le _ _)) by lia.
  - rewrite (proj2 (Z.leb_gt _ 127)), (proj2 (Z.leb_le _ 2047)) by lia.
    rewrite (lead_byte 192 31 5 a), (last_byte b0) by (done || lia || (Z.to_euclidean_division_equations; lia)). done.
  - rewrite (proj2 (Z.leb_gt _ 127)), (proj2 (Z.leb_gt _ 2047)), (proj2 (Z.leb_le _ 65535)) by lia.
    rewrite (lead_byte 224 15 4 a), (next_byte b0), (last_byte c) by (done || lia || (Z.to_euclidean_division_equations; lia)). done.
  - rewrite (proj2 (Z.leb_gt _ 127)), (proj2 (Z.leb_gt _ 2047)), (proj2 (Z.leb_gt _ 65535)), (proj2 (Z.leb_le _ 1114111)) by lia.
    rewrite (lead_byte 240 7 3 a), (next_byte b0), (next_byte c), (last_byte d) by (done || lia || (Z.to_euclidean_division_equations; lia)). done.
Qed.

Lemma surrogates u u' : 55296 <= u <= 56319 -> 56320 <= u' <= 57343 ->
  65536 + Z.shiftl (Z.land u 1023) 10 + Z.land u' 1023 = 65536 + (u - 55296) * 1024 + (u' - 56320).
Proof.
  intros Hu Hu'. change 1023 with (Z.ones 10). rewrite !Z.land_ones, Z.shiftl_mul_pow2 by done. change (2 ^ 10) with 1024.
  rewrite <-(Z.mod_unique u 1024 54 (u - 55296)) by lia. rewrite <-(Z.mod_unique u' 1024 55 (u' - 56320)) by lia. done.
Qed.

Lemma hex_value_plain c : is_Some (hex_value c) -> c <> QUOTE /\ c <> BACKSLASH.
Proof. unfold hex_value, is_digit, QUOTE, BACKSLASH. intros [d Hd]. split; intros ->; done. Qed.

Lemma string_end_plain c0 h t l : Forall (fun c => is_Some (hex_value c)) h -> exists c1, string_end c0 (h ++ t ++ QUOTE :: l) = string_end c1 (t ++ QUOTE :: l).
Proof.
  intros H. revert c0. induction H as [|c h Hc _ IH]; intros c0; [by exists c0|]. cbn.
  destruct (hex_value_plain _ Hc) as [N1 N2]. rewrite (proj2 (Z.eqb_neq _ _) N2), (proj2 (Z.eqb_neq _ _) N1). apply IH.
Qed.

Lemma string_end_text s t c l : string_text s t -> string_end c (t ++ QUOTE :: l) = (QUOTE, l).
Proof.
  intros H. revert c. induction H as [|c0 s t N1 N2 _ IH|e d s t He _ IH|h u b s t Hh _ _ _ IH|h u h' u' b s t Hh _ Hh' _ _ _ IH]; intros c.
  - done.
  - cbn. rewrite (proj2 (Z.eqb_neq _ _) N2), (proj2 (Z.eqb_neq _ _) N1). apply IH.
  - cbn. apply IH.
  - cbn. rewrite <-app_assoc. destruct (string_end_plain (BACKSLASH) h t l) as [c1 E]; [by eapply hex4_read|].
    rewrite E. apply IH.
  - cbn. rewrite <-app_assoc. cbn.
    destruct (string_end_plain (BACKSLASH) h (BACKSLASH :: chr "u" :: h' ++ t) l) as [c1 E]; [by eapply hex4_read|].
    cbn in E. rewrite E. cbn. rewrite <-app_assoc. destruct (string_end_plain BACKSLASH h' t l) as [c2 E2]; [by eapply hex4_read|].
    rewrite E2. apply IH.
Qed.

Lemma decode_escape h u t : hex4 h u -> decodeUnicodeEscapeSequence (h ++ t) = inl (u, t).
Proof.
  intros (Hl & _ & Hh)%hex4_read. unfold decodeUnicodeEscapeSequence. rewrite (proj2 (Z.ltb_ge _ _)); [apply Hh|].
  rewrite zlen_app. unfold zlen. lia.
Qed.

Lemma decode_chars_text s t n acc : string_text s t -> (length t <= n)%nat -> decode_chars n t acc = inl (acc ++ s, []).
Proof.
  intros H. revert n acc.
  induction H as [|c0 s t N1 N2 _ IH|e d s t He _ IH|h u b s t Hh Hu Hb _ IH|h u h' u' b s t Hh Hu Hh' Hu' Hb _ IH]; intros n acc Hn.
  - destruct n; cbn; by rewrite app_nil_r.
  - destruct n as [|n]; cbn in Hn; [lia|]. cbn. rewrite (proj2 (Z.eqb_neq _ _) N1), (proj2 (Z.eqb_neq _ _) N2).
    rewrite IH by lia. by rewrite <-app_assoc.
  - destruct n as [|n]; cbn in Hn; [lia|]. cbn. rewrite (escapes_read _ _ He), IH by lia. by rewrite <-app_assoc.
  - destruct n as [|n]; cbn in Hn; [lia|]. rewrite length_app in Hn. cbn. unfold decodeUnicodeCodePoint.
    rewrite (decode_escape _ u) by done. destruct (_ && _) eqn:E; [apply andb_true_iff in E; lia|].
    rewrite (utf8_read _ _ Hb), IH by lia. by rewrite <-app_assoc.
  - destruct n as [|n]; cbn in Hn; [lia|]. rewrite length_app in Hn. cbn in Hn. rewrite length_app in Hn. cbn [decode_chars].
    cbn. unfold decodeUnicodeCodePoint. rewrite (decode_escape _ u) by done.
    destruct (_ && _) eqn:E; [|apply andb_false_iff in E; lia].
    assert (Hl : (zlen (BACKSLASH :: chr "u" :: h' ++ t) <? 6) = false).
    { apply Z.ltb_ge. rewrite !zlen_cons, zlen_app. unfold zlen. destruct (hex4_read _ _ Hh') as [-> _]. lia. }
    rewrite Hl. cbn. rewrite (decode_escape _ u') by done. rewrite surrogates, (utf8_read _ _ Hb), IH by lia. by rewrite <-app_assoc.
Qed.

(** ** Numbers *)

Definition digits (l : list Z) : Prop := l <> [] /\ Forall (fun c => is_digit c = true) l.
Definition dec_value (l : list Z) : Z := digits_value 10 dec_digit 0 l.

(** A number that the reader keeps as an integer. *)
Inductive int_text {D : Doubles} : Value -> list Z -> Prop :=
  | it_signed ds : digits ds -> dec_value ds <= maxInt -> int_text (of_int (dec_value ds)) ds
  | it_unsigned ds : digits ds -> maxInt < dec_value ds <= maxUInt64 -> int_text (of_uint (dec_value ds)) ds
  | it_negative ds : digits ds -> dec_value ds <= 2 ^ 63 -> int_text (of_int (- dec_value ds)) (chr "-" :: ds).

(** A fraction, an exponent, and the numbers that are read as a [double]: as [scan_double]
    reads their text.  An integer out of range is one of them, unless the test of the last
    digit fails, when the reader takes it for another integer ([misread]). *)
Definition fraction (f : list Z) : Prop := f = [] \/ exists ds, digits ds /\ f = chr "." :: ds.
Definition exponent (e : list Z) : Prop :=
  e = [] \/ exists c sign ds, (c = chr "e" \/ c = chr "E") /\ (sign = [] \/ sign = [chr "+"] \/ sign = [chr "-"]) /\
    digits ds /\ e = c :: sign ++ ds.
Definition misread (max v : Z) : Prop := max < v /\ v / 100 < max / 10 /\ v mod 10 <= max mod 10.

Inductive real_text {D : Doubles} : Value -> list Z -> Prop :=
  | rt_real m ds f e d : m = [] \/ m = [chr "-"] -> digits ds -> fraction f -> exponent e -> f ++ e <> [] ->
      scan_double (m ++ ds ++ f ++ e) = Some d -> real_text (of_double d) (m ++ ds ++ f ++ e)
  | rt_above ds d : digits ds -> maxUInt64 < dec_value ds -> ~ misread maxUInt64 (dec_value ds) ->
      scan_double ds = Some d -> real_text (of_double d) ds
  | rt_below ds d : digits ds -> 2 ^ 63 < dec_value ds -> ~ misread (2 ^ 63) (dec_value ds) ->
      scan_double (chr "-" :: ds) = Some d -> real_text (of_double d) (chr "-" :: ds).

Lemma is_digit_range c : is_digit c = true <-> 48 <= c <= 57.
Proof. unfold is_digit. cbn. rewrite andb_true_iff. lia. Qed.

Lemma digits_value_acc ds acc :
  0 <= acc -> Forall (fun c => is_digit c = true) ds -> acc <= digits_value 10 dec_digit acc ds.
Proof.
  intros Ha H. revert acc Ha. induction H as [|c ds Hc _ IH]; intros acc Ha; cbn; [lia|].
  apply is_digit_range in Hc. unfold dec_digit at 2. cbn. etrans; [|apply IH]; lia.
Qed.

Lemma digits_value_cons acc c ds :
  digits_value 10 dec_digit acc (c :: ds) = digits_value 10 dec_digit (acc * 10 + (c - 48)) ds.
Proof. reflexivity. Qed.

(** What the loop over the digits does: exact up to the limit; behind it the text is
    read as a [double], unless only its last digit leaves the range and is not above
    the last digit of the limit: then the value has wrapped around. *)
Definition digits_result (max v : Z) : digits_end :=
  if v <=? max then Digits_value v
  else if (max / 10 <=? v / 100) || (max mod 10 <? v mod 10) then Digits_double
  else Digits_value (uwrap 64 v).

Lemma digits_value_two acc c d ds :
  0 <= acc -> Forall (fun c => is_digit c = true) (c :: d :: ds) -> 100 * acc <= digits_value 10 dec_digit acc (c :: d :: ds).
Proof.
  intros Ha H. apply Forall_cons in H as [Hc H]. apply Forall_cons in H as [Hd H].
  apply is_digit_range in Hc, Hd. rewrite !digits_value_cons.
  pose proof (digits_value_acc ds ((acc * 10 + (c - 48)) * 10 + (d - 48)) ltac:(lia) H). lia.
Qed.

Lemma decode_digits_acc max ds acc :
  0 <= acc -> acc / 10 < max / 10 -> 100 <= max < 2 ^ 64 -> digits ds ->
  decode_digits (max / 10) (max mod 10) ds acc = digits_result max (digits_value 10 dec_digit acc ds).
Proof.
  intros Ha Hlt Hm [Hne H]. revert acc Ha Hlt. induction H as [|c ds Hc Hds IH]; intros acc Ha Hlt; [done|]. clear Hne.
  pose proof (Z.div_mod max 10 ltac:(lia)). pose proof (Z.mod_pos_bound max 10 ltac:(lia)).
  cbn [decode_digits]. rewrite Hc. cbn [negb]. pose proof (proj1 (is_digit_range c) Hc) as Hr.
  change (chr "0") with 48. destruct ds as [|d ds].
  - rewrite digits_value_cons. change (digits_value 10 dec_digit (acc * 10 + (c - 48)) []) with (acc * 10 + (c - 48)).
    cbn [bool_decide]. rewrite bool_decide_false by (by intros []). cbn [orb decode_digits]. unfold digits_result.
    assert (Ed : (acc * 10 + (c - 48)) mod 10 = c - 48) by (symmetry; apply Z.mod_unique with acc; lia).
    assert (Eq : (acc * 10 + (c - 48)) / 100 = acc / 10).
    { replace 100 with (10 * 10) by done. rewrite <-Z.div_div by lia. f_equal. symmetry. apply Z.div_unique with (c - 48); lia. }
    rewrite Ed, Eq. rewrite (proj2 (Z.leb_gt (max / 10) (acc / 10))) by lia. cbn [orb].
    destruct (Z.leb_spec (acc * 10 + (c - 48)) max).
    + rewrite uwrap_small by lia. destruct (_ && _) eqn:E; [|done]. apply andb_true_iff in E. lia.
    + rewrite (proj2 (Z.leb_le _ _)) by lia. cbn [andb]. by destruct (_ <? _).
  - rewrite bool_decide_true by done. cbn [orb]. rewrite andb_true_r.
    pose proof (digits_value_two acc c d ds Ha ltac:(by constructor)) as H2.
    destruct (Z.leb_spec (max / 10) acc).
    + unfold digits_result. rewrite (proj2 (Z.leb_gt _ max)) by lia.
      rewrite (proj2 (Z.leb_le (max / 10) _)); [done|]. etrans; [|apply Z.div_le_lower_bound with (q := acc); lia]. done.
    + rewrite uwrap_small by lia. rewrite digits_value_cons. apply IH; [done|lia|].
      replace ((acc * 10 + (c - 48)) / 10) with acc; [done|]. apply Z.div_unique with (c - 48); lia.
Qed.

Lemma decode_digits_exact max ds :
  100 <= max < 2 ^ 64 -> digits ds -> decode_digits (max / 10) (max mod 10) ds 0 = digits_result max (dec_value ds).
Proof. intros Hm Hd. apply decode_digits_acc; try done. change (0 / 10) with 0. assert (1 <= max / 10) by (apply Z.div_le_lower_bound; lia). lia. Qed.

(** ** Tokens *)

(** Lengths of concatenations. *)
Ltac lengths := repeat (progress (rewrite ?length_app in *; cbn [length app] in * )); lia.

(** Comparisons of known tokens. *)
Ltac decide_tests :=
  cbn [tk_type];
  repeat match goal with
  | |- context [@bool_decide (?a = ?b :> TokenType) ?d] =>
      let x := eval vm_compute in (@bool_decide (a = b) d) in change (@bool_decide (a = b) d) with x
  end; cbn [negb orb andb].

Section Tokens.
Context {D : Doubles} (allowComments_ collectComments_ : bool).
Implicit Types (r : Reader) (l w ds : list Z).

Lemma skip_while_spaces w l : spaces w -> is_space (deref l) = false -> skip_while is_space (w ++ l) = l.
Proof.
  intros Hw Hl. induction Hw as [|c w Hc _ IH]; cbn; [|by rewrite white_space, Hc].
  destruct l as [|c l]; cbn in *; [done|by rewrite Hl].
Qed.

(** [readToken] behind white space. *)
Lemma readToken_eq r w c l :
  spaces w -> is_space c = false -> rd_current r = w ++ c :: l ->
  readToken collectComments_ r =
    match token_kind collectComments_ (c :: l) c (set_current l r) with
    | inl (ty, ok, r') => inl (mk_token (if ok then ty else tokenError) (c :: l) (rd_current r'), r')
    | inr e => inr e
    end.
Proof.
  intros Hw Hc Hr. unfold readToken, skipSpaces, getNextChar, mbind, ctl_bind, modify, gets, mret, ctl_ret.
  rewrite Hr, skip_while_spaces by done. cbn.
  change (set_current l (set_current (c :: l) r)) with (set_current l r).
  by destruct (token_kind _ _ _ _) as [[[ty ok] r']|e].
Qed.

(** The tokens of one character. *)
Definition punctuation (c : Z) : option TokenType :=
  if c =? chr "{" then Some tokenObjectBegin
  else if c =? chr "}" then Some tokenObjectEnd
  else if c =? chr "[" then Some tokenArrayBegin
  else if c =? chr "]" then Some tokenArrayEnd
  else if c =? chr "," then Some tokenArraySeparator
  else if c =? chr ":" then Some tokenMemberSeparator
  else None.

Lemma readToken_punctuation r w c ty l :
  spaces w -> punctuation c = Some ty -> rd_current r = w ++ c :: l ->
  readToken collectComments_ r = inl (mk_token ty (c :: l) l, set_current l r).
Proof.
  intros Hw Hc Hr.
  assert (Hin : c ∈ [123; 125; 91; 93; 44; 58]).
  { unfold punctuation in Hc. rewrite !elem_of_cons.
    repeat (match type of Hc with context [?a =? ?b] => destruct (Z.eqb_spec a b) as [->|_] end; [by cbn; auto 10|]). done. }
  rewrite !elem_of_cons in Hin.
  destruct Hin as [->|[->|[->|[->|[->|[->|Hin]]]]]]; [| | | | | |by apply not_elem_of_nil in Hin];
    match type of Hr with _ = w ++ ?c :: _ => rewrite (readToken_eq r w c l Hw (eq_refl false) Hr) end; injection Hc as <-; reflexivity.
Qed.

Lemma readToken_string r w s t l :
  spaces w -> string_text s t -> rd_current r = w ++ QUOTE :: t ++ QUOTE :: l ->
  readToken collectComments_ r = inl (mk_token tokenString (QUOTE :: t ++ QUOTE :: l) l, set_current l r).
Proof.
  intros Hw Ht Hr. rewrite (readToken_eq r w QUOTE (t ++ QUOTE :: l)) by done.
  unfold token_kind. cbn. unfold readString, mbind, ctl_bind, gets. cbn. rewrite (string_end_text s) by done. reflexivity.
Qed.

(** The characters of a number. *)
Definition number_chars (t : list Z) : Prop :=
  exists c t', t = c :: t' /\ (is_digit c = true \/ c = chr "-") /\ Forall (fun c => number_char c = true) t'.

Lemma digits_number ds : Forall (fun c => is_digit c = true) ds -> Forall (fun c => number_char c = true) ds.
Proof. intros H. eapply Forall_impl; [exact H|]. intros c Hc. unfold number_char. by rewrite Hc. Qed.

Lemma digits_chars ds rest : digits ds -> Forall (fun c => number_char c = true) rest -> number_chars (ds ++ rest).
Proof.
  intros [Hne Hd] Hr. destruct ds as [|c ds]; [done|]. apply Forall_cons in Hd as [Hc Hd]. exists c, (ds ++ rest).
  split; [done|]. split; [by left|]. apply Forall_app. split; [by apply digits_number|done].
Qed.

Lemma minus_chars ds rest : digits ds -> Forall (fun c => number_char c = true) rest -> number_chars (chr "-" :: ds ++ rest).
Proof.
  intros [_ Hd] Hr. exists (chr "-"), (ds ++ rest). split; [done|]. split; [by right|]. apply Forall_app.
  split; [by apply digits_number|done].
Qed.

Lemma int_chars v t : int_text v t -> number_chars t.
Proof.
  intros [ds Hd _|ds Hd _|ds Hd _]; rewrite <-(app_nil_r ds);
    [apply digits_chars; [done|by constructor]..|apply minus_chars; [done|by constructor]].
Qed.

Lemma tail_chars f e : fraction f -> exponent e -> Forall (fun c => number_char c = true) (f ++ e).
Proof.
  intros Hf He. apply Forall_app. split.
  - destruct Hf as [->|(ds & [_ Hd] & ->)]; [constructor|]. constructor; [done|by apply digits_number].
  - destruct He as [->|(c & sign & ds & Hc & Hs & [_ Hd] & ->)]; [constructor|].
    constructor; [by destruct Hc as [->| ->]|]. apply Forall_app. split; [|by apply digits_number].
    destruct Hs as [->|[->| ->]]; by repeat constructor.
Qed.

Lemma real_chars v t : real_text v t -> number_chars t.
Proof.
  intros [m ds f e d Hm Hd Hf He _ _|ds d Hd _ _ _|ds d Hd _ _ _].
  - pose proof (tail_chars f e Hf He). destruct Hm as [->| ->]; cbn [app]; [by apply digits_chars|by apply minus_chars].
  - rewrite <-(app_nil_r ds). apply digits_chars; [done|by constructor].
  - rewrite <-(app_nil_r ds). apply minus_chars; [done|by constructor].
Qed.

Lemma skip_while_number t l :
  Forall (fun c => number_char c = true) t -> number_char (deref l) = false -> skip_while number_char (t ++ l) = l.
Proof.
  intros Hd Hl. induction Hd as [|c t Hc _ IH]; cbn; [|by rewrite Hc].
  destruct l as [|c l]; cbn in *; [done|by rewrite Hl].
Qed.

Lemma token_kind_number r c l :
  is_digit c = true \/ c = chr "-" ->
  token_kind collectComments_ (c :: l) c (set_current l r) =
    inl (tokenNumber, true, set_current (skip_while number_char l) r).
Proof.
  intros Hc. unfold token_kind.
  assert (Hr : 48 <= c <= 57 \/ c = 45) by (destruct Hc as [Hc|Hc]; [left; by apply is_digit_range|by right]).
  repeat match goal with
  | |- context [c =? ?x] => lazymatch x with
                            | 45 => fail
                            | _ => rewrite (proj2 (Z.eqb_neq c x)) by (cbn; unfold QUOTE; lia)
                            end
  end.
  assert (E : is_digit c || (c =? chr "-") = true) by (destruct Hc as [->| ->]; [done|by rewrite orb_true_r]).
  by rewrite E.
Qed.

Lemma number_head t : number_chars t ->
  exists c t', t = c :: t' /\ (is_digit c = true \/ c = chr "-") /\ is_space c = false /\ c <> chr "]" /\
    Forall (fun c => number_char c = true) t'.
Proof.
  intros (c & t' & -> & Hc & Ht). exists c, t'. split; [done|]. split; [done|].
  assert (Hr : 48 <= c <= 57 \/ c = 45) by (destruct Hc as [Hc|Hc]; [left; by apply is_digit_range|by right]).
  split; [unfold is_space; lia|]. split; [lia|done].
Qed.

Lemma readToken_number r w t l :
  spaces w -> number_chars t -> number_char (deref l) = false -> rd_current r = w ++ t ++ l ->
  readToken collectComments_ r = inl (mk_token tokenNumber (t ++ l) l, set_current l r).
Proof.
  intros Hw Ht Hl Hr. destruct (number_head t Ht) as (c & t' & -> & Hc & Hs & _ & Hd). cbn in Hr.
  rewrite (readToken_eq r w c (t' ++ l)), token_kind_number by done. rewrite skip_while_number by done. reflexivity.
Qed.

Lemma is_prefix_app p l : is_prefix p (p ++ l) = true.
Proof. induction p as [|c p IH]; cbn; [done|]. by rewrite Z.eqb_refl. Qed.

Lemma readToken_literal r w ty t l :
  spaces w -> (ty, t) ∈ [(tokenTrue, bytes "true"); (tokenFalse, bytes "false"); (tokenNull, bytes "null")] ->
  rd_current r = w ++ t ++ l ->
  readToken collectComments_ r = inl (mk_token ty (t ++ l) l, set_current l r).
Proof.
  intros Hw Hin Hr. rewrite !elem_of_cons in Hin.
  destruct Hin as [[= -> ->]|[[= -> ->]|[[= -> ->]|Hin]]]; [| | |by apply not_elem_of_nil in Hin]; cbn in Hr;
    match type of Hr with _ = w ++ ?c :: _ => rewrite (readToken_eq r w c _ Hw (eq_refl false) Hr) end; reflexivity.
Qed.
End Tokens.

(** ** The grammar *)
Section Grammar.
Context {D : Doubles}.

Fixpoint array_from (i : Z) (vs : list Value) : list (Z * Value) :=
  match vs with [] => [] | v :: vs => (i, v) :: array_from (i + 1) vs end.
Definition array_of (vs : list Value) : Value := Val no_comments (arrayValue (array_from 0 vs)).

(** A later member replaces an earlier one of the same name. *)
Definition add_members (ms : list (list Z * Value)) (m : list (list Z * Value)) : list (list Z * Value) :=
  foldl (fun m p => map_alter str_ltb p.1 (assign p.2) m) m ms.
Definition object_of (ms : list (list Z * Value)) : Value := Val no_comments (objectValue (add_members ms [])).

(** The texts of values; of elements and members up to the closing bracket.  A value keeps
    strings and names as C strings: they end at their first NUL ([of_string], [c_text]). *)
Inductive json_text : Value -> list Z -> Prop :=
  | jt_null : json_text Value_null (bytes "null")
  | jt_bool b : json_text (of_bool b) (bytes (if b then "true" else "false"))
  | jt_int v t : int_text v t -> json_text v t
  | jt_real v t : real_text v t -> json_text v t
  | jt_string s t : string_text s t -> json_text (of_string s) (QUOTE :: t ++ [QUOTE])
  | jt_empty_array w : spaces w -> json_text of_array (chr "[" :: w ++ [chr "]"])
  | jt_array vs t : json_elements vs t -> json_text (array_of vs) (chr "[" :: t)
  | jt_empty_object w : spaces w -> json_text of_object (chr "{" :: w ++ [chr "}"])
  | jt_object ms t : json_members ms t -> json_text (object_of ms) (chr "{" :: t)
with json_elements : list Value -> list Z -> Prop :=
  | je_last w v t w' : spaces w -> json_text v t -> spaces w' -> json_elements [v] (w ++ t ++ w' ++ [chr "]"])
  | je_cons w v t w' vs ts :
      spaces w -> json_text v t -> spaces w' -> json_elements vs ts ->
      json_elements (v :: vs) (w ++ t ++ w' ++ chr "," :: ts)
with json_members : list (list Z * Value) -> list Z -> Prop :=
  | jm_last w k kt w1 w2 v t w3 :
      spaces w -> string_text k kt -> spaces w1 -> spaces w2 -> json_text v t -> spaces w3 ->
      json_members [(c_text k, v)] (w ++ QUOTE :: kt ++ QUOTE :: w1 ++ chr ":" :: w2 ++ t ++ w3 ++ [chr "}"])
  | jm_cons w k kt w1 w2 v t w3 ms ts :
      spaces w -> string_text k kt -> spaces w1 -> spaces w2 -> json_text v t -> spaces w3 ->
      json_members ms ts ->
      json_members ((c_text k, v) :: ms) (w ++ QUOTE :: kt ++ QUOTE :: w1 ++ chr ":" :: w2 ++ t ++ w3 ++ chr "," :: ts).

Scheme json_text_mut := Minimality for json_text Sort Prop
  with json_elements_mut := Minimality for json_elements Sort Prop
  with json_members_mut := Minimality for json_members Sort Prop.
Combined Scheme json_mutual from json_text_mut, json_elements_mut, json_members_mut.
End Grammar.

(** ** Reading *)
Section Reading.
Context {D : Doubles} (allowComments_ collectComments_ : bool).
Implicit Types (r : Reader) (l w ds : list Z) (p : path).

Lemma text_between_app a l : text_between (a ++ l) l = a.
Proof. unfold text_between. rewrite length_app. replace (length a + length l - length l)%nat with (length a) by lia. apply take_app_length. Qed.

Lemma wp_eq {A} (m : Ctl json_stop Reader A) r a r' (Q : A -> Reader -> Prop) E :
  m r = inl (a, r') -> Q a r' -> wp m r Q E.
Proof. Local Transparent wp. unfold wp. by intros ->. Qed.
#[local] Opaque wp.

Abbreviation runs m r Q := (@wp json_stop Reader _ m r Q (fun _ _ => False)).

(** The state after a value has been read. *)
Record finished r r' l (root : Value) : Prop := {
  f_current : rd_current r' = l;
  f_before : rd_commentsBefore r' = [];
  f_nodes : rd_nodes r' = rd_nodes r;
  f_errors : rd_errors r' = rd_errors r;
  f_root : rd_root r' = root;
}.

Lemma skipComments_none token r :
  tk_type token <> tokenComment -> skipComments collectComments_ token r = inl (token, r).
Proof. intros H. unfold skipComments, mbind, ctl_bind, gets. cbn. by destruct (tk_type token). Qed.

Lemma skipCommentTokens_none token r r' :
  readToken collectComments_ r = inl (token, r') -> tk_type token <> tokenComment ->
  skipCommentTokens allowComments_ collectComments_ r = inl (token, r').
Proof.
  intros H Ht. unfold skipCommentTokens, mbind, ctl_bind. rewrite H. destruct allowComments_; [by apply skipComments_none|done].
Qed.

Lemma runs_assign_current v p ns r x (Q : unit -> Reader -> Prop) :
  rd_nodes r = p :: ns -> path_lookup p (rd_root r) = Some x ->
  Q tt (set_root (path_alter p (assign v) (rd_root r)) r) -> runs (assign_current v) r Q.
Proof.
  intros Hn Hp HQ. unfold assign_current, change_current, current_path, change_at.
  repeat wp_step. rewrite Hn. repeat wp_step. rewrite Hp. cbn. repeat wp_step.
  by rewrite (path_alter_known _ _ (fun _ => assign v x) (assign v) x).
Qed.

Lemma runs_decodeString s t l r (Q : option (list Z) -> Reader -> Prop) E :
  string_text s t -> Q (Some s) r ->
  wp (decodeString (mk_token tokenString (QUOTE :: t ++ QUOTE :: l) l)) r Q E.
Proof.
  intros Ht HQ. unfold decodeString, string_body. cbn [tk_start tk_end].
  assert (Eb : text_between (QUOTE :: t ++ QUOTE :: l) l = QUOTE :: t ++ [QUOTE]).
  { replace (QUOTE :: t ++ QUOTE :: l) with ((QUOTE :: t ++ [QUOTE]) ++ l) by (cbn; by rewrite <-app_assoc). apply text_between_app. }
  rewrite Eb. assert (Es : slice (QUOTE :: t ++ [QUOTE]) 1 (zlen (QUOTE :: t ++ [QUOTE]) - 2) = t).
  { unfold slice. rewrite zlen_cons, zlen_app. change (zlen [QUOTE]) with 1. cbn.
    replace (Z.to_nat (1 + (zlen t + 1) - 2)) with (length t) by (unfold zlen; lia). apply take_app_length. }
  rewrite Es, (decode_chars_text s) by done. by wp_step.
Qed.

Lemma double_chars_digits b ds : Forall (fun c => is_digit c = true) ds -> double_chars b ds = false.
Proof.
  intros H. revert b. induction H as [|c ds Hc _ IH]; intros b; cbn [double_chars]; [done|]. rewrite IH, orb_false_r.
  apply is_digit_range in Hc. cbn. lia.
Qed.

Lemma runs_decodeNumber v t l p ns r x (Q : bool -> Reader -> Prop) :
  int_text v t -> rd_nodes r = p :: ns -> path_lookup p (rd_root r) = Some x ->
  Q true (set_root (path_alter p (assign v) (rd_root r)) r) ->
  runs (decodeNumber (mk_token tokenNumber (t ++ l) l)) r Q.
Proof.
  intros Hv Hn Hp HQ. unfold decodeNumber. cbn [tk_start tk_end]. rewrite text_between_app.
  assert (Hd : double_chars true t = false).
  { destruct Hv as [ds [_ H] _|ds [_ H] _|ds [_ H] _]; [by apply double_chars_digits..|]. cbn. by apply double_chars_digits. }
  rewrite Hd. destruct Hv as [ds Hds Hm|ds Hds Hm|ds Hds Hm].
  - assert (E : (deref ds =? chr "-") = false).
    { destruct Hds as [? H]. destruct ds as [|c ds]; [done|]. apply Forall_cons in H as [H _]. apply is_digit_range in H. cbn. lia. }
    rewrite E, decode_digits_exact by done. unfold digits_result, maxInt, maxUInt64 in *. rewrite (proj2 (Z.leb_le _ _)) by lia.
    rewrite (proj2 (Z.leb_le _ _)) by lia. wp_step. eapply runs_assign_current; [done|done|]. by wp_step.
  - assert (E : (deref ds =? chr "-") = false).
    { destruct Hds as [? H]. destruct ds as [|c ds]; [done|]. apply Forall_cons in H as [H _]. apply is_digit_range in H. cbn. lia. }
    rewrite E, decode_digits_exact by done. unfold digits_result, maxInt, maxUInt64 in *. rewrite (proj2 (Z.leb_le _ _)) by lia.
    rewrite (proj2 (Z.leb_gt _ _)) by lia. wp_step. eapply runs_assign_current; [done|done|]. by wp_step.
  - cbn [deref tail]. change (chr "-" =? chr "-") with true. cbn [negb].
    change (uwrap 64 (- minInt64)) with (2 ^ 63). rewrite decode_digits_exact by done.
    unfold digits_result. rewrite (proj2 (Z.leb_le _ _)) by lia.
    pose proof (digits_value_acc ds 0 ltac:(lia) (proj2 Hds)) as H0. fold (dec_value ds) in H0.
    assert (E : s64 (- s64 (dec_value ds)) = - dec_value ds).
    { unfold s64, uwrap. destruct (decide (dec_value ds = 2 ^ 63)) as [->|]; [done|].
      rewrite (Z.mod_small (dec_value ds + 2 ^ 63)) by lia. rewrite Z.mod_small by lia. lia. }
    rewrite E. wp_step. eapply runs_assign_current; [done|done|]. by wp_step.
Qed.

Lemma double_chars_in b c l : c ∈ l -> c ∈ [chr "."; chr "e"; chr "E"] -> double_chars b l = true.
Proof.
  intros H Hc. revert b. induction H as [l|c d l _ IH]; intros b; cbn [double_chars].
  - rewrite !elem_of_cons in Hc. destruct Hc as [->|[->|[->|Hc]]]; [done..|by apply not_elem_of_nil in Hc].
  - rewrite IH by done. by rewrite !orb_true_r.
Qed.

Lemma double_chars_real m ds f e : fraction f -> exponent e -> f ++ e <> [] -> double_chars true (m ++ ds ++ f ++ e) = true.
Proof.
  intros Hf He Hne. assert (H : exists c, c ∈ f ++ e /\ c ∈ [chr "."; chr "e"; chr "E"]).
  { destruct Hf as [->|(d1 & _ & ->)]; [|exists (chr "."); split; by left].
    destruct He as [->|(c & sign & d2 & Hc & _ & _ & ->)]; [done|]. exists c. split; [by left|].
    destruct Hc as [->| ->]; rewrite !elem_of_cons; auto. }
  destruct H as (c & H1 & H2). apply (double_chars_in _ c); [|done]. rewrite !elem_of_app in *. tauto.
Qed.

Lemma runs_decodeDouble d t l p ns r x (Q : bool -> Reader -> Prop) :
  scan_double t = Some d -> rd_nodes r = p :: ns -> path_lookup p (rd_root r) = Some x ->
  Q true (set_root (path_alter p (assign (of_double d)) (rd_root r)) r) ->
  runs (decodeDouble (mk_token tokenNumber (t ++ l) l)) r Q.
Proof.
  intros Hd Hn Hp HQ. unfold decodeDouble. cbn [tk_start tk_end]. rewrite text_between_app, Hd. wp_step.
  eapply runs_assign_current; [done|done|]. by wp_step.
Qed.

Lemma digits_beyond max v : max < v -> ~ misread max v -> digits_result max v = Digits_double.
Proof.
  intros Hv Hm. unfold digits_result, misread in *. rewrite (proj2 (Z.leb_gt _ _)) by done.
  destruct (Z.leb_spec (max / 10) (v / 100)); [done|]. destruct (Z.ltb_spec (max mod 10) (v mod 10)); [done|].
  by destruct Hm.
Qed.

Lemma runs_decodeReal v t l p ns r x (Q : bool -> Reader -> Prop) :
  real_text v t -> rd_nodes r = p :: ns -> path_lookup p (rd_root r) = Some x ->
  Q true (set_root (path_alter p (assign v) (rd_root r)) r) ->
  runs (decodeNumber (mk_token tokenNumber (t ++ l) l)) r Q.
Proof.
  intros Hv Hn Hp HQ. unfold decodeNumber. cbn [tk_start tk_end]. rewrite text_between_app.
  destruct Hv as [m ds f e d Hm Hd Hf He Hne Hs|ds d Hd Hv Hm Hs|ds d Hd Hv Hm Hs].
  - rewrite double_chars_real by done. by eapply runs_decodeDouble.
  - rewrite double_chars_digits by apply Hd.
    assert (E : (deref ds =? chr "-") = false).
    { destruct Hd as [? H]. destruct ds as [|c ds]; [done|]. apply Forall_cons in H as [H _]. apply is_digit_range in H. cbn. lia. }
    rewrite E, decode_digits_exact, digits_beyond by done. by eapply runs_decodeDouble.
  - cbn [double_chars]. change (existsb _ _ || _ || ?b) with b. rewrite double_chars_digits by apply Hd.
    cbn [deref tail]. change (chr "-" =? chr "-") with true. cbn [negb].
    change (uwrap 64 (- minInt64)) with (2 ^ 63). rewrite decode_digits_exact, digits_beyond by done.
    by apply (runs_decodeDouble d (chr "-" :: ds) l p ns r x).
Qed.

(** Facts on texts and values. *)
Lemma json_text_plain v t : json_text v t -> comments_ v = no_comments.
Proof. intros H. by destruct H as [|[]|? ? []|? ? []| | | | |]. Qed.

Lemma assign_plain v t x : json_text v t -> comments_ x = no_comments -> assign v x = v.
Proof. intros H Hx. unfold assign. rewrite Hx, <-(json_text_plain _ _ H). by destruct v. Qed.

Lemma json_text_head v t : json_text v t -> exists c t', t = c :: t' /\ is_space c = false /\ c <> chr "]".
Proof.
  assert (Hn : forall t, number_chars t -> exists c t', t = c :: t' /\ is_space c = false /\ c <> chr "]").
  { intros t0 H. destruct (number_head t0 H) as (c & t' & E & _ & H1 & H2 & _). by exists c, t'. }
  intros H. destruct H as [|[]|v t Hi|v t Hi|s t _|w _|vs t _|w _|ms t _];
    try (eexists _, _; split; [reflexivity|split; [reflexivity|by vm_compute]]).
  - by eapply Hn, int_chars.
  - by eapply Hn, real_chars.
Qed.

Lemma skip_while_split l : exists w, spaces w /\ l = w ++ skip_while is_space l.
Proof.
  induction l as [|c l [w [Hw E]]]; [exists []; by repeat constructor|]. cbn.
  destruct (is_space c) eqn:Ec; [|exists []; by repeat constructor].
  rewrite white_space in Ec. exists (c :: w). split; [by constructor|]. cbn. by rewrite <-E.
Qed.

Lemma c_text_plain k : 0 ∉ k -> c_text k = k.
Proof.
  induction k as [|c k IH]; cbn; [done|]. rewrite not_elem_of_cons. intros [H1 H2].
  rewrite (proj2 (Z.eqb_neq _ _)) by done. by rewrite IH.
Qed.

Lemma map_alter_above i f (m : list (Z * Value)) :
  Forall (fun kv => kv.1 < i) m -> map_alter Z.ltb i f m = m ++ [(i, f Value_null)].
Proof.
  induction 1 as [|[k v] m Hk _ IH]; cbn in *; [done|]. rewrite (proj2 (Z.ltb_lt _ _)) by done. by rewrite IH.
Qed.

(** What reading a text means. *)
Definition reads_text (v : Value) (t : list Z) : Prop :=
  forall w l r p ns x n,
  spaces w -> rd_current r = w ++ t ++ l -> number_char (deref l) = false -> rd_commentsBefore r = [] ->
  rd_nodes r = p :: ns -> path_lookup p (rd_root r) = Some x -> (length (rd_current r) < n)%nat ->
  runs (readValue allowComments_ collectComments_ n) r
    (fun ok r' => ok = true /\ finished r r' l (path_alter p (assign v) (rd_root r))).

Definition reads_elements (vs : list Value) (t : list Z) : Prop :=
  forall l r p ns c m i n k,
  skip_while is_space (rd_current r) = skip_while is_space (t ++ l) -> rd_commentsBefore r = [] ->
  rd_nodes r = p :: ns -> path_lookup p (rd_root r) = Some (Val c (arrayValue m)) -> Forall (fun kv => kv.1 < i) m ->
  (length (rd_current r) < n)%nat -> (length (rd_current r) < k)%nat ->
  runs (array_loop collectComments_ (readValue allowComments_ collectComments_ n) k i) r
    (fun ok r' => ok = true /\
      finished r r' l (path_alter p (fun _ => Val c (arrayValue (m ++ array_from i vs))) (rd_root r))).

Definition reads_members (ms : list (list Z * Value)) (t : list Z) : Prop :=
  forall l r p ns c m n k name,
  rd_current r = t ++ l -> rd_commentsBefore r = [] ->
  rd_nodes r = p :: ns -> path_lookup p (rd_root r) = Some (Val c (objectValue m)) ->
  (length (rd_current r) < n)%nat -> (length (rd_current r) < k)%nat ->
  runs (object_loop collectComments_ (readValue allowComments_ collectComments_ n) k name) r
    (fun ok r' => ok = true /\
      finished r r' l (path_alter p (fun _ => Val c (objectValue (add_members ms m))) (rd_root r))).

(** One child, and what the loop does next. *)
Lemma runs_child v t s w l r p ns X n (K : bool -> Ctl json_stop Reader bool) Q :
  reads_text v t -> step_ok (norm s) X -> spaces w -> rd_current r = w ++ t ++ l -> number_char (deref l) = false -> rd_commentsBefore r = [] ->
  rd_nodes r = p :: ns -> path_lookup p (rd_root r) = Some X -> (length (rd_current r) < n)%nat ->
  (forall r', finished r r' l (path_alter p (fun _ => step_alter (norm s) (assign v) X) (rd_root r)) -> runs (K true) r' Q) ->
  runs (push_child s ;; ok ← readValue allowComments_ collectComments_ n; pop_node ;; K ok) r Q.
Proof.
  intros Hv Hs Hw Hr Hl Hb Hn Hp Hlen HK.
  assert (Ea : match s with Idx i => alter_index i id X | Key k => alter_member k id X end = inl (step_alter (norm s) id X)).
  { by destruct s as [i|k], X as [c []]. }
  set (root1 := path_alter p (fun _ => step_alter (norm s) id X) (rd_root r)).
  wp_step. unfold push_child, change_current, current_path, change_at. repeat wp_step. rewrite Hn. repeat wp_step.
  rewrite Hp, Ea. cbn. repeat wp_step. cbn [rd_nodes set_root]. rewrite Hn. repeat wp_step. fold (norm s) root1.
  set (r1 := set_nodes _ _).
  assert (Hp1 : path_lookup (p ++ [norm s]) root1 = Some (default Value_null (step_lookup (norm s) X))).
  { rewrite path_lookup_app. unfold root1. rewrite (path_lookup_alter _ _ _ X) by done. cbn.
    by rewrite step_lookup_alter. }
  eapply wp_mono; [|exact (fun _ _ H => H)|exact (Hv w l r1 (p ++ [norm s]) (p :: ns) _ n Hw Hr Hl Hb (f_equal _ Hn) Hp1 Hlen)].
  intros ok r2 [-> [F1 F2 F3 F4 F5]]. unfold pop_node. repeat wp_step. apply HK.
  split; cbn; [done|done|by rewrite F3|done|]. rewrite F5. cbn. rewrite path_alter_app. unfold root1.
  rewrite path_alter_alter. apply path_alter_ext. intros _. cbn. by rewrite step_alter_alter.
Qed.

(** From the first token of a value to its end. *)
Lemma runs_value token r r' l root n :
  readToken collectComments_ r = inl (token, r') -> tk_type token <> tokenComment ->
  rd_commentsBefore r' = [] -> rd_nodes r <> [] ->
  runs (read_token_value collectComments_ (readValue allowComments_ collectComments_ n) token) r'
    (fun res r'' => res = Some true /\ finished r r'' l root) ->
  runs (readValue allowComments_ collectComments_ (S n)) r (fun ok r'' => ok = true /\ finished r r'' l root).
Proof.
  intros Ht Hc Hb Hn H. cbn [readValue]. unfold read_value_body. wp_step.
  eapply wp_eq; [by apply skipCommentTokens_none|]. do 2 wp_step. rewrite Hb. rewrite bool_decide_false by (intros E; by apply E).
  rewrite andb_false_r. wp_step. wp_step; [done|]. wp_step. eapply wp_mono; [|exact (fun _ _ H => H)|exact H].
  intros res r2 [-> F]. destruct F as [F1 F2 F3 F4 F5]. wp_step. wp_step.
  - unfold current_path. repeat wp_step. rewrite F3. destruct (rd_nodes r) as [|p ns] eqn:En; [done|]. repeat wp_step.
    split; [done|]. by split; cbn; rewrite ?F3, ?En.
  - by wp_step.
Qed.

Lemma runs_plain_value token r l p ns x v n :
  readToken collectComments_ r = inl (token, set_current l r) -> tk_type token <> tokenComment ->
  rd_commentsBefore r = [] -> rd_nodes r = p :: ns -> path_lookup p (rd_root r) = Some x ->
  (forall Q : option bool -> Reader -> Prop,
     Q (Some true) (set_root (path_alter p (assign v) (rd_root r)) (set_current l r)) ->
     runs (read_token_value collectComments_ (readValue allowComments_ collectComments_ n) token) (set_current l r) Q) ->
  runs (readValue allowComments_ collectComments_ (S n)) r
    (fun ok r' => ok = true /\ finished r r' l (path_alter p (assign v) (rd_root r))).
Proof.
  intros Ht Hc Hb Hn Hp H. eapply runs_value; [done|done|done|by rewrite Hn|]. apply H. split; [done|]. by split.
Qed.

(** *** The single values *)
Lemma reads_literal ty t v :
  (ty, t) ∈ [(tokenTrue, bytes "true"); (tokenFalse, bytes "false"); (tokenNull, bytes "null")] ->
  v = match ty with tokenTrue => of_bool true | tokenFalse => of_bool false | _ => Value_null end ->
  reads_text v t.
Proof.
  intros Hin Hv w l r p ns x n Hw Hr Hl Hb Hn Hp Hlen. destruct n as [|n]; [lia|].
  assert (Hty : ty = tokenTrue \/ ty = tokenFalse \/ ty = tokenNull).
  { rewrite !elem_of_cons in Hin. destruct Hin as [[= -> _]|[[= -> _]|[[= -> _]|Hin]]]; auto. by apply not_elem_of_nil in Hin. }
  eapply runs_plain_value; [by apply (readToken_literal _ _ w ty)| |done|done|done|].
  - by destruct Hty as [->|[->| ->]].
  - intros Q HQ. destruct Hty as [->|[->| ->]]; subst v; unfold read_token_value; cbn [tk_type]; wp_step;
      (eapply runs_assign_current; [done|done|]); by wp_step.
Qed.

Lemma reads_int v t : int_text v t -> reads_text v t.
Proof.
  intros Hi w l r p ns x n Hw Hr Hl Hb Hn Hp Hlen. destruct n as [|n]; [lia|].
  eapply runs_plain_value; [by apply (readToken_number _ _ w t); [|by eapply int_chars|..]|done|done|done|done|].
  intros Q HQ. unfold read_token_value. cbn [tk_type]. wp_step.
  eapply runs_decodeNumber; [done|done|done|]. by wp_step.
Qed.

Lemma reads_real v t : real_text v t -> reads_text v t.
Proof.
  intros Hi w l r p ns x n Hw Hr Hl Hb Hn Hp Hlen. destruct n as [|n]; [lia|].
  eapply runs_plain_value; [by apply (readToken_number _ _ w t); [|by eapply real_chars|..]|done|done|done|done|].
  intros Q HQ. unfold read_token_value. cbn [tk_type]. wp_step.
  eapply runs_decodeReal; [done|done|done|]. by wp_step.
Qed.

Lemma reads_string s t : string_text s t -> reads_text (of_string s) (QUOTE :: t ++ [QUOTE]).
Proof.
  intros Ht w l r p ns x n Hw Hr Hl Hb Hn Hp Hlen. destruct n as [|n]; [lia|].
  cbn in Hr. rewrite <-app_assoc in Hr.
  eapply runs_plain_value; [by eapply (readToken_string _ _ w s t)|done|done|done|done|].
  intros Q HQ. unfold read_token_value, decodeStringValue. cbn [tk_type]. do 2 wp_step.
  apply (runs_decodeString s); [done|]. wp_step. eapply runs_assign_current; [done|done|]. by do 2 wp_step.
Qed.

(** *** Arrays *)
Lemma skip_while_idemp f l : skip_while f (skip_while f l) = skip_while f l.
Proof. induction l as [|c l IH]; cbn; [done|]. destruct (f c) eqn:E; [done|]. cbn. by rewrite E. Qed.

Lemma skip_text w v t l : spaces w -> json_text v t -> skip_while is_space (w ++ t ++ l) = t ++ l.
Proof. intros Hw Ht. destruct (json_text_head _ _ Ht) as (c & t' & -> & Hc & _). by apply skip_while_spaces. Qed.

Lemma elements_head vs t l : json_elements vs t -> deref (skip_while is_space (t ++ l)) <> chr "]".
Proof.
  intros H. assert (Hd : exists w v t1 t2, t ++ l = w ++ t1 ++ t2 /\ spaces w /\ json_text v t1).
  { destruct H as [w v t w' Hw Ht _|w v t w' vs ts Hw Ht _ _]; exists w, v, t; eexists; rewrite <-!app_assoc; done. }
  destruct Hd as (w & v & t1 & t2 & -> & Hw & Ht). rewrite (skip_text w v) by done.
  by destruct (json_text_head _ _ Ht) as (c & t' & -> & _ & Hc).
Qed.

Lemma reads_empty_array w0 : spaces w0 -> reads_text of_array (chr "[" :: w0 ++ [chr "]"]).
Proof.
  intros Hw0 w l r p ns x n Hw Hr Hl Hb Hn Hp Hlen. destruct n as [|n]; [lia|].
  cbn in Hr. rewrite <-app_assoc in Hr. cbn in Hr.
  eapply runs_value; [by apply (readToken_punctuation _ _ w (chr "[") tokenArrayBegin)|done|done|by rewrite Hn|].
  unfold read_token_value. cbn [tk_type]. wp_step. unfold readArray, skipSpaces. wp_step.
  eapply runs_assign_current; [done|done|]. do 4 wp_step. cbn [rd_current set_current set_root].
  rewrite (skip_while_spaces w0 (chr "]" :: l)) by done. cbn [deref]. rewrite Z.eqb_refl. wp_step.
  eapply wp_eq; [by apply (readToken_punctuation _ _ [] (chr "]") tokenArrayEnd l); [constructor|..]|].
  do 2 wp_step. split; [done|]. by split.
Qed.

Lemma reads_array vs t : json_elements vs t -> reads_elements vs t -> reads_text (array_of vs) (chr "[" :: t).
Proof.
  intros He IH w l r p ns x n Hw Hr Hl Hb Hn Hp Hlen. destruct n as [|n]; [lia|].
  rewrite Hr, length_app in Hlen. cbn in Hr, Hlen.
  eapply runs_value; [by apply (readToken_punctuation _ _ w (chr "[") tokenArrayBegin)|done|done|by rewrite Hn|].
  unfold read_token_value. cbn [tk_type]. wp_step. unfold readArray, skipSpaces. wp_step.
  eapply runs_assign_current; [done|done|]. do 4 wp_step. cbn [rd_current set_current set_root].
  pose proof (elements_head vs t l He) as Hne. rewrite (proj2 (Z.eqb_neq _ _) Hne).
  pose proof (skip_while_length is_space (t ++ l)) as Hs.
  eapply wp_mono; [|exact (fun _ _ H => H)|apply (IH l _ p ns (comments_ x) [] 0 n)]; cbn [rd_current rd_nodes rd_root rd_commentsBefore set_current set_root];
    [|by rewrite skip_while_idemp|done|done|by rewrite (path_lookup_alter _ _ _ x)|done|lia|lia].
  intros ok r' [-> [F1 F2 F3 F4 F5]]. wp_step. split; [done|]. split; [done|done|done|done|]. rewrite F5.
  cbn [app rd_root set_root set_current]. rewrite path_alter_alter. by apply (path_alter_known _ _ _ _ x).
Qed.

Lemma punctuation_end c ty l : punctuation c = Some ty -> number_char (deref (c :: l)) = false.
Proof.
  unfold punctuation. intros H. cbn [deref].
  repeat (match type of H with context [c =? ?b] => destruct (Z.eqb_spec c b) as [->|_] end; [reflexivity|]). done.
Qed.

Lemma spaces_end w l : spaces w -> number_char (deref l) = false -> number_char (deref (w ++ l)) = false.
Proof.
  intros [|c w' Hc _] Hl; [done|]. cbn. rewrite <-white_space in Hc. unfold is_space in Hc. unfold number_char, is_digit. cbn.
  repeat rewrite orb_true_iff in Hc. rewrite !Z.eqb_eq in Hc. destruct_or! Hc; by subst.
Qed.

(** One element, up to the token behind it. *)
Lemma runs_element v t w w' c ty l r p ns cs m i n Q (K : Token -> Ctl json_stop Reader bool) :
  json_text v t -> reads_text v t -> spaces w -> spaces w' -> punctuation c = Some ty -> ty <> tokenComment ->
  skip_while is_space (rd_current r) = skip_while is_space (w ++ t ++ w' ++ c :: l) ->
  rd_commentsBefore r = [] -> rd_nodes r = p :: ns ->
  path_lookup p (rd_root r) = Some (Val cs (arrayValue m)) -> Forall (fun kv => kv.1 < i) m ->
  (length (rd_current r) < n)%nat ->
  (forall r', finished r r' l (path_alter p (fun _ => Val cs (arrayValue (m ++ [(i, v)]))) (rd_root r)) ->
     (length l < length (rd_current r))%nat ->
     runs (K (mk_token ty (c :: l) l)) r' Q) ->
  runs (push_child (Idx i) ;; ok ← readValue allowComments_ collectComments_ n; pop_node ;;
        if negb ok then recoverFromError collectComments_ tokenArrayEnd
        else token ← readToken collectComments_; token ← skipComments collectComments_ token; K token) r Q.
Proof.
  intros Ht Hv Hw Hw' Hc Hty Hs Hb Hn Hp Hm Hlen HK.
  destruct (skip_while_split (rd_current r)) as (w0 & Hw0 & E0). rewrite Hs, (skip_text w v) in E0 by done.
  apply (runs_child v t (Idx i) w0 (w' ++ c :: l) r p ns (Val cs (arrayValue m)) n (fun ok => if negb ok then _ else _));
    try done.
  { apply spaces_end; [done|]. by eapply punctuation_end. }
  intros r' [F1 F2 F3 F4 F5]. cbn [negb]. wp_step. eapply wp_eq; [by eapply (readToken_punctuation _ _ w')|].
  wp_step. eapply wp_eq; [by apply skipComments_none|]. apply HK.
  2: { rewrite E0, !length_app. cbn. lia. }
  split; [done|done|done|done|]. cbn [rd_root set_current]. rewrite F5. apply path_alter_ext. intros _. cbn.
  rewrite map_alter_above by done. by rewrite (assign_plain v t).
Qed.

Lemma elements_last w v t w' :
  spaces w -> json_text v t -> reads_text v t -> spaces w' -> reads_elements [v] (w ++ t ++ w' ++ [chr "]"]).
Proof.
  intros Hw Ht Hv Hw' l r p ns c m i n k Hs Hb Hn Hp Hm Hlen Hk. destruct k as [|k]; [lia|]. cbn [array_loop].
  rewrite <-!app_assoc in Hs.
  eapply (runs_element v t w w' (chr "]") tokenArrayEnd); [done..|].
  intros r' F _. decide_tests. by wp_step.
Qed.

Lemma elements_cons w v t w' vs ts :
  spaces w -> json_text v t -> reads_text v t -> spaces w' -> reads_elements vs ts ->
  reads_elements (v :: vs) (w ++ t ++ w' ++ chr "," :: ts).
Proof.
  intros Hw Ht Hv Hw' IH l r p ns c m i n k Hs Hb Hn Hp Hm Hlen Hk. destruct k as [|k]; [lia|]. cbn [array_loop].
  rewrite <-!app_assoc in Hs. cbn [app] in Hs.
  eapply (runs_element v t w w' (chr ",") tokenArraySeparator); [done..|].
  intros r' [F1 F2 F3 F4 F5] Hl. decide_tests. rewrite length_app in Hl.
  eapply wp_mono; [|exact (fun _ _ H => H)|apply (IH l _ p ns c (m ++ [(i, v)]) (i + 1) n)];
    [|by rewrite F1|done|by rewrite F3|by rewrite F5, (path_lookup_alter _ _ _ _ Hp)| |rewrite F1, length_app; lia..].
  - intros ok r2 [-> [G1 G2 G3 G4 G5]]. split; [done|]. split; [done|done|by rewrite G3|by rewrite G4|].
    rewrite G5, F5, path_alter_alter. apply path_alter_ext. intros _. by rewrite <-app_assoc.
  - apply Forall_app. split; [|by repeat constructor; cbn; lia]. eapply Forall_impl; [done|]. cbn. lia.
Qed.

(** *** Objects *)
Lemma reads_empty_object w0 : spaces w0 -> reads_text of_object (chr "{" :: w0 ++ [chr "}"]).
Proof.
  intros Hw0 w l r p ns x n Hw Hr Hl Hb Hn Hp Hlen. destruct n as [|n]; [lia|].
  cbn in Hr. rewrite <-app_assoc in Hr. cbn in Hr.
  eapply runs_value; [by apply (readToken_punctuation _ _ w (chr "{") tokenObjectBegin)|done|done|by rewrite Hn|].
  unfold read_token_value. cbn [tk_type]. wp_step. unfold readObject. wp_step.
  eapply runs_assign_current; [done|done|]. do 2 wp_step. cbn [object_loop]. wp_step.
  eapply wp_eq; [by apply (readToken_punctuation _ _ w0 (chr "}") tokenObjectEnd l)|].
  wp_step. eapply wp_eq; [by apply skipComments_none|].
  decide_tests. rewrite (bool_decide_true ([] = [])) by done. cbn [andb]. do 2 wp_step. split; [done|]. by split.
Qed.

Lemma reads_object ms t : reads_members ms t -> reads_text (object_of ms) (chr "{" :: t).
Proof.
  intros IH w l r p ns x n Hw Hr Hl Hb Hn Hp Hlen. destruct n as [|n]; [lia|].
  rewrite Hr, length_app in Hlen. cbn in Hr, Hlen.
  eapply runs_value; [by apply (readToken_punctuation _ _ w (chr "{") tokenObjectBegin)|done|done|by rewrite Hn|].
  unfold read_token_value. cbn [tk_type]. wp_step. unfold readObject. wp_step.
  eapply runs_assign_current; [done|done|]. do 2 wp_step.
  eapply wp_mono; [|exact (fun _ _ H => H)|apply (IH l _ p ns (comments_ x) [] n)];
    cbn [rd_current rd_nodes rd_root rd_commentsBefore set_current set_root];
    [|done|done|done|by rewrite (path_lookup_alter _ _ _ x)|lia|lia].
  intros ok r' [-> [F1 F2 F3 F4 F5]]. wp_step. split; [done|]. split; [done|done|done|done|]. rewrite F5.
  cbn [app rd_root set_root set_current]. rewrite path_alter_alter. by apply (path_alter_known _ _ _ _ x).
Qed.

(** One member, up to the token behind it. *)
Lemma runs_member k kt w w1 w2 v t w3 c ty l r p ns cs m n (name : list Z) Q (K : list Z -> Token -> Ctl json_stop Reader bool) :
  string_text k kt -> spaces w -> spaces w1 -> spaces w2 -> reads_text v t -> spaces w3 ->
  punctuation c = Some ty ->
  rd_current r = w ++ QUOTE :: kt ++ QUOTE :: w1 ++ chr ":" :: w2 ++ t ++ w3 ++ c :: l ->
  rd_commentsBefore r = [] -> rd_nodes r = p :: ns ->
  path_lookup p (rd_root r) = Some (Val cs (objectValue m)) -> (length (rd_current r) < n)%nat ->
  (forall r', finished r r' l
     (path_alter p (fun _ => Val cs (objectValue (map_alter str_ltb (c_text k) (assign v) m))) (rd_root r)) ->
     runs (K k (mk_token ty (c :: l) l)) r' Q) ->
  runs (
    tokenName ← readToken collectComments_; tokenName ← skipComments collectComments_ tokenName;
    if bool_decide (tk_type tokenName = tokenObjectEnd) && bool_decide (name = []) then mret true
    else if negb (bool_decide (tk_type tokenName = tokenString)) then
      addErrorAndRecover collectComments_ "Missing '}' or object member name" tokenName tokenObjectEnd
    else
      s ← decodeString tokenName;
      match s with
      | None => recoverFromError collectComments_ tokenObjectEnd
      | Some name =>
          colon ← readToken collectComments_;
          if negb (bool_decide (tk_type colon = tokenMemberSeparator)) then
            addErrorAndRecover collectComments_ "Missing ':' after object member name" colon tokenObjectEnd
          else
            push_child (Key name) ;; ok ← readValue allowComments_ collectComments_ n; pop_node ;;
            if negb ok then recoverFromError collectComments_ tokenObjectEnd
            else comma ← readToken collectComments_; K name comma
      end) r Q.
Proof.
  intros Hkt Hw Hw1 Hw2 Hv Hw3 Hc Hr Hb Hn Hp Hlen HK.
  wp_step. eapply wp_eq; [by eapply (readToken_string _ _ w k)|]. wp_step. eapply wp_eq; [by apply skipComments_none|].
  decide_tests. wp_step. apply (runs_decodeString k); [done|]. wp_step.
  eapply wp_eq; [by apply (readToken_punctuation _ _ w1 (chr ":") tokenMemberSeparator)|]. decide_tests.
  apply (runs_child v t (Key k) w2 (w3 ++ c :: l) _ p ns (Val cs (objectValue m)) n (fun ok => if negb ok then _ else _));
    try done.
  { apply spaces_end; [done|]. by eapply punctuation_end. }
  { cbn. rewrite Hr in Hlen. lengths. }
  intros r' [F1 F2 F3 F4 F5]. cbn [negb]. wp_step. eapply wp_eq; [by eapply (readToken_punctuation _ _ w3)|].
  apply HK. by split.
Qed.

Lemma members_last w k kt w1 w2 v t w3 :
  spaces w -> string_text k kt -> spaces w1 -> spaces w2 -> reads_text v t -> spaces w3 ->
  reads_members [(c_text k, v)] (w ++ QUOTE :: kt ++ QUOTE :: w1 ++ chr ":" :: w2 ++ t ++ w3 ++ [chr "}"]).
Proof.
  intros Hw Hkt Hw1 Hw2 Hv Hw3 l r p ns c m n fuel name Hr Hb Hn Hp Hlen Hf. destruct fuel as [|fuel]; [lia|].
  cbn [object_loop]. repeat (rewrite <-app_assoc in Hr; cbn [app] in Hr).
  eapply (runs_member k kt w w1 w2 v t w3 (chr "}") tokenObjectEnd); [done..|].
  intros r' F. decide_tests. wp_step. eapply wp_eq; [by apply skipComments_none|]. decide_tests. by wp_step.
Qed.

Lemma members_cons w k kt w1 w2 v t w3 ms ts :
  spaces w -> string_text k kt -> spaces w1 -> spaces w2 -> reads_text v t -> spaces w3 -> reads_members ms ts ->
  reads_members ((c_text k, v) :: ms) (w ++ QUOTE :: kt ++ QUOTE :: w1 ++ chr ":" :: w2 ++ t ++ w3 ++ chr "," :: ts).
Proof.
  intros Hw Hkt Hw1 Hw2 Hv Hw3 IH l r p ns c m n fuel name Hr Hb Hn Hp Hlen Hf. destruct fuel as [|fuel]; [lia|].
  cbn [object_loop]. repeat (rewrite <-app_assoc in Hr; cbn [app] in Hr).
  assert (Hl : (length ts + length l < length (rd_current r))%nat).
  { rewrite Hr. lengths. }
  eapply (runs_member k kt w w1 w2 v t w3 (chr ",") tokenArraySeparator); [done..|].
  intros r' [F1 F2 F3 F4 F5]. decide_tests. wp_step. eapply wp_eq; [by apply skipComments_none|]. decide_tests.
  eapply wp_mono; [|exact (fun _ _ H => H)|apply (IH l _ p ns c (map_alter str_ltb (c_text k) (assign v) m) n)];
    [|done|done|by rewrite F3|by rewrite F5, (path_lookup_alter _ _ _ _ Hp)|rewrite F1, length_app; lia..].
  intros ok r2 [-> [G1 G2 G3 G4 G5]]. split; [done|]. split; [done|done|by rewrite G3|by rewrite G4|].
  by rewrite G5, F5, path_alter_alter.
Qed.

(** Every text of the grammar is read to its end, and as the value it stands for. *)
Lemma json_reads :
  (forall v t, json_text v t -> reads_text v t) /\ (forall vs t, json_elements vs t -> reads_elements vs t) /\
  (forall ms t, json_members ms t -> reads_members ms t).
Proof.
  apply json_mutual.
  - apply (reads_literal tokenNull); [rewrite !elem_of_cons; auto 10|done].
  - intros []; [apply (reads_literal tokenTrue)|apply (reads_literal tokenFalse)]; try done; rewrite !elem_of_cons; auto 10.
  - apply reads_int.
  - apply reads_real.
  - apply reads_string.
  - apply reads_empty_array.
  - apply reads_array.
  - apply reads_empty_object.
  - intros ms t _. apply reads_object.
  - intros w v t w' Hw Ht Hv Hw'. by apply elements_last.
  - intros w v t w' vs ts Hw Ht Hv Hw' _ IH. by apply elements_cons.
  - intros. by apply members_last.
  - intros. by apply members_cons.
Qed.

Lemma readToken_end r w :
  spaces w -> rd_current r = w -> readToken collectComments_ r = inl (mk_token tokenEndOfStream [] [], set_current [] r).
Proof.
  intros Hw Hr. unfold readToken, skipSpaces, getNextChar, mbind, ctl_bind, modify, gets, mret, ctl_ret. rewrite Hr.
  assert (E : skip_while is_space w = []) by (rewrite <-(app_nil_r w); by apply skip_while_spaces).
  rewrite E. reflexivity.
Qed.

Lemma spaces_not_number w : spaces w -> number_char (deref w) = false.
Proof. intros Hw. rewrite <-(app_nil_r w). by apply spaces_end. Qed.

(** A document: a text with white space around it. *)
Lemma parse_text v t w w' root :
  spaces w -> json_text v t -> spaces w' ->
  parse_document allowComments_ false collectComments_ (w ++ t ++ w') root = inl (true, assign v root, []).
Proof.
  intros Hw Ht Hw'. unfold parse_document. set (r0 := mk_reader _ _ _ _ _ _ _).
  assert (H : runs (parse_body allowComments_ false collectComments_ (w ++ t ++ w')) r0
                (fun ok r => ok = true /\ rd_root r = assign v root /\ rd_errors r = [])).
  { unfold parse_body. wp_step.
    eapply wp_mono; [|exact (fun _ _ H => H)|
      apply (proj1 json_reads v t Ht w w' r0 [] [] root); try done; [by apply spaces_not_number|cbn; lia]].
    intros ok r [-> [F1 F2 F3 F4 F5]]. wp_step.
    eapply wp_eq; [eapply skipCommentTokens_none; [by apply (readToken_end _ w')|done]|].
    do 2 wp_step. cbn [rd_commentsBefore set_current]. rewrite F2, bool_decide_false by (intros E; by apply E).
    rewrite andb_false_r. wp_step. wp_step; [done|]. do 2 wp_step.
    cbn [andb]. wp_step. cbn [rd_root rd_errors set_current]. by rewrite F4, F5. }
  apply wp_run in H as (ok & r & -> & -> & -> & ->). done.
Qed.
End Reading.
