(* ===== verification/JsonTrip.v ===== *)
(** * JsonTrip: the texts of the writers are JSON

    What [FastWriter] and [StyledWriter] print for a value is a text of the grammar of
    [JsonText] for [normal] of that value. *)
From stdpp Require Import base list.
From S2P Require Import Prelude Control Streams JsonValue JsonWriter JsonReader JsonPaths JsonSafety JsonText.

(** ** Numbers *)

Lemma dec_text_loop_digits fuel n acc :
  0 <= n -> (n < 2 ^ Z.of_nat fuel) -> (0 < fuel)%nat -> Forall (fun c => is_digit c = true) acc ->
  exists ds, dec_text_loop fuel n acc = ds ++ acc /\ digits ds /\ forall a, digits_value 10 dec_digit a ds = a * 10 ^ zlen ds + n.
Proof.
  revert n acc. induction fuel as [|fuel IH]; intros n acc Hn Hf Hp Ha; [lia|]. cbn [dec_text_loop].
  pose proof (Z.div_mod n 10 ltac:(lia)). pose proof (Z.mod_pos_bound n 10 ltac:(lia)).
  assert (Hd : is_digit (n mod 10 + chr "0") = true) by (apply is_digit_range; cbn; lia).
  destruct (Z.eqb_spec (n / 10) 0) as [E|E].
  - exists [n mod 10 + chr "0"]. split; [done|]. split; [by split; [|by constructor]|].
    intros a. change (zlen [_]) with 1. unfold digits_value, dec_digit. cbn. lia.
  - rewrite Nat2Z.inj_succ, Z.pow_succ_r in Hf by lia.
    destruct (IH (n / 10) (n mod 10 + chr "0" :: acc)) as (ds & -> & [Hne Hds] & Hv);
      [lia|lia|destruct fuel; [cbn in Hf; lia|lia]|by constructor|].
    exists (ds ++ [n mod 10 + chr "0"]). rewrite <-app_assoc. split; [done|]. split.
    + split; [by destruct ds|]. apply Forall_app. split; [done|by constructor].
    + intros a. unfold digits_value in *. rewrite fold_left_app, Hv, zlen_app. change (zlen [_]) with 1.
      rewrite Z.pow_add_r by (unfold zlen; lia). unfold dec_digit. cbn. lia.
Qed.

Lemma dec_text_digits n : 0 <= n -> digits (dec_text n) /\ dec_value (dec_text n) = n.
Proof.
  intros Hn. unfold dec_text.
  destruct (dec_text_loop_digits (S (Z.to_nat (Z.log2 n))) n []) as (ds & E & Hd & Hv); [done| |lia|done|].
  - pose proof (Z.log2_nonneg n). rewrite Nat2Z.inj_succ, Z2Nat.id by lia.
    destruct (decide (n = 0)) as [->|]; [done|]. apply Z.log2_spec; lia.
  - rewrite E, app_nil_r. split; [done|]. unfold dec_value. rewrite Hv. lia.
Qed.

(** ** Strings *)

Lemma hex_upper_char d : 0 <= d < 16 -> hex_char (hex_upper d) d.
Proof.
  intros Hd. assert (H : Forall (fun d => hex_char (hex_upper d) d) (seqZ 0 16)).
  { vm_compute seqZ. repeat constructor; try done; by right. }
  rewrite Forall_forall in H. apply H, elem_of_seqZ. lia.
Qed.

Lemma u_escape_hex4 c : 0 < c <= 31 -> exists h, u_escape c = BACKSLASH :: chr "u" :: h /\ hex4 h c.
Proof.
  intros Hc. unfold u_escape. eexists. split; [reflexivity|].
  exists (c / 4096 mod 16), (c / 256 mod 16), (c / 16 mod 16), (c mod 16). split.
  - do 4 (constructor; [apply hex_upper_char, Z.mod_pos_bound; lia|]). constructor.
  - Z.to_euclidean_division_equations. lia.
Qed.

Lemma escape_char_text c s t :
  0 < c -> string_text s t -> string_text (c :: s) (escape_char c ++ t).
Proof.
  intros Hc Ht. unfold escape_char.
  repeat (match goal with |- context [if c =? ?x then _ else _] => destruct (Z.eqb_spec c x) as [->|?] end;
    [cbn; by apply (st_escape _ _ s t); [unfold escapes; rewrite !elem_of_cons; auto 20|]|]).
  unfold isControlCharacter. destruct (_ && _) eqn:E; [|by constructor].
  destruct (u_escape_hex4 c ltac:(lia)) as (h & -> & Hh).
  apply (st_unicode h c [c] s t Hh); [lia|constructor; lia|done].
Qed.

Lemma escaped_text s : Forall (fun c => 0 < c) s -> string_text s (concat (map escape_char s)).
Proof. induction 1 as [|c s Hc _ IH]; cbn; [constructor|by apply escape_char_text]. Qed.

Lemma plain_text s : existsb special_char s = false -> string_text s s.
Proof.
  induction s as [|c s IH]; cbn [existsb]; [constructor|]. intros [Hc Hs]%orb_false_iff.
  unfold special_char in Hc. cbn in Hc. rewrite !orb_false_iff, !Z.eqb_neq in Hc. destruct Hc as (? & ? & _).
  constructor; [done|done|by apply IH].
Qed.

Lemma quoted_string_text s : c_string s -> exists t, valueToQuotedString s = QUOTE :: t ++ [QUOTE] /\ string_text s t.
Proof.
  intros [Hb H0]. unfold valueToQuotedString. destruct (_ && _) eqn:E; eexists; (split; [reflexivity|]).
  - apply andb_true_iff in E as [E _]. apply plain_text. by destruct (existsb _ _).
  - apply escaped_text. apply Forall_forall. intros c Hc. rewrite Forall_forall in Hb. specialize (Hb c Hc).
    unfold is_byte in Hb. destruct (decide (c = 0)) as [->|]; [done|lia].
Qed.

(** ** Values *)
Section Trip.
Context {D : Doubles}.

(** The elements of an array that is written: null where there is none. *)
Definition elements (size : Z) (m : list (Z * Value)) : list Value :=
  map (fun i => default Value_null (map_find Z.ltb i m)) (seqZ 0 size).

(** What comes back: no comments, an integer in the type that the reader takes, arrays
    without holes. *)
Fixpoint normal (v : Value) : Value :=
  match v with
  | Val _ d =>
      match d with
      | nullValue => Value_null
      | intValue n | uintValue n => if n <=? maxInt then of_int n else of_uint n
      | realValue d => of_double d
      | stringValue s => Val no_comments (stringValue s)
      | booleanValue b => of_bool b
      | arrayValue m => array_of (elements (Value_size v) (map (fun p => match p with (i, x) => (i, normal x) end) m))
      | objectValue m => Val no_comments (objectValue (map (fun p => match p with (k, x) => (k, normal x) end) m))
      end
  end.

(** Values without [double]s and [NULL] strings, with arrays whose size is an [int]. *)
Fixpoint printable (v : Value) : Prop :=
  match v with
  | Val _ d =>
      match d with
      | realValue _ | stringValue None => False
      | arrayValue m => Value_size v < 2 ^ 31 /\ foldr and True (map (fun p => match p with (_, x) => printable x end) m)
      | objectValue m => foldr and True (map (fun p => match p with (_, x) => printable x end) m)
      | _ => True
      end
  end.

(** Values without comments, whose sizes are in range: an array's size times 3 is an
    [int], an object's fits 32 bits. *)
Fixpoint plain (v : Value) : Prop :=
  match v with
  | Val c d =>
      c = no_comments /\
      match d with
      | arrayValue m => Value_size v * 3 < 2 ^ 31 /\ foldr and True (map (fun p => match p with (_, x) => plain x end) m)
      | objectValue m => zlen m < 2 ^ 32 /\ foldr and True (map (fun p => match p with (_, x) => plain x end) m)
      | _ => True
      end
  end.

Lemma foldr_and_forall {K} (P : Value -> Prop) (m : list (K * Value)) :
  foldr and True (map (fun p => match p with (_, x) => P x end) m) <-> Forall (fun p => P p.2) m.
Proof. induction m as [|[k x] m IH]; cbn; [by split|]. by rewrite Forall_cons, IH. Qed.

Lemma map_find_map {K V W} (lt : K -> K -> bool) (f : V -> W) k m :
  map_find lt k (map (fun p => match p with (k, x) => (k, f x) end) m) = f <$> map_find lt k m.
Proof. induction m as [|[k' x] m IH]; cbn; [done|]. by destruct (lt k' k), (lt k k'). Qed.

Lemma map_find_forall {K} (lt : K -> K -> bool) (P : Value -> Prop) k (m : list (K * Value)) :
  P Value_null -> Forall (fun p => P p.2) m -> P (default Value_null (map_find lt k m)).
Proof. intros H0 H. induction H as [|[k' x] m Hx _ IH]; cbn; [done|]. by destruct (lt k' k), (lt k k'). Qed.

Lemma elements_forall (P : Value -> Prop) size m :
  P Value_null -> Forall (fun p => P p.2) m -> Forall P (elements size m).
Proof. intros H0 H. apply Forall_fmap, Forall_true. intros i. by apply (map_find_forall Z.ltb P). Qed.

Lemma elements_normal size m :
  elements size (map (fun p => match p with (i, x) => (i, normal x) end) m) = map normal (elements size m).
Proof.
  unfold elements. rewrite map_map. apply map_ext. intros i. rewrite map_find_map. by destruct (map_find _ _ _).
Qed.

(** Members in the order of their keys come back in it. *)
Lemma sorted_above {K V} (lt : K -> K -> bool) `{!KeyOrder lt} k (v : V) m :
  sorted_keys lt ((k, v) :: m) -> Forall (fun p => lt k p.1 = true) m.
Proof.
  revert k v. induction m as [|[k' v'] m IH]; intros k v; [done|]. intros [H Hs]. constructor; [done|].
  eapply Forall_impl; [by apply (IH k' v')|]. intros [k2 v2] H2. cbn in *. by eapply key_trans.
Qed.

Lemma map_find_sorted {K} (lt : K -> K -> bool) `{!KeyOrder lt} k (x : Value) m1 m2 :
  Forall (fun p => lt p.1 k = true) m1 -> map_find lt k (m1 ++ (k, x) :: m2) = Some x.
Proof. induction 1 as [|[k' x'] m1 H _ IH]; cbn in *; [by rewrite key_irrefl|]. by rewrite H. Qed.

Lemma map_alter_above_gen {K} (lt : K -> K -> bool) k f (m : list (K * Value)) :
  Forall (fun p => lt p.1 k = true) m -> map_alter lt k f m = m ++ [(k, f Value_null)].
Proof. induction 1 as [|[k' x] m H _ IH]; cbn in *; [done|]. by rewrite H, IH. Qed.

Lemma add_members_sorted ms m :
  sorted_keys str_ltb ms -> Forall (fun p => comments_ p.2 = no_comments) ms ->
  Forall (fun p => Forall (fun q => str_ltb q.1 p.1 = true) m) ms ->
  add_members ms m = m ++ ms.
Proof.
  revert m. induction ms as [|[k x] ms IH]; intros m Hs Hc Hm; cbn; [by rewrite app_nil_r|].
  apply Forall_cons in Hc as [Hx Hc]. apply Forall_cons in Hm as [Hk Hm]. rewrite map_alter_above_gen by done.
  assert (Ea : assign x Value_null = x) by (destruct x as [c d]; cbn in *; by subst).
  rewrite Ea. change (add_members ms (m ++ [(k, x)]) = m ++ (k, x) :: ms). rewrite IH; [by rewrite <-app_assoc|by destruct Hs|done|].
  apply sorted_above in Hs; [|apply _]. rewrite Forall_forall in Hs, Hm |- *. intros p Hp. apply Forall_app. split; [by apply Hm|].
  repeat constructor. by apply Hs.
Qed.

Lemma comments_normal v : comments_ (normal v) = no_comments.
Proof. destruct v as [c []]; cbn; try done; by destruct (_ <=? _). Qed.

Lemma object_normal m :
  sorted_keys str_ltb m -> object_of (map (fun p => match p with (k, x) => (k, normal x) end) m) =
    Val no_comments (objectValue (map (fun p => match p with (k, x) => (k, normal x) end) m)).
Proof.
  intros Hs. unfold object_of. do 2 f_equal. apply add_members_sorted.
  - induction m as [|[k x] m IH]; cbn; [done|]. destruct Hs as [H Hs]. split; [|by apply IH]. by destruct m as [|[]].
  - apply Forall_fmap, Forall_true. intros [k x]. apply comments_normal.
  - apply Forall_true. intros p. constructor.
Qed.

(** The children under their keys. *)
Lemma map_find_member (m : list (list Z * Value)) p :
  sorted_keys str_ltb m -> Forall (fun p => c_string p.1) m -> p ∈ m -> map_find str_ltb (c_text p.1) m = Some p.2.
Proof.
  intros Hs Hc Hp. rewrite c_text_plain by (rewrite Forall_forall in Hc; by apply (Hc p)).
  apply list_elem_of_split in Hp as (m1 & m2 & ->). destruct p as [k x]. apply map_find_sorted; [apply _|].
  clear Hc. induction m1 as [|[k1 x1] m1 IH]; [constructor|]. constructor.
  - apply sorted_above in Hs; [|apply _]. apply Forall_app in Hs as [_ Hs]. by apply Forall_cons in Hs as [Hs _].
  - apply IH. by destruct Hs.
Qed.

Lemma map_members {A} (f : list Z -> Value -> A) (m : list (list Z * Value)) :
  sorted_keys str_ltb m -> Forall (fun p => c_string p.1) m ->
  map (fun name => f name (default Value_null (map_find str_ltb (c_text name) m))) m.*1 = map (fun p => f p.1 p.2) m.
Proof.
  intros Hs Hc. change (m.*1) with (map fst m). rewrite map_map. apply map_ext_in. intros p Hp.
  apply list_elem_of_In in Hp. by rewrite map_find_member.
Qed.

(** The text of a value without children. *)
Lemma int_normal n : minInt64 <= n <= maxInt64 -> int_text (normal (of_int n)) (valueToString_int n).
Proof.
  unfold minInt64, maxInt64. intros Hn. cbn [normal of_int]. unfold valueToString_int, uintToString.
  destruct (Z.ltb_spec n 0).
  - rewrite (proj2 (Z.leb_le _ _)) by (unfold maxInt; lia). rewrite uwrap_small by lia.
    destruct (dec_text_digits (- n) ltac:(lia)) as [Hd Hv]. replace n with (- dec_value (dec_text (- n))) at 1 by lia.
    constructor; [done|lia].
  - destruct (dec_text_digits n ltac:(lia)) as [Hd Hv].
    destruct (Z.leb_spec n maxInt); rewrite <-Hv at 1; constructor; try done; unfold maxUInt64; lia.
Qed.

Lemma uint_normal n : 0 <= n <= maxUInt64 -> int_text (normal (of_uint n)) (valueToString_uint n).
Proof.
  intros Hn. cbn [normal of_uint]. unfold valueToString_uint, uintToString.
  destruct (dec_text_digits n ltac:(lia)) as [Hd Hv].
  destruct (Z.leb_spec n maxInt); rewrite <-Hv at 1; constructor; try done; lia.
Qed.

Definition simple (v : Value) : Prop := match value_ v with arrayValue _ | objectValue _ => False | _ => True end.

Lemma scalar_normal v :
  simple v -> value_ok v -> printable v -> exists t, scalar_text (value_ v) = inl t /\ json_text (normal v) t.
Proof.
  destruct v as [c d]. unfold simple. destruct d as [|n|n|d|[s|]|b|m|m]; intros Hs Hok Hp; try done; (eexists; split; [reflexivity|]).
  - constructor.
  - apply jt_int. by apply (int_normal n).
  - apply jt_int. by apply (uint_normal n).
  - cbn in Hok. destruct (quoted_string_text s Hok) as (t & -> & Ht). cbn [normal].
    rewrite <-(c_text_plain s) at 1 by apply Hok. by apply jt_string.
  - apply (jt_bool b).
Qed.

(** Texts with white space before them, and their lists. *)
Definition padded (v : Value) (t : list Z) : Prop := exists w t', spaces w /\ json_text v t' /\ t = w ++ t'.

Definition padded_member (p : list Z * Value) (t : list Z) : Prop :=
  exists w kt w1 w2 t', spaces w /\ string_text p.1 kt /\ (0 ∉ p.1) /\ spaces w1 /\ spaces w2 /\ json_text p.2 t' /\
    t = w ++ QUOTE :: kt ++ QUOTE :: w1 ++ chr ":" :: w2 ++ t'.

Fixpoint commas (ts : list (list Z)) : list Z :=
  match ts with
  | [] => []
  | t :: ts => t ++ match ts with [] => [] | _ => chr "," :: commas ts end
  end.

Lemma spaces_nil : spaces [].
Proof. constructor. Qed.

Lemma json_padded v t : json_text v t -> padded v t.
Proof. intros H. exists [], t. split; [apply spaces_nil|done]. Qed.

Lemma padded_spaces v w t : spaces w -> padded v t -> padded v (w ++ t).
Proof. intros Hw (w2 & t' & Hw2 & Ht & ->). exists (w ++ w2), t'. split; [by apply Forall_app|]. split; [done|apply app_assoc]. Qed.

Lemma join_elements vs ts w :
  vs <> [] -> Forall2 padded vs ts -> spaces w -> json_elements vs (commas ts ++ w ++ [chr "]"]).
Proof.
  intros Hne H Hw. induction H as [|v t vs ts (w1 & t' & Hw1 & Ht & ->) H IH]; [done|].
  cbn [commas]. destruct H as [|v2 t2 vs ts H2 H].
  - rewrite app_nil_r, <-app_assoc. by constructor.
  - rewrite <-!app_assoc. apply (je_cons w1 v t' [] (v2 :: vs)); [done|done|apply spaces_nil|]. by apply IH.
Qed.

Lemma join_members ms ts w :
  ms <> [] -> Forall2 padded_member ms ts -> spaces w -> json_members ms (commas ts ++ w ++ [chr "}"]).
Proof.
  intros Hne H Hw. induction H as [|[k v] t ms ts (w0 & kt & w1 & w2 & t' & Hw0 & Hk & Hn & Hw1 & Hw2 & Ht & ->) H IH]; [done|].
  cbn [commas fst snd] in *. destruct H as [|p2 t2 ms ts H2 H].
  - rewrite app_nil_r. repeat (rewrite <-app_assoc; cbn [app]). rewrite <-(c_text_plain k) at 1 by done. by constructor.
  - repeat (rewrite <-app_assoc; cbn [app]). rewrite <-(c_text_plain k) at 1 by done. apply (jm_cons w0 k kt w1 w2 v t' []); try done; [apply spaces_nil|by apply IH].
Qed.

Lemma commas_cons t ts : ts <> [] -> commas (t :: ts) = t ++ chr "," :: commas ts.
Proof. by destruct ts. Qed.

(** *** FastWriter *)

(** A step that adds a text to the document whatever is in it. *)
Definition adds {A} (m : Ctl fault (list Z) A) (a : A) (t : list Z) : Prop := forall doc, m doc = inl (a, doc ++ t).

Lemma adds_emit t : adds (fw_emit t) tt t.
Proof. done. Qed.

Lemma adds_bind {A B} (m : Ctl fault (list Z) A) (f : A -> Ctl fault (list Z) B) a b t1 t2 :
  adds m a t1 -> adds (f a) b t2 -> adds (m ≫= f) b (t1 ++ t2).
Proof. intros H1 H2 doc. unfold mbind, ctl_bind. by rewrite H1, H2, app_assoc. Qed.

Lemma adds_sep ws ts first :
  Forall2 (fun w t => adds w tt t) ws ts ->
  adds (fw_sep first ws) tt (match ts with [] => [] | _ => (if first then [] else [chr ","]) ++ commas ts end).
Proof.
  intros H. revert first. induction H as [|w t ws ts Hw H IH]; intros first; [by intros doc; rewrite app_nil_r|].
  cbn [fw_sep commas]. eapply (adds_bind _ _ tt); [by destruct first; [intros doc; rewrite app_nil_r|]|].
  eapply (adds_bind _ _ tt); [done|]. apply (IH false).
Qed.

Lemma Forall2_texts {A} (f : A -> Ctl fault (list Z) unit) (P : A -> list Z -> Prop) (l : list A) :
  Forall (fun x => exists t, P x t /\ adds (f x) tt t) l ->
  exists ts, Forall2 P l ts /\ Forall2 (fun w t => adds w tt t) (map f l) ts.
Proof.
  induction 1 as [|x l (t & Ht & Ha) _ (ts & H1 & H2)]; [exists []; by split|].
  exists (t :: ts). split; by constructor.
Qed.

Lemma fast_children yaml size m :
  map (fw_child Z.ltb (map (fun p => match p with (i, x) => (i, fast_value yaml x) end) m)) (seqZ 0 size) =
  map (fast_value yaml) (elements size m).
Proof.
  unfold elements. rewrite map_map. apply map_ext. intros i. unfold fw_child. rewrite map_find_map.
  by destruct (map_find _ _ _).
Qed.

Definition fast_member yaml (k : list Z) (x : Value) : Ctl fault (list Z) unit :=
  fw_emit (valueToQuotedString (c_text k)) ;; fw_emit (bytes (if yaml : bool then ": " else ":")) ;; fast_value yaml x.

Lemma fast_members yaml m :
  sorted_keys str_ltb m -> Forall (fun p => c_string p.1) m ->
  map (fun name =>
    fw_emit (valueToQuotedString (c_text name)) ;;
    fw_emit (bytes (if yaml : bool then ": " else ":")) ;;
    fw_child str_ltb (map (fun p => match p with (k, x) => (k, fast_value yaml x) end) m) (c_text name)) m.*1 =
  map (fun p => fast_member yaml p.1 p.2) m.
Proof.
  intros Hs Hc. rewrite <-(map_members (fast_member yaml)) by done. apply map_ext. intros k.
  unfold fast_member, fw_child. rewrite map_find_map. by destruct (map_find _ _ _).
Qed.

Definition fast_spec yaml v := exists t, json_text (normal v) t /\ adds (fast_value yaml v) tt t.

Lemma to_int_small n : n < 2 ^ 31 -> to_int n = n.
Proof. intros H. unfold to_int. by rewrite (proj2 (Z.ltb_lt _ _)) by done. Qed.

Lemma fast_array yaml c m :
  Value_size (Val c (arrayValue m)) < 2 ^ 31 -> Forall (fast_spec yaml) (elements (Value_size (Val c (arrayValue m))) m) -> fast_spec yaml (Val c (arrayValue m)).
Proof.
  intros Hz H. unfold fast_spec. cbn [fast_value normal]. rewrite to_int_small, fast_children, elements_normal by done.
  set (vs := elements _ m) in *. clearbody vs.
  destruct (Forall2_texts (fast_value yaml) (fun v => json_text (normal v)) vs) as (ts & H1 & H2); [done|].
  exists (chr "[" :: commas ts ++ [chr "]"]). split.
  - destruct H1 as [|v t vs ts Ht H1]; [exact (jt_empty_array [] spaces_nil)|].
    apply jt_array. apply (join_elements _ _ []); [done| |apply spaces_nil].
    cbn [map]. constructor; [by apply json_padded|]. clear -H1. induction H1; cbn; constructor; [by apply json_padded|done].
  - apply (adds_bind _ _ tt _ [chr "["]); [apply adds_emit|]. apply (adds_bind _ _ tt); [|apply adds_emit].
    pose proof (adds_sep _ _ true H2) as H3. by destruct ts.
Qed.

Lemma fast_object yaml c m :
  sorted_keys str_ltb m -> Forall (fun p => c_string p.1) m -> Forall (fun p => fast_spec yaml p.2) m ->
  fast_spec yaml (Val c (objectValue m)).
Proof.
  intros Hs Hc H. unfold fast_spec. cbn [fast_value normal]. rewrite fast_members, <-object_normal by done. clear Hs.
  set (n := fun p : list Z * Value => match p with (k, x) => (k, normal x) end).
  destruct (Forall2_texts (fun p => fast_member yaml p.1 p.2) (fun p => padded_member (n p)) m) as (ts & H1 & H2).
  { rewrite Forall_forall in Hc, H |- *. intros [k x] Hp. destruct (H _ Hp) as (t & Ht & Ha). specialize (Hc _ Hp). cbn in Hc, Ha.
    destruct (quoted_string_text k Hc) as (kt & Ek & Hk).
    exists (QUOTE :: kt ++ QUOTE :: chr ":" :: (if yaml then [32] else []) ++ t). split.
    - exists [], kt, [], (if yaml then [32] else []), t. cbn [n fst snd]. repeat split; try done; try apply spaces_nil; [apply Hc|].
      destruct yaml; [by constructor|apply spaces_nil].
    - unfold fast_member. cbn [fst snd]. rewrite c_text_plain, Ek by apply Hc.
      assert (E : QUOTE :: kt ++ QUOTE :: chr ":" :: (if yaml then [32] else []) ++ t =
                  (QUOTE :: kt ++ [QUOTE]) ++ bytes (if yaml then ": " else ":") ++ t)
        by (destruct yaml; cbn; rewrite <-app_assoc; reflexivity).
      rewrite E.
      apply (adds_bind _ _ tt); [apply adds_emit|]. apply (adds_bind _ _ tt); [apply adds_emit|done]. }
  exists (chr "{" :: commas ts ++ [chr "}"]). split.
  - destruct H1 as [|p t ms ts Ht H1]; [exact (jt_empty_object [] spaces_nil)|].
    apply jt_object. apply (join_members _ _ []); [done| |apply spaces_nil]. apply Forall2_fmap_l. by constructor.
  - apply (adds_bind _ _ tt _ [chr "{"]); [apply adds_emit|]. apply (adds_bind _ _ tt); [|apply adds_emit].
    pose proof (adds_sep _ _ true H2) as H3. by destruct ts.
Qed.

Lemma fast_text yaml v : value_ok v -> printable v -> fast_spec yaml v.
Proof.
  induction v as [c d IH] using Value_deep_ind. intros Hok Hp.
  assert (Hc : forall {K} (m : list (K * Value)),
    Forall (fun p => value_ok p.2 -> printable p.2 -> fast_spec yaml p.2) m ->
    foldr and True (map (fun p => match p with (_, x) => value_ok x end) m) ->
    foldr and True (map (fun p => match p with (_, x) => printable x end) m) -> Forall (fun p => fast_spec yaml p.2) m).
  { intros K m H H1%foldr_and_forall H2%foldr_and_forall. rewrite Forall_forall in *. auto. }
  assert (Hs : simple (Val c d) -> fast_spec yaml (Val c d)).
  { intros H. destruct (scalar_normal (Val c d)) as (t & Et & Ht); [done..|]. exists t. split; [done|].
    cbn in Et. by destruct d; cbn [fast_value]; try done; rewrite Et. }
  destruct d; try (by apply Hs).
  - destruct Hok as (_ & _ & Hok). destruct Hp as [Hz Hp]. apply fast_array, elements_forall; [done| |by apply Hc].
    exists (bytes "null"). split; [constructor|apply adds_emit].
  - destruct Hok as (H1 & H2 & Hok). apply fast_object; [done|done|by apply Hc].
Qed.
End Trip.
