(* ===== verification/JsonStyled.v ===== *)
(** * JsonStyled: the text of [StyledWriter] is JSON

    The writer puts elements of short arrays into [childValues_] first and joins them if
    they fit a line; everything else goes to the document, with line ends and
    indentation between. *)
From stdpp Require Import base list.
From S2P Require Import Prelude Control Streams JsonValue JsonWriter JsonReader JsonPaths JsonSafety JsonText JsonTrip.

Lemma zlookup_mid {A} (l : list A) x r : zlookup (l ++ x :: r) (zlen l) = Some x.
Proof.
  unfold zlookup, zlen. rewrite (proj2 (Z.ltb_ge _ _)) by lia. rewrite Nat2Z.id.
  by apply list_lookup_middle.
Qed.

(** What the text needs of a layout: only white space is put in. *)
Class LayoutLaws (L : Layout) : Prop := {
  indentation_spaces : spaces indentation_;
  put_indent_spaces s : spaces (sw_indentString s) ->
    exists w, spaces w /\ put_indent s = inl (tt, set_sw_document (sw_document s ++ w) s);
}.

#[export] Instance styled_laws : LayoutLaws styled_layout.
Proof.
  split; [by repeat constructor|]. intros s Hs. cbn. unfold writeIndent, modify. destruct (last (sw_document s)) as [c|].
  - destruct (c =? chr " ").
    + exists []. split; [apply spaces_nil|]. rewrite app_nil_r. by destruct s.
    + exists ((if c =? LF then [] else [LF]) ++ sw_indentString s). split; [|done].
      apply Forall_app. split; [|done]. destruct (c =? LF); [apply spaces_nil|by apply Forall_singleton].
  - by exists (sw_indentString s).
Qed.

Section Styled.
Context {D : Doubles} {L : Layout} `{!LayoutLaws L}.
Implicit Types (s : StyledWriter) (v : Value) (t w : list Z).

Abbreviation runs m s Q := (@wp fault StyledWriter _ m s Q (fun _ _ => False)).

(** The document has grown by a text, between values. *)
Record grown s s' t : Prop := {
  gr_document : sw_document s' = sw_document s ++ t;
  gr_indent : sw_indentString s' = sw_indentString s;
  gr_add : sw_addChildValues s' = false;
}.

Lemma grown_nil s : sw_addChildValues s = false -> grown s s [].
Proof. intros H. split; [by rewrite app_nil_r|done|done]. Qed.

Lemma grown_trans s1 s2 s3 t1 t2 : grown s1 s2 t1 -> grown s2 s3 t2 -> grown s1 s3 (t1 ++ t2).
Proof. intros [A1 A2 A3] [B1 B2 B3]. split; [by rewrite B1, A1, app_assoc|by rewrite B2|done]. Qed.

Lemma runs_sw_emit t s (Q : unit -> StyledWriter -> Prop) :
  Q tt (set_sw_document (sw_document s ++ t) s) -> runs (sw_emit t) s Q.
Proof. intros H. unfold sw_emit. by wp_step. Qed.

Lemma runs_emit_grown t s0 t0 s (Q : unit -> StyledWriter -> Prop) :
  grown s0 s t0 -> (forall s', grown s0 s' (t0 ++ t) -> sw_childValues s' = sw_childValues s -> Q tt s') -> runs (sw_emit t) s Q.
Proof. intros [A1 A2 A3] H. apply runs_sw_emit, H; [|done]. split; cbn; [by rewrite A1, app_assoc|done|done]. Qed.

Lemma runs_put_indent s0 t0 s (Q : unit -> StyledWriter -> Prop) :
  grown s0 s t0 -> spaces (sw_indentString s) ->
  (forall s' w, spaces w -> grown s0 s' (t0 ++ w) -> sw_childValues s' = sw_childValues s -> Q tt s') ->
  runs put_indent s Q.
Proof.
  intros [A1 A2 A3] Hi H. destruct (put_indent_spaces s Hi) as (w & Hw & E). eapply wp_of_run; [exact E|].
  apply (H _ w); [done| |done]. split; cbn; [by rewrite A1, app_assoc|done|done].
Qed.

Lemma runs_writeWithIndent t s0 t0 s (Q : unit -> StyledWriter -> Prop) :
  grown s0 s t0 -> spaces (sw_indentString s) ->
  (forall s' w, spaces w -> grown s0 s' (t0 ++ w ++ t) -> sw_childValues s' = sw_childValues s -> Q tt s') ->
  runs (writeWithIndent t) s Q.
Proof.
  intros Hg Hi H. unfold writeWithIndent. wp_step. eapply runs_put_indent; [done|done|].
  intros s1 w Hw G E. eapply runs_emit_grown; [done|]. intros s2 G2 E2. rewrite <-app_assoc in G2. apply (H s2 w); [done|done|congruence].
Qed.

(** Without comments nothing is written for them. *)
Lemma runs_commentBefore v s (Q : unit -> StyledWriter -> Prop) :
  comments_ v = no_comments -> Q tt s -> runs (writeCommentBeforeValue v) s Q.
Proof.
  intros Hc HQ. unfold writeCommentBeforeValue, hasComment, getComment_opt. rewrite Hc. cbn. by wp_step.
Qed.

Lemma runs_commentAfter v s (Q : unit -> StyledWriter -> Prop) :
  comments_ v = no_comments -> Q tt s -> runs (writeCommentAfterValueOnSameLine v) s Q.
Proof.
  intros Hc HQ. unfold writeCommentAfterValueOnSameLine, hasComment, getComment_opt. rewrite Hc. cbn.
  by repeat wp_step.
Qed.

(** *** What a value writes *)

(** To the document, when no child values are collected. *)
Definition writes_text v : Prop :=
  forall s (Q : unit -> StyledWriter -> Prop),
  sw_addChildValues s = false -> spaces (sw_indentString s) ->
  (forall s' t, padded (normal v) t -> grown s s' t -> Q tt s') -> runs (styled_value v) s Q.

(** To the child values, when they are. *)
Definition writes_child v : Prop :=
  forall s (Q : unit -> StyledWriter -> Prop),
  sw_addChildValues s = true ->
  (forall t, json_text (normal v) t -> Q tt (set_sw_childValues (sw_childValues s ++ [t]) s)) -> runs (styled_value v) s Q.

(** A value that [isMultineArray] lets into a line. *)
Definition short v : Prop := (isArray v || isObject v) && (0 <? Value_size v) = false.

Definition styled_spec v : Prop := comments_ v = no_comments /\ writes_text v /\ (short v -> writes_child v).

Definition entries (vs : list Value) : list child := map (fun v => (v, styled_value v)) vs.

(** The elements of an array, each on its line. *)
Lemma runs_array_lines vs s0 t0 s i (Q : unit -> StyledWriter -> Prop) :
  Forall styled_spec vs -> grown s0 s t0 -> spaces (sw_indentString s) ->
  (forall s' ts, Forall2 padded (map normal vs) ts -> grown s0 s' (t0 ++ commas ts) -> Q tt s') ->
  runs (array_lines false i (entries vs)) s Q.
Proof.
  intros H. revert s t0 i. induction H as [|v vs (Hc & Hv & _) Hvs IH]; intros s t0 i Hg Hi HQ; cbn [entries map array_lines].
  { wp_step. apply (HQ s []); [constructor|by rewrite app_nil_r]. }
  wp_step. apply runs_commentBefore; [done|]. do 2 wp_step. eapply runs_put_indent; [done|done|].
  intros s1 w Hw G1 _. assert (I1 : sw_indentString s1 = sw_indentString s) by (by rewrite (gr_indent _ _ _ G1), (gr_indent _ _ _ Hg)).
  apply Hv; [apply G1|by rewrite I1|]. intros s2 t Ht G2. pose proof (grown_trans _ _ _ _ _ G1 G2) as G. clear G2.
  assert (I2 : sw_indentString s2 = sw_indentString s) by (by rewrite (gr_indent _ _ _ G), (gr_indent _ _ _ Hg)).
  wp_step. destruct vs as [|v2 vs].
  - cbn. wp_step. wp_step. apply runs_commentAfter; [done|]. wp_step.
    apply (HQ _ [w ++ t]); [constructor; [by apply padded_spaces|constructor]|]. cbn. by rewrite app_nil_r, app_assoc.
  - wp_step; [|done]. eapply runs_emit_grown; [exact G|]. intros s3 G3 E3. wp_step. apply runs_commentAfter; [done|].
    eapply IH; [exact G3|by rewrite (gr_indent _ _ _ G3), <-(gr_indent _ _ _ Hg)|].
    intros s4 ts Hts G4. apply (HQ _ ((w ++ t) :: ts)); [constructor; [by apply padded_spaces|done]|].
    rewrite commas_cons by (by inversion Hts). by rewrite <-!app_assoc in *.
Qed.

Lemma runs_childValue pre t ts s (Q : list Z -> StyledWriter -> Prop) :
  sw_childValues s = pre ++ t :: ts -> Q t s -> runs (childValue (zlen pre)) s Q.
Proof.
  intros E HQ. unfold childValue. do 2 wp_step. rewrite E, zlookup_mid. by wp_step.
Qed.

(** The same when the texts of the elements have been collected before. *)
Lemma runs_child_lines vs ts pre s0 t0 s (Q : unit -> StyledWriter -> Prop) :
  Forall styled_spec vs -> Forall2 json_text (map normal vs) ts -> sw_childValues s = pre ++ ts ->
  grown s0 s t0 -> spaces (sw_indentString s) ->
  (forall s' ts', Forall2 padded (map normal vs) ts' -> grown s0 s' (t0 ++ commas ts') -> Q tt s') ->
  runs (array_lines true (zlen pre) (entries vs)) s Q.
Proof.
  intros H. revert ts pre s t0. induction H as [|v vs (Hc & _) Hvs IH]; intros ts pre s t0 Hts Hcv Hg Hi HQ; cbn [entries map array_lines].
  { wp_step. apply (HQ s []); [constructor|by rewrite app_nil_r]. }
  apply Forall2_cons_inv_l in Hts as (t & ts' & Ht & Hts & ->).
  wp_step. apply runs_commentBefore; [done|]. do 2 wp_step. eapply runs_childValue; [exact Hcv|].
  eapply runs_writeWithIndent; [done|done|]. intros s1 w Hw G1 E1. wp_step. destruct vs as [|v2 vs].
  - cbn. wp_step. wp_step. apply runs_commentAfter; [done|]. wp_step.
    apply (HQ _ [w ++ t]); [constructor; [by apply padded_spaces, json_padded|constructor]|]. cbn. by rewrite app_nil_r.
  - wp_step; [|done]. eapply runs_emit_grown; [exact G1|]. intros s3 G3 E3. wp_step. apply runs_commentAfter; [done|].
    replace (zlen pre + 1) with (zlen (pre ++ [t])) by (rewrite zlen_app; done).
    eapply (IH ts'); [done|by rewrite E3, E1, Hcv, <-app_assoc|exact G3|by rewrite (gr_indent _ _ _ G3), <-(gr_indent _ _ _ Hg)|].
    intros s4 ts2 Hts2 G4. apply (HQ _ ((w ++ t) :: ts2)); [constructor; [by apply padded_spaces, json_padded|done]|].
    rewrite commas_cons by (by inversion Hts2). by rewrite <-!app_assoc in *.
Qed.

(** The elements on one line. *)
Lemma runs_array_line (first : bool) ts vs s0 t0 s (Q : unit -> StyledWriter -> Prop) :
  Forall2 json_text vs ts -> grown s0 s t0 ->
  (forall s' ts', Forall2 padded vs ts' ->
     grown s0 s' (t0 ++ (if first then [] else match ts with [] => [] | _ => [chr ","] end) ++ commas ts') -> Q tt s') ->
  runs (array_line first ts) s Q.
Proof.
  intros H. revert first s t0. induction H as [|v t vs ts Ht H IH]; intros first s t0 Hg HQ; cbn [array_line].
  { wp_step. apply (HQ s []); [constructor|]. destruct first; by rewrite app_nil_r. }
  wp_step.
  assert (H1 : forall s1 w, spaces w -> grown s0 s1 (t0 ++ (if first then [] else [chr ","]) ++ w) ->
    runs (sw_emit t ;; array_line false ts) s1 Q).
  { intros s1 w Hw G1. wp_step. eapply runs_emit_grown; [exact G1|]. intros s2 G2 _. eapply IH; [exact G2|].
    intros s3 ts' Hts' G3. apply (HQ _ ((w ++ t) :: ts')); [constructor; [by apply padded_spaces, json_padded|done]|].
    destruct H as [|v2 t2 vs ts Ht2 H].
    - inversion Hts'; subst. cbn [commas] in *. rewrite !app_nil_r in *. by rewrite <-!app_assoc in *.
    - rewrite commas_cons by (by inversion Hts'). by rewrite <-!app_assoc in *. }
  destruct first; cbn [negb]; wp_step; try done.
  - apply (H1 _ []); [apply spaces_nil|by rewrite !app_nil_r].
  - eapply runs_emit_grown; [exact Hg|]. intros s1 G1 _. apply (H1 _ [32]); [by apply Forall_singleton|done].
Qed.

(** *** Brackets *)
Lemma runs_open (K : Ctl fault StyledWriter unit) t s (Q : unit -> StyledWriter -> Prop) :
  sw_addChildValues s = false -> spaces (sw_indentString s) ->
  (forall s' w, spaces w -> sw_document s' = sw_document s ++ w ++ t ->
     sw_indentString s' = sw_indentString s ++ indentation_ -> sw_addChildValues s' = false ->
     sw_childValues s' = sw_childValues s -> runs K s' Q) ->
  runs (writeWithIndent t ;; indent ;; K) s Q.
Proof.
  intros Ha Hi H. wp_step. eapply (runs_writeWithIndent t s []); [by apply grown_nil|done|].
  intros s1 w Hw [G1 G2 G3] E. wp_step. unfold indent. wp_step.
  apply (H _ w); cbn; [done|done|by rewrite G2|done|done].
Qed.

Lemma runs_close t i s (Q : unit -> StyledWriter -> Prop) :
  sw_indentString s = i ++ indentation_ -> sw_addChildValues s = false -> spaces i ->
  (forall s' w, spaces w -> sw_document s' = sw_document s ++ w ++ t -> sw_indentString s' = i ->
     sw_addChildValues s' = false -> Q tt s') ->
  runs (unindent ;; writeWithIndent t) s Q.
Proof.
  intros Hi Ha Hs H. wp_step. unfold unindent. do 3 wp_step. rewrite Hi, zlen_app.
  assert (E : (zlen indentation_ <=? zlen i + zlen indentation_) = true) by (apply Z.leb_le; unfold zlen; lia).
  rewrite E. unfold assert. do 2 wp_step. rewrite Hi.
  replace (zlen i + zlen indentation_ - zlen indentation_) with (zlen i) by lia.
  unfold zlen. rewrite Nat2Z.id, take_app_length.
  set (s1 := set_sw_indentString i s). eapply (runs_writeWithIndent t s1 []); [by apply grown_nil|done|].
  intros s2 w Hw [G1 G2 G3] E2. apply (H s2 w); done.
Qed.

(** *** Arrays *)
Lemma runs_push_children vs pre s n (Q : Z -> StyledWriter -> Prop) :
  Forall styled_spec vs -> Forall short vs -> sw_addChildValues s = true -> sw_childValues s = pre ->
  (forall ts n', Forall2 json_text (map normal vs) ts -> Q n' (set_sw_childValues (pre ++ ts) s)) ->
  runs (push_children (zlen pre) (entries vs) n) s Q.
Proof.
  intros H. revert pre s n. induction H as [|v vs (_ & _ & Hv) Hvs IH]; intros pre s n Hsh Ha Hcv HQ; cbn [entries map push_children].
  { wp_step. specialize (HQ [] n ltac:(constructor)). rewrite app_nil_r, <-Hcv in HQ. by destruct s. }
  apply Forall_cons in Hsh as [Hs1 Hsh]. wp_step. apply Hv; [done|done|]. intros t Ht. wp_step.
  eapply (runs_childValue pre t []); [by cbn; rewrite Hcv|].
  replace (zlen pre + 1) with (zlen (pre ++ [t])) by (rewrite zlen_app; done).
  apply IH; [done|done|cbn; by rewrite Hcv|]. intros ts n' Hts.
  specialize (HQ (t :: ts) n'). rewrite <-app_assoc. apply HQ. by constructor.
Qed.

Lemma existsb_short vs :
  existsb (fun p : child => (isArray p.1 || isObject p.1) && (0 <? Value_size p.1)) (entries vs) = false -> Forall short vs.
Proof. induction vs as [|v vs IH]; cbn; [constructor|]. intros [H1 H2]%orb_false_iff. constructor; [done|by apply IH]. Qed.

Lemma runs_isMultineArray size vs s (Q : bool -> StyledWriter -> Prop) :
  Forall styled_spec vs -> 0 <= size -> size * 3 < 2 ^ 31 -> sw_addChildValues s = false ->
  Q true (set_sw_childValues [] s) ->
  (forall b ts, Forall2 json_text (map normal vs) ts -> Q b (set_sw_childValues ts s)) ->
  runs (isMultineArray size (entries vs)) s Q.
Proof.
  intros Hv H0 Hs Ha H1 H2. unfold isMultineArray. do 2 wp_step. rewrite to_int_small by lia.
  rewrite (proj2 (Z.ltb_ge size 0)) by done. cbv zeta.
  assert (E : negb ((- 2 ^ 31 <=? size * 3) && (size * 3 <? 2 ^ 31)) = false)
    by (apply negb_false_iff, andb_true_iff; lia).
  rewrite E. clear E.
  destruct (_ || _) eqn:E; [by wp_step|]. apply orb_false_iff in E as [_ E%existsb_short].
  do 3 wp_step. apply (runs_push_children vs [] _ _ _ Hv E); [done|done|]. intros ts n' Hts. do 3 wp_step.
  specialize (H2 (rightMargin_ <=? n') ts Hts). destruct s as [d cv i a]. cbn in *. by subst a.
Qed.

Definition multiline (vs : list Value) : Ctl fault StyledWriter unit :=
  writeWithIndent (bytes "[") ;; indent ;;
  hasChildValue ← gets (fun x => bool_decide (sw_childValues x <> []));
  array_lines hasChildValue 0 (entries vs) ;; unindent ;; writeWithIndent (bytes "]").

Lemma runs_multiline vs s (Q : unit -> StyledWriter -> Prop) :
  Forall styled_spec vs -> vs <> [] -> sw_addChildValues s = false -> spaces (sw_indentString s) ->
  sw_childValues s = [] \/ Forall2 json_text (map normal vs) (sw_childValues s) ->
  (forall s' t, padded (array_of (map normal vs)) t -> grown s s' t -> Q tt s') -> runs (multiline vs) s Q.
Proof.
  intros Hv Hne Ha Hi Hcv HQ. apply runs_open; [done|done|]. intros s2 w Hw D2 I2 A2 C2. do 3 wp_step.
  assert (Hi2 : spaces (sw_indentString s2)) by (rewrite I2; apply Forall_app; split; [done|apply indentation_spaces]).
  assert (Hend : forall s3 ts, Forall2 padded (map normal vs) ts -> grown s2 s3 ([] ++ commas ts) ->
    runs (unindent ;; writeWithIndent (bytes "]")) s3 Q).
  { intros s3 ts Hts [G1 G2 G3]. apply (runs_close _ (sw_indentString s)); [by rewrite G2|done|done|].
    intros s4 w2 Hw2 D4 I4 A4. apply (HQ _ (w ++ bytes "[" ++ commas ts ++ w2 ++ bytes "]")).
    - apply padded_spaces, json_padded; [done|]. apply jt_array, join_elements; [by destruct vs|done|done].
    - split; [|by rewrite I4|done]. by rewrite D4, G1, D2, <-!app_assoc. }
  destruct Hcv as [Hcv|Hcv].
  - rewrite C2, Hcv, bool_decide_false by (intros N; by apply N).
    eapply runs_array_lines; [done|by apply grown_nil|done|exact Hend].
  - rewrite C2, bool_decide_true by (intros N; rewrite N in Hcv; by destruct vs; inversion Hcv).
    eapply (runs_child_lines vs (sw_childValues s) [] s2 []); [done|done|by rewrite C2|by apply grown_nil|done|exact Hend].
Qed.

Lemma runs_array size vs s (Q : unit -> StyledWriter -> Prop) :
  Forall styled_spec vs -> size = zlen vs -> size * 3 < 2 ^ 31 -> sw_addChildValues s = false -> spaces (sw_indentString s) ->
  (forall s' t, padded (array_of (map normal vs)) t -> grown s s' t -> Q tt s') ->
  runs (writeArrayValue size (entries vs)) s Q.
Proof.
  intros Hv -> Hs Ha Hi HQ. unfold writeArrayValue. destruct (Z.eqb_spec (zlen vs) 0) as [E|E].
  { destruct vs; [|unfold zlen in E; cbn in E; lia]. unfold pushValue. wp_step. rewrite Ha.
    apply (HQ _ (bytes "[]")); [apply json_padded, (jt_empty_array [] spaces_nil)|by split]. }
  assert (Hne : vs <> []) by (by destruct vs).
  assert (HQ' : forall cv s' t, padded (array_of (map normal vs)) t -> grown (set_sw_childValues cv s) s' t -> Q tt s').
  { intros cv s' t Ht [G1 G2 G3]. apply (HQ s' t Ht). by split. }
  wp_step. apply runs_isMultineArray; [done|unfold zlen; lia|done|done|apply runs_multiline; eauto|].
  intros [] ts Hts; [apply runs_multiline; eauto|]. do 3 wp_step.
  assert (El : zlen ts = zlen vs) by (apply Forall2_length in Hts; rewrite length_map in Hts; unfold zlen; by rewrite Hts).
  cbn [sw_childValues set_sw_childValues]. rewrite El, Z.eqb_refl. unfold assert. do 2 wp_step.
  set (s1 := set_sw_childValues ts s).
  eapply (runs_emit_grown _ s1 []); [by apply grown_nil|]. intros s2 G2 _. wp_step.
  eapply (runs_array_line true ts _ s1); [exact Hts|exact G2|]. intros s3 ts' Hts' G3.
  eapply runs_emit_grown; [exact G3|]. intros s4 [G4 G5 G6] _.
  apply (HQ s4 (bytes "[ " ++ commas ts' ++ bytes " ]")); [|split; [by rewrite G4, <-!app_assoc|done|done]].
  assert (Hne' : map normal vs <> []) by (by destruct vs).
  apply json_padded, jt_array. destruct Hts' as [|v t vs' ts' Ht Hts']; [done|].
  apply (join_elements (v :: vs') (([32] ++ t) :: ts') [32]); [done| |by apply Forall_singleton].
  constructor; [|done]. apply padded_spaces; [by apply Forall_singleton|done].
Qed.

(** *** Objects *)
Definition normal_member (p : list Z * Value) : list Z * Value := match p with (k, x) => (k, normal x) end.
Definition member_entries (m : list (list Z * Value)) : list (list Z * child) := map (fun p => (p.1, (p.2, styled_value p.2))) m.

Lemma member_text k kt v w t :
  spaces w -> string_text k kt -> (0 ∉ k) -> padded (normal v) t ->
  padded_member (normal_member (k, v)) (w ++ (QUOTE :: kt ++ [QUOTE]) ++ bytes " : " ++ t).
Proof.
  intros Hw Hk H0 (w2 & t' & Hw2 & Ht & ->). exists w, kt, [32], ([32] ++ w2), t'. cbn [normal_member fst snd].
  repeat split; try done; [by apply Forall_singleton|by apply Forall_app; split; [apply Forall_singleton|]|].
  cbn. by rewrite <-!app_assoc.
Qed.

Lemma runs_object_lines m s0 t0 s (Q : unit -> StyledWriter -> Prop) :
  Forall (fun p => c_string p.1) m -> Forall (fun p => styled_spec p.2) m -> grown s0 s t0 -> spaces (sw_indentString s) ->
  (forall s' ts, Forall2 padded_member (map normal_member m) ts -> grown s0 s' (t0 ++ commas ts) -> Q tt s') ->
  runs (object_lines (member_entries m)) s Q.
Proof.
  intros Hk H. revert s t0 Hk. induction H as [|[k v] m (Hc & Hv & _) Hm IH]; intros s t0 Hk Hg Hi HQ;
    cbn [member_entries map object_lines fst snd] in *.
  { wp_step. apply (HQ s []); [constructor|by rewrite app_nil_r]. }
  apply Forall_cons in Hk as [Hk1 Hk]. destruct (quoted_string_text k Hk1) as (kt & Ek & Hkt).
  wp_step. apply runs_commentBefore; [done|]. wp_step. rewrite c_text_plain, Ek by apply Hk1.
  eapply runs_writeWithIndent; [done|done|]. intros s1 w Hw G1 _. wp_step.
  eapply runs_emit_grown; [exact G1|]. intros s2 G2 _. wp_step.
  assert (I2 : sw_indentString s2 = sw_indentString s) by (by rewrite (gr_indent _ _ _ G2), (gr_indent _ _ _ Hg)).
  apply Hv; [apply G2|by rewrite I2|]. intros s3 t Ht G3. pose proof (grown_trans _ _ _ _ _ G2 G3) as G. clear G3.
  assert (Hmt := member_text k kt v w t Hw Hkt (proj2 Hk1) Ht).
  set (mt := w ++ _) in Hmt.
  assert (Emt : (t0 ++ w ++ QUOTE :: kt ++ [QUOTE]) ++ bytes " : " ++ t = t0 ++ mt) by (unfold mt; by rewrite <-!app_assoc).
  rewrite <-app_assoc, Emt in G. clearbody mt. wp_step. destruct m as [|p2 m].
  - cbn. wp_step. wp_step. apply runs_commentAfter; [done|]. wp_step.
    apply (HQ _ [mt]); [by repeat constructor|]. cbn. by rewrite app_nil_r.
  - wp_step; [|done]. eapply runs_emit_grown; [exact G|]. intros s4 G4 _. wp_step. apply runs_commentAfter; [done|].
    eapply IH; [done|exact G4|by rewrite (gr_indent _ _ _ G4), <-(gr_indent _ _ _ Hg)|].
    intros s5 ts Hts G5. apply (HQ _ (mt :: ts)); [by constructor|].
    rewrite commas_cons by (by inversion Hts). by rewrite <-!app_assoc in *.
Qed.

Lemma runs_object m s (Q : unit -> StyledWriter -> Prop) :
  Forall (fun p => c_string p.1) m -> Forall (fun p => styled_spec p.2) m ->
  sw_addChildValues s = false -> spaces (sw_indentString s) ->
  (forall s' t, padded (object_of (map normal_member m)) t -> grown s s' t -> Q tt s') ->
  runs (writeObjectValue (member_entries m)) s Q.
Proof.
  intros Hk Hv Ha Hi HQ. destruct (decide (m = [])) as [->|Hne].
  { cbn [member_entries map writeObjectValue]. unfold pushValue. wp_step. rewrite Ha.
    apply (HQ _ (bytes "{}")); [apply json_padded, (jt_empty_object [] spaces_nil)|by split]. }
  assert (E : writeObjectValue (member_entries m) =
    (writeWithIndent (bytes "{") ;; indent ;; object_lines (member_entries m) ;; unindent ;; writeWithIndent (bytes "}"))) by (by destruct m).
  rewrite E. clear E. apply runs_open; [done|done|]. intros s2 w Hw D2 I2 A2 _. wp_step.
  eapply runs_object_lines; [done|done|by apply grown_nil|rewrite I2; apply Forall_app; split; [done|apply indentation_spaces]|].
  intros s3 ts Hts [G1 G2 G3]. apply (runs_close _ (sw_indentString s)); [by rewrite G2|done|done|].
  intros s4 w2 Hw2 D4 I4 A4. apply (HQ _ (w ++ bytes "{" ++ commas ts ++ w2 ++ bytes "}")).
  - apply padded_spaces, json_padded; [done|]. apply jt_object, join_members; [by destruct m|done|done].
  - split; [|by rewrite I4|done]. by rewrite D4, G1, D2, <-!app_assoc.
Qed.

(** *** Values *)
Lemma pick_child {K} (lt : K -> K -> bool) k (m : list (K * Value)) :
  pick lt (map (fun p => match p with (i, x) => (i, (x, styled_value x)) end) m) k =
  (default Value_null (map_find lt k m), styled_value (default Value_null (map_find lt k m))).
Proof. unfold pick. induction m as [|[k' x] m IH]; cbn; [done|]. by destruct (lt k' k), (lt k k'). Qed.

Lemma styled_children size m :
  map (pick Z.ltb (map (fun p => match p with (i, x) => (i, (x, styled_value x)) end) m)) (seqZ 0 size) = entries (elements size m).
Proof. unfold entries, elements. rewrite map_map. apply map_ext. intros i. apply pick_child. Qed.

Lemma styled_members m :
  sorted_keys str_ltb m -> Forall (fun p => c_string p.1) m ->
  map (fun name => (name, pick str_ltb (map (fun p => match p with (k, x) => (k, (x, styled_value x)) end) m) (c_text name))) m.*1 =
  member_entries m.
Proof.
  intros Hs Hc. unfold member_entries. rewrite <-(map_members (fun k x => (k, (x, styled_value x)))) by done.
  apply map_ext. intros k. f_equal. apply pick_child.
Qed.

Lemma styled_simple v : comments_ v = no_comments -> simple v -> value_ok v -> printable v -> styled_spec v.
Proof.
  intros Hc Hs Hok Hp. destruct (scalar_normal v Hs Hok Hp) as (t & Et & Ht).
  assert (E : styled_value v = pushValue t) by (destruct v as [c d]; cbn in Et; by destruct d; cbn [styled_value]; try done; rewrite Et).
  split; [done|]. split.
  - intros s Q Ha Hi HQ. rewrite E. unfold pushValue. wp_step. rewrite Ha. apply (HQ _ t); [by apply json_padded|by split].
  - intros _ s Q Ha HQ. rewrite E. unfold pushValue. wp_step. rewrite Ha. by apply HQ.
Qed.

Lemma Value_size_nonneg v : 0 <= Value_size v.
Proof.
  unfold Value_size. destruct (value_ v) as [|n|n|d|s|b|m|m]; try lia; [destruct (last m) as [[i x]|]; [|lia]|];
    apply Z.mod_pos_bound; lia.
Qed.

Lemma styled_array m :
  Forall styled_spec (elements (Value_size (Val no_comments (arrayValue m))) m) -> Value_size (Val no_comments (arrayValue m)) * 3 < 2 ^ 31 ->
  styled_spec (Val no_comments (arrayValue m)).
Proof.
  set (v := Val no_comments (arrayValue m)). intros Hm Hs. pose proof (Value_size_nonneg v) as Hn.
  assert (E : styled_value v = writeArrayValue (Value_size v) (entries (elements (Value_size v) m)))
    by (unfold v; cbn [styled_value]; by rewrite styled_children).
  assert (En : normal v = array_of (map normal (elements (Value_size v) m))) by (unfold v; cbn [normal]; by rewrite elements_normal).
  split; [done|]. split.
  - intros s Q Ha Hi HQ. rewrite E. apply runs_array; [done| |done|done|done|by rewrite <-En].
    unfold elements, zlen. rewrite length_map, length_seqZ. lia.
  - intros Hsh s Q Ha HQ. change ((0 <? Value_size v) = false) in Hsh. apply Z.ltb_ge in Hsh.
    assert (Ez : Value_size v = 0) by lia. rewrite E. rewrite Ez in En |- *. unfold writeArrayValue. cbn.
    unfold pushValue. wp_step. rewrite Ha. apply (HQ (bytes "[]")). rewrite En. apply (jt_empty_array [] spaces_nil).
Qed.

Lemma styled_object m :
  sorted_keys str_ltb m -> Forall (fun p => c_string p.1) m -> Forall (fun p => styled_spec p.2) m -> zlen m < 2 ^ 32 ->
  styled_spec (Val no_comments (objectValue m)).
Proof.
  intros Hs Hk Hm Hz. set (v := Val no_comments (objectValue m)).
  assert (E : styled_value v = writeObjectValue (member_entries m)) by (unfold v; cbn [styled_value]; by rewrite styled_members).
  assert (En : normal v = object_of (map normal_member m)) by (unfold v; cbn [normal]; by rewrite <-object_normal).
  split; [done|]. split.
  - intros s Q Ha Hi HQ. rewrite E. apply runs_object; [done|done|done|done|by rewrite <-En].
  - intros Hsh s Q Ha HQ. change ((0 <? Value_size v) = false) in Hsh.
    assert (Ez : Value_size v = zlen m) by (apply uwrap_small; unfold zlen in *; lia).
    rewrite Ez in Hsh. apply Z.ltb_ge in Hsh. assert (m = []) as -> by (destruct m; [done|rewrite zlen_cons in Hsh; unfold zlen in Hsh; lia]).
    rewrite E. cbn. unfold pushValue. wp_step. rewrite Ha. apply (HQ (bytes "{}")). apply (jt_empty_object [] spaces_nil).
Qed.

Lemma styled_text v : value_ok v -> printable v -> plain v -> styled_spec v.
Proof.
  induction v as [c d IH] using Value_deep_ind. intros Hok Hp [Ec Hpl].
  assert (Hc : forall {K} (m : list (K * Value)),
    Forall (fun p => value_ok p.2 -> printable p.2 -> plain p.2 -> styled_spec p.2) m ->
    foldr and True (map (fun p => match p with (_, x) => value_ok x end) m) ->
    foldr and True (map (fun p => match p with (_, x) => printable x end) m) ->
    foldr and True (map (fun p => match p with (_, x) => plain x end) m) -> Forall (fun p => styled_spec p.2) m).
  { intros K m H H1%foldr_and_forall H2%foldr_and_forall H3%foldr_and_forall. rewrite Forall_forall in *. auto. }
  subst c. destruct d; try (by apply styled_simple).
  - destruct Hok as (_ & _ & Hok). destruct Hp as [_ Hp], Hpl as [Hz Hpl]. apply styled_array; [|done].
    apply elements_forall; [|by apply Hc]. by apply styled_simple.
  - destruct Hok as (H1 & H2 & Hok). destruct Hpl as [Hz Hpl]. apply styled_object; [done|done|by apply Hc|done].
Qed.

(** The whole document, with the line end behind it. *)
Lemma styled_document out v :
  value_ok v -> printable v -> plain v ->
  exists w t w', write_document out v = inl (out ++ w ++ t ++ w') /\ spaces w /\ json_text (normal v) t /\ spaces w'.
Proof.
  intros Hok Hp Hpl. destruct (styled_text v Hok Hp Hpl) as (Hc & Hv & _).
  assert (H : runs (writeCommentBeforeValue v ;; styled_value v ;; writeCommentAfterValueOnSameLine v ;; sw_emit [LF]) (mk_styled out [] [] false)
    (fun _ s => exists t, padded (normal v) t /\ sw_document s = out ++ t ++ [LF])).
  { wp_step. apply runs_commentBefore; [done|]. wp_step. apply Hv; [done|apply spaces_nil|]. intros s t Ht [G1 G2 G3].
    wp_step. apply runs_commentAfter; [done|]. apply runs_sw_emit. exists t. split; [done|]. cbn. by rewrite G1, <-app_assoc. }
  apply wp_run in H as ([] & s & E & t & (w & t' & Hw & Ht & ->) & Ed). exists w, t', [LF].
  unfold write_document. rewrite E, Ed, <-app_assoc. split; [done|]. split; [done|]. split; [done|]. by apply Forall_singleton.
Qed.
End Styled.
