(* ===== verification/JsonTyping.v ===== *)
(** * JsonTyping: what the reader builds is well formed

    Whatever the document, and whether or not it is accepted: keys ascending and without
    NUL, strings of bytes without NUL, integers in their width. *)
From stdpp Require Import base list.
From S2P Require Import Prelude Control Streams JsonValue JsonWriter JsonReader JsonPaths JsonSafety JsonText.

(** ** Containers *)
Section Maps.
Context {K : Type} (lt : K -> K -> bool) `{!KeyOrder lt} {D : Doubles}.

Lemma sorted_map_alter k f (m : list (K * Value)) : sorted_keys lt m -> sorted_keys lt (map_alter lt k f m).
Proof.
  induction m as [|[k1 x1] m IH]; cbn; [done|]. intros [H1 Hs].
  destruct (lt k1 k) eqn:E1; cbn.
  - split; [|by apply IH]. destruct m as [|[k2 x2] m]; cbn; [done|]. destruct (lt k2 k); [done|]. by destruct (lt k k2).
  - destruct (lt k k1) eqn:E2; cbn; [done|]. by split.
Qed.

Lemma keys_map_alter (P : K -> Prop) k f (m : list (K * Value)) :
  P k -> Forall (fun p => P p.1) m -> Forall (fun p => P p.1) (map_alter lt k f m).
Proof.
  intros Hk H. induction H as [|[k1 x1] m H1 Hm IH]; cbn; [by constructor|].
  destruct (lt k1 k); [by constructor|]. destruct (lt k k1); by repeat constructor.
Qed.

Lemma values_map_alter (P : Value -> Prop) k f (m : list (K * Value)) :
  (forall x, P x -> P (f x)) -> P Value_null ->
  foldr and True (map (fun p => match p with (_, x) => P x end) m) ->
  foldr and True (map (fun p => match p with (_, x) => P x end) (map_alter lt k f m)).
Proof.
  intros Hf H0. induction m as [|[k1 x1] m IH]; cbn; [auto|]. intros [H1 Hm].
  destruct (lt k1 k); cbn; [auto|]. destruct (lt k k1); cbn; auto.
Qed.

Lemma values_map_find (P : Value -> Prop) k x (m : list (K * Value)) :
  foldr and True (map (fun p => match p with (_, x) => P x end) m) -> map_find lt k m = Some x -> P x.
Proof.
  induction m as [|[k1 x1] m IH]; cbn; [done|]. intros [H1 Hm]. destruct (lt k1 k); [auto|]. by destruct (lt k k1); [|intros [= <-]].
Qed.
End Maps.

Section Typing.
Context {D : Doubles}.

Definition step_wf (s : step) : Prop := match s with Idx i => 0 <= i | Key k => c_string k end.

Lemma value_ok_null : value_ok Value_null.
Proof. done. Qed.

Lemma value_ok_step s f v : step_wf s -> (forall x, value_ok x -> value_ok (f x)) -> value_ok v -> value_ok (step_alter s f v).
Proof.
  intros Hs Hf Hv. destruct v as [c d], s as [i|k]; destruct d; try done; destruct Hv as (H1 & H2 & H3); cbn.
  - split; [by apply sorted_map_alter|]. split; [by apply (keys_map_alter _ (fun i => 0 <= i))|].
    by apply values_map_alter.
  - split; [by apply sorted_map_alter|]. split; [by apply (keys_map_alter _ c_string)|].
    by apply values_map_alter.
Qed.

Lemma value_ok_path p f v :
  Forall step_wf p -> (forall x, value_ok x -> value_ok (f x)) -> value_ok v -> value_ok (path_alter p f v).
Proof.
  intros Hp Hf. revert v. induction Hp as [|s p Hs _ IH]; intros v Hv; cbn; [by apply Hf|]. by apply value_ok_step.
Qed.

Lemma value_ok_lookup p v x : value_ok v -> path_lookup p v = Some x -> value_ok x.
Proof.
  revert v. induction p as [|s p IH]; intros v Hv; cbn; [by intros [= <-]|].
  destruct (step_lookup s v) as [y|] eqn:E; [|done]. apply IH.
  destruct v as [c d], s, d; try done; destruct Hv as (_ & _ & Hv); cbn in E; by eapply values_map_find.
Qed.

Lemma value_ok_assign v x : value_ok v -> value_ok (assign v x).
Proof. by destruct v. Qed.

Lemma c_text_string k : is_buf k -> c_string (c_text k).
Proof.
  unfold c_string. induction 1 as [|c k Hc _ [IH1 IH2]]; cbn; [split; [constructor|apply not_elem_of_nil]|].
  destruct (Z.eqb_spec c 0); [split; [constructor|apply not_elem_of_nil]|]. split; [by constructor|]. rewrite not_elem_of_cons. auto.
Qed.

Lemma value_ok_string k : is_buf k -> value_ok (of_string k).
Proof. apply c_text_string. Qed.

(** [v[ s ]] as the reader uses it. *)
Lemma value_ok_child s v y :
  match s with Idx i => 0 <= i | Key k => is_buf k end -> value_ok v ->
  match s with Idx i => alter_index i id v | Key k => alter_member k id v end = inl y -> value_ok y.
Proof.
  intros Hs Hv. destruct s as [i|k].
  - unfold alter_index, JSON_ASSERT. destruct (isArray v); [|done]. intros [= <-]. destruct v as [c d].
    destruct d; try (by cbn; repeat constructor); try (by apply (value_ok_step (Idx i) id (Val c (arrayValue [])))).
    by apply (value_ok_step (Idx i) id (Val c (arrayValue m))).
  - unfold alter_member, JSON_ASSERT. destruct (isObject v); [|done]. intros [= <-]. destruct v as [c d].
    pose proof (c_text_string k Hs) as Hk.
    destruct d; try (by apply (value_ok_step (Key (c_text k)) id (Val c (objectValue [])))).
    by apply (value_ok_step (Key (c_text k)) id (Val c (objectValue m))).
Qed.

(** ** The reader *)
Implicit Types (r : Reader).

Record typed r : Prop := {
  ty_current : is_buf (rd_current r);
  ty_root : value_ok (rd_root r);
  ty_nodes : Forall (Forall step_wf) (rd_nodes r);
  ty_last p : rd_lastValue r = Some p -> Forall step_wf p;
}.

(** A step that keeps the state typed, if it returns, and what it returns. *)
Definition keeps {A} (m : Ctl json_stop Reader A) (P : A -> Prop) : Prop :=
  forall r, typed r -> wp m r (fun a r' => typed r' /\ P a) (fun _ _ => True).

Abbreviation any := (fun _ => True).

Lemma typed_bind {A B} (m : Ctl json_stop Reader A) (f : A -> Ctl json_stop Reader B) P Q :
  keeps m P -> (forall a, P a -> keeps (f a) Q) -> keeps (m ≫= f) Q.
Proof.
  intros Hm Hf r Hr. wp_step. eapply wp_mono; [|exact (fun _ _ H => H)|exact (Hm r Hr)]. intros a r' [Hr' Ha]. by apply Hf.
Qed.

Lemma keeps_weaken {A} (m : Ctl json_stop Reader A) (P Q : A -> Prop) : keeps m P -> (forall a, P a -> Q a) -> keeps m Q.
Proof. intros Hm HQ r Hr. eapply wp_mono; [|exact (fun _ _ H => H)|exact (Hm r Hr)]. intros a r' [? ?]. auto. Qed.

Lemma keeps_ret {A} (a : A) (P : A -> Prop) : P a -> keeps (mret a) P.
Proof. intros Ha r Hr. by wp_step. Qed.

Lemma keeps_exit {A} e (P : A -> Prop) : keeps (exit e) P.
Proof. intros r Hr. by wp_step. Qed.

Lemma keeps_gets {A} (f : Reader -> A) (P : A -> Prop) : (forall r, typed r -> P (f r)) -> keeps (gets f) P.
Proof. intros Hf r Hr. wp_step. auto. Qed.

Lemma keeps_gets_bind {A B} (f : Reader -> A) (k : A -> Ctl json_stop Reader B) Q :
  (forall r, typed r -> keeps (k (f r)) Q) -> keeps (gets f ≫= k) Q.
Proof. intros Hk r Hr. do 2 wp_step. by apply (Hk r Hr). Qed.

Lemma keeps_modify f : (forall r, typed r -> typed (f r)) -> keeps (modify f) any.
Proof. intros Hf r Hr. wp_step. auto. Qed.

Lemma keeps_if {A} (b : bool) (m k : Ctl json_stop Reader A) P : keeps m P -> keeps k P -> keeps (if b then m else k) P.
Proof. by destruct b. Qed.

Lemma keeps_when (b : bool) m : keeps m any -> keeps (when b m) any.
Proof. destruct b; [done|]. intros _. by apply keeps_ret. Qed.

(** States that differ in the rest. *)
Lemma typed_current l r : is_buf l -> typed r -> typed (set_current l r).
Proof. intros Hl [H1 H2 H3 H4]. by split. Qed.
Lemma typed_root v r : value_ok v -> typed r -> typed (set_root v r).
Proof. intros Hl [H1 H2 H3 H4]. by split. Qed.
Lemma typed_nodes n r : Forall (Forall step_wf) n -> typed r -> typed (set_nodes n r).
Proof. intros Hl [H1 H2 H3 H4]. by split. Qed.
Lemma typed_last e p r : Forall step_wf p -> typed r -> typed (set_lastValue e (Some p) r).
Proof. intros Hl [H1 H2 H3 H4]. split; try done. by intros q [= <-]. Qed.
Lemma typed_errors e r : typed r -> typed (set_errors e r).
Proof. intros [H1 H2 H3 H4]. by split. Qed.
Lemma typed_before t r : typed r -> typed (set_commentsBefore t r).
Proof. intros [H1 H2 H3 H4]. by split. Qed.

Lemma is_buf_skip f l : is_buf l -> is_buf (skip_while f l).
Proof. induction 1 as [|c l Hc Hl IH]; cbn; [constructor|]. destruct (f c); [done|by constructor]. Qed.

Lemma is_buf_c_style l : is_buf l -> is_buf (c_style_end l).
Proof. induction 1 as [|c l Hc Hl IH]; cbn; [constructor|]. by destruct (_ && _). Qed.

Lemma is_buf_cpp_style l : is_buf l -> is_buf (cpp_style_end l).
Proof. induction 1 as [|c l Hc Hl IH]; cbn; [constructor|]. by destruct (_ || _). Qed.

Lemma is_buf_string_end c l : is_buf l -> is_buf (string_end c l).2.
Proof.
  remember (length l) as n eqn:E. assert (Hn : (length l <= n)%nat) by lia. clear E. revert c l Hn.
  induction n as [|n IH]; intros c [|d l] Hn H; cbn in *; try constructor; try lia.
  apply Forall_cons in H as [Hd H]. destruct (d =? BACKSLASH).
  - destruct l as [|e l]; cbn in *; [constructor|]. apply Forall_cons in H as [_ H]. apply IH; [lia|done].
  - destruct (d =? QUOTE); [done|]. apply IH; [lia|done].
Qed.
End Typing.

Create HintDb typed.
#[export] Hint Resolve typed_current typed_root typed_nodes typed_last typed_errors typed_before is_buf_skip is_buf_c_style
  is_buf_cpp_style value_ok_path value_ok_assign ty_current ty_root ty_nodes : typed.

(** One step along the syntax of an operation; what is called in it comes from [keeping]. *)
Create HintDb keeping.
Ltac keep_step :=
  lazymatch goal with
  | |- keeps (gets _ ≫= _) _ => apply keeps_gets_bind; intros ? ?
  | |- keeps (_ ≫= _) _ =>
      first [eapply typed_bind; [solve [eauto 3 with keeping]|intros ? ?] | apply (typed_bind _ _ (fun _ => True)); [|intros ? _]]
  | |- keeps (mret _) _ => apply keeps_ret
  | |- keeps (exit _) _ => apply keeps_exit
  | |- keeps (modify _) _ => apply keeps_modify; intros ? ?
  | |- keeps (when _ _) _ => apply keeps_when
  | |- keeps (if _ then _ else _) _ => apply keeps_if
  | |- keeps (match ?x with _ => _ end) _ => destruct x eqn:?
  | |- keeps _ _ => solve [eauto 3 with keeping]
  end.
Ltac keep := repeat keep_step; eauto with typed.

Section Reading.
Context {D : Doubles} (allowComments_ strictRoot_ collectComments_ : bool).
Implicit Types (r : Reader).
Abbreviation any := (fun _ => True).

Lemma keeps_change_at p (f : Value -> Js Value) :
  Forall step_wf p -> (forall x y, value_ok x -> f x = inl y -> value_ok y) -> keeps (change_at p f) any.
Proof.
  intros Hp Hf. unfold change_at. keep_step. destruct (path_lookup p (rd_root r)) as [x|] eqn:E; [|keep].
  assert (Hx : value_ok x) by (eapply value_ok_lookup; [apply ty_root; eassumption|done]).
  destruct (f x) as [y|e] eqn:Ey; cbn [lift]; [|apply (typed_bind _ _ (fun _ => False)); [apply keeps_exit|done]].
  eapply (typed_bind _ _ (fun v => v = y)); [by apply keeps_ret|]. intros v ->. keep.
Qed.

Lemma keeps_current_path : keeps current_path (Forall step_wf).
Proof.
  unfold current_path. keep_step. pose proof (ty_nodes _ ltac:(eassumption)) as Hn.
  destruct (rd_nodes r) as [|p ns]; keep. by apply Forall_cons in Hn as [? _].
Qed.

Lemma keeps_change_current (f : Value -> Js Value) :
  (forall x y, value_ok x -> f x = inl y -> value_ok y) -> keeps (change_current f) any.
Proof. intros Hf. unfold change_current. eapply typed_bind; [apply keeps_current_path|]. intros p Hp. by apply keeps_change_at. Qed.

Lemma keeps_assign v : value_ok v -> keeps (assign_current v) any.
Proof. intros Hv. apply keeps_change_current. intros x y _ [= <-]. by apply value_ok_assign. Qed.

Lemma value_ok_setComment text k x y : value_ok x -> setComment text k x = inl y -> value_ok y.
Proof.
  intros Hx. unfold setComment, JSON_ASSERT_MESSAGE. destruct (match c_text text with [] => true | c :: _ => c =? chr "/" end); [|done].
  intros [= <-]. destruct x as [c d]. by destruct k.
Qed.

Lemma keeps_push_child s : match s with Idx i => 0 <= i | Key k => is_buf k end -> keeps (push_child s) any.
Proof.
  intros Hs. unfold push_child. eapply typed_bind; [apply keeps_change_current; intros x y; by apply value_ok_child|]. intros _ _.
  eapply typed_bind; [apply keeps_current_path|]. intros p Hp. apply keeps_modify. intros r Hr. apply typed_nodes; [|done].
  constructor; [|by apply ty_nodes]. apply Forall_app. split; [done|]. constructor; [|done].
  destruct s as [i|k]; [done|by apply c_text_string].
Qed.

Lemma keeps_push_key k : is_buf k -> keeps (push_child (Key k)) any.
Proof. apply (keeps_push_child (Key k)). Qed.

Lemma keeps_pop_node : keeps pop_node any.
Proof. apply keeps_modify. intros r Hr. apply typed_nodes; [|done]. pose proof (ty_nodes _ Hr) as Hn. by destruct Hn. Qed.

Lemma keeps_getNextChar : keeps getNextChar any.
Proof.
  unfold getNextChar. keep_step. pose proof (ty_current _ ltac:(eassumption)) as Hc.
  destruct (rd_current r) as [|c l]; keep. apply Forall_cons in Hc as [_ Hc]. by apply typed_current.
Qed.

Lemma keeps_skipSpaces : keeps skipSpaces any.
Proof. unfold skipSpaces. keep. Qed.

Lemma keeps_match_text t : keeps (match_text t) any.
Proof. unfold match_text. keep. apply typed_current; [|done]. apply Forall_drop. by apply ty_current. Qed.

Lemma keeps_addError message token extra : keeps (addError message token extra) any.
Proof. unfold addError. keep. Qed.

Lemma keeps_rd_assert b : keeps (rd_assert b) any.
Proof. unfold rd_assert. keep. Qed.
#[local] Hint Resolve keeps_rd_assert keeps_push_key keeps_getNextChar keeps_skipSpaces keeps_match_text keeps_addError keeps_pop_node : keeping.

Lemma keeps_addComment b e sameLine : keeps (addComment collectComments_ b e sameLine) any.
Proof.
  unfold addComment. keep. apply keeps_change_at; [by eapply ty_last|]. intros x y. apply value_ok_setComment.
Qed.
#[local] Hint Resolve keeps_addComment : keeping.

Lemma keeps_readComment b : keeps (readComment collectComments_ b) any.
Proof. unfold readComment, readCStyleComment, readCppStyleComment. keep. Qed.
#[local] Hint Resolve keeps_readComment : keeping.

Lemma keeps_token_kind start c : keeps (token_kind collectComments_ start c) any.
Proof.
  unfold token_kind, readString, readNumber. keep.
  pose proof (is_buf_string_end 0 (rd_current r) ltac:(by apply ty_current)) as Hs.
  match goal with E : string_end _ _ = _ |- _ => rewrite E in Hs end. by apply typed_current.
Qed.
#[local] Hint Resolve keeps_token_kind : keeping.

Definition token_typed (t : Token) : Prop := is_buf (tk_start t).

Lemma keeps_readToken : keeps (readToken collectComments_) token_typed.
Proof. unfold readToken. keep. unfold token_typed. cbn. eauto with typed. Qed.
#[local] Hint Resolve keeps_readToken : keeping.

Lemma keeps_skip_comments n token : token_typed token -> keeps (skip_comments collectComments_ n token) token_typed.
Proof.
  revert token. induction n as [|n IH]; intros token Ht; cbn [skip_comments]; destruct (tk_type token); keep.
Qed.

Lemma keeps_skipComments token : token_typed token -> keeps (skipComments collectComments_ token) token_typed.
Proof. intros Ht. unfold skipComments. keep_step. by apply keeps_skip_comments. Qed.
#[local] Hint Resolve keeps_skipComments : keeping.

Lemma keeps_skipCommentTokens : keeps (skipCommentTokens allowComments_ collectComments_) token_typed.
Proof. unfold skipCommentTokens. keep. Qed.
#[local] Hint Resolve keeps_skipCommentTokens : keeping.

Lemma keeps_recover_loop n skip : keeps (recover_loop collectComments_ n skip) any.
Proof. induction n as [|n IH]; cbn [recover_loop]; keep. Qed.
#[local] Hint Resolve keeps_recover_loop : keeping.

Lemma keeps_recoverFromError skip : keeps (recoverFromError collectComments_ skip) any.
Proof. unfold recoverFromError. keep. Qed.
#[local] Hint Resolve keeps_recoverFromError : keeping.

Lemma keeps_addErrorAndRecover m t skip : keeps (addErrorAndRecover collectComments_ m t skip) any.
Proof. unfold addErrorAndRecover. keep. Qed.
#[local] Hint Resolve keeps_addErrorAndRecover keeps_assign : keeping.
#[local] Hint Extern 1 (value_ok _) => solve [exact I | by repeat constructor] : keeping.

(** *** Numbers and strings *)
Lemma decode_digits_range t d l value v :
  0 <= value < 2 ^ 64 -> decode_digits t d l value = Digits_value v -> 0 <= v < 2 ^ 64.
Proof.
  revert value. induction l as [|c l IH]; intros value Hv; cbn [decode_digits]; [by intros [= <-]|].
  destruct (negb _); [done|]. cbv zeta. destruct (_ && _); [done|]. apply IH, uwrap_range. lia.
Qed.

Lemma s64_range z : minInt64 <= s64 z <= maxInt64.
Proof. unfold s64, minInt64, maxInt64. pose proof (uwrap_range 64 (z + 2 ^ 63) ltac:(lia)). lia. Qed.

Lemma keeps_decodeDouble token : keeps (decodeDouble token) any.
Proof. unfold decodeDouble. keep. Qed.
#[local] Hint Resolve keeps_decodeDouble : keeping.

Lemma keeps_decodeNumber token : keeps (decodeNumber token) any.
Proof.
  unfold decodeNumber. apply keeps_if; [apply keeps_decodeDouble|]. cbv zeta.
  destruct (decode_digits _ _ _ _) as [v| |] eqn:E; [|keep..].
  apply decode_digits_range in E; [|lia]. eapply typed_bind; [|intros; by apply keeps_ret]. apply keeps_assign.
  destruct (deref _ =? _); [apply s64_range|]. destruct (Z.leb_spec v maxInt); cbn; unfold minInt64, maxInt64, maxInt, maxUInt64 in *; lia.
Qed.

Lemma lor_byte a b : is_byte a -> is_byte b -> is_byte (Z.lor a b).
Proof.
  unfold is_byte. intros Ha Hb. assert (0 <= Z.lor a b) by (apply Z.lor_nonneg; lia). split; [done|].
  destruct (decide (Z.lor a b = 0)) as [->|]; [lia|]. apply (Z.log2_lt_pow2 _ 8); [lia|]. rewrite Z.log2_lor by lia.
  apply Z.max_lub_lt; [destruct (decide (a = 0)) as [->|]|destruct (decide (b = 0)) as [->|]]; try (cbn; lia); apply Z.log2_lt_pow2; lia.
Qed.

Lemma land_byte a b : is_byte a -> is_byte (Z.land a b).
Proof.
  unfold is_byte. intros Ha. assert (0 <= Z.land a b) by (apply Z.land_nonneg; lia). split; [done|].
  assert (E : Z.land a (Z.ones 8) = a) by (rewrite Z.land_ones by lia; by apply Z.mod_small).
  rewrite <-E, <-Z.land_assoc, (Z.land_comm (Z.ones 8)), Z.land_assoc, Z.land_ones by lia. apply Z.mod_pos_bound. lia.
Qed.

Lemma is_buf_codePoint cp : 0 <= cp -> is_buf (codePointToUTF8 cp).
Proof.
  intros H. unfold codePointToUTF8. destruct (Z.leb_spec cp 127); [repeat constructor; lia|].
  repeat (match goal with |- context [if ?b then _ else _] => destruct b end;
    [repeat constructor; try (apply lor_byte; [unfold is_byte; lia|apply land_byte; unfold is_byte; lia])|]).
  constructor.
Qed.

Lemma hex_digits_typed k l u v t : is_buf l -> 0 <= u -> hex_digits k l u = inl (v, t) -> is_buf t /\ 0 <= v.
Proof.
  revert l u. induction k as [|k IH]; intros [|c l] u Hl Hu; cbn; try done; try by intros [= <- <-].
  apply Forall_cons in Hl as [Hc Hl]. destruct (hex_value c) as [d|] eqn:E; [|done]. apply IH; [done|].
  assert (0 <= d); [|lia]. unfold hex_value, is_digit in E. cbn in E.
  repeat (match type of E with context [if ?b then _ else _] => destruct b eqn:? end); try done; injection E as <-; lia.
Qed.

Lemma decodeUnicode_typed l v t : is_buf l -> decodeUnicodeEscapeSequence l = inl (v, t) -> is_buf t /\ 0 <= v.
Proof. unfold decodeUnicodeEscapeSequence. intros Hl. destruct (_ <? _); [done|]. by apply hex_digits_typed. Qed.

Lemma decodeCodePoint_typed l v t : is_buf l -> decodeUnicodeCodePoint l = inl (v, t) -> is_buf t /\ 0 <= v.
Proof.
  intros Hl. unfold decodeUnicodeCodePoint. destruct (decodeUnicodeEscapeSequence l) as [[u l1]|e] eqn:E1; [|done].
  destruct (decodeUnicode_typed _ _ _ Hl E1) as [H1 Hu]. destruct (_ && _); [|by intros [= <- <-]].
  destruct (_ <? _); [done|]. destruct l1 as [|c [|c' l2]]; try done.
  destruct (negb _); [done|]. destruct (negb _); [done|]. do 2 apply Forall_cons in H1 as [_ H1].
  destruct (decodeUnicodeEscapeSequence l2) as [[u2 l3]|e] eqn:E2; [|done].
  destruct (decodeUnicode_typed _ _ _ H1 E2) as [H3 Hu2]. intros [= <- <-]. split; [done|].
  assert (0 <= Z.shiftl (Z.land u 1023) 10) by (apply Z.shiftl_nonneg, Z.land_nonneg; lia).
  assert (0 <= Z.land u2 1023) by (apply Z.land_nonneg; lia). lia.
Qed.

Lemma decode_chars_typed n l acc s t : is_buf l -> is_buf acc -> decode_chars n l acc = inl (s, t) -> is_buf s.
Proof.
  revert l acc. induction n as [|n IH]; intros l acc Hl Ha; cbn [decode_chars]; [by intros [= <- _]|].
  destruct l as [|c l]; [by intros [= <- _]|]. apply Forall_cons in Hl as [Hc Hl].
  destruct (_ =? _); [by intros [= <- _]|]. destruct (_ =? _); [|apply IH; [done|apply Forall_app; by split; [|constructor]]].
  destruct l as [|e l]; [done|]. apply Forall_cons in Hl as [He Hl].
  destruct (simple_escape e) as [d|] eqn:Es.
  - apply IH; [done|]. apply Forall_app. split; [done|]. constructor; [|done]. unfold simple_escape in Es. cbn in Es.
    repeat (match type of Es with context [if ?b then _ else _] => destruct b end); try done; injection Es as <-; unfold is_byte, QUOTE, BACKSLASH; lia.
  - destruct (_ =? _); [|done]. destruct (decodeUnicodeCodePoint l) as [[u l2]|err] eqn:E; [|done].
    destruct (decodeCodePoint_typed _ _ _ Hl E) as [Hl2 Hu]. apply IH; [done|]. apply Forall_app. split; [done|by apply is_buf_codePoint].
Qed.

Lemma keeps_decodeString token : token_typed token -> keeps (decodeString token) (fun o => match o with Some s => is_buf s | None => True end).
Proof.
  intros Ht. unfold decodeString. cbv zeta. destruct (decode_chars _ _ _) as [[s rest]|[msg at_]] eqn:E.
  - apply keeps_ret. eapply decode_chars_typed; [|by apply Forall_nil_2|exact E].
    unfold string_body. cbv zeta. unfold slice, text_between. apply Forall_take, Forall_drop, Forall_take, Ht.
  - eapply typed_bind; [apply keeps_addError|]. intros _ _. by apply keeps_ret.
Qed.
#[local] Hint Resolve keeps_decodeNumber keeps_decodeString : keeping.

Lemma keeps_decodeStringValue token : token_typed token -> keeps (decodeStringValue token) any.
Proof.
  intros Ht. unfold decodeStringValue. eapply typed_bind; [by apply keeps_decodeString|]. intros [s|] Hs; [|by apply keeps_ret].
  eapply typed_bind; [apply keeps_assign; by apply value_ok_string|]. intros _ _. by apply keeps_ret.
Qed.
#[local] Hint Resolve keeps_decodeStringValue : keeping.

(** *** Values *)
Section Loops.
Variable rv : Ctl json_stop Reader bool.
Hypothesis rv_keeps : keeps rv any.
#[local] Hint Resolve rv_keeps : keeping.

Lemma keeps_array_loop k i : 0 <= i -> keeps (array_loop collectComments_ rv k i) any.
Proof.
  revert i. induction k as [|k IH]; intros i Hi; cbn [array_loop]; [apply keeps_exit|].
  eapply typed_bind; [by apply keeps_push_child|]. intros _ _. keep. apply IH. lia.
Qed.

Lemma keeps_object_loop k name : keeps (object_loop collectComments_ rv k name) any.
Proof.
  revert name. induction k as [|k IH]; intros name; cbn [object_loop]; [apply keeps_exit|].
  keep.
Qed.
End Loops.
#[local] Hint Resolve keeps_array_loop keeps_object_loop : keeping.
#[local] Hint Extern 1 (0 <= _) => lia : keeping.

Lemma keeps_readValue n : keeps (readValue allowComments_ collectComments_ n) any.
Proof.
  induction n as [|n IH]; cbn [readValue]; [apply keeps_exit|]. unfold read_value_body.
  eapply typed_bind; [apply keeps_skipCommentTokens|]. intros token Ht. keep_step. eapply (typed_bind _ _ any).
  - apply keeps_when. eapply typed_bind; [apply keeps_change_current; intros x y; apply value_ok_setComment|]. intros _ _. keep.
  - intros _ _. eapply (typed_bind _ _ any).
    + unfold read_token_value, readObject, readArray.
      destruct (tk_type token); keep.
    + intros [ok|] _; [|by apply keeps_ret]. eapply (typed_bind _ _ any); [|intros; by apply keeps_ret]. apply keeps_when.
      eapply typed_bind; [apply keeps_current_path|]. intros p Hp. apply keeps_modify. intros r2 Hr2. by apply typed_last.
Qed.

(** Every document that the reader returns from leaves a well-formed tree. *)
Lemma parse_typed document root ok v errors :
  is_buf document -> value_ok root ->
  parse_document allowComments_ strictRoot_ collectComments_ document root = inl (ok, v, errors) -> value_ok v.
Proof.
  intros Hd Hr. unfold parse_document. set (r0 := mk_reader _ _ _ _ _ _ _).
  assert (H0 : typed r0) by (split; cbn; [done|done|by repeat constructor|done]).
  assert (Hk : keeps (parse_body allowComments_ strictRoot_ collectComments_ document) any).
  { unfold parse_body. eapply (typed_bind _ _ any); [apply keeps_readValue|]. intros s _.
    eapply typed_bind; [apply keeps_skipCommentTokens|]. intros token Ht. keep_step. eapply (typed_bind _ _ any).
    - apply keeps_when, keeps_change_at; [constructor|]. intros x y. apply value_ok_setComment.
    - intros _ _. keep. }
  specialize (Hk r0 H0). destruct (parse_body _ _ _ _ r0) as [[b r]|[e r]] eqn:E; [|done]. intros [= _ <- _].
  apply (wp_inl _ _ _ _ _ _ E) in Hk. apply Hk.
Qed.
End Reading.
