(* ===== verification/JsonProps.v ===== *)
(** * JsonProps: what jsoncpp guarantees *)
From stdpp Require Import base list.
From S2P Require Import Prelude Control Streams JsonValue JsonWriter JsonReader JsonPaths JsonSafety JsonText JsonTrip JsonStyled JsonTyping.

(** [double]s that are integers, for the examples. *)
Definition integral_doubles : Doubles := {|
  double := Z;
  double_of_Z := id;
  double_le := Z.leb;
  double_eq := Z.eqb;
  double_trunc := id;
  scan_double l := Some (dec_value (skip_while (Z.eqb (chr "-")) l));
  print_double := valueToString_int;
|}.

(** The conditions on values, as computations. *)
Section Checks.
Context {D : Doubles}.

Fixpoint sorted_keysb {K V} (lt : K -> K -> bool) (m : list (K * V)) : bool :=
  match m with
  | [] => true
  | (k, _) :: m' => (match m' with (k', _) :: _ => lt k k' | [] => true end) && sorted_keysb lt m'
  end.

Definition c_stringb (s : list Z) : bool := forallb (fun c => (0 <? c) && (c <? 256)) s.

Fixpoint value_okb (v : Value) : bool :=
  match v with
  | Val _ d =>
      match d with
      | nullValue | realValue _ | booleanValue _ => true
      | intValue n => (minInt64 <=? n) && (n <=? maxInt64)
      | uintValue n => (0 <=? n) && (n <=? maxUInt64)
      | stringValue s => match s with Some s => c_stringb s | None => true end
      | arrayValue m => sorted_keysb Z.ltb m && forallb (fun p => 0 <=? p.1) m && forallb (fun p => match p with (_, x) => value_okb x end) m
      | objectValue m => sorted_keysb str_ltb m && forallb (fun p => c_stringb p.1) m && forallb (fun p => match p with (_, x) => value_okb x end) m
      end
  end.

Fixpoint printableb (v : Value) : bool :=
  match v with
  | Val _ d =>
      match d with
      | realValue _ | stringValue None => false
      | arrayValue m => (Value_size v <? 2 ^ 31) && forallb (fun p => match p with (_, x) => printableb x end) m
      | objectValue m => forallb (fun p => match p with (_, x) => printableb x end) m
      | _ => true
      end
  end.

Definition no_commentsb (c : comments) : bool := match c with mk_comments None None None => true | _ => false end.

Fixpoint plainb (v : Value) : bool :=
  match v with
  | Val c d =>
      no_commentsb c &&
      match d with
      | arrayValue m => (Value_size v * 3 <? 2 ^ 31) && forallb (fun p => match p with (_, x) => plainb x end) m
      | objectValue m => (zlen m <? 2 ^ 32) && forallb (fun p => match p with (_, x) => plainb x end) m
      | _ => true
      end
  end.

Lemma sorted_keysb_ok {K V} (lt : K -> K -> bool) (m : list (K * V)) : sorted_keysb lt m = true -> sorted_keys lt m.
Proof.
  induction m as [|[k x] m IH]; cbn; [done|]. intros [H1 H2]%andb_true_iff. split; [|by apply IH]. by destruct m as [|[k2 x2] m].
Qed.

Lemma c_stringb_ok s : c_stringb s = true -> c_string s.
Proof.
  unfold c_stringb, c_string. induction s as [|c s IH]; cbn; [split; [constructor|apply not_elem_of_nil]|].
  intros [H1 H2]%andb_true_iff. apply IH in H2 as [H2 H3]. rewrite not_elem_of_cons. split; [constructor; [unfold is_byte; lia|done]|].
  split; [lia|done].
Qed.

Lemma children_ok {K} (P : Value -> Prop) (f : Value -> bool) (m : list (K * Value)) :
  Forall (fun p => f p.2 = true -> P p.2) m -> forallb (fun p => match p with (_, x) => f x end) m = true ->
  foldr and True (map (fun p => match p with (_, x) => P x end) m).
Proof. induction 1 as [|[k x] m Hx _ IH]; cbn in *; [done|]. intros [H1 H2]%andb_true_iff. auto. Qed.

Lemma forallb_ok {A} (P : A -> Prop) (f : A -> bool) l : (forall x, f x = true -> P x) -> forallb f l = true -> Forall P l.
Proof. intros H. induction l; cbn; [constructor|]. intros [H1 H2]%andb_true_iff. constructor; auto. Qed.

Lemma value_okb_ok v : value_okb v = true -> value_ok v.
Proof.
  induction v as [c d IH] using Value_deep_ind. destruct d as [|n|n|d|[s|]|b|m|m]; cbn; try done.
  - rewrite andb_true_iff. lia.
  - rewrite andb_true_iff. lia.
  - apply c_stringb_ok.
  - rewrite !andb_true_iff. intros [[H1 H2] H3]. split; [by apply sorted_keysb_ok|]. split; [|by eapply children_ok].
    eapply forallb_ok; [|exact H2]. cbn. lia.
  - rewrite !andb_true_iff. intros [[H1 H2] H3]. split; [by apply sorted_keysb_ok|]. split; [|by eapply children_ok].
    eapply forallb_ok; [|exact H2]. intros p. apply c_stringb_ok.
Qed.

Lemma printableb_ok v : printableb v = true -> printable v.
Proof.
  induction v as [c d IH] using Value_deep_ind. cbn [printableb printable]. destruct d as [|n|n|d|[s|]|b|m|m]; try done; [|by apply children_ok].
  intros [H1 H2]%andb_true_iff. split; [lia|by apply (children_ok printable printableb)].
Qed.

Lemma plainb_ok v : plainb v = true -> plain v.
Proof.
  induction v as [c d IH] using Value_deep_ind. cbn [plainb plain]. intros [Hc H]%andb_true_iff.
  split; [by destruct c as [[] [] []]|]. destruct d as [|n|n|d|s|b|m|m]; try done;
    apply andb_true_iff in H as [H1 H2]; (split; [lia|by apply (children_ok plain plainb)]).
Qed.
End Checks.

Ltac check_value :=
  first [apply value_okb_ok | apply printableb_ok | apply plainb_ok]; vm_compute; reflexivity.

(** Objects built with [operator[]]. *)
Definition object_with {D : Doubles} (ms : list (list Z * Value)) : Value :=
  foldl (fun v p => match set_member p.1 p.2 v with inl v => v | inr _ => v end) Value_null ms.

Definition camera {D : Doubles} : Value :=
  object_with
    [(bytes "name", of_string (bytes "gate" ++ [10; 1; 34]));
     (bytes "id", of_int (-7));
     (bytes "", Val no_comments (arrayValue [(0, of_int 1); (2, of_uint 9223372036854775808)]));
     (bytes "on", of_bool true);
     (bytes "sub", object_with [(bytes "list", of_array); (bytes "o", of_object)])].

(** Whatever the layout puts in between. *)
Lemma layout_reads {D : Doubles} {L : Layout} `{!LayoutLaws L} out v collectComments :
  value_ok v -> printable v -> plain v ->
  exists text, write_document out v = inl (out ++ text) /\ parse collectComments text Value_null = inl (true, normal v, []).
Proof.
  intros Hok Hp Hpl. destruct (styled_document out v Hok Hp Hpl) as (w & t & w' & E & Hw & Ht & Hw').
  exists (w ++ t ++ w'). split; [done|]. unfold parse, parse_with. cbn [negb]. rewrite (parse_text _ _ (normal v)) by done.
  do 3 f_equal. pose proof (comments_normal v) as Hc. destruct (normal v) as [c d]. cbn in *. by subst.
Qed.

Lemma styled_reads {D : Doubles} v collectComments :
  value_ok v -> printable v -> plain v ->
  exists text, toStyledString v = inl text /\ parse collectComments text Value_null = inl (true, normal v, []).
Proof. apply (layout_reads (L := styled_layout) []). Qed.

(** C11. What [toStyledString] prints for a well-formed value without comments, [double]s
    and [NULL] strings is read back as that value: nothing lost, nothing reported.
    [normal] is the value with its integers in the type that the reader chooses and null
    in the holes of its arrays. *)
Theorem styled_roundtrip {D : Doubles} v collectComments :
  value_ok v -> printable v -> plain v ->
  exists text, toStyledString v = inl text /\ parse collectComments text Value_null = inl (true, normal v, []).
Proof. apply styled_reads. Qed.

Lemma styled_roundtrip_witness :
  exists text, toStyledString (D := integral_doubles) camera = inl text /\
    parse (D := integral_doubles) true text Value_null = inl (true, normal camera, []).
Proof.
  apply (@styled_roundtrip integral_doubles); check_value.
Defined.

(** The same for [FastWriter], with or without the space for YAML; comments of the
    value do not matter. *)
Theorem fast_roundtrip {D : Doubles} yaml v collectComments :
  value_ok v -> printable v ->
  exists text, FastWriter_write yaml v = inl text /\ parse collectComments text Value_null = inl (true, normal v, []).
Proof.
  intros Hok Hp. destruct (fast_text yaml v Hok Hp) as (t & Ht & Ha). exists (t ++ [LF]). split.
  - unfold FastWriter_write, mbind, ctl_bind. by rewrite (Ha []).
  - unfold parse, parse_with. cbn [negb]. rewrite <-(app_nil_l (t ++ [LF])). rewrite (parse_text _ _ (normal v)); [|apply spaces_nil|done|by apply Forall_singleton].
    do 3 f_equal. pose proof (comments_normal v) as Hc. destruct (normal v) as [c d]. cbn in *. by subst.
Qed.

Lemma fast_roundtrip_witness :
  exists text, FastWriter_write (D := integral_doubles) true camera = inl text /\
    parse (D := integral_doubles) false text Value_null = inl (true, normal camera, []).
Proof. apply (@fast_roundtrip integral_doubles); check_value. Defined.

(** C12. Every text of the grammar of [JsonText] is accepted and read as the value it
    stands for, whether comments are collected or not: any white space, nesting of any
    depth, repeated member names (the last one counts), all escapes and the code points
    they stand for in UTF-8 (surrogates in pairs), integers of 64 bits with their value,
    every other number as [sscanf] reads its text.  Left out are the integers out of range
    that the reader takes for other integers ([misread], see C14). *)
Theorem text_read {D : Doubles} v t w w' collectComments root :
  spaces w -> json_text v t -> spaces w' -> parse collectComments (w ++ t ++ w') root = inl (true, assign v root, []).
Proof. apply parse_text. Qed.

Lemma text_read_witness :
  parse (D := integral_doubles) true (bytes " " ++ (bytes "[ " ++ [QUOTE] ++ bytes "\u00e9\f" ++ [QUOTE] ++ bytes " , true]") ++ bytes " ") Value_null =
    inl (true, assign (array_of [of_string [195; 169; 12]; of_bool true]) Value_null, []).
Proof.
  apply (@text_read integral_doubles); [by repeat constructor| |by repeat constructor].
  apply (@jt_array integral_doubles).
  apply (@je_cons integral_doubles (bytes " ") (of_string [195; 169; 12]) ([QUOTE] ++ bytes "\u00e9\f" ++ [QUOTE]) (bytes " ") [of_bool true]);
    [by repeat constructor| |by repeat constructor|].
  - apply (@jt_string integral_doubles _ (bytes "\u00e9\f")).
    apply (st_unicode (bytes "00e9") 233 [195; 169] [12] (bytes "\f")).
    + exists 0, 0, 14, 9. split; [|reflexivity]. repeat constructor; (done || by left).
    + lia.
    + apply (utf8_2 3 41); lia.
    + apply (st_escape (chr "f") 12 [] []); [unfold escapes; rewrite !elem_of_cons; auto 10|constructor].
  - apply (@je_last integral_doubles (bytes " ") (of_bool true) (bytes "true") []); [by repeat constructor|apply (jt_bool true)|constructor].
Defined.

(** C10. [parse] returns on every document and every tree given to it: no assertion
    fails, nothing is thrown, no pointer to a freed value is followed, and no loop runs
    out of characters before it ends. *)
Theorem parse_total {D : Doubles} allowComments strictRoot collectComments document root :
  exists ok v errors, parse_with allowComments strictRoot collectComments document root = inl (ok, v, errors).
Proof. apply parse_returns. Qed.

(** C13. The tree that [parse] leaves, also for a document it rejects, is well formed:
    member names and indices in ascending order, strings and names of bytes without NUL,
    integers in the range of their type. *)
Theorem parse_well_formed {D : Doubles} allowComments strictRoot collectComments document root ok v errors :
  is_buf document -> value_ok root ->
  parse_with allowComments strictRoot collectComments document root = inl (ok, v, errors) -> value_ok v.
Proof. apply parse_typed. Qed.

Definition rejected : list Z := bytes "{ 'b' : 2, } /* end */".

Lemma rejected_ok :
  match parse_with (D := integral_doubles) true false true rejected Value_null with inl (ok, _, _) => ok | inr _ => true end = false.
Proof. vm_compute. reflexivity. Qed.

Lemma parse_well_formed_witness :
  exists v errors,
    parse_with (D := integral_doubles) true false true rejected Value_null = inl (false, v, errors) /\ value_ok v.
Proof.
  pose proof rejected_ok as H.
  destruct (parse_with true false true rejected Value_null) as [[[ok v] errors]|] eqn:E; [|discriminate].
  cbv match in H. subst ok. exists v, errors. split; [reflexivity|].
  apply (@parse_well_formed integral_doubles true false true rejected Value_null false v errors); [|exact I|exact E].
  by repeat constructor.
Defined.

(** C14. What the digits of a number are read as: exactly their value up to the limit;
    above it the text is left to [sscanf] when its digits without the last two reach a
    tenth of the limit or its last digit is above that of the limit; every other number
    above the limit is reduced modulo 2^64. *)
Theorem number_read max ds :
  100 <= max < 2 ^ 64 -> digits ds ->
  decode_digits (max / 10) (max mod 10) ds 0 =
    (let v := dec_value ds in
     if v <=? max then Digits_value v
     else if (max / 10 <=? v / 100) || (max mod 10 <? v mod 10) then Digits_double
     else Digits_value (v mod 2 ^ 64)).
Proof. apply decode_digits_exact. Qed.

Lemma number_read_witness :
  decode_digits (maxUInt64 / 10) (maxUInt64 mod 10) (bytes "18446744073709551625") 0 = Digits_value 9.
Proof.
  rewrite (number_read maxUInt64 (bytes "18446744073709551625")); [reflexivity|by vm_compute|].
  split; [done|by repeat constructor].
Defined.

(** ** Examples *)

(** The answer of the reader and what [FastWriter] makes of the tree. *)
Definition reread (document : list Z) : option (bool * (list Z + fault)) :=
  match parse (D := integral_doubles) true document Value_null with
  | inl (ok, v, _) => Some (ok, FastWriter_write false v)
  | inr _ => None
  end.

(** A number of one digit too many wraps around; a sign alone is a number. *)
Example wrapped_number : reread (bytes "[18446744073709551625, -]") = Some (true, inl (bytes "[9,0]" ++ [LF])).
Proof. vm_compute. reflexivity. Qed.

(** What follows the value is not looked at. *)
Example trailing_text : reread (bytes "[1] ]") = Some (true, inl (bytes "[1]" ++ [LF])).
Proof. vm_compute. reflexivity. Qed.

(** A comma may stand before the end of an object whose last name is empty. *)
Example trailing_comma : reread (map (fun c => if c =? chr "'" then QUOTE else c) (bytes "{'':1,}")) =
  Some (true, inl (map (fun c => if c =? chr "'" then QUOTE else c) (bytes "{'':1}") ++ [LF])).
Proof. vm_compute. reflexivity. Qed.

(** [StyledWriter] drops the comment behind the only element of an array. *)
Example lost_comment :
  match parse (D := integral_doubles) true (bytes "[1 // one" ++ [LF] ++ bytes "]") Value_null with
  | inl (_, v, _) => toStyledString v
  | inr _ => inl []
  end = inl (bytes "[ 1 ]" ++ [LF]).
Proof. vm_compute. reflexivity. Qed.
