(* ===== verification/JsonOrder.v ===== *)
(** * JsonOrder: comparing values

    [operator<] and its companions of [atb_sak/src/json/json_value.cpp], and the keys
    [Value::CZString] of its maps.  The standard library compares two maps
    lexicographically and asks of each pair of entries whether one is less and whether
    the other is; so [value_both] computes both answers at once. *)
From stdpp Require Import base list.
From S2P Require Import Prelude Streams JsonValue JsonPaths JsonProps.

(** ** Value::CZString

    The pointer is [NULL] for the key of an array; [index_] is then the index, else what
    is done with the string. *)
Record CZString := mk_cz { cz_str : option (list Z); cz_index : Z }.

Definition noDuplication : Z := 0.
Definition duplicate : Z := 1.
Definition duplicateOnCopy : Z := 2.

Definition CZString_of_index (i : Z) : CZString := mk_cz None i.
Definition CZString_of_str (s : list Z) (allocate : Z) : CZString := mk_cz (Some (c_text s)) allocate.

(** The copy owns its string unless it is a static one. *)
Definition CZString_copy (o : CZString) : CZString :=
  mk_cz (cz_str o) (match cz_str o with
                    | Some _ => if cz_index o =? noDuplication then noDuplication else duplicate
                    | None => cz_index o
                    end).

(** [operator=] makes a copy and swaps. *)
Definition CZString_swap (a b : CZString) : CZString * CZString := (b, a).
Definition CZString_assign (self other : CZString) : CZString := fst (CZString_swap self (CZString_copy other)).

(** [strcmp] with a [NULL] pointer is a fault. *)
Definition CZString_lt (a b : CZString) : bool + fault :=
  match cz_str a, cz_str b with
  | Some s, Some t => inl (str_ltb s t)
  | Some _, None => inr OutOfBounds
  | None, _ => inl (cz_index a <? cz_index b)
  end.

Definition CZString_eq (a b : CZString) : bool + fault :=
  match cz_str a, cz_str b with
  | Some s, Some t => inl (bool_decide (s = t))
  | Some _, None => inr OutOfBounds
  | None, _ => inl (cz_index a =? cz_index b)
  end.

Definition CZString_c_str (a : CZString) : option (list Z) := cz_str a.
Definition isStaticString (a : CZString) : bool := cz_index a =? noDuplication.

(** ** Value::operator< *)

Section Order.
Context {D : Doubles}.

Definition double_lt (a b : double) : bool := double_le a b && negb (double_eq a b).

(** Whether one is less, and whether the other is. *)
Definition both {A} (lt : A -> A -> bool) (a b : A) : bool * bool := (lt a b, lt b a).

Definition bool_lt (a b : bool) : bool := negb a && b.

(** A [NULL] string is less than any other. *)
Definition string_lt (a b : option (list Z)) : bool :=
  match a, b with
  | None, Some _ => true
  | Some s, Some t => str_ltb s t
  | _, None => false
  end.

(** [operator<] of [std::pair] and [std::lexicographical_compare] on the entries; an entry
    of the first map comes with its comparison to a value. *)
Definition map_both {K} (ltk : K -> K -> bool) (m : list (K * (Value -> bool * bool))) : list (K * Value) -> bool * bool :=
  (fix go m l :=
    match m, l with
    | [], [] => (false, false)
    | [], _ :: _ => (true, false)
    | _ :: _, [] => (false, true)
    | (k, e) :: m', (k', y) :: l' =>
        let less := ltk k k' || (negb (ltk k' k) && fst (e y)) in
        let more := ltk k' k || (negb (ltk k k') && snd (e y)) in
        let rest := go m' l' in
        (if less then true else if more then false else fst rest,
         if more then true else if less then false else snd rest)
    end) m.

(** Maps of different sizes are compared by size; the difference is an [int]. *)
Definition sized_both (n p : Z) (b : bool * bool) : bool * bool :=
  if s32 (n - p) =? 0 then b else both (fun n p => s32 (n - p) <? 0) n p.

Fixpoint value_both (v w : Value) {struct v} : bool * bool :=
  match v, w with
  | Val c d, Val c' e =>
      match d, e with
      | nullValue, nullValue => (false, false)
      | intValue a, intValue b | uintValue a, uintValue b => both Z.ltb a b
      | realValue a, realValue b => both double_lt a b
      | booleanValue a, booleanValue b => both bool_lt a b
      | stringValue a, stringValue b => both string_lt a b
      | arrayValue m, arrayValue l =>
          sized_both (zlen m) (zlen l) (map_both Z.ltb (map (fun p => match p with (k, x) => (k, value_both x) end) m) l)
      | objectValue m, objectValue l =>
          sized_both (zlen m) (zlen l) (map_both str_ltb (map (fun p => match p with (k, x) => (k, value_both x) end) m) l)
      | _, _ => both Z.ltb (type_ (Val c d)) (type_ (Val c' e))
      end
  end.

Definition value_lt (v w : Value) : bool := fst (value_both v w).
Definition value_gt (v w : Value) : bool := value_lt w v.
Definition value_ge (v w : Value) : bool := negb (value_lt v w).
(** [!(other > *this)] *)
Definition value_le (v w : Value) : bool := negb (value_gt w v).
Definition value_ne (v w : Value) : bool := negb (value_eqb v w).
End Order.

(** ** Orders *)

(** A strict weak order, by the two laws from which the others follow. *)
Class WeakOrder {A} (lt : A -> A -> bool) : Prop := {
  wo_asym a b : lt a b = true -> lt b a = false;
  wo_cotrans a b c : lt a c = true -> lt a b = true \/ lt b c = true;
}.

(** The laws of [double] without NaN. *)
Class OrderedDoubles (D : Doubles) : Prop := {
  double_le_total a b : double_le a b = true \/ double_le b a = true;
  double_le_trans a b c : double_le a b = true -> double_le b c = true -> double_le a c = true;
  double_eq_le a b : double_eq a b = double_le a b && double_le b a;
}.

Definition is_Lt (c : comparison) : bool := match c with Lt => true | _ => false end.
Definition is_Gt (c : comparison) : bool := match c with Gt => true | _ => false end.
Definition is_Eq (c : comparison) : bool := match c with Eq => true | _ => false end.

Definition cmp_of (b : bool * bool) : comparison := if fst b then Lt else if snd b then Gt else Eq.
Definition pair_of (c : comparison) : bool * bool := (is_Lt c, is_Gt c).

(** The first that decides. *)
Definition then_cmp (c d : comparison) : comparison := match c with Eq => d | _ => c end.

(** What two comparisons in a row say of the outer one. *)
Definition chain (c d e : comparison) : Prop :=
  match c, d with
  | Eq, _ => e = d
  | _, Eq => e = c
  | Lt, Lt => e = Lt
  | Gt, Gt => e = Gt
  | _, _ => True
  end.

Lemma chain_then c d e c' d' e' : chain c d e -> chain c' d' e' -> chain (then_cmp c c') (then_cmp d d') (then_cmp e e').
Proof. destruct c, d; cbn; intros E; subst; try done; destruct c', d'; cbn; intros; subst; done. Qed.

Lemma chain_later c d : d <> Eq -> chain c d d.
Proof. by destruct c, d. Qed.
Lemma chain_first c d : c <> Eq -> chain c d c.
Proof. by destruct c, d. Qed.

Section Weak.
Context {A : Type} (lt : A -> A -> bool) `{!WeakOrder lt}.

Definition cmp (a b : A) : comparison := cmp_of (both lt a b).

Lemma both_cmp a b : both lt a b = pair_of (cmp a b).
Proof.
  unfold cmp, both, cmp_of. cbn. destruct (lt a b) eqn:E; [by rewrite (wo_asym a b E)|]. by destruct (lt b a).
Qed.

Lemma cmp_opp a b : cmp b a = CompOpp (cmp a b).
Proof.
  unfold cmp, cmp_of. cbn. destruct (lt a b) eqn:E; [by rewrite (wo_asym a b E)|]. by destruct (lt b a).
Qed.

Lemma cmp_chain a b c : chain (cmp a b) (cmp b c) (cmp a c).
Proof.
  unfold cmp, cmp_of. cbn.
  pose proof (wo_asym a b). pose proof (wo_asym b c). pose proof (wo_asym a c). pose proof (wo_asym b a).
  pose proof (wo_cotrans a b c). pose proof (wo_cotrans c b a). pose proof (wo_cotrans a c b). pose proof (wo_cotrans b a c).
  pose proof (wo_cotrans c a b). pose proof (wo_cotrans b c a).
  destruct (lt a b), (lt b a), (lt b c), (lt c b), (lt a c), (lt c a); cbn; naive_solver.
Qed.

Lemma cmp_refl a : cmp a a = Eq.
Proof. pose proof (cmp_opp a a). by destruct (cmp a a). Qed.
End Weak.

(** A strict order in which only equal elements are not ordered. *)
Lemma total_weak {A} (lt : A -> A -> bool) :
  (forall a, lt a a = false) -> (forall a b c, lt a b = true -> lt b c = true -> lt a c = true) ->
  (forall a b, lt a b = false -> lt b a = false -> a = b) -> WeakOrder lt.
Proof.
  intros Hi Ht He. split.
  - intros a b Hab. destruct (lt b a) eqn:Hba; [|done]. by rewrite <-(Hi a), (Ht a b a Hab Hba).
  - intros a b c Hac. destruct (lt a b) eqn:Hab; [by left|right]. destruct (lt b a) eqn:Hba; [by eapply Ht|].
    by rewrite <-(He a b Hab Hba).
Qed.

Lemma cmp_Eq {A} (lt : A -> A -> bool) `{!WeakOrder lt} `{!EqDecision A} :
  (forall a b, lt a b = false -> lt b a = false -> a = b) -> forall a b, is_Eq (cmp lt a b) = bool_decide (a = b).
Proof.
  intros He a b. destruct (decide (a = b)) as [<-|Hne].
  - by rewrite (cmp_refl lt), bool_decide_eq_true_2.
  - rewrite bool_decide_eq_false_2 by done. unfold cmp, cmp_of. cbn. pose proof (He a b).
    destruct (lt a b), (lt b a); cbn; try done. naive_solver.
Qed.

#[export] Instance Z_weak : WeakOrder Z.ltb.
Proof. apply total_weak; intros; lia. Qed.
#[export] Instance str_weak : WeakOrder str_ltb.
Proof. apply total_weak; [apply str_ltb_irrefl|apply str_ltb_trans|apply str_ltb_total]. Qed.
#[export] Instance bool_weak : WeakOrder bool_lt.
Proof. apply total_weak; [by intros []|by intros [] [] []|by intros [] []]. Qed.
#[export] Instance string_weak : WeakOrder string_lt.
Proof.
  apply total_weak.
  - intros [s|]; [apply str_ltb_irrefl|done].
  - intros [s|] [t|] [u|]; try done. apply str_ltb_trans.
  - intros [s|] [t|]; try done. intros H1 H2. f_equal. by apply str_ltb_total.
Qed.
#[export] Instance double_weak {D : Doubles} `{!OrderedDoubles D} : WeakOrder double_lt.
Proof.
  unfold double_lt. split.
  - intros a b. rewrite !double_eq_le. by destruct (double_le a b), (double_le b a).
  - intros a b c. rewrite !double_eq_le. pose proof (double_le_total a b). pose proof (double_le_total b c).
    pose proof (double_le_trans a b c). pose proof (double_le_trans c b a). pose proof (double_le_trans b c a).
    pose proof (double_le_trans c a b). pose proof (double_le_trans b a c). pose proof (double_le_trans a c b).
    destruct (double_le a b), (double_le b a), (double_le b c), (double_le c b), (double_le a c), (double_le c a);
      cbn; naive_solver.
Qed.

(** ** The order of values *)

Section ValueOrder.
Context {D : Doubles} `{!OrderedDoubles D}.

(** Containers whose size is an [int]. *)
Fixpoint small (v : Value) : Prop :=
  match v with
  | Val _ d =>
      match d with
      | arrayValue m => zlen m < 2 ^ 31 /\ foldr and True (map (fun p => match p with (_, x) => small x end) m)
      | objectValue m => zlen m < 2 ^ 31 /\ foldr and True (map (fun p => match p with (_, x) => small x end) m)
      | _ => True
      end
  end.

Definition value_cmp (v w : Value) : comparison := cmp_of (value_both v w).

(** The comparison of entries, as a comparison. *)
Fixpoint entries_cmp {K} (ltk : K -> K -> bool) (m l : list (K * Value)) : comparison :=
  match m, l with
  | [], [] => Eq
  | [], _ :: _ => Lt
  | _ :: _, [] => Gt
  | (k, x) :: m', (k', y) :: l' => then_cmp (cmp ltk k k') (then_cmp (value_cmp x y) (entries_cmp ltk m' l'))
  end.

Definition children_small {K} (m : list (K * Value)) : Prop := foldr and True (map (fun p => match p with (_, x) => small x end) m).

Definition pairs (v : Value) : Prop := forall w, small v -> small w -> value_both v w = pair_of (value_cmp v w).

Abbreviation entries m := (map (fun p => match p with (k, x) => (k, value_both x) end) m).

Lemma map_both_cons {K} (ltk : K -> K -> bool) k e m k' y l :
  map_both ltk ((k, e) :: m) ((k', y) :: l) =
    let less := ltk k k' || (negb (ltk k' k) && fst (e y)) in
    let more := ltk k' k || (negb (ltk k k') && snd (e y)) in
    (if less then true else if more then false else fst (map_both ltk m l),
     if more then true else if less then false else snd (map_both ltk m l)).
Proof. done. Qed.

Lemma map_both_cmp {K} (ltk : K -> K -> bool) `{!WeakOrder ltk} (m : list (K * Value)) :
  Forall (fun p => pairs p.2) m -> forall l, children_small m -> children_small l ->
  map_both ltk (entries m) l = pair_of (entries_cmp ltk m l).
Proof.
  induction 1 as [|[k x] m Hx Hm IH]; intros [|[k' y] l] Sm Sl; try done. destruct Sm as [Sx Sm], Sl as [Sy Sl].
  cbn [map entries_cmp]. rewrite map_both_cons, (IH l Sm Sl). cbn in Hx. rewrite (Hx y Sx Sy).
  pose proof (both_cmp ltk k k') as Hk. unfold both in Hk. injection Hk as -> ->.
  by destruct (cmp ltk k k'), (value_cmp x y), (entries_cmp ltk m l).
Qed.

(** The sizes decide first. *)
Definition sized_cmp (n p : Z) (c : comparison) : comparison := then_cmp (cmp Z.ltb n p) c.

Lemma sized_both_cmp n p c :
  0 <= n < 2 ^ 31 -> 0 <= p < 2 ^ 31 -> sized_both n p (pair_of c) = pair_of (sized_cmp n p c).
Proof.
  intros Hn Hp. unfold sized_both, sized_cmp, cmp, both. rewrite !s32_small by lia.
  destruct (n - p =? 0) eqn:E.
  - assert (n = p) as -> by lia. cbn. by rewrite Z.ltb_irrefl.
  - cbn. destruct (n - p <? 0) eqn:E1, (p - n <? 0) eqn:E2, (n <? p) eqn:E3, (p <? n) eqn:E4; try done; lia.
Qed.

Lemma zlen_lt {A} (l : list A) : zlen l < 2 ^ 31 -> 0 <= zlen l < 2 ^ 31.
Proof. unfold zlen. lia. Qed.

Lemma cmp_of_pair c : cmp_of (pair_of c) = c.
Proof. by destruct c. Qed.

Lemma value_pairs v : pairs v.
Proof.
  induction v as [c d IH] using Value_deep_ind. intros [c' e] Sv Sw.
  enough (exists r, value_both (Val c d) (Val c' e) = pair_of r) as [r Hr] by (unfold value_cmp; by rewrite Hr, cmp_of_pair).
  destruct d, e; cbn [value_both]; try (eexists; apply both_cmp; apply _); try by exists Eq.
  all: destruct Sv as [Nv Sv], Sw as [Nw Sw]; eexists;
    rewrite (map_both_cmp _ _ IH _ Sv Sw); apply sized_both_cmp; by apply zlen_lt.
Qed.

Lemma all_pairs {K} (m : list (K * Value)) : Forall (fun p => pairs p.2) m.
Proof. apply Forall_forall. intros p _. apply value_pairs. Qed.

(** The recursion of the comparison. *)
Lemma value_cmp_eq v w :
  small v -> small w ->
  value_cmp v w =
    match value_ v, value_ w with
    | nullValue, nullValue => Eq
    | intValue a, intValue b | uintValue a, uintValue b => cmp Z.ltb a b
    | realValue a, realValue b => cmp double_lt a b
    | booleanValue a, booleanValue b => cmp bool_lt a b
    | stringValue a, stringValue b => cmp string_lt a b
    | arrayValue m, arrayValue l => sized_cmp (zlen m) (zlen l) (entries_cmp Z.ltb m l)
    | objectValue m, objectValue l => sized_cmp (zlen m) (zlen l) (entries_cmp str_ltb m l)
    | _, _ => cmp Z.ltb (type_ v) (type_ w)
    end.
Proof.
  destruct v as [c d], w as [c' e]. intros Sv Sw. unfold value_cmp.
  destruct d, e; cbn [value_both value_]; try reflexivity.
  all: destruct Sv as [Nv Sv], Sw as [Nw Sw];
    rewrite (map_both_cmp _ _ (all_pairs _) _ Sv Sw), sized_both_cmp by (by apply zlen_lt); apply cmp_of_pair.
Qed.

Definition opposed (v : Value) : Prop := forall w, small v -> small w -> value_cmp w v = CompOpp (value_cmp v w).

Lemma then_opp c d : CompOpp (then_cmp c d) = then_cmp (CompOpp c) (CompOpp d).
Proof. by destruct c. Qed.

Lemma entries_opp {K} (ltk : K -> K -> bool) `{!WeakOrder ltk} (m : list (K * Value)) :
  Forall (fun p => opposed p.2) m -> forall l, children_small m -> children_small l ->
  entries_cmp ltk l m = CompOpp (entries_cmp ltk m l).
Proof.
  induction 1 as [|[k x] m Hx Hm IH]; intros [|[k' y] l] Sm Sl; try done. destruct Sm as [Sx Sm], Sl as [Sy Sl].
  cbn [entries_cmp]. rewrite !then_opp, (IH l Sm Sl), <-(cmp_opp ltk). cbn in Hx. by rewrite (Hx y Sx Sy).
Qed.

Lemma value_opp v : opposed v.
Proof.
  induction v as [c d IH] using Value_deep_ind. intros [c' e] Sv Sw. rewrite !value_cmp_eq by done.
  destruct d, e; cbn [value_]; try apply (cmp_opp _); try done.
  all: destruct Sv as [Nv Sv], Sw as [Nw Sw]; unfold sized_cmp;
    by rewrite then_opp, <-(cmp_opp Z.ltb), (entries_opp _ _ IH).
Qed.

Definition chained (v : Value) : Prop :=
  forall w u, small v -> small w -> small u -> chain (value_cmp v w) (value_cmp w u) (value_cmp v u).

Lemma entries_chain {K} (ltk : K -> K -> bool) `{!WeakOrder ltk} (m : list (K * Value)) :
  Forall (fun p => chained p.2) m -> forall l n, children_small m -> children_small l -> children_small n ->
  chain (entries_cmp ltk m l) (entries_cmp ltk l n) (entries_cmp ltk m n).
Proof.
  induction 1 as [|[k x] m Hx Hm IH]; intros [|[k' y] l] [|[k'' z] n] Sm Sl Sn; try done.
  - cbn [entries_cmp]. by destruct (then_cmp _ _).
  - cbn [entries_cmp]. by destruct (then_cmp _ _).
  - destruct Sm as [Sx Sm], Sl as [Sy Sl], Sn as [Sz Sn]. cbn [entries_cmp].
    apply chain_then; [apply cmp_chain, _|]. apply chain_then; [by apply Hx|by apply IH].
Qed.

Lemma value_chain v : chained v.
Proof.
  induction v as [c d IH] using Value_deep_ind. intros [c' e] [c'' f] Sv Sw Su. rewrite !value_cmp_eq by done.
  destruct d, e; cbn [value_]; destruct f; cbn [value_ type_];
    try exact I; try reflexivity; try apply (cmp_chain _); try (by apply chain_later); try (by apply chain_first).
  all: destruct Sv as [Nv Sv], Sw as [Nw Sw], Su as [Nu Su]; apply chain_then; [apply cmp_chain, _|exact (entries_chain _ _ IH _ _ Sv Sw Su)].
Qed.

(** *** Equality *)

Definition equal_by_cmp (v : Value) : Prop := forall w, small v -> small w -> value_eqb v w = is_Eq (value_cmp v w).

Abbreviation tests m := (map (fun p => match p with (k, x) => (k, value_eqb x) end) m).

Lemma map_eq_length {K} (eqk : K -> K -> bool) (m : list (K * Value)) : forall l,
  map_eq eqk (tests m) l = true -> zlen m = zlen l.
Proof.
  induction m as [|[k x] m IH]; intros [|[k' y] l]; try done. change (eqk k k' && value_eqb x y && map_eq eqk (tests m) l = true -> zlen ((k, x) :: m) = zlen ((k', y) :: l)).
  intros [_ H%IH]%andb_true_iff. unfold zlen in *. cbn [length]. lia.
Qed.

Lemma entries_eq {K} (eqk ltk : K -> K -> bool) `{!WeakOrder ltk} (m : list (K * Value)) :
  (forall a b, eqk a b = is_Eq (cmp ltk a b)) -> Forall (fun p => equal_by_cmp p.2) m ->
  forall l, children_small m -> children_small l -> map_eq eqk (tests m) l = is_Eq (entries_cmp ltk m l).
Proof.
  intros Hk. induction 1 as [|[k x] m Hx Hm IH]; intros [|[k' y] l] Sm Sl; try done. destruct Sm as [Sx Sm], Sl as [Sy Sl].
  change (eqk k k' && value_eqb x y && map_eq eqk (tests m) l = is_Eq (entries_cmp ltk ((k, x) :: m) ((k', y) :: l))).
  cbn [entries_cmp]. cbn in Hx. rewrite Hk, (Hx y Sx Sy), (IH l Sm Sl). by destruct (cmp ltk k k'), (value_cmp x y).
Qed.

Lemma sized_eq {K} (eqk ltk : K -> K -> bool) `{!WeakOrder ltk} (m l : list (K * Value)) :
  map_eq eqk (tests m) l = is_Eq (entries_cmp ltk m l) ->
  map_eq eqk (tests m) l = is_Eq (sized_cmp (zlen m) (zlen l) (entries_cmp ltk m l)).
Proof.
  intros E. unfold sized_cmp. destruct (decide (zlen m = zlen l)) as [El|El]; [by rewrite El, (cmp_refl Z.ltb)|].
  destruct (map_eq eqk (tests m) l) eqn:H; [by apply map_eq_length in H|]. unfold cmp, cmp_of. cbn.
  by destruct (zlen m <? zlen l) eqn:E1, (zlen l <? zlen m) eqn:E2; try lia.
Qed.

Lemma double_cmp_eq a b : double_eq a b = is_Eq (cmp double_lt a b).
Proof.
  unfold cmp, cmp_of, double_lt. cbn. rewrite !double_eq_le. pose proof (double_le_total a b) as H.
  destruct (double_le a b), (double_le b a); try done. by destruct H.
Qed.

Lemma value_eqb_cmp v : equal_by_cmp v.
Proof.
  induction v as [c d IH] using Value_deep_ind. intros [c' e] Sv Sw. rewrite value_cmp_eq by done.
  destruct d, e; cbn [value_eqb value_]; try reflexivity.
  - symmetry. unfold cmp, cmp_of. cbn. destruct (n <? n0) eqn:?, (n0 <? n) eqn:?; cbn; lia.
  - symmetry. unfold cmp, cmp_of. cbn. destruct (n <? n0) eqn:?, (n0 <? n) eqn:?; cbn; lia.
  - apply double_cmp_eq.
  - symmetry. apply cmp_Eq; [apply _|]. intros [a|] [a'|]; try done. intros H1 H2. f_equal. by apply str_ltb_total.
  - by destruct b, b0.
  - destruct Sv as [Nv Sv], Sw as [Nw Sw]. apply sized_eq; [apply _|]. refine (entries_eq _ _ _ _ IH _ Sv Sw).
    intros a b. symmetry. rewrite (cmp_Eq Z.ltb) by lia. destruct (Z.eqb_spec a b); [by apply bool_decide_eq_true|by apply bool_decide_eq_false].
  - destruct Sv as [Nv Sv], Sw as [Nw Sw]. apply sized_eq; [apply _|]. refine (entries_eq _ _ _ _ IH _ Sv Sw).
    intros a b. symmetry. by apply cmp_Eq; [apply _|apply str_ltb_total].
Qed.

(** [operator<] is a strict order of values that agrees with [operator==], comments
    aside: no value is less than itself, the order is transitive, of two values exactly one
    of less, equal and greater holds, and equal values are interchangeable.  (No NaN, and no
    container with 2^31 children.) *)
Theorem values_ordered v w u :
  small v -> small w -> small u ->
  value_lt v v = false /\
  (value_lt v w = true -> value_lt w u = true -> value_lt v u = true) /\
  (value_lt v w, value_eqb v w, value_gt v w) ∈ [(true, false, false); (false, true, false); (false, false, true)] /\
  (value_eqb v w = true -> value_lt v u = value_lt w u /\ value_lt u v = value_lt u w).
Proof.
  intros Sv Sw Su. unfold value_gt, value_lt.
  rewrite !(value_pairs _ _) by done. rewrite !value_eqb_cmp by done. cbn [fst pair_of].
  pose proof (value_opp v v Sv Sv) as Hvv. pose proof (value_opp v w Sv Sw) as ->.
  pose proof (value_opp v u Sv Su) as ->. pose proof (value_opp w u Sw Su) as ->.
  pose proof (value_chain v w u Sv Sw Su) as H.
  split; [by destruct (value_cmp v v)|]. split; [|split].
  - destruct (value_cmp v w), (value_cmp w u), (value_cmp v u); done.
  - destruct (value_cmp v w); cbn; by repeat constructor.
  - destruct (value_cmp v w); try done. intros _. cbn in H. by rewrite H.
Qed.
End ValueOrder.

(** ** Concrete values *)

#[export] Instance integral_ordered : OrderedDoubles integral_doubles.
Proof. split; cbn; intros; lia. Qed.

Definition short_list : @Value integral_doubles := Val no_comments (arrayValue [(0, of_int 9)]).
Definition long_list : @Value integral_doubles := Val no_comments (arrayValue [(0, of_int 1); (1, of_string (bytes "a"))]).

Lemma values_ordered_witness :
  value_lt short_list short_list = false /\
  (value_lt short_list long_list = true -> value_lt long_list camera = true -> value_lt short_list camera = true) /\
  (value_lt short_list long_list, value_eqb short_list long_list, value_gt short_list long_list)
    ∈ [(true, false, false); (false, true, false); (false, false, true)] /\
  (value_eqb short_list long_list = true ->
     value_lt short_list camera = value_lt long_list camera /\ value_lt camera short_list = value_lt camera long_list).
Proof. apply (values_ordered short_list long_list camera); by repeat split. Defined.

Example shorter_is_less : value_lt short_list long_list = true /\ value_lt long_list camera = true.
Proof. by vm_compute. Qed.

(** [operator<=] is [operator>=]: the operands of the [>] in it are exchanged. *)
Lemma le_is_ge {D : Doubles} (v w : Value) : value_le v w = value_ge v w.
Proof. done. Qed.

Example one_not_le_two : @value_le integral_doubles (of_int 1) (of_int 2) = false.
Proof. by vm_compute. Qed.

(** The copy of a key whose string is to be copied owns it; the key of a static string is
    shared. *)
Example copies_of_keys :
  let k := CZString_of_str (bytes "a") duplicateOnCopy in
  cz_index (CZString_copy k) = duplicate /\ CZString_copy (CZString_copy k) = CZString_copy k /\
  isStaticString (CZString_assign k (CZString_of_str (bytes "b") noDuplication)) = true.
Proof. by vm_compute. Qed.
