(* ===== verification/JsonIter.v ===== *)
(** * JsonIter: iterators over values

    [begin] and [end] of [Json::Value] and the class [ValueIteratorBase] of
    [atb_sak/src/json/json_valueiterator.inl] with its wrappers in [value.h].  An iterator
    of [std::map] is its position among the entries; what the standard leaves undefined
    (past the end, an iterator that points nowhere) is a fault. *)
From stdpp Require Import base list.
From S2P Require Import Prelude Streams JsonValue JsonProps JsonOrder.

Section Iterators.
Context {D : Doubles}.

(** The map behind a value: the entries in the order of their keys; only arrays and
    objects have one. *)
Definition entries_of (v : Value) : option (list (CZString * Value)) :=
  match value_ v with
  | arrayValue m => Some (map (fun p => match p with (i, x) => (CZString_of_index i, x) end) m)
  | objectValue m => Some (map (fun p => match p with (k, x) => (mk_cz (Some k) duplicate, x) end) m)
  | _ => None
  end.

(** ** ValueIteratorBase

    [current_] is the position, [None] for a [std::map] iterator made by its default
    constructor. *)
Record ValueIteratorBase := mk_iter { current_ : option nat; isNull_ : bool }.

Definition iter_default : ValueIteratorBase := mk_iter None true.
Definition iter_at (n : nat) : ValueIteratorBase := mk_iter (Some n) false.

(** [Value::begin] and [Value::end] *)
Definition value_begin (v : Value) : ValueIteratorBase :=
  match entries_of v with Some _ => iter_at 0 | None => iter_default end.
Definition value_end (v : Value) : ValueIteratorBase :=
  match entries_of v with Some l => iter_at (length l) | None => iter_default end.

(** The entry under an iterator into the map of [v]. *)
Definition entry (v : Value) (it : ValueIteratorBase) : (CZString * Value) + fault :=
  match entries_of v, current_ it with
  | Some l, Some n => match l !! n with Some e => inl e | None => inr OutOfBounds end
  | _, _ => inr OutOfBounds
  end.

Definition deref (v : Value) (it : ValueIteratorBase) : Value + fault :=
  match entry v it with inl (_, x) => inl x | inr f => inr f end.

Definition increment (v : Value) (it : ValueIteratorBase) : ValueIteratorBase + fault :=
  match entry v it, current_ it with
  | inl _, Some n => inl (mk_iter (Some (S n)) (isNull_ it))
  | inr f, _ => inr f
  | _, None => inr OutOfBounds
  end.

Definition decrement (v : Value) (it : ValueIteratorBase) : ValueIteratorBase + fault :=
  match entries_of v, current_ it with
  | Some l, Some (S n) => if (n <? length l)%nat then inl (mk_iter (Some n) (isNull_ it)) else inr OutOfBounds
  | _, _ => inr OutOfBounds
  end.

(** The loop from one to the other; [fuel] is more than the entries that are left. *)
Fixpoint distance_loop (fuel : nat) (v : Value) (it other : ValueIteratorBase) (d : Z) : Z + fault :=
  match fuel with
  | O => inr OutOfFuel
  | S fuel' =>
      if decide (current_ it = current_ other) then inl d
      else match increment v it with inl it => distance_loop fuel' v it other (d + 1) | inr f => inr f end
  end.

Definition entry_count (v : Value) : nat := match entries_of v with Some l => length l | None => 0 end.

Definition computeDistance (v : Value) (it other : ValueIteratorBase) : Z + fault :=
  if isNull_ it && isNull_ other then inl 0 else distance_loop (S (S (entry_count v))) v it other 0.

Definition isEqual (it other : ValueIteratorBase) : bool :=
  if isNull_ it then isNull_ other else bool_decide (current_ it = current_ other).

(** [isNull_] stays as it was. *)
Definition iter_copy (self other : ValueIteratorBase) : ValueIteratorBase := mk_iter (current_ other) (isNull_ self).

Definition iter_key (v : Value) (it : ValueIteratorBase) : Value + fault :=
  match entry v it with
  | inl (k, _) => inl (match cz_str k with Some s => of_string s | None => of_uint (cz_index k) end)
  | inr f => inr f
  end.

Definition iter_index (v : Value) (it : ValueIteratorBase) : Z + fault :=
  match entry v it with
  | inl (k, _) => inl (match cz_str k with None => cz_index k | Some _ => maxUInt end)
  | inr f => inr f
  end.

Definition iter_memberName (v : Value) (it : ValueIteratorBase) : (list Z) + fault :=
  match entry v it with
  | inl (k, _) => inl (default [] (cz_str k))
  | inr f => inr f
  end.

(** ** The operators of the iterator classes *)

Definition iter_eq := isEqual.
Definition iter_ne (it other : ValueIteratorBase) : bool := negb (isEqual it other).
Definition iter_minus := computeDistance.
Definition iter_incr := increment.
Definition iter_decr := decrement.

(** The postfix forms return the iterator as it was. *)
Definition iter_post_incr (v : Value) (it : ValueIteratorBase) : (ValueIteratorBase * ValueIteratorBase) + fault :=
  match increment v it with inl it' => inl (it, it') | inr f => inr f end.
Definition iter_post_decr (v : Value) (it : ValueIteratorBase) : (ValueIteratorBase * ValueIteratorBase) + fault :=
  match decrement v it with inl it' => inl (it, it') | inr f => inr f end.

(** Copy construction copies everything; assignment is [copy]. *)
Definition iter_construct (other : ValueIteratorBase) : ValueIteratorBase := other.
Definition iter_assign (self other : ValueIteratorBase) : ValueIteratorBase := iter_copy self other.

(** ** Walking over a value

    [for (it = v.begin(); it != v.end(); ++it)], with what [key], [index], [memberName]
    and [*it] yield. *)
Record visit := mk_visit { vi_key : Value; vi_index : Z; vi_name : list Z; vi_value : Value }.

Fixpoint walk (fuel : nat) (v : Value) (it : ValueIteratorBase) : list visit + fault :=
  if iter_ne it (value_end v) then
    match fuel with
    | O => inr OutOfFuel
    | S fuel' =>
        match iter_key v it, iter_index v it, iter_memberName v it, deref v it, increment v it with
        | inl k, inl i, inl n, inl x, inl it =>
            match walk fuel' v it with inl l => inl (mk_visit k i n x :: l) | inr f => inr f end
        | _, _, _, _, _ => inr OutOfBounds
        end
    end
  else inl [].

(** What should come of it. *)
Definition visits (v : Value) : list visit :=
  match value_ v with
  | arrayValue m => map (fun p => mk_visit (of_uint p.1) p.1 [] p.2) m
  | objectValue m => map (fun p => mk_visit (of_string p.1) maxUInt p.1 p.2) m
  | _ => []
  end.

Definition visit_of (e : CZString * Value) : visit :=
  mk_visit (match cz_str e.1 with Some s => of_string s | None => of_uint (cz_index e.1) end)
    (match cz_str e.1 with None => cz_index e.1 | Some _ => maxUInt end) (default [] (cz_str e.1)) e.2.

Lemma visits_entries v l : entries_of v = Some l -> map visit_of l = visits v.
Proof.
  unfold entries_of, visits. destruct (value_ v) as [| | | | | |m|m]; try done; intros [= <-]; rewrite map_map;
    apply map_ext; by intros [].
Qed.

(** An iterator on the [n]-th entry. *)
Lemma entry_at v l n e : entries_of v = Some l -> l !! n = Some e -> entry v (iter_at n) = inl e.
Proof. intros Hl He. unfold entry. by rewrite Hl; cbn; rewrite He. Qed.

Lemma increment_at v l n e : entries_of v = Some l -> l !! n = Some e -> increment v (iter_at n) = inl (iter_at (S n)).
Proof. intros Hl He. unfold increment. by rewrite (entry_at v l n e). Qed.

Lemma ne_end v l n : entries_of v = Some l -> iter_ne (iter_at n) (value_end v) = negb (bool_decide (n = length l)).
Proof.
  intros Hl. unfold iter_ne, value_end, isEqual. rewrite Hl. cbn. f_equal. apply bool_decide_ext. split; congruence.
Qed.

Lemma walk_from v l fuel : entries_of v = Some l -> forall n, (length l - n <= fuel)%nat -> (n <= length l)%nat ->
  walk fuel v (iter_at n) = inl (map visit_of (drop n l)).
Proof.
  intros Hl. induction fuel as [|fuel IH]; intros n Hf Hn; cbn [walk]; rewrite (ne_end v l n Hl).
  - assert (n = length l) as -> by lia. by rewrite bool_decide_eq_true_2, drop_all.
  - destruct (decide (n = length l)) as [->|Hne]; [by rewrite bool_decide_eq_true_2, drop_all|].
    rewrite bool_decide_eq_false_2 by done. cbn [negb].
    destruct (lookup_lt_is_Some_2 l n) as [e He]; [lia|].
    unfold iter_key, iter_index, iter_memberName, deref. rewrite (entry_at v l n e Hl He), (increment_at v l n e Hl He).
    destruct e as [k x]. rewrite IH by lia. by rewrite (drop_S l (k, x) n He).
Qed.

Lemma entry_count_visits v : entry_count v = length (visits v).
Proof. unfold entry_count. destruct (entries_of v) as [l|] eqn:E; [by rewrite <-(visits_entries v l E), length_map|].
  unfold entries_of, visits in *. by destruct (value_ v). Qed.

Lemma distance_from v l other fuel : entries_of v = Some l -> forall n m d, current_ other = Some m ->
  (n <= m <= length l)%nat -> (m - n < fuel)%nat -> distance_loop fuel v (iter_at n) other d = inl (d + Z.of_nat (m - n)).
Proof.
  intros Hl. induction fuel as [|fuel IH]; intros n m d Hm Hn Hf; [lia|]. cbn [distance_loop]. rewrite Hm.
  cbn [current_ iter_at]. destruct (decide (Some n = Some m)) as [[= ->]|Hne]; [f_equal; lia|].
  assert (n <> m) by congruence. destruct (lookup_lt_is_Some_2 l n) as [e He]; [lia|].
  rewrite (increment_at v l n e Hl He), (IH (S n) m) by (done || lia). f_equal. lia.
Qed.

(** The loop from [begin] to [end] comes to an end on every value and visits the entries
    of an array or object in the order of their keys, each once, with its key, index and
    member name; a value of another type has nothing to visit; the names are those of
    [getMemberNames]; the iterators are as far apart as there are entries. *)
Theorem walk_visits v :
  walk (entry_count v) v (value_begin v) = inl (visits v) /\
  (isObject v = true -> getMemberNames v = inl (map vi_name (visits v))) /\
  computeDistance v (value_begin v) (value_end v) = inl (zlen (visits v)).
Proof.
  split; [|split].
  - unfold value_begin. destruct (entries_of v) as [l|] eqn:E.
    + assert (Hc : entry_count v = length l) by (unfold entry_count; by rewrite E). rewrite (walk_from v l _ E 0) by lia.
      by rewrite drop_0, (visits_entries v l E).
    + assert (He : value_end v = iter_default) by (unfold value_end; by rewrite E).
      assert (Hv : visits v = []) by (unfold visits, entries_of in *; by destruct (value_ v)).
      rewrite Hv. unfold entry_count. rewrite E. cbn [walk]. by rewrite He.
  - unfold isObject, getMemberNames, visits, JSON_ASSERT, isObject. destruct v as [c []]; cbn; try done.
    intros _. f_equal. rewrite map_map. by apply map_ext.
  - unfold computeDistance, value_begin, value_end, zlen. rewrite <-entry_count_visits. destruct (entries_of v) as [l|] eqn:E.
    + cbn [isNull_ iter_at andb]. assert (Hc : entry_count v = length l) by (unfold entry_count; by rewrite E). rewrite Hc.
      rewrite (distance_from v l _ _ E 0 (length l)) by (done || lia). f_equal. lia.
    + unfold entry_count. by rewrite E.
Qed.

(** A step back undoes a step on. *)
Lemma decrement_increment v it it' : increment v it = inl it' -> decrement v it' = inl it.
Proof.
  unfold increment, decrement, entry. destruct (entries_of v) as [l|]; [|done].
  destruct it as [[n|] b]; cbn [current_ isNull_]; [|done]. destruct (l !! n) eqn:E; [|done]. intros [= <-].
  cbn [current_ isNull_]. apply lookup_lt_Some, Nat.ltb_lt in E. by rewrite E.
Qed.
End Iterators.

(** ** Concrete iterators *)

(** An iterator that was made empty and assigned is not equal to what it was assigned. *)
Example assigned_not_equal :
  let v := @short_list in
  let it := iter_assign iter_default (value_begin v) in
  current_ it = current_ (value_begin v) /\ iter_eq it (value_begin v) = false.
Proof. by vm_compute. Qed.

(** [operator-] counts from its left operand to its right one: [begin() - end()] is the
    number of entries, [end() - begin()] runs past the end. *)
Example minus_reversed :
  iter_minus long_list (value_begin long_list) (value_end long_list) = inl 2 /\
  iter_minus long_list (value_end long_list) (value_begin long_list) = inr OutOfBounds.
Proof. by vm_compute. Qed.
