(* ===== verification/JsonPath.v ===== *)
(** * JsonPath: paths into values

    [Json::PathArgument] and [Json::Path] of [atb_sak/src/json/json_value.cpp]: the
    reading of a path text, [resolve] with and without a default, [make].  Where the code
    has a comment about an error it does nothing, and so does the model. *)
From stdpp Require Import base list.
From S2P Require Import Prelude Streams JsonValue JsonWriter JsonReader JsonPaths JsonText JsonTrip JsonProps JsonOrder.

Inductive PathArgument :=
  | kindNone
  | kindIndex (index_ : Z)
  | kindKey (key_ : list Z).

(** [PathArgument(const std::string &)] keeps what is before a NUL. *)
Definition PathArgument_index (i : Z) : PathArgument := kindIndex i.
Definition PathArgument_key (key : list Z) : PathArgument := kindKey (c_text key).

Inductive Kind := wantIndex | wantKey.

(** [addPathInArg]: what it appends to [args_].  [itInArg] is advanced by nobody: each
    [%] gets the first argument. *)
Definition addPathInArg (args : list PathArgument) (kind : Kind) : list PathArgument :=
  match args, kind with
  | kindIndex i :: _, wantIndex => [kindIndex i]
  | kindKey k :: _, wantKey => [kindKey k]
  | _, _ => []
  end.

(** The digits of an index; the sum wraps around at 32 bits. *)
Fixpoint read_index (index : Z) (l : list Z) : Z * list Z :=
  match l with
  | c :: l' => if is_digit c then read_index (uwrap 32 (index * 10 + (c - chr "0"))) l' else (index, l)
  | [] => (index, [])
  end.

(** The end of a name: [strchr("[.", c)] finds the NUL as well. *)
Definition ends_name (c : Z) : bool := (c =? chr "[") || (c =? chr ".") || (c =? 0).

Fixpoint take_while (f : Z -> bool) (l : list Z) : list Z :=
  match l with
  | c :: l' => if f c then c :: take_while f l' else []
  | [] => []
  end.

(** The test behind the index: [invalidPath] does nothing. *)
Definition skip_bracket (l : list Z) : list Z := tail l.

Definition in_name (c : Z) : bool := negb (ends_name c).

(** The loop of [makePath]: [fuel] rounds. *)
Fixpoint makePath (fuel : nat) (args : list PathArgument) (path : list Z) : list PathArgument + fault :=
  match path with
  | [] => inl []
  | c :: rest =>
      match fuel with
      | O => inr OutOfFuel
      | S fuel' =>
          let go l path := match makePath fuel' args path with inl l' => inl (l ++ l') | inr f => inr f end in
          if c =? chr "[" then
            if match rest with d :: _ => d =? chr "%" | [] => false end then go (addPathInArg args wantIndex) (skip_bracket rest)
            else
              let (index, rest) := read_index 0 rest in
              go [kindIndex index] (skip_bracket rest)
          else if c =? chr "%" then go (addPathInArg args wantKey) rest
          else if c =? chr "." then go [] rest
          else
            go [PathArgument_key (take_while in_name path)] (skip_while in_name path)
      end
  end.

(** [Path::Path]; arguments that are not given are of [kindNone]. *)
Definition Path_new (fuel : nat) (path : list Z) (given : list PathArgument) : list PathArgument + fault :=
  makePath fuel (take 5 (given ++ replicate 5 kindNone)) path.

Section Paths.
Context {D : Doubles}.

(** [resolve]: a node that is not there is [Value::null], which has no members. *)
Fixpoint resolve (args : list PathArgument) (node : Value) : Js Value :=
  match args with
  | [] => mret node
  | kindIndex i :: args => c ← at_index i node; resolve args c
  | kindKey k :: args => c ← at_member k node; resolve args c
  | kindNone :: args => resolve args node
  end.

(** [resolve] with a default: the node is compared with the address of [Value::null]. *)
Fixpoint resolve_or (args : list PathArgument) (dflt node : Value) : Js Value :=
  match args with
  | [] => mret node
  | kindIndex i :: args =>
      if negb (isArray node) || isValidIndex i node then mret dflt
      else c ← at_index i node; resolve_or args dflt c
  | kindKey k :: args =>
      if negb (isObject node) then mret dflt
      else
        r ← find_member k node;
        match r with Some c => resolve_or args dflt c | None => mret dflt end
  | kindNone :: args => resolve_or args dflt node
  end.

(** [make]: the root with the node at the end of the path made, and [f] done to it. *)
Fixpoint make (args : list PathArgument) (f : Value -> Value) (node : Value) : Js Value :=
  match args with
  | [] => mret (f node)
  | kindIndex i :: args =>
      node ← alter_index i id node; c ← at_index i node; c ← make args f c; alter_index i (fun _ => c) node
  | kindKey k :: args =>
      node ← alter_member k id node; c ← at_member k node; c ← make args f c; alter_member k (fun _ => c) node
  | kindNone :: args => make args f node
  end.
End Paths.

(** ** Reading what was written *)

(** The text of a path. *)
Definition argument_text (a : PathArgument) : list Z :=
  match a with
  | kindNone => []
  | kindIndex i => [chr "["] ++ dec_text i ++ [chr "]"]
  | kindKey k => [chr "."] ++ k
  end.
Definition path_text (args : list PathArgument) : list Z := concat (map argument_text args).

(** Indices of 32 bits; names that are not empty, without [[], [.] and NUL, and do not begin
    with [%]. *)
Definition plain_argument (a : PathArgument) : Prop :=
  match a with
  | kindNone => False
  | kindIndex i => 0 <= i < 2 ^ 32
  | kindKey k => k <> [] /\ Forall (fun c => in_name c = true) k /\ hd_error k <> Some (chr "%")
  end.

Lemma read_index_digits ds rest : forall acc,
  Forall (fun c => is_digit c = true) ds -> 0 <= acc -> digits_value 10 dec_digit acc ds < 2 ^ 32 ->
  match rest with c :: _ => is_digit c = false | [] => True end ->
  read_index acc (ds ++ rest) = (digits_value 10 dec_digit acc ds, rest).
Proof.
  induction ds as [|c ds IH]; intros acc Hds Ha Hv Hr; cbn [app].
  - destruct rest as [|c rest]; [done|]. cbn [read_index]. by rewrite Hr.
  - apply Forall_cons in Hds as [Hc Hds]. cbn [read_index]. rewrite Hc.
    pose proof Hc as Hc'. apply is_digit_range in Hc'. rewrite digits_value_cons in *.
    pose proof (digits_value_acc ds (acc * 10 + (c - 48)) ltac:(lia) Hds).
    change (chr "0") with 48. rewrite uwrap_small by lia. by apply IH; [|lia|..].
Qed.

Lemma take_skip_name k rest :
  Forall (fun c => in_name c = true) k -> match rest with c :: _ => in_name c = false | [] => True end ->
  take_while in_name (k ++ rest) = k /\ skip_while in_name (k ++ rest) = rest.
Proof.
  induction 1 as [|c k Hc Hk IH]; intros Hr; cbn [app].
  - destruct rest as [|c rest]; [done|]. cbn. by rewrite Hr.
  - cbn [take_while skip_while]. rewrite Hc. destruct (IH Hr) as [-> ->]. done.
Qed.

Lemma c_text_name k : Forall (fun c => in_name c = true) k -> c_text k = k.
Proof.
  induction 1 as [|c k Hc Hk IH]; [done|]. cbn. unfold in_name, ends_name in Hc.
  destruct (c =? 0) eqn:E; [by rewrite orb_true_r in Hc|]. by rewrite IH.
Qed.

(** The rest of a path text does not begin inside a name. *)
Lemma path_text_head args : match path_text args with c :: _ => in_name c = false | [] => True end.
Proof.
  induction args as [|[|i|k] args IH]; [done|exact IH|done|done].
Qed.

(** A path written from indices and names is read as exactly those, whatever arguments
    are given along; as many rounds as the text has characters are enough. *)
Theorem path_roundtrip args given :
  Forall plain_argument args -> Path_new (length (path_text args)) (path_text args) given = inl args.
Proof.
  unfold Path_new. generalize (take 5 (given ++ replicate 5 kindNone)) as gs. intros gs H.
  enough (Hf : forall fuel, (length (path_text args) <= fuel)%nat -> makePath fuel gs (path_text args) = inl args) by by apply Hf.
  induction H as [|a args Ha Hargs IH]; intros fuel Hf; [by destruct fuel|].
  pose proof (path_text_head args) as Hhd.
  change (path_text (a :: args)) with (argument_text a ++ path_text args) in *. rewrite length_app in Hf.
  destruct a as [|i|k]; [done| |]; cbn [argument_text app length plain_argument] in *.
  - destruct fuel as [|fuel]; [lia|]. rewrite !length_app in Hf. destruct (dec_text_digits i ltac:(lia)) as [[Hne Hd] Hv].
    destruct (dec_text i) as [|d ds] eqn:Ed; [done|]. cbn [makePath app]. change (chr "[" =? chr "[") with true. cbv iota beta.
    assert (Hpc : (d =? chr "%") = false) by (apply Forall_cons in Hd as [Hd _]; apply is_digit_range in Hd; cbn; lia).
    rewrite Hpc. rewrite <-app_assoc, app_comm_cons, read_index_digits; [|done|done|unfold dec_value in Hv; lia|done].
    cbn [skip_bracket tail app]. rewrite IH by (cbn [length] in Hf; lia). unfold dec_value in Hv. by rewrite Hv.
  - destruct Ha as (Hne & Hk & Hpc). destruct k as [|c k]; [done|]. destruct fuel as [|[|fuel]]; [lia|cbn in Hf; lia|].
    pose proof (Forall_inv Hk) as Hc. unfold in_name, ends_name in Hc.
    assert (Hc1 : (c =? chr "[") = false) by (destruct (c =? chr "["); done).
    assert (Hc2 : (c =? chr ".") = false) by (destruct (c =? chr "."), (c =? chr "["); done).
    assert (Hc3 : (c =? chr "%") = false) by (apply Z.eqb_neq; intros ->; by apply Hpc).
    cbn [makePath app]. change (chr "." =? chr "[") with false. change (chr "." =? chr "%") with false.
    change (chr "." =? chr ".") with true. cbv iota beta. rewrite Hc1, Hc2, Hc3.
    destruct (take_skip_name (c :: k) (path_text args) Hk Hhd) as [Et Es]. cbn [app] in Et, Es. rewrite Et, Es.
    rewrite IH by (cbn [length] in Hf; lia). unfold PathArgument_key. by rewrite (c_text_name (c :: k) Hk).
Qed.

(** A NUL in the path stops no name and is stepped over by nothing: the loop goes on for
    ever, appending empty names. *)
Lemma nul_never_ends fuel args rest : makePath fuel args (0 :: rest) = inr OutOfFuel.
Proof.
  induction fuel as [|fuel IH]; [done|]. cbn [makePath]. change (0 =? chr "[") with false. change (0 =? chr "%") with false.
  change (0 =? chr ".") with false. cbn [take_while skip_while]. change (in_name 0) with false. cbv iota beta. by rewrite IH.
Qed.

(** ** Making and resolving *)

Section Laws.
Context {D : Doubles}.

(** One step of a path, for both kinds: the child is what [find] finds or [null]. *)
Lemma index_step i v :
  match at_index i v with
  | inl c => exists v1, alter_index i id v = inl v1 /\ at_index i v1 = inl c /\
      (forall x, exists v2, alter_index i (fun _ => x) v1 = inl v2 /\ at_index i v2 = inl x)
  | inr e => alter_index i id v = inr e
  end.
Proof.
  destruct v as [cm []]; try done; unfold at_index, find_index, alter_index, JSON_ASSERT; cbn.
  - eexists. split; [done|]. cbn. rewrite Z.ltb_irrefl. split; [done|]. intros x. eexists. split; [done|]. cbn. by rewrite Z.ltb_irrefl.
  - eexists. split; [done|]. cbn. rewrite (map_find_alter Z.ltb). split; [done|]. intros x. eexists. split; [done|].
    cbn. by rewrite (map_find_alter Z.ltb).
Qed.

Lemma member_step k v :
  match at_member k v with
  | inl c => exists v1, alter_member k id v = inl v1 /\ at_member k v1 = inl c /\
      (forall x, exists v2, alter_member k (fun _ => x) v1 = inl v2 /\ at_member k v2 = inl x)
  | inr e => alter_member k id v = inr e
  end.
Proof.
  destruct v as [cm []]; try done; unfold at_member, find_member, alter_member, JSON_ASSERT; cbn.
  - eexists. split; [done|]. cbn. rewrite str_ltb_irrefl. split; [done|]. intros x. eexists. split; [done|]. cbn. by rewrite str_ltb_irrefl.
  - eexists. split; [done|]. cbn. rewrite (map_find_alter str_ltb). split; [done|]. intros x. eexists. split; [done|].
    cbn. by rewrite (map_find_alter str_ltb).
Qed.

(** [make] and [resolve] agree on every path and every value: where [resolve] comes to a
    node ([null] where there is none), [make] leaves a root from which [resolve] comes to
    that node with what was done to it; and where [resolve] runs into an assertion, a node
    of the wrong type, so does [make]. *)
Theorem make_resolves args f v :
  match resolve args v with
  | inl c => exists root, make args f v = inl root /\ resolve args root = inl (f c)
  | inr e => make args f v = inr e
  end.
Proof.
  revert v. induction args as [|[|i|k] args IH]; intros v; cbn [resolve make]; [by exists (f v)|apply IH|..].
  - pose proof (index_step i v) as H. destruct (at_index i v) as [c|e]; [|cbn; by rewrite H].
    destruct H as (v1 & H1 & H2 & H3). cbn. rewrite H1. cbn. rewrite H2. cbn. specialize (IH c).
    destruct (resolve args c) as [x|e]; [|cbn; by rewrite IH]. destruct IH as (c' & Hc & Hr). rewrite Hc. cbn.
    destruct (H3 c') as (v2 & H4 & H5). exists v2. split; [done|]. by rewrite H5.
  - pose proof (member_step k v) as H. destruct (at_member k v) as [c|e]; [|cbn; by rewrite H].
    destruct H as (v1 & H1 & H2 & H3). cbn. rewrite H1. cbn. rewrite H2. cbn. specialize (IH c).
    destruct (resolve args c) as [x|e]; [|cbn; by rewrite IH]. destruct IH as (c' & Hc & Hr). rewrite Hc. cbn.
    destruct (H3 c') as (v2 & H4 & H5). exists v2. split; [done|]. by rewrite H5.
Qed.

(** With a default no element of an array is ever reached: the test of the index is the
    wrong way round. *)
Lemma resolve_or_valid_index i args dflt v :
  isArray v = true -> isValidIndex i v = true -> resolve_or (kindIndex i :: args) dflt v = inl dflt.
Proof. intros Ha Hv. cbn [resolve_or]. by rewrite Ha, Hv. Qed.
End Laws.

(** ** Concrete paths *)

Definition sample_path : list PathArgument := [kindKey (bytes "groups"); kindIndex 12; kindIndex 0; kindKey (bytes "name")].

Definition plainb (a : PathArgument) : bool :=
  match a with
  | kindNone => false
  | kindIndex i => (0 <=? i) && (i <? 2 ^ 32)
  | kindKey k => forallb in_name k && match k with c :: _ => negb (c =? chr "%") | [] => false end
  end.

Lemma plain_nameb_ok args : forallb plainb args = true -> Forall plain_argument args.
Proof.
  intros H. apply Forall_forall. intros a Ha. rewrite forallb_forall in H. specialize (H a (proj1 (list_elem_of_In _ _) Ha)).
  destruct a as [|i|k]; [done| |]; cbn [plainb plain_argument] in *; [lia|].
  apply andb_true_iff in H as [Hk Hc]. destruct k as [|c k]; [done|]. split; [done|]. split.
  - apply Forall_forall. intros d Hd. rewrite forallb_forall in Hk. by apply Hk, list_elem_of_In.
  - cbn [hd_error]. intros [= ->]. by rewrite Z.eqb_refl in Hc.
Qed.

Lemma path_roundtrip_witness :
  path_text sample_path = bytes ".groups[12][0].name" /\
  Path_new (length (path_text sample_path)) (path_text sample_path) [] = inl sample_path.
Proof.
  split; [by vm_compute|]. apply (path_roundtrip sample_path []).
  apply plain_nameb_ok. by vm_compute.
Defined.

(** Arguments are given for two placeholders, and both get the first. *)
Example both_get_the_first :
  Path_new 20 (bytes ".%.%") [kindKey (bytes "a"); kindKey (bytes "b")] = inl [kindKey (bytes "a"); kindKey (bytes "a")].
Proof. by vm_compute. Qed.

(** An index given as [[%]]: the percent sign is taken for the bracket and the bracket for a
    name. *)
Example bracket_becomes_name : Path_new 20 (bytes "[%]") [kindIndex 3] = inl [kindIndex 3; kindKey (bytes "]")].
Proof. by vm_compute. Qed.

Definition is_value (w : @Value integral_doubles) (r : Js (@Value integral_doubles)) : bool :=
  match r with inl v => value_eqb v w | inr _ => false end.

(** The element that is there is not found, and for one that is not, [null] is returned. *)
Example element_or_default :
  is_value (of_int 9) (resolve [kindIndex 0] short_list) = true /\
  is_value (of_int 5) (resolve_or [kindIndex 0] (of_int 5) short_list) = true /\
  is_value Value_null (resolve_or [kindIndex 7] (of_int 5) short_list) = true.
Proof. split_and!; vm_compute; reflexivity. Qed.
