(* ===== verification/JsonStream.v ===== *)
(** * JsonStream: the writer to a stream

    [StyledStreamWriter] of [atb_sak/src/json/json_writer.cpp] and [operator<<].  Its
    methods are those of [StyledWriter] over again, but for the indentation, which the
    constructor is given, and [writeIndent], which always begins a line; so they are the
    methods of [JsonWriter] with another [Layout].  The document is what has been put
    into the stream. *)
From stdpp Require Import base list.
From S2P Require Import Prelude Control Streams JsonValue JsonWriter JsonReader JsonText JsonTrip JsonStyled JsonProps.

(** [StyledStreamWriter::writeIndent] *)
Definition stream_writeIndent : Ctl fault StyledWriter unit :=
  modify (fun w => set_sw_document (sw_document w ++ [LF] ++ sw_indentString w) w).

Definition stream_layout (indentation : list Z) : Layout := {|
  indentation_ := indentation;
  put_indent := stream_writeIndent;
|}.

(** [StyledStreamWriter::StyledStreamWriter]; the indentation is a tab if none is given. *)
Definition StyledStreamWriter_new (indentation : option (list Z)) : Layout := stream_layout (default [9] indentation).

Section Stream.
Context {D : Doubles} (W : Layout).

Definition stream_pushValue : list Z -> Ctl fault StyledWriter unit := pushValue.
Definition stream_writeWithIndent : list Z -> Ctl fault StyledWriter unit := writeWithIndent (L := W).
Definition stream_indent : Ctl fault StyledWriter unit := indent (L := W).
Definition stream_unindent : Ctl fault StyledWriter unit := unindent (L := W).
Definition stream_writeCommentBeforeValue : Value -> Ctl fault StyledWriter unit := writeCommentBeforeValue.
Definition stream_writeCommentAfterValueOnSameLine : Value -> Ctl fault StyledWriter unit := writeCommentAfterValueOnSameLine.
Definition stream_hasCommentForValue (v : Value) : bool :=
  hasComment commentBefore v || hasComment commentAfterOnSameLine v || hasComment commentAfter v.
Definition stream_normalizeEOL : list Z -> list Z := normalizeEOL.
Definition stream_isMultineArray : Z -> list child -> Ctl fault StyledWriter bool := isMultineArray.
Definition stream_writeArrayValue : Z -> list child -> Ctl fault StyledWriter unit := writeArrayValue (L := W).
Definition stream_writeObjectValue : list (list Z * child) -> Ctl fault StyledWriter unit := writeObjectValue (L := W).
Definition stream_writeValue : Value -> Ctl fault StyledWriter unit := styled_value (L := W).

(** [write]: what is in the stream behind it. *)
Definition StyledStreamWriter_write (out : list Z) (root : Value) : list Z + fault :=
  match (stream_writeCommentBeforeValue root ;; stream_writeValue root ;;
         stream_writeCommentAfterValueOnSameLine root ;; sw_emit [LF]) (mk_styled out [] [] false) with
  | inl (_, w) => inl (sw_document w)
  | inr (f, _) => inr f
  end.
End Stream.

(** [operator<<] *)
Definition stream_out {D : Doubles} (sout : list Z) (root : Value) : list Z + fault :=
  StyledStreamWriter_write (StyledStreamWriter_new None) sout root.

(** ** The round trip *)

Lemma stream_laws ind : spaces ind -> LayoutLaws (stream_layout ind).
Proof.
  intros Hi. split; [done|]. intros s Hs. exists ([LF] ++ sw_indentString s). split; [|done].
  apply Forall_app. split; [by apply Forall_singleton|done].
Qed.

Section Trip.
Context {D : Doubles}.

(** What a [StyledStreamWriter] with any white space for its indentation puts into a
    stream, behind whatever is there already, is a text that the reader reads back as the
    same value (up to the type of integers and the holes of arrays). *)
Theorem stream_roundtrip ind out v collectComments :
  spaces ind -> value_ok v -> printable v -> plain v ->
  exists text, StyledStreamWriter_write (StyledStreamWriter_new (Some ind)) out v = inl (out ++ text) /\
    parse collectComments text Value_null = inl (true, normal v, []).
Proof. intros Hi. apply (layout_reads (L := stream_layout ind) (LayoutLaws0 := stream_laws ind Hi) out). Qed.
End Trip.

(** ** A concrete document *)

Lemma stream_roundtrip_witness :
  exists text,
    StyledStreamWriter_write (D := integral_doubles) (StyledStreamWriter_new (Some [9])) (bytes "config: ") camera =
      inl (bytes "config: " ++ text) /\
    parse (D := integral_doubles) true text Value_null = inl (true, normal camera, []).
Proof. apply (@stream_roundtrip integral_doubles [9]); [by repeat constructor|check_value..]. Defined.

(** Every bracket of a container begins a line, the first one too. *)
Example stream_layout_of_object :
  stream_out (D := integral_doubles) [] (object_with [(bytes "id", of_int 7)]) =
    inl ([LF] ++ bytes "{" ++ [LF; 9] ++ [34] ++ bytes "id" ++ [34] ++ bytes " : 7" ++ [LF] ++ bytes "}" ++ [LF]).
Proof. vm_compute. reflexivity. Qed.
