(* ===== verification/JsonMemory.v ===== *)
(** * JsonMemory: who owns the memory of a value

    The constructors, the destructor, assignment and the containers of [Value] and
    [CZString] in [atb_sak/src/json/json_value.cpp] once more, now with the pointers:
    strings, comments and maps are blocks on a heap, which are duplicated and released
    as the code does it.  [JsonValue] describes what the same operations do to the
    contents; [JsonMemoryProps] shows that the two agree and that every block has one
    owner.

    A [char *] is null, points to a block, or to a string outside the heap of the
    values: the text of a [StaticString] or a string of the caller.  A string is its
    characters up to the NUL.  The nodes of a [std::map] and the vector of a value are
    memory of the standard library and are part of the value; the map object itself,
    which the code allocates with [new], is a block.  Of [malloc] and [new] it is
    assumed that they find the memory. *)
From stdpp Require Import base gmap list.
From S2P Require Import Prelude Control Streams JsonValue JsonOrder.

Inductive block :=
  | StringBlock (s : list Z)
  | MapBlock
  | CommentsBlock.

Inductive cpointer := Null | Heap (a : Z) | Outside (s : list Z).

Abbreviation heap := (gmap Z block).
Abbreviation M := (Ctl json_stop heap).

(** ** Strings *)

Definition fresh_address : M Z := gets (fun h => fresh (dom h : gset Z)).
Definition new_block (b : block) : M Z := a ← fresh_address; modify (fun h => <[a := b]> h);; mret a.

(** [free] and [delete] of a block of the right kind; any other address is a fault. *)
Definition free_block (kind : block -> bool) (a : Z) : M unit :=
  o ← gets (fun h => h !! a);
  match o with
  | Some b => if kind b then modify (fun h => delete a h) else exit (Faults OutOfBounds)
  | None => exit (Faults OutOfBounds)
  end.
Definition is_string (b : block) : bool := match b with StringBlock _ => true | _ => false end.
Definition is_map (b : block) : bool := match b with MapBlock => true | _ => false end.
Definition is_comments (b : block) : bool := match b with CommentsBlock => true | _ => false end.

(** The characters a pointer points to; [None] for a null or a dangling pointer. *)
Definition text_at (h : heap) (p : cpointer) : option (list Z) :=
  match p with
  | Null => None
  | Heap a => match h !! a with Some (StringBlock s) => Some s | _ => None end
  | Outside s => Some s
  end.
Definition read_text (p : cpointer) : M (list Z) :=
  o ← gets (fun h => text_at h p); match o with Some s => mret s | None => exit (Faults OutOfBounds) end.

Definition duplicateStringValue (p : cpointer) : M cpointer :=
  s ← read_text p; a ← new_block (StringBlock s); mret (Heap a).

(** With a length: the characters up to a NUL are what counts. *)
Definition duplicate_range (chars : list Z) : M cpointer := a ← new_block (StringBlock (c_text chars)); mret (Heap a).

Definition releaseStringValue (p : cpointer) : M unit :=
  match p with
  | Null => mret tt
  | Heap a => free_block is_string a
  | Outside _ => exit (Faults OutOfBounds)
  end.

(** ** Value::CZString *)

Record mkey := mk_mkey { k_cstr : cpointer; k_index : Z }.

Definition is_null (p : cpointer) : bool := match p with Null => true | _ => false end.

Definition key_of_index (i : Z) : mkey := mk_mkey Null i.
Definition key_of_str (p : cpointer) (allocate : Z) : M mkey :=
  q ← (if allocate =? duplicate then duplicateStringValue p else mret p); mret (mk_mkey q allocate).
Definition copy_key (k : mkey) : M mkey :=
  q ← (if negb (k_index k =? noDuplication) && negb (is_null (k_cstr k)) then duplicateStringValue (k_cstr k) else mret (k_cstr k));
  mret (mk_mkey q (if negb (is_null (k_cstr k))
                   then (if k_index k =? noDuplication then noDuplication else duplicate) else k_index k)).
Definition delete_key (k : mkey) : M unit :=
  when (negb (is_null (k_cstr k)) && (k_index k =? duplicate)) (releaseStringValue (k_cstr k)).

(** [operator<] and [operator==]. *)
Definition key_lt (k k' : mkey) : M bool :=
  if is_null (k_cstr k) then mret (k_index k <? k_index k')
  else s ← read_text (k_cstr k); t ← read_text (k_cstr k'); mret (str_ltb s t).
Definition key_eq (k k' : mkey) : M bool :=
  if is_null (k_cstr k) then mret (k_index k =? k_index k')
  else s ← read_text (k_cstr k); t ← read_text (k_cstr k'); mret (bool_decide (s = t)).

(** ** Value *)

(** The three [CommentInfo] of a value, in the order of [CommentPlacement]. *)
Record comment_infos := mk_infos { ci_before : cpointer; ci_same_line : cpointer; ci_after : cpointer }.

Section Memory.
Context {D : Doubles}.

Inductive mdata (V : Type) :=
  | MNull
  | MInt (n : Z)
  | MUInt (n : Z)
  | MReal (d : double)
  | MString (p : cpointer) (allocated : bool)
  | MBool (b : bool)
  | MMap (is_array : bool) (a : Z) (m : list (mkey * V)).
Arguments MNull {V}.
Arguments MInt {V} n.
Arguments MUInt {V} n.
Arguments MReal {V} d.
Arguments MString {V} p allocated.
Arguments MBool {V} b.
Arguments MMap {V} is_array a m.

Inductive mvalue := MVal { mv_comments : option (Z * comment_infos); mv_data : mdata mvalue }.

(** The constructors.  [Value( std::string )] and the one from two pointers duplicate a
    range, the one from a [StaticString] takes the pointer. *)
Definition value_null : mvalue := MVal None MNull.
Definition value_of_string (p : cpointer) : M mvalue := q ← duplicateStringValue p; mret (MVal None (MString q true)).
Definition value_of_range (chars : list Z) : M mvalue := q ← duplicate_range chars; mret (MVal None (MString q true)).
Definition value_of_static (s : list Z) : mvalue := MVal None (MString (Outside s) false).
Definition value_of_map (is_array : bool) : M mvalue := a ← new_block MapBlock; mret (MVal None (MMap is_array a [])).

(** [CommentInfo::setComment]: what was there is released before the text is looked at. *)
Definition comment_starts (s : list Z) : bool := match s with [] => true | c :: _ => c =? chr "/" end.
Definition setCommentInfo (old text : cpointer) : M cpointer :=
  when (negb (is_null old)) (releaseStringValue old);;
  s ← read_text text;
  (if comment_starts s then mret tt else exit (Throws (bytes "Comments must start with /")));;
  duplicateStringValue text.

Definition copy_info (p : cpointer) : M cpointer := if is_null p then mret Null else setCommentInfo Null p.
Definition delete_info (p : cpointer) : M unit := when (negb (is_null p)) (releaseStringValue p).

Definition copy_comments (c : option (Z * comment_infos)) : M (option (Z * comment_infos)) :=
  match c with
  | None => mret None
  | Some (_, i) =>
      a ← new_block CommentsBlock;
      p ← copy_info (ci_before i); q ← copy_info (ci_same_line i); r ← copy_info (ci_after i);
      mret (Some (a, mk_infos p q r))
  end.
Definition delete_comments (c : option (Z * comment_infos)) : M unit :=
  match c with
  | None => mret tt
  | Some (a, i) => delete_info (ci_after i);; delete_info (ci_same_line i);; delete_info (ci_before i);; free_block is_comments a
  end.

(** [Value( const Value & )].  Where the string is null the copy leaves [allocated_] as
    the memory was; no operation depends on it then. *)
Fixpoint copy_value (v : mvalue) : M mvalue :=
  let fix copy_pairs (m : list (mkey * mvalue)) : M (list (mkey * mvalue)) :=
    match m with
    | [] => mret []
    | (k, x) :: m => k' ← copy_key k; x' ← copy_value x; m' ← copy_pairs m; mret ((k', x') :: m')
    end in
  match v with
  | MVal c d =>
      d' ← match d with
           | MString p _ => if is_null p then mret (MString Null false) else q ← duplicateStringValue p; mret (MString q true)
           | MMap is_array _ m => a ← new_block MapBlock; m' ← copy_pairs m; mret (MMap is_array a m')
           | _ => mret d
           end;
      c' ← copy_comments c; mret (MVal c' d')
  end.

Fixpoint copy_pairs (m : list (mkey * mvalue)) : M (list (mkey * mvalue)) :=
  match m with
  | [] => mret []
  | (k, x) :: m => k' ← copy_key k; x' ← copy_value x; m' ← copy_pairs m; mret ((k', x') :: m')
  end.

(** [~Value]. *)
Fixpoint delete_value (v : mvalue) : M unit :=
  let fix delete_pairs (m : list (mkey * mvalue)) : M unit :=
    match m with
    | [] => mret tt
    | (k, x) :: m => delete_value x;; delete_key k;; delete_pairs m
    end in
  match v with
  | MVal c d =>
      match d with
      | MString p allocated => when allocated (releaseStringValue p)
      | MMap _ a m => delete_pairs m;; free_block is_map a
      | _ => mret tt
      end;;
      delete_comments c
  end.

Fixpoint delete_pairs (m : list (mkey * mvalue)) : M unit :=
  match m with
  | [] => mret tt
  | (k, x) :: m => delete_value x;; delete_key k;; delete_pairs m
  end.

(** [swap]: the comments stay. *)
Definition swap_values (v w : mvalue) : mvalue * mvalue :=
  (MVal (mv_comments v) (mv_data w), MVal (mv_comments w) (mv_data v)).

(** [operator=]. *)
Definition assign_value (v other : mvalue) : M mvalue :=
  temp ← copy_value other;
  let '(v', temp') := swap_values v temp in
  delete_value temp';; mret v'.

Definition is_MNull (v : mvalue) : bool := match mv_data v with MNull => true | _ => false end.
Definition is_MMap (is_array : bool) (v : mvalue) : bool := match mv_data v with MMap b _ _ => Bool.eqb b is_array | _ => false end.

Definition massert (b : bool) : M unit := if b then mret tt else exit (Faults AssertFailed).

(** [if ( type_ == nullValue ) *this = Value( arrayValue )], and the same for objects. *)
Definition make_container (is_array : bool) (v : mvalue) : M mvalue :=
  if is_MNull v then t ← value_of_map is_array; v' ← assign_value v t; delete_value t;; mret v' else mret v.

(** [std::map::lower_bound] and [insert] of a pair at that place: the pair and then the
    node are copies, and the pair goes. *)
Fixpoint lower_bound (k : mkey) (m : list (mkey * mvalue)) : M nat :=
  match m with
  | [] => mret 0%nat
  | (k', _) :: m => b ← key_lt k' k; if (b : bool) then n ← lower_bound k m; mret (S n) else mret 0%nat
  end.

Definition insert_null (i : nat) (k : mkey) (m : list (mkey * mvalue)) : M (list (mkey * mvalue)) :=
  k1 ← copy_key k; v1 ← copy_value value_null;
  k2 ← copy_key k1; v2 ← copy_value v1;
  delete_value v1;; delete_key k1;;
  mret (take i m ++ (k2, v2) :: drop i m).

Definition resolve_key (k : mkey) (m : list (mkey * mvalue)) : M (nat * list (mkey * mvalue)) :=
  i ← lower_bound k m;
  match m !! i with
  | Some (k', _) => b ← key_eq k' k; if (b : bool) then mret (i, m) else m' ← insert_null i k m; mret (i, m')
  | None => m' ← insert_null i k m; mret (i, m')
  end.

Definition with_pairs (v : mvalue) (m : list (mkey * mvalue)) : mvalue :=
  MVal (mv_comments v) (match mv_data v with MMap b a _ => MMap b a m | d => d end).
Definition pairs_of (v : mvalue) : list (mkey * mvalue) := match mv_data v with MMap _ _ m => m | _ => [] end.

(** [operator[]( ArrayIndex )] and [resolveReference]: the value and the place of the
    child in its map. *)
Definition at_place (is_array : bool) (k : mkey) (v : mvalue) : M (nat * mvalue) :=
  '(i, m) ← resolve_key k (pairs_of v); delete_key k;; mret (i, with_pairs v m).

Definition resolve_index (index : Z) (v : mvalue) : M (nat * mvalue) :=
  massert (is_MNull v || is_MMap true v);; v ← make_container true v; at_place true (key_of_index index) v.

Definition resolveReference (key : cpointer) (isStatic : bool) (v : mvalue) : M (nat * mvalue) :=
  massert (is_MNull v || is_MMap false v);; v ← make_container false v;
  k ← key_of_str key (if isStatic then noDuplication else duplicateOnCopy); at_place false k v.

(** [v[...] = x]. *)
Definition assign_child (iv : nat * mvalue) (x : mvalue) : M mvalue :=
  let '(i, v) := iv in
  match pairs_of v !! i with
  | Some (k, c) => c' ← assign_value c x; mret (with_pairs v (<[i := (k, c')]> (pairs_of v)))
  | None => exit (Faults OutOfBounds)
  end.

Definition set_member_mem (key : cpointer) (isStatic : bool) (x v : mvalue) : M mvalue :=
  iv ← resolveReference key isStatic v; assign_child iv x.
Definition set_index_mem (index : Z) (x v : mvalue) : M mvalue := iv ← resolve_index index v; assign_child iv x.

(** [find] for [removeMember]. *)
Definition find_key (k : mkey) (m : list (mkey * mvalue)) : M (option nat) :=
  i ← lower_bound k m;
  match m !! i with
  | Some (k', _) => b ← key_eq k' k; mret (if (b : bool) then Some i else None)
  | None => mret None
  end.

Definition remove_member_mem (key : cpointer) (v : mvalue) : M (mvalue * mvalue) :=
  massert (is_MNull v || is_MMap false v);;
  if is_MNull v then mret (value_null, v)
  else
    k ← key_of_str key noDuplication;
    r ← find_key k (pairs_of v);
    match r ≫= fun i => (fun kx => (i, kx)) <$> pairs_of v !! i with
    | None => delete_key k;; mret (value_null, v)
    | Some (i, (k', x)) =>
        old ← copy_value x; delete_value x;; delete_key k';; delete_key k;;
        mret (old, with_pairs v (take i (pairs_of v) ++ drop (S i) (pairs_of v)))
    end.

Definition clear_mem (v : mvalue) : M mvalue :=
  massert (is_MNull v || is_MMap true v || is_MMap false v);;
  delete_pairs (pairs_of v);; mret (with_pairs v []).

(** [comments_[placement]]. *)
Definition info_at (place : CommentPlacement) (i : comment_infos) : cpointer :=
  match place with commentBefore => ci_before i | commentAfterOnSameLine => ci_same_line i | commentAfter => ci_after i end.
Definition set_info (place : CommentPlacement) (p : cpointer) (i : comment_infos) : comment_infos :=
  match place with
  | commentBefore => mk_infos p (ci_same_line i) (ci_after i)
  | commentAfterOnSameLine => mk_infos (ci_before i) p (ci_after i)
  | commentAfter => mk_infos (ci_before i) (ci_same_line i) p
  end.

Definition make_comments (v : mvalue) : M (Z * comment_infos) :=
  match mv_comments v with
  | Some ai => mret ai
  | None => a ← new_block CommentsBlock; mret (a, mk_infos Null Null Null)
  end.

Definition set_comment_mem (text : cpointer) (place : CommentPlacement) (v : mvalue) : M mvalue :=
  '(a, i) ← make_comments v;
  p ← setCommentInfo (info_at place i) text;
  mret (MVal (Some (a, set_info place p i)) (mv_data v)).

(** ** Programs with values

    What a client does with the values it has, which are numbered; an operation on a
    value there is not does nothing.  The value that is put into another is a different
    one. *)
Inductive value_op :=
  | MakeNull
  | MakeString (s : list Z)               (* Value( const char * ) *)
  | MakeRange (s : list Z)                (* Value( std::string ) *)
  | MakeStatic (s : list Z)
  | MakeContainer (is_array : bool)
  | MakeCopy (i : nat)
  | Assign (i j : nat)
  | Swap (i j : nat)
  | SetMember (i : nat) (key : list Z) (isStatic : bool) (j : nat)
  | SetIndex (i : nat) (index : Z) (j : nat)
  | Remove (i : nat) (key : list Z)       (* the member becomes a value of its own *)
  | Clear (i : nat)
  | SetComment (i : nat) (text : list Z) (place : CommentPlacement)
  | Destroy (i : nat).

Definition new_value (m : M mvalue) (vs : list mvalue) : M (list mvalue) := v ← m; mret (v :: vs).
Definition change_value (i : nat) (f : mvalue -> M mvalue) (vs : list mvalue) : M (list mvalue) :=
  match vs !! i with Some v => v' ← f v; mret (<[i := v']> vs) | None => mret vs end.
Definition change_from (i j : nat) (f : mvalue -> mvalue -> M mvalue) (vs : list mvalue) : M (list mvalue) :=
  match vs !! j with
  | Some x => if decide (i = j) then mret vs else change_value i (f x) vs
  | None => mret vs
  end.

Definition value_step (op : value_op) (vs : list mvalue) : M (list mvalue) :=
  match op with
  | MakeNull => mret (value_null :: vs)
  | MakeString s => new_value (value_of_string (Outside (c_text s))) vs
  | MakeRange s => new_value (value_of_range s) vs
  | MakeStatic s => mret (value_of_static (c_text s) :: vs)
  | MakeContainer is_array => new_value (value_of_map is_array) vs
  | MakeCopy i => match vs !! i with Some v => new_value (copy_value v) vs | None => mret vs end
  | Assign i j => match vs !! j with Some x => change_value i (fun v => assign_value v x) vs | None => mret vs end
  | Swap i j =>
      match vs !! i, vs !! j with
      | Some v, Some w => if decide (i = j) then mret vs
          else let '(v', w') := swap_values v w in mret (<[j := w']> (<[i := v']> vs))
      | _, _ => mret vs
      end
  | SetMember i key isStatic j => change_from i j (fun x v => set_member_mem (Outside (c_text key)) isStatic x v) vs
  | SetIndex i index j => change_from i j (fun x v => set_index_mem index x v) vs
  | Remove i key =>
      match vs !! i with
      | Some v => '(old, v') ← remove_member_mem (Outside (c_text key)) v; mret (old :: <[i := v']> vs)
      | None => mret vs
      end
  | Clear i => change_value i clear_mem vs
  | SetComment i text place => change_value i (set_comment_mem (Outside (c_text text)) place) vs
  | Destroy i => match vs !! i with Some v => delete_value v;; mret (take i vs ++ drop (S i) vs) | None => mret vs end
  end.

Fixpoint value_steps (ops : list value_op) (vs : list mvalue) : M (list mvalue) :=
  match ops with [] => mret vs | op :: ops => vs' ← value_step op vs; value_steps ops vs' end.

(** The end of the scope: every value goes. *)
Fixpoint delete_all (vs : list mvalue) : M unit :=
  match vs with [] => mret tt | v :: vs => delete_value v;; delete_all vs end.

(** ** Induction that reaches the children *)

Section MInduction.
Variable P : mvalue -> Prop.
Hypothesis Pval : forall c d, match d with MMap _ _ m => Forall (fun p => P p.2) m | _ => True end -> P (MVal c d).

Fixpoint mvalue_deep_ind (v : mvalue) : P v :=
  let fix children (m : list (mkey * mvalue)) : Forall (fun p => P p.2) m :=
    match m with
    | [] => Forall_nil_2 _
    | p :: m' => Forall_cons_2 _ _ _ (match p as q return P q.2 with (_, c) => mvalue_deep_ind c end) (children m')
    end in
  match v with
  | MVal c d =>
      Pval c d (match d as d0 return match d0 with MMap _ _ m => Forall (fun p => P p.2) m | _ => True end with
                | MMap _ _ m => children m
                | _ => I
                end)
  end.
End MInduction.

(** ** What a value owns *)

Definition owned_pointer (p : cpointer) : list Z := match p with Heap a => [a] | _ => [] end.
Definition owned_key (k : mkey) : list Z := if k_index k =? duplicate then owned_pointer (k_cstr k) else [].
Definition owned_comments (c : option (Z * comment_infos)) : list Z :=
  match c with
  | Some (a, i) => a :: owned_pointer (ci_before i) ++ owned_pointer (ci_same_line i) ++ owned_pointer (ci_after i)
  | None => []
  end.

Fixpoint owned (v : mvalue) : list Z :=
  let fix pairs (m : list (mkey * mvalue)) : list Z :=
    match m with [] => [] | (k, x) :: m => owned_key k ++ owned x ++ pairs m end in
  match v with
  | MVal c d =>
      match d with
      | MString p allocated => if allocated then owned_pointer p else []
      | MMap _ a m => a :: pairs m
      | _ => []
      end ++ owned_comments c
  end.
Fixpoint owned_pairs (m : list (mkey * mvalue)) : list Z :=
  match m with [] => [] | (k, x) :: m => owned_key k ++ owned x ++ owned_pairs m end.

(** Every pointer is null, owned and live, or to a string outside that is not owned. *)
Definition string_live (h : heap) (p : cpointer) : Prop := match p with Heap a => exists s, h !! a = Some (StringBlock s) | _ => True end.

Definition key_live (is_array : bool) (h : heap) (k : mkey) : Prop :=
  if is_array then k_cstr k = Null
  else string_live h (k_cstr k) /\
       match k_cstr k with Heap _ => k_index k = duplicate | Outside _ => k_index k = noDuplication | Null => False end.

Definition comment_live (h : heap) (p : cpointer) : Prop :=
  match p with
  | Heap a => exists s, h !! a = Some (StringBlock s) /\ comment_starts s = true
  | Null => True
  | Outside _ => False
  end.

Definition comments_live (h : heap) (c : option (Z * comment_infos)) : Prop :=
  match c with
  | Some (a, i) => h !! a = Some CommentsBlock /\
      comment_live h (ci_before i) /\ comment_live h (ci_same_line i) /\ comment_live h (ci_after i)
  | None => True
  end.

Fixpoint live (h : heap) (v : mvalue) : Prop :=
  match v with
  | MVal c d =>
      match d with
      | MString p allocated => string_live h p /\ match p with Heap _ => allocated = true | Outside _ => allocated = false | Null => True end
      | MMap is_array a m => h !! a = Some MapBlock /\
          (fix pairs (m : list (mkey * mvalue)) : Prop := match m with [] => True | (k, x) :: m => (key_live is_array h k /\ live h x) /\ pairs m end) m
      | _ => True
      end /\ comments_live h c
  end.
Definition pairs_live (is_array : bool) (h : heap) (m : list (mkey * mvalue)) : Prop :=
  Forall (fun p => key_live is_array h p.1 /\ live h p.2) m.
End Memory.

Arguments MNull {D V}.
Arguments MInt {D V} n.
Arguments MUInt {D V} n.
Arguments MReal {D V} d.
Arguments MString {D V} p allocated.
Arguments MBool {D V} b.
Arguments MMap {D V} is_array a m.
