(* ===== verification/JsonMemoryProps.v ===== *)
(** * JsonMemoryProps: every block has one owner

    The operations of [JsonMemory] exchange the blocks a value owns for others and leave
    the rest of the heap alone ([replaces]).  So any program of them stays inside live
    memory, the heap holds exactly what the values own, and when the last value goes it
    is empty ([values_own_memory]).  What a value denotes is a value of [JsonValue], and
    the operations do to it what the operations there do ([wp_assign], [wp_set_member],
    [wp_set_index], [wp_remove_member], [wp_clear], [wp_set_comment]). *)
From stdpp Require Import base gmap list.
From S2P Require Import Prelude Control Streams JsonValue JsonPaths JsonOrder JsonMemory.

(** ** Exchanging blocks *)

(** From [h] to [h']: the blocks [old] are given for the blocks [new], which are kept or
    fresh; no other block is touched. *)
Record replaces (h h' : heap) (old new : list Z) : Prop := {
  rp_keep : forall a, a ∉ old -> is_Some (h !! a) -> h' !! a = h !! a;
  rp_dom : forall a, is_Some (h' !! a) <-> (is_Some (h !! a) /\ a ∉ old) \/ a ∈ new;
  rp_fresh : forall a, a ∈ new -> a ∈ old \/ h !! a = None;
  rp_nodup : NoDup new
}.

#[export] Instance replaces_proper h h' : Proper (Permutation ==> Permutation ==> iff) (replaces h h').
Proof.
  assert (forall o o' n n', o ≡ₚ o' -> n ≡ₚ n' -> replaces h h' o n -> replaces h h' o' n') as H.
  { intros o o' n n' Ho Hn [Hk Hd Hf Hu]. split.
    - intros a Ha. apply Hk. by rewrite Ho.
    - intros a. by rewrite Hd, Ho, Hn.
    - intros a Ha. rewrite <-Ho. apply Hf. by rewrite Hn.
    - by rewrite <-Hn. }
  intros o o' Ho n n' Hn. split; apply H; done.
Qed.

Lemma replaces_refl h l : NoDup l -> (forall a, a ∈ l -> is_Some (h !! a)) -> replaces h h l l.
Proof.
  intros Hl Hlive. split; auto. intros a. destruct (decide (a ∈ l)); [|naive_solver]. split; [by right|]. intros _. by apply Hlive.
Qed.

Lemma replaces_nil h : replaces h h [] [].
Proof. apply replaces_refl; [constructor|]. by intros a ?%not_elem_of_nil. Qed.

Lemma replaces_trans h1 h2 h3 l1 l2 l3 : replaces h1 h2 l1 l2 -> replaces h2 h3 l2 l3 -> replaces h1 h3 l1 l3.
Proof.
  intros [Hk Hd Hf Hu] [Hk' Hd' Hf' Hu']. split; [| | |done].
  - intros a Ha Hs. assert (a ∉ l2) as Hb by (intros H; destruct (Hf a H) as [|E]; [done|rewrite E in Hs; by destruct Hs]).
    rewrite Hk'; [by apply Hk|done|]. rewrite Hk by done. done.
  - intros a. rewrite Hd', Hd. split; [intros [[[?|?] ?]|?]; [by left|done|by right]|].
    intros [[Hs Ha]|?]; [|by right]. left. split; [by left|]. intros H. destruct (Hf a H) as [|E]; [done|rewrite E in Hs; by destruct Hs].
  - intros a Ha. destruct (Hf' a Ha) as [H|H]; [by apply Hf|]. destruct (decide (a ∈ l1)); [by left|right].
    destruct (h1 !! a) as [b|] eqn:E; [|done]. rewrite Hk in H; [congruence|done|by rewrite E].
Qed.

(** Blocks of others are kept. *)
Lemma replaces_frame h h' o n l :
  replaces h h' o n -> NoDup (o ++ l) -> (forall a, a ∈ l -> is_Some (h !! a)) -> replaces h h' (o ++ l) (n ++ l).
Proof.
  intros [Hk Hd Hf Hu] Hnd Hl. apply NoDup_app in Hnd as (Ho & Hdis & Hll).
  assert (forall a, a ∈ l -> a ∉ o) as Hlo by (intros a Ha Ha'; by apply (Hdis a Ha')).
  split.
  - intros a Ha. apply Hk. set_solver.
  - intros a. rewrite Hd, !elem_of_app. pose proof (Hl a). pose proof (Hlo a). destruct (decide (a ∈ l)); naive_solver.
  - intros a [Ha|Ha]%elem_of_app; [destruct (Hf a Ha); [left; set_solver|by right]|left; set_solver].
  - apply NoDup_app. split; [done|]. split; [|done]. intros a Ha Ha'. destruct (Hf a Ha) as [H|H]; [by apply (Hlo a)|].
    destruct (Hl a Ha') as [? E]. congruence.
Qed.

Lemma replaces_kept h h' o n l a : replaces h h' o n -> NoDup (o ++ l) -> (forall a, a ∈ l -> is_Some (h !! a)) -> a ∈ l -> h' !! a = h !! a.
Proof. intros Hr (_ & Hd & _)%NoDup_app Hl Ha. apply (rp_keep _ _ _ _ Hr); [|by apply Hl]. intros Ho. by apply (Hd a Ho). Qed.

Lemma replaces_new h a b : h !! a = None -> replaces h (<[a := b]> h) [] [a].
Proof.
  intros Ha. split.
  - intros x _ [y Hy]. rewrite lookup_insert_ne; [done|congruence].
  - intros x. rewrite lookup_insert_is_Some', list_elem_of_singleton.
    split; [intros [->|Hs]; [by right|left; split; [done|apply not_elem_of_nil]]|intros [[Hs _]|Hx]; [by right|by left]].
  - intros x ->%list_elem_of_singleton. by right.
  - apply NoDup_singleton.
Qed.

Lemma replaces_gone h a : is_Some (h !! a) -> replaces h (delete a h) [a] [].
Proof.
  intros Ha. split.
  - intros x Hx _. rewrite lookup_delete_ne; [done|]. intros ->. apply Hx. by apply list_elem_of_singleton.
  - intros x. rewrite lookup_delete_is_Some, list_elem_of_singleton.
    split; [intros [Hne Hs]; left; split; [done|congruence]|intros [[Hs Hne]|H]; [split; [congruence|done]|by apply not_elem_of_nil in H]].
  - by intros x ?%not_elem_of_nil.
  - constructor.
Qed.

(** ** What a value denotes *)

Definition text_of (h : heap) (p : cpointer) : list Z := default [] (text_at h p).
Definition comment_of (h : heap) (p : cpointer) : option (list Z) := if is_null p then None else Some (text_of h p).
Definition comments_of (h : heap) (c : option (Z * comment_infos)) : comments :=
  match c with
  | Some (_, i) => mk_comments (comment_of h (ci_before i)) (comment_of h (ci_same_line i)) (comment_of h (ci_after i))
  | None => no_comments
  end.

Section Denotation.
Context {D : Doubles}.

Fixpoint denote (h : heap) (v : mvalue) : Value :=
  match v with
  | MVal c d =>
      Val (comments_of h c)
        match d with
        | MNull => nullValue
        | MInt n => intValue n
        | MUInt n => uintValue n
        | MReal x => realValue x
        | MString p _ => stringValue (comment_of h p)
        | MBool b => booleanValue b
        | MMap true _ m => arrayValue (map (fun p => match p with (k, x) => (k_index k, denote h x) end) m)
        | MMap false _ m => objectValue (map (fun p => match p with (k, x) => (text_of h (k_cstr k), denote h x) end) m)
        end
  end.

(** ** Locality *)

Lemma owned_map c b a m : owned (MVal c (MMap b a m)) = (a :: owned_pairs m) ++ owned_comments c.
Proof. reflexivity. Qed.

Lemma live_map h c b a m : live h (MVal c (MMap b a m)) <-> (h !! a = Some MapBlock /\ pairs_live b h m) /\ comments_live h c.
Proof.
  cbn. assert (forall A B C, (A <-> B) -> (A /\ C <-> B /\ C)) as H by tauto. apply H. clear H.
  assert (forall A B C, (B <-> C) -> (A /\ B <-> A /\ C)) as H by tauto. apply H. clear H.
  unfold pairs_live. induction m as [|[k x] m IH]; [by rewrite Forall_nil|]. rewrite Forall_cons, <-IH. done.
Qed.

Definition agree (l : list Z) (h h' : heap) : Prop := forall a, a ∈ l -> h !! a = h' !! a.

Lemma agree_app l k h h' : agree (l ++ k) h h' <-> agree l h h' /\ agree k h h'.
Proof. unfold agree. split; [intros H; split; intros a Ha; apply H; apply elem_of_app; auto|intros [H1 H2] a [Ha|Ha]%elem_of_app; auto]. Qed.
Lemma agree_cons a l h h' : agree (a :: l) h h' <-> h !! a = h' !! a /\ agree l h h'.
Proof. unfold agree. setoid_rewrite elem_of_cons. naive_solver. Qed.

Lemma text_local h h' p : agree (owned_pointer p) h h' -> text_at h p = text_at h' p.
Proof. destruct p; try done. intros H. cbn. by rewrite (H a (list_elem_of_here _ _)). Qed.

Lemma string_live_local h h' p : agree (owned_pointer p) h h' -> string_live h p -> string_live h' p.
Proof. destruct p; try done. intros H. cbn. by rewrite (H a (list_elem_of_here _ _)). Qed.

Lemma comments_local h h' c : agree (owned_comments c) h h' ->
  (comments_live h c -> comments_live h' c) /\ comments_of h c = comments_of h' c.
Proof.
  destruct c as [[a [p q r]]|]; [|done]. cbn. rewrite agree_cons, !agree_app. intros (Ha & Hp & Hq & Hr). split.
  - intros (Hc & H1 & H2 & H3). split; [congruence|].
    assert (forall x, agree (owned_pointer x) h h' -> comment_live h x -> comment_live h' x) as Hx; [|auto].
    intros [|x|]; try done. intros Hx. cbn. by rewrite (Hx x (list_elem_of_here _ _)).
  - unfold comment_of, text_of. by rewrite (text_local _ _ _ Hp), (text_local _ _ _ Hq), (text_local _ _ _ Hr).
Qed.

Lemma key_local b h h' k : key_live b h k -> agree (owned_key k) h h' ->
  key_live b h' k /\ text_at h (k_cstr k) = text_at h' (k_cstr k).
Proof.
  unfold key_live, owned_key. destruct b; [by intros ->|]. intros [Hs Hk] Ha.
  destruct (k_cstr k) as [|a|s] eqn:E; try done. rewrite Hk in Ha. split; [|by apply text_local].
  split; [|done]. by eapply string_live_local.
Qed.

Lemma value_local h h' v : live h v -> agree (owned v) h h' -> live h' v /\ denote h v = denote h' v.
Proof.
  induction v as [c d IH] using mvalue_deep_ind. destruct d as [|n|n|x|p al|b|b a m]; rewrite ?owned_map, ?live_map; cbn [live owned].
  1-4,6: intros [_ Hc] Ha; destruct (comments_local _ _ _ Ha) as [H1 H2]; split; [by split; [|apply H1]|cbn; by rewrite H2].
  - intros [[Hs Hal] Hc] [Hp Hcm]%agree_app. destruct (comments_local _ _ _ Hcm) as [H1 H2].
    assert (agree (owned_pointer p) h h') as Hp' by (destruct p; [by intros ? ?%not_elem_of_nil|by subst al|by intros ? ?%not_elem_of_nil]).
    split; [split; [split; [by eapply string_live_local|done]|by apply H1]|].
    cbn. unfold comment_of, text_of. by rewrite H2, (text_local _ _ _ Hp').
  - intros [[Hb Hm] Hc] [[Ha Hp]%agree_cons Hcm]%agree_app. destruct (comments_local _ _ _ Hcm) as [H1 H2].
    assert (pairs_live b h' m /\
      map (fun p => match p with (k, x) => (k_index k, denote h x) end) m = map (fun p => match p with (k, x) => (k_index k, denote h' x) end) m /\
      map (fun p => match p with (k, x) => (text_of h (k_cstr k), denote h x) end) m = map (fun p => match p with (k, x) => (text_of h' (k_cstr k), denote h' x) end) m) as (Hm' & E1 & E2).
    { clear Hb Ha a. induction m as [|[k x] m IHm]; [by repeat split; try constructor|]. cbn in Hp. rewrite !agree_app in Hp.
      destruct Hp as (Hk & Hx & Hp). apply Forall_cons in IH as [IHx IH]. apply Forall_cons in Hm as [[Hkl Hxl] Hm].
      destruct (key_local _ _ _ _ Hkl Hk) as [Hkl' Ek], (IHx Hxl Hx) as [Hxl' Ex], (IHm IH Hm Hp) as (Hm' & E1 & E2). cbn in *.
      split; [by constructor|]. unfold text_of in *. by rewrite Ex, Ek, E1, E2. }
    split; [split; [split; [congruence|done]|by apply H1]|]. cbn. rewrite H2. by destruct b; rewrite ?E1, ?E2.
Qed.

(** What is live is on the heap. *)
Lemma pointer_owned_live h p a : string_live h p -> a ∈ owned_pointer p -> is_Some (h !! a).
Proof. destruct p as [|x|]; cbn; try by intros _ ?%not_elem_of_nil. intros [s Hs] ->%list_elem_of_singleton. eauto. Qed.

Lemma comments_owned_live h c a : comments_live h c -> a ∈ owned_comments c -> is_Some (h !! a).
Proof.
  destruct c as [[x [p q r]]|]; [|by intros _ ?%not_elem_of_nil]. cbn. intros (Hx & H1 & H2 & H3).
  assert (forall y, comment_live h y -> a ∈ owned_pointer y -> is_Some (h !! a)) as Hy.
  { intros [|y|]; cbn; try by intros _ ?%not_elem_of_nil. intros (s & Hs & _) ->%list_elem_of_singleton. eauto. }
  rewrite elem_of_cons, !elem_of_app. intros [->|[Ha|[Ha|Ha]]]; eauto.
Qed.

Lemma key_owned_live b h k a : key_live b h k -> a ∈ owned_key k -> is_Some (h !! a).
Proof.
  unfold key_live, owned_key. destruct b; [intros ->; by case_match; intros ?%not_elem_of_nil|]. intros [Hs _].
  case_match; [by apply pointer_owned_live|by intros ?%not_elem_of_nil].
Qed.

Lemma owned_live h v a : live h v -> a ∈ owned v -> is_Some (h !! a).
Proof.
  induction v as [c d IH] using mvalue_deep_ind. destruct d as [|n|n|x|p al|b|b x m]; rewrite ?owned_map, ?live_map; cbn [live owned].
  1-4,6: by intros [_ Hc] Ha; eapply comments_owned_live.
  - intros [[Hs _] Hc] [Ha|Ha]%elem_of_app; [|by eapply comments_owned_live].
    destruct al; [by eapply pointer_owned_live|by apply not_elem_of_nil in Ha].
  - intros [[Hb Hm] Hc] [[->|Ha]%elem_of_cons|Ha]%elem_of_app; [eauto| |by eapply comments_owned_live].
    clear Hb. induction m as [|[k y] m IHm]; [by apply not_elem_of_nil in Ha|]. cbn in Ha. rewrite !elem_of_app in Ha.
    apply Forall_cons in IH as [IHy IH]. apply Forall_cons in Hm as [[Hk Hy] Hm]. destruct Ha as [Ha|[Ha|Ha]]; eauto using key_owned_live.
Qed.

Lemma pairs_owned_live b h m a : pairs_live b h m -> a ∈ owned_pairs m -> is_Some (h !! a).
Proof.
  induction m as [|[k y] m IHm]; [by intros _ ?%not_elem_of_nil|]. intros [[Hk Hy] Hm]%Forall_cons. cbn. rewrite !elem_of_app.
  intros [Ha|[Ha|Ha]]; eauto using key_owned_live, owned_live.
Qed.

(** A value is not touched by the exchange of blocks it does not own. *)
Lemma replaces_agree h h' o n l : replaces h h' o n -> NoDup (o ++ l) -> (forall a, a ∈ l -> is_Some (h !! a)) -> agree l h h'.
Proof. intros Hr Hnd Hl a Ha. symmetry. by eapply replaces_kept. Qed.

Lemma replaces_value h h' o n v : replaces h h' o n -> NoDup (o ++ owned v) -> live h v -> live h' v /\ denote h' v = denote h v.
Proof.
  intros Hr Hnd Hv. destruct (value_local h h' v Hv) as [Hl He]; [|done].
  eapply replaces_agree; [done|done|]. intros a. by apply owned_live.
Qed.

Lemma replaces_value_grow h h' n v : replaces h h' [] n -> live h v -> live h' v /\ denote h' v = denote h v.
Proof.
  intros Hr Hv. destruct (value_local h h' v Hv) as [Hl He]; [|done].
  intros a Ha. symmetry. apply (rp_keep _ _ _ _ Hr); [apply not_elem_of_nil|by eapply owned_live].
Qed.

(** Two allocations, two releases. *)
Lemma replaces_more h h1 h2 l1 l2 :
  replaces h h1 [] l1 -> replaces h1 h2 [] l2 -> replaces h h2 [] (l1 ++ l2) /\ agree l1 h1 h2.
Proof.
  intros H1 H2. assert (forall a, a ∈ l1 -> is_Some (h1 !! a)) as Hl by (intros a Ha; apply (rp_dom _ _ _ _ H1); by right).
  split; [|by eapply (replaces_agree _ _ [] l2); [done|apply H1|]].
  rewrite Permutation_app_comm. eapply replaces_trans; [exact H1|]. by apply (replaces_frame _ _ []); [|apply H1|].
Qed.

Lemma replaces_less h h1 h2 o1 o2 :
  replaces h h1 o1 [] -> replaces h1 h2 o2 [] -> NoDup (o1 ++ o2) -> (forall a, a ∈ o2 -> is_Some (h !! a)) ->
  replaces h h2 (o1 ++ o2) [].
Proof. intros H1 H2 Hnd Hl. eapply replaces_trans; [by apply (replaces_frame h h1 o1 [] o2)|done]. Qed.

(** ** Strings *)

Lemma wp_new_block b h (Q : Z -> heap -> Prop) E :
  (forall a h', replaces h h' [] [a] -> h' !! a = Some b -> Q a h') -> wp (new_block b) h Q E.
Proof.
  intros HQ. unfold new_block, fresh_address. apply wp_bind, wp_gets, wp_bind, wp_modify, wp_ret.
  assert (h !! fresh (dom h : gset Z) = None) by apply not_elem_of_dom, is_fresh.
  apply HQ; [by apply replaces_new|apply lookup_insert_eq].
Qed.

Lemma wp_free_block kind a b h (Q : unit -> heap -> Prop) E :
  h !! a = Some b -> kind b = true -> (forall h', replaces h h' [a] [] -> Q tt h') -> wp (free_block kind a) h Q E.
Proof.
  intros Ha Hk HQ. unfold free_block. apply wp_bind, wp_gets. rewrite Ha, Hk. apply wp_modify, HQ, replaces_gone. eauto.
Qed.

Lemma wp_read_text p s h (Q : list Z -> heap -> Prop) E : text_at h p = Some s -> Q s h -> wp (read_text p) h Q E.
Proof. intros Hp HQ. unfold read_text. apply wp_bind, wp_gets. rewrite Hp. by apply wp_ret. Qed.

Lemma wp_duplicate p s h (Q : cpointer -> heap -> Prop) E :
  text_at h p = Some s -> (forall a h', replaces h h' [] [a] -> h' !! a = Some (StringBlock s) -> Q (Heap a) h') ->
  wp (duplicateStringValue p) h Q E.
Proof.
  intros Hp HQ. unfold duplicateStringValue. apply wp_bind. eapply wp_read_text; [exact Hp|].
  apply wp_bind, wp_new_block. intros a h' Hr Ha. apply wp_ret. by apply HQ.
Qed.

Lemma wp_release p h (Q : unit -> heap -> Prop) E :
  string_live h p -> (forall s, p <> Outside s) -> (forall h', replaces h h' (owned_pointer p) [] -> Q tt h') ->
  wp (releaseStringValue p) h Q E.
Proof.
  intros Hl Ho HQ. destruct p as [|a|s]; cbn.
  - apply wp_ret, HQ, replaces_nil.
  - destruct Hl as [s Hs]. by eapply wp_free_block.
  - by destruct (Ho s).
Qed.

(** ** Keys *)

Lemma wp_copy_key b k h (Q : mkey -> heap -> Prop) E :
  key_live b h k ->
  (forall k' h', replaces h h' [] (owned_key k') -> key_live b h' k' -> text_at h' (k_cstr k') = text_at h (k_cstr k) ->
     (b = true -> k' = k) -> Q k' h') -> wp (copy_key k) h Q E.
Proof.
  intros Hl HQ. unfold copy_key. unfold key_live in Hl. destruct b.
  - rewrite Hl. cbn [is_null negb andb]. rewrite andb_false_r. apply wp_bind, wp_ret, wp_ret.
    destruct k as [q i]. cbn in *. subst q. apply HQ; try done. unfold owned_key. cbn. case_match; apply replaces_nil.
  - destruct Hl as [Hs Hk]. destruct (k_cstr k) as [|a|s] eqn:Ek; [done| |]; rewrite Hk; cbn [is_null negb andb Z.eqb noDuplication duplicate].
    + destruct Hs as [s Hs]. apply wp_bind. eapply wp_duplicate; [cbn; by rewrite Hs|]. intros a' h' Hr Ha'.
      apply wp_ret, HQ; [done|split; [by exists s|done]|cbn; by rewrite Ha', Hs|done].
    + apply wp_bind, wp_ret, wp_ret, HQ; [apply replaces_nil|by split|done|done].
Qed.

Lemma wp_delete_key b k h (Q : unit -> heap -> Prop) E :
  key_live b h k -> (forall h', replaces h h' (owned_key k) [] -> Q tt h') -> wp (delete_key k) h Q E.
Proof.
  intros Hl HQ. unfold delete_key, owned_key in *. unfold key_live in Hl. destruct b.
  - rewrite Hl in *. cbn [is_null negb andb owned_pointer] in *. apply wp_ret, HQ. case_match; apply replaces_nil.
  - destruct Hl as [Hs Hk]. destruct (k_cstr k) as [|a|s] eqn:Ek; [done| |]; rewrite Hk in *; cbn [is_null negb andb Z.eqb noDuplication duplicate when].
    + eapply wp_release; [done|done|exact HQ].
    + apply wp_ret, HQ, replaces_nil.
Qed.

(** ** Comments *)

Lemma wp_copy_info p h (Q : cpointer -> heap -> Prop) E :
  comment_live h p ->
  (forall q h', replaces h h' [] (owned_pointer q) -> comment_live h' q -> comment_of h' q = comment_of h p -> Q q h') ->
  wp (copy_info p) h Q E.
Proof.
  intros Hl HQ. unfold copy_info. destruct p as [|a|s]; cbn [is_null]; [by apply wp_ret, HQ; [apply replaces_nil|..]| |done].
  destruct Hl as (s & Hs & Hc). unfold setCommentInfo. cbn [is_null negb when]. apply wp_bind, wp_ret, wp_bind.
  eapply wp_read_text; [cbn; by rewrite Hs|]. rewrite Hc. apply wp_bind, wp_ret.
  eapply wp_duplicate; [cbn; by rewrite Hs|]. intros a' h' Hr Ha'. apply HQ; [done|by exists s|].
  unfold comment_of, text_of. cbn. by rewrite Ha', Hs.
Qed.

Lemma comment_local h h' p : agree (owned_pointer p) h h' -> (comment_live h p -> comment_live h' p) /\ comment_of h p = comment_of h' p.
Proof.
  intros Ha. split; [|unfold comment_of, text_of; by rewrite (text_local _ _ _ Ha)].
  destruct p as [|x|]; try done. cbn. by rewrite (Ha x (list_elem_of_here _ _)).
Qed.

Lemma comment_grow h h' n p : replaces h h' [] n -> comment_live h p -> comment_live h' p /\ comment_of h' p = comment_of h p.
Proof.
  intros Hr Hp. destruct (comment_local h h' p) as [H1 H2]; [|auto].
  intros a Ha. symmetry. apply (rp_keep _ _ _ _ Hr); [apply not_elem_of_nil|].
  destruct p as [|x|]; cbn in *; try by apply not_elem_of_nil in Ha. apply list_elem_of_singleton in Ha as ->. destruct Hp as (s & -> & _). eauto.
Qed.

Lemma comment_kept h h' o p : comment_live h p -> replaces h h' o [] -> NoDup (o ++ owned_pointer p) -> comment_live h' p.
Proof.
  intros Hp Hr Hnd. apply (comment_local h h'); [|done]. eapply replaces_agree; [done|done|]. intros x Hx.
  destruct p as [|y|]; cbn in *; try by apply not_elem_of_nil in Hx. apply list_elem_of_singleton in Hx as ->. destruct Hp as (s & -> & _). eauto.
Qed.

Lemma comments_grow h h' n c : replaces h h' [] n -> comments_live h c -> comments_live h' c /\ comments_of h' c = comments_of h c.
Proof.
  intros Hr Hc. destruct (comments_local h h' c) as [H1 H2]; [|auto].
  intros a Ha. symmetry. apply (rp_keep _ _ _ _ Hr); [apply not_elem_of_nil|by eapply comments_owned_live].
Qed.

Lemma wp_copy_comments c h (Q : option (Z * comment_infos) -> heap -> Prop) E :
  comments_live h c ->
  (forall c' h', replaces h h' [] (owned_comments c') -> comments_live h' c' -> comments_of h' c' = comments_of h c -> Q c' h') ->
  wp (copy_comments c) h Q E.
Proof.
  intros Hl HQ. destruct c as [[a0 [p q r]]|]; cbn [copy_comments]; [|by apply wp_ret, HQ; [apply replaces_nil|..]].
  destruct Hl as (_ & Hp & Hq & Hr). cbn in Hp, Hq, Hr.
  apply wp_bind, wp_new_block. intros a h1 R1 Ha.
  destruct (comment_grow _ _ _ _ R1 Hp) as [Hp1 Ep1], (comment_grow _ _ _ _ R1 Hq) as [Hq1 Eq1], (comment_grow _ _ _ _ R1 Hr) as [Hr1 Er1].
  apply wp_bind, wp_copy_info; [done|]. intros p' h2 R2 Lp Ep.
  destruct (comment_grow _ _ _ _ R2 Hq1) as [Hq2 Eq2], (comment_grow _ _ _ _ R2 Hr1) as [Hr2 Er2].
  apply wp_bind, wp_copy_info; [done|]. intros q' h3 R3 Lq Eq.
  destruct (comment_grow _ _ _ _ R3 Hr2) as [Hr3 Er3].
  apply wp_bind, wp_copy_info; [done|]. intros r' h4 R4 Lr Er. apply wp_ret.
  destruct (replaces_more _ _ _ _ _ R1 R2) as [R12 A1], (replaces_more _ _ _ _ _ R12 R3) as [R13 A2], (replaces_more _ _ _ _ _ R13 R4) as [R14 A3].
  apply agree_app in A2 as [A2a A2p], A3 as [[A3a A3p]%agree_app A3q]. 
  destruct (comment_local _ _ _ A2p) as [Lp3 Ep3], (comment_local _ _ _ A3p) as [Lp4 Ep4], (comment_local _ _ _ A3q) as [Lq4 Eq4].
  apply HQ.
  - cbn. cbn in R14. by rewrite <-!app_assoc in R14.
  - cbn. rewrite <-(A3a a), <-(A2a a), <-(A1 a), Ha by apply list_elem_of_here. auto.
  - unfold comments_of. cbn [ci_before ci_same_line ci_after] in *. f_equal; congruence.
Qed.

Lemma wp_delete_info p h (Q : unit -> heap -> Prop) E :
  comment_live h p -> (forall h', replaces h h' (owned_pointer p) [] -> Q tt h') -> wp (delete_info p) h Q E.
Proof.
  intros Hl HQ. unfold delete_info. destruct p as [|a|s]; cbn [is_null negb when]; [by apply wp_ret, HQ, replaces_nil| |done].
  destruct Hl as (s & Hs & _). apply wp_release; [by exists s|done|exact HQ].
Qed.

Lemma wp_delete_comments c h (Q : unit -> heap -> Prop) E :
  comments_live h c -> NoDup (owned_comments c) -> (forall h', replaces h h' (owned_comments c) [] -> Q tt h') ->
  wp (delete_comments c) h Q E.
Proof.
  intros Hl Hnd HQ. destruct c as [[a [p q r]]|]; cbn [delete_comments]; [|apply wp_ret, HQ, replaces_nil].
  pose proof (fun x => comments_owned_live h _ x Hl) as Hlive. destruct Hl as (Ha & Hp & Hq & Hr). cbn in *.
  assert (a :: owned_pointer p ++ owned_pointer q ++ owned_pointer r ≡ₚ ((owned_pointer r ++ owned_pointer q) ++ owned_pointer p) ++ [a]) as Hperm by solve_Permutation.
  rewrite Hperm in Hnd. pose proof Hnd as (N3 & _ & _)%NoDup_app. pose proof N3 as (N2 & _ & _)%NoDup_app.
  apply wp_bind, wp_delete_info; [done|]. intros h1 R1.
  apply wp_bind, wp_delete_info; [by eapply comment_kept|]. intros h2 R2.
  pose proof (replaces_less _ _ _ _ _ R1 R2 N2 (fun x Hx => Hlive x ltac:(set_solver))) as R12.
  apply wp_bind, wp_delete_info; [by eapply comment_kept|]. intros h3 R3.
  pose proof (replaces_less _ _ _ _ _ R12 R3 N3 (fun x Hx => Hlive x ltac:(set_solver))) as R13.
  eapply (wp_free_block _ _ CommentsBlock); [|done|].
  { rewrite (replaces_kept _ _ _ _ [a] a R13); [exact Ha|done|intros x Hx; apply Hlive; set_solver|by apply list_elem_of_singleton]. }
  intros h4 R4. apply HQ. rewrite Hperm. apply (replaces_less _ _ _ _ _ R13 R4 Hnd). intros x Hx. apply Hlive. set_solver.
Qed.

(** ** Copies *)

Definition denote_array (h : heap) (m : list (mkey * mvalue)) : list (Z * Value) := map (fun p => (k_index p.1, denote h p.2)) m.
Definition denote_object (h : heap) (m : list (mkey * mvalue)) : list (list Z * Value) := map (fun p => (text_of h (k_cstr p.1), denote h p.2)) m.

Lemma denote_map h c b a m : denote h (MVal c (MMap b a m)) =
  Val (comments_of h c) (if b then arrayValue (denote_array h m) else objectValue (denote_object h m)).
Proof. cbn. f_equal. destruct b; f_equal; apply map_ext; by intros []. Qed.

Lemma pairs_local b h h' m : pairs_live b h m -> agree (owned_pairs m) h h' ->
  pairs_live b h' m /\ denote_array h m = denote_array h' m /\ denote_object h m = denote_object h' m.
Proof.
  induction m as [|[k x] m IH]; [by repeat split; try constructor|]. intros [[Hk Hx] Hm]%Forall_cons. cbn. rewrite !agree_app.
  intros (Ak & Ax & Am). destruct (key_local _ _ _ _ Hk Ak) as [Hk' Ek], (value_local _ _ _ Hx Ax) as [Hx' Ex], (IH Hm Am) as (Hm' & E1 & E2).
  unfold denote_array, denote_object in *. cbn in *. split; [by constructor|]. unfold text_of in *. by rewrite Ek, Ex, E1, E2.
Qed.

Lemma pairs_grow b h h' n m : replaces h h' [] n -> pairs_live b h m ->
  pairs_live b h' m /\ denote_array h' m = denote_array h m /\ denote_object h' m = denote_object h m.
Proof.
  intros Hr Hm. destruct (pairs_local b h h' m) as (H1 & H2 & H3); [done| |done].
  intros a Ha. symmetry. apply (rp_keep _ _ _ _ Hr); [apply not_elem_of_nil|by eapply pairs_owned_live].
Qed.

Lemma copy_value_map c b a m : copy_value (MVal c (MMap b a m)) =
  (d' ← (a' ← new_block MapBlock; m' ← copy_pairs m; mret (MMap b a' m')); c' ← copy_comments c; mret (MVal c' d')).
Proof. reflexivity. Qed.

Lemma delete_value_map c b a m : delete_value (MVal c (MMap b a m)) = ((delete_pairs m;; free_block is_map a);; delete_comments c).
Proof. reflexivity. Qed.

Lemma live_no_data h c d : (match d with MString _ _ | MMap _ _ _ => False | _ => True end) -> live h (MVal c d) <-> comments_live h c.
Proof. destruct d; cbn; tauto. Qed.

Definition copies (h : heap) (v : mvalue) : Prop :=
  forall (Q : mvalue -> heap -> Prop) E,
    (forall v' h', replaces h h' [] (owned v') -> live h' v' -> denote h' v' = denote h v -> Q v' h') -> wp (copy_value v) h Q E.

Lemma wp_copy_pairs b m h (Q : list (mkey * mvalue) -> heap -> Prop) E :
  Forall (fun p => forall h, live h p.2 -> copies h p.2) m -> pairs_live b h m ->
  (forall m' h', replaces h h' [] (owned_pairs m') -> pairs_live b h' m' -> length m' = length m ->
     (if b then denote_array h' m' = denote_array h m else denote_object h' m' = denote_object h m) -> Q m' h') ->
  wp (copy_pairs m) h Q E.
Proof.
  revert h Q. induction m as [|[k x] m IH]; intros h Q HI Hm HQ; cbn [copy_pairs].
  { apply wp_ret, HQ; [apply replaces_nil|constructor|done|by destruct b]. }
  apply Forall_cons in HI as [HIx HI]. apply Forall_cons in Hm as [[Hk Hx] Hm]. cbn in Hk, Hx, HIx.
  apply wp_bind. eapply wp_copy_key; [exact Hk|]. intros k' h1 R1 Lk Ek Eb.
  destruct (replaces_value_grow _ _ _ _ R1 Hx) as [Hx1 Ex1].
  apply wp_bind, (HIx h1 Hx1). intros x' h2 R2 Lx Ex.
  destruct (replaces_more _ _ _ _ _ R1 R2) as [R12 A1].
  destruct (pairs_grow _ _ _ _ _ R12 Hm) as (Hm2 & Ea2 & Eo2).
  apply wp_bind, IH; [done|done|]. intros m' h3 R3 Lm Hlen Em. apply wp_ret.
  destruct (replaces_more _ _ _ _ _ R12 R3) as [R13 [Ak Ax]%agree_app].
  destruct (key_local _ _ _ _ Lk A1) as [Lk2 Ek2], (key_local _ _ _ _ Lk2 Ak) as [Lk3 Ek3], (value_local _ _ _ Lx Ax) as [Lx3 Ex3].
  apply HQ; [cbn; by rewrite app_assoc|by constructor|cbn; congruence|].
  unfold denote_array, denote_object in *. destruct b; cbn; unfold text_of in *.
  - rewrite Em, Eb, <-Ex3, Ex, Ex1, Ea2 by done. done.
  - rewrite Em, <-Ek3, <-Ek2, Ek, <-Ex3, Ex, Ex1, Eo2. done.
Qed.

Lemma copies_all v h : live h v -> copies h v.
Proof.
  revert h. induction v as [c d IH] using mvalue_deep_ind. intros h Hl Q E HQ.
  destruct d as [|n|n|x|p al|b|b a m].
  1-4,6: cbn [copy_value]; apply live_no_data in Hl; [|done]; apply wp_bind, wp_ret, wp_bind, wp_copy_comments; [done|];
    intros c' h' R L Ec; apply wp_ret, HQ; [done|by apply live_no_data|cbn; by rewrite Ec].
  - destruct Hl as [[Hs Hal] Hc]. cbn [copy_value]. apply wp_bind. destruct (is_null p) eqn:Hp.
    { apply wp_ret, wp_bind, wp_copy_comments; [done|]. intros c' h' R L Ec. apply wp_ret, HQ; [done|done|]. cbn. rewrite Ec.
      unfold comment_of. by rewrite Hp. }
    assert (exists s, text_at h p = Some s) as [s Ht].
    { destruct p as [|a|s]; [done| |by exists s]. destruct Hs as [s Hs]. exists s. cbn. by rewrite Hs. }
    apply wp_bind. eapply wp_duplicate; [exact Ht|]. intros a' h1 R1 Ha'.
    apply wp_ret, wp_bind, wp_copy_comments; [by eapply (comments_grow h h1)|]. intros c' h2 R2 L Ec. apply wp_ret.
    destruct (replaces_more _ _ _ _ _ R1 R2) as [R12 A]. pose proof (A a' (list_elem_of_here _ _)) as Ea.
    apply HQ; [done|split; [split; [exists s; congruence|done]|done]|].
    cbn. unfold comment_of, text_of. rewrite Hp, Ht, Ec. cbn. rewrite <-Ea, Ha'. by rewrite (proj2 (comments_grow _ _ _ _ R1 Hc)).
  - apply live_map in Hl as [[Hb Hm] Hc]. rewrite copy_value_map.
    apply wp_bind, wp_bind, wp_new_block. intros a' h1 R1 Ha'.
    destruct (pairs_grow _ _ _ _ _ R1 Hm) as (Hm1 & Ea1 & Eo1), (comments_grow _ _ _ _ R1 Hc) as [Hc1 Ec1].
    apply wp_bind. eapply wp_copy_pairs; [exact IH|exact Hm1|]. intros m' h2 R2 Lm _ Em. apply wp_ret.
    destruct (comments_grow _ _ _ _ R2 Hc1) as [Hc2 Ec2].
    apply wp_bind, wp_copy_comments; [done|]. intros c' h3 R3 L Ec. apply wp_ret.
    destruct (replaces_more _ _ _ _ _ R1 R2) as [R12 A1], (replaces_more _ _ _ _ _ R12 R3) as [R13 [A2 A3]%agree_app].
    destruct (pairs_local _ _ _ _ Lm A3) as (Lm3 & Ea3 & Eo3).
    apply HQ; [done| |].
    + apply live_map. split; [split; [|done]|done]. rewrite <-(A2 a'), <-(A1 a') by apply list_elem_of_here. done.
    + rewrite !denote_map, Ec, Ec2, Ec1. destruct b; [by rewrite <-Ea3, Em, Ea1|by rewrite <-Eo3, Em, Eo1].
Qed.

(** ** Releases *)

Lemma wp_delete_pairs_of b m h (Q : unit -> heap -> Prop) E :
  Forall (fun p => forall h (Q : unit -> heap -> Prop), live h p.2 -> NoDup (owned p.2) -> (forall h', replaces h h' (owned p.2) [] -> Q tt h') -> wp (delete_value p.2) h Q E) m ->
  pairs_live b h m -> NoDup (owned_pairs m) -> (forall h', replaces h h' (owned_pairs m) [] -> Q tt h') -> wp (delete_pairs m) h Q E.
Proof.
  revert h Q. induction m as [|[k x] m IH]; intros h Q HI Hm Hnd HQ; cbn [delete_pairs].
  { apply wp_ret, HQ, replaces_nil. }
  apply Forall_cons in HI as [HIx HI]. pose proof (fun a => pairs_owned_live b h _ a Hm) as Hlive. apply Forall_cons in Hm as [[Hk Hx] Hm].
  cbn in *. assert (owned_key k ++ owned x ++ owned_pairs m ≡ₚ (owned x ++ owned_key k) ++ owned_pairs m) as Hperm by solve_Permutation.
  rewrite Hperm in Hnd. pose proof Hnd as (N2 & _ & _)%NoDup_app. pose proof N2 as (N1 & _ & _)%NoDup_app.
  apply wp_bind, HIx; [done|done|]. intros h1 R1.
  assert (key_live b h1 k) as Hk1.
  { apply (key_local b h h1); [done|]. eapply replaces_agree; [exact R1|done|]. intros a. by apply (key_owned_live b). }
  apply wp_bind. eapply wp_delete_key; [exact Hk1|]. intros h2 R2.
  pose proof (replaces_less _ _ _ _ _ R1 R2 N2 (fun a Ha => Hlive a ltac:(set_solver))) as R12.
  assert (pairs_live b h2 m) as Hm2.
  { apply (pairs_local b h h2); [done|]. eapply replaces_agree; [exact R12|done|]. intros a. by apply (pairs_owned_live b). }
  apply IH; [done|done|by apply NoDup_app in Hnd as (_ & _ & ?)|]. intros h3 R3. apply HQ. rewrite Hperm.
  apply (replaces_less _ _ _ _ _ R12 R3 Hnd). intros a Ha. apply Hlive. set_solver.
Qed.

Lemma wp_delete_value v h (Q : unit -> heap -> Prop) E :
  live h v -> NoDup (owned v) -> (forall h', replaces h h' (owned v) [] -> Q tt h') -> wp (delete_value v) h Q E.
Proof.
  revert h Q. induction v as [c d IH] using mvalue_deep_ind. intros h Q Hl Hnd HQ.
  destruct d as [|n|n|x|p al|b|b a m].
  1-4,6: cbn [delete_value]; apply live_no_data in Hl; [|done]; apply wp_bind, wp_ret, wp_delete_comments; done.
  - destruct Hl as [[Hs Hal] Hc]. cbn [delete_value]. cbn in Hnd, HQ. pose proof Hnd as (N1 & _ & N2)%NoDup_app.
    apply wp_bind. assert (forall Q : unit -> heap -> Prop, (forall h', replaces h h' (if al then owned_pointer p else []) [] -> Q tt h') ->
      wp (when al (releaseStringValue p)) h Q E) as Hrel.
    { intros Q' HQ'. apply wp_when; intros ->; [|apply HQ', replaces_nil]. apply wp_release; [done|by destruct p|done]. }
    apply Hrel. intros h1 R1. apply wp_delete_comments; [|done|].
    + apply (comments_local h h1); [|done]. eapply replaces_agree; [exact R1|done|]. intros y. by apply comments_owned_live.
    + intros h2 R2. apply HQ. apply (replaces_less _ _ _ _ _ R1 R2 Hnd). intros y. by apply comments_owned_live.
  - rewrite delete_value_map. pose proof (fun y => owned_live h _ y Hl) as Hlive. apply live_map in Hl as [[Hb Hm] Hc]. rewrite owned_map in *.
    assert ((a :: owned_pairs m) ++ owned_comments c ≡ₚ (owned_pairs m ++ [a]) ++ owned_comments c) as Hperm by solve_Permutation.
    rewrite Hperm in Hnd. pose proof Hnd as (N2 & _ & N3)%NoDup_app. pose proof N2 as (N1 & _ & _)%NoDup_app.
    apply wp_bind, wp_bind. eapply wp_delete_pairs_of; [|exact Hm|done|].
    { eapply Forall_impl; [exact IH|]. auto. }
    intros h1 R1. eapply (wp_free_block _ _ MapBlock); [|done|].
    { rewrite (replaces_kept _ _ _ _ [a] a R1); [exact Hb|done|intros y ->%list_elem_of_singleton; eauto|by apply list_elem_of_singleton]. }
    intros h2 R2. pose proof (replaces_less _ _ _ _ _ R1 R2 N2 (fun y Hy => Hlive y ltac:(set_solver))) as R12.
    apply wp_delete_comments; [|done|].
    + apply (comments_local h h2); [|done]. eapply replaces_agree; [exact R12|done|]. intros y. by apply comments_owned_live.
    + intros h3 R3. apply HQ. rewrite Hperm. apply (replaces_less _ _ _ _ _ R12 R3 Hnd). intros y Hy. apply Hlive. set_solver.
Qed.

(** ** Assignment *)

Definition owned_data (d : mdata mvalue) : list Z := owned (MVal None d).

Lemma owned_split c d : owned (MVal c d) = owned_data d ++ owned_comments c.
Proof. unfold owned_data. cbn. by rewrite app_nil_r. Qed.

Lemma live_split h c d : live h (MVal c d) <-> live h (MVal None d) /\ comments_live h c.
Proof. cbn. tauto. Qed.

Lemma denote_split h c d : denote h (MVal c d) = Val (comments_of h c) (value_ (denote h (MVal None d))).
Proof. reflexivity. Qed.

(** What is allocated is apart from what is live. *)
Lemma fresh_apart h h' n l : replaces h h' [] n -> NoDup l -> (forall a, a ∈ l -> is_Some (h !! a)) -> NoDup (l ++ n).
Proof.
  intros R Hl Hlive. apply NoDup_app. split; [done|]. split; [|apply R]. intros a Ha Hn.
  destruct (rp_fresh _ _ _ _ R a Hn) as [?%not_elem_of_nil|E]; [done|]. destruct (Hlive a Ha). congruence.
Qed.

Lemma replaces_beside h h' n l : replaces h h' [] n -> NoDup l -> (forall a, a ∈ l -> is_Some (h !! a)) -> replaces h h' l (l ++ n).
Proof. intros R Hl Hlive. rewrite Permutation_app_comm. by apply (replaces_frame h h' [] n l). Qed.

Lemma wp_assign v w h (Q : mvalue -> heap -> Prop) E :
  live h v -> live h w -> NoDup (owned v) ->
  (forall v' h', replaces h h' (owned v) (owned v') -> live h' v' -> denote h' v' = assign (denote h w) (denote h v) -> Q v' h') ->
  wp (assign_value v w) h Q E.
Proof.
  intros Hv Hw Hnd HQ. pose proof (fun a => owned_live h v a Hv) as Hlive.
  unfold assign_value. apply wp_bind, (copies_all w h Hw). intros [ct dt] h1 R1 Lt Et.
  destruct (replaces_value_grow _ _ _ _ R1 Hv) as [Hv1 Ev1]. pose proof (fresh_apart _ _ _ _ R1 Hnd Hlive) as N1.
  pose proof (replaces_beside _ _ _ _ R1 Hnd Hlive) as R1'. destruct v as [cv dv]. cbn [swap_values mv_comments mv_data].
  pose proof (proj1 (live_split _ _ _) Hv1) as [Ldv Lcv]. pose proof (proj1 (live_split _ _ _) Lt) as [Ldt Lct].
  assert (owned (MVal cv dv) ++ owned (MVal ct dt) ≡ₚ owned (MVal ct dv) ++ owned (MVal cv dt)) as Hperm.
  { rewrite !(owned_split _ _). solve_Permutation. }
  rewrite Hperm in N1, R1'. assert (live h1 (MVal cv dt)) as Lv' by by apply live_split.
  pose proof (proj1 (NoDup_app _ _) N1) as (N2 & _ & _).
  apply wp_bind, wp_delete_value; [by apply live_split|done|]. intros h2 R2. apply wp_ret.
  destruct (replaces_value _ _ _ _ _ R2 N1 Lv') as [Lv2 Ev2]. apply HQ; [|done|].
  - eapply replaces_trans; [exact R1'|]. apply (replaces_frame _ _ _ [] _ R2 N1). intros a. by apply owned_live.
  - rewrite Ev2, (denote_split h1 cv dt). unfold assign. rewrite <-Et, <-Ev1. reflexivity.
Qed.

(** ** Strings and containers made *)

Definition gives (h : heap) (m : M mvalue) (v0 : Value) : Prop :=
  forall (Q : mvalue -> heap -> Prop) E, (forall v h', replaces h h' [] (owned v) -> live h' v -> denote h' v = v0 -> Q v h') -> wp m h Q E.

Lemma gives_string h p s : text_at h p = Some s -> gives h (value_of_string p) (Val no_comments (stringValue (Some s))).
Proof.
  intros Ht Q E HQ. unfold value_of_string. apply wp_bind. eapply wp_duplicate; [exact Ht|]. intros a h' R Ha. apply wp_ret, HQ; [done| |].
  - split; [split; [by exists s|done]|done].
  - cbn. unfold comment_of, text_of. cbn. by rewrite Ha.
Qed.

Lemma gives_range h s : gives h (value_of_range s) (of_string s).
Proof.
  intros Q E HQ. unfold value_of_range, duplicate_range. apply wp_bind, wp_bind, wp_new_block. intros a h' R Ha. apply wp_ret, wp_ret, HQ; [done| |].
  - split; [split; [by exists (c_text s)|done]|done].
  - cbn. unfold comment_of, text_of. cbn. by rewrite Ha.
Qed.

Lemma gives_map h b : gives h (value_of_map b) (if b then of_array else of_object).
Proof.
  intros Q E HQ. unfold value_of_map. apply wp_bind, wp_new_block. intros a h' R Ha. apply wp_ret, HQ; [done| |by destruct b].
  apply live_map. split; [split; [done|constructor]|done].
Qed.

(** [JsonValue] makes a container of null in its operations. *)
Definition contained (b : bool) (v : Value) : Value :=
  match value_ v with nullValue => Val (comments_ v) (if b then arrayValue [] else objectValue []) | _ => v end.

Lemma is_MNull_denote h v : is_MNull v = isNull (denote h v).
Proof. destruct v as [c [| | | | | |[] a m]]; done. Qed.

Lemma wp_make_container b v h (Q : mvalue -> heap -> Prop) E :
  live h v -> NoDup (owned v) -> is_MNull v || is_MMap b v = true ->
  (forall v' h', replaces h h' (owned v) (owned v') -> live h' v' -> denote h' v' = contained b (denote h v) -> is_MMap b v' = true -> Q v' h') ->
  wp (make_container b v) h Q E.
Proof.
  intros Hv Hnd Hb HQ. unfold make_container. destruct (is_MNull v) eqn:Hn.
  - apply wp_bind, (gives_map h b). intros t h1 R1 Lt Et. destruct (replaces_value_grow _ _ _ _ R1 Hv) as [Hv1 Ev1].
    pose proof (fun a => owned_live h v a Hv) as Hlive.
    pose proof (fresh_apart _ _ _ _ R1 Hnd Hlive) as N1. pose proof (replaces_beside _ _ _ _ R1 Hnd Hlive) as R1'.
    apply wp_bind, wp_assign; [done|done|done|]. intros v' h2 R2 Lv' Ev'.
    pose proof (replaces_frame _ _ _ _ _ R2 N1 (fun a => owned_live h1 t a Lt)) as R2'.
    destruct (replaces_value _ _ _ _ _ R2 N1 Lt) as [Lt2 _]. pose proof (rp_nodup _ _ _ _ R2') as N2.
    pose proof (proj1 (NoDup_app _ _) N2) as (_ & _ & Nt).
    apply wp_bind, wp_delete_value; [done|done|]. intros h3 R3. apply wp_ret.
    rewrite (Permutation_app_comm (owned v')) in N2, R2'. destruct (replaces_value _ _ _ _ _ R3 N2 Lv') as [Lv3 Ev3].
    assert (denote h3 v' = contained b (denote h v)) as Hd.
    { rewrite Ev3, Ev', Ev1, Et. unfold contained. rewrite (is_MNull_denote h) in Hn. unfold isNull in Hn.
      destruct (value_ (denote h v)); try done. by destruct b. }
    apply HQ; [|done|done|].
    + eapply replaces_trans; [exact R1'|]. eapply replaces_trans; [exact R2'|].
      apply (replaces_frame _ _ _ [] _ R3 N2). intros a. by apply owned_live.
    + rewrite Ev3 in Hd. rewrite (is_MNull_denote h) in Hn. unfold contained, isNull in *.
      destruct (value_ (denote h v)); try done. destruct v' as [c' [| | | | | |[] a m]]; destruct b; done.
  - apply wp_ret, HQ; [apply replaces_refl; [done|intros a; by apply owned_live]|done| |done].
    unfold contained. rewrite (is_MNull_denote h) in Hn. unfold isNull in Hn. by destruct (value_ (denote h v)).
Qed.
End Denotation.

(** ** Keys of both kinds of containers *)

Definition key_type (is_array : bool) : Type := if is_array then Z else list Z.
Definition key_ltb (b : bool) : key_type b -> key_type b -> bool := match b with true => Z.ltb | false => str_ltb end.
Definition key_of (b : bool) (h : heap) (k : mkey) : key_type b :=
  match b with true => k_index k | false => text_of h (k_cstr k) end.

#[export] Instance key_ltb_order b : KeyOrder (key_ltb b).
Proof. destruct b; apply _. Qed.
#[export] Instance key_type_dec b : EqDecision (key_type b).
Proof. destruct b; apply _. Defined.

Section Containers.
Context {D : Doubles}.

Definition container (b : bool) : list (key_type b * Value) -> data Value :=
  match b with true => arrayValue | false => objectValue end.

Definition denote_pairs (b : bool) (h : heap) (m : list (mkey * mvalue)) : list (key_type b * Value) :=
  map (fun p => (key_of b h p.1, denote h p.2)) m.

Lemma denote_container h c b a m : denote h (MVal c (MMap b a m)) = Val (comments_of h c) (container b (denote_pairs b h m)).
Proof. rewrite denote_map. by destruct b. Qed.

(** The keys before a given one. *)
Fixpoint leading {K} (lt : K -> K -> bool) (k : K) (l : list K) : nat :=
  match l with [] => 0%nat | x :: l => if lt x k then S (leading lt k l) else 0%nat end.

(** [map_alter] by place. *)
Lemma map_alter_place {K} (lt : K -> K -> bool) `{!KeyOrder lt} `{!EqDecision K} k f (l : list (K * Value)) :
  map_alter lt k f l =
  let i := leading lt k l.*1 in
  match l !! i with
  | Some (k', c) => if decide (k' = k) then <[i := (k', f c)]> l else take i l ++ (k, f Value_null) :: drop i l
  | None => take i l ++ (k, f Value_null) :: drop i l
  end.
Proof.
  cbn zeta. induction l as [|[k' c] l IH]; [done|]. cbn. destruct (lt k' k) eqn:E1; cbn.
  - rewrite IH. destruct (l !! _) as [[k2 c2]|]; [by destruct (decide (k2 = k))|done].
  - destruct (decide (k' = k)) as [->|Hne]; [by rewrite key_irrefl|].
    destruct (lt k k') eqn:E2; [done|]. by destruct (Hne (key_total _ _ E1 E2)).
Qed.

(** A key to search with: an index, or a string of the caller. *)
Definition probe (b : bool) (k : mkey) : Prop :=
  if b then k_cstr k = Null else exists s, k_cstr k = Outside s /\ (k_index k = noDuplication \/ k_index k = duplicateOnCopy).

Lemma wp_key_lt b k k' h (Q : bool -> heap -> Prop) E :
  key_live b h k' -> probe b k -> Q (key_ltb b (key_of b h k') (key_of b h k)) h -> wp (key_lt k' k) h Q E.
Proof.
  unfold key_lt, key_live, probe. destruct b.
  - intros -> _ HQ. by apply wp_ret.
  - intros [Hs Hk] (t & Et & _) HQ. cbn in HQ. rewrite Et in *. unfold text_of in HQ. cbn in HQ. destruct (k_cstr k') as [|a|s] eqn:E'; [done| |]; cbn.
    + destruct Hs as [s Hs]. apply wp_bind. eapply wp_read_text; [cbn; by rewrite Hs|]. cbn in HQ. rewrite Hs in HQ.
      apply wp_bind. eapply wp_read_text; [done|]. by apply wp_ret.
    + apply wp_bind. eapply wp_read_text; [done|]. apply wp_bind. eapply wp_read_text; [done|]. by apply wp_ret.
Qed.

Lemma decide_same {P : Prop} (d d' : Decision P) : @bool_decide P d = @bool_decide P d'.
Proof. by destruct d, d'. Qed.

Lemma wp_key_eq b k k' h (Q : bool -> heap -> Prop) E :
  key_live b h k' -> probe b k -> Q (bool_decide (key_of b h k' = key_of b h k)) h -> wp (key_eq k' k) h Q E.
Proof.
  unfold key_eq, key_live, probe. destruct b.
  - intros -> _ HQ. apply wp_ret. cbn in HQ. rewrite (bool_decide_ext _ (k_index k' = k_index k)) in HQ by done.
    destruct (Z.eqb_spec (k_index k') (k_index k)); [by rewrite bool_decide_true in HQ|by rewrite bool_decide_false in HQ].
  - intros [Hs Hk] (t & Et & _) HQ. cbn in HQ. rewrite Et in *. unfold text_of in HQ. cbn in HQ. destruct (k_cstr k') as [|a|s] eqn:E'; [done| |]; cbn.
    + destruct Hs as [s Hs]. apply wp_bind. eapply wp_read_text; [cbn; by rewrite Hs|]. cbn in HQ. rewrite Hs in HQ.
      apply wp_bind. eapply wp_read_text; [done|]. apply wp_ret. refine (eq_ind _ (fun z => Q z h) HQ _ _). apply decide_same.
    + apply wp_bind. eapply wp_read_text; [done|]. apply wp_bind. eapply wp_read_text; [done|]. apply wp_ret. refine (eq_ind _ (fun z => Q z h) HQ _ _). apply decide_same.
Qed.

Lemma wp_lower_bound b k m h (Q : nat -> heap -> Prop) E :
  pairs_live b h m -> probe b k -> Q (leading (key_ltb b) (key_of b h k) (denote_pairs b h m).*1) h -> wp (lower_bound k m) h Q E.
Proof.
  revert Q. induction m as [|[k' x] m IH]; intros Q Hm Hk HQ; cbn [lower_bound].
  { by apply wp_ret. }
  apply Forall_cons in Hm as [[Hk' _] Hm]. apply wp_bind. eapply wp_key_lt; [exact Hk'|done|].
  cbn in HQ. destruct (key_ltb b _ _); [|by apply wp_ret]. apply wp_bind, IH; [done|done|]. by apply wp_ret.
Qed.

(** ** Insertion *)

Lemma owned_pairs_app m m' : owned_pairs (m ++ m') = owned_pairs m ++ owned_pairs m'.
Proof. induction m as [|[k x] m IH]; [done|]. cbn. by rewrite IH, !app_assoc. Qed.

Lemma owned_pairs_place m i k x : owned_pairs (take i m ++ (k, x) :: drop i m) ≡ₚ (owned_key k ++ owned x) ++ owned_pairs m.
Proof.
  rewrite owned_pairs_app. cbn. rewrite <-(take_drop i m) at 3. rewrite owned_pairs_app. solve_Permutation.
Qed.

(** The copy of a key to search with owns its string, unless it is a static one. *)
Lemma wp_copy_probe b k h (Q : mkey -> heap -> Prop) E :
  probe b k ->
  (forall k' h', replaces h h' [] (owned_key k') -> key_live b h' k' -> key_of b h' k' = key_of b h k -> Q k' h') ->
  wp (copy_key k) h Q E.
Proof.
  intros Hk HQ. destruct b.
  - eapply (wp_copy_key true); [exact Hk|]. intros k' h' R L _ Ek. apply HQ; [done|done|]. cbn. by rewrite Ek.
  - destruct Hk as (s & Es & Hi). unfold copy_key. rewrite Es. cbn [is_null negb andb]. rewrite andb_true_r.
    destruct Hi as [->| ->]; cbn [Z.eqb noDuplication duplicateOnCopy negb].
    + apply wp_bind, wp_ret, wp_ret, HQ; [apply replaces_nil|done|]. cbn. by rewrite Es.
    + apply wp_bind. eapply wp_duplicate; [done|]. intros a h' R Ha. apply wp_ret, HQ; [done|split; [by exists s|done]|].
      cbn. unfold text_of. rewrite Es. cbn. by rewrite Ha.
Qed.

Lemma wp_insert_null b i k m h (Q : list (mkey * mvalue) -> heap -> Prop) E :
  probe b k ->
  (forall k' h', replaces h h' [] (owned_key k') -> key_live b h' k' -> key_of b h' k' = key_of b h k ->
     Q (take i m ++ (k', value_null) :: drop i m) h') ->
  wp (insert_null i k m) h Q E.
Proof.
  intros Hk HQ. unfold insert_null. apply wp_bind. eapply wp_copy_probe; [done|]. intros k1 h1 R1 L1 E1.
  apply wp_bind, wp_bind, wp_ret, wp_bind, wp_ret, wp_ret. apply wp_bind. eapply wp_copy_key; [exact L1|]. intros k2 h2 R2 L2 T2 I2.
  apply wp_bind, wp_bind, wp_ret, wp_bind, wp_ret, wp_ret. apply wp_bind. cbn [delete_value]. apply wp_bind, wp_ret, wp_ret.
  destruct (replaces_more _ _ _ _ _ R1 R2) as [R12 A1]. destruct (key_local _ _ _ _ L1 A1) as [L1' T1].
  apply wp_bind. eapply wp_delete_key; [exact L1'|]. intros h3 R3. apply wp_ret.
  pose proof (rp_nodup _ _ _ _ R12) as N. assert (forall a, a ∈ owned_key k2 -> is_Some (h2 !! a)) as Hl2 by (intros a; by apply (key_owned_live b)).
  destruct (key_local b h2 h3 k2 L2) as [L3 T3]; [by eapply replaces_agree|].
  apply HQ; [|done|].
  - eapply replaces_trans; [exact R12|]. by apply (replaces_frame _ _ _ [] _ R3).
  - rewrite <-E1. destruct b; [by rewrite I2|]. cbn. unfold text_of. congruence.
Qed.

(** ** The child of a key *)

(** The map after the child of [k] has been asked for, and its place. *)
Record resolved b h k m h' i (m' : list (mkey * mvalue)) : Prop := {
  rs_replaces : replaces h h' (owned_pairs m) (owned_pairs m');
  rs_live : pairs_live b h' m';
  rs_child : exists k' c, m' !! i = Some (k', c);
  rs_alter : forall f, map_alter (key_ltb b) (key_of b h k) f (denote_pairs b h m) =
    match denote_pairs b h' m' !! i with Some (k', c) => <[i := (k', f c)]> (denote_pairs b h' m') | None => [] end
}.

Lemma pairs_nodup_place (m : list (mkey * mvalue)) h h' i k' : replaces h h' [] (owned_key k') -> NoDup (owned_pairs m) ->
  (forall a, a ∈ owned_pairs m -> is_Some (h !! a)) ->
  replaces h h' (owned_pairs m) (owned_pairs (take i m ++ (k', value_null) :: drop i m)).
Proof.
  intros R Hn Hl. rewrite owned_pairs_place. change (owned value_null) with (@nil Z). rewrite app_nil_r.
  by apply (replaces_frame _ _ [] _ _ R).
Qed.

Lemma pairs_live_place b h (m : list (mkey * mvalue)) i k' c :
  pairs_live b h m -> key_live b h k' -> live h c -> pairs_live b h (take i m ++ (k', c) :: drop i m).
Proof.
  intros Hm Hk Hc. unfold pairs_live. rewrite Forall_app, Forall_cons. split; [by apply Forall_take|]. split; [done|by apply Forall_drop].
Qed.

Lemma denote_pairs_grow b h h' n m : replaces h h' [] n -> pairs_live b h m -> denote_pairs b h' m = denote_pairs b h m.
Proof.
  intros R Hm. destruct (pairs_grow _ _ _ _ _ R Hm) as (_ & Ea & Eo). by destruct b.
Qed.

Lemma leading_le {K} (lt : K -> K -> bool) k l : (leading lt k l <= length l)%nat.
Proof. induction l as [|x l IH]; cbn; [done|]. destruct (lt x k); lia. Qed.

Lemma resolved_insert b h k m h' i k' :
  pairs_live b h m -> NoDup (owned_pairs m) -> (i <= length m)%nat ->
  (forall f, map_alter (key_ltb b) (key_of b h k) f (denote_pairs b h m) =
     take i (denote_pairs b h m) ++ (key_of b h k, f Value_null) :: drop i (denote_pairs b h m)) ->
  replaces h h' [] (owned_key k') -> key_live b h' k' -> key_of b h' k' = key_of b h k ->
  resolved b h k m h' i (take i m ++ (k', value_null) :: drop i m).
Proof.
  intros Hm Hn Hi Ha R L Ek. pose proof (fun a => pairs_owned_live b h m a Hm) as Hlive.
  destruct (pairs_grow _ _ _ _ _ R Hm) as (Hm' & _). assert (length (take i m) = i) as Hti by (rewrite length_take; lia).
  assert (denote_pairs b h' (take i m ++ (k', value_null) :: drop i m) = take i (denote_pairs b h m) ++ (key_of b h k, Value_null) :: drop i (denote_pairs b h m)) as Hd.
  { rewrite <-(denote_pairs_grow _ _ _ _ _ R Hm), <-Ek. unfold denote_pairs. rewrite map_app. cbn. by rewrite firstn_map, skipn_map. }
  assert (length (take i (denote_pairs b h m)) = i) as Htd by (rewrite length_take; unfold denote_pairs; rewrite length_map; lia).
  split; [by apply pairs_nodup_place|by apply pairs_live_place| |].
  - exists k', value_null. by rewrite lookup_app_r, Hti, Nat.sub_diag by lia.
  - intros f. rewrite Hd, Ha. rewrite lookup_app_r, Htd, Nat.sub_diag by lia. cbn.
    by rewrite insert_app_r_alt, Htd, Nat.sub_diag by lia.
Qed.

Lemma wp_resolve_key b k m h (Q : nat * list (mkey * mvalue) -> heap -> Prop) E :
  pairs_live b h m -> NoDup (owned_pairs m) -> probe b k ->
  (forall i m' h', resolved b h k m h' i m' -> Q (i, m') h') -> wp (resolve_key k m) h Q E.
Proof.
  intros Hm Hn Hk HQ. unfold resolve_key. apply wp_bind. eapply wp_lower_bound; [exact Hm|done|].
  pose proof (fun f => map_alter_place (key_ltb b) (key_of b h k) f (denote_pairs b h m)) as Halter. cbn zeta in Halter.
  pose proof (leading_le (key_ltb b) (key_of b h k) (denote_pairs b h m).*1) as Hi. rewrite length_fmap in Hi. unfold denote_pairs in Hi at 2.
  rewrite length_map in Hi. set (i := leading _ _ _) in *.
  assert (forall (Hne : forall f, map_alter (key_ltb b) (key_of b h k) f (denote_pairs b h m) =
     take i (denote_pairs b h m) ++ (key_of b h k, f Value_null) :: drop i (denote_pairs b h m)),
    wp (m' ← insert_null i k m; mret (i, m')) h Q E) as Hins.
  { intros Hne. apply wp_bind. eapply wp_insert_null; [exact Hk|]. intros k' h' R L Ek. by apply wp_ret, HQ, resolved_insert. }
  assert (denote_pairs b h m !! i = (fun p => (key_of b h p.1, denote h p.2)) <$> m !! i) as Hat by apply list_lookup_fmap.
  rewrite Hat in Halter. destruct (m !! i) as [[k' c]|] eqn:Em; cbn [fmap option_fmap option_map fst snd] in Halter; [|by apply Hins].
  pose proof (Forall_lookup_1 _ _ _ _ Hm Em) as [Hk' _]. cbn in Hk'.
  apply wp_bind. eapply wp_key_eq; [exact Hk'|done|].
  destruct (decide (key_of b h k' = key_of b h k)) as [He|He].
  - rewrite bool_decide_true by done. apply wp_ret, HQ. split; [apply replaces_refl; [done|intros a; by apply (pairs_owned_live b)]|done|eauto|].
    intros f. by rewrite Halter, Hat.
  - rewrite bool_decide_false by done. by apply Hins.
Qed.

(** ** Assignment to a child *)

Definition owned_beside (m : list (mkey * mvalue)) (i : nat) (k : mkey) : list Z :=
  owned_key k ++ owned_pairs (take i m) ++ owned_pairs (drop (S i) m).

Lemma owned_pairs_insert (m : list (mkey * mvalue)) i k c c' : m !! i = Some (k, c) ->
  owned_pairs m ≡ₚ owned c ++ owned_beside m i k /\ owned_pairs (<[i := (k, c')]> m) ≡ₚ owned c' ++ owned_beside m i k.
Proof.
  intros Hi. unfold owned_beside. split.
  - rewrite <-(take_drop_middle m i _ Hi) at 1. rewrite owned_pairs_app. cbn. solve_Permutation.
  - rewrite insert_take_drop by by eapply lookup_lt_Some. rewrite owned_pairs_app. cbn. solve_Permutation.
Qed.

Lemma denote_pairs_local b h h' m : pairs_live b h m -> agree (owned_pairs m) h h' -> denote_pairs b h m = denote_pairs b h' m.
Proof. intros Hm Ha. destruct (pairs_local b h h' m Hm Ha) as (_ & E1 & E2). by destruct b. Qed.

(** The pairs beside one child are not touched by what is done to the child. *)
Lemma pairs_beside b h h' m i k c c' :
  pairs_live b h m -> NoDup (owned_pairs m) -> m !! i = Some (k, c) ->
  replaces h h' (owned c) (owned c') -> live h' c' ->
  let m' := <[i := (k, c')]> m in
  replaces h h' (owned_pairs m) (owned_pairs m') /\ pairs_live b h' m' /\
  denote_pairs b h' m' = <[i := (key_of b h k, denote h' c')]> (denote_pairs b h m).
Proof.
  intros Hm Hn Hi R Hc m'. pose proof (fun a => pairs_owned_live b h m a Hm) as Hlive.
  destruct (owned_pairs_insert m i k c c' Hi) as [Ho Ho']. rewrite Ho in Hn.
  assert (forall a, a ∈ owned_beside m i k -> is_Some (h !! a)) as Hl by (intros a Ha; apply Hlive; rewrite Ho; set_solver).
  pose proof (replaces_agree _ _ _ _ _ R Hn Hl) as [Ak [A1 A2]%agree_app]%agree_app.
  pose proof (Forall_lookup_1 _ _ _ _ Hm Hi) as [Hk _]. destruct (key_local b h h' k Hk Ak) as [Hk' Ek].
  destruct (pairs_local b h h' (take i m)) as [L1 _]; [by apply Forall_take|done|].
  destruct (pairs_local b h h' (drop (S i) m)) as [L2 _]; [by apply Forall_drop|done|].
  assert (m' = take i m ++ (k, c') :: drop (S i) m) as Hm' by (apply insert_take_drop; by eapply lookup_lt_Some).
  split; [|split].
  - unfold m'. rewrite Ho', Ho. by apply replaces_frame.
  - rewrite Hm'. unfold pairs_live. rewrite Forall_app, Forall_cons. auto.
  - rewrite Hm', insert_take_drop by (unfold denote_pairs; rewrite length_map; by eapply lookup_lt_Some).
    unfold denote_pairs at 1. rewrite map_app. cbn [map fst snd]. fold (denote_pairs b h' (take i m)) (denote_pairs b h' (drop (S i) m)).
    rewrite <-(denote_pairs_local b h h' (take i m)), <-(denote_pairs_local b h h' (drop (S i) m)) by (done || by apply Forall_take || by apply Forall_drop).
    unfold denote_pairs. rewrite firstn_map, skipn_map. do 3 f_equal. destruct b; [done|]. cbn. unfold text_of. by rewrite Ek.
Qed.

(** The value around its pairs. *)
Lemma value_around b h h' cs a m m' :
  live h (MVal cs (MMap b a m)) -> NoDup (owned (MVal cs (MMap b a m))) ->
  replaces h h' (owned_pairs m) (owned_pairs m') -> pairs_live b h' m' ->
  replaces h h' (owned (MVal cs (MMap b a m))) (owned (MVal cs (MMap b a m'))) /\
  live h' (MVal cs (MMap b a m')) /\ comments_of h' cs = comments_of h cs.
Proof.
  intros Hv Hn R Hm'. pose proof (fun x => owned_live h _ x Hv) as Hlive. rewrite !owned_map in *. apply live_map in Hv as [[Ha _] Hc].
  assert (forall l, (a :: l) ++ owned_comments cs ≡ₚ l ++ (a :: owned_comments cs)) as Hp by (intros l; solve_Permutation).
  rewrite Hp in Hn. rewrite !Hp. assert (forall x, x ∈ a :: owned_comments cs -> is_Some (h !! x)) as Hl.
  { intros x Hx. apply Hlive. rewrite Hp. set_solver. }
  pose proof (replaces_agree _ _ _ _ _ R Hn Hl) as [A1 A2]%agree_cons. destruct (comments_local _ _ _ A2) as [H1 H2].
  split; [by apply replaces_frame|]. split; [|done]. apply live_map. split; [split; [congruence|done]|by apply H1].
Qed.

(** A container after the child of a key has been asked for. *)
Record placed b (h : heap) (k : key_type b) (v : mvalue) (h' : heap) (i : nat) (v' : mvalue) : Prop := {
  pl_replaces : replaces h h' (owned v) (owned v');
  pl_live : live h' v';
  pl_place : exists cs a l m' k' c, denote h v = Val (comments_of h cs) (container b l) /\ v' = MVal cs (MMap b a m') /\
    comments_of h' cs = comments_of h cs /\ m' !! i = Some (k', c) /\
    forall f, map_alter (key_ltb b) k f l = <[i := (key_of b h' k', f (denote h' c))]> (denote_pairs b h' m')
}.

Lemma wp_at_place b k v h (Q : nat * mvalue -> heap -> Prop) E :
  live h v -> NoDup (owned v) -> is_MMap b v = true -> probe b k ->
  (forall i v' h', placed b h (key_of b h k) v h' i v' -> Q (i, v') h') -> wp (at_place b k v) h Q E.
Proof.
  intros Hv Hn Hb Hk HQ. destruct v as [cs [| | | | | |b' a m]]; try done. cbn in Hb. apply Bool.eqb_prop in Hb as ->.
  pose proof (proj1 (live_map _ _ _ _ _) Hv) as [[_ Hm] _]. assert (NoDup (owned_pairs m)) as Hnm.
  { rewrite owned_map in Hn. apply NoDup_app in Hn as (Hn & _). by apply NoDup_cons in Hn as [_ ?]. }
  unfold at_place. cbn [pairs_of mv_data]. apply wp_bind. eapply wp_resolve_key; [exact Hm|done|done|]. intros i m' h' [Rr Rl (k' & c & Hc) Ra].
  assert (forall (Q : unit -> heap -> Prop) g, Q tt g -> wp (delete_key k) g Q E) as Hdel.
  { intros Q' g HQ'. unfold delete_key. destruct b; [rewrite Hk; by apply wp_ret|].
    destruct Hk as (t & Et & [Hi|Hi]); rewrite Et, Hi; by apply wp_ret. }
  apply wp_bind, Hdel, wp_ret. cbn [with_pairs mv_comments mv_data].
  destruct (value_around b h h' cs a m m' Hv Hn Rr Rl) as (R & L & Ec). apply HQ. split; [done|done|].
  exists cs, a, (denote_pairs b h m), m', k', c. split; [apply denote_container|]. repeat split; try done.
  intros f. rewrite Ra. unfold denote_pairs at 1. by rewrite list_lookup_fmap, Hc.
Qed.

(** [v[key] = x], where [x] is another value. *)
Lemma wp_assign_child b h k v h1 i v1 x (Q : mvalue -> heap -> Prop) E :
  placed b h k v h1 i v1 -> live h x -> NoDup (owned v ++ owned x) ->
  (forall v' h', replaces h h' (owned v) (owned v') -> live h' v' ->
     (exists l, value_ (denote h v) = container b l /\
        denote h' v' = Val (comments_ (denote h v)) (container b (map_alter (key_ltb b) k (assign (denote h x)) l))) -> Q v' h') ->
  wp (assign_child (i, v1) x) h1 Q E.
Proof.
  intros [R1 L1 (cs & a & l & m & k' & c & Ed & -> & Ec & Hc & Ha)] Hx Hn HQ.
  destruct (replaces_value _ _ _ _ _ R1 Hn Hx) as [Hx1 Ex1]. pose proof (rp_nodup _ _ _ _ R1) as N1.
  pose proof (proj1 (live_map _ _ _ _ _) L1) as [[_ Hm] _]. pose proof (Forall_lookup_1 _ _ _ _ Hm Hc) as [_ Lc].
  assert (NoDup (owned_pairs m)) as Hnm.
  { rewrite owned_map in N1. apply NoDup_app in N1 as (N1 & _). by apply NoDup_cons in N1 as [_ ?]. }
  assert (NoDup (owned c)) as Hnc.
  { destruct (owned_pairs_insert m i k' c c Hc) as [Ho _]. rewrite Ho in Hnm. by apply NoDup_app in Hnm as (? & _). }
  unfold assign_child. cbn [pairs_of mv_data]. rewrite Hc. apply wp_bind, wp_assign; [done|done|done|].
  intros c' h2 R2 L2 E2. apply wp_ret. cbn [with_pairs mv_comments mv_data].
  destruct (pairs_beside b h1 h2 m i k' c c' Hm Hnm Hc R2 L2) as (Rm & Lm & Em).
  destruct (value_around b h1 h2 cs a m _ L1 N1 Rm Lm) as (Rv & Lv & Ec2). apply HQ; [by eapply replaces_trans|done|].
  exists l. rewrite Ed. split; [done|]. change (with_pairs _ ?m2) with (MVal cs (MMap b a m2)). rewrite denote_container, Ec2, Ec, Em, Ha. cbn. by rewrite E2, Ex1.
Qed.

(** ** The operations and their counterparts in [JsonValue] *)

Lemma contained_spec b v l : value_ (contained b v) = container b l -> is_true (isNull v || match b with true => isArray v | false => isObject v end) ->
  comments_ (contained b v) = comments_ v.
Proof. unfold contained. destruct v as [c []]; done. Qed.

Lemma is_MMap_denote h b v : is_MMap b v = match value_ (denote h v), b with arrayValue _, true | objectValue _, false => true | _, _ => false end.
Proof. destruct v as [c [| | | | | |[] a m]], b; done. Qed.

(** [set_member]: what the memory holds afterwards is what [JsonValue.set_member] says,
    or both fail the same assertion. *)
Lemma wp_set_member key isStatic x v h (Q : mvalue -> heap -> Prop) (E : json_stop -> heap -> Prop) :
  live h v -> live h x -> NoDup (owned v ++ owned x) -> c_text key = key ->
  (forall v' h', replaces h h' (owned v) (owned v') -> live h' v' ->
     set_member key (denote h x) (denote h v) = inl (denote h' v') -> Q v' h') ->
  (set_member key (denote h x) (denote h v) = inr (Faults AssertFailed) -> E (Faults AssertFailed) h) ->
  wp (set_member_mem (Outside key) isStatic x v) h Q E.
Proof.
  intros Hv Hx Hn Hk HQ HE. unfold set_member_mem, resolveReference. apply wp_bind, wp_bind. unfold massert.
  unfold set_member, alter_member in HQ, HE. rewrite Hk in HQ, HE.
  destruct (is_MNull v || is_MMap false v) eqn:Hb.
  - apply wp_ret. pose proof (proj1 (NoDup_app _ _) Hn) as (Nv & _ & _).
    apply wp_bind, wp_make_container; [done|done|done|]. intros v1 h1 R1 L1 E1 M1.
    pose proof (fun a => owned_live h x a Hx) as Hxl. pose proof (replaces_frame _ _ _ _ _ R1 Hn Hxl) as R1'. pose proof (rp_nodup _ _ _ _ R1') as N1.
    destruct (replaces_value _ _ _ _ _ R1 Hn Hx) as [Hx1 Ex1].
    apply wp_bind. unfold key_of_str. assert ((if isStatic then noDuplication else duplicateOnCopy) =? duplicate = false) as -> by by destruct isStatic.
    apply wp_bind, wp_ret, wp_ret. eapply (wp_at_place false); [done|by apply NoDup_app in N1 as (? & _)|done|exists key; split; [done|destruct isStatic; auto]|].
    intros i v2 h2 P2. eapply wp_assign_child; [exact P2|done|done|].
    intros v' h' R L (l & El & Ed). apply HQ; [by eapply replaces_trans|done|].
    rewrite Ed, E1. cbn [key_of]. unfold text_of. cbn. rewrite Ex1. rewrite E1 in El.
    rewrite (is_MNull_denote h), (is_MMap_denote h) in Hb. unfold contained in *. unfold isObject, isNull in *.
    destruct (denote h v) as [c [| | | | | | |]]; try done; cbn in *; by injection El as <-.
  - apply wp_exit, HE. rewrite (is_MNull_denote h), (is_MMap_denote h) in Hb. unfold isObject, isNull in *.
    destruct (denote h v) as [c [| | | | | | |]]; done.
Qed.

(** ** Removal *)

Lemma map_erase_place {K V} (lt : K -> K -> bool) `{!KeyOrder lt} `{!EqDecision K} k (l : list (K * V)) :
  let i := leading lt k l.*1 in
  map_erase lt k l = (match l !! i with Some (k', _) => if decide (k' = k) then take i l ++ drop (S i) l else l | None => l end) /\
  map_find lt k l = (match l !! i with Some (k', c) => if decide (k' = k) then Some c else None | None => None end).
Proof.
  cbn zeta. induction l as [|[k' c] l [IH1 IH2]]; [done|]. cbn. destruct (lt k' k) eqn:E1; cbn.
  - rewrite IH1, IH2. destruct (l !! _) as [[k2 c2]|]; [by destruct (decide (k2 = k))|done].
  - destruct (decide (k' = k)) as [->|Hne]; [by rewrite key_irrefl|].
    destruct (lt k k') eqn:E2; [done|]. by destruct (Hne (key_total _ _ E1 E2)).
Qed.

Lemma wp_find_key b k m h (Q : option nat -> heap -> Prop) E :
  pairs_live b h m -> probe b k ->
  (forall i k' c, m !! i = Some (k', c) -> map_find (key_ltb b) (key_of b h k) (denote_pairs b h m) = Some (denote h c) ->
     map_erase (key_ltb b) (key_of b h k) (denote_pairs b h m) = take i (denote_pairs b h m) ++ drop (S i) (denote_pairs b h m) -> Q (Some i) h) ->
  (map_find (key_ltb b) (key_of b h k) (denote_pairs b h m) = None -> Q None h) ->
  wp (find_key k m) h Q E.
Proof.
  intros Hm Hk HQ HN. unfold find_key. apply wp_bind. eapply wp_lower_bound; [exact Hm|done|].
  pose proof (map_erase_place (key_ltb b) (key_of b h k) (denote_pairs b h m)) as [He Hf]. set (i := leading _ _ _) in *.
  assert (denote_pairs b h m !! i = (fun p => (key_of b h p.1, denote h p.2)) <$> m !! i) as Hat by apply list_lookup_fmap.
  rewrite Hat in He, Hf. destruct (m !! i) as [[k' c]|] eqn:Em; cbn [fmap option_fmap option_map fst snd] in He, Hf; [|by apply wp_ret, HN].
  pose proof (Forall_lookup_1 _ _ _ _ Hm Em) as [Hk' _]. cbn in Hk'.
  apply wp_bind. eapply wp_key_eq; [exact Hk'|done|].
  destruct (decide (key_of b h k' = key_of b h k)) as [Hd|Hd].
  - rewrite bool_decide_true by done. apply wp_ret. by eapply HQ.
  - rewrite bool_decide_false by done. by apply wp_ret, HN.
Qed.

(** One pair deleted from a container. *)
Lemma wp_delete_pair {A} (next : M A) b cs a m i k' c h (Q : A -> heap -> Prop) E :
  live h (MVal cs (MMap b a m)) -> NoDup (owned (MVal cs (MMap b a m))) -> m !! i = Some (k', c) ->
  (forall h', let v' := MVal cs (MMap b a (take i m ++ drop (S i) m)) in
     replaces h h' (owned (MVal cs (MMap b a m))) (owned v') -> live h' v' ->
     denote h' v' = Val (comments_of h cs) (container b (take i (denote_pairs b h m) ++ drop (S i) (denote_pairs b h m))) -> wp next h' Q E) ->
  wp (delete_value c;; delete_key k';; next) h Q E.
Proof.
  intros Hv Hn Hi HQ. pose proof (proj1 (live_map _ _ _ _ _) Hv) as [[_ Hm] _]. assert (NoDup (owned_pairs m)) as Hnm.
  { rewrite owned_map in Hn. apply NoDup_app in Hn as (Hn & _). by apply NoDup_cons in Hn as [_ ?]. }
  pose proof (fun x => pairs_owned_live b h m x Hm) as Hlive. pose proof (Forall_lookup_1 _ _ _ _ Hm Hi) as [Lk Lc]. cbn in Lk, Lc.
  set (rest := owned_pairs (take i m) ++ owned_pairs (drop (S i) m)).
  assert (owned_pairs m ≡ₚ (owned c ++ owned_key k') ++ rest) as Hperm.
  { rewrite (proj1 (owned_pairs_insert m i k' c c Hi)). unfold owned_beside, rest. solve_Permutation. }
  rewrite Hperm in Hnm. pose proof (proj1 (NoDup_app _ _) Hnm) as (N2 & _ & _). pose proof (proj1 (NoDup_app _ _) N2) as (N1 & _ & _).
  apply wp_bind, wp_delete_value; [done|done|]. intros h1 R1.
  assert (key_live b h1 k') as Lk1.
  { apply (key_local b h h1); [done|]. eapply replaces_agree; [exact R1|done|]. intros x. by apply (key_owned_live b). }
  apply wp_bind. eapply wp_delete_key; [exact Lk1|]. intros h2 R2.
  pose proof (replaces_less _ _ _ _ _ R1 R2 N2 (fun x => key_owned_live b h k' x Lk)) as R12.
  assert (forall x, x ∈ rest -> is_Some (h !! x)) as Hl by (intros x Hx; apply Hlive; rewrite Hperm; set_solver).
  pose proof (replaces_agree _ _ _ _ _ R12 Hnm Hl) as [A1 A2]%agree_app.
  destruct (pairs_local b h h2 (take i m)) as [L1 _]; [by apply Forall_take|done|].
  destruct (pairs_local b h h2 (drop (S i) m)) as [L2 _]; [by apply Forall_drop|done|].
  destruct (value_around b h h2 cs a m (take i m ++ drop (S i) m) Hv Hn) as (R & L & Ec).
  - rewrite owned_pairs_app, Hperm. by apply (replaces_frame _ _ _ [] _ R12).
  - by apply Forall_app.
  - apply HQ; [done|done|]. rewrite denote_container, Ec. do 2 f_equal. unfold denote_pairs at 1. rewrite map_app.
    fold (denote_pairs b h2 (take i m)) (denote_pairs b h2 (drop (S i) m)).
    rewrite <-(denote_pairs_local b h h2 (take i m)), <-(denote_pairs_local b h h2 (drop (S i) m)) by (done || by apply Forall_take || by apply Forall_drop).
    unfold denote_pairs. by rewrite firstn_map, skipn_map.
Qed.

Lemma wp_remove_member key v h (Q : mvalue * mvalue -> heap -> Prop) (E : json_stop -> heap -> Prop) :
  live h v -> NoDup (owned v) -> c_text key = key ->
  (forall old v' h', replaces h h' (owned v) (owned v' ++ owned old) -> live h' old -> live h' v' ->
     removeMember key (denote h v) = inl (denote h' old, denote h' v') -> Q (old, v') h') ->
  (removeMember key (denote h v) = inr (Faults AssertFailed) -> E (Faults AssertFailed) h) ->
  wp (remove_member_mem (Outside key) v) h Q E.
Proof.
  intros Hv Hn Hk HQ HE. unfold remove_member_mem. apply wp_bind. unfold massert.
  assert (replaces h h (owned v) (owned v ++ owned value_null)) as Hsame.
  { change (owned value_null) with (@nil Z). rewrite app_nil_r. apply replaces_refl; [done|]. intros a. by apply owned_live. }
  destruct v as [cs [| | | | | |[] a m]]; cbn [is_MNull is_MMap mv_data orb Bool.eqb]; try (by apply wp_exit, HE).
  { apply wp_ret, wp_ret, HQ; done. }
  apply wp_ret. unfold key_of_str. cbn [Z.eqb noDuplication duplicate]. apply wp_bind, wp_bind, wp_ret, wp_ret. cbn [pairs_of mv_data].
  pose proof (proj1 (live_map _ _ _ _ _) Hv) as [[_ Hm] _].
  assert (probe false (mk_mkey (Outside key) 0)) as Hp by (exists key; auto).
  assert (forall g (Q : unit -> heap -> Prop), Q tt g -> wp (delete_key (mk_mkey (Outside key) 0)) g Q E) as Hdel by (intros g Q' HQ'; by apply wp_ret).
  pose proof (denote_container h cs false a m) as Hden.
  apply wp_bind. eapply (wp_find_key false); [done|done| |].
  - intros i k' c Hi Hf He. cbn [mbind option_bind]. rewrite Hi. cbn [fmap option_fmap option_map].
    pose proof (Forall_lookup_1 _ _ _ _ Hm Hi) as [_ Lc]. cbn in Lc.
    apply wp_bind, (copies_all c h Lc). intros old h1 R1 Lo Eo.
    destruct (replaces_value_grow _ _ _ _ R1 Hv) as [Hv1 Ev1]. pose proof (fun x => owned_live h _ x Hv) as Hlive.
    pose proof (fresh_apart _ _ _ _ R1 Hn Hlive) as N1. pose proof (replaces_beside _ _ _ _ R1 Hn Hlive) as R1'.
    assert (comments_of h1 cs = comments_of h cs /\ denote_pairs false h1 m = denote_pairs false h m) as [Ec1 Em1].
    { rewrite !denote_container in Ev1. by injection Ev1. }
    eapply (wp_delete_pair _ false cs a m i k' c); [done|done|exact Hi|]. intros h2 v' R2 L2 E2.
    apply wp_bind, Hdel, wp_ret. destruct (replaces_value _ _ _ _ _ R2 N1 Lo) as [Lo2 Eo2]. apply HQ; [|done|done|].
    + eapply replaces_trans; [exact R1'|]. apply replaces_frame; [done|done|]. intros x. by apply owned_live.
    + unfold v' in E2. change (with_pairs (MVal cs (MMap false a m)) ?m2) with (MVal cs (MMap false a m2)). rewrite E2, Ec1, Em1, Hden, Eo2, Eo.
      unfold removeMember, find_member. cbn in Hf, He |- *. rewrite Hk. unfold text_of in Hf, He. cbn in Hf, He. rewrite Hf. cbn. by rewrite He.
  - intros Hf. cbn [mbind option_bind]. apply wp_bind, Hdel, wp_ret, HQ; [done|done|done|].
    rewrite Hden. unfold removeMember, find_member. cbn. rewrite Hk. unfold text_of in Hf. cbn in Hf. by rewrite Hf.
Qed.

(** ** clear and comments *)

Lemma wp_delete_pairs b m h (Q : unit -> heap -> Prop) E :
  pairs_live b h m -> NoDup (owned_pairs m) -> (forall h', replaces h h' (owned_pairs m) [] -> Q tt h') -> wp (delete_pairs m) h Q E.
Proof.
  intros Hm Hn HQ. eapply wp_delete_pairs_of; [|exact Hm|done|done]. apply Forall_forall. intros p _ h' Q' Hl Hnd HQ'. by apply wp_delete_value.
Qed.

Lemma wp_clear v h (Q : mvalue -> heap -> Prop) (E : json_stop -> heap -> Prop) :
  live h v -> NoDup (owned v) ->
  (forall v' h', replaces h h' (owned v) (owned v') -> live h' v' -> Value_clear (denote h v) = inl (denote h' v') -> Q v' h') ->
  (Value_clear (denote h v) = inr (Faults AssertFailed) -> E (Faults AssertFailed) h) ->
  wp (clear_mem v) h Q E.
Proof.
  intros Hv Hn HQ HE. unfold clear_mem. apply wp_bind. unfold massert.
  destruct v as [cs [| | | | | |b a m]]; cbn [is_MNull is_MMap mv_data orb Bool.eqb pairs_of]; try (by apply wp_exit, HE).
  { apply wp_ret, wp_bind, wp_ret, wp_ret, HQ; [apply replaces_refl; [done|intros a; by apply owned_live]|done|done]. }
  replace (Bool.eqb b true || Bool.eqb b false) with true by by destruct b. apply wp_ret.
  pose proof (proj1 (live_map _ _ _ _ _) Hv) as [[_ Hm] _]. assert (NoDup (owned_pairs m)) as Hnm.
  { rewrite owned_map in Hn. apply NoDup_app in Hn as (Hn & _). by apply NoDup_cons in Hn as [_ ?]. }
  apply wp_bind. eapply wp_delete_pairs; [done|done|]. intros h' R. apply wp_ret.
  destruct (value_around b h h' cs a m [] Hv Hn R) as (R' & L' & Ec); [by apply Forall_nil|].
  apply HQ; [done|done|]. change (with_pairs _ []) with (MVal cs (MMap b a [])). rewrite !denote_container, Ec. by destruct b.
Qed.

Lemma wp_setCommentInfo old text h (Q : cpointer -> heap -> Prop) E :
  comment_live h old -> comment_starts text = true ->
  (forall q h', replaces h h' (owned_pointer old) (owned_pointer q) -> comment_live h' q -> comment_of h' q = Some text -> Q q h') ->
  wp (setCommentInfo old (Outside text)) h Q E.
Proof.
  intros Hl Hs HQ. unfold setCommentInfo. apply wp_bind.
  assert (forall Q : unit -> heap -> Prop, (forall h', replaces h h' (owned_pointer old) [] -> Q tt h') ->
    wp (when (negb (is_null old)) (releaseStringValue old)) h Q E) as Hrel.
  { intros Q' HQ'. apply wp_when; intros Ho.
    - apply wp_release; [destruct old as [|x|]; try done; destruct Hl as (t & Ht & _); by exists t|by destruct old|done].
    - destruct old; try done. apply HQ', replaces_nil. }
  apply Hrel. intros h1 R1. apply wp_bind. eapply wp_read_text; [done|]. rewrite Hs. apply wp_bind, wp_ret.
  eapply wp_duplicate; [done|]. intros a h2 R2 Ha. apply HQ; [by eapply replaces_trans|by exists text|].
  unfold comment_of, text_of. cbn. by rewrite Ha.
Qed.

(** The comment at one place, and the rest of the comments. *)
Definition owned_others (place : CommentPlacement) (a : Z) (i : comment_infos) : list Z := owned_comments (Some (a, set_info place Null i)).

Lemma set_info_same place i : set_info place (info_at place i) i = i.
Proof. by destruct place, i. Qed.

Lemma owned_infos place a i : owned_comments (Some (a, i)) ≡ₚ owned_pointer (info_at place i) ++ owned_others place a i.
Proof. unfold owned_others. destruct place, i as [p q r]; cbn; solve_Permutation. Qed.

Lemma info_live h a i place : comments_live h (Some (a, i)) ->
  comment_live h (info_at place i) /\ h !! a = Some CommentsBlock /\ comments_live h (Some (a, set_info place Null i)).
Proof. intros (Ha & H1 & H2 & H3). by destruct place. Qed.

Lemma infos_live_set h a i place p : comments_live h (Some (a, set_info place Null i)) -> comment_live h p ->
  comments_live h (Some (a, set_info place p i)).
Proof. intros (Ha & H1 & H2 & H3) Hp. by destruct place. Qed.

Lemma others_local h h' place a i : agree (owned_others place a i) h h' -> h !! a = Some CommentsBlock ->
  comments_live h (Some (a, set_info place Null i)) ->
  h' !! a = Some CommentsBlock /\ comments_live h' (Some (a, set_info place Null i)) /\
  forall p, comments_of h' (Some (a, set_info place p i)) =
    match place with
    | commentBefore => mk_comments (comment_of h' p) (cm_after_same_line (comments_of h (Some (a, i)))) (cm_after (comments_of h (Some (a, i))))
    | commentAfterOnSameLine => mk_comments (cm_before (comments_of h (Some (a, i)))) (comment_of h' p) (cm_after (comments_of h (Some (a, i))))
    | commentAfter => mk_comments (cm_before (comments_of h (Some (a, i)))) (cm_after_same_line (comments_of h (Some (a, i)))) (comment_of h' p)
    end.
Proof.
  intros Ha Hb Hl. destruct (comments_local h h' _ Ha) as [H1 H2]. pose proof (H1 Hl) as Hl'. split; [apply Hl'|]. split; [done|].
  intros p. destruct place, i as [x y z]; cbn in *; by injection H2 as -> ->.
Qed.

Lemma wp_make_comments v h (Q : Z * comment_infos -> heap -> Prop) E :
  live h v -> NoDup (owned v) ->
  (forall a i h', let v' := MVal (Some (a, i)) (mv_data v) in
     replaces h h' (owned v) (owned v') -> live h' v' -> denote h' v' = denote h v -> Q (a, i) h') ->
  wp (make_comments v) h Q E.
Proof.
  intros Hv Hn HQ. unfold make_comments. pose proof (fun x => owned_live h _ x Hv) as Hlive. destruct v as [[[a i]|] d]; cbn [mv_comments mv_data] in *.
  - apply wp_ret, HQ; [by apply replaces_refl|done|done].
  - apply wp_bind, wp_new_block. intros a h' R Ha. apply wp_ret. destruct (replaces_value_grow _ _ _ _ R Hv) as [Hv' Ev'].
    apply HQ.
    + rewrite (owned_split (Some _) d). exact (replaces_beside _ _ _ _ R Hn Hlive).
    + apply live_split. split; [done|]. by repeat split.
    + rewrite denote_split, Ev'. by destruct d as [| | | | | |[] ? ?].
Qed.

Lemma wp_set_comment text place v h (Q : mvalue -> heap -> Prop) E :
  live h v -> NoDup (owned v) -> c_text text = text -> comment_starts text = true ->
  (forall v' h', replaces h h' (owned v) (owned v') -> live h' v' -> setComment text place (denote h v) = inl (denote h' v') -> Q v' h') ->
  wp (set_comment_mem (Outside text) place v) h Q E.
Proof.
  intros Hv Hn Ht Hs HQ. unfold set_comment_mem. apply wp_bind, wp_make_comments; [done|done|]. intros a i h1 v1 R1 L1 E1. subst v1.
  pose proof (rp_nodup _ _ _ _ R1) as N1. destruct v as [c d]. cbn [mv_data] in *.
  pose proof (proj1 (live_split _ _ _) L1) as [Ld Lc]. destruct (info_live h1 a i place Lc) as (Lp & La & Lo).
  pose proof (fun x => owned_live h1 _ x L1) as Hlive.
  assert (forall p, owned (MVal (Some (a, set_info place p i)) d) ≡ₚ owned_pointer p ++ (owned_data d ++ owned_others place a i)) as Hown.
  { intros p. rewrite owned_split, (owned_infos place a (set_info place p i)). destruct place; cbn; solve_Permutation. }
  pose proof (Hown (info_at place i)) as Ho. rewrite set_info_same in Ho. rewrite Ho in N1, R1.
  assert (forall x, x ∈ owned_data d ++ owned_others place a i -> is_Some (h1 !! x)) as Hl by (intros x Hx; apply Hlive; rewrite Ho; set_solver).
  apply wp_bind, wp_setCommentInfo; [done|done|]. intros p h2 R2 Lp2 Ep2. apply wp_ret.
  pose proof (replaces_agree _ _ _ _ _ R2 N1 Hl) as [A1 A2]%agree_app.
  destruct (value_local h1 h2 (MVal None d) Ld A1) as [Ld2 Ed2], (others_local h1 h2 place a i A2 La Lo) as (La2 & Lo2 & Eo2).
  apply HQ.
  - rewrite Hown. eapply replaces_trans; [exact R1|]. by apply replaces_frame.
  - apply live_split. split; [done|]. by apply infos_live_set.
  - rewrite <-E1, !(denote_split _ (Some _) d), Ed2. unfold setComment, JSON_ASSERT_MESSAGE. rewrite Ht.
    unfold comment_starts in Hs. rewrite Hs. cbn. unfold mret, js_ret. do 2 f_equal. specialize (Eo2 p). rewrite Ep2 in Eo2. symmetry. by destruct place.
Qed.

(** [v[index] = x], in the same way. *)
Lemma wp_set_index index x v h (Q : mvalue -> heap -> Prop) (E : json_stop -> heap -> Prop) :
  live h v -> live h x -> NoDup (owned v ++ owned x) ->
  (forall v' h', replaces h h' (owned v) (owned v') -> live h' v' ->
     alter_index index (assign (denote h x)) (denote h v) = inl (denote h' v') -> Q v' h') ->
  (alter_index index (assign (denote h x)) (denote h v) = inr (Faults AssertFailed) -> E (Faults AssertFailed) h) ->
  wp (set_index_mem index x v) h Q E.
Proof.
  intros Hv Hx Hn HQ HE. unfold set_index_mem, resolve_index. apply wp_bind, wp_bind. unfold massert, alter_index in *.
  destruct (is_MNull v || is_MMap true v) eqn:Hb.
  - apply wp_ret. pose proof (proj1 (NoDup_app _ _) Hn) as (Nv & _ & _).
    apply wp_bind, wp_make_container; [done|done|done|]. intros v1 h1 R1 L1 E1 M1.
    pose proof (fun a => owned_live h x a Hx) as Hxl. pose proof (replaces_frame _ _ _ _ _ R1 Hn Hxl) as R1'. pose proof (rp_nodup _ _ _ _ R1') as N1.
    destruct (replaces_value _ _ _ _ _ R1 Hn Hx) as [Hx1 Ex1].
    eapply (wp_at_place true); [done|by apply NoDup_app in N1 as (? & _)|done|done|].
    intros i v2 h2 P2. eapply wp_assign_child; [exact P2|done|done|].
    intros v' h' R L (l & El & Ed). apply HQ; [by eapply replaces_trans|done|].
    rewrite Ed, E1. cbn [key_of key_of_index k_index]. rewrite Ex1. rewrite E1 in El.
    rewrite (is_MNull_denote h), (is_MMap_denote h) in Hb. unfold contained in *. unfold isArray, isNull in *.
    destruct (denote h v) as [c [| | | | | | |]]; try done; cbn in *; by injection El as <-.
  - apply wp_exit, HE. rewrite (is_MNull_denote h), (is_MMap_denote h) in Hb. unfold isArray, isNull in *.
    destruct (denote h v) as [c [| | | | | | |]]; done.
Qed.
End Containers.

(** ** Any program *)

Section Programs.
Context {D : Doubles}.

Definition all_owned (vs : list mvalue) : list Z := concat (owned <$> vs).

(** The heap is what the values own, each block once. *)
Record owners (h : heap) (vs : list mvalue) : Prop := {
  ow_live : Forall (live h) vs;
  ow_once : NoDup (all_owned vs);
  ow_all : forall a, is_Some (h !! a) <-> a ∈ all_owned vs
}.

#[export] Instance all_owned_perm : Proper (Permutation ==> Permutation) all_owned.
Proof.
  unfold all_owned. induction 1 as [|v vs ws _ IH|v w vs|vs ws us _ IH1 _ IH2]; cbn; [done|by rewrite IH| |by rewrite IH1].
  rewrite !app_assoc. f_equiv. apply Permutation_app_comm.
Qed.

Lemma all_owned_app vs ws : all_owned (vs ++ ws) = all_owned vs ++ all_owned ws.
Proof. unfold all_owned. by rewrite fmap_app, concat_app. Qed.

Lemma all_live h vs a : Forall (live h) vs -> a ∈ all_owned vs -> is_Some (h !! a).
Proof.
  unfold all_owned. intros Hl. induction Hl as [|v vs Hv _ IH]; cbn; [by intros ?%not_elem_of_nil|].
  intros [Ha|Ha]%elem_of_app; [by eapply owned_live|auto].
Qed.

(** Some of the values are exchanged for others, the rest stays as it is. *)
Lemma owners_exchange h h' vs vs' old new rest :
  owners h vs -> vs ≡ₚ old ++ rest -> replaces h h' (all_owned old) (all_owned new) -> Forall (live h') new ->
  vs' ≡ₚ new ++ rest -> owners h' vs'.
Proof.
  intros [Hl Hn Ha] Hvs R Hnew Hvs'. rewrite Hvs in Hl, Hn. rewrite all_owned_app in Hn. apply Forall_app in Hl as [Hold Hrest].
  assert (forall a, a ∈ all_owned rest -> is_Some (h !! a)) as Hr by (intros a; by apply all_live).
  pose proof (replaces_frame _ _ _ _ _ R Hn Hr) as R'. split.
  - rewrite Hvs'. apply Forall_app. split; [done|]. rewrite Forall_forall in Hrest |- *. intros v Hv.
    apply (value_local h h' v (Hrest v Hv)). intros a Hin. symmetry. eapply replaces_kept; [exact R|exact Hn|done|].
    unfold all_owned. apply list_elem_of_In, in_concat. exists (owned v). split; apply list_elem_of_In; [|done]. by apply list_elem_of_fmap_2.
  - rewrite Hvs', all_owned_app. apply R'.
  - intros a. rewrite Hvs', all_owned_app. rewrite (rp_dom _ _ _ _ R'), Ha, Hvs, all_owned_app. tauto.
Qed.

Lemma insert_perm {A} (l : list A) i x : l !! i = Some x -> forall y, <[i := y]> l ≡ₚ [y] ++ take i l ++ drop (S i) l.
Proof. intros Hi y. rewrite insert_take_drop by by eapply lookup_lt_Some. cbn. by rewrite Permutation_middle. Qed.

Lemma lookup_perm {A} (l : list A) i x : l !! i = Some x -> l ≡ₚ [x] ++ take i l ++ drop (S i) l.
Proof. intros Hi. rewrite <-(take_drop_middle l i x Hi) at 1. cbn. by rewrite Permutation_middle. Qed.

Lemma all_owned_one v : all_owned [v] = owned v.
Proof. apply app_nil_r. Qed.

Abbreviation asserts := (fun (j : json_stop) (_ : heap) => j = Faults AssertFailed).

Lemma wp_new_value m vs h :
  owners h vs ->
  (forall Q E, (forall v h', replaces h h' [] (owned v) -> live h' v -> Q v h') -> wp m h Q E) ->
  wp (new_value m vs) h (fun vs' h' => owners h' vs') asserts.
Proof.
  intros Ho Hm. unfold new_value. apply wp_bind, Hm. intros v h' R L. apply wp_ret.
  apply (owners_exchange h h' vs _ [] [v] vs Ho); [done|by rewrite all_owned_one|by apply Forall_singleton|done].
Qed.

(** An operation that exchanges what one value owns. *)
Definition exchanges (h : heap) (m : M mvalue) (v : mvalue) : Prop :=
  forall (Q : mvalue -> heap -> Prop) (E : json_stop -> heap -> Prop),
    (forall v' h', replaces h h' (owned v) (owned v') -> live h' v' -> Q v' h') -> E (Faults AssertFailed) h -> wp m h Q E.

Lemma owners_one h vs i v : owners h vs -> vs !! i = Some v -> live h v /\ NoDup (owned v).
Proof.
  intros [Hl Hn _] Hi. split; [by eapply Forall_lookup_1|]. rewrite (lookup_perm vs i v Hi), all_owned_app, all_owned_one in Hn.
  by apply NoDup_app in Hn as (? & _).
Qed.

Lemma wp_change_value i f vs h :
  owners h vs -> (forall v, vs !! i = Some v -> exchanges h (f v) v) ->
  wp (change_value i f vs) h (fun vs' h' => owners h' vs') asserts.
Proof.
  intros Ho Hf. unfold change_value. destruct (vs !! i) as [v|] eqn:Hi; [|by apply wp_ret].
  apply wp_bind, (Hf v eq_refl); [|done]. intros v' h' R L. apply wp_ret.
  apply (owners_exchange h h' vs _ [v] [v'] (take i vs ++ drop (S i) vs) Ho);
    [by apply lookup_perm|by rewrite !all_owned_one|by apply Forall_singleton|by eapply insert_perm].
Qed.

Lemma beside_elem {A} (l : list A) i j x : l !! j = Some x -> i <> j -> x ∈ take i l ++ drop (S i) l.
Proof.
  intros Hj Hne. apply elem_of_app. destruct (decide (j < i)%nat).
  - left. apply list_elem_of_lookup. exists j. by rewrite lookup_take_lt.
  - right. apply list_elem_of_lookup. exists (j - S i)%nat. rewrite lookup_drop. replace (S i + (j - S i))%nat with j by lia. done.
Qed.

Lemma all_owned_elem vs v a : v ∈ vs -> a ∈ owned v -> a ∈ all_owned vs.
Proof.
  intros Hv Ha. unfold all_owned. apply list_elem_of_In, in_concat. exists (owned v).
  split; apply list_elem_of_In; [by apply list_elem_of_fmap_2|done].
Qed.

Lemma owners_two h vs i j v x : owners h vs -> vs !! i = Some v -> vs !! j = Some x -> i <> j -> live h x /\ NoDup (owned v ++ owned x).
Proof.
  intros Ho Hi Hj Hne. destruct (owners_one _ _ _ _ Ho Hi) as [_ Nv], (owners_one _ _ _ _ Ho Hj) as [Lx Nx]. split; [done|].
  pose proof (ow_once _ _ Ho) as Hn. rewrite (lookup_perm vs i v Hi), all_owned_app, all_owned_one in Hn. apply NoDup_app in Hn as (_ & Hd & _).
  apply NoDup_app. split; [done|]. split; [|done]. intros a Ha Hax. apply (Hd a Ha). eapply all_owned_elem; [|exact Hax]. by eapply beside_elem.
Qed.

Lemma wp_change_from i j f vs h :
  owners h vs ->
  (forall v x, vs !! i = Some v -> live h v -> live h x -> NoDup (owned v ++ owned x) -> exchanges h (f x v) v) ->
  wp (change_from i j f vs) h (fun vs' h' => owners h' vs') asserts.
Proof.
  intros Ho Hf. unfold change_from. destruct (vs !! j) as [x|] eqn:Hj; [|by apply wp_ret].
  destruct (decide (i = j)) as [|Hne]; [by apply wp_ret|]. apply wp_change_value; [done|]. intros v Hi.
  destruct (owners_one _ _ _ _ Ho Hi), (owners_two _ _ _ _ _ _ Ho Hi Hj Hne). by apply Hf.
Qed.

Lemma owners_swap h vs i j v w : owners h vs -> vs !! i = Some v -> vs !! j = Some w -> i <> j ->
  owners h (<[j := (swap_values v w).2]> (<[i := (swap_values v w).1]> vs)).
Proof.
  intros Ho Hi Hj Hne. destruct (owners_one _ _ _ _ Ho Hi) as [Lv _], (owners_one _ _ _ _ Ho Hj) as [Lw _]. destruct Ho as [Hl Hn Ha].
  destruct v as [cv dv], w as [cw dw]. cbn [swap_values mv_comments mv_data fst snd].
  apply live_split in Lv as [Ldv Lcv], Lw as [Ldw Lcw]. set (v' := MVal cv dw). set (w' := MVal cw dv).
  assert (all_owned (<[j := w']> (<[i := v']> vs)) ≡ₚ all_owned vs) as Hp.
  { assert ((<[i := v']> vs) !! j = Some (MVal cw dw)) as Hj' by by rewrite list_lookup_insert_ne.
    apply (Permutation_app_inv_l (owned (MVal cw dw))).
    rewrite (insert_perm _ j _ Hj' w'), all_owned_app, all_owned_one.
    pose proof (lookup_perm _ j _ Hj') as P1. pose proof (insert_perm vs i _ Hi v') as P2. pose proof (lookup_perm vs i _ Hi) as P3.
    set (rj := take j _ ++ drop (S j) _) in *. set (ri := take i vs ++ drop (S i) vs) in *.
    apply all_owned_perm in P1, P2, P3. rewrite P3. rewrite !all_owned_app, !all_owned_one in *.
    assert (owned (MVal cw dw) ++ all_owned rj ≡ₚ owned v' ++ all_owned ri) as P4 by by rewrite <-P1, <-P2.
    transitivity (owned w' ++ (owned (MVal cw dw) ++ all_owned rj)); [solve_Permutation|]. rewrite P4.
    unfold v', w'. rewrite !(owned_split _ _). solve_Permutation. }
  split; [|by rewrite Hp|intros a; by rewrite Ha, Hp].
  apply Forall_insert; [apply Forall_insert; [done|]|]; by apply live_split.
Qed.

(** The programs of the theorems only set texts that are comments. *)
Definition op_comments (op : value_op) : bool :=
  match op with SetComment _ text _ => comment_starts (c_text text) | _ => true end.

Lemma c_text_idem s : c_text (c_text s) = c_text s.
Proof. induction s as [|c s IH]; [done|]. cbn. destruct (c =? 0) eqn:E; [done|]. cbn. by rewrite E, IH. Qed.

Lemma owners_more h vs v : owners h vs -> owned v = [] -> live h v -> owners h (v :: vs).
Proof.
  intros Ho Hv Hl. apply (owners_exchange h h vs _ [] [v] vs Ho); [done| |by apply Forall_singleton|done].
  rewrite all_owned_one, Hv. apply replaces_nil.
Qed.

Lemma value_step_ok op vs h : owners h vs -> op_comments op = true ->
  wp (value_step op vs) h (fun vs' h' => owners h' vs') asserts.
Proof.
  intros Ho Hc. destruct op as [|s|s|s|b|i|i j|i j|i key st j|i n j|i key|i|i text pl|i]; cbn [value_step].
  - apply wp_ret. by apply owners_more.
  - apply wp_new_value; [done|]. intros Q E HQ. eapply gives_string; [done|]. auto.
  - apply wp_new_value; [done|]. intros Q E HQ. apply gives_range. auto.
  - apply wp_ret. by apply owners_more.
  - apply wp_new_value; [done|]. intros Q E HQ. apply gives_map. auto.
  - destruct (vs !! i) as [v|] eqn:Hi; [|by apply wp_ret]. destruct (owners_one _ _ _ _ Ho Hi) as [Lv _].
    apply wp_new_value; [done|]. intros Q E HQ. apply (copies_all v h Lv). auto.
  - destruct (vs !! j) as [x|] eqn:Hj; [|by apply wp_ret]. destruct (owners_one _ _ _ _ Ho Hj) as [Lx _].
    apply wp_change_value; [done|]. intros v Hi Q E HQ _. destruct (owners_one _ _ _ _ Ho Hi). apply wp_assign; auto.
  - destruct (vs !! i) as [v|] eqn:Hi, (vs !! j) as [w|] eqn:Hj; try by apply wp_ret.
    destruct (decide (i = j)); [by apply wp_ret|]. apply wp_ret. by apply owners_swap.
  - apply wp_change_from; [done|]. intros v x _ Lv Lx Hn Q E HQ HE. apply wp_set_member; auto using c_text_idem.
  - apply wp_change_from; [done|]. intros v x _ Lv Lx Hn Q E HQ HE. apply wp_set_index; auto.
  - destruct (vs !! i) as [v|] eqn:Hi; [|by apply wp_ret]. destruct (owners_one _ _ _ _ Ho Hi) as [Lv Nv].
    apply wp_bind, wp_remove_member; [done|done|apply c_text_idem| |done]. intros old v' h' R L1 L2 _. apply wp_ret.
    apply (owners_exchange h h' vs _ [v] [old; v'] (take i vs ++ drop (S i) vs) Ho); [by apply lookup_perm| | |].
    + rewrite all_owned_one. change (all_owned [old; v']) with (owned old ++ all_owned [v']). by rewrite all_owned_one, Permutation_app_comm.
    + by repeat constructor.
    + cbn. f_equiv. by eapply insert_perm.
  - apply wp_change_value; [done|]. intros v Hi Q E HQ HE. destruct (owners_one _ _ _ _ Ho Hi). apply wp_clear; auto.
  - apply wp_change_value; [done|]. intros v Hi Q E HQ HE. destruct (owners_one _ _ _ _ Ho Hi). apply wp_set_comment; auto using c_text_idem.
  - destruct (vs !! i) as [v|] eqn:Hi; [|by apply wp_ret]. destruct (owners_one _ _ _ _ Ho Hi) as [Lv Nv].
    apply wp_bind, wp_delete_value; [done|done|]. intros h' R. apply wp_ret.
    apply (owners_exchange h h' vs _ [v] [] (take i vs ++ drop (S i) vs) Ho); [by apply lookup_perm|by rewrite all_owned_one|constructor|done].
Qed.

Lemma value_steps_ok ops vs h : owners h vs -> forallb op_comments ops = true ->
  wp (value_steps ops vs) h (fun vs' h' => owners h' vs') asserts.
Proof.
  revert vs h. induction ops as [|op ops IH]; intros vs h Ho Hc; cbn [value_steps]; [by apply wp_ret|].
  apply andb_true_iff in Hc as [Hop Hc]. apply wp_bind. eapply wp_mono; [| |by apply value_step_ok]; [|done].
  intros vs' h' Ho'. by apply IH.
Qed.

Lemma wp_delete_all vs h : owners h vs -> wp (delete_all vs) h (fun _ h' => h' = ∅) (fun _ _ => False).
Proof.
  revert h. induction vs as [|v vs IH]; intros h Ho; cbn [delete_all].
  - apply wp_ret, stdpp.fin_maps.map_eq. intros a. rewrite lookup_empty. apply eq_None_not_Some. rewrite (ow_all _ _ Ho). apply not_elem_of_nil.
  - destruct (owners_one _ _ 0 _ Ho eq_refl) as [Lv Nv]. apply wp_bind, wp_delete_value; [done|done|]. intros h' R. apply IH.
    apply (owners_exchange h h' (v :: vs) _ [v] [] vs Ho); [done|by rewrite all_owned_one|constructor|done].
Qed.

(** C21. Any program that makes, copies, assigns, swaps, changes and destroys values of
    jsoncpp in any order never reads, writes or frees memory that is not live: it runs to
    its end or fails an assertion of the code.  At its end every block on the heap has one
    owner, so that when the remaining values are destroyed the heap is empty: nothing is
    freed twice and nothing leaks. *)
Theorem values_own_memory ops :
  forallb op_comments ops = true ->
  match value_steps ops [] ∅ with
  | inl (vs, h) => owners h vs /\ delete_all vs h = inl (tt, ∅)
  | inr (j, _) => j = Faults AssertFailed
  end.
Proof.
  intros Hc. assert (owners ∅ []) as Ho.
  { split; [constructor|constructor|]. intros a. cbn. rewrite lookup_empty. split; [by intros [? ?]|by intros ?%not_elem_of_nil]. }
  pose proof (value_steps_ok ops [] ∅ Ho Hc) as H. destruct (value_steps ops [] ∅) as [[vs h]|[j h]] eqn:E.
  - apply (wp_inl _ _ _ _ _ _ E) in H. split; [done|]. by apply wp_delete_all, wp_run in H as ([] & h' & Hr & ->).
  - by apply (wp_inr _ _ _ _ _ _ E) in H.
Qed.
End Programs.

(** ** Runs *)

Section MemoryRuns.
(** A small instance: the programs hold no numbers. *)
#[local] Instance run_doubles : Doubles := {|
  double := Z; double_of_Z := id; double_le := Z.leb; double_eq := Z.eqb; double_trunc := id;
  scan_double := fun _ => None; print_double := fun _ => [] |}.

(** An object with two members, one with a static key, and a comment; a copy of it, from
    which a member is taken that goes into an array. *)
Definition sample_program : list value_op :=
  [MakeNull; MakeRange (bytes "east"); SetMember 1 (bytes "name") false 0; SetMember 1 (bytes "code") true 0;
   SetComment 1 (bytes "// a camera") commentBefore; MakeCopy 1; Remove 0 (bytes "name"); MakeContainer true; SetIndex 0 3 1].

Let text_value (s : string) : Value := Val no_comments (stringValue (Some (bytes s))).
Let camera : comments := mk_comments (Some (bytes "// a camera")) None None.

(** The copy has lost the member, the object still has both. *)
Example sample_values :
  match value_steps sample_program [] ∅ with inl (vs, h) => denote h <$> vs | _ => [] end
  = [Val no_comments (arrayValue [(3, text_value "east")]);
     text_value "east";
     Val camera (objectValue [(bytes "code", text_value "east")]);
     text_value "east";
     Val camera (objectValue [(bytes "code", text_value "east"); (bytes "name", text_value "east")])].
Proof. vm_compute. reflexivity. Qed.

Lemma values_own_memory_witness :
  forallb op_comments sample_program = true /\
  match value_steps sample_program [] ∅ with
  | inl (vs, h) => owners h vs /\ delete_all vs h = inl (tt, ∅)
  | inr (j, _) => j = Faults AssertFailed
  end.
Proof. split; [vm_compute; reflexivity|]. apply (values_own_memory sample_program). vm_compute. reflexivity. Defined.

(** A text that is no comment, for a value that has one: what was there is released
    before the exception, and the value still points to it; the destructor releases it
    again. *)
Example comment_released_twice :
  match set_comment_mem (Outside (bytes "/ one")) commentBefore value_null ∅ with
  | inl (v, h) =>
      match set_comment_mem (Outside (bytes "two")) commentBefore v h with
      | inr (Throws _, h') => match delete_value v h' with inr (Faults OutOfBounds, _) => true | _ => false end
      | _ => false
      end
  | _ => false
  end = true.
Proof. vm_compute. reflexivity. Qed.

End MemoryRuns.
