(* ===== verification/JsonArray.v ===== *)
(** * JsonArray: arrays of jsoncpp in pages

    First the allocator of the pages, then [ValueInternalArray] of
    [atb_sak/src/json/json_internalarray.inl], the container that
    jsoncpp uses for arrays when it is built with [JSON_VALUE_USE_INTERNAL_MAP], which
    the build of the service does not define.  An array owns an index of pages of eight
    values each.

    The objects are in a memory [objects], by address; an index is the list of its
    entries, and an entry owns the page it points to.  [lost] counts the pages that
    nothing points to any more and that have not been released.  A slot of a page is raw
    memory ([None]) or a value.  An iterator holds the place of its entry in the index of
    its array; no operation keeps one across a reallocation.  The array constructs,
    destroys and compares its values and looks at them in no other way, so their type is
    a parameter of the sections.  Of [realloc] and [malloc] it is assumed that they find
    the memory. *)
From stdpp Require Import base gmap list.
From S2P Require Import Prelude Control JsonValue.

(** ** The allocator of pages

    [BatchAllocator] of [json_batchallocator.h] hands out memory for arrays of
    [objectPerAllocation] objects from batches it asks of [malloc], and keeps what is
    released in a list threaded through the released memory.  Addresses are pairs of a
    batch, numbered as they are allocated, and an index into its [buffer_] counted in
    objects; [room] is the number of objects for which the batch was allocated. *)

Record BatchInfo := Batch {
  next_ : option nat;
  used_ : Z;
  end_ : Z;
  room : Z
}.

Definition batch_address : Type := nat * Z.

Record BatchAllocator := mk_allocator {
  infos : gmap nat BatchInfo;        (* the memory *)
  created : nat;                     (* batches allocated so far *)
  batches_ : nat;
  currentBatch_ : nat;
  freeHead_ : list batch_address;    (* the list that starts at [freeHead_] *)
  objectsPerPage_ : Z
}.

Section Batches.
(** The parameter of the template. *)
Context (objectPerAllocation : Z).

Definition allocateBatch (objectsPerPage : Z) : BatchInfo :=
  Batch None 0 objectsPerPage (objectPerAllocation * objectsPerPage).

Definition BatchAllocator_new (objectsPerPage : Z) : BatchAllocator :=
  mk_allocator {[ 0%nat := allocateBatch 0 ]} 1 0 0 [] objectsPerPage.

(** The loop over the batches behind the current one.  [None]: a pointer that leads
    nowhere, or more batches than rounds. *)
Fixpoint skip_full (fuel : nat) (h : gmap nat BatchInfo) (cur : option nat) : option (option nat) :=
  match fuel, cur with
  | _, None => Some None
  | O, Some _ => None
  | S fuel, Some b =>
      i ← h !! b;
      if used_ i =? end_ i then skip_full fuel h (next_ i) else Some (Some b)
  end.

(** A new batch at the head of the list. *)
Definition add_batch (a : BatchAllocator) : BatchAllocator :=
  let b := created a in
  let i := allocateBatch (objectsPerPage_ a) in
  mk_allocator (<[b := Batch (Some (batches_ a)) (used_ i) (end_ i) (room i)]> (infos a))
    (S b) b b (freeHead_ a) (objectsPerPage_ a).

Definition set_currentBatch (b : nat) (a : BatchAllocator) : BatchAllocator :=
  mk_allocator (infos a) (created a) (batches_ a) b (freeHead_ a) (objectsPerPage_ a).

(** The batch to take from: the current one, the next that is not full, or a new one. *)
Definition find_batch (a : BatchAllocator) : option BatchAllocator :=
  i ← infos a !! currentBatch_ a;
  if used_ i =? end_ i then
    c ← skip_full (created a) (infos a) (next_ i);
    Some (match c with Some b => set_currentBatch b a | None => add_batch a end)
  else Some a.

Definition take_current (a : BatchAllocator) : option (batch_address * BatchAllocator) :=
  let b := currentBatch_ a in
  i ← infos a !! b;
  Some ((b, used_ i), mk_allocator
    (<[b := Batch (next_ i) (used_ i + objectPerAllocation) (end_ i) (room i)]> (infos a))
    (created a) (batches_ a) b (freeHead_ a) (objectsPerPage_ a)).

Definition allocate (a : BatchAllocator) : option (batch_address * BatchAllocator) :=
  match freeHead_ a with
  | o :: free => Some (o, mk_allocator (infos a) (created a) (batches_ a) (currentBatch_ a) free (objectsPerPage_ a))
  | [] => a' ← find_batch a; take_current a'
  end.

Definition release (o : batch_address) (a : BatchAllocator) : BatchAllocator :=
  mk_allocator (infos a) (created a) (batches_ a) (currentBatch_ a) (o :: freeHead_ a) (objectsPerPage_ a).

(** What clients do: they release what they hold. *)
Inductive batch_op := Allocate | Release (o : batch_address).

Definition batch_step (op : batch_op) (s : BatchAllocator * list batch_address) : option (BatchAllocator * list batch_address) :=
  let '(a, live) := s in
  match op with
  | Allocate => '(o, a') ← allocate a; Some (a', o :: live)
  | Release o => if decide (o ∈ live) then Some (release o a, filter (.≠ o) live) else Some s
  end.

Fixpoint batch_run (ops : list batch_op) (s : BatchAllocator * list batch_address) : option (BatchAllocator * list batch_address) :=
  match ops with
  | [] => Some s
  | op :: ops => s' ← batch_step op s; batch_run ops s'
  end.

(** An address of [objectPerAllocation] objects inside the memory of its batch. *)
Definition in_room (a : BatchAllocator) (o : batch_address) : Prop :=
  exists i, infos a !! o.1 = Some i /\ 0 <= o.2 /\ o.2 + objectPerAllocation <= room i.

(** Two of them share no object. *)
Definition apart (o o' : batch_address) : Prop :=
  o.1 = o'.1 -> o.2 + objectPerAllocation <= o'.2 \/ o'.2 + objectPerAllocation <= o.2.

(** ** The invariant *)

Record batch_ok (i : BatchInfo) (b : nat) : Prop := {
  bo_used : exists k, used_ i = k * objectPerAllocation /\ 0 <= k;
  bo_end : used_ i <= end_ i;
  bo_whole : exists m, end_ i = m * objectPerAllocation;
  bo_room : room i = objectPerAllocation * end_ i;
  bo_next : forall n, next_ i = Some n -> (n < b)%nat
}.

Definition handed_out (h : gmap nat BatchInfo) (o : batch_address) : Prop :=
  exists i k, h !! o.1 = Some i /\ o.2 = k * objectPerAllocation /\ 0 <= k /\ o.2 + objectPerAllocation <= used_ i.

Record batches_ok (a : BatchAllocator) (live : list batch_address) : Prop := {
  bs_all : forall b, (b < created a)%nat -> exists i, infos a !! b = Some i /\ batch_ok i b;
  bs_dom : forall b i, infos a !! b = Some i -> (b < created a)%nat;
  bs_head : (batches_ a < created a)%nat;
  bs_current : (currentBatch_ a < created a)%nat;
  bs_handed : Forall (handed_out (infos a)) (live ++ freeHead_ a);
  bs_distinct : NoDup (live ++ freeHead_ a)
}.
End Batches.

Section BatchLemmas.
Context (n per : Z) (Hn : 0 < n) (Hper : 0 < per) (Hwhole : (n | per)).

Lemma new_ok : batches_ok n (BatchAllocator_new n per) [].
Proof using Hn.
  split; simpl; try lia; [| |constructor|constructor].
  - intros b Hb. exists (allocateBatch n 0). replace b with 0%nat by lia. split; [apply lookup_singleton_eq|].
    split; simpl; try done; try lia; [exists 0; lia|exists 0; lia].
  - intros b i [<- _]%lookup_singleton_Some. lia.
Qed.

Lemma skip_full_ok (a : BatchAllocator) fuel cur :
  (forall b, (b < created a)%nat -> exists i, infos a !! b = Some i /\ batch_ok n i b) ->
  (forall b, cur = Some b -> b < created a /\ b < fuel)%nat ->
  exists c, skip_full fuel (infos a) cur = Some c /\
    (forall b, c = Some b -> (b < created a)%nat /\ exists i, infos a !! b = Some i /\ used_ i <> end_ i).
Proof.
  intros Hall. revert cur. induction fuel as [|fuel IH]; intros [b|] Hcur; simpl.
  - destruct (Hcur b eq_refl). lia.
  - by eexists.
  - destruct (Hcur b eq_refl) as [Hb Hf]. destruct (Hall b Hb) as (i & Hi & Hok). rewrite Hi. simpl.
    destruct (Z.eqb_spec (used_ i) (end_ i)).
    + apply IH. intros b' Hb'. pose proof (bo_next _ _ _ Hok b' Hb'). lia.
    + exists (Some b). split; [done|]. intros ? [= <-]. eauto.
  - by eexists.
Qed.

(** Memory that the rest of the allocator does not look at. *)
Lemma handed_out_mono h h' o :
  (forall b i, h !! b = Some i -> exists i', h' !! b = Some i' /\ used_ i <= used_ i') ->
  handed_out n h o -> handed_out n h' o.
Proof.
  intros Hm (i & k & Hi & Ho & Hk & Hle). destruct (Hm _ _ Hi) as (i' & Hi' & Hu).
  exists i', k. repeat split; auto. lia.
Qed.

Lemma add_batch_ok a live :
  0 < objectsPerPage_ a -> (n | objectsPerPage_ a) -> batches_ok n a live -> batches_ok n (add_batch n a) live.
Proof using Hn.
  intros Hpos [m Hm] [Hall Hdom Hhead Hcur Hh Hd].
  assert (infos a !! created a = None) as Hfresh.
  { destruct (infos a !! created a) eqn:E; [|done]. pose proof (Hdom _ _ E). lia. }
  split; simpl; try lia; auto.
  - intros b Hb. destruct (decide (b = created a)) as [->|].
    + eexists. split; [apply lookup_insert_eq|]. split; simpl; [exists 0; lia|lia|by exists m|done|]. intros ? [= <-]. lia.
    + destruct (Hall b) as (i & Hi & Hok); [lia|]. exists i. by rewrite lookup_insert_ne.
  - intros b i. destruct (decide (b = created a)) as [->|]; [lia|].
    rewrite lookup_insert_ne by done. intros Hi%Hdom. lia.
  - eapply Forall_impl; [exact Hh|]. intros o. apply handed_out_mono. intros b i Hi.
    exists i. split; [|lia]. rewrite lookup_insert_ne; [done|]. intros <-. congruence.
Qed.

(** Behind the search there is a current batch with room for one more. *)
Lemma find_batch_ok a live :
  0 < objectsPerPage_ a -> (n | objectsPerPage_ a) -> batches_ok n a live ->
  exists a' i, find_batch n a = Some a' /\ batches_ok n a' live /\ freeHead_ a' = freeHead_ a /\
    objectsPerPage_ a' = objectsPerPage_ a /\ infos a' !! currentBatch_ a' = Some i /\ used_ i <> end_ i.
Proof using Hn.
  intros Hpos Hdiv Hok. pose proof Hok as [Hall Hdom Hhead Hcur Hh Hd]. unfold find_batch.
  destruct (Hall _ Hcur) as (i & Hi & Hi_ok). rewrite Hi. simpl.
  destruct (Z.eqb_spec (used_ i) (end_ i)) as [E|E]; [|by exists a, i].
  destruct (skip_full_ok a (created a) (next_ i) Hall) as ([b|] & Hs & Hc).
  { intros b Hb. pose proof (bo_next _ _ _ Hi_ok b Hb). lia. }
  - rewrite Hs. simpl. destruct (Hc b eq_refl) as [Hb (j & Hj & Hne)].
    exists (set_currentBatch b a), j. split; [done|]. split; [by split|done].
  - rewrite Hs. simpl. eexists _, _. split; [done|]. split; [by apply add_batch_ok|].
    split; [done|]. split; [done|]. split; [apply lookup_insert_eq|simpl; lia].
Qed.

(** Taking the next objects of the current batch, which has room. *)
Lemma take_current_ok a live i :
  batches_ok n a live -> infos a !! currentBatch_ a = Some i -> used_ i <> end_ i ->
  exists o a', take_current n a = Some (o, a') /\ batches_ok n a' (o :: live) /\ objectsPerPage_ a' = objectsPerPage_ a.
Proof using Hn.
  intros Hok Hi Hne. pose proof Hok as [Hall Hdom Hhead Hcur Hh Hd]. unfold take_current. rewrite Hi. simpl.
  eexists _, _. split; [done|]. split; [|done].
  destruct (Hall _ Hcur) as (i' & Hi' & [[k [Hk Hk0]] Hend [m Hm] Hroom Hnext]). rewrite Hi in Hi'. injection Hi' as <-.
  assert (k < m) as Hkm by nia.
  assert (forall b j, infos a !! b = Some j -> exists j',
    <[currentBatch_ a := Batch (next_ i) (used_ i + n) (end_ i) (room i)]> (infos a) !! b = Some j' /\ used_ j <= used_ j') as Hmono.
  { intros b j Hj. destruct (decide (b = currentBatch_ a)) as [->|].
    - eexists. rewrite lookup_insert_eq. split; [done|]. simpl. rewrite Hi in Hj. injection Hj as <-. lia.
    - exists j. rewrite lookup_insert_ne by done. split; [done|lia]. }
  split; simpl; auto.
  - intros b Hb. destruct (decide (b = currentBatch_ a)) as [->|].
    + eexists. split; [apply lookup_insert_eq|]. split; simpl; auto; [exists (k + 1); lia|nia|by exists m].
    + rewrite lookup_insert_ne by done. by apply Hall.
  - intros b j. destruct (decide (b = currentBatch_ a)) as [->|]; [by intros _|].
    rewrite lookup_insert_ne by done. apply Hdom.
  - apply Forall_cons. split.
    + eexists _, k. simpl. rewrite lookup_insert_eq. repeat split; simpl; lia.
    + eapply Forall_impl; [exact Hh|]. intros o. by apply handed_out_mono.
  - apply NoDup_cons. split; [|done]. intros Hin. rewrite Forall_forall in Hh.
    destruct (Hh _ Hin) as (j & k' & Hj & Hk' & _ & Hle). simpl in *. rewrite Hi in Hj. injection Hj as <-. lia.
Qed.

Lemma allocate_ok a live :
  0 < objectsPerPage_ a -> (n | objectsPerPage_ a) -> batches_ok n a live ->
  exists o a', allocate n a = Some (o, a') /\ batches_ok n a' (o :: live) /\ objectsPerPage_ a' = objectsPerPage_ a.
Proof using Hn.
  intros Hpos Hdiv Hok. unfold allocate. destruct (freeHead_ a) as [|o free] eqn:E.
  - destruct (find_batch_ok _ _ Hpos Hdiv Hok) as (a' & i & -> & Hok' & _ & Hpp & Hi & Hne). simpl.
    destruct (take_current_ok _ _ _ Hok' Hi Hne) as (o & a'' & -> & Hok'' & Hpp'). eexists _, _. repeat split; eauto; try apply Hok''. congruence.
  - eexists _, _. split; [done|]. split; [|done]. destruct Hok as [Hall Hdom Hhead Hcur Hh Hd]. rewrite E in *.
    split; simpl; auto; [|change (NoDup (o :: (live ++ free))); by rewrite (Permutation_middle live free o)].
    change (Forall (handed_out n (infos a)) (o :: (live ++ free))). by rewrite (Permutation_middle live free o).
Qed.

Lemma release_ok a live o :
  o ∈ live -> batches_ok n a live -> batches_ok n (release o a) (filter (.≠ o) live).
Proof.
  intros Ho [Hall Hdom Hhead Hcur Hh Hd].
  assert (live ≡ₚ o :: filter (.≠ o) live) as Hp.
  { apply list_elem_of_split in Ho as (l1 & l2 & ->). apply NoDup_app in Hd as (Hd & _ & _).
    rewrite filter_app, filter_cons_False by (intros H; by apply H). rewrite <-Permutation_middle in *.
    apply NoDup_cons in Hd as [Hno _]. f_equiv. rewrite <-filter_app. rewrite filter_keeps; [done|].
    apply Forall_forall. by intros x Hx ->. }
  assert (live ++ freeHead_ a ≡ₚ filter (.≠ o) live ++ o :: freeHead_ a) as Hp'.
  { rewrite Hp at 1. by rewrite <-Permutation_middle. }
  split; simpl; auto; by rewrite <-Hp'.
Qed.

Lemma batch_step_ok op a live :
  objectsPerPage_ a = per -> batches_ok n a live ->
  exists a' live', batch_step n op (a, live) = Some (a', live') /\ batches_ok n a' live' /\ objectsPerPage_ a' = per.
Proof using Hn Hper Hwhole.
  intros Hpp Hok. destruct op as [|o]; simpl.
  - destruct (allocate_ok a live) as (o & a' & -> & Hok' & Hpp'); [by rewrite Hpp..|done|]. simpl.
    eexists _, _. repeat split; try apply Hok'. congruence.
  - destruct (decide (o ∈ live)); [|by eexists _, _].
    eexists _, _. split; [done|]. split; [by apply release_ok|done].
Qed.

Lemma batch_run_ok ops a live :
  objectsPerPage_ a = per -> batches_ok n a live ->
  exists a' live', batch_run n ops (a, live) = Some (a', live') /\ batches_ok n a' live'.
Proof using Hn Hper Hwhole.
  revert a live. induction ops as [|op ops IH]; intros a live Hpp Hok; cbn [batch_run]; [by eexists _, _|].
  destruct (batch_step_ok op a live Hpp Hok) as (a' & live' & -> & Hok' & Hpp'). simpl. by apply IH.
Qed.

Lemma handed_out_in_room a live o : batches_ok n a live -> handed_out n (infos a) o -> in_room n a o.
Proof using Hn.
  intros [Hall Hdom _ _ _ _] (i & k & Hi & Ho & Hk & Hle). exists i. split; [done|].
  destruct (Hall _ (Hdom _ _ Hi)) as (i' & Hi' & [_ Hend [m Hm] Hroom _]). rewrite Hi in Hi'. injection Hi' as <-. nia.
Qed.

(** Whatever a client allocates and releases, as long as whole arrays fit into the
    [end_] of a batch the allocator always answers, what the client holds lies inside
    the memory of the batches, and no two of its arrays overlap. *)
Lemma batch_objects ops :
  exists a live, batch_run n ops (BatchAllocator_new n per, []) = Some (a, live) /\
    Forall (in_room n a) live /\ NoDup live /\
    (forall o o', o ∈ live -> o' ∈ live -> o <> o' -> apart n o o').
Proof using Hn Hper Hwhole.
  destruct (batch_run_ok ops (BatchAllocator_new n per) [] eq_refl new_ok) as (a & live & -> & Hok).
  exists a, live. pose proof (bs_handed _ _ _ Hok) as [Hh _]%Forall_app. pose proof (bs_distinct _ _ _ Hok) as (Hd & _ & _)%NoDup_app.
  repeat split; auto.
  - eapply Forall_impl; [exact Hh|]. intros o. by eapply handed_out_in_room.
  - intros [b x] [b' x'] Ho Ho' Hne Hb. simpl in *. rewrite Forall_forall in Hh.
    destruct (Hh _ Ho) as (_ & k & _ & Hk & _), (Hh _ Ho') as (_ & k' & _ & Hk' & _). simpl in *. subst b'.
    assert (k <> k') by congruence. nia.
Qed.
End BatchLemmas.

(** ** Pages of arrays do not fit

    [end_] is set [objectsPerPage_] objects behind the start of the buffer, but the
    buffer has room for [objectPerAllocation] times as many and [used_] moves on by
    [objectPerAllocation]: when that does not divide [objectsPerPage_], [used_] jumps
    over [end_] and no new batch is ever begun. *)

Fixpoint allocate_many (n : Z) (count : nat) (a : BatchAllocator) : option (list batch_address * BatchAllocator) :=
  match count with
  | O => Some ([], a)
  | S count => '(os, a) ← allocate_many n count a; '(o, a) ← allocate n a; Some (os ++ [o], a)
  end.

Definition first_batch (n per : Z) (k : nat) (a : BatchAllocator) : Prop :=
  currentBatch_ a = 1%nat /\ freeHead_ a = [] /\ created a = 2%nat /\
  infos a !! 1%nat = Some (Batch (Some 0%nat) (Z.of_nat k * n) per (n * per)).

Lemma never_ends n per count :
  0 < n -> 0 < per -> ~ (n | per) ->
  exists a, allocate_many n (S count) (BatchAllocator_new n per) =
    Some ((fun k => (1%nat, Z.of_nat k * n)) <$> seq 0 (S count), a) /\ first_batch n per (S count) a.
Proof.
  intros Hn Hper Hnd. induction count as [|count IH].
  - eexists. split; [reflexivity|]. repeat split; simpl. by rewrite lookup_insert_eq, Z.mul_1_l.
  - destruct IH as (a & Ha & Hc & Hf & Hcr & Hi). change (allocate_many n (S (S count)) ?x) with
      ('(os, a) ← allocate_many n (S count) x; '(o, a) ← allocate n a; Some (os ++ [o], a)). rewrite Ha. cbn [mbind option_bind].
    unfold allocate, find_batch. rewrite Hf, Hc, Hi. cbn [mbind option_bind used_ end_].
    rewrite (proj2 (Z.eqb_neq _ _)) by (intros E; destruct Hnd; by exists (Z.of_nat (S count))).
    simpl mbind. unfold take_current. rewrite Hc, Hi. cbn [mbind option_bind used_ end_ next_ room]. eexists. split; [by rewrite (seq_S (S count) 0), fmap_app|].
    split; [done|]. split; [done|]. split; [done|]. cbn [infos]. rewrite lookup_insert_eq. do 2 f_equal. lia.
Qed.

(** The pages of arrays: 8 values each, 255 to a batch.  The 256th page is given out
    behind the memory of the batch, and so are all that follow. *)
Lemma pages_overrun count :
  (255 <= count)%nat ->
  exists os a, allocate_many 8 (S count) (BatchAllocator_new 8 255) = Some (os, a) /\
    os !! count = Some (1%nat, Z.of_nat count * 8) /\ ~ in_room 8 a (1%nat, Z.of_nat count * 8).
Proof.
  intros Hc. destruct (never_ends 8 255 count) as (a & Ha & _ & _ & _ & Hi); [lia..| |].
  { intros [z Hz]. lia. }
  eexists _, a. split; [exact Ha|]. split.
  - rewrite list_lookup_fmap, lookup_seq_lt by lia. done.
  - intros (i & Hi' & _ & Hr). simpl in *. rewrite Hi in Hi'. injection Hi' as <-. simpl in Hr. lia.
Qed.

Lemma pages_overrun_witness : exists os a, allocate_many 8 256 (BatchAllocator_new 8 255) = Some (os, a) /\
  os !! 255%nat = Some (1%nat, 2040) /\ ~ in_room 8 a (1%nat, 2040).
Proof. exact (pages_overrun 255 ltac:(lia)). Defined.

(** Single objects, the arrays themselves and the links of the maps, are safe. *)
Lemma batch_objects_witness : exists a live,
  batch_run 1 [Allocate; Allocate; Release (1%nat, 0); Allocate] (BatchAllocator_new 1 255, []) = Some (a, live) /\
  Forall (in_room 1 a) live /\ NoDup live /\ (forall o o', o ∈ live -> o' ∈ live -> o <> o' -> apart 1 o o').
Proof. refine (batch_objects 1 255 _ _ _ _); [lia|lia|by exists 255]. Defined.

Example batch_reuses : option_map snd (batch_run 1 [Allocate; Allocate; Release (1%nat, 0); Allocate] (BatchAllocator_new 1 255, []))
  = Some [(1%nat, 0); (1%nat, 1)].
Proof. vm_compute. reflexivity. Qed.

(** ** The array *)

Definition itemsPerPage : Z := 8.

Inductive page_entry (V : Type) :=
  | NoPage                                (* never written, or of a page that was released *)
  | Page (slots : list (option V)).
Arguments NoPage {V}.
Arguments Page {V} slots.

Record ValueInternalArray (V : Type) := PagedArray {
  pages_ : option (list (page_entry V));  (* [None]: null *)
  size_ : Z;
  pageCount_ : Z
}.
Arguments PagedArray {V} _ _ _.
Arguments pages_ {V} _.
Arguments size_ {V} _.
Arguments pageCount_ {V} _.

Record IteratorState := Iterator {
  array_ : option Z;
  currentPageIndex_ : Z;
  currentItemIndex_ : Z
}.

Record array_memory (V : Type) := Memory {
  objects : gmap Z (ValueInternalArray V);
  lost : Z
}.
Arguments Memory {V} _ _.
Arguments objects {V} _.
Arguments lost {V} _.

(** A [Value &]: the array, the page and the slot. *)
Definition slot_ref : Type := Z * Z * Z.

Section Arrays.
Context {V : Type} (Value_default : V) (Value_compare : V -> V -> Z).

Abbreviation arr := (ValueInternalArray V).
Abbreviation M := (Ctl json_stop (array_memory V)).

(** ** Memory *)

Definition fault_as {A} (o : option A) : M A :=
  match o with Some a => mret a | None => exit (Faults OutOfBounds) end.
Definition assert_message (b : bool) (what : string) : M unit :=
  if b then mret tt else exit (Throws (bytes what)).

Definition get_object (p : Z) : M arr := o ← gets (fun s => objects s !! p); fault_as o.
Definition set_object (p : Z) (a : arr) : M unit :=
  modify (fun s => Memory (<[p := a]> (objects s)) (lost s)).
Definition end_object (p : Z) : M unit := modify (fun s => Memory (delete p (objects s)) (lost s)).
Definition lose (n : Z) : M unit := modify (fun s => Memory (objects s) (lost s + n)).
Definition entries (a : arr) : list (page_entry V) := default [] (pages_ a).
Definition with_entries (es : list (page_entry V)) (a : arr) : arr := PagedArray (Some es) (size_ a) (pageCount_ a).

(** The slot [item] of the page behind entry [page]. *)
Definition slot_at (es : list (page_entry V)) (page item : Z) : option (option V) :=
  match zlookup es page with Some (Page slots) => zlookup slots item | _ => None end.
Definition write_slot (page item : Z) (x : option V) (es : list (page_entry V)) : list (page_entry V) :=
  match zlookup es page with
  | Some (Page slots) => <[Z.to_nat page := Page (<[Z.to_nat item := x]> slots)]> es
  | _ => es
  end.

Definition read_slot (r : slot_ref) : M (option V) :=
  let '(p, page, item) := r in a ← get_object p; fault_as (slot_at (entries a) page item).
Definition put_slot (r : slot_ref) (x : option V) : M unit :=
  let '(p, page, item) := r in
  a ← get_object p; _ ← fault_as (slot_at (entries a) page item);
  set_object p (with_entries (write_slot page item x (entries a)) a).

(** A value is read, constructed in place, destroyed. *)
Definition load (r : slot_ref) : M V := x ← read_slot r; fault_as x.
Definition construct (r : slot_ref) (v : V) : M unit := put_slot r (Some v).
Definition destruct (r : slot_ref) : M unit := load r ≫= fun _ => put_slot r None.

(** ** The allocator [DefaultValueArrayAllocator] *)

Definition is_page (e : page_entry V) : bool := match e with Page _ => true | NoPage => false end.
Definition held (es : list (page_entry V)) : Z := zlen (filter is_page es).

(** [realloc] keeps the entries there is room for. *)
Definition reallocateArrayPageIndex (p minNewIndexCount : Z) : M unit :=
  a ← get_object p;
  let newIndexCount := u32 (u32 (pageCount_ a * 3) / 2 + 1) in
  let newIndexCount := if minNewIndexCount >? newIndexCount then minNewIndexCount else newIndexCount in
  let n := Z.to_nat newIndexCount in
  lose (held (drop n (entries a)));;
  set_object p (PagedArray (Some (take n (entries a) ++ replicate (n - length (entries a)) NoPage)) (size_ a) newIndexCount).

(** [free]: what the entries still own is lost. *)
Definition releaseArrayPageIndex (p : Z) : M unit :=
  a ← get_object p; lose (held (entries a));; set_object p (PagedArray None (size_ a) (pageCount_ a)).

Definition allocateArrayPage : page_entry V := Page (replicate 8 None).

(** [pages_[i] = allocateArrayPage()]. *)
Definition store_page (p i : Z) : M unit :=
  a ← get_object p; e ← fault_as (zlookup (entries a) i);
  lose (if is_page e then 1 else 0);; set_object p (with_entries (<[Z.to_nat i := allocateArrayPage]> (entries a)) a).

(** [releaseArrayPage(pages_[i])]: to release what is no page is a fault. *)
Definition release_page (p i : Z) : M unit :=
  a ← get_object p; e ← fault_as (zlookup (entries a) i);
  if is_page e then set_object p (with_entries (<[Z.to_nat i := NoPage]> (entries a)) a)
  else exit (Faults OutOfBounds).

Fixpoint release_pages (p i : Z) (n : nat) : M unit :=
  match n with O => mret tt | S n => release_page p i;; release_pages p (i + 1) n end.
Fixpoint store_pages (p i : Z) (n : nat) : M unit :=
  match n with O => mret tt | S n => store_page p i;; store_pages p (i + 1) n end.

(** ** Iterators *)

Definition position (it : IteratorState) : Z := currentPageIndex_ it * itemsPerPage + currentItemIndex_ it.

Definition equals (x other : IteratorState) : bool :=
  bool_decide (array_ x = array_ other) && (currentItemIndex_ x =? currentItemIndex_ other)
  && (currentPageIndex_ x =? currentPageIndex_ other).

Definition iterated (it : IteratorState) (what : string) : M arr :=
  match array_ it with Some p => get_object p | None => exit (Throws (bytes what)) end.

Definition increment (it : IteratorState) : M IteratorState :=
  let what := "ValueInternalArray::increment(): moving iterator beyond end"%string in
  a ← iterated it what; assert_message (negb (position it =? size_ a)) what;;
  let i := currentItemIndex_ it + 1 in
  mret (if i =? itemsPerPage then Iterator (array_ it) (currentPageIndex_ it + 1) 0
        else Iterator (array_ it) (currentPageIndex_ it) i).

Definition decrement (it : IteratorState) : M IteratorState :=
  let what := "ValueInternalArray::decrement(): moving iterator beyond end"%string in
  _ ← iterated it what;
  assert_message ((currentPageIndex_ it =? 0) && (currentItemIndex_ it =? 0)) what;;
  mret (if currentItemIndex_ it =? 0 then Iterator (array_ it) (currentPageIndex_ it - 1) (itemsPerPage - 1)
        else Iterator (array_ it) (currentPageIndex_ it) (currentItemIndex_ it - 1)).

Definition unsafeDereference (it : IteratorState) : M slot_ref :=
  p ← fault_as (array_ it); a ← get_object p;
  _ ← fault_as (slot_at (entries a) (currentPageIndex_ it) (currentItemIndex_ it));
  mret (p, currentPageIndex_ it, currentItemIndex_ it).

Definition dereference (it : IteratorState) : M slot_ref :=
  let what := "ValueInternalArray::dereference(): dereferencing invalid iterator"%string in
  a ← iterated it what; assert_message (position it <? size_ a) what;; unsafeDereference it.

Definition makeBeginIterator (p : Z) : IteratorState := Iterator (Some p) 0 0.
Definition makeIterator (p index : Z) : IteratorState := Iterator (Some p) (index / itemsPerPage) (index mod itemsPerPage).
Definition makeEndIterator (p : Z) : M IteratorState := a ← get_object p; mret (makeIterator p (size_ a)).

Definition indexOf (it : IteratorState) : Z := match array_ it with None => maxUInt | Some _ => u32 (position it) end.
Definition distance (x y : IteratorState) : Z := s32 (indexOf y - indexOf x).

(** [for ( ; !equals(it,itEnd); increment(it) ) body( dereference(it) )]. *)
Fixpoint over_items (fuel : nat) (body : slot_ref -> M unit) (it itEnd : IteratorState) : M unit :=
  if equals it itEnd then mret tt
  else match fuel with
  | O => exit (Faults OutOfFuel)
  | S fuel => r ← dereference it; body r;; it' ← increment it; over_items fuel body it' itEnd
  end.
Definition over_range (body : slot_ref -> M unit) (it itEnd : IteratorState) : M unit :=
  over_items (Z.to_nat (position itEnd - position it)) body it itEnd.

(** ** The array *)

Definition fresh_object : M Z := gets (fun s => fresh (dom (objects s))).

(** A new object, at an address of its own. *)
Definition ValueInternalArray_new : M Z :=
  p ← fresh_object; set_object p (PagedArray None 0 0);; mret p.

Definition swap (p q : Z) : M unit :=
  a ← get_object p; b ← get_object q; set_object p b;; set_object q a.

(** The destructor, and with it the end of the object. *)
Definition ValueInternalArray_delete (p : Z) : M unit :=
  itEnd ← makeEndIterator p;
  over_range destruct (makeBeginIterator p) itEnd;;
  a ← get_object p;
  release_pages p 0 (Z.to_nat (size_ a / itemsPerPage));;
  releaseArrayPageIndex p;; end_object p.

Definition clear (p : Z) : M unit :=
  dummy ← ValueInternalArray_new; swap p dummy;; ValueInternalArray_delete dummy.

(** Where the first page lies that is not in use yet, in items. *)
Definition next_page_index (a : arr) : Z :=
  if negb (size_ a mod itemsPerPage =? 0) then u32 (u32 (size_ a - size_ a mod itemsPerPage) + itemsPerPage) else size_ a.

Definition makeIndexValid (p index : Z) : M unit :=
  a ← get_object p;
  when (index >=? u32 (pageCount_ a * itemsPerPage)) (
    let minNewPages := u32 (index + 1) / itemsPerPage in
    reallocateArrayPageIndex p minNewPages;;
    a ← get_object p; assert_message (pageCount_ a >=? minNewPages) "ValueInternalArray::reserve(): bad reallocation");;
  a ← get_object p;
  let nextPageIndex := next_page_index a in
  when (nextPageIndex <=? index)
    (store_pages p (nextPageIndex / itemsPerPage) (Z.to_nat ((index - nextPageIndex) / itemsPerPage + 1)));;
  let it := makeIterator p (size_ a) in
  a ← get_object p; set_object p (PagedArray (pages_ a) (u32 (index + 1)) (pageCount_ a));;
  over_range (fun value => construct value Value_default) it (makeIterator p (u32 (index + 1))).

(** [pages_[index/itemsPerPage][index%itemsPerPage]]. *)
Definition item_at (p index : Z) : M slot_ref :=
  a ← get_object p; _ ← fault_as (slot_at (entries a) (index / itemsPerPage) (index mod itemsPerPage));
  mret (p, index / itemsPerPage, index mod itemsPerPage).

Definition resolveReference (p index : Z) : M slot_ref :=
  a ← get_object p; when (index >=? size_ a) (makeIndexValid p index);; item_at p index.

Definition find (p index : Z) : M (option slot_ref) :=
  a ← get_object p; if index >=? size_ a then mret None else (r ← item_at p index; mret (Some r)).

Definition size (p : Z) : M Z := a ← get_object p; mret (size_ a).

Definition resize (p newSize : Z) : M unit :=
  a ← get_object p;
  if newSize =? 0 then clear p
  else if newSize <? size_ a then
    over_range destruct (makeIterator p newSize) (makeIterator p (size_ a));;
    let pageIndex := u32 (newSize + itemsPerPage - 1) / itemsPerPage in
    release_pages p pageIndex (Z.to_nat (size_ a / itemsPerPage - pageIndex));;
    a ← get_object p; set_object p (PagedArray (pages_ a) newSize (pageCount_ a))
  else when (newSize >? size_ a) (resolveReference p newSize ≫= fun _ => mret tt).

(** The loop of the copy constructor; [value] is the variable of that name, the place
    that was allocated last. *)
Fixpoint copy_items (n : nat) (p index : Z) (value : option slot_ref) (itOther : IteratorState) : M unit :=
  match n with
  | O => mret tt
  | S n =>
      value ← (if index mod itemsPerPage =? 0 then
                 store_page p (index / itemsPerPage);; mret (Some (p, index / itemsPerPage, 0))
               else mret value);
      r ← dereference itOther; v ← load r;
      to ← fault_as value; construct to v;;
      itOther ← increment itOther; copy_items n p (index + 1) value itOther
  end.

Definition newArrayCopy (other : Z) : M Z :=
  o ← get_object other;
  p ← fresh_object; set_object p (PagedArray None (size_ o) 0);;
  let minNewPages := size_ o / itemsPerPage in
  reallocateArrayPageIndex p minNewPages;;
  a ← get_object p; assert_message (pageCount_ a >=? minNewPages) "ValueInternalArray::reserve(): bad reallocation";;
  copy_items (Z.to_nat (size_ o)) p 0 None (makeBeginIterator other);; mret p.

Definition assign (p other : Z) : M unit :=
  temp ← newArrayCopy other; swap p temp;; ValueInternalArray_delete temp.

Fixpoint compare_items (n : nat) (p q index : Z) : M Z :=
  match n with
  | O => mret 0
  | S n =>
      r ← item_at p index; x ← load r; r' ← item_at q index; y ← load r';
      let diff := Value_compare x y in
      if negb (diff =? 0) then mret diff else compare_items n p q (index + 1)
  end.

Definition compare (p q : Z) : M Z :=
  a ← get_object p; b ← get_object q;
  let sizeDiff := s32 (size_ a - size_ b) in
  if negb (sizeDiff =? 0) then mret sizeDiff else compare_items (Z.to_nat (size_ a)) p q 0.

(** ** What an array holds *)

Definition item (a : arr) (i : Z) : option (option V) := slot_at (entries a) (i / itemsPerPage) (i mod itemsPerPage).

(** All pages have their eight slots. *)
Definition full_pages (es : list (page_entry V)) : Prop := forall k slots, zlookup es k = Some (Page slots) -> zlen slots = itemsPerPage.

Record holds (a : arr) (vs : list V) : Prop := {
  h_size : size_ a = zlen vs;
  h_small : zlen vs < 2 ^ 31;
  h_count : 0 <= pageCount_ a < 2 ^ 29;
  h_index : zlen (entries a) = pageCount_ a;
  h_rooms : full_pages (entries a);
  h_items : forall i v, zlookup vs i = Some v -> item a i = Some (Some v)
}.
End Arrays.

Arguments holds {V} a vs.

Section ArrayLemmas.
Context {V : Type} (Value_default : V) (Value_compare : V -> V -> Z).
Implicit Types (a : ValueInternalArray V) (es : list (page_entry V)) (s : array_memory V).

(** ** Primitives *)

Lemma wp_get_object p a s (Q : _ -> _ -> Prop) E : objects s !! p = Some a -> Q a s -> wp (get_object p) s Q E.
Proof. intros Ha HQ. unfold get_object. apply wp_bind, wp_gets. rewrite Ha. by apply wp_ret. Qed.

Lemma wp_fault_as {A} (o : option A) x s (Q : _ -> array_memory V -> Prop) E : o = Some x -> Q x s -> wp (fault_as o) s Q E.
Proof. intros -> HQ. by apply wp_ret. Qed.

Lemma wp_assert_message (b : bool) what s (Q : _ -> array_memory V -> Prop) E : b = true -> Q tt s -> wp (assert_message b what) s Q E.
Proof. intros ->. apply wp_ret. Qed.

(** ** Slots *)

Lemma slot_write_eq es k i x y : slot_at es k i = Some y -> slot_at (write_slot k i x es) k i = Some x.
Proof.
  unfold slot_at, write_slot. destruct (zlookup es k) as [[|slots]|] eqn:E; try done. intros Hi.
  pose proof (zlookup_bound _ _ _ E). pose proof (zlookup_bound _ _ _ Hi). unfold zlookup in *.
  destruct (Z.ltb_spec k 0); [done|]. rewrite list_lookup_insert_eq by (unfold zlen in *; lia).
  destruct (Z.ltb_spec i 0); [done|]. apply list_lookup_insert_eq. unfold zlen in *; lia.
Qed.

Lemma slot_write_ne es k i k' i' x :
  0 <= k -> 0 <= i -> k <> k' \/ i <> i' -> slot_at (write_slot k i x es) k' i' = slot_at es k' i'.
Proof.
  intros Hk Hi Hne. unfold slot_at, write_slot. destruct (zlookup es k) as [[|slots]|] eqn:E; try done.
  unfold zlookup in *. destruct (Z.ltb_spec k' 0); [done|].
  destruct (decide (k = k')) as [->|].
  - destruct (Z.ltb_spec k' 0); [lia|]. rewrite list_lookup_insert_eq by by eapply lookup_lt_Some. rewrite E.
    destruct (Z.ltb_spec i' 0); [done|]. by rewrite list_lookup_insert_ne by lia.
  - by rewrite list_lookup_insert_ne by lia.
Qed.

Lemma zlen_write_slot es k i x : zlen (write_slot k i x es) = zlen es.
Proof. unfold write_slot. destruct (zlookup es k) as [[|slots]|]; try done. apply zlen_insert. Qed.

Lemma full_insert es n e :
  full_pages es -> (forall slots, e = Page slots -> zlen slots = itemsPerPage) -> full_pages (<[n := e]> es).
Proof.
  intros Hes He k slots. unfold zlookup. destruct (Z.ltb_spec k 0); [done|].
  intros [(_ & -> & _)|[_ Hl]]%list_lookup_insert_Some; [by apply He|]. apply (Hes k). unfold zlookup. by destruct (Z.ltb_spec k 0); [lia|].
Qed.

Lemma full_write es k i x : full_pages es -> full_pages (write_slot k i x es).
Proof.
  intros Hes. unfold write_slot. destruct (zlookup es k) as [[|slots]|] eqn:E; try done.
  apply full_insert; [done|]. intros ? [= <-]. rewrite zlen_insert. by apply (Hes k).
Qed.

Lemma held_insert es n e e0 :
  es !! n = Some e0 -> held (<[n := e]> es) = held es - (if is_page e0 then 1 else 0) + (if is_page e then 1 else 0).
Proof.
  unfold held. revert n. induction es as [|e1 es IH]; intros [|n] Hn; try done; simpl in *.
  - injection Hn as ->. rewrite !filter_cons. destruct e, e0; repeat case_decide; simpl in *; rewrite ?zlen_cons; done || lia.
  - rewrite !filter_cons. specialize (IH n Hn). case_decide; rewrite ?zlen_cons; lia.
Qed.

Lemma held_write k i x es : held (write_slot k i x es) = held es.
Proof.
  unfold write_slot. destruct (zlookup es k) as [[|slots]|] eqn:E; try done.
  pose proof (zlookup_bound _ _ _ E). unfold zlookup in E. destruct (Z.ltb_spec k 0); [done|].
  rewrite (held_insert _ _ _ _ E). simpl. lia.
Qed.

Lemma held_app es es' : held (es ++ es') = held es + held es'.
Proof. unfold held. by rewrite filter_app, zlen_app. Qed.

Lemma held_none n : held (replicate n (@NoPage V)) = 0.
Proof. unfold held. induction n as [|n IH]; [done|]. simpl. by rewrite filter_cons_False by auto. Qed.

(** ** Iterators *)

Lemma position_make p i : position (makeIterator p i) = i.
Proof. unfold position, makeIterator, itemsPerPage. simpl. pose proof (Z.div_mod i 8). lia. Qed.

Lemma equals_make p i j : equals (makeIterator p i) (makeIterator p j) = (i =? j).
Proof.
  unfold equals. simpl. rewrite bool_decide_true by done. simpl. unfold itemsPerPage.
  pose proof (Z.div_mod i 8). pose proof (Z.div_mod j 8).
  destruct (Z.eqb_spec i j) as [->|]; [by rewrite !Z.eqb_refl|].
  apply andb_false_iff. rewrite !Z.eqb_neq. lia.
Qed.

Lemma next_make p i :
  (if currentItemIndex_ (makeIterator p i) + 1 =? itemsPerPage
   then Iterator (Some p) (currentPageIndex_ (makeIterator p i) + 1) 0
   else Iterator (Some p) (currentPageIndex_ (makeIterator p i)) (currentItemIndex_ (makeIterator p i) + 1)) = makeIterator p (i + 1).
Proof.
  unfold makeIterator, itemsPerPage. simpl. destruct (Z.eqb_spec (i mod 8 + 1) 8); f_equal; Z.to_euclidean_division_equations; lia.
Qed.

Lemma wp_increment p i a s (Q : _ -> _ -> Prop) E :
  objects s !! p = Some a -> i <> size_ a -> Q (makeIterator p (i + 1)) s -> wp (increment (makeIterator p i)) s Q E.
Proof.
  intros Ha Hi HQ. unfold increment. apply wp_bind. simpl. eapply wp_get_object; [done|].
  apply wp_bind, wp_assert_message; [rewrite position_make; by apply negb_true_iff, Z.eqb_neq|].
  apply wp_ret. pose proof (next_make p i) as Hn. cbn in Hn |- *. by rewrite Hn.
Qed.

Lemma wp_dereference p i a x s (Q : _ -> _ -> Prop) E :
  objects s !! p = Some a -> i < size_ a -> item a i = Some x ->
  Q (p, i / itemsPerPage, i mod itemsPerPage) s -> wp (dereference (makeIterator p i)) s Q E.
Proof.
  intros Ha Hi Hx HQ. unfold dereference. apply wp_bind. simpl. eapply wp_get_object; [done|].
  apply wp_bind, wp_assert_message; [rewrite position_make; by apply Z.ltb_lt|].
  unfold unsafeDereference. apply wp_bind, wp_ret, wp_bind. eapply wp_get_object; [done|].
  apply wp_bind. by eapply wp_fault_as.
Qed.

(** A loop over the items from [i] to [j]: the body keeps an invariant that moves on,
    and leaves the array its size. *)
Lemma wp_over_range p n (I : Z -> array_memory V -> Prop) body i j s E :
  i <= j <= n ->
  (forall k s, I k s -> exists a, objects s !! p = Some a /\ size_ a = n /\ (i <= k < j -> is_Some (item a k))) ->
  (forall k s, i <= k < j -> I k s -> wp (body (p, k / itemsPerPage, k mod itemsPerPage)) s (fun _ => I (k + 1)) E) ->
  I i s -> wp (over_range body (makeIterator p i) (makeIterator p j)) s (fun _ => I j) E.
Proof.
  intros Hij HI Hbody Hs. unfold over_range. rewrite !position_make.
  assert (forall m k s, m = Z.to_nat (j - k) -> i <= k <= j -> I k s ->
    wp (over_items m body (makeIterator p k) (makeIterator p j)) s (fun _ => I j) E) as H; [|apply H; auto; lia].
  clear s Hs. induction m as [|m IH]; intros k s Hm Hk Hs; simpl; rewrite equals_make; destruct (Z.eqb_spec k j) as [->|]; try (by apply wp_ret); try (exfalso; lia).
  destruct (HI _ _ Hs) as (a & Ha & Hsz & Hit). destruct (Hit ltac:(lia)) as [x Hx].
  apply wp_bind. eapply wp_dereference; [done|lia|done|].
  apply wp_bind. eapply wp_mono; [|done|apply Hbody; [lia|done]]. simpl. intros _ s' Hs'.
  destruct (HI _ _ Hs') as (a' & Ha' & Hsz' & _). apply wp_bind. eapply wp_increment; [done|lia|].
  apply IH; auto; lia.
Qed.

(** ** One operation on slots in a loop *)

Lemma item_write a k m x y :
  0 <= k -> item a k = Some y ->
  item (with_entries (write_slot (k / itemsPerPage) (k mod itemsPerPage) x (entries a)) a) m
  = if m =? k then Some x else item a m.
Proof.
  intros Hk Hy. unfold item at 1, with_entries, entries at 1. simpl. unfold itemsPerPage in *.
  pose proof (Z.div_mod k 8). pose proof (Z.div_mod m 8). pose proof (Z.mod_pos_bound k 8). pose proof (Z.div_pos k 8).
  destruct (Z.eqb_spec m k) as [->|]; [by eapply slot_write_eq|]. apply slot_write_ne; lia.
Qed.

(** The slots from [i] to [j] after [x] has been put into each. *)
Record filled p i j (x : option V) a s a' s' : Prop := {
  f_objects : objects s' = <[p := a']> (objects s);
  f_lost : lost s' = lost s;
  f_size : size_ a' = size_ a;
  f_count : pageCount_ a' = pageCount_ a;
  f_zlen : zlen (entries a') = zlen (entries a);
  f_held : held (entries a') = held (entries a);
  f_full : full_pages (entries a) -> full_pages (entries a');
  f_item : forall m, item a' m = if (i <=? m) && (m <? j) then Some x else item a m
}.

Lemma filled_none p i x a s : objects s !! p = Some a -> filled p i i x a s a s.
Proof.
  intros Ha. split; auto; [by rewrite insert_id|]. intros m. destruct (Z.leb_spec i m), (Z.ltb_spec m i); simpl; auto; lia.
Qed.

Lemma filled_one p i k x y a s a1 s1 :
  0 <= i <= k -> filled p i k x a s a1 s1 -> item a k = Some y ->
  let a2 := with_entries (write_slot (k / itemsPerPage) (k mod itemsPerPage) x (entries a1)) a1 in
  filled p i (k + 1) x a s a2 (Memory (<[p := a2]> (objects s1)) (lost s1)).
Proof.
  intros Hk [Hobj Hlost Hsz Hc Hlen Hh Hfull Hit] Hy a2.
  assert (item a1 k = Some y) as Hy1 by (rewrite Hit; destruct (Z.ltb_spec k k); [lia|]; by rewrite andb_false_r).
  split; try done.
  - cbn. by rewrite Hobj, insert_insert_eq.
  - unfold a2, entries at 1. cbn. by rewrite zlen_write_slot.
  - unfold a2, entries at 1. cbn. by rewrite held_write.
  - intros H. unfold a2, entries at 1. cbn. by apply full_write, Hfull.
  - intros m. unfold a2. rewrite (item_write _ _ _ _ y) by (done || lia). rewrite Hit.
    destruct (Z.eqb_spec m k), (Z.leb_spec i m), (Z.ltb_spec m k), (Z.ltb_spec m (k + 1)); simpl; auto; lia.
Qed.

Lemma wp_fill_range p i j x body a s E :
  objects s !! p = Some a -> 0 <= i <= j -> j <= size_ a -> (forall k, i <= k < j -> is_Some (item a k)) ->
  (forall k s1 a1 y, i <= k < j -> objects s1 !! p = Some a1 -> item a1 k = Some y -> item a k = Some y ->
     wp (body (p, k / itemsPerPage, k mod itemsPerPage)) s1 (fun _ s2 => s2 =
       Memory (<[p := with_entries (write_slot (k / itemsPerPage) (k mod itemsPerPage) x (entries a1)) a1]> (objects s1)) (lost s1)) E) ->
  wp (over_range body (makeIterator p i) (makeIterator p j)) s (fun _ s' => exists a', filled p i j x a s a' s') E.
Proof.
  intros Ha Hij Hj Hits Hbody.
  assert (forall k s1, (exists a1, filled p i k x a s a1 s1) -> exists a1, objects s1 !! p = Some a1 /\ size_ a1 = size_ a /\
    (i <= k < j -> is_Some (item a1 k)) /\ filled p i k x a s a1 s1) as Hfilled.
  { intros k s1 (a1 & Hf). exists a1. rewrite (f_objects _ _ _ _ _ _ _ _ Hf), lookup_insert_eq.
    split; [done|]. split; [apply Hf|]. split; [|done]. intros Hk. rewrite (f_item _ _ _ _ _ _ _ _ Hf), Z.ltb_irrefl, andb_false_r. by apply Hits. }
  eapply (wp_over_range p (size_ a) (fun k s' => exists a', filled p i k x a s a' s')); [lia| | |].
  - intros k s1 (a1 & Ha1 & Hsz & Hit & _)%Hfilled. eauto.
  - intros k s1 Hk (a1 & Ha1 & Hsz & Hit & Hf)%Hfilled. destruct (Hits k Hk) as [y Hy].
    eapply wp_mono; [|done|eapply Hbody; [done|done| |exact Hy]].
    + intros _ s2 ->. eexists. eapply filled_one; [lia|done|done].
    + by rewrite (f_item _ _ _ _ _ _ _ _ Hf), Z.ltb_irrefl, andb_false_r.
  - eexists. by apply filled_none.
Qed.

Lemma wp_put_slot p k a y x s (Q : unit -> array_memory V -> Prop) E :
  objects s !! p = Some a -> item a k = Some y ->
  Q tt (Memory (<[p := with_entries (write_slot (k / itemsPerPage) (k mod itemsPerPage) x (entries a)) a]> (objects s)) (lost s)) ->
  wp (put_slot (p, k / itemsPerPage, k mod itemsPerPage) x) s Q E.
Proof.
  intros Ha Hy HQ. unfold put_slot. apply wp_bind. eapply wp_get_object; [done|].
  apply wp_bind. eapply wp_fault_as; [exact Hy|]. by apply wp_modify.
Qed.

Lemma wp_load p k a v s (Q : V -> array_memory V -> Prop) E :
  objects s !! p = Some a -> item a k = Some (Some v) -> Q v s ->
  wp (load (p, k / itemsPerPage, k mod itemsPerPage)) s Q E.
Proof.
  intros Ha Hy HQ. unfold load, read_slot. apply wp_bind, wp_bind. eapply wp_get_object; [done|].
  eapply wp_fault_as; [exact Hy|]. by eapply wp_fault_as.
Qed.

Lemma wp_construct_range p i j v a s E :
  objects s !! p = Some a -> 0 <= i <= j -> j <= size_ a -> (forall k, i <= k < j -> is_Some (item a k)) ->
  wp (over_range (fun value => construct value v) (makeIterator p i) (makeIterator p j)) s
    (fun _ s' => exists a', filled p i j (Some v) a s a' s') E.
Proof.
  intros Ha Hij Hj Hits. eapply wp_fill_range; [done..|]. intros k s1 a1 y Hk Ha1 Hy _. by eapply wp_put_slot.
Qed.

Lemma wp_destruct_range p i j a s E :
  objects s !! p = Some a -> 0 <= i <= j -> j <= size_ a -> (forall k, i <= k < j -> exists v, item a k = Some (Some v)) ->
  wp (over_range destruct (makeIterator p i) (makeIterator p j)) s (fun _ s' => exists a', filled p i j None a s a' s') E.
Proof.
  intros Ha Hij Hj Hits. eapply wp_fill_range; [done..| |].
  - intros k Hk. destruct (Hits k Hk). eauto.
  - intros k s1 a1 y Hk Ha1 Hy Hy0. destruct (Hits k Hk) as [v Hv]. rewrite Hv in Hy0. injection Hy0 as <-.
    unfold destruct. apply wp_bind. eapply wp_load; [done|exact Hy|]. by eapply wp_put_slot.
Qed.

(** ** Pages *)

Lemma entries_with es a : entries (with_entries es a) = es.
Proof. done. Qed.

(** What a new index holds from [k] to [k + n]: pages that were stored, [e]. *)
Record paged p k n (e : page_entry V) a s es' s' : Prop := {
  pg_objects : objects s' = <[p := with_entries es' a]> (objects s);
  pg_zlen : zlen es' = zlen (entries a);
  pg_entry : forall k', zlookup es' k' = if (k <=? k') && (k' <? k + n) then Some e else zlookup (entries a) k';
  pg_lost : lost s' + held es' = lost s + held (entries a) + (if is_page e then n else - n)
}.

Lemma paged_none p k e a s :
  objects s !! p = Some a -> pages_ a <> None -> paged p k 0 e a s (entries a) s.
Proof.
  intros Ha Hp. split; [|done| |by destruct (is_page e); lia].
  - rewrite insert_id; [done|]. rewrite Ha. f_equal. destruct a as [[es|] sz c]; [done|]. done.
  - intros k'. destruct (Z.leb_spec k k'), (Z.ltb_spec k' (k + 0)); simpl; auto; lia.
Qed.

(** One page more, and then the rest. *)
Lemma paged_cons p k n e e0 a s es' s' d :
  0 <= k -> 0 <= n -> zlookup (entries a) k = Some e0 ->
  d = (if is_page e then (if is_page e0 then 1 else 0) else 0) -> (is_page e = false -> is_page e0 = true) ->
  let a1 := with_entries (<[Z.to_nat k := e]> (entries a)) a in
  paged p (k + 1) n e a1 (Memory (<[p := a1]> (objects s)) (lost s + d)) es' s' ->
  paged p k (n + 1) e a s es' s'.
Proof.
  intros Hk Hn He0 Hd Hpage a1 [Hobj Hlen Hent Hlost]. unfold zlookup in He0. destruct (Z.ltb_spec k 0); [lia|].
  rewrite (entries_with _ a : entries a1 = _) in *. split.
  - rewrite Hobj. cbn. by rewrite insert_insert_eq.
  - by rewrite Hlen, zlen_insert.
  - intros k'. rewrite Hent. unfold zlookup. destruct (Z.ltb_spec k' 0).
    { destruct (Z.leb_spec (k + 1) k'), (Z.leb_spec k k'); simpl; auto; lia. }
    destruct (Z.eqb_spec k' k) as [->|].
    + rewrite list_lookup_insert_eq by by eapply lookup_lt_Some.
      destruct (Z.leb_spec (k + 1) k), (Z.leb_spec k k), (Z.ltb_spec k (k + (n + 1))); simpl; auto; lia.
    + rewrite list_lookup_insert_ne by lia.
      destruct (Z.leb_spec (k + 1) k'), (Z.leb_spec k k'), (Z.ltb_spec k' (k + 1 + n)), (Z.ltb_spec k' (k + (n + 1))); simpl; auto; lia.
  - rewrite Hlost. cbn. rewrite (held_insert _ _ _ _ He0). subst d. destruct (is_page e), (is_page e0); lia.
Qed.

Lemma wp_store_pages p n k a s E :
  objects s !! p = Some a -> pages_ a <> None -> 0 <= k -> k + Z.of_nat n <= zlen (entries a) ->
  wp (store_pages p k n) s (fun _ s' => exists es', paged p k (Z.of_nat n) (allocateArrayPage (V:=V)) a s es' s') E.
Proof.
  revert k a s. induction n as [|n IH]; intros k a s Ha Hp Hk Hlen; cbn [store_pages].
  { apply wp_ret. eexists. by apply paged_none. }
  destruct (zlookup_Some (entries a) k) as [e0 He0]; [lia|].
  apply wp_bind. unfold store_page. apply wp_bind. eapply wp_get_object; [done|].
  apply wp_bind. eapply wp_fault_as; [exact He0|]. apply wp_bind, wp_modify, wp_modify. simpl.
  eapply wp_mono; [| |eapply IH]; [|done|apply lookup_insert_eq|done|lia|rewrite entries_with, zlen_insert; lia].
  intros _ s' (es' & Hpg). exists es'. rewrite Nat2Z.inj_succ, <-Z.add_1_r. eapply paged_cons; [lia|lia|exact He0|done|done|exact Hpg].
Qed.

Lemma store_pages_fails p n k a s :
  objects s !! p = Some a -> 0 <= k <= zlen (entries a) -> zlen (entries a) < k + Z.of_nat n ->
  wp (store_pages p k n) s (fun _ _ => False) (fun j _ => j = Faults OutOfBounds).
Proof.
  revert k a s. induction n as [|n IH]; intros k a s Ha Hk Hlen; cbn [store_pages]; [lia|].
  apply wp_bind. unfold store_page. apply wp_bind. eapply wp_get_object; [done|]. apply wp_bind.
  destruct (zlookup (entries a) k) as [e0|] eqn:He0; [|by apply wp_exit].
  pose proof (zlookup_bound _ _ _ He0).
  apply wp_ret, wp_bind, wp_modify, wp_modify. simpl.
  eapply IH; [apply lookup_insert_eq|..]; rewrite entries_with, zlen_insert; lia.
Qed.

Lemma wp_release_pages p n k a s E :
  objects s !! p = Some a -> pages_ a <> None -> 0 <= k ->
  (forall k', k <= k' < k + Z.of_nat n -> exists slots, zlookup (entries a) k' = Some (Page slots)) ->
  wp (release_pages p k n) s (fun _ s' => exists es', paged p k (Z.of_nat n) NoPage a s es' s') E.
Proof.
  revert k a s. induction n as [|n IH]; intros k a s Ha Hp Hk Hpages; cbn [release_pages].
  { apply wp_ret. eexists. by apply paged_none. }
  destruct (Hpages k) as [slots He0]; [lia|].
  apply wp_bind. unfold release_page. apply wp_bind. eapply wp_get_object; [done|].
  apply wp_bind. eapply wp_fault_as; [exact He0|]. cbn [is_page]. apply wp_modify.
  eapply wp_mono; [| |eapply IH]; [|by intros|by apply lookup_insert_eq|done|lia|].
  - intros _ s' (es' & Hpg). exists es'. rewrite Nat2Z.inj_succ, <-Z.add_1_r.
    eapply paged_cons; [lia|lia|exact He0|..]; [done|done|]. cbn. by rewrite Z.add_0_r.
  - intros k' Hk'. destruct (Hpages k') as [sl Hsl]; [lia|]. exists sl. rewrite entries_with. unfold zlookup in *.
    destruct (Z.ltb_spec k' 0); [done|]. by rewrite list_lookup_insert_ne by lia.
Qed.

Lemma wp_realloc p a m s (Q : unit -> _ -> Prop) E :
  objects s !! p = Some a -> zlen (entries a) = pageCount_ a -> 0 <= pageCount_ a < 2 ^ 30 ->
  (let n := Z.max (pageCount_ a * 3 / 2 + 1) m in
   Q tt (Memory (<[p := PagedArray (Some (entries a ++ replicate (Z.to_nat (n - pageCount_ a)) NoPage)) (size_ a) n]> (objects s)) (lost s))) ->
  wp (reallocateArrayPageIndex p m) s Q E.
Proof.
  intros Ha Hlen Hc HQ. unfold reallocateArrayPageIndex. apply wp_bind. eapply wp_get_object; [done|]. cbn zeta.
  rewrite (uwrap_small 32 (pageCount_ a * 3)) by lia. rewrite (uwrap_small 32) by (Z.to_euclidean_division_equations; lia).
  set (n := if m >? _ then m else _). cbn zeta in HQ.
  assert (n = Z.max (pageCount_ a * 3 / 2 + 1) m) as Hn by (subst n; destruct (Z.gtb_spec m (pageCount_ a * 3 / 2 + 1)); lia).
  rewrite <-Hn in HQ. assert (pageCount_ a <= n) by (Z.to_euclidean_division_equations; lia). unfold zlen in Hlen.
  rewrite drop_ge, take_ge by lia. replace (Z.to_nat n - length (entries a))%nat with (Z.to_nat (n - pageCount_ a)) by lia.
  apply wp_bind, wp_modify, wp_modify. cbn [objects lost]. by rewrite (Z.add_0_r (lost s) : lost s + held [] = lost s).
Qed.

(** ** Growth *)

(** Pages for [n] items. *)
Definition pages_for (n : Z) : Z := (n + 7) / itemsPerPage.

(** The length of the index when item [i] is asked for, and whether it reaches. *)
Definition new_count (count i : Z) : Z :=
  if i <? count * itemsPerPage then count else Z.max (count * 3 / 2 + 1) ((i + 1) / itemsPerPage).
Definition fits a (i : Z) : bool := i / itemsPerPage <? new_count (pageCount_ a) i.

Lemma next_page_is a : 0 <= size_ a < 2 ^ 31 -> next_page_index a = pages_for (size_ a) * itemsPerPage.
Proof.
  intros Hs. unfold next_page_index, pages_for, itemsPerPage. destruct (Z.eqb_spec (size_ a mod 8) 0); simpl.
  - Z.to_euclidean_division_equations; lia.
  - rewrite (uwrap_small 32 (_ - _)) by (Z.to_euclidean_division_equations; lia).
    rewrite uwrap_small; Z.to_euclidean_division_equations; lia.
Qed.

Lemma item_entry a i x : item a i = Some x -> exists slots, zlookup (entries a) (i / itemsPerPage) = Some (Page slots).
Proof. unfold item, slot_at. destruct (zlookup _ _) as [[|slots]|]; eauto; done. Qed.

Lemma entry_item a i slots :
  full_pages (entries a) -> zlookup (entries a) (i / itemsPerPage) = Some (Page slots) -> is_Some (item a i).
Proof.
  intros Hf Hl. pose proof (Hf _ _ Hl) as Hlen. unfold item, slot_at. rewrite Hl.
  destruct (zlookup_Some slots (i mod itemsPerPage)) as [x Hx]; [|by rewrite Hx].
  rewrite Hlen. unfold itemsPerPage. by apply Z.mod_pos_bound.
Qed.

(** The pages of the items that are there. *)
Lemma holds_page a vs k :
  holds a vs -> 0 <= k < pages_for (zlen vs) -> exists slots, zlookup (entries a) k = Some (Page slots).
Proof.
  intros Hh Hk. unfold pages_for, itemsPerPage in Hk.
  destruct (zlookup_Some vs (k * 8)) as [v Hv]; [Z.to_euclidean_division_equations; lia|].
  apply (h_items _ _ Hh), item_entry in Hv. unfold itemsPerPage in Hv. by rewrite Z.div_mul in Hv.
Qed.

Lemma holds_pages a vs : holds a vs -> pages_for (zlen vs) <= pageCount_ a.
Proof.
  intros Hh. destruct (Z.le_gt_cases (pages_for (zlen vs)) 0); [pose proof (h_count _ _ Hh); lia|].
  destruct (holds_page a vs (pages_for (zlen vs) - 1) Hh) as [slots Hl]; [lia|].
  apply zlookup_bound in Hl. pose proof (h_index _ _ Hh). lia.
Qed.

Lemma not_null a : 0 < zlen (entries a) -> pages_ a <> None.
Proof. unfold entries. by destruct (pages_ a). Qed.

Lemma new_count_range count i :
  0 <= count < 2 ^ 29 -> 0 <= i < 2 ^ 31 - 1 -> count <= new_count count i < 2 ^ 29 /\ 0 < new_count count i.
Proof.
  intros Hc Hi. unfold new_count, itemsPerPage. destruct (Z.ltb_spec i (count * 8)); Z.to_euclidean_division_equations; lia.
Qed.

(** The first part of [makeIndexValid]. *)
Lemma wp_index p i a vs s E :
  objects s !! p = Some a -> holds a vs -> 0 <= i < 2 ^ 31 - 1 ->
  wp (when (i >=? u32 (pageCount_ a * itemsPerPage)) (
    let minNewPages := u32 (i + 1) / itemsPerPage in
    reallocateArrayPageIndex p minNewPages;;
    a ← get_object p; assert_message (pageCount_ a >=? minNewPages) "ValueInternalArray::reserve(): bad reallocation")) s
  (fun _ s' => exists a1, objects s' = <[p := a1]> (objects s) /\ lost s' = lost s /\ pages_ a1 <> None /\
     size_ a1 = size_ a /\ pageCount_ a1 = new_count (pageCount_ a) i /\
     entries a1 = entries a ++ replicate (Z.to_nat (new_count (pageCount_ a) i - pageCount_ a)) NoPage) E.
Proof.
  intros Ha Hh Hi. pose proof (h_count _ _ Hh) as Hc. pose proof (h_index _ _ Hh) as Hlen. unfold itemsPerPage in *.
  rewrite (uwrap_small 32 (pageCount_ a * 8)) by lia. rewrite (uwrap_small 32 (i + 1)) by lia.
  unfold new_count, itemsPerPage. rewrite Z.geb_leb.
  apply wp_when; intros Hge; destr_bool; destruct (Z.ltb_spec i (pageCount_ a * 8)); try lia.
  - cbn zeta. apply wp_bind. eapply wp_realloc; [done|done|lia|]. cbn zeta.
    apply wp_bind. eapply wp_get_object; [apply lookup_insert_eq|]. apply wp_assert_message; [cbn; apply Z.geb_le; lia|].
    by eexists.
  - exists a. rewrite insert_id by done. rewrite Z.sub_diag, app_nil_r. repeat split; try done. apply not_null. lia.
Qed.

Lemma grown_entry a count k : 
  zlookup (entries a ++ replicate (Z.to_nat (count - zlen (entries a))) (@NoPage V)) k
  = if k <? zlen (entries a) then zlookup (entries a) k else if k <? count then Some NoPage else None.
Proof.
  unfold zlookup, zlen. destruct (Z.ltb_spec k 0).
  { destruct (Z.ltb_spec k (Z.of_nat (length (entries a)))); [done|lia]. }
  destruct (Z.ltb_spec k (Z.of_nat (length (entries a)))).
  - by rewrite lookup_app_l by lia.
  - rewrite lookup_app_r by lia. destruct (Z.ltb_spec k count); [apply lookup_replicate_2; lia|].
    apply lookup_ge_None_2. rewrite length_replicate. lia.
Qed.

(** An array whose pages reach item [i], before the new items are constructed. *)
Record reaches p i a vs s a' s' : Prop := {
  r_objects : objects s' = <[p := a']> (objects s);
  r_size : size_ a' = size_ a;
  r_count : pageCount_ a' = new_count (pageCount_ a) i;
  r_index : zlen (entries a') = pageCount_ a';
  r_full : full_pages (entries a');
  r_old : forall m v, zlookup vs m = Some v -> item a' m = Some (Some v);
  r_new : forall m, zlen vs <= m <= i -> is_Some (item a' m);
  r_lost : lost s' + held (entries a') = lost s + held (entries a) + (i / itemsPerPage + 1 - pages_for (zlen vs))
}.

(** The second part of [makeIndexValid], where the index is long enough. *)
Lemma reaches_stored p i a vs s a1 s1 es s2 :
  objects s !! p = Some a -> holds a vs -> zlen vs <= i < 2 ^ 31 - 1 ->
  objects s1 = <[p := a1]> (objects s) -> lost s1 = lost s -> size_ a1 = size_ a -> pageCount_ a1 = new_count (pageCount_ a) i ->
  entries a1 = entries a ++ replicate (Z.to_nat (new_count (pageCount_ a) i - pageCount_ a)) NoPage ->
  paged p (pages_for (zlen vs)) (i / itemsPerPage + 1 - pages_for (zlen vs)) (allocateArrayPage (V:=V)) a1 s1 es s2 ->
  reaches p i a vs s (with_entries es a1) s2.
Proof.
  intros Ha Hh Hi Hobj Hlost Hsz Hc Hent [Po Pl Pe Plost]. pose proof (h_count _ _ Hh) as Hcnt. pose proof (h_index _ _ Hh) as Hlen.
  pose proof (zlen_nonneg vs). pose proof (new_count_range (pageCount_ a) i Hcnt ltac:(lia)) as Hnc.
  rewrite Hent, <-Hlen in Pe. setoid_rewrite grown_entry in Pe.
  assert (full_pages es) as Hfull.
  { intros k slots. rewrite Pe. repeat case_match; try done; [by intros [= <-]|apply (h_rooms _ _ Hh)]. }
  split; try done.
  - rewrite Po, Hobj. by rewrite insert_insert_eq.
  - change (zlen es = pageCount_ a1). rewrite Pl, Hc, Hent, zlen_app. unfold zlen at 2. rewrite length_replicate. lia.
  - intros m v Hv. pose proof (zlookup_bound _ _ _ Hv) as Hm. pose proof (h_items _ _ Hh _ _ Hv) as Hit.
    destruct (item_entry _ _ _ Hit) as [slots Hs]. pose proof (zlookup_bound _ _ _ Hs).
    unfold item, slot_at in *. rewrite entries_with, Pe. rewrite Hs in Hit.
    destruct (Z.leb_spec (pages_for (zlen vs)) (m / itemsPerPage)).
    { unfold pages_for, itemsPerPage in *. Z.to_euclidean_division_equations; lia. }
    cbn. destruct (Z.ltb_spec (m / itemsPerPage) (zlen (entries a))); [by rewrite Hs|lia].
  - intros m Hm. assert (exists slots, zlookup es (m / itemsPerPage) = Some (Page slots)) as [slots Hs]; [|by eapply entry_item].
    rewrite Pe. destruct (Z.leb_spec (pages_for (zlen vs)) (m / itemsPerPage)); cbn.
    + destruct (Z.ltb_spec (m / itemsPerPage) (pages_for (zlen vs) + (i / itemsPerPage + 1 - pages_for (zlen vs)))).
      * by eexists.
      * unfold itemsPerPage in *. Z.to_euclidean_division_equations; lia.
    + destruct (holds_page a vs (m / itemsPerPage) Hh) as [slots Hs].
      { split; [unfold itemsPerPage; Z.to_euclidean_division_equations; lia|done]. }
      pose proof (zlookup_bound _ _ _ Hs). destruct (Z.ltb_spec (m / itemsPerPage) (zlen (entries a))); [by eexists|lia].
  - rewrite entries_with, Plost, Hlost, Hent, held_app, held_none. cbn. lia.
Qed.

(** Nothing is stored when the item lies in the last page. *)
Lemma reaches_last p i a vs s a1 s1 :
  objects s !! p = Some a -> holds a vs -> zlen vs <= i < 2 ^ 31 - 1 -> i < pages_for (zlen vs) * itemsPerPage ->
  objects s1 = <[p := a1]> (objects s) -> lost s1 = lost s -> size_ a1 = size_ a -> pageCount_ a1 = new_count (pageCount_ a) i ->
  entries a1 = entries a ++ replicate (Z.to_nat (new_count (pageCount_ a) i - pageCount_ a)) NoPage ->
  pages_ a1 <> None -> reaches p i a vs s a1 s1 /\ fits a i = true.
Proof.
  intros Ha Hh Hi Hlast Hobj Hlost Hsz Hc Hent Hp. pose proof (holds_pages a vs Hh).
  pose proof (zlen_nonneg vs). pose proof (new_count_range (pageCount_ a) i (h_count _ _ Hh) ltac:(lia)).
  assert (i / itemsPerPage + 1 = pages_for (zlen vs)) as Hi1.
  { unfold pages_for, itemsPerPage in *. Z.to_euclidean_division_equations; lia. }
  assert (reaches p i a vs s (with_entries (entries a1) a1) s1) as Hr.
  { eapply reaches_stored; try done. rewrite Hi1, Z.sub_diag. apply paged_none; [|done]. by rewrite Hobj, lookup_insert_eq. }
  split; [|unfold fits; apply Z.ltb_lt; lia].
  replace a1 with (with_entries (entries a1) a1); [done|]. by destruct a1 as [[es|] sz c].
Qed.

(** The stores of [makeIndexValid]: done when the index reaches, outside it otherwise. *)
Lemma wp_stores p i a vs s a1 s1 :
  objects s !! p = Some a -> holds a vs -> zlen vs <= i < 2 ^ 31 - 1 ->
  objects s1 = <[p := a1]> (objects s) -> lost s1 = lost s -> size_ a1 = size_ a -> pageCount_ a1 = new_count (pageCount_ a) i ->
  entries a1 = entries a ++ replicate (Z.to_nat (new_count (pageCount_ a) i - pageCount_ a)) NoPage -> pages_ a1 <> None ->
  wp (when (next_page_index a1 <=? i)
       (store_pages p (next_page_index a1 / itemsPerPage) (Z.to_nat ((i - next_page_index a1) / itemsPerPage + 1)))) s1
    (fun _ s' => fits a i = true /\ exists a', reaches p i a vs s a' s')
    (fun j _ => fits a i = false /\ j = Faults OutOfBounds).
Proof.
  intros Ha Hh Hi Hobj Hlost Hsz Hc Hent Hp. pose proof (holds_pages a vs Hh) as Hpg. pose proof (h_index _ _ Hh) as Hlen.
  pose proof (zlen_nonneg vs). pose proof (new_count_range (pageCount_ a) i (h_count _ _ Hh) ltac:(lia)) as Hnc.
  assert (zlen (entries a1) = new_count (pageCount_ a) i) as Hl1.
  { rewrite Hent, zlen_app. unfold zlen at 2. rewrite length_replicate. lia. }
  rewrite next_page_is, Hsz, (h_size _ _ Hh) by (rewrite Hsz, (h_size _ _ Hh); lia).
  rewrite Z.div_mul by done. apply wp_when; intros Hn; destr_bool.
  2:{ destruct (reaches_last p i a vs s a1 s1) as [Hr Hf]; try done. eauto. }
  assert ((i - pages_for (zlen vs) * itemsPerPage) / itemsPerPage + 1 = i / itemsPerPage + 1 - pages_for (zlen vs)) as ->.
  { unfold itemsPerPage in *. Z.to_euclidean_division_equations; lia. }
  assert (pages_for (zlen vs) <= i / itemsPerPage) by (unfold itemsPerPage in *; Z.to_euclidean_division_equations; lia).
  assert (0 <= pages_for (zlen vs)) by (unfold pages_for, itemsPerPage; Z.to_euclidean_division_equations; lia).
  assert (objects s1 !! p = Some a1) as Ha1 by by rewrite Hobj, lookup_insert_eq.
  unfold fits. destruct (Z.ltb_spec (i / itemsPerPage) (new_count (pageCount_ a) i)).
  - eapply wp_mono; [| |eapply wp_store_pages; [exact Ha1|exact Hp|lia|lia]]; [|by intros j s'; exact id]. intros _ s' (es' & Hpg').
    split; [done|]. eexists. eapply reaches_stored; try done. by rewrite Z2Nat.id in Hpg' by lia.
  - eapply wp_mono; [| |eapply store_pages_fails; [exact Ha1|lia|lia]]; [done|]. by intros j s' ->.
Qed.

Lemma zlookup_app_replicate (l : list V) n (x : V) i v :
  zlookup (l ++ replicate n x) i = Some v -> (zlookup l i = Some v) \/ (zlen l <= i < zlen l + Z.of_nat n /\ v = x).
Proof.
  unfold zlookup, zlen. destruct (Z.ltb_spec i 0); [done|].
  intros [Hl|[Hge Hl]]%lookup_app_Some; [by left|right]. apply lookup_replicate in Hl as [-> Hlt]. split; [lia|done].
Qed.

(** [makeIndexValid] on an index behind the end: with a reaching index, as many default
    values as it takes, otherwise a store outside the index. *)
Lemma wp_makeIndexValid p i a vs s :
  objects s !! p = Some a -> holds a vs -> zlen vs <= i < 2 ^ 31 - 1 ->
  wp (makeIndexValid Value_default p i) s
    (fun _ s' => fits a i = true /\ exists a', objects s' = <[p := a']> (objects s) /\
       holds a' (vs ++ replicate (Z.to_nat (i + 1 - zlen vs)) Value_default) /\
       lost s' + held (entries a') = lost s + held (entries a) + (i / itemsPerPage + 1 - pages_for (zlen vs)))
    (fun j _ => fits a i = false /\ j = Faults OutOfBounds).
Proof.
  intros Ha Hh Hi. pose proof (zlen_nonneg vs). pose proof (h_size _ _ Hh) as Hsz0.
  unfold makeIndexValid. apply wp_bind. eapply wp_get_object; [done|].
  apply wp_bind. eapply wp_mono; [| |eapply wp_index; [done|done|lia]]; [|by intros j s'; exact id].
  intros _ s1 (a1 & Hobj & Hlost & Hp & Hsz & Hc & Hent).
  apply wp_bind. eapply wp_get_object; [by rewrite Hobj, lookup_insert_eq|]. cbn zeta.
  apply wp_bind. eapply wp_mono; [| |by eapply wp_stores]; [|done]. intros _ s2 (Hf & a2 & [Ro Rs Rc Ri Rf Rold Rnew Rl]).
  apply wp_bind. eapply wp_get_object; [by rewrite Ro, lookup_insert_eq|].
  apply wp_bind, wp_modify. rewrite Hsz, Hsz0, uwrap_small by lia.
  set (a3 := PagedArray (pages_ a2) (i + 1) (pageCount_ a2)).
  eapply wp_mono; [| |eapply (wp_construct_range p (zlen vs) (i + 1) Value_default a3)]; cbn; [|by intros j s3; exact id|apply lookup_insert_eq|lia|lia|].
  2:{ intros k Hk. apply Rnew. lia. }
  intros _ s4 (a4 & [Fo Fl Fs Fc Fz Fh Ff Fi]). split; [done|]. exists a4.
  split; [by rewrite Fo; cbn; rewrite Ro, !insert_insert_eq|]. split; [|rewrite Fl, Fh; exact Rl].
  pose proof (new_count_range (pageCount_ a) i (h_count _ _ Hh) ltac:(lia)) as Hnc.
  split.
  - rewrite Fs, zlen_app. unfold zlen at 2. rewrite length_replicate. cbn. lia.
  - rewrite zlen_app. unfold zlen at 2. rewrite length_replicate. lia.
  - rewrite Fc. cbn. rewrite Rc. lia.
  - rewrite Fz, Fc. exact Ri.
  - by apply Ff.
  - intros m v. rewrite Fi. intros [Hm|[Hm ->]]%zlookup_app_replicate.
    + pose proof (zlookup_bound _ _ _ Hm). destruct (Z.leb_spec (zlen vs) m); [lia|]. by apply Rold.
    + destruct (Z.leb_spec (zlen vs) m), (Z.ltb_spec m (i + 1)); try lia. done.
Qed.

(** ** What the operations do *)

Lemma wp_item_at p i a x s (Q : _ -> _ -> Prop) E :
  objects s !! p = Some a -> item a i = Some x -> Q (p, i / itemsPerPage, i mod itemsPerPage) s -> wp (item_at p i) s Q E.
Proof.
  intros Ha Hx HQ. unfold item_at. apply wp_bind. eapply wp_get_object; [done|].
  apply wp_bind. eapply wp_fault_as; [exact Hx|]. by apply wp_ret.
Qed.

(** The list after item [i] has been asked for. *)
Definition extended (vs : list V) (i : Z) : list V := vs ++ replicate (Z.to_nat (i + 1 - zlen vs)) Value_default.

Lemma extended_inside vs i : i < zlen vs -> extended vs i = vs.
Proof. intros Hi. unfold extended. replace (Z.to_nat (i + 1 - zlen vs)) with 0%nat by lia. apply app_nil_r. Qed.

Lemma extended_item vs i : 0 <= i -> exists v, zlookup (extended vs i) i = Some v.
Proof. intros Hi. apply zlookup_Some. unfold extended. rewrite zlen_app. unfold zlen. rewrite length_replicate. lia. Qed.

(** [resolveReference] on every index: the value there, which is a default value behind
    the end, when the index of the pages reaches; a store outside that index otherwise. *)
Lemma array_resolves p i a vs s :
  objects s !! p = Some a -> holds a vs -> 0 <= i < 2 ^ 31 - 1 ->
  wp (resolveReference Value_default p i) s
    (fun r s' => r = (p, i / itemsPerPage, i mod itemsPerPage) /\ (i < zlen vs \/ fits a i = true) /\
       exists a', objects s' = <[p := a']> (objects s) /\ holds a' (extended vs i) /\
         lost s' + held (entries a') - pages_for (zlen (extended vs i)) = lost s + held (entries a) - pages_for (zlen vs))
    (fun j _ => zlen vs <= i /\ fits a i = false /\ j = Faults OutOfBounds).
Proof.
  intros Ha Hh Hi. unfold resolveReference. apply wp_bind. eapply wp_get_object; [done|].
  rewrite (h_size _ _ Hh). apply wp_bind, wp_when; intros Hge; rewrite Z.geb_leb in Hge; destr_bool.
  - eapply wp_mono; [| |eapply (wp_makeIndexValid p i a vs s); [done|done|lia]]; [|by intros j s' [? ?]].
    intros _ s' (Hf & a' & Hobj & Hh' & Hl). destruct (extended_item vs i) as [v Hv]; [lia|].
    eapply wp_item_at; [by rewrite Hobj, lookup_insert_eq|by apply (h_items _ _ Hh')|].
    split; [done|]. split; [by right|]. exists a'. repeat split; try done; try apply Hh'.
    unfold extended. rewrite zlen_app. unfold zlen at 2. rewrite length_replicate, Z2Nat.id by lia.
    unfold pages_for, itemsPerPage in *. Z.to_euclidean_division_equations; lia.
  - destruct (zlookup_Some vs i) as [v Hv]; [lia|].
    eapply wp_item_at; [done|by apply (h_items _ _ Hh)|]. split; [done|]. split; [by left|].
    exists a. rewrite insert_id by done. by rewrite extended_inside.
Qed.

(** Items that are appended always fit. *)
Lemma append_fits a vs : holds a vs -> fits a (zlen vs) = true.
Proof.
  intros Hh. pose proof (holds_pages a vs Hh). pose proof (zlen_nonneg vs). pose proof (h_count _ _ Hh).
  unfold fits, new_count. apply Z.ltb_lt. unfold pages_for, itemsPerPage in *.
  destruct (Z.ltb_spec (zlen vs) (pageCount_ a * 8)); Z.to_euclidean_division_equations; lia.
Qed.

Lemma array_finds p i a vs s :
  objects s !! p = Some a -> holds a vs -> 0 <= i ->
  find p i s = inl (match zlookup vs i with Some _ => Some (p, i / itemsPerPage, i mod itemsPerPage) | None => None end, s) /\
  forall v, zlookup vs i = Some v -> load (p, i / itemsPerPage, i mod itemsPerPage) s = inl (v, s).
Proof.
  intros Ha Hh Hi. split.
  - assert (wp (find p i) s (fun r s' => r = match zlookup vs i with Some _ => Some (p, i / itemsPerPage, i mod itemsPerPage) | None => None end /\ s' = s) (fun _ _ => False)) as H.
    { unfold find. apply wp_bind. eapply wp_get_object; [done|]. rewrite (h_size _ _ Hh), Z.geb_leb.
      destruct (Z.leb_spec (zlen vs) i).
      - apply wp_ret. destruct (zlookup vs i) eqn:E; [|done]. apply zlookup_bound in E. lia.
      - destruct (zlookup_Some vs i) as [v Hv]; [lia|]. rewrite Hv. apply wp_bind.
        eapply wp_item_at; [done|by apply (h_items _ _ Hh)|]. by apply wp_ret. }
    by apply wp_run in H as (r & s' & -> & -> & ->).
  - intros v Hv. assert (wp (load (p, i / itemsPerPage, i mod itemsPerPage)) s (fun r s' => r = v /\ s' = s) (fun _ _ => False)) as H.
    { eapply wp_load; [done|by apply (h_items _ _ Hh)|done]. }
    by apply wp_run in H as (r & s' & -> & -> & ->).
Qed.

(** The destructor: nothing is touched that it should not touch, and of the pages that
    the array held those behind the last full one are lost. *)
Lemma wp_delete p a vs s :
  objects s !! p = Some a -> holds a vs ->
  wp (ValueInternalArray_delete p) s
    (fun _ s' => objects s' = delete p (objects s) /\ lost s' = lost s + held (entries a) - zlen vs / itemsPerPage)
    (fun _ _ => False).
Proof.
  intros Ha Hh. pose proof (zlen_nonneg vs). pose proof (h_size _ _ Hh) as Hsz.
  unfold ValueInternalArray_delete, makeEndIterator. apply wp_bind, wp_bind. eapply wp_get_object; [done|]. apply wp_ret.
  rewrite Hsz. change (makeBeginIterator p) with (makeIterator p 0). apply wp_bind.
  eapply wp_mono; [| |eapply (wp_destruct_range p 0 (zlen vs) a s (fun _ _ => False))]; [|done|done|lia|lia|].
  2:{ intros k Hk. destruct (zlookup_Some vs k) as [v Hv]; [lia|]. exists v. by apply (h_items _ _ Hh). }
  intros _ s1 (a1 & [Fo Fl Fs Fc Fz Fh Ff Fi]). assert (objects s1 !! p = Some a1) as Ha1 by by rewrite Fo, lookup_insert_eq.
  apply wp_bind. eapply wp_get_object; [done|]. rewrite Fs, Hsz.
  destruct (decide (zlen vs / itemsPerPage = 0)) as [E|E].
  - rewrite E. cbn [Z.to_nat release_pages]. apply wp_bind, wp_ret, wp_bind. unfold releaseArrayPageIndex.
    apply wp_bind. eapply wp_get_object; [done|]. apply wp_bind, wp_modify, wp_modify, wp_modify. cbn. split; [|lia].
    by rewrite Fo, !delete_insert_eq.
  - assert (0 < zlen vs / itemsPerPage) by (unfold itemsPerPage in *; Z.to_euclidean_division_equations; lia).
    assert (forall k, 0 <= k < zlen vs / itemsPerPage -> exists slots, zlookup (entries a1) k = Some (Page slots)) as Hpg.
    { intros k Hk. destruct (item_entry a1 (k * itemsPerPage) None) as [sl Hsl]; [|exists sl; by rewrite Z.div_mul in Hsl].
      rewrite Fi. destruct (Z.leb_spec 0 (k * itemsPerPage)), (Z.ltb_spec (k * itemsPerPage) (zlen vs)); try reflexivity;
        unfold itemsPerPage in *; Z.to_euclidean_division_equations; lia. }
    apply wp_bind. eapply wp_mono; [| |eapply (wp_release_pages p _ 0 a1 s1 (fun _ _ => False))]; [|done|done| |lia|].
    2:{ apply not_null. destruct (Hpg 0 ltac:(lia)) as [sl Hsl%zlookup_bound]. lia. }
    2:{ intros k Hk. apply Hpg. lia. }
    intros _ s2 (es & [Po _ _ Pl]). apply wp_bind. unfold releaseArrayPageIndex. apply wp_bind.
    eapply wp_get_object; [by rewrite Po, lookup_insert_eq|]. apply wp_bind, wp_modify, wp_modify, wp_modify. cbn.
    split; [by rewrite Po, Fo, !delete_insert_eq|]. cbn in Pl. lia.
Qed.

Definition empty_array : ValueInternalArray V := PagedArray None 0 0.

Lemma empty_holds : holds empty_array [].
Proof.
  split; try done; [intros k sl Hl%zlookup_bound|intros i v Hl%zlookup_bound]; unfold zlen in Hl; cbn in Hl; lia.
Qed.

Lemma wp_array_clear p a vs s :
  objects s !! p = Some a -> holds a vs ->
  wp (clear p) s
    (fun _ s' => objects s' = <[p := empty_array]> (objects s) /\ lost s' = lost s + held (entries a) - zlen vs / itemsPerPage)
    (fun _ _ => False).
Proof.
  intros Ha Hh. unfold clear, ValueInternalArray_new, fresh_object. set (d := fresh (dom (objects s))).
  assert (objects s !! d = None) as Hd by by apply not_elem_of_dom, is_fresh.
  assert (p <> d) as Hpd by congruence.
  apply wp_bind, wp_bind, wp_gets, wp_bind, wp_modify, wp_ret. fold d. apply wp_bind. unfold swap.
  apply wp_bind. eapply (wp_get_object p a); [cbn [objects]; by rewrite lookup_insert_ne|].
  apply wp_bind. eapply wp_get_object; [cbn [objects]; apply lookup_insert_eq|].
  apply wp_bind, wp_modify, wp_modify. cbn.
  eapply wp_mono; [| |eapply (wp_delete d a vs); [apply lookup_insert_eq|done]]; [|done].
  intros _ s' [Ho Hl]. split; [|exact Hl]. rewrite Ho. cbn. rewrite delete_insert_eq, delete_insert_ne by done.
  by rewrite delete_insert_id.
Qed.

(** Where [resize] makes the array smaller. *)
Lemma wp_shrink p a vs n s :
  objects s !! p = Some a -> holds a vs -> 0 < n < zlen vs ->
  wp (resize Value_default p n) s
    (fun _ s' => exists a', objects s' = <[p := a']> (objects s) /\ holds a' (take (Z.to_nat n) vs) /\
       lost s' + held (entries a') = lost s + held (entries a) - Z.max 0 (zlen vs / itemsPerPage - pages_for n))
    (fun _ _ => False).
Proof.
  intros Ha Hh Hn. pose proof (h_size _ _ Hh) as Hsz. pose proof (h_small _ _ Hh).
  unfold resize. apply wp_bind. eapply wp_get_object; [done|]. rewrite Hsz.
  destruct (Z.eqb_spec n 0); [lia|]. destruct (Z.ltb_spec n (zlen vs)); [|lia]. cbn zeta.
  apply wp_bind. eapply wp_mono; [| |eapply (wp_destruct_range p n (zlen vs) a s (fun _ _ => False))]; [|done|done|lia|lia|].
  2:{ intros k Hk. destruct (zlookup_Some vs k) as [v Hv]; [lia|]. exists v. by apply (h_items _ _ Hh). }
  intros _ s1 (a1 & [Fo Fl Fs Fc Fz Fh Ff Fi]). assert (objects s1 !! p = Some a1) as Ha1 by by rewrite Fo, lookup_insert_eq.
  assert (forall i v, i < n -> zlookup vs i = Some v -> item a1 i = Some (Some v)) as Hkeep.
  { intros i v Hi Hv. rewrite Fi. destruct (Z.leb_spec n i); [lia|]. by apply (h_items _ _ Hh). }
  assert (forall k, 0 <= k < pages_for (zlen vs) -> exists slots, zlookup (entries a1) k = Some (Page slots)) as Hpg.
  { intros k Hk. destruct (zlookup_Some vs (k * itemsPerPage)) as [v Hv]; [unfold pages_for, itemsPerPage in *; Z.to_euclidean_division_equations; lia|].
    assert (exists x, item a1 (k * itemsPerPage) = Some x) as [x [sl Hsl]%item_entry].
    { rewrite Fi. destruct (_ && _); [by eexists|]. rewrite (h_items _ _ Hh _ _ Hv). by eexists. }
    exists sl. by rewrite Z.div_mul in Hsl. }
  replace (u32 (n + itemsPerPage - 1) / itemsPerPage) with (pages_for n) by (unfold pages_for; rewrite uwrap_small by (unfold itemsPerPage; lia); f_equal; unfold itemsPerPage; lia).
  assert (0 < pages_for n <= pages_for (zlen vs)) by (unfold pages_for, itemsPerPage; Z.to_euclidean_division_equations; lia).
  assert (zlen vs / itemsPerPage <= pages_for (zlen vs)) by (unfold pages_for, itemsPerPage; Z.to_euclidean_division_equations; lia).
  apply wp_bind. eapply wp_mono; [| |eapply (wp_release_pages p _ (pages_for n) a1 s1 (fun _ _ => False))]; [|done|done| |lia|].
  2:{ apply not_null. destruct (Hpg 0 ltac:(lia)) as [sl Hsl%zlookup_bound]. lia. }
  2:{ intros k Hk. apply Hpg. lia. }
  intros _ s2 (es & [Po Plen Pe Pl]). apply wp_bind. eapply wp_get_object; [by rewrite Po, lookup_insert_eq|].
  apply wp_modify. exists (PagedArray (Some es) n (pageCount_ a1)). split; [by rewrite Po, Fo; cbn; rewrite !insert_insert_eq|].
  assert (entries (PagedArray (Some es) n (pageCount_ a1)) = es) as Hes by done.
  split; [|rewrite Hes; cbn in Pl |- *; lia].
  split.
  - unfold zlen in *. rewrite length_take. cbn. lia.
  - unfold zlen in *. rewrite length_take. lia.
  - cbn. rewrite Fc. apply (h_count _ _ Hh).
  - rewrite Hes, Plen, Fz. cbn. rewrite Fc. apply (h_index _ _ Hh).
  - rewrite Hes. intros k sl. rewrite Pe. destruct (_ && _); [done|]. by apply Ff, (h_rooms _ _ Hh).
  - intros i v Hv. assert (i < n /\ zlookup vs i = Some v) as [Hi Hv'].
    { pose proof (zlookup_bound _ _ _ Hv) as Hb. unfold zlen in Hb. rewrite length_take in Hb. split; [lia|].
      unfold zlookup in *. destruct (i <? 0); [done|]. by apply lookup_take_Some in Hv as [? _]. }
    specialize (Hkeep _ _ Hi Hv'). pose proof (zlookup_bound _ _ _ Hv'). unfold item, slot_at in *.
    rewrite Hes, Pe.
    destruct (Z.leb_spec (pages_for n) (i / itemsPerPage)); [|done].
    unfold pages_for, itemsPerPage in *. Z.to_euclidean_division_equations; lia.
Qed.

(** The list after [resize]: one value more than was asked for where it grows. *)
Definition resized (vs : list V) (n : Z) : list V :=
  if n =? 0 then [] else if n <=? zlen vs then take (Z.to_nat n) vs else extended vs n.

Lemma array_resizes p n a vs s :
  objects s !! p = Some a -> holds a vs -> 0 <= n < 2 ^ 31 - 1 ->
  wp (resize Value_default p n) s
    (fun _ s' => (n <= zlen vs \/ fits a n = true) /\ exists a', objects s' = <[p := a']> (objects s) /\ holds a' (resized vs n))
    (fun j _ => zlen vs < n /\ fits a n = false /\ j = Faults OutOfBounds).
Proof.
  intros Ha Hh Hn. pose proof (zlen_nonneg vs). unfold resized.
  destruct (Z.eqb_spec n 0) as [->|].
  { unfold resize. apply wp_bind. eapply wp_get_object; [done|]. cbn [Z.eqb].
    eapply wp_mono; [| |by eapply wp_array_clear]; [|done]. intros _ s' [Ho _]. split; [by left|]. eexists. split; [done|apply empty_holds]. }
  destruct (Z.lt_total n (zlen vs)) as [Hlt|[->|Hgt]].
  - destruct (Z.leb_spec n (zlen vs)); [|lia].
    eapply wp_mono; [| |eapply (wp_shrink p a vs); [done|done|lia]]; [|done]. intros _ s' (a' & Ho & Hh' & _). eauto with lia.
  - rewrite Z.leb_refl. unfold resize. apply wp_bind. eapply wp_get_object; [done|]. rewrite (h_size _ _ Hh), Z.ltb_irrefl, Z.gtb_ltb, Z.ltb_irrefl.
    destruct (Z.eqb_spec (zlen vs) 0); [lia|]. apply wp_ret. split; [by left|]. exists a. rewrite insert_id by done.
    split; [done|]. by rewrite take_ge by (unfold zlen; lia).
  - destruct (Z.leb_spec n (zlen vs)); [lia|]. unfold resize. apply wp_bind. eapply wp_get_object; [done|]. rewrite (h_size _ _ Hh).
    destruct (Z.eqb_spec n 0); [lia|]. destruct (Z.ltb_spec n (zlen vs)); [lia|]. rewrite (proj2 (Z.gtb_lt _ _)) by lia.
    apply wp_bind. eapply wp_mono; [| |eapply (array_resolves p n a vs); [done|done|lia]].
    + intros r s' (_ & [?|Hf] & a' & Ho & Hh' & _); [lia|]. apply wp_ret. eauto.
    + intros j s' (_ & Hf & ->). auto.
Qed.

(** ** Copies *)

(** A page in whose first slot alone there is a value. *)
Definition first_only (v : V) : page_entry V := Page (Some v :: replicate 7 None).

(** What copying [k] items leaves: each page has, in its first slot, the last item that
    was copied for it. *)
Definition copied (vs : list V) (k : Z) (es : list (page_entry V)) : Prop :=
  forall b, 0 <= b < pages_for k -> exists v, zlookup vs (Z.min (b * itemsPerPage + 7) (k - 1)) = Some v /\ zlookup es b = Some (first_only v).

Lemma zlookup_insert (es : list (page_entry V)) k k' e :
  0 <= k < zlen es -> zlookup (<[Z.to_nat k := e]> es) k' = if k' =? k then Some e else zlookup es k'.
Proof.
  unfold zlookup, zlen. intros Hk. destruct (Z.ltb_spec k' 0), (Z.eqb_spec k' k) as [->|]; try lia; try done.
  - apply list_lookup_insert_eq. lia.
  - by rewrite list_lookup_insert_ne by lia.
Qed.

Record copying p c vs s0 k es s : Prop := {
  cp_objects : objects s = <[p := PagedArray (Some es) (zlen vs) c]> (objects s0);
  cp_lost : lost s = lost s0;
  cp_zlen : zlen es = c;
  cp_copied : copied vs k es;
  cp_rest : forall b, pages_for k <= b < c -> zlookup es b = Some NoPage
}.

(** The store of a page at the start of each page. *)
Lemma copy_page p c vs s0 k es s :
  copying p c vs s0 k es s -> 0 <= k < zlen vs -> k mod itemsPerPage = 0 ->
  wp (store_page p (k / itemsPerPage)) s
    (fun _ s' => k / itemsPerPage < c /\ exists es', objects s' = <[p := PagedArray (Some es') (zlen vs) c]> (objects s0) /\
       lost s' = lost s0 /\ zlen es' = c /\ copied vs k es' /\ zlookup es' (k / itemsPerPage) = Some (allocateArrayPage (V:=V)) /\
       forall b, pages_for (k + 1) <= b < c -> zlookup es' b = Some NoPage)
    (fun j _ => c <= k / itemsPerPage /\ j = Faults OutOfBounds).
Proof.
  intros [Co Cl Cz Cc Cr] Hk Hmod.
  assert (pages_for k = k / itemsPerPage /\ 0 <= k / itemsPerPage) as [Hpk Hpos].
  { unfold pages_for, itemsPerPage in *. Z.to_euclidean_division_equations; lia. }
  unfold store_page. apply wp_bind. eapply (wp_get_object p (PagedArray (Some es) (zlen vs) c)); [by rewrite Co, lookup_insert_eq|].
  apply wp_bind. destruct (Z.lt_ge_cases (k / itemsPerPage) c) as [Hlt|Hge].
  - eapply wp_fault_as; [apply Cr; lia|]. cbn [is_page]. apply wp_bind, wp_modify, wp_modify. cbn [objects lost].
    split; [done|]. exists (<[Z.to_nat (k / itemsPerPage) := allocateArrayPage]> es).
    split; [by rewrite Co; cbn; rewrite insert_insert_eq|]. split; [lia|]. split; [by rewrite zlen_insert|].
    split; [|split].
    + intros b Hb. destruct (Cc b Hb) as (v & Hv & He). exists v. split; [done|]. rewrite zlookup_insert by lia.
      destruct (Z.eqb_spec b (k / itemsPerPage)); [lia|done].
    + rewrite zlookup_insert by lia. by rewrite Z.eqb_refl.
    + intros b Hb. rewrite zlookup_insert by lia. assert (k / itemsPerPage + 1 <= b).
      { unfold pages_for, itemsPerPage in *. Z.to_euclidean_division_equations; lia. }
      destruct (Z.eqb_spec b (k / itemsPerPage)); [lia|]. apply Cr. lia.
  - unfold fault_as. change (entries _) with es. destruct (zlookup es (k / itemsPerPage)) eqn:E; [apply zlookup_bound in E; lia|]. by apply wp_exit.
Qed.

(** A value constructed where [value] points: the start of the page. *)
Lemma copy_value p c vs s0 k es s x v :
  objects s = <[p := PagedArray (Some es) (zlen vs) c]> (objects s0) -> lost s = lost s0 -> zlen es = c ->
  copied vs k es -> 0 <= k -> zlookup vs k = Some v ->
  zlookup es (k / itemsPerPage) = Some (Page (x :: replicate 7 None)) ->
  (forall b, pages_for (k + 1) <= b < c -> zlookup es b = Some NoPage) ->
  wp (construct (p, k / itemsPerPage, 0) v) s (fun _ s' => exists es', copying p c vs s0 (k + 1) es' s') (fun _ _ => False).
Proof.
  intros Ho Hl Hz Hc Hk Hv Hpage Hr. pose proof (zlookup_bound _ _ _ Hpage) as Hb.
  unfold construct, put_slot. apply wp_bind. eapply (wp_get_object p (PagedArray (Some es) (zlen vs) c)); [by rewrite Ho, lookup_insert_eq|].
  apply wp_bind. eapply (wp_fault_as _ x).
  { unfold slot_at. change (entries _) with es. by rewrite Hpage. }
  apply wp_modify. exists (<[Z.to_nat (k / itemsPerPage) := first_only v]> es). split; [| |by rewrite zlen_insert| |]; try done.
  - cbn. rewrite Ho. unfold with_entries, write_slot. change (entries _) with es. rewrite Hpage. by rewrite insert_insert_eq.
  - intros b Hb'. rewrite zlookup_insert by lia. unfold pages_for, itemsPerPage in *.
    destruct (Z.eqb_spec b (k / 8)) as [->|Hne].
    + exists v. split; [|done]. replace (Z.min _ _) with k; [done|]. Z.to_euclidean_division_equations; lia.
    + assert (b < k / 8) by (Z.to_euclidean_division_equations; lia).
      destruct (Hc b) as (w & Hw & He); [unfold pages_for, itemsPerPage; Z.to_euclidean_division_equations; lia|].
      exists w. split; [|done]. rewrite <-Hw. f_equal. unfold itemsPerPage. Z.to_euclidean_division_equations; lia.
  - intros b Hb'. rewrite zlookup_insert by lia. destruct (Z.eqb_spec b (k / itemsPerPage)); [|by apply Hr].
    unfold pages_for, itemsPerPage in *. Z.to_euclidean_division_equations; lia.
Qed.

Lemma wp_copy_items p q c vs o s0 m k es s value :
  p <> q -> objects s0 !! q = Some o -> holds o vs -> 0 <= k -> k + Z.of_nat m = zlen vs -> copying p c vs s0 k es s ->
  (k mod itemsPerPage <> 0 -> value = Some (p, k / itemsPerPage, 0)) ->
  wp (copy_items m p k value (makeIterator q k)) s
    (fun _ s' => pages_for (zlen vs) <= c /\ exists es', copying p c vs s0 (zlen vs) es' s')
    (fun j _ => c < pages_for (zlen vs) /\ j = Faults OutOfBounds).
Proof.
  intros Hpq Hq Hh. revert k es s value. induction m as [|m IH]; intros k es s value Hk Hm Hc Hval; cbn [copy_items].
  { apply wp_ret. replace k with (zlen vs) in * by lia. split; [|by exists es].
    destruct (Z.le_gt_cases (pages_for (zlen vs)) 0) as [Hle|Hgt]; [pose proof (zlen_nonneg es); pose proof (cp_zlen _ _ _ _ _ _ _ Hc); lia|].
    destruct (cp_copied _ _ _ _ _ _ _ Hc (pages_for (zlen vs) - 1)) as (w & _ & He%zlookup_bound); [lia|].
    pose proof (cp_zlen _ _ _ _ _ _ _ Hc). lia. }
  destruct (zlookup_Some vs k) as [v Hv]; [lia|].
  assert (forall s' es' x, objects s' = <[p := PagedArray (Some es') (zlen vs) c]> (objects s0) -> lost s' = lost s0 -> zlen es' = c ->
    copied vs k es' -> zlookup es' (k / itemsPerPage) = Some (Page (x :: replicate 7 None)) ->
    (forall b, pages_for (k + 1) <= b < c -> zlookup es' b = Some NoPage) ->
    wp (r ← dereference (makeIterator q k); v ← load r; to ← fault_as (Some (p, k / itemsPerPage, 0)); construct to v;;
        itOther ← increment (makeIterator q k); copy_items m p (k + 1) (Some (p, k / itemsPerPage, 0)) itOther) s'
      (fun _ s' => pages_for (zlen vs) <= c /\ exists es', copying p c vs s0 (zlen vs) es' s')
      (fun j _ => c < pages_for (zlen vs) /\ j = Faults OutOfBounds)) as Hstep.
  { intros s' es' x Ho Hl Hz Hcp Hpage Hr. assert (objects s' !! q = Some o) as Hqs by (rewrite Ho; by rewrite lookup_insert_ne).
    pose proof (h_items _ _ Hh _ _ Hv) as Hit. pose proof (h_size _ _ Hh).
    apply wp_bind. eapply wp_dereference; [done|lia|exact Hit|]. apply wp_bind. eapply wp_load; [done|exact Hit|].
    apply wp_bind, wp_ret, wp_bind. eapply wp_mono; [| |by eapply copy_value]; [|done]. intros _ s2 (es2 & Hc2). simpl.
    assert (objects s2 !! q = Some o) as Hq2 by (rewrite (cp_objects _ _ _ _ _ _ _ Hc2); by rewrite lookup_insert_ne).
    apply wp_bind. eapply wp_increment; [done|lia|]. eapply IH; [lia|lia|exact Hc2|].
    intros Hne. do 3 f_equal. unfold itemsPerPage in *. Z.to_euclidean_division_equations; lia. }
  destruct (Z.eqb_spec (k mod itemsPerPage) 0) as [Hz|Hz].
  - apply wp_bind, wp_bind. eapply wp_mono; [| |eapply copy_page; [done|lia|done]].
    + intros _ s' (Hlt & es' & Ho & Hl & Hlen & Hcp & Hpage & Hr). apply wp_ret. by eapply Hstep.
    + intros j s' [Hge ->]. split; [|done]. unfold pages_for, itemsPerPage in *. Z.to_euclidean_division_equations; lia.
  - apply wp_bind, wp_ret. rewrite (Hval Hz). destruct Hc as [Co Cl Cz Cc Cr].
    destruct (Cc (k / itemsPerPage)) as (w & _ & Hw); [unfold pages_for, itemsPerPage in *; Z.to_euclidean_division_equations; lia|].
    eapply (Hstep s es (Some w)); try done. intros b Hb. apply Cr. unfold pages_for, itemsPerPage in *. Z.to_euclidean_division_equations; lia.
Qed.

(** The copy constructor: it copies into the first slot of each page over and over, and
    where the last page is not full and not the only one it stores outside the index. *)
Lemma array_copies q o vs s :
  objects s !! q = Some o -> holds o vs ->
  wp (newArrayCopy q) s
    (fun p s' => (zlen vs < 8 \/ zlen vs mod 8 = 0) /\ objects s !! p = None /\
       exists es, objects s' = <[p := PagedArray (Some es) (zlen vs) (Z.max 1 (zlen vs / 8))]> (objects s) /\
         lost s' = lost s /\ copied vs (zlen vs) es)
    (fun j _ => 8 < zlen vs /\ zlen vs mod 8 <> 0 /\ j = Faults OutOfBounds).
Proof.
  intros Hq Hh. pose proof (zlen_nonneg vs). unfold newArrayCopy, fresh_object. rewrite ?(h_size _ _ Hh).
  apply wp_bind. eapply wp_get_object; [done|]. rewrite (h_size _ _ Hh). apply wp_bind, wp_gets.
  set (p := fresh (dom (objects s))). assert (objects s !! p = None) as Hp by by apply not_elem_of_dom, is_fresh.
  assert (p <> q) as Hpq by congruence. apply wp_bind, wp_modify. cbn zeta. set (c := Z.max 1 (zlen vs / 8)).
  apply wp_bind. eapply wp_realloc; [apply lookup_insert_eq|done|cbn; lia|]. cbn zeta. cbn [pageCount_ size_ objects lost].
  change (Z.max (0 * 3 / 2 + 1) (zlen vs / itemsPerPage)) with c. rewrite insert_insert_eq, Z.sub_0_r.
  change (entries (PagedArray None (zlen vs) 0)) with (@nil (page_entry V)). rewrite app_nil_l.
  apply wp_bind. eapply wp_get_object; [apply lookup_insert_eq|]. cbn [pageCount_].
  apply wp_bind, wp_assert_message; [apply Z.geb_le; unfold c, itemsPerPage; lia|].
  assert (pages_for (zlen vs) <= c <-> zlen vs <= 8 \/ zlen vs mod 8 = 0) as Hc.
  { unfold c, pages_for, itemsPerPage. Z.to_euclidean_division_equations; lia. }
  apply wp_bind. change (makeBeginIterator q) with (makeIterator q 0).
  eapply wp_mono; [| |eapply (wp_copy_items p q c vs o s _ 0); [done|done|done|lia|unfold zlen; lia| |done]].
  - intros _ s' (Hle & es & Hcp). apply wp_ret. split; [|split; [done|]].
    + destruct (Z.eq_dec (zlen vs) 8) as [->|]; [by right|]. destruct Hc as [Hc _]. specialize (Hc Hle). lia.
    + exists es. split; [apply Hcp|]. split; apply Hcp.
  - intros j s' [Hlt ->]. repeat split; lia.
  - split; [done|done| | |].
    + unfold zlen. rewrite length_replicate. lia.
    + intros b Hb. unfold pages_for, itemsPerPage in Hb. change ((0 + 7) / 8) with 0 in Hb. lia.
    + intros b Hb. change (pages_for 0) with 0 in Hb. unfold zlookup. destruct (Z.ltb_spec b 0); [lia|]. apply lookup_replicate_2. lia.
Qed.

(** A copy is an array of the same values only up to one value. *)
Lemma copy_holds vs es c : copied vs (zlen vs) es -> holds (PagedArray (Some es) (zlen vs) c) vs -> zlen vs <= 1.
Proof.
  intros Hc Hh. destruct (Z.le_gt_cases (zlen vs) 1); [done|]. exfalso.
  destruct (zlookup_Some vs 1) as [v Hv]; [lia|]. pose proof (h_items _ _ Hh _ _ Hv) as Hit.
  destruct (Hc 0) as (w & _ & Hw); [unfold pages_for, itemsPerPage; Z.to_euclidean_division_equations; lia|].
  unfold item, slot_at in Hit. change (entries _) with es in Hit. change (1 / itemsPerPage) with 0 in Hit. rewrite Hw in Hit. discriminate Hit.
Qed.

(** ** Comparison, iterators *)

Fixpoint first_difference (vs ws : list V) : Z :=
  match vs, ws with
  | v :: vs, w :: ws => let diff := Value_compare v w in if negb (diff =? 0) then diff else first_difference vs ws
  | _, _ => 0
  end.

Lemma wp_compare_items p q a b vs ws s m k :
  objects s !! p = Some a -> holds a vs -> objects s !! q = Some b -> holds b ws -> zlen vs = zlen ws ->
  0 <= k -> k + Z.of_nat m = zlen vs ->
  wp (compare_items Value_compare m p q k) s
    (fun d s' => d = first_difference (drop (Z.to_nat k) vs) (drop (Z.to_nat k) ws) /\ s' = s) (fun _ _ => False).
Proof.
  intros Ha Hv Hb Hw Hlen. revert k. induction m as [|m IH]; intros k Hk Hm; cbn [compare_items].
  { apply wp_ret. by rewrite !drop_ge by (unfold zlen in *; lia). }
  destruct (zlookup_Some vs k) as [v Hvk]; [lia|]. destruct (zlookup_Some ws k) as [w Hwk]; [lia|].
  rewrite (drop_zlookup_cons _ _ _ Hvk), (drop_zlookup_cons _ _ _ Hwk). cbn [first_difference].
  pose proof (h_items _ _ Hv _ _ Hvk) as Hi. pose proof (h_items _ _ Hw _ _ Hwk) as Hj.
  apply wp_bind. eapply wp_item_at; [done|exact Hi|]. apply wp_bind. eapply wp_load; [done|exact Hi|].
  apply wp_bind. eapply wp_item_at; [done|exact Hj|]. apply wp_bind. eapply wp_load; [done|exact Hj|]. cbn zeta.
  destruct (negb (Value_compare v w =? 0)); [by apply wp_ret|]. apply IH; lia.
Qed.

Lemma array_compares p q a b vs ws s :
  objects s !! p = Some a -> holds a vs -> objects s !! q = Some b -> holds b ws ->
  compare Value_compare p q s = inl (if zlen vs =? zlen ws then first_difference vs ws else zlen vs - zlen ws, s).
Proof.
  intros Ha Hv Hb Hw. pose proof (h_small _ _ Hv). pose proof (h_small _ _ Hw). pose proof (zlen_nonneg vs). pose proof (zlen_nonneg ws).
  assert (wp (compare Value_compare p q) s
    (fun d s' => d = (if zlen vs =? zlen ws then first_difference vs ws else zlen vs - zlen ws) /\ s' = s) (fun _ _ => False)) as H3.
  { unfold compare. apply wp_bind. eapply wp_get_object; [done|]. apply wp_bind. eapply wp_get_object; [done|].
    rewrite (h_size _ _ Hv), (h_size _ _ Hw), s32_small by lia. cbn zeta.
    destruct (Z.eqb_spec (zlen vs - zlen ws) 0), (Z.eqb_spec (zlen vs) (zlen ws)); try lia; cbn [negb]; [|by apply wp_ret].
    apply (wp_compare_items p q a b vs ws s _ 0); try done; unfold zlen in *; lia. }
  by apply wp_run in H3 as (d & s' & -> & -> & ->).
Qed.

Lemma distance_is p i j : 0 <= i < 2 ^ 31 -> 0 <= j < 2 ^ 31 -> distance (makeIterator p i) (makeIterator p j) = j - i.
Proof.
  intros Hi Hj. unfold distance, indexOf. cbn [array_ makeIterator]. rewrite !position_make, !uwrap_small by lia.
  apply s32_small. lia.
Qed.

(** [decrement] throws on every iterator it is meant for; the first one it moves in
    front of the array. *)
Lemma decrement_inverted p i a s :
  objects s !! p = Some a -> 0 <= i ->
  decrement (makeIterator p i) s =
    if i =? 0 then inl (Iterator (Some p) (-1) 7, s)
    else inr (Throws (bytes "ValueInternalArray::decrement(): moving iterator beyond end"), s).
Proof.
  intros Ha Hi. assert ((i / itemsPerPage =? 0) && (i mod itemsPerPage =? 0) = (i =? 0)) as Hb.
  { apply eq_bool_prop_intro. rewrite andb_True. unfold itemsPerPage.
    destruct (Z.eqb_spec (i / 8) 0), (Z.eqb_spec (i mod 8) 0), (Z.eqb_spec i 0); simpl; try tauto; exfalso; Z.to_euclidean_division_equations; lia. }
  assert (get_object p s = inl (a, s)) as Hg by (unfold get_object, mbind, ctl_bind, gets; by rewrite Ha).
  unfold decrement. eapply run_bind; [exact Hg|]. cbn [makeIterator currentPageIndex_ currentItemIndex_ array_]. rewrite Hb.
  destruct (Z.eqb_spec i 0) as [->|]; done.
Qed.

(** ** A whole life: values are appended, the array is deleted *)

Fixpoint append_many (p : Z) (n : nat) : Ctl json_stop (array_memory V) unit :=
  match n with
  | O => mret tt
  | S n => append_many p n;; k ← size p; resolveReference Value_default p k ≫= fun _ => mret tt
  end.

Lemma wp_append_many p n s :
  objects s !! p = Some empty_array -> Z.of_nat n < 2 ^ 31 - 1 ->
  wp (append_many p n) s
    (fun _ s' => exists a, objects s' = <[p := a]> (objects s) /\ holds a (replicate n Value_default) /\
       lost s' + held (entries a) = lost s + pages_for (Z.of_nat n)) (fun _ _ => False).
Proof.
  intros Hp. induction n as [|n IH]; intros Hn; cbn [append_many].
  { apply wp_ret. exists empty_array. rewrite insert_id by done. split; [done|]. split; [apply empty_holds|]. done. }
  apply wp_bind. eapply wp_mono; [| |apply IH; lia]; [|done]. intros _ s1 (a & Ho & Hh & Hl). cbn beta.
  assert (objects s1 !! p = Some a) as Ha by by rewrite Ho, lookup_insert_eq.
  assert (zlen (replicate n Value_default) = Z.of_nat n) as Hz by (unfold zlen; by rewrite length_replicate).
  apply wp_bind. unfold size. apply wp_bind. eapply wp_get_object; [done|]. apply wp_ret. rewrite (h_size _ _ Hh), Hz.
  apply wp_bind. eapply wp_mono; [| |eapply (array_resolves p (Z.of_nat n) a); [done|done|lia]].
  - intros r s2 (_ & _ & a2 & Ho2 & Hh2 & Hl2). apply wp_ret. exists a2. rewrite Ho2, Ho, insert_insert_eq. split; [done|].
    assert (extended (replicate n Value_default) (Z.of_nat n) = replicate (S n) Value_default) as He.
    { unfold extended. rewrite Hz. replace (Z.to_nat (Z.of_nat n + 1 - Z.of_nat n)) with 1%nat by lia. exact (eq_sym (replicate_S_end n Value_default)). }
    rewrite He in *. split; [done|]. rewrite Hz in Hl2. unfold zlen in Hl2. rewrite length_replicate in Hl2. lia.
  - intros j s' (_ & Hf & _). pose proof (append_fits _ _ Hh) as Hf'. rewrite Hz in Hf'. congruence.
Qed.

(** An array that is filled one value at a time and then deleted never fails, and loses
    its last page exactly when that is not full. *)
Lemma array_life p n s :
  objects s !! p = Some empty_array -> Z.of_nat n < 2 ^ 31 - 1 ->
  exists s', (append_many p n;; ValueInternalArray_delete p) s = inl (tt, s') /\
    objects s' = delete p (objects s) /\
    lost s' = lost s + (if Z.of_nat n mod itemsPerPage =? 0 then 0 else 1).
Proof.
  intros Hp Hn. assert (wp (append_many p n;; ValueInternalArray_delete p) s (fun _ s' => objects s' = delete p (objects s) /\
    lost s' = lost s + (if Z.of_nat n mod itemsPerPage =? 0 then 0 else 1)) (fun _ _ => False)) as H.
  { apply wp_bind. eapply wp_mono; [| |apply wp_append_many; done]; [|done]. intros _ s1 (a & Ho & Hh & Hl).
    eapply wp_mono; [| |eapply (wp_delete p a); [by rewrite Ho, lookup_insert_eq|done]]; [|done].
    intros _ s2 [Ho2 Hl2]. split; [by rewrite Ho2, Ho, delete_insert_eq|]. rewrite Hl2, Hl. unfold zlen. rewrite length_replicate.
    unfold pages_for, itemsPerPage. destruct (Z.eqb_spec (Z.of_nat n mod 8) 0); Z.to_euclidean_division_equations; lia. }
  apply wp_run in H as ([] & s' & Hrun & ? & ?). by exists s'.
Qed.
End ArrayLemmas.

(** ** Runs *)

Section ArrayRuns.

Let start : array_memory Z := Memory {[ 1 := empty_array ]} 0.
Let contents (p : Z) (s : array_memory Z) : option (list (option (option Z))) :=
  a ← objects s !! p; Some (item a <$> seqZ 0 (size_ a)).

(** The value of an array after a run: its items, where a run ends normally. *)
Let after {A} (m : Ctl json_stop (array_memory Z) A) (p : Z) : option (list (option (option Z))) + json_stop :=
  match m start with inl (_, s) => inl (contents p s) | inr (j, _) => inr j end.

Let put (i v : Z) : Ctl json_stop (array_memory Z) unit := r ← resolveReference 0 1 i; construct r v.
Let put_all (vs : list Z) : Ctl json_stop (array_memory Z) unit :=
  foldr (fun iv m => m;; put iv.1 iv.2) (mret tt) (reverse (zip (seqZ 0 (zlen vs)) vs)).

(** Items in any order inside the first page; a first item behind it is stored outside
    the index. *)
Example items_in_a_page : after (put 2 7;; put 0 5) 1 = inl (Some [Some (Some 5); Some (Some 0); Some (Some 7)]).
Proof. vm_compute. reflexivity. Qed.

Example first_item_behind : after (put 8 7) 1 = inr (Faults OutOfBounds).
Proof. vm_compute. reflexivity. Qed.

(** [resize(2)] leaves three items. *)
Example resize_one_more : after (resize 0 1 2) 1 = inl (Some [Some (Some 0); Some (Some 0); Some (Some 0)]).
Proof. vm_compute. reflexivity. Qed.

(** A copy of three items has the last of them in its first slot, and raw memory in the
    others; to copy nine stores outside the index. *)
Example copy_of_three : after (put_all [5; 6; 7];; newArrayCopy 1) (fresh (dom (objects start)))
  = inl (Some [Some (Some 7); Some None; Some None]).
Proof. vm_compute. reflexivity. Qed.

Example copy_of_nine : after (put_all [1; 2; 3; 4; 5; 6; 7; 8; 9];; newArrayCopy 1) 1 = inr (Faults OutOfBounds).
Proof. vm_compute. reflexivity. Qed.

End ArrayRuns.
