(* ===== verification/SimParam.v ===== *)
(** * SimParam: parameters of a request

    [RequestParam] and [unescape] of [sim_parser.cpp]: the parameters of a
    query string or of a form, and percent-decoding. *)
From stdpp Require Import gmap.
From S2P Require Import Prelude Streams.

(** ** RequestParam

    [std::multimap<std::string, std::string>]: under each key its values in the
    order of insertion. *)
Abbreviation RequestParam := (gmap (list Z) (list (list Z))).

(** [_params.insert(pair)] *)
Definition add_param_pair (key value : list Z) (ps : RequestParam) : RequestParam :=
  <[key := default [] (ps !! key) ++ [value]]> ps.

Definition params_of (ps : RequestParam) (name : list Z) : list (list Z) := default [] (ps !! name).

(** [find] yields the first of the values. *)
Definition get_param (ps : RequestParam) (name : list Z) : list Z := default [] (head (params_of ps name)).

Definition get_params (ps : RequestParam) (name : list Z) (params : list (list Z)) : list (list Z) :=
  params ++ params_of ps name.

(** The loop over one [key=value]. *)
Fixpoint key_value_loop (fuel : nat) (s : istream) (ps : RequestParam) : RequestParam + fault :=
  match fuel with
  | O => inr OutOfFuel
  | S fuel' =>
      if good s then
        let '(key, s) := getline (chr "=") [] s in
        let '(value, s) := getline (chr "=") [] s in
        key_value_loop fuel' s (add_param_pair key value ps)
      else inl ps
  end.

(** The loop over the [&]-separated parts. *)
Fixpoint query_loop (fuel : nat) (s : istream) (ps : RequestParam) : RequestParam + fault :=
  match fuel with
  | O => inr OutOfFuel
  | S fuel' =>
      if good s then
        let '(key_value, s) := getline (chr "&") [] s in
        match key_value_loop (S (S (length key_value))) (stream_of key_value) ps with
        | inl ps' => query_loop fuel' s ps'
        | inr f => inr f
        end
      else inl ps
  end.

Definition parse_query_url (query_url : list Z) (ps : RequestParam) : RequestParam + fault :=
  query_loop (S (S (length query_url))) (stream_of query_url) ps.

(** ** unescape *)

Definition ishex (c : Z) : bool :=
  ((chr "a" <=? c) && (c <=? chr "f")) || ((chr "A" <=? c) && (c <=? chr "F"))
  || ((chr "0" <=? c) && (c <=? chr "9")).

(** [strtol] of one hexadecimal digit. *)
Definition hex_digit (c : Z) : Z :=
  if c <=? chr "9" then c - chr "0"
  else if c <=? chr "F" then c - chr "A" + 10
  else c - chr "a" + 10.

(** [param[size]] is the terminating NUL, which is no hexadecimal digit: near the
    end the percent sign stands for itself. *)
Fixpoint unescape (param : list Z) : list Z :=
  match param with
  | [] => []
  | c :: r =>
      match r with
      | a :: b :: r' =>
          if (c =? chr "%") && ishex a && ishex b then (hex_digit a * 16 + hex_digit b) :: unescape r'
          else (if c =? chr "+" then chr " " else c) :: unescape r
      | _ => (if c =? chr "+" then chr " " else c) :: unescape r
      end
  end.

(** ** What the loops insert *)

(** The pieces of [key=value] in pairs; a missing value is empty. *)
Fixpoint pair_up (ps : list (list Z)) : list (list Z * list Z) :=
  match ps with
  | k :: v :: r => (k, v) :: pair_up r
  | [k] => [(k, [])]
  | [] => []
  end.

Definition query_pairs (q : list Z) : list (list Z * list Z) :=
  split (chr "&") q ≫= fun kv => pair_up (split (chr "=") kv).

Definition add_pairs (kvs : list (list Z * list Z)) (ps : RequestParam) : RequestParam :=
  fold_left (fun ps kv => add_param_pair kv.1 kv.2 ps) kvs ps.

Lemma params_of_add k v ps n :
  params_of (add_param_pair k v ps) n = params_of ps n ++ (if decide (n = k) then [v] else []).
Proof.
  unfold params_of, add_param_pair. case_decide as Hn.
  - subst. by rewrite lookup_insert_eq.
  - by rewrite lookup_insert_ne, app_nil_r.
Qed.

(** The values found under a name are those of the pairs, in order. *)
Lemma params_of_add_pairs kvs ps n :
  params_of (add_pairs kvs ps) n = params_of ps n ++ (filter (fun kv => kv.1 = n) kvs).*2.
Proof.
  unfold add_pairs. revert ps. induction kvs as [|[k v] kvs IH]; intros ps; simpl.
  - by rewrite app_nil_r.
  - rewrite IH, params_of_add, filter_cons, <-app_assoc. simpl.
    destruct (decide (n = k)) as [->|].
    + by rewrite decide_True.
    + by rewrite decide_False by congruence.
Qed.

Lemma key_value_loop_pairs fuel : forall s ps,
  good s = true -> (S (length (is_rest s)) < fuel)%nat ->
  key_value_loop fuel s ps = inl (add_pairs (pair_up (split (chr "=") (is_rest s))) ps).
Proof.
  induction fuel as [|fuel IH]; intros s ps Hg Hf; [lia|]. cbn [key_value_loop]. rewrite Hg.
  pose proof (getline_good (chr "=") [] s Hg) as H1. destruct (getline (chr "=") [] s) as [k s1].
  destruct H1 as (ps1 & -> & [[-> Hg1]|(-> & Hg1 & Hl1)]).
  - unfold getline. rewrite Hg1. cbn [pair_up]. destruct fuel; [lia|]. cbn [key_value_loop].
    unfold good. cbn [is_eof is_fail negb]. by rewrite andb_false_r.
  - pose proof (getline_good (chr "=") [] s1 Hg1) as H2. destruct (getline (chr "=") [] s1) as [v s2].
    destruct H2 as (ps2 & -> & [[-> Hg2]|(-> & Hg2 & Hl2)]); cbn [pair_up].
    + destruct fuel; [lia|]. cbn [key_value_loop]. by rewrite Hg2.
    + rewrite IH by (done || lia). done.
Qed.

Lemma query_loop_pairs fuel : forall s ps,
  good s = true -> (S (length (is_rest s)) < fuel)%nat ->
  query_loop fuel s ps = inl (add_pairs (split (chr "&") (is_rest s) ≫= fun kv => pair_up (split (chr "=") kv)) ps).
Proof.
  induction fuel as [|fuel IH]; intros s ps Hg Hf; [lia|]. cbn [query_loop]. rewrite Hg.
  pose proof (getline_good (chr "&") [] s Hg) as H1. destruct (getline (chr "&") [] s) as [kv s1].
  rewrite key_value_loop_pairs by (done || simpl; lia). cbn [is_rest stream_of].
  destruct H1 as (ps1 & -> & [[-> Hg1]|(-> & Hg1 & Hl1)]).
  - destruct fuel; [lia|]. cbn [query_loop]. rewrite Hg1. cbn [mbind list_bind]. by rewrite app_nil_r.
  - rewrite IH by (done || lia). cbn [mbind list_bind]. unfold add_pairs. by rewrite fold_left_app.
Qed.

Lemma parse_query_url_pairs q ps : parse_query_url q ps = inl (add_pairs (query_pairs q) ps).
Proof. unfold parse_query_url. by rewrite query_loop_pairs by (done || simpl; lia). Qed.

(** ** Percent-encoding, the inverse of [unescape] *)

Definition hex_char (v : Z) : Z := if v <? 10 then v + chr "0" else v - 10 + chr "A".

Definition plain (c : Z) : bool := negb ((c =? chr "%") || (c =? chr "+")).

(** An encoder may leave any character but the percent and plus signs as it is
    and may write a space as a plus sign. *)
Inductive escaped : list Z -> list Z -> Prop :=
  | esc_nil : escaped [] []
  | esc_plain c l e : plain c = true -> escaped l e -> escaped (c :: l) (c :: e)
  | esc_space l e : escaped l e -> escaped (chr " " :: l) (chr "+" :: e)
  | esc_hex c l e : is_byte c -> escaped l e ->
      escaped (c :: l) (chr "%" :: hex_char (c / 16) :: hex_char (c mod 16) :: e).

Lemma hex_char_digit v : 0 <= v < 16 -> ishex (hex_char v) = true /\ hex_digit (hex_char v) = v.
Proof.
  intros Hv. unfold hex_char, ishex, hex_digit. destruct (Z.ltb_spec v 10).
  - split; [|by rewrite (proj2 (Z.leb_le _ _)) by lia; lia].
    rewrite !orb_true_iff, !andb_true_iff, !Z.leb_le. lia.
  - split; [rewrite !orb_true_iff, !andb_true_iff, !Z.leb_le; lia|].
    rewrite (proj2 (Z.leb_gt _ _)), (proj2 (Z.leb_le _ _)) by lia. lia.
Qed.

Lemma unescape_cons_other c r : (c =? chr "%") = false ->
  unescape (c :: r) = (if c =? chr "+" then chr " " else c) :: unescape r.
Proof. intros Hc. cbn [unescape]. rewrite Hc. by destruct r as [|a [|b r']]. Qed.

(** ** The properties *)

(** Query strings: parsing always succeeds and inserts, in order, exactly the
    key and value pairs of the parts between ampersands; so the values found
    under a name are the earlier ones followed by those of the query. *)
Theorem parse_query_pairs q ps :
  exists ps', parse_query_url q ps = inl ps' /\
    forall n, params_of ps' n = params_of ps n ++ (filter (fun kv => kv.1 = n) (query_pairs q)).*2.
Proof.
  rewrite parse_query_url_pairs. eexists. split; [reflexivity|]. intros n. apply params_of_add_pairs.
Qed.

Definition pair_text (kv : list Z * list Z) : list Z := kv.1 ++ [chr "="] ++ kv.2.
Definition query_text (kvs : list (list Z * list Z)) : list Z := join (chr "&") (pair_text <$> kvs).
Definition pair_ok (kv : list Z * list Z) : Prop :=
  (chr "&" ∉ kv.1) /\ (chr "=" ∉ kv.1) /\ (chr "&" ∉ kv.2) /\ (chr "=" ∉ kv.2).

Lemma split_pair kv : pair_ok kv -> split (chr "=") (pair_text kv) = [kv.1; kv.2].
Proof. intros (_ & H2 & _ & H4). apply (split_join (chr "=") [kv.1; kv.2]); [done|]. by repeat constructor. Qed.

Lemma query_pairs_text kvs : kvs <> [] -> Forall pair_ok kvs -> query_pairs (query_text kvs) = kvs.
Proof.
  intros Hne Hok. unfold query_pairs, query_text. rewrite split_join.
  - clear Hne. induction Hok as [|[k v] kvs Hkv Hok IH]; [done|].
    cbn [fmap list_fmap mbind list_bind] in *. by rewrite IH, split_pair.
  - by destruct kvs.
  - apply Forall_fmap. eapply Forall_impl; [exact Hok|].
    intros [k v] (H1 & _ & H3 & _). unfold pair_text. cbn [compose fst snd] in *.
    rewrite !not_elem_of_app. repeat split; [done| |done]. by apply not_elem_of_cons; split; [|apply not_elem_of_nil].
Qed.

(** C24. Round trip of query strings: pairs whose keys and values contain neither
    ampersands nor equal signs, written as a query string, are all found again
    under their keys, in order, and the first one is what [get_param] yields. *)
Theorem query_roundtrip kvs :
  kvs <> [] -> Forall pair_ok kvs ->
  exists ps, parse_query_url (query_text kvs) ∅ = inl ps /\
    (forall n, get_params ps n [] = (filter (fun kv => kv.1 = n) kvs).*2) /\
    (forall n v, head (filter (fun kv => kv.1 = n) kvs) = Some (n, v) -> get_param ps n = v).
Proof.
  intros Hne Hok. rewrite parse_query_url_pairs, query_pairs_text by done.
  eexists. split; [reflexivity|]. unfold get_params, get_param.
  split; intros n; rewrite params_of_add_pairs; [done|]. intros v Hv.
  unfold params_of. rewrite lookup_empty. cbn [default app].
  by destruct (filter _ kvs) as [|kv l]; simplify_eq/=.
Qed.

(** Percent-decoding undoes percent-encoding, whichever characters the
    encoder chose to escape. *)
Theorem unescape_escaped l e : escaped l e -> unescape e = l.
Proof.
  induction 1 as [|c l e Hc He IH|l e He IH|c l e Hc He IH]; [done| | |].
  - unfold plain in Hc. apply negb_true_iff, orb_false_iff in Hc as [H1 H2].
    by rewrite unescape_cons_other, H2, IH.
  - by rewrite unescape_cons_other, IH.
  - cbn [unescape]. rewrite IH.
    destruct (hex_char_digit (c / 16)) as [-> ->].
    { unfold is_byte in Hc. split; [apply Z.div_pos; lia|apply Z.div_lt_upper_bound; lia]. }
    destruct (hex_char_digit (c mod 16)) as [-> ->]; [apply Z.mod_pos_bound; lia|].
    cbn [andb Z.eqb]. simpl. f_equal. pose proof (Z.div_mod c 16). lia.
Qed.

Definition sample_query : list (list Z * list Z) :=
  [(bytes "name", bytes "tom"); (bytes "age", bytes "1"); (bytes "age", bytes "2")].

Lemma query_roundtrip_witness :
  query_text sample_query = bytes "name=tom&age=1&age=2" /\
  exists ps, parse_query_url (query_text sample_query) ∅ = inl ps /\
    (forall n, get_params ps n [] = (filter (fun kv => kv.1 = n) sample_query).*2) /\
    (forall n v, head (filter (fun kv => kv.1 = n) sample_query) = Some (n, v) -> get_param ps n = v).
Proof.
  split; [reflexivity|]. apply (query_roundtrip sample_query); [done|].
  unfold pair_ok. decide_now.
Defined.

Lemma unescape_escaped_witness : unescape (bytes "a%26b+c%2B") = bytes "a&b c+".
Proof.
  apply (unescape_escaped (bytes "a&b c+")).
  apply esc_plain; [done|]. apply (esc_hex 38); [done|]. apply esc_plain; [done|].
  apply esc_space. apply esc_plain; [done|]. apply (esc_hex 43); [done|]. apply esc_nil.
Defined.
