(* ===== verification/SimRequest.v ===== *)
(** * SimRequest: the request object of sim_parser

    [sim_parser.cpp]: the callbacks with which a [Request] collects what
    http_parser reports, the treatment of form bodies with multipart_parser, and
    [parse_request].  A callback is a function of the request that yields the
    code it returns and the new request, or a fault; once it has faulted the
    process is gone, which the callbacks handed to the C parsers represent by a
    value that stays as it is. *)
From stdpp Require Import gmap.
From S2P Require Import Prelude Streams SimParam Multipart HttpDefs HttpParser.

(** ** Data *)

Definition MAX_REQ_SIZE : Z := 10485760.

Definition PARSE_REQ_LINE : Z := 0.
Definition PARSE_REQ_HEAD : Z := 1.
Definition PARSE_REQ_BODY : Z := 2.
Definition PARSE_REQ_OVER : Z := 3.
Definition PARSE_REQ_HEAD_OVER : Z := 4.

Definition PARSE_MULTI_DISPOSITION : Z := 0.
Definition PARSE_MULTI_CONTENT_TYPE : Z := 1.
Definition PARSE_MULTI_OVER : Z := 3.

Definition NEED_MORE_STATUS : Z := 1.
Definition PARSE_LEN_REQUIRED : Z := 2.

Record RequestLine := mk_line {
  rl_param : RequestParam;
  rl_method : list Z;
  rl_request_url : list Z;
  rl_http_version : list Z;
}.

(** [_parse_state] is a [bool]. *)
Record FileItem := mk_item {
  fi_is_file : bool;
  fi_parse_state : bool;
  fi_content_type : list Z;
  fi_name : list Z;
  fi_filename : list Z;
  fi_data : list Z;
}.

Record RequestBody := mk_body {
  rb_raw_string : list Z;
  rb_req_params : RequestParam;
  rb_file_items : list FileItem;
}.

Record Request := mk_request {
  rq_last_was_value : bool;
  rq_header_fields : list (list Z);
  rq_header_values : list (list Z);
  rq_parse_part : Z;
  rq_parse_err : Z;
  rq_line : RequestLine;
  rq_headers : gmap (list Z) (list Z);
  rq_total_req_size : Z;
  rq_body : RequestBody;
  rq_client_ip : option (list Z);
}.

(** *** Assignments *)

Definition set_last_was_value v r := mk_request v (rq_header_fields r) (rq_header_values r) (rq_parse_part r) (rq_parse_err r) (rq_line r) (rq_headers r) (rq_total_req_size r) (rq_body r) (rq_client_ip r).
Definition set_header_fields v r := mk_request (rq_last_was_value r) v (rq_header_values r) (rq_parse_part r) (rq_parse_err r) (rq_line r) (rq_headers r) (rq_total_req_size r) (rq_body r) (rq_client_ip r).
Definition set_header_values v r := mk_request (rq_last_was_value r) (rq_header_fields r) v (rq_parse_part r) (rq_parse_err r) (rq_line r) (rq_headers r) (rq_total_req_size r) (rq_body r) (rq_client_ip r).
Definition set_parse_part v r := mk_request (rq_last_was_value r) (rq_header_fields r) (rq_header_values r) v (rq_parse_err r) (rq_line r) (rq_headers r) (rq_total_req_size r) (rq_body r) (rq_client_ip r).
Definition set_parse_err v r := mk_request (rq_last_was_value r) (rq_header_fields r) (rq_header_values r) (rq_parse_part r) v (rq_line r) (rq_headers r) (rq_total_req_size r) (rq_body r) (rq_client_ip r).
Definition set_line v r := mk_request (rq_last_was_value r) (rq_header_fields r) (rq_header_values r) (rq_parse_part r) (rq_parse_err r) v (rq_headers r) (rq_total_req_size r) (rq_body r) (rq_client_ip r).
Definition set_headers v r := mk_request (rq_last_was_value r) (rq_header_fields r) (rq_header_values r) (rq_parse_part r) (rq_parse_err r) (rq_line r) v (rq_total_req_size r) (rq_body r) (rq_client_ip r).
Definition set_total_req_size v r := mk_request (rq_last_was_value r) (rq_header_fields r) (rq_header_values r) (rq_parse_part r) (rq_parse_err r) (rq_line r) (rq_headers r) v (rq_body r) (rq_client_ip r).
Definition set_body v r := mk_request (rq_last_was_value r) (rq_header_fields r) (rq_header_values r) (rq_parse_part r) (rq_parse_err r) (rq_line r) (rq_headers r) (rq_total_req_size r) v (rq_client_ip r).
Definition set_client_ip v r := mk_request (rq_last_was_value r) (rq_header_fields r) (rq_header_values r) (rq_parse_part r) (rq_parse_err r) (rq_line r) (rq_headers r) (rq_total_req_size r) (rq_body r) v.

Definition set_file_items v r :=
  set_body (mk_body (rb_raw_string (rq_body r)) (rb_req_params (rq_body r)) v) r.
Definition set_req_params v r :=
  set_body (mk_body (rb_raw_string (rq_body r)) v (rb_file_items (rq_body r))) r.

(** ** Strings

    [std::string::max_size()]; an operation that would exceed it throws
    [std::length_error]. *)
Definition STRING_MAX_SIZE : Z := 4611686018427387897.

(** [s.append(t)], [s += t], [s + t] *)
Definition str_append (s t : list Z) : list Z + fault :=
  if STRING_MAX_SIZE <? zlen s + zlen t then inr Uncaught else inl (s ++ t).

(** ** RequestLine *)

Definition set_request_url (url : list Z) (l : RequestLine) : RequestLine :=
  mk_line (rl_param l) (rl_method l) url (rl_http_version l).

Definition to_string (l : RequestLine) : list Z :=
  bytes "method:" ++ rl_method l ++ bytes "," ++ bytes "request_url:" ++ rl_request_url l
    ++ bytes "," ++ bytes "http_version:" ++ rl_http_version l.

Definition set_method (m : list Z) (l : RequestLine) : RequestLine :=
  mk_line (rl_param l) m (rl_request_url l) (rl_http_version l).
Definition set_http_version (v : list Z) (l : RequestLine) : RequestLine :=
  mk_line (rl_param l) (rl_method l) (rl_request_url l) v.
Definition append_request_url (url : list Z) (l : RequestLine) : RequestLine + fault :=
  match str_append (rl_request_url l) url with
  | inl v => inl (mk_line (rl_param l) (rl_method l) v (rl_http_version l))
  | inr f => inr f
  end.

Definition get_request_uri (l : RequestLine) : list Z :=
  (getline (chr "?") [] (stream_of (rl_request_url l))).1.

Definition parse_request_url_params (l : RequestLine) : RequestLine + fault :=
  let '(_, ss) := getline (chr "?") [] (stream_of (rl_request_url l)) in
  if good ss then
    let '(query_url, _) := getline (chr "?") [] ss in
    match parse_query_url query_url (rl_param l) with
    | inl ps => inl (mk_line ps (rl_method l) (rl_request_url l) (rl_http_version l))
    | inr f => inr f
    end
  else inl l.

(** ** Request: access *)

Definition add_header (name value : list Z) (r : Request) : Request :=
  set_headers (<[name := value]> (rq_headers r)) r.

(** [_headers[name]]: a missing header is inserted with an empty value. *)
Definition get_header (name : list Z) (r : Request) : list Z * Request :=
  match rq_headers r !! name with
  | Some v => (v, r)
  | None => ([], set_headers (<[name := []]> (rq_headers r)) r)
  end.

Definition request_get_param (r : Request) (name : list Z) : list Z :=
  if bool_decide (rl_method (rq_line r) = bytes "GET") then get_param (rl_param (rq_line r)) name
  else if bool_decide (rl_method (rq_line r) = bytes "POST") then get_param (rb_req_params (rq_body r)) name
  else [].

Definition request_get_params (r : Request) (name : list Z) (params : list (list Z)) : list (list Z) :=
  let params :=
    if bool_decide (rl_method (rq_line r) = bytes "GET") then get_params (rl_param (rq_line r)) name params
    else params in
  if bool_decide (rl_method (rq_line r) = bytes "POST") then get_params (rb_req_params (rq_body r)) name params
  else params.

Definition get_unescape_param (r : Request) (name : list Z) : list Z :=
  let param := request_get_param r name in
  if bool_decide (param = []) then param else unescape param.

(** ** The callbacks of http_parser *)

(** What a callback does: the code it returns and the new request. *)
Abbreviation outcome := ((Z * Request) + fault)%type.

(** [v[v.size() - 1] += s] *)
Definition append_last (s : list Z) (v : list (list Z)) : list (list Z) + fault :=
  match last v with
  | None => inr OutOfBounds
  | Some x =>
      match str_append x s with
      | inl x' => inl (<[(length v - 1)%nat := x']> v)
      | inr f => inr f
      end
  end.

Definition ss_on_url (p : http_parser) (req : Request) (buf : list Z) : outcome :=
  match append_request_url buf (rq_line req) with
  | inl line => inl (0, set_line line req)
  | inr f => inr f
  end.

(** The first name of a header closes the request line. *)
Definition finish_line (p : http_parser) (req : Request) : Request + fault :=
  let line := rq_line req in
  let line := if http_method_num (hp_method p) =? 1 then set_method (bytes "GET") line else line in
  let line := if http_method_num (hp_method p) =? 3 then set_method (bytes "POST") line else line in
  match parse_request_url_params line with
  | inr f => inr f
  | inl line =>
      let line := if (hp_http_major p =? 1) && (hp_http_minor p =? 0)
                  then set_http_version (bytes "HTTP/1.0") line else line in
      let line := if (hp_http_major p =? 1) && (hp_http_minor p =? 1)
                  then set_http_version (bytes "HTTP/1.1") line else line in
      inl (set_parse_part PARSE_REQ_HEAD (set_line line req))
  end.

Definition ss_on_header_field (p : http_parser) (req : Request) (field : list Z) : outcome :=
  match (if rq_parse_part req =? PARSE_REQ_LINE then finish_line p req else inl req) with
  | inr f => inr f
  | inl req =>
      if rq_last_was_value req then
        inl (0, set_last_was_value false (set_header_fields (rq_header_fields req ++ [field]) req))
      else
        match append_last field (rq_header_fields req) with
        | inl fields => inl (0, set_header_fields fields req)
        | inr f => inr f
        end
  end.

Definition ss_on_header_value (p : http_parser) (req : Request) (value : list Z) : outcome :=
  let values :=
    if negb (rq_last_was_value req) then inl (rq_header_values req ++ [value])
    else append_last value (rq_header_values req) in
  match values with
  | inl values => inl (0, set_last_was_value true (set_header_values values req))
  | inr f => inr f
  end.

(** [for (i = 0; i < _header_fields.size(); i++) add_header(...)]; the two
    vectors have the same length here. *)
Definition add_headers (req : Request) : Request :=
  fold_left (fun r fv => add_header fv.1 fv.2 r)
    (zip (rq_header_fields req) (rq_header_values req)) req.

Definition ss_on_headers_complete (p : http_parser) (req : Request) : outcome :=
  if negb (Nat.eqb (length (rq_header_fields req)) (length (rq_header_values req))) then inl (-1, req)
  else
    let req := set_parse_part PARSE_REQ_HEAD_OVER (add_headers req) in
    if bool_decide (rl_method (rq_line req) = bytes "POST") then
      let '(cl, req) := get_header (bytes "Content-Length") req in
      if bool_decide (cl = []) then inl (-1, set_parse_err PARSE_LEN_REQUIRED req) else inl (0, req)
    else inl (0, req).

Definition ss_on_body (p : http_parser) (req : Request) (buf : list Z) : outcome :=
  let b := rq_body req in
  match str_append (rb_raw_string b) buf with
  | inl raw =>
      inl (0, set_parse_part PARSE_REQ_BODY
                (set_body (mk_body raw (rb_req_params b) (rb_file_items b)) req))
  | inr f => inr f
  end.

(** ** Multipart forms *)

(** [while (std::getline(ss, token, s)) tokens.push_back(token);] *)
Fixpoint split_loop (fuel : nat) (d : Z) (ss : istream) (tokens : list (list Z))
  : list (list Z) + fault :=
  match fuel with
  | O => inr OutOfFuel
  | S fuel' =>
      let '(token, ss) := getline d [] ss in
      if is_fail ss then inl tokens else split_loop fuel' d ss (tokens ++ [token])
  end.

Definition ss_split_str (input : list Z) (d : Z) : list (list Z) + fault :=
  if bool_decide (input = []) then inl []
  else split_loop (S (S (length input))) d (stream_of input) [].

(** [str.substr(pos, n)] *)
Definition substr (str : list Z) (pos n : Z) : list Z + fault :=
  if zlen str <? pos then inr Uncaught else inl (slice str pos n).

Definition double_quotes : list Z := [34; 34].

(** The code returned and [output]. *)
Definition ss_parse_disposition_value (input : list Z) : (Z * list Z) + fault :=
  match ss_split_str input (chr "=") with
  | inr f => inr f
  | inl [_; output] =>
      if bool_decide (output = double_quotes) then inl (0, []) else
      match substr output 1 (uwrap 64 (zlen output - 2)) with
      | inr f => inr f
      | inl [] => inl (-1, [])
      | inl output => inl (0, output)
      end
  | inl _ => inl (-1, [])
  end.

Definition set_parse_state (st : Z) (it : FileItem) : FileItem :=
  mk_item (fi_is_file it) (negb (st =? 0)) (fi_content_type it) (fi_name it) (fi_filename it) (fi_data it).
Definition set_name (v : list Z) (it : FileItem) : FileItem :=
  mk_item (fi_is_file it) (fi_parse_state it) (fi_content_type it) v (fi_filename it) (fi_data it).
Definition set_is_file (it : FileItem) : FileItem :=
  mk_item true (fi_parse_state it) (fi_content_type it) (fi_name it) (fi_filename it) (fi_data it).
Definition set_filename (v : list Z) (it : FileItem) : FileItem :=
  mk_item (fi_is_file it) (fi_parse_state it) (fi_content_type it) (fi_name it) v (fi_data it).
Definition set_content_type (v : list Z) (it : FileItem) : FileItem :=
  mk_item (fi_is_file it) (fi_parse_state it) v (fi_name it) (fi_filename it) (fi_data it).
Definition append_data (v : list Z) (it : FileItem) : FileItem + fault :=
  match str_append (fi_data it) v with
  | inl d => inl (mk_item (fi_is_file it) (fi_parse_state it) (fi_content_type it) (fi_name it) (fi_filename it) d)
  | inr f => inr f
  end.

Definition FileItem_new : FileItem := mk_item false false [] [] [] [].

(** [item.get_parse_state() == state]: the [bool] is promoted to 0 or 1. *)
Definition parse_state_is (it : FileItem) (st : Z) : bool := Z.b2z (fi_parse_state it) =? st.

(** The code returned and the item. *)
Definition ss_parse_multi_disposition (input : list Z) (item : FileItem) : (Z * FileItem) + fault :=
  match ss_split_str input (chr ";") with
  | inr f => inr f
  | inl (_ :: name_token :: rest) =>
      match ss_parse_disposition_value name_token with
      | inr f => inr f
      | inl (ret, fieldname) =>
          if negb (ret =? 0) then inl (ret, item) else
          let item := set_name fieldname item in
          match rest with
          | [] => inl (0, item)
          | file_token :: _ =>
              let item := set_is_file item in
              match ss_parse_disposition_value file_token with
              | inr f => inr f
              | inl (ret, filename) =>
                  if negb (ret =? 0) then inl (ret, item)
                  else inl (0, set_filename filename item)
              end
          end
      end
  | inl _ => inl (-1, item)
  end.

(** The last item, and the items with the last one replaced. *)
Definition last_item (req : Request) : option FileItem := last (rb_file_items (rq_body req)).
Definition set_last_item (it : FileItem) (req : Request) : Request :=
  let items := rb_file_items (rq_body req) in
  set_file_items (<[(length items - 1)%nat := it]> items) req.

Definition ss_on_multipart_name (req : Request) (s : list Z) : outcome :=
  let req :=
    if bool_decide (s = bytes "Content-Disposition") then
      set_file_items (rb_file_items (rq_body req) ++ [set_parse_state PARSE_MULTI_DISPOSITION FileItem_new]) req
    else req in
  if bool_decide (s = bytes "Content-Type") then
    match last_item req with
    | None => inl (1, req)
    | Some item => inl (0, set_last_item (set_parse_state PARSE_MULTI_CONTENT_TYPE item) req)
    end
  else inl (0, req).

Definition ss_on_multipart_value (req : Request) (s : list Z) : outcome :=
  match last_item req with
  | None => inl (-1, req)
  | Some item =>
      let parsed :=
        if parse_state_is item PARSE_MULTI_DISPOSITION then ss_parse_multi_disposition s item
        else inl (0, item) in
      match parsed with
      | inr f => inr f
      | inl (ret, item) =>
          if negb (ret =? 0) then inl (ret, set_last_item item req) else
          let item := if parse_state_is item PARSE_MULTI_CONTENT_TYPE then set_content_type s item else item in
          inl (0, set_last_item item req)
      end
  end.

Definition ss_on_multipart_data (req : Request) (s : list Z) : outcome :=
  if bool_decide (s = []) then inl (0, req) else
  match last_item req with
  | None => inl (1, req)
  | Some item =>
      match append_data s item with
      | inl item => inl (0, set_last_item item req)
      | inr f => inr f
      end
  end.

Definition ss_on_multipart_data_over (req : Request) : outcome :=
  match last_item req with
  | None => inl (1, req)
  | Some item => inl (0, set_last_item (set_parse_state PARSE_MULTI_OVER item) req)
  end.

(** [RequestBody::parse_multi_params] *)
Definition parse_multi_params (req : Request) : Request :=
  set_req_params
    (fold_left (fun ps it => add_param_pair (fi_name it) (fi_data it) ps)
       (rb_file_items (rq_body req)) (rb_req_params (rq_body req))) req.

Definition ss_on_multipart_body_end (req : Request) : outcome := inl (0, parse_multi_params req).

(** *** A callback as the C parsers see it *)

Abbreviation running := (Request + fault)%type.

Definition mp_lift (f : Request -> outcome) : running -> Z * running := fun u =>
  match u with
  | inr e => (-1, inr e)
  | inl req => match f req with
               | inl (r, req') => (r, inl req')
               | inr e => (-1, inr e)
               end
  end.

Definition mp_settings : multipart_parser_settings running :=
  Multipart.mk_settings running
    (Some (fun u d => mp_lift (fun req => ss_on_multipart_name req d) u))
    (Some (fun u d => mp_lift (fun req => ss_on_multipart_value req d) u))
    (Some (fun u d => mp_lift (fun req => ss_on_multipart_data req d) u))
    None None
    (Some (mp_lift ss_on_multipart_data_over))
    (Some (mp_lift ss_on_multipart_body_end)).

(** A [char *] argument ends at its first NUL. *)
Fixpoint c_str (s : list Z) : list Z :=
  match s with
  | [] => []
  | c :: s' => if c =? 0 then [] else c :: c_str s'
  end.

(** [ss_parse_multipart_data]; its result is not used. *)
Definition ss_parse_multipart_data (req : Request) : Request + fault :=
  let body := rb_raw_string (rq_body req) in
  if bool_decide (body = []) then inl req else
  let '(ct, req) := get_header (bytes "Content-Type") req in
  match ss_split_str ct (chr ";") with
  | inr f => inr f
  | inl [_; boundary_token] =>
      match ss_split_str boundary_token (chr "=") with
      | inr f => inr f
      | inl [_; b] =>
          match str_append (bytes "--") b with
          | inr f => inr f
          | inl boundary =>
              match multipart_parser_execute mp_settings body (multipart_parser_init (c_str boundary)) (inl req) with
              | inl (_, _, u) => u
              | inr f => inr f
              end
          end
      | inl _ => inl req
      end
  | inl _ => inl req
  end.

(** [s.find(x) != std::string::npos] *)
Fixpoint contains (x s : list Z) : bool :=
  bool_decide (take (length x) s = x) ||
  match s with [] => false | _ :: s' => contains x s' end.

Definition ss_on_message_complete (p : http_parser) (req : Request) : outcome :=
  let '(ct, req) := get_header (bytes "Content-Type") req in
  let form :=
    if bool_decide (ct = bytes "application/x-www-form-urlencoded") then
      let raw := rb_raw_string (rq_body req) in
      if bool_decide (raw = []) then inl req else
      match parse_query_url raw (rb_req_params (rq_body req)) with
      | inl ps => inl (set_req_params ps req)
      | inr f => inr f
      end
    else inl req in
  match form with
  | inr f => inr f
  | inl req =>
      match (if contains (bytes "multipart/form-data") ct then ss_parse_multipart_data req else inl req) with
      | inr f => inr f
      | inl req => inl (0, set_parse_part PARSE_REQ_OVER req)
      end
  end.

(** ** The request object *)

Definition cb_lift (f : http_parser -> Request -> outcome) : http_cb running := fun p u =>
  match u with
  | inr e => (-1, p, inr e)
  | inl req => match f p req with
               | inl (r, req') => (r, p, inl req')
               | inr e => (-1, p, inr e)
               end
  end.

Definition data_lift (f : http_parser -> Request -> list Z -> outcome) : http_data_cb running :=
  fun p u d => cb_lift (fun p req => f p req d) p u.

Definition request_settings : http_parser_settings running :=
  mk_settings running None (Some (data_lift ss_on_url)) None
    (Some (data_lift ss_on_header_field)) (Some (data_lift ss_on_header_value))
    (Some (cb_lift ss_on_headers_complete)) (Some (data_lift ss_on_body))
    (Some (cb_lift ss_on_message_complete)) None None.

(** [Request::Request()]: the parser member and the others. *)
Definition Request_new : http_parser * Request :=
  (http_parser_init HTTP_REQUEST,
   mk_request true [] [] PARSE_REQ_LINE 0 (mk_line ∅ [] [] []) ∅ 0 (mk_body [] ∅ []) None).

Definition INT_MAX : Z := 2 ^ 31 - 1.

(** [Request::parse_request]: the code returned, the parser and the rest of the
    object.  [read_buffer] is the whole array, of which [read_size] bytes were received.
    [LOG_DEBUG] prints the array as a C string; [debug]: that level is logged. *)
Definition parse_request (strict debug : bool) (read_buffer : list Z) (read_size : Z) (obj : http_parser * Request)
  : (Z * (http_parser * Request)) + fault :=
  let '(parser, req) := obj in
  let total := rq_total_req_size req + read_size in
  if INT_MAX <? total then inr Overflow else
  let req := set_total_req_size total req in
  if MAX_REQ_SIZE <? total then inl (-1, (parser, req)) else
  if debug && bool_decide (0 ∉ read_buffer) then inr Unterminated else
  match http_parser_execute strict request_settings (take (Z.to_nat read_size) read_buffer) parser (inl req) with
  | inr f => inr f
  | inl (_, _, inr f) => inr f
  | inl (nparsed, parser, inl req) =>
      if negb (nparsed =? read_size) then inl (-1, (parser, req))
      else if negb (rq_parse_err req =? 0) then inl (rq_parse_err req, (parser, req))
      else if negb (rq_parse_part req =? PARSE_REQ_OVER) then inl (NEED_MORE_STATUS, (parser, req))
      else inl (0, (parser, req))
  end.

(** [SS_READ_BUFFER_SIZE] of [epoll_socket.h], and the array of [on_readable] behind
    [memset] and [recv]. *)
Definition SS_READ_BUFFER_SIZE : Z := 4096.
Definition filled (data : list Z) : list Z := data ++ replicate (Z.to_nat SS_READ_BUFFER_SIZE - length data) 0.
