(* ===== verification/SimSafety.v ===== *)
(** * SimSafety: the callbacks of a request keep it well-formed

    The contract of [SimRequest]'s callbacks with the two C parsers: the header
    vectors match the phase of the message, so that no vector is indexed outside
    its bounds, and the only fault a callback can have is an exception. *)
From stdpp Require Import gmap.
From S2P Require Import Prelude Streams SimParam Multipart MultipartSafety.
From S2P Require Import HttpDefs HttpUrl HttpParser HttpInv HttpOrder SimRequest.

(** ** The invariant of a request *)

(** [_last_was_value] and the lengths of the two vectors, by phase. *)
Definition vectors_ok (ph : phase) (r : Request) : Prop :=
  match ph with
  | Ph_field | Ph_tfield =>
      rq_last_was_value r = false /\ length (rq_header_fields r) = S (length (rq_header_values r))
  | Ph_value | Ph_tvalue =>
      rq_last_was_value r = true /\ length (rq_header_fields r) = length (rq_header_values r) /\
      rq_header_values r <> []
  | _ => rq_last_was_value r = true /\ length (rq_header_fields r) = length (rq_header_values r)
  end.

Definition err_ok (r : Request) : Prop :=
  (rq_parse_err r = 0 \/ rq_parse_err r = PARSE_LEN_REQUIRED) /\
  0 <= rq_total_req_size r <= MAX_REQ_SIZE.

Definition request_ok (ph : phase) (u : running) : Prop :=
  match u with
  | inl r => vectors_ok ph r /\ zlen (rb_raw_string (rq_body r)) <= STRING_MAX_SIZE /\ err_ok r
  | inr e => e = Uncaught
  end.

(** The parts of a request that matter to the invariant. *)
Definition same_core (r r' : Request) : Prop :=
  rq_last_was_value r' = rq_last_was_value r /\ rq_header_fields r' = rq_header_fields r /\
  rq_header_values r' = rq_header_values r /\
  rb_raw_string (rq_body r') = rb_raw_string (rq_body r) /\ rq_parse_err r' = rq_parse_err r /\
  rq_total_req_size r' = rq_total_req_size r.

Lemma same_core_refl r : same_core r r.
Proof. by repeat split. Qed.

Lemma same_core_trans r1 r2 r3 : same_core r1 r2 -> same_core r2 r3 -> same_core r1 r3.
Proof. unfold same_core. intros (?&?&?&?&?&?) (?&?&?&?&?&?). repeat split; congruence. Qed.

Lemma same_core_ok ph r r' : same_core r r' -> request_ok ph (inl r) -> request_ok ph (inl r').
Proof.
  intros (H1 & H2 & H3 & H4 & H5 & H6). unfold request_ok, vectors_ok, err_ok.
  by rewrite H1, H2, H3, H4, H5, H6.
Qed.

Lemma same_core_headers v r : same_core r (set_headers v r).
Proof. by repeat split. Qed.
Lemma same_core_items v r : same_core r (set_file_items v r).
Proof. by repeat split. Qed.
Lemma same_core_params v r : same_core r (set_req_params v r).
Proof. by repeat split. Qed.
Lemma same_core_part v r : same_core r (set_parse_part v r).
Proof. by repeat split. Qed.
Lemma same_core_line v r : same_core r (set_line v r).
Proof. by repeat split. Qed.

Lemma request_ok_total ph v r :
  0 <= v <= MAX_REQ_SIZE -> request_ok ph (inl r) -> request_ok ph (inl (set_total_req_size v r)).
Proof. intros Hv (H1 & H2 & H3 & _). split; [exact H1|]. split; [exact H2|]. by split. Qed.

#[export] Hint Resolve same_core_refl same_core_headers same_core_items same_core_params
  same_core_part same_core_line : atb.

Lemma same_core_get_header name r : same_core r (get_header name r).2.
Proof. unfold get_header. case_match; simpl; auto with atb. Qed.

Lemma same_core_add_headers r : same_core r (add_headers r).
Proof.
  unfold add_headers. generalize (zip (rq_header_fields r) (rq_header_values r)). intros l.
  enough (H : forall r0, same_core r r0 -> same_core r (fold_left (fun r fv => add_header fv.1 fv.2 r) l r0))
    by auto with atb.
  induction l as [|fv l IH]; intros r0 Hr; [done|]. simpl. apply IH.
  eapply same_core_trans; [exact Hr|]. apply same_core_headers.
Qed.

(** ** Strings *)

Lemma str_append_cases s t :
  str_append s t = inr Uncaught \/ (str_append s t = inl (s ++ t) /\ zlen (s ++ t) <= STRING_MAX_SIZE).
Proof.
  unfold str_append. destruct (Z.ltb_spec STRING_MAX_SIZE (zlen s + zlen t)); [by left|].
  right. split; [done|]. by rewrite zlen_app.
Qed.

Lemma append_last_cases s v : v <> [] ->
  append_last s v = inr Uncaught \/
  exists v', append_last s v = inl v' /\ length v' = length v.
Proof.
  intros Hv. unfold append_last. destruct (last v) as [x|] eqn:Hx.
  - destruct (str_append_cases x s) as [->|[-> _]]; [by left|]. right.
    eexists. split; [done|]. by rewrite length_insert.
  - by apply last_None in Hx.
Qed.

Lemma split_loop_total fuel d : forall ss tokens,
  (length (is_rest ss) + (if good ss then 1 else 0) < fuel)%nat ->
  exists l, split_loop fuel d ss tokens = inl l.
Proof.
  induction fuel as [|fuel IH]; intros ss tokens Hf; [lia|]. cbn [split_loop].
  unfold getline. destruct (good ss) eqn:Hg; [|by eexists].
  destruct (extract d (is_rest ss)) as [t [r|]] eqn:He; cbn [is_fail].
  - apply IH. apply extract_length in He. cbn. lia.
  - case_bool_decide; [by eexists|]. apply IH. cbn. apply extract_None in He. subst t.
    destruct (is_rest ss); [done|]. simpl in Hf. lia.
Qed.

Lemma ss_split_str_total input d : exists l, ss_split_str input d = inl l.
Proof.
  unfold ss_split_str. case_bool_decide; [by eexists|]. apply split_loop_total. cbn. lia.
Qed.

Lemma zlen_c_str s : zlen (c_str s) <= zlen s.
Proof. induction s as [|c s IH]; [done|]. simpl. case_match; unfold zlen in *; simpl in *; lia. Qed.

(** ** Multipart callbacks *)

(** The outcome of a callback that leaves the core of the request alone. *)
Definition outcome_ok (r : Request) (o : outcome) : Prop :=
  match o with
  | inl (_, r') => same_core r r'
  | inr e => e = Uncaught
  end.

Lemma disposition_value_cases input :
  ss_parse_disposition_value input = inr Uncaught \/ exists ro, ss_parse_disposition_value input = inl ro.
Proof.
  unfold ss_parse_disposition_value. destruct (ss_split_str_total input (chr "=")) as [l ->].
  destruct l as [|x [|y [|z l]]]; eauto. case_bool_decide; eauto.
  unfold substr. destruct (zlen y <? 1); [by left|]. destruct (slice _ _ _); eauto.
Qed.

Lemma multi_disposition_cases input it :
  ss_parse_multi_disposition input it = inr Uncaught \/ exists ri, ss_parse_multi_disposition input it = inl ri.
Proof.
  unfold ss_parse_multi_disposition. destruct (ss_split_str_total input (chr ";")) as [l ->].
  destruct l as [|x [|y l]]; eauto.
  destruct (disposition_value_cases y) as [->|[[ret nm] ->]]; [by left|].
  case_match; [eauto|]. destruct l as [|z l]; [eauto|].
  destruct (disposition_value_cases z) as [->|[[ret' fn] ->]]; [by left|]. case_match; eauto.
Qed.

Lemma ok_multipart_name r s : outcome_ok r (ss_on_multipart_name r s).
Proof.
  unfold ss_on_multipart_name. set (r' := if bool_decide _ then _ else r).
  assert (Hr : same_core r r') by (unfold r'; case_bool_decide; auto with atb).
  case_bool_decide; [|done]. case_match; [|done].
  eapply same_core_trans; [exact Hr|]. apply same_core_items.
Qed.

Lemma ok_multipart_value r s : outcome_ok r (ss_on_multipart_value r s).
Proof.
  unfold ss_on_multipart_value. destruct (last_item r) as [it|]; [|apply same_core_refl].
  set (parsed := if parse_state_is it PARSE_MULTI_DISPOSITION then _ else _).
  assert (Hp : parsed = inr Uncaught \/ exists ri, parsed = inl ri).
  { unfold parsed. case_match; [apply multi_disposition_cases|eauto]. }
  destruct Hp as [->|[[ret it'] ->]]; [done|]. case_match; apply same_core_items.
Qed.

Lemma ok_multipart_data r s : outcome_ok r (ss_on_multipart_data r s).
Proof.
  unfold ss_on_multipart_data. case_bool_decide; [apply same_core_refl|].
  destruct (last_item r) as [it|]; [|apply same_core_refl]. unfold append_data.
  destruct (str_append_cases (fi_data it) s) as [->|[-> _]]; [done|apply same_core_items].
Qed.

Lemma ok_multipart_data_over r : outcome_ok r (ss_on_multipart_data_over r).
Proof.
  unfold ss_on_multipart_data_over. case_match; [apply same_core_items|apply same_core_refl].
Qed.

Definition multipart_inv (r : Request) (u : running) : Prop :=
  match u with
  | inl r' => same_core r r'
  | inr e => e = Uncaught
  end.

Lemma mp_lift_inv r f u :
  (forall r', outcome_ok r' (f r')) -> multipart_inv r u -> multipart_inv r (mp_lift f u).2.
Proof.
  intros Hf. destruct u as [r'|e]; [|done]. cbn [multipart_inv mp_lift]. intros Hr.
  specialize (Hf r'). destruct (f r') as [[c r'']|e]; [|done]. by eapply same_core_trans.
Qed.

#[export] Instance mp_settings_preserves r : Preserves mp_settings (multipart_inv r).
Proof.
  split; intros f u; [intros d|intros d|intros d|idtac..]; intros Hf; simplify_eq/=; apply mp_lift_inv; intros r'.
  - apply ok_multipart_name.
  - apply ok_multipart_value.
  - apply ok_multipart_data.
  - apply ok_multipart_data_over.
  - apply same_core_params.
Qed.

(** The whole multipart body. *)
Lemma parse_multipart_ok r :
  zlen (rb_raw_string (rq_body r)) <= STRING_MAX_SIZE -> multipart_inv r (ss_parse_multipart_data r).
Proof.
  intros Hraw. unfold ss_parse_multipart_data. case_bool_decide; [apply same_core_refl|].
  pose proof (same_core_get_header (bytes "Content-Type") r) as Hg.
  destruct (get_header (bytes "Content-Type") r) as [ct r']. cbn [snd] in Hg.
  destruct (ss_split_str_total ct (chr ";")) as [l ->].
  destruct l as [|x [|y [|z l]]]; try done.
  destruct (ss_split_str_total y (chr "=")) as [l ->].
  destruct l as [|x' [|b [|z l]]]; try done.
  destruct (str_append_cases (bytes "--") b) as [->|[-> Hb]]; [done|].
  assert (Hlen : 0 < zlen (c_str (bytes "--" ++ b)) < 2 ^ 62).
  { pose proof (zlen_c_str (bytes "--" ++ b)). unfold STRING_MAX_SIZE in *. split; [|lia].
    change (c_str (bytes "--" ++ b)) with (chr "-" :: chr "-" :: c_str b).
    rewrite zlen_cons. pose proof (zlen_nonneg (chr "-" :: c_str b)). lia. }
  destruct (mp_execute_total mp_settings (rb_raw_string (rq_body r)) _ (inl r') (mp_init_ok _ Hlen))
    as (n & p' & u' & Hex & _); [unfold STRING_MAX_SIZE in *; lia|].
  rewrite Hex. exact (execute_preserves mp_settings (multipart_inv r) _ _ (inl r') _ _ _ Hg Hex).
Qed.

(** ** The contract with http_parser *)

Lemma cb_lift_ok f : cb_ok (cb_lift f).
Proof.
  intros p u _. unfold cb_lift. destruct u as [r|e]; [|by left].
  destruct (f p r) as [[c r']|e]; by left.
Qed.

#[export] Instance request_settings_ok : CallbacksOk request_settings.
Proof.
  split; try (intros f [= <-]; apply cb_lift_ok); try done.
  intros k f d Hf. destruct k; simplify_eq/=; apply (cb_lift_ok (fun p req => _ p req d)).
Qed.

(** One step of the grammar, on a request that is well-formed. *)
Definition step_ok (ph' : phase) (o : outcome) : Prop :=
  match o with
  | inl (_, r') => request_ok ph' (inl r')
  | inr e => e = Uncaught
  end.

Lemma step_cb f p u ph ph' :
  (forall r, request_ok ph (inl r) -> step_ok ph' (f p r)) ->
  request_ok ph u -> request_ok ph' (cb_lift f p u).2.
Proof.
  intros Hf Hu. unfold cb_lift. destruct u as [r|e]; [|done].
  specialize (Hf r Hu). by destruct (f p r) as [[c r']|e].
Qed.

Lemma finish_line_ok p r : exists r', finish_line p r = inl r' /\ same_core r r'.
Proof.
  unfold finish_line. set (line := if _ =? 3 then _ else _).
  assert (Hp : exists line', parse_request_url_params line = inl line').
  { unfold parse_request_url_params. destruct (getline _ _ _) as [t ss].
    destruct (good ss); [|by eexists]. destruct (getline _ _ ss) as [q ss'].
    rewrite parse_query_url_pairs. by eexists. }
  destruct Hp as [line' ->]. eexists. split; [done|].
  eapply same_core_trans; [apply same_core_line|apply same_core_part].
Qed.

Lemma step_header_field p ph ph' r d :
  data_next K_header_field ph = Some ph' -> request_ok ph (inl r) ->
  step_ok ph' (ss_on_header_field p r d).
Proof.
  intros Hn Hr. unfold ss_on_header_field.
  assert (Hline : exists r', (if rq_parse_part r =? PARSE_REQ_LINE then finish_line p r else inl r) = inl r'
            /\ request_ok ph (inl r')).
  { case_match; [|eauto]. destruct (finish_line_ok p r) as (r' & -> & Hs).
    exists r'. split; [done|]. by eapply same_core_ok. }
  clear Hr. destruct Hline as (r' & -> & Hv & Hraw & Herr).
  destruct (rq_last_was_value r') eqn:Hl.
  - destruct ph; cbn [vectors_ok] in Hv; destruct Hv as [? Hv]; try congruence; try discriminate Hn;
      injection Hn as <-; (split; [|done]); cbn; rewrite length_app; cbn; (split; [done|]); lia.
  - assert (Hne : rq_header_fields r' <> []).
    { intros E. destruct ph; cbn [vectors_ok] in Hv; rewrite E in Hv; destruct Hv as [? Hv];
        first [congruence | discriminate Hv]. }
    destruct (append_last_cases d _ Hne) as [->|(v & -> & Hlen)]; [done|].
    destruct ph; cbn [vectors_ok] in Hv; destruct Hv as [? Hv]; try congruence; try discriminate Hn;
      injection Hn as <-; (split; [|done]); cbn; (split; [done|]); lia.
Qed.

Lemma step_header_value p ph ph' r d :
  data_next K_header_value ph = Some ph' -> request_ok ph (inl r) ->
  step_ok ph' (ss_on_header_value p r d).
Proof.
  intros Hn (Hv & Hraw & Herr). unfold ss_on_header_value.
  destruct (rq_last_was_value r) eqn:Hl; cbn [negb].
  - assert (Hne : rq_header_values r <> [] /\ length (rq_header_fields r) = length (rq_header_values r)).
    { destruct ph; cbn [vectors_ok] in Hv; try discriminate Hn; destruct Hv as [? Hv]; try congruence; tauto. }
    destruct Hne as [Hne Heq]. destruct (append_last_cases d _ Hne) as [->|(v & -> & Hlen)]; [done|].
    assert (v <> []) by (intros ->; by destruct (rq_header_values r)).
    destruct ph; try discriminate Hn; injection Hn as <-; (split; [|done]); cbn; repeat split; try done; lia.
  - destruct ph; cbn [vectors_ok] in Hv; try discriminate Hn; destruct Hv as [? Hv]; try congruence;
      injection Hn as <-; (split; [|done]); cbn; rewrite length_app; cbn; repeat split; try lia;
      by destruct (rq_header_values r).
Qed.

Lemma step_headers_complete p ph ph' r :
  note_next Headers_complete ph = Some ph' -> request_ok ph (inl r) ->
  step_ok ph' (ss_on_headers_complete p r).
Proof.
  intros Hn (Hv & Hraw & Herr). unfold ss_on_headers_complete.
  assert (Hb : ph' = Ph_body /\ vectors_ok Ph_body r).
  { destruct ph; try discriminate Hn; injection Hn as <-; cbn in *; tauto. }
  destruct Hb as [-> Hb]. clear Hv.
  assert (Hok : request_ok Ph_body (inl r)) by done.
  case_match; [done|]. set (r1 := set_parse_part _ _).
  assert (H1 : same_core r r1).
  { eapply same_core_trans; [apply same_core_add_headers|apply same_core_part]. }
  case_bool_decide; [|by eapply same_core_ok].
  pose proof (same_core_get_header (bytes "Content-Length") r1) as H2.
  destruct (get_header (bytes "Content-Length") r1) as [cl r2]. cbn [snd] in H2.
  assert (H3 : request_ok Ph_body (inl r2)).
  { eapply same_core_ok; [|exact Hok]. by eapply same_core_trans. }
  case_bool_decide; [|done]. destruct H3 as (Hv & Hraw' & _ & Ht). split; [exact Hv|]. split; [done|]. split; [by right|done].
Qed.

Lemma step_message_complete p ph ph' r :
  note_next Message_complete ph = Some ph' -> request_ok ph (inl r) ->
  step_ok ph' (ss_on_message_complete p r).
Proof.
  intros Hn Hr. assert (ph = Ph_body) as -> by by destruct ph. injection Hn as <-.
  assert (Hr' : request_ok Ph_idle (inl r)) by exact Hr. clear Hr. unfold ss_on_message_complete.
  pose proof (same_core_get_header (bytes "Content-Type") r) as Hg.
  destruct (get_header (bytes "Content-Type") r) as [ct r1]. cbn [snd] in Hg.
  set (form := if bool_decide _ then _ else _).
  assert (Hform : exists r2, form = inl r2 /\ same_core r r2).
  { unfold form. case_bool_decide; [|eauto]. case_bool_decide; [eauto|].
    rewrite parse_query_url_pairs. eexists. split; [done|].
    eapply same_core_trans; [exact Hg|apply same_core_params]. }
  destruct Hform as (r2 & -> & H2).
  assert (Hm : multipart_inv r2 (if contains (bytes "multipart/form-data") ct then ss_parse_multipart_data r2 else inl r2)).
  { destruct (contains _ _); [|apply same_core_refl]. apply parse_multipart_ok.
    destruct H2 as (_ & _ & _ & -> & _). apply Hr'. }
  destruct (if contains _ _ then _ else _) as [r3|e]; [|done]. cbn [multipart_inv] in Hm.
  eapply same_core_ok; [|exact Hr']. eapply same_core_trans; [exact H2|].
  eapply same_core_trans; [exact Hm|]. apply same_core_part.
Qed.

Lemma step_plain p ph ph' r d k :
  k = K_url \/ k = K_body -> data_next k ph = Some ph' -> request_ok ph (inl r) ->
  step_ok ph' (match k with K_url => ss_on_url p r d | _ => ss_on_body p r d end).
Proof.
  intros [-> | ->] Hn Hr.
  - assert (ph = Ph_line) as -> by by destruct ph. injection Hn as <-.
    unfold ss_on_url, append_request_url.
    destruct (str_append_cases (rl_request_url (rq_line r)) d) as [->|[-> _]]; [done|].
    eapply same_core_ok; [apply same_core_line|exact Hr].
  - assert (ph' = ph) as -> by by (destruct ph; simplify_eq/=).
    unfold ss_on_body. destruct Hr as (Hv & _ & Herr).
    destruct (str_append_cases (rb_raw_string (rq_body r)) d) as [->|[-> Hl]]; [done|]. by split.
Qed.

#[export] Instance request_ordered : AppInvariant request_settings request_ok.
Proof.
  split.
  - intros n f ph ph' p u Hf Hn. destruct n; simplify_eq/=; apply step_cb; intros r.
    + by apply step_headers_complete.
    + by apply step_message_complete.
  - intros k f ph ph' p u d Hf Hk. destruct k; simplify_eq/=; apply (step_cb (fun p req => _ p req d)); intros r.
    + by apply step_header_field.
    + by apply step_header_value.
    + apply (step_plain p ph ph' r d K_url); auto.
    + apply (step_plain p ph ph' r d K_body); auto.
  - intros n ph ph' [r|e] Hf Hn; [|done]. destruct n; try discriminate Hf; destruct ph; try discriminate Hn;
      injection Hn as <-; try done. intros ((? & ? & _) & ?). by split.
  - intros k ph ph' u Hf Hk. destruct k; try discriminate Hf. destruct ph; try discriminate Hk. by injection Hk as <-.
Qed.
