(* ===== verification/SimProps.v ===== *)
(** * SimProps: parse_request

    What the server can rely on when it feeds a request object, and the one way
    in which the object brings the process down. *)
From stdpp Require Import gmap.
From S2P Require Import Prelude Streams SimParam HttpDefs HttpUrl HttpParser.
From S2P Require Import HttpInv HttpSafety HttpProps HttpOrder SimRequest SimSafety.

(** A request object in the middle of a request: new, or fed by [on_readable]
    with what [recv] delivered, as long as the answer was to read on. *)
Inductive connection (strict debug : bool) : http_parser * Request -> Prop :=
  | conn_new : connection strict debug Request_new
  | conn_read buf obj obj' :
      connection strict debug obj -> 0 < zlen buf <= SS_READ_BUFFER_SIZE ->
      parse_request strict debug (filled buf) (zlen buf) obj = inl (NEED_MORE_STATUS, obj') ->
      connection strict debug obj'.

Lemma filled_data buf : take (Z.to_nat (zlen buf)) (filled buf) = buf.
Proof. unfold filled, zlen. rewrite Nat2Z.id. apply take_app_length. Qed.

(** The array holds no NUL only when it is full. *)
Lemma filled_full buf : zlen buf <= SS_READ_BUFFER_SIZE -> 0 ∉ filled buf -> zlen buf = SS_READ_BUFFER_SIZE /\ 0 ∉ buf.
Proof.
  unfold filled. intros Hl [H0 Hr]%not_elem_of_app. split; [|done].
  destruct (decide (zlen buf = SS_READ_BUFFER_SIZE)) as [|Hne]; [done|]. destruct Hr. unfold zlen in *.
  destruct (Z.to_nat SS_READ_BUFFER_SIZE - length buf)%nat eqn:E; [unfold SS_READ_BUFFER_SIZE in *; lia|]. by left.
Qed.

(** ** The invariant of the object *)

Definition obj_ok (strict : bool) (obj : http_parser * Request) : Prop :=
  reachable strict request_settings obj.1 /\ app_ok request_ok obj.1 (inl obj.2) /\ err_ok obj.2.

Lemma new_obj_ok strict : obj_ok strict Request_new.
Proof.
  split; [constructor|]. split; [|split; [by left|done]]. apply app_ok_phase.
  exists Ph_idle. split; [|done]. split; [done|]. split; [done|]. split; [by left|done].
Qed.

Lemma app_ok_total p v r :
  0 <= v <= MAX_REQ_SIZE -> app_ok request_ok p (inl r) ->
  app_ok request_ok p (inl (set_total_req_size v r)).
Proof.
  intros Hv [(ph & Hph & _) Hu]. split; [exists ph; split; [by apply request_ok_total|done]|].
  intros (ph' & Hph' & Hin)%Hu. exists ph'. split; [by apply request_ok_total|done].
Qed.

(** The array is printed beyond its end: it is full, without a NUL. *)
Definition printed_beyond (debug : bool) (buf : list Z) : Prop :=
  debug = true /\ zlen buf = SS_READ_BUFFER_SIZE /\ 0 ∉ buf.

Lemma printed_when debug buf :
  zlen buf <= SS_READ_BUFFER_SIZE -> debug && bool_decide (0 ∉ filled buf) = true <-> printed_beyond debug buf.
Proof.
  intros Hl. rewrite andb_true_iff, bool_decide_eq_true. split; [intros [-> H]; split; [done|by apply filled_full]|].
  intros (-> & Hz & H0). split; [done|]. unfold filled.
  replace (Z.to_nat SS_READ_BUFFER_SIZE - length buf)%nat with 0%nat by (rewrite <-Hz; unfold zlen; lia). by rewrite app_nil_r.
Qed.

(** What [parse_request] may answer, and what it leaves behind. *)
Definition answer_ok (strict debug : bool) (buf : list Z) (answer : (Z * (http_parser * Request)) + fault) : Prop :=
  match answer with
  | inr e => e = Uncaught \/ e = Unterminated /\ printed_beyond debug buf
  | inl (r, obj') =>
      (r = -1 \/ r = PARSE_LEN_REQUIRED \/
       r = NEED_MORE_STATUS /\ rq_parse_part obj'.2 <> PARSE_REQ_OVER \/
       r = 0 /\ rq_parse_part obj'.2 = PARSE_REQ_OVER) /\
      (printed_beyond debug buf -> r = -1) /\ (r <> -1 -> obj_ok strict obj')
  end.

Lemma parse_request_ok strict debug buf obj :
  obj_ok strict obj -> 0 < zlen buf <= SS_READ_BUFFER_SIZE -> answer_ok strict debug buf (parse_request strict debug (filled buf) (zlen buf) obj).
Proof.
  destruct obj as [p req]. intros (Hreach & Happ & Herr & Ht) Hl. cbn [fst snd] in *. unfold parse_request.
  pose proof (printed_when debug buf ltac:(lia)) as Hpr. unfold SS_READ_BUFFER_SIZE, MAX_REQ_SIZE in *.
  rewrite (proj2 (Z.ltb_ge INT_MAX _)) by (unfold INT_MAX; lia).
  destruct (Z.ltb_spec 10485760 (rq_total_req_size req + zlen buf)); [by split; [left|split]|].
  destruct (debug && _) eqn:Ed; [right; split; [done|by apply Hpr]|].
  assert (Hno : printed_beyond debug buf -> False) by (by intros Hb%Hpr).
  rewrite filled_data. set (req1 := set_total_req_size _ req).
  assert (Happ1 : app_ok request_ok p (inl req1)) by (apply app_ok_total; [unfold MAX_REQ_SIZE; lia|done]).
  destruct (decide (hp_errno p = HPE_OK)) as [He|He].
  - pose proof (reachable_ok strict request_settings p Hreach (or_introl He)) as Hok.
    destruct (execute_total strict request_settings buf p (inl req1) Hok He) as (n & p' & u' & Hex & _).
    rewrite Hex.
    assert (Happ' : app_ok request_ok p' u').
    { apply (ord_execute strict request_settings request_ok buf p (inl req1) n p' u'); try done.
      - intros ->. unfold zlen in Hl. simpl in Hl. lia.
      - apply Happ1. by left. }
    assert (Hreach' : reachable strict request_settings p') by by eapply reach_execute.
    destruct u' as [req'|e]; [|left; by destruct Happ' as [(ph & Hph & _) _]].
    assert (Hobj : obj_ok strict (p', req')).
    { split; [done|]. split; [done|]. destruct Happ' as [(ph & (_ & _ & ?) & _) _]. done. }
    pose proof Hobj as (_ & _ & He' & _). clear Hpr.
    destruct (n =? zlen buf); cbn [negb]; [|by split; [left|split]].
    destruct (Z.eqb_spec (rq_parse_err req') 0) as [E|E]; cbn [negb].
    + destruct (Z.eqb_spec (rq_parse_part req') PARSE_REQ_OVER) as [E'|E']; cbn [negb]; (split; [by auto 6|]); split; auto; by intros Hb%Hno.
    + destruct He' as [?|Hr]; [done|]. split; [by right; left|]. split; [by intros Hb%Hno|done].
  - rewrite execute_error by done. destruct (Z.eqb_spec 0 (zlen buf)); [lia|]. by split; [left|split].
Qed.

Lemma connection_ok strict debug obj : connection strict debug obj -> obj_ok strict obj.
Proof.
  induction 1 as [|buf obj obj' Hc IH Hl Hp]; [apply new_obj_ok|].
  pose proof (parse_request_ok strict debug buf obj IH Hl) as Ha. rewrite Hp in Ha. by apply Ha.
Qed.

(** ** Tokens *)

(** What [while (std::getline(...))] collects: the pieces, without an empty last
    one. *)
Definition tokens_of (d : Z) (l : list Z) : list (list Z) :=
  let ps := split d l in
  if bool_decide (last ps = Some []) then take (length ps - 1) ps else ps.

Lemma tokens_of_cons d t r : tokens_of d (t ++ d :: r) = t :: tokens_of d r \/ d ∈ t.
Proof.
  destruct (decide (d ∈ t)) as [|Hd]; [by right|left]. unfold tokens_of.
  rewrite (extract_split d (t ++ d :: r)), extract_free by done.
  destruct (split d r) as [|p ps] eqn:E; [by apply split_nonempty in E|].
  change (last (t :: p :: ps)) with (last (p :: ps)). case_bool_decide; [|done].
  cbn [length]. by replace (S (S (length ps)) - 1)%nat with (S (S (length ps) - 1))%nat by lia.
Qed.

Lemma extract_spec d l :
  match extract d l with
  | (t, Some r) => l = t ++ d :: r /\ d ∉ t
  | (t, None) => l = t /\ d ∉ t
  end.
Proof.
  induction l as [|c l IH]; [split; [done|apply not_elem_of_nil]|]. simpl.
  destruct (Z.eqb_spec c d) as [->|Hc]; [split; [done|apply not_elem_of_nil]|].
  destruct (extract d l) as [t [r|]]; destruct IH as [-> Hd]; (split; [done|]);
    by apply not_elem_of_cons.
Qed.

Lemma split_loop_tokens fuel d : forall l tokens,
  (length l + 1 < fuel)%nat -> split_loop fuel d (stream_of l) tokens = inl (tokens ++ tokens_of d l).
Proof.
  induction fuel as [|fuel IH]; intros l tokens Hf; [lia|]. cbn [split_loop]. unfold getline. cbn [is_rest stream_of].
  change (good (stream_of l)) with true. cbn iota. pose proof (extract_spec d l) as Hs.
  destruct (extract d l) as [t [r|]]; destruct Hs as [-> Hd].
  - cbn [is_fail]. change (mk_istream r false false) with (stream_of r).
    rewrite IH by (rewrite length_app in Hf; simpl in Hf; lia).
    destruct (tokens_of_cons d t r) as [->|]; [by rewrite <-app_assoc|done].
  - unfold tokens_of. rewrite extract_split, extract_free_end by done. cbn [is_fail last].
    destruct (decide (t = [])) as [->|Ht].
    + rewrite !bool_decide_true by done. cbn. by rewrite app_nil_r.
    + rewrite !bool_decide_false by congruence. destruct fuel; [lia|]. cbn.
      by destruct d.
Qed.

Lemma ss_split_str_tokens input d : ss_split_str input d = inl (tokens_of d input).
Proof.
  unfold ss_split_str. case_bool_decide as Hi; [by subst|]. by rewrite split_loop_tokens by lia.
Qed.

Lemma split_length d l : (0 < length (split d l))%nat.
Proof. pose proof (split_nonempty d l). destruct (split d l); [done|simpl; lia]. Qed.

Lemma join_split d l : join d (split d l) = l.
Proof.
  induction l as [|c l IH]; [done|]. cbn [split].
  pose proof (split_nonempty d l) as Hne. destruct (Z.eqb_spec c d) as [->|Hc].
  - destruct (split d l) as [|p ps]; [done|].
    change (join d ([] :: p :: ps)) with (d :: join d (p :: ps)). by rewrite IH.
  - destruct (split d l) as [|p [|p' ps]]; [done| |].
    + cbn [join] in *. by rewrite IH.
    + change (join d ((c :: p) :: p' :: ps)) with (c :: join d (p :: p' :: ps)). by rewrite IH.
Qed.

Lemma split_pieces d l : Forall (fun p => d ∉ p) (split d l).
Proof.
  induction l as [|c l IH]; cbn [split]; [by repeat constructor; apply not_elem_of_nil|].
  destruct (Z.eqb_spec c d) as [->|Hc]; [by constructor; [apply not_elem_of_nil|]|].
  destruct (split d l) as [|p ps]; [constructor; [|constructor]; apply not_elem_of_cons; by split; [|apply not_elem_of_nil]|].
  apply Forall_cons in IH as [Hp IH]. constructor; [|done]. apply not_elem_of_cons. by split.
Qed.

(** Two tokens of which the second is empty: the text ends in two delimiters. *)
Lemma tokens_second_empty d l x :
  tokens_of d l = [x; []] <-> l = x ++ [d; d] /\ d ∉ x.
Proof.
  unfold tokens_of. split.
  - intros H. pose proof (join_split d l) as Hj. pose proof (split_pieces d l) as Hp.
    destruct (split d l) as [|a [|b [|c ps]]]; case_bool_decide as Hlast; try discriminate H.
    + injection H as -> ->. by destruct Hlast.
    + cbn [length] in H. replace (S (S (S (length ps))) - 1)%nat with (S (S (length ps))) in H by lia.
      cbn [take] in H. injection H as -> -> H. destruct ps as [|e ps]; [|discriminate H].
      cbn in Hlast. injection Hlast as ->. apply Forall_cons in Hp as [Hp _]. by split.
  - intros [-> Hx].
    assert (Hs : split d (x ++ [d; d]) = [x; []; []]).
    { apply (split_join d [x; []; []]); [done|]. repeat constructor; try apply not_elem_of_nil. done. }
    by rewrite Hs.
Qed.

(** ** The properties *)

(** C9. Feeding a request object: whatever the peer sends, in buffers of at most
    [SS_READ_BUFFER_SIZE] bytes, [parse_request] returns one of its four codes,
    0 exactly with a complete request and [NEED_MORE_STATUS] only without one,
    and unless it refuses the request at most [MAX_REQ_SIZE] bytes were taken;
    no assertion fails, no integer overflows, every loop ends and nothing is accessed
    outside its bounds, but for one case: a buffer filled to its last byte without a NUL,
    while debug messages are logged, is printed as a C string, so that the read runs on
    behind the array.  The other thing that can go wrong is an exception that leaves
    [parse_request]. *)
Theorem parse_request_safe strict debug buf obj :
  connection strict debug obj -> 0 < zlen buf <= SS_READ_BUFFER_SIZE ->
  let answer := parse_request strict debug (filled buf) (zlen buf) obj in
  answer = inr Uncaught \/
  (answer = inr Unterminated /\ printed_beyond debug buf) \/
  exists r p' req', answer = inl (r, (p', req')) /\
    (printed_beyond debug buf -> r = -1) /\
    (r = -1 \/ r = PARSE_LEN_REQUIRED \/
     r = NEED_MORE_STATUS /\ rq_parse_part req' <> PARSE_REQ_OVER \/
     r = 0 /\ rq_parse_part req' = PARSE_REQ_OVER) /\
    (r <> -1 -> 0 <= rq_total_req_size req' <= MAX_REQ_SIZE /\ reachable strict request_settings p').
Proof.
  intros Hc Hl answer. subst answer.
  pose proof (parse_request_ok strict debug buf obj (connection_ok _ _ _ Hc) Hl) as Ha.
  destruct (parse_request strict debug (filled buf) (zlen buf) obj) as [[r [p' req']]|e].
  - right. right. destruct Ha as (Hr & Hp & Hok). exists r, p', req'. split; [done|]. split; [exact Hp|]. split; [done|].
    intros (Hreach & _ & _ & Ht)%Hok. done.
  - destruct Ha as [->|[-> Hp]]; [by left|by right; left].
Qed.

(** The value of a [Content-Disposition] parameter: the parser of these
    values throws an exception exactly on a text that ends in two equal signs
    and has no other, as [name==]. *)
Theorem disposition_throws input :
  ss_parse_disposition_value input = inr Uncaught <->
  exists x, input = x ++ [chr "="; chr "="] /\ chr "=" ∉ x.
Proof.
  unfold ss_parse_disposition_value. rewrite ss_split_str_tokens.
  split.
  - destruct (tokens_of (chr "=") input) as [|x [|y [|z l]]] eqn:Ht; try done.
    case_bool_decide; [done|]. unfold substr.
    destruct (Z.ltb_spec (zlen y) 1) as [Hy|Hy]; [|by destruct (slice _ _ _)].
    assert (y = []) as -> by (destruct y; [done|rewrite zlen_cons in Hy; pose proof (zlen_nonneg y); lia]).
    intros _. exists x. by apply tokens_second_empty.
  - intros (x & Hx). rewrite (proj2 (tokens_second_empty _ _ x) Hx). done.
Qed.

(** ** Concrete requests *)

Definition crlf : list Z := [CR; LF].

Definition form_body (parameter : list Z) : list Z :=
  bytes "--XX" ++ crlf ++ bytes "Content-Disposition: form-data; " ++ parameter ++ crlf ++ crlf
  ++ bytes "tom" ++ crlf ++ bytes "--XX--" ++ crlf.

Definition form_request (length parameter : list Z) : list Z :=
  bytes "POST /login?x=1 HTTP/1.1" ++ crlf ++ bytes "Content-Length: " ++ length ++ crlf
  ++ bytes "Content-Type: multipart/form-data; boundary=XX" ++ crlf ++ crlf ++ form_body parameter.

Definition quoted (s : string) : list Z := [34] ++ bytes s ++ [34].

(** A form with one field, sent in two pieces. *)
Definition first_piece : list Z := take 100 (form_request (bytes "66") (bytes "name=" ++ quoted "user")).

Lemma parse_request_safe_witness :
  exists obj, connection true true obj /\
  let buf := drop 100 (form_request (bytes "66") (bytes "name=" ++ quoted "user")) in
  let answer := parse_request true true (filled buf) (zlen buf) obj in
  0 < zlen buf <= SS_READ_BUFFER_SIZE /\
  (answer = inr Uncaught \/
   (answer = inr Unterminated /\ printed_beyond true buf) \/
   exists r p' req', answer = inl (r, (p', req')) /\
    (printed_beyond true buf -> r = -1) /\
    (r = -1 \/ r = PARSE_LEN_REQUIRED \/
     r = NEED_MORE_STATUS /\ rq_parse_part req' <> PARSE_REQ_OVER \/
     r = 0 /\ rq_parse_part req' = PARSE_REQ_OVER) /\
    (r <> -1 -> 0 <= rq_total_req_size req' <= MAX_REQ_SIZE /\ reachable true request_settings p')).
Proof.
  destruct (parse_request true true (filled first_piece) (zlen first_piece) Request_new) as [[r obj]|e] eqn:He.
  - assert (Hc : connection true true obj).
    { eapply (conn_read true true first_piece); [apply conn_new|split; reflexivity || discriminate|].
      rewrite He. vm_compute in He. injection He as <- _. reflexivity. }
    exists obj. split; [exact Hc|]. split; [split; [reflexivity|discriminate]|].
    apply parse_request_safe; [exact Hc|]. split; [reflexivity|discriminate].
  - exfalso. vm_compute in He. discriminate He.
Defined.

(** What [on_readable] passes on. *)
Definition fed (data : list Z) : (Z * (http_parser * Request)) + fault :=
  parse_request true true (filled data) (zlen data) Request_new.

(** A header line without end that fills the array: it is printed beyond its end. *)
Example full_array :
  let data := bytes "GET / HTTP/1.1" ++ crlf ++ bytes "X: " ++ replicate 4077 97 in
  zlen data = SS_READ_BUFFER_SIZE /\ fed data = inr Unterminated.
Proof. by split; vm_compute. Qed.

(** It is understood: the field is found under its name. *)
Example form_understood :
  match fed (form_request (bytes "66") (bytes "name=" ++ quoted "user")) with
  | inl (r, (_, req)) => Some (r, request_get_param req (bytes "user"))
  | inr _ => None
  end = Some (0, bytes "tom").
Proof. vm_compute. reflexivity. Qed.

(** A form that brings the process down. *)
Example form_crash : fed (form_request (bytes "61") (bytes "name==")) = inr Uncaught.
Proof. vm_compute. reflexivity. Qed.

(** A request without a length is refused as malformed; the code that announces
    411 is set, and not returned. *)
Example length_required_lost :
  match fed (bytes "POST / HTTP/1.1" ++ crlf ++ bytes "Host: x" ++ crlf ++ crlf) with
  | inl (r, (_, req)) => Some (r, rq_parse_err req)
  | inr _ => None
  end = Some (-1, PARSE_LEN_REQUIRED).
Proof. vm_compute. reflexivity. Qed.

(** Two requests in one buffer become one request with a joined URL. *)
Example pipelined_requests :
  let get u := bytes "GET " ++ u ++ bytes " HTTP/1.1" ++ crlf ++ bytes "Host: x" ++ crlf ++ crlf in
  match fed (get (bytes "/a") ++ get (bytes "/b")) with
  | inl (r, (_, req)) => Some (r, rl_request_url (rq_line req))
  | inr _ => None
  end = Some (0, bytes "/a/b").
Proof. vm_compute. reflexivity. Qed.

(** The names of headers are compared with their case. *)
Example header_case :
  match fed (bytes "POST / HTTP/1.1" ++ crlf ++ bytes "content-length: 1" ++ crlf ++ crlf ++ bytes "a") with
  | inl (r, _) => Some r
  | inr _ => None
  end = Some (-1).
Proof. vm_compute. reflexivity. Qed.

(** A part that was completed is taken for one whose type is announced: the state
    is kept in a [bool]. *)
Example parse_state_bool it :
  parse_state_is (set_parse_state PARSE_MULTI_OVER it) PARSE_MULTI_CONTENT_TYPE = true.
Proof. reflexivity. Qed.
