(* ===== verification/SimResponse.v ===== *)
(** * SimResponse: responses and the write path

    [Response] of [sim_parser.cpp] and [HttpEpollWatcher::on_writeable] of
    [http_server.cpp]: a response is written to a string stream and sent in
    buffers; what the socket did not take is put back by moving the read position
    of the stream.  The number of bytes that [send] takes is an input. *)
From stdpp Require Import gmap.
From S2P Require Import Prelude Streams.

(** ** std::stringstream, read by blocks

    The contents, the read position, [eofbit] and [failbit]. *)
Record iostream := mk_io {
  io_data : list Z;
  io_pos : Z;
  io_eof : bool;
  io_fail : bool;
}.

Definition io_new : iostream := mk_io [] 0 false false.

Definition io_good (s : iostream) : bool := negb (io_eof s) && negb (io_fail s).

(** [s << str] appends. *)
Definition io_put (str : list Z) (s : iostream) : iostream :=
  mk_io (io_data s ++ str) (io_pos s) (io_eof s) (io_fail s).

(** [s.read(buffer, n)]: the characters stored, [gcount()] of them; a stream that is
    not good fails; too few characters set both bits. *)
Definition io_read (n : Z) (s : iostream) : list Z * iostream :=
  if io_good s then
    let chars := slice (io_data s) (io_pos s) n in
    if zlen chars <? n
    then (chars, mk_io (io_data s) (io_pos s + zlen chars) true true)
    else (chars, mk_io (io_data s) (io_pos s + zlen chars) false false)
  else ([], mk_io (io_data s) (io_pos s) (io_eof s) true).

Definition io_clear (s : iostream) : iostream := mk_io (io_data s) (io_pos s) false false.

(** [s.tellg()]: -1 on a failed stream. *)
Definition io_tellg (s : iostream) : Z := if io_fail s then -1 else io_pos s.

(** [s.seekg(p)]: [eofbit] is cleared; a position outside the contents fails. *)
Definition io_seekg (p : Z) (s : iostream) : iostream :=
  if io_fail s then mk_io (io_data s) (io_pos s) false true
  else if (0 <=? p) && (p <=? zlen (io_data s)) then mk_io (io_data s) p false false
  else mk_io (io_data s) (io_pos s) false true.

(** ** Response *)

Record CodeMsg := mk_code { status_code : Z; msg : list Z }.

Definition STATUS_OK : CodeMsg := mk_code 200 (bytes "OK").
Definition STATUS_NOT_FOUND : CodeMsg := mk_code 404 (bytes "Not Found").
Definition STATUS_METHOD_NOT_ALLOWED : CodeMsg := mk_code 405 (bytes "Method Not Allowed").
Definition STATUS_LENGTH_REQUIRED : CodeMsg := mk_code 411 (bytes "Length Required").

(** [_headers] is a [std::map], visited in the order of its keys: an association
    list in increasing order. *)
Record Response := mk_response {
  rs_is_writed : bool;
  rs_code_msg : CodeMsg;
  rs_body : list Z;
  rs_headers : list (list Z * list Z);
  rs_bytes : iostream;
}.

Definition Response_new (c : CodeMsg) : Response := mk_response false c [] [] io_new.

(** [_headers[name] = value] *)
Fixpoint insert_header (name value : list Z) (h : list (list Z * list Z)) : list (list Z * list Z) :=
  match h with
  | [] => [(name, value)]
  | (k, v) :: h' =>
      if bool_decide (name = k) then (k, value) :: h'
      else if str_ltb name k then (name, value) :: h
      else (k, v) :: insert_header name value h'
  end.

Fixpoint find_header (name : list Z) (h : list (list Z * list Z)) : option (list Z) :=
  match h with
  | [] => None
  | (k, v) :: h' => if bool_decide (name = k) then Some v else find_header name h'
  end.

Definition set_head (name value : list Z) (r : Response) : Response :=
  mk_response (rs_is_writed r) (rs_code_msg r) (rs_body r) (insert_header name value (rs_headers r)) (rs_bytes r).
Definition set_strbody (body : list Z) (r : Response) : Response :=
  mk_response (rs_is_writed r) (rs_code_msg r) body (rs_headers r) (rs_bytes r).
Definition set_code_msg (c : CodeMsg) (r : Response) : Response :=
  mk_response (rs_is_writed r) c (rs_body r) (rs_headers r) (rs_bytes r).
Definition set_is_writed (b : bool) (r : Response) : Response :=
  mk_response b (rs_code_msg r) (rs_body r) (rs_headers r) (rs_bytes r).
Definition set_res_bytes (s : iostream) (r : Response) : Response :=
  mk_response (rs_is_writed r) (rs_code_msg r) (rs_body r) (rs_headers r) s.

Definition CRLF : list Z := [CR; LF].

Definition EHTTP_VERSION : list Z := bytes "1.0.3".

Definition header_line (kv : list Z * list Z) : list Z := kv.1 ++ bytes ": " ++ kv.2 ++ CRLF.

(** What [gen_response] puts into the stream. *)
Definition response_text (http_version : list Z) (is_keepalive : bool) (r : Response) : list Z :=
  (http_version ++ bytes " " ++ dec_text (status_code (rs_code_msg r)) ++ bytes " "
     ++ msg (rs_code_msg r) ++ CRLF)
  ++ (bytes "Server: ehttp/" ++ EHTTP_VERSION ++ CRLF)
  ++ (if find_header (bytes "Content-Type") (rs_headers r) is Some _ then []
      else bytes "Content-Type: application/json; charset=UTF-8" ++ CRLF)
  ++ (if find_header (bytes "Content-Length") (rs_headers r) is Some _ then []
      else bytes "Content-Length: " ++ dec_text (zlen (rs_body r)) ++ CRLF)
  ++ ((if is_keepalive then bytes "Connection: Keep-Alive" else bytes "Connection: close") ++ CRLF)
  ++ mjoin (header_line <$> rs_headers r)
  ++ CRLF ++ rs_body r.

Definition gen_response (http_version : list Z) (is_keepalive : bool) (r : Response) : Z * Response :=
  (0, set_res_bytes (io_put (response_text http_version is_keepalive r) (rs_bytes r)) r).

(** The code returned, the buffer of [read_size] bytes and the response. *)
Definition readsome (buffer_size : Z) (r : Response) : Z * list Z * Response :=
  let '(chars, s) := io_read buffer_size (rs_bytes r) in
  ((if negb (io_eof s) then 1 else 0), chars, set_res_bytes s r).

Definition rollback (num : Z) (r : Response) : Z * Response :=
  let s := rs_bytes r in
  let s := if io_eof s then io_clear s else s in
  let rb_pos := s32 (io_tellg s) - num in
  let s := io_seekg rb_pos s in
  ((if io_good s then 0 else -1), set_res_bytes s r).

(** ** Reading a response in blocks *)

(** A stream that can be read: the position is inside, and the end was met
    together with a failure or not at all. *)
Record io_ok (s : iostream) : Prop := {
  iok_pos : 0 <= io_pos s <= zlen (io_data s);
  iok_bits : io_fail s = io_eof s;
  iok_end : io_eof s = true -> io_pos s = zlen (io_data s);
}.

(** What is still to be read. *)
Definition io_left (s : iostream) : list Z := drop (Z.to_nat (io_pos s)) (io_data s).

Lemma readsome_ok n r :
  io_ok (rs_bytes r) -> 0 <= n ->
  let '(ret, chars, r') := readsome n r in
  io_ok (rs_bytes r') /\ io_data (rs_bytes r') = io_data (rs_bytes r) /\
  io_left (rs_bytes r) = chars ++ io_left (rs_bytes r') /\ zlen chars <= n /\
  (ret = 0 -> io_left (rs_bytes r') = []) /\ (ret = 0 \/ ret = 1 /\ zlen chars = n) /\
  io_pos (rs_bytes r') = io_pos (rs_bytes r) + zlen chars /\
  r' = set_res_bytes (rs_bytes r') r.
Proof.
  intros [Hp Hb He] Hn. unfold readsome, io_read, io_good, io_left.
  destruct (rs_bytes r) as [d pos eof fl] eqn:Hr. cbn [io_data io_pos io_eof io_fail] in *. subst fl.
  pose proof (zlen_nonneg d). destruct eof; cbn [negb andb].
  - specialize (He eq_refl). subst pos. cbn. rewrite zlen_to_nat, drop_all.
    repeat split; cbn; unfold zlen in *; cbn; try done; try lia; auto.
  - assert (Hs : zlen (slice d pos n) = Z.min n (zlen d - pos)).
    { unfold slice, zlen in *. rewrite length_take, length_drop. lia. }
    destruct (Z.ltb_spec (zlen (slice d pos n)) n) as [Hlt|Hge]; cbn.
    + assert (Hend : pos + zlen (slice d pos n) = zlen d) by lia.
      rewrite Hend, zlen_to_nat, drop_all, app_nil_r. repeat split; cbn; try done; try lia; auto.
      unfold slice. rewrite take_ge; [done|]. rewrite length_drop. unfold zlen in *. lia.
    + repeat split; cbn; try done; try lia; auto.
      replace (zlen (slice d pos n)) with n by lia.
      replace (Z.to_nat (pos + n)) with (Z.to_nat pos + Z.to_nat n)%nat by lia.
      rewrite <-drop_drop. unfold slice. by rewrite take_drop.
Qed.

(** Moving back inside what was read restores it. *)
Lemma rollback_ok k r :
  io_ok (rs_bytes r) -> 0 <= k <= io_pos (rs_bytes r) -> zlen (io_data (rs_bytes r)) < 2 ^ 31 ->
  let '(ret, r') := rollback k r in
  ret = 0 /\ io_ok (rs_bytes r') /\ io_data (rs_bytes r') = io_data (rs_bytes r) /\
  io_pos (rs_bytes r') = io_pos (rs_bytes r) - k /\ r' = set_res_bytes (rs_bytes r') r.
Proof.
  intros [Hp Hb He] Hk Hl. unfold rollback.
  destruct (rs_bytes r) as [d pos eof fl] eqn:Hr. cbn [io_data io_pos io_eof io_fail] in *. subst fl.
  destruct eof; unfold io_clear, io_tellg, io_seekg; cbn [io_data io_pos io_eof io_fail];
    rewrite s32_small by lia;
    rewrite (proj2 (Z.leb_le 0 (pos - k))), (proj2 (Z.leb_le (pos - k) (zlen d))) by lia; cbn [andb];
    repeat split; cbn; try done; try lia.
Qed.
