(* ===== verification/ThreadPool.v ===== *)
(** * ThreadPool: the pool of worker threads

    [threadpool.cpp] as a machine of atomic steps, one function per thread: the
    workers in [execute_thread], the callers of [add_task], and the owner of the
    pool with [start] and [destroy_threadpool].  A step runs up to the next point
    where another thread can be seen: taking the mutex, the code under the mutex with
    its release, a signal, a task.  The primitives of pthreads are modelled by what
    they promise: a mutex is taken when it is free, [pthread_cond_wait] releases it
    and joins the waiting threads in one step, a signal wakes one of them if there is
    one, a broadcast all, and a thread may wake up without being signalled. *)
From stdpp Require Import list.
From S2P Require Import Prelude.

Definition STARTED : Z := 0.
Definition STOPPED : Z := 1.

Section pool.
Context {Task : Type}.

(** ** The threads *)

(** Where a worker is: in [ss_start_thread], at the first [lock] of a round, in the
    test of the inner loop (with the mutex), in [wait], woken and taking the mutex
    again, in [task->run()], gone. *)
Inductive worker :=
  | W_entry
  | W_lock
  | W_check
  | W_wait
  | W_woken
  | W_run (t : Task)
  | W_exited.

(** A call of [add_task]: at [lock], with the mutex, at [signal], returned. *)
Inductive adder :=
  | A_lock (t : Task)
  | A_push (t : Task)
  | A_signal
  | A_returned (ret : Z).

(** The owner: between calls (with the result of the last one), in the loop of
    [start], and in [destroy_threadpool] at [lock], with the mutex, at the first
    [broadcast], at the [i]-th [pthread_join] and at the [broadcast] behind it;
    returned; beyond the end of [m_threads]. *)
Inductive owner_pc :=
  | O_idle (ret : Z)
  | O_create (i : Z)
  | O_stop_lock
  | O_stop_set
  | O_broadcast
  | O_join (i : Z)
  | O_rebroadcast (i : Z)
  | O_destroyed (ret : Z)
  | O_fault.

(** Who holds [m_task_mutex]. *)
Inductive thread_id :=
  | T_worker (i : nat)
  | T_adder (j : nat)
  | T_owner.

#[export] Instance thread_id_eq_dec : EqDecision thread_id.
Proof. solve_decision. Defined.

Record ThreadPool := mk_pool {
  m_scb : bool;                  (* a start callback is set *)
  m_pool_size : Z;
  m_task_size_limit : Z;
  m_pool_state : Z;
  m_tasks : list Task;
  m_threads : list worker;
  m_task_mutex : option thread_id;
  tp_adders : list adder;
  tp_owner : owner_pc;
}.

Definition set_m_state v p := mk_pool (m_scb p) (m_pool_size p) (m_task_size_limit p) v (m_tasks p) (m_threads p) (m_task_mutex p) (tp_adders p) (tp_owner p).
Definition set_m_tasks v p := mk_pool (m_scb p) (m_pool_size p) (m_task_size_limit p) (m_pool_state p) v (m_threads p) (m_task_mutex p) (tp_adders p) (tp_owner p).
Definition set_m_threads v p := mk_pool (m_scb p) (m_pool_size p) (m_task_size_limit p) (m_pool_state p) (m_tasks p) v (m_task_mutex p) (tp_adders p) (tp_owner p).
Definition set_m_mutex v p := mk_pool (m_scb p) (m_pool_size p) (m_task_size_limit p) (m_pool_state p) (m_tasks p) (m_threads p) v (tp_adders p) (tp_owner p).
Definition set_adders v p := mk_pool (m_scb p) (m_pool_size p) (m_task_size_limit p) (m_pool_state p) (m_tasks p) (m_threads p) (m_task_mutex p) v (tp_owner p).
Definition set_owner v p := mk_pool (m_scb p) (m_pool_size p) (m_task_size_limit p) (m_pool_state p) (m_tasks p) (m_threads p) (m_task_mutex p) (tp_adders p) v.

Definition worker_at (i : nat) (w : worker) (p : ThreadPool) : ThreadPool := set_m_threads (<[i := w]> (m_threads p)) p.
Definition adder_at (j : nat) (a : adder) (p : ThreadPool) : ThreadPool := set_adders (<[j := a]> (tp_adders p)) p.

(** [ThreadPool::ThreadPool], with the settings of [set_pool_size],
    [set_task_size_limit] and [set_thread_start_cb]. *)
Definition ThreadPool_new (scb : bool) (pool_size task_size_limit : Z) : ThreadPool :=
  mk_pool scb pool_size task_size_limit (-1) [] [] None [] (O_idle 0).

(** [Mutex::lock]: blocked while somebody holds it. *)
Definition lock (me : thread_id) (p : ThreadPool) : option ThreadPool :=
  match m_task_mutex p with
  | None => Some (set_m_mutex (Some me) p)
  | Some _ => None
  end.
Definition unlock (p : ThreadPool) : ThreadPool := set_m_mutex None p.

Definition waits (w : worker) : bool := match w with W_wait => true | _ => false end.
Definition wake (w : worker) : worker := match w with W_wait => W_woken | _ => w end.

(** [CondVar::broadcast] *)
Definition broadcast (p : ThreadPool) : ThreadPool := set_m_threads (wake <$> m_threads p) p.

(** What an observer of the tasks sees of a step. *)
Inductive label :=
  | L_tau
  | L_start_cb (i : nat)
  | L_add (t : Task)
  | L_reject (t : Task)
  | L_take (t : Task)
  | L_done (t : Task).

(** *** ss_start_thread and execute_thread *)

Definition worker_step (i : nat) (p : ThreadPool) : option (label * ThreadPool) :=
  match m_threads p !! i with
  | Some W_entry => Some (if m_scb p then L_start_cb i else L_tau, worker_at i W_lock p)
  | Some W_lock | Some W_woken => p' ← lock (T_worker i) p; Some (L_tau, worker_at i W_check p')
  | Some W_check =>
      if negb (m_pool_state p =? STOPPED) && bool_decide (length (m_tasks p) = 0%nat)
      then Some (L_tau, worker_at i W_wait (unlock p))
      else if m_pool_state p =? STOPPED then Some (L_tau, worker_at i W_exited (unlock p))
      else match m_tasks p with
           | task :: rest => Some (L_take task, worker_at i (W_run task) (unlock (set_m_tasks rest p)))
           | [] => None
           end
  | Some (W_run t) => Some (L_done t, worker_at i W_lock p)
  | Some W_wait | Some W_exited | None => None
  end.

(** *** add_task

    [k] is the thread that the signal wakes. *)
Definition adder_step (j k : nat) (p : ThreadPool) : option (label * ThreadPool) :=
  match tp_adders p !! j with
  | Some (A_lock t) => p' ← lock (T_adder j) p; Some (L_tau, adder_at j (A_push t) p')
  | Some (A_push t) =>
      if (0 <? m_task_size_limit p) && (m_task_size_limit p <? s32 (zlen (m_tasks p)))
      then Some (L_reject t, adder_at j (A_returned (-1)) (unlock p))
      else Some (L_add t, adder_at j A_signal (unlock (set_m_tasks (m_tasks p ++ [t]) p)))
  | Some A_signal =>
      match m_threads p !! k with
      | Some W_wait => Some (L_tau, adder_at j (A_returned 0) (worker_at k W_woken p))
      | _ => if existsb waits (m_threads p) then None else Some (L_tau, adder_at j (A_returned 0) p)
      end
  | Some (A_returned _) | None => None
  end.

(** *** start and destroy_threadpool

    [created] is the answer of [pthread_create]. *)
Definition owner_step (created : bool) (p : ThreadPool) : option (label * ThreadPool) :=
  match tp_owner p with
  | O_create i =>
      Some (L_tau,
        if i <? m_pool_size p then
          if created then set_owner (O_create (i + 1)) (set_m_threads (m_threads p ++ [W_entry]) p)
          else set_owner (O_idle (-1)) p
        else set_owner (O_idle 0) p)
  | O_stop_lock => p' ← lock T_owner p; Some (L_tau, set_owner O_stop_set p')
  | O_stop_set => Some (L_tau, set_owner O_broadcast (unlock (set_m_state STOPPED p)))
  | O_broadcast => Some (L_tau, set_owner (O_join 0) (broadcast p))
  | O_join i =>
      if i <? m_pool_size p then
        match m_threads p !! Z.to_nat i with
        | None => Some (L_tau, set_owner O_fault p)
        | Some W_exited => Some (L_tau, set_owner (O_rebroadcast i) p)
        | Some _ => None
        end
      else Some (L_tau, set_owner (O_destroyed 0) p)
  | O_rebroadcast i => Some (L_tau, set_owner (O_join (i + 1)) (broadcast p))
  | O_idle _ | O_destroyed _ | O_fault => None
  end.

(** The calls: [add_task] by a new thread of control, [start] and
    [destroy_threadpool] by the owner. *)
Definition call_add_task (t : Task) (p : ThreadPool) : ThreadPool := set_adders (tp_adders p ++ [A_lock t]) p.

Definition call_start (p : ThreadPool) : option ThreadPool :=
  match tp_owner p with
  | O_idle _ =>
      Some (if m_pool_size p =? 0 then set_owner (O_idle (-1)) p
            else if m_pool_state p =? STARTED then set_owner (O_idle 0) p
            else set_owner (O_create 0) (set_m_state STARTED p))
  | _ => None
  end.

Definition call_destroy (p : ThreadPool) : option ThreadPool :=
  match tp_owner p with O_idle _ => Some (set_owner O_stop_lock p) | _ => None end.

(** ** Executions *)

(** A step of the threads themselves. *)
Inductive internal : ThreadPool -> label -> ThreadPool -> Prop :=
  | int_worker i l p p' : worker_step i p = Some (l, p') -> internal p l p'
  | int_adder j k l p p' : adder_step j k p = Some (l, p') -> internal p l p'
  | int_owner created l p p' : owner_step created p = Some (l, p') -> internal p l p'.

(** Any step: also new calls and wake-ups without a signal. *)
Inductive step : ThreadPool -> label -> ThreadPool -> Prop :=
  | step_internal l p p' : internal p l p' -> step p l p'
  | step_spurious i p : m_threads p !! i = Some W_wait -> step p L_tau (worker_at i W_woken p)
  | step_add t p : step p L_tau (call_add_task t p)
  | step_start p p' : call_start p = Some p' -> step p L_tau p'
  | step_destroy p p' : call_destroy p = Some p' -> step p L_tau p'.

(** What can be reached from [p0], with the labels on the way, oldest first. *)
Inductive run (p0 : ThreadPool) : list label -> ThreadPool -> Prop :=
  | run_start : run p0 [] p0
  | run_step tr l p p' : run p0 tr p -> step p l p' -> run p0 (tr ++ [l]) p'.

(** The same as a function of a schedule. *)
Inductive action :=
  | Act_worker (i : nat)
  | Act_adder (j k : nat)
  | Act_owner (created : bool)
  | Act_spurious (i : nat)
  | Act_add (t : Task)
  | Act_start
  | Act_destroy.

Definition act (a : action) (p : ThreadPool) : option (label * ThreadPool) :=
  match a with
  | Act_worker i => worker_step i p
  | Act_adder j k => adder_step j k p
  | Act_owner created => owner_step created p
  | Act_spurious i => match m_threads p !! i with Some W_wait => Some (L_tau, worker_at i W_woken p) | _ => None end
  | Act_add t => Some (L_tau, call_add_task t p)
  | Act_start => pair L_tau <$> call_start p
  | Act_destroy => pair L_tau <$> call_destroy p
  end.

Fixpoint schedule (acts : list action) (p : ThreadPool) : option (list label * ThreadPool) :=
  match acts with
  | [] => Some ([], p)
  | a :: acts' =>
      '(l, p') ← act a p;
      '(tr, p'') ← schedule acts' p';
      Some (l :: tr, p'')
  end.

Lemma act_step a p l p' : act a p = Some (l, p') -> step p l p'.
Proof.
  destruct a; cbn; intros H.
  - by eapply step_internal, int_worker.
  - by eapply step_internal, int_adder.
  - by eapply step_internal, int_owner.
  - destruct (m_threads p !! i) as [[]|] eqn:E; simplify_eq. by apply step_spurious.
  - simplify_eq. apply step_add.
  - destruct (call_start p) eqn:E; simplify_eq/=. by apply step_start.
  - destruct (call_destroy p) eqn:E; simplify_eq/=. by apply step_destroy.
Qed.

Lemma run_app p0 tr p tr' p' : run p0 tr p -> run p tr' p' -> run p0 (tr ++ tr') p'.
Proof.
  intros H. induction 1 as [|tr' l p1 p2 _ IH Hst]; [by rewrite app_nil_r|].
  rewrite app_assoc. by eapply run_step.
Qed.

Lemma schedule_run acts : forall p tr p', schedule acts p = Some (tr, p') -> run p tr p'.
Proof.
  induction acts as [|a acts IH]; intros p tr p'; cbn; [intros [= <- <-]; constructor|].
  destruct (act a p) as [[l q]|] eqn:Ha; cbn; [|done].
  destruct (schedule acts q) as [[tr' q']|] eqn:Hs; cbn; [|done]. intros [= <- <-].
  apply (run_app p [l] q); [|by apply IH].
  apply (run_step p [] l p q); [constructor|]. by eapply act_step.
Qed.

End pool.

Arguments action : clear implicits.
Arguments worker : clear implicits.
Arguments adder : clear implicits.
Arguments label : clear implicits.
Arguments ThreadPool : clear implicits.
