(* ===== verification/ThreadPoolProps.v ===== *)
(** * ThreadPoolProps: what the pool promises

    Every accepted task is run once and in order, the queue respects its limit, no
    wake-up is lost, and a pool that is stopped ends all its threads. *)
From stdpp Require Import list sorting.
From S2P Require Import Prelude ThreadPool.

(** ** The abstract queue

    What a client of the pool relies on: accepted tasks wait in order, each is taken
    by some worker, and is over some time later. *)
Section queue.
Context {Task : Type}.

Record queue := mk_queue {
  q_waiting : list Task;
  q_running : list Task;
}.

(** The running tasks have no order. *)
#[export] Instance queue_equiv : Equiv queue := fun q q' =>
  q_waiting q = q_waiting q' /\ q_running q ≡ₚ q_running q'.

#[export] Instance queue_equivalence : Equivalence (≡@{queue}).
Proof.
  split.
  - intros q. by split.
  - intros q q' [? ?]. by split.
  - intros q1 q2 q3 [E ?] [E' ?]. split; [congruence|]. by etransitivity.
Qed.

Inductive queue_step : queue -> label Task -> queue -> Prop :=
  | q_add ws rs t : queue_step (mk_queue ws rs) (L_add t) (mk_queue (ws ++ [t]) rs)
  | q_take ws rs t : queue_step (mk_queue (t :: ws) rs) (L_take t) (mk_queue ws (t :: rs))
  | q_done ws rs t : queue_step (mk_queue ws (t :: rs)) (L_done t) (mk_queue ws rs)
  | q_silent q l : match l with L_tau | L_start_cb _ | L_reject _ => True | _ => False end -> queue_step q l q
  | q_equiv q1 q1' l q2 q2' : q1 ≡ q1' -> q2 ≡ q2' -> queue_step q1' l q2' -> queue_step q1 l q2.

Inductive queue_run : list (label Task) -> queue -> Prop :=
  | qr_start : queue_run [] (mk_queue [] [])
  | qr_step tr l q q' : queue_run tr q -> queue_step q l q' -> queue_run (tr ++ [l]) q'.

(** The tasks accepted, taken and finished in a trace, oldest first. *)
Definition adds (tr : list (label Task)) : list Task :=
  omap (fun l => match l with L_add t => Some t | _ => None end) tr.
Definition takes (tr : list (label Task)) : list Task :=
  omap (fun l => match l with L_take t => Some t | _ => None end) tr.
Definition dones (tr : list (label Task)) : list Task :=
  omap (fun l => match l with L_done t => Some t | _ => None end) tr.

Lemma queue_step_accounts q l q' :
  queue_step q l q' ->
  takes [l] ++ q_waiting q' = q_waiting q ++ adds [l] /\
  dones [l] ++ q_running q' ≡ₚ takes [l] ++ q_running q.
Proof.
  induction 1 as [ws rs t|ws rs t|ws rs t|q l Hl|q1 q1' l q2 q2' [E1 E1'] [E2 E2'] _ [IH1 IH2]]; cbn.
  - by rewrite ?app_nil_r.
  - by rewrite ?app_nil_r.
  - by rewrite ?app_nil_r.
  - destruct l; cbn; try done; by rewrite ?app_nil_r.
  - rewrite E1, E2, E1', E2'. done.
Qed.

Lemma queue_run_accounts tr q :
  queue_run tr q -> adds tr = takes tr ++ q_waiting q /\ takes tr ≡ₚ dones tr ++ q_running q.
Proof.
  induction 1 as [|tr l q q' _ [IH1 IH2] Hst]; [done|].
  destruct (queue_step_accounts _ _ _ Hst) as [H1 H2].
  unfold adds, takes, dones in *. rewrite !omap_app, IH1, <-!app_assoc, H1. split; [done|].
  rewrite IH2, H2, <-app_assoc. apply Permutation_app_head. by rewrite Permutation_app_comm.
Qed.

End queue.
Arguments queue : clear implicits.

(** ** The pool implements the queue *)
Section refinement.
Context {Task : Type}.

Definition task_of (w : worker Task) : option Task := match w with W_run t => Some t | _ => None end.

Definition running (ws : list (worker Task)) : list Task := omap task_of ws.

Definition queue_of (p : ThreadPool Task) : queue Task := mk_queue (m_tasks p) (running (m_threads p)).

Lemma running_insert ws i w w' :
  ws !! i = Some w ->
  option_list (task_of w) ++ running (<[i := w']> ws) ≡ₚ option_list (task_of w') ++ running ws.
Proof.
  intros Hw. assert (Hi : (i < length ws)%nat) by (by eapply lookup_lt_Some).
  rewrite insert_take_drop by done. rewrite <-(take_drop_middle ws i w Hw) at 3.
  unfold running. rewrite !omap_app. cbn.
  destruct (task_of w), (task_of w'); cbn; solve_Permutation.
Qed.

Lemma running_wake ws : running (wake <$> ws) = running ws.
Proof. unfold running. induction ws as [|[] ws IH]; cbn; by rewrite ?IH. Qed.

Lemma silent_same q q' l :
  match l with L_tau | L_start_cb _ | L_reject _ => True | _ => False end ->
  q ≡ q' -> @queue_step Task q l q'.
Proof. intros Hl E. eapply q_equiv; [exact E|reflexivity|by apply q_silent]. Qed.

(** A worker that moves between two points where it runs no task. *)
Lemma running_idle ws i w w' :
  ws !! i = Some w -> task_of w = None -> task_of w' = None -> running (<[i := w']> ws) ≡ₚ running ws.
Proof. intros Hw E E'. pose proof (running_insert ws i w w' Hw) as H. by rewrite E, E' in H. Qed.

Lemma worker_refines i l p p' :
  worker_step i p = Some (l, p') -> queue_step (queue_of p) l (queue_of p').
Proof.
  unfold worker_step, lock. destruct (m_threads p !! i) as [w|] eqn:Hw; [|done].
  assert (Hidle : forall w', task_of w = None -> task_of w' = None ->
    queue_of p ≡ mk_queue (m_tasks p) (running (<[i := w']> (m_threads p)))).
  { intros w' E E'. split; [done|]. symmetry. by eapply running_idle. }
  destruct w; try done.
  - intros [= <- <-]. apply silent_same; [by destruct (m_scb p)|by apply Hidle].
  - destruct (m_task_mutex p); [done|]. intros [= <- <-]. apply silent_same; [done|by apply Hidle].
  - destruct (_ && _); [|destruct (_ =? _)].
    1,2: intros [= <- <-]; apply silent_same; [done|by apply Hidle].
    destruct (m_tasks p) as [|task rest] eqn:Ht; [done|]. intros [= <- <-].
    unfold queue_of at 1. rewrite Ht. eapply q_equiv; [done| |apply q_take]. split; [done|].
    by apply (running_insert (m_threads p) i W_check (W_run task)).
  - destruct (m_task_mutex p); [done|]. intros [= <- <-]. apply silent_same; [done|by apply Hidle].
  - intros [= <- <-]. eapply q_equiv; [|done|apply (q_done (m_tasks p) (running (<[i := W_lock]> (m_threads p))) t)].
    split; [done|]. symmetry. by apply (running_insert (m_threads p) i (W_run t) W_lock).
Qed.

Lemma adder_refines j k l p p' :
  adder_step j k p = Some (l, p') -> queue_step (queue_of p) l (queue_of p').
Proof.
  unfold adder_step, lock. destruct (tp_adders p !! j) as [a|]; [|done]. destruct a; try done.
  - destruct (m_task_mutex p); [done|]. intros [= <- <-]. by apply q_silent.
  - destruct (_ && _); intros [= <- <-]; [by apply q_silent|]. apply q_add.
  - destruct (m_threads p !! k) as [w|] eqn:Hk.
    + destruct w; try (destruct (existsb _ _); [done|]); intros [= <- <-]; try by apply q_silent.
      apply silent_same; [done|]. split; [done|]. symmetry. by eapply running_idle.
    + destruct (existsb _ _); [done|]. intros [= <- <-]. by apply q_silent.
Qed.

Lemma owner_refines created l p p' :
  owner_step created p = Some (l, p') -> queue_step (queue_of p) l (queue_of p').
Proof.
  assert (Hb : forall v, queue_of p ≡ queue_of (set_owner v (broadcast p))).
  { intros v. split; [done|]. cbn. by rewrite running_wake. }
  unfold owner_step, lock. destruct (tp_owner p); try done.
  - destruct (_ <? _); [destruct created|]; intros [= <- <-]; try by apply q_silent.
    apply silent_same; [done|]. split; [done|]. cbn. unfold running. by rewrite omap_app, app_nil_r.
  - destruct (m_task_mutex p); [done|]. intros [= <- <-]. by apply q_silent.
  - intros [= <- <-]. by apply q_silent.
  - intros [= <- <-]. by apply silent_same.
  - destruct (_ <? _); [destruct (_ !! _) as [[]|]|]; intros [= <- <-]; by apply q_silent.
  - intros [= <- <-]. by apply silent_same.
Qed.

Lemma step_refines p l p' : step p l p' -> queue_step (queue_of p) l (queue_of p').
Proof.
  destruct 1 as [l p p' Hi|i p Hw|t p|p p' Hc|p p' Hc].
  - destruct Hi; eauto using worker_refines, adder_refines, owner_refines.
  - apply silent_same; [done|]. split; [done|]. symmetry. by eapply running_idle.
  - by apply q_silent.
  - unfold call_start in Hc. repeat case_match; simplify_eq; by apply q_silent.
  - unfold call_destroy in Hc. repeat case_match; simplify_eq; by apply q_silent.
Qed.

Lemma run_refines scb size limit tr p :
  run (ThreadPool_new scb size limit) tr p -> queue_run tr (queue_of p).
Proof.
  induction 1 as [|tr l p p' _ IH Hst]; [apply qr_start|]. eapply qr_step; [done|]. by apply step_refines.
Qed.

End refinement.

(** ** Mutual exclusion *)
Section mutex.
Context {Task : Type}.
Implicit Types p : ThreadPool Task.

(** The threads that are between a [lock] and its [unlock]. *)
Definition holding p (me : thread_id) : bool :=
  match me with
  | T_worker i => match m_threads p !! i with Some W_check => true | _ => false end
  | T_adder j => match tp_adders p !! j with Some (A_push _) => true | _ => false end
  | T_owner => match tp_owner p with O_stop_set => true | _ => false end
  end.

Definition mutex_ok p : Prop := forall me, holding p me = true <-> m_task_mutex p = Some me.

(** [me] moves, the others stay where they are. *)
Definition moves (me : thread_id) (b : bool) p p' : Prop :=
  forall x, holding p' x = if bool_decide (x = me) then b else holding p x.

Lemma moves_same me p p' :
  mutex_ok p -> moves me (holding p me) p p' -> m_task_mutex p' = m_task_mutex p -> mutex_ok p'.
Proof. unfold mutex_ok, moves. intros Hok Hm E x. rewrite Hm, E, <-Hok. case_bool_decide; by subst. Qed.

Lemma moves_lock me p p' :
  mutex_ok p -> m_task_mutex p = None -> moves me true p p' -> m_task_mutex p' = Some me -> mutex_ok p'.
Proof.
  unfold mutex_ok, moves. intros Hok Hn Hm E x. rewrite Hm, E. case_bool_decide as Hx; [by subst|].
  rewrite Hok, Hn. split; [done|]. intros [=]. by subst.
Qed.

Lemma moves_unlock me p p' :
  mutex_ok p -> holding p me = true -> moves me false p p' -> m_task_mutex p' = None -> mutex_ok p'.
Proof.
  unfold mutex_ok, moves. intros Hok Hh Hm E x. rewrite Hm, E. case_bool_decide as Hx; [done|].
  apply Hok in Hh. rewrite Hok, Hh. split; [|done]. intros [=]. by subst.
Qed.

Definition checks (w : worker Task) : bool := match w with W_check => true | _ => false end.
Definition pushes (a : adder Task) : bool := match a with A_push _ => true | _ => false end.
Definition sets (o : owner_pc) : bool := match o with O_stop_set => true | _ => false end.

Lemma moves_worker i w w' p p' :
  m_threads p !! i = Some w -> m_threads p' = <[i := w']> (m_threads p) -> tp_adders p' = tp_adders p ->
  tp_owner p' = tp_owner p -> moves (T_worker i) (checks w') p p'.
Proof.
  intros Hw Ht Ha Ho x. unfold holding. rewrite Ht, Ha, Ho. destruct x as [k|k|]; [|by rewrite bool_decide_false..].
  case_bool_decide as E.
  - injection E as ->. rewrite list_lookup_insert_eq by (by eapply lookup_lt_Some). by destruct w'.
  - rewrite list_lookup_insert_ne by congruence. done.
Qed.

Lemma moves_adder j a a' p p' :
  tp_adders p !! j = Some a -> tp_adders p' = <[j := a']> (tp_adders p) ->
  (forall i, (checks <$> m_threads p' !! i) = (checks <$> m_threads p !! i)) ->
  tp_owner p' = tp_owner p -> moves (T_adder j) (pushes a') p p'.
Proof.
  intros Hw Ht Ha Ho x. unfold holding. rewrite Ht, Ho. destruct x as [k|k|]; [rewrite bool_decide_false by done| |by rewrite bool_decide_false].
  - specialize (Ha k). destruct (m_threads p' !! k) as [[]|], (m_threads p !! k) as [[]|]; by cbn in *; simplify_eq.
  - case_bool_decide as E.
    + injection E as ->. rewrite list_lookup_insert_eq by (by eapply lookup_lt_Some). by destruct a'.
    + rewrite list_lookup_insert_ne by congruence. done.
Qed.

Lemma moves_owner p p' :
  tp_adders p' = tp_adders p ->
  (forall i w, m_threads p' !! i = Some w -> checks w = true -> m_threads p !! i = Some w) ->
  (forall i w, m_threads p !! i = Some w -> checks w = true -> m_threads p' !! i = Some w) ->
  moves T_owner (sets (tp_owner p')) p p'.
Proof.
  intros Ha H1 H2 x. unfold holding. rewrite Ha. destruct x as [k|k|]; [rewrite bool_decide_false by done|by rewrite bool_decide_false|].
  - destruct (m_threads p' !! k) as [[]|] eqn:E1, (m_threads p !! k) as [[]|] eqn:E2; try done;
      first [apply H1 in E1; [congruence|done]|apply H2 in E2; [congruence|done]].
  - rewrite bool_decide_true by done. by destruct (tp_owner p').
Qed.

Lemma mutex_worker i l p p' : mutex_ok p -> worker_step i p = Some (l, p') -> mutex_ok p'.
Proof.
  intros Hok. unfold worker_step, lock. destruct (m_threads p !! i) as [w|] eqn:Hw; [|done].
  assert (Hh : holding p (T_worker i) = checks w) by (cbn; rewrite Hw; by destruct w).
  assert (Hmv : forall w' q, m_threads q = <[i := w']> (m_threads p) -> tp_adders q = tp_adders p ->
    tp_owner q = tp_owner p -> moves (T_worker i) (checks w') p q) by (intros; by eapply moves_worker).
  destruct w; cbn [checks] in Hh; try done.
  - intros [= <- <-]. eapply (moves_same (T_worker i)); [done| |done]. rewrite Hh. by apply (Hmv W_lock).
  - destruct (m_task_mutex p) eqn:E; [done|]. intros [= <- <-].
    eapply (moves_lock (T_worker i)); [done|done|by apply (Hmv W_check)|done].
  - destruct (_ && _); [|destruct (_ =? _); [|destruct (m_tasks p)]]; try done; intros [= <- <-];
      eapply (moves_unlock (T_worker i)); try done;
      first [by apply (Hmv W_wait)|by apply (Hmv W_exited)|by apply (Hmv (W_run t))].
  - destruct (m_task_mutex p) eqn:E; [done|]. intros [= <- <-].
    eapply (moves_lock (T_worker i)); [done|done|by apply (Hmv W_check)|done].
  - intros [= <- <-]. eapply (moves_same (T_worker i)); [done| |done]. rewrite Hh. by apply (Hmv W_lock).
Qed.

Lemma mutex_adder j k l p p' : mutex_ok p -> adder_step j k p = Some (l, p') -> mutex_ok p'.
Proof.
  intros Hok. unfold adder_step, lock. destruct (tp_adders p !! j) as [a|] eqn:Hj; [|done].
  assert (Hh : holding p (T_adder j) = pushes a) by (cbn; rewrite Hj; by destruct a).
  assert (Hmv : forall a' q, tp_adders q = <[j := a']> (tp_adders p) -> m_threads q = m_threads p ->
    tp_owner q = tp_owner p -> moves (T_adder j) (pushes a') p q).
  { intros a' q ? E ?. eapply moves_adder; [done|done| |done]. intros i. by rewrite E. }
  destruct a; cbn [pushes] in Hh; try done.
  - destruct (m_task_mutex p) eqn:E; [done|]. intros [= <- <-].
    eapply (moves_lock (T_adder j)); [done|done|by apply (Hmv (A_push t))|done].
  - destruct (_ && _); intros [= <- <-]; eapply (moves_unlock (T_adder j)); try done;
      first [by apply (Hmv (A_returned (-1)))|by apply (Hmv A_signal)].
  - destruct (m_threads p !! k) as [w|] eqn:Hk; [destruct w|];
      try (destruct (existsb _ _); [done|]); intros [= <- <-];
      eapply (moves_same (T_adder j)); try done; rewrite Hh; try by apply (Hmv (A_returned 0)).
    eapply (moves_adder j A_signal (A_returned 0)); try done. intros i. cbn.
    destruct (decide (i = k)) as [->|Hne]; [|by rewrite list_lookup_insert_ne].
    by rewrite list_lookup_insert_eq, Hk by (by eapply lookup_lt_Some).
Qed.

Lemma wake_lookup (ws : list (worker Task)) i w :
  (wake <$> ws) !! i = Some w -> checks w = true -> ws !! i = Some w.
Proof. rewrite list_lookup_fmap. destruct (ws !! i) as [[]|]; cbn; naive_solver. Qed.

Lemma lookup_wake (ws : list (worker Task)) i w :
  ws !! i = Some w -> checks w = true -> (wake <$> ws) !! i = Some w.
Proof. rewrite list_lookup_fmap. intros ->. by destruct w. Qed.

Lemma mutex_owner created l p p' : mutex_ok p -> owner_step created p = Some (l, p') -> mutex_ok p'.
Proof.
  intros Hok. unfold owner_step, lock.
  assert (Hh : holding p T_owner = sets (tp_owner p)) by done.
  assert (Hmv : forall q, tp_adders q = tp_adders p ->
    (m_threads q = m_threads p \/ m_threads q = m_threads p ++ [W_entry] \/ m_threads q = wake <$> m_threads p) ->
    moves T_owner (sets (tp_owner q)) p q).
  { intros q ? Ht. apply moves_owner; [done|..]; intros i w Hi Hc; destruct Ht as [E|[E|E]]; rewrite E in *; try done.
    - apply lookup_app_Some in Hi as [?|[_ Hi]]; [done|].
      apply list_lookup_singleton_Some in Hi as [_ <-]. done.
    - by apply wake_lookup.
    - by apply lookup_app_l_Some.
    - by apply lookup_wake. }
  assert (Hsame : forall q, sets (tp_owner p) = false -> sets (tp_owner q) = false -> m_task_mutex q = m_task_mutex p ->
    moves T_owner (sets (tp_owner q)) p q -> mutex_ok q).
  { intros q E1 E2 Em Hq. eapply (moves_same T_owner); [done| |done]. by rewrite Hh, E1, <-E2. }
  destruct (tp_owner p) eqn:Eo; try done.
  - destruct (_ <? _); [destruct created|]; intros [= <- <-]; apply Hsame; try done; apply Hmv; cbn; auto.
  - destruct (m_task_mutex p) eqn:E; [done|]. intros [= <- <-].
    eapply (moves_lock T_owner); [done|done|apply (Hmv (set_owner O_stop_set (set_m_mutex (Some T_owner) p))); cbn; auto|done].
  - intros [= <- <-]. eapply (moves_unlock T_owner); [done|done| |done].
    apply (Hmv (set_owner O_broadcast (unlock (set_m_state STOPPED p)))); cbn; auto.
  - intros [= <- <-]. apply Hsame; try done. apply Hmv; cbn; auto.
  - destruct (_ <? _); [destruct (_ !! _) as [[]|]|]; intros [= <- <-]; apply Hsame; try done; apply Hmv; cbn; auto.
  - intros [= <- <-]. apply Hsame; try done. apply Hmv; cbn; auto.
Qed.

Lemma mutex_step p l p' : mutex_ok p -> step p l p' -> mutex_ok p'.
Proof.
  intros Hok Hst. destruct Hst as [l p p' Hi|i p Hw|t p|p p' Hc|p p' Hc].
  - destruct Hi; eauto using mutex_worker, mutex_adder, mutex_owner.
  - eapply (moves_same (T_worker i)); [done| |done]. cbn. rewrite Hw.
    by apply (moves_worker i W_wait W_woken).
  - unfold mutex_ok in *. intros x. destruct x as [i|j|]; [by apply (Hok (T_worker i))| |by apply (Hok T_owner)].
    rewrite <-(Hok (T_adder j)). cbn.
    destruct (decide (j < length (tp_adders p))%nat) as [Hj|Hj]; [by rewrite lookup_app_l|].
    rewrite (lookup_ge_None_2 (tp_adders p)) by lia.
    destruct ((tp_adders p ++ _) !! j) as [a|] eqn:E; [|done].
    apply lookup_app_Some in E as [E|[_ E]]; [apply lookup_lt_Some in E; lia|].
    by apply list_lookup_singleton_Some in E as [_ <-].
  - unfold call_start in Hc. destruct (tp_owner p) eqn:Eo; try done. injection Hc as <-.
    intros x. specialize (Hok x). repeat case_match; destruct x; cbn in *; by rewrite ?Eo in Hok.
  - unfold call_destroy in Hc. destruct (tp_owner p) eqn:Eo; try done. injection Hc as <-.
    intros x. specialize (Hok x). destruct x; cbn in *; by rewrite ?Eo in Hok.
Qed.

Lemma mutex_new scb size limit : mutex_ok (ThreadPool_new scb size limit).
Proof. by intros []. Qed.

End mutex.

(** ** The life of the pool *)
Section life.
Context {Task : Type}.
Implicit Types p : ThreadPool Task.

Definition awake (w : worker Task) : Prop := waits w = false.

(** The first [i] threads are gone. *)
Definition exited_below (ws : list (worker Task)) (i : Z) : Prop :=
  forall k, (k < Z.to_nat i)%nat -> ws !! k = Some W_exited.

Definition owner_ok p : Prop :=
  match tp_owner p with
  | O_idle _ | O_stop_lock | O_stop_set => m_pool_state p <> STOPPED
  | O_create i => m_pool_state p = STARTED /\ zlen (m_threads p) = i
  | O_broadcast => m_pool_state p = STOPPED
  | O_join i => m_pool_state p = STOPPED /\ Forall awake (m_threads p) /\ 0 <= i /\ exited_below (m_threads p) i
  | O_rebroadcast i =>
      m_pool_state p = STOPPED /\ Forall awake (m_threads p) /\ 0 <= i /\ exited_below (m_threads p) (i + 1)
  | O_destroyed _ => m_pool_state p = STOPPED /\ exited_below (m_threads p) (m_pool_size p)
  | O_fault => m_pool_state p = STOPPED /\ Forall awake (m_threads p) /\ zlen (m_threads p) < m_pool_size p
  end.

Record life_ok p : Prop := {
  lf_exit : forall i, m_threads p !! i = Some W_exited -> m_pool_state p = STOPPED;
  lf_new : m_pool_state p <> STARTED -> m_pool_state p <> STOPPED -> m_threads p = [];
  lf_size : zlen (m_threads p) <= Z.max 0 (m_pool_size p);
  lf_owner : owner_ok p;
  lf_wake : m_pool_state p <> STOPPED -> m_tasks p <> [] -> m_threads p <> [] ->
    (exists i w, m_threads p !! i = Some w /\ awake w) \/ (exists j, tp_adders p !! j = Some A_signal);
}.

Lemma zlen_insert_gen {A} (l : list A) i x : zlen (<[i := x]> l) = zlen l.
Proof. unfold zlen. by rewrite length_insert. Qed.

Lemma exited_insert ws i w w' n :
  exited_below ws n -> ws !! i = Some w -> w <> W_exited -> exited_below (<[i := w']> ws) n.
Proof.
  intros He Hw Hne k Hk. specialize (He k Hk). rewrite list_lookup_insert_ne; [done|]. intros <-. congruence.
Qed.

(** The owner's part is not touched by a worker that goes on. *)
Lemma owner_ok_worker p i w w' :
  owner_ok p -> m_threads p !! i = Some w -> w <> W_exited -> (awake w' \/ m_pool_state p <> STOPPED) ->
  owner_ok (worker_at i w' p).
Proof.
  intros Ho Hw Hne Hw'. unfold owner_ok in *. cbn. rewrite zlen_insert_gen.
  destruct (tp_owner p); try done; destruct Hw' as [Hw'|Hw']; destruct_and?; try done;
    repeat split; try done; first [by apply Forall_insert|by eapply exited_insert].
Qed.

Lemma life_worker_at p i w w' :
  life_ok p -> m_threads p !! i = Some w -> w <> W_exited ->
  (awake w' \/ m_pool_state p <> STOPPED) -> (w' = W_exited -> m_pool_state p = STOPPED) ->
  (awake w' \/ m_tasks p = []) -> life_ok (worker_at i w' p).
Proof.
  intros [H1 H2 H3 H4 H5] Hw Hne Ha He Ht. assert (Hi : (i < length (m_threads p))%nat) by (by eapply lookup_lt_Some).
  constructor; cbn; rewrite ?zlen_insert_gen; try done.
  - intros k Hk. destruct (decide (k = i)) as [->|Hki].
    + rewrite list_lookup_insert_eq in Hk by done. injection Hk as ->. auto.
    + rewrite list_lookup_insert_ne in Hk by done. by eapply H1.
  - intros Hs Hs'. rewrite H2 in Hi by done. simpl in Hi. lia.
  - by eapply owner_ok_worker.
  - intros _ Htn _. destruct Ht as [Ht|?]; [|done]. left. exists i, w'. by rewrite list_lookup_insert_eq.
Qed.

(** Fields that [life_ok] does not look at, or looks at in one place only. *)
Lemma life_set_mutex v p : life_ok p -> life_ok (set_m_mutex v p).
Proof. by intros [H1 H2 H3 H4 H5]. Qed.

Lemma life_set_tasks v p :
  life_ok p -> (v <> [] -> m_threads p <> [] -> (exists i w, m_threads p !! i = Some w /\ awake w) \/
    (exists j, tp_adders p !! j = Some A_signal)) -> life_ok (set_m_tasks v p).
Proof. intros [H1 H2 H3 H4 H5] Hv. constructor; auto. Qed.

Lemma life_worker i l p p' : life_ok p -> worker_step i p = Some (l, p') -> life_ok p'.
Proof.
  intros Hok. unfold worker_step, lock. destruct (m_threads p !! i) as [w|] eqn:Hw; [|done].
  assert (Hgo : forall q w', life_ok q -> m_threads q = m_threads p -> w <> W_exited ->
    awake w' -> w' <> W_exited -> life_ok (worker_at i w' q)).
  { intros q w' Hq E ? ? ?. eapply (life_worker_at q i w); rewrite ?E; auto. by intros ?. }
  destruct w; try done.
  - intros [= <- <-]. by apply Hgo.
  - destruct (m_task_mutex p); [done|]. intros [= <- <-]. apply Hgo; try done. by apply life_set_mutex.
  - destruct (Z.eqb_spec (m_pool_state p) STOPPED) as [Hs|Hs]; cbn [negb andb].
    + intros [= <- <-]. eapply life_worker_at; [by apply life_set_mutex|done|done|by left|done|by left].
    + case_bool_decide as Ht.
      * intros [= <- <-]. eapply life_worker_at; [by apply life_set_mutex|done|done|by right|done|].
        right. by apply nil_length_inv.
      * destruct (m_tasks p) as [|task rest] eqn:E; [done|]. intros [= <- <-].
        apply Hgo; try done. apply life_set_mutex, life_set_tasks; [done|].
        intros _ _. left. by exists i, W_check.
  - destruct (m_task_mutex p); [done|]. intros [= <- <-]. apply Hgo; try done. by apply life_set_mutex.
  - intros [= <- <-]. by apply Hgo.
Qed.

Lemma existsb_waits ws : existsb waits ws = false <-> Forall awake ws.
Proof.
  unfold awake. induction ws as [|w ws IH]; cbn; [by split|].
  rewrite orb_false_iff, Forall_cons, IH. done.
Qed.

(** Somebody is awake, whatever [tp_adders] becomes. *)
Lemma life_awake p as' :
  life_ok p -> (m_pool_state p <> STOPPED -> m_tasks p <> [] -> m_threads p <> [] ->
    (exists i w, m_threads p !! i = Some w /\ awake w) \/ (exists j, as' !! j = Some A_signal)) ->
  life_ok (set_adders as' p).
Proof. intros [H1 H2 H3 H4 H5] Hw. by constructor. Qed.

Lemma life_adder_at p j a a' :
  life_ok p -> tp_adders p !! j = Some a -> a <> A_signal -> life_ok (adder_at j a' p).
Proof.
  intros Hok Hj Ha. apply life_awake; [done|]. intros Hs Ht Hth.
  destruct (lf_wake p Hok Hs Ht Hth) as [?|[j' Hj']]; [by left|right].
  exists j'. rewrite list_lookup_insert_ne; [done|]. intros <-. congruence.
Qed.

Lemma life_adder j k l p p' : life_ok p -> adder_step j k p = Some (l, p') -> life_ok p'.
Proof.
  intros Hok. unfold adder_step, lock. destruct (tp_adders p !! j) as [a|] eqn:Hj; [|done].
  assert (Hjl : (j < length (tp_adders p))%nat) by (by eapply lookup_lt_Some). destruct a; try done.
  - destruct (m_task_mutex p); [done|]. intros [= <- <-]. eapply life_adder_at; [by apply life_set_mutex|done|done].
  - destruct (_ && _); intros [= <- <-]; [eapply life_adder_at; [by apply life_set_mutex|done|done]|].
    apply (life_set_tasks (m_tasks p ++ [t]) (unlock (adder_at j A_signal p))).
    + apply life_set_mutex. by eapply life_adder_at.
    + intros _ _. right. exists j. by apply list_lookup_insert_eq.
  - assert (Hq : existsb waits (m_threads p) = false -> life_ok (adder_at j (A_returned 0) p)).
    { intros Hall. apply existsb_waits in Hall. apply life_awake; [done|]. intros _ _ Hth. left.
      destruct (m_threads p) as [|w ws]; [done|]. exists 0%nat, w. by apply Forall_cons in Hall as [? _]. }
    destruct (m_threads p !! k) as [w|] eqn:Hk; [destruct w|];
      try (destruct (existsb waits (m_threads p)) eqn:E; [done|]; intros [= <- <-]; by apply Hq).
    intros [= <- <-]. apply life_awake.
    + eapply life_worker_at; [done|done|done|by left|done|by left].
    + intros _ _ _. left. exists k, W_woken. cbn. rewrite list_lookup_insert_eq; [done|]. by eapply lookup_lt_Some.
Qed.

(** The owner. *)
Lemma wake_awake (ws : list (worker Task)) : Forall awake (wake <$> ws).
Proof. apply Forall_fmap, Forall_true. by intros []. Qed.

Lemma wake_exited (ws : list (worker Task)) n : exited_below ws n -> exited_below (wake <$> ws) n.
Proof. intros He k Hk. by rewrite list_lookup_fmap, (He k Hk). Qed.

Lemma life_owner_only p o :
  life_ok p -> owner_ok (set_owner o p) -> life_ok (set_owner o p).
Proof. intros [H1 H2 H3 H4 H5] Ho. by constructor. Qed.

Lemma life_broadcast p o :
  life_ok p -> m_pool_state p = STOPPED -> owner_ok (set_owner o (broadcast p)) -> life_ok (set_owner o (broadcast p)).
Proof.
  intros [H1 H2 H3 H4 H5] Hs Ho. constructor; cbn; try done. unfold zlen in *. by rewrite length_fmap.
Qed.

Lemma life_owner created l p p' : life_ok p -> owner_step created p = Some (l, p') -> life_ok p'.
Proof.
  intros Hok. pose proof (lf_owner p Hok) as Ho. unfold owner_ok in Ho. unfold owner_step, lock.
  destruct (tp_owner p) eqn:Eo; try done.
  - destruct Ho as [Hs Hl]. assert (Hns : m_pool_state p <> STOPPED) by (by rewrite Hs).
    destruct (Z.ltb_spec i (m_pool_size p)); [destruct created|]; intros [= <- <-].
    + destruct Hok as [H1 H2 H3 H4 H5].
      assert (Hlen : zlen (m_threads p ++ [W_entry]) = i + 1) by (by rewrite zlen_app, Hl).
      constructor; cbn; rewrite ?Hlen; try done; [|lia|].
      * intros k Hk. apply lookup_app_Some in Hk as [Hk|[_ Hk]]; [by eapply H1|].
        by apply list_lookup_singleton_Some in Hk as [_ ?].
      * intros _ _ _. left. exists (length (m_threads p)), W_entry. split; [|done].
        rewrite lookup_app_r by done. by rewrite Nat.sub_diag.
    + by apply life_owner_only.
    + by apply life_owner_only.
  - destruct (m_task_mutex p); [done|]. intros [= <- <-].
    by apply (life_owner_only (set_m_mutex (Some T_owner) p)); [apply life_set_mutex|].
  - intros [= <- <-]. destruct Hok as [H1 H2 H3 H4 H5]. by constructor.
  - intros [= <- <-]. apply life_broadcast; [done|done|]. cbn. repeat split; [done|apply wake_awake|lia|].
    intros k Hk. simpl in Hk. lia.
  - destruct Ho as (Hs & Ha & Hi & He).
    destruct (Z.ltb_spec i (m_pool_size p)) as [Hlt|Hge].
    + destruct (m_threads p !! Z.to_nat i) as [w|] eqn:Hw; [destruct w; try done|]; intros [= <- <-];
        apply life_owner_only; try done; cbn.
      * repeat split; try done. intros k Hk. destruct (decide (k = Z.to_nat i)) as [->|]; [done|]. apply He. lia.
      * repeat split; [done|done|]. apply lookup_ge_None in Hw. unfold zlen. lia.
    + intros [= <- <-]. apply life_owner_only; [done|]. split; [done|]. cbn. intros k Hk. apply He. lia.
  - destruct Ho as (Hs & Ha & Hi & He). intros [= <- <-]. apply life_broadcast; [done|done|]. cbn.
    repeat split; [done|apply wake_awake|lia|by apply wake_exited].
Qed.

Lemma life_step p l p' : life_ok p -> step p l p' -> life_ok p'.
Proof.
  intros Hok Hst. destruct Hst as [l p p' Hi|i p Hw|t p|p p' Hc|p p' Hc].
  - destruct Hi; eauto using life_worker, life_adder, life_owner.
  - eapply life_worker_at; [done|done|done|by left|done|by left].
  - apply life_awake; [done|]. intros Hs Ht Hth. destruct (lf_wake p Hok Hs Ht Hth) as [?|[j Hj]]; [by left|].
    right. exists j. by apply lookup_app_l_Some.
  - unfold call_start in Hc. destruct (tp_owner p) eqn:Eo; try done. injection Hc as <-.
    pose proof (lf_owner p Hok) as Ho. unfold owner_ok in Ho. rewrite Eo in Ho.
    destruct (_ =? 0); [by apply life_owner_only|]. destruct (Z.eqb_spec (m_pool_state p) STARTED) as [Hs|Hs].
    + by apply life_owner_only.
    + destruct Hok as [H1 H2 H3 H4 H5]. specialize (H2 Hs Ho). constructor; cbn; try done; rewrite ?H2; try done.
  - unfold call_destroy in Hc. destruct (tp_owner p) eqn:Eo; try done. injection Hc as <-.
    pose proof (lf_owner p Hok) as Ho. unfold owner_ok in Ho. rewrite Eo in Ho. by apply life_owner_only.
Qed.

Lemma life_new scb size limit : life_ok (ThreadPool_new scb size limit).
Proof. constructor; try done. unfold zlen. simpl. lia. Qed.

Definition pool_ok p : Prop := mutex_ok p /\ life_ok p.

Lemma run_ok scb size limit tr p : run (ThreadPool_new scb size limit) tr p -> pool_ok p.
Proof.
  induction 1 as [|tr l p p' _ [IH1 IH2] Hst]; [split; [apply mutex_new|apply life_new]|].
  split; [by eapply mutex_step|by eapply life_step].
Qed.
End life.

(** ** Progress *)
Section progress.
Context {Task : Type}.
Implicit Types p : ThreadPool Task.

(** How far the threads can still go without new calls. *)
Definition worker_weight (w : worker Task) : nat :=
  match w with
  | W_entry | W_run _ => 3
  | W_lock | W_woken => 2
  | W_check => 1
  | W_wait | W_exited => 0
  end.

Definition adder_weight (a : adder Task) : nat :=
  match a with A_lock _ => 8 | A_push _ => 7 | A_signal => 3 | A_returned _ => 0 end.

Definition join_weight (m : nat) (i : Z) : nat := (m - Z.to_nat i) * (2 * m + 2) + 1.

Definition owner_weight (size : Z) (o : owner_pc) : nat :=
  let m := Z.to_nat size in
  match o with
  | O_idle _ | O_destroyed _ | O_fault => 0
  | O_create i => 4 * Z.to_nat (size - i) + 1
  | O_stop_lock => join_weight m 0 + 2 * m + 3
  | O_stop_set => join_weight m 0 + 2 * m + 2
  | O_broadcast => join_weight m 0 + 2 * m + 1
  | O_join i => join_weight m i
  | O_rebroadcast i => join_weight m (i + 1) + 2 * m + 1
  end.

Definition weight p : nat :=
  sum_list_with worker_weight (m_threads p) + 3 * length (m_tasks p)
  + sum_list_with adder_weight (tp_adders p) + owner_weight (m_pool_size p) (tp_owner p).

Lemma sum_insert {A} (f : A -> nat) l i x y :
  l !! i = Some x -> (sum_list_with f (<[i := y]> l) + f x = sum_list_with f l + f y)%nat.
Proof.
  intros Hx. rewrite insert_take_drop by (by eapply lookup_lt_Some).
  rewrite <-(take_drop_middle l i x Hx) at 3. rewrite !sum_list_with_app. cbn. lia.
Qed.

Lemma sum_wake (ws : list (worker Task)) :
  (sum_list_with worker_weight (wake <$> ws) <= sum_list_with worker_weight ws + 2 * length ws)%nat.
Proof. induction ws as [|[] ws IH]; cbn; lia. Qed.

Lemma weight_worker i l p p' : worker_step i p = Some (l, p') -> (weight p' < weight p)%nat.
Proof.
  unfold worker_step, lock. destruct (m_threads p !! i) as [w|] eqn:Hw; [|done].
  pose proof (fun y => sum_insert worker_weight (m_threads p) i w y Hw) as Hs.
  destruct w; try done; cbn [worker_weight] in Hs.
  - intros [= <- <-]. specialize (Hs W_lock). unfold weight. cbn in *. lia.
  - destruct (m_task_mutex p); [done|]. intros [= <- <-]. specialize (Hs W_check). unfold weight. cbn in *. lia.
  - destruct (_ && _); [|destruct (_ =? _)].
    + intros [= <- <-]. specialize (Hs W_wait). unfold weight. cbn in *. lia.
    + intros [= <- <-]. specialize (Hs W_exited). unfold weight. cbn in *. lia.
    + destruct (m_tasks p) as [|t rest] eqn:E; [done|]. intros [= <- <-].
      specialize (Hs (W_run t)). unfold weight. rewrite E. cbn in *. lia.
  - destruct (m_task_mutex p); [done|]. intros [= <- <-]. specialize (Hs W_check). unfold weight. cbn in *. lia.
  - intros [= <- <-]. specialize (Hs W_lock). unfold weight. cbn in *. lia.
Qed.

Lemma weight_adder j k l p p' : adder_step j k p = Some (l, p') -> (weight p' < weight p)%nat.
Proof.
  unfold adder_step, lock. destruct (tp_adders p !! j) as [a|] eqn:Ha; [|done].
  pose proof (fun y => sum_insert adder_weight (tp_adders p) j a y Ha) as Hs.
  destruct a; try done; cbn [adder_weight] in Hs.
  - destruct (m_task_mutex p); [done|]. intros [= <- <-]. specialize (Hs (A_push t)). unfold weight. cbn in *. lia.
  - destruct (_ && _); intros [= <- <-].
    + specialize (Hs (A_returned (-1))). unfold weight. cbn in *. lia.
    + specialize (Hs A_signal). unfold weight. cbn in *. rewrite length_app. simpl. lia.
  - specialize (Hs (A_returned 0)). destruct (m_threads p !! k) as [w|] eqn:Hk; [destruct w|];
      try (destruct (existsb _ _); [done|]; intros [= <- <-]; unfold weight; cbn in *; lia).
    intros [= <- <-]. pose proof (sum_insert worker_weight (m_threads p) k W_wait W_woken Hk).
    unfold weight. cbn in *. lia.
Qed.

Lemma join_pos m i : (0 < join_weight m i)%nat.
Proof. unfold join_weight. rewrite Nat.add_1_r. apply Nat.lt_0_succ. Qed.

Lemma join_next m i :
  0 <= i -> (Z.to_nat i < m)%nat -> (join_weight m (i + 1) + 2 * m + 1 < join_weight m i)%nat.
Proof.
  intros Hi Hm. unfold join_weight.
  replace (m - Z.to_nat i)%nat with (S (m - Z.to_nat (i + 1)))%nat by lia.
  rewrite Nat.mul_succ_l. lia.
Qed.

Lemma weight_owner created l p p' :
  life_ok p -> owner_step created p = Some (l, p') -> (weight p' < weight p)%nat.
Proof.
  intros Hok. pose proof (lf_owner p Hok) as Ho. pose proof (lf_size p Hok) as Hsz. unfold owner_ok in Ho.
  assert (Hm : (length (m_threads p) <= Z.to_nat (m_pool_size p))%nat) by (unfold zlen in Hsz; lia).
  pose proof (sum_wake (m_threads p)) as Hwk. unfold owner_step, lock, weight.
  destruct (tp_owner p) eqn:Eo; try done.
  - destruct (Z.ltb_spec i (m_pool_size p)); [destruct created|]; intros [= <- <-]; cbn; [|lia|lia].
    rewrite sum_list_with_app. cbn. lia.
  - destruct (m_task_mutex p); [done|]. intros [= <- <-]. cbn. lia.
  - intros [= <- <-]. cbn. lia.
  - intros [= <- <-]. cbn. lia.
  - destruct Ho as (_ & _ & Hi & _). destruct (Z.ltb_spec i (m_pool_size p)).
    + pose proof (join_pos (Z.to_nat (m_pool_size p)) i).
      pose proof (join_next (Z.to_nat (m_pool_size p)) i ltac:(lia) ltac:(lia)).
      destruct (_ !! _) as [[]|]; intros [= <- <-]; cbn; lia.
    + pose proof (join_pos (Z.to_nat (m_pool_size p)) i). intros [= <- <-]. cbn. lia.
  - intros [= <- <-]. cbn. lia.
Qed.

Lemma weight_internal p l p' : life_ok p -> internal p l p' -> (weight p' < weight p)%nat.
Proof.
  intros Hok Hi. destruct Hi; [by eapply weight_worker|by eapply weight_adder|by eapply weight_owner].
Qed.

(** Nothing but a new call or a wake-up without a signal can happen. *)
Definition quiet p : Prop := forall l p', ~ internal p l p'.

Definition returned (a : adder Task) : Prop := exists ret, a = A_returned ret.

Lemma quiet_mutex p : pool_ok p -> quiet p -> m_task_mutex p = None.
Proof.
  intros [Hm Hl] Hq. destruct (m_task_mutex p) as [me|] eqn:E; [|done]. exfalso.
  assert (Hh : holding p me = true) by by apply Hm.
  assert (Hstep : exists l p', internal p l p').
  { destruct me as [i|j|]; cbn in Hh.
    - destruct (m_threads p !! i) as [[]|] eqn:Hi; try done.
      destruct (worker_step i p) as [[l p']|] eqn:Es; [exists l, p'; by eapply int_worker|].
      unfold worker_step in Es. rewrite Hi in Es. destruct (m_pool_state p =? STOPPED); [done|]. cbn in Es.
      case_bool_decide as Hb; [done|]. by destruct (m_tasks p).
    - destruct (tp_adders p !! j) as [[]|] eqn:Hj; try done.
      destruct (adder_step j 0 p) as [[l p']|] eqn:Es; [exists l, p'; by eapply int_adder|].
      unfold adder_step in Es. rewrite Hj in Es. by destruct (_ && _).
    - destruct (owner_step true p) as [[l p']|] eqn:Es; [exists l, p'; by eapply int_owner|].
      unfold owner_step in Es. by destruct (tp_owner p). }
  destruct Hstep as (l & p' & Hs). by eapply Hq.
Qed.

Lemma quiet_worker p i w : quiet p -> m_task_mutex p = None -> m_threads p !! i = Some w -> w = W_wait \/ w = W_exited.
Proof.
  intros Hq Hn Hw.
  assert (Hs : worker_step i p = None).
  { destruct (worker_step i p) as [[l p']|] eqn:E; [|done]. exfalso. eapply Hq. by eapply int_worker. }
  unfold worker_step, lock in Hs. rewrite Hw, Hn in Hs. destruct w; try done; auto.
  destruct (m_pool_state p =? STOPPED); [done|]. cbn in Hs. case_bool_decide as Hb; [done|]. by destruct (m_tasks p).
Qed.

Lemma quiet_adder p j a : quiet p -> m_task_mutex p = None -> tp_adders p !! j = Some a -> returned a.
Proof.
  intros Hq Hn Ha.
  assert (Hs : forall k, adder_step j k p = None).
  { intros k. destruct (adder_step j k p) as [[l p']|] eqn:E; [|done]. exfalso. eapply Hq. by eapply int_adder. }
  unfold adder_step, lock in Hs. rewrite Ha, Hn in Hs. destruct a as [t|t| |ret]; [by specialize (Hs 0%nat)| | |by exists ret].
  - specialize (Hs 0%nat). by destruct (_ && _).
  - exfalso. destruct (existsb waits (m_threads p)) eqn:E.
    + apply existsb_exists in E as (w & Hin & Hw). apply list_elem_of_In, list_elem_of_lookup in Hin as [k Hk].
      specialize (Hs k). rewrite Hk in Hs. by destruct w.
    + specialize (Hs (length (m_threads p))). rewrite (lookup_ge_None_2 (m_threads p)) in Hs by lia. done.
Qed.

(** The owner is between calls, or all threads are gone. *)
Lemma quiet_owner p : pool_ok p -> quiet p ->
  match tp_owner p with
  | O_idle _ => m_pool_state p <> STOPPED
  | O_destroyed _ | O_fault => m_pool_state p = STOPPED
  | _ => False
  end.
Proof.
  intros Hok Hq. pose proof (quiet_mutex p Hok Hq) as Hn. destruct Hok as [_ Hl].
  pose proof (lf_owner p Hl) as Ho. unfold owner_ok in Ho.
  assert (Hs : owner_step true p = None).
  { destruct (owner_step true p) as [[l p']|] eqn:E; [|done]. exfalso. eapply Hq. by eapply int_owner. }
  unfold owner_step, lock in Hs. rewrite Hn in Hs. destruct (tp_owner p); try done.
  - destruct (_ <? _); [|done]. destruct Ho as (Hst & Ha & _).
    destruct (m_threads p !! Z.to_nat i) as [w|] eqn:Hw; [|done].
    pose proof (quiet_worker p _ w Hq Hn Hw) as [->| ->]; [|done].
    eapply Forall_lookup_1 in Ha; [|done]. done.
  - by destruct Ho.
  - by destruct Ho.
Qed.
End progress.

(** ** The properties of the pool *)
Section claims.
Context {Task : Type}.
Implicit Types p : ThreadPool Task.

(** A run without calls. *)
Inductive internal_run p : list (label Task) -> ThreadPool Task -> Prop :=
  | ir_start : internal_run p [] p
  | ir_step tr l q q' : internal_run p tr q -> internal q l q' -> internal_run p (tr ++ [l]) q'.

Lemma internal_run_run p tr p' : internal_run p tr p' -> run p tr p'.
Proof. induction 1; [constructor|]. eapply run_step; [done|]. by constructor. Qed.

Lemma internal_run_weight p tr p' : pool_ok p -> internal_run p tr p' -> pool_ok p' /\ (length tr + weight p' <= weight p)%nat.
Proof.
  intros Hok. induction 1 as [|tr l q q' _ [[IH1 IH2] IH3] Hst]; [done|].
  pose proof (weight_internal q l q' IH2 Hst). split.
  - split; [eapply mutex_step|eapply life_step]; try done; by constructor.
  - rewrite length_app. simpl. lia.
Qed.

Lemma stopped_step p l p' :
  pool_ok p -> m_pool_state p = STOPPED -> step p l p' -> m_pool_state p' = STOPPED /\ takes [l] = [].
Proof.
  intros [_ Hl] Hs. destruct 1 as [l p p' Hi|i p Hw|t p|p p' Hc|p p' Hc]; try done.
  - destruct Hi as [i l p p' H|j k l p p' H|c l p p' H].
    + unfold worker_step, lock in H. rewrite Hs in H. cbn in H.
      by repeat case_match; simplify_eq/=.
    + unfold adder_step, lock in H. by repeat case_match; simplify_eq/=.
    + unfold owner_step, lock in H. by repeat case_match; simplify_eq/=.
  - pose proof (lf_owner p Hl) as Ho. unfold owner_ok, call_start in *. destruct (tp_owner p); try done.
  - pose proof (lf_owner p Hl) as Ho. unfold owner_ok, call_destroy in *. destruct (tp_owner p); try done.
Qed.

Lemma queue_bound_step p l p' :
  0 < m_task_size_limit p < 2 ^ 31 - 1 -> zlen (m_tasks p) <= m_task_size_limit p + 1 -> step p l p' ->
  m_task_size_limit p' = m_task_size_limit p /\ zlen (m_tasks p') <= m_task_size_limit p + 1.
Proof.
  intros Hlim Hb. destruct 1 as [l p p' Hi|i p Hw|t p|p p' Hc|p p' Hc]; try done.
  - destruct Hi as [i l p p' H|j k l p p' H|c l p p' H].
    + unfold worker_step, lock in H. repeat case_match; simplify_eq/=; try done.
      split; [done|]. rewrite zlen_cons in Hb. lia.
    + unfold adder_step, lock in H. destruct (tp_adders p !! j) as [[]|]; try done.
      * by repeat case_match; simplify_eq/=.
      * destruct (_ && _) eqn:E; simplify_eq/=; [done|]. split; [done|].
        pose proof (zlen_nonneg (m_tasks p)). unfold s32 in E. rewrite uwrap_small in E by lia.
        rewrite zlen_app. change (zlen [t]) with 1.
        apply andb_false_iff in E as [E|E]; [apply Z.ltb_ge in E; lia|apply Z.ltb_ge in E; lia].
      * by repeat case_match; simplify_eq/=.
    + unfold owner_step, lock in H. by repeat case_match; simplify_eq/=.
  - unfold call_start in Hc. by repeat case_match; simplify_eq/=.
  - unfold call_destroy in Hc. by repeat case_match; simplify_eq/=.
Qed.

Lemma run_size p0 (tr : list (label Task)) p : run p0 tr p -> m_pool_size p = m_pool_size p0.
Proof.
  induction 1 as [|tr l p p' _ IH Hst]; [done|]. rewrite <-IH.
  destruct Hst as [l p p' Hi|i p Hw|t p|p p' Hc|p p' Hc]; try done.
  - destruct Hi as [i l p p' H|j k l p p' H|c l p p' H].
    + unfold worker_step, lock in H. by repeat case_match; simplify_eq/=.
    + unfold adder_step, lock in H. by repeat case_match; simplify_eq/=.
    + unfold owner_step, lock in H. by repeat case_match; simplify_eq/=.
  - unfold call_start in Hc. by repeat case_match; simplify_eq/=.
  - unfold call_destroy in Hc. by repeat case_match; simplify_eq/=.
Qed.

Lemma reject_step p l p' t :
  0 < m_task_size_limit p < 2 ^ 31 - 1 -> zlen (m_tasks p) <= m_task_size_limit p + 1 ->
  step p l p' -> l = L_reject t -> m_task_size_limit p < zlen (m_tasks p).
Proof.
  intros Hlim Hb Hst ->. inversion Hst as [l' q q' Hi| | | |]; subst.
  inversion Hi as [i l' q q' H|j k l' q q' H|c l' q q' H]; subst.
  - unfold worker_step, lock in H. by repeat case_match; simplify_eq/=.
  - unfold adder_step, lock in H. destruct (tp_adders p !! j) as [[]|]; repeat case_match; simplify_eq/=.
    match goal with E : _ && _ = true |- _ => apply andb_true_iff in E as [_ E]; apply Z.ltb_lt in E end.
    pose proof (zlen_nonneg (m_tasks p)). unfold s32 in *. rewrite uwrap_small in * by lia. lia.
  - unfold owner_step, lock in H. by repeat case_match; simplify_eq/=.
Qed.

Definition is_internal (a : action Task) : Prop :=
  match a with Act_worker _ | Act_adder _ _ | Act_owner _ => True | _ => False end.

Lemma schedule_internal acts : forall p tr p',
  Forall is_internal acts -> schedule acts p = Some (tr, p') -> internal_run p tr p'.
Proof.
  assert (Happ : forall p tr q tr' p', internal_run p tr q -> internal_run q tr' p' -> internal_run p (tr ++ tr') p').
  { intros p tr q tr' p' H1. induction 1; [by rewrite app_nil_r|]. rewrite app_assoc. by eapply ir_step. }
  induction acts as [|a acts IH]; intros p tr p' Hint; cbn; [intros [= <- <-]; constructor|].
  apply Forall_cons in Hint as [Ha Hint].
  destruct (act a p) as [[l q]|] eqn:Hq; cbn; [|done].
  destruct (schedule acts q) as [[tr' q']|] eqn:Hs; cbn; [|done]. intros [= <- <-].
  apply (Happ p [l] q); [|by apply IH]. apply (ir_step p [] l p q); [constructor|].
  destruct a; try done; cbn in Hq; by econstructor.
Qed.

(** C29. The pool implements the abstract queue: however the threads are interleaved
    and whenever they wake up, the accepted tasks are taken in the order in which they
    were accepted, and each task that was taken is either finished or being run by
    exactly one worker; none is lost and none is run twice. *)
Theorem pool_tasks_once scb size limit (tr : list (label Task)) p :
  run (ThreadPool_new scb size limit) tr p ->
  queue_run tr (queue_of p) /\
  adds tr = takes tr ++ m_tasks p /\
  takes tr ≡ₚ dones tr ++ running (m_threads p).
Proof.
  intros Hr. apply run_refines in Hr as Hq. split; [done|]. by apply (queue_run_accounts tr (queue_of p)).
Qed.

(** C28. No wake-up is lost and the pool cannot get stuck: between calls the threads
    make a bounded number of steps under any schedule, and when no thread can go on,
    every [add_task] has returned and either all accepted tasks have been run and all
    workers wait, or the pool was stopped and every thread is gone. *)
Theorem pool_quiesces scb size limit (tr tr' : list (label Task)) p p' :
  run (ThreadPool_new scb size limit) tr p -> internal_run p tr' p' ->
  (length tr' <= weight p)%nat /\
  (quiet p' ->
    Forall returned (tp_adders p') /\
    (m_pool_state p' <> STOPPED -> m_threads p' <> [] ->
      adds (tr ++ tr') ≡ₚ dones (tr ++ tr') /\ Forall (eq W_wait) (m_threads p')) /\
    (m_pool_state p' = STOPPED -> Forall (eq W_exited) (m_threads p'))).
Proof.
  intros Hr Hi. apply run_ok in Hr as Hok. destruct (internal_run_weight p tr' p' Hok Hi) as [Hok' Hw].
  split; [lia|]. intros Hq. pose proof (quiet_mutex p' Hok' Hq) as Hn. pose proof (quiet_owner p' Hok' Hq) as Ho.
  assert (Hr' : run (ThreadPool_new scb size limit) (tr ++ tr') p') by (eapply run_app; [done|by apply internal_run_run]).
  apply run_refines, queue_run_accounts in Hr' as [Hadd Htake]. cbn [q_waiting q_running queue_of] in *.
  pose proof (proj2 Hok') as Hl. split; [|split].
  - apply Forall_lookup_2. intros j a Ha. by eapply quiet_adder.
  - intros Hs Hth.
    assert (Hwait : Forall (eq W_wait) (m_threads p')).
    { apply Forall_lookup_2. intros i w Hwi. destruct (quiet_worker p' i w Hq Hn Hwi) as [->| ->]; [done|].
      by apply (lf_exit p' Hl) in Hwi. }
    assert (Hnone : running (m_threads p') = []).
    { unfold running. clear -Hwait. induction Hwait as [|w ws <- _ IH]; [done|]. by cbn. }
    split; [|done]. rewrite Hnone, app_nil_r in Htake. rewrite Hadd, Htake.
    destruct (m_tasks p') as [|t ts] eqn:Ht; [by rewrite app_nil_r|]. exfalso.
    destruct (lf_wake p' Hl Hs ltac:(by rewrite Ht) Hth) as [(i & w & Hwi & Ha)|[j Hj]].
    + by destruct (quiet_worker p' i w Hq Hn Hwi) as [->| ->]; [|apply (lf_exit p' Hl) in Hwi].
    + destruct (quiet_adder p' j A_signal Hq Hn Hj) as [ret ?]. done.
  - intros Hs. apply Forall_lookup_2. intros i w Hwi. destruct (quiet_worker p' i w Hq Hn Hwi) as [->| ->]; [|done].
    exfalso. pose proof (lf_owner p' Hl) as Hoo. unfold owner_ok in Hoo. destruct (tp_owner p') as [| | | | | | |r|]; try done.
    + destruct Hoo as [_ He]. pose proof (lf_size p' Hl) as Hsz. apply lookup_lt_Some in Hwi as Hlt.
      rewrite (He i) in Hwi by (unfold zlen in Hsz; lia). done.
    + destruct Hoo as (_ & Ha & _). eapply Forall_lookup_1 in Ha; [|exact Hwi]. done.
Qed.

(** The limit on the queue: with a positive limit the queue never holds more than
    one task more than the limit (the test lets in a task when the queue is exactly
    at the limit), and no task is refused below the limit. *)
Theorem pool_queue_bounded scb size limit (tr : list (label Task)) p :
  0 < limit < 2 ^ 31 - 1 -> run (ThreadPool_new scb size limit) tr p ->
  zlen (m_tasks p) <= limit + 1 /\
  (forall t p', step p (L_reject t) p' -> limit < zlen (m_tasks p)).
Proof.
  intros Hlim Hr.
  assert (H : m_task_size_limit p = limit /\ zlen (m_tasks p) <= limit + 1).
  { induction Hr as [|tr l p p' _ [IH1 IH2] Hst]; [unfold zlen; simpl; lia|].
    rewrite <-IH1. apply (queue_bound_step p l p'); [by rewrite IH1|by rewrite IH1|done]. }
  destruct H as [Hl Hb]. split; [done|]. intros t p' Hst. rewrite <-Hl.
  eapply reject_step; [by rewrite Hl|by rewrite Hl|done..].
Qed.
(** C30. Stopping: once [destroy_threadpool] has set the state, no task is taken any
    more.  When it returns every thread of the pool is gone; it reads beyond
    [m_threads] exactly in the case where [start] created fewer threads than
    [m_pool_size]. *)
Theorem pool_stopped scb size limit (tr : list (label Task)) p :
  run (ThreadPool_new scb size limit) tr p -> m_pool_state p = STOPPED ->
  (forall tr' p', run p tr' p' -> takes tr' = []) /\
  (forall r, tp_owner p = O_destroyed r ->
    zlen (m_threads p) = Z.max 0 size /\ Forall (eq W_exited) (m_threads p)) /\
  (tp_owner p = O_fault -> zlen (m_threads p) < size).
Proof.
  intros Hr Hs. apply run_ok in Hr as Hok. split; [|split].
  - intros tr' p' Hr'.
    enough (pool_ok p' /\ m_pool_state p' = STOPPED /\ takes tr' = []) by tauto.
    induction Hr' as [|tr' l q q' _ [IH1 [IH2 IH3]] Hst]; [done|].
    destruct (stopped_step q l q' IH1 IH2 Hst) as [H1 H2]. split.
    + destruct IH1. split; [by eapply mutex_step|by eapply life_step].
    + split; [done|]. unfold takes in *. by rewrite omap_app, IH3.
  - intros r Ho. destruct Hok as [_ Hl]. pose proof (lf_owner p Hl) as Hoo. unfold owner_ok in Hoo.
    rewrite Ho in Hoo. destruct Hoo as [_ He]. pose proof (lf_size p Hl) as Hsz.
    rewrite (run_size _ _ _ Hr) in *. cbn [m_pool_size ThreadPool_new] in *.
    assert (Hlen : zlen (m_threads p) = Z.max 0 size).
    { destruct (decide (zlen (m_threads p) < Z.max 0 size)) as [Hlt|]; [|lia]. exfalso.
      specialize (He (length (m_threads p)) ltac:(unfold zlen in Hlt; lia)).
      apply lookup_lt_Some in He. lia. }
    split; [done|]. apply Forall_lookup_2. intros i w Hw. apply lookup_lt_Some in Hw as Hi.
    rewrite (He i) in Hw by (unfold zlen in Hlen; lia). by injection Hw.
  - intros Ho. destruct Hok as [_ Hl]. pose proof (lf_owner p Hl) as Hoo. unfold owner_ok in Hoo.
    rewrite Ho, (run_size _ _ _ Hr) in Hoo. by destruct Hoo as (_ & _ & ?).
Qed.

End claims.

(** ** A pool of two workers with limit 1

    Three calls while the workers are being created: two tasks are accepted, the third
    is refused, a worker takes the first. *)
Definition sample_schedule : list (action Z) :=
  [Act_start; Act_owner true; Act_owner true; Act_owner true;
   Act_add 7; Act_adder 0 0; Act_adder 0 0; Act_adder 0 0; Act_add 8; Act_adder 1 0; Act_adder 1 0; Act_adder 1 0;
   Act_add 9; Act_adder 2 0; Act_adder 2 0; Act_worker 0; Act_worker 0; Act_worker 0].

(** Everybody goes on until nobody can. *)
Definition sample_end : list (action Z) :=
  [Act_worker 0; Act_worker 1; Act_worker 0; Act_worker 0; Act_worker 0; Act_worker 1; Act_worker 1; Act_worker 0;
   Act_worker 0].

Definition after_schedule (acts : list (action Z)) (p : ThreadPool Z) : list (label Z) * ThreadPool Z :=
  default ([], p) (schedule acts p).
Definition sample_new : ThreadPool Z := ThreadPool_new false 2 1.
Definition sample_busy := after_schedule sample_schedule sample_new.
Definition sample_done := after_schedule sample_end sample_busy.2.

Lemma sample_busy_run : run (ThreadPool_new false 2 1) sample_busy.1 sample_busy.2.
Proof. apply (schedule_run sample_schedule). by vm_compute. Qed.

Lemma sample_done_run : internal_run sample_busy.2 sample_done.1 sample_done.2.
Proof. apply (schedule_internal sample_end); [repeat constructor|by vm_compute]. Qed.

Lemma sample_done_quiet : quiet sample_done.2.
Proof.
  intros l p' Hi. remember sample_done.2 as q eqn:E. vm_compute in E. subst q.
  inversion Hi as [i ? ? ? H|j k ? ? ? H|c ? ? ? H]; subst; revert H.
  - by destruct i as [|[|i]].
  - by destruct j as [|[|[|j]]].
  - done.
Qed.

Lemma pool_tasks_once_witness : adds sample_busy.1 = [7; 8] /\ adds sample_busy.1 = takes sample_busy.1 ++ [8].
Proof.
  split; [by vm_compute|]. apply (pool_tasks_once false 2 1 sample_busy.1 sample_busy.2 sample_busy_run).
Defined.

Lemma pool_quiesces_witness :
  adds (sample_busy.1 ++ sample_done.1) ≡ₚ dones (sample_busy.1 ++ sample_done.1) /\
  dones (sample_busy.1 ++ sample_done.1) = [7; 8].
Proof.
  split; [|by vm_compute].
  apply (pool_quiesces false 2 1 sample_busy.1 sample_done.1 sample_busy.2 sample_done.2
           sample_busy_run sample_done_run); [exact sample_done_quiet|by vm_compute|by vm_compute].
Defined.

Definition full_pool := after_schedule (take 12 sample_schedule) sample_new.

(** Two tasks are waiting in a queue of limit 1. *)
Lemma pool_queue_bounded_witness : zlen (m_tasks full_pool.2) = 2 /\ zlen (m_tasks full_pool.2) <= 1 + 1.
Proof.
  split; [by vm_compute|].
  apply (pool_queue_bounded false 2 1 full_pool.1 full_pool.2); [lia|].
  apply (schedule_run (take 12 sample_schedule)). by vm_compute.
Defined.

(** The pool is stopped while both workers wait. *)
Definition sample_stop : list (action Z) :=
  [Act_destroy; Act_owner true; Act_owner true; Act_owner true;
   Act_worker 0; Act_worker 0; Act_worker 1; Act_worker 1; Act_owner true; Act_owner true; Act_owner true;
   Act_owner true; Act_owner true].
Definition sample_stopped := after_schedule sample_stop sample_done.2.

Lemma pool_stopped_witness :
  tp_owner sample_stopped.2 = O_destroyed 0 /\ Forall (eq W_exited) (m_threads sample_stopped.2).
Proof.
  split; [by vm_compute|].
  apply (pool_stopped false 2 1 (sample_busy.1 ++ sample_done.1 ++ sample_stopped.1) sample_stopped.2) with (r := 0);
    [|by vm_compute|by vm_compute].
  apply (run_app _ _ sample_busy.2); [exact sample_busy_run|].
  apply (run_app _ _ sample_done.2); [apply internal_run_run, sample_done_run|].
  apply (schedule_run sample_stop). by vm_compute.
Defined.

(** A pool whose second thread could not be created: the destructor joins it anyway. *)
Example destroy_after_failed_start :
  (fun r => tp_owner r.2) <$> schedule (Task := Z)
    [Act_start; Act_owner true; Act_owner false; Act_destroy; Act_owner true; Act_owner true; Act_owner true;
     Act_worker 0; Act_worker 0; Act_worker 0; Act_owner true; Act_owner true; Act_owner true]
    (ThreadPool_new false 2 0) = Some O_fault.
Proof. by vm_compute. Qed.
