(* ===== verification/EpollSocket.v ===== *)
(** * EpollSocket: the event loop

    [epoll_socket.cpp] as a machine of steps: the main thread in [start_event_loop]
    and its handlers, the threads of the pool in [handle_readable_event], and the
    part of the kernel that the loop relies on (the interest list of [epoll], file
    descriptors).  A handler is cut where another thread can come in between: at
    [_client_lock] and where [_status] has been read.  The [EpollSocketWatcher] is an
    interface; what the system calls answer is an input of a step. *)
From stdpp Require Import gmap.
From S2P Require Import Prelude.

(** ** The interface of a watcher

    [C] is what [EpollContext::ptr] points to, [R] and [W] are the answers of the
    system calls in [on_readable] and [on_writeable].  A handler may end the process
    by an exception. *)
Class EpollSocketWatcher (C R W : Type) := {
  on_accept : Z -> C;
  on_readable : R -> list Z -> C -> (Z * C) + fault;
  on_writeable : W -> C -> Z * C;
}.

Definition WRITE_CONN_ALIVE : Z := 0.
Definition WRITE_CONN_CLOSE : Z := 1.
Definition WRITE_CONN_CONTINUE : Z := 2.

Definition READ_OVER : Z := 0.
Definition READ_CONTINUE : Z := 1.
Definition READ_CLOSE : Z := -1.

Definition S_RUN : Z := 0.
Definition S_REJECT_CONN : Z := 1.
Definition S_STOP : Z := 2.

(** [<sys/epoll.h>] *)
Definition EPOLLIN : Z := 1.
Definition EPOLLOUT : Z := 4.
Definition EPOLLERR : Z := 8.
Definition EPOLLHUP : Z := 16.
Definition EPOLLONESHOT : Z := 2 ^ 30.

(** [e.events & bit] *)
Definition has_bit (bit events : Z) : bool := negb (Z.land events bit =? 0).

(** [struct epoll_event].  [data] is a union of eight bytes, seen as a pointer or,
    in its low half, as a file descriptor. *)
Record epoll_event := mk_event { events : Z; data : Z }.
Definition data_ptr (e : epoll_event) : Z := data e.
Definition data_fd (e : epoll_event) : Z := s32 (data e).

(** An entry of the interest list; an entry with [EPOLLONESHOT] is disarmed when it
    has been reported. *)
Record interest := mk_interest { in_event : epoll_event; in_armed : bool }.

Section loop.
Context {C R W : Type} `{!EpollSocketWatcher C R W}.

Record EpollContext := mk_epoll_context {
  ec_ptr : C;
  ec_fd : Z;
  ec_client_ip : list Z;
}.

(** A task of the pool: in [read_func] before [handle_readable_event], or at the end
    of [close_and_release]. *)
Inductive reader :=
  | R_read (e : epoll_event)
  | R_closing.

(** The main thread: in [epoll_wait]; before the next event of the array; at [accept]
    (with [_status] found to be [S_RUN]); at the first [_client_lock] of
    [handle_accept_event]; behind it; at the [_client_lock] of [handle_event]; at that
    of [close_and_release]; out of the loop. *)
Inductive main_pc :=
  | M_wait
  | M_events (evs : list epoll_event)
  | M_accept (e : epoll_event) (evs : list epoll_event)
  | M_accepted (e : epoll_event) (fd : Z) (ip : list Z) (evs : list epoll_event)
  | M_register (e : epoll_event) (fd : Z) (ip : list Z) (evs : list epoll_event)
  | M_reject (evs : list epoll_event)
  | M_closing (evs : list epoll_event)
  | M_stopped.

(** [es_interest] and [es_open] belong to the kernel: the interest list and the file
    descriptors of accepted connections.  [es_heap] holds the [EpollContext]s by
    address, [es_tasks] the queue of the thread pool. *)
Record EpollSocket := mk_epoll {
  es_listen_sockets : gset Z;
  es_clients : Z;
  es_status : Z;
  es_interest : gmap Z interest;
  es_open : gset Z;
  es_heap : gmap Z EpollContext;
  es_tasks : list epoll_event;
  es_readers : list reader;
  es_main : main_pc;
}.

Definition set_clients v s := mk_epoll (es_listen_sockets s) v (es_status s) (es_interest s) (es_open s) (es_heap s) (es_tasks s) (es_readers s) (es_main s).
Definition set_status v s := mk_epoll (es_listen_sockets s) (es_clients s) v (es_interest s) (es_open s) (es_heap s) (es_tasks s) (es_readers s) (es_main s).
Definition set_interest v s := mk_epoll (es_listen_sockets s) (es_clients s) (es_status s) v (es_open s) (es_heap s) (es_tasks s) (es_readers s) (es_main s).
Definition set_open v s := mk_epoll (es_listen_sockets s) (es_clients s) (es_status s) (es_interest s) v (es_heap s) (es_tasks s) (es_readers s) (es_main s).
Definition set_heap v s := mk_epoll (es_listen_sockets s) (es_clients s) (es_status s) (es_interest s) (es_open s) v (es_tasks s) (es_readers s) (es_main s).
Definition set_es_tasks v s := mk_epoll (es_listen_sockets s) (es_clients s) (es_status s) (es_interest s) (es_open s) (es_heap s) v (es_readers s) (es_main s).
Definition set_readers v s := mk_epoll (es_listen_sockets s) (es_clients s) (es_status s) (es_interest s) (es_open s) (es_heap s) (es_tasks s) v (es_main s).
Definition set_main v s := mk_epoll (es_listen_sockets s) (es_clients s) (es_status s) (es_interest s) (es_open s) (es_heap s) (es_tasks s) (es_readers s) v.

(** *** epoll_ctl

    [EPOLL_CTL_MOD] of a descriptor that is not in the list fails and changes
    nothing; its answer is not looked at. *)
Definition epoll_ctl_add (fd : Z) (e : epoll_event) (s : EpollSocket) : EpollSocket :=
  set_interest (<[fd := mk_interest e true]> (es_interest s)) s.
Definition epoll_ctl_mod (fd : Z) (e : epoll_event) (s : EpollSocket) : EpollSocket :=
  match es_interest s !! fd with
  | Some _ => set_interest (<[fd := mk_interest e true]> (es_interest s)) s
  | None => s
  end.
Definition epoll_ctl_del (fd : Z) (s : EpollSocket) : EpollSocket :=
  set_interest (delete fd (es_interest s)) s.

(** *** close_and_release

    Up to the lock.  [None]: the pointer of the event was [NULL]. *)
Definition close_and_release (e : epoll_event) (s : EpollSocket) : option EpollSocket + fault :=
  if data_ptr e =? 0 then inl None
  else
    match es_heap s !! data_ptr e with
    | None => inr OutOfBounds
    | Some hc =>
        let s := epoll_ctl_del (ec_fd hc) s in
        let s := set_heap (delete (data_ptr e) (es_heap s)) s in
        inl (Some (set_open (es_open s ∖ {[ec_fd hc]}) s))
    end.

(** The part under the lock. *)
Definition release_client (s : EpollSocket) : EpollSocket :=
  let s := set_clients (es_clients s - 1) s in
  if (es_clients s =? 0) && (es_status s =? S_REJECT_CONN) then set_status S_STOP s else s.

(** *** handle_readable_event

    [None]: the task is over; [Some r]: it goes on as [r]. *)
Definition handle_readable_event (rcv : R) (e : epoll_event) (s : EpollSocket) : (option reader * EpollSocket) + fault :=
  match es_heap s !! data_ptr e with
  | None => inr OutOfBounds
  | Some ctx =>
      match on_readable rcv (ec_client_ip ctx) (ec_ptr ctx) with
      | inr f => inr f
      | inl (ret, c) =>
          let s := set_heap (<[data_ptr e := mk_epoll_context c (ec_fd ctx) (ec_client_ip ctx)]> (es_heap s)) s in
          if ret =? READ_CLOSE then
            match close_and_release e s with
            | inl (Some s) => inl (Some R_closing, s)
            | inl None => inl (None, s)
            | inr f => inr f
            end
          else if ret =? READ_CONTINUE then
            inl (None, epoll_ctl_mod (ec_fd ctx) (mk_event (Z.lor EPOLLIN EPOLLONESHOT) (data e)) s)
          else if ret =? READ_OVER then
            inl (None, epoll_ctl_mod (ec_fd ctx) (mk_event (Z.lor EPOLLOUT EPOLLONESHOT) (data e)) s)
          else inl (None, s)
      end
  end.

(** *** handle_writeable_event

    The answer says whether the main thread goes on in [close_and_release]. *)
Definition handle_writeable_event (snd : W) (e : epoll_event) (s : EpollSocket) : (bool * EpollSocket) + fault :=
  match es_heap s !! data_ptr e with
  | None => inr OutOfBounds
  | Some ctx =>
      let '(ret, c) := on_writeable snd (ec_ptr ctx) in
      let s := set_heap (<[data_ptr e := mk_epoll_context c (ec_fd ctx) (ec_client_ip ctx)]> (es_heap s)) s in
      let close :=
        match close_and_release e s with
        | inl (Some s) => inl (true, s)
        | inl None => inl (false, s)
        | inr f => inr f
        end in
      if ret =? WRITE_CONN_CLOSE then close
      else if (ret =? WRITE_CONN_ALIVE) && (es_status s =? S_REJECT_CONN) then close
      else
        let ev :=
          if ret =? WRITE_CONN_CONTINUE then Z.lor EPOLLOUT EPOLLONESHOT
          else if ret =? WRITE_CONN_ALIVE then Z.lor EPOLLIN EPOLLONESHOT
          else events e in
        inl (false, epoll_ctl_mod (ec_fd ctx) (mk_event ev (data e)) s)
  end.

(** *** start_event_loop and handle_event *)

(** What the system answers to the main thread: the descriptors that are ready with
    their events, a signal, an error; a new connection; the address of a new
    [EpollContext] and whether [EPOLL_CTL_ADD] succeeds; whether [add_task] accepts
    the task; [send]. *)
Inductive answer :=
  | I_ready (fds : list (Z * Z))
  | I_interrupted
  | I_wait_error
  | I_accept (res : option (Z * list Z))
  | I_register (ptr : Z) (added : bool)
  | I_add_task (ok : bool)
  | I_send (snd : W)
  | I_go.

(** [epoll_wait] for one descriptor: the events must be ones that are asked for, or an
    error or hang-up. *)
Definition report (fd revents : Z) (s : EpollSocket) : option (epoll_event * EpollSocket) :=
  match es_interest s !! fd with
  | Some (mk_interest ev true) =>
      let asked := Z.lor (events ev) (Z.lor EPOLLERR EPOLLHUP) in
      if negb (revents =? 0) && (Z.land revents asked =? revents) then
        Some (mk_event revents (data ev),
              set_interest (<[fd := mk_interest ev (negb (has_bit EPOLLONESHOT (events ev)))]> (es_interest s)) s)
      else None
  | _ => None
  end.

Fixpoint epoll_wait (fds : list (Z * Z)) (s : EpollSocket) : option (list epoll_event * EpollSocket) :=
  match fds with
  | [] => Some ([], s)
  | (fd, revents) :: fds' =>
      '(e, s') ← report fd revents s;
      '(evs, s'') ← epoll_wait fds' s';
      Some (e :: evs, s'')
  end.

Definition main_closes (evs : list epoll_event) (r : (bool * EpollSocket) + fault) : EpollSocket + fault :=
  match r with
  | inr f => inr f
  | inl (true, s) => inl (set_main (M_closing evs) s)
  | inl (false, s) => inl (set_main (M_events evs) s)
  end.

Definition closing_of (r : option EpollSocket + fault) (s : EpollSocket) : (bool * EpollSocket) + fault :=
  match r with
  | inr f => inr f
  | inl (Some s') => inl (true, s')
  | inl None => inl (false, s)
  end.

Definition handle_event (i : answer) (e : epoll_event) (evs : list epoll_event) (s : EpollSocket)
  : option (EpollSocket + fault) :=
  if bool_decide (data_fd e ∈ es_listen_sockets s) then
    match i with
    | I_go => Some (inl (set_main (if es_status s =? S_RUN then M_accept e evs else M_reject evs) s))
    | _ => None
    end
  else if has_bit EPOLLIN (events e) then
    match i with
    | I_add_task true => Some (inl (set_main (M_events evs) (set_es_tasks (es_tasks s ++ [e]) s)))
    | I_add_task false => Some (main_closes evs (closing_of (close_and_release e s) s))
    | _ => None
    end
  else if has_bit EPOLLOUT (events e) then
    match i with
    | I_send snd => Some (main_closes evs (handle_writeable_event snd e s))
    | _ => None
    end
  else
    match i with
    | I_go => Some (inl (set_main (M_events evs) s))
    | _ => None
    end.

(** The first part of [handle_accept_event], up to the lock; its end. *)
Definition accept_socket (res : option (Z * list Z)) (e : epoll_event) (evs : list epoll_event) (s : EpollSocket)
  : EpollSocket :=
  match res with
  | None => set_main (M_events evs) s
  | Some (fd, ip) => set_main (M_accepted e fd ip evs) (set_open (es_open s ∪ {[fd]}) s)
  end.

Definition register_conn (ptr : Z) (added : bool) (e : epoll_event) (fd : Z) (ip : list Z) (evs : list epoll_event)
  (s : EpollSocket) : EpollSocket + fault :=
  let s := set_heap (<[ptr := mk_epoll_context (on_accept fd) fd ip]> (es_heap s)) s in
  if added then
    inl (set_main (M_events evs) (epoll_ctl_add fd (mk_event (Z.lor EPOLLIN EPOLLONESHOT) ptr) s))
  else main_closes evs (closing_of (close_and_release e s) s).

Definition main_step (i : answer) (s : EpollSocket) : option (EpollSocket + fault) :=
  match es_main s, i with
  | M_wait, I_ready fds => '(evs, s') ← epoll_wait fds s; Some (inl (set_main (M_events evs) s'))
  | M_wait, I_interrupted => Some (inl (set_main (M_events []) s))
  | M_wait, I_wait_error => Some (inl (set_main M_stopped s))
  | M_events [], I_go => Some (inl (set_main (if es_status s =? S_STOP then M_stopped else M_wait) s))
  | M_events (e :: evs), _ => handle_event i e evs s
  | M_accept e evs, I_accept res => Some (inl (accept_socket res e evs s))
  | M_accepted e fd ip evs, I_go => Some (inl (set_main (M_register e fd ip evs) (set_clients (es_clients s + 1) s)))
  | M_register e fd ip evs, I_register ptr added => Some (register_conn ptr added e fd ip evs s)
  | M_reject evs, I_go =>
      Some (inl (set_main (M_events evs)
        (if (es_clients s =? 0) && (es_status s =? S_REJECT_CONN) then set_status S_STOP s else s)))
  | M_closing evs, I_go => Some (inl (set_main (M_events evs) (release_client s)))
  | _, _ => None
  end.

(** *** The threads of the pool, and stop_epoll *)

Inductive loop_action :=
  | Loop_main (i : answer)
  | Loop_take                       (* a worker takes the first task *)
  | Loop_reader (k : nat) (rcv : R) (* the [k]-th running task goes on *)
  | Loop_stop.

Definition reader_step (k : nat) (rcv : R) (s : EpollSocket) : option (EpollSocket + fault) :=
  match es_readers s !! k with
  | Some (R_read e) =>
      Some (match handle_readable_event rcv e s with
            | inr f => inr f
            | inl (Some r, s) => inl (set_readers (<[k := r]> (es_readers s)) s)
            | inl (None, s) => inl (set_readers (delete k (es_readers s)) s)
            end)
  | Some R_closing => Some (inl (release_client (set_readers (delete k (es_readers s)) s)))
  | None => None
  end.

Definition stop_epoll (s : EpollSocket) : EpollSocket := set_status S_REJECT_CONN s.

Definition loop_act (a : loop_action) (s : EpollSocket) : option (EpollSocket + fault) :=
  match a with
  | Loop_main i => main_step i s
  | Loop_take =>
      match es_tasks s with
      | e :: rest => Some (inl (set_readers (es_readers s ++ [R_read e]) (set_es_tasks rest s)))
      | [] => None
      end
  | Loop_reader k rcv => reader_step k rcv s
  | Loop_stop => Some (inl (stop_epoll s))
  end.

(** ** start_epoll

    The constructor; the sockets to listen on; their registration, in which the
    upper half of [ev.data] is what was in memory ([garbage]). *)
Definition EpollSocket_new : EpollSocket :=
  mk_epoll ∅ 0 S_RUN ∅ ∅ ∅ [] [] M_wait.

(** [socket], [bind] and [listen]. *)
Definition bind_on (res : option Z * bool * bool) (s : EpollSocket) : Z * EpollSocket :=
  match res with
  | (Some sockfd, true, true) =>
      (0, mk_epoll (es_listen_sockets s ∪ {[sockfd]}) (es_clients s) (es_status s) (es_interest s) (es_open s)
            (es_heap s) (es_tasks s) (es_readers s) (es_main s))
  | _ => (-1, s)
  end.

(** One answer for each address of [_bind_ips], or one for [INADDR_ANY]. *)
Fixpoint listen_on (res : list (option Z * bool * bool)) (s : EpollSocket) : Z * EpollSocket :=
  match res with
  | [] => (0, s)
  | r :: res' =>
      let '(ret, s') := bind_on r s in
      if negb (ret =? 0) then (ret, s') else listen_on res' s'
  end.

Fixpoint add_listen_socks (socks : list Z) (garbage : Z -> Z) (added : Z -> bool) (s : EpollSocket) : Z * EpollSocket :=
  match socks with
  | [] => (0, s)
  | sockfd :: socks' =>
      if added sockfd then
        add_listen_socks socks' garbage added
          (epoll_ctl_add sockfd (mk_event EPOLLIN (sockfd + 2 ^ 32 * garbage sockfd)) s)
      else (-1, s)
  end.

Definition add_listen_sock_to_epoll (garbage : Z -> Z) (added : Z -> bool) (s : EpollSocket) : Z * EpollSocket :=
  add_listen_socks (elements (es_listen_sockets s)) garbage added s.

(** The code returned when the loop is not reached, or the state at its first
    [epoll_wait]. *)
Definition start_epoll (tp_ret : Z) (socks : list (option Z * bool * bool)) (created : bool) (garbage : Z -> Z)
  (added : Z -> bool) (s : EpollSocket) : Z + EpollSocket :=
  if negb (tp_ret =? 0) then inl tp_ret else
  let '(ret, s) := listen_on socks s in
  if negb (ret =? 0) then inl ret else
  if negb created then inl (-1) else
  let '(ret, s) := add_listen_sock_to_epoll garbage added s in
  if negb (ret =? 0) then inl ret else inr s.

End loop.

Arguments EpollContext : clear implicits.
Arguments EpollSocket : clear implicits.
Arguments answer : clear implicits.
Arguments loop_action : clear implicits.
