(* ===== verification/EpollProps.v ===== *)
(** * EpollProps: the event loop keeps its connections apart

    Every connection is at any time armed in the interest list, in the hands of exactly
    one thread, or lost behind an event with neither input nor output, which the loop only
    logs; its context is freed once; the client count is exact; and a loop that is stopped
    between two connections leaves nothing behind.  What [epoll_ctl] and [epoll_wait]
    answer is free; a registration that fails brings the loop down. *)
From stdpp Require Import gmap.
From S2P Require Import Prelude EpollSocket.

(** What the theorems ask of a watcher: an invariant of its contexts that the handlers
    keep, the exceptions they may raise, and answers that the loop knows. *)
Class WatcherLaws {C R W : Type} `{!EpollSocketWatcher C R W} (P : C -> Prop) (F : fault -> Prop) : Prop := {
  accept_keeps fd : P (on_accept fd);
  readable_keeps rcv ip c : P c ->
    match on_readable rcv ip c with
    | inl (ret, c') => (P c' /\ (ret = READ_OVER \/ ret = READ_CONTINUE)) \/ ret = READ_CLOSE
    | inr f => F f
    end;
  writeable_keeps snd c : P c ->
    let '(ret, c') := on_writeable snd c in
    P c' /\ (ret = WRITE_CONN_ALIVE \/ ret = WRITE_CONN_CLOSE \/ ret = WRITE_CONN_CONTINUE);
}.

Section invariant.
Context {C R W : Type} `{!EpollSocketWatcher C R W} {P : C -> Prop} {F : fault -> Prop} `{!WatcherLaws P F}.
Implicit Types s : EpollSocket C.

(** ** Who has a connection

    [ow]: the contexts in the hands of threads. *)
Record conns_ok (ow : list Z) s : Prop := {
  co_heap : forall p c, es_heap s !! p = Some c ->
    p <> 0 /\ (s32 p ∉ es_listen_sockets s) /\ ec_fd c ∈ es_open s /\ P (ec_ptr c) /\
    exists ev armed, es_interest s !! ec_fd c = Some (mk_interest (mk_event ev p) armed) /\
      has_bit EPOLLONESHOT ev = true /\ (armed = true <-> p ∉ ow);
  co_nodup : NoDup ow;
  co_owned : forall p, p ∈ ow -> is_Some (es_heap s !! p);
  co_interest : forall fd i, es_interest s !! fd = Some i ->
    (fd ∈ es_listen_sockets s /\ data_fd (in_event i) = fd) \/
    ((fd ∉ es_listen_sockets s) /\ exists c, es_heap s !! data (in_event i) = Some c /\ ec_fd c = fd);
  co_open : forall fd, fd ∈ es_open s -> fd ∉ es_listen_sockets s;
}.

Lemma conns_ok_perm ow ow' s : ow ≡ₚ ow' -> conns_ok ow s -> conns_ok ow' s.
Proof.
  intros E [H1 H2 H3 H4 H5]. constructor; [| |by setoid_rewrite <-E|done|done].
  - intros p c Hp. by setoid_rewrite <-E; apply H1.
  - by rewrite <-E.
Qed.

(** Parts of the state that it does not look at. *)
Lemma conns_ok_ext ow s s' :
  es_listen_sockets s' = es_listen_sockets s -> es_heap s' = es_heap s -> es_interest s' = es_interest s ->
  es_open s' = es_open s -> conns_ok ow s -> conns_ok ow s'.
Proof. intros E1 E2 E3 E4 [H1 H2 H3 H4 H5]. constructor; rewrite ?E1, ?E2, ?E3, ?E4; done. Qed.

(** Without contexts nobody has one. *)
Lemma no_owners ow s : conns_ok ow s -> es_heap s = ∅ -> ow = [].
Proof.
  intros Hok He. destruct ow as [|p ow]; [done|]. destruct (co_owned _ _ Hok p ltac:(left)) as [c Hc].
  by rewrite He, lookup_empty in Hc.
Qed.

(** Two contexts do not share a descriptor. *)
Lemma fd_inj ow s p c p' c' :
  conns_ok ow s -> es_heap s !! p = Some c -> es_heap s !! p' = Some c' -> ec_fd c = ec_fd c' -> p = p'.
Proof.
  intros Hok Hp Hp' E. destruct (co_heap ow s Hok p c Hp) as (_ & _ & _ & _ & ev & a & Hi & _).
  destruct (co_heap ow s Hok p' c' Hp') as (_ & _ & _ & _ & ev' & a' & Hi' & _). rewrite E in Hi. congruence.
Qed.

(** The handler has changed the context. *)
Lemma conns_ok_update ow s p c x :
  conns_ok ow s -> es_heap s !! p = Some c -> P x ->
  conns_ok ow (set_heap (<[p := mk_epoll_context x (ec_fd c) (ec_client_ip c)]> (es_heap s)) s).
Proof.
  intros [H1 H2 H3 H4 H5] Hp Hx. constructor; cbn; try done.
  - intros q c'. rewrite lookup_insert_Some. intros [[<- <-]|[_ Hq]]; [|by apply H1]. cbn.
    destruct (H1 p c Hp) as (? & ? & ? & ? & ?). done.
  - intros q Hq. rewrite lookup_insert_is_Some. destruct (decide (p = q)); auto.
  - intros fd i Hi. destruct (H4 fd i Hi) as [?|(? & c' & Hc' & Hfd)]; [by left|right]. split; [done|].
    destruct (decide (data (in_event i) = p)) as [E|E].
    + rewrite E, lookup_insert_eq. eexists. split; [done|]. cbn. rewrite E in Hc'. congruence.
    + rewrite lookup_insert_ne by done. by exists c'.
Qed.

(** Arming the descriptor again gives the connection back to the kernel. *)
Lemma conns_ok_arm ow s p c ev :
  conns_ok (p :: ow) s -> es_heap s !! p = Some c -> has_bit EPOLLONESHOT ev = true ->
  conns_ok ow (epoll_ctl_mod (ec_fd c) (mk_event ev p) s).
Proof.
  intros Hok Hp Hev. destruct (co_heap _ _ Hok p c Hp) as (_ & _ & _ & _ & ev0 & a0 & Hi0 & _).
  unfold epoll_ctl_mod. rewrite Hi0. pose proof (fun q c' => fd_inj _ s q c' p c Hok) as Hinj.
  destruct Hok as [H1 H2 H3 H4 H5]. apply NoDup_cons in H2 as [Hn H2]. constructor; cbn; try done.
  - intros q c' Hq. destruct (H1 q c' Hq) as (? & ? & ? & ? & ev' & a' & Hi' & Hone & Ha).
    repeat (split; [done|]). destruct (decide (q = p)) as [->|Hne].
    + assert (c' = c) as -> by congruence. exists ev, true. by rewrite lookup_insert_eq.
    + assert (Hfd : ec_fd c' <> ec_fd c) by (intros E; by apply Hne, (Hinj q c')).
      exists ev', a'. rewrite lookup_insert_ne by done.
      split; [done|]. split; [done|]. rewrite Ha, not_elem_of_cons. tauto.
  - intros q Hq. apply H3. by right.
  - intros fd i. rewrite lookup_insert_Some. intros [[<- <-]|[_ Hi]]; [|by apply H4]. cbn.
    destruct (H4 _ _ Hi0) as [[Hl _]|[? _]]; [|right; split; [done|by exists c]].
    exfalso. destruct (H1 p c Hp) as (_ & _ & Ho & _). by apply (H5 _ Ho).
Qed.

(** What a handler of a connection changes besides: nothing, but for the context that
    is gone when the connection is [closed]. *)
Record handled (closed : bool) s s' : Prop := {
  hd_listen : es_listen_sockets s' = es_listen_sockets s;
  hd_clients : es_clients s' = es_clients s;
  hd_status : es_status s' = es_status s;
  hd_tasks : es_tasks s' = es_tasks s;
  hd_readers : es_readers s' = es_readers s;
  hd_main : es_main s' = es_main s;
  hd_open : forall fd, fd ∈ es_open s -> es_interest s !! fd = None -> fd ∈ es_open s';
  hd_interest : forall fd, es_interest s !! fd = None -> es_interest s' !! fd = None;
  hd_size : Z.of_nat (size (es_heap s')) = Z.of_nat (size (es_heap s)) - Z.b2z closed;
}.

(** Closing it. *)
Lemma conns_ok_close ow s e :
  conns_ok (data e :: ow) s ->
  exists s', close_and_release e s = inl (Some s') /\ conns_ok ow s' /\ handled true s s'.
Proof.
  intros Hok. destruct (co_owned _ _ Hok (data e) ltac:(left)) as [c Hc].
  destruct (co_heap _ _ Hok _ _ Hc) as (Hnz & _ & Ho & _ & ev0 & a0 & Hi0 & _).
  unfold close_and_release, data_ptr. rewrite (proj2 (Z.eqb_neq _ _) Hnz), Hc. eexists. split; [done|].
  pose proof (fun q c' => fd_inj _ s q c' (data e) c Hok) as Hinj.
  destruct Hok as [H1 H2 H3 H4 H5]. apply NoDup_cons in H2 as [Hn H2]. split; [|constructor; try done; cbn].
  - constructor; cbn; try done.
    + intros q c'. rewrite lookup_delete_Some. intros [Hne Hq].
      destruct (H1 q c' Hq) as (? & ? & ? & ? & ev' & a' & Hi' & Hone & Ha). split; [done|]. split; [done|].
      assert (ec_fd c' <> ec_fd c) by (intros E; by apply Hne; symmetry; apply (Hinj q c')).
      split; [apply elem_of_difference; split; [done|by rewrite elem_of_singleton]|]. split; [done|].
      exists ev', a'. rewrite lookup_delete_ne by done. split; [done|]. split; [done|].
      rewrite Ha, not_elem_of_cons. split; [tauto|]. intros ?. split; [congruence|done].
    + intros q Hq. rewrite lookup_delete_ne by (intros E; apply Hn; by rewrite E). apply H3. by right.
    + intros fd i. rewrite lookup_delete_Some. intros [Hne Hi]. destruct (H4 fd i Hi) as [?|(? & c' & Hc' & Hfd)]; [by left|].
      right. split; [done|]. exists c'. rewrite lookup_delete_ne; [done|]. intros E. rewrite <-E in Hc'. congruence.
    + intros fd Hfd. apply elem_of_difference in Hfd as [Hfd _]. by apply H5.
  - intros fd Hfd Hn'. apply elem_of_difference. split; [done|]. apply not_elem_of_singleton. congruence.
  - intros fd Hfd. rewrite lookup_delete_None. by right.
  - rewrite map_size_delete, Hc. cbn. assert (size (es_heap s) <> 0%nat); [|lia].
    apply map_size_non_empty_iff. intros E. by rewrite E, lookup_empty in Hc.
Qed.

(** What a system call of the kernel or of the interest list leaves alone. *)
Definition same_rest s s' : Prop :=
  es_listen_sockets s' = es_listen_sockets s /\ es_clients s' = es_clients s /\ es_status s' = es_status s /\
  es_heap s' = es_heap s /\ es_open s' = es_open s /\ es_tasks s' = es_tasks s /\ es_readers s' = es_readers s /\
  es_main s' = es_main s.

(** An event that [epoll_wait] delivers. *)
Lemma conns_ok_report ow s fd revents e s' :
  conns_ok ow s -> report fd revents s = Some (e, s') ->
  same_rest s s' /\ events e = revents /\ (forall fd', es_interest s !! fd' = None -> es_interest s' !! fd' = None) /\
  ((data_fd e ∈ es_listen_sockets s /\ fd ∈ es_listen_sockets s /\ conns_ok ow s') \/
   ((data_fd e ∉ es_listen_sockets s) /\ (fd ∉ es_listen_sockets s) /\ conns_ok (data e :: ow) s')).
Proof.
  intros Hok. unfold report. destruct (es_interest s !! fd) as [[[ev p] armed]|] eqn:Hi; [|done].
  destruct armed; [|done]. destruct (_ && _); [|done]. intros [= <- <-]. split; [by repeat split|].
  split; [done|]. split.
  { intros fd' Hfd'. cbn. rewrite lookup_insert_ne; congruence. }
  pose proof (fun q c' p c => fd_inj ow s q c' p c Hok) as Hinj.
  destruct Hok as [H1 H2 H3 H4 H5]. destruct (H4 fd _ Hi) as [[Hl Hd]|(Hl & c & Hc & Hfd)]; cbn in *.
  - left. split; [change (data_fd (mk_event revents p)) with (data_fd (mk_event ev p)); by rewrite Hd|]. split; [done|]. constructor; cbn; try done.
    + intros q c Hq. destruct (H1 q c Hq) as (? & ? & Ho & ? & ev' & a' & Hi' & Hone & Ha).
      repeat (split; [done|]). exists ev', a'. rewrite lookup_insert_ne; [done|].
      intros E. apply (H5 _ Ho). by rewrite <-E.
    + intros fd' i. rewrite lookup_insert_Some. intros [[<- <-]|[_ Hi']]; [by left|by apply H4].
  - right. destruct (H1 _ c Hc) as (Hnz & Hl' & Ho & HP & ev' & a' & Hi' & Hone & Ha).
    rewrite Hfd, Hi in Hi'. injection Hi' as <- <-. cbn in *. split; [done|]. split; [done|].
    assert (Hn : p ∉ ow) by tauto.
    constructor; cbn; try done.
    + intros q c' Hq. destruct (H1 q c' Hq) as (? & ? & ? & ? & ev1 & a1 & Hi1 & Hone1 & Ha1).
      repeat (split; [done|]). destruct (decide (q = p)) as [->|Hne].
      * assert (c' = c) as -> by congruence. rewrite Hfd, lookup_insert_eq. exists ev, false.
        rewrite Hone. split; [done|]. split; [done|]. rewrite not_elem_of_cons. split; [done|tauto].
      * exists ev1, a1. rewrite lookup_insert_ne by (intros E; apply Hne, (Hinj q c' p c); congruence).
        split; [done|]. split; [done|]. rewrite Ha1, not_elem_of_cons. tauto.
    + by apply NoDup_cons.
    + intros q. rewrite elem_of_cons. intros [->|Hq]; [by exists c|by apply H3].
    + intros fd' i. rewrite lookup_insert_Some. intros [[<- <-]|[_ Hi']]; [|by apply H4].
      right. split; [done|]. by exists c.
Qed.

(** A new connection. *)
Lemma conns_ok_register ow s ptr fd ip :
  conns_ok ow s -> ptr <> 0 -> (s32 ptr ∉ es_listen_sockets s) -> es_heap s !! ptr = None ->
  fd ∈ es_open s -> es_interest s !! fd = None ->
  conns_ok ow (epoll_ctl_add fd (mk_event (Z.lor EPOLLIN EPOLLONESHOT) ptr)
    (set_heap (<[ptr := mk_epoll_context (on_accept fd) fd ip]> (es_heap s)) s)).
Proof.
  intros [H1 H2 H3 H4 H5] Hnz Hl Hnew Ho Hi. constructor; cbn; try done.
  - intros p c. rewrite lookup_insert_Some. intros [[<- <-]|[Hne Hp]].
    + cbn. split; [done|]. split; [done|]. split; [done|]. split; [apply accept_keeps|].
      exists (Z.lor EPOLLIN EPOLLONESHOT), true. rewrite lookup_insert_eq. split; [done|]. split; [done|].
      split; [|done]. intros _ Hin. destruct (H3 _ Hin) as [c Hc]. congruence.
    + destruct (H1 p c Hp) as (? & ? & ? & ? & ev & a & Hi' & ? & ?). repeat (split; [done|]).
      exists ev, a. rewrite lookup_insert_ne by congruence. done.
  - intros p Hp. rewrite lookup_insert_is_Some'. auto.
  - intros fd' i. rewrite lookup_insert_Some. intros [[<- <-]|[Hne Hi']].
    + right. split; [by apply H5|]. eexists. cbn. by rewrite lookup_insert_eq.
    + destruct (H4 fd' i Hi') as [?|(? & c & Hc & Hfd)]; [by left|right]. split; [done|]. exists c.
      rewrite lookup_insert_ne; [done|]. intros E. rewrite <-E in Hc. congruence.
Qed.


(** ** The handlers *)

(** The handler has changed the context, the rest of its work follows. *)
Lemma handled_update b s s' p c x :
  es_heap s !! p = Some c ->
  handled b (set_heap (<[p := mk_epoll_context x (ec_fd c) (ec_client_ip c)]> (es_heap s)) s) s' -> handled b s s'.
Proof.
  intros Hp [H1 H2 H3 H4 H5 H6 H7 H8 H9]. constructor; try done.
  rewrite H9. cbn. rewrite map_size_insert_Some by eauto. done.
Qed.

Lemma handled_arm s p c ev ow :
  conns_ok ow s -> es_heap s !! p = Some c -> handled false s (epoll_ctl_mod (ec_fd c) (mk_event ev p) s).
Proof.
  intros Hok Hp. destruct (co_heap _ _ Hok p c Hp) as (_ & _ & _ & _ & ev0 & a0 & Hi0 & _).
  unfold epoll_ctl_mod. rewrite Hi0. constructor; try done; cbn; [|lia].
  intros fd Hfd. rewrite lookup_insert_ne; congruence.
Qed.

(** A context that is freed at once need not be looked at. *)
Lemma close_update e s c x :
  es_heap s !! data_ptr e = Some c ->
  close_and_release e (set_heap (<[data_ptr e := mk_epoll_context x (ec_fd c) (ec_client_ip c)]> (es_heap s)) s)
  = close_and_release e s.
Proof.
  intros Hc. unfold close_and_release. destruct (data_ptr e =? 0); [done|]. cbn. rewrite lookup_insert_eq, Hc. cbn.
  by rewrite delete_insert_eq.
Qed.

Lemma readable_ok ow s e rcv :
  conns_ok (data e :: ow) s ->
  match handle_readable_event rcv e s with
  | inr f => F f
  | inl (r, s') => conns_ok ow s' /\
      ((r = None /\ handled false s s') \/ (r = Some R_closing /\ handled true s s'))
  end.
Proof.
  intros Hok. destruct (co_owned _ _ Hok (data e) ltac:(left)) as [c Hc].
  destruct (co_heap _ _ Hok _ _ Hc) as (_ & _ & _ & HP & _). unfold handle_readable_event, data_ptr. rewrite Hc.
  pose proof (readable_keeps (P := P) (F := F) rcv (ec_client_ip c) (ec_ptr c) HP) as Hlaw.
  destruct (on_readable rcv (ec_client_ip c) (ec_ptr c)) as [[ret x]|f]; [|done].
  set (s1 := set_heap _ s) in *. destruct Hlaw as [[Hx Hret]| ->].
  - pose proof (conns_ok_update _ s (data e) c x Hok Hc Hx) as Hok'.
    assert (Hc1 : es_heap s1 !! data e = Some (mk_epoll_context x (ec_fd c) (ec_client_ip c)))
      by apply lookup_insert_eq.
    destruct Hret as [-> | ->]; cbn [Z.eqb READ_OVER READ_CONTINUE READ_CLOSE Pos.eqb].
    all: split; [by eapply (conns_ok_arm ow s1 (data e) (mk_epoll_context x (ec_fd c) (ec_client_ip c)))|].
    all: left; split; [done|]; eapply handled_update; [done|].
    all: by eapply (handled_arm s1 (data e) (mk_epoll_context x (ec_fd c) (ec_client_ip c))).
  - cbn [Z.eqb READ_OVER READ_CONTINUE READ_CLOSE Pos.eqb]. unfold s1. rewrite (close_update e s c) by done.
    destruct (conns_ok_close ow s e Hok) as (s2 & -> & H2 & Hh). split; [done|]. by right.
Qed.

Lemma writeable_ok ow s e snd :
  conns_ok (data e :: ow) s ->
  exists b s', handle_writeable_event snd e s = inl (b, s') /\ conns_ok ow s' /\ handled b s s'.
Proof.
  intros Hok. destruct (co_owned _ _ Hok (data e) ltac:(left)) as [c Hc].
  destruct (co_heap _ _ Hok _ _ Hc) as (_ & _ & _ & HP & _). unfold handle_writeable_event, data_ptr. rewrite Hc.
  pose proof (writeable_keeps (P := P) (F := F) snd (ec_ptr c) HP) as Hlaw.
  destruct (on_writeable snd (ec_ptr c)) as [ret x]. destruct Hlaw as [Hx Hret].
  pose proof (conns_ok_update _ s (data e) c x Hok Hc Hx) as Hok'.
  set (s1 := set_heap _ s) in *.
  assert (Hclose : exists b s', match close_and_release e s1 with
      | inl (Some s) => inl (true, s) | inl None => inl (false, s1) | inr f => inr f end = inl (b, s') /\
      conns_ok ow s' /\ handled b s s').
  { destruct (conns_ok_close ow s1 e Hok') as (s2 & -> & H2 & Hh). exists true, s2. split; [done|]. split; [done|].
    by eapply handled_update. }
  assert (Harm : forall ev, has_bit EPOLLONESHOT ev = true ->
    conns_ok ow (epoll_ctl_mod (ec_fd c) (mk_event ev (data e)) s1) /\
    handled false s (epoll_ctl_mod (ec_fd c) (mk_event ev (data e)) s1)).
  { assert (Hc1 : es_heap s1 !! data e = Some (mk_epoll_context x (ec_fd c) (ec_client_ip c)))
      by apply lookup_insert_eq.
    intros ev Hev. split; [by eapply (conns_ok_arm ow s1 _ (mk_epoll_context x (ec_fd c) (ec_client_ip c)))|].
    eapply handled_update; [done|]. by eapply (handled_arm s1 _ (mk_epoll_context x (ec_fd c) (ec_client_ip c))). }
  destruct Hret as [-> |[-> | ->]]; cbn [Z.eqb WRITE_CONN_ALIVE WRITE_CONN_CLOSE WRITE_CONN_CONTINUE Pos.eqb andb].
  - destruct (es_status s1 =? S_REJECT_CONN); [exact Hclose|]. eexists _, _. split; [done|]. by apply Harm.
  - exact Hclose.
  - eexists _, _. split; [done|]. by apply Harm.
Qed.


(** ** The whole loop *)

Definition conn_events (L : gset Z) (evs : list epoll_event) : list epoll_event :=
  filter (fun e => data_fd e ∉ L) evs.

(** The events that the main thread still has to look at. *)
Definition main_events s : list epoll_event :=
  match es_main s with
  | M_events evs | M_accept _ evs | M_accepted _ _ _ evs | M_register _ _ _ evs | M_reject evs | M_closing evs => evs
  | M_wait | M_stopped => []
  end.

Definition reader_event (r : reader) : option epoll_event := match r with R_read e => Some e | R_closing => None end.
Definition is_closing (r : reader) : bool := match r with R_closing => true | _ => false end.

(** The contexts in the hands of the main thread, of the queue and of the workers. *)
Definition owners s : list Z :=
  data <$> (conn_events (es_listen_sockets s) (main_events s) ++ es_tasks s ++ omap reader_event (es_readers s)).

(** Connections that are counted but have no context yet or no more. *)
Definition between s : Z :=
  match es_main s with M_register _ _ _ _ | M_closing _ => 1 | _ => 0 end
  + Z.of_nat (length (filter is_closing (es_readers s))).

(** An event of a connection that [handle_event] only logs, and the connection that the
    main thread forgets with it: its descriptor stays disarmed. *)
Definition neglected (L : gset Z) (e : epoll_event) : bool :=
  bool_decide (data_fd e ∉ L) && negb (has_bit EPOLLIN (events e)) && negb (has_bit EPOLLOUT (events e)).

Definition forgets (a : loop_action R W) s : list Z :=
  match a, es_main s with
  | Loop_main I_go, M_events (e :: _) => if neglected (es_listen_sockets s) e then [data e] else []
  | _, _ => []
  end.

(** [lost]: the connections that were forgotten so far. *)
Record loop_ok (lost : list Z) s : Prop := {
  lo_conns : conns_ok (owners s ++ lost) s;
  lo_listen : (0 ∉ es_listen_sockets s) /\
    match es_main s with
    | M_accept e _ | M_accepted e _ _ _ | M_register e _ _ _ => data_fd e ∈ es_listen_sockets s
    | _ => True
    end;
  lo_fresh : match es_main s with
    | M_accepted _ fd _ _ | M_register _ fd _ _ => fd ∈ es_open s /\ es_interest s !! fd = None
    | _ => True
    end;
  lo_clients : es_clients s = Z.of_nat (size (es_heap s)) + between s;
}.

(** What the system promises: a new descriptor is one that is not in use, and [new] yields
    fresh memory (at an address whose lower half is not the number of a listening
    socket).  Any event that was asked for or that reports an error or hang-up may come
    ([report]), and registering a descriptor may fail. *)
Definition answer_ok (i : answer W) s : Prop :=
  match i with
  | I_accept (Some (fd, _)) => (fd ∉ es_open s) /\ (fd ∉ es_listen_sockets s)
  | I_register ptr added =>
      ptr <> 0 /\ (s32 ptr ∉ es_listen_sockets s) /\ es_heap s !! ptr = None
  | _ => True
  end.

Definition action_ok (a : loop_action R W) s : Prop :=
  match a with Loop_main i => answer_ok i s | _ => True end.

(** What may bring the loop down: the watcher's handlers, and [EPOLL_CTL_ADD] when it
    fails for a new connection. *)
Definition failed_registration (a : loop_action R W) : bool :=
  match a with Loop_main (I_register _ false) => true | _ => false end.
Definition step_ok (lost : list Z) (a : loop_action R W) s (r : EpollSocket C + fault) : Prop :=
  match r with
  | inl s' => loop_ok (forgets a s ++ lost) s'
  | inr f => F f \/ (f = OutOfBounds /\ failed_registration a = true)
  end.

Lemma epoll_wait_ok fds : forall s ow evs s',
  conns_ok ow s -> epoll_wait fds s = Some (evs, s') ->
  conns_ok ((data <$> conn_events (es_listen_sockets s) evs) ++ ow) s' /\ same_rest s s'.
Proof.
  induction fds as [|[fd r] fds IH]; intros s ow evs s' Hok; cbn [epoll_wait].
  { intros [= <- <-]. cbn. by split; [|repeat split]. }
  destruct (report fd r s) as [[e s1]|] eqn:Hr; cbn; [|done].
  destruct (epoll_wait fds s1) as [[evs1 s2]|] eqn:Hw; cbn; [|done]. intros [= <- <-].
  destruct (conns_ok_report ow s fd r e s1 Hok Hr) as (Hsame & _ & _ & Hcase).
  assert (EL : es_listen_sockets s1 = es_listen_sockets s) by apply Hsame.
  assert (Hsr : forall s3, same_rest s1 s3 -> same_rest s s3).
  { intros s3 (?&?&?&?&?&?&?&?). destruct Hsame as (?&?&?&?&?&?&?&?). repeat split; congruence. }
  destruct Hcase as [(Hl & Hlf & Hok1)|(Hl & Hlf & Hok1)];
    destruct (IH s1 _ evs1 s2 Hok1 Hw) as (H1 & H2); rewrite EL in *; (split; [|auto]); unfold conn_events in *.
  - by rewrite filter_cons_False by tauto.
  - rewrite filter_cons_True by done. eapply conns_ok_perm; [|exact H1]. cbn. by rewrite <-Permutation_middle.
Qed.

Lemma owners_head e evs s :
  es_main s = M_events (e :: evs) -> (data_fd e ∉ es_listen_sockets s) ->
  owners s = data e :: owners (set_main (M_events evs) s).
Proof. intros E Hl. unfold owners, main_events. rewrite E. cbn [es_main set_main]. unfold conn_events. by rewrite filter_cons_True. Qed.

Lemma owners_main m s :
  main_events (set_main m s) = main_events s -> owners (set_main m s) = owners s.
Proof. intros E. unfold owners. rewrite E. done. Qed.

(** A handler of the main thread is done with the first event. *)
Lemma loop_ok_handled b e evs lost s s' :
  loop_ok lost s -> es_main s = M_events (e :: evs) ->
  conns_ok (owners (set_main (M_events evs) s) ++ lost) s' -> handled b s s' ->
  loop_ok lost (set_main (if b then M_closing evs else M_events evs) s').
Proof.
  intros [H1 H2 H3 H4] E Hok [Hh1 Hh2 Hh3 Hh4 Hh5 Hh6 Hh7 Hh8 Hh9].
  assert (Ho : owners (set_main (if b then M_closing evs else M_events evs) s') = owners (set_main (M_events evs) s)).
  { unfold owners, main_events. cbn. rewrite Hh1, Hh4, Hh5. by destruct b. }
  constructor.
  - rewrite Ho. by apply (conns_ok_ext _ s').
  - cbn. rewrite Hh1. split; [apply H2|]. by destruct b.
  - cbn. by destruct b.
  - cbn. rewrite Hh2, Hh9, H4. unfold between. rewrite E. cbn. rewrite Hh5. destruct b; cbn; lia.
Qed.


(** *** The steps of the main thread *)

(** At places where nothing is accepted, opened or counted. *)
Definition plain_pc (m : main_pc) : Prop :=
  match m with M_accepted _ _ _ _ | M_register _ _ _ _ | M_closing _ => False | _ => True end.

Lemma loop_ok_same m lost s :
  loop_ok lost s -> main_events (set_main m s) = main_events s -> plain_pc m -> plain_pc (es_main s) ->
  match m with M_accept _ _ => False | _ => True end -> loop_ok lost (set_main m s).
Proof.
  intros [H1 H2 H3 H4] E Hm Hs Ha. constructor.
  - rewrite owners_main by done. by apply (conns_ok_ext _ s).
  - split; [apply H2|]. cbn. by destruct m.
  - cbn. by destruct m.
  - cbn. rewrite H4. unfold between. cbn. destruct m, (es_main s); done.
Qed.

(** The first event is of a listening socket, or forgotten. *)
Lemma loop_ok_next m e evs lost s :
  loop_ok lost s -> es_main s = M_events (e :: evs) -> main_events (set_main m s) = evs -> plain_pc m ->
  match m with M_accept e' _ => data_fd e' ∈ es_listen_sockets s | _ => True end ->
  loop_ok (if decide (data_fd e ∈ es_listen_sockets s) then lost else data e :: lost) (set_main m s).
Proof.
  intros [H1 H2 H3 H4] E Hm Hp Ha. constructor.
  - assert (Ho : owners s = (if decide (data_fd e ∈ es_listen_sockets s) then [] else [data e]) ++ owners (set_main m s)).
    { unfold owners. rewrite Hm. unfold main_events. rewrite E. unfold conn_events. cbn [es_listen_sockets set_main es_tasks es_readers].
      destruct (decide _); [by rewrite filter_cons_False by tauto|by rewrite filter_cons_True]. }
    rewrite Ho in H1. eapply (conns_ok_ext _ s), conns_ok_perm; [done..| |exact H1]. destruct (decide _); [done|].
    cbn [app]. by rewrite <-Permutation_middle.
  - split; [apply H2|]. cbn. by destruct m.
  - cbn. by destruct m.
  - cbn. rewrite H4. unfold between. rewrite E. cbn. by destruct m.
Qed.

Lemma event_ok i e evs lost s r :
  loop_ok lost s -> es_main s = M_events (e :: evs) -> handle_event i e evs s = Some r ->
  step_ok lost (Loop_main i) s r.
Proof.
  intros Hok E. unfold handle_event.
  assert (Hfg : forall s', (forall l, l = (if decide (data_fd e ∈ es_listen_sockets s) then lost else data e :: lost) -> loop_ok l s') ->
    bool_decide (data_fd e ∈ es_listen_sockets s) = true \/
      has_bit EPOLLIN (events e) = false /\ has_bit EPOLLOUT (events e) = false ->
    step_ok lost (Loop_main I_go) s (inl s')).
  { intros s' Hl Hn. apply Hl. unfold forgets. rewrite E. unfold neglected.
    destruct (decide (data_fd e ∈ es_listen_sockets s)) as [Hd|Hd]; [by rewrite bool_decide_false by tauto|].
    rewrite bool_decide_true by done. destruct Hn as [Hn%bool_decide_eq_true|[-> ->]]; done. }
  case_bool_decide as Hl.
  { destruct i; try done. intros [= <-]. apply Hfg; [intros l ->|by left].
    destruct (_ =? _); by apply (loop_ok_next _ e evs). }
  assert (Hc : conns_ok (data e :: owners (set_main (M_events evs) s) ++ lost) s).
  { change (data e :: ?l ++ lost) with ((data e :: l) ++ lost). rewrite <-owners_head by done. apply Hok. }
  assert (Hkeep : forall j, match j with I_go => False | _ => True end -> forgets (Loop_main j) s = []) by (by intros []).
  destruct (has_bit EPOLLIN (events e)) eqn:Hin; [|destruct (has_bit EPOLLOUT (events e)) eqn:Hout].
  - destruct i as [| | | | |[]| |]; try done; intros [= <-]; unfold step_ok.
    + rewrite Hkeep by done. destruct Hok as [H1 H2 H3 H4]. constructor.
      * eapply conns_ok_perm; [|by apply (conns_ok_ext _ s); [..|exact Hc]].
        unfold owners, main_events. cbn [es_main set_main set_es_tasks es_listen_sockets es_tasks es_readers].
        rewrite !fmap_app. cbn [fmap list_fmap app]. solve_Permutation.
      * by split; [apply H2|].
      * done.
      * cbn. rewrite H4. unfold between. by rewrite E.
    + destruct (conns_ok_close _ s e Hc) as (s' & -> & Hok' & Hh). cbn. by apply (loop_ok_handled true e evs lost s s').
  - destruct i; try done. intros [= <-].
    destruct (writeable_ok _ s e snd Hc) as (b & s' & -> & Hok' & Hh).
    pose proof (loop_ok_handled b e evs lost s s' Hok E Hok' Hh). by destruct b.
  - destruct i; try done. intros [= <-]. apply Hfg; [intros l ->; by apply (loop_ok_next _ e evs)|by right].
Qed.

Lemma accept_ok res e evs lost s :
  loop_ok lost s -> es_main s = M_accept e evs -> answer_ok (I_accept res) s -> loop_ok lost (accept_socket res e evs s).
Proof.
  intros Hok E Hans. assert (Hev : main_events s = evs) by (unfold main_events; by rewrite E).
  destruct res as [[fd ip]|]; cbn.
  - destruct Hans as [Hf Hl]. destruct Hok as [H1 H2 H3 H4]. constructor.
    + unfold owners. cbn. rewrite <-Hev at 1. fold (owners s). destruct H1 as [C1 C2 C3 C4 C5]. constructor; cbn; try done.
      * intros p c Hp. destruct (C1 p c Hp) as (? & ? & ? & ? & ?). repeat (split; [done|]).
        split; [by apply elem_of_union_l|done].
      * intros fd'. rewrite elem_of_union, elem_of_singleton. intros [?| ->]; [by apply C5|done].
    + rewrite E in H2. exact H2.
    + cbn. split; [by apply elem_of_union_r, elem_of_singleton|].
      destruct (es_interest s !! fd) as [i|] eqn:Hi; [|done]. exfalso.
      destruct (co_interest _ _ H1 fd i Hi) as [[? _]|(_ & c & Hc & Hfd)]; [done|].
      destruct (co_heap _ _ H1 _ _ Hc) as (_ & _ & Ho & _). congruence.
    + cbn. rewrite H4. unfold between. by rewrite E.
  - apply loop_ok_same; [done|by rewrite Hev|done|by rewrite E|done].
Qed.

Lemma register_fails ptr e fd ip evs lost s :
  loop_ok lost s -> es_main s = M_register e fd ip evs -> s32 ptr ∉ es_listen_sockets s ->
  register_conn ptr false e fd ip evs s = inr OutOfBounds.
Proof.
  intros [H1 H2 H3 H4] E Hl. rewrite E in H2. destruct H2 as [H0 H2].
  assert (Hd : es_heap s !! data e = None).
  { destruct (es_heap s !! data e) as [c|] eqn:Hc; [|done]. by destruct (co_heap _ _ H1 _ _ Hc) as (_ & ? & _). }
  unfold register_conn, close_and_release, data_ptr. unfold data_fd in H2.
  destruct (Z.eqb_spec (data e) 0) as [E0|E0]; [by rewrite E0 in H2|]. cbn.
  by rewrite lookup_insert_ne, Hd by (intros ->; by apply Hl).
Qed.

Lemma register_ok ptr added e fd ip evs lost s :
  loop_ok lost s -> es_main s = M_register e fd ip evs -> answer_ok (I_register ptr added) s ->
  step_ok lost (Loop_main (I_register ptr added)) s (register_conn ptr added e fd ip evs s).
Proof.
  intros Hok E (Hnz & Hl & Hnew). destruct added; [|rewrite (register_fails _ _ _ _ _ lost) by done; by right].
  unfold step_ok. cbn [register_conn forgets app]. destruct Hok as [H1 H2 H3 H4]. rewrite E in H2, H3.
  destruct H3 as [Ho Hi]. constructor.
  - assert (Eo : owners (set_main (M_events evs) s) = owners s)
      by (apply owners_main; unfold main_events; by rewrite E).
    rewrite <-Eo in H1.
    eapply (conns_ok_ext (owners (set_main (M_events evs) s) ++ lost));
      [..|by apply (conns_ok_register _ s ptr fd ip H1)]; done.
  - by split; [apply H2|].
  - done.
  - cbn. rewrite map_size_insert_None by done. rewrite H4. unfold between. rewrite E. cbn. lia.
Qed.

Lemma main_ok i lost s r :
  loop_ok lost s -> answer_ok i s -> main_step i s = Some r -> step_ok lost (Loop_main i) s r.
Proof.
  intros Hok Hans. unfold main_step.
  assert (Hf : match es_main s with M_events (_ :: _) => False | _ => True end -> forgets (Loop_main i) s = []).
  { unfold forgets. destruct i; try done. by destruct (es_main s) as [|[]| | | | | |]. }
  assert (Hsame : forall m, match es_main s with M_events (_ :: _) => False | _ => True end ->
    main_events (set_main m s) = main_events s -> plain_pc m -> plain_pc (es_main s) ->
    match m with M_accept _ _ => False | _ => True end -> step_ok lost (Loop_main i) s (inl (set_main m s))).
  { intros m Hm Hev Hp Hp' Ha. unfold step_ok. rewrite Hf by done. by apply loop_ok_same. }
  unfold main_events in Hsame.
  destruct (es_main s) as [|[|e evs]|e evs|e fd ip evs|e fd ip evs|evs|evs|] eqn:E.
  - destruct i; try done; [|intros [= <-]; by apply Hsame..].
    destruct (epoll_wait fds s) as [[evs s']|] eqn:Hw; cbn [mbind option_bind]; [|done]. intros [= <-].
    destruct (epoll_wait_ok fds s _ evs s' (lo_conns lost s Hok) Hw) as (H1 & (EL & Ecl & Est & Eh & Eop & Et & Er & Em)).
    unfold step_ok. rewrite Hf by done. constructor.
    + eapply conns_ok_perm; [|by apply (conns_ok_ext _ s'); [..|exact H1]].
      unfold owners, main_events. cbn. by rewrite E, EL, Et, Er, app_assoc, <-fmap_app.
    + cbn. rewrite EL. split; [apply (lo_listen lost s Hok)|done].
    + done.
    + cbn. pose proof (lo_clients lost s Hok) as H4. unfold between in *. rewrite E in H4. cbn in *.
      by rewrite Ecl, Eh, Er.
  - destruct i; try done. intros [= <-]. destruct (_ =? _); by apply Hsame.
  - by apply event_ok.
  - destruct i; try done. intros [= <-]. unfold step_ok. rewrite Hf by done. by apply accept_ok.
  - destruct i; try done. intros [= <-]. destruct Hok as [H1 H2 H3 H4]. rewrite E in H2, H3. unfold step_ok. rewrite Hf by done. constructor.
    + eapply conns_ok_ext; [..|unfold owners, main_events; cbn; unfold owners, main_events in H1; rewrite E in H1; exact H1]; done.
    + done.
    + done.
    + cbn. rewrite H4. unfold between. rewrite E. cbn. lia.
  - destruct i as [| | | |ptr added| | |]; try done. intros [= <-]. by apply register_ok.
  - destruct i; try done. intros [= <-]. pose proof (Hsame (M_events evs) I eq_refl I I I) as Hs.
    destruct (_ && _); [|done]. unfold step_ok in *. rewrite Hf in * by done. destruct Hs as [H1 H2 H3 H4]. constructor; [|done..].
    by apply (conns_ok_ext _ (set_main (M_events evs) s)).
  - destruct i; try done. intros [= <-]. destruct Hok as [H1 H2 H3 H4].
    assert (Hr : forall st, loop_ok lost (set_main (M_events evs) (set_status st (set_clients (es_clients s - 1) s)))).
    { intros st. constructor.
      - eapply conns_ok_ext; [..|unfold owners, main_events; cbn; unfold owners, main_events in H1; rewrite E in H1; exact H1]; done.
      - by split; [apply H2|].
      - done.
      - cbn. rewrite H4. unfold between. rewrite E. cbn. lia. }
    unfold step_ok. rewrite Hf by done. unfold release_client. cbn [set_clients es_clients es_status].
    destruct (_ && _); [apply Hr|]. apply (Hr (es_status s)).
  - by destruct i.
Qed.


(** *** The other threads *)

Lemma omap_delete {A B} (f : A -> option B) (l : list A) k x :
  l !! k = Some x -> omap f l ≡ₚ option_list (f x) ++ omap f (delete k l).
Proof.
  intros Hx. rewrite <-(take_drop_middle l k x Hx) at 1. rewrite delete_take_drop, !omap_app. cbn.
  destruct (f x); cbn; solve_Permutation.
Qed.

Lemma omap_insert {A B} (f : A -> option B) (l : list A) k x y :
  l !! k = Some x -> f y = None -> omap f (<[k := y]> l) ≡ₚ omap f (delete k l).
Proof.
  intros Hx Hy. rewrite insert_take_drop by (by eapply lookup_lt_Some).
  rewrite delete_take_drop, !omap_app. cbn. by rewrite Hy.
Qed.

Lemma closing_delete l k x :
  l !! k = Some x ->
  length (filter is_closing (delete k l)) = (length (filter is_closing l) - (if is_closing x then 1 else 0))%nat.
Proof.
  intros Hx. rewrite <-(take_drop_middle l k x Hx) at 2. rewrite delete_take_drop, !filter_app, filter_cons, !length_app.
  destruct (decide _) as [H|H], x; try done; cbn [is_closing length]; lia.
Qed.

Lemma closing_insert l k e :
  l !! k = Some (R_read e) -> length (filter is_closing (<[k := R_closing]> l)) = S (length (filter is_closing l)).
Proof.
  intros Hx. rewrite insert_take_drop by (by eapply lookup_lt_Some).
  rewrite <-(take_drop_middle l k _ Hx) at 3. rewrite !filter_app, !length_app, filter_cons_True, filter_cons_False by naive_solver.
  cbn [length]. lia.
Qed.

(** A task is over, or at the end of [close_and_release]. *)
Lemma loop_ok_task b k e lost s s' :
  loop_ok lost s -> es_readers s !! k = Some (R_read e) ->
  conns_ok (owners (set_readers (delete k (es_readers s)) s) ++ lost) s' -> handled b s s' ->
  loop_ok lost (set_readers (if b then <[k := R_closing]> (es_readers s') else delete k (es_readers s')) s').
Proof.
  intros [H1 H2 H3 H4] Hk Hok [Hh1 Hh2 Hh3 Hh4 Hh5 Hh6 Hh7 Hh8 Hh9]. constructor.
  - eapply conns_ok_perm; [|by apply (conns_ok_ext _ s'); [..|exact Hok]].
    unfold owners, main_events. cbn [es_readers set_readers es_tasks es_listen_sockets es_main].
    rewrite Hh1, Hh4, Hh5, Hh6. destruct b; [|done]. by rewrite (omap_insert reader_event (es_readers s) k (R_read e)).
  - cbn. by rewrite Hh1, Hh6.
  - cbn. rewrite Hh6. destruct (es_main s); try done; destruct H3; auto.
  - cbn. rewrite Hh2, Hh9, H4. unfold between. cbn. rewrite Hh5, Hh6. destruct b.
    + rewrite (closing_insert _ _ e) by done. destruct (es_main s); cbn; lia.
    + rewrite (closing_delete _ _ (R_read e)) by done. destruct (es_main s); cbn; lia.
Qed.

Lemma reader_conns k e lost s :
  loop_ok lost s -> es_readers s !! k = Some (R_read e) ->
  conns_ok (data e :: owners (set_readers (delete k (es_readers s)) s) ++ lost) s.
Proof.
  intros Hok Hk. eapply conns_ok_perm; [|apply Hok]. unfold owners, main_events.
  cbn [es_readers set_readers es_tasks es_listen_sockets es_main].
  rewrite (omap_delete reader_event (es_readers s) k (R_read e)) by done. cbn [reader_event option_list].
  rewrite !fmap_app. cbn [fmap list_fmap]. solve_Permutation.
Qed.

Lemma reader_ok k rcv lost s r :
  loop_ok lost s -> reader_step k rcv s = Some r -> step_ok lost (Loop_reader k rcv) s r.
Proof.
  intros Hok. unfold reader_step. destruct (es_readers s !! k) as [[e|]|] eqn:Hk; [| |done]; intros [= <-]; unfold step_ok; cbn [forgets app].
  - pose proof (reader_conns k e lost s Hok Hk) as Hc.
    pose proof (readable_ok _ s e rcv Hc) as Hr.
    destruct (handle_readable_event rcv e s) as [[[r|] s']|f]; [| |by left]; destruct Hr as [Hok' [[Hr Hh]|[Hr Hh]]]; try done.
    + injection Hr as ->. by apply (loop_ok_task true k e lost s s').
    + by apply (loop_ok_task false k e lost s s').
  - assert (Hs : forall st, loop_ok lost (set_status st (set_clients (es_clients s - 1) (set_readers (delete k (es_readers s)) s)))).
    { destruct Hok as [H1 H2 H3 H4]. intros st. constructor; [|done..|].
      - eapply conns_ok_perm; [|by apply (conns_ok_ext _ s); [..|exact H1]].
        unfold owners, main_events. cbn [es_readers set_readers es_tasks es_listen_sockets es_main set_status set_clients].
        by rewrite (omap_delete reader_event (es_readers s) k R_closing).
      - cbn. rewrite H4. unfold between. cbn. rewrite (closing_delete _ _ R_closing) by done.
        assert (length (filter is_closing (es_readers s)) <> 0%nat).
        { intros E. apply length_zero_iff_nil in E. apply list_elem_of_lookup_2 in Hk.
          assert (Hin : R_closing ∈ filter is_closing (es_readers s)) by by apply list_elem_of_filter.
          rewrite E in Hin. by apply not_elem_of_nil in Hin. }
        destruct (es_main s); cbn; lia. }
    unfold release_client. cbn [set_clients set_readers es_clients es_status]. destruct (_ && _); [apply Hs|].
    apply (Hs (es_status s)).
Qed.

Lemma act_ok a lost s r :
  loop_ok lost s -> action_ok a s -> loop_act a s = Some r -> step_ok lost a s r.
Proof.
  intros Hok Ha. destruct a as [i| |k rcv|]; cbn [loop_act].
  - by apply main_ok.
  - destruct (es_tasks s) as [|e rest] eqn:Et; [done|]. intros [= <-]. destruct Hok as [H1 H2 H3 H4].
    unfold step_ok. cbn [forgets app]. constructor; [|done..|].
    + eapply conns_ok_perm; [|by apply (conns_ok_ext _ s); [..|exact H1]].
      unfold owners, main_events. cbn [es_readers set_readers es_tasks set_es_tasks es_listen_sockets es_main].
      rewrite Et, omap_app, !fmap_app. cbn. solve_Permutation.
    + cbn. rewrite H4. unfold between. cbn. rewrite filter_app. cbn. by rewrite app_nil_r.
  - by apply reader_ok.
  - intros [= <-]. by destruct Hok as [H1 H2 H3 H4]; constructor; [apply (conns_ok_ext _ s)|..].
Qed.


Lemma act_registers a lost s s' :
  loop_ok lost s -> action_ok a s -> loop_act a s = Some (inl s') -> failed_registration a = false.
Proof.
  intros Hok Ha. destruct a as [[| | | |ptr []| | |]| | |]; try done. cbn. unfold main_step.
  destruct (es_main s) eqn:E; try done;
    [destruct evs; [done|]; unfold handle_event; by repeat case_match|]. by rewrite (register_fails _ _ _ _ _ lost) by (done || apply Ha).
Qed.

(** ** Executions *)

(** The state at the first [epoll_wait], with listening sockets that are proper
    descriptors (and not 0, the standard input). *)
Definition booted s0 : Prop :=
  exists tp_ret socks created garbage added,
    start_epoll tp_ret socks created garbage added EpollSocket_new = inr s0 /\
    forall fd, fd ∈ es_listen_sockets s0 -> 0 < fd < 2 ^ 31.

(** A run, and the connections forgotten in it. *)
Inductive loop_run s0 : list Z -> EpollSocket C -> Prop :=
  | loop_start : loop_run s0 [] s0
  | loop_step lost a s s' :
      loop_run s0 lost s -> action_ok a s -> loop_act a s = Some (inl s') -> loop_run s0 (forgets a s ++ lost) s'.

(** The same, where [stop_epoll] is only called while the main thread is not about to
    accept a connection. *)
Definition accepting s : bool :=
  match es_main s with M_accept _ _ | M_accepted _ _ _ _ | M_register _ _ _ _ => true | _ => false end.

Inductive orderly_run s0 : EpollSocket C -> Prop :=
  | orderly_start : orderly_run s0 s0
  | orderly_step a s s' : orderly_run s0 s -> action_ok a s -> (a = Loop_stop -> accepting s = false) ->
      loop_act a s = Some (inl s') -> orderly_run s0 s'.

Lemma listen_on_same res : forall s ret s', listen_on res s = (ret, s') ->
  exists L, s' = mk_epoll L (es_clients s) (es_status s) (es_interest s) (es_open s) (es_heap s) (es_tasks s) (es_readers s) (es_main s).
Proof.
  induction res as [|[[[fd|] []] []] res IH]; intros s ret s'; cbn;
    try (intros [= <- <-]; exists (es_listen_sockets s); by destruct s).
  intros H. apply IH in H as [L ->]. by exists L.
Qed.

Lemma add_listen_ok garbage added socks : forall s s', add_listen_socks socks garbage added s = (0, s') ->
  (forall fd, fd ∈ socks -> fd ∈ es_listen_sockets s /\ 0 < fd < 2 ^ 31) -> es_heap s = ∅ ->
  conns_ok [] s -> conns_ok [] s' /\ same_rest s s'.
Proof.
  induction socks as [|fd socks IH]; intros s s'; cbn.
  { intros [= <-] _ _ Hok. split; [done|]. by repeat split. }
  destruct (added fd); [|done]. intros H Hs Hh Hok. apply IH in H; [|intros fd' Hfd'; apply Hs; by right|done|].
  - destruct H as [H1 H2]. split; [done|]. destruct H2 as (?&?&?&?&?&?&?&?). by repeat split.
  - destruct (Hs fd ltac:(left)) as [Hl Hr]. destruct Hok as [H1 H2 H3 H4 H5]. constructor; cbn; try done.
    + intros p c. by rewrite Hh, lookup_empty.
    + intros fd' i. rewrite lookup_insert_Some. intros [[<- <-]|[_ Hi]]; [|by apply H4]. left. split; [done|].
      unfold data_fd, s32, uwrap. cbn [data in_event].
      replace (fd + 2 ^ 32 * garbage fd + 2 ^ 31) with (fd + 2 ^ 31 + garbage fd * 2 ^ 32) by lia.
      rewrite Z.mod_add, Z.mod_small by lia. lia.
Qed.

Lemma add_listen_listen garbage added socks : forall s ret s',
  add_listen_socks socks garbage added s = (ret, s') -> es_listen_sockets s' = es_listen_sockets s.
Proof.
  induction socks as [|fd socks IH]; intros s ret s'; cbn; [by intros [= <- <-]|].
  destruct (added fd); [|by intros [= <- <-]]. intros H. by apply IH in H.
Qed.

Lemma booted_ok s0 : booted s0 -> loop_ok [] s0 /\ es_status s0 = S_RUN /\ es_main s0 = M_wait.
Proof.
  intros (tp & socks & created & garbage & added & Hst & Hr). unfold start_epoll in Hst.
  destruct (tp =? 0); [|done]. cbn [negb] in Hst.
  destruct (listen_on socks EpollSocket_new) as [ret s1] eqn:Hl. destruct (ret =? 0); [|done]. cbn [negb] in Hst.
  destruct created; [|done]. cbn [negb] in Hst. apply listen_on_same in Hl as [L ->]. cbn in Hst.
  destruct (add_listen_sock_to_epoll _ _ _) as [ret2 s2] eqn:Ha. destruct (Z.eqb_spec ret2 0) as [->|]; [|done].
  cbn [negb] in Hst. injection Hst as ->. unfold add_listen_sock_to_epoll in Ha. cbn in Ha.
  assert (EL : es_listen_sockets s0 = L) by exact (add_listen_listen _ _ _ _ _ _ Ha).
  apply add_listen_ok in Ha as [H1 (E1 & E2 & E3 & E4 & E5 & E6 & E7 & E8)].
  - cbn in *. assert (Ho : owners s0 = []) by (unfold owners, main_events; by rewrite E6, E7, E8).
    split; [|by rewrite E3, E8]. constructor.
    + by rewrite Ho.
    + rewrite E8. split; [|done]. intros H0%Hr. lia.
    + by rewrite E8.
    + rewrite E2, E4. unfold between. by rewrite E7, E8.
  - intros fd Hfd. apply elem_of_elements in Hfd. split; [done|]. apply Hr. by rewrite EL.
  - done.
  - constructor; cbn; try done; first [apply NoDup_nil_2|intros p; by rewrite elem_of_nil|intros fd i; by rewrite lookup_empty].
Qed.

Lemma run_loop_ok s0 lost s : booted s0 -> loop_run s0 lost s -> loop_ok lost s.
Proof.
  intros Hb. induction 1 as [|lost a s s' _ IH Ha Hact]; [by apply booted_ok|]. by apply (act_ok a lost s (inl s')).
Qed.

(** Stopping in order. *)
Definition stop_ok s : Prop :=
  (accepting s = true -> es_status s = S_RUN) /\ (es_status s = S_STOP -> es_clients s = 0).

Lemma release_client_stop lost s :
  loop_ok lost s -> (0 < between s) -> stop_ok s -> stop_ok (release_client s).
Proof.
  intros Hok Hb [H1 H2]. pose proof (lo_clients lost s Hok) as Hc. unfold release_client. cbn [set_clients es_clients es_status].
  destruct (_ && _) eqn:E; split; cbn.
  - apply andb_true_iff in E as [_ E]. apply Z.eqb_eq in E. intros Ha. specialize (H1 Ha). unfold S_RUN, S_REJECT_CONN in *. lia.
  - intros _. apply andb_true_iff in E as [E _]. lia.
  - exact H1.
  - intros Hs. specialize (H2 Hs). lia.
Qed.


(** Steps that keep the count and the status. *)
Lemma stop_ok_same s s' :
  es_clients s' = es_clients s -> es_status s' = es_status s -> (accepting s' = true -> accepting s = true \/ es_status s = S_RUN) ->
  stop_ok s -> stop_ok s'.
Proof. intros E1 E2 Ha [H1 H2]. split; rewrite ?E1, ?E2; [intros [?|?]%Ha; auto|done]. Qed.

Lemma stop_ok_main s s' :
  es_clients s' = es_clients s -> es_status s' = es_status s -> es_main s' = es_main s -> stop_ok s -> stop_ok s'.
Proof. intros E1 E2 E3. apply stop_ok_same; [done|done|]. unfold accepting. rewrite E3. by left. Qed.

Lemma stop_handled b s s' m :
  stop_ok s -> handled b s s' -> accepting (set_main m s) = false -> stop_ok (set_main m s').
Proof. intros Hs [_ Hc Hst _ _ _ _ _ _] Ha. eapply stop_ok_same; [| | |exact Hs]; try done. intros E. cbn in *. unfold accepting in *. by cbn in *; destruct m. Qed.

Lemma stop_event i e evs lost s s' :
  loop_ok lost s -> es_main s = M_events (e :: evs) -> stop_ok s -> handle_event i e evs s = Some (inl s') -> stop_ok s'.
Proof.
  intros Hok E Hs. unfold handle_event. case_bool_decide as Hl.
  { destruct i; try done. intros [= <-]. destruct (Z.eqb_spec (es_status s) S_RUN) as [Hst|Hst];
      (apply (stop_ok_same s); [done|done| |exact Hs]); cbn; auto; done. }
  assert (Hc : conns_ok (data e :: owners (set_main (M_events evs) s) ++ lost) s).
  { change (data e :: ?l ++ lost) with ((data e :: l) ++ lost). rewrite <-owners_head by done. apply Hok. }
  destruct (has_bit EPOLLIN (events e)); [|destruct (has_bit EPOLLOUT (events e))].
  - destruct i as [| | | | |[]| |]; try done.
    + intros [= <-]. by apply (stop_ok_same s).
    + destruct (conns_ok_close _ s e Hc) as (s1 & -> & _ & Hh). intros [= <-]. by eapply stop_handled.
  - destruct i; try done. destruct (writeable_ok _ s e snd Hc) as (b & s1 & -> & _ & Hh).
    destruct b; intros [= <-]; by eapply stop_handled.
  - destruct i; try done. intros [= <-]. by apply (stop_ok_same s).
Qed.

Lemma stop_main i lost s s' :
  loop_ok lost s -> answer_ok i s -> stop_ok s -> main_step i s = Some (inl s') -> stop_ok s'.
Proof.
  intros Hok Hans Hs. unfold main_step. destruct (es_main s) as [|[|e evs]|e evs|e fd ip evs|e fd ip evs|evs|evs|] eqn:E.
  - destruct i; try done; [|intros [= <-]; by eapply stop_ok_same; [..|exact Hs]..].
    destruct (epoll_wait fds s) as [[evs s1]|] eqn:Hw; cbn; [|done]. intros [= <-].
    destruct (epoll_wait_ok fds s _ evs s1 (lo_conns lost s Hok) Hw) as (_ & (?&?&?&?&?&?&?&?)).
    by eapply stop_ok_same; [..|exact Hs].
  - destruct i; try done. intros [= <-]. destruct (_ =? _); by eapply stop_ok_same; [..|exact Hs].
  - by apply (stop_event i e evs lost s).
  - destruct i as [| | |[[fd ip]|]| | | |]; try done; intros [= <-]; cbn;
      (apply (stop_ok_same s); [done|done| |exact Hs]); intros _; left; unfold accepting; by rewrite E.
  - destruct i; try done. intros [= <-]. destruct Hs as [H1 _].
    assert (Hr : es_status s = S_RUN) by (apply H1; unfold accepting; by rewrite E).
    split; cbn; rewrite Hr; [done|]. unfold S_RUN, S_STOP. lia.
  - destruct i as [| | | |ptr added| | |]; try done. destruct added.
    + intros [= <-]. by eapply stop_ok_same; [..|exact Hs].
    + rewrite (register_fails _ _ _ _ _ lost) by (done || apply Hans). done.
  - destruct i; try done. intros [= <-]. destruct (_ && _) eqn:Hb; [|by eapply stop_ok_same; [..|exact Hs]].
    split; [done|]. cbn. intros _. apply andb_true_iff in Hb as [Hb _]. lia.
  - destruct i; try done. intros [= <-].
    assert (Hr : stop_ok (release_client s)).
    { eapply release_client_stop; [done| |done]. unfold between. rewrite E. lia. }
    eapply stop_ok_same; [..|exact Hr]; try done.
  - by destruct i.
Qed.

Lemma closing_pos s k : es_readers s !! k = Some R_closing -> 0 < between s.
Proof.
  intros Hk. unfold between. assert (length (filter is_closing (es_readers s)) <> 0%nat).
  { intros E. apply length_zero_iff_nil in E. apply list_elem_of_lookup_2 in Hk.
    assert (Hin : R_closing ∈ filter is_closing (es_readers s)) by by apply list_elem_of_filter.
    rewrite E in Hin. by apply not_elem_of_nil in Hin. }
  destruct (es_main s); lia.
Qed.

Lemma stop_act a lost s s' :
  loop_ok lost s -> action_ok a s -> (a = Loop_stop -> accepting s = false) -> stop_ok s ->
  loop_act a s = Some (inl s') -> stop_ok s'.
Proof.
  intros Hok Ha Hord Hs. destruct a as [i| |k rcv|]; cbn.
  - by apply (stop_main i lost).
  - destruct (es_tasks s); [done|]. intros [= <-]. by apply (stop_ok_main s).
  - unfold reader_step. destruct (es_readers s !! k) as [[e|]|] eqn:Hk; [| |done]; intros [=].
    + assert (Hc : conns_ok (data e :: owners (set_readers (delete k (es_readers s)) s) ++ lost) s).
      { by apply reader_conns. }
      pose proof (readable_ok _ s e rcv Hc) as Hr.
      destruct (handle_readable_event rcv e s) as [[r s1]|f]; [|done].
      destruct Hr as [_ [[-> Hh]|[-> Hh]]]; simplify_eq; destruct Hh;
        by apply (stop_ok_main s).
    + subst s'. pose proof (release_client_stop lost s Hok (closing_pos s k Hk) Hs) as Hr.
      apply (stop_ok_main (release_client s)); try done; unfold release_client; cbn; by destruct (_ && _).
  - intros [= <-]. specialize (Hord eq_refl). split; cbn; [|done]. unfold accepting in *. cbn. by rewrite Hord.
Qed.

Lemma orderly_ok s0 s : booted s0 -> orderly_run s0 s -> exists lost, loop_ok lost s /\ stop_ok s.
Proof.
  intros Hb. induction 1 as [|a s s' _ (lost & IH1 & IH2) Ha Hord Hact].
  - destruct (booted_ok s0 Hb) as (H1 & H2 & H3). exists []. split; [done|]. split; [|rewrite H2; done].
    intros _. done.
  - exists (forgets a s ++ lost). split; [by apply (act_ok a lost s (inl s'))|by eapply stop_act].
Qed.

(** ** The properties of the loop *)

(** C27. Ownership: at any time every open connection is either armed in the interest
    list and in nobody's hands, or disarmed and in the hands of exactly one of the
    main thread, the queue of the pool and its workers, or disarmed and [lost]: the main
    thread was given an event of it with neither input nor output, a hang-up or an error
    alone, and has only logged it ([forgets]).  So no handler meets a context that was
    freed and no two threads handle the same connection; the loop can only be brought
    down by what the watcher's handlers raise and by the registration of a new connection
    when it fails, which always brings it down. *)
Theorem connection_owned s0 lost s :
  booted s0 -> loop_run s0 lost s ->
  NoDup (owners s ++ lost) /\
  (forall p, p ∈ owners s ++ lost -> is_Some (es_heap s !! p)) /\
  (forall p c, es_heap s !! p = Some c ->
    ec_fd c ∈ es_open s /\
    exists ev armed, es_interest s !! ec_fd c = Some (mk_interest (mk_event ev p) armed) /\
      (armed = true <-> p ∉ owners s ++ lost)) /\
  (forall a r, action_ok a s -> loop_act a s = Some r ->
    match r with
    | inl _ => failed_registration a = false
    | inr f => F f \/ (f = OutOfBounds /\ failed_registration a = true)
    end).
Proof.
  intros Hb Hr. pose proof (run_loop_ok s0 lost s Hb Hr) as Hok. pose proof (lo_conns lost s Hok) as Hc.
  split; [by apply Hc|]. split; [by apply Hc|]. split.
  - intros p c Hp. destruct (co_heap _ _ Hc p c Hp) as (_ & _ & Ho & _ & ev & a & Hi & _ & Ha).
    split; [done|]. by exists ev, a.
  - intros a [s'|f] Ha Hact; [by eapply act_registers|by apply (act_ok a lost s (inr f))].
Qed.

(** The client count is exact: [_clients] is the number of contexts, plus the
    connections that are between [accept] and their registration or between [close]
    and the lock; it is never negative, and zero means that no connection is left. *)
Theorem clients_exact s0 lost s :
  booted s0 -> loop_run s0 lost s ->
  es_clients s = Z.of_nat (size (es_heap s)) + between s /\
  (es_clients s = 0 -> es_heap s = ∅ /\ owners s = [] /\ lost = []).
Proof.
  intros Hb Hr. pose proof (run_loop_ok s0 lost s Hb Hr) as Hok. pose proof (lo_clients lost s Hok) as Hcl. split; [done|].
  intros Hz. assert (Hn : 0 <= between s) by (unfold between; destruct (es_main s); lia).
  assert (He : es_heap s = ∅) by (apply map_size_empty_iff; lia). split; [done|]. apply app_eq_nil.
  by apply (no_owners _ s (lo_conns lost s Hok)).
Qed.

(** Stopping is clean: if [stop_epoll] is never called while the main thread is
    about to accept a connection, then a loop whose status has become [S_STOP] has no
    connection open, no context allocated and no task in the pool. *)
Theorem stop_is_clean s0 s :
  booted s0 -> orderly_run s0 s -> es_status s = S_STOP ->
  es_clients s = 0 /\ es_heap s = ∅ /\ owners s = [] /\ accepting s = false.
Proof.
  intros Hb Hr Hst. destruct (orderly_ok s0 s Hb Hr) as (lost & Hok & Ha & Hc). specialize (Hc Hst).
  pose proof (lo_clients lost s Hok) as Hcl.
  assert (Hn : 0 <= between s) by (unfold between; destruct (es_main s); lia).
  assert (He : es_heap s = ∅) by (apply map_size_empty_iff; lia).
  split; [done|]. split; [done|]. split.
  - by destruct (app_eq_nil _ _ (no_owners _ s (lo_conns lost s Hok) He)).
  - destruct (accepting s); [|done]. rewrite Ha in Hst by done. done.
Qed.
End invariant.

(** ** Runs as functions *)
Section schedule.
Context {C R W : Type} `{!EpollSocketWatcher C R W}.
Implicit Types s : EpollSocket C.

#[export] Instance answer_ok_dec (i : answer W) s : Decision (answer_ok i s).
Proof.
  destruct i as [fds| | |[[fd ip]|]|ptr added| | |]; cbn; apply _.
Defined.

#[export] Instance action_ok_dec (a : loop_action R W) s : Decision (action_ok a s).
Proof. destruct a; cbn; apply _. Defined.

(** The state after a list of actions, if the system may act like that. *)
Fixpoint loop_schedule (acts : list (loop_action R W)) s : option (EpollSocket C) :=
  match acts with
  | [] => Some s
  | a :: acts' =>
      if decide (action_ok a s) then
        match loop_act a s with Some (inl s') => loop_schedule acts' s' | _ => None end
      else None
  end.

(** The connections that it forgets. *)
Fixpoint schedule_lost (acts : list (loop_action R W)) (lost : list Z) s : list Z :=
  match acts with
  | [] => lost
  | a :: acts' =>
      match loop_act a s with Some (inl s') => schedule_lost acts' (forgets a s ++ lost) s' | _ => lost end
  end.

Lemma loop_schedule_run acts s0 : forall lost s s',
  loop_run s0 lost s -> loop_schedule acts s = Some s' -> loop_run s0 (schedule_lost acts lost s) s'.
Proof.
  induction acts as [|a acts IH]; intros lost s s' Hr; cbn; [by intros [= <-]|].
  destruct (decide (action_ok a s)) as [Ha|]; [|done].
  destruct (loop_act a s) as [[s1|]|] eqn:E; try done. intros H. eapply IH; [|done]. by eapply loop_step.
Qed.

Lemma loop_schedule_orderly acts s0 : Forall (fun a => a <> Loop_stop) acts -> forall s s',
  orderly_run s0 s -> loop_schedule acts s = Some s' -> orderly_run s0 s'.
Proof.
  induction 1 as [|a acts Hna _ IH]; intros s s' Hr; cbn; [by intros [= <-]|].
  destruct (decide (action_ok a s)) as [Ha|]; [|done].
  destruct (loop_act a s) as [[s1|]|] eqn:E; try done. intros H. eapply IH; [|done]. by eapply orderly_step.
Qed.

(** A server that listens on one socket. *)
Definition booted_at (fd : Z) : EpollSocket C :=
  match start_epoll 0 [(Some fd, true, true)] true (fun _ => 0) (fun _ => true) EpollSocket_new with
  | inr s => s
  | inl _ => EpollSocket_new
  end.

Lemma booted_at_ok fd : 0 < fd < 2 ^ 31 -> booted (booted_at fd).
Proof.
  intros Hr. exists 0, [(Some fd, true, true)], true, (fun _ => 0), (fun _ => true).
  assert (E : elements (∅ ∪ {[fd]} : gset Z) = [fd]).
  { rewrite (left_id_L ∅ (∪)). apply elements_singleton. }
  unfold booted_at, start_epoll, add_listen_sock_to_epoll. cbn [Z.eqb negb listen_on bind_on es_listen_sockets EpollSocket_new].
  rewrite E. cbn. split; [done|]. intros fd'. rewrite (left_id_L ∅ (∪)). intros ->%elem_of_singleton. done.
Qed.

End schedule.

(** ** A small watcher

    Requests are complete at once ([true]) or the peer has gone ([false]); a response
    keeps the connection or ends it. *)
#[local] Instance sample_watcher : EpollSocketWatcher unit bool bool := {
  on_accept _ := tt;
  on_readable rcv _ c := inl (if rcv then READ_OVER else READ_CLOSE, c);
  on_writeable snd c := (if snd then WRITE_CONN_ALIVE else WRITE_CONN_CLOSE, c);
}.

#[local] Instance sample_laws : WatcherLaws (fun _ => True) (fun _ => False).
Proof.
  split.
  - done.
  - intros [] ? c _; cbn; auto.
  - intros [] c _; cbn; auto.
Qed.

Definition sample_boot : EpollSocket unit := booted_at 3.

Lemma sample_booted : booted sample_boot.
Proof. by apply booted_at_ok. Qed.

(** Two connections; the request of the first is with a worker, the second was
    forgotten at a hang-up. *)
Definition sample_accept (fd ptr : Z) : list (loop_action bool bool) :=
  [Loop_main (I_ready [(3, EPOLLIN)]); Loop_main I_go; Loop_main (I_accept (Some (fd, []))); Loop_main I_go;
   Loop_main (I_register ptr true); Loop_main I_go].
Definition sample_acts : list (loop_action bool bool) :=
  sample_accept 5 4096 ++ sample_accept 6 8192 ++
  [Loop_main (I_ready [(5, EPOLLIN); (6, EPOLLHUP)]); Loop_main (I_add_task true); Loop_take; Loop_main I_go; Loop_main I_go].
Definition loop_sample : EpollSocket unit := default sample_boot (loop_schedule sample_acts sample_boot).

Lemma loop_sample_run : loop_run sample_boot [8192] loop_sample.
Proof.
  change (loop_run sample_boot (schedule_lost sample_acts [] sample_boot) loop_sample).
  apply (loop_schedule_run sample_acts sample_boot [] sample_boot); [constructor|]. by vm_compute.
Qed.

Lemma connection_owned_witness :
  owners loop_sample = [4096] /\ NoDup (owners loop_sample ++ [8192]) /\ is_Some (es_heap loop_sample !! 8192).
Proof.
  split; [by vm_compute|]. split.
  - apply (connection_owned (P := fun _ => True) (F := fun _ => False) sample_boot [8192] loop_sample sample_booted loop_sample_run).
  - apply (connection_owned (P := fun _ => True) (F := fun _ => False) sample_boot [8192] loop_sample sample_booted loop_sample_run).
    vm_compute. right. left.
Defined.

Lemma clients_exact_witness : es_clients loop_sample = 2 /\ Z.of_nat (size (es_heap loop_sample)) + between loop_sample = 2.
Proof.
  split; [by vm_compute|].
  rewrite <-(proj1 (clients_exact (P := fun _ => True) (F := fun _ => False) sample_boot [8192] loop_sample sample_booted loop_sample_run)).
  by vm_compute.
Defined.

(** Two requests, one of them with a worker. *)
Definition busy_acts : list (loop_action bool bool) :=
  sample_accept 5 4096 ++ sample_accept 6 8192 ++
  [Loop_main (I_ready [(5, EPOLLIN)]); Loop_main (I_add_task true); Loop_take].
Definition loop_busy : EpollSocket unit := default sample_boot (loop_schedule busy_acts sample_boot).

(** The loop is stopped; then the request is answered, and both peers go. *)
Definition loop_end : list (loop_action bool bool) :=
  [Loop_reader 0 true; Loop_main I_go;
   Loop_main (I_ready [(5, EPOLLOUT); (6, EPOLLIN)]); Loop_main (I_send true); Loop_main I_go;
   Loop_main (I_add_task true); Loop_take; Loop_main I_go; Loop_reader 0 false; Loop_reader 0 false;
   Loop_main I_interrupted; Loop_main I_go].
Definition loop_sample_end : EpollSocket unit := default sample_boot (loop_schedule loop_end (stop_epoll loop_busy)).

Lemma stop_is_clean_witness :
  es_status loop_sample_end = S_STOP /\ es_main loop_sample_end = M_stopped /\ es_heap loop_sample_end = ∅.
Proof.
  split; [by vm_compute|]. split; [by vm_compute|].
  apply (stop_is_clean (P := fun _ => True) (F := fun _ => False) sample_boot loop_sample_end sample_booted); [|by vm_compute].
  apply (loop_schedule_orderly loop_end) with (s := stop_epoll loop_busy); [repeat constructor; done| |by vm_compute].
  apply (orderly_step sample_boot Loop_stop loop_busy); [|done|by vm_compute|done].
  apply (loop_schedule_orderly busy_acts) with (s := sample_boot); [repeat constructor; done|constructor|by vm_compute].
Defined.

(** *** What goes wrong *)

(** [stop_epoll] between the test of [_status] and [accept]: the only client leaves,
    the loop is told to stop, and the connection accepted meanwhile is never served. *)
Example stop_race :
  (fun s => (es_main s, es_clients s, size (es_heap s))) <$>
  loop_schedule (sample_accept 5 4096 ++
    [Loop_main (I_ready [(5, EPOLLIN); (3, EPOLLIN)]); Loop_main (I_add_task true); Loop_take; Loop_main I_go;
     Loop_stop; Loop_reader 0 false; Loop_reader 0 false;
     Loop_main (I_accept (Some (7, []))); Loop_main I_go; Loop_main (I_register 8192 true); Loop_main I_go]) sample_boot
  = Some (M_stopped, 1, 1%nat).
Proof. by vm_compute. Qed.

(** [EPOLL_CTL_ADD] fails: the event of the listening socket is released as if its
    [data] were a pointer. *)
Example add_failure_crashes :
  (s ← loop_schedule (take 4 (sample_accept 5 4096)) sample_boot; loop_act (Loop_main (I_register 4096 false)) s)
  = Some (inr OutOfBounds).
Proof. by vm_compute. Qed.

(** A hang-up that comes without input or output: the connection stays open, disarmed
    and in nobody's hands. *)
Example hangup_forgets :
  (s ← loop_schedule (sample_accept 5 4096) sample_boot;
   s' ← loop_schedule [Loop_main (I_ready [(5, EPOLLHUP)]); Loop_main I_go; Loop_main I_go] s;
   Some (es_main s', owners s', in_armed <$> es_interest s' !! 5)) = Some (M_wait, [], Some false).
Proof. by vm_compute. Qed.
