(* ===== verification/HttpServer.v ===== *)
(** * HttpServer: the connection handlers

    [HttpEpollWatcher] of [http_server.cpp]: the table of resources, the dispatch
    of a request to its handler, and the two events of a connection.  What the
    operating system answers ([recv], [send]) is an input; the handlers of the
    application are functions stored in the table. *)
From stdpp Require Import gmap.
From S2P Require Import Prelude Streams SimParam HttpDefs HttpParser SimRequest SimResponse.
From S2P Require Import EpollSocket.

(** ** HttpMethod

    The two [std::set]s, in increasing order. *)
Record HttpMethod := mk_method {
  hm_codes : gset Z;
  hm_names : list (list Z);
}.

(** [std::set<std::string>::insert] *)
Fixpoint insert_name (name : list Z) (l : list (list Z)) : list (list Z) :=
  match l with
  | [] => [name]
  | k :: l' =>
      if bool_decide (name = k) then l
      else if str_ltb name k then name :: l
      else k :: insert_name name l'
  end.

(** [HttpMethod()] and [HttpMethod(code, name)] *)
Definition HttpMethod_default : HttpMethod := mk_method ∅ [].
Definition HttpMethod_new (code : Z) (name : list Z) : HttpMethod := mk_method {[code]} [name].

Definition GET_METHOD : HttpMethod := HttpMethod_new 1 (bytes "GET").
Definition POST_METHOD : HttpMethod := HttpMethod_new 2 (bytes "POST").

(** [a | b] changes [a] and yields a reference to it: the result is the new value
    of [a]. *)
Definition method_or (a b : HttpMethod) : HttpMethod :=
  mk_method (hm_codes a ∪ hm_codes b) (fold_left (fun l n => insert_name n l) (hm_names b) (hm_names a)).

(** ** Resources

    A [json_handler_ptr] is represented by what it makes of the request and the
    text of the value it built ([toStyledString] of the JSON library). *)
Definition method_handler := Request -> Response -> Z -> Request * Response.
Definition json_handler := Request -> Request * list Z.

Record Resource := mk_resource {
  rc_method : HttpMethod;
  rc_handler_ptr : option method_handler;
  rc_json_ptr : option json_handler;
  rc_userdata : Z;
}.

Abbreviation resource_map := (gmap (list Z) Resource).

Definition add_mapping_userdata (path : list Z) (handler : method_handler) (userdata : Z) (m : HttpMethod)
  (rm : resource_map) : resource_map := <[path := mk_resource m (Some handler) None userdata]> rm.

Definition add_mapping_handler (path : list Z) (handler : method_handler) (m : HttpMethod)
  (rm : resource_map) : resource_map := <[path := mk_resource m (Some handler) None 0]> rm.

Definition add_mapping_json (path : list Z) (handler : json_handler) (m : HttpMethod)
  (rm : resource_map) : resource_map := <[path := mk_resource m None (Some handler) 0]> rm.

Definition cors_headers (res : Response) : Response :=
  let res := set_head (bytes "Access-Control-Allow-Origin") (bytes "*") res in
  let res := set_head (bytes "Access-Control-Allow-Methods") (bytes "POST,GET") res in
  set_head (bytes "Access-Control-Allow-Headers")
    (bytes "Cache-Control,X-Proxy-Authorization,X-Requested-With,Content-Type") res.

(** [HttpEpollWatcher::handle_request]; [*names.begin()] of an empty set is an
    access outside the set. *)
Definition handle_request (rm : resource_map) (req : Request) (res : Response)
  : (Request * Response) + fault :=
  let res := cors_headers res in
  match rm !! get_request_uri (rq_line req) with
  | None => inl (req, set_strbody (msg STATUS_NOT_FOUND) (set_code_msg STATUS_NOT_FOUND res))
  | Some resource =>
      if negb (bool_decide (rl_method (rq_line req) ∈ hm_names (rc_method resource))) then
        let res := set_code_msg STATUS_METHOD_NOT_ALLOWED res in
        match head (hm_names (rc_method resource)) with
        | None => inr OutOfBounds
        | Some allow_name => inl (req, set_strbody [] (set_head (bytes "Allow") allow_name res))
        end
      else
        match rc_json_ptr resource, rc_handler_ptr resource with
        | Some json_ptr, _ =>
            let '(req, text) := json_ptr req in inl (req, set_strbody text res)
        | None, Some handler_ptr => inl (handler_ptr req res (rc_userdata resource))
        | None, None => inl (req, res)
        end
  end.

(** ** The context of a connection *)

Record HttpContext := mk_context {
  hc_req : http_parser * Request;
  hc_res : Response;
}.

(** [HttpContext::HttpContext] and [HttpContext::clear] *)
Definition HttpContext_new : HttpContext := mk_context Request_new (Response_new STATUS_OK).

(** *** on_readable *)

(** What [recv] does: the call was interrupted, it failed, the peer has closed
    ([recv] yields 0), or it delivered bytes. *)
Inductive recv_result :=
  | Recv_interrupted
  | Recv_error
  | Recv_closed
  | Recv_bytes (data : list Z).

Definition on_readable (strict debug : bool) (rm : resource_map) (client_ip : list Z) (rcv : recv_result)
  (hc : HttpContext) : (Z * HttpContext) + fault :=
  match rcv with
  | Recv_interrupted => inl (READ_CONTINUE, hc)
  | Recv_error | Recv_closed => inl (READ_CLOSE, hc)
  | Recv_bytes data =>
      match parse_request strict debug (filled data) (zlen data) (hc_req hc) with
      | inr f => inr f
      | inl (ret, (parser, req)) =>
          let hc := mk_context (parser, req) (hc_res hc) in
          if ret <? 0 then inl (READ_CLOSE, hc)
          else if ret =? NEED_MORE_STATUS then inl (READ_CONTINUE, hc)
          else if ret =? PARSE_LEN_REQUIRED then
            inl (READ_OVER,
                 mk_context (parser, req)
                   (set_strbody (msg STATUS_LENGTH_REQUIRED)
                      (set_code_msg STATUS_LENGTH_REQUIRED (hc_res hc))))
          else
            match handle_request rm (set_client_ip (Some client_ip) req) (hc_res hc) with
            | inr f => inr f
            | inl (req, res) => inl (READ_OVER, mk_context (parser, req) res)
            end
      end
  end.

(** *** on_writeable *)

Definition SS_WRITE_BUFFER_SIZE : Z := 4096.

(** [strcasecmp(a.c_str(), b) == 0] *)
Definition lower (c : Z) : Z := if (65 <=? c) && (c <=? 90) then c + 32 else c.
Definition strcasecmp_eq (a b : list Z) : bool :=
  bool_decide (lower <$> c_str a = lower <$> b).

(** [room] is what the socket has room for when [send(fd, buffer, read_size, 0)] is called,
    negative for an error: [send] takes at most the bytes that it is offered.  The second
    component is what it took. *)
Definition on_writeable (room : Z) (hc : HttpContext) : Z * list Z * HttpContext :=
  let '(parser, req) := hc_req hc in
  let res := hc_res hc in
  let '(connection, req) := get_header (bytes "Connection") req in
  let is_keepalive := strcasecmp_eq connection (bytes "keep-alive") in
  let res :=
    if negb (rs_is_writed res) then
      set_is_writed true (gen_response (rl_http_version (rq_line req)) is_keepalive res).2
    else res in
  let '(ret, buffer, res) := readsome SS_WRITE_BUFFER_SIZE res in
  let read_size := zlen buffer in
  let nwrite := Z.min room read_size in
  if nwrite <? 0 then (WRITE_CONN_CLOSE, [], mk_context (parser, req) res)
  else
    let sent := take (Z.to_nat nwrite) buffer in
    let res := if nwrite <? read_size then (rollback (read_size - nwrite) res).2 else res in
    if ret =? 1 then (WRITE_CONN_CONTINUE, sent, mk_context (parser, req) res)
    else if is_keepalive && (0 <? nwrite) then (WRITE_CONN_ALIVE, sent, HttpContext_new)
    else (WRITE_CONN_CLOSE, sent, mk_context (parser, req) res).

(** The write events of one response: the room at each [send] in order, until the
    handler no longer asks to continue.  [None]: it still does. *)
Fixpoint write_events (sends : list Z) (hc : HttpContext) : option Z * list Z :=
  match sends with
  | [] => (None, [])
  | n :: sends' =>
      let '(code, sent, hc') := on_writeable n hc in
      if code =? WRITE_CONN_CONTINUE then
        let '(code', more) := write_events sends' hc' in (code', sent ++ more)
      else (Some code, sent)
  end.
