(* ===== verification/HttpServerProps.v ===== *)
(** * HttpServerProps: the handlers of a connection

    What reaches the peer of a response, and what a request gets for an answer. *)
From stdpp Require Import gmap.
From S2P Require Import Prelude Streams SimParam HttpDefs HttpParser SimRequest SimResponse EpollSocket HttpServer.

(** ** The write path *)

Lemma get_header_again name r : get_header name (get_header name r).2 = get_header name r.
Proof.
  unfold get_header. destruct (rq_headers r !! name) as [v|] eqn:Hv; cbn [snd]; [by rewrite Hv|].
  unfold set_headers at 1. cbn [rq_headers]. by rewrite lookup_insert_eq.
Qed.

(** Whether the peer asked to keep the connection. *)
Definition wants_alive (req : Request) : bool :=
  strcasecmp_eq (get_header (bytes "Connection") req).1 (bytes "keep-alive").

(** The text of the response that a context will send. *)
Definition full_text (hc : HttpContext) : list Z :=
  response_text (rl_http_version (rq_line (hc_req hc).2)) (wants_alive (hc_req hc).2) (hc_res hc).

(** A context whose handler has run and of which nothing was sent. *)
Definition fresh (hc : HttpContext) : Prop :=
  rs_is_writed (hc_res hc) = false /\ rs_bytes (hc_res hc) = io_new /\ zlen (full_text hc) < 2 ^ 31.

(** A context in the middle of sending [text]. *)
Record writing (text : list Z) (alive : bool) (hc : HttpContext) : Prop := {
  wr_writed : rs_is_writed (hc_res hc) = true;
  wr_io : io_ok (rs_bytes (hc_res hc));
  wr_data : io_data (rs_bytes (hc_res hc)) = text;
  wr_alive : wants_alive (hc_req hc).2 = alive;
  wr_len : zlen text < 2 ^ 31;
}.

Definition left_of (hc : HttpContext) : list Z := io_left (rs_bytes (hc_res hc)).

(** The first event: the response is generated, then it is sent. *)
Definition prepared (hc : HttpContext) : HttpContext :=
  mk_context ((hc_req hc).1, (get_header (bytes "Connection") (hc_req hc).2).2)
    (set_is_writed true (gen_response (rl_http_version (rq_line (hc_req hc).2))
                           (wants_alive (hc_req hc).2) (hc_res hc)).2).

Lemma get_header_line name r : rq_line (get_header name r).2 = rq_line r.
Proof. unfold get_header. by case_match. Qed.

Lemma on_writeable_prepared n hc :
  rs_is_writed (hc_res hc) = false -> on_writeable n hc = on_writeable n (prepared hc).
Proof.
  intros Hw. unfold on_writeable, prepared. destruct hc as [[p req] res]. cbn [hc_req hc_res fst snd] in *.
  pose proof (get_header_again (bytes "Connection") req) as Hg.
  pose proof (get_header_line (bytes "Connection") req) as Hl. unfold wants_alive.
  destruct (get_header (bytes "Connection") req) as [v req'] eqn:E. cbn [snd fst] in *.
  rewrite Hg, Hw, Hl. done.
Qed.

Lemma prepared_writing hc :
  fresh hc -> writing (full_text hc) (wants_alive (hc_req hc).2) (prepared hc) /\
  left_of (prepared hc) = full_text hc.
Proof.
  intros (Hw & Hio & Hlen). unfold prepared, gen_response, left_of. cbn [snd hc_res].
  rewrite Hio. split; [constructor|done].
  - done.
  - constructor; cbn; [|done|done]. split; [done|apply zlen_nonneg].
  - done.
  - cbn [hc_req snd]. unfold wants_alive. by rewrite get_header_again.
  - done.
Qed.

(** One write event. *)
Lemma on_writeable_step text alive n hc :
  writing text alive hc -> 0 <= n ->
  let '(code, sent, hc') := on_writeable n hc in
  exists rest, left_of hc = sent ++ rest /\
    (code = WRITE_CONN_CONTINUE -> writing text alive hc' /\ left_of hc' = rest) /\
    (code <> WRITE_CONN_CONTINUE -> SS_WRITE_BUFFER_SIZE <= n -> rest = []) /\
    (code = WRITE_CONN_CONTINUE -> 1 <= n -> sent <> []).
Proof.
  intros [Hw Hio Hd Ha Hlen] Hn. destruct hc as [[p req] res]. cbn [hc_req hc_res snd] in *.
  unfold on_writeable, left_of. cbn [hc_req hc_res].
  pose proof (get_header_again (bytes "Connection") req) as Hg. unfold wants_alive in Ha.
  destruct (get_header (bytes "Connection") req) as [v req'] eqn:E. cbn [snd fst] in *.
  rewrite Hw. cbn [negb]. pose proof (readsome_ok SS_WRITE_BUFFER_SIZE res Hio ltac:(done)) as Hr.
  destruct (readsome SS_WRITE_BUFFER_SIZE res) as [[ret buffer] res1].
  destruct Hr as (Hio1 & Hd1 & Hleft & Hbuf & Hend & Hret & Hpos & Hres1).
  assert (Hm : 0 <= Z.min n (zlen buffer) <= zlen buffer) by (pose proof (zlen_nonneg buffer); lia).
  assert (Hn1 : 1 <= n -> 1 <= zlen buffer -> 1 <= Z.min n (zlen buffer)) by lia.
  assert (Hfull : SS_WRITE_BUFFER_SIZE <= n -> Z.min n (zlen buffer) = zlen buffer) by lia.
  generalize dependent (Z.min n (zlen buffer)). intros m Hm Hn1 Hfull.
  rewrite (proj2 (Z.ltb_ge m 0)) by lia.
  set (res2 := if m <? zlen buffer then _ else _).
  assert (H2 : io_ok (rs_bytes res2) /\ io_data (rs_bytes res2) = text /\ rs_is_writed res2 = true /\
    io_left (rs_bytes res2) = drop (Z.to_nat m) buffer ++ io_left (rs_bytes res1)).
  { assert (Hw1 : rs_is_writed res1 = true) by by rewrite Hres1.
    unfold res2. destruct (Z.ltb_spec m (zlen buffer)) as [Hlt|Hge].
    - destruct Hio as [Hp0 _ _].
      pose proof (rollback_ok (zlen buffer - m) res1 Hio1 ltac:(lia) ltac:(congruence)) as Hrb.
      destruct (rollback (zlen buffer - m) res1) as [rr res3]. destruct Hrb as (_ & ? & Hd3 & Hp3 & Hr3).
      cbn [snd]. split; [done|]. split; [congruence|]. split; [by rewrite Hr3|].
      unfold io_left in Hleft |- *. rewrite Hd3, Hp3, Hpos, Hd1.
      replace (io_pos (rs_bytes res) + zlen buffer - (zlen buffer - m)) with (io_pos (rs_bytes res) + m) by lia.
      replace (Z.to_nat (io_pos (rs_bytes res) + m)) with (Z.to_nat (io_pos (rs_bytes res)) + Z.to_nat m)%nat by lia.
      rewrite Hpos, Hd1 in Hleft. rewrite <-drop_drop, Hleft. rewrite drop_app_le; [done|]. unfold zlen in *. lia.
    - split; [done|]. split; [congruence|]. split; [done|].
      rewrite drop_ge; [done|]. unfold zlen in *. lia. }
  destruct H2 as (Hio2 & Hd2 & Hw2 & Hleft2).
  assert (Hsplit : io_left (rs_bytes res) = take (Z.to_nat m) buffer ++ io_left (rs_bytes res2)).
  { by rewrite Hleft2, app_assoc, take_drop. }
  destruct (Z.eqb_spec ret 1) as [->|Hr1].
  - exists (io_left (rs_bytes res2)). split; [done|]. split; [|split; [done|]].
    + intros _. split; [|done]. constructor; cbn [hc_req hc_res snd]; try done.
      unfold wants_alive. by rewrite Hg.
    + intros _ H1 Hnil. apply (f_equal length) in Hnil. rewrite length_take in Hnil. simpl in Hnil.
      destruct Hret as [?|[_ Hb]]; [done|]. unfold zlen, SS_WRITE_BUFFER_SIZE in *. lia.
  - destruct Hret as [->|[? _]]; [|done]. specialize (Hend eq_refl).
    assert (Hrest : SS_WRITE_BUFFER_SIZE <= n -> io_left (rs_bytes res2) = []).
    { intros Hf%Hfull. rewrite Hleft2, Hend, app_nil_r, Hf. apply drop_ge. unfold zlen. lia. }
    destruct (_ && _); exists (io_left (rs_bytes res2)); (split; [done|]); (split; [done|]); by split.
Qed.

(** A write event on a response of which nothing is left ends it. *)
Lemma on_writeable_end text alive n hc :
  writing text alive hc -> 0 <= n -> left_of hc = [] -> (on_writeable n hc).1.1 <> WRITE_CONN_CONTINUE.
Proof.
  intros [Hw Hio _ _ _] Hn Hl. unfold on_writeable, left_of in *. destruct hc as [[p req] res].
  cbn [hc_req hc_res] in *. destruct (get_header _ req) as [v req']. rewrite Hw. cbn [negb].
  pose proof (readsome_ok SS_WRITE_BUFFER_SIZE res Hio ltac:(done)) as Hr.
  destruct (readsome SS_WRITE_BUFFER_SIZE res) as [[ret buffer] res1].
  destruct Hr as (_ & _ & Hleft & _ & _ & Hret & _). rewrite Hl in Hleft.
  rewrite (proj2 (Z.ltb_ge _ 0)) by (pose proof (zlen_nonneg buffer); lia).
  destruct Hret as [->|[_ Hb]].
  - cbn [Z.eqb]. by destruct (_ && _).
  - symmetry in Hleft. by apply app_eq_nil in Hleft as [-> _].
Qed.

(** ** The events of one response *)

Lemma write_events_prefix text alive sends : forall hc,
  writing text alive hc -> Forall (Z.le 0) sends ->
  exists rest, left_of hc = (write_events sends hc).2 ++ rest.
Proof.
  induction sends as [|n sends IH]; intros hc Hw Hs; cbn [write_events]; [by exists (left_of hc)|].
  apply Forall_cons in Hs as [Hn Hs]. pose proof (on_writeable_step text alive n hc Hw Hn) as Hst.
  destruct (on_writeable n hc) as [[code sent] hc']. destruct Hst as (rest & Hl & Hc & _).
  destruct (Z.eqb_spec code WRITE_CONN_CONTINUE) as [->|Hne]; [|by exists rest].
  destruct (Hc eq_refl) as [Hw' Hl']. destruct (IH hc' Hw' Hs) as (rest' & Hr).
  destruct (write_events sends hc') as [code' more]. cbn [snd] in *.
  exists rest'. by rewrite Hl, <-Hl', Hr, app_assoc.
Qed.

Lemma write_events_last text alive n sends : forall hc,
  writing text alive hc -> Forall (Z.le 0) sends -> SS_WRITE_BUFFER_SIZE <= n ->
  (write_events sends hc).1 = None -> (write_events (sends ++ [n]) hc).1 <> None ->
  left_of hc = (write_events (sends ++ [n]) hc).2.
Proof.
  induction sends as [|m sends IH]; intros hc Hw Hs Hn Hnone Hend; cbn [write_events Datatypes.app] in *.
  - pose proof (on_writeable_step text alive n hc Hw ltac:(unfold SS_WRITE_BUFFER_SIZE in *; lia)) as Hst.
    destruct (on_writeable n hc) as [[code sent] hc']. destruct Hst as (rest & Hl & _ & Hf & _).
    destruct (Z.eqb_spec code WRITE_CONN_CONTINUE) as [->|Hne]; [done|].
    rewrite Hl, (Hf Hne Hn). apply app_nil_r.
  - apply Forall_cons in Hs as [Hm Hs]. pose proof (on_writeable_step text alive m hc Hw Hm) as Hst.
    destruct (on_writeable m hc) as [[code sent] hc']. destruct Hst as (rest & Hl & Hc & _).
    destruct (Z.eqb_spec code WRITE_CONN_CONTINUE) as [->|Hne]; [|done].
    destruct (Hc eq_refl) as [Hw' Hl']. specialize (IH hc' Hw' Hs Hn).
    destruct (write_events sends hc') as [c1 m1]. destruct (write_events (sends ++ [n]) hc') as [c2 m2].
    cbn [fst snd] in *. by rewrite Hl, <-Hl', <-IH.
Qed.

Lemma write_events_ends text alive sends : forall hc,
  writing text alive hc -> Forall (Z.le 1) sends -> (length (left_of hc) < length sends)%nat ->
  (write_events sends hc).1 <> None.
Proof.
  induction sends as [|n sends IH]; intros hc Hw Hs Hlen; cbn [write_events]; [simpl in Hlen; lia|].
  apply Forall_cons in Hs as [Hn Hs].
  pose proof (on_writeable_step text alive n hc Hw ltac:(lia)) as Hst.
  pose proof (on_writeable_end text alive n hc Hw ltac:(lia)) as Hend.
  destruct (on_writeable n hc) as [[code sent] hc']. destruct Hst as (rest & Hl & Hc & _ & Hne).
  cbn [fst] in Hend. destruct (Z.eqb_spec code WRITE_CONN_CONTINUE) as [->|Hcode]; [|done].
  destruct (Hc eq_refl) as [Hw' Hl']. specialize (Hne eq_refl Hn).
  assert (Hsh : (length (left_of hc') < length sends)%nat).
  { rewrite Hl' . rewrite Hl, length_app in Hlen. destruct sent; [done|]. simpl in Hlen. lia. }
  specialize (IH hc' Hw' Hs Hsh). by destruct (write_events sends hc').
Qed.

Lemma write_events_prepared n sends hc :
  fresh hc -> write_events (n :: sends) hc = write_events (n :: sends) (prepared hc).
Proof. intros (Hw & _). cbn [write_events]. by rewrite on_writeable_prepared. Qed.

(** ** The dispatch of a request *)

(** The methods that a program can build, and the tables; a method of a mapping has to name
    something ([unnamed_method_crashes]). *)
Inductive built_method : HttpMethod -> Prop :=
  | built_default : built_method HttpMethod_default
  | built_new code name : built_method (HttpMethod_new code name)
  | built_or a b : built_method a -> built_method b -> built_method (method_or a b).

Definition usable (m : HttpMethod) : Prop := built_method m /\ hm_names m <> [].

Inductive built_table : resource_map -> Prop :=
  | built_empty : built_table ∅
  | built_userdata path handler userdata m rm :
      usable m -> built_table rm -> built_table (add_mapping_userdata path handler userdata m rm)
  | built_handler path handler m rm :
      usable m -> built_table rm -> built_table (add_mapping_handler path handler m rm)
  | built_json path handler m rm :
      usable m -> built_table rm -> built_table (add_mapping_json path handler m rm).

Lemma elem_of_insert_name x name l : x ∈ insert_name name l <-> x = name \/ x ∈ l.
Proof.
  induction l as [|k l IH]; cbn [insert_name]; [rewrite list_elem_of_singleton, elem_of_nil; tauto|].
  case_bool_decide as Hk; [subst k|destruct (str_ltb name k)]; rewrite ?elem_of_cons, ?IH; tauto.
Qed.

Lemma elem_of_insert_names x l : forall acc,
  x ∈ fold_left (fun l n => insert_name n l) l acc <-> x ∈ l \/ x ∈ acc.
Proof.
  induction l as [|n l IH]; intros acc; cbn [fold_left]; [rewrite elem_of_nil; tauto|].
  rewrite IH, elem_of_insert_name, elem_of_cons. tauto.
Qed.

(** [a | b] accepts what [a] or [b] accepts. *)
Lemma method_or_names x a b : x ∈ hm_names (method_or a b) <-> x ∈ hm_names a \/ x ∈ hm_names b.
Proof. unfold method_or. cbn [hm_names]. rewrite elem_of_insert_names. tauto. Qed.

Lemma usable_new code name : usable (HttpMethod_new code name).
Proof. split; [constructor|done]. Qed.

(** One operand with a name is enough. *)
Lemma usable_or a b : built_method a -> built_method b -> hm_names a <> [] \/ hm_names b <> [] -> usable (method_or a b).
Proof.
  intros Ha Hb Hn. split; [by constructor|]. intros E.
  assert (Hx : forall x, (x ∉ hm_names a) /\ (x ∉ hm_names b)).
  { intros x. split; intros Hx; apply (not_elem_of_nil x); rewrite <-E, method_or_names; auto. }
  destruct Hn as [Hn|Hn]; apply Hn, elem_of_nil_inv; intros x; apply (Hx x).
Qed.

Lemma built_table_lookup rm path rc :
  built_table rm -> rm !! path = Some rc ->
  usable (rc_method rc) /\ (rc_handler_ptr rc <> None \/ rc_json_ptr rc <> None).
Proof.
  unfold add_mapping_userdata, add_mapping_handler, add_mapping_json.
  induction 1; [by rewrite lookup_empty|..]; unfold add_mapping_userdata, add_mapping_handler, add_mapping_json;
    rewrite lookup_insert_Some; intros [[<- <-]|[_ Hl]]; cbn; auto.
Qed.

Lemma find_insert_header name value h : find_header name (insert_header name value h) = Some value.
Proof.
  induction h as [|[k v] h IH]; cbn [insert_header find_header]; [by rewrite bool_decide_true|].
  case_bool_decide as Hk; [by cbn; rewrite bool_decide_true|].
  destruct (str_ltb name k); cbn; [by rewrite bool_decide_true|by rewrite bool_decide_false].
Qed.

Lemma find_insert_header_ne name name' value h :
  name <> name' -> find_header name (insert_header name' value h) = find_header name h.
Proof.
  intros Hne. induction h as [|[k v] h IH]; cbn [insert_header find_header]; [by rewrite bool_decide_false|].
  destruct (decide (name' = k)) as [->|Hk].
  - rewrite bool_decide_true by done. cbn. by rewrite !(bool_decide_false (name = k)).
  - rewrite (bool_decide_false (name' = k)) by done.
    destruct (str_ltb name' k); cbn; [by rewrite bool_decide_false|by rewrite IH].
Qed.

(** The same request, under another method. *)
Definition with_method (m : list Z) (r : Request) : Request :=
  set_line (set_method m (rq_line r)) r.

Definition serves (rm : resource_map) (r : Request) : bool :=
  match rm !! get_request_uri (rq_line r) with
  | Some rc => bool_decide (rl_method (rq_line r) ∈ hm_names (rc_method rc))
  | None => false
  end.

(** ** The properties of the dispatch *)

(** C25. Dispatch: in a table made of [add_mapping] calls whose methods have a name every
    request gets an answer.  An unknown path gets 404 and a method that the resource does not have
    gets 405 with an empty body and an [Allow] header that names a method which the
    same path does accept; otherwise the registered handler alone answers.  The
    three cross-origin headers are set in every case, before the handler runs. *)
Theorem request_dispatched rm req res :
  built_table rm ->
  exists req' res', handle_request rm req res = inl (req', res') /\
  match rm !! get_request_uri (rq_line req) with
  | None => req' = req /\ rs_code_msg res' = STATUS_NOT_FOUND /\ rs_body res' = bytes "Not Found" /\
      find_header (bytes "Access-Control-Allow-Origin") (rs_headers res') = Some (bytes "*")
  | Some rc =>
      if serves rm req then
        (exists h, rc_json_ptr rc = Some h /\ req' = (h req).1 /\
           res' = set_strbody (h req).2 (cors_headers res)) \/
        (exists h, rc_json_ptr rc = None /\ rc_handler_ptr rc = Some h /\
           (req', res') = h req (cors_headers res) (rc_userdata rc))
      else
        req' = req /\ rs_code_msg res' = STATUS_METHOD_NOT_ALLOWED /\ rs_body res' = [] /\
        find_header (bytes "Access-Control-Allow-Origin") (rs_headers res') = Some (bytes "*") /\
        exists a, find_header (bytes "Allow") (rs_headers res') = Some a /\ serves rm (with_method a req) = true
  end.
Proof.
  intros Hrm. unfold handle_request, serves.
  assert (Hcors : forall r, find_header (bytes "Access-Control-Allow-Origin") (rs_headers (cors_headers r)) = Some (bytes "*")).
  { intros r. unfold cors_headers, set_head. cbn [rs_headers].
    rewrite !find_insert_header_ne by done. apply find_insert_header. }
  destruct (rm !! get_request_uri (rq_line req)) as [rc|] eqn:Hrc.
  - destruct (built_table_lookup _ _ _ Hrm Hrc) as [[_ Hm] Hh].
    case_bool_decide as Hin; cbn [negb].
    + destruct (rc_json_ptr rc) as [h|].
      * destruct (h req) as [req' text] eqn:E. exists req', (set_strbody text (cors_headers res)).
        split; [done|]. left. exists h. by rewrite E.
      * destruct (rc_handler_ptr rc) as [h|]; [|by destruct Hh].
        destruct (h req (cors_headers res) (rc_userdata rc)) as [req' res'] eqn:E. exists req', res'.
        split; [done|]. right. exists h. by rewrite E.
    + destruct (hm_names (rc_method rc)) as [|a l] eqn:E; [done|]. cbn [head].
      eexists _, _. split; [done|]. split; [done|]. split; [done|]. split; [done|]. split.
      * etransitivity; [by apply find_insert_header_ne|apply Hcors].
      * exists a. split; [apply find_insert_header|]. cbn [with_method rq_line rl_method].
        change (get_request_uri (rq_line (with_method a req))) with (get_request_uri (rq_line req)).
        rewrite Hrc, E. apply bool_decide_eq_true. left.
  - eexists _, _. split; [done|]. split; [done|]. split; [done|]. split; [done|]. apply Hcors.
Qed.

(** A table with one page for GET and POST, and a request for it by another method. *)
Definition sample_table : resource_map :=
  add_mapping_json (bytes "/live") (fun r => (r, bytes "{}")) (method_or GET_METHOD POST_METHOD) ∅.

Definition sample_request (m uri : list Z) : Request :=
  set_line (mk_line ∅ m uri (bytes "HTTP/1.1")) Request_new.2.

Lemma sample_table_built : built_table sample_table.
Proof. repeat constructor. discriminate. Qed.

(** [HttpMethod()] names nothing: a request of its resource goes through [begin] of an
    empty set. *)
Example unnamed_method_crashes :
  handle_request (add_mapping_json (bytes "/live") (fun r => (r, bytes "{}")) HttpMethod_default ∅)
    (sample_request (bytes "GET") (bytes "/live")) (Response_new STATUS_OK) = inr OutOfBounds.
Proof. by vm_compute. Qed.

Lemma request_dispatched_witness :
  serves sample_table (sample_request (bytes "PUT") (bytes "/live?a=b")) = false /\
  built_table sample_table /\
  exists req' res', handle_request sample_table (sample_request (bytes "PUT") (bytes "/live?a=b")) (Response_new STATUS_OK) = inl (req', res') /\
    find_header (bytes "Allow") (rs_headers res') = Some (bytes "GET").
Proof.
  split; [by vm_compute|]. pose proof sample_table_built as Hb. split; [exact Hb|].
  destruct (request_dispatched sample_table (sample_request (bytes "PUT") (bytes "/live?a=b"))
              (Response_new STATUS_OK) Hb) as (req' & res' & H & _).
  exists req', res'. split; [exact H|]. vm_compute in H. by injection H as _ <-.
Defined.

(** ** The properties of the write path *)

(** C23. Delivery of a response: whatever room the socket has at each [send] ([sends], then
    [n]), it is given the bytes of the response in order, none twice and none left out in
    between; if there is room for the whole buffer at the last [send], it is given the
    whole response; and as long as there is room for a byte at every [send], the events
    come to an end. *)
Theorem response_delivered hc sends n :
  fresh hc -> Forall (Z.le 0) sends -> 0 <= n ->
  (exists rest, full_text hc = (write_events (sends ++ [n]) hc).2 ++ rest) /\
  ((write_events sends hc).1 = None -> (write_events (sends ++ [n]) hc).1 <> None ->
   SS_WRITE_BUFFER_SIZE <= n -> (write_events (sends ++ [n]) hc).2 = full_text hc) /\
  (Forall (Z.le 1) sends -> (length (full_text hc) < length sends)%nat ->
   (write_events sends hc).1 <> None).
Proof.
  intros Hf Hs Hn. destruct (prepared_writing hc Hf) as [Hw Hl].
  assert (Hall : Forall (Z.le 0) (sends ++ [n])) by (apply Forall_app; split; [done|by repeat constructor]).
  assert (E : write_events (sends ++ [n]) hc = write_events (sends ++ [n]) (prepared hc))
    by (destruct sends; by apply write_events_prepared).
  split; [|split].
  - rewrite E, <-Hl. by eapply write_events_prefix.
  - intros H1 H2 H3. symmetry. rewrite E, <-Hl in *. eapply write_events_last; try done.
    destruct sends as [|m sends]; [done|]. by rewrite <-write_events_prepared.
  - intros H1 H2. destruct sends as [|m sends]; [simpl in H2; lia|].
    rewrite write_events_prepared by done. eapply write_events_ends; [done..|]. by rewrite Hl.
Qed.

(** The response of a fresh connection to a request that asks to be kept. *)
Definition sample_context : HttpContext :=
  mk_context (HttpContext_new.(hc_req).1, set_headers {[ bytes "Connection" := bytes "Keep-Alive" ]} HttpContext_new.(hc_req).2)
    (set_strbody (repeat 97 4000) (Response_new STATUS_OK)).

Lemma response_delivered_witness :
  (write_events [100; 4096] sample_context).2 = full_text sample_context /\
  exists rest, full_text sample_context = (write_events [100; 30] sample_context).2 ++ rest.
Proof.
  assert (Hf : fresh sample_context) by (split; [|split]; by vm_compute).
  split.
  - apply (response_delivered sample_context [100] 4096 Hf);
      [repeat constructor; done|done|by vm_compute|by vm_compute|by vm_compute].
  - apply (response_delivered sample_context [100] 30 Hf); [repeat constructor; done|done].
Defined.

(** A short last write loses the end of the response: when what is left fits
    one buffer and the socket has room for less than that, the connection is closed or
    reused nevertheless, and the rest is never sent. *)
Theorem short_write_truncates hc n :
  fresh hc -> zlen (full_text hc) < SS_WRITE_BUFFER_SIZE -> 0 <= n < zlen (full_text hc) ->
  write_events [n] hc =
    (Some (if wants_alive (hc_req hc).2 && (0 <? n) then WRITE_CONN_ALIVE else WRITE_CONN_CLOSE),
     take (Z.to_nat n) (full_text hc)).
Proof.
  intros Hf Hlen Hn. rewrite write_events_prepared by done.
  destruct (prepared_writing hc Hf) as [[Hw Hio Hd Ha _] Hl].
  cbn [write_events]. unfold on_writeable, left_of in *. destruct (prepared hc) as [[p req] res].
  cbn [hc_req hc_res snd] in *. unfold wants_alive in Ha at 1.
  destruct (get_header (bytes "Connection") req) as [v req']. cbn [fst] in Ha.
  rewrite Hw. cbn [negb].
  pose proof (readsome_ok SS_WRITE_BUFFER_SIZE res Hio ltac:(done)) as Hr.
  destruct (readsome SS_WRITE_BUFFER_SIZE res) as [[ret buffer] res1].
  destruct Hr as (_ & _ & Hleft & _ & Hend & Hret & _). rewrite Hl in Hleft.
  destruct Hret as [->|[_ Hb]].
  - rewrite Hend, app_nil_r in Hleft by done. subst buffer. rewrite Z.min_l by lia.
    rewrite (proj2 (Z.ltb_ge n 0)) by lia. cbn [Z.eqb]. rewrite Ha.
    by destruct (wants_alive _ && _).
  - rewrite Hleft, zlen_app in Hlen. pose proof (zlen_nonneg (io_left (rs_bytes res1))). lia.
Qed.

Lemma short_write_truncates_witness :
  write_events [20] HttpContext_new = (Some WRITE_CONN_CLOSE, take 20 (full_text HttpContext_new)).
Proof.
  apply (short_write_truncates HttpContext_new 20);
    [split; [|split]; by vm_compute|by vm_compute|split; by vm_compute].
Defined.
