(* ===== verification/HttpLoop.v ===== *)
(** * HttpLoop: the HTTP server on the event loop

    [HttpEpollWatcher] implements the interface [EpollSocketWatcher]: its handlers,
    as modelled in [HttpServer], obey the laws that the theorems about the event loop
    ask for, so these theorems hold of the whole server. *)
From stdpp Require Import gmap.
From S2P Require Import Prelude Streams SimParam HttpDefs HttpUrl HttpParser.
From S2P Require Import HttpInv HttpSafety HttpProps HttpOrder SimRequest SimSafety SimProps.
From S2P Require Import SimResponse EpollSocket EpollProps HttpServer HttpServerProps.

(** [recv] delivers at most what the buffer holds, and something. *)
Definition recv_ok (r : recv_result) : bool :=
  match r with
  | Recv_bytes data => (0 <? zlen data) && (zlen data <=? SS_READ_BUFFER_SIZE)
  | _ => true
  end.

Definition received : Type := { r : recv_result | recv_ok r = true }.

Section server.
Context (strict debug : bool) (rm : resource_map).

(** The virtual functions of [HttpEpollWatcher]; [debug]: debug messages are logged. *)
#[export] Instance http_watcher : EpollSocketWatcher HttpContext received Z := {
  on_accept fd := HttpContext_new;
  on_readable rcv ip hc := HttpServer.on_readable strict debug rm ip (proj1_sig rcv) hc;
  on_writeable room hc := let '(code, _, hc') := HttpServer.on_writeable room hc in (code, hc');
}.

(** The handlers of the application do not write the fields of the request in which
    the parser keeps its place. *)
Definition handlers_keep : Prop := forall path rc, rm !! path = Some rc ->
  (forall h, rc_handler_ptr rc = Some h -> forall req res u, same_core req (h req res u).1) /\
  (forall h, rc_json_ptr rc = Some h -> forall req, same_core req (h req).1).

Definition context_ok (hc : HttpContext) : Prop := obj_ok strict (hc_req hc).

Lemma same_core_obj p r r' : same_core r r' -> obj_ok strict (p, r) -> obj_ok strict (p, r').
Proof.
  intros Hs (H1 & [H2 H3] & H4). split; [done|]. split; [split|].
  - destruct H2 as (ph & Hph & Hin). exists ph. split; [by eapply same_core_ok|done].
  - intros He. destruct (H3 He) as (ph & Hph & Hin). exists ph. split; [by eapply same_core_ok|done].
  - destruct Hs as (_ & _ & _ & _ & E1 & E2). unfold err_ok. cbn [snd] in *. by rewrite E1, E2.
Qed.

Lemma handle_request_keeps req res :
  built_table rm -> handlers_keep ->
  exists req' res', handle_request rm req res = inl (req', res') /\ same_core req req'.
Proof.
  intros Hb Hk. unfold handle_request.
  destruct (rm !! get_request_uri (rq_line req)) as [rc|] eqn:E; [|eexists _, _; split; [done|apply same_core_refl]].
  destruct (built_table_lookup _ _ _ Hb E) as [[_ Hm] _]. destruct (Hk _ _ E) as [H1 H2].
  destruct (negb _).
  - destruct (hm_names (rc_method rc)); [done|]. eexists _, _. split; [done|apply same_core_refl].
  - destruct (rc_json_ptr rc) as [h|].
    + specialize (H2 h eq_refl req). destruct (h req) as [req' text]. by eexists _, _.
    + destruct (rc_handler_ptr rc) as [h|]; [|eexists _, _; split; [done|apply same_core_refl]].
      specialize (H1 h eq_refl req (cors_headers res) (rc_userdata rc)).
      destruct (h req (cors_headers res) (rc_userdata rc)) as [req' res']. by eexists _, _.
Qed.

(** What a handler may raise. *)
Definition handler_fault (f : fault) : Prop := f = Uncaught \/ debug = true /\ f = Unterminated.

Lemma http_laws : built_table rm -> handlers_keep -> WatcherLaws context_ok handler_fault.
Proof.
  intros Hb Hk. split.
  - intros fd. apply new_obj_ok.
  - intros [rcv Hrcv] ip hc Hok. cbn. destruct rcv as [| | |buf]; cbn; auto.
    apply andb_true_iff in Hrcv as [Hlo Hhi].
    pose proof (parse_request_ok strict debug buf (hc_req hc) Hok ltac:(lia)) as Ha.
    destruct (parse_request strict debug _ _ (hc_req hc)) as [[ret [p req]]|f];
      [|by destruct Ha as [->|[-> [-> _]]]; [left|right]].
    destruct Ha as (Hret & _ & Hobj). destruct (Z.ltb_spec ret 0) as [?|Hge]; [by right|].
    assert (Hobj' : obj_ok strict (p, req)) by (apply Hobj; lia).
    destruct (ret =? NEED_MORE_STATUS); [by auto|]. destruct (ret =? PARSE_LEN_REQUIRED); [by auto|].
    destruct (handle_request_keeps (set_client_ip (Some ip) req) (hc_res hc) Hb Hk) as (req' & res' & -> & Hs).
    left. split; [|by auto]. eapply same_core_obj; [|exact Hobj']. eapply same_core_trans; [|exact Hs]. by repeat split.
  - intros n [[p req] res] Hok. unfold EpollSocket.on_writeable, http_watcher, HttpServer.on_writeable.
    cbn [hc_req hc_res].
    pose proof (same_core_get_header (bytes "Connection") req) as Hs.
    destruct (get_header (bytes "Connection") req) as [conn req']. cbn [snd] in Hs.
    assert (Hreq : obj_ok strict (p, req')) by by eapply same_core_obj.
    destruct (readsome _ _) as [[ret buffer] res1]. destruct (_ <? 0); [by auto|].
    destruct (ret =? 1); [by auto|]. destruct (_ && _); [|by auto]. split; [apply new_obj_ok|by auto].
Qed.

(** The server as a whole: with a table made of [add_mapping] calls and handlers
    that leave the parser's fields alone, no sequence of connections, requests, partial
    reads and writes, and no interleaving of the threads makes it access a freed or
    unowned context, fail an assertion, overflow an integer or loop forever in a handler;
    what can end it are the exception of a malformed multipart request, a full buffer
    without NUL when debug messages are logged, and the registration of a connection when
    it fails. *)
Theorem server_safe s0 lost s a f :
  built_table rm -> handlers_keep -> booted s0 -> loop_run s0 lost s ->
  action_ok a s -> loop_act a s = Some (inr f) ->
  handler_fault f \/ (f = OutOfBounds /\ failed_registration a = true).
Proof.
  intros Hb Hk Hboot Hr Ha Hact. pose proof (http_laws Hb Hk) as Hlaws.
  pose proof (run_loop_ok (P := context_ok) (F := handler_fault) s0 lost s Hboot Hr) as Hok.
  by apply (act_ok (P := context_ok) (F := handler_fault) a lost s (inr f)).
Qed.
End server.

(** ** A run of the server that ends badly

    One connection posts a form whose [Content-Disposition] has the parameter
    [name==]. *)
Definition malicious : received :=
  exist _ (Recv_bytes (form_request (bytes "61") (bytes "name=="))) eq_refl.

Definition attack : list (loop_action received Z) :=
  [Loop_main (I_ready [(3, EPOLLIN)]); Loop_main I_go; Loop_main (I_accept (Some (5, []))); Loop_main I_go;
   Loop_main (I_register 4096 true); Loop_main I_go;
   Loop_main (I_ready [(5, EPOLLIN)]); Loop_main (I_add_task true); Loop_take].

Definition http_boot : EpollSocket HttpContext := booted_at 3.

Definition attacked : EpollSocket HttpContext :=
  default http_boot (@loop_schedule _ _ _ (http_watcher true false sample_table) attack http_boot).

Lemma sample_handlers_keep : handlers_keep sample_table.
Proof.
  intros path rc Hrc. unfold sample_table, add_mapping_json in Hrc.
  apply lookup_insert_Some in Hrc as [[_ <-]|[_ Hrc]]; [|by rewrite lookup_empty in Hrc].
  split; intros h [= <-] req. apply same_core_refl.
Qed.

Lemma attacked_run : exists lost, @loop_run _ _ _ (http_watcher true false sample_table) http_boot lost attacked.
Proof.
  eexists. apply (@loop_schedule_run _ _ _ (http_watcher true false sample_table) attack http_boot [] http_boot); [constructor|].
  vm_compute. reflexivity.
Qed.

Lemma server_safe_witness :
  exists f, @loop_act _ _ _ (http_watcher true false sample_table) (Loop_reader 0 malicious) attacked = Some (inr f) /\
    (handler_fault false f \/ (f = OutOfBounds /\ false = true)).
Proof.
  pose (a := Loop_reader (W := Z) 0 malicious).
  assert (Hact : @loop_act _ _ _ (http_watcher true false sample_table) a attacked = Some (inr Uncaught)) by by vm_compute.
  exists Uncaught. split; [exact Hact|]. destruct attacked_run as [lost Hr].
  apply (server_safe true false sample_table http_boot lost attacked a Uncaught).
  - exact sample_table_built.
  - exact sample_handlers_keep.
  - clear. apply booted_at_ok. lia.
  - exact Hr.
  - exact I.
  - exact Hact.
Defined.
