(* ===== verification/HttpStart.v ===== *)
(** * HttpStart: settings, start and end of the HTTP server

    The objects [EpollSocket] and [HttpServer] around the event loop of [EpollSocket]: their
    constructors and settings, [start_epoll] with the sockets, the epoll instance and the
    threads it makes, and the thread of [start_async] until it is joined and the server is
    deleted.  A start that reaches the loop listens on exactly the addresses that were set,
    and leaves a state from which the theorems of [EpollProps] and [HttpLoop] hold. *)
From stdpp Require Import gmap.
From S2P Require Import Prelude Control SimParam HttpDefs HttpParser SimRequest SimSafety ThreadPool.
From S2P Require Import SimResponse EpollSocket EpollProps HttpServer HttpServerProps HttpLoop.

(** ** What a process has of the system

    A socket of the process with the address and port that it is bound to (in the order of
    the host) and, once it listens, its backlog. *)
Record socket := mk_socket {
  sk_addr : option (Z * Z);
  sk_backlog : option Z;
}.

(** Thread pools by address, and the file descriptors that [start_epoll] makes. *)
Record host := mk_host {
  ho_pools : gmap Z (ThreadPool epoll_event);
  ho_sockets : gmap Z socket;
  ho_epolls : gset Z;
}.

Definition set_pools v h := mk_host v (ho_sockets h) (ho_epolls h).
Definition set_sockets v h := mk_host (ho_pools h) v (ho_epolls h).
Definition set_epolls v h := mk_host (ho_pools h) (ho_sockets h) v.

Definition INADDR_ANY : Z := 0.

(** With [SO_REUSEADDR] an address is taken when a socket listens on the port, on that
    address or when one of the two is [INADDR_ANY]; port 0 asks for any free port. *)
Definition conflicts (ip port : Z) (sk : socket) : bool :=
  match sk_addr sk, sk_backlog sk with
  | Some (ip', port'), Some _ =>
      (port' =? port) && negb (port =? 0) && ((ip =? ip') || (ip =? INADDR_ANY) || (ip' =? INADDR_ANY))
  | _, _ => false
  end.
Definition in_use (ip port : Z) (socks : gmap Z socket) : bool :=
  existsb (fun p => conflicts ip port p.2) (map_to_list socks).

(** ** The object EpollSocket

    The constructor leaves [_backlog], [_max_events], [_port] and [_watcher] as they are in
    memory: [None].  [eo_loop] is what the loop works on; [eo_watcher]: [set_watcher] has
    been called. *)
Record EpollObject := mk_object {
  eo_bind_ips : list (list Z);
  eo_backlog : option Z;
  eo_max_events : option Z;
  eo_port : option Z;
  eo_epollfd : Z;
  eo_thread_pool : option Z;
  eo_use_default_tp : bool;
  eo_watcher : bool;
  eo_loop : EpollSocket HttpContext;
}.

Definition EpollObject_new : EpollObject :=
  mk_object [] None None None (-1) None true false EpollSocket_new.

Definition set_port v o := mk_object (eo_bind_ips o) (eo_backlog o) (eo_max_events o) (Some v) (eo_epollfd o) (eo_thread_pool o) (eo_use_default_tp o) (eo_watcher o) (eo_loop o).
Definition set_backlog v o := mk_object (eo_bind_ips o) (Some v) (eo_max_events o) (eo_port o) (eo_epollfd o) (eo_thread_pool o) (eo_use_default_tp o) (eo_watcher o) (eo_loop o).
Definition set_max_events v o := mk_object (eo_bind_ips o) (eo_backlog o) (Some v) (eo_port o) (eo_epollfd o) (eo_thread_pool o) (eo_use_default_tp o) (eo_watcher o) (eo_loop o).
Definition set_watcher o := mk_object (eo_bind_ips o) (eo_backlog o) (eo_max_events o) (eo_port o) (eo_epollfd o) (eo_thread_pool o) (eo_use_default_tp o) true (eo_loop o).
Definition set_epollfd v o := mk_object (eo_bind_ips o) (eo_backlog o) (eo_max_events o) (eo_port o) v (eo_thread_pool o) (eo_use_default_tp o) (eo_watcher o) (eo_loop o).
Definition set_loop v o := mk_object (eo_bind_ips o) (eo_backlog o) (eo_max_events o) (eo_port o) (eo_epollfd o) (eo_thread_pool o) (eo_use_default_tp o) (eo_watcher o) v.

(** The pool that [init_default_tp] makes, and the one of [set_thread_pool], which may be
    [NULL]. *)
Definition own_thread_pool tp o := mk_object (eo_bind_ips o) (eo_backlog o) (eo_max_events o) (eo_port o) (eo_epollfd o) (Some tp) (eo_use_default_tp o) (eo_watcher o) (eo_loop o).
Definition set_thread_pool tp o := mk_object (eo_bind_ips o) (eo_backlog o) (eo_max_events o) (eo_port o) (eo_epollfd o) tp false (eo_watcher o) (eo_loop o).

Definition add_bind_ip ip o := mk_object (eo_bind_ips o ++ [ip]) (eo_backlog o) (eo_max_events o) (eo_port o) (eo_epollfd o) (eo_thread_pool o) (eo_use_default_tp o) (eo_watcher o) (eo_loop o).

(** [listen_sockets.insert] *)
Definition add_listen_socket fd (l : EpollSocket HttpContext) : EpollSocket HttpContext :=
  mk_epoll (es_listen_sockets l ∪ {[fd]}) (es_clients l) (es_status l) (es_interest l) (es_open l) (es_heap l)
    (es_tasks l) (es_readers l) (es_main l).

(** ** start_epoll

    [Returns]: [CHECK_RET], or the loop is not entered; [Faults] stands also for the use of
    a setting that was never made. *)
Inductive leaves :=
  | Returns (ret : Z)
  | Faults (f : fault).

Record world := mk_world { w_object : EpollObject; w_host : host }.

Abbreviation Start := (Ctl leaves world).

Definition on_object (f : EpollObject -> EpollObject) : Start unit :=
  modify (fun w => mk_world (f (w_object w)) (w_host w)).
Definition on_host (f : host -> host) : Start unit :=
  modify (fun w => mk_world (w_object w) (f (w_host w))).
Definition setting (f : EpollObject -> option Z) : Start Z :=
  v ← gets (fun w => f (w_object w));
  match v with Some z => mret z | None => exit (Faults OutOfBounds) end.

(** What the system answers for one address: the new descriptor, and whether [bind] (of an
    address that is free) and [listen] succeed. *)
Record bind_answer := mk_bind { ba_socket : option Z; ba_bind : bool; ba_listen : bool }.

(** The address of a new pool, the processors, whether the [i]-th thread can be created, the
    answers for the [i]-th address, the epoll instance, the upper half of an uninitialised
    [epoll_data], and whether a socket can be registered. *)
Record start_answers := mk_answers {
  sa_pool : Z;
  sa_nprocs : Z;
  sa_thread : Z -> bool;
  sa_bind : nat -> bind_answer;
  sa_epoll : option Z;
  sa_garbage : Z -> Z;
  sa_added : Z -> bool;
}.

(** [ThreadPool::start] as far as its own thread goes. *)
Fixpoint owner_runs (n : nat) (created : Z -> bool) (p : ThreadPool epoll_event) : ThreadPool epoll_event :=
  match tp_owner p, n with
  | O_create i, S n =>
      match owner_step (created i) p with
      | Some (_, p') => owner_runs n created p'
      | None => p
      end
  | _, _ => p
  end.

Definition pool_start (created : Z -> bool) (p : ThreadPool epoll_event) : option (Z * ThreadPool epoll_event) :=
  p' ← call_start p;
  let p'' := owner_runs (S (Z.to_nat (m_pool_size p))) created p' in
  match tp_owner p'' with
  | O_idle ret => Some (ret, p'')
  | _ => None
  end.

Section start.
Context (inet_addr : list Z -> Z).
Implicit Types a : start_answers.

Definition init_default_tp a : Start unit :=
  on_host (fun ho => set_pools (<[sa_pool a := ThreadPool_new false (sa_nprocs a) (-1)]> (ho_pools ho)) ho);;
  on_object (own_thread_pool (sa_pool a)).

(** [CHECK_RET] *)
Definition CHECK_RET (ret : Z) : Start unit :=
  if negb (ret =? 0) then exit (Returns ret) else mret tt.

Definition init_tp a : Start Z :=
  tp ← gets (fun w => eo_thread_pool (w_object w));
  match tp with None => init_default_tp a | Some _ => mret tt end;;
  started ← gets (fun w =>
    p ← eo_thread_pool (w_object w);
    pool ← ho_pools (w_host w) !! p;
    '(ret, pool') ← pool_start (sa_thread a) pool;
    Some (p, ret, pool'));
  match started with
  | Some (p, ret, pool') => on_host (fun ho => set_pools (<[p := pool']> (ho_pools ho)) ho);; mret ret
  | None => exit (Faults OutOfBounds)
  end.

(** The three system calls.  A descriptor in use is no answer of [socket]; [htons] keeps
    sixteen bits of the port. *)
Definition sys_socket (r : option Z) (ho : host) : option Z :=
  fd ← r;
  if bool_decide (fd ∈ ho_epolls ho) || bool_decide (is_Some (ho_sockets ho !! fd)) then None else Some fd.
Definition sys_bind (granted : bool) (ip port : Z) (ho : host) : bool :=
  granted && negb (in_use ip (uwrap 16 port) (ho_sockets ho)).
Definition put_socket (fd : Z) (sk : socket) : Start unit :=
  on_host (fun ho => set_sockets (<[fd := sk]> (ho_sockets ho)) ho).

Definition bind_on (r : bind_answer) (ip : Z) : Start Z :=
  new ← gets (fun w => sys_socket (ba_socket r) (w_host w));
  match new with
  | None => mret (-1)
  | Some sockfd =>
      put_socket sockfd (mk_socket None None);;
      port ← setting eo_port;
      bound ← gets (fun w => sys_bind (ba_bind r) ip port (w_host w));
      if negb bound then mret (-1)
      else
        put_socket sockfd (mk_socket (Some (ip, uwrap 16 port)) None);;
        backlog ← setting eo_backlog;
        if negb (ba_listen r) then mret (-1)
        else
          put_socket sockfd (mk_socket (Some (ip, uwrap 16 port)) (Some backlog));;
          on_object (fun o => set_loop (add_listen_socket sockfd (eo_loop o)) o);;
          mret 0
  end.

(** The loop over the addresses, the [i]-th with the [i]-th answers. *)
Fixpoint bind_all (ips : list Z) (answers : nat -> bind_answer) (i : nat) : Start Z :=
  match ips with
  | [] => mret 0
  | ip :: ips' =>
      ret ← bind_on (answers i) ip;
      if negb (ret =? 0) then mret ret else bind_all ips' answers (S i)
  end.

Definition listen_on a : Start Z :=
  ips ← gets (fun w => eo_bind_ips (w_object w));
  match ips with
  | [] => bind_on (sa_bind a 0) INADDR_ANY
  | _ => bind_all (inet_addr <$> ips) (sa_bind a) 0
  end.

(** The new instance watches nothing. *)
Definition create_epoll a : Start Z :=
  match sa_epoll a with
  | None => on_object (set_epollfd (-1));; mret (-1)
  | Some fd =>
      on_host (fun ho => set_epolls (ho_epolls ho ∪ {[fd]}) ho);;
      on_object (fun o => set_epollfd fd (set_loop (set_interest ∅ (eo_loop o)) o));;
      mret 0
  end.

Definition add_listen_sockets a : Start Z :=
  r ← gets (fun w => add_listen_sock_to_epoll (sa_garbage a) (sa_added a) (eo_loop (w_object w)));
  on_object (set_loop r.2);;
  mret r.1.

(** [start_event_loop] up to its first [epoll_wait]: a negative number of events is no length
    of an array, and [epoll_wait] refuses 0. *)
Definition enter_event_loop : Start unit :=
  max_events ← setting eo_max_events;
  if max_events <? 0 then exit (Faults Uncaught)
  else
    status ← gets (fun w => es_status (eo_loop (w_object w)));
    if (status =? S_STOP) || (max_events =? 0) then exit (Returns 0)
    else on_object (fun o => set_loop (set_main M_wait (eo_loop o)) o).

Definition start_epoll a : Start unit :=
  ret ← init_tp a; CHECK_RET ret;;
  ret ← listen_on a; CHECK_RET ret;;
  ret ← create_epoll a; CHECK_RET ret;;
  ret ← add_listen_sockets a; CHECK_RET ret;;
  enter_event_loop.
End start.

(** [EpollSocket::~EpollSocket]: deletes its own pool, whose destructor joins
    [m_pool_size] threads. *)
Definition EpollObject_delete (o : EpollObject) (ho : host) : host + fault :=
  match eo_thread_pool o, eo_use_default_tp o with
  | Some p, true =>
      match ho_pools ho !! p with
      | None => inr OutOfBounds
      | Some pool =>
          if zlen (m_threads pool) <? m_pool_size pool then inr OutOfBounds
          else inl (set_pools (delete p (ho_pools ho)) ho)
      end
  | _, _ => inl ho
  end.

(** ** The object HttpServer *)
Record HttpServer := mk_http_server {
  hs_handler : resource_map;
  hs_socket : EpollObject;
  hs_backlog : Z;
  hs_max_events : Z;
  hs_port : Z;
  hs_pid : Z;
}.

Definition HttpServer_new : HttpServer := mk_http_server ∅ EpollObject_new 10 1000 3456 0.

Definition set_handler v h := mk_http_server v (hs_socket h) (hs_backlog h) (hs_max_events h) (hs_port h) (hs_pid h).
Definition set_hs_socket v h := mk_http_server (hs_handler h) v (hs_backlog h) (hs_max_events h) (hs_port h) (hs_pid h).
Definition set_hs_pid v h := mk_http_server (hs_handler h) (hs_socket h) (hs_backlog h) (hs_max_events h) (hs_port h) v.

(** The settings of [HttpServer]: its own, and those that it hands on at once. *)
Definition hs_set_backlog v h := mk_http_server (hs_handler h) (hs_socket h) v (hs_max_events h) (hs_port h) (hs_pid h).
Definition hs_set_max_events v h := mk_http_server (hs_handler h) (hs_socket h) (hs_backlog h) v (hs_port h) (hs_pid h).
Definition hs_set_port v h := mk_http_server (hs_handler h) (hs_socket h) (hs_backlog h) (hs_max_events h) v (hs_pid h).
Definition hs_add_bind_ip ip h := set_hs_socket (add_bind_ip ip (hs_socket h)) h.
Definition hs_set_thread_pool tp h := set_hs_socket (set_thread_pool tp (hs_socket h)) h.
Definition hs_add_mapping_userdata path handler userdata m h :=
  set_handler (add_mapping_userdata path handler userdata m (hs_handler h)) h.
Definition hs_add_mapping_handler path handler m h := set_handler (add_mapping_handler path handler m (hs_handler h)) h.
Definition hs_add_mapping_json path handler m h := set_handler (add_mapping_json path handler m (hs_handler h)) h.

(** A call of one of these. *)
Inductive setter :=
  | Set_port (v : Z)
  | Set_backlog (v : Z)
  | Set_max_events (v : Z)
  | Set_thread_pool (tp : option Z)
  | Add_bind_ip (ip : list Z)
  | Add_mapping_userdata (path : list Z) (handler : method_handler) (userdata : Z) (m : HttpMethod)
  | Add_mapping_handler (path : list Z) (handler : method_handler) (m : HttpMethod)
  | Add_mapping_json (path : list Z) (handler : json_handler) (m : HttpMethod).

Definition apply_setter (c : setter) (h : HttpServer) : HttpServer :=
  match c with
  | Set_port v => hs_set_port v h
  | Set_backlog v => hs_set_backlog v h
  | Set_max_events v => hs_set_max_events v h
  | Set_thread_pool tp => hs_set_thread_pool tp h
  | Add_bind_ip ip => hs_add_bind_ip ip h
  | Add_mapping_userdata path f u m => hs_add_mapping_userdata path f u m h
  | Add_mapping_handler path f m => hs_add_mapping_handler path f m h
  | Add_mapping_json path f m => hs_add_mapping_json path f m h
  end.

Definition hs_stop (h : HttpServer) : HttpServer :=
  set_hs_socket (set_loop (stop_epoll (eo_loop (hs_socket h))) (hs_socket h)) h.

(** How a start ends: in the loop, or with a result. *)
Inductive started :=
  | In_loop
  | Ended (ret : Z).

Section server.
Context (inet_addr : list Z -> Z).

(** The settings that [start] and [start_sync] make before [start_epoll]. *)
Definition configured (port backlog max_events : Z) (o : EpollObject) : EpollObject :=
  set_watcher (set_max_events max_events (set_backlog backlog (set_port port o))).

Definition start_with (o : EpollObject) (a : start_answers) (h : HttpServer) (ho : host)
  : (started * HttpServer * host) + fault :=
  match start_epoll inet_addr a (mk_world o ho) with
  | inl (_, w) => inl (In_loop, set_hs_socket (w_object w) h, w_host w)
  | inr (Returns ret, w) => inl (Ended ret, set_hs_socket (w_object w) h, w_host w)
  | inr (Faults f, _) => inr f
  end.

Definition hs_start (port backlog max_events : Z) a h ho :=
  start_with (configured port backlog max_events (hs_socket h)) a h ho.

Definition hs_start_sync a h ho :=
  start_with (configured (hs_port h) (hs_backlog h) (hs_max_events h) (hs_socket h)) a h ho.

(** ** The server in a process

    The threads that [start_async] has created, by their [pthread_t]: before
    [start_sync]; in the loop; ended; joined. *)
Inductive thread :=
  | Th_created
  | Th_loop
  | Th_ended
  | Th_joined.

(** [pr_server]: [None] when it has been deleted; [pr_orphans]: a pool that outlives it still
    has tasks that point to it. *)
Record process := mk_process {
  pr_server : option HttpServer;
  pr_host : host;
  pr_threads : gmap Z thread;
  pr_orphans : bool;
}.

(** [start_async]: the result of [pthread_create] and what it leaves in [_pid]. *)
Definition start_async (ret tid : Z) (h : HttpServer) (threads : gmap Z thread) : Z * HttpServer * gmap Z thread :=
  if negb (ret =? 0) then (ret, set_hs_pid tid h, threads)
  else (0, set_hs_pid tid h, <[tid := Th_created]> threads).

(** [join]: blocked ([None]) while the thread runs; what was joined before must not be
    joined again. *)
Definition join (h : HttpServer) (threads : gmap Z thread) : option ((Z * gmap Z thread) + fault) :=
  if hs_pid h =? 0 then Some (inl (-1, threads))
  else
    match threads !! hs_pid h with
    | Some Th_ended => Some (inl (0, <[hs_pid h := Th_joined]> threads))
    | Some Th_created | Some Th_loop => None
    | Some Th_joined | None => Some (inr OutOfBounds)
    end.

Inductive operation :=
  | Op_set (c : setter)
  | Op_start_async (ret tid : Z)
  | Op_thread (tid : Z) (a : start_answers)       (* http_start_routine calls start_sync *)
  | Op_loop (tid : Z) (i : answer Z)              (* its thread goes on in the loop *)
  | Op_take                                       (* a worker of the pool takes a task *)
  | Op_reader (k : nat) (rcv : received)          (* a task goes on *)
  | Op_stop
  | Op_join
  | Op_delete.

Definition start_thread (tid : Z) (a : start_answers) (p : process) : (Z * process) + fault :=
  match pr_server p with
  | None => inr OutOfBounds
  | Some h =>
      match hs_start_sync a h (pr_host p) with
      | inr f => inr f
      | inl (In_loop, h, ho) =>
          inl (0, mk_process (Some h) ho (<[tid := Th_loop]> (pr_threads p)) (pr_orphans p))
      | inl (Ended _, h, ho) =>
          inl (0, mk_process (Some h) ho (<[tid := Th_ended]> (pr_threads p)) (pr_orphans p))
      end
  end.

(** A step of the loop or of a task; a thread in the loop ends with it. *)
Definition act_on_loop (strict debug : bool) (threads : EpollSocket HttpContext -> gmap Z thread -> gmap Z thread)
  (act : loop_action received Z) (p : process) : option ((Z * process) + fault) :=
  match pr_server p with
  | None => Some (inr OutOfBounds)
  | Some h =>
      match @loop_act _ _ _ (http_watcher strict debug (hs_handler h)) act (eo_loop (hs_socket h)) with
      | None => None
      | Some (inr f) => Some (inr f)
      | Some (inl l) =>
          Some (inl (0, mk_process (Some (set_hs_socket (set_loop l (hs_socket h)) h)) (pr_host p)
                          (threads l (pr_threads p)) (pr_orphans p)))
      end
  end.

Definition loop_thread (tid : Z) (l : EpollSocket HttpContext) (threads : gmap Z thread) : gmap Z thread :=
  match es_main l with M_stopped => <[tid := Th_ended]> threads | _ => threads end.

Definition pool_step (strict debug : bool) (act : loop_action received Z) (p : process) : option ((Z * process) + fault) :=
  match pr_server p with
  | None => if pr_orphans p then Some (inr OutOfBounds) else None
  | Some _ => act_on_loop strict debug (fun _ threads => threads) act p
  end.

(** [delete]: its own pool is joined first, after the tasks that run; another pool goes on
    with the tasks it has. *)
Definition delete_server (h : HttpServer) (p : process) : option ((Z * process) + fault) :=
  let o := hs_socket h in
  let l := eo_loop o in
  if eo_use_default_tp o && negb (bool_decide (zlen (es_readers l) = 0)) then None
  else
    match EpollObject_delete o (pr_host p) with
    | inr f => Some (inr f)
    | inl ho =>
        let busy := negb (bool_decide (zlen (es_readers l) = 0)) || negb (bool_decide (zlen (es_tasks l) = 0)) in
        Some (inl (0, mk_process None ho (pr_threads p) (negb (eo_use_default_tp o) && busy)))
    end.

(** What the owner of the server does. *)
Definition owner_call (op : operation) (h : HttpServer) (p : process) : option ((Z * process) + fault) :=
  let keep ret h threads := Some (inl (ret, mk_process (Some h) (pr_host p) threads (pr_orphans p))) in
  match op with
  | Op_set c => keep 0 (apply_setter c h) (pr_threads p)
  | Op_stop => keep 0 (hs_stop h) (pr_threads p)
  | Op_start_async ret tid =>
      let '(ret, h, threads) := start_async ret tid h (pr_threads p) in keep ret h threads
  | Op_join =>
      match join h (pr_threads p) with
      | None => None
      | Some (inr f) => Some (inr f)
      | Some (inl (ret, threads)) => keep ret h threads
      end
  | Op_delete => delete_server h p
  | _ => None
  end.

(** One operation: [None] when it is blocked or not due.  What the owner does with a deleted
    server is a fault, and so is what its thread does. *)
Definition server_step (strict debug : bool) (op : operation) (p : process) : option ((Z * process) + fault) :=
  match op with
  | Op_thread tid a =>
      match pr_threads p !! tid with Some Th_created => Some (start_thread tid a p) | _ => None end
  | Op_loop tid i =>
      match pr_threads p !! tid with
      | Some Th_loop => act_on_loop strict debug (loop_thread tid) (Loop_main i) p
      | _ => None
      end
  | Op_take => pool_step strict debug Loop_take p
  | Op_reader k rcv => pool_step strict debug (Loop_reader k rcv) p
  | _ =>
      match pr_server p with
      | None => Some (inr OutOfBounds)
      | Some h => owner_call op h p
      end
  end.
End server.
