(* ===== verification/HttpStartProps.v ===== *)
(** * HttpStartProps: what a start leaves, and the life of the server

    A start that reaches the loop listens on the addresses that were set, with the port and
    the backlog that were set, and is the start that [EpollProps] assumes.  Its sockets stay
    open for ever, so a second start of the same server fails.  A server that is started
    once, joined and then deleted is never used after its end. *)
From stdpp Require Import gmap.
From S2P Require Import Prelude Control SimParam HttpDefs HttpParser SimRequest SimSafety ThreadPool.
From S2P Require Import SimResponse EpollSocket EpollProps HttpServer HttpServerProps HttpLoop HttpStart.

(** ** The pool *)

Lemma owner_runs_idle n created (p : ThreadPool epoll_event) ret :
  tp_owner p = O_idle ret -> owner_runs n created p = p.
Proof. by destruct n; cbn; intros ->. Qed.

Lemma owner_runs_step n created i (p : ThreadPool epoll_event) :
  tp_owner p = O_create i ->
  owner_runs (S n) created p =
    owner_runs n created
      (if i <? m_pool_size p then
         if created i then set_owner (O_create (i + 1)) (set_m_threads (m_threads p ++ [W_entry]) p)
         else set_owner (O_idle (-1)) p
       else set_owner (O_idle 0) p).
Proof. intros Hi. cbn [owner_runs]. unfold owner_step. by rewrite Hi. Qed.

(** Every created thread is there, and the loop of [start] ends. *)
Lemma owner_runs_ends n created : forall i (p : ThreadPool epoll_event),
  tp_owner p = O_create i -> m_pool_size p - i <= Z.of_nat n ->
  let p' := owner_runs (S n) created p in
  exists ret, tp_owner p' = O_idle ret /\ (ret = 0 \/ ret = -1) /\ m_pool_state p' = m_pool_state p /\
    m_pool_size p' = m_pool_size p /\
    (ret = 0 -> m_threads p' = m_threads p ++ replicate (Z.to_nat (m_pool_size p - i)) W_entry) /\
    ((forall i, created i = true) -> ret = 0).
Proof.
  induction n as [|n IH]; intros i p Hi Hn p'; subst p'; rewrite (owner_runs_step _ _ _ _ Hi);
    (destruct (Z.ltb_spec i (m_pool_size p)); [|rewrite (owner_runs_idle _ _ _ 0) by done; exists 0; cbn;
      rewrite Z2Nat.nonpos by lia; cbn; rewrite app_nil_r; by repeat (split; [by auto|])]); [lia|].
  destruct (created i) eqn:Ec.
  2:{ rewrite (owner_runs_idle _ _ _ (-1)) by done. exists (-1). repeat (split; [by auto|]). intros Hall. by rewrite Hall in Ec. }
  destruct (IH (i + 1) (set_owner (O_create (i + 1)) (set_m_threads (m_threads p ++ [W_entry]) p)))
    as (ret & H1 & H2 & H3 & H4 & H5 & H6); [done|cbn; lia|].
  exists ret. split; [done|]. split; [done|]. split; [done|]. split; [done|]. split; [|done]. intros Hr. rewrite (H5 Hr). cbn.
  rewrite <-app_assoc. f_equal. replace (Z.to_nat (m_pool_size p - i)) with (S (Z.to_nat (m_pool_size p - (i + 1)))) by lia.
  done.
Qed.

(** A pool whose owner is idle and that has, once started, all its threads. *)
Definition pool_ready (p : ThreadPool epoll_event) : Prop :=
  m_pool_state p = STARTED /\ (m_pool_size p <= zlen (m_threads p)) /\ exists ret, tp_owner p = O_idle ret.

Lemma pool_start_ok created p ret0 : tp_owner p = O_idle ret0 -> (m_pool_state p = STARTED -> pool_ready p) ->
  exists ret p', pool_start created p = Some (ret, p') /\ (ret = 0 -> pool_ready p') /\
    ((forall i, created i = true) -> m_pool_size p' <= zlen (m_threads p')).
Proof.
  intros Ho Hs. unfold pool_start, call_start. rewrite Ho. cbn [mbind option_bind].
  destruct (Z.eqb_spec (m_pool_size p) 0) as [E|Hz].
  { rewrite (owner_runs_idle _ _ _ (-1)) by done. exists (-1), (set_owner (O_idle (-1)) p).
    split; [done|]. split; [done|]. intros _. cbn. pose proof (zlen_nonneg (m_threads p)). lia. }
  destruct (Z.eqb_spec (m_pool_state p) STARTED) as [E|Hn].
  { rewrite (owner_runs_idle _ _ _ 0) by done. exists 0, (set_owner (O_idle 0) p).
    destruct (Hs E) as (? & ? & _). split; [done|]. split; [|done]. intros _. split; [done|]. split; [done|]. by exists 0. }
  set (p0 := set_owner (O_create 0) (set_m_state STARTED p)).
  destruct (owner_runs_ends (Z.to_nat (m_pool_size p)) created 0 p0) as (ret & H1 & H2 & H3 & H4 & H5 & H6);
    [done|cbn; lia|]. rewrite H1. exists ret, (owner_runs (S (Z.to_nat (m_pool_size p))) created p0).
  assert (Hsz : ret = 0 -> m_pool_size p <= zlen (m_threads (owner_runs (S (Z.to_nat (m_pool_size p))) created p0))).
  { intros Hr. rewrite (H5 Hr). unfold zlen. rewrite length_app, length_replicate. cbn. lia. }
  split; [done|]. rewrite H4. split; [|by auto]. intros Hr. split; [done|]. split; [rewrite H4; by auto|by exists ret].
Qed.

(** ** The sockets *)

Lemma in_use_spec ip port socks :
  in_use ip port socks = true <-> exists fd sk, socks !! fd = Some sk /\ conflicts ip port sk = true.
Proof.
  unfold in_use. rewrite existsb_exists. split.
  - intros ([fd sk] & Hin & Hc). exists fd, sk. split; [|done]. by apply elem_of_map_to_list, list_elem_of_In.
  - intros (fd & sk & Hin & Hc). exists (fd, sk). split; [|done]. by apply list_elem_of_In, elem_of_map_to_list.
Qed.

(** A new socket that does not listen is in nobody's way. *)
Lemma in_use_insert ip port fd sk socks :
  socks !! fd = None -> in_use ip port socks = true -> in_use ip port (<[fd := sk]> socks) = true.
Proof.
  intros Hn (fd' & sk' & Hf & Hc)%in_use_spec. apply in_use_spec. exists fd', sk'. split; [|done].
  rewrite lookup_insert_ne; [done|]. congruence.
Qed.

Section start.
Context (inet_addr : list Z -> Z).
Implicit Types (a : start_answers) (w : world).

(** The addresses to listen on. *)
Definition addresses (o : EpollObject) : list Z :=
  match eo_bind_ips o with [] => [INADDR_ANY] | ips => inet_addr <$> ips end.

(** A socket that listens as it should. *)
Definition listener (ip port backlog : Z) : socket := mk_socket (Some (ip, uwrap 16 port)) (Some backlog).

Definition with_listener (fd ip port backlog : Z) w : world :=
  mk_world (set_loop (add_listen_socket fd (eo_loop (w_object w))) (w_object w))
    (set_sockets (<[fd := listener ip port backlog]> (ho_sockets (w_host w))) (w_host w)).

(** What a start keeps: the settings, the pools and the sockets there are. *)
Definition same_settings (o o' : EpollObject) : Prop :=
  eo_bind_ips o' = eo_bind_ips o /\ eo_backlog o' = eo_backlog o /\ eo_max_events o' = eo_max_events o /\
  eo_port o' = eo_port o /\ eo_use_default_tp o' = eo_use_default_tp o /\ eo_watcher o' = eo_watcher o.

(** What no step behind the pool touches, and what it only adds to. *)
Definition keeps w w' : Prop :=
  ho_sockets (w_host w) ⊆ ho_sockets (w_host w') /\ ho_pools (w_host w') = ho_pools (w_host w) /\
  eo_thread_pool (w_object w') = eo_thread_pool (w_object w) /\
  es_tasks (eo_loop (w_object w')) = es_tasks (eo_loop (w_object w)) /\
  es_readers (eo_loop (w_object w')) = es_readers (eo_loop (w_object w)).

Lemma keeps_trans w1 w2 w3 : keeps w1 w2 -> keeps w2 w3 -> keeps w1 w3.
Proof.
  intros (H1 & E1 & F1 & G1 & I1) (H2 & E2 & F2 & G2 & I2). split; [by etransitivity|]. by rewrite E2, F2, G2, I2.
Qed.

Lemma bind_on_ok r ip w port backlog :
  eo_port (w_object w) = Some port -> eo_backlog (w_object w) = Some backlog ->
  wp (bind_on r ip) w (fun ret w' =>
    (ret = 0 /\ exists fd, ba_socket r = Some fd /\ ho_sockets (w_host w) !! fd = None /\
       in_use ip (uwrap 16 port) (ho_sockets (w_host w)) = false /\ w' = with_listener fd ip port backlog w) \/
    (ret = -1 /\ keeps w w')) (fun _ _ => False).
Proof.
  intros Hp Hb. unfold bind_on. do 2 wp_step. unfold sys_socket. destruct (ba_socket r) as [fd|] eqn:Er; cbn.
  2:{ wp_step. right. by repeat split. }
  destruct (bool_decide (fd ∈ _)); cbn; [wp_step; right; by repeat split|].
  case_bool_decide as Hf; cbn; [wp_step; right; by repeat split|].
  assert (Hn : ho_sockets (w_host w) !! fd = None) by by apply eq_None_not_Some.
  assert (Hs : forall sk, ho_sockets (w_host w) ⊆ <[fd := sk]> (ho_sockets (w_host w))) by by intros; apply insert_subseteq.
  unfold put_socket, on_host, on_object, setting. do 2 wp_step. cbn. do 3 wp_step. cbn. rewrite Hp. wp_step.
  do 2 wp_step. cbn. unfold sys_bind. destruct (ba_bind r && _) eqn:Eb; cbn; [|wp_step; right; by repeat split; cbn].
  do 2 wp_step. cbn. do 3 wp_step. cbn. rewrite Hb. wp_step. rewrite !insert_insert_eq.
  destruct (ba_listen r); cbn; [|wp_step; right; by repeat split; cbn].
  do 2 wp_step. cbn. do 2 wp_step. cbn. rewrite insert_insert_eq. wp_step. left. split; [done|]. exists fd.
  apply andb_true_iff in Eb as [_ Eb%negb_true_iff]. cbn in Eb. split; [done|]. split; [done|]. split; [|done].
  apply not_true_iff_false. intros Hu. by rewrite (in_use_insert _ _ _ _ _ Hn Hu) in Eb.
Qed.

Lemma with_listener_keeps fd ip port backlog w :
  ho_sockets (w_host w) !! fd = None -> keeps w (with_listener fd ip port backlog w).
Proof. intros Hn. split; [by apply insert_subseteq|done]. Qed.

(** The sockets of a list of addresses, opened in order. *)
Fixpoint with_listeners (fds ips : list Z) (port backlog : Z) w : world :=
  match fds, ips with
  | fd :: fds', ip :: ips' => with_listeners fds' ips' port backlog (with_listener fd ip port backlog w)
  | _, _ => w
  end.

Fixpoint fresh_listeners (fds ips : list Z) (port backlog : Z) w : Prop :=
  match fds, ips with
  | [], [] => True
  | fd :: fds', ip :: ips' =>
      ho_sockets (w_host w) !! fd = None /\ in_use ip (uwrap 16 port) (ho_sockets (w_host w)) = false /\
      fresh_listeners fds' ips' port backlog (with_listener fd ip port backlog w)
  | _, _ => False
  end.

(** The descriptors are answers of [socket]. *)
Definition answered (answers : nat -> bind_answer) (fds : list Z) : Prop :=
  Forall (fun fd => exists i, ba_socket (answers i) = Some fd) fds.

Lemma bind_all_ok ips answers port backlog : forall i w,
  eo_port (w_object w) = Some port -> eo_backlog (w_object w) = Some backlog ->
  wp (bind_all ips answers i) w (fun ret w' =>
    keeps w w' /\
    ((ret = 0 /\ exists fds, answered answers fds /\ fresh_listeners fds ips port backlog w /\ w' = with_listeners fds ips port backlog w) \/
     ret = -1)) (fun _ _ => False).
Proof.
  induction ips as [|ip ips IH]; intros i w Hp Hb; cbn [bind_all].
  { wp_step. split; [done|]. left. split; [done|]. exists []. split; [constructor|done]. }
  wp_step. eapply wp_mono; [| |by apply bind_on_ok]; [|done]. cbn. intros ret w1 [(-> & fd & Hr & Hn & Hu & ->)|(-> & Hs)].
  2:{ cbn. wp_step. by auto. }
  cbn. eapply wp_mono; [| |by apply IH]; [|done]. cbn. intros ret w2 [Hs Hor].
  split; [eapply keeps_trans; [|exact Hs]; by apply with_listener_keeps|].
  destruct Hor as [(-> & fds & Han & Hf & ->)| -> ]; [|by right]. left. split; [done|]. exists (fd :: fds).
  split; [constructor; [by eexists|exact Han]|done].
Qed.

Lemma listen_on_ok a w port backlog :
  eo_port (w_object w) = Some port -> eo_backlog (w_object w) = Some backlog ->
  wp (listen_on inet_addr a) w (fun ret w' =>
    keeps w w' /\
    ((ret = 0 /\ exists fds, answered (sa_bind a) fds /\ fresh_listeners fds (addresses (w_object w)) port backlog w /\
       w' = with_listeners fds (addresses (w_object w)) port backlog w) \/
     ret = -1)) (fun _ _ => False).
Proof.
  intros Hp Hb. unfold listen_on, addresses. do 2 wp_step.
  destruct (eo_bind_ips (w_object w)) as [|ip ips]; [|by apply bind_all_ok].
  eapply wp_mono; [| |by apply bind_on_ok]; [|done]. cbn. intros ret w1 [(-> & fd & Hr & Hn & Hu & ->)|(-> & Hs)]; [|by auto].
  split; [by apply with_listener_keeps|]. left. split; [done|]. exists [fd]. split; [|done]. constructor; [by eexists|constructor].
Qed.

(** What the new sockets change. *)
Lemma with_listeners_world fds : forall ips port backlog w, length fds = length ips ->
  w_object (with_listeners fds ips port backlog w) =
    set_loop (fold_left (fun l fd => add_listen_socket fd l) fds (eo_loop (w_object w))) (w_object w) /\
  ho_pools (w_host (with_listeners fds ips port backlog w)) = ho_pools (w_host w).
Proof.
  induction fds as [|fd fds IH]; intros [|ip ips] port backlog w Hl; try done; cbn.
  { split; [by destruct w as [[]]|done]. }
  injection Hl as Hl. by destruct (IH ips port backlog (with_listener fd ip port backlog w) Hl) as [-> ->].
Qed.

Lemma with_listeners_sockets fds : forall ips port backlog w w',
  ho_sockets (w_host w) = ho_sockets (w_host w') ->
  ho_sockets (w_host (with_listeners fds ips port backlog w)) = ho_sockets (w_host (with_listeners fds ips port backlog w')).
Proof.
  induction fds as [|fd fds IH]; intros [|ip ips] port backlog w w' E; try done. cbn. apply IH. cbn. by rewrite E.
Qed.

Lemma fresh_listeners_ext fds : forall ips port backlog w w',
  ho_sockets (w_host w) = ho_sockets (w_host w') ->
  fresh_listeners fds ips port backlog w -> fresh_listeners fds ips port backlog w'.
Proof.
  induction fds as [|fd fds IH]; intros [|ip ips] port backlog w w' E; try done. cbn. rewrite E. intros (?&?&H).
  split; [done|]. split; [done|]. eapply IH; [|exact H]. cbn. by rewrite E.
Qed.

Lemma fresh_listeners_length fds : forall ips port backlog w,
  fresh_listeners fds ips port backlog w -> length fds = length ips.
Proof. induction fds as [|fd fds IH]; intros [|ip ips] port backlog w; try done. cbn. intros (_&_&H). f_equal. by eapply IH. Qed.

(** The descriptors are new and distinct, and every address has its socket. *)
Lemma fresh_listeners_lookup fds : forall ips port backlog w, fresh_listeners fds ips port backlog w ->
  NoDup fds /\ (forall fd, fd ∈ fds -> ho_sockets (w_host w) !! fd = None) /\
  (forall fd sk, ho_sockets (w_host w) !! fd = Some sk ->
     ho_sockets (w_host (with_listeners fds ips port backlog w)) !! fd = Some sk) /\
  (forall i fd ip, fds !! i = Some fd -> ips !! i = Some ip ->
     ho_sockets (w_host (with_listeners fds ips port backlog w)) !! fd = Some (listener ip port backlog)).
Proof.
  induction fds as [|fd fds IH]; intros [|ip ips] port backlog w; try done; cbn.
  { intros _. split; [constructor|]. split; [by intros fd ?%elem_of_nil|]. by split. }
  intros (Hn & _ & H). apply IH in H as (Hd & Hf & Hk & Hl). cbn in *.
  assert (Hnin : fd ∉ fds) by (intros ?%Hf; by rewrite lookup_insert_eq in H).
  split; [by constructor|]. split; [|split].
  - intros fd' [->|Hin]%elem_of_cons; [done|]. apply Hf in Hin. by apply lookup_insert_None in Hin as [? _].
  - intros fd' sk E. apply Hk. rewrite lookup_insert_ne; [done|]. congruence.
  - intros [|i] fd' ip'; cbn; [|by apply Hl]. intros [= <-] [= <-]. apply Hk. by rewrite lookup_insert_eq.
Qed.

(** ** start_epoll *)
Definition pool_usable w : Prop :=
  match eo_thread_pool (w_object w) with
  | None => True
  | Some p => exists pool ret, ho_pools (w_host w) !! p = Some pool /\ tp_owner pool = O_idle ret /\
      (m_pool_state pool = STARTED -> pool_ready pool)
  end.

(** A world with another pool. *)
Definition with_pool (p : Z) (pools : gmap Z (ThreadPool epoll_event)) w : world :=
  mk_world (own_thread_pool p (w_object w)) (set_pools pools (w_host w)).

Lemma init_tp_ok a w : pool_usable w ->
  wp (init_tp a) w (fun ret w' => exists p pool pools, w' = with_pool p pools w /\
    pools !! p = Some pool /\ (ret = 0 -> pool_ready pool) /\
    ((forall i, sa_thread a i = true) -> m_pool_size pool <= zlen (m_threads pool))) (fun _ _ => False).
Proof.
  intros Hu. unfold init_tp, pool_usable in *. do 2 wp_step.
  assert (Hgo : forall w1 p pool ret0, eo_thread_pool (w_object w1) = Some p -> ho_pools (w_host w1) !! p = Some pool ->
    tp_owner pool = O_idle ret0 -> (m_pool_state pool = STARTED -> pool_ready pool) ->
    exists ret pool', (eo_thread_pool (w_object w1) ≫= fun p => ho_pools (w_host w1) !! p ≫= fun pool =>
      '(ret, pool') ← pool_start (sa_thread a) pool; Some (p, ret, pool')) = Some (p, ret, pool') /\
      (ret = 0 -> pool_ready pool') /\
      ((forall i, sa_thread a i = true) -> m_pool_size pool' <= zlen (m_threads pool'))).
  { intros w1 p pool ret0 E1 E2 E3 E4. destruct (pool_start_ok (sa_thread a) pool ret0 E3 E4) as (ret & pool' & E & H).
    exists ret, pool'. split; [|done]. rewrite E1. cbn. rewrite E2. cbn. by rewrite E. }
  destruct (eo_thread_pool (w_object w)) as [p|] eqn:Ep.
  - destruct Hu as (pool & ret0 & E1 & E2 & E3). do 4 wp_step.
    destruct (Hgo w p pool ret0 Ep E1 E2 E3) as (ret & pool' & -> & H & H'). unfold on_host. do 3 wp_step.
    exists p, pool', (<[p := pool']> (ho_pools (w_host w))). split.
    + destruct w as [[] ho]. cbn in *. by subst.
    + by rewrite lookup_insert_eq.
  - unfold init_default_tp, on_host, on_object. do 6 wp_step.
    set (pool := ThreadPool_new false (sa_nprocs a) (-1)).
    match goal with |- wp _ ?w1 _ _ => destruct (Hgo w1 (sa_pool a) pool 0) as (ret & pool' & E & H & H') end;
      [done|cbn; by rewrite lookup_insert_eq|done|done|]. rewrite E. do 3 wp_step. cbn. rewrite insert_insert_eq.
    exists (sa_pool a), pool', (<[sa_pool a := pool']> (ho_pools (w_host w))). split; [done|].
    by rewrite lookup_insert_eq.
Qed.

(** The listening sockets in the loop's own state, and the state at the first
    [epoll_wait]. *)
Definition listening (fds : list Z) (l : EpollSocket HttpContext) : EpollSocket HttpContext :=
  fold_left (fun l fd => add_listen_socket fd l) fds l.

Lemma listening_fields fds : forall l,
  listening fds l = mk_epoll (es_listen_sockets l ∪ list_to_set fds) (es_clients l) (es_status l) (es_interest l)
    (es_open l) (es_heap l) (es_tasks l) (es_readers l) (es_main l).
Proof.
  unfold listening. induction fds as [|fd fds IH]; intros l; cbn.
  { rewrite (right_id_L ∅ (∪)). by destruct l. }
  rewrite IH. cbn. by rewrite (assoc_L (∪)).
Qed.

Record entered a (port backlog : Z) w w' : Prop := {
  en_settings : same_settings (w_object w) (w_object w');
  en_pool : exists p pool, eo_thread_pool (w_object w') = Some p /\ ho_pools (w_host w') !! p = Some pool /\
    pool_ready pool;
  en_listen : exists fds l, answered (sa_bind a) fds /\ fresh_listeners fds (addresses (w_object w)) port backlog w /\
    ho_sockets (w_host w') = ho_sockets (w_host (with_listeners fds (addresses (w_object w)) port backlog w)) /\
    add_listen_sock_to_epoll (sa_garbage a) (sa_added a) (set_interest ∅ (listening fds (eo_loop (w_object w)))) = (0, l) /\
    eo_loop (w_object w') = set_main M_wait l /\ es_status l <> S_STOP;
}.

Lemma wp_check ret w (Q : unit -> world -> Prop) (E : leaves -> world -> Prop) :
  (ret = 0 -> Q tt w) -> (ret <> 0 -> E (Returns ret) w) -> wp (CHECK_RET ret) w Q E.
Proof. intros HQ HE. unfold CHECK_RET. destruct (Z.eqb_spec ret 0); cbn; wp_step; auto. Qed.

(** How a start can end before the loop: only behind the sockets with 0 or an exception. *)
Definition pool_whole a w : Prop :=
  exists p pool, eo_thread_pool (w_object w) = Some p /\ ho_pools (w_host w) !! p = Some pool /\
    ((forall i, sa_thread a i = true) -> m_pool_size pool <= zlen (m_threads pool)).

Definition tasks_kept w w' : Prop :=
  es_tasks (eo_loop (w_object w')) = es_tasks (eo_loop (w_object w)) /\
  es_readers (eo_loop (w_object w')) = es_readers (eo_loop (w_object w)).

Lemma add_listen_tasks garbage added socks : forall (l : EpollSocket HttpContext) ret l',
  add_listen_socks socks garbage added l = (ret, l') -> es_tasks l' = es_tasks l /\ es_readers l' = es_readers l.
Proof.
  induction socks as [|fd socks IH]; intros l ret l'; cbn; [by intros [= <- <-]|].
  destruct (added fd); [|by intros [= <- <-]]. intros H. by apply IH in H.
Qed.

Definition start_left a (port backlog max_events : Z) w (j : leaves) w' : Prop :=
  ho_sockets (w_host w) ⊆ ho_sockets (w_host w') /\ pool_whole a w' /\ tasks_kept w w' /\
  ((exists ret, j = Returns ret /\ ret <> 0) \/
   ((exists fds, fresh_listeners fds (addresses (w_object w)) port backlog w) /\
    (j = Returns 0 \/ j = Faults Uncaught /\ max_events < 0))).

Lemma start_left_late a port backlog max_events w j w' :
  ho_sockets (w_host w) ⊆ ho_sockets (w_host w') /\ pool_whole a w' /\ tasks_kept w w' ->
  (exists fds, fresh_listeners fds (addresses (w_object w)) port backlog w) ->
  j = Returns 0 \/ j = Faults Uncaught /\ max_events < 0 -> start_left a port backlog max_events w j w'.
Proof. intros (H1 & H2 & H2') H3 H4. split_and!; [done..|]. by right. Qed.

Lemma start_epoll_ok a w port backlog max_events :
  eo_port (w_object w) = Some port -> eo_backlog (w_object w) = Some backlog ->
  eo_max_events (w_object w) = Some max_events -> pool_usable w ->
  wp (start_epoll inet_addr a) w
    (fun _ w' => entered a port backlog w w' /\ 0 < max_events /\ ho_sockets (w_host w) ⊆ ho_sockets (w_host w') /\
       pool_whole a w')
    (start_left a port backlog max_events w).
Proof.
  intros Hp Hb Hm Hu. unfold start_epoll. wp_step. eapply wp_mono; [| |by apply init_tp_ok]; [|done]. cbn.
  intros ret w1 (p & pool & pools & -> & Hpool & Hready & Hwhole). set (w1 := with_pool p pools w).
  assert (Hk : forall w', keeps w1 w' -> ho_sockets (w_host w) ⊆ ho_sockets (w_host w') /\ pool_whole a w' /\ tasks_kept w w').
  { intros w' (H1 & H2 & H3 & H4). split; [done|]. split; [|done]. exists p, pool. by rewrite H2, H3. }
  assert (Hleft : forall ret w', keeps w1 w' -> ret <> 0 -> start_left a port backlog max_events w (Returns ret) w').
  { intros r w' (H1 & H2 & H3)%Hk Hn. split_and!; [done..|]. left. by exists r. }
  wp_step. apply wp_check; [|by apply Hleft]. intros Er. specialize (Hready Er). clear Er ret.
  wp_step. eapply wp_mono; [| |by apply (listen_on_ok a w1 port backlog)]; [|done]. cbn.
  intros ret w2 [Hs Hl]. wp_step. apply wp_check; [|by apply Hleft]. intros ->.
  destruct Hl as [(_ & fds & Han & Hf & ->)|?]; [|done].
  change (addresses (own_thread_pool p (w_object w))) with (addresses (w_object w)) in *.
  assert (Hf' : fresh_listeners fds (addresses (w_object w)) port backlog w) by by eapply fresh_listeners_ext; [|exact Hf].
  destruct (with_listeners_world fds (addresses (w_object w)) port backlog w1) as [Ho Hh];
    [by eapply fresh_listeners_length|].
  set (w2 := with_listeners fds _ port backlog w1) in *. wp_step. unfold create_epoll.
  destruct (sa_epoll a) as [efd|]; [|unfold on_object; do 4 wp_step; apply wp_check; [done|by apply Hleft]].
  unfold on_host, on_object. do 5 wp_step. wp_step. apply wp_check; [|done]. intros _.
  unfold add_listen_sockets, on_object. do 6 wp_step. cbn. rewrite Ho. cbn.
  destruct (add_listen_sock_to_epoll _ _ _) as [ret l] eqn:Ea. wp_step. cbn.
  assert (Hk3 : forall o ho, eo_thread_pool o = Some p -> ho_sockets ho = ho_sockets (w_host w2) ->
    ho_pools ho = ho_pools (w_host w2) -> es_tasks (eo_loop o) = es_tasks l ->
    es_readers (eo_loop o) = es_readers l -> keeps w1 (mk_world o ho)).
  { intros o ho E1 E2 E3 E4 E5. destruct Hs as (H1 & H2 & _). split; cbn; [by rewrite E2|]. rewrite E3, E4, E5.
    apply add_listen_tasks in Ea as [-> ->]. cbn. fold (listening fds (eo_loop (w_object w))). by rewrite listening_fields. }
  apply wp_check; [|by intros Hn; apply Hleft; [apply Hk3|]]. intros ->.
  unfold enter_event_loop, setting. do 3 wp_step. cbn. rewrite Hm. wp_step.
  destruct (Z.ltb_spec max_events 0); [wp_step; apply start_left_late; [by apply Hk, Hk3|by eauto|by auto]|]. do 2 wp_step. cbn.
  destruct (Z.eqb_spec (es_status l) S_STOP); cbn; [wp_step; apply start_left_late; [by apply Hk, Hk3|by eauto|by auto]|].
  destruct (Z.eqb_spec max_events 0); cbn; [wp_step; apply start_left_late; [by apply Hk, Hk3|by eauto|by auto]|]. unfold on_object. wp_step.
  split; [|split; [lia|]; split; by apply Hk, Hk3].
  constructor; cbn; [done|exists p, pool; by rewrite Hh|]. exists fds, l. split; [done|split; [done|split]]; [by apply with_listeners_sockets|by auto].
Qed.

(** The same sockets as answers of [EpollSocket.listen_on]. *)
Definition bound_answers (fds : list Z) : list (option Z * bool * bool) := (fun fd => (Some fd, true, true)) <$> fds.

Lemma listening_listen_on fds : forall l, EpollSocket.listen_on (bound_answers fds) l = (0, listening fds l).
Proof. induction fds as [|fd fds IH]; intros l; cbn; [done|]. apply (IH (add_listen_socket fd l)). Qed.

Lemma add_listen_interest garbage added socks : forall l l' : EpollSocket HttpContext, add_listen_socks socks garbage added l = (0, l') ->
  es_main l' = es_main l /\ es_status l' = es_status l /\
  (forall fd e, es_interest l !! fd = Some (mk_interest e true) -> events e = EPOLLIN ->
     exists e, es_interest l' !! fd = Some (mk_interest e true) /\ events e = EPOLLIN) /\
  (forall fd, fd ∈ socks -> exists e, es_interest l' !! fd = Some (mk_interest e true) /\ events e = EPOLLIN).
Proof.
  induction socks as [|fd socks IH]; intros l l'; cbn.
  { intros [= <-]. split; [done|]. split; [done|]. split; [by eauto|]. by intros fd ?%elem_of_nil. }
  destruct (added fd); [|done]. intros (H1 & H2 & H3 & H4)%IH. split; [done|]. split; [done|].
  assert (Hk : forall fd' e, es_interest l !! fd' = Some (mk_interest e true) \/ fd' = fd -> events e = EPOLLIN ->
     exists e, es_interest l' !! fd' = Some (mk_interest e true) /\ events e = EPOLLIN).
  { intros fd' e Hor He. destruct (decide (fd' = fd)) as [->|Hne].
    - eapply H3; cbn; [by rewrite lookup_insert_eq|done].
    - destruct Hor as [Hl|]; [|done]. eapply H3; [|exact He]. cbn. by rewrite lookup_insert_ne. }
  split; [by eauto|]. intros fd' [->|Hin]%elem_of_cons; [|by auto]. by eapply (Hk fd (mk_event EPOLLIN 0)); auto.
Qed.

(** ** The theorems about a start *)

Lemma start_entered a h ho h' ho' :
  pool_usable (mk_world (hs_socket h) ho) -> hs_start_sync inet_addr a h ho = inl (In_loop, h', ho') ->
  let w := mk_world (configured (hs_port h) (hs_backlog h) (hs_max_events h) (hs_socket h)) ho in
  exists w', entered a (hs_port h) (hs_backlog h) w w' /\ 0 < hs_max_events h /\
    h' = set_hs_socket (w_object w') h /\ ho' = w_host w'.
Proof.
  intros Hu Hs w. unfold hs_start_sync, start_with in Hs. fold w in Hs.
  assert (Hw := start_epoll_ok a w (hs_port h) (hs_backlog h) (hs_max_events h) eq_refl eq_refl eq_refl Hu).
  destruct (start_epoll inet_addr a w) as [[[] w']|[[ret|f] w']] eqn:E; try done. injection Hs as <- <-.
  destruct (wp_inl _ _ _ _ _ _ E Hw) as (? & ? & _). by exists w'.
Qed.

Lemma start_sync_left a h ho : pool_usable (mk_world (hs_socket h) ho) ->
  let w := mk_world (configured (hs_port h) (hs_backlog h) (hs_max_events h) (hs_socket h)) ho in
  let left j h' ho' := exists w', start_left a (hs_port h) (hs_backlog h) (hs_max_events h) w j w' /\
    h' = set_hs_socket (w_object w') h /\ ho' = w_host w' in
  match hs_start_sync inet_addr a h ho with
  | inl (In_loop, _, _) => True
  | inl (Ended ret, h', ho') => left (Returns ret) h' ho'
  | inr f => exists h' ho', left (Faults f) h' ho'
  end.
Proof.
  intros Hu w left. unfold hs_start_sync, start_with. fold w.
  assert (Hw := start_epoll_ok a w (hs_port h) (hs_backlog h) (hs_max_events h) eq_refl eq_refl eq_refl Hu).
  destruct (start_epoll inet_addr a w) as [[[] w']|[[ret|f] w']] eqn:E; [done| |];
    pose proof (wp_inr _ _ _ _ _ _ E Hw) as Hl; [|eexists _, _]; by exists w'.
Qed.

(** A start that reaches the loop: for every address that was set, in order (for all
    addresses when none was), there is one new socket, bound to that address and to the
    sixteen low bits of the port, listening with the backlog that was set and watched for
    input; no socket that was open is touched; the pool has all its threads; the array of
    events has a positive length; and the loop is at its first [epoll_wait] with the status
    it had before. *)
Theorem start_listens a h ho h' ho' :
  pool_usable (mk_world (hs_socket h) ho) -> hs_start_sync inet_addr a h ho = inl (In_loop, h', ho') ->
  let l := eo_loop (hs_socket h') in
  (exists fds, NoDup fds /\ length fds = length (addresses (hs_socket h)) /\
     es_listen_sockets l = es_listen_sockets (eo_loop (hs_socket h)) ∪ list_to_set fds /\
     forall i fd ip, fds !! i = Some fd -> addresses (hs_socket h) !! i = Some ip ->
       ho_sockets ho !! fd = None /\ ho_sockets ho' !! fd = Some (listener ip (hs_port h) (hs_backlog h))) /\
  (forall fd, fd ∈ es_listen_sockets l -> exists e, es_interest l !! fd = Some (mk_interest e true) /\ events e = EPOLLIN) /\
  ho_sockets ho ⊆ ho_sockets ho' /\
  (exists p pool, eo_thread_pool (hs_socket h') = Some p /\ ho_pools ho' !! p = Some pool /\ pool_ready pool) /\
  0 < hs_max_events h /\ hs_handler h' = hs_handler h /\
  es_main l = M_wait /\ es_status l = es_status (eo_loop (hs_socket h)) /\ es_status l <> S_STOP.
Proof.
  intros Hu Hs l. destruct (start_entered a h ho h' ho' Hu Hs) as (w' & [Hset Hpool Hen] & Hm & -> & ->).
  destruct Hen as (fds & l1 & _ & Hf & Hso & Ha & El & Hst). subst l. cbn in *. rewrite El.
  pose proof (fresh_listeners_length _ _ _ _ _ Hf) as Hlen. apply fresh_listeners_lookup in Hf as (Hnd & Hnew & Hold & Hat).
  rewrite listening_fields in Ha. pose proof (add_listen_listen _ _ _ _ _ _ Ha) as Hls. cbn in Hls.
  apply add_listen_interest in Ha as (_ & Hs1 & _ & Hin). cbn in *.
  split; [|split; [|split; [|split; [done|]]]].
  - exists fds. split; [done|]. split; [done|]. split; [by rewrite Hls|]. intros i fd ip Hi Hip.
    split; [by apply Hnew, list_elem_of_lookup; exists i|]. rewrite Hso. by eapply Hat.
  - intros fd Hfd. apply Hin, elem_of_elements. by rewrite <-Hls.
  - apply map_subseteq_spec. intros fd sk E. rewrite Hso. by apply Hold.
  - by rewrite Hs1 in *.
Qed.

(** Before the first start: the constructor, and perhaps [stop]. *)
Definition loop_new (l : EpollSocket HttpContext) : Prop := l = EpollSocket_new \/ l = stop_epoll EpollSocket_new.

Lemma add_listen_status v garbage added socks : forall l l' : EpollSocket HttpContext,
  add_listen_socks socks garbage added (set_status v l) = (0, l') ->
  exists l1, add_listen_socks socks garbage added l = (0, l1) /\ l' = set_status v l1.
Proof.
  induction socks as [|fd socks IH]; intros l l'; cbn; [intros [= <-]; by eexists|].
  destruct (added fd); [|done]. intros H.
  apply (IH (epoll_ctl_add fd (mk_event EPOLLIN (fd + 2 ^ 32 * garbage fd)) l)) in H as (l1 & H1 & H2). by exists l1.
Qed.

Definition socket_answers_ok a : Prop := forall i fd, ba_socket (sa_bind a i) = Some fd -> 0 < fd < 2 ^ 31.

(** The first start of a server is a start in the sense of [EpollProps], after which [stop]
    may have been called: what is proved of its loop holds from here on. *)
Lemma start_boots a h ho h' ho' :
  pool_usable (mk_world (hs_socket h) ho) -> socket_answers_ok a ->
  hs_start_sync inet_addr a h ho = inl (In_loop, h', ho') -> loop_new (eo_loop (hs_socket h)) ->
  exists l, booted l /\ (eo_loop (hs_socket h') = l \/ eo_loop (hs_socket h') = stop_epoll l).
Proof.
  intros Hu Hr Hs Hnew. destruct (start_entered a h ho h' ho' Hu Hs) as (w' & [_ _ Hen] & _ & -> & _).
  destruct Hen as (fds & l1 & Han & _ & _ & Ha & El & _). cbn in Ha, El. unfold add_listen_sock_to_epoll in Ha.
  set (l0 := listening fds (EpollSocket_new (C := HttpContext))) in *.
  assert (Hl1 : exists l, add_listen_socks (elements (es_listen_sockets l0)) (sa_garbage a) (sa_added a) l0 = (0, l) /\
    (l1 = l \/ l1 = stop_epoll l)).
  { destruct Hnew as [Hnew|Hnew]; rewrite Hnew in Ha.
    - assert (E0 : set_interest ∅ (listening fds EpollSocket_new) = l0) by (unfold l0; by rewrite !listening_fields).
      rewrite E0 in Ha. eexists. split; [exact Ha|by left].
    - assert (E0 : set_interest ∅ (listening fds (stop_epoll EpollSocket_new)) = set_status S_REJECT_CONN l0)
        by (unfold l0; by rewrite !listening_fields).
      rewrite E0 in Ha. apply add_listen_status in Ha as (l & Ha & ->). exists l. split; [exact Ha|by right]. }
  destruct Hl1 as (l & Hl & Hor). exists l.
  assert (Hm : es_main l = M_wait).
  { pose proof (add_listen_interest _ _ _ _ _ Hl) as (Hm & _). by unfold l0 in Hm; rewrite listening_fields in Hm. }
  split; [|cbn; rewrite El; destruct Hor as [-> | -> ]; [left|right]; destruct l; cbn in *; by subst].
  exists 0, (bound_answers fds), true, (sa_garbage a), (sa_added a). split.
  - unfold EpollSocket.start_epoll. cbn [Z.eqb negb]. rewrite listening_listen_on. cbn [Z.eqb negb]. fold l0.
    unfold add_listen_sock_to_epoll. by rewrite Hl.
  - intros fd. rewrite (add_listen_listen _ _ _ _ _ _ Hl). unfold l0. rewrite listening_fields. cbn.
    rewrite (left_id_L ∅ (∪)). intros Hfd%elem_of_list_to_set. unfold answered in Han. rewrite Forall_forall in Han.
    destruct (Han fd Hfd) as [i Hi]. by eapply Hr.
Qed.

(** An address that is in use gets no new socket. *)
Lemma fresh_listeners_free fds : forall ips port backlog w ip, fresh_listeners fds ips port backlog w -> ip ∈ ips ->
  in_use ip (uwrap 16 port) (ho_sockets (w_host w)) = false.
Proof.
  induction fds as [|fd fds IH]; intros [|ip' ips] port backlog w ip; try done; cbn; [by intros _ ?%elem_of_nil|].
  intros (Hn & Hu & H) [->|Hin]%elem_of_cons; [done|]. specialize (IH _ _ _ _ _ H Hin).
  apply not_true_iff_false. intros Ht. cbn in IH. by rewrite (in_use_insert _ _ _ _ _ Hn Ht) in IH.
Qed.

(** The sockets of a server that has been in its loop are never closed, neither by
    [stop] nor by the destructor: while its listening socket of an address is open, no start
    on that address and port gets as far as the loop; it returns an error. *)
Theorem second_start_fails a h ho h1 ho1 a2 h2 ho2 ip :
  pool_usable (mk_world (hs_socket h) ho) -> hs_start_sync inet_addr a h ho = inl (In_loop, h1, ho1) ->
  ho_sockets ho1 ⊆ ho_sockets ho2 -> pool_usable (mk_world (hs_socket h2) ho2) ->
  ip ∈ addresses (hs_socket h) -> ip ∈ addresses (hs_socket h2) ->
  hs_port h2 = hs_port h -> uwrap 16 (hs_port h) <> 0 ->
  exists ret h' ho', hs_start_sync inet_addr a2 h2 ho2 = inl (Ended ret, h', ho') /\ ret <> 0.
Proof.
  intros Hu Hs Hsub Hu2 Hip Hip2 Hport H0.
  destruct (start_entered a h ho h1 ho1 Hu Hs) as (w1 & [_ _ Hen] & _ & -> & ->).
  destruct Hen as (fds & l1 & _ & Hf & Hso & _). pose proof (fresh_listeners_length _ _ _ _ _ Hf) as Hlen.
  apply fresh_listeners_lookup in Hf as (_ & _ & _ & Hat). cbn in *.
  apply list_elem_of_lookup in Hip as [i Hi]. destruct (lookup_lt_is_Some_2 fds i) as [fd Hfd].
  { rewrite Hlen. by eapply lookup_lt_Some. }
  specialize (Hat i fd ip Hfd Hi). rewrite <-Hso in Hat. apply (lookup_weaken _ _ _ _ Hat) in Hsub.
  set (w2 := mk_world (configured (hs_port h2) (hs_backlog h2) (hs_max_events h2) (hs_socket h2)) ho2).
  assert (Hbusy : in_use ip (uwrap 16 (hs_port h2)) (ho_sockets ho2) = true).
  { apply in_use_spec. exists fd, (listener ip (hs_port h) (hs_backlog h)). split; [done|]. cbn. rewrite Hport.
    rewrite !Z.eqb_refl. destruct (Z.eqb_spec (uwrap 16 (hs_port h)) 0); done. }
  assert (Hnone : forall fds, ~ fresh_listeners fds (addresses (hs_socket h2)) (hs_port h2) (hs_backlog h2) w2).
  { intros fds2 Hf2. apply (fresh_listeners_free _ _ _ _ _ ip) in Hf2; [|done]. cbn in Hf2. by rewrite Hbusy in Hf2. }
  assert (Hw := start_sync_left a2 h2 ho2 Hu2). cbn in Hw. fold w2 in Hw.
  destruct (hs_start_sync inet_addr a2 h2 ho2) as [[[[|ret] h'] ho']|f] eqn:E.
  - destruct (start_entered a2 h2 ho2 h' ho' Hu2 E) as (w' & [_ _ (fds2 & l2 & _ & Hf2 & _)] & _). by apply Hnone in Hf2.
  - destruct Hw as (w' & (_ & _ & _ & [(r & [= <-] & Hr)|((fds2 & Hf2) & _)]) & _); [|by apply Hnone in Hf2].
    by exists ret, h', ho'.
  - by destruct Hw as (_ & _ & w' & (_ & _ & _ & [(r & [=] & Hr)|((fds2 & Hf2%Hnone) & _)]) & _).
Qed.
End start.

(** ** A start

    A stand-in for [inet_addr] that tells two addresses apart; a system that grants what it
    is asked for. *)
Definition any_address (ip : list Z) : Z := 2130706432 + zlen ip.
Definition sample_answers : start_answers :=
  mk_answers 4096 2 (fun _ => true) (fun i => mk_bind (if (i <? 8)%nat then Some (3 + Z.of_nat i) else None) true true) (Some 9) (fun _ => 0) (fun _ => true).
Definition empty_host : host := mk_host ∅ ∅ ∅.

Definition sample_server : HttpServer :=
  hs_set_port 8089 (hs_add_bind_ip (bytes "127.0.0.1") (hs_add_bind_ip (bytes "10.0.0.1") HttpServer_new)).
Definition sample_started : HttpServer * host :=
  match hs_start_sync any_address sample_answers sample_server empty_host with
  | inl (In_loop, h, ho) => (h, ho)
  | _ => (sample_server, empty_host)
  end.

Lemma sample_starts :
  hs_start_sync any_address sample_answers sample_server empty_host = inl (In_loop, sample_started.1, sample_started.2).
Proof. by vm_compute. Qed.

Lemma start_listens_witness :
  ho_sockets sample_started.2 = {[3 := listener 2130706440 8089 10; 4 := listener 2130706441 8089 10]} /\
  0 < hs_max_events sample_server /\ es_main (eo_loop (hs_socket sample_started.1)) = M_wait.
Proof.
  split; [by vm_compute|].
  destruct (start_listens any_address sample_answers sample_server empty_host sample_started.1 sample_started.2 I sample_starts)
    as (_ & _ & _ & _ & Hm & _ & Hw & _).
  split; [exact Hm|exact Hw].
Defined.

(** A new server on the port of one that was deleted. *)
Lemma second_start_fails_witness : exists ret h' ho',
  hs_start_sync any_address sample_answers (hs_add_bind_ip (bytes "10.0.0.1") (hs_set_port 8089 HttpServer_new))
    sample_started.2 = inl (Ended ret, h', ho') /\ ret <> 0.
Proof.
  apply (second_start_fails any_address sample_answers sample_server empty_host sample_started.1 sample_started.2
           sample_answers (hs_add_bind_ip (bytes "10.0.0.1") (hs_set_port 8089 HttpServer_new)) sample_started.2 2130706440).
  - exact I.
  - exact sample_starts.
  - reflexivity.
  - exact I.
  - vm_compute. left.
  - vm_compute. left.
  - reflexivity.
  - vm_compute. discriminate.
Defined.
