(* ===== verification/HttpLife.v ===== *)
(** * HttpLife: a server from its constructor to its end

    The steps of [HttpStart.server_step] taken as the owner is meant to take them: settings
    first, one start, [stop] at any time, and [delete] only behind the end of the thread.
    Then the theorems about the loop hold from the first to the last step; [ends] lists
    what can end the process all the same. *)
From stdpp Require Import gmap.
From S2P Require Import Prelude Control SimParam HttpDefs HttpParser SimRequest SimSafety ThreadPool.
From S2P Require Import SimResponse EpollSocket EpollProps HttpServer HttpServerProps HttpLoop HttpStart HttpStartProps.

Section life.
Context (inet_addr : list Z -> Z) (strict debug : bool).
Implicit Types (h : HttpServer) (p : process).

(** ** How the server is meant to be used *)

(** A handler of the application leaves the fields of the parser alone. *)
Definition handler_ok (f : method_handler) : Prop := forall req res u, same_core req (f req res u).1.
Definition json_ok (f : json_handler) : Prop := forall req, same_core req (f req).1.

Definition setter_ok (c : setter) p : Prop :=
  match c with
  | Set_thread_pool (Some q) => exists pool ret, ho_pools (pr_host p) !! q = Some pool /\ tp_owner pool = O_idle ret /\
      (m_pool_state pool = STARTED -> pool_ready pool)
  | Add_mapping_userdata _ f _ m | Add_mapping_handler _ f m => usable m /\ handler_ok f
  | Add_mapping_json _ f m => usable m /\ json_ok f
  | _ => True
  end.

Definition runs (th : thread) : bool := match th with Th_created | Th_loop => true | _ => false end.

(** Settings and the start come before any thread; the answers of the system are those of
    [EpollProps]; [join] is for a thread that was
    created and not joined; a server whose thread runs is not deleted, nor one with tasks in
    a pool of somebody else's. *)
Definition call_ok (op : operation) h p : Prop :=
  match op with
  | Op_set c => pr_threads p = ∅ /\ setter_ok c p
  | Op_start_async _ _ => pr_threads p = ∅
  | Op_loop _ i => answer_ok i (eo_loop (hs_socket h))
  | Op_join => hs_pid h = 0 \/ exists th, pr_threads p !! hs_pid h = Some th /\ th <> Th_joined
  | Op_delete => (forall tid th, pr_threads p !! tid = Some th -> runs th = false) /\
      (eo_use_default_tp (hs_socket h) = false ->
        es_tasks (eo_loop (hs_socket h)) = [] /\ es_readers (eo_loop (hs_socket h)) = [])
  | _ => True
  end.

Definition op_ok (op : operation) p : Prop :=
  match op with
  | Op_thread _ a => socket_answers_ok a
  | Op_take | Op_reader _ _ => True
  | _ => match pr_server p with None => False | Some h => call_ok op h p end
  end.

(** All the worker threads that the step asks for are created. *)
Definition threads_created (op : operation) : Prop :=
  match op with Op_thread _ a => forall i, sa_thread a i = true | _ => True end.

(** A run, and whether all worker threads that were asked for have been created. *)
Inductive life_run p0 : Prop -> process -> Prop :=
  | life_start : life_run p0 True p0
  | life_step whole op p ret p' :
      life_run p0 whole p -> op_ok op p -> server_step inet_addr strict debug op p = Some (inl (ret, p')) ->
      life_run p0 (whole /\ threads_created op) p'.

(** What may end the process: an exception; the array of [on_readable] printed beyond its
    end; the registration of a new connection that fails; and [delete] behind a start that
    could not create all workers of its own pool. *)
Definition ends (whole : Prop) (op : operation) (f : fault) : Prop :=
  handler_fault debug f \/
  (f = OutOfBounds /\
    match op with Op_loop _ (I_register _ added) => added = false | Op_delete => ~ whole | _ => False end).

(** A server just constructed, in a process with any pools and sockets. *)
Definition process_new (ho : host) : process := mk_process (Some HttpServer_new) ho ∅ false.

(** ** The invariant *)
Definition loop_fine (l : EpollSocket HttpContext) : Prop := exists lost, loop_ok (P := context_ok strict) lost l.

(** The pool is there, with all its threads if they could be created. *)
Definition pool_there (whole : Prop) (o : EpollObject) (ho : host) : Prop :=
  exists q pool, eo_thread_pool o = Some q /\ ho_pools ho !! q = Some pool /\
    (whole -> m_pool_size pool <= zlen (m_threads pool)).

Inductive phase (whole : Prop) h p : Prop :=
  | Ph_before : (pr_threads p = ∅ \/ exists tid, pr_threads p = {[tid := Th_created]}) ->
      loop_new (eo_loop (hs_socket h)) -> pool_usable (mk_world (hs_socket h) (pr_host p)) ->
      (eo_use_default_tp (hs_socket h) = true -> eo_thread_pool (hs_socket h) = None) -> phase whole h p
  | Ph_after tid th : pr_threads p = {[tid := th]} -> th <> Th_created ->
      loop_fine (eo_loop (hs_socket h)) \/
        (th <> Th_loop /\ es_tasks (eo_loop (hs_socket h)) = [] /\ es_readers (eo_loop (hs_socket h)) = []) ->
      pool_there whole (hs_socket h) (pr_host p) -> phase whole h p.

Definition life_inv (whole : Prop) p : Prop :=
  match pr_server p with
  | Some h => built_table (hs_handler h) /\ handlers_keep (hs_handler h) /\ phase whole h p
  | None => pr_orphans p = false /\ forall tid th, pr_threads p !! tid = Some th -> runs th = false
  end.

(** What a step must do. *)
Definition good (whole : Prop) (op : operation) (r : (Z * process) + fault) : Prop :=
  match r with
  | inl (_, p') => life_inv (whole /\ threads_created op) p'
  | inr f => ends whole op f
  end.

Lemma phase_weaken whole whole' h p : (whole' -> whole) -> phase whole h p -> phase whole' h p.
Proof.
  intros Hw [Ht Hn Hu Hd|tid th Ht Hth Hl (q & pool & E1 & E2 & E3)]; [by apply Ph_before|].
  apply (Ph_after _ _ _ tid th); [done..|]. exists q, pool. auto.
Qed.

Lemma same_server_good whole op h p :
  pr_server p = Some h -> built_table (hs_handler h) -> handlers_keep (hs_handler h) -> phase whole h p ->
  life_inv (whole /\ threads_created op) p.
Proof. intros Es Hb Hk Hph. unfold life_inv. rewrite Es. split; [done|]. split; [done|]. by eapply phase_weaken; [|exact Hph]; intros []. Qed.

Lemma table_set c h p : setter_ok c p -> built_table (hs_handler h) -> handlers_keep (hs_handler h) ->
  built_table (hs_handler (apply_setter c h)) /\ handlers_keep (hs_handler (apply_setter c h)).
Proof.
  intros Hok Hb Hk. destruct c; try done; destruct Hok as [Hm Hf]; (split; [by constructor|]); cbn;
    intros path' rc; unfold add_mapping_userdata, add_mapping_handler, add_mapping_json;
    intros [[_ <-]|[_ Hrc]]%lookup_insert_Some; try (by apply (Hk path' rc)); by split; intros ? [= <-].
Qed.

Lemma set_good whole c h p : phase whole h p -> pr_threads p = ∅ -> setter_ok c p ->
  phase whole (apply_setter c h) (mk_process (Some (apply_setter c h)) (pr_host p) (pr_threads p) (pr_orphans p)).
Proof.
  intros Hph Ht Hok. destruct Hph as [_ Hnew Hu Hd|tid th Hth _ _ _]; [|by rewrite Ht in Hth; apply symmetry, map_non_empty_singleton in Hth].
  apply Ph_before; [by left| | |]; by destruct c.
Qed.

(** A step of the loop under the handlers of a table. *)
Lemma loop_step_fine rm (act : loop_action received Z) l r :
  built_table rm -> handlers_keep rm -> loop_fine l -> action_ok act l ->
  @loop_act _ _ _ (http_watcher strict debug rm) act l = Some r ->
  match r with
  | inl l' => loop_fine l'
  | inr f => handler_fault debug f \/ (f = OutOfBounds /\ failed_registration act = true)
  end.
Proof.
  intros Hb Hk [lost Hl] Ha E. pose proof (http_laws strict debug rm Hb Hk) as Hlaws.
  pose proof (act_ok (P := context_ok strict) (F := handler_fault debug) act lost l r Hl Ha E) as H.
  destruct r; [by eexists|done].
Qed.

Lemma stop_fine l : loop_fine l -> loop_fine (stop_epoll l).
Proof. intros Hl. by apply (loop_step_fine ∅ Loop_stop l (inl (stop_epoll l)) built_empty). Qed.

Lemma stop_good whole h p : phase whole h p ->
  phase whole (hs_stop h) (mk_process (Some (hs_stop h)) (pr_host p) (pr_threads p) (pr_orphans p)).
Proof.
  intros [Ht Hnew Hu Hd|tid th Ht Hth Hl Hp].
  - apply Ph_before; try done. right. cbn. by destruct Hnew as [-> | -> ].
  - apply (Ph_after _ _ _ tid th); try done. cbn. destruct Hl as [Hl|(? & ? & ?)]; [left|by right].
    by apply stop_fine.
Qed.

(** How a first start ends. *)
Lemma start_cases a h ho : pool_usable (mk_world (hs_socket h) ho) ->
  socket_answers_ok a -> loop_new (eo_loop (hs_socket h)) ->
  match hs_start_sync inet_addr a h ho with
  | inl (In_loop, h', ho') =>
      hs_handler h' = hs_handler h /\ pool_there (forall i, sa_thread a i = true) (hs_socket h') ho' /\ loop_fine (eo_loop (hs_socket h'))
  | inl (Ended _, h', ho') =>
      hs_handler h' = hs_handler h /\ pool_there (forall i, sa_thread a i = true) (hs_socket h') ho' /\
      es_tasks (eo_loop (hs_socket h')) = [] /\ es_readers (eo_loop (hs_socket h')) = []
  | inr f => f = Uncaught
  end.
Proof.
  intros Hu Hr Hnew. destruct (hs_start_sync inet_addr a h ho) as [[[[|ret] h'] ho']|f] eqn:E.
  - destruct (start_listens inet_addr a h ho h' ho' Hu E) as (_ & _ & _ & (q & pool & E1 & E2 & _ & Hz & _) & _ & Hh & _).
    split; [done|]. split; [exists q, pool; by auto|].
    destruct (start_boots inet_addr a h ho h' ho' Hu Hr E Hnew) as (l & Hl & Hor).
    assert (Hlf : loop_fine l) by (exists []; by apply (booted_ok (P := context_ok strict))).
    destruct Hor as [-> | -> ]; [done|by apply stop_fine].
  - pose proof (start_sync_left inet_addr a h ho Hu) as Hw. rewrite E in Hw.
    destruct Hw as (w' & (_ & (q & pool & E1 & E2 & Hz) & (Ht & Hrd) & _) & -> & ->).
    split; [done|]. split; [exists q, pool; by auto|]. cbn in *. rewrite Ht, Hrd. by destruct Hnew as [-> | -> ].
  - pose proof (start_sync_left inet_addr a h ho Hu) as Hw. rewrite E in Hw.
    by destruct Hw as (_ & _ & w' & (_ & _ & _ & [(r & [=] & _)|(_ & [[=]|([= ->] & _)])]) & _).
Qed.

(** *** The steps *)

Lemma thread_good whole tid a h p : pr_server p = Some h -> built_table (hs_handler h) -> handlers_keep (hs_handler h) ->
  phase whole h p -> pr_threads p !! tid = Some Th_created -> op_ok (Op_thread tid a) p ->
  good whole (Op_thread tid a) (start_thread inet_addr tid a p).
Proof.
  intros Es Hb Hk Hph Htid Hr. destruct Hph as [Ht Hnew Hu _|tid' th Ht Hth _ _].
  2:{ rewrite Ht in Htid. by apply lookup_singleton_Some in Htid as [-> ->]. }
  destruct Ht as [Ht|[tid' Ht]]; [by rewrite Ht, lookup_empty in Htid|].
  rewrite Ht in Htid. apply lookup_singleton_Some in Htid as [-> _].
  pose proof (start_cases a h (pr_host p) Hu Hr Hnew) as Hc. unfold start_thread. rewrite Es, Ht.
  destruct (hs_start_sync inet_addr a h (pr_host p)) as [[[[|ret] h'] ho']|f]; [| |by left; left];
    destruct Hc as (Hh & (q & pool & E1 & E2 & E3) & Hl); cbn; unfold life_inv; cbn; rewrite Hh; (split; [done|split; [done|]]).
  - apply (Ph_after _ _ _ tid Th_loop); cbn; [by rewrite insert_singleton_eq|done|by left|exists q, pool; naive_solver].
  - apply (Ph_after _ _ _ tid Th_ended); cbn; [by rewrite insert_singleton_eq|done|by right|exists q, pool; naive_solver].
Qed.

(** A step of the loop, by its thread or by one of the pool. *)
Lemma act_good whole op h p (act : loop_action received Z) threads tid th r :
  pr_server p = Some h -> built_table (hs_handler h) -> handlers_keep (hs_handler h) ->
  loop_fine (eo_loop (hs_socket h)) -> pool_there whole (hs_socket h) (pr_host p) -> action_ok act (eo_loop (hs_socket h)) ->
  pr_threads p = {[tid := th]} ->
  (forall l, exists th', threads l (pr_threads p) = {[tid := th']} /\ th' <> Th_created) ->
  (failed_registration act = true -> match op with Op_loop _ (I_register _ added) => added = false | _ => False end) ->
  act_on_loop strict debug threads act p = Some r -> good whole op r.
Proof.
  intros Es Hb Hk Hl Hp Ha Ht Hth Hop. unfold act_on_loop. rewrite Es.
  destruct (loop_act act (eo_loop (hs_socket h))) as [r'|] eqn:E; [|done].
  pose proof (loop_step_fine _ _ _ _ Hb Hk Hl Ha E) as Hr.
  destruct r' as [l|f]; intros [= <-].
  - eapply same_server_good; [done|done|done|]. destruct (Hth l) as (th' & E' & Hne).
    apply (Ph_after _ _ _ tid th'); cbn; [done|done|by left|done].
  - destruct Hr as [Hr|[-> Hr]]; [by left|right]. split; [done|]. specialize (Hop Hr). by destruct op as [| | |? []| | | | |].
Qed.

(** Where nothing is queued and nothing runs the pool has nothing to do. *)
Lemma idle_pool l rm (act : loop_action received Z) :
  es_tasks l = [] -> es_readers l = [] -> match act with Loop_take | Loop_reader _ _ => True | _ => False end ->
  @loop_act _ _ _ (http_watcher strict debug rm) act l = None.
Proof. intros Ht Hr. destruct act; cbn; [done|by rewrite Ht|unfold reader_step; by rewrite Hr|done]. Qed.

Lemma loop_good whole tid i h p r : pr_server p = Some h -> built_table (hs_handler h) -> handlers_keep (hs_handler h) ->
  phase whole h p -> pr_threads p !! tid = Some Th_loop -> answer_ok i (eo_loop (hs_socket h)) ->
  act_on_loop strict debug (loop_thread tid) (Loop_main i) p = Some r -> good whole (Op_loop tid i) r.
Proof.
  intros Es Hb Hk Hph Htid Ha. destruct Hph as [[Ht|[tid' Ht]] _ _ _|tid' th Ht Hth Hl Hp].
  - by rewrite Ht, lookup_empty in Htid.
  - rewrite Ht in Htid. by apply lookup_singleton_Some in Htid as [_ ?].
  - rewrite Ht in Htid. apply lookup_singleton_Some in Htid as [-> ->]. destruct Hl as [Hl|[]]; [|done].
    apply (act_good whole (Op_loop tid i) h p (Loop_main i) _ tid Th_loop); try done; [|by destruct i as [| | | |? []| | |]]. intros l. unfold loop_thread. rewrite Ht.
    destruct (es_main l); eexists; (split; [done || by rewrite insert_singleton_eq|done]).
Qed.

Lemma pool_good whole op act h p r : pr_server p = Some h -> built_table (hs_handler h) -> handlers_keep (hs_handler h) ->
  phase whole h p -> match act with Loop_take | Loop_reader _ _ => True | _ => False end ->
  act_on_loop strict debug (fun _ threads => threads) act p = Some r -> good whole op r.
Proof.
  intros Es Hb Hk Hph Hact. destruct Hph as [_ Hnew _ _|tid th Ht Hth [Hl|(_ & E1 & E2)] Hp].
  - unfold act_on_loop. rewrite Es, idle_pool; [done| | |done]; by destruct Hnew as [-> | -> ].
  - apply (act_good whole op h p act _ tid th); try done; [by destruct act| |by destruct act]. intros _. by exists th.
  - unfold act_on_loop. by rewrite Es, idle_pool.
Qed.

Lemma delete_good whole h p r :
  pr_server p = Some h -> phase whole h p -> op_ok Op_delete p -> delete_server h p = Some r -> good whole Op_delete r.
Proof.
  intros Es Hph Hok. unfold op_ok in Hok. rewrite Es in Hok. destruct Hok as [Hth Htasks]. unfold delete_server.
  destruct (eo_use_default_tp (hs_socket h)) eqn:Eu; cbn [andb negb].
  - destruct (negb _); [done|]. unfold EpollObject_delete. rewrite Eu.
    destruct Hph as [_ _ _ Hd|tid th _ _ _ (q & pool & E1 & E2 & E3)].
    + rewrite (Hd Eu). by intros [= <-].
    + rewrite E1, E2. destruct (Z.ltb_spec (zlen (m_threads pool)) (m_pool_size pool)); intros [= <-]; [|done].
      right. split; [done|]. intros Hw. specialize (E3 Hw). lia.
  - destruct (Htasks eq_refl) as [E1 E2]. unfold EpollObject_delete. rewrite Eu, E1, E2.
    destruct (eo_thread_pool _); intros [= <-]; by split.
Qed.

Lemma join_good whole h p r : pr_server p = Some h -> phase whole h p -> op_ok Op_join p ->
  join h (pr_threads p) = Some r ->
  exists ret threads, r = inl (ret, threads) /\ phase whole h (mk_process (Some h) (pr_host p) threads (pr_orphans p)).
Proof.
  intros Es Hph Hok. unfold op_ok in Hok. rewrite Es in Hok. unfold join.
  destruct (Z.eqb_spec (hs_pid h) 0) as [|Hz].
  { intros [= <-]. exists (-1), (pr_threads p). split; [done|]. by destruct Hph; econstructor. }
  destruct Hok as [?|(th & Hth & Hne)]; [done|]. rewrite Hth. destruct th; try done. intros [= <-].
  eexists _, _. split; [done|]. destruct Hph as [[Ht|[tid Ht]] _ _ _|tid th Ht _ Hl Hp].
  - by rewrite Ht, lookup_empty in Hth.
  - rewrite Ht in Hth. by apply lookup_singleton_Some in Hth as [_ ?].
  - rewrite Ht in Hth |- *. apply lookup_singleton_Some in Hth as [-> ->].
    apply (Ph_after _ _ _ (hs_pid h) Th_joined); cbn; [by rewrite insert_singleton_eq|done| |done].
    destruct Hl as [?|(? & ? & ?)]; [by left|by right].
Qed.

Lemma step_good whole op p r :
  life_inv whole p -> op_ok op p -> server_step inet_addr strict debug op p = Some r -> good whole op r.
Proof.
  intros Hi Hok. unfold life_inv in Hi. destruct (pr_server p) as [h|] eqn:Es.
  - destruct Hi as (Hb & Hk & Hph). destruct op; cbn [server_step].
    + rewrite Es. cbn. intros [= <-]. unfold op_ok in Hok. rewrite Es in Hok. destruct Hok as [Ht Hc].
      destruct (table_set c h p Hc Hb Hk) as [Hb' Hk']. eapply same_server_good; [done..|]. by apply set_good.
    + rewrite Es. cbn. unfold op_ok in Hok. rewrite Es in Hok. cbn in Hok. unfold start_async.
      destruct Hph as [_ Hn Hu Hd|tid' th Hth _ _ _]; [|by rewrite Hok in Hth; apply symmetry, map_non_empty_singleton in Hth].
      destruct (ret =? 0); cbn; intros [= <-]; (split; [done|split; [done|]]); apply Ph_before; try done; cbn; rewrite Hok;
        [right; by exists tid|by left].
    + destruct (pr_threads p !! tid) as [[]|] eqn:Et; try done. intros [= <-]. by apply (thread_good whole tid a h p).
    + destruct (pr_threads p !! tid) as [[]|] eqn:Et; try done. apply (loop_good whole tid i h p); try done.
      unfold op_ok in Hok. by rewrite Es in Hok.
    + unfold pool_step. rewrite Es. by apply (pool_good whole Op_take Loop_take h p).
    + unfold pool_step. rewrite Es. by apply (pool_good whole (Op_reader k rcv) (Loop_reader k rcv) h p).
    + rewrite Es. cbn. intros [= <-]. eapply same_server_good; [done..|]. by apply stop_good.
    + rewrite Es. cbn. destruct (join h (pr_threads p)) as [r'|] eqn:Ej; [|done].
      destruct (join_good whole h p r' Es Hph Hok Ej) as (ret & threads & -> & Hp). intros [= <-].
      by eapply same_server_good.
    + rewrite Es. cbn. by apply (delete_good whole h p).
  - destruct Hi as [Ho Hth]. destruct op; cbn [server_step]; unfold op_ok in Hok; rewrite ?Es in Hok; try done.
    + destruct (pr_threads p !! tid) as [[]|] eqn:Et; try done. by apply Hth in Et.
    + unfold pool_step. by rewrite Es, Ho.
    + unfold pool_step. by rewrite Es, Ho.
Qed.

(** C26. A server that is set up, started once and deleted behind the end of its thread is
    safe from its constructor to its end: in every order of its owner, its thread, the
    workers of the pool and the system, with [stop] at any time, whether or not the start
    succeeds, no step uses a deleted server, pool or context, reads a setting that was never
    made, joins a thread twice or breaks in a handler, but for what [ends] lists: the
    exception of a malformed multipart request or of a negative number of events; a full
    buffer without NUL that is printed beyond its end while debug messages are logged; the
    registration of a new connection that fails; and [delete] when not all workers of the
    pool could be created, which joins workers that do not exist. *)
Theorem life_safe ho whole p op f :
  life_run (process_new ho) whole p -> op_ok op p -> server_step inet_addr strict debug op p = Some (inr f) ->
  ends whole op f.
Proof.
  intros Hr Hok E. assert (Hi : life_inv whole p).
  { clear Hok E. induction Hr as [|whole op' p ret p' _ IH Hok E]; [|by apply (step_good whole op' p _ IH Hok E)].
    split; [constructor|]. split; [by intros path rc; cbn; rewrite lookup_empty|]. apply Ph_before; [by left|by left|done|done]. }
  apply (step_good whole op p _ Hi Hok E).
Qed.
End life.

(** ** Runs *)
(** The state after a list of operations, when none is blocked and none a fault. *)
Fixpoint life (ops : list operation) (p : process) : option process :=
  match ops with
  | [] => Some p
  | op :: ops' => match server_step any_address true false op p with Some (inl (_, p')) => life ops' p' | _ => None end
  end.

Definition after (ops : list operation) : process := default (process_new empty_host) (life ops (process_new empty_host)).
Lemma life_app ops1 ops2 : forall p, life (ops1 ++ ops2) p = life ops1 p ≫= life ops2.
Proof.
  induction ops1 as [|op ops1 IH]; intros p; cbn; [done|].
  by destruct (server_step any_address true false op p) as [[[ret p']|]|]; [apply IH|..].
Qed.

(** Operations that are allowed where they are done make a run. *)
Lemma after_run ops : is_Some (life ops (process_new empty_host)) ->
  (forall i op, ops !! i = Some op -> op_ok op (after (take i ops))) ->
  exists whole, life_run any_address true false (process_new empty_host) whole (after ops).
Proof.
  induction ops as [|op ops IH] using rev_ind; intros [p Hp] Hok; [eexists; constructor|].
  unfold after. rewrite Hp. rewrite life_app in Hp. destruct (life ops (process_new empty_host)) as [p1|] eqn:E1; [|done].
  cbn in Hp. destruct (server_step any_address true false op p1) as [[[ret p']|]|] eqn:E; try done. injection Hp as <-.
  assert (E1' : after ops = p1) by (unfold after; by rewrite E1). destruct IH as [whole Hr]; [by eexists| |].
  { intros i op' Hi. specialize (Hok i op').
    rewrite lookup_app_l, take_app_le in Hok by (apply lookup_lt_Some in Hi; lia). by apply Hok. }
  eexists. eapply life_step; [| |exact E].
  - rewrite <-E1'. exact Hr.
  - specialize (Hok (length ops) op). rewrite lookup_app_r, Nat.sub_diag, take_app_length, E1' in Hok by lia. by apply Hok.
Qed.

Definition server_of (p : process) : HttpServer := default HttpServer_new (pr_server p).

Lemma call_op_ok op p : pr_server p = Some (server_of p) -> call_ok op (server_of p) p ->
  match op with Op_thread _ _ | Op_take | Op_reader _ _ => False | _ => True end -> op_ok op p.
Proof. intros E Hc. destruct op; try done; intros _; unfold op_ok; by rewrite E. Qed.

Definition fault_of (r : option ((Z * process) + fault)) : option fault :=
  match r with Some (inr f) => Some f | _ => None end.
Definition result_of (r : option ((Z * process) + fault)) : option Z :=
  match r with Some (inl (ret, _)) => Some ret | _ => None end.

Definition sample_setup : list operation :=
  [Op_set (Add_mapping_json (bytes "/live") (fun req => (req, [])) GET_METHOD); Op_set (Set_port 8089);
   Op_start_async 0 77; Op_thread 77 sample_answers].

(** One connection posts the form that makes [parse_request] throw. *)
Definition sample_attack : list operation :=
  sample_setup ++
  [Op_loop 77 (I_ready [(3, EPOLLIN)]); Op_loop 77 I_go; Op_loop 77 (I_accept (Some (5, []))); Op_loop 77 I_go;
   Op_loop 77 (I_register 4096 true); Op_loop 77 I_go;
   Op_loop 77 (I_ready [(5, EPOLLIN)]); Op_loop 77 (I_add_task true); Op_take].

Lemma sample_attack_ok i op : sample_attack !! i = Some op -> op_ok op (after (take i sample_attack)).
Proof.
  assert (Hloop : forall j tid ans, bool_decide (answer_ok ans (eo_loop (hs_socket (server_of (after (take j sample_attack)))))) = true ->
    pr_server (after (take j sample_attack)) = Some (server_of (after (take j sample_attack))) ->
    op_ok (Op_loop tid ans) (after (take j sample_attack))).
  { intros j tid ans Ha E. apply call_op_ok; [done| |done]. by apply bool_decide_eq_true in Ha. }
  destruct i as [|[|[|[|i]]]]; [| | | |destruct (decide (i < 8)%nat) as [Hi|Hi]].
  - intros [= <-]. apply call_op_ok; [by vm_compute| |done]. split; [done|]. split; [apply usable_new|]. intros req. apply same_core_refl.
  - intros [= <-]. apply call_op_ok; by vm_compute.
  - intros [= <-]. apply call_op_ok; by vm_compute.
  - intros [= <-]. intros j fd.
    change (ba_socket (sa_bind sample_answers j)) with (if (j <? 8)%nat then Some (3 + Z.of_nat j) else None).
    destruct (Nat.ltb_spec j 8) as [Hj|]; [|done]. intros E. injection E as <-. lia.
  - do 8 (destruct i as [|i]; [intros [= <-]; apply Hloop; by vm_compute|]). lia.
  - intros H. do 8 (destruct i as [|i]; [lia|]). destruct i as [|i]; [by injection H as <-|done].
Qed.

Lemma sample_attack_goes : is_Some (life sample_attack (process_new empty_host)).
Proof. apply (proj1 (bool_decide_eq_true _)). by vm_compute. Qed.

Lemma life_safe_witness :
  exists whole : Prop, server_step any_address true false (Op_reader 0 malicious) (after sample_attack) = Some (inr Uncaught) /\
    ends false whole (Op_reader 0 malicious) Uncaught.
Proof.
  assert (E : server_step any_address true false (Op_reader 0 malicious) (after sample_attack) = Some (inr Uncaught)) by by vm_compute.
  destruct (after_run sample_attack sample_attack_goes sample_attack_ok) as [whole Hr].
  exists whole. split; [exact E|].
  apply (life_safe any_address true false empty_host whole (after sample_attack) (Op_reader 0 malicious) Uncaught);
    [exact Hr|exact I|exact E].
Defined.

(** What the owner of the service does: [stop] and [delete] at once.  The thread is in its
    loop. *)
Example deleted_under_its_thread :
  fault_of (server_step any_address true false (Op_loop 77 I_interrupted)
    (after (sample_setup ++ [Op_stop; Op_delete]))) = Some OutOfBounds.
Proof. by vm_compute. Qed.

(** The first worker cannot be created: the start fails, and [delete] joins workers that do
    not exist. *)
Example deleted_without_workers :
  let a := mk_answers 4096 2 (fun _ => false) (sa_bind sample_answers) (Some 9) (fun _ => 0) (fun _ => true) in
  fault_of (server_step any_address true false Op_delete
    (after [Op_set (Set_port 8089); Op_start_async 0 77; Op_thread 77 a])) = Some OutOfBounds.
Proof. by vm_compute. Qed.

(** [stop] does not wake the loop, and without it [join] waits for ever; with a connection
    attempt the loop ends, and the server can be joined and deleted. *)
Example stopped_joined_deleted :
  server_step any_address true false Op_join (after (sample_setup ++ [Op_stop])) = None /\
  let ops := sample_setup ++ [Op_stop; Op_loop 77 (I_ready [(3, EPOLLIN)]); Op_loop 77 I_go; Op_loop 77 I_go; Op_loop 77 I_go] in
  result_of (server_step any_address true false Op_join (after ops)) = Some 0 /\
  result_of (server_step any_address true false Op_delete (after (ops ++ [Op_join]))) = Some 0.
Proof. by vm_compute. Qed.

Example join_without_start : result_of (server_step any_address true false Op_join (process_new empty_host)) = Some (-1).
Proof. by vm_compute. Qed.

(** After [set_thread_pool(NULL)] the pool that the start makes belongs to nobody. *)
Example null_pool_leaks :
  let p := after ([Op_set (Set_thread_pool None)] ++ sample_setup ++ [Op_stop; Op_delete]) in
  pr_server p = None /\ size (ho_pools (pr_host p)) = 1%nat.
Proof. by vm_compute. Qed.
