(* ===== verification/Messages.v ===== *)
(** * Messages: the binary protocol of the adapters

    The structures of [msg_def.h] as they lie in memory, [SOCKIO] of [sockio.h], and
    the reading of one message in [TaskTcpReadMsg::run].  The server runs on a
    little-endian machine with 32-bit [int]; the structures have no padding.  What
    [recv] and [send] answer is an input. *)
From S2P Require Import Prelude.

(** ** Memory *)

(** An [int] in memory. *)
Definition le32 (z : Z) : list Z := [u8 z; u8 (z / 2 ^ 8); u8 (z / 2 ^ 16); u8 (z / 2 ^ 24)].

Definition int32 (l : list Z) : Z := s32 (fold_right (fun b a => b + 2 ^ 8 * a) 0 l).

Definition is_int (z : Z) : Prop := - 2 ^ 31 <= z < 2 ^ 31.

Definition zeros (n : Z) : list Z := replicate (Z.to_nat n) 0.

(** A field [char x[n]] after [strcpy] or [memcpy] of [l] into zeroed memory. *)
Definition chars (n : Z) (l : list Z) : list Z := l ++ zeros (n - zlen l).

(** [std::string(p)] and the source of [strcpy]: the bytes up to the first NUL of the
    memory that starts at [p]; [None] is a read behind its end. *)
Fixpoint c_str (l : list Z) : option (list Z) :=
  match l with
  | [] => None
  | c :: l' => if c =? 0 then Some [] else cons c <$> c_str l'
  end.

(** ** Structures

    A structure is written to and read from memory by [memcpy]. *)
Class Wire (T : Type) := {
  sizeof : Z;
  to_bytes : T -> list Z;
  of_bytes : list Z -> T;
  fits : T -> Prop;   (* the fields have their sizes *)
}.
Arguments sizeof T {_}.

Class WireLaws (T : Type) `{!Wire T} : Prop := {
  to_bytes_length x : fits x -> zlen (to_bytes x) = sizeof T;
  to_bytes_buf x : fits x -> is_buf (to_bytes x);
  of_to_bytes x : fits x -> of_bytes (to_bytes x) = x;
}.

Definition fits_chars (n : Z) (l : list Z) : Prop := zlen l = n /\ is_buf l.

Record MsgHeader := mk_header {
  mh_flag : list Z;
  mh_cmd : Z;
  mh_seq : Z;
  mh_size : Z;
  mh_resv : list Z;
}.

#[export] Instance MsgHeader_wire : Wire MsgHeader := {
  sizeof := 80;
  to_bytes h := mh_flag h ++ le32 (mh_cmd h) ++ le32 (mh_seq h) ++ le32 (mh_size h) ++ mh_resv h;
  of_bytes l := mk_header (slice l 0 4) (int32 (slice l 4 4)) (int32 (slice l 8 4)) (int32 (slice l 12 4)) (slice l 16 64);
  fits h := fits_chars 4 (mh_flag h) /\ is_int (mh_cmd h) /\ is_int (mh_seq h) /\ is_int (mh_size h) /\ fits_chars 64 (mh_resv h);
}.

Record ReqLogin := mk_req_login { ql_cmsid : list Z; ql_password : list Z; ql_resv : list Z }.

#[export] Instance ReqLogin_wire : Wire ReqLogin := {
  sizeof := 104;
  to_bytes q := ql_cmsid q ++ ql_password q ++ ql_resv q;
  of_bytes l := mk_req_login (slice l 0 20) (slice l 20 20) (slice l 40 64);
  fits q := fits_chars 20 (ql_cmsid q) /\ fits_chars 20 (ql_password q) /\ fits_chars 64 (ql_resv q);
}.

Record RespLogin := mk_resp_login { pl_result : Z; pl_size : Z; pl_resv : list Z }.

#[export] Instance RespLogin_wire : Wire RespLogin := {
  sizeof := 72;
  to_bytes p := le32 (pl_result p) ++ le32 (pl_size p) ++ pl_resv p;
  of_bytes l := mk_resp_login (int32 (slice l 0 4)) (int32 (slice l 4 4)) (slice l 8 64);
  fits p := is_int (pl_result p) /\ is_int (pl_size p) /\ fits_chars 64 (pl_resv p);
}.

Record StateItem := mk_state_item { si_pid : list Z; si_flag : Z }.

#[export] Instance StateItem_wire : Wire StateItem := {
  sizeof := 24;
  to_bytes i := si_pid i ++ le32 (si_flag i);
  of_bytes l := mk_state_item (slice l 0 20) (int32 (slice l 20 4));
  fits i := fits_chars 20 (si_pid i) /\ is_int (si_flag i);
}.

Record DevNode := mk_dev_node { nd_pid : list Z; nd_token : list Z; nd_state : Z }.

#[export] Instance DevNode_wire : Wire DevNode := {
  sizeof := 32;
  to_bytes n := nd_pid n ++ nd_token n ++ le32 (nd_state n);
  of_bytes l := mk_dev_node (slice l 0 20) (slice l 20 8) (int32 (slice l 28 4));
  fits n := fits_chars 20 (nd_pid n) /\ fits_chars 8 (nd_token n) /\ is_int (nd_state n);
}.

Record ReqPush := mk_req_push { qp_pid : list Z; qp_key : list Z; qp_resv : list Z }.

#[export] Instance ReqPush_wire : Wire ReqPush := {
  sizeof := 104;
  to_bytes q := qp_pid q ++ qp_key q ++ qp_resv q;
  of_bytes l := mk_req_push (slice l 0 20) (slice l 20 20) (slice l 40 64);
  fits q := fits_chars 20 (qp_pid q) /\ fits_chars 20 (qp_key q) /\ fits_chars 64 (qp_resv q);
}.

Record RespPush := mk_resp_push { pp_result : Z; pp_rtmpuri : list Z; pp_token : list Z; pp_resv : list Z }.

#[export] Instance RespPush_wire : Wire RespPush := {
  sizeof := 348;
  to_bytes p := le32 (pp_result p) ++ pp_rtmpuri p ++ pp_token p ++ pp_resv p;
  of_bytes l := mk_resp_push (int32 (slice l 0 4)) (slice l 4 260) (slice l 264 20) (slice l 284 64);
  fits p := is_int (pp_result p) /\ fits_chars 260 (pp_rtmpuri p) /\ fits_chars 20 (pp_token p) /\ fits_chars 64 (pp_resv p);
}.

Record ReqStopPush := mk_req_stop { qs_pid : list Z; qs_resv : list Z }.

#[export] Instance ReqStopPush_wire : Wire ReqStopPush := {
  sizeof := 84;
  to_bytes q := qs_pid q ++ qs_resv q;
  of_bytes l := mk_req_stop (slice l 0 20) (slice l 20 64);
  fits q := fits_chars 20 (qs_pid q) /\ fits_chars 64 (qs_resv q);
}.

Record RespStopPush := mk_resp_stop { ps_result : Z; ps_resv : list Z }.

#[export] Instance RespStopPush_wire : Wire RespStopPush := {
  sizeof := 68;
  to_bytes p := le32 (ps_result p) ++ ps_resv p;
  of_bytes l := mk_resp_stop (int32 (slice l 0 4)) (slice l 4 64);
  fits p := is_int (ps_result p) /\ fits_chars 64 (ps_resv p);
}.

Record DeviceListChange := mk_list_change { lc_type : Z; lc_pid : list Z }.

#[export] Instance DeviceListChange_wire : Wire DeviceListChange := {
  sizeof := 24;
  to_bytes c := le32 (lc_type c) ++ lc_pid c;
  of_bytes l := mk_list_change (int32 (slice l 0 4)) (slice l 4 20);
  fits c := is_int (lc_type c) /\ fits_chars 20 (lc_pid c);
}.

Definition REQ_LOGIN : Z := 65536.
Definition RESP_LOGIN : Z := 65537.
Definition KEEP_ALIVE : Z := 65552.
Definition KEEP_ALIVE_RE : Z := 65553.
Definition UPDATE_CHANGE : Z := 65600.
Definition GROUP_STOP_PUSH : Z := 65632.
Definition REQ_PUSH : Z := 65584.
Definition RESP_PUSH : Z := 65585.
Definition REQ_STOP_PUSH : Z := 65586.
Definition RESP_STOP_PUSH : Z := 65587.
Definition NOTIFY_DEVICE_CHANGE : Z := 65616.

(** The header that every sender fills in. *)
Definition atb_flag : list Z := bytes "atb" ++ [0].

Definition header (cmd seq size : Z) : MsgHeader := mk_header atb_flag cmd seq size (zeros 64).

Definition frame (cmd seq : Z) (body : list Z) : list Z := to_bytes (header cmd seq (zlen body)) ++ body.

(** ** SOCKIO *)

(** What [send] answers: the number of bytes taken; [EAGAIN]; another error. *)
Inductive send_answer := Send_ok (n : Z) | Send_again | Send_error.

(** The loop of [ETSend] over the bytes that are left: whether all of them went out
    ([None] while it waits), and those that did. *)
Fixpoint ETSend_loop (rest : list Z) (answers : list send_answer) : option bool * list Z :=
  match rest with
  | [] => (Some true, [])
  | _ :: _ =>
      match answers with
      | [] => (None, [])
      | Send_ok n :: answers' =>
          if n <=? 0 then (Some false, [])
          else
            let '(ret, out) := ETSend_loop (drop (Z.to_nat n) rest) answers' in
            (ret, take (Z.to_nat n) rest ++ out)
      | Send_again :: answers' => ETSend_loop rest answers'
      | Send_error :: _ => (Some false, [])
      end
  end.

(** What [ETSend] returns and what reached the peer. *)
Definition ETSend (data : list Z) (answers : list send_answer) : option Z * list Z :=
  let '(ret, out) := ETSend_loop data answers in
  ((fun all : bool => if all then zlen data else -1) <$> ret, out).

(** The bytes that will arrive on a connection, in the segments in which they arrive;
    an empty segment is a moment at which [recv] finds nothing. *)
Abbreviation conn := (list (list Z)).

(** [ETRecv] reads until it has [n] bytes, or [recv] fails or finds nothing. *)
Fixpoint ETRecv (c : conn) (n : Z) : list Z * conn :=
  if n <=? 0 then ([], c)
  else
    match c with
    | [] => ([], [])
    | [] :: c' => ([], c')
    | seg :: c' =>
        if zlen seg <=? n then
          let '(data, rest) := ETRecv c' (n - zlen seg) in (seg ++ data, rest)
        else (slice seg 0 n, drop (Z.to_nat n) seg :: c')
    end.

(** [ETRecv] into an array of [cap] bytes. *)
Definition ETRecv_into (cap : Z) (c : conn) (n : Z) : (list Z * conn) + fault :=
  let '(data, rest) := ETRecv c n in
  if cap <? zlen data then inr OutOfBounds else inl (data, rest).

(** ** TaskTcpReadMsg::run

    What it does with the server in the end: [DelClient], or [ResetOneshot] and
    [HandlerRead] with the command, the sequence number, the buffer (a [NULL] pointer,
    or the array [data] with what was not written left zero) and the size. *)
Definition MAX_MSG : Z := 10240.

Inductive task_end :=
  | Task_del
  | Task_read (cmd seq : Z) (buf : option (list Z)) (size : Z).

Definition read_task (c : conn) : (task_end * conn) + fault :=
  let '(h, c) := ETRecv c (sizeof MsgHeader) in
  if negb (zlen h =? sizeof MsgHeader) then inl (Task_del, c)
  else
    let hd : MsgHeader := of_bytes h in
    if negb (bool_decide (take 3 (mh_flag hd) = bytes "atb")) then inl (Task_del, c)
    else if mh_size hd =? 0 then inl (Task_read (mh_cmd hd) 0 None 0, c)
    else
      match ETRecv_into MAX_MSG c (mh_size hd) with
      | inr f => inr f
      | inl (data, c) =>
          if negb (zlen data =? mh_size hd) then inl (Task_del, c)
          else inl (Task_read (mh_cmd hd) (mh_seq hd) (Some (chars MAX_MSG data)) (mh_size hd), c)
      end.

(** One task for each message, as the event loop starts them. *)
Fixpoint read_tasks (k : nat) (c : conn) : (list task_end * conn) + fault :=
  match k with
  | O => inl ([], c)
  | S k' =>
      match read_task c with
      | inr f => inr f
      | inl (t, c) =>
          match read_tasks k' c with
          | inr f => inr f
          | inl (ts, c) => inl (t :: ts, c)
          end
      end
  end.

(** ** The structures obey the laws *)

Lemma is_byte_u8 z : is_byte (u8 z).
Proof. apply uwrap_range. lia. Qed.

Lemma le32_buf z : is_buf (le32 z).
Proof. repeat constructor; apply is_byte_u8. Qed.

Lemma bytes_of_u32 z : u8 z + 2 ^ 8 * (u8 (z / 2 ^ 8) + 2 ^ 8 * (u8 (z / 2 ^ 16) + 2 ^ 8 * u8 (z / 2 ^ 24))) = u32 z.
Proof.
  unfold uwrap. change (2 ^ 32) with (2 ^ 8 * (2 ^ 8 * (2 ^ 8 * 2 ^ 8))).
  rewrite !Z.rem_mul_r, !Z.div_div by lia. done.
Qed.

Lemma int32_le32 z : is_int z -> int32 (le32 z) = z.
Proof.
  intros Hz. unfold int32, le32, s32. cbn [fold_right]. rewrite Z.mul_0_r, Z.add_0_r, bytes_of_u32.
  unfold is_int, uwrap in *. rewrite Zplus_mod_idemp_l, Z.mod_small by lia. lia.
Qed.

Lemma slice_here {A} (l k : list A) n : n = zlen l -> slice (l ++ k) 0 n = l.
Proof. intros ->. unfold slice. rewrite drop_0, zlen_to_nat. apply take_app_length. Qed.

Lemma slice_all {A} (l : list A) n : n = zlen l -> slice l 0 n = l.
Proof. intros. rewrite <-(app_nil_r l) at 1. by apply slice_here. Qed.

Lemma slice_there {A} (l k : list A) off n :
  zlen l <= off -> slice (l ++ k) off n = slice k (off - zlen l) n.
Proof.
  unfold slice, zlen. intros. rewrite drop_app_ge by lia. do 2 f_equal. lia.
Qed.

Lemma zlen_le32 z : zlen (le32 z) = 4.
Proof. done. Qed.

(** Zeroed memory and the strings in it. *)
Lemma c_str_app l k : 0 ∉ l -> c_str (l ++ 0 :: k) = Some l.
Proof.
  induction l as [|x l IH]; intros Hl; cbn; [done|]. apply not_elem_of_cons in Hl as [Hx Hl].
  rewrite (proj2 (Z.eqb_neq _ _)) by done. by rewrite IH.
Qed.

Lemma zeros_S n : 0 < n -> zeros n = 0 :: zeros (n - 1).
Proof. intros. unfold zeros. replace (Z.to_nat n) with (S (Z.to_nat (n - 1))) by lia. done. Qed.

Lemma c_str_chars n l k : 0 ∉ l -> zlen l < n -> c_str (chars n l ++ k) = Some l.
Proof. intros. unfold chars. rewrite zeros_S by lia. rewrite <-app_assoc. by apply c_str_app. Qed.

Lemma zlen_zeros n : 0 <= n -> zlen (zeros n) = n.
Proof. intros. unfold zlen, zeros. rewrite length_replicate. lia. Qed.

Lemma zlen_chars n l : zlen l <= n -> zlen (chars n l) = n.
Proof. intros. unfold chars. rewrite zlen_app, zlen_zeros; lia. Qed.

Lemma zeros_buf n : is_buf (zeros n).
Proof. apply Forall_replicate. unfold is_byte. lia. Qed.

Ltac wire_fields :=
  repeat match goal with
  | H : _ /\ _ |- _ => destruct H
  | H : fits_chars _ _ |- _ => destruct H
  end.

(** The field that begins at an offset. *)
Ltac wire_slice :=
  repeat (rewrite slice_there by (rewrite ?zlen_le32; lia));
  rewrite ?zlen_le32;
  repeat match goal with H : zlen _ = _ |- _ => rewrite H end;
  first [apply slice_here | apply slice_all]; rewrite ?zlen_le32; lia.

Ltac solve_wire :=
  split; intros [] ?; cbn -[le32 int32 slice zlen] in *; wire_fields;
  [ rewrite ?zlen_app, ?zlen_le32; lia
  | repeat (apply Forall_app_2; auto using le32_buf); auto using le32_buf
  | f_equal; first [wire_slice | etransitivity; [apply f_equal; wire_slice | by apply int32_le32]] ].

#[export] Instance MsgHeader_laws : WireLaws MsgHeader.
Proof. solve_wire. Qed.
#[export] Instance ReqLogin_laws : WireLaws ReqLogin.
Proof. solve_wire. Qed.
#[export] Instance RespLogin_laws : WireLaws RespLogin.
Proof. solve_wire. Qed.
#[export] Instance StateItem_laws : WireLaws StateItem.
Proof. solve_wire. Qed.
#[export] Instance DevNode_laws : WireLaws DevNode.
Proof. solve_wire. Qed.
#[export] Instance ReqPush_laws : WireLaws ReqPush.
Proof. solve_wire. Qed.
#[export] Instance RespPush_laws : WireLaws RespPush.
Proof. solve_wire. Qed.
#[export] Instance ReqStopPush_laws : WireLaws ReqStopPush.
Proof. solve_wire. Qed.
#[export] Instance RespStopPush_laws : WireLaws RespStopPush.
Proof. solve_wire. Qed.
#[export] Instance DeviceListChange_laws : WireLaws DeviceListChange.
Proof. solve_wire. Qed.
