(* ===== verification/MessagesProps.v ===== *)
(** * MessagesProps: messages on the wire

    What a sender handed to [ETSend] and a reading task finds in the stream; when a
    message runs over the array it is read into. *)
From S2P Require Import Prelude Messages.

(** ** SOCKIO *)

Lemma ETSend_loop_all rest answers out : ETSend_loop rest answers = (Some true, out) -> out = rest.
Proof.
  revert rest out. induction answers as [|a answers IH]; intros [|b rest] out; cbn [ETSend_loop]; try by intros [= <-].
  destruct a as [n| |]; [|by apply IH|done]. destruct (n <=? 0); [done|].
  destruct (ETSend_loop _ answers) as [ret o] eqn:E. intros [= -> <-].
  by rewrite (IH _ _ E), take_drop.
Qed.

(** When [ETSend] reports the whole length, the peer has got exactly the data. *)
Lemma ETSend_whole data answers : (ETSend data answers).1 = Some (zlen data) -> (ETSend data answers).2 = data.
Proof.
  unfold ETSend. destruct (ETSend_loop data answers) as [[[]|] out] eqn:E; cbn; try done.
  - intros _. by apply ETSend_loop_all in E.
  - intros [= H]. pose proof (zlen_nonneg data). lia.
Qed.

(** The bytes that can be read before [recv] finds nothing. *)
Fixpoint available (c : conn) : list Z :=
  match c with
  | [] => []
  | [] :: _ => []
  | seg :: c' => seg ++ available c'
  end.

Lemma available_concat c : Forall (fun seg => seg <> []) c -> available c = concat c.
Proof. induction 1 as [|[|b seg] c Hseg Hc IH]; cbn; [done|done|]. by rewrite IH. Qed.

Lemma ETRecv_available c n data rest :
  ETRecv c n = (data, rest) ->
  data = take (Z.to_nat n) (available c) /\
  (n <= zlen (available c) -> available rest = drop (Z.to_nat n) (available c)).
Proof.
  revert n data rest. induction c as [|seg c IH]; intros n data rest; cbn [ETRecv available].
  - destruct (n <=? 0) eqn:?; intros [= <- <-]; cbn [available]; rewrite ?take_nil, ?drop_nil; auto.
  - destruct (Z.leb_spec n 0) as [Hn|Hn].
    { intros [= <- <-]. rewrite Z2Nat.nonpos by done. cbn [available]. by rewrite drop_0. }
    destruct seg as [|b seg]; [intros [= <- <-]; rewrite take_nil, drop_nil; split; [done|unfold zlen; cbn; intros; lia]|].
    set (s := b :: seg). destruct (Z.leb_spec (zlen s) n) as [Hs|Hs].
    + destruct (ETRecv c (n - zlen s)) as [d r] eqn:E. intros [= <- <-]. destruct (IH _ _ _ E) as [-> Hr].
      assert (Hk : Z.to_nat (n - zlen s) = (Z.to_nat n - length s)%nat) by (unfold zlen; lia).
      rewrite Hk in *. assert (length s <= Z.to_nat n)%nat by (unfold zlen in Hs; lia). split.
      * by rewrite take_app_ge.
      * rewrite zlen_app, drop_app_ge by done. intros ?. apply Hr. lia.
    + intros [= <- <-]. assert (Z.to_nat n < length s)%nat by (unfold zlen in Hs; lia). split.
      * unfold slice. by rewrite drop_0, take_app_le by lia.
      * intros _. rewrite drop_app_le by lia. cbn [available].
        destruct (drop (Z.to_nat n) s) eqn:E; [|done].
        apply (f_equal length) in E. rewrite length_drop in E. cbn [length] in E. lia.
Qed.

Lemma zlen_take {A} (l : list A) n : 0 <= n -> zlen (take (Z.to_nat n) l) = Z.min n (zlen l).
Proof. intros. unfold zlen. rewrite length_take. lia. Qed.

(** ** Reading one message

    In terms of the bytes that have arrived. *)
Definition arrived_header (s : list Z) : MsgHeader := of_bytes (take 80 s).

Lemma read_task_short c :
  zlen (available c) < 80 -> exists c', read_task c = inl (Task_del, c').
Proof.
  intros Hs. unfold read_task. destruct (ETRecv c (sizeof MsgHeader)) as [h c'] eqn:E.
  apply ETRecv_available in E as [-> _]. cbn [sizeof MsgHeader_wire].
  rewrite zlen_take by lia. rewrite (proj2 (Z.eqb_neq _ _)) by lia. by eexists.
Qed.

Lemma read_task_header c :
  80 <= zlen (available c) -> exists c', available c' = drop 80 (available c) /\
  read_task c =
    let hd := arrived_header (available c) in
    if negb (bool_decide (take 3 (mh_flag hd) = bytes "atb")) then inl (Task_del, c')
    else if mh_size hd =? 0 then inl (Task_read (mh_cmd hd) 0 None 0, c')
    else
      match ETRecv_into MAX_MSG c' (mh_size hd) with
      | inr f => inr f
      | inl (data, c) =>
          if negb (zlen data =? mh_size hd) then inl (Task_del, c)
          else inl (Task_read (mh_cmd hd) (mh_seq hd) (Some (chars MAX_MSG data)) (mh_size hd), c)
      end.
Proof.
  intros Hs. unfold read_task. destruct (ETRecv c (sizeof MsgHeader)) as [h c'] eqn:E.
  apply ETRecv_available in E as [-> Hc']. cbn [sizeof MsgHeader_wire] in *. specialize (Hc' Hs).
  exists c'. split; [done|]. rewrite zlen_take by lia. rewrite Z.min_l, Z.eqb_refl by lia. done.
Qed.

(** The reading task writes behind its array of 10240 bytes exactly when a whole header
    with the right mark announces more than that, and more than that has arrived; how
    the bytes were cut into segments makes no difference. *)
Theorem read_task_overflow c f :
  read_task c = inr f <->
  f = OutOfBounds /\ MAX_MSG + 80 < zlen (available c) /\
  take 3 (available c) = bytes "atb" /\ MAX_MSG < mh_size (arrived_header (available c)).
Proof.
  destruct (Z.lt_ge_cases (zlen (available c)) 80) as [Hs|Hs].
  { destruct (read_task_short c Hs) as [c' ->]. unfold MAX_MSG. split; [done|lia]. }
  destruct (read_task_header c Hs) as (c' & Hc' & ->). cbv zeta.
  assert (Hf : take 3 (mh_flag (arrived_header (available c))) = take 3 (available c)).
  { cbn. unfold slice. cbn. rewrite drop_0, !take_take. done. }
  rewrite Hf. case_bool_decide as Hb; cbn [negb]; [|split; [done|tauto]].
  set (n := mh_size _). destruct (Z.eqb_spec n 0) as [Hn|Hn]; [unfold MAX_MSG; split; [done|lia]|].
  unfold ETRecv_into. destruct (ETRecv c' n) as [data r] eqn:E. apply ETRecv_available in E as [-> _].
  rewrite Hc'. assert (Hd : zlen (drop 80 (available c)) = zlen (available c) - 80).
  { unfold zlen in *. rewrite length_drop. lia. }
  destruct (Z.lt_ge_cases n 0) as [Hneg|Hneg].
  { rewrite Z2Nat.nonpos by lia. change (MAX_MSG <? zlen (take 0 _)) with false. unfold MAX_MSG. split; [by repeat case_match|lia]. }
  rewrite zlen_take, Hd by done. destruct (Z.ltb_spec MAX_MSG (Z.min n (zlen (available c) - 80))).
  - split; [intros [= <-]; split_and!; [done|lia|done|lia]|by intros [-> _]].
  - split; [by repeat case_match|lia].
Qed.

(** ** Messages that were sent *)

Record message := mk_message { msg_cmd : Z; msg_seq : Z; msg_body : list Z }.

Definition message_ok (m : message) : Prop := is_int (msg_cmd m) /\ is_int (msg_seq m) /\ zlen (msg_body m) <= MAX_MSG.

Definition frame_of (m : message) : list Z := frame (msg_cmd m) (msg_seq m) (msg_body m).

(** What [HandlerRead] gets of a message: command, sequence number, body and its size, but
    for a message without a body, of which it gets 0 for the sequence number that was sent
    (task_tcpreadmsg.cpp:96 passes a constant).  This is what the code does and not what
    its senders mean. *)
Definition delivered (m : message) : task_end :=
  if bool_decide (msg_body m = []) then Task_read (msg_cmd m) 0 None 0
  else Task_read (msg_cmd m) (msg_seq m) (Some (chars MAX_MSG (msg_body m))) (zlen (msg_body m)).

Lemma header_fits cmd seq size : is_int cmd -> is_int seq -> is_int size -> fits (header cmd seq size).
Proof. intros. repeat split; try done; try apply H; try apply H0; try apply H1; by decide_now. Qed.

Lemma frame_header m s :
  message_ok m -> arrived_header (frame_of m ++ s) = header (msg_cmd m) (msg_seq m) (zlen (msg_body m)).
Proof.
  intros (Hc & Hq & Hb). pose proof (zlen_nonneg (msg_body m)).
  assert (Hf : fits (header (msg_cmd m) (msg_seq m) (zlen (msg_body m)))).
  { apply header_fits; try done. unfold is_int, MAX_MSG in *. lia. }
  unfold arrived_header, frame_of, frame. rewrite <-app_assoc. rewrite take_app_length'.
  - by apply of_to_bytes.
  - pose proof (to_bytes_length _ Hf) as Hl. unfold zlen at 1 in Hl. cbn [sizeof MsgHeader_wire] in Hl. lia.
Qed.

Lemma zlen_frame m : message_ok m -> zlen (frame_of m) = 80 + zlen (msg_body m).
Proof.
  intros (Hc & Hq & Hb). pose proof (zlen_nonneg (msg_body m)). unfold frame_of, frame. rewrite zlen_app.
  rewrite to_bytes_length; [done|]. apply header_fits; try done. unfold is_int, MAX_MSG in *. lia.
Qed.

Lemma read_task_frame m c s :
  message_ok m -> available c = frame_of m ++ s ->
  exists c', read_task c = inl (delivered m, c') /\ available c' = s.
Proof.
  intros Hm Ha. pose proof (zlen_frame m Hm) as Hl. pose proof (zlen_nonneg s). pose proof (zlen_nonneg (msg_body m)).
  destruct (read_task_header c) as (c' & Hc' & ->); [rewrite Ha, zlen_app; lia|].
  rewrite Ha, frame_header by done. cbv zeta. cbn [mh_flag mh_size mh_cmd mh_seq header].
  change (negb (bool_decide _)) with false. cbn iota. rewrite Ha in Hc'. unfold delivered.
  assert (Hd : drop 80 (frame_of m ++ s) = msg_body m ++ s).
  { unfold frame_of, frame. rewrite <-app_assoc. apply drop_app_length'.
    unfold frame_of, frame in Hl. rewrite zlen_app in Hl. unfold zlen at 1 in Hl. lia. }
  rewrite Hd in Hc'. case_bool_decide as Hb.
  - rewrite Hb in *. cbn. by eexists.
  - rewrite (proj2 (Z.eqb_neq _ _)) by (destruct (msg_body m); [done|rewrite zlen_cons; pose proof (zlen_nonneg l); lia]).
    unfold ETRecv_into. destruct (ETRecv c' _) as [data r] eqn:E. apply ETRecv_available in E as [-> Hr].
    rewrite Hc', zlen_to_nat, take_app_length. destruct Hm as (_ & _ & Hm).
    rewrite (proj2 (Z.ltb_ge _ _)) by done. rewrite Z.eqb_refl. cbn. eexists. split; [done|].
    rewrite Hr, Hc', zlen_to_nat by (rewrite Hc', zlen_app; lia). apply drop_app_length.
Qed.

Lemma read_tasks_frames ms : forall c s,
  Forall message_ok ms -> available c = concat (map frame_of ms) ++ s ->
  exists c', read_tasks (length ms) c = inl (map delivered ms, c') /\ available c' = s.
Proof.
  induction ms as [|m ms IH]; intros c s Hms Ha; cbn [read_tasks length map concat] in *; [by eexists|].
  apply Forall_cons in Hms as [Hm Hms]. rewrite <-app_assoc in Ha.
  destruct (read_task_frame m c _ Hm Ha) as (c1 & -> & H1). destruct (IH c1 s Hms H1) as (c2 & -> & H2). by eexists.
Qed.

(** C33. Messages that the senders got rid of by [ETSend], with any partial sends and retries,
    are handed to [HandlerRead] one by one and in order, however the network cuts the
    stream, as long as it arrives without a pause: those with a body unchanged, those
    without one with the sequence number 0 in the place of theirs ([delivered]). *)
Theorem messages_delivered ms answers c :
  Forall message_ok ms ->
  Forall2 (fun m a => (ETSend (frame_of m) a).1 = Some (zlen (frame_of m))) ms answers ->
  Forall (fun seg => seg <> []) c ->
  concat c = concat (zip_with (fun m a => (ETSend (frame_of m) a).2) ms answers) ->
  exists c', read_tasks (length ms) c = inl (map delivered ms, c') /\ available c' = [].
Proof.
  intros Hms Hs Hc He. apply read_tasks_frames; [done|]. rewrite available_concat, He, app_nil_r by done. clear He Hc.
  induction Hs as [|m a ms answers Ha Hs IH]; [done|]; cbn [zip_with map concat]. apply Forall_cons in Hms as [_ Hms].
  by rewrite ETSend_whole, IH.
Qed.

(** A pause inside a message loses the connection: when only a proper part of it has
    arrived, the task deletes the client. *)
Theorem split_message_dropped m c :
  message_ok m ->
  available c <> frame_of m -> available c `prefix_of` frame_of m ->
  exists c', read_task c = inl (Task_del, c').
Proof.
  intros Hm Hne [k Hk]. pose proof (zlen_frame m Hm) as Hl. rewrite Hk, zlen_app in Hl.
  assert (0 < zlen k). { destruct k; [by rewrite app_nil_r in Hk|]. rewrite zlen_cons. pose proof (zlen_nonneg k). lia. }
  destruct (Z.lt_ge_cases (zlen (available c)) 80) as [Hs|Hs]; [by apply read_task_short|].
  destruct (read_task_header c Hs) as (c' & Hc' & ->).
  pose proof (zlen_nonneg (msg_body m)). pose proof (frame_header m [] Hm) as Hh. rewrite app_nil_r, Hk in Hh. unfold arrived_header in *.
  rewrite take_app_le in Hh by (unfold zlen in Hs; lia). rewrite Hh.
  cbv zeta. cbn [mh_flag mh_size mh_cmd mh_seq header]. change (negb (bool_decide _)) with false. cbn iota.
  rewrite (proj2 (Z.eqb_neq _ _)) by lia. unfold ETRecv_into. destruct (ETRecv c' _) as [data r] eqn:E.
  apply ETRecv_available in E as [-> _]. destruct Hm as (_ & _ & Hm).
  assert (Hd : zlen (drop 80 (available c)) = zlen (available c) - 80).
  { unfold zlen in *. rewrite length_drop. lia. }
  rewrite zlen_take, Hc', Hd by lia. rewrite (proj2 (Z.ltb_ge _ _)) by lia.
  rewrite zlen_take, Hd, (proj2 (Z.eqb_neq _ _)) by lia. by eexists.
Qed.

(** ** Concrete streams *)

Definition sample_messages : list message :=
  [mk_message KEEP_ALIVE 7 []; mk_message UPDATE_CHANGE 8 (le32 1 ++ to_bytes (mk_state_item (chars 20 (bytes "cam1")) 1))].

Definition sample_stream : list Z := concat (map frame_of sample_messages).

Lemma sample_messages_ok : Forall message_ok sample_messages.
Proof. by repeat constructor. Qed.

Lemma messages_delivered_witness :
  exists c', read_tasks 2 [take 90 sample_stream; drop 90 sample_stream] =
    inl (map delivered sample_messages, c') /\ available c' = [].
Proof.
  apply (messages_delivered sample_messages [[Send_ok 30; Send_again; Send_ok 50]; [Send_ok 108]]).
  - exact sample_messages_ok.
  - repeat constructor.
  - by repeat constructor.
  - vm_compute. reflexivity.
Defined.

Lemma split_message_dropped_witness :
  exists c', read_task [take 20 sample_stream; []; drop 20 sample_stream] = inl (Task_del, c').
Proof.
  apply (split_message_dropped (mk_message KEEP_ALIVE 7 [])).
  - by repeat constructor.
  - vm_compute. discriminate.
  - exists (drop 20 (frame_of (mk_message KEEP_ALIVE 7 []))). vm_compute. reflexivity.
Defined.

Definition oversized : conn := [to_bytes (header KEEP_ALIVE 1 (MAX_MSG + 1)); zeros (MAX_MSG + 1)].

Lemma read_task_overflow_witness : read_task oversized = inr OutOfBounds.
Proof. apply read_task_overflow. split; [reflexivity|]. split; [vm_compute; reflexivity|]. split; vm_compute; reflexivity. Defined.
