(* ===== verification/TimeSection.v ===== *)
(** * TimeSection: times of day and the schedule of a camera

    The helpers of [atb_adapter/global.cpp]: tokens, times as text, and the sections of
    the day in which a camera may be watched.  [strptime] and [mktime] are modelled as
    the C library defines them for the format [%H:%M:%S] on a fixed day. *)
From S2P Require Import Prelude Streams.

(** ** Tokens *)

Definition LEN : Z := 62.
Definition g_arrCharElem : list Z := bytes "0123456789ABCDEFGHIJKLMNOPQRSTUVWXYZabcdefghijklmnopqrstuvwxyz".

(** The numbers that [rand] yields are an input. *)
Definition GeneralToken (rands : list Z) : list Z :=
  map (fun r => default 0 (zlookup g_arrCharElem (r mod LEN))) rands.

(** ** Times as text *)

Record tm := mk_tm { tm_hour : Z; tm_min : Z; tm_sec : Z }.

(** [%02d] of a number below 100. *)
Definition dec2 (n : Z) : list Z := [chr "0" + n / 10; chr "0" + n mod 10].

(** [Global::GetCurrentTime(false)]; the clock is an input. *)
Definition GetCurrentTime (t : tm) : list Z :=
  dec2 (tm_hour t) ++ chr ":" :: dec2 (tm_min t) ++ chr ":" :: dec2 (tm_sec t).

(** One number of at most two digits, not above [hi]. *)
Definition isdigit (c : Z) : bool := (chr "0" <=? c) && (c <=? chr "9").

Fixpoint skip_spaces (l : list Z) : list Z :=
  match l with
  | c :: l' => if isspace c then skip_spaces l' else l
  | [] => []
  end.

Definition get_number (hi : Z) (l : list Z) : option (Z * list Z) :=
  match skip_spaces l with
  | a :: r =>
      if isdigit a then
        let v := dec_digit a in
        let '(v, r) :=
          match r with
          | b :: r' => if (v * 10 <=? hi) && isdigit b then (v * 10 + dec_digit b, r') else (v, r)
          | [] => (v, r)
          end in
        if v <=? hi then Some (v, r) else None
      else None
  | [] => None
  end.

Definition match_char (c : Z) (l : list Z) : option (list Z) :=
  match l with
  | a :: r => if a =? c then Some r else None
  | [] => None
  end.

(** [strptime(s, "%H:%M:%S", &tb)]; what follows the time is not looked at. *)
Definition strptime (s : list Z) : option tm :=
  '(h, s) ← get_number 23 s;
  s ← match_char (chr ":") s;
  '(m, s) ← get_number 59 s;
  s ← match_char (chr ":") s;
  '(sec, _) ← get_number 61 s;
  Some (mk_tm h m sec).

(** [mktime], in seconds from the beginning of the day that a zeroed [tm] names. *)
Definition mktime (t : tm) : Z := 3600 * tm_hour t + 60 * tm_min t + tm_sec t.

Definition CheckTimeFormat (strtime : list Z) : bool :=
  match strptime strtime with Some _ => true | None => false end.

Definition TimeCompare (starttime endtime : list Z) : bool :=
  if negb (CheckTimeFormat starttime) || negb (CheckTimeFormat endtime) then false
  else
    let tS := mktime (default (mk_tm 0 0 0) (strptime starttime)) in
    let tE := mktime (default (mk_tm 0 0 0) (strptime endtime)) in
    if tE <? tS then false else true.

(** Whether [strtime] is inside the section. *)
Definition CheckInternal (strtime starttime endtime : list Z) : bool :=
  if bool_decide (starttime = []) && bool_decide (endtime = []) then true
  else if negb (TimeCompare starttime endtime) then false
  else if negb (TimeCompare starttime strtime) then false
  else if negb (TimeCompare strtime endtime) then false
  else true.

(** ** ParseTimeSection *)

(** [s.insert(pos, ":")]: [std::out_of_range] behind the end. *)
Definition insert_colon (pos : nat) (s : list Z) : list Z + fault :=
  if bool_decide (length s < pos)%nat then inr Uncaught else inl (take pos s ++ chr ":" :: drop pos s).

(** [HHMMSS] to [HH:MM:SS]. *)
Definition insert_colons (s : list Z) : list Z + fault :=
  match insert_colon 2 s with
  | inl s => insert_colon 5 s
  | inr f => inr f
  end.

(** The two halves of [sec] around the first minus sign. *)
Definition split_section (sec : list Z) : option (list Z * list Z) :=
  match extract (chr "-") sec with
  | (s, Some e) => Some (s, e)
  | (_, None) => None
  end.

(** The start and end of one section, if it is valid. *)
Definition parse_section (sec : list Z) : option (list Z * list Z) + fault :=
  match split_section sec with
  | None => inl None
  | Some (s, e) =>
      match insert_colons s, insert_colons e with
      | inl s, inl e =>
          if negb (CheckTimeFormat s) || negb (CheckTimeFormat e) then inl None
          else if negb (TimeCompare s e) then inl None
          else inl (Some (s, e))
      | _, _ => inr Uncaught
      end
  end.

(** The four strings that the caller passes by reference. *)
Record sections := mk_sections { sec_s0 : list Z; sec_e0 : list Z; sec_s1 : list Z; sec_e1 : list Z }.

Definition no_sections : sections := mk_sections [] [] [] [].

Definition ParseTimeSection (sec0 sec1 : list Z) (out : sections) : (Z * sections) + fault :=
  match parse_section sec0 with
  | inr f => inr f
  | inl None => inl (-1, out)
  | inl (Some (s0, e0)) =>
      let out := mk_sections s0 e0 (sec_s1 out) (sec_e1 out) in
      if bool_decide (sec1 = []) then inl (1, out)
      else
        match parse_section sec1 with
        | inr f => inr f
        | inl None => inl (-1, out)
        | inl (Some (s1, e1)) =>
            let out := mk_sections s0 e0 s1 e1 in
            if negb (TimeCompare e0 s1) then inl (-1, out) else inl (2, out)
        end
  end.

(** ** What the functions compute *)

Definition time_ok (t : tm) : Prop := 0 <= tm_hour t < 24 /\ 0 <= tm_min t < 60 /\ 0 <= tm_sec t < 60.

#[export] Instance time_ok_dec t : Decision (time_ok t).
Proof. unfold time_ok. apply _. Defined.

(** [HHMMSS] *)
Definition compact (t : tm) : list Z := dec2 (tm_hour t) ++ dec2 (tm_min t) ++ dec2 (tm_sec t).

Definition section_text (a b : tm) : list Z := compact a ++ chr "-" :: compact b.

Lemma isdigit_dec n : 0 <= n < 10 -> isdigit (chr "0" + n) = true.
Proof. intros. unfold isdigit. rewrite !(proj2 (Z.leb_le _ _)) by lia. done. Qed.

Lemma get_number_dec2 hi n l :
  0 <= n <= hi -> n < 100 -> n / 10 * 10 <= hi -> get_number hi (dec2 n ++ l) = Some (n, l).
Proof.
  intros Hn H100 Hhi. assert (0 <= n / 10 < 10) by (Z.to_euclidean_division_equations; lia).
  assert (0 <= n mod 10 < 10) by (apply Z.mod_pos_bound; lia).
  unfold get_number, dec2. cbn [app skip_spaces].
  assert (Hs : isspace (chr "0" + n / 10) = false).
  { unfold isspace. rewrite (proj2 (Z.eqb_neq _ _)), (proj2 (Z.leb_gt (48 + n / 10) 13)) by lia. by rewrite andb_false_r. }
  rewrite Hs, isdigit_dec by done. cbn zeta. unfold dec_digit at 1. rewrite isdigit_dec by done.
  rewrite (proj2 (Z.leb_le _ _)) by lia. cbn [andb]. unfold dec_digit.
  replace ((chr "0" + n / 10 - chr "0") * 10 + (chr "0" + n mod 10 - chr "0")) with n
    by (rewrite (Z.div_mod n 10) at 1; lia).
  by rewrite (proj2 (Z.leb_le _ _)) by lia.
Qed.

Lemma strptime_text t l : time_ok t -> strptime (GetCurrentTime t ++ l) = Some t.
Proof.
  intros (Hh & Hm & Hs). unfold strptime, GetCurrentTime. rewrite <-!app_assoc.
  rewrite get_number_dec2 by (Z.to_euclidean_division_equations; lia). cbn -[dec2 get_number].
  rewrite <-app_assoc, get_number_dec2 by (Z.to_euclidean_division_equations; lia). cbn -[dec2 get_number].
  rewrite get_number_dec2 by (Z.to_euclidean_division_equations; lia). by destruct t.
Qed.

Lemma strptime_time t : time_ok t -> strptime (GetCurrentTime t) = Some t.
Proof. intros Ht. rewrite <-(app_nil_r (GetCurrentTime t)). by apply strptime_text. Qed.

Lemma CheckTimeFormat_time t : time_ok t -> CheckTimeFormat (GetCurrentTime t) = true.
Proof. intros Ht. unfold CheckTimeFormat. by rewrite strptime_time. Qed.

Lemma TimeCompare_time a b :
  time_ok a -> time_ok b -> TimeCompare (GetCurrentTime a) (GetCurrentTime b) = (mktime a <=? mktime b).
Proof.
  intros Ha Hb. unfold TimeCompare. rewrite !CheckTimeFormat_time, !strptime_time by done. cbn [negb orb from_option]; unfold id.
  destruct (Z.ltb_spec (mktime b) (mktime a)), (Z.leb_spec (mktime a) (mktime b)); try done; lia.
Qed.

Lemma CheckInternal_time t a b :
  time_ok t -> time_ok a -> time_ok b ->
  CheckInternal (GetCurrentTime t) (GetCurrentTime a) (GetCurrentTime b) =
    (mktime a <=? mktime t) && (mktime t <=? mktime b).
Proof.
  intros Ht Ha Hb. unfold CheckInternal. rewrite !TimeCompare_time by done. cbn [GetCurrentTime dec2 app].
  repeat case_bool_decide; try done. cbn [andb].
  destruct (Z.leb_spec (mktime a) (mktime b)), (Z.leb_spec (mktime a) (mktime t)), (Z.leb_spec (mktime t) (mktime b)); try done; lia.
Qed.

Lemma insert_colons_compact t : insert_colons (compact t) = inl (GetCurrentTime t).
Proof. done. Qed.

Lemma minus_not_compact t : time_ok t -> chr "-" ∉ compact t.
Proof.
  intros (Hh & Hm & Hs). unfold compact, dec2. cbn [app]. intros Hin.
  repeat (apply elem_of_cons in Hin as [Hin|Hin]; [Z.to_euclidean_division_equations; lia|]).
  by apply not_elem_of_nil in Hin.
Qed.

Lemma parse_section_text a b :
  time_ok a -> time_ok b ->
  parse_section (section_text a b) =
    inl (if mktime a <=? mktime b then Some (GetCurrentTime a, GetCurrentTime b) else None).
Proof.
  intros Ha Hb. unfold parse_section, split_section, section_text.
  rewrite extract_free by by apply minus_not_compact. rewrite !insert_colons_compact, !CheckTimeFormat_time by done.
  cbn [negb orb]. rewrite TimeCompare_time by done. by destruct (_ <=? _).
Qed.

(** What [ParseTimeSection] makes of two sections written as [HHMMSS-HHMMSS]: what the
    first part has stored stays when the second is refused. *)
Lemma ParseTimeSection_text a b c d out :
  time_ok a -> time_ok b -> time_ok c -> time_ok d ->
  ParseTimeSection (section_text a b) (section_text c d) out =
    inl (if mktime a <=? mktime b then
           if mktime c <=? mktime d then
             (if mktime b <=? mktime c then 2 else -1,
              mk_sections (GetCurrentTime a) (GetCurrentTime b) (GetCurrentTime c) (GetCurrentTime d))
           else (-1, mk_sections (GetCurrentTime a) (GetCurrentTime b) (sec_s1 out) (sec_e1 out))
         else (-1, out)).
Proof.
  intros Ha Hb Hc Hd. unfold ParseTimeSection. rewrite !parse_section_text by done.
  destruct (mktime a <=? mktime b); [|done]. rewrite bool_decide_eq_false_2 by done.
  destruct (mktime c <=? mktime d); [|done]. rewrite TimeCompare_time by done. by destruct (_ <=? _).
Qed.

Lemma ParseTimeSection_one a b out :
  time_ok a -> time_ok b ->
  ParseTimeSection (section_text a b) [] out =
    inl (if mktime a <=? mktime b then (1, mk_sections (GetCurrentTime a) (GetCurrentTime b) (sec_s1 out) (sec_e1 out))
         else (-1, out)).
Proof.
  intros Ha Hb. unfold ParseTimeSection. rewrite parse_section_text by done. by destruct (_ <=? _).
Qed.

(** Too short a text ends the process. *)
Example short_section : ParseTimeSection (bytes "1-2") [] no_sections = inr Uncaught.
Proof. reflexivity. Qed.
