(* ===== verification/CmsClient.v ===== *)
(** * CmsClient: one adapter and its cameras

    [CMSClient] of [atb_adapter/cms_client.cpp]: the table of cameras, the messages that
    wait for a thread, the notices to the adapter.  The nodes of the table are heap
    objects with an address, because [NotifyPush] holds a pointer to one while it waits
    without the lock.  The clock, the random sequence numbers and the addresses that
    [new] yields are inputs; a method that sends yields the bytes it hands to
    [ETSend]. *)
From stdpp Require Import gmap sorting.
From S2P Require Import Prelude Streams Messages TimeSection.

(** ** Data *)

Record DeviceNode := mk_device {
  dv_pid : list Z;
  dv_name : list Z;
  dv_token : list Z;
  dv_state : Z;   (* 0 off line, 1 on line, 2 pushing *)
  dv_allday : Z;
  dv_sections : sections;
  dv_key : list Z;
}.

Definition set_dv_state (v : Z) (d : DeviceNode) : DeviceNode :=
  mk_device (dv_pid d) (dv_name d) (dv_token d) v (dv_allday d) (dv_sections d) (dv_key d).
Definition set_dv_push (token key : list Z) (d : DeviceNode) : DeviceNode :=
  mk_device (dv_pid d) (dv_name d) token 2 (dv_allday d) (dv_sections d) key.
Definition set_dv_sections (allday : Z) (secs : sections) (d : DeviceNode) : DeviceNode :=
  mk_device (dv_pid d) (dv_name d) (dv_token d) (dv_state d) allday secs (dv_key d).

Record MessageNode := mk_msg_node {
  mn_type : Z;
  mn_timestamp : Z;
  mn_seqnum : Z;
  mn_buf : list Z;      (* MAX_BUF_SIZE bytes *)
  mn_length : Z;
}.

(** [cc_devlist] maps a pid to the address of its node, [cc_nodes] are the nodes that
    have been allocated and not deleted. *)
Record CMSClient := mk_client {
  cc_fd : Z;
  cc_cmsid : list Z;
  cc_livecount : Z;
  cc_devlist : gmap (list Z) Z;
  cc_nodes : gmap Z DeviceNode;
  cc_msglist : list MessageNode;
}.

Definition set_cmsid (v : list Z) (c : CMSClient) := mk_client (cc_fd c) v (cc_livecount c) (cc_devlist c) (cc_nodes c) (cc_msglist c).
Definition set_livecount (v : Z) (c : CMSClient) := mk_client (cc_fd c) (cc_cmsid c) v (cc_devlist c) (cc_nodes c) (cc_msglist c).
Definition set_devlist (v : gmap (list Z) Z) (c : CMSClient) := mk_client (cc_fd c) (cc_cmsid c) (cc_livecount c) v (cc_nodes c) (cc_msglist c).
Definition set_nodes (v : gmap Z DeviceNode) (c : CMSClient) := mk_client (cc_fd c) (cc_cmsid c) (cc_livecount c) (cc_devlist c) v (cc_msglist c).
Definition set_msglist (v : list MessageNode) (c : CMSClient) := mk_client (cc_fd c) (cc_cmsid c) (cc_livecount c) (cc_devlist c) (cc_nodes c) v.

Definition CMSClient_new (fd now : Z) : CMSClient := mk_client fd [] now ∅ ∅ [].

(** The nodes in the order of the [std::map]. *)
Definition str_le (a b : list Z) : Prop := str_ltb b a = false.
#[export] Instance str_le_dec a b : Decision (str_le a b) := decide (str_ltb b a = false).

Definition pids (c : CMSClient) : list (list Z) := merge_sort str_le (elements (dom (cc_devlist c))).

(** The node of a pid, through the pointer. *)
Definition device (c : CMSClient) (pid : list Z) : option DeviceNode := cc_devlist c !! pid ≫= (cc_nodes c !!.).

Definition update_device (f : DeviceNode -> DeviceNode) (p : Z) (c : CMSClient) : CMSClient :=
  set_nodes (alter f p (cc_nodes c)) c.

(** [strcpy] into a field of [n] zeroed bytes. *)
Definition strcpy (n : Z) (l : list Z) : list Z + fault :=
  let l := c_text l in
  if n <=? zlen l then inr OutOfBounds else inl (chars n l).

(** ** The cameras *)

(** [GetDeviceList]: pid, name and state of each; the JSON text of the answer is made by
    the JSON library. *)
Definition GetDeviceList (c : CMSClient) : list (list Z * list Z * Z) :=
  omap (fun pid => (fun d => (dv_pid d, dv_name d, dv_state d)) <$> device c pid) (pids c).

(** [devlist_[pid]->state_]: for an unknown pid a [NULL] pointer is followed. *)
Definition GetState (pid : list Z) (c : CMSClient) : Z + fault :=
  match device c pid with
  | Some d => inl (dv_state d)
  | None => inr OutOfBounds
  end.

(** The notice of a change in the list of cameras. *)
Definition list_change (type seq : Z) (pid : list Z) : list Z + fault :=
  match strcpy 20 pid with
  | inl p => inl (frame NOTIFY_DEVICE_CHANGE seq (to_bytes (mk_list_change type p)))
  | inr f => inr f
  end.

(** The node that was there for the pid is not freed. *)
Definition AddCamera_node (addr : Z) (pid name : list Z) (allday : Z) (secs : sections) (c : CMSClient) : CMSClient :=
  let d := mk_device pid name [] 0 allday (if allday =? 0 then secs else no_sections) [] in
  set_devlist (<[pid := addr]> (cc_devlist c)) (set_nodes (<[addr := d]> (cc_nodes c)) c).

Definition AddCamera (addr seq : Z) (pid name : list Z) (allday : Z) (secs : sections) (bWhenrunning : bool) (c : CMSClient)
  : (option (list Z) * CMSClient) + fault :=
  let c := AddCamera_node addr pid name allday secs c in
  if bWhenrunning then
    match list_change 1 seq pid with
    | inl msg => inl (Some msg, c)
    | inr f => inr f
    end
  else inl (None, c).

(** [None] in place of a message: the camera was not found, nothing is sent.  When the
    message has been sent the source runs off the end of the function without a [return],
    which is undefined in C++; its one caller does not look at the value, and the model
    takes it that the call comes back. *)
Definition DelCamera (seq : Z) (pid : list Z) (c : CMSClient) : (option (list Z) * CMSClient) + fault :=
  match cc_devlist c !! pid with
  | None => inl (None, c)
  | Some p =>
      let c := set_devlist (delete pid (cc_devlist c)) (set_nodes (delete p (cc_nodes c)) c) in
      match list_change 0 seq pid with
      | inl msg => inl (Some msg, c)
      | inr f => inr f
      end
  end.

Definition ModifyCamera (pid : list Z) (allday : Z) (secs : sections) (c : CMSClient) : CMSClient :=
  match cc_devlist c !! pid with
  | Some p => update_device (set_dv_sections allday secs) p c
  | None => c
  end.

Definition CheckPush (pid key : list Z) (c : CMSClient) : bool :=
  match device c pid with
  | Some d => bool_decide (dv_key d = key)
  | None => false
  end.

(** ** What the adapter sends *)

(** [memcpy] of [n] bytes at an offset of the array behind a pointer. *)
Definition read_mem (mem : list Z) (off n : Z) : list Z + fault :=
  if (off <? 0) || (n <? 0) || (zlen mem <? off + n) then inr OutOfBounds else inl (slice mem off n).

(** One [StateItem]; the key of [find] is made from the bytes of the structure at [pid]
    up to a NUL. *)
Definition update_item (mem : list Z) (i : Z) (c : CMSClient) : CMSClient + fault :=
  match read_mem mem (4 + sizeof StateItem * i) (sizeof StateItem) with
  | inr f => inr f
  | inl b =>
      match c_str b with
      | None => inr OutOfBounds
      | Some pid =>
          match cc_devlist c !! pid with
          | Some p => inl (update_device (set_dv_state (si_flag (of_bytes b))) p c)
          | None => inl c
          end
      end
  end.

Fixpoint update_items (mem : list Z) (i : Z) (n : nat) (c : CMSClient) : CMSClient + fault :=
  match n with
  | O => inl c
  | S n' =>
      match update_item mem i c with
      | inl c => update_items mem (i + 1) n' c
      | inr f => inr f
      end
  end.

(** [None]: a [NULL] pointer. *)
Definition HandleUpdateChange (buf : option (list Z)) (c : CMSClient) : CMSClient + fault :=
  match buf with
  | None => inr OutOfBounds
  | Some mem =>
      match read_mem mem 0 4 with
      | inr f => inr f
      | inl b => update_items mem 0 (Z.to_nat (int32 b)) c
      end
  end.

(** ** Messages that answer a notice *)

Definition InsertMsg (now iType seqnum : Z) (buf : option (list Z)) (bufsize : Z) (c : CMSClient) : CMSClient + fault :=
  match buf with
  | None => inl c
  | Some mem =>
      if bufsize =? 0 then inl c
      else
        match read_mem mem 0 bufsize with
        | inr f => inr f
        | inl b => inl (set_msglist (cc_msglist c ++ [mk_msg_node iType now seqnum (chars MAX_MSG b) bufsize]) c)
        end
  end.

(** The first part of [WaitforResponse]: messages older than six seconds are deleted. *)
Definition purge_messages (now : Z) (c : CMSClient) : CMSClient :=
  set_msglist (filter (fun m => (u64 (now - mn_timestamp m) <=? 6000) = true) (cc_msglist c)) c.

(** One round of its loop: [memcpy] of the first message that matches into the [cap]
    bytes of the caller's structure. *)
Fixpoint take_message (iType seqnum : Z) (ms : list MessageNode) : option (MessageNode * list MessageNode) :=
  match ms with
  | [] => None
  | m :: ms' =>
      if (mn_type m =? iType) && (mn_seqnum m =? seqnum) then Some (m, ms')
      else prod_map id (cons m) <$> take_message iType seqnum ms'
  end.

Definition WaitforResponse_poll (cap iType seqnum : Z) (c : CMSClient) : option (list Z * CMSClient) + fault :=
  match take_message iType seqnum (cc_msglist c) with
  | None => inl None
  | Some (m, rest) =>
      match read_mem (mn_buf m) 0 (mn_length m) with
      | inr f => inr f
      | inl b => if cap <? zlen b then inr OutOfBounds else inl (Some (chars cap b, set_msglist rest c))
      end
  end.

Definition WAIT_LIMIT : Z := 12000.

Definition wait_over (now start : Z) : bool := WAIT_LIMIT <? u64 (now - start).

Definition ClearMsglist (c : CMSClient) : CMSClient := set_msglist [] c.

(** ** Starting and stopping a stream

    [NotifyPush] up to the sending of its message: an answer at once, or what it keeps
    while it waits without the lock.  The key is made of what [rand] yields. *)
Record push_answer := mk_answer { pa_ret : Z; pa_result : list Z; pa_token : list Z }.

Inductive push_step :=
  | Push_answered (a : push_answer)
  | Push_waiting (pItem : Z) (key : list Z) (msg : list Z).

Definition NotifyPush_begin (seq : Z) (rands : list Z) (devid : list Z) (c : CMSClient) : push_step + fault :=
  match cc_devlist c !! devid with
  | None => inl (Push_answered (mk_answer (-1) (bytes "camera id invalid!") []))
  | Some p =>
      match cc_nodes c !! p with
      | None => inr OutOfBounds
      | Some d =>
          if dv_state d =? 2 then inl (Push_answered (mk_answer 0 (bytes "success!") (dv_token d)))
          else
            let push_key := GeneralToken rands in
            match strcpy 20 devid, strcpy 20 push_key with
            | inl pid, inl key =>
                inl (Push_waiting p push_key (frame REQ_PUSH seq (to_bytes (mk_req_push pid key (zeros 64)))))
            | _, _ => inr OutOfBounds
            end
      end
  end.

(** What it says when the adapter answers that it cannot. *)
Definition push_refusal (result : Z) : list Z :=
  if result =? 200 then bytes "camera id invalid!"
  else if result =? 300 then bytes "camera offline!"
  else if result =? 400 then bytes "adapter client rtsp module error!"
  else bytes "unknow error!".

(** The rest of [NotifyPush], with the structure that [WaitforResponse] has filled, or
    after its time is over. *)
Definition NotifyPush_end (pItem : Z) (key : list Z) (resp : option (list Z)) (c : CMSClient)
  : (push_answer * CMSClient) + fault :=
  match resp with
  | None => inl (mk_answer (-1) (bytes "notify to start push time out!") [], c)
  | Some mem =>
      let result := pp_result (of_bytes mem) in
      if result =? 100 then
        match c_str (drop 264 mem), cc_nodes c !! pItem with
        | Some token, Some _ => inl (mk_answer 0 (bytes "success!") token, update_device (set_dv_push token key) pItem c)
        | _, _ => inr OutOfBounds
        end
      else inl (mk_answer (-1) (push_refusal result) [], c)
  end.

Definition NotifyStopPush_begin (seq : Z) (devid : list Z) (c : CMSClient) : push_step + fault :=
  match cc_devlist c !! devid with
  | None => inl (Push_answered (mk_answer (-1) (bytes "camera id invalid!") []))
  | Some p =>
      match cc_nodes c !! p with
      | None => inr OutOfBounds
      | Some d =>
          if negb (dv_state d =? 2) then inl (Push_answered (mk_answer (-1) (bytes "camera is  not in pushing state!") []))
          else
            match strcpy 20 devid with
            | inl pid => inl (Push_waiting p [] (frame REQ_STOP_PUSH seq (to_bytes (mk_req_stop pid (zeros 64)))))
            | inr f => inr f
            end
      end
  end.

(** What the adapter answers is not looked at. *)
Definition NotifyStopPush_end (pItem : Z) (resp : option (list Z)) (c : CMSClient) : (push_answer * CMSClient) + fault :=
  match resp with
  | None => inl (mk_answer (-3) (bytes "adapter client time out!") [], c)
  | Some _ =>
      match cc_nodes c !! pItem with
      | Some _ => inl (mk_answer 0 (bytes "success!") [], update_device (set_dv_state 1) pItem c)
      | None => inr OutOfBounds
      end
  end.

(** ** Life signs *)

(** The answer to send, and the client. *)
Definition update_livecount (now seq : Z) (c : CMSClient) : list Z * CMSClient :=
  (to_bytes (header KEEP_ALIVE_RE seq 0), set_livecount now c).

(** [it++] on an iterator that has been erased follows pointers of a freed tree node. *)
Definition ClearDevlist (c : CMSClient) : CMSClient + fault :=
  if bool_decide (cc_devlist c = ∅) then inl c else inr OutOfBounds.

(** [~CMSClient] *)
Definition CMSClient_delete (c : CMSClient) : CMSClient + fault :=
  match ClearDevlist c with
  | inl c => inl (ClearMsglist c)
  | inr f => inr f
  end.

(** [memcpy] into an array of which [buf] is the content. *)
Definition write_mem (buf : list Z) (off : Z) (l : list Z) : list Z + fault :=
  if zlen buf <? off + zlen l then inr OutOfBounds
  else inl (take (Z.to_nat off) buf ++ l ++ drop (Z.to_nat (off + zlen l)) buf).

(** Whether [CheckState] stops the stream of a camera at [strtime]. *)
Definition out_of_schedule (strtime : list Z) (d : DeviceNode) : bool :=
  if (dv_state d =? 2) && (dv_allday d =? 0) then
    let secs := dv_sections d in
    if bool_decide (sec_s0 secs = []) then false
    else if CheckInternal strtime (sec_s0 secs) (sec_e0 secs) then false
    else if negb (bool_decide (sec_s1 secs = [])) && CheckInternal strtime (sec_s1 secs) (sec_e1 secs) then false
    else true
  else false.

Definition STATE_BUF : Z := 5120.

(** The loop over the table; [iNum] pids are in the buffer. *)
Fixpoint check_devices (strtime : list Z) (ps : list (list Z)) (iNum : Z) (sendbuf : list Z) (c : CMSClient)
  : (Z * list Z * CMSClient) + fault :=
  match ps with
  | [] => inl (iNum, sendbuf, c)
  | pid :: ps' =>
      match cc_devlist c !! pid ≫= fun p => pair p <$> cc_nodes c !! p with
      | None => inr OutOfBounds
      | Some (p, d) =>
          if out_of_schedule strtime d then
            match write_mem sendbuf (80 + iNum * 20) (dv_pid d) with
            | inr f => inr f
            | inl sendbuf => check_devices strtime ps' (iNum + 1) sendbuf (update_device (set_dv_state 1) p c)
            end
          else check_devices strtime ps' iNum sendbuf c
      end
  end.

(** [false]: the client has shown no sign of life for twenty seconds; otherwise the
    message to send, if there is one. *)
Definition LIVE_LIMIT : Z := 20000.

Definition CheckState (now : Z) (strtime : list Z) (c : CMSClient) : (bool * option (list Z) * CMSClient) + fault :=
  if LIVE_LIMIT <? u64 (now - cc_livecount c) then inl (false, None, c)
  else
    match check_devices strtime (pids c) 0 (zeros STATE_BUF) c with
    | inr f => inr f
    | inl (iNum, sendbuf, c) =>
        if iNum =? 0 then inl (true, None, c)
        else
          match write_mem sendbuf 0 (to_bytes (header GROUP_STOP_PUSH 0 (20 * iNum))) with
          | inr f => inr f
          | inl sendbuf => inl (true, Some (slice sendbuf 0 (20 * iNum + 80)), c)
          end
    end.

(** [HandleUploadDevs], which nothing calls. *)
Fixpoint upload_nodes (mem : list Z) (i : Z) (addrs : list Z) (c : CMSClient) : CMSClient + fault :=
  match addrs with
  | [] => inl c
  | addr :: addrs' =>
      match read_mem mem (4 + sizeof DevNode * i) (sizeof DevNode) with
      | inr f => inr f
      | inl b =>
          match c_str b, c_str (drop 20 b) with
          | Some pid, Some token =>
              let d := mk_device pid [] token (nd_state (of_bytes b)) 1 no_sections [] in
              upload_nodes mem (i + 1) addrs'
                (set_devlist (<[pid := addr]> (cc_devlist c)) (set_nodes (<[addr := d]> (cc_nodes c)) c))
          | _, _ => inr OutOfBounds
          end
      end
  end.

Definition HandleUploadDevs (addrs : list Z) (buf : list Z) (c : CMSClient) : CMSClient + fault :=
  match ClearDevlist c with
  | inr f => inr f
  | inl c =>
      match read_mem buf 0 4 with
      | inr f => inr f
      | inl b => upload_nodes buf 0 (take (Z.to_nat (int32 b)) addrs) c
      end
  end.
