(* ===== verification/CmsClientProps.v ===== *)
(** * CmsClientProps: the cameras of an adapter

    What each operation of [CMSClient] does to the table of cameras, seen as a map from
    pids; the session of a stream; the states that the adapter reports; the schedule. *)
From stdpp Require Import gmap sorting.
From S2P Require Import Prelude Streams Messages TimeSection CmsClient.
From S2P Require Import MessagesProps.

(** ** The table

    Every entry points to a node of its own. *)
Record devices_ok (c : CMSClient) : Prop := {
  do_live : forall pid p, cc_devlist c !! pid = Some p -> is_Some (cc_nodes c !! p);
  do_inj : forall pid pid' p, cc_devlist c !! pid = Some p -> cc_devlist c !! pid' = Some p -> pid = pid';
}.

Lemma device_Some c pid d :
  device c pid = Some d <-> exists p, cc_devlist c !! pid = Some p /\ cc_nodes c !! p = Some d.
Proof.
  unfold device. destruct (cc_devlist c !! pid) as [p|]; cbn.
  - split; [by exists p|]. by intros (? & [= <-] & ?).
  - split; [done|]. by intros (? & ? & ?).
Qed.

Lemma device_is_Some c pid : devices_ok c -> is_Some (device c pid) <-> is_Some (cc_devlist c !! pid).
Proof.
  intros Hc. unfold device. destruct (cc_devlist c !! pid) as [p|] eqn:E; cbn; [|done].
  pose proof (do_live c Hc pid p E). by split; [intros; eexists|].
Qed.

(** A node is changed in place. *)
Lemma update_device_ok f p c : devices_ok c -> devices_ok (update_device f p c).
Proof.
  intros [H1 H2]. split; cbn; [|done]. intros pid q Hq. rewrite lookup_alter_is_Some. by eapply H1.
Qed.

Lemma update_device_device f p pid pid' c :
  devices_ok c -> cc_devlist c !! pid = Some p ->
  device (update_device f p c) pid' = if decide (pid' = pid) then f <$> device c pid' else device c pid'.
Proof.
  intros Hc Hp. unfold device. cbn. case_decide as Hd.
  - subst. rewrite Hp. cbn. by rewrite lookup_alter_eq.
  - destruct (cc_devlist c !! pid') as [q|] eqn:Hq; [|done]. cbn. apply lookup_alter_ne.
    intros ->. by apply Hd, (do_inj c Hc pid' pid q).
Qed.

Lemma AddCamera_node_ok addr pid name allday secs c :
  devices_ok c -> cc_nodes c !! addr = None -> devices_ok (AddCamera_node addr pid name allday secs c).
Proof.
  intros [H1 H2] Hn. assert (Hne : forall q, cc_devlist c !! q <> Some addr).
  { intros q Hq. destruct (H1 q addr Hq). congruence. }
  split; cbn.
  - intros q p [[<- <-]|[_ Hq]]%lookup_insert_Some; [by rewrite lookup_insert_eq|].
    rewrite lookup_insert_ne; [by eapply H1|]. intros ->. by apply (Hne q).
  - intros q q' p [[<- <-]|[_ Hq]]%lookup_insert_Some [[<- Hp]|[_ Hq']]%lookup_insert_Some; try done.
    + by apply Hne in Hq'.
    + subst. by apply Hne in Hq.
    + by eapply H2.
Qed.

Lemma AddCamera_node_device addr pid name allday secs c pid' :
  devices_ok c -> cc_nodes c !! addr = None ->
  device (AddCamera_node addr pid name allday secs c) pid' =
    if decide (pid' = pid) then Some (mk_device pid name [] 0 allday (if allday =? 0 then secs else no_sections) [])
    else device c pid'.
Proof.
  intros Hc Hn. unfold device. cbn. case_decide as Hd.
  - subst. rewrite lookup_insert_eq. cbn. by rewrite lookup_insert_eq.
  - rewrite lookup_insert_ne by done. destruct (cc_devlist c !! pid') as [q|] eqn:Hq; [|done]. cbn.
    rewrite lookup_insert_ne; [done|]. intros ->. destruct (do_live c Hc pid' q Hq). congruence.
Qed.

Definition DelCamera_node (pid : list Z) (p : Z) (c : CMSClient) : CMSClient :=
  set_devlist (delete pid (cc_devlist c)) (set_nodes (delete p (cc_nodes c)) c).

Lemma DelCamera_node_ok pid p c : devices_ok c -> cc_devlist c !! pid = Some p -> devices_ok (DelCamera_node pid p c).
Proof.
  intros [H1 H2] Hp. split; cbn.
  - intros q r [Hne Hq]%lookup_delete_Some. rewrite lookup_delete_ne; [by eapply H1|].
    intros ->. by apply Hne, (H2 pid q r).
  - intros q q' r [_ Hq]%lookup_delete_Some [_ Hq']%lookup_delete_Some. by eapply H2.
Qed.

Lemma DelCamera_node_device pid p c pid' :
  devices_ok c -> cc_devlist c !! pid = Some p ->
  device (DelCamera_node pid p c) pid' = if decide (pid' = pid) then None else device c pid'.
Proof.
  intros Hc Hp. unfold device. cbn. case_decide as Hd; [subst; by rewrite lookup_delete_eq|].
  rewrite lookup_delete_ne by done. destruct (cc_devlist c !! pid') as [q|] eqn:Hq; [|done]. cbn.
  rewrite lookup_delete_ne; [done|]. intros ->. by apply Hd, (do_inj c Hc pid' pid q).
Qed.

(** ** What other threads do meanwhile

    The calls on a client that can come while a thread waits for the adapter. *)
Inductive client_op :=
  | Op_AddCamera (addr seq : Z) (pid name : list Z) (allday : Z) (secs : sections) (running : bool)
  | Op_DelCamera (seq : Z) (pid : list Z)
  | Op_ModifyCamera (pid : list Z) (allday : Z) (secs : sections)
  | Op_HandleUpdateChange (buf : option (list Z))
  | Op_InsertMsg (now iType seqnum : Z) (buf : option (list Z)) (bufsize : Z)
  | Op_update_livecount (now seq : Z)
  | Op_CheckState (now : Z) (strtime : list Z)
  | Op_NotifyPush_end (pItem : Z) (key : list Z) (resp : option (list Z))
  | Op_NotifyStopPush_end (pItem : Z) (resp : option (list Z))
  | Op_purge_messages (now : Z)
  | Op_WaitforResponse_poll (cap iType seqnum : Z).

Definition client_act (o : client_op) (c : CMSClient) : CMSClient + fault :=
  match o with
  | Op_AddCamera addr seq pid name allday secs running =>
      match AddCamera addr seq pid name allday secs running c with inl (_, c) => inl c | inr f => inr f end
  | Op_DelCamera seq pid => match DelCamera seq pid c with inl (_, c) => inl c | inr f => inr f end
  | Op_ModifyCamera pid allday secs => inl (ModifyCamera pid allday secs c)
  | Op_HandleUpdateChange buf => HandleUpdateChange buf c
  | Op_InsertMsg now iType seqnum buf bufsize => InsertMsg now iType seqnum buf bufsize c
  | Op_update_livecount now seq => inl (update_livecount now seq c).2
  | Op_CheckState now strtime => match CheckState now strtime c with inl (_, c) => inl c | inr f => inr f end
  | Op_NotifyPush_end pItem key resp => match NotifyPush_end pItem key resp c with inl (_, c) => inl c | inr f => inr f end
  | Op_NotifyStopPush_end pItem resp => match NotifyStopPush_end pItem resp c with inl (_, c) => inl c | inr f => inr f end
  | Op_purge_messages now => inl (purge_messages now c)
  | Op_WaitforResponse_poll cap iType seqnum =>
      match WaitforResponse_poll cap iType seqnum c with
      | inl (Some (_, c)) => inl c
      | inl None => inl c
      | inr f => inr f
      end
  end.

(** [new] yields an address that is not in use. *)
Definition op_ok (o : client_op) (c : CMSClient) : Prop :=
  match o with
  | Op_AddCamera addr _ _ _ _ _ _ => cc_nodes c !! addr = None
  | _ => True
  end.

Inductive client_run : list client_op -> CMSClient -> CMSClient -> Prop :=
  | run_nil c : client_run [] c c
  | run_cons o os c c1 c2 : op_ok o c -> client_act o c = inl c1 -> client_run os c1 c2 -> client_run (o :: os) c c2.

(** The camera keeps its node, with the key and the pid it had. *)
Record same_nodes (P : list Z -> Prop) (c c' : CMSClient) : Prop := {
  sn_ok : devices_ok c';
  sn_fd : cc_fd c' = cc_fd c;
  sn_cmsid : cc_cmsid c' = cc_cmsid c;
  sn_ptr : forall pid, P pid -> cc_devlist c' !! pid = cc_devlist c !! pid;
}.

Lemma same_nodes_refl P c : devices_ok c -> same_nodes P c c.
Proof. by split. Qed.

Lemma same_nodes_trans P c c1 c2 : same_nodes P c c1 -> same_nodes P c1 c2 -> same_nodes P c c2.
Proof.
  intros [? ? ? H1] [? ? ? H2]. split; [done|congruence|congruence|]. intros pid Hp. by rewrite H2, H1.
Qed.

Lemma update_device_same P f p c : devices_ok c -> same_nodes P c (update_device f p c).
Proof. intros. split; [by apply update_device_ok|done|done|done]. Qed.

Lemma update_items_same P mem n : forall i c c',
  devices_ok c -> update_items mem i n c = inl c' -> same_nodes P c c'.
Proof.
  induction n as [|n IH]; intros i c c' Hc; cbn [update_items]; [intros [= <-]; by apply same_nodes_refl|].
  destruct (update_item mem i c) as [c1|] eqn:E; [|done]. intros H. unfold update_item in E.
  assert (H1 : same_nodes P c c1).
  { repeat case_match; try done; injection E as <-; [by apply update_device_same|by apply same_nodes_refl]. }
  eapply same_nodes_trans; [done|]. eapply IH; [by apply H1|done].
Qed.

Lemma check_devices_same P strtime ps : forall n buf c n' buf' c',
  devices_ok c -> check_devices strtime ps n buf c = inl (n', buf', c') -> same_nodes P c c'.
Proof.
  induction ps as [|pid ps IH]; intros n buf c n' buf' c' Hc; cbn [check_devices]; [intros [= <- <- <-]; by apply same_nodes_refl|].
  destruct (cc_devlist c !! pid ≫= _) as [[p d]|]; [|done].
  destruct (out_of_schedule strtime d); [|by apply IH].
  destruct (write_mem _ _ _); [|done]. intros H. eapply same_nodes_trans; [by apply (update_device_same P (set_dv_state 1) p)|].
  by eapply IH; [apply update_device_ok|].
Qed.

(** No call but [AddCamera] and [DelCamera] of the same pid changes an entry. *)
Definition other_pid (pid : list Z) (o : client_op) : Prop :=
  match o with
  | Op_AddCamera _ _ pid' _ _ _ _ => pid' <> pid
  | Op_DelCamera _ pid' => pid' <> pid
  | _ => True
  end.

Lemma client_act_same o c c' :
  devices_ok c -> op_ok o c -> client_act o c = inl c' -> same_nodes (fun pid => other_pid pid o) c c'.
Proof.
  intros Hc Ho. destruct o; cbn [client_act op_ok other_pid] in *.
  - unfold AddCamera. intros H. assert (c' = AddCamera_node addr pid name allday secs c) as ->.
    { repeat case_match; simplify_eq; done. }
    split; [by apply AddCamera_node_ok|done|done|]. intros pid' Hne. cbn. by rewrite lookup_insert_ne.
  - unfold DelCamera. intros H. destruct (cc_devlist c !! pid) as [p|] eqn:Hp; [|injection H as <-; by apply same_nodes_refl].
    assert (c' = DelCamera_node pid p c) as -> by (repeat case_match; simplify_eq; done).
    split; [by apply DelCamera_node_ok|done|done|]. intros pid' Hne. cbn. by rewrite lookup_delete_ne.
  - intros [= <-]. unfold ModifyCamera. case_match; [by apply update_device_same|by apply same_nodes_refl].
  - unfold HandleUpdateChange. intros. repeat case_match; try done. by eapply update_items_same.
  - unfold InsertMsg. intros. repeat case_match; simplify_eq; (split; [by destruct Hc|done|done|done]).
  - intros [= <-]. split; [by destruct Hc|done|done|done].
  - unfold CheckState. intros H. destruct (_ <? _); [injection H as <-; by apply same_nodes_refl|].
    destruct (check_devices _ _ _ _ _) as [[[n b] c1]|] eqn:E; [|done].
    assert (c' = c1) as -> by (repeat case_match; simplify_eq; done). by eapply check_devices_same.
  - unfold NotifyPush_end. intros. repeat case_match; simplify_eq; first [by apply same_nodes_refl|by apply update_device_same].
  - unfold NotifyStopPush_end. intros. repeat case_match; simplify_eq; first [by apply same_nodes_refl|by apply update_device_same].
  - intros [= <-]. split; [by destruct Hc|done|done|done].
  - unfold WaitforResponse_poll. intros. repeat case_match; simplify_eq; (split; [by destruct Hc|done|done|done]).
Qed.

Lemma client_run_same pid os c c' :
  devices_ok c -> client_run os c c' -> Forall (other_pid pid) os ->
  devices_ok c' /\ cc_devlist c' !! pid = cc_devlist c !! pid.
Proof.
  intros Hc Hr. induction Hr as [|o os c c1 c2 Ho Ha Hr IH]; intros Hos; [done|].
  apply Forall_cons in Hos as [H1 Hos]. destruct (client_act_same o c c1 Hc Ho Ha) as [H2 _ _ H3].
  destruct (IH H2 Hos) as [? ->]. split; [done|]. by apply H3.
Qed.

(** ** The session of a stream *)

Lemma NotifyPush_begin_waiting seq rands devid c p key msg :
  NotifyPush_begin seq rands devid c = inl (Push_waiting p key msg) ->
  cc_devlist c !! devid = Some p /\ key = GeneralToken rands.
Proof. unfold NotifyPush_begin. intros. repeat case_match; simplify_eq. done. Qed.

(** C36. While [NotifyPush] waits without the lock, other threads may do anything to the
    adapter but delete or add the camera again; then a good answer is recorded: the
    camera is pushing with the token of the answer, [CheckPush] accepts the key that was
    sent to the adapter and no other, and no other camera has changed. *)
Theorem push_session seq rands devid c p key msg os c' mem token :
  devices_ok c ->
  NotifyPush_begin seq rands devid c = inl (Push_waiting p key msg) ->
  client_run os c c' -> Forall (other_pid devid) os ->
  pp_result (of_bytes mem) = 100 -> c_str (drop 264 mem) = Some token ->
  exists c'', NotifyPush_end p key (Some mem) c' = inl (mk_answer 0 (bytes "success!") token, c'') /\
    (exists d, device c'' devid = Some d /\ dv_state d = 2 /\ dv_token d = token) /\
    (forall k, CheckPush devid k c'' = bool_decide (GeneralToken rands = k)) /\
    (forall pid, pid <> devid -> device c'' pid = device c' pid).
Proof.
  intros Hc Hb Hr Hos Hres Htok. destruct (NotifyPush_begin_waiting _ _ _ _ _ _ _ Hb) as [Hp ->].
  destruct (client_run_same devid os c c' Hc Hr Hos) as [Hc' Hp']. rewrite Hp in Hp'.
  unfold NotifyPush_end. rewrite Hres, Htok. cbn [Z.eqb Pos.eqb].
  destruct (do_live c' Hc' devid p Hp') as [d Hd]. rewrite Hd. eexists. split; [done|].
  assert (Hdev : device (update_device (set_dv_push token (GeneralToken rands)) p c') devid =
    Some (set_dv_push token (GeneralToken rands) d)).
  { rewrite (update_device_device _ p devid) by done. rewrite decide_True by done. unfold device. rewrite Hp'. cbn. by rewrite Hd. }
  split; [by eexists|]. split.
  - intros k. unfold CheckPush. by rewrite Hdev.
  - intros pid Hne. rewrite (update_device_device _ p devid) by done. by rewrite decide_False.
Qed.

(** ** The states that the adapter reports *)

Definition report : Type := list Z * Z.

Definition report_ok (r : report) : Prop := (0 ∉ r.1) /\ is_buf r.1 /\ zlen r.1 <= 19 /\ is_int r.2.

Definition report_bytes (r : report) : list Z := to_bytes (mk_state_item (chars 20 r.1) r.2).

Definition reports_message (rs : list report) : list Z := le32 (zlen rs) ++ concat (map report_bytes rs).

(** The last report about a camera counts. *)
Definition reported (rs : list report) (pid : list Z) (old : Z) : Z :=
  fold_left (fun st (r : report) => if decide (r.1 = pid) then r.2 else st) rs old.

Lemma reported_cons r rs pid old :
  reported (r :: rs) pid old = reported rs pid (if decide (r.1 = pid) then r.2 else old).
Proof. done. Qed.

Lemma report_fits r : report_ok r -> fits (mk_state_item (chars 20 r.1) r.2).
Proof.
  intros (H1 & H2 & H3 & H4). split; [|done]. split; cbn; [apply zlen_chars; lia|].
  apply Forall_app_2; [done|apply zeros_buf].
Qed.

Lemma zlen_report r : report_ok r -> zlen (report_bytes r) = 24.
Proof. intros Hr. exact (to_bytes_length _ (report_fits r Hr)). Qed.

(** One report, where it lies in memory. *)
Lemma update_item_report r i c pre post :
  report_ok r -> zlen pre = 4 + 24 * i -> 0 <= i -> devices_ok c ->
  exists c', update_item (pre ++ report_bytes r ++ post) i c = inl c' /\ devices_ok c' /\
    forall pid, device c' pid = (if decide (pid = r.1) then set_dv_state r.2 <$> device c pid else device c pid).
Proof.
  intros Hr Hpre Hi Hc. pose proof (zlen_report r Hr) as Hl. unfold update_item, read_mem. cbn [sizeof StateItem_wire].
  rewrite !zlen_app, Hl, Hpre. pose proof (zlen_nonneg post).
  rewrite (proj2 (Z.ltb_ge (4 + 24 * i) 0)), (proj2 (Z.ltb_ge 24 0)), (proj2 (Z.ltb_ge _ _)) by lia. cbn [orb].
  rewrite slice_there, Hpre, Z.sub_diag, slice_here by (rewrite ?Hpre, ?Hl; lia).
  pose proof (of_to_bytes _ (report_fits r Hr)) as Hof. fold (report_bytes r) in Hof. rewrite Hof. cbn [si_flag].
  assert (Hs : c_str (report_bytes r) = Some r.1).
  { unfold report_bytes. cbn [to_bytes StateItem_wire si_pid si_flag]. apply c_str_chars; [apply Hr|]. destruct Hr. lia. }
  rewrite Hs. destruct (cc_devlist c !! r.1) as [p|] eqn:Hp.
  - eexists. split; [done|]. split; [by apply update_device_ok|]. intros pid. by apply update_device_device.
  - eexists. split; [done|]. split; [done|]. intros pid. case_decide; [|done]. subst. unfold device. by rewrite Hp.
Qed.

Lemma update_items_reports rs : forall i c pre post,
  Forall report_ok rs -> zlen pre = 4 + 24 * i -> 0 <= i -> devices_ok c ->
  exists c', update_items (pre ++ concat (map report_bytes rs) ++ post) i (length rs) c = inl c' /\ devices_ok c' /\
    forall pid, device c' pid = (fun d => set_dv_state (reported rs pid (dv_state d)) d) <$> device c pid.
Proof.
  induction rs as [|r rs IH]; intros i c pre post Hrs Hpre Hi Hc; cbn [update_items length map concat].
  - eexists. split; [done|]. split; [done|]. intros pid. cbn. destruct (device c pid) as [[]|]; done.
  - apply Forall_cons in Hrs as [Hr Hrs]. rewrite <-app_assoc.
    destruct (update_item_report r i c pre (concat (map report_bytes rs) ++ post)) as (c1 & -> & Hc1 & H1); try done.
    rewrite (app_assoc pre). destruct (IH (i + 1) c1 (pre ++ report_bytes r) post) as (c2 & -> & Hc2 & H2); try done; [|lia|].
    { rewrite zlen_app, (zlen_report r Hr). lia. }
    eexists. split; [done|]. split; [done|]. intros pid. rewrite H2, H1.
    case_decide; destruct (device c pid); try done; cbn [fmap option_fmap option_map]; rewrite reported_cons;
      [by rewrite decide_True|by rewrite decide_False by congruence].
Qed.

Lemma zlen_reports rs : Forall report_ok rs -> zlen (reports_message rs) = 4 + 24 * zlen rs.
Proof.
  intros Hrs. unfold reports_message. rewrite zlen_app, zlen_le32. f_equal.
  induction Hrs as [|r rs Hr Hrs IH]; [done|]. cbn [map concat]. rewrite zlen_app, zlen_cons, IH, (zlen_report r Hr). lia.
Qed.

(** A message of at most 426 reports sets the state of each camera of the table to what
    the last report about it says, and changes nothing else. *)
Theorem update_change_applied rs c :
  devices_ok c -> Forall report_ok rs -> zlen rs <= 426 ->
  exists c', HandleUpdateChange (Some (chars MAX_MSG (reports_message rs))) c = inl c' /\ devices_ok c' /\
    forall pid, device c' pid = (fun d => set_dv_state (reported rs pid (dv_state d)) d) <$> device c pid.
Proof.
  intros Hc Hrs Hn. pose proof (zlen_reports rs Hrs) as Hl. pose proof (zlen_nonneg rs).
  unfold HandleUpdateChange, read_mem. rewrite zlen_chars by (unfold MAX_MSG; lia).
  change ((0 <? 0) || (4 <? 0) || (MAX_MSG <? 0 + 4)) with false. cbn iota.
  unfold chars, reports_message. rewrite <-!app_assoc, slice_here by done.
  rewrite int32_le32 by (unfold is_int; lia). rewrite zlen_to_nat.
  by apply (update_items_reports rs 0 c (le32 (zlen rs))).
Qed.

(** The same for any memory. *)
Lemma update_item_mem mem i c :
  zlen mem = MAX_MSG -> 0 <= i ->
  update_item mem i c =
    if 426 <=? i then inr OutOfBounds
    else
      let b := slice mem (4 + 24 * i) 24 in
      match c_str b with
      | None => inr OutOfBounds
      | Some pid =>
          match cc_devlist c !! pid with
          | Some p => inl (update_device (set_dv_state (si_flag (of_bytes b))) p c)
          | None => inl c
          end
      end.
Proof.
  intros Hm Hi. unfold update_item, read_mem. cbn [sizeof StateItem_wire]. rewrite Hm. unfold MAX_MSG.
  rewrite (proj2 (Z.ltb_ge (4 + 24 * i) 0)) by lia.
  destruct (Z.leb_spec 426 i), (Z.ltb_spec 10240 (4 + 24 * i + 24)); try lia; done.
Qed.

Lemma update_items_fault mem n : forall i c,
  zlen mem = MAX_MSG -> 0 <= i ->
  (exists f, update_items mem i n c = inr f) <->
  (0 < Z.of_nat n /\ 426 < i + Z.of_nat n) \/
  exists j, i <= j < i + Z.of_nat n /\ c_str (slice mem (4 + 24 * j) 24) = None.
Proof.
  induction n as [|n IH]; intros i c Hm Hi; cbn [update_items].
  { split; [by intros [f Hf]|]. intros [?|(j & ? & _)]; lia. }
  rewrite update_item_mem by done. destruct (Z.leb_spec 426 i) as [Hge|Hlt]; cbv zeta.
  { split; [intros _; left; lia|intros _; by eexists]. }
  destruct (c_str (slice mem (4 + 24 * i) 24)) as [pid|] eqn:Hs.
  2: { split; [intros _; right; exists i; split; [lia|done]|intros _; by eexists]. }
  assert (Hrest : forall c', (exists f, update_items mem (i + 1) n c' = inr f) <->
    (0 < Z.of_nat (S n) /\ 426 < i + Z.of_nat (S n)) \/
    exists j, i <= j < i + Z.of_nat (S n) /\ c_str (slice mem (4 + 24 * j) 24) = None).
  { intros c'. rewrite IH by (done || lia). split.
    - intros [?|(j & ? & ?)]; [left; lia|right; exists j; split; [lia|done]].
    - intros [?|(j & Hj & Hn)]; [left; lia|]. right. exists j. split; [|done].
      assert (j <> i) by congruence. lia. }
  destruct (cc_devlist c !! pid); apply Hrest.
Qed.

(** [HandleUpdateChange] leaves its buffer exactly when the message has no body, when it
    announces more than 426 reports, or when a report has no NUL behind the start of its
    pid; neither the size of the message nor the table matters. *)
Theorem update_change_fault buf c :
  (forall mem, buf = Some mem -> zlen mem = MAX_MSG) ->
  (exists f, HandleUpdateChange buf c = inr f) <->
  match buf with
  | None => True
  | Some mem =>
      let num := int32 (slice mem 0 4) in
      426 < num \/ exists i, 0 <= i < num /\ c_str (slice mem (4 + 24 * i) 24) = None
  end.
Proof.
  intros Hbuf. destruct buf as [mem|]; [|split; [done|intros _; by eexists]]. specialize (Hbuf mem eq_refl).
  unfold HandleUpdateChange, read_mem. rewrite Hbuf.
  change ((0 <? 0) || (4 <? 0) || (MAX_MSG <? 0 + 4)) with false. cbn iota zeta.
  set (num := int32 _). clearbody num. rewrite update_items_fault by done. split.
  - intros [?|(j & ? & ?)]; [left; lia|right; exists j; split; [lia|done]].
  - intros [?|(j & ? & ?)]; [left; lia|right; exists j; split; [lia|done]].
Qed.

(** ** CheckState *)

Definition device_list (c : CMSClient) (ps : list (list Z)) : list DeviceNode := omap (device c) ps.

Definition stop_if (strtime : list Z) (d : DeviceNode) : DeviceNode :=
  if out_of_schedule strtime d then set_dv_state 1 d else d.

Definition stopped (strtime : list Z) (c : CMSClient) (ps : list (list Z)) : list DeviceNode :=
  filter (fun d => out_of_schedule strtime d = true) (device_list c ps).

Definition pid_slots (ds : list DeviceNode) : list Z := concat (map (fun d => chars 20 (dv_pid d)) ds).

Lemma pids_elem c pid : pid ∈ pids c <-> is_Some (cc_devlist c !! pid).
Proof. unfold pids. rewrite merge_sort_Permutation, elem_of_elements, elem_of_dom. done. Qed.

Lemma pids_NoDup c : NoDup (pids c).
Proof. unfold pids. rewrite merge_sort_Permutation. apply NoDup_elements. Qed.

Lemma zeros_split n m : 0 <= n -> 0 <= m -> zeros (n + m) = zeros n ++ zeros m.
Proof. intros. unfold zeros. by rewrite Z2Nat.inj_add, replicate_add. Qed.

(** Writing a pid behind what is in the buffer. *)
Lemma write_mem_slot pre m l :
  zlen l <= 20 -> 20 <= m ->
  write_mem (pre ++ zeros m) (zlen pre) l = inl ((pre ++ chars 20 l) ++ zeros (m - 20)).
Proof.
  intros Hl Hm. pose proof (zlen_nonneg l). unfold write_mem. rewrite zlen_app, zlen_zeros by lia.
  rewrite (proj2 (Z.ltb_ge _ _)) by lia. f_equal. rewrite zlen_to_nat, take_app_length, <-app_assoc. f_equal.
  unfold chars. rewrite <-app_assoc, <-zeros_split by lia. f_equal.
  assert (Hd : Z.to_nat (zlen pre + zlen l) = (length pre + length l)%nat) by (unfold zlen; lia).
  rewrite Hd, <-drop_drop, drop_app_length. unfold zeros. rewrite drop_replicate. f_equal. unfold zlen in *. lia.
Qed.

Lemma device_list_ext c c' ps : Forall (fun pid => device c' pid = device c pid) ps -> device_list c' ps = device_list c ps.
Proof. unfold device_list. induction 1 as [|pid ps H _ IH]; [done|]. cbn. by rewrite H, IH. Qed.

Lemma decide_elem_cons {B} (q x : list Z) l (y z : B) :
  q <> x -> (if decide (q ∈ x :: l) then y else z) = if decide (q ∈ l) then y else z.
Proof. intros. destruct (decide (q ∈ l)); [apply decide_True; by right|apply decide_False; by intros [?|?]%elem_of_cons]. Qed.

Lemma check_devices_spec strtime ps : forall n pre m c,
  devices_ok c -> NoDup ps -> Forall (fun pid => is_Some (cc_devlist c !! pid)) ps ->
  Forall (fun d => zlen (dv_pid d) <= 20) (device_list c ps) ->
  zlen pre = 80 + n * 20 -> 20 * zlen (stopped strtime c ps) <= m ->
  exists c', check_devices strtime ps n (pre ++ zeros m) c =
      inl (n + zlen (stopped strtime c ps), (pre ++ pid_slots (stopped strtime c ps)) ++ zeros (m - 20 * zlen (stopped strtime c ps)), c') /\
    forall pid, device c' pid = (if decide (pid ∈ ps) then stop_if strtime <$> device c pid else device c pid).
Proof.
  induction ps as [|pid ps IH]; intros n pre m c Hc Hnd Hin Hlen Hpre Hm; cbn [check_devices].
  { exists c. split; [|done]. cbn. by rewrite app_nil_r, Z.add_0_r, Z.sub_0_r. }
  apply NoDup_cons in Hnd as [Hni Hnd]. apply Forall_cons in Hin as [[p Hp] Hin].
  destruct (do_live c Hc pid p Hp) as [d Hd].
  assert (Hdev : device c pid = Some d) by (apply device_Some; by exists p).
  unfold stopped, device_list in Hlen, Hm |- *. cbn [omap list_omap] in Hlen, Hm |- *. rewrite Hdev in Hlen, Hm |- *.
  fold (device_list c ps) in Hlen, Hm |- *. apply Forall_cons in Hlen as [Hl Hlen]. cbn beta in Hl.
  rewrite filter_cons in Hm |- *. rewrite Hp. cbn [mbind option_bind]. rewrite Hd. cbn [fmap option_fmap option_map].
  destruct (out_of_schedule strtime d) eqn:Ho.
  - rewrite decide_True in Hm |- * by done. rewrite zlen_cons in Hm |- *.
    pose proof (zlen_nonneg (filter (fun d => out_of_schedule strtime d = true) (device_list c ps))).
    rewrite <-Hpre, write_mem_slot by lia.
    set (c1 := update_device (set_dv_state 1) p c).
    assert (H1 : forall q, device c1 q = if decide (q = pid) then set_dv_state 1 <$> device c q else device c q).
    { intros q. by apply update_device_device. }
    assert (Hext : device_list c1 ps = device_list c ps).
    { apply device_list_ext, Forall_forall. intros q Hq. rewrite H1, decide_False; [done|congruence]. }
    destruct (IH (n + 1) (pre ++ chars 20 (dv_pid d)) (m - 20) c1) as (c2 & E2 & H2); try done.
    + by apply update_device_ok.
    + by rewrite Hext.
    + rewrite zlen_app, zlen_chars, Hpre by done. lia.
    + unfold stopped. rewrite Hext. lia.
    + unfold stopped in E2. rewrite Hext in E2. exists c2. rewrite E2. split.
      * unfold pid_slots. cbn [map concat]. rewrite <-!app_assoc. set (k := zlen _). clearbody k.
        replace (n + 1 + k) with (n + (1 + k)) by lia. by replace (m - 20 - 20 * k) with (m - 20 * (1 + k)) by lia.
      * intros q. rewrite H2, H1. destruct (decide (q = pid)) as [->|Hne].
        -- rewrite decide_False, decide_True by (done || left). rewrite Hdev. cbn. unfold stop_if. by rewrite Ho.
        -- by rewrite decide_elem_cons.
  - rewrite decide_False in Hm |- * by congruence.
    destruct (IH n pre m c) as (c2 & E2 & H2); try done. exists c2. split; [done|].
    intros q. rewrite H2. destruct (decide (q = pid)) as [->|Hne].
    + rewrite decide_False, decide_True by (done || left). rewrite Hdev. cbn. unfold stop_if. by rewrite Ho.
    + by rewrite decide_elem_cons.
Qed.

Lemma zlen_pid_slots ds : Forall (fun d => zlen (dv_pid d) <= 20) ds -> zlen (pid_slots ds) = 20 * zlen ds.
Proof.
  induction 1 as [|d ds Hd _ IH]; [done|]. unfold pid_slots in *. cbn [map concat].
  rewrite zlen_app, zlen_chars, IH, zlen_cons by done. lia.
Qed.

(** The header is put in front of the pids. *)
Lemma stop_message_bytes k body m :
  zlen body = 20 * k -> 0 <= k <= 252 ->
  exists buf, write_mem ((zeros 80 ++ body) ++ zeros m) 0 (to_bytes (header GROUP_STOP_PUSH 0 (20 * k))) = inl buf /\
    slice buf 0 (20 * k + 80) = frame GROUP_STOP_PUSH 0 body.
Proof.
  intros Hb Hk. assert (Hf : zlen (to_bytes (header GROUP_STOP_PUSH 0 (20 * k))) = 80).
  { refine (to_bytes_length _ _). apply header_fits; unfold is_int; [done|done|lia]. }
  unfold write_mem. rewrite Hf, !zlen_app, zlen_zeros by done. pose proof (zlen_nonneg (zeros m)).
  rewrite (proj2 (Z.ltb_ge _ _)) by lia. eexists. split; [done|]. change (Z.to_nat 0) with 0%nat.
  rewrite take_0, app_nil_l, <-app_assoc, drop_app_length'; [|done]. unfold frame. rewrite app_assoc, Hb. apply slice_here.
  rewrite zlen_app, Hf. lia.
Qed.

(** [CheckState] of an adapter that is alive, at a time of day: exactly the cameras that are
    pushing outside their schedule are set back and listed in one message to the adapter,
    in the order of their pids; as long as no more than 252 of them, with pids of at most
    20 bytes, are in the table. *)
Theorem check_state_stops now strtime c :
  devices_ok c -> u64 (now - cc_livecount c) <= LIVE_LIMIT ->
  zlen (stopped strtime c (pids c)) <= 252 -> Forall (fun d => zlen (dv_pid d) <= 20) (device_list c (pids c)) ->
  exists c', CheckState now strtime c =
      inl (true,
           if decide (stopped strtime c (pids c) = []) then None
           else Some (frame GROUP_STOP_PUSH 0 (pid_slots (stopped strtime c (pids c)))), c') /\
    forall pid, device c' pid = stop_if strtime <$> device c pid.
Proof.
  intros Hc Hlive Hn Hlen. unfold CheckState. rewrite (proj2 (Z.ltb_ge _ _)) by done.
  change STATE_BUF with (80 + 5040). rewrite zeros_split by done.
  destruct (check_devices_spec strtime (pids c) 0 (zeros 80) 5040 c) as (c' & -> & Hdev); try done.
  - apply pids_NoDup.
  - apply Forall_forall. intros pid. by rewrite pids_elem.
  - lia.
  - rewrite Z.add_0_l. set (ds := stopped strtime c (pids c)) in *.
    assert (Heff : forall pid, device c' pid = stop_if strtime <$> device c pid).
    { intros pid. rewrite Hdev. case_decide as Hd; [done|]. rewrite pids_elem, <-device_is_Some in Hd by done.
      by destruct (device c pid); [exfalso; apply Hd; eexists|]. }
    assert (Hds : Forall (fun d => zlen (dv_pid d) <= 20) ds).
    { apply Forall_forall. intros d [_ Hd]%list_elem_of_filter. by eapply Forall_forall in Hlen. }
    case_decide as He; [rewrite He; by exists c'|].
    assert (0 < zlen ds) by (destruct ds; [done|rewrite zlen_cons; pose proof (zlen_nonneg ds); lia]).
    rewrite (proj2 (Z.eqb_neq _ _)) by lia.
    destruct (stop_message_bytes (zlen ds) (pid_slots ds) (5040 - 20 * zlen ds)) as (buf & -> & Hs).
    + by apply zlen_pid_slots.
    + lia.
    + rewrite Hs. by exists c'.
Qed.

(** C37. The schedule of a camera whose sections [ParseTimeSection] has accepted: [CheckState]
    lets it push at a time of day that lies in one of the two sections, ends included,
    and at no other. *)
Theorem schedule_exact a b c d t secs dev :
  time_ok a -> time_ok b -> time_ok c -> time_ok d -> time_ok t ->
  ParseTimeSection (section_text a b) (section_text c d) no_sections = inl (2, secs) ->
  dv_state dev = 2 -> dv_allday dev = 0 -> dv_sections dev = secs ->
  out_of_schedule (GetCurrentTime t) dev = true <->
  ~ (mktime a <= mktime t <= mktime b) /\ ~ (mktime c <= mktime t <= mktime d).
Proof.
  intros Ha Hb Hc Hd Ht Hp Hs Hall Hsec. rewrite ParseTimeSection_text in Hp by done.
  assert (Hsecs : secs = mk_sections (GetCurrentTime a) (GetCurrentTime b) (GetCurrentTime c) (GetCurrentTime d)).
  { destruct (mktime a <=? mktime b), (mktime c <=? mktime d), (mktime b <=? mktime c); congruence. }
  unfold out_of_schedule. rewrite Hs, Hall, Hsec, Hsecs. cbn [Z.eqb Pos.eqb andb sec_s0 sec_e0 sec_s1 sec_e1].
  rewrite !bool_decide_eq_false_2 by done. rewrite !CheckInternal_time by done. cbn [negb andb].
  destruct (Z.leb_spec (mktime a) (mktime t)), (Z.leb_spec (mktime t) (mktime b)),
    (Z.leb_spec (mktime c) (mktime t)), (Z.leb_spec (mktime t) (mktime d)); cbn; split; intros; try done; lia.
Qed.

(** ** A concrete adapter

    Two cameras; the first may be watched from 8 to 12 and from 14 to 18 o'clock. *)
Definition oclock (h : Z) : tm := mk_tm h 0 0.

Definition sample_sections : sections :=
  mk_sections (GetCurrentTime (oclock 8)) (GetCurrentTime (oclock 12)) (GetCurrentTime (oclock 14)) (GetCurrentTime (oclock 18)).

Definition sample_client : CMSClient :=
  AddCamera_node 200 (bytes "cam2") (bytes "gate") 1 no_sections
    (AddCamera_node 100 (bytes "cam1") (bytes "door") 0 sample_sections (CMSClient_new 7 1000)).

Lemma sample_client_ok : devices_ok sample_client.
Proof.
  apply AddCamera_node_ok; [|done]. apply AddCamera_node_ok; [|done].
  split; cbn; [intros ? ?|intros ? ? ?]; by rewrite lookup_empty.
Qed.

Definition sample_key : list Z := bytes "0123456789".
Definition sample_rands : list Z := [0; 1; 2; 3; 4; 5; 6; 7; 8; 9].

Definition sample_ops : list client_op :=
  [Op_update_livecount 2000 0; Op_DelCamera 5 (bytes "cam2"); Op_ModifyCamera (bytes "cam1") 1 no_sections].

Definition run_ops (os : list client_op) (c : CMSClient) : CMSClient :=
  fold_left (fun c o => match client_act o c with inl c => c | inr _ => c end) os c.

Definition sample_resp : list Z :=
  to_bytes (mk_resp_push 100 (chars 260 (bytes "rtmp://a/b")) (chars 20 (bytes "tok")) (zeros 64)).

Lemma push_session_witness :
  let c' := run_ops sample_ops sample_client in
  exists c'', NotifyPush_end 100 sample_key (Some sample_resp) c' = inl (mk_answer 0 (bytes "success!") (bytes "tok"), c'') /\
    (exists d, device c'' (bytes "cam1") = Some d /\ dv_state d = 2 /\ dv_token d = bytes "tok") /\
    (forall k, CheckPush (bytes "cam1") k c'' = bool_decide (GeneralToken sample_rands = k)) /\
    (forall pid, pid <> bytes "cam1" -> device c'' pid = device c' pid).
Proof.
  cbv zeta. eapply (push_session 42 sample_rands (bytes "cam1") sample_client 100 sample_key _ sample_ops).
  - exact sample_client_ok.
  - vm_compute. reflexivity.
  - unfold sample_ops. do 3 (eapply run_cons; [exact I|reflexivity|]). apply run_nil.
  - repeat constructor. vm_compute. discriminate.
  - vm_compute. reflexivity.
  - vm_compute. reflexivity.
Defined.

(** The camera is deleted while its stream is being started: the node is gone. *)
Example push_after_delete :
  NotifyPush_end 100 sample_key (Some sample_resp) (run_ops [Op_DelCamera 5 (bytes "cam1")] sample_client) = inr OutOfBounds.
Proof. vm_compute. reflexivity. Qed.

(** Before its first stream a camera accepts the empty key. *)
Example empty_key_accepted : CheckPush (bytes "cam1") [] sample_client = true.
Proof. vm_compute. reflexivity. Qed.

(** The client of an adapter with cameras cannot be deleted. *)
Example delete_with_cameras : CMSClient_delete sample_client = inr OutOfBounds.
Proof. vm_compute. reflexivity. Qed.

Definition sample_reports : list report := [(bytes "cam1", 1); (bytes "cam9", 1); (bytes "cam1", 2)].

Lemma sample_reports_ok : Forall report_ok sample_reports.
Proof.
  repeat constructor; cbn; try lia; try done;
    (intros H; repeat (apply elem_of_cons in H as [H|H]; [done|]); by apply not_elem_of_nil in H).
Qed.

Lemma update_change_applied_witness :
  exists c', HandleUpdateChange (Some (chars MAX_MSG (reports_message sample_reports))) sample_client = inl c' /\ devices_ok c' /\
    forall pid, device c' pid = (fun d => set_dv_state (reported sample_reports pid (dv_state d)) d) <$> device sample_client pid.
Proof.
  apply (update_change_applied sample_reports sample_client).
  - exact sample_client_ok.
  - exact sample_reports_ok.
  - vm_compute. discriminate.
Defined.

Lemma update_change_fault_witness : exists f, HandleUpdateChange (Some (chars MAX_MSG (le32 427))) sample_client = inr f.
Proof.
  apply (update_change_fault (Some (chars MAX_MSG (le32 427))) sample_client).
  - intros mem [= <-]. vm_compute. reflexivity.
  - left. vm_compute. reflexivity.
Defined.

(** The first camera is being watched at 13 o'clock. *)
Definition watched_client : CMSClient := update_device (set_dv_push (bytes "tok") sample_key) 100 sample_client.

Lemma check_state_stops_witness :
  exists c', CheckState 1500 (GetCurrentTime (oclock 13)) watched_client =
      inl (true, Some (frame GROUP_STOP_PUSH 0 (chars 20 (bytes "cam1"))), c') /\
    forall pid, device c' pid = stop_if (GetCurrentTime (oclock 13)) <$> device watched_client pid.
Proof.
  apply (check_state_stops 1500 (GetCurrentTime (oclock 13)) watched_client).
  - apply update_device_ok, sample_client_ok.
  - vm_compute. discriminate.
  - vm_compute. discriminate.
  - apply (bool_decide_eq_true _). vm_compute. reflexivity.
Defined.

Lemma schedule_exact_witness :
  let dev := mk_device (bytes "cam1") [] [] 2 0 sample_sections [] in
  out_of_schedule (GetCurrentTime (oclock 13)) dev = true <->
  ~ (mktime (oclock 8) <= mktime (oclock 13) <= mktime (oclock 12)) /\
  ~ (mktime (oclock 14) <= mktime (oclock 13) <= mktime (oclock 18)).
Proof.
  cbv zeta. apply (schedule_exact (oclock 8) (oclock 12) (oclock 14) (oclock 18) (oclock 13) sample_sections); try decide_now; reflexivity.
Defined.
