(* ===== verification/Adapter.v ===== *)
(** * Adapter: the server of the adapters

    [TcpServer] of [atb_adapter/server_tcpsrv.cpp] with the reading task, and
    [AdapterServer] of [atb_adapter/AdapterServer.cpp], the interface to the web side.
    A handler that gives up the lock between finding a client and using it is written
    as the composition of its two halves.  Inputs: what the network, the database, the
    clock, [new] and [rand] yield; whether [ETSend] got rid of the whole message. *)
From stdpp Require Import gmap.
From S2P Require Import Prelude Streams Messages TimeSection CmsClient.

(** ** State

    [ts_heap] holds the clients by address, [ts_clientlist] the addresses in the list.
    [ts_open] and [ts_epoll] belong to the kernel: the descriptors of connections and
    the interest list, with whether the entry is [EPOLLONESHOT]. *)
Record TcpServer := mk_server {
  ts_heap : gmap Z CMSClient;
  ts_clientlist : list Z;
  ts_open : gset Z;
  ts_epoll : gmap Z bool;
  ts_exit : bool;
}.

Definition set_heap (v : gmap Z CMSClient) (s : TcpServer) := mk_server v (ts_clientlist s) (ts_open s) (ts_epoll s) (ts_exit s).
Definition set_clientlist (v : list Z) (s : TcpServer) := mk_server (ts_heap s) v (ts_open s) (ts_epoll s) (ts_exit s).
Definition set_exit (v : bool) (s : TcpServer) := mk_server (ts_heap s) (ts_clientlist s) (ts_open s) (ts_epoll s) v.

Definition TcpServer_new : TcpServer := mk_server ∅ [] ∅ ∅ true.

(** [epoll_ctl(EPOLL_CTL_DEL)] and [close] *)
Definition drop_fd (fd : Z) (s : TcpServer) : TcpServer :=
  mk_server (ts_heap s) (ts_clientlist s) (ts_open s ∖ {[fd]}) (delete fd (ts_epoll s)) (ts_exit s).

(** [accept] and [EPOLL_CTL_ADD] *)
Definition accept_fd (fd : Z) (s : TcpServer) : TcpServer :=
  mk_server (ts_heap s) (ts_clientlist s) (ts_open s ∪ {[fd]}) (<[fd := false]> (ts_epoll s)) (ts_exit s).

Definition ResetOneshot (fd : Z) (s : TcpServer) : TcpServer :=
  mk_server (ts_heap s) (ts_clientlist s) (ts_open s)
    (match ts_epoll s !! fd with Some _ => <[fd := true]> (ts_epoll s) | None => ts_epoll s end) (ts_exit s).

(** ** The list of clients

    The loop that looks for a client; a pointer in the list to a deleted client is
    followed. *)
Fixpoint find_client (f : CMSClient -> bool) (h : gmap Z CMSClient) (l : list Z) : option Z + fault :=
  match l with
  | [] => inl None
  | p :: l' =>
      match h !! p with
      | None => inr OutOfBounds
      | Some c => if f c then inl (Some p) else find_client f h l'
      end
  end.

Definition by_fd (fd : Z) (c : CMSClient) : bool := cc_fd c =? fd.
Definition by_cmsid (cmsid : list Z) (c : CMSClient) : bool := bool_decide (cc_cmsid c = cmsid).

Definition GetClient (cmsid : list Z) (s : TcpServer) : option Z + fault :=
  find_client (by_cmsid cmsid) (ts_heap s) (ts_clientlist s).

Definition AddClient (addr now fd : Z) (cmsid : list Z) (s : TcpServer) : TcpServer :=
  set_clientlist (ts_clientlist s ++ [addr]) (set_heap (<[addr := set_cmsid cmsid (CMSClient_new fd now)]> (ts_heap s)) s).

(** [delete pClient] and [erase] *)
Definition remove_client (p : Z) (s : TcpServer) : TcpServer + fault :=
  match ts_heap s !! p with
  | None => inr OutOfBounds
  | Some c =>
      match CMSClient_delete c with
      | inr f => inr f
      | inl _ => inl (set_clientlist (erase p (ts_clientlist s)) (set_heap (delete p (ts_heap s)) s))
      end
  end.

(** [DelClient(int fd)]: the descriptor is closed whether or not there is a client. *)
Definition DelClient_fd (fd : Z) (s : TcpServer) : TcpServer + fault :=
  match find_client (by_fd fd) (ts_heap s) (ts_clientlist s) with
  | inr f => inr f
  | inl None => inl (drop_fd fd s)
  | inl (Some p) =>
      match remove_client p s with
      | inr f => inr f
      | inl s => inl (drop_fd fd s)
      end
  end.

(** [DelClient(std::string cmsid)] *)
Definition DelClient_cmsid (cmsid : list Z) (s : TcpServer) : TcpServer + fault :=
  match GetClient cmsid s with
  | inr f => inr f
  | inl None => inl s
  | inl (Some p) =>
      match ts_heap s !! p, remove_client p s with
      | Some c, inl s => if cc_fd c =? -1 then inl s else inl (drop_fd (cc_fd c) s)
      | _, inr f => inr f
      | None, _ => inr OutOfBounds
      end
  end.

(** A method of the client at an address. *)
Definition with_client {A} (p : Z) (f : CMSClient -> (A * CMSClient) + fault) (s : TcpServer) : (A * TcpServer) + fault :=
  match ts_heap s !! p with
  | None => inr OutOfBounds
  | Some c =>
      match f c with
      | inr e => inr e
      | inl (a, c) => inl (a, set_heap (<[p := c]> (ts_heap s)) s)
      end
  end.

(** The end of a method that has sent something: [DelClient(fd_)] if it failed. *)
Definition after_send (sent : bool) (p : Z) (s : TcpServer) : TcpServer + fault :=
  if sent then inl s
  else
    match ts_heap s !! p with
    | None => inr OutOfBounds
    | Some c => DelClient_fd (cc_fd c) s
    end.

(** ** Logging in *)

Record TBDeviceEx := mk_tb_device {
  tb_pid : list Z;
  tb_name : list Z;
  tb_allday : Z;
  tb_sections : sections;
}.

(** What [check_login] and [get_group_info_ex] of the database helper answer. *)
Record login_answer := mk_login {
  la_ret : Z;
  la_kid : list Z;
  la_devices : option (list TBDeviceEx);   (* None: a negative count *)
}.

(** The cameras of the database are added and their pids put into the answer. *)
Fixpoint login_cameras (i : Z) (ds : list TBDeviceEx) (addrs : list Z) (sendbuf : list Z) (c : CMSClient)
  : (list Z * CMSClient) + fault :=
  match ds, addrs with
  | [], _ => inl (sendbuf, c)
  | d :: ds', a :: addrs' =>
      match write_mem sendbuf (80 + 72 + i * 20) (tb_pid d) with
      | inr f => inr f
      | inl sendbuf =>
          login_cameras (i + 1) ds' addrs' sendbuf
            (AddCamera_node a (tb_pid d) (tb_name d) (tb_allday d) (tb_sections d) c)
      end
  | _ :: _, [] => inr OutOfFuel   (* an address for each camera is an input *)
  end.

Record login_inputs := mk_login_inputs {
  li_db : login_answer;
  li_addr : Z;            (* of the new client *)
  li_addrs : list Z;      (* of its cameras *)
  li_now : Z;
}.

(** The [do ... while(0)] of [HandleLoginEx] behind the test of [GetClient]: result code,
    number of cameras, buffer. *)
Definition login_client (i : login_inputs) (fd : Z) (cmsid : list Z) (s : TcpServer)
  : (Z * Z * list Z * TcpServer) + fault :=
  let ret := la_ret (li_db i) in
  if negb (ret =? 0) then inl (ret, 0, zeros MAX_MSG, s)
  else
    match la_devices (li_db i) with
    | None => inl (0, 0, zeros MAX_MSG, s)
    | Some ds =>
        let s := AddClient (li_addr i) (li_now i) fd cmsid s in
        match with_client (li_addr i) (login_cameras 0 ds (li_addrs i) (zeros MAX_MSG)) s with
        | inr f => inr f
        | inl (sendbuf, s) => inl (0, zlen ds, sendbuf, s)
        end
    end.

(** Its end: the answer. *)
Definition login_reply (kid : list Z) (seq ret iCount : Z) (sendbuf : list Z) : list Z + fault :=
  match (if ret =? 0 then strcpy 64 kid else inl (zeros 64)) with
  | inr f => inr f
  | inl resv =>
      let head := to_bytes (header RESP_LOGIN seq (sizeof RespLogin + iCount * 20)) in
      match write_mem sendbuf 0 head with
      | inr f => inr f
      | inl sendbuf =>
          match write_mem sendbuf 80 (to_bytes (mk_resp_login ret iCount resv)) with
          | inr f => inr f
          | inl sendbuf => inl (slice sendbuf 0 (80 + 72 + iCount * 20))
          end
      end
  end.

(** The two strings of the request; a field without NUL runs on into the next. *)
Definition login_request (buf : list Z) : (list Z * list Z) + fault :=
  let req := slice buf 0 (sizeof ReqLogin) in
  match c_str req, c_str (drop 20 req) with
  | Some cmsid, Some password => inl (cmsid, password)
  | _, _ => inr OutOfBounds
  end.

(** [HandleLoginEx] with the answer of [GetClient] already known; it yields the message
    that was handed to [ETSend]. *)
Definition HandleLoginEx_rest (i : login_inputs) (known : bool) (cmsid : list Z) (fd seq : Z) (sent : bool) (s : TcpServer)
  : (list Z * TcpServer) + fault :=
  match (if known then inl (4, 0, zeros MAX_MSG, s) else login_client i fd cmsid s) with
  | inr f => inr f
  | inl (ret, iCount, sendbuf, s) =>
      match login_reply (la_kid (li_db i)) seq ret iCount sendbuf with
      | inr f => inr f
      | inl msg =>
          if sent then inl (msg, s)
          else
            match DelClient_fd fd s with
            | inl s => inl (msg, s)
            | inr f => inr f
            end
      end
  end.

Definition HandleLoginEx (i : login_inputs) (fd : Z) (buf : list Z) (seq : Z) (sent : bool) (s : TcpServer)
  : (list Z * TcpServer) + fault :=
  match login_request buf with
  | inr f => inr f
  | inl (cmsid, _) =>
      match GetClient cmsid s with
      | inr f => inr f
      | inl found => HandleLoginEx_rest i (bool_decide (is_Some found)) cmsid fd seq sent s
      end
  end.

(** ** HandlerRead *)

Definition client_of_fd (fd : Z) (s : TcpServer) : option Z + fault :=
  find_client (by_fd fd) (ts_heap s) (ts_clientlist s).

(** The second half, with the client that was found. *)
Definition HandlerRead_client (now : Z) (p : Z) (cmd seq : Z) (buf : option (list Z)) (size : Z) (sent : bool) (s : TcpServer)
  : (list Z * TcpServer) + fault :=
  if cmd =? KEEP_ALIVE then
    match with_client p (fun c => inl (update_livecount now seq c)) s with
    | inr f => inr f
    | inl (msg, s) =>
        match after_send sent p s with
        | inr f => inr f
        | inl s => inl (msg, s)
        end
    end
  else if cmd =? UPDATE_CHANGE then
    with_client p (fun c => match HandleUpdateChange buf c with inl c => inl ([], c) | inr f => inr f end) s
  else
    with_client p (fun c => match InsertMsg now cmd seq buf size c with inl c => inl ([], c) | inr f => inr f end) s.

(** Without a client only a login is accepted. *)
Definition HandlerRead_unknown (i : login_inputs) (fd cmd seq : Z) (buf : option (list Z)) (size : Z) (sent : bool) (s : TcpServer)
  : (list Z * TcpServer) + fault :=
  match buf with
  | Some mem =>
      if negb (cmd =? REQ_LOGIN) || negb (size =? sizeof ReqLogin) then inl ([], drop_fd fd s)
      else HandleLoginEx i fd mem seq sent s
  | None => inl ([], drop_fd fd s)
  end.

Definition HandlerRead (i : login_inputs) (fd cmd seq : Z) (buf : option (list Z)) (size : Z) (sent : bool) (s : TcpServer)
  : (list Z * TcpServer) + fault :=
  match client_of_fd fd s with
  | inr f => inr f
  | inl None => HandlerRead_unknown i fd cmd seq buf size sent s
  | inl (Some p) => HandlerRead_client (li_now i) p cmd seq buf size sent s
  end.

(** [TaskTcpReadMsg::run] on what has arrived. *)
Definition task_run (i : login_inputs) (fd : Z) (c : conn) (sent : bool) (s : TcpServer) : (list Z * TcpServer) + fault :=
  match read_task c with
  | inr f => inr f
  | inl (Task_del, _) =>
      match DelClient_fd fd s with
      | inl s => inl ([], s)
      | inr f => inr f
      end
  | inl (Task_read cmd seq buf size, _) => HandlerRead i fd cmd seq buf size sent (ResetOneshot fd s)
  end.

(** ** The loop of Run

    The pass over the clients: [sent] says for each whether its message went out;
    a client that fails is deleted. *)
Fixpoint check_clients (now : Z) (strtime : list Z) (l : list (Z * bool)) (s : TcpServer) : TcpServer + fault :=
  match l with
  | [] => inl s
  | (p, sent) :: l' =>
      match with_client p (CheckState now strtime) s with
      | inr f => inr f
      | inl (alive, msg, s) =>
          if alive && (sent || bool_decide (msg = None)) then check_clients now strtime l' s
          else
            match ts_heap s !! p, remove_client p s with
            | Some c, inl s => check_clients now strtime l' (drop_fd (cc_fd c) s)
            | _, inr f => inr f
            | None, _ => inr OutOfBounds
            end
      end
  end.

Definition heartbeat (now : Z) (strtime : list Z) (sents : list bool) (s : TcpServer) : TcpServer + fault :=
  check_clients now strtime (zip_with pair (ts_clientlist s) sents) s.

(** [Stop] *)
Definition Stop (now : Z) (strtime : list Z) (sents : list bool) (s : TcpServer) : TcpServer + fault :=
  heartbeat now strtime sents (set_exit true s).

(** ** AdapterServer

    What the web side gets: nothing; the text [INVALID]; an object with a code
    and a description, whose text the JSON library makes. *)
Inductive web_reply :=
  | Web_empty
  | Web_invalid
  | Web_json (code : Z) (result : list Z).

Definition quoted (l : list Z) : list Z := 34 :: l ++ [34].

Definition INVALID : list Z :=
  bytes "{" ++ quoted (bytes "code") ++ bytes ":200," ++ quoted (bytes "result") ++ bytes ":" ++
  quoted (bytes "invalid parameter!") ++ bytes "}".

Definition web_result (ret : Z) (desc : list Z) : web_reply := Web_json (if ret =? 0 then 100 else 200) desc.

Definition empty (l : list Z) : bool := bool_decide (l = []).

(** A method of the client with a cmsid, if it is there. *)
Definition for_client {A} (cmsid : list Z) (none : A) (f : Z -> TcpServer -> (A * TcpServer) + fault) (s : TcpServer)
  : (A * TcpServer) + fault :=
  match GetClient cmsid s with
  | inr e => inr e
  | inl None => inl (none, s)
  | inl (Some p) => f p s
  end.

Definition CheckStatus (cmsid devid : list Z) (s : TcpServer) : (Z * TcpServer) + fault :=
  for_client cmsid 100 (fun p =>
    with_client p (fun c =>
      match GetState devid c with
      | inl st => inl (if st =? 0 then 101 else if st =? 1 then 102 else 200, c)
      | inr f => inr f
      end)) s.

Definition AS_GetDeviceList (cmsid : list Z) (s : TcpServer) : (option (list (list Z * list Z * Z)) * TcpServer) + fault :=
  for_client cmsid None (fun p => with_client p (fun c => inl (Some (GetDeviceList c), c))) s.

Definition start_push_desc (ret : Z) : list Z :=
  if ret =? 1 then bytes "database err!"
  else if ret =? 2 then bytes "device not exist!"
  else if ret =? 3 then bytes "camera is not valid at this time!"
  else bytes "error known!".

(** [db_ret] is what [check_start_push] answers.  The address of the client is yielded
    with what it waits for. *)
Definition AS_NotifyStartPush (db_ret seq : Z) (rands cmsid deviceid : list Z) (s : TcpServer)
  : ((Z * push_step) * TcpServer) + fault :=
  let fail text := (0, Push_answered (mk_answer (-1) text [])) in
  if empty cmsid || empty deviceid then inl (fail INVALID, s)
  else if negb (db_ret =? 0) then inl (fail (start_push_desc db_ret), s)
  else
    for_client cmsid (fail (bytes "start push fail, adapter client offline!")) (fun p =>
      with_client p (fun c =>
        match NotifyPush_begin seq rands deviceid c with
        | inl st => inl ((p, st), c)
        | inr f => inr f
        end)) s.

Definition AS_NotifyStopPush (seq : Z) (cmsid deviceid : list Z) (s : TcpServer) : ((Z * push_step) * TcpServer) + fault :=
  let fail text := (0, Push_answered (mk_answer (-1) text [])) in
  if empty cmsid || empty deviceid then inl (fail INVALID, s)
  else
    for_client cmsid (fail []) (fun p =>
      with_client p (fun c =>
        match NotifyStopPush_begin seq deviceid c with
        | inl st => inl ((p, st), c)
        | inr f => inr f
        end)) s.

(** The sections of a camera as the web side writes them; the result code of
    [ParseTimeSection] is not looked at. *)
Definition camera_sections (allday : Z) (sec0 sec1 : list Z) : sections + fault :=
  if allday =? 0 then
    match ParseTimeSection sec0 sec1 no_sections with
    | inl (_, secs) => inl secs
    | inr f => inr f
    end
  else inl no_sections.

(** The part of [AddCamera] and [DelCamera] that tells the adapter. *)
Definition notify_client (sent : bool) (p : Z) (f : CMSClient -> (option (list Z) * CMSClient) + fault) (s : TcpServer)
  : (unit * TcpServer) + fault :=
  match with_client p f s with
  | inr e => inr e
  | inl (msg, s) =>
      match after_send (sent || bool_decide (msg = None)) p s with
      | inl s => inl (tt, s)
      | inr e => inr e
      end
  end.

Definition add_to_client (addr seq : Z) (sent : bool) (cmsid pid name : list Z) (allday : Z) (sec0 sec1 : list Z) (s : TcpServer)
  : (unit * TcpServer) + fault :=
  for_client cmsid tt (fun p s =>
    match camera_sections allday sec0 sec1 with
    | inr f => inr f
    | inl secs => notify_client sent p (AddCamera addr seq pid name allday secs true) s
    end) s.

Definition del_from_client (seq : Z) (sent : bool) (cmsid pid : list Z) (s : TcpServer) : (unit * TcpServer) + fault :=
  for_client cmsid tt (fun p => notify_client sent p (DelCamera seq pid)) s.

Definition modify_in_client (cmsid pid : list Z) (allday : Z) (sec0 sec1 : list Z) (s : TcpServer) : (unit * TcpServer) + fault :=
  for_client cmsid tt (fun p s =>
    match camera_sections allday sec0 sec1 with
    | inr f => inr f
    | inl secs => with_client p (fun c => inl (tt, ModifyCamera pid allday secs c)) s
    end) s.

Definition add_desc (ret : Z) : list Z :=
  if ret =? 0 then bytes "success!"
  else if ret =? 1 then bytes "database err!"
  else if ret =? 2 then bytes "invalid time schedule parameter!"
  else if ret =? 3 then bytes "camera already added!"
  else bytes "error known!".

Definition del_desc (ret : Z) : list Z :=
  if ret =? 0 then bytes "success!"
  else if ret =? 1 then bytes "database err!"
  else if ret =? 2 then bytes "camera not exist!"
  else bytes "error known!".

Definition mod_desc (ret : Z) : list Z :=
  if ret =? 0 then bytes "success!"
  else if ret =? 1 then bytes "database err!"
  else if ret =? 2 then bytes "invalid time schedule parameter!"
  else if ret =? 3 then bytes "modify fail!"
  else bytes "error known!".

(** The common frame of the three operations on a camera: from the web side only the
    client is told; otherwise the database ([db_ret]) comes first. *)
Definition camera_op (fromweb invalid : bool) (db_ret : Z) (desc : Z -> list Z)
  (f : TcpServer -> (unit * TcpServer) + fault) (s : TcpServer) : (web_reply * TcpServer) + fault :=
  if fromweb then
    match f s with inl (_, s) => inl (Web_empty, s) | inr e => inr e end
  else if invalid then inl (Web_invalid, s)
  else if db_ret =? 0 then
    match f s with inl (_, s) => inl (web_result db_ret (desc db_ret), s) | inr e => inr e end
  else inl (web_result db_ret (desc db_ret), s).

Definition AS_AddCamera (fromweb : bool) (db_ret addr seq : Z) (sent : bool) (userid cmsid pid name : list Z) (allday : Z)
  (sec0 sec1 : list Z) : TcpServer -> (web_reply * TcpServer) + fault :=
  camera_op fromweb (empty userid || empty cmsid || empty pid || empty name) db_ret add_desc
    (add_to_client addr seq sent cmsid pid name allday sec0 sec1).

Definition AS_DelCamera (fromweb : bool) (db_ret seq : Z) (sent : bool) (userid cmsid pid : list Z)
  : TcpServer -> (web_reply * TcpServer) + fault :=
  camera_op fromweb (empty userid || empty cmsid || empty pid) db_ret del_desc (del_from_client seq sent cmsid pid).

Definition AS_ModifyCamera (fromweb : bool) (db_ret : Z) (userid cmsid pid name : list Z) (allday : Z) (sec0 sec1 : list Z)
  : TcpServer -> (web_reply * TcpServer) + fault :=
  camera_op fromweb
    (empty userid || empty cmsid || empty pid || empty name || (negb (allday =? 0) && negb (allday =? 1)))
    db_ret mod_desc (modify_in_client cmsid pid allday sec0 sec1).

Definition WriteoffCMSClientAccount (cmsid : list Z) (s : TcpServer) : (web_reply * TcpServer) + fault :=
  match DelClient_cmsid cmsid s with
  | inl s => inl (Web_empty, s)
  | inr f => inr f
  end.

(** [CheckPush]: 0 lets the stream through. *)
Definition AS_CheckPush (cmsid devid key : list Z) (s : TcpServer) : (list Z * TcpServer) + fault :=
  for_client cmsid (bytes "1") (fun p =>
    with_client p (fun c => inl (if CheckPush devid key c then bytes "0" else bytes "1", c))) s.

(** The operations on accounts, which only ask the database. *)
Definition account_desc (exist full : list Z) (ret : Z) : list Z :=
  if ret =? 0 then bytes "success!"
  else if ret =? 1 then bytes "database err!"
  else if ret =? 2 then exist
  else if ret =? 3 then full
  else bytes "error known!".

Definition GetCMSClientList (db_ret : Z) (userid : list Z) : web_reply :=
  if empty userid then Web_invalid
  else web_result db_ret (account_desc (bytes "user not exist!") (bytes "error known!") db_ret).

Definition GetCMSClientInfo (db_ret : Z) (userid cmsid : list Z) : web_reply :=
  if empty userid || empty cmsid then Web_invalid
  else web_result db_ret (account_desc (bytes "group not exist!") (bytes "error known!") db_ret).

Definition RegistCMSClientAccount (db_ret : Z) (userid cmspsw name : list Z) : web_reply :=
  if empty userid || empty cmspsw || empty name then Web_invalid
  else web_result db_ret (account_desc (bytes "group exist!") (bytes "reach max num,add fail!") db_ret).

Definition ModifyCMSClientAccount (db_ret : Z) (userid cmsid : list Z) (type : Z) (value : list Z) : web_reply :=
  if empty userid || empty cmsid || empty value || (negb (type =? 0) && negb (type =? 1)) then Web_invalid
  else web_result db_ret (account_desc (bytes "modify fail!") (bytes "error known!") db_ret).
