(* ===== verification/AdapterProps.v ===== *)
(** * AdapterProps: the table of adapters

    When its handlers run one after the other, the server keeps one client for each
    connection and each adapter; what an adapter gets for an answer to its login; what
    happens when two handlers overlap. *)
From stdpp Require Import gmap.
From S2P Require Import Prelude Streams Messages TimeSection CmsClient MessagesProps.
From S2P Require Import CmsClientProps Adapter.

Lemma NoDup_omap_inj {A B} (f : A -> option B) (l : list A) :
  NoDup l -> (forall x y z, f x = Some z -> f y = Some z -> x = y) -> NoDup (omap f l).
Proof.
  intros Hnd Hf. induction Hnd as [|x l Hx Hnd IH]; cbn; [apply NoDup_nil_2|].
  destruct (f x) as [z|] eqn:E; [|done]. apply NoDup_cons_2; [|done].
  intros (y & Hy & Ey)%list_elem_of_omap. apply Hx. by rewrite (Hf x y z).
Qed.

(** ** The invariant *)
Record server_ok (s : TcpServer) : Prop := {
  so_nodup : NoDup (ts_clientlist s);
  so_heap : forall p, p ∈ ts_clientlist s <-> is_Some (ts_heap s !! p);
  so_fds : forall p q c d, ts_heap s !! p = Some c -> ts_heap s !! q = Some d -> cc_fd c = cc_fd d -> p = q;
  so_cmsids : forall p q c d, ts_heap s !! p = Some c -> ts_heap s !! q = Some d -> cc_cmsid c = cc_cmsid d -> p = q;
  so_open : forall p c, ts_heap s !! p = Some c -> cc_fd c ∈ ts_open s;
  so_epoll : forall fd, fd ∈ ts_open s <-> is_Some (ts_epoll s !! fd);
  so_devices : forall p c, ts_heap s !! p = Some c -> devices_ok c;
}.

Lemma TcpServer_new_ok : server_ok TcpServer_new.
Proof.
  split; cbn; [apply NoDup_nil_2|..]; intros; rewrite lookup_empty in *; try done.
  split; [by intros ?%not_elem_of_nil|by intros []].
Qed.

(** Looking for a client never follows a pointer to a deleted one. *)
Lemma find_client_list f h l :
  (forall p, p ∈ l -> is_Some (h !! p)) ->
  match find_client f h l with
  | inl (Some p) => p ∈ l /\ exists c, h !! p = Some c /\ f c = true
  | inl None => forall p c, p ∈ l -> h !! p = Some c -> f c = false
  | inr _ => False
  end.
Proof.
  induction l as [|p l IH]; intros Hl; cbn [find_client]; [by intros p c ?%not_elem_of_nil|].
  destruct (Hl p ltac:(left)) as [c Hc]. rewrite Hc. destruct (f c) eqn:Hf; [split; [left|by exists c]|].
  specialize (IH (fun q Hq => Hl q (list_elem_of_further q p l Hq))). destruct (find_client f h l) as [[q|]|]; [|..|done].
  - destruct IH as [Hq Hd]. split; [by right|done].
  - intros q d [->|Hq]%elem_of_cons Hd; [congruence|by eapply IH].
Qed.

Lemma find_client_ok f s :
  server_ok s ->
  match find_client f (ts_heap s) (ts_clientlist s) with
  | inl (Some p) => exists c, ts_heap s !! p = Some c /\ f c = true
  | inl None => forall p c, ts_heap s !! p = Some c -> f c = false
  | inr _ => False
  end.
Proof.
  intros Hs. pose proof (find_client_list f (ts_heap s) (ts_clientlist s) (fun q => proj1 (so_heap s Hs q))) as H.
  destruct (find_client _ _ _) as [[p|]|]; [by destruct H| |done].
  intros p c Hp. apply (H p c); [|done]. apply (so_heap s Hs). by exists c.
Qed.

(** ** Its preservation by the parts *)

(** A method that keeps descriptor and name of its client. *)
Definition client_keeps (c c' : CMSClient) : Prop := devices_ok c' /\ cc_fd c' = cc_fd c /\ cc_cmsid c' = cc_cmsid c.

Lemma server_ok_update p c c' s :
  server_ok s -> ts_heap s !! p = Some c -> client_keeps c c' -> server_ok (set_heap (<[p := c']> (ts_heap s)) s).
Proof.
  intros [H1 H2 H3 H4 H5 H6 H7] Hp (Hd & Hfd & Hid).
  assert (Hlook : forall q d, <[p := c']> (ts_heap s) !! q = Some d ->
    exists d0, ts_heap s !! q = Some d0 /\ cc_fd d = cc_fd d0 /\ cc_cmsid d = cc_cmsid d0 /\ devices_ok d).
  { intros q d [[<- <-]|[_ Hq]]%lookup_insert_Some; [by exists c|]. exists d. split_and!; try done. by eapply H7. }
  split; cbn; try done.
  - intros q. rewrite H2, lookup_insert_is_Some. split.
    + intros Hq. destruct (decide (p = q)); auto.
    + intros [<-|[_ Hq]]; [by exists c|done].
  - intros q r d e Hq Hr E. destruct (Hlook q d Hq) as (d0 & Hd0 & Ed & _). destruct (Hlook r e Hr) as (e0 & He0 & Ee & _).
    eapply (H3 q r); eauto. congruence.
  - intros q r d e Hq Hr E. destruct (Hlook q d Hq) as (d0 & Hd0 & _ & Ed & _). destruct (Hlook r e Hr) as (e0 & He0 & _ & Ee & _).
    eapply (H4 q r); eauto. congruence.
  - intros q d Hq. destruct (Hlook q d Hq) as (d0 & Hd0 & -> & _). by eapply H5.
  - intros q d Hq. by destruct (Hlook q d Hq) as (d0 & _ & _ & _ & ?).
Qed.

Lemma with_client_ok {A} p (f : CMSClient -> (A * CMSClient) + fault) a s s' :
  server_ok s -> (forall c a c', devices_ok c -> ts_heap s !! p = Some c -> f c = inl (a, c') -> client_keeps c c') ->
  with_client p f s = inl (a, s') -> server_ok s' /\ (exists c, ts_heap s' !! p = Some c).
Proof.
  intros Hs Hf. unfold with_client. destruct (ts_heap s !! p) as [c|] eqn:Hp; [|done].
  destruct (f c) as [[b c']|] eqn:Hc; [|done]. intros [= -> <-]. split.
  - eapply server_ok_update; [done|done|]. eapply Hf; eauto. by eapply so_devices.
  - exists c'. cbn. by rewrite lookup_insert_eq.
Qed.

(** Closing a descriptor that no client has. *)
Lemma drop_fd_ok fd s :
  server_ok s -> (forall p c, ts_heap s !! p = Some c -> cc_fd c <> fd) -> server_ok (drop_fd fd s).
Proof.
  intros [H1 H2 H3 H4 H5 H6 H7] Hfd. split; cbn; try done.
  - intros p c Hp. apply elem_of_difference. split; [by eapply H5|]. apply not_elem_of_singleton. by eapply Hfd.
  - intros q. rewrite elem_of_difference, not_elem_of_singleton, lookup_delete_is_Some, H6. intuition congruence.
Qed.

Lemma remove_client_ok p c s s' :
  server_ok s -> ts_heap s !! p = Some c -> remove_client p s = inl s' ->
  server_ok s' /\ server_ok (drop_fd (cc_fd c) s') /\ ts_heap s' = delete p (ts_heap s).
Proof.
  intros Hs Hp. unfold remove_client. rewrite Hp. destruct (CMSClient_delete c); [|done]. intros [= <-].
  assert (Hok : server_ok (set_clientlist (erase p (ts_clientlist s)) (set_heap (delete p (ts_heap s)) s))).
  { destruct Hs as [H1 H2 H3 H4 H5 H6 H7]. split; cbn; try done.
    - by apply erase_NoDup.
    - intros q. rewrite elem_of_erase, lookup_delete_is_Some, H2 by done. intuition congruence.
    - intros q r d e [_ Hq]%lookup_delete_Some [_ Hr]%lookup_delete_Some. by eapply H3.
    - intros q r d e [_ Hq]%lookup_delete_Some [_ Hr]%lookup_delete_Some. by eapply H4.
    - intros q d [_ Hq]%lookup_delete_Some. by eapply H5.
    - intros q d [_ Hq]%lookup_delete_Some. by eapply H7. }
  split; [done|]. split; [|done]. apply drop_fd_ok; [done|]. cbn. intros q d [Hne Hq]%lookup_delete_Some E.
  apply Hne. by eapply (so_fds s).
Qed.

Lemma DelClient_fd_ok fd s s' : server_ok s -> DelClient_fd fd s = inl s' -> server_ok s'.
Proof.
  intros Hs. unfold DelClient_fd. pose proof (find_client_ok (by_fd fd) s Hs) as Hf.
  destruct (find_client _ _ _) as [[p|]|]; [| |done].
  - destruct Hf as (c & Hc & E). apply Z.eqb_eq in E. destruct (remove_client p s) as [s1|] eqn:Hr; [|done].
    intros [= <-]. destruct (remove_client_ok p c s s1 Hs Hc Hr) as (_ & H & _). by rewrite <-E.
  - intros [= <-]. apply drop_fd_ok; [done|]. intros p c Hc. by apply Z.eqb_neq, (Hf p).
Qed.

Lemma DelClient_cmsid_ok cmsid s s' : server_ok s -> DelClient_cmsid cmsid s = inl s' -> server_ok s'.
Proof.
  intros Hs. unfold DelClient_cmsid, GetClient. pose proof (find_client_ok (by_cmsid cmsid) s Hs) as Hf.
  destruct (find_client _ _ _) as [[p|]|]; [|by intros [= <-]|done].
  destruct Hf as (c & Hc & _). rewrite Hc. destruct (remove_client p s) as [s1|] eqn:Hr; [|done].
  destruct (remove_client_ok p c s s1 Hs Hc Hr) as (H1 & H2 & _). by destruct (_ =? _); intros [= <-].
Qed.

Lemma after_send_ok sent p s s' : server_ok s -> after_send sent p s = inl s' -> server_ok s'.
Proof.
  intros Hs. unfold after_send. destruct sent; [by intros [= <-]|]. destruct (ts_heap s !! p); [|done].
  by apply DelClient_fd_ok.
Qed.

Lemma AddClient_ok addr now fd cmsid s :
  server_ok s -> ts_heap s !! addr = None -> fd ∈ ts_open s ->
  (forall p c, ts_heap s !! p = Some c -> cc_fd c <> fd) -> (forall p c, ts_heap s !! p = Some c -> cc_cmsid c <> cmsid) ->
  server_ok (AddClient addr now fd cmsid s).
Proof.
  intros [H1 H2 H3 H4 H5 H6 H7] Ha Ho Hfd Hid. split; cbn; try done.
  - apply NoDup_app. split; [done|]. split; [|apply NoDup_singleton].
    intros p Hp ->%list_elem_of_singleton. apply H2 in Hp as [? ?]. congruence.
  - intros p. rewrite elem_of_app, list_elem_of_singleton, lookup_insert_is_Some, H2.
    destruct (decide (addr = p)); intuition congruence.
  - intros p q c d [[<- <-]|[? Hp]]%lookup_insert_Some [[<- <-]|[? Hq]]%lookup_insert_Some E; cbn in *; try done.
    + by destruct (Hfd q d Hq).
    + by destruct (Hfd p c Hp).
    + by eapply H3.
  - intros p q c d [[<- <-]|[? Hp]]%lookup_insert_Some [[<- <-]|[? Hq]]%lookup_insert_Some E; cbn in *; try done.
    + by destruct (Hid q d Hq).
    + by destruct (Hid p c Hp).
    + by eapply H4.
  - intros p c [[<- <-]|[? Hp]]%lookup_insert_Some; [done|by eapply H5].
  - intros p c [[<- <-]|[? Hp]]%lookup_insert_Some; [|by eapply H7].
    split; cbn; [intros ? ?|intros ? ? ?]; by rewrite lookup_empty.
Qed.

Lemma ResetOneshot_ok fd s : server_ok s -> server_ok (ResetOneshot fd s).
Proof.
  intros [H1 H2 H3 H4 H5 H6 H7]. split; cbn; try done. intros q. rewrite H6.
  destruct (ts_epoll s !! fd) eqn:E; [|done]. rewrite lookup_insert_is_Some.
  destruct (decide (fd = q)) as [<-|]; [|tauto]. rewrite E. split; [by left|by eexists].
Qed.

Lemma accept_fd_ok fd s : server_ok s -> server_ok (accept_fd fd s).
Proof.
  intros [H1 H2 H3 H4 H5 H6 H7]. split; cbn; try done.
  - intros p c Hp. apply elem_of_union_l. by eapply H5.
  - intros q. rewrite elem_of_union, elem_of_singleton, lookup_insert_is_Some, H6.
    destruct (decide (fd = q)); intuition congruence.
Qed.

(** ** Its preservation by the handlers *)

Definition inputs_ok (i : login_inputs) (s : TcpServer) : Prop := ts_heap s !! li_addr i = None /\ NoDup (li_addrs i).

Lemma login_cameras_keeps ds : forall i addrs buf c buf' c',
  devices_ok c -> NoDup addrs -> (forall a, a ∈ addrs -> cc_nodes c !! a = None) ->
  login_cameras i ds addrs buf c = inl (buf', c') -> client_keeps c c'.
Proof.
  induction ds as [|d ds IH]; intros i addrs buf c buf' c' Hc Hnd Hfr; cbn [login_cameras]; [by intros [= _ <-]|].
  destruct addrs as [|a addrs]; [done|]. destruct (write_mem _ _ _) as [buf1|]; [|done].
  apply NoDup_cons in Hnd as [Ha Hnd]. intros H. apply IH in H as (H1 & H2 & H3); [done| |done|].
  - apply AddCamera_node_ok; [done|]. apply Hfr. left.
  - intros b Hb. cbn. rewrite lookup_insert_ne by congruence. apply Hfr. by right.
Qed.

Lemma login_client_ok i fd cmsid s ret n buf s' :
  server_ok s -> inputs_ok i s -> fd ∈ ts_open s ->
  (forall p c, ts_heap s !! p = Some c -> cc_fd c <> fd) -> (forall p c, ts_heap s !! p = Some c -> cc_cmsid c <> cmsid) ->
  login_client i fd cmsid s = inl (ret, n, buf, s') -> server_ok s'.
Proof.
  intros Hs [Ha Hnd] Ho Hfd Hid. unfold login_client. destruct (negb _); [by intros [= _ _ _ <-]|].
  destruct (la_devices (li_db i)) as [ds|]; [|by intros [= _ _ _ <-]].
  destruct (with_client _ _ _) as [[b s1]|] eqn:E; [|done]. intros [= _ _ _ <-].
  apply with_client_ok in E as [H _]; [done|by apply AddClient_ok|].
  intros c a c' Hc. cbn. rewrite lookup_insert_eq. intros [= <-] Hl.
  eapply login_cameras_keeps; [done|done| |exact Hl]. intros x _. cbn. apply lookup_empty.
Qed.

Lemma HandleLoginEx_ok i fd buf seq sent s msg s' :
  server_ok s -> inputs_ok i s -> fd ∈ ts_open s -> (forall p c, ts_heap s !! p = Some c -> cc_fd c <> fd) ->
  HandleLoginEx i fd buf seq sent s = inl (msg, s') -> server_ok s'.
Proof.
  intros Hs Hi Ho Hfd. unfold HandleLoginEx. destruct (login_request buf) as [[cmsid psw]|]; [|done].
  unfold GetClient. pose proof (find_client_ok (by_cmsid cmsid) s Hs) as Hf.
  destruct (find_client _ _ _) as [found|]; [|done]. unfold HandleLoginEx_rest.
  destruct (if bool_decide _ then _ else _) as [[[[ret n] b] s1]|] eqn:E; [|done].
  assert (Hs1 : server_ok s1).
  { destruct found as [p|]; cbn in E; [by injection E as _ _ _ <-|]. eapply login_client_ok; [..|exact E]; try done.
    intros p c Hp Hc. specialize (Hf p c Hp). apply bool_decide_eq_false in Hf. done. }
  destruct (login_reply _ _ _ _ _); [|done]. destruct sent; [by intros [= _ <-]|].
  destruct (DelClient_fd fd s1) as [s2|] eqn:Hd; [|done]. intros [= _ <-]. by eapply DelClient_fd_ok.
Qed.

(** The methods of a client that the server calls. *)
Lemma client_act_keeps o c c' : devices_ok c -> op_ok o c -> client_act o c = inl c' -> client_keeps c c'.
Proof. intros Hc Ho Ha. by destruct (client_act_same o c c' Hc Ho Ha). Qed.

Lemma HandlerRead_client_ok now p cmd seq buf size sent s msg s' :
  server_ok s -> HandlerRead_client now p cmd seq buf size sent s = inl (msg, s') -> server_ok s'.
Proof.
  intros Hs. unfold HandlerRead_client. destruct (cmd =? KEEP_ALIVE).
  - destruct (with_client _ _ _) as [[m s1]|] eqn:E; [|done].
    apply with_client_ok in E as [H1 _]; [|done|].
    + destruct (after_send sent p s1) eqn:Ha; [|done]. intros [= _ <-]. by eapply after_send_ok.
    + intros c a c' Hc _ [= _ <-]. by apply (client_act_keeps (Op_update_livecount now seq)).
  - destruct (cmd =? UPDATE_CHANGE); intros E; (apply with_client_ok in E as [H1 _]; [done|done|]); intros c a c' Hc _ Hf.
    + apply (client_act_keeps (Op_HandleUpdateChange buf)); [done|done|]. cbn. destruct (HandleUpdateChange buf c); congruence.
    + apply (client_act_keeps (Op_InsertMsg now cmd seq buf size)); [done|done|]. cbn. destruct (InsertMsg now cmd seq buf size c); congruence.
Qed.

Lemma HandlerRead_ok i fd cmd seq buf size sent s msg s' :
  server_ok s -> inputs_ok i s -> fd ∈ ts_open s -> HandlerRead i fd cmd seq buf size sent s = inl (msg, s') -> server_ok s'.
Proof.
  intros Hs Hi Ho. unfold HandlerRead, client_of_fd. pose proof (find_client_ok (by_fd fd) s Hs) as Hf.
  destruct (find_client _ _ _) as [[p|]|]; [by apply HandlerRead_client_ok| |done].
  assert (Hfd : forall p c, ts_heap s !! p = Some c -> cc_fd c <> fd) by (intros p c Hp; by apply Z.eqb_neq, (Hf p)).
  unfold HandlerRead_unknown. destruct buf as [mem|]; [|intros [= _ <-]; by apply drop_fd_ok].
  destruct (_ || _); [intros [= _ <-]; by apply drop_fd_ok|]. by apply HandleLoginEx_ok.
Qed.

Lemma task_run_ok i fd c sent s msg s' :
  server_ok s -> inputs_ok i s -> (fd ∈ ts_open s \/ c = []) -> task_run i fd c sent s = inl (msg, s') -> server_ok s'.
Proof.
  intros Hs Hi Ho. unfold task_run. destruct (read_task c) as [[[|cmd seq buf size] c']|] eqn:E; [| |done].
  - destruct (DelClient_fd fd s) as [s1|] eqn:Hd; [|done]. intros [= _ <-]. by eapply DelClient_fd_ok.
  - destruct Ho as [Ho| ->]; [|done]. apply HandlerRead_ok; [by apply ResetOneshot_ok|done|done].
Qed.

Lemma check_clients_ok now strtime l : forall s s', server_ok s -> check_clients now strtime l s = inl s' -> server_ok s'.
Proof.
  induction l as [|[p sent] l IH]; intros s s' Hs; cbn [check_clients]; [by intros [= <-]|].
  destruct (with_client _ _ _) as [[[alive msg] s1]|] eqn:E; [|done].
  apply with_client_ok in E as [H1 [c Hc]]; [|done|].
  - destruct (_ && _); [by apply IH|]. rewrite Hc. destruct (remove_client p s1) as [s2|] eqn:Hr; [|done].
    apply IH. by destruct (remove_client_ok p c s1 s2 H1 Hc Hr) as (_ & ? & _).
  - intros d a d' Hd _ Hf. apply (client_act_keeps (Op_CheckState now strtime)); [done|done|]. cbn. by rewrite Hf.
Qed.

Lemma for_client_ok {A} cmsid (none : A) f s a s' :
  server_ok s -> (forall p, is_Some (ts_heap s !! p) -> f p s = inl (a, s') -> server_ok s') ->
  for_client cmsid none f s = inl (a, s') -> server_ok s'.
Proof.
  intros Hs Hf. unfold for_client, GetClient. pose proof (find_client_ok (by_cmsid cmsid) s Hs) as H.
  destruct (find_client _ _ _) as [[p|]|]; [|by intros [= _ <-]|done]. destruct H as (c & Hc & _). apply Hf. by exists c.
Qed.

Lemma notify_client_ok sent p f s u s' :
  server_ok s -> (forall c a c', devices_ok c -> ts_heap s !! p = Some c -> f c = inl (a, c') -> client_keeps c c') ->
  notify_client sent p f s = inl (u, s') -> server_ok s'.
Proof.
  intros Hs Hf. unfold notify_client. destruct (with_client p f s) as [[m s1]|] eqn:E; [|done].
  apply with_client_ok in E as [H1 _]; [|done|done].
  destruct (after_send _ p s1) eqn:Ha; [|done]. intros [= _ <-]. by eapply after_send_ok.
Qed.

(** ** Runs of the server

    What happens to it, one whole handler at a time. *)
Inductive server_event :=
  | Ev_accept (fd : Z)
  | Ev_task (i : login_inputs) (fd : Z) (c : conn) (sent : bool)
  | Ev_refused (fd : Z)   (* the pool does not take the task *)
  | Ev_heartbeat (now : Z) (strtime : list Z) (sents : list bool)
  | Ev_AddCamera (addr seq : Z) (sent : bool) (cmsid pid name : list Z) (allday : Z) (sec0 sec1 : list Z)
  | Ev_DelCamera (seq : Z) (sent : bool) (cmsid pid : list Z)
  | Ev_ModifyCamera (cmsid pid : list Z) (allday : Z) (sec0 sec1 : list Z)
  | Ev_Writeoff (cmsid : list Z)
  | Ev_NotifyPush_end (p pItem : Z) (key : list Z) (resp : option (list Z))
  | Ev_NotifyStopPush_end (p pItem : Z) (resp : option (list Z))
  | Ev_send_failed (p : Z).   (* of [NotifyPush] or [NotifyStopPush] *)

Definition state_of {A} (r : (A * TcpServer) + fault) : TcpServer + fault :=
  match r with inl (_, s) => inl s | inr f => inr f end.

Definition serve (e : server_event) (s : TcpServer) : TcpServer + fault :=
  match e with
  | Ev_accept fd => inl (accept_fd fd s)
  | Ev_task i fd c sent => state_of (task_run i fd c sent s)
  | Ev_refused fd => DelClient_fd fd s
  | Ev_heartbeat now strtime sents => heartbeat now strtime sents s
  | Ev_AddCamera addr seq sent cmsid pid name allday sec0 sec1 =>
      state_of (add_to_client addr seq sent cmsid pid name allday sec0 sec1 s)
  | Ev_DelCamera seq sent cmsid pid => state_of (del_from_client seq sent cmsid pid s)
  | Ev_ModifyCamera cmsid pid allday sec0 sec1 => state_of (modify_in_client cmsid pid allday sec0 sec1 s)
  | Ev_Writeoff cmsid => state_of (WriteoffCMSClientAccount cmsid s)
  | Ev_NotifyPush_end p pItem key resp => state_of (with_client p (NotifyPush_end pItem key resp) s)
  | Ev_NotifyStopPush_end p pItem resp => state_of (with_client p (NotifyStopPush_end pItem resp) s)
  | Ev_send_failed p => after_send false p s
  end.

(** New addresses are not in use; a task is started for an open connection, or finds the
    descriptor closed and reads nothing. *)
Definition event_ok (e : server_event) (s : TcpServer) : Prop :=
  match e with
  | Ev_task i fd c _ => inputs_ok i s /\ (fd ∈ ts_open s \/ c = [])
  | Ev_AddCamera addr _ _ _ _ _ _ _ _ => forall p c, ts_heap s !! p = Some c -> cc_nodes c !! addr = None
  | _ => True
  end.

Inductive server_run : TcpServer -> Prop :=
  | run_new : server_run TcpServer_new
  | run_step e s s' : server_run s -> event_ok e s -> serve e s = inl s' -> server_run s'.

Lemma state_of_inl {A} (r : (A * TcpServer) + fault) s : state_of r = inl s -> exists a, r = inl (a, s).
Proof. destruct r as [[a s']|]; [|done]. intros [= ->]. by exists a. Qed.

Lemma serve_ok e s s' : server_ok s -> event_ok e s -> serve e s = inl s' -> server_ok s'.
Proof.
  intros Hs He. destruct e; cbn [serve event_ok] in *.
  - intros [= <-]. by apply accept_fd_ok.
  - destruct He as [Hi Ho]. intros [m H]%state_of_inl. by eapply task_run_ok.
  - by apply DelClient_fd_ok.
  - by apply check_clients_ok.
  - intros [u H]%state_of_inl. eapply for_client_ok; [done| |exact H]. intros p [c0 Hp].
    destruct (camera_sections allday sec0 sec1) as [secs|]; [|done]. apply notify_client_ok; [done|].
    intros c a c' Hc Hlook Ha. rewrite Hlook in Hp. injection Hp as <-.
    apply (client_act_keeps (Op_AddCamera addr seq pid name allday secs true)); [done|by eapply He|].
    cbn [client_act]. by rewrite Ha.
  - intros [u H]%state_of_inl. eapply for_client_ok; [done| |exact H]. intros p _. apply notify_client_ok; [done|].
    intros c a c' Hc _ Ha. apply (client_act_keeps (Op_DelCamera seq pid)); [done|done|]. cbn [client_act]. by rewrite Ha.
  - intros [u H]%state_of_inl. eapply for_client_ok; [done| |exact H]. intros p _.
    destruct (camera_sections allday sec0 sec1) as [secs|]; [|done]. intros E.
    apply with_client_ok in E as [? _]; [done|done|]. intros c a c' Hc _ [= _ <-].
    by apply (client_act_keeps (Op_ModifyCamera pid allday secs)).
  - intros [u H]%state_of_inl. unfold WriteoffCMSClientAccount in H.
    destruct (DelClient_cmsid cmsid s) eqn:E; [|done]. injection H as _ <-. by eapply DelClient_cmsid_ok.
  - intros [u H]%state_of_inl. apply with_client_ok in H as [? _]; [done|done|]. intros c a c' Hc _ Ha.
    apply (client_act_keeps (Op_NotifyPush_end pItem key resp)); [done|done|]. cbn [client_act]. by rewrite Ha.
  - intros [u H]%state_of_inl. apply with_client_ok in H as [? _]; [done|done|]. intros c a c' Hc _ Ha.
    apply (client_act_keeps (Op_NotifyStopPush_end pItem resp)); [done|done|]. cbn [client_act]. by rewrite Ha.
  - by apply after_send_ok.
Qed.

Lemma server_run_ok s : server_run s -> server_ok s.
Proof. induction 1 as [|e s s' _ IH He Hserve]; [apply TcpServer_new_ok|by eapply serve_ok]. Qed.

(** What the invariant says of the table. *)
Record table_sound (s : TcpServer) : Prop := {
  ts_distinct_fds : NoDup (omap (fun p => cc_fd <$> ts_heap s !! p) (ts_clientlist s));
  ts_distinct_names : NoDup (omap (fun p => cc_cmsid <$> ts_heap s !! p) (ts_clientlist s));
  ts_connected p : p ∈ ts_clientlist s -> exists c, ts_heap s !! p = Some c /\ cc_fd c ∈ ts_open s /\ is_Some (ts_epoll s !! cc_fd c);
  ts_searchable f : exists r, find_client f (ts_heap s) (ts_clientlist s) = inl r;
}.

Lemma server_ok_sound s : server_ok s -> table_sound s.
Proof.
  intros Hs. split.
  - apply NoDup_omap_inj; [apply Hs|]. intros p q fd Hp Hq.
    apply fmap_Some in Hp as (c & Hc & ->). apply fmap_Some in Hq as (d & Hd & E). by eapply (so_fds s Hs).
  - apply NoDup_omap_inj; [apply Hs|]. intros p q id Hp Hq.
    apply fmap_Some in Hp as (c & Hc & ->). apply fmap_Some in Hq as (d & Hd & E). by eapply (so_cmsids s Hs).
  - intros p Hp. apply (so_heap s Hs) in Hp as [c Hc]. exists c. split; [done|].
    assert (cc_fd c ∈ ts_open s) by by eapply so_open. split; [done|]. by apply (so_epoll s Hs).
  - intros f. pose proof (find_client_ok f s Hs) as Hf. destruct (find_client _ _ _) as [r|]; [by exists r|done].
Qed.

(** However adapters connect, log in, send, fall silent and disconnect, and whatever the
    web side asks for, as long as one handler runs after the other: no two clients of the
    table have the same connection or the same name, each has an open connection that the
    loop listens to, and no search of the table follows a pointer to a deleted client. *)
Theorem clients_distinct s : server_run s -> table_sound s.
Proof. intros Hs%server_run_ok. by apply server_ok_sound. Qed.

(** ** What an adapter is answered *)

Lemma write_mem_mid p q r l : zlen q = zlen l -> write_mem (p ++ q ++ r) (zlen p) l = inl (p ++ l ++ r).
Proof.
  intros Hq. unfold write_mem. rewrite !zlen_app, Hq. pose proof (zlen_nonneg r).
  rewrite (proj2 (Z.ltb_ge _ _)) by lia. rewrite zlen_to_nat, take_app_length. do 3 f_equal.
  rewrite app_assoc. apply drop_app_length'. rewrite length_app. unfold zlen in *. lia.
Qed.

Definition tb_slots (ds : list TBDeviceEx) : list Z := concat (map (fun d => chars 20 (tb_pid d)) ds).

Fixpoint add_cameras (ds : list TBDeviceEx) (addrs : list Z) (c : CMSClient) : CMSClient :=
  match ds, addrs with
  | d :: ds', a :: addrs' => add_cameras ds' addrs' (AddCamera_node a (tb_pid d) (tb_name d) (tb_allday d) (tb_sections d) c)
  | _, _ => c
  end.

Lemma login_cameras_spec ds : forall i addrs pre m c,
  Forall (fun d => zlen (tb_pid d) <= 20) ds -> (length ds <= length addrs)%nat ->
  zlen pre = 152 + i * 20 -> 20 * zlen ds <= m ->
  login_cameras i ds addrs (pre ++ zeros m) c =
    inl ((pre ++ tb_slots ds) ++ zeros (m - 20 * zlen ds), add_cameras ds addrs c).
Proof.
  induction ds as [|d ds IH]; intros i addrs pre m c Hds Ha Hpre Hm; cbn [login_cameras add_cameras].
  { cbn. by rewrite app_nil_r, Z.sub_0_r. }
  destruct addrs as [|a addrs]; [cbn in Ha; lia|]. apply Forall_cons in Hds as [Hd Hds].
  rewrite zlen_cons in Hm |- *. pose proof (zlen_nonneg ds).
  replace (80 + 72 + i * 20) with (zlen pre) by lia. rewrite write_mem_slot by lia.
  rewrite IH; [|done|cbn in Ha; lia|rewrite zlen_app, zlen_chars by done; lia|lia].
  unfold tb_slots. cbn [map concat]. rewrite <-!app_assoc. do 2 f_equal.
  by replace (m - 20 - 20 * zlen ds) with (m - 20 * (1 + zlen ds)) by lia.
Qed.

Lemma zlen_tb_slots ds : Forall (fun d => zlen (tb_pid d) <= 20) ds -> zlen (tb_slots ds) = 20 * zlen ds.
Proof.
  induction 1 as [|d ds Hd _ IH]; [done|]. unfold tb_slots in *. cbn [map concat].
  rewrite zlen_app, zlen_chars, IH, zlen_cons by done. lia.
Qed.

(** The field [resv] of the answer. *)
Definition login_resv (ret : Z) (kid : list Z) : list Z := if ret =? 0 then chars 64 (c_text kid) else zeros 64.

Lemma zlen_login_resv ret kid : (ret = 0 -> zlen (c_text kid) < 64) -> zlen (login_resv ret kid) = 64.
Proof.
  intros Hk. unfold login_resv. destruct (Z.eqb_spec ret 0); [|done]. apply zlen_chars. specialize (Hk e). lia.
Qed.

Lemma login_reply_spec kid seq ret n body m :
  is_int seq -> zlen body = 20 * n -> 0 <= n <= 504 -> (ret = 0 -> zlen (c_text kid) < 64) ->
  login_reply kid seq ret n ((zeros 152 ++ body) ++ zeros m) =
    inl (frame RESP_LOGIN seq (to_bytes (mk_resp_login ret n (login_resv ret kid)) ++ body)).
Proof.
  intros Hseq Hb Hn Hk. unfold login_reply.
  assert (Hr : (if ret =? 0 then strcpy 64 kid else inl (zeros 64)) = inl (login_resv ret kid)).
  { unfold login_resv, strcpy. destruct (Z.eqb_spec ret 0) as [E|]; [|done].
    rewrite (proj2 (Z.leb_gt _ _)); [done|]. by apply Hk. }
  rewrite Hr. cbn [sizeof RespLogin_wire]. set (h := to_bytes (header _ _ _)).
  assert (Hh : zlen h = 80). { refine (to_bytes_length _ _). apply header_fits; unfold is_int in *; [done|done|lia]. }
  set (r := to_bytes (mk_resp_login _ _ _)).
  assert (Hl : zlen r = 72).
  { unfold r. cbn [to_bytes RespLogin_wire pl_result pl_size pl_resv]. rewrite !zlen_app, zlen_login_resv by done. done. }
  change (zeros 152) with (zeros 80 ++ zeros 72). rewrite <-!app_assoc.
  pose proof (write_mem_mid [] (zeros 80) (zeros 72 ++ body ++ zeros m) h) as H1. rewrite app_nil_l in H1.
  change (zlen []) with 0 in H1. rewrite H1 by by rewrite Hh. rewrite app_nil_l.
  pose proof (write_mem_mid h (zeros 72) (body ++ zeros m) r) as H2. rewrite Hh in H2. rewrite H2 by by rewrite Hl.
  f_equal. unfold frame. rewrite zlen_app, Hl, Hb. replace (72 + 20 * n) with (72 + n * 20) by lia. fold h.
  rewrite !app_assoc. apply slice_here. rewrite !zlen_app, Hh, Hl, Hb. lia.
Qed.

(** The code of the answer to a login, and the cameras that are put into the table. *)
Definition login_code (i : login_inputs) (found : option Z) : Z :=
  match found with Some _ => 4 | None => la_ret (li_db i) end.

Definition login_list (i : login_inputs) (found : option Z) : option (list TBDeviceEx) :=
  match found with
  | Some _ => None
  | None => if la_ret (li_db i) =? 0 then la_devices (li_db i) else None
  end.

Definition logged_in (i : login_inputs) (fd : Z) (cmsid : list Z) (ds : list TBDeviceEx) (s : TcpServer) : TcpServer :=
  let c := add_cameras ds (li_addrs i) (set_cmsid cmsid (CMSClient_new fd (li_now i))) in
  set_heap (<[li_addr i := c]> (ts_heap s)) (set_clientlist (ts_clientlist s ++ [li_addr i]) s).

Lemma zeros_message : zeros MAX_MSG = (zeros 152 ++ []) ++ zeros 10088.
Proof. rewrite app_nil_r. by apply (zeros_split 152 10088). Qed.

(** The part between the test for a known adapter and the answer. *)
Lemma login_client_spec i fd cmsid s :
  let ds := default [] (login_list i None) in
  Forall (fun d => zlen (tb_pid d) <= 20) ds -> zlen ds <= 504 -> (length ds <= length (li_addrs i))%nat ->
  exists m, login_client i fd cmsid s =
    inl (la_ret (li_db i), zlen ds, (zeros 152 ++ tb_slots ds) ++ zeros m,
         match login_list i None with Some ds => logged_in i fd cmsid ds s | None => s end).
Proof.
  unfold login_client, login_list. destruct (Z.eqb_spec (la_ret (li_db i)) 0) as [E|E]; cbn [negb].
  2: { intros _ _ _. exists 10088. by rewrite zeros_message. }
  destruct (la_devices (li_db i)) as [ds|]; cbn [from_option]; unfold id.
  2: { intros _ _ _. exists 10088. by rewrite zeros_message, E. }
  intros Hpid Hn Hlen. exists (10088 - 20 * zlen ds). unfold with_client, AddClient. cbn [ts_heap set_heap set_clientlist].
  rewrite lookup_insert_eq, zeros_message, app_nil_r, login_cameras_spec by (done || lia). rewrite E. do 2 f_equal.
  unfold logged_in, set_heap. cbn. by rewrite insert_insert_eq.
Qed.

(** C35. The answer to a login, byte by byte, when the id of the user has less than 64 bytes,
    the ids of the cameras at most 20 and there are at most 504 of them: the code 4 if the
    adapter is logged in already, else what the database says; the cameras of the adapter,
    if it was accepted; and then it is in the table with this connection and these
    cameras, otherwise nothing changes.  The codes are not those of the comment at
    [RespLogin]: an unknown adapter is answered 2 and not 1 ([DatabaseProps.login_codes]). *)
Theorem login_answered i fd buf seq s cmsid psw found :
  login_request buf = inl (cmsid, psw) -> GetClient cmsid s = inl found ->
  let ret := login_code i found in
  let ds := default [] (login_list i found) in
  is_int seq -> Forall (fun d => zlen (tb_pid d) <= 20) ds -> zlen ds <= 504 -> (length ds <= length (li_addrs i))%nat ->
  (ret = 0 -> zlen (c_text (la_kid (li_db i))) < 64) ->
  HandleLoginEx i fd buf seq true s =
    inl (frame RESP_LOGIN seq (to_bytes (mk_resp_login ret (zlen ds) (login_resv ret (la_kid (li_db i)))) ++ tb_slots ds),
         match login_list i found with Some ds => logged_in i fd cmsid ds s | None => s end).
Proof.
  intros Hreq Hget ret ds Hseq Hpid Hn Hlen Hkid. unfold HandleLoginEx. rewrite Hreq, Hget.
  unfold HandleLoginEx_rest. pose proof (zlen_nonneg ds). destruct found as [p|].
  - rewrite bool_decide_eq_true_2 by done. rewrite zeros_message, login_reply_spec by done. done.
  - rewrite bool_decide_eq_false_2 by by intros []. destruct (login_client_spec i fd cmsid s) as [m ->]; [done..|].
    fold ds. change (la_ret (li_db i)) with ret. by rewrite login_reply_spec by (done || lia || by apply zlen_tb_slots).
Qed.

(** ** Concrete runs *)

Definition sample_login (addr : Z) : login_inputs :=
  mk_login_inputs
    (mk_login 0 (bytes "17") (Some [mk_tb_device (bytes "cam1") (bytes "door") 0 sample_sections;
                                    mk_tb_device (bytes "cam2") (bytes "gate") 1 no_sections]))
    addr [100; 200] 1000.

Definition login_bytes : list Z := to_bytes (mk_req_login (chars 20 (bytes "adapter1")) (chars 20 (bytes "secret")) (zeros 64)).

Definition login_conn : conn := [frame REQ_LOGIN 3 login_bytes].

Definition sample_events : list server_event :=
  [Ev_accept 5; Ev_task (sample_login 4096) 5 login_conn true; Ev_accept 6; Ev_task (sample_login 8192) 6 login_conn true].

Definition serve_all (es : list server_event) (s : TcpServer) : TcpServer :=
  fold_left (fun s e => match serve e s with inl s => s | inr _ => s end) es s.

Definition served : TcpServer := serve_all sample_events TcpServer_new.

Definition event_okb (e : server_event) (s : TcpServer) : bool :=
  match e with
  | Ev_task i fd c _ =>
      bool_decide (ts_heap s !! li_addr i = None) && bool_decide (NoDup (li_addrs i)) && bool_decide (fd ∈ ts_open s)
  | Ev_accept _ => true
  | _ => false
  end.

Lemma serve_all_run es : forall s,
  server_run s ->
  (fix go es s := match es with
                  | [] => true
                  | e :: es => event_okb e s && match serve e s with inl s => go es s | inr _ => false end
                  end) es s = true ->
  server_run (serve_all es s).
Proof.
  induction es as [|e es IH]; intros s Hs Hok; [done|]. apply andb_true_iff in Hok as [He Hok].
  unfold serve_all. cbn [fold_left]. destruct (serve e s) as [s'|] eqn:E; [|done].
  apply IH; [|done]. eapply run_step; [done| |done]. destruct e; try done. cbn in *.
  apply andb_true_iff in He as [[H1 H2]%andb_true_iff H3]. apply bool_decide_eq_true in H1, H2, H3. by split; [split|left].
Qed.

Lemma clients_distinct_witness : table_sound served.
Proof. apply (clients_distinct served). apply serve_all_run; [apply run_new|]. vm_compute. reflexivity. Defined.

(** The second login under the same name was refused. *)
Example second_login_refused : ts_clientlist served = [4096].
Proof. vm_compute. reflexivity. Qed.

Lemma login_answered_witness :
  let s := accept_fd 5 TcpServer_new in
  let i := sample_login 4096 in
  let ds := default [] (login_list i None) in
  HandleLoginEx i 5 login_bytes 3 true s =
    inl (frame RESP_LOGIN 3 (to_bytes (mk_resp_login 0 2 (login_resv 0 (bytes "17"))) ++ tb_slots ds),
         logged_in i 5 (bytes "adapter1") ds s).
Proof.
  cbv zeta. apply (login_answered (sample_login 4096) 5 login_bytes 3 (accept_fd 5 TcpServer_new) (bytes "adapter1") (bytes "secret") None).
  - vm_compute. reflexivity.
  - reflexivity.
  - done.
  - repeat constructor; vm_compute; discriminate.
  - vm_compute. discriminate.
  - cbn. lia.
  - intros _. vm_compute. reflexivity.
Defined.

(** Two logins that overlap: both handlers look for the name before either has added it,
    and the table then holds the adapter twice. *)
Definition overlapping_logins : TcpServer + fault :=
  let s := accept_fd 6 (accept_fd 5 TcpServer_new) in
  match GetClient (bytes "adapter1") s, GetClient (bytes "adapter1") s with
  | inl None, inl None =>
      match HandleLoginEx_rest (sample_login 4096) false (bytes "adapter1") 5 3 true s with
      | inl (_, s) => state_of (HandleLoginEx_rest (sample_login 8192) false (bytes "adapter1") 6 3 true s)
      | inr f => inr f
      end
  | _, _ => inr OutOfBounds
  end.

Example overlapping_logins_duplicate :
  exists s, overlapping_logins = inl s /\
    omap (fun p => cc_cmsid <$> ts_heap s !! p) (ts_clientlist s) = [bytes "adapter1"; bytes "adapter1"].
Proof. eexists. split; vm_compute; reflexivity. Qed.

(** A reading task finds its client, the main thread deletes it for its silence, and the
    task goes on with the pointer. *)
Example handler_meets_deleted_client :
  let i := mk_login_inputs (mk_login 0 [] (Some [])) 4096 [] 1000 in
  let s := serve_all [Ev_accept 5; Ev_task i 5 login_conn true] TcpServer_new in
  client_of_fd 5 s = inl (Some 4096) /\
  HandlerRead_client 30000 4096 KEEP_ALIVE 0 None 0 true (serve_all [Ev_heartbeat 30000 [] [true]] s) = inr OutOfBounds.
Proof. split; vm_compute; reflexivity. Qed.
