(* ===== verification/AdapterLoop.v ===== *)
(** * AdapterLoop: the event loop of the adapters' server

    The constructor, [Connect] and [Run] of [atb_adapter/server_tcpsrv.cpp], with the
    queue of the thread pool and the part of the kernel that the loop relies on: the
    connections that wait for [accept], what has arrived on each descriptor and which
    descriptors have an event to report.  The table of clients is that of [Adapter]; its
    handlers are whole steps, the loop is cut between any two of its events.  Then
    [Start], [Stop] and the thread of [atb_adapter/AdapterServer.cpp]. *)
From stdpp Require Import gmap.
From S2P Require Import Prelude Streams Messages CmsClient Adapter AdapterProps.
From S2P Require EpollSocket.

Abbreviation EPOLLIN := EpollSocket.EPOLLIN.
Abbreviation has_bit := EpollSocket.has_bit.
Definition EPOLLOUT : Z := 4.
Definition EPOLLET : Z := 2 ^ 31.

Definition LISTENQ : Z := 20.

(** ** State *)

(** Where the loop is: [Run] has not been entered; at the test of [bExit_]; in
    [epoll_wait]; before the next of the reported events, each a descriptor (the [data]
    of its registration) with its bits; out of the loop. *)
Inductive loop_pc :=
  | L_idle
  | L_top
  | L_wait
  | L_events (evs : list (Z * Z))
  | L_done.

(** [al_ev] is the member [ev]: its [data.fd] and its [events].  The kernel: [al_data]
    is the [data.fd] of each registered descriptor; [al_backlog] counts the connections
    that wait for [accept]; [al_streams] is what has arrived and was not read; [al_pending]
    holds the descriptors with an event to report, [al_disarmed] those registered with
    [EPOLLONESHOT] that have reported one.  [al_tasks]: the descriptors of the tasks in
    the pool. *)
Record AdapterLoop := mk_loop {
  al_server : TcpServer;
  al_listenfd : Z;
  al_listening : bool;
  al_ev : Z * Z;
  al_data : gmap Z Z;
  al_backlog : Z;
  al_streams : gmap Z conn;
  al_pending : gset Z;
  al_disarmed : gset Z;
  al_tasks : list Z;
  al_pc : loop_pc;
}.

Definition set_server v l := mk_loop v (al_listenfd l) (al_listening l) (al_ev l) (al_data l) (al_backlog l) (al_streams l) (al_pending l) (al_disarmed l) (al_tasks l) (al_pc l).
Definition set_ev v l := mk_loop (al_server l) (al_listenfd l) (al_listening l) v (al_data l) (al_backlog l) (al_streams l) (al_pending l) (al_disarmed l) (al_tasks l) (al_pc l).
Definition set_data v l := mk_loop (al_server l) (al_listenfd l) (al_listening l) (al_ev l) v (al_backlog l) (al_streams l) (al_pending l) (al_disarmed l) (al_tasks l) (al_pc l).
Definition set_backlog v l := mk_loop (al_server l) (al_listenfd l) (al_listening l) (al_ev l) (al_data l) v (al_streams l) (al_pending l) (al_disarmed l) (al_tasks l) (al_pc l).
Definition set_streams v l := mk_loop (al_server l) (al_listenfd l) (al_listening l) (al_ev l) (al_data l) (al_backlog l) v (al_pending l) (al_disarmed l) (al_tasks l) (al_pc l).
Definition set_pending v l := mk_loop (al_server l) (al_listenfd l) (al_listening l) (al_ev l) (al_data l) (al_backlog l) (al_streams l) v (al_disarmed l) (al_tasks l) (al_pc l).
Definition set_disarmed v l := mk_loop (al_server l) (al_listenfd l) (al_listening l) (al_ev l) (al_data l) (al_backlog l) (al_streams l) (al_pending l) v (al_tasks l) (al_pc l).
Definition set_tasks v l := mk_loop (al_server l) (al_listenfd l) (al_listening l) (al_ev l) (al_data l) (al_backlog l) (al_streams l) (al_pending l) (al_disarmed l) v (al_pc l).
Definition set_pc v l := mk_loop (al_server l) (al_listenfd l) (al_listening l) (al_ev l) (al_data l) (al_backlog l) (al_streams l) (al_pending l) (al_disarmed l) (al_tasks l) v.

(** [TcpServer::TcpServer], with the descriptor that [socket] yields. *)
Definition AdapterLoop_new (listenfd : Z) : AdapterLoop :=
  mk_loop TcpServer_new listenfd false (listenfd, Z.lor EPOLLIN EPOLLET) {[listenfd := listenfd]} 0 ∅ ∅ ∅ [] L_idle.

(** The address that [Connect] binds: [inet_aton] leaves the field zero when it does not
    understand its argument; the port is narrowed to [uint16_t]. *)
Definition INADDR_ANY : Z := 0.
Definition serveraddr (inet_aton : list Z -> option Z) (host : option (list Z)) (port : Z) : Z * Z :=
  (match host with Some h => default 0 (inet_aton h) | None => INADDR_ANY end, uwrap 16 port).

(** [Connect]: what [bind] and [listen] answer is an input. *)
Definition Connect (bind_ret listen_ret : Z) (l : AdapterLoop) : bool * AdapterLoop :=
  let closed := mk_loop (al_server l) (al_listenfd l) false (al_ev l) (delete (al_listenfd l) (al_data l)) (al_backlog l) (al_streams l) (al_pending l) (al_disarmed l) (al_tasks l) (al_pc l) in
  if negb (bind_ret =? 0) then (false, closed)
  else if listen_ret =? -1 then (false, closed)
  else (true, mk_loop (al_server l) (al_listenfd l) true (al_ev l) (al_data l) (al_backlog l) (al_streams l) (al_pending l) (al_disarmed l) (al_tasks l) (al_pc l)).

(** ** The kernel *)

(** The kernel forgets a descriptor when it is closed. *)
Definition kernel_sync (l : AdapterLoop) : AdapterLoop :=
  let alive fd := bool_decide (fd ∈ ts_open (al_server l)) in
  set_streams (filter (fun p => alive p.1 = true) (al_streams l))
    (set_pending (filter (fun fd => alive fd = true \/ fd = al_listenfd l) (al_pending l))
      (set_disarmed (filter (fun fd => alive fd = true) (al_disarmed l)) l)).

(** A connection is established: the listening socket has an event. *)
Definition arrive_connection (l : AdapterLoop) : AdapterLoop :=
  set_backlog (al_backlog l + 1) (set_pending ({[al_listenfd l]} ∪ al_pending l) l).

(** A segment arrives on an accepted connection; an empty one is its end, a hang-up or an
    error. *)
Definition arrive_data (fd : Z) (seg : list Z) (l : AdapterLoop) : AdapterLoop :=
  let l := set_pending ({[fd]} ∪ al_pending l) l in
  match seg with
  | [] => l
  | _ => set_streams (<[fd := default [] (al_streams l !! fd) ++ [seg]]> (al_streams l)) l
  end.

(** [epoll_wait] reports an event that is pending; a descriptor with [EPOLLONESHOT] is
    disarmed by it.  The bits say what is ready at that time: they hold [EPOLLIN] whenever
    there is something to read, and on a listening socket always; a hang-up or an error
    may come without. *)
Definition unread (fd : Z) (l : AdapterLoop) : bool :=
  match al_streams l !! fd with Some (_ :: _) => true | _ => false end.

Definition reportable (l : AdapterLoop) (r : Z * Z) : bool :=
  let '(fd, bits) := r in
  (bool_decide (fd = al_listenfd l) || bool_decide (is_Some (ts_epoll (al_server l) !! fd)))
  && bool_decide (fd ∉ al_disarmed l)
  && bool_decide (fd ∈ al_pending l)
  && (has_bit EPOLLIN bits || (negb (fd =? al_listenfd l) && negb (unread fd l))).

Definition report (r : Z * Z) (l : AdapterLoop) : AdapterLoop :=
  let l := set_pending (al_pending l ∖ {[r.1]}) l in
  if bool_decide (ts_epoll (al_server l) !! r.1 = Some true) then set_disarmed ({[r.1]} ∪ al_disarmed l) l else l.

(** What the program sees of it. *)
Definition seen (l : AdapterLoop) (r : Z * Z) : Z * Z := (default r.1 (al_data l !! r.1), r.2).

(** [EPOLL_CTL_MOD] with [EPOLLIN | EPOLLET | EPOLLONESHOT] arms the descriptor again; it has
    an event at once if there is unread data. *)
Definition rearm (fd : Z) (l : AdapterLoop) : AdapterLoop :=
  let l := set_disarmed (al_disarmed l ∖ {[fd]}) l in
  match al_streams l !! fd with
  | Some (_ :: _) => set_pending ({[fd]} ∪ al_pending l) l
  | _ => l
  end.

(** ** Run *)

(** [bExit_ = false] *)
Definition Run_enter (l : AdapterLoop) : AdapterLoop :=
  set_pc L_top (set_server (set_exit false (al_server l)) l).

(** The test of [bExit_] and the pass over the clients. *)
Definition Run_top (now : Z) (strtime : list Z) (sents : list bool) (l : AdapterLoop) : AdapterLoop + fault :=
  if ts_exit (al_server l) then inl (set_pc L_done l)
  else
    match heartbeat now strtime sents (al_server l) with
    | inr f => inr f
    | inl s => inl (kernel_sync (set_pc L_wait (set_server s l)))
    end.

(** A new connection, with the data that is there already.  [ev] is a member: it keeps the
    descriptor.  [added]: [EPOLL_CTL_ADD] succeeds, which is not looked at; when it fails
    the connection stays open, but nothing refers to it any more. *)
Definition Run_accept (connfd : Z) (c : conn) (added : bool) (l : AdapterLoop) : AdapterLoop :=
  let l := set_ev (connfd, Z.lor EPOLLIN EPOLLET) l in
  if negb added then set_backlog (al_backlog l - 1) l else
  let l := set_server (accept_fd connfd (al_server l)) l in
  let l := set_data (<[connfd := connfd]> (al_data l)) l in
  let l := set_backlog (al_backlog l - 1) l in
  let l := set_streams (<[connfd := c]> (al_streams l)) l in
  match c with [] => l | _ => set_pending ({[connfd]} ∪ al_pending l) l end.

(** One event.  [accept] failing ends the process ([errexit]): [None].  [taken]: the pool
    takes the task. *)
Inductive event_answer :=
  | Ans_accept (connfd : Z) (c : conn) (added : bool)
  | Ans_no_accept
  | Ans_task (taken : bool).

Definition Run_event (a : event_answer) (e : Z * Z) (l : AdapterLoop) : option AdapterLoop + fault :=
  let '(fd, bits) := e in
  if fd =? al_listenfd l then
    match a with
    | Ans_accept connfd c added => inl (Some (Run_accept connfd c added l))
    | _ => inl None
    end
  else if has_bit EPOLLIN bits then
    if fd <? 0 then inl (Some l)
    else
      match a with
      | Ans_task false =>
          match DelClient_fd fd (al_server l) with
          | inr f => inr f
          | inl s => inl (Some (kernel_sync (set_server s l)))
          end
      | _ => inl (Some (set_tasks (al_tasks l ++ [fd]) l))
      end
  else inl (Some l).

(** A worker of the pool runs the task for [fd]: what the reading task does with the
    server is [task_run]; what it has not read stays, and [ResetOneshot] arms the
    descriptor. *)
Definition Run_task (i : login_inputs) (fd : Z) (sent : bool) (l : AdapterLoop) : AdapterLoop + fault :=
  let c := default [] (al_streams l !! fd) in
  match read_task c, task_run i fd c sent (al_server l) with
  | inl (t, rest), inl (_, s) =>
      let l := if decide (fd ∈ ts_open (al_server l)) then set_streams (<[fd := rest]> (al_streams l)) l else l in
      let l := match t with Task_read _ _ _ _ => rearm fd l | Task_del => l end in
      inl (kernel_sync (set_server s l))
  | inr f, _ | _, inr f => inr f
  end.

(** ** Runs *)
Inductive loop_input :=
  | In_connection
  | In_data (fd : Z) (seg : list Z)
  | In_run
  | In_top (now : Z) (strtime : list Z) (sents : list bool)
  | In_wait (rs : list (Z * Z))
  | In_event (a : event_answer)
  | In_task (k : nat) (i : login_inputs) (sent : bool)
  | In_web (e : server_event)
  | In_stop (now : Z) (strtime : list Z) (sents : list bool).

(** What the process does next: nothing, as the input does not fit; it ends by [exit(1)];
    a fault; it goes on. *)
Inductive outcome :=
  | Stuck
  | Exited
  | Faulted (f : fault)
  | Goes (l : AdapterLoop).

Definition goes (r : AdapterLoop + fault) : outcome := match r with inl l => Goes l | inr f => Faulted f end.

Definition on_server (r : TcpServer + fault) (l : AdapterLoop) : outcome :=
  goes (match r with inl s => inl (kernel_sync (set_server s l)) | inr f => inr f end).

Definition of_web (e : server_event) : bool :=
  match e with Ev_accept _ | Ev_task _ _ _ _ | Ev_refused _ | Ev_heartbeat _ _ _ => false | _ => true end.

Definition step (i : loop_input) (l : AdapterLoop) : outcome :=
  match i, al_pc l with
  | In_connection, _ => if al_listening l then Goes (arrive_connection l) else Stuck
  | In_data fd seg, _ => if bool_decide (fd ∈ ts_open (al_server l)) then Goes (arrive_data fd seg l) else Stuck
  | In_run, L_idle => Goes (Run_enter l)
  | In_top now strtime sents, L_top => goes (Run_top now strtime sents l)
  | In_wait rs, L_wait =>
      if forallb (reportable l) rs && bool_decide (NoDup rs.*1) && (zlen rs <=? LISTENQ)
      then Goes (set_pc (L_events (map (seen l) rs)) (foldr report l rs)) else Stuck
  | In_event a, L_events [] => Goes (set_pc L_top l)
  | In_event a, L_events (e :: evs) =>
      match Run_event a e l with
      | inl (Some l) => Goes (set_pc (L_events evs) l)
      | inl None => Exited
      | inr f => Faulted f
      end
  | In_task k i sent, _ =>
      match al_tasks l !! k with
      | Some fd => goes (Run_task i fd sent (set_tasks (delete k (al_tasks l)) l))
      | None => Stuck
      end
  | In_web e, _ => if of_web e then on_server (serve e (al_server l)) l else Stuck
  | In_stop now strtime sents, _ => on_server (Stop now strtime sents (al_server l)) l
  | _, _ => Stuck
  end.

(** ** Operations that nothing calls

    [EPOLL_CTL_MOD] of [fd] with the member [ev] as it was left. *)
Definition continue_with (bits fd : Z) (l : AdapterLoop) : AdapterLoop :=
  let l := set_ev (fst (al_ev l), Z.lor bits EPOLLET) l in
  match ts_epoll (al_server l) !! fd with
  | Some _ =>
      let s := al_server l in
      set_data (<[fd := fst (al_ev l)]> (al_data l))
        (set_server (mk_server (ts_heap s) (ts_clientlist s) (ts_open s) (<[fd := false]> (ts_epoll s)) (ts_exit s)) l)
  | None => l
  end.
Definition ContinueSend (fd : Z) (l : AdapterLoop) : AdapterLoop := continue_with EPOLLOUT fd l.
Definition ContinueRecv (fd : Z) (l : AdapterLoop) : AdapterLoop := continue_with EPOLLIN fd l.
Definition TriggerSend (fd : Z) (msg : list Z) (len : Z) (l : AdapterLoop) : bool * AdapterLoop := (true, ContinueSend fd l).

(** The same code as [TaskTcpReadMsg::run], for a pool of functions. *)
Definition read_func1 (i : login_inputs) (fd : Z) (c : conn) (sent : bool) (s : TcpServer) : (list Z * TcpServer) + fault :=
  task_run i fd c sent s.

(** The login without the database.  A failed [send] deletes the client, and one is added
    nevertheless. *)
Definition HandleLogin (addr now fd : Z) (buf : list Z) (seq : Z) (sent : bool) (s : TcpServer)
  : (list Z * TcpServer) + fault :=
  match login_request buf with
  | inr f => inr f
  | inl (cmsid, _) =>
      let msg := frame RESP_LOGIN seq (to_bytes (mk_resp_login 0 0 (zeros 64))) in
      match (if sent then inl s else DelClient_fd fd s) with
      | inr f => inr f
      | inl s => inl (msg, AddClient addr now fd cmsid s)
      end
  end.
