(* ===== verification/AdapterLoopProps.v ===== *)
(** * AdapterLoopProps: the adapters' server under its event loop

    Along every run of the loop, the pool and the web side the table of clients stays
    sound and unread data always has an event or a task to come, but on a connection that
    an event without [EPOLLIN] has left disarmed; connections that wait
    for [accept] behind a reported event stay there until one more arrives. *)
From stdpp Require Import gmap.
From S2P Require Import Prelude Streams Messages TimeSection CmsClient Adapter AdapterProps AdapterLoop.
From S2P Require EpollSocket.

(** ** No handler opens a descriptor *)

Definition shrinks (s : TcpServer) (r : TcpServer + fault) : Prop :=
  match r with inl s' => ts_open s' ⊆ ts_open s | inr _ => True end.

Lemma shrinks_trans s s1 r : ts_open s1 ⊆ ts_open s -> shrinks s1 r -> shrinks s r.
Proof. destruct r; cbn; [set_solver|done]. Qed.

Lemma shrinks_refl s : shrinks s (inl s).
Proof. cbn. set_solver. Qed.

#[local] Hint Resolve shrinks_refl : core.

(** Takes the innermost [match] apart. *)
Ltac open_cases :=
  repeat match goal with
    | |- context [match ?x with _ => _ end] =>
        lazymatch x with context [match _ with _ => _ end] => fail | _ => destruct x eqn:? end
    end; try done; try (cbn; set_solver).

Lemma remove_client_shrinks p s : shrinks s (remove_client p s).
Proof. unfold remove_client. open_cases. Qed.

Lemma DelClient_fd_shrinks fd s : shrinks s (DelClient_fd fd s).
Proof.
  unfold DelClient_fd. destruct (find_client _ _ _) as [[p|]|]; [|cbn; set_solver|done].
  pose proof (remove_client_shrinks p s) as H. destruct (remove_client p s); [cbn in *; set_solver|done].
Qed.

Lemma DelClient_fd_closes fd s s' : DelClient_fd fd s = inl s' -> fd ∉ ts_open s'.
Proof.
  unfold DelClient_fd. destruct (find_client _ _ _) as [[p|]|]; [destruct (remove_client p s)| |]; try done;
    intros [= <-]; cbn; set_solver.
Qed.

Lemma DelClient_cmsid_shrinks cmsid s : shrinks s (DelClient_cmsid cmsid s).
Proof.
  unfold DelClient_cmsid. destruct (GetClient cmsid s) as [[p|]|]; [|done|done].
  pose proof (remove_client_shrinks p s) as H. destruct (ts_heap s !! p), (remove_client p s); try done.
  destruct (_ =? _); cbn in *; set_solver.
Qed.

Lemma after_send_shrinks sent p s : shrinks s (after_send sent p s).
Proof. unfold after_send. destruct sent; [done|]. destruct (ts_heap s !! p); [apply DelClient_fd_shrinks|done]. Qed.

Lemma with_client_shrinks {A} p (f : CMSClient -> (A * CMSClient) + fault) s : shrinks s (state_of (with_client p f s)).
Proof. unfold with_client. open_cases. Qed.

Lemma notify_client_shrinks sent p f s : shrinks s (state_of (notify_client sent p f s)).
Proof.
  unfold notify_client. pose proof (with_client_shrinks p f s) as H. destruct (with_client p f s) as [[m s1]|]; [|done].
  pose proof (after_send_shrinks (sent || bool_decide (m = None)) p s1) as H1.
  destruct (after_send _ p s1); cbn in *; [set_solver|done].
Qed.

Lemma for_client_shrinks {A} cmsid (none : A) f s :
  (forall p, shrinks s (state_of (f p s))) -> shrinks s (state_of (for_client cmsid none f s)).
Proof. intros Hf. unfold for_client. destruct (GetClient cmsid s) as [[p|]|]; [apply Hf|done|done]. Qed.

Lemma login_client_shrinks i fd cmsid s :
  match login_client i fd cmsid s with inl (_, s') => ts_open s' ⊆ ts_open s | inr _ => True end.
Proof.
  unfold login_client. destruct (negb _); [done|]. destruct (la_devices (li_db i)) as [ds|]; [|done].
  pose proof (with_client_shrinks (li_addr i) (login_cameras 0 ds (li_addrs i) (zeros MAX_MSG)) (AddClient (li_addr i) (li_now i) fd cmsid s)) as H.
  destruct (with_client _ _ _) as [[b s1]|]; [|done]. exact H.
Qed.

Lemma HandleLoginEx_shrinks i fd buf seq sent s : shrinks s (state_of (HandleLoginEx i fd buf seq sent s)).
Proof.
  unfold HandleLoginEx. destruct (login_request buf) as [[cmsid psw]|]; [|done]. destruct (GetClient cmsid s) as [known|]; [|done].
  unfold HandleLoginEx_rest. pose proof (login_client_shrinks i fd cmsid s) as H.
  set (r := if bool_decide (is_Some known) then _ else _).
  assert (Hr : match r with inl (_, s') => ts_open s' ⊆ ts_open s | inr _ => True end) by (subst r; by destruct (bool_decide _)).
  destruct r as [[[[ret n] b] s1]|]; [|done]. destruct (login_reply _ _ _ _ _); [|done]. destruct sent; [done|].
  pose proof (DelClient_fd_shrinks fd s1) as Hd. destruct (DelClient_fd fd s1); [cbn in *; set_solver|done].
Qed.

Lemma HandlerRead_client_shrinks now p cmd seq buf size sent s :
  shrinks s (state_of (HandlerRead_client now p cmd seq buf size sent s)).
Proof.
  unfold HandlerRead_client. destruct (cmd =? KEEP_ALIVE).
  - pose proof (with_client_shrinks p (fun c => inl (update_livecount now seq c)) s) as H.
    destruct (with_client _ _ _) as [[m s1]|]; [|done]. pose proof (after_send_shrinks sent p s1) as Ha.
    destruct (after_send _ _ _); cbn in *; [set_solver|done].
  - destruct (cmd =? UPDATE_CHANGE); apply with_client_shrinks.
Qed.

Lemma HandlerRead_shrinks i fd cmd seq buf size sent s : shrinks s (state_of (HandlerRead i fd cmd seq buf size sent s)).
Proof.
  unfold HandlerRead. destruct (client_of_fd fd s) as [[p|]|]; [apply HandlerRead_client_shrinks| |done].
  unfold HandlerRead_unknown. destruct buf; [|cbn; set_solver].
  destruct (negb _ || negb _); [cbn; set_solver|apply HandleLoginEx_shrinks].
Qed.

Lemma task_run_shrinks i fd c sent s : shrinks s (state_of (task_run i fd c sent s)).
Proof.
  unfold task_run. destruct (read_task c) as [[[|cmd seq buf size] rest]|]; [| |done].
  - pose proof (DelClient_fd_shrinks fd s) as H. by destruct (DelClient_fd fd s).
  - eapply shrinks_trans; [|apply HandlerRead_shrinks]. done.
Qed.

Lemma check_clients_shrinks now strtime l : forall s, shrinks s (check_clients now strtime l s).
Proof.
  induction l as [|[p sent] l IH]; intros s; cbn [check_clients]; [done|].
  pose proof (with_client_shrinks p (CheckState now strtime) s) as H.
  destruct (with_client _ _ _) as [[[alive m] s1]|]; [|done]. cbn [state_of shrinks] in H.
  destruct (alive && _); [by eapply shrinks_trans|].
  pose proof (remove_client_shrinks p s1) as Hr. destruct (ts_heap s1 !! p), (remove_client p s1); try done.
  eapply shrinks_trans; [|apply IH]. cbn in *. set_solver.
Qed.

Lemma serve_shrinks e s : of_web e = true -> shrinks s (serve e s).
Proof.
  destruct e; try done; intros _; cbn [serve].
  - apply for_client_shrinks. intros p. destruct (camera_sections _ _ _); [apply notify_client_shrinks|done].
  - apply for_client_shrinks. intros p. apply notify_client_shrinks.
  - apply for_client_shrinks. intros p. destruct (camera_sections _ _ _); [apply with_client_shrinks|done].
  - unfold WriteoffCMSClientAccount. pose proof (DelClient_cmsid_shrinks cmsid s) as H. by destruct (DelClient_cmsid cmsid s).
  - apply with_client_shrinks.
  - apply with_client_shrinks.
  - apply after_send_shrinks.
Qed.

(** ** The invariant *)

Definition evs_of (pc : loop_pc) : list (Z * Z) := match pc with L_events evs => evs | _ => [] end.

(** A task for the descriptor is queued, or will be. *)
Definition busy (fd : Z) (l : AdapterLoop) : Prop :=
  fd ∈ al_tasks l \/ exists bits, (fd, bits) ∈ evs_of (al_pc l) /\ has_bit EPOLLIN bits = true.

(** [lost]: the descriptors of which an event without [EPOLLIN] was reported, which the
    loop only logs. *)
Definition forgotten (lost : gset Z) (fd : Z) (l : AdapterLoop) : Prop := fd ∈ lost /\ fd ∈ al_disarmed l.

Definition woken (lost : gset Z) (fd : Z) (l : AdapterLoop) : Prop :=
  (fd ∈ al_pending l /\ fd ∉ al_disarmed l) \/ busy fd l \/ forgotten lost fd l.

Record loop_ok (lost : gset Z) (l : AdapterLoop) : Prop := {
  lo_server : server_ok (al_server l);
  lo_listen : al_listenfd l ∉ ts_open (al_server l);
  lo_open : forall fd, fd ∈ ts_open (al_server l) -> 0 <= fd;
  lo_data : forall fd, fd ∈ ts_open (al_server l) -> al_data l !! fd = Some fd;
  lo_data_listen : al_listening l = true /\ al_data l !! al_listenfd l = Some (al_listenfd l);
  lo_streams : forall fd c, al_streams l !! fd = Some c -> fd ∈ ts_open (al_server l);
  lo_disarmed : forall fd, fd ∈ al_disarmed l -> fd ∈ ts_open (al_server l) /\ (busy fd l \/ fd ∈ lost);
  lo_woken : forall fd c, al_streams l !! fd = Some c -> c <> [] -> woken lost fd l;
}.

(** Only descriptors that are disarmed count as lost. *)
Lemma loop_ok_lost lost lost' l :
  (forall fd, fd ∈ al_disarmed l -> fd ∈ lost -> fd ∈ lost') -> loop_ok lost l -> loop_ok lost' l.
Proof.
  intros Hsub [H1 H2 H3 H4 H5 H6 H8 H9]. split; try done.
  - intros fd Hd. destruct (H8 fd Hd) as [Ho [Hb|Hb]]; auto.
  - intros fd c Hc Hne. destruct (H9 fd c Hc Hne) as [?|[?|[Hf Hd]]]; [by left|by right; left|right; right; split; auto].
Qed.

(** What the kernel and the callers promise about an input. *)
Definition input_ok (i : loop_input) (l : AdapterLoop) : Prop :=
  match i with
  | In_event (Ans_accept connfd _ _) =>
      0 <= connfd /\ connfd ∉ ts_open (al_server l) /\ connfd <> al_listenfd l /\ 0 < al_backlog l
  | In_task _ ins _ => inputs_ok ins (al_server l)
  | In_web e => event_ok e (al_server l)
  | _ => True
  end.

(** The descriptors that an input makes the loop forget: an event of them is reported that
    has no [EPOLLIN]. *)
Definition forgets (i : loop_input) : gset Z :=
  match i with
  | In_wait rs => list_to_set (filter (fun r => has_bit EPOLLIN r.2 = false) rs).*1
  | _ => ∅
  end.

(** A run, and the descriptors that are forgotten: until they are armed again or closed. *)
Inductive loop_run : gset Z -> AdapterLoop -> Prop :=
  | run_start listenfd l : 0 <= listenfd -> Connect 0 0 (AdapterLoop_new listenfd) = (true, l) -> loop_run ∅ l
  | run_input lost i l l' :
      loop_run lost l -> input_ok i l -> step i l = Goes l' -> loop_run ((forgets i ∪ lost) ∩ al_disarmed l') l'.

(** The handlers do not see what is in the kernel: a new state of the server under which
    only descriptors have been closed. *)
Lemma sync_ok lost s l :
  loop_ok lost l -> server_ok s -> ts_open s ⊆ ts_open (al_server l) -> loop_ok lost (kernel_sync (set_server s l)).
Proof.
  intros [H1 H2 H3 H4 H5 H6 H8 H9] Hs Ho. split; cbn; try done.
  - by intros ?%Ho.
  - intros fd ?%Ho. by apply H3.
  - intros fd ?%Ho. by apply H4.
  - intros fd c [_ Hfd]%map_lookup_filter_Some. cbn in Hfd. by apply bool_decide_eq_true in Hfd.
  - intros fd [Hfd Hd]%elem_of_filter. apply bool_decide_eq_true in Hfd. split; [done|]. by apply H8.
  - intros fd c [Hc Hfd]%map_lookup_filter_Some Hne. cbn in Hfd.
    destruct (H9 fd c Hc Hne) as [[Hp Hd]|[Hb|[Hf Hd]]]; [left|by right; left|right; right]; split; cbn; [| |done|].
    + apply elem_of_filter. by split; [left|].
    + by intros [_ ?]%elem_of_filter.
    + apply elem_of_filter. by split.
Qed.

(** ** Its preservation by the steps *)

(** A step that leaves the table, the streams and the arming alone, and loses no event. *)
Lemma adapter_loop_same lost l l' :
  loop_ok lost l -> al_server l' = al_server l -> al_listenfd l' = al_listenfd l -> al_listening l' = al_listening l ->
  al_data l' = al_data l -> al_streams l' = al_streams l -> al_pending l ⊆ al_pending l' ->
  al_disarmed l' = al_disarmed l ->
  (forall fd, fd ∈ ts_open (al_server l) -> busy fd l -> busy fd l') ->
  loop_ok lost l'.
Proof.
  intros [H1 H2 H3 H4 H5 H6 H8 H9] Es El Eg Ed Ec Hp Ea Hb.
  split; rewrite ?Es, ?El, ?Eg, ?Ed, ?Ec, ?Ea; try done.
  - intros fd [Ho [Hbu|Hf]]%H8; (split; [done|]); [left; by apply Hb|by right].
  - intros fd c Hc Hne. unfold woken, forgotten. rewrite Ea.
    destruct (H9 fd c Hc Hne) as [[Hpe Hd]|[Hbu|Hf]]; [left; by split; [apply Hp|]|right; left|by right; right].
    apply Hb; [by eapply H6|done].
Qed.

Lemma adapter_connection_ok lost l : loop_ok lost l -> loop_ok lost (arrive_connection l).
Proof. intros Hl. eapply adapter_loop_same; try done. cbn. set_solver. Qed.

Lemma arrive_data_ok lost fd seg l : loop_ok lost l -> fd ∈ ts_open (al_server l) -> loop_ok lost (arrive_data fd seg l).
Proof.
  intros Hl Ho. assert (Hp : loop_ok lost (set_pending ({[fd]} ∪ al_pending l) l)).
  { eapply adapter_loop_same; try done. cbn. set_solver. }
  unfold arrive_data. destruct seg as [|b seg]; [done|]. destruct Hp as [H1 H2 H3 H4 H5 H6 H8 H9].
  split; cbn in *; try done.
  - intros fd' c [[<- _]|[_ ?]]%lookup_insert_Some; [done|by eapply H6].
  - intros fd' c [[<- _]|[_ ?]]%lookup_insert_Some; [|by eapply H9]. intros _.
    destruct (decide (fd ∈ al_disarmed l)) as [Hd|Hd]; [|left; cbn; set_solver].
    right. destruct (H8 fd Hd) as [_ [Hb|Hf]]; [by left|by right].
Qed.

(** The state of the server is replaced by one with the same connections. *)
Lemma set_server_ok lost s l : loop_ok lost l -> server_ok s -> ts_open s = ts_open (al_server l) -> loop_ok lost (set_server s l).
Proof. intros [H1 H2 H3 H4 H5 H6 H8 H9] Hs E. split; cbn; rewrite ?E; done. Qed.

Lemma set_exit_ok b s : server_ok s -> server_ok (set_exit b s).
Proof. by intros [H1 H2 H3 H4 H5 H6 H7]. Qed.

(** The loop goes on with no event in hand. *)
Lemma set_pc_ok lost pc l : loop_ok lost l -> evs_of (al_pc l) = [] -> evs_of pc = [] -> loop_ok lost (set_pc pc l).
Proof.
  intros Hl E1 E2. eapply adapter_loop_same; try done. unfold busy. cbn. by rewrite E1, E2.
Qed.

Lemma Run_enter_ok lost l : loop_ok lost l -> al_pc l = L_idle -> loop_ok lost (Run_enter l).
Proof.
  intros Hl Epc. apply set_pc_ok; [|cbn; by rewrite Epc|done]. apply set_server_ok; [done|apply set_exit_ok, Hl|done].
Qed.

Lemma heartbeat_server now strtime sents s r : server_ok s -> heartbeat now strtime sents s = inl r ->
  server_ok r /\ ts_open r ⊆ ts_open s.
Proof.
  intros Hs Hh. split; [by eapply check_clients_ok|].
  pose proof (check_clients_shrinks now strtime (zip_with pair (ts_clientlist s) sents) s) as H.
  unfold heartbeat in Hh. by rewrite Hh in H.
Qed.

Lemma Run_top_ok lost now strtime sents l l' :
  loop_ok lost l -> al_pc l = L_top -> Run_top now strtime sents l = inl l' -> loop_ok lost l'.
Proof.
  intros Hl Epc. assert (Hpc : forall pc, evs_of pc = [] -> loop_ok lost (set_pc pc l)).
  { intros pc. by apply set_pc_ok; [|rewrite Epc]. }
  unfold Run_top. destruct (ts_exit _); [intros [= <-]; by apply Hpc|].
  destruct (heartbeat _ _ _ _) as [s|] eqn:Hh; [|done]. intros [= <-].
  apply heartbeat_server in Hh as [Hs Ho]; [|apply Hl].
  change (loop_ok lost (kernel_sync (set_server s (set_pc L_wait l)))). apply sync_ok; [by apply Hpc|done|done].
Qed.

(** Only the marks change when events are reported. *)
Definition same_marks_apart (l l' : AdapterLoop) : Prop :=
  al_server l' = al_server l /\ al_listenfd l' = al_listenfd l /\ al_listening l' = al_listening l /\
  al_data l' = al_data l /\ al_streams l' = al_streams l /\ al_tasks l' = al_tasks l /\ al_backlog l' = al_backlog l.

Lemma report_spec r l :
  same_marks_apart l (report r l) /\
  (forall fd, fd ∈ al_pending (report r l) <-> fd ∈ al_pending l /\ fd <> r.1) /\
  (forall fd, fd ∈ al_disarmed (report r l) <-> fd ∈ al_disarmed l \/ (fd = r.1 /\ ts_epoll (al_server l) !! fd = Some true)).
Proof.
  unfold report. destruct (bool_decide _) eqn:E; [apply bool_decide_eq_true in E|apply bool_decide_eq_false in E]; cbn;
    (split; [done|]); split; intros fd; rewrite ?elem_of_union, ?elem_of_difference, ?elem_of_singleton; try done.
  - split; [intros [->|?]; auto|intros [?|[-> ?]]; auto].
  - split; [auto|intros [?|[-> ?]]; [auto|done]].
Qed.

Lemma foldr_report l rs :
  same_marks_apart l (foldr report l rs) /\
  (forall fd, fd ∈ al_pending (foldr report l rs) <-> fd ∈ al_pending l /\ fd ∉ rs.*1) /\
  (forall fd, fd ∈ al_disarmed (foldr report l rs) <->
     fd ∈ al_disarmed l \/ (fd ∈ rs.*1 /\ ts_epoll (al_server l) !! fd = Some true)).
Proof.
  induction rs as [|r rs ((E1 & E2 & E3 & E4 & E5 & E6 & E7) & Hp & Hd)]; cbn [foldr fmap list_fmap].
  { split; [done|]. split; intros fd; set_solver. }
  destruct (report_spec r (foldr report l rs)) as ((F1 & F2 & F3 & F4 & F5 & F6 & F7) & Gp & Gd).
  split; [split_and!; congruence|]. split; intros fd.
  - rewrite Gp, Hp, not_elem_of_cons. tauto.
  - rewrite Gd, Hd, E1, elem_of_cons. tauto.
Qed.

Lemma In_wait_ok lost rs l :
  loop_ok lost l -> al_pc l = L_wait -> forallb (reportable l) rs = true ->
  map (seen l) rs = rs /\ loop_ok (forgets (In_wait rs) ∪ lost) (set_pc (L_events (map (seen l) rs)) (foldr report l rs)).
Proof.
  intros Hl Epc Hrep. assert (Hseen : map (seen l) rs = rs).
  { induction rs as [|[fd bits] rs IH]; [done|]. apply andb_true_iff in Hrep as [Hr Hrep]. cbn [map].
    rewrite (IH Hrep). f_equal. unfold seen. cbn [fst snd]. f_equal.
    apply andb_true_iff in Hr as [[[[Hr|Hr]%orb_true_iff _]%andb_true_iff _]%andb_true_iff _]; apply bool_decide_eq_true in Hr.
    - subst fd. by rewrite (proj2 (lo_data_listen lost l Hl)).
    - by rewrite (lo_data lost l Hl fd) by by apply (so_epoll _ (lo_server lost l Hl)). }
  split; [done|]. rewrite Hseen. destruct (foldr_report l rs) as ((E1 & E2 & E3 & E4 & E5 & E6 & E7) & Hp & Hd).
  assert (Hbusy : forall fd bits, (fd, bits) ∈ rs ->
    busy fd (set_pc (L_events rs) (foldr report l rs)) \/ (fd ∈ forgets (In_wait rs) /\ unread fd l = false)).
  { intros fd bits Hr. destruct (has_bit EPOLLIN bits) eqn:Hb; [left; right; by exists bits|right]. split.
    - apply elem_of_list_to_set, list_elem_of_fmap. exists (fd, bits). split; [done|]. by apply list_elem_of_filter.
    - rewrite forallb_forall in Hrep. specialize (Hrep (fd, bits) (proj1 (list_elem_of_In _ _) Hr)).
      unfold reportable in Hrep. rewrite Hb in Hrep. cbn [orb] in Hrep.
      apply andb_true_iff in Hrep as [_ [_ Hu]%andb_true_iff]. by apply negb_true_iff in Hu. }
  assert (Hkeep : forall fd, busy fd l -> busy fd (set_pc (L_events rs) (foldr report l rs))).
  { intros fd [Ht|(bits & Hb & _)]; [left; cbn; by rewrite E6|]. rewrite Epc in Hb. cbn in Hb. by apply not_elem_of_nil in Hb. }
  destruct Hl as [H1 H2 H3 H4 H5 H6 H8 H9].
  split; cbn [al_server al_listenfd al_data al_streams al_listening set_pc]; rewrite ?E1, ?E2, ?E3, ?E4, ?E5; try done.
  - intros fd [Hfd|[Hfd He]]%Hd; [destruct (H8 fd Hfd) as [Ho [Hb|Hf]]; (split; [done|]); [left; auto|right; set_solver]|].
    split; [apply (so_epoll _ H1); by exists true|]. apply list_elem_of_fmap in Hfd as ([? bits] & -> & Hr).
    destruct (Hbusy _ _ Hr) as [?|[? _]]; [by left|right; set_solver].
  - intros fd c Hc Hne. destruct (decide (fd ∈ rs.*1)) as [Hr|Hr].
    + apply list_elem_of_fmap in Hr as ([? bits] & -> & Hr). destruct (Hbusy _ _ Hr) as [?|[_ Hu]]; [by right; left|].
      cbn [fst] in Hc. unfold unread in Hu. rewrite Hc in Hu. by destruct c.
    + destruct (H9 fd c Hc Hne) as [[Hpe Hdi]|[Hb|[Hf Hdi]]]; [left|right; left; by apply Hkeep|right; right].
      * cbn. rewrite Hp, Hd. tauto.
      * split; [set_solver|]. cbn. apply Hd. by left.
Qed.

(** *** One event *)

(** An event that is not for a connection is done with. *)
Lemma pop_ok lost e evs l :
  loop_ok lost l -> al_pc l = L_events (e :: evs) -> 
  (e.1 ∉ ts_open (al_server l) \/ e.1 ∈ al_tasks l \/ has_bit EPOLLIN e.2 = false) -> loop_ok lost (set_pc (L_events evs) l).
Proof.
  intros Hl Epc He. eapply adapter_loop_same; try done. intros fd Hfd [Ht|(bits & Hb & Hbit)]; [by left|]. rewrite Epc in Hb. cbn in Hb.
  apply elem_of_cons in Hb as [<-|Hb]; [|by right; exists bits]. cbn in He.
  destruct He as [?|[?|?]]; [done|by left|congruence].
Qed.

Lemma Run_accept_ok lost connfd c added l :
  loop_ok lost l -> 0 <= connfd -> connfd ∉ ts_open (al_server l) -> connfd <> al_listenfd l -> loop_ok lost (Run_accept connfd c added l).
Proof.
  intros Hl H0 Hnew Hnl. destruct added; [|by eapply adapter_loop_same].
  destruct Hl as [H1 H2 H3 H4 [H5 H5'] H6 H8 H9].
  assert (Hl' : loop_ok lost (set_data (<[connfd := connfd]> (al_data l)) (set_server (accept_fd connfd (al_server l)) l))).
  { split; cbn; try done.
    - by apply accept_fd_ok.
    - set_solver.
    - intros fd [?| ->%elem_of_singleton]%elem_of_union; auto.
    - intros fd [Hfd| ->%elem_of_singleton]%elem_of_union; [|apply lookup_insert_eq].
      rewrite lookup_insert_ne; [by apply H4|]. by intros ->.
    - split; [done|]. by rewrite lookup_insert_ne.
    - intros fd c' ?%H6. set_solver.
    - intros fd [? ?]%H8. split; [set_solver|done]. }
  clear H1 H2 H3 H4 H5 H5' H6. destruct Hl' as [H1 H2 H3 H4 H5 H6 H8' H9'].
  assert (Hnd : connfd ∉ al_disarmed l) by by intros [? _]%H8.
  unfold Run_accept. cbn [negb]. destruct c as [|seg c]; split; cbn in *; try done.
  - intros fd c' [[<- _]|[_ ?]]%lookup_insert_Some; [set_solver|by eapply H6].
  - intros fd c' [[<- <-]|[_ ?]]%lookup_insert_Some; [done|by eapply H9'].
  - intros fd c' [[<- _]|[_ ?]]%lookup_insert_Some; [set_solver|by eapply H6].
  - intros fd c' [[<- <-]|[_ Hc]]%lookup_insert_Some Hne; [left; cbn; set_solver|].
    destruct (H9' fd c' Hc Hne) as [[? ?]|Hb]; [left; cbn in *; set_solver|right; exact Hb].
Qed.

Lemma Run_event_ok lost a e evs l l' :
  loop_ok lost l -> al_pc l = L_events (e :: evs) ->
  match a with Ans_accept connfd _ _ => 0 <= connfd /\ connfd ∉ ts_open (al_server l) /\ connfd <> al_listenfd l | _ => True end ->
  Run_event a e l = inl (Some l') -> loop_ok lost (set_pc (L_events evs) l').
Proof.
  intros Hl Epc Ha.
  unfold Run_event. destruct e as [fd bits]. cbn [snd fst] in *. destruct (fd =? al_listenfd l) eqn:Efd.
  { apply Z.eqb_eq in Efd. destruct a as [connfd c added| |]; try done. destruct Ha as (H0 & Hn & Hnl). intros [= <-].
    replace (set_pc _ _) with (Run_accept connfd c added (set_pc (L_events evs) l)) by by destruct c, added. apply Run_accept_ok; try done.
    eapply pop_ok; [done|done|]. left. cbn. rewrite Efd. apply Hl. }
  destruct (has_bit EPOLLIN bits) eqn:Hbit; [|intros [= <-]; by eapply pop_ok; [| |right; right]].
  destruct (fd <? 0) eqn:Eneg.
  { intros [= <-]. eapply pop_ok; [done|done|]. left. cbn. intros Ho%(lo_open lost l Hl). lia. }
  assert (Htask : loop_ok lost (set_pc (L_events evs) (set_tasks (al_tasks l ++ [fd]) l))).
  { eapply pop_ok; [|exact Epc|right; left; cbn; set_solver]. eapply adapter_loop_same; try done.
    intros fd' _ [?|?]; [left; cbn; set_solver|by right]. }
  assert (Hdel : match DelClient_fd fd (al_server l) with
    inl s => loop_ok lost (set_pc (L_events evs) (kernel_sync (set_server s l))) | inr _ => True end).
  { pose proof (DelClient_fd_shrinks fd (al_server l)) as Hs. destruct (DelClient_fd fd (al_server l)) as [s|] eqn:E; [|done].
    assert (Hok : loop_ok lost (kernel_sync (set_server s l))) by (apply sync_ok; [done|by eapply DelClient_fd_ok; [apply Hl|]|done]).
    eapply pop_ok; [done|exact Epc|]. left. by apply (DelClient_fd_closes fd (al_server l)). }
  destruct a as [| |[]]; try by intros [= <-]. destruct (DelClient_fd fd (al_server l)); [by intros [= <-]|done].
Qed.

(** *** One task *)

Lemma set_tasks_ok lost ts l :
  loop_ok lost l -> (forall fd, fd ∈ ts_open (al_server l) -> fd ∈ al_tasks l -> fd ∈ ts) -> loop_ok lost (set_tasks ts l).
Proof.
  intros Hl Hts. eapply adapter_loop_same; try done.
  intros fd Ho [Ht|Hb]; [left; by apply Hts|by right].
Qed.

Lemma set_stream_ok lost fd c l :
  loop_ok lost l -> fd ∈ ts_open (al_server l) -> fd ∈ al_tasks l -> loop_ok lost (set_streams (<[fd := c]> (al_streams l)) l).
Proof.
  intros [H1 H2 H3 H4 H5 H6 H8 H9] Ho Ht. split; cbn; try done.
  - intros fd' c' [[<- _]|[_ ?]]%lookup_insert_Some; [done|by eapply H6].
  - intros fd' c' [[<- _]|[_ Hc]]%lookup_insert_Some Hne; [right; left; by left|by eapply H9].
Qed.

Lemma rearm_server fd l : al_server (rearm fd l) = al_server l.
Proof. unfold rearm. cbn. by destruct (al_streams l !! fd) as [[]|]. Qed.

(** The descriptor of the task that ends is armed again, and has an event if there is more
    to read. *)
Lemma rearm_ok lost fd rest ts l :
  loop_ok lost l -> al_tasks l = fd :: ts -> fd ∈ ts_open (al_server l) ->
  loop_ok lost (rearm fd (set_streams (<[fd := rest]> (al_streams l)) (set_tasks ts l))).
Proof.
  intros [H1 H2 H3 H4 H5 H6 H8 H9] Et Ho.
  assert (Hb : forall fd' l', fd' <> fd -> al_pc l' = al_pc l -> busy fd' l -> al_tasks l' = ts -> busy fd' l').
  { intros fd' l' Hne Ep [Ht|[bits Hb]] El; [left|right].
    - rewrite El. rewrite Et in Ht. apply elem_of_cons in Ht as [?|?]; done.
    - exists bits. by rewrite Ep. }
  assert (Hs : forall fd' c, <[fd := rest]> (al_streams l) !! fd' = Some c -> fd' ∈ ts_open (al_server l)).
  { intros fd' c [[<- _]|[_ ?]]%lookup_insert_Some; [done|by eapply H6]. }
  assert (Hw : forall fd' l', fd' <> fd -> al_pc l' = al_pc l -> al_tasks l' = ts -> al_pending l ⊆ al_pending l' ->
    al_disarmed l' = al_disarmed l ∖ {[fd]} -> woken lost fd' l -> woken lost fd' l').
  { intros fd' l' Hne Ep El Hp Ed [[? ?]|[?|[? ?]]]; [left|right; left|right; right].
    - rewrite Ed. set_solver.
    - by apply Hb.
    - split; [done|]. rewrite Ed. set_solver. }
  unfold rearm. cbn. rewrite lookup_insert_eq. destruct rest as [|seg rest]; split; cbn; try done.
  1, 3: intros fd' [Hd Hne%not_elem_of_singleton]%elem_of_difference; split; [by apply H8|];
    destruct (H8 fd' Hd) as [_ [?|?]]; [left; by apply Hb|by right].
  - intros fd' c [[<- <-]|[Hne Hc]]%lookup_insert_Some Hc'; [done|]. by apply Hw; [..|by eapply H9].
  - intros fd' c [[<- <-]|[Hne Hc]]%lookup_insert_Some Hc'; [left; cbn; set_solver|].
    apply Hw; [done..|cbn; set_solver|done|by eapply H9].
Qed.

Lemma task_run_del i fd c sent s msg s' rest :
  read_task c = inl (Task_del, rest) -> task_run i fd c sent s = inl (msg, s') -> fd ∉ ts_open s'.
Proof.
  intros E. unfold task_run. rewrite E. destruct (DelClient_fd fd s) as [s1|] eqn:Hd; [|done]. intros [= _ <-].
  by eapply DelClient_fd_closes.
Qed.

Lemma Run_task_ok lost k i fd sent l l' :
  loop_ok lost l -> al_tasks l !! k = Some fd -> inputs_ok i (al_server l) ->
  Run_task i fd sent (set_tasks (delete k (al_tasks l)) l) = inl l' -> loop_ok lost l'.
Proof.
  intros Hl Hk Hi. set (ts := delete k (al_tasks l)).
  assert (Hl' : loop_ok lost (set_tasks (fd :: ts) l)).
  { apply set_tasks_ok; [done|]. intros fd' _ Hf. by rewrite (delete_Permutation _ _ _ Hk) in Hf. }
  clearbody ts. unfold Run_task. cbn [al_streams al_server set_tasks].
  set (c := default [] (al_streams l !! fd)). destruct (read_task c) as [[t rest]|] eqn:Et; [|done].
  destruct (task_run i fd c sent (al_server l)) as [[msg s]|] eqn:Er; [|done]. intros [= <-].
  pose proof (task_run_shrinks i fd c sent (al_server l)) as Hsh. rewrite Er in Hsh. cbn in Hsh.
  assert (Hc : fd ∈ ts_open (al_server l) \/ c = []).
  { subst c. destruct (al_streams l !! fd) as [c|] eqn:E; [left; by eapply (lo_streams lost l Hl)|by right]. }
  assert (Hs : server_ok s) by (eapply task_run_ok; [apply Hl|done|exact Hc|exact Er]).
  destruct (decide (fd ∈ ts_open (al_server l))) as [Ho|Ho].
  - destruct t as [|cmd seq buf size].
    + change (kernel_sync _) with (set_tasks ts (kernel_sync (set_server s (set_streams (<[fd:=rest]> (al_streams l)) (set_tasks (fd :: ts) l))))).
      apply task_run_del with (rest := rest) in Er; [|done].
      apply set_tasks_ok.
      * apply sync_ok; [apply (set_stream_ok lost fd rest (set_tasks (fd :: ts) l)); [done|done|left]|done|done].
      * cbn. intros fd' Hf [->|?]%elem_of_cons; done.
    + apply sync_ok; [|done|by rewrite rearm_server]. by apply (rearm_ok lost fd rest ts (set_tasks (fd :: ts) l)).
  - destruct Hc as [Hc|Hc]; [done|]. rewrite Hc in Et, Er. injection Et as <- <-.
    apply task_run_del with (rest := []) in Er; [|done].
    change (kernel_sync _) with (set_tasks ts (kernel_sync (set_server s (set_tasks (fd :: ts) l)))).
    apply set_tasks_ok; [by apply sync_ok|]. cbn. intros fd' Hf [->|?]%elem_of_cons; done.
Qed.

(** ** Runs *)

Lemma loop_new_ok listenfd l : 0 <= listenfd -> Connect 0 0 (AdapterLoop_new listenfd) = (true, l) -> loop_ok ∅ l.
Proof.
  intros Hf. unfold Connect. cbn. intros [= <-]. split; cbn; try done.
  - apply TcpServer_new_ok.
  - split; [done|]. apply lookup_singleton_eq.
Qed.

Lemma on_server_ok lost r l l' :
  loop_ok lost l -> shrinks (al_server l) r -> (forall s, r = inl s -> server_ok s) -> on_server r l = Goes l' -> loop_ok lost l'.
Proof.
  intros Hl Hsh Hs. unfold on_server. destruct r as [s|]; [|done]. intros [= <-]. apply sync_ok; auto.
Qed.

Lemma step_ok lost i l l' : loop_ok lost l -> input_ok i l -> step i l = Goes l' -> loop_ok (forgets i ∪ lost) l'.
Proof.
  intros Hl Hi. assert (Hw : loop_ok lost l' -> loop_ok (forgets i ∪ lost) l').
  { apply loop_ok_lost. set_solver. }
  unfold step. destruct i as [|fd seg| |now st sents|rs|a|k ins sent|e|now st sents]; cbn [input_ok] in Hi.
  - destruct (al_listening l); [|by destruct (al_pc l)]. destruct (al_pc l); intros [= <-]; by apply Hw, adapter_connection_ok.
  - destruct (bool_decide _) eqn:Ho; [apply bool_decide_eq_true in Ho|by destruct (al_pc l)].
    destruct (al_pc l); intros [= <-]; by apply Hw, arrive_data_ok.
  - destruct (al_pc l) eqn:Epc; try done. intros [= <-]. by apply Hw, Run_enter_ok.
  - destruct (al_pc l) eqn:Epc; try done. destruct (Run_top _ _ _ _) eqn:E; [|done]. intros [= <-]. apply Hw. by eapply Run_top_ok.
  - destruct (al_pc l) eqn:Epc; try done. destruct (_ && _ && _) eqn:E; [|done]. intros [= <-].
    apply andb_true_iff in E as [[E _]%andb_true_iff _]. by apply In_wait_ok.
  - destruct (al_pc l) as [| | |[|e evs]|] eqn:Epc; try done;
      [intros [= <-]; apply Hw, set_pc_ok; [done|by rewrite Epc|done]|].
    destruct (Run_event a e l) as [[l1|]|] eqn:E; try done. intros [= <-]. apply Hw. eapply Run_event_ok; [done|done| |done].
    destruct a; tauto.
  - destruct (al_tasks l !! k) as [fd|] eqn:Ek; [|by destruct (al_pc l)].
    destruct (Run_task _ _ _ _) as [l1|] eqn:E; [|by destruct (al_pc l)]. assert (El : loop_ok lost l1) by by eapply Run_task_ok.
    destruct (al_pc l); intros [= <-]; by apply Hw.
  - destruct (of_web e) eqn:Ew; [|by destruct (al_pc l)]. intros H. apply Hw.
    apply (on_server_ok lost (serve e (al_server l)) l); [done|by apply serve_shrinks| |by destruct (al_pc l)].
    intros s Hs. eapply serve_ok; [apply Hl|exact Hi|exact Hs].
  - intros H. apply Hw, (on_server_ok lost (Stop now st sents (al_server l)) l); [done| | |by destruct (al_pc l)].
    + unfold Stop. apply (check_clients_shrinks now st _ (set_exit true (al_server l))).
    + intros s Hs. eapply heartbeat_server; [|exact Hs]. apply set_exit_ok, Hl.
Qed.

Lemma loop_run_ok lost l : loop_run lost l -> loop_ok lost l.
Proof.
  induction 1 as [|lost i l l' _ IH Hi Hs]; [by eapply loop_new_ok|].
  eapply loop_ok_lost; [|by apply (step_ok lost i l l')]. intros fd Hd Hf. by apply elem_of_intersection.
Qed.

(** ** Theorems *)

(** C34. However connections come in, segments arrive, events are reported, registrations
    fail, tasks of the pool run between any two events of the loop, and the web side calls
    in, as long as a handler is not interrupted by another: no two clients of the table
    have the same connection or the same name, each has an open and registered connection,
    no search of the table follows a pointer to a deleted client.  When data has arrived on
    a registered connection and was not read, the kernel will report it under the right
    descriptor, or has reported it to the loop, or a task for it is queued: no wake-up is
    lost, but on a connection of which an event without [EPOLLIN] was reported (a hang-up
    or an error alone) while it was one-shot: it stays disarmed, and what arrives later is
    not seen until it is armed again.  Only such connections are [lost]. *)
Theorem no_wakeup_lost lost l :
  loop_run lost l ->
  table_sound (al_server l) /\
  (forall fd, fd ∈ lost -> fd ∈ al_disarmed l) /\
  (forall fd c, al_streams l !! fd = Some c -> c <> [] ->
     fd ∈ ts_open (al_server l) /\
     ((reportable l (fd, EPOLLIN) = true /\ seen l (fd, EPOLLIN) = (fd, EPOLLIN)) \/
      (exists bits, (fd, bits) ∈ evs_of (al_pc l) /\ has_bit EPOLLIN bits = true) \/
      fd ∈ al_tasks l \/
      fd ∈ lost)).
Proof.
  intros Hr. pose proof (loop_run_ok lost l Hr) as Hl. split; [apply server_ok_sound, Hl|]. split.
  { destruct Hr; set_solver. }
  intros fd c Hc Hne. assert (Ho : fd ∈ ts_open (al_server l)) by by eapply lo_streams. split; [done|].
  destruct (lo_woken lost l Hl fd c Hc Hne) as [[Hp Hd]|[[Ht|Hb]|[Hf _]]]; [left|by right; right; left|by right; left|by right; right; right].
  unfold seen. cbn [fst snd]. rewrite (lo_data lost l Hl fd Ho). split; [|done]. unfold reportable.
  apply (so_epoll _ (lo_server lost l Hl)) in Ho.
  rewrite (bool_decide_eq_true_2 (is_Some _)), (bool_decide_eq_true_2 (fd ∉ _)), (bool_decide_eq_true_2 (fd ∈ _)) by done.
  by rewrite orb_true_r.
Qed.

(** *** What waits behind the listening socket *)

(** The listening socket has no event to report and none in hand. *)
Definition quiet (l : AdapterLoop) : Prop :=
  al_listenfd l ∉ al_pending l /\ al_listenfd l ∉ (evs_of (al_pc l)).*1.

Lemma kernel_sync_pending l fd : fd ∈ al_pending (kernel_sync l) -> fd ∈ al_pending l.
Proof. by intros [_ ?]%elem_of_filter. Qed.

Lemma Run_event_quiet a e evs lost l l' :
  quiet l -> loop_ok lost l -> al_pc l = L_events (e :: evs) -> Run_event a e l = inl (Some l') ->
  quiet (set_pc (L_events evs) l') /\ al_backlog l' = al_backlog l.
Proof.
  intros [Hp Hq] Hl Epc. rewrite Epc in Hq. cbn in Hq. apply not_elem_of_cons in Hq as [Hne Hq].
  unfold Run_event. destruct e as [fd bits]. cbn in Hne. destruct (fd =? al_listenfd l) eqn:E; [lia|].
  destruct (has_bit EPOLLIN bits); [|by intros [= <-]]. destruct (fd <? 0); [by intros [= <-]|].
  destruct a as [| |[]]; try by intros [= <-]. destruct (DelClient_fd fd (al_server l)); [|done].
  intros [= <-]. split; [|done]. split; [by intros ?%kernel_sync_pending|done].
Qed.

Lemma rearm_quiet fd l : fd <> al_listenfd l -> al_listenfd l ∉ al_pending l ->
  al_listenfd l ∉ al_pending (rearm fd l) /\ al_backlog (rearm fd l) = al_backlog l /\
  al_pc (rearm fd l) = al_pc l /\ al_listenfd (rearm fd l) = al_listenfd l.
Proof. intros Hne Hp. unfold rearm. cbn. destruct (al_streams l !! fd) as [[|]|]; cbn; split_and!; set_solver. Qed.

Lemma Run_task_quiet i fd sent l l' :
  quiet l -> al_streams l !! al_listenfd l = None -> Run_task i fd sent l = inl l' -> quiet l' /\ al_backlog l' = al_backlog l.
Proof.
  intros [Hp Hq] Hl. unfold Run_task. destruct (read_task _) as [[t rest]|] eqn:Et; [|done].
  destruct (task_run _ _ _ _ _) as [[msg s]|]; [|done]. intros [= <-].
  set (l1 := if decide _ then _ else l).
  assert (H1 : al_pending l1 = al_pending l /\ al_backlog l1 = al_backlog l /\ al_pc l1 = al_pc l /\ al_listenfd l1 = al_listenfd l).
  { subst l1. by destruct (decide _). }
  destruct H1 as (E1 & E2 & E3 & E4).
  set (l2 := match t with Task_del => l1 | _ => _ end).
  assert (H2 : al_listenfd l ∉ al_pending l2 /\ al_backlog l2 = al_backlog l /\ al_pc l2 = al_pc l /\ al_listenfd l2 = al_listenfd l).
  { subst l2. destruct t as [|cmd seq buf size]; [by rewrite E1|]. rewrite <-E2, <-E3, <-E4.
    apply rearm_quiet; [|by rewrite E1, E4]. rewrite E4. intros ->.
    by rewrite Hl in Et. }
  destruct H2 as (F1 & F2 & F3 & F4). split; [|exact F2]. unfold quiet. cbn [al_listenfd al_pc kernel_sync set_streams set_pending set_disarmed set_server].
  rewrite F3, F4. split; [|done]. by intros ?%kernel_sync_pending.
Qed.

Lemma arrive_data_quiet fd seg l :
  quiet l -> fd <> al_listenfd l -> quiet (arrive_data fd seg l) /\ al_backlog (arrive_data fd seg l) = al_backlog l.
Proof. intros [Hp Hq] Hne. unfold arrive_data. destruct seg; split; try done; (split; [cbn; set_solver|done]). Qed.

Lemma Run_top_quiet now strtime sents l l' :
  quiet l -> Run_top now strtime sents l = inl l' -> quiet l' /\ al_backlog l' = al_backlog l.
Proof.
  intros [Hp _]. unfold Run_top. destruct (ts_exit _); [|destruct (heartbeat _ _ _ _); [|done]]; intros [= <-]; (split; [|done]).
  - by split; [|apply not_elem_of_nil].
  - split; [by intros ?%kernel_sync_pending|apply not_elem_of_nil].
Qed.

Lemma In_wait_quiet rs lost l :
  quiet l -> loop_ok lost l -> al_pc l = L_wait -> forallb (reportable l) rs = true -> quiet (set_pc (L_events (map (seen l) rs)) (foldr report l rs)).
Proof.
  intros [Hq _] Hl Epc E. destruct (In_wait_ok lost rs l Hl Epc E) as [-> _].
  destruct (foldr_report l rs) as ((E1 & E2 & E3 & E4 & E5 & E6 & E7) & Hp & Hd).
  unfold quiet. cbn. rewrite E2. split; [by intros [? _]%Hp|].
  intros ([fd bits] & Efd & Hr)%list_elem_of_fmap. cbn in Efd. subst fd.
  assert (Hrep : reportable l (al_listenfd l, bits) = true).
  { rewrite forallb_forall in E. apply E. by apply list_elem_of_In. }
  unfold reportable in Hrep. apply andb_true_iff in Hrep as [[_ Hrep]%andb_true_iff _].
  by apply bool_decide_eq_true in Hrep.
Qed.

Lemma on_server_quiet r l l' : quiet l -> on_server r l = Goes l' -> quiet l' /\ al_backlog l' = al_backlog l.
Proof.
  intros [Hp Hq]. unfold on_server. destruct r as [s|]; [|done]. intros [= <-]. split; [|done].
  split; [by intros ?%kernel_sync_pending|done].
Qed.

Lemma step_quiet i lost l l' :
  i <> In_connection -> quiet l -> loop_ok lost l -> input_ok i l -> step i l = Goes l' -> quiet l' /\ al_backlog l' = al_backlog l.
Proof.
  intros Hi Hq Hl Hok. unfold step. destruct i as [|fd seg| |now st sents|rs|a|k ins sent|e|now st sents]; [done|..].
  - destruct (bool_decide _) eqn:Ho; [apply bool_decide_eq_true in Ho|by destruct (al_pc l)].
    assert (Hne : fd <> al_listenfd l) by (intros ->; by apply (lo_listen lost l Hl)).
    destruct (al_pc l); intros [= <-]; by apply arrive_data_quiet.
  - destruct (al_pc l); try done. intros [= <-]. destruct Hq. by split; [split; [|apply not_elem_of_nil]|].
  - destruct (al_pc l); try done. destruct (Run_top _ _ _ _) eqn:E; [|done]. intros [= <-]. by eapply Run_top_quiet.
  - destruct (al_pc l) eqn:Epc; try done. destruct (_ && _ && _) eqn:E; [|done]. intros [= <-].
    apply andb_true_iff in E as [[E _]%andb_true_iff _]. split; [by eapply In_wait_quiet|].
    apply (foldr_report l rs).
  - destruct (al_pc l) as [| | |[|e evs]|] eqn:Epc; try done.
    + intros [= <-]. destruct Hq. by split; [split; [|apply not_elem_of_nil]|].
    + destruct (Run_event a e l) as [[l1|]|] eqn:E; try done. intros [= <-].
      exact (Run_event_quiet a e evs lost l l1 Hq Hl Epc E).
  - destruct (al_tasks l !! k) as [fd|] eqn:Ek; [|by destruct (al_pc l)].
    destruct (Run_task _ _ _ _) as [l1|] eqn:E; [|by destruct (al_pc l)].
    assert (H : quiet l1 /\ al_backlog l1 = al_backlog l); [|by destruct (al_pc l); intros [= <-]].
    eapply (Run_task_quiet ins fd sent (set_tasks (delete k (al_tasks l)) l)); [done| |done].
    cbn. destruct (al_streams l !! al_listenfd l) as [c|] eqn:Es; [|done]. by destruct (lo_listen lost l Hl (lo_streams lost l Hl _ c Es)).
  - destruct (of_web e); [|by destruct (al_pc l)]. intros H.
    apply (on_server_quiet (serve e (al_server l)) l); [done|by destruct (al_pc l)].
  - intros H. apply (on_server_quiet (Stop now st sents (al_server l)) l); [done|by destruct (al_pc l)].
Qed.

(** What follows a state without one more connection. *)
Inductive without_arrival (l : AdapterLoop) : AdapterLoop -> Prop :=
  | wa_refl : without_arrival l l
  | wa_step i l1 l2 : without_arrival l l1 -> i <> In_connection -> input_ok i l1 -> step i l1 = Goes l2 -> without_arrival l l2.

(** The listening socket is edge-triggered and [Run] accepts once for an event: when the
    event has been dealt with, the connections left behind it stay unaccepted, whatever the
    loop, the pool, the adapters and the web side do, until another one arrives. *)
Theorem backlog_waits lost l l' :
  loop_run lost l -> quiet l -> without_arrival l l' -> al_backlog l' = al_backlog l.
Proof.
  intros Hl Hq H. enough ((exists lost', loop_run lost' l') /\ quiet l' /\ al_backlog l' = al_backlog l) by tauto.
  induction H as [|i l1 l2 H ((lost' & IH1) & IH2 & IH3) Hi Hok Hs]; [by split; [exists lost|]|].
  destruct (step_quiet i lost' l1 l2 Hi IH2 (loop_run_ok lost' l1 IH1) Hok Hs).
  split; [eexists; by eapply run_input|]. split; [done|congruence].
Qed.

(** ** Concrete runs *)

(** [input_ok] for inputs that are not from the web side. *)
Definition input_okb (i : loop_input) (l : AdapterLoop) : bool :=
  match i with
  | In_event (Ans_accept connfd _ _) =>
      (0 <=? connfd) && bool_decide (connfd ∉ ts_open (al_server l)) && negb (connfd =? al_listenfd l) && (0 <? al_backlog l)
  | In_task _ ins _ => bool_decide (ts_heap (al_server l) !! li_addr ins = None) && bool_decide (NoDup (li_addrs ins))
  | In_web _ => false
  | _ => true
  end.

Lemma input_okb_ok i l : input_okb i l = true -> input_ok i l.
Proof.
  destruct i as [| | | |rs|[connfd c added| |]|k ins sent|e|]; try done; cbn [input_okb input_ok].
  - intros [[[? ?%bool_decide_eq_true]%andb_true_iff ?]%andb_true_iff ?]%andb_true_iff. split_and!; [lia|done|lia|lia].
  - intros [?%bool_decide_eq_true ?%bool_decide_eq_true]%andb_true_iff. done.
Qed.

Fixpoint okb_inputs (ins : list loop_input) (l : AdapterLoop) : bool :=
  match ins with
  | [] => true
  | i :: ins => input_okb i l && match step i l with Goes l => okb_inputs ins l | _ => false end
  end.

(** The state behind a list of inputs, and that it is a run. *)
Definition state_after (ins : list loop_input) (l : AdapterLoop) : AdapterLoop :=
  fold_left (fun l i => match step i l with Goes l => l | _ => l end) ins l.

Lemma state_after_run ins : forall lost l,
  loop_run lost l -> okb_inputs ins l = true -> exists lost', loop_run lost' (state_after ins l).
Proof.
  induction ins as [|i ins IH]; intros lost l Hl H; [by exists lost|]. apply andb_true_iff in H as [Hi H].
  unfold state_after. cbn [fold_left]. destruct (step i l) as [| | |l1] eqn:E; try done. eapply IH; [|done].
  eapply run_input; [done|by apply input_okb_ok|done].
Qed.

Definition arrives (i : loop_input) : bool := match i with In_connection => true | _ => false end.

Lemma without_inputs l0 ins : forall l,
  without_arrival l0 l -> forallb (negb ∘ arrives) ins = true -> okb_inputs ins l = true -> without_arrival l0 (state_after ins l).
Proof.
  induction ins as [|i ins IH]; intros l Hl Hc H; [done|]. apply andb_true_iff in H as [Hi H]. apply andb_true_iff in Hc as [Hn Hc].
  unfold state_after. cbn [fold_left]. destruct (step i l) as [| | |l1] eqn:E; try done. apply IH; [|done|done].
  apply (wa_step l0 i l l1); [done|by intros ->|by apply input_okb_ok|done].
Qed.

Definition listening : AdapterLoop := snd (Connect 0 0 (AdapterLoop_new 3)).

Lemma listening_run : loop_run ∅ listening.
Proof. by apply (run_start 3). Qed.

(** A login that arrives in two segments. *)
Definition login_part1 : list Z := take 50 (frame REQ_LOGIN 3 login_bytes).
Definition login_part2 : list Z := drop 50 (frame REQ_LOGIN 3 login_bytes).

Definition accept_one : list loop_input :=
  [In_connection; In_run; In_top 0 [] []; In_wait [(3, EPOLLIN)]; In_event (Ans_accept 7 [] true); In_event Ans_no_accept;
   In_top 0 [] []].

Definition round_for (fd : Z) : list loop_input :=
  [In_wait [(fd, EPOLLIN)]; In_event (Ans_task true); In_event Ans_no_accept; In_top 0 [] [true]].

Definition two_segments : AdapterLoop := state_after (accept_one ++ [In_data 7 login_part1] ++ round_for 7 ++ [In_data 7 login_part2]) listening.

Lemma two_segments_run : exists lost, loop_run lost two_segments.
Proof. unfold two_segments. eapply state_after_run; [exact listening_run|vm_compute; reflexivity]. Qed.

Lemma no_wakeup_lost_witness :
  exists lost : gset Z, table_sound (al_server two_segments) /\
  al_streams two_segments !! 7 = Some [login_part1; login_part2] /\
  ((reportable two_segments (7, EPOLLIN) = true /\ seen two_segments (7, EPOLLIN) = (7, EPOLLIN)) \/
   (exists bits, (7, bits) ∈ evs_of (al_pc two_segments) /\ has_bit EPOLLIN bits = true) \/
   7 ∈ al_tasks two_segments \/ 7 ∈ lost).
Proof.
  assert (Hs : al_streams two_segments !! 7 = Some [login_part1; login_part2]) by (vm_compute; reflexivity).
  destruct two_segments_run as [lost Hr]. exists lost. destruct (no_wakeup_lost lost two_segments Hr) as (Ht & _ & H).
  split; [exact Ht|]. split; [exact Hs|]. exact (proj2 (H 7 [login_part1; login_part2] Hs ltac:(discriminate))).
Defined.

(** An adapter has logged in, so that its connection is one-shot.  An error alone is
    reported; what it sends next is never seen. *)
Example error_forgets :
  let l1 := state_after ([In_data 7 (frame REQ_LOGIN 3 login_bytes)] ++ round_for 7 ++
              [In_task 0 (mk_login_inputs (mk_login 0 (bytes "17") (Some [])) 4096 [] 1000) true])
              (state_after accept_one listening) in
  let l2 := state_after [In_data 7 []; In_wait [(7, EpollSocket.EPOLLERR)]; In_event Ans_no_accept; In_event Ans_no_accept;
              In_data 7 [1]] l1 in
  ts_clientlist (al_server l1) = [4096] /\ bool_decide (7 ∈ al_disarmed l1) = false /\
  al_streams l2 !! 7 = Some [[1]] /\ reportable l2 (7, EPOLLIN) = false /\ al_tasks l2 = [] /\ evs_of (al_pc l2) = [].
Proof. by vm_compute. Qed.

(** Until [ResetOneshot] has been called once, the registration of a descriptor is not
    [EPOLLONESHOT]: each segment of the first message makes a task.  The first task logs
    the adapter in, the second finds nothing to read and deletes it; if it has cameras,
    deleting it is a fault ([CMSClient_delete]). *)
Definition no_cameras (addr : Z) : login_inputs := mk_login_inputs (mk_login 0 (bytes "17") (Some [])) addr [] 1000.

Example second_task_disconnects :
  let l1 := state_after (round_for 7) two_segments in
  let l2 := state_after [In_task 0 (no_cameras 4096) true] l1 in
  let l3 := state_after [In_task 0 (no_cameras 8192) true] l2 in
  al_tasks l1 = [7; 7] /\ ts_clientlist (al_server l2) = [4096] /\
  ts_clientlist (al_server l3) = [] /\ bool_decide (7 ∈ ts_open (al_server l3)) = false /\
  step (In_task 0 (no_cameras 8192) true) (state_after [In_task 0 (sample_login 4096) true] l1) = Faulted OutOfBounds.
Proof.
  by vm_compute.
Qed.

(** [Run] clears [bExit_] itself: a [Stop] before the thread has got there is lost. *)
Example stop_before_run_is_lost :
  let l := state_after [In_stop 0 [] []; In_run] listening in ts_exit (al_server l) = false /\ al_pc l = L_top.
Proof. by vm_compute. Qed.

(** Once the loop runs, [Stop] ends it at its next round. *)
Example stop_ends_the_loop :
  al_pc (state_after [In_stop 0 [] []; In_wait []; In_event Ans_no_accept; In_top 0 [] []] two_segments) = L_done.
Proof. by vm_compute. Qed.

(** [ContinueRecv] registers a descriptor with the [data] of the connection that was
    accepted last: its events are taken for that one's. *)
Example continue_recv_misdirects :
  let l := state_after [In_data 7 login_part1] (ContinueRecv 7 (Run_accept 8 [] true two_segments)) in
  seen l (7, EPOLLIN) = (8, EPOLLIN).
Proof. by vm_compute. Qed.

(** [HandleLogin] adds the client after it has closed its connection. *)
Example login_of_closed_connection :
  match HandleLogin 4096 0 7 login_bytes 1 false (accept_fd 7 TcpServer_new) with
  | inl (_, s) => ts_clientlist s = [4096] /\ bool_decide (7 ∈ ts_open s) = false
  | inr _ => False
  end.
Proof. by vm_compute. Qed.

(** Two connections arrive before the loop looks. *)
Definition two_arrivals : AdapterLoop := state_after ([In_connection] ++ accept_one) listening.
Definition served_first : AdapterLoop := state_after [In_data 7 login_part1; In_wait [(7, EPOLLIN)]; In_event (Ans_task true)] two_arrivals.

Lemma two_arrivals_run : exists lost, loop_run lost two_arrivals.
Proof. unfold two_arrivals. eapply state_after_run; [exact listening_run|vm_compute; reflexivity]. Qed.

Lemma backlog_waits_witness : al_backlog two_arrivals = 1 /\ al_backlog served_first = al_backlog two_arrivals.
Proof.
  split; [vm_compute; reflexivity|]. destruct two_arrivals_run as [lost Hr]. apply (backlog_waits lost two_arrivals served_first).
  - exact Hr.
  - split; apply (bool_decide_eq_true_1 _); vm_compute; reflexivity.
  - apply without_inputs; [apply wa_refl|vm_compute; reflexivity|vm_compute; reflexivity].
Defined.
