(* ===== verification/ConnPool.v ===== *)
(** * ConnPool: the pool of database connections

    [MysqlConnectionPool] of [atb_sak/src/mysql/mysql_connection_pool.cpp]: a deque
    under a mutex, with a semaphore that counts it.  [fetchConnection] and
    [recycleConnection] are two steps each, between which other threads can come.  What
    the MySQL client library answers is an input.

    No connection is handed to two threads or lost, and the deque is never popped when
    it is empty, provided that [openConnPool] has succeeded. *)
From stdpp Require Import base list.
From S2P Require Import Prelude.

(** ** Connections *)

(** [mysqlConnection]: whether [sock] is not [NULL], and the result of the last query. *)
Record mysqlConnection := mk_conn { mc_sock : bool; mc_res : Z }.

(** [executeSql]: the answers of [mysql_query], of [mysql_real_connect], and of
    [mysql_query] again.  The result, the connection, and how often the statement was
    sent; a query over a [NULL] socket is an access through it. *)
Definition executeSql (query1 : Z) (connected : bool) (query2 : Z) (c : mysqlConnection)
  : (Z * mysqlConnection * Z) + fault :=
  let res := if mc_sock c then query1 else 1 in
  let sent := if mc_sock c then 1 else 0 in
  if res =? 0 then inl (res, mk_conn (mc_sock c) res, sent)
  else if connected then inl (query2, mk_conn true query2, sent + 1)
  else inr OutOfBounds.

(** ** The pool

    [cp_popping] and [cp_posting] count the threads between [sem_timedwait] and
    [pop_front], and between [push_back] and [sem_post]; [cp_held] are the connections
    in the hands of threads. *)
Record MysqlConnectionPool := mk_pool {
  cp_connPool : list Z;
  cp_sem : Z;
  cp_popping : nat;
  cp_held : list Z;
  cp_posting : nat;
}.

Definition MAX_POOL_SIZE : Z := 256.

(** The number of connections that [openConnPool] makes. *)
Definition conn_num (coreConnNum : Z) : Z :=
  if (MAX_POOL_SIZE <? coreConnNum) || (coreConnNum <=? 0) then MAX_POOL_SIZE else coreConnNum.

(** [openConnPool]: the semaphore is set first; [conns] are the connections that could
    be made before the first that could not. *)
Definition openConnPool (coreConnNum : Z) (conns : list Z) : Z * MysqlConnectionPool :=
  let n := conn_num coreConnNum in
  let made := take (Z.to_nat n) conns in
  ((if zlen made =? n then 0 else 1), mk_pool made n 0 [] 0).

(** The steps of the threads; [None]: the thread is not there, or gets no connection. *)
Inductive pool_step :=
  | Fetch_wait         (* sem_timedwait *)
  | Fetch_pop          (* lock, front, pop_front, unlock *)
  | Recycle_push (c : Z)   (* lock, push_back, unlock *)
  | Recycle_post.      (* sem_post *)

Definition pool_act (a : pool_step) (p : MysqlConnectionPool) : option (MysqlConnectionPool + fault) :=
  match a with
  | Fetch_wait =>
      if 0 <? cp_sem p then
        Some (inl (mk_pool (cp_connPool p) (cp_sem p - 1) (S (cp_popping p)) (cp_held p) (cp_posting p)))
      else None
  | Fetch_pop =>
      match cp_popping p with
      | O => None
      | S n =>
          Some (match cp_connPool p with
                | [] => inr OutOfBounds
                | c :: l => inl (mk_pool l (cp_sem p) n (c :: cp_held p) (cp_posting p))
                end)
      end
  | Recycle_push c =>
      if bool_decide (c ∈ cp_held p) then
        Some (inl (mk_pool (cp_connPool p ++ [c]) (cp_sem p) (cp_popping p)
                     (erase c (cp_held p)) (S (cp_posting p))))
      else None
  | Recycle_post =>
      match cp_posting p with
      | O => None
      | S n => Some (inl (mk_pool (cp_connPool p) (cp_sem p + 1) (cp_popping p) (cp_held p) n))
      end
  end.

Inductive pool_run (p0 : MysqlConnectionPool) : MysqlConnectionPool -> Prop :=
  | prun_start : pool_run p0 p0
  | prun_step a p p' : pool_run p0 p -> pool_act a p = Some (inl p') -> pool_run p0 p'.

(** ** The invariant *)
Record conserved (conns : list Z) (p : MysqlConnectionPool) : Prop := {
  cs_perm : cp_connPool p ++ cp_held p ≡ₚ conns;
  cs_sem : zlen (cp_connPool p) = cp_sem p + Z.of_nat (cp_popping p) + Z.of_nat (cp_posting p);
  cs_nonneg : 0 <= cp_sem p;
}.

Lemma pool_act_conserved conns a p r :
  conserved conns p -> pool_act a p = Some r -> exists p', r = inl p' /\ conserved conns p'.
Proof.
  intros [H1 H2 H3]. destruct a; cbn [pool_act].
  - destruct (Z.ltb_spec 0 (cp_sem p)); [|done]. intros [= <-]. eexists. split; [done|]. split; cbn; [done|lia|lia].
  - destruct (cp_popping p) as [|n] eqn:En; [done|]. intros [= <-].
    destruct (cp_connPool p) as [|c l] eqn:Ep; [unfold zlen in H2; cbn in H2; lia|].
    eexists. split; [done|]. split; cbn; [|rewrite zlen_cons in H2; lia|done].
    rewrite <-H1. cbn. symmetry. apply Permutation_middle.
  - case_bool_decide as Hc; [|done]. intros [= <-]. eexists. split; [done|]. split; cbn; [|rewrite zlen_app; cbn; change (zlen [c]) with 1; lia|done].
    rewrite <-app_assoc. cbn. by rewrite erase_Permutation.
  - destruct (cp_posting p) as [|n] eqn:En; [done|]. intros [= <-]. eexists. split; [done|]. split; cbn; [done|lia|lia].
Qed.

(** C40. After a successful [openConnPool], under any interleaving of the threads: each
    connection is in the pool or in the hands of one thread, the pool is never popped when
    it is empty, and when no thread is in between, the semaphore is its size. *)
Theorem connections_conserved coreConnNum conns p0 p :
  openConnPool coreConnNum conns = (0, p0) -> pool_run p0 p ->
  cp_connPool p ++ cp_held p ≡ₚ take (Z.to_nat (conn_num coreConnNum)) conns /\
  (forall a f, pool_act a p <> Some (inr f)) /\
  (cp_popping p = 0%nat -> cp_posting p = 0%nat -> cp_sem p = zlen (cp_connPool p)).
Proof.
  intros Ho Hr. unfold openConnPool in Ho. set (made := take _ conns) in *.
  assert (H0 : conserved made p0).
  { destruct (Z.eqb_spec (zlen made) (conn_num coreConnNum)) as [E|]; [|done]. injection Ho as <-.
    split; cbn; [by rewrite app_nil_r|lia|]. rewrite <-E. apply zlen_nonneg. }
  assert (Hp : conserved made p).
  { induction Hr as [|a p1 p2 _ IH Ha]; [done|]. destruct (pool_act_conserved _ _ _ _ IH Ha) as (p' & [= <-] & ?). done. }
  split; [apply Hp|]. split.
  - intros a f Ha. by destruct (pool_act_conserved _ _ _ _ Hp Ha) as (p' & ? & _).
  - intros E1 E2. destruct Hp as [_ Hs _]. rewrite E1, E2 in Hs. lia.
Qed.

(** Two connections, one thread in the middle of giving its own back. *)
Definition two_conns : MysqlConnectionPool := (openConnPool 2 [11; 12]).2.

Lemma connections_conserved_witness :
  [12; 11] ++ [] ≡ₚ [11; 12] /\
  (forall a f, pool_act a (mk_pool [12; 11] 1 0 [] 1) <> Some (inr f)) /\
  (0%nat = 0%nat -> 1%nat = 0%nat -> 1 = 2).
Proof.
  apply (connections_conserved 2 [11; 12] two_conns (mk_pool [12; 11] 1 0 [] 1)).
  - reflexivity.
  - apply (prun_step _ (Recycle_push 11) (mk_pool [12] 1 0 [11] 0)); [|reflexivity].
    apply (prun_step _ Fetch_pop (mk_pool [11; 12] 1 1 [] 0)); [|reflexivity].
    apply (prun_step _ Fetch_wait two_conns); [|reflexivity]. apply prun_start.
Defined.

(** When a connection could not be made, the semaphore still counts it. *)
Example failed_open_pops_empty :
  let '(ret, p) := openConnPool 2 [] in
  ret = 1 /\
  exists p', pool_act Fetch_wait p = Some (inl p') /\ pool_act Fetch_pop p' = Some (inr OutOfBounds).
Proof. split; [reflexivity|]. eexists. split; reflexivity. Qed.

(** A statement that fails is sent once more. *)
Example failed_statement_sent_twice : executeSql 1 true 0 (mk_conn true 0) = inl (0, mk_conn true 0, 2).
Proof. reflexivity. Qed.
