(* ===== verification/ConnPoolLife.v ===== *)
(** * ConnPoolLife: settings, opening and closing of the connection pool

    The rest of [MysqlConnectionPool]: the settings as bytes of a structure, the wait for a
    connection with its interruptions and its limit, the connections as objects of the heap,
    and the destructor.  What the settings are read back as; what closing frees, and what it
    leaves to those who hold a connection. *)
From stdpp Require Import gmap.
From S2P Require Import Prelude Messages ConnPool.

(** ** The settings *)
Definition MAX_SETTING_STRING_LEN : Z := 256.

Record connectionSetting := mk_setting {
  cs_host : list Z;
  cs_port : Z;
  cs_database : list Z;
  cs_user : list Z;
  cs_password : list Z;
  cs_charset : list Z;
  cs_timeout : Z;
}.

(** The structure in memory. *)
Definition setting_bytes (s : connectionSetting) : list Z :=
  cs_host s ++ le32 (cs_port s) ++ cs_database s ++ cs_user s ++ cs_password s ++ cs_charset s ++ le32 (cs_timeout s).

(** [strncpy(field, src, MAX_SETTING_STRING_LEN)]: no NUL is written behind a source that
    fills the field. *)
Definition strncpy (src : list Z) : list Z := chars MAX_SETTING_STRING_LEN (take 256 src).

(** [setCharsetOption]; a [NULL] argument changes nothing. *)
Definition setCharsetOption (s : option connectionSetting) (charset : option (list Z)) : option connectionSetting :=
  match s, charset with
  | Some s, Some c =>
      Some (mk_setting (cs_host s) (cs_port s) (cs_database s) (cs_user s) (cs_password s) (strncpy c) (cs_timeout s))
  | _, _ => s
  end.

Definition make_setting (host : list Z) (port : Z) (user password database : list Z) : connectionSetting :=
  mk_setting (strncpy host) port (strncpy database) (strncpy user) (strncpy password)
    (chars MAX_SETTING_STRING_LEN (bytes "utf8")) 2.

(** What [mysql_options] and [mysql_real_connect] are handed: the strings that begin at the
    fields. *)
Record connect_args := mk_args {
  ca_host : option (list Z);
  ca_user : option (list Z);
  ca_password : option (list Z);
  ca_database : option (list Z);
  ca_port : Z;
  ca_charset : option (list Z);
  ca_timeout : Z;
}.

Definition field_at (offset : nat) (s : connectionSetting) : option (list Z) := c_str (drop offset (setting_bytes s)).

Definition connect_with (s : connectionSetting) : connect_args :=
  mk_args (field_at 0 s) (field_at 516 s) (field_at 772 s) (field_at 260 s) (cs_port s) (field_at 1028 s) (cs_timeout s).

(** ** The object

    [po_setting]: [connSetting], which the constructor does not set; [po_settings] and
    [po_conns] are the heap; a connection has the address of its settings and whether
    [sock] is not [NULL].  [po_sync]: mutex and semaphore exist. *)
Record connection := mk_connection { cn_setting : Z; cn_sock : bool }.

Record PoolObject := mk_pool_object {
  po_setting : option Z;
  po_settings : gmap Z connectionSetting;
  po_conns : gmap Z connection;
  po_sync : bool;
  po_pool : MysqlConnectionPool;
}.

Definition PoolObject_new : PoolObject := mk_pool_object None ∅ ∅ false (mk_pool [] 0 0 [] 0).

(** [initMysqlConnPool]; [addr] is the answer of [malloc], 0 for [NULL]. *)
Definition initMysqlConnPool (addr : Z) (host : option (list Z)) (port : Z) (user password database : option (list Z))
  (o : PoolObject) : (Z * PoolObject) + fault :=
  match host, user, password, database with
  | Some host, Some user, Some password, Some database =>
      if addr =? 0 then inr AssertFailed
      else inl (0, mk_pool_object (Some addr) (<[addr := make_setting host port user password database]> (po_settings o))
                     (po_conns o) (po_sync o) (po_pool o))
  | _, _, _, _ => inl (1, o)
  end.

(** The answers for one connection: the address of the object, [mysql_init] and
    [mysql_real_connect]. *)
Record open_answer := mk_open { oa_addr : Z; oa_init : bool; oa_connect : bool }.

(** The loop of [openConnPool] over [n] connections.  A connection that fails stays where it
    is. *)
Fixpoint open_loop (n : nat) (answers : nat -> open_answer) (i : nat) (setting : Z) (conns : gmap Z connection)
  (made : list Z) : Z * gmap Z connection * list Z :=
  match n with
  | O => (0, conns, made)
  | S n' =>
      let a := answers i in
      let connected := oa_init a && oa_connect a in
      let conns := <[oa_addr a := mk_connection setting connected]> conns in
      if connected then open_loop n' answers (S i) setting conns (made ++ [oa_addr a]) else (1, conns, made)
  end.

Definition open_pool (coreConnNum : Z) (answers : nat -> open_answer) (o : PoolObject) : (Z * PoolObject) + fault :=
  match po_setting o with
  | None => inr OutOfBounds
  | Some s =>
      let n := conn_num coreConnNum in
      let '(ret, conns, pool) := open_loop (Z.to_nat n) answers 0 s (po_conns o) (cp_connPool (po_pool o)) in
      inl (ret, mk_pool_object (po_setting o) (po_settings o) conns true
                  (mk_pool pool n 0 (cp_held (po_pool o)) 0))
  end.

(** The connections of the deque, closed and deleted one by one. *)
Fixpoint close_loop (pool : list Z) (conns : gmap Z connection) : gmap Z connection + fault :=
  match pool with
  | [] => inl conns
  | c :: pool' =>
      match conns !! c with
      | None => inr OutOfBounds
      | Some _ => close_loop pool' (delete c conns)
      end
  end.

(** [closeConnPool], the destructor.  The mutex and the semaphore must have been made, the
    settings are freed. *)
Definition closeConnPool (o : PoolObject) : PoolObject + fault :=
  if negb (po_sync o) then inr OutOfBounds
  else
    match close_loop (cp_connPool (po_pool o)) (po_conns o) with
    | inr f => inr f
    | inl conns =>
        match po_setting o with
        | None => inr OutOfBounds
        | Some s =>
            match po_settings o !! s with
            | None => inr OutOfBounds
            | Some _ =>
                inl (mk_pool_object (Some s) (delete s (po_settings o)) conns false
                       (mk_pool [] 0 (cp_popping (po_pool o)) (cp_held (po_pool o)) (cp_posting (po_pool o))))
            end
        end
    end.

(** ** Waiting

    What [sem_timedwait] answers, one second behind the time of the call at the latest. *)
Inductive wait_answer :=
  | Acquired
  | Interrupted
  | Timed_out
  | Wait_error.

(** [lockPool]: the time could be read; the answers until the wait ends. *)
Fixpoint wait_loop (answers : list wait_answer) : option Z :=
  match answers with
  | [] => None
  | Interrupted :: answers' => wait_loop answers'
  | Acquired :: _ => Some 0
  | _ :: _ => Some (-2)
  end.
Definition lockPool (clock : bool) (answers : list wait_answer) : option Z :=
  if clock then wait_loop answers else Some (-1).

(** [fetchConnection] by a thread that nobody interrupts; the answer [None] is [NULL]. *)
Definition fetchConnection (clock : bool) (answers : list wait_answer) (p : MysqlConnectionPool)
  : option ((option Z * MysqlConnectionPool) + fault) :=
  ret ← lockPool clock answers;
  if negb (ret =? 0) then Some (inl (None, p))
  else
    p1 ← pool_act Fetch_wait p;
    match p1 with
    | inr f => Some (inr f)
    | inl p1 =>
        p2 ← pool_act Fetch_pop p1;
        Some (match p2 with
              | inr f => inr f
              | inl p2 => inl (head (cp_held p2), p2)
              end)
    end.

Definition recycleConnection (c : Z) (p : MysqlConnectionPool) : option (MysqlConnectionPool + fault) :=
  p1 ← pool_act (Recycle_push c) p;
  match p1 with
  | inr f => Some (inr f)
  | inl p1 => pool_act Recycle_post p1
  end.

(** [executeSql] on the heap: a [NULL] argument is refused; a statement that fails is sent
    again over a new connection, for which the settings are read. *)
Definition execute_on (query1 : Z) (connected : bool) (query2 : Z) (conn : option Z) (sql : option (list Z)) (o : PoolObject)
  : (Z * PoolObject) + fault :=
  match conn, sql with
  | Some c, Some _ =>
      match po_conns o !! c with
      | None => inr OutOfBounds
      | Some cn =>
          let failed := negb (cn_sock cn && (query1 =? 0)) in
          if failed && negb (bool_decide (is_Some (po_settings o !! cn_setting cn))) then inr OutOfBounds
          else
            match executeSql query1 connected query2 (mk_conn (cn_sock cn) 0) with
            | inr f => inr f
            | inl (res, c', _) =>
                inl (res, mk_pool_object (po_setting o) (po_settings o)
                            (<[c := mk_connection (cn_setting cn) (mc_sock c')]> (po_conns o)) (po_sync o) (po_pool o))
            end
      end
  | _, _ => inl (1, o)
  end.

(** ** What the settings are read back as

    [rest] is what the memory behind the field begins with. *)
Definition handed (arg : list Z) (rest : option (list Z)) : option (list Z) :=
  if zlen arg <? MAX_SETTING_STRING_LEN then Some arg else app (take 256 arg) <$> rest.

Lemma c_str_prefix l k : 0 ∉ l -> c_str (l ++ k) = app l <$> c_str k.
Proof.
  induction l as [|x l IH]; intros Hl; cbn; [by destruct (c_str k)|]. apply not_elem_of_cons in Hl as [Hx Hl].
  rewrite (proj2 (Z.eqb_neq _ _)) by done. rewrite (IH Hl). by destruct (c_str k).
Qed.

Lemma length_strncpy l : length (strncpy l) = 256%nat.
Proof.
  pose proof (zlen_chars MAX_SETTING_STRING_LEN (take 256 l)) as H. unfold zlen in H. rewrite length_take in H.
  unfold strncpy, MAX_SETTING_STRING_LEN in *. lia.
Qed.

Lemma c_str_strncpy l k : 0 ∉ l -> c_str (strncpy l ++ k) = handed l (c_str k).
Proof.
  intros Hl. unfold strncpy, handed. destruct (Z.ltb_spec (zlen l) MAX_SETTING_STRING_LEN) as [Hs|Hs].
  - unfold zlen, MAX_SETTING_STRING_LEN in Hs. rewrite take_ge by lia. by apply c_str_chars.
  - assert (E : zlen (take 256 l) = MAX_SETTING_STRING_LEN).
    { unfold zlen, MAX_SETTING_STRING_LEN in *. rewrite length_take. lia. }
    unfold chars. rewrite E, Z.sub_diag. cbn [zeros]. unfold zeros. cbn. rewrite app_nil_r. apply c_str_prefix.
    intros Hin. apply Hl. rewrite <-(take_drop 256 l). apply elem_of_app. by left.
Qed.

(** The bytes of a port hold a NUL. *)
Lemma le32_string port k : 0 <= port < 2 ^ 16 -> c_str (le32 port ++ k) = c_str (le32 port).
Proof.
  intros Hp. assert (E : u8 (port / 2 ^ 16) = 0) by by rewrite Z.div_small by lia.
  unfold le32. rewrite E. cbn. by repeat (destruct (_ =? 0); cbn; [done|]).
Qed.

Lemma field_at_eq s n pre suf : setting_bytes s = pre ++ suf -> n = length pre -> field_at n s = c_str suf.
Proof. intros E ->. unfold field_at. by rewrite E, drop_app_length. Qed.

Lemma length_fields host port user password database :
  let l4 := strncpy host ++ le32 port ++ strncpy database in
  length l4 = 516%nat /\ length (l4 ++ strncpy user) = 772%nat /\
  length ((l4 ++ strncpy user) ++ strncpy password) = 1028%nat.
Proof. cbn zeta. rewrite !length_app, !length_strncpy. cbn. lia. Qed.

(** What the client library is handed by a connection: the host, user, password and
    database that were given, as long as each has less than 256 bytes, the port, the charset
    "utf8" and two seconds; an argument of 256 bytes or more is cut there and runs on into the
    field behind it, the database into the user, the user into the password, the password
    into the charset and the host into the bytes of the port. *)
Theorem settings_handed host port user password database :
  0 ∉ host -> 0 ∉ user -> 0 ∉ password -> 0 ∉ database -> 0 <= port < 2 ^ 16 ->
  let p := handed password (Some (bytes "utf8")) in
  let u := handed user p in
  connect_with (make_setting host port user password database) =
    mk_args (handed host (c_str (le32 port))) u p (handed database u) port (Some (bytes "utf8")) 2.
Proof.
  intros Hh Hu Hp Hd Hport p u.
  set (s := make_setting host port user password database). set (cs := chars 256 (bytes "utf8") ++ le32 2).
  destruct (length_fields host port user password database) as (L3 & L4 & L5). cbn zeta in *.
  assert (Ec : c_str cs = Some (bytes "utf8")) by by vm_compute.
  assert (E5 : field_at 1028 s = Some (bytes "utf8")).
  { rewrite <-Ec. eapply field_at_eq; [|symmetry; exact L5]. by rewrite <-!app_assoc. }
  assert (E4 : field_at 772 s = p).
  { unfold p. rewrite <-Ec, <-c_str_strncpy by done. eapply field_at_eq; [|symmetry; exact L4]. by rewrite <-!app_assoc. }
  assert (E3 : field_at 516 s = u).
  { unfold u, p. rewrite <-Ec, <-!c_str_strncpy by done. eapply field_at_eq; [|symmetry; exact L3]. by rewrite <-!app_assoc. }
  assert (E2 : field_at 260 s = handed database u).
  { unfold u, p. rewrite <-Ec, <-!c_str_strncpy by done. apply (field_at_eq _ _ (strncpy host ++ le32 port)).
    - by rewrite <-!app_assoc.
    - by rewrite length_app, length_strncpy. }
  assert (E1 : field_at 0 s = handed host (c_str (le32 port))).
  { rewrite <-(le32_string port (strncpy database ++ strncpy user ++ strncpy password ++ cs)) by done.
    rewrite <-c_str_strncpy by done. by apply (field_at_eq _ _ []). }
  unfold connect_with. by rewrite E1, E2, E3, E4, E5.
Qed.

Lemma settings_handed_witness :
  connect_with (make_setting (bytes "localhost") 3306 (bytes "user") (bytes "secret") (bytes "db")) =
    mk_args (Some (bytes "localhost")) (Some (bytes "user")) (Some (bytes "secret")) (Some (bytes "db")) 3306
      (Some (bytes "utf8")) 2.
Proof.
  rewrite (settings_handed (bytes "localhost") 3306 (bytes "user") (bytes "secret") (bytes "db")); [reflexivity|decide_now..|].
  lia.
Defined.

(** A database name of 256 bytes swallows the user. *)
Example long_database :
  ca_database (connect_with (make_setting [] 3306 (bytes "user") [] (replicate 256 65))) =
    Some (replicate 256 65 ++ bytes "user").
Proof. by vm_compute. Qed.

(** ** Opening and closing *)

(** The addresses of [n] answers. *)
Definition addrs (answers : nat -> open_answer) (i n : nat) : list Z := (fun j => oa_addr (answers j)) <$> seq i n.

(** The loop makes a prefix of the connections; the one that fails is in the heap and not in
    the pool. *)
Lemma open_loop_ok answers s n : forall i conns made ret conns' made',
  open_loop n answers i s conns made = (ret, conns', made') ->
  exists k, (k <= n)%nat /\ made' = made ++ addrs answers i k /\ (ret = 0 <-> k = n) /\ (ret = 0 \/ ret = 1) /\
    forall c, is_Some (conns' !! c) <->
      is_Some (conns !! c) \/ c ∈ addrs answers i k \/ (ret <> 0 /\ c = oa_addr (answers (i + k)%nat)).
Proof.
  induction n as [|n IH]; intros i conns made ret conns' made'; cbn.
  { intros [= <- <- <-]. exists 0%nat. cbn. rewrite app_nil_r. split; [lia|]. split; [done|]. split; [done|]. split; [by left|].
    intros c. rewrite elem_of_nil. tauto. }
  destruct (oa_init (answers i) && oa_connect (answers i)).
  - intros (k & Hk & -> & Hr & Hr' & Hc)%IH. exists (S k). split; [lia|]. split; [by rewrite <-app_assoc|].
    split; [rewrite Hr; lia|]. split; [done|]. intros c. rewrite (Hc c), lookup_insert_is_Some'. cbn.
    rewrite elem_of_cons, Nat.add_succ_r. naive_solver.
  - intros [= <- <- <-]. exists 0%nat. cbn. rewrite app_nil_r, Nat.add_0_r. split; [lia|]. split; [done|]. split; [lia|].
    split; [by right|]. intros c. rewrite lookup_insert_is_Some', elem_of_nil. naive_solver.
Qed.

Lemma close_loop_ok pool : forall conns, NoDup pool -> (forall c, c ∈ pool -> is_Some (conns !! c)) ->
  exists conns', close_loop pool conns = inl conns' /\
    forall c, is_Some (conns' !! c) <-> is_Some (conns !! c) /\ c ∉ pool.
Proof.
  induction pool as [|c pool IH]; intros conns Hnd Hin; cbn.
  { exists conns. split; [done|]. intros c. rewrite elem_of_nil. tauto. }
  apply NoDup_cons in Hnd as [Hc Hnd]. destruct (Hin c ltac:(left)) as [cn E]. rewrite E.
  destruct (IH (delete c conns) Hnd) as (conns' & E' & Hconns').
  { intros c' Hc'. rewrite lookup_delete_ne by (intros ->; done). apply Hin. by right. }
  exists conns'. split; [done|]. intros c'. rewrite Hconns', lookup_delete_is_Some, elem_of_cons. naive_solver.
Qed.

Lemma pool_act_perm a p p' : pool_act a p = Some (inl p') ->
  cp_connPool p' ++ cp_held p' ≡ₚ cp_connPool p ++ cp_held p.
Proof.
  destruct a; cbn.
  - destruct (0 <? cp_sem p); [|done]. by intros [= <-].
  - destruct (cp_popping p); [done|]. destruct (cp_connPool p); intros [= <-]. cbn. symmetry. apply Permutation_middle.
  - case_bool_decide; [|done]. intros [= <-]. cbn. rewrite <-app_assoc. cbn. by rewrite erase_Permutation.
  - destruct (cp_posting p); [done|]. by intros [= <-].
Qed.

Lemma pool_run_perm p0 p : pool_run p0 p -> cp_connPool p ++ cp_held p ≡ₚ cp_connPool p0 ++ cp_held p0.
Proof. induction 1 as [|a p p' _ IH Ha]; [done|]. by rewrite (pool_act_perm _ _ _ Ha). Qed.

Definition with_pool (p : MysqlConnectionPool) (o : PoolObject) : PoolObject :=
  mk_pool_object (po_setting o) (po_settings o) (po_conns o) (po_sync o) p.

Lemma conn_num_pos n : 0 < conn_num n.
Proof. unfold conn_num, MAX_POOL_SIZE. destruct (Z.ltb_spec 256 n), (Z.leb_spec n 0); cbn; lia. Qed.

(** From the settings to the destructor: [openConnPool] makes the pool of [ConnPool]
    from the connections up to the first that fails; whatever threads do with it meanwhile,
    the destructor closes and deletes each connection of the deque once and frees the
    settings; what is left are the connections that threads still hold and, after a failed
    [openConnPool], the one that failed. *)
Theorem pool_closed addr host port user password database coreConnNum answers o1 ret o2 p :
  initMysqlConnPool addr (Some host) port (Some user) (Some password) (Some database) PoolObject_new = inl (0, o1) ->
  (forall i j, oa_addr (answers i) = oa_addr (answers j) -> i = j) ->
  open_pool coreConnNum answers o1 = inl (ret, o2) -> pool_run (po_pool o2) p ->
  exists k o3,
    openConnPool coreConnNum (addrs answers 0 k) = (ret, po_pool o2) /\
    closeConnPool (with_pool p o2) = inl o3 /\ po_settings o3 = ∅ /\
    forall c, is_Some (po_conns o3 !! c) <-> c ∈ cp_held p \/ (ret <> 0 /\ c = oa_addr (answers k)).
Proof.
  unfold initMysqlConnPool. destruct (addr =? 0); [done|]. intros [= <-] Hinj. unfold open_pool. cbn.
  destruct (open_loop _ _ _ _ _ _) as [[r conns] pool] eqn:E. intros [= <- <-] Hrun.
  apply open_loop_ok in E as (k & Hk & -> & Hr & Hr' & Hc). cbn in *. exists k.
  pose proof (pool_run_perm _ _ Hrun) as Hperm. cbn in Hperm. rewrite app_nil_r in Hperm.
  assert (Hnd : NoDup (addrs answers 0 k)).
  { apply NoDup_fmap_2; [|apply NoDup_seq]. intros i j. apply Hinj. }
  assert (Hlen : length (addrs answers 0 k) = k) by (unfold addrs; by rewrite length_fmap, length_seq).
  assert (Hin : forall c, c ∈ cp_connPool p \/ c ∈ cp_held p <-> c ∈ addrs answers 0 k) by (intros c; by rewrite <-elem_of_app, Hperm).
  rewrite <-Hperm in Hnd. apply NoDup_app in Hnd as (Hnd & Hdis & _).
  destruct (close_loop_ok (cp_connPool p) conns Hnd) as (conns' & Ec & Hleft).
  { intros c Hcp. apply Hc. right. left. apply Hin. by left. }
  unfold closeConnPool. cbn. rewrite Ec, lookup_insert_eq. eexists. split; [|split; [done|]].
  - unfold openConnPool. pose proof (conn_num_pos coreConnNum) as Hpos. rewrite take_ge by (rewrite Hlen; lia). do 2 f_equal.
    unfold zlen. rewrite Hlen. destruct (Z.eqb_spec (Z.of_nat k) (conn_num coreConnNum)); [symmetry; apply Hr|destruct Hr' as [Hz|]; [apply Hr in Hz|]]; lia.
  - cbn. rewrite delete_insert_id by done. split; [done|]. intros c. rewrite Hleft, Hc, lookup_empty.
    assert (Hlast : oa_addr (answers k) ∉ cp_connPool p).
    { intros Hl. assert (Ha : oa_addr (answers k) ∈ addrs answers 0 k) by (apply Hin; by left).
      apply list_elem_of_fmap in Ha as (j & Ej%Hinj & Hj). apply elem_of_seq in Hj. lia. }
    specialize (Hin c). specialize (Hdis c). split.
    + intros [[[? [=]]|[Ha|Ha]] Hno]; [|by right]. left. apply Hin in Ha. by destruct Ha.
    + intros [Hh|[Hr0 ->]]; [|by auto 6]. split; [right; left; apply Hin; by right|]. intros Hp. by apply Hdis in Hp.
Qed.

Definition two_answers (i : nat) : open_answer := mk_open (11 + Z.of_nat i) true true.
Definition opened : PoolObject :=
  match initMysqlConnPool 5 (Some (bytes "h")) 3306 (Some (bytes "u")) (Some (bytes "p")) (Some (bytes "d")) PoolObject_new with
  | inl (_, o) => match open_pool 2 two_answers o with inl (_, o) => o | inr _ => o end
  | inr _ => PoolObject_new
  end.
Definition inited : PoolObject :=
  mk_pool_object (Some 5) {[5 := make_setting (bytes "h") 3306 (bytes "u") (bytes "p") (bytes "d")]} ∅ false (mk_pool [] 0 0 [] 0).

(** One of two connections is with a thread when the pool is closed. *)
Lemma pool_closed_witness : exists k o3,
  openConnPool 2 (addrs two_answers 0 k) = (0, po_pool opened) /\
  closeConnPool (with_pool (mk_pool [12] 1 0 [11] 0) opened) = inl o3 /\ po_settings o3 = ∅ /\
  forall c, is_Some (po_conns o3 !! c) <-> c ∈ [11] \/ (0 <> 0 /\ c = oa_addr (two_answers k)).
Proof.
  apply (pool_closed 5 (bytes "h") 3306 (bytes "u") (bytes "p") (bytes "d") 2 two_answers inited 0 opened (mk_pool [12] 1 0 [11] 0)).
  - by vm_compute.
  - cbn. lia.
  - by vm_compute.
  - apply (prun_step _ Fetch_pop (mk_pool [11; 12] 1 1 [] 0)); [|reflexivity].
    apply (prun_step _ Fetch_wait (mk_pool [11; 12] 2 0 [] 0)); [|reflexivity]. apply prun_start.
Defined.

(** A thread that fetches a connection and gives it back, with nobody in between: it gets
    the one that has waited longest, and that becomes the last. *)
Lemma fetch_recycle clock answers c l held :
  lockPool clock answers = Some 0 ->
  let p := mk_pool (c :: l) (zlen (c :: l)) 0 held 0 in
  exists p1, fetchConnection clock answers p = Some (inl (Some c, p1)) /\
    recycleConnection c p1 = Some (inl (mk_pool (l ++ [c]) (zlen (c :: l)) 0 held 0)).
Proof.
  intros Hw p. unfold fetchConnection. rewrite Hw. cbn. rewrite zlen_cons. pose proof (zlen_nonneg l).
  destruct (Z.ltb_spec 0 (1 + zlen l)); [|lia]. cbn. eexists. split; [done|]. unfold recycleConnection. cbn.
  rewrite bool_decide_true by left. cbn. by rewrite Z.eqb_refl, Z.sub_add.
Qed.

(** A thread that holds a connection when the pool is closed: a statement that fails reads
    settings that are freed. *)
Example reconnect_after_close :
  match closeConnPool (with_pool (mk_pool [12] 1 0 [11] 0) opened) with
  | inl o => execute_on 1 true 0 (Some 11) (Some (bytes "SELECT 1")) o
  | inr f => inl (0, opened)
  end = inr OutOfBounds.
Proof. by vm_compute. Qed.

(** Without [initMysqlConnPool] the destructor frees what the pointer happens to be; after a
    second [initMysqlConnPool] the first settings stay. *)
Example never_initialised : closeConnPool PoolObject_new = inr OutOfBounds.
Proof. done. Qed.
Example initialised_twice :
  match initMysqlConnPool 6 (Some (bytes "h")) 3306 (Some (bytes "u")) (Some (bytes "p")) (Some (bytes "d")) opened with
  | inl (_, o) => match closeConnPool o with inl o => size (po_settings o) | inr _ => 0%nat end
  | inr _ => 0%nat
  end = 1%nat.
Proof. by vm_compute. Qed.

