(* ===== verification/Database.v ===== *)
(** * Database: the queries of the adapter server

    [DBHelper] of [atb_adapter/db_helper.cpp] over the interface of the connection pool
    and of the MySQL client library, which is not part of the repository: [Database]
    says what they answer.  A method runs in the monad of [Control]; a [break] out of
    its [do ... while(0)] is a jump that carries the result code.  The log records the
    connections and results that are taken and given back. *)
From stdpp Require Import base list.
From S2P Require Import Prelude Control Streams SimResponse TimeSection Adapter.

(** ** The interface

    A row is an array of strings, each of which may be [NULL]. *)
Abbreviation row := (list (option (list Z))).

Class Database (D : Type) := {
  db_fetch : D -> bool * D;                        (* fetchConnection *)
  db_exec : list Z -> D -> bool * D;               (* executeSql, true for success *)
  db_store : D -> option (list row) * D;           (* mysql_store_result *)
}.

Inductive db_event :=
  | E_fetch
  | E_exec (sql : list Z)
  | E_store (res : Z)
  | E_free (res : Z)
  | E_recycle.

Inductive jump :=
  | Break (ret : Z)
  | Stop_fault (f : fault).

Section helper.
Context {D : Type} `{!Database D}.

(** [dh_rows] and [dh_num] are the unread rows of the result [res_ptr] and how many it
    had; [dh_next] names results. *)
Record db_state := mk_db {
  dh_db : D;
  dh_log : list db_event;   (* newest first *)
  dh_res : option Z;
  dh_rows : list row;
  dh_num : Z;
  dh_next : Z;
}.

Definition log_event (e : db_event) (s : db_state) : db_state :=
  mk_db (dh_db s) (e :: dh_log s) (dh_res s) (dh_rows s) (dh_num s) (dh_next s).
Definition set_dh_db (d : D) (s : db_state) : db_state :=
  mk_db d (dh_log s) (dh_res s) (dh_rows s) (dh_num s) (dh_next s).
Definition set_dh_rows (rows : list row) (s : db_state) : db_state :=
  mk_db (dh_db s) (dh_log s) (dh_res s) rows (dh_num s) (dh_next s).
Definition set_dh_res (res : option Z) (s : db_state) : db_state :=
  mk_db (dh_db s) (dh_log s) res (dh_rows s) (dh_num s) (dh_next s).

Abbreviation DB := (Ctl jump db_state).

Definition break {A} (ret : Z) : DB A := exit (Break ret).
Definition stop {A} (f : fault) : DB A := exit (Stop_fault f).

(** ** The calls *)

(** [sprintf(szSql, ...)] into 1024 bytes and [executeSql]; [fail] is the code for an
    error. *)
Definition SQL_SIZE : Z := 1024.

Definition execute (fail : Z) (sql : list Z) : DB unit :=
  if SQL_SIZE <=? zlen sql then stop OutOfBounds
  else fun s =>
    let '(ok, d) := db_exec sql (dh_db s) in
    (if ok then mret tt else break fail) (log_event (E_exec sql) (set_dh_db d s)).

(** [res_ptr = mysql_store_result(...)]: the pointer that was there is lost.  The number
    of rows is converted to [int]. *)
Definition store_result (fail : Z) : DB Z := fun s =>
  let '(res, d) := db_store (dh_db s) in
  match res with
  | None => break fail (set_dh_res None (set_dh_db d s))
  | Some rows =>
      let s := log_event (E_store (dh_next s)) (set_dh_db d s) in
      inl (s32 (zlen rows), mk_db (dh_db s) (dh_log s) (Some (dh_next s)) rows (zlen rows) (dh_next s + 1))
  end.

(** [mysql_fetch_row] *)
Definition fetch_row : DB (option row) := fun s =>
  match dh_rows s with
  | [] => inl (None, s)
  | r :: rows => inl (Some r, set_dh_rows rows s)
  end.

(** A row that is there for certain is used without a test. *)
Definition the_row : DB row := r ← fetch_row; match r with Some r => mret r | None => stop OutOfBounds end.

(** [sqlrow[k]] *)
Definition column (r : row) (k : nat) : DB (option (list Z)) :=
  match r !! k with Some v => mret v | None => stop OutOfBounds end.

(** [sqlrow[k]] when a [NULL] ends the query with the code [fail]. *)
Definition need (fail : Z) (r : row) (k : nat) : DB (list Z) :=
  v ← column r k; match v with Some v => mret v | None => break fail end.

Definition or_empty (r : row) (k : nat) : DB (list Z) := v ← column r k; mret (default [] v).

(** The frame of a method: without a pool or a connection it answers [fail]; at the end
    the result, if there is one, is freed and the connection goes back. *)
Definition with_connection {A} (pool : bool) (fail : Z) (none : A) (body : DB (Z * A)) (s : db_state)
  : ((Z * A) * db_state) + fault :=
  if negb pool then inl ((fail, none), s)
  else
    let '(got, d) := db_fetch (dh_db s) in
    if negb got then inl ((fail, none), set_dh_db d s)
    else
      let s := set_dh_res None (log_event E_fetch (set_dh_db d s)) in
      let finish (ret : Z * A) s :=
        let s := match dh_res s with Some r => log_event (E_free r) s | None => s end in
        inl (ret, log_event E_recycle s) in
      match body s with
      | inl (ret, s) => finish ret s
      | inr (Break ret, s) => finish (ret, none) s
      | inr (Stop_fault f, _) => inr f
      end.

(** [while((sqlrow = mysql_fetch_row(res_ptr)))]: [f] yields whether the loop goes on. *)
Fixpoint row_loop {A} (fuel : nat) (f : A -> row -> DB (A * bool)) (a : A) : DB A :=
  match fuel with
  | O => stop OutOfFuel
  | S fuel' =>
      r ← fetch_row;
      match r with
      | None => mret a
      | Some r =>
          x ← f a r;
          if x.2 : bool then row_loop fuel' f x.1 else mret x.1
      end
  end.

Definition for_rows {A} (f : A -> row -> DB (A * bool)) (a : A) : DB A :=
  fun s => row_loop (S (length (dh_rows s))) f a s.

(** ** Texts *)

Definition TABLE_USERS : list Z := bytes "xxxxxxxxxx".
Definition TABLE_ADA : list Z := bytes "xxxxxxxxxxxxxxxx".
Definition TABLE_ADA_HIS : list Z := bytes "xxxxxxxxxxxxx".
Definition TABLE_CAM : list Z := bytes "xxxxxxxxxxxxxxxxxx".
Definition TABLE_CAM_HIS : list Z := bytes "xxxxxxxxxx".

(** [%d] *)
Definition int_text (n : Z) : list Z := if n <? 0 then chr "-" :: dec_text (- n) else dec_text n.

(** [atoi]: [strtol], which saturates, converted to [int]. *)
Fixpoint atoi_digits (l : list Z) (acc : Z) : Z :=
  match l with
  | c :: l' => if isdigit c then atoi_digits l' (acc * 10 + dec_digit c) else acc
  | [] => acc
  end.

Definition clamp64 (z : Z) : Z := Z.max (- 2 ^ 63) (Z.min (2 ^ 63 - 1) z).

Definition atoi (l : list Z) : Z :=
  s32 (clamp64
    (match skip_spaces l with
     | c :: r =>
         if c =? chr "-" then - atoi_digits r 0 else if c =? chr "+" then atoi_digits r 0 else atoi_digits (c :: r) 0
     | [] => 0
     end)).

(** [%s] of a [std::string] *)
Definition str (l : list Z) : list Z := c_text l.

(** ** The methods

    [pool] says whether [init] has been called. *)

(** [init]: the code, and whether there is a pool now. *)
Definition DBHelper_init (pool : bool) : Z * bool := if pool then (-1, pool) else (0, true).

(** Whether the query has a row at all: the code [none] if not. *)
Definition some_rows (fail none : Z) : DB unit :=
  num ← store_result fail; if num =? 0 then break none else mret tt.

Definition check_login (pool : bool) (groupid password : list Z) : db_state -> ((Z * list Z) * db_state) + fault :=
  with_connection pool 1 [] (
    execute 1 (bytes "select * from " ++ TABLE_ADA ++ bytes " where cmsid='" ++ str groupid ++ bytes "'") ;;
    some_rows 1 2 ;;
    r ← the_row;
    psw ← need 100 r 1;
    if 19 <? zlen psw then break 100
    else if negb (bool_decide (psw = password)) then break 3
    else (kid ← need 100 r 5; mret (0, kid))).

(** The part of [check_start_push] behind the test of [allday]: whether the camera may be
    watched at [strtime]. *)
Definition check_schedule (strtime : list Z) (r : row) : DB (Z * unit) :=
  starttime1 ← or_empty r 5;
  endtime1 ← or_empty r 6;
  starttime2 ← or_empty r 7;
  endtime2 ← or_empty r 8;
  if bool_decide (starttime1 = []) then break 100
  else if negb (CheckInternal strtime starttime1 endtime1) then
    if negb (bool_decide (starttime2 = [])) then
      if negb (CheckInternal strtime starttime2 endtime2) then break 3 else mret (0, tt)
    else break 3
  else mret (0, tt).

Definition check_start_push (pool : bool) (strtime groupid pid : list Z) : db_state -> ((Z * unit) * db_state) + fault :=
  with_connection pool 1 tt (
    execute 1 (bytes "select * from " ++ TABLE_CAM ++ bytes " where cmsid='" ++ str groupid ++ bytes "' and pid='" ++ str pid ++ bytes "'") ;;
    some_rows 100 2 ;;
    r ← the_row;
    strallday ← need 100 r 4;
    if negb (bool_decide (strallday = bytes "0")) && negb (bool_decide (strallday = bytes "1")) then break 100
    else if atoi strallday =? 0 then check_schedule strtime r
    else mret (0, tt)).

(** Number and items ([cmsid] and [name]) of the adapters of a user. *)
Definition user_group_row (items : list (list Z * list Z)) (r : row) : DB (list (list Z * list Z) * bool) :=
  cmsid ← or_empty r 0;
  name ← or_empty r 2;
  mret (items ++ [(cmsid, name)], true).

Definition get_user_group (pool : bool) (kid : list Z)
  : db_state -> ((Z * option (list (list Z * list Z))) * db_state) + fault :=
  with_connection pool 1 None (
    execute 1 (bytes "select * from " ++ TABLE_USERS ++ bytes " where id=" ++ int_text (atoi (str kid))) ;;
    some_rows 1 2 ;;
    execute 1 (bytes "select * from " ++ TABLE_ADA ++ bytes " WHERE user=" ++ int_text (atoi (str kid))) ;;
    some_rows 1 0 ;;
    items ← for_rows user_group_row [];
    mret (0, if bool_decide (items = []) then None else Some items)).

(** [get_group_info_ex] fills the array of its caller, of which [filled] are the first
    [iNum] elements; the codes of its errors are overwritten by [iNum]. *)
Definition MAX_DEVICE_NUM_PER_ADAPTER : Z := 50.

Definition group_device (r : row) : DB (option TBDeviceEx) :=
  v1 ← column r 1; v3 ← column r 3; v4 ← column r 4;
  match v1, v3, v4 with
  | Some pid, Some name, Some allday =>
      let iAllday := atoi (str allday) in
      if iAllday =? 1 then mret (Some (mk_tb_device pid name iAllday no_sections))
      else
        v5 ← column r 5; v6 ← column r 6;
        match v5, v6 with
        | Some s0, Some e0 =>
            v7 ← column r 7;
            match v7 with
            | None => mret (Some (mk_tb_device pid name iAllday (mk_sections s0 e0 [] [])))
            | Some s1 =>
                v8 ← column r 8;
                match v8 with
                | Some e1 => mret (Some (mk_tb_device pid name iAllday (mk_sections s0 e0 s1 e1)))
                | None => mret None
                end
            end
        | _, _ => mret None
        end
  | _, _, _ => mret None
  end.

(** A row with [NULL]s ends the loop; only the first test comes before the array is
    written. *)
Definition group_ex_row (filled : list TBDeviceEx) (r : row) : DB (list TBDeviceEx * bool) :=
  v1 ← column r 1; v3 ← column r 3; v4 ← column r 4;
  match v1, v3, v4 with
  | Some _, Some _, Some _ =>
      if MAX_DEVICE_NUM_PER_ADAPTER <=? zlen filled then stop OutOfBounds
      else
        d ← group_device r;
        match d with
        | None => mret (filled, false)
        | Some d => mret (filled ++ [d], negb (MAX_DEVICE_NUM_PER_ADAPTER <? zlen filled + 1))
        end
  | _, _, _ => mret (filled, false)
  end.

Definition get_group_info_ex (pool : bool) (groupid : list Z) : db_state -> ((Z * list TBDeviceEx) * db_state) + fault :=
  with_connection pool (-1) [] (
    execute 0 (bytes "select * from " ++ TABLE_CAM ++ bytes " WHERE cmsid='" ++ str groupid ++ bytes "'") ;;
    some_rows 0 0 ;;
    filled ← for_rows group_ex_row [];
    mret (zlen filled, filled)).

(** [get_group_info]: the fields of an item of its JSON list. *)
Record group_item := mk_group_item {
  gi_devid : list Z;
  gi_name : list Z;
  gi_id : Z;
  gi_sections : sections;
  gi_addr : list Z;
}.

Definition all_day : sections := mk_sections (bytes "00:00:00") (bytes "23:59:59") [] [].

Definition group_item_of (r : row) : DB (option group_item) :=
  devid ← or_empty r 1;
  name ← or_empty r 3;
  v0 ← column r 0;
  match v0 with
  | None => mret None
  | Some id =>
      v4 ← column r 4;
      match v4 with
      | None => stop OutOfBounds
      | Some allday =>
          secs ← (if atoi (str allday) =? 1 then mret all_day
                  else (s0 ← or_empty r 5; e0 ← or_empty r 6; s1 ← or_empty r 7; e1 ← or_empty r 8;
                        mret (mk_sections s0 e0 s1 e1)));
          addr ← or_empty r 11;
          mret (Some (mk_group_item devid name (atoi (str id)) secs addr))
      end
  end.

(** The code, 100 after a row without id, and the items so far. *)
Definition group_row (a : Z * list group_item) (r : row) : DB ((Z * list group_item) * bool) :=
  d ← group_item_of r;
  match d with
  | None => mret ((100, a.2), false)
  | Some d => mret ((a.1, a.2 ++ [d]), true)
  end.

Definition get_group_info (pool : bool) (kid groupid : list Z) : db_state -> ((Z * list group_item) * db_state) + fault :=
  with_connection pool 1 [] (
    execute 1 (bytes "select * from " ++ TABLE_ADA ++ bytes " where cmsid='" ++ str groupid ++ bytes "' and user="
      ++ int_text (atoi (str kid))) ;;
    some_rows 1 2 ;;
    execute 1 (bytes "select * from " ++ TABLE_CAM ++ bytes " WHERE cmsid='" ++ str groupid ++ bytes "'") ;;
    some_rows 1 0 ;;
    for_rows group_row (0, [])).

(** The column [adapternum] of a user. *)
Definition ADAPTERNUM : nat := 42.

Definition add_group (pool : bool) (rands strtime kid password name : list Z)
  : db_state -> ((Z * list Z) * db_state) + fault :=
  with_connection pool 1 [] (
    execute 1 (bytes "select * from " ++ TABLE_USERS ++ bytes " where id=" ++ int_text (atoi (str kid))) ;;
    some_rows 1 2 ;;
    r ← the_row;
    strcount ← need 100 r ADAPTERNUM;
    let iCount := atoi (str strcount) in
    if iCount =? 2 ^ 31 - 1 then stop Overflow
    else if 5 <? iCount + 1 then break 3
    else
      let strgroupid := GeneralToken rands in
      execute 1 (bytes "INSERT INTO " ++ TABLE_ADA ++ bytes "(cmsid,password,name,datecreate,user)VALUES('" ++ str strgroupid
        ++ bytes "','" ++ str password ++ bytes "','" ++ str name ++ bytes "','" ++ str strtime ++ bytes "',"
        ++ int_text (atoi (str kid)) ++ bytes ")") ;;
      execute 1 (bytes "UPDATE " ++ TABLE_USERS ++ bytes " SET adapternum=" ++ int_text (iCount + 1) ++ bytes " WHERE id="
        ++ int_text (atoi (str kid))) ;;
      mret (0, strgroupid)).

Definition del_group (pool : bool) (strtime kid groupid : list Z) : db_state -> ((Z * unit) * db_state) + fault :=
  with_connection pool 1 tt (
    execute 1 (bytes "select * from " ++ TABLE_ADA ++ bytes " where cmsid='" ++ str groupid ++ bytes "' and user="
      ++ int_text (atoi (str kid))) ;;
    some_rows 1 2 ;;
    r ← the_row;
    name ← need 100 r 2;
    datecreate ← need 100 r 3;
    execute 1 (bytes "DELETE FROM " ++ TABLE_ADA ++ bytes " WHERE cmsid='" ++ str groupid ++ bytes "'") ;;
    execute 1 (bytes "INSERT INTO " ++ TABLE_ADA_HIS ++ bytes "(cmsid,name,datecreate,datedelete,user)VALUES('" ++ str groupid
      ++ bytes "','" ++ str name ++ bytes "','" ++ str datecreate ++ bytes "','" ++ str strtime ++ bytes "',"
      ++ int_text (atoi (str kid)) ++ bytes ")") ;;
    execute 1 (bytes "DELETE FROM " ++ TABLE_CAM ++ bytes " WHERE cmsid='" ++ str groupid ++ bytes "'") ;;
    execute 1 (bytes "select * FROM " ++ TABLE_USERS ++ bytes " WHERE id=" ++ int_text (atoi (str kid))) ;;
    some_rows 1 100 ;;
    r ← the_row;
    strcount ← need 100 r ADAPTERNUM;
    let iAdapternum := atoi (str strcount) in
    if iAdapternum <=? 0 then break 100
    else
      execute 2 (bytes "UPDATE " ++ TABLE_USERS ++ bytes " SET adapternum=" ++ int_text (iAdapternum - 1) ++ bytes " WHERE id="
        ++ int_text (atoi (str kid))) ;;
      mret (0, tt)).

Definition mod_group (pool : bool) (curtime groupid : list Z) (type : Z) (value : list Z)
  : db_state -> ((Z * unit) * db_state) + fault :=
  with_connection pool 1 tt (
    let set field := bytes "UPDATE " ++ TABLE_ADA ++ bytes " SET " ++ field ++ bytes "='" ++ str value ++ bytes "',datemodify='"
      ++ str curtime ++ bytes "' WHERE cmsid='" ++ str groupid ++ bytes "'" in
    execute 2 (if type =? 0 then set (bytes "password") else if type =? 1 then set (bytes "name") else []) ;;
    mret (0, tt)).

Record TBDevice := mk_device_info {
  td_pid : list Z;
  td_groupid : list Z;
  td_name : list Z;
  td_allday : Z;
  td_sec0 : list Z;
  td_sec1 : list Z;
}.

(** The sections that [add_device] and [mod_device] make of the texts of the web side:
    how many, or -1. *)
Definition device_sections (info : TBDevice) : (Z * sections) + fault :=
  if td_allday info =? 0 then ParseTimeSection (td_sec0 info) (td_sec1 info) no_sections else inl (0, no_sections).

Definition values (l : list (list Z)) : list Z := join (chr ",") l.
Definition quote (l : list Z) : list Z := chr "'" :: str l ++ [chr "'"].

Definition insert_camera (info : TBDevice) (iSize : Z) (secs : sections) (strtime customer kid : list Z) : list Z :=
  let times := if negb (td_allday info =? 0) then [] else if iSize =? 2
    then [quote (sec_s0 secs); quote (sec_e0 secs); quote (sec_s1 secs); quote (sec_e1 secs)]
    else [quote (sec_s0 secs); quote (sec_e0 secs)] in
  let columns := if negb (td_allday info =? 0) then [] else if iSize =? 2
    then [bytes "starttime1"; bytes "endtime1"; bytes "starttime2"; bytes "endtime2"]
    else [bytes "starttime1"; bytes "endtime1"] in
  bytes "INSERT INTO " ++ TABLE_CAM
    ++ bytes "(" ++ values ([bytes "pid"; bytes "cmsid"; bytes "name"; bytes "allday"] ++ columns
                             ++ [bytes "datecreate"; bytes "customer_id"; bytes "kindergarten_id"])
    ++ bytes ")VALUES(" ++ values ([quote (td_pid info); quote (td_groupid info); quote (td_name info);
                                    if td_allday info =? 0 then bytes "0" else bytes "1"] ++ times
                                    ++ [quote strtime; int_text (atoi (str customer)); int_text (atoi (str kid))])
    ++ bytes ")".

Definition add_device (pool : bool) (strtime : list Z) (info : TBDevice) (s : db_state) : ((Z * unit) * db_state) + fault :=
  match device_sections info with
  | inr f => inr f
  | inl (iSize, secs) =>
      if iSize =? -1 then inl ((2, tt), s)
      else
        with_connection pool 1 tt (
          execute 1 (bytes "select * from " ++ TABLE_CAM ++ bytes " where pid='" ++ str (td_pid info) ++ bytes "' and cmsid='"
            ++ str (td_groupid info) ++ bytes "'") ;;
          num ← store_result 1;
          if negb (num =? 0) then break 3
          else
            execute 1 (bytes "select * from " ++ TABLE_ADA ++ bytes " where cmsid='" ++ str (td_groupid info) ++ bytes "'") ;;
            some_rows 1 100 ;;
            r ← the_row;
            strkid ← need 100 r 5;
            strcustomerid ← need 100 r 6;
            execute 1 (insert_camera info iSize secs strtime strcustomerid strkid) ;;
            mret (0, tt)) s
  end.

(** The record for the history is written down but never sent. *)
Definition del_device (pool : bool) (strtime groupid pid : list Z) : db_state -> ((Z * unit) * db_state) + fault :=
  with_connection pool 1 tt (
    execute 1 (bytes "select * from " ++ TABLE_CAM ++ bytes " where cmsid='" ++ str groupid ++ bytes "' and pid='" ++ str pid ++ bytes "'") ;;
    some_rows 1 2 ;;
    r ← the_row;
    strname ← need 100 r 3;
    strcreate ← need 100 r 9;
    execute 1 (bytes "DELETE FROM " ++ TABLE_CAM ++ bytes " WHERE cmsid='" ++ str groupid ++ bytes "' and pid='" ++ str pid ++ bytes "'") ;;
    let szSql := bytes "INSERT INTO " ++ TABLE_CAM_HIS ++ bytes "(pid,cmsid,name,datecreate,datedelete)VALUES('" ++ str pid
      ++ bytes "','" ++ str groupid ++ bytes "','" ++ str strname ++ bytes "','" ++ str strcreate ++ bytes "','"
      ++ str strtime ++ bytes "')" in
    if SQL_SIZE <=? zlen szSql then stop OutOfBounds else mret (0, tt)).

Definition mod_device (pool : bool) (curtime : list Z) (info : TBDevice) (s : db_state) : ((Z * unit) * db_state) + fault :=
  match device_sections info with
  | inr f => inr f
  | inl (iSize, secs) =>
      if iSize =? -1 then inl ((3, tt), s)
      else
        with_connection pool 1 tt (
          let name := bytes "name='" ++ str (td_name info) ++ bytes "'" in
          let sec1 := bytes "starttime1='" ++ str (sec_s0 secs) ++ bytes "',endtime1='" ++ str (sec_e0 secs) ++ bytes "'" in
          let sec2 := bytes "starttime2='" ++ str (sec_s1 secs) ++ bytes "',endtime2='" ++ str (sec_e1 secs) ++ bytes "'" in
          let no1 := bytes "starttime1=null,endtime1=null" in
          let no2 := bytes "starttime2=null,endtime2=null" in
          execute 1 (bytes "UPDATE " ++ TABLE_CAM ++ bytes " SET "
            ++ (if td_allday info =? 0
                then values [bytes "allday=0"; name; sec1; if iSize =? 2 then sec2 else no2]
                else values [bytes "allday=1"; name; no1; no2])
            ++ bytes ",datemodify='" ++ str curtime ++ bytes "' WHERE pid='" ++ str (td_pid info) ++ bytes "' and cmsid='"
            ++ str (td_groupid info) ++ bytes "'") ;;
          mret (0, tt)) s
  end.

End helper.

Arguments db_state : clear implicits.
