(* ===== verification/AdapterStart.v ===== *)
(** * AdapterStart: start and stop of the adapters' server

    [Start], [Stop] and the thread of [atb_adapter/AdapterServer.cpp]: which objects
    exist, among them the singleton [DBHelper], who still points to deleted ones, and which
    ports the process has bound.  An [AdapterServer] lives once: what has been stopped can
    neither be started nor stopped again. *)
From stdpp Require Import gmap.
From S2P Require Import Prelude CmsClient Adapter AdapterProps AdapterLoop Database.

(** [singleton<DBHelper>::m_instance]: not made; made, with whether it has a pool; deleted
    with the pointer still in place. *)
Inductive db_object :=
  | DB_none
  | DB_alive (pool : bool)
  | DB_deleted.

(** The thread of [Start]: none; created; in [Run] of the server at an address; it has
    returned. *)
Inductive run_thread :=
  | RT_none
  | RT_created
  | RT_running (p : Z)
  | RT_returned.

(** [as_servers]: the [TcpServer] objects by address. *)
Record AdapterServer := mk_as {
  as_exit : bool;
  as_host : list Z;
  as_port : Z;
  as_pServer : option Z;
  as_servers : gmap Z AdapterLoop;
  as_thread : run_thread;
  as_db : db_object;
  as_bound : gset Z;
}.

Definition set_as_db v a := mk_as (as_exit a) (as_host a) (as_port a) (as_pServer a) (as_servers a) (as_thread a) v (as_bound a).
Definition set_as_thread v a := mk_as (as_exit a) (as_host a) (as_port a) (as_pServer a) (as_servers a) v (as_db a) (as_bound a).
Definition set_as_server v m a := mk_as (as_exit a) (as_host a) (as_port a) v m (as_thread a) (as_db a) (as_bound a).
Definition set_as_bound v a := mk_as (as_exit a) (as_host a) (as_port a) (as_pServer a) (as_servers a) (as_thread a) (as_db a) v.
Definition set_as_exit v a := mk_as v (as_host a) (as_port a) (as_pServer a) (as_servers a) (as_thread a) (as_db a) (as_bound a).
Definition set_as_address h p a := mk_as (as_exit a) h p (as_pServer a) (as_servers a) (as_thread a) (as_db a) (as_bound a).

(** [AdapterServer::AdapterServer], in a process in which the ports [bound] are in use. *)
Definition AdapterServer_new (bound : gset Z) : AdapterServer :=
  mk_as true (bytes "127.0.0.1") 8090 None ∅ RT_none DB_none bound.

(** [GetInstance] *)
Definition GetInstance (a : AdapterServer) : AdapterServer :=
  match as_db a with DB_none => set_as_db (DB_alive false) a | _ => a end.

(** What the clock and the network yield while clients are looked over. *)
Record stop_inputs := mk_stop_inputs { si_now : Z; si_strtime : list Z; si_sents : list bool }.

(** [delete pServer_]: [~TcpServer] calls [Stop]; it closes neither [listenfd] nor [epfd]. *)
Definition delete_server (i : stop_inputs) (a : AdapterServer) : AdapterServer + fault :=
  match as_pServer a with
  | None => inl a
  | Some p =>
      match as_servers a !! p with
      | None => inr OutOfBounds
      | Some l =>
          match Stop (si_now i) (si_strtime i) (si_sents i) (al_server l) with
          | inr f => inr f
          | inl _ => inl (set_as_server None (delete p (as_servers a)) a)
          end
      end
  end.

(** [fint] does nothing; [delete] of what has been deleted is a fault. *)
Definition as_Stop (i : stop_inputs) (a : AdapterServer) : AdapterServer + fault :=
  match delete_server i a with
  | inr f => inr f
  | inl a =>
      let a := GetInstance a in
      match as_db a with
      | DB_deleted => inr OutOfBounds
      | _ => inl (set_as_exit true (set_as_db DB_deleted a))
      end
  end.

(** What the steps of [Start] answer: the address of the new object, its socket, an error
    of [bind] other than a port in use, [listen] and [pthread_create]. *)
Record start_inputs := mk_start_inputs {
  st_addr : Z; st_listenfd : Z; st_bind : Z; st_listen : Z; st_thread : Z; st_stop : stop_inputs
}.

(** The [do ... while(0)]: [bInit]. *)
Definition Start_steps (i : start_inputs) (port : Z) (a : AdapterServer) : (bool * AdapterServer) + fault :=
  let a := GetInstance a in
  match as_db a with
  | DB_alive pool =>
      let '(ret, pool) := DBHelper_init pool in
      let a := set_as_db (DB_alive pool) a in
      if negb (ret =? 0) then inl (false, a)
      else
        let bind_ret := if bool_decide (uwrap 16 port ∈ as_bound a) then -1 else st_bind i in
        let '(connected, l) := Connect bind_ret (st_listen i) (AdapterLoop_new (st_listenfd i)) in
        let a := set_as_server (Some (st_addr i)) (<[st_addr i := l]> (as_servers a)) a in
        if negb connected then inl (false, a)
        else
          let a := set_as_bound ({[uwrap 16 port]} ∪ as_bound a) a in
          if negb (st_thread i =? 0) then inl (false, a) else inl (true, set_as_thread RT_created a)
  | _ => inr OutOfBounds
  end.

Definition as_Start (i : start_inputs) (host : option (list Z)) (port : Z) (a : AdapterServer) : (Z * AdapterServer) + fault :=
  match as_exit a, host with
  | true, Some h =>
      match Start_steps i port a with
      | inr f => inr f
      | inl (false, a) =>
          match as_Stop (st_stop i) a with
          | inr f => inr f
          | inl a => inl (-2, a)
          end
      | inl (true, a) => inl (0, set_as_exit false (set_as_address h port a))
      end
  | _, _ => inl (-1, a)
  end.

(** [start_sync] begins: it reads [pServer_]. *)
Definition start_sync (a : AdapterServer) : AdapterServer + fault :=
  match as_thread a, as_pServer a with
  | RT_created, None => inr OutOfBounds
  | RT_created, Some p =>
      match as_servers a !! p with
      | None => inr OutOfBounds
      | Some l => inl (set_as_thread (RT_running p) (set_as_server (Some p) (<[p := Run_enter l]> (as_servers a)) a))
      end
  | _, _ => inl a
  end.

(** A step of the loop in the thread: it works on the object it was started on. *)
Definition loop_input_step (i : loop_input) (a : AdapterServer) : AdapterServer + fault :=
  match as_thread a with
  | RT_running p =>
      match as_servers a !! p with
      | None => inr OutOfBounds
      | Some l =>
          match step i l with
          | Goes l =>
              let a := set_as_server (as_pServer a) (<[p := l]> (as_servers a)) a in
              inl (match al_pc l with L_done => set_as_thread RT_returned a | _ => a end)
          | Faulted f => inr f
          | _ => inl a
          end
      end
  | _ => inl a
  end.

(** ** Theorems *)

Lemma as_Stop_state i a a' :
  as_Stop i a = inl a' ->
  as_exit a' = true /\ as_pServer a' = None /\ as_db a' = DB_deleted /\ as_bound a' = as_bound a /\ as_thread a' = as_thread a /\
  (forall p, as_pServer a = Some p -> as_servers a' !! p = None).
Proof.
  unfold as_Stop. destruct (delete_server i a) as [a1|] eqn:E; [|done].
  assert (H : as_pServer a1 = None /\ as_bound a1 = as_bound a /\ as_thread a1 = as_thread a /\
    (forall p, as_pServer a = Some p -> as_servers a1 !! p = None)).
  { unfold delete_server in E. destruct (as_pServer a) as [p|] eqn:Ep; [|by injection E as <-].
    destruct (as_servers a !! p) as [l|]; [|done]. destruct (Adapter.Stop _ _ _ _); [|done]. injection E as <-.
    split_and!; try done. intros q [= <-]. cbn. apply lookup_delete_eq. }
  unfold GetInstance. destruct (as_db a1) eqn:Ed; cbn; rewrite ?Ed; intros [= <-]; cbn; tauto.
Qed.

Lemma deleted_start i h port a : as_exit a = true -> as_db a = DB_deleted -> as_Start i (Some h) port a = inr OutOfBounds.
Proof. intros He Hd. unfold as_Start, Start_steps, GetInstance. by rewrite He, Hd, Hd. Qed.

Lemma deleted_stop i a : as_pServer a = None -> as_db a = DB_deleted -> as_Stop i a = inr OutOfBounds.
Proof. intros Hs Hd. unfold as_Stop, delete_server, GetInstance. by rewrite Hs, Hd, Hd. Qed.

(** An [AdapterServer] has one life: after [Stop], and after a [Start] that failed (which
    calls [Stop]), a second [Stop] deletes the database helper again and a second [Start]
    uses the deleted one, the port of a server that had been started stays bound, and a
    thread that is still in [Run] works on the deleted server. *)
Theorem one_life i a a' :
  (as_Stop i a = inl a' \/ exists si h port, as_Start si (Some h) port a = inl (-2, a')) ->
  (forall j, as_Stop j a' = inr OutOfBounds) /\
  (forall j h port, as_Start j (Some h) port a' = inr OutOfBounds) /\
  as_bound a ⊆ as_bound a' /\
  (forall p j, as_Stop i a = inl a' -> as_pServer a = Some p -> as_thread a = RT_running p -> loop_input_step j a' = inr OutOfBounds).
Proof.
  intros H.
  assert (Hd : as_exit a' = true /\ as_pServer a' = None /\ as_db a' = DB_deleted /\ as_bound a ⊆ as_bound a').
  { destruct H as [H|(si & h & port & H)]; [apply as_Stop_state in H as (-> & -> & -> & -> & _); done|].
    unfold as_Start in H. destruct (as_exit a); [|done]. destruct (Start_steps si port a) as [[[] a1]|] eqn:Es; try done.
    destruct (as_Stop _ _) as [a2|] eqn:E; [|done]. injection H as <-.
    apply as_Stop_state in E as (-> & -> & -> & -> & _). split_and!; try done. clear i h a2.
    unfold Start_steps in Es. destruct (as_db (GetInstance a)) as [|pool|]; try done.
    destruct (DBHelper_init pool) as [ret pool']. destruct (negb _).
    - injection Es as <-. unfold GetInstance. by destruct (as_db a).
    - destruct (Connect _ _ _) as [[] l]; cbn [negb] in Es; [destruct (negb _); [|done]|]; injection Es as <-;
        unfold GetInstance; destruct (as_db a); cbn; set_solver. }
  destruct Hd as (H1 & H2 & H3 & H4). split_and!; [intros j; by apply deleted_stop|intros; by apply deleted_start|done|].
  intros p j Hs Hp Ht. apply as_Stop_state in Hs as (_ & _ & _ & _ & Et & Hnone). unfold loop_input_step.
  by rewrite Et, Ht, (Hnone p Hp).
Qed.

(** ** A concrete life *)
Definition quiet_stop : stop_inputs := mk_stop_inputs 0 [] [].
Definition plain_start : start_inputs := mk_start_inputs 4096 3 0 0 0 quiet_stop.

Definition or_new (r : AdapterServer + fault) : AdapterServer := match r with inl a => a | inr _ => AdapterServer_new ∅ end.

(** Started, and its thread in [Run]. *)
Definition started : AdapterServer :=
  match as_Start plain_start (Some (bytes "0.0.0.0")) 8090 (AdapterServer_new ∅) with
  | inl (_, a) => or_new (start_sync a)
  | inr _ => AdapterServer_new ∅
  end.
Definition stopped : AdapterServer := or_new (as_Stop quiet_stop started).

Lemma one_life_witness :
  (forall j, as_Stop j stopped = inr OutOfBounds) /\
  (forall j h port, as_Start j (Some h) port stopped = inr OutOfBounds) /\
  as_bound started ⊆ as_bound stopped /\
  (forall p j, as_Stop quiet_stop started = inl stopped -> as_pServer started = Some p -> as_thread started = RT_running p ->
     loop_input_step j stopped = inr OutOfBounds).
Proof. apply (one_life quiet_stop started stopped). left. vm_compute. reflexivity. Defined.

(** The thread was in [Run] when [Stop] deleted the server. *)
Example stopped_under_its_thread :
  as_pServer started = Some 4096 /\ as_thread started = RT_running 4096 /\
  loop_input_step (In_top 0 [] []) stopped = inr OutOfBounds /\ bool_decide (8090 ∈ as_bound stopped) = true.
Proof. by vm_compute. Qed.

(** The port is in use: [Start] fails with its -2, and the [Stop] with which its caller
    gives up ([AdapterService::Start]) frees the database helper a second time. *)
Example failed_start_then_stop :
  match as_Start plain_start (Some (bytes "0.0.0.0")) 8090 (AdapterServer_new {[8090]}) with
  | inl (ret, a) => ret = -2 /\ as_Stop quiet_stop a = inr OutOfBounds
  | inr _ => False
  end.
Proof. by vm_compute. Qed.
