(* ===== verification/DatabaseProps.v ===== *)
(** * DatabaseProps: what the database helper guarantees

    Every connection taken from the pool is given back; the cameras of an adapter are
    read back from the table, up to the size of the array; the test before a stream is
    started agrees with the one that stops it. *)
From stdpp Require Import base list.
From S2P Require Import Prelude Control Streams TimeSection CmsClient Adapter Database.
From S2P Require Import CmsClientProps.

(** ** Connections and results *)

(** Neither a connection nor a result is given back or taken from the pool. *)
Definition quiet (e : db_event) : Prop :=
  match e with E_exec _ | E_store _ => True | _ => False end.

Section balance.
Context {D : Type} `{!Database D}.
Implicit Types s : db_state D.

(** What happens between the two: the pointer to the result is one that was stored. *)
Definition grows s s' : Prop :=
  exists mid, dh_log s' = mid ++ dh_log s /\ Forall quiet mid /\
    (dh_res s' = dh_res s \/ dh_res s' = None \/ exists h, dh_res s' = Some h /\ E_store h ∈ mid).

Lemma grows_refl s : grows s s.
Proof. exists []. auto. Qed.

Lemma grows_trans s s1 s2 : grows s s1 -> grows s1 s2 -> grows s s2.
Proof.
  intros (m1 & E1 & Q1 & H1) (m2 & E2 & Q2 & H2). exists (m2 ++ m1). rewrite E2, E1, <-app_assoc. split; [done|].
  split; [by apply Forall_app|]. destruct H2 as [->|[->|(h & -> & Hh)]]; [|auto|].
  - destruct H1 as [->|[->|(h & -> & Hh)]]; [auto|auto|]. right. right. exists h. split; [done|].
    apply elem_of_app. by right.
  - right. right. exists h. split; [done|]. apply elem_of_app. by left.
Qed.

Definition steady {A} (m : Ctl jump (db_state D) A) : Prop := forall s, wp m s (fun _ => grows s) (fun _ => grows s).

Lemma steady_pure {A} (m : Ctl jump (db_state D) A) : (forall s, match m s with inl (_, s') => s' = s | inr (_, s') => s' = s end) -> steady m.
Proof.
  intros H s. specialize (H s). with_strategy transparent [wp] unfold wp.
  destruct (m s) as [[a s']|[j s']]; subst; apply grows_refl.
Qed.

Lemma steady_ret {A} (a : A) : steady (mret a).
Proof. by apply steady_pure. Qed.
Lemma steady_break {A} ret : steady (break ret : Ctl jump (db_state D) A).
Proof. by apply steady_pure. Qed.
Lemma steady_stop {A} f : steady (stop f : Ctl jump (db_state D) A).
Proof. by apply steady_pure. Qed.

Lemma steady_bind {A B} (m : Ctl jump (db_state D) A) (f : A -> Ctl jump (db_state D) B) :
  steady m -> (forall a, steady (f a)) -> steady (m ≫= f).
Proof.
  intros Hm Hf s. apply wp_bind. eapply wp_mono; [| |exact (Hm s)]; cbn; [|done].
  intros a s1 H1. eapply wp_mono; [| |exact (Hf a s1)]; cbn; intros; by eapply grows_trans.
Qed.

Lemma steady_execute fail sql : steady (execute fail sql : Ctl jump (db_state D) unit).
Proof.
  unfold execute. destruct (_ <=? _); [apply steady_stop|]. intros s. with_strategy transparent [wp] unfold wp.
  destruct (db_exec sql (dh_db s)) as [[] d]; cbn; exists [E_exec sql]; cbn; split_and!; auto; by repeat constructor.
Qed.

Lemma steady_store fail : steady (store_result fail : Ctl jump (db_state D) Z).
Proof.
  intros s. unfold store_result. with_strategy transparent [wp] unfold wp.
  destruct (db_store (dh_db s)) as [[rows|] d]; cbn.
  - exists [E_store (dh_next s)]. cbn. split_and!; [done|by repeat constructor|].
    right. right. eexists. split; [done|left].
  - exists []. auto.
Qed.

Lemma steady_fetch_row : steady (fetch_row : Ctl jump (db_state D) (option row)).
Proof.
  intros s. unfold fetch_row. with_strategy transparent [wp] unfold wp.
  destruct (dh_rows s); exists []; auto.
Qed.

Lemma steady_for_rows {A} (f : A -> row -> Ctl jump (db_state D) (A * bool)) a :
  (forall a r, steady (f a r)) -> steady (for_rows f a).
Proof.
  intros Hf. assert (H : forall n a, steady (row_loop n f a)).
  { induction n as [|n IH]; intros b; cbn [row_loop]; [apply steady_stop|].
    apply steady_bind; [apply steady_fetch_row|]. intros [r|]; [|apply steady_ret].
    apply steady_bind; [apply Hf|]. intros [a' []]; [apply IH|apply steady_ret]. }
  intros s. exact (H _ a s).
Qed.

Hint Resolve steady_ret steady_break steady_stop steady_bind steady_execute steady_store steady_fetch_row : atb.

(** Case distinctions on values that were read. *)
Ltac steady :=
  repeat first
    [ progress cbn zeta
    | match goal with |- steady (_ ≫= _) => apply steady_bind; [|intros ?] end
    | solve [eauto with atb]
    | match goal with |- steady (for_rows _ _) => apply steady_for_rows; intros ? ? end
    | match goal with |- steady ?m => match m with context [match ?x with _ => _ end] => destruct x end end ].

Lemma steady_the_row : steady (the_row : Ctl jump (db_state D) row).
Proof. unfold the_row. steady. Qed.
Lemma steady_column r k : steady (column r k : Ctl jump (db_state D) _).
Proof. unfold column. steady. Qed.
Hint Resolve steady_the_row steady_column : atb.
Lemma steady_need fail r k : steady (need fail r k : Ctl jump (db_state D) _).
Proof. unfold need. steady. Qed.
Lemma steady_or_empty r k : steady (or_empty r k : Ctl jump (db_state D) _).
Proof. unfold or_empty. steady. Qed.
Lemma steady_some_rows fail none : steady (some_rows fail none : Ctl jump (db_state D) _).
Proof. unfold some_rows. steady. Qed.
Hint Resolve steady_need steady_or_empty steady_some_rows : atb.

(** A method gives back what it took, and frees a result that it got. *)
Definition returned s s' : Prop :=
  dh_log s' = dh_log s \/
  exists free mid, dh_log s' = E_recycle :: free ++ mid ++ E_fetch :: dh_log s /\ Forall quiet mid /\
    (free = [] \/ exists h, free = [E_free h] /\ E_store h ∈ mid).

Lemma with_connection_returned {A} pool fail (none : A) body s r s' :
  steady body -> with_connection pool fail none body s = inl (r, s') -> returned s s'.
Proof.
  intros Hb. unfold with_connection. destruct pool; [|intros [= _ <-]; by left]. cbn [negb].
  destruct (db_fetch (dh_db s)) as [[] d]; [|intros [= _ <-]; by left]. cbn [negb].
  set (s0 := set_dh_res None _). specialize (Hb s0). revert Hb. with_strategy transparent [wp] unfold wp.
  assert (Hend : forall s1 : db_state D, grows s0 s1 ->
    returned s (log_event E_recycle (match dh_res s1 with Some r => log_event (E_free r) s1 | None => s1 end))).
  { intros s1 (mid & E & Hq & Hres). right. cbn [dh_res set_dh_res s0] in Hres.
    destruct Hres as [Hr|[Hr|(h & Hr & Hh)]]; rewrite Hr; cbn.
    - exists [], mid. cbn. rewrite E. auto.
    - exists [], mid. cbn. rewrite E. auto.
    - exists [E_free h], mid. cbn. rewrite E. split; [done|]. split; [done|]. right. by exists h. }
  destruct (body s0) as [[a s1]|[[ret|f] s1]]; [| |done]; intros Hg [= _ <-]; by apply Hend.
Qed.

(** ** The methods *)
Inductive db_call :=
  | Call_check_login (groupid password : list Z)
  | Call_check_start_push (strtime groupid pid : list Z)
  | Call_get_user_group (kid : list Z)
  | Call_get_group_info_ex (groupid : list Z)
  | Call_get_group_info (kid groupid : list Z)
  | Call_add_group (rands strtime kid password name : list Z)
  | Call_del_group (strtime kid groupid : list Z)
  | Call_mod_group (curtime groupid : list Z) (type : Z) (value : list Z)
  | Call_add_device (strtime : list Z) (info : TBDevice)
  | Call_del_device (strtime groupid pid : list Z)
  | Call_mod_device (curtime : list Z) (info : TBDevice).

Definition code_of {A} (r : ((Z * A) * db_state D) + fault) : (Z * db_state D) + fault :=
  match r with inl ((ret, _), s) => inl (ret, s) | inr f => inr f end.

Definition run_call (pool : bool) (c : db_call) (s : db_state D) : (Z * db_state D) + fault :=
  match c with
  | Call_check_login groupid password => code_of (check_login pool groupid password s)
  | Call_check_start_push strtime groupid pid => code_of (check_start_push pool strtime groupid pid s)
  | Call_get_user_group kid => code_of (get_user_group pool kid s)
  | Call_get_group_info_ex groupid => code_of (get_group_info_ex pool groupid s)
  | Call_get_group_info kid groupid => code_of (get_group_info pool kid groupid s)
  | Call_add_group rands strtime kid password name => code_of (add_group pool rands strtime kid password name s)
  | Call_del_group strtime kid groupid => code_of (del_group pool strtime kid groupid s)
  | Call_mod_group curtime groupid type value => code_of (mod_group pool curtime groupid type value s)
  | Call_add_device strtime info => code_of (add_device pool strtime info s)
  | Call_del_device strtime groupid pid => code_of (del_device pool strtime groupid pid s)
  | Call_mod_device curtime info => code_of (mod_device pool curtime info s)
  end.

Lemma code_of_returned {A} pool fail (none : A) body s ret s' :
  steady body -> code_of (with_connection pool fail none body s) = inl (ret, s') -> returned s s'.
Proof.
  intros Hb. destruct (with_connection _ _ _ _ _) as [[[r a] s1]|] eqn:E; [|done]. intros [= _ <-].
  by eapply with_connection_returned.
Qed.

(** C38. Whatever the database answers, a method that returns has given back the connection that
    it took, once, and has freed at most one result, which it had got over this connection;
    in between it only executes statements and stores results. *)
Theorem connections_returned pool c s ret s' : run_call pool c s = inl (ret, s') -> returned s s'.
Proof.
  destruct c; cbn [run_call].
  - apply code_of_returned. steady.
  - apply code_of_returned. unfold check_schedule. steady.
  - apply code_of_returned. unfold user_group_row. steady.
  - apply code_of_returned. unfold group_ex_row, group_device. steady.
  - apply code_of_returned. unfold group_row, group_item_of. steady.
  - apply code_of_returned. steady.
  - apply code_of_returned. steady.
  - apply code_of_returned. steady.
  - unfold add_device. destruct (device_sections info) as [[n secs]|]; [|done].
    destruct (_ =? _); [intros [= _ <-]; by left|]. apply code_of_returned. steady.
  - apply code_of_returned. steady.
  - unfold mod_device. destruct (device_sections info) as [[n secs]|]; [|done].
    destruct (_ =? _); [intros [= _ <-]; by left|]. apply code_of_returned. steady.
Qed.
End balance.

(** ** Reading the table of cameras *)

(** How a camera lies in the table. *)
Definition device_row (d : TBDeviceEx) : row :=
  let secs := tb_sections d in
  [Some (bytes "1"); Some (tb_pid d); Some (bytes "cms"); Some (tb_name d);
   Some (if tb_allday d =? 1 then bytes "1" else bytes "0");
   Some (sec_s0 secs); Some (sec_e0 secs);
   if bool_decide (sec_s1 secs = []) then None else Some (sec_s1 secs);
   if bool_decide (sec_s1 secs = []) then None else Some (sec_e1 secs)].

Definition tb_ok (d : TBDeviceEx) : Prop :=
  (tb_allday d = 1 /\ tb_sections d = no_sections) \/
  (tb_allday d = 0 /\ (sec_s1 (tb_sections d) = [] -> sec_e1 (tb_sections d) = [])).

Section answers.
Context {D : Type} `{!Database D}.
Implicit Types s : db_state D.

(** A database that answers every query with the same rows. *)
Definition answers (rows : list row) : Prop :=
  (forall d : D, (db_fetch d).1 = true) /\ (forall sql (d : D), (db_exec sql d).1 = true) /\
  (forall d : D, (db_store d).1 = Some rows).

Lemma execute_ok rows fail sql s :
  answers rows -> zlen sql < SQL_SIZE -> exists s', execute fail sql s = inl (tt, s').
Proof.
  intros (_ & He & _) Hl. unfold execute. rewrite (proj2 (Z.leb_gt _ _)) by done.
  specialize (He sql (dh_db s)). destruct (db_exec sql (dh_db s)) as [ok d]. cbn in He. subst. by eexists.
Qed.

Lemma some_rows_ok rows fail none s :
  answers rows -> 0 < zlen rows < 2 ^ 31 -> exists s', some_rows fail none s = inl (tt, s') /\ dh_rows s' = rows.
Proof.
  intros (_ & _ & Hs) Hn. unfold some_rows, mbind, ctl_bind, store_result. specialize (Hs (dh_db s)).
  destruct (db_store (dh_db s)) as [res d]. cbn in Hs. subst.
  assert (E : (s32 (zlen rows) =? 0) = false).
  { apply Z.eqb_neq. unfold s32, uwrap. rewrite Z.mod_small by lia. lia. }
  rewrite E. eexists. split; [done|]. done.
Qed.

(** The frame of a method around a body that ends. *)
Lemma with_connection_run {A} rows fail (none : A) body s ret :
  answers rows ->
  (forall s, exists s', body s = inl (ret, s') \/ exists r, ret = (r, none) /\ body s = inr (Break r, s')) ->
  exists s', with_connection true fail none body s = inl (ret, s').
Proof.
  intros (Hf & _) Hb. unfold with_connection. cbn [negb]. specialize (Hf (dh_db s)).
  destruct (db_fetch (dh_db s)) as [ok d]. cbn in Hf. subst. cbn [negb].
  destruct (Hb (set_dh_res None (log_event E_fetch (set_dh_db d s)))) as (s1 & [-> |(r & -> & ->)]); by eexists.
Qed.

Lemma with_connection_fault {A} rows fail (none : A) body s f :
  answers rows -> (forall s, exists s', body s = inr (Stop_fault f, s')) -> with_connection true fail none body s = inr f.
Proof.
  intros (Hf & _) Hb. unfold with_connection. cbn [negb]. specialize (Hf (dh_db s)).
  destruct (db_fetch (dh_db s)) as [ok d]. cbn in Hf. subst. cbn [negb].
  by destruct (Hb (set_dh_res None (log_event E_fetch (set_dh_db d s)))) as (s1 & ->).
Qed.

Lemma group_device_row d s : tb_ok d -> group_device (device_row d) s = inl (Some d, s).
Proof.
  destruct d as [pid name allday [s0 e0 s1 e1]]. intros [[Ha Hs]|[Ha Hs]]; cbn in Ha, Hs; subst.
  - injection Hs as -> -> -> ->. done.
  - unfold device_row. cbn. case_bool_decide as H1; [|done]. subst. by rewrite (Hs eq_refl).
Qed.

Lemma group_ex_row_device filled d s :
  tb_ok d ->
  group_ex_row filled (device_row d) s =
    if MAX_DEVICE_NUM_PER_ADAPTER <=? zlen filled then inr (Stop_fault OutOfBounds, s)
    else inl ((filled ++ [d], negb (MAX_DEVICE_NUM_PER_ADAPTER <? zlen filled + 1)), s).
Proof.
  intros Hd. unfold group_ex_row, mbind, ctl_bind.
  rewrite (eq_refl : column (device_row d) 1 s = inl (Some (tb_pid d), s)).
  rewrite (eq_refl : column (device_row d) 3 s = inl (Some (tb_name d), s)).
  rewrite (eq_refl : column (device_row d) 4 s = inl (Some (if tb_allday d =? 1 then bytes "1" else bytes "0"), s)).
  destruct (_ <=? _); [done|]. by rewrite group_device_row.
Qed.

Lemma row_loop_devices ds : forall fuel filled s,
  Forall tb_ok ds -> dh_rows s = map device_row ds -> (length ds < fuel)%nat ->
  zlen filled <= MAX_DEVICE_NUM_PER_ADAPTER ->
  exists s', row_loop fuel group_ex_row filled s =
    if zlen filled + zlen ds <=? MAX_DEVICE_NUM_PER_ADAPTER then inl (filled ++ ds, s') else inr (Stop_fault OutOfBounds, s').
Proof.
  induction ds as [|d ds IH]; intros [|fuel] filled s Hds Hrows Hf Hn; cbn [length] in Hf; try lia;
    cbn [row_loop]; unfold mbind, ctl_bind, fetch_row at 1; rewrite Hrows; cbn [map].
  - exists s. rewrite app_nil_r. by rewrite (proj2 (Z.leb_le _ _)) by (change (zlen []) with 0; lia).
  - apply Forall_cons in Hds as [Hd Hds]. rewrite group_ex_row_device by done. rewrite zlen_cons. pose proof (zlen_nonneg ds).
    destruct (Z.leb_spec MAX_DEVICE_NUM_PER_ADAPTER (zlen filled)) as [Hge|Hlt].
    { rewrite (proj2 (Z.leb_gt _ _)) by lia. by eexists. }
    rewrite (proj2 (Z.ltb_ge _ _)) by lia. cbn [negb fst snd].
    assert (Hl : zlen (filled ++ [d]) = zlen filled + 1) by by rewrite zlen_app.
    destruct (IH fuel (filled ++ [d]) (set_dh_rows (map device_row ds) s)) as [s' E]; [done|done|lia|lia|].
    exists s'. rewrite E, Hl, <-app_assoc. by rewrite Z.add_assoc.
Qed.

Definition group_sql_ok (groupid : list Z) : Prop := zlen (str groupid) <= 900.

(** [get_group_info_ex] reads back the cameras of an adapter as they are in the table, as
    long as there are at most 50; from 51 on it writes behind the array of its caller. *)
Theorem group_info_ex_exact groupid ds s :
  answers (map device_row ds) -> Forall tb_ok ds -> 0 < zlen ds < 2 ^ 31 -> group_sql_ok groupid ->
  (zlen ds <= MAX_DEVICE_NUM_PER_ADAPTER -> exists s', get_group_info_ex true groupid s = inl ((zlen ds, ds), s')) /\
  (MAX_DEVICE_NUM_PER_ADAPTER < zlen ds -> get_group_info_ex true groupid s = inr OutOfBounds).
Proof.
  intros Ha Hds Hn Hg.
  assert (Hbody : forall s, exists s', (execute 0 (bytes "select * from " ++ TABLE_CAM ++ bytes " WHERE cmsid='" ++ str groupid ++ bytes "'") ;;
    some_rows 0 0 ;; filled ← for_rows group_ex_row []; mret (zlen filled, filled)) s =
    if zlen ds <=? MAX_DEVICE_NUM_PER_ADAPTER then inl ((zlen ds, ds), s') else inr (Stop_fault OutOfBounds, s')).
  { intros s0. unfold mbind, ctl_bind. destruct (execute_ok _ 0 (bytes "select * from " ++ TABLE_CAM ++ bytes " WHERE cmsid='" ++ str groupid ++ bytes "'") s0 Ha) as [s1 ->].
    { unfold group_sql_ok, SQL_SIZE in *. rewrite !zlen_app. cbn -[zlen]. unfold zlen at 1 2 3 5. cbn. lia. }
    destruct (some_rows_ok (map device_row ds) 0 0 s1 Ha) as (s2 & -> & Hr); [unfold zlen in *; by rewrite length_map|].
    unfold for_rows. rewrite Hr, length_map.
    destruct (row_loop_devices ds (S (length ds)) [] s2 Hds Hr) as [s3 E]; [lia|done|]. rewrite E. cbn [app].
    change (zlen []) with 0. rewrite Z.add_0_l. exists s3. by destruct (_ <=? _). }
  split; intros Hle.
  - eapply with_connection_run; [done|]. intros s0. destruct (Hbody s0) as [s' E]. exists s'. left.
    by rewrite (proj2 (Z.leb_le _ _)) in E.
  - eapply with_connection_fault; [done|]. intros s0. destruct (Hbody s0) as [s' E]. exists s'.
    by rewrite (proj2 (Z.leb_gt _ _)) in E.
Qed.

Lemma need_eq fail r k v s : r !! k = Some (Some v) -> need fail r k s = inl (v, s).
Proof. intros E. unfold need, column, mbind, ctl_bind. by rewrite E. Qed.

Lemma or_empty_eq r k v s : r !! k = Some v -> or_empty r k s = inl (default [] v, s).
Proof. intros E. unfold or_empty, column, mbind, ctl_bind. by rewrite E. Qed.

Lemma check_schedule_row strtime d s :
  sec_s0 (tb_sections d) <> [] -> (sec_s1 (tb_sections d) = [] -> sec_e1 (tb_sections d) = []) ->
  check_schedule strtime (device_row d) s =
    let secs := tb_sections d in
    if CheckInternal strtime (sec_s0 secs) (sec_e0 secs) then inl ((0, tt), s)
    else if negb (bool_decide (sec_s1 secs = [])) && CheckInternal strtime (sec_s1 secs) (sec_e1 secs) then inl ((0, tt), s)
    else inr (Break 3, s).
Proof.
  intros Hs0 He1. unfold check_schedule, mbind, ctl_bind.
  rewrite (or_empty_eq (device_row d) 5 (Some (sec_s0 (tb_sections d))) s eq_refl).
  rewrite (or_empty_eq (device_row d) 6 (Some (sec_e0 (tb_sections d))) s eq_refl).
  rewrite (or_empty_eq (device_row d) 7 _ s eq_refl), (or_empty_eq (device_row d) 8 _ s eq_refl).
  cbn [from_option]. unfold id.
  rewrite bool_decide_eq_false_2 by done. cbn zeta.
  destruct (CheckInternal strtime (sec_s0 (tb_sections d)) (sec_e0 (tb_sections d))); [done|]. cbn [negb].
  destruct (decide (sec_s1 (tb_sections d) = [])) as [E|E].
  - by rewrite !(bool_decide_eq_true_2 (sec_s1 (tb_sections d) = [])) by done.
  - rewrite !(bool_decide_eq_false_2 (sec_s1 (tb_sections d) = [])) by done. cbn [from_option negb andb].
    by destruct (CheckInternal strtime _ _).
Qed.

(** The test before a stream is started and the test that stops it agree: a camera may be
    started at exactly the times of day at which [CheckState] lets it push. *)
Theorem start_push_agrees strtime groupid pid d dev s :
  answers [device_row d] -> tb_ok d -> (tb_allday d = 0 -> sec_s0 (tb_sections d) <> []) ->
  zlen (str groupid) + zlen (str pid) <= 900 ->
  dv_state dev = 2 -> dv_allday dev = tb_allday d -> dv_sections dev = tb_sections d ->
  exists s', check_start_push true strtime groupid pid s =
    inl ((if out_of_schedule strtime dev then 3 else 0, tt), s').
Proof.
  intros Ha Hd Hs0 Hlen Hst Hall Hsec. eapply with_connection_run; [done|]. intros s0. unfold mbind, ctl_bind.
  match goal with |- context [execute 1 ?sql s0] => destruct (execute_ok _ 1 sql s0 Ha) as [s1 ->] end.
  { unfold SQL_SIZE. rewrite !zlen_app. cbn -[zlen]. unfold zlen at 1 2 3 5 7. cbn. lia. }
  destruct (some_rows_ok [device_row d] 100 2 s1 Ha) as (s2 & -> & Hr); [done|].
  exists (set_dh_rows [] s2). unfold the_row, mbind, ctl_bind, fetch_row. rewrite Hr. cbn [mret ctl_ret].
  rewrite (need_eq _ _ _ (if tb_allday d =? 1 then bytes "1" else bytes "0")) by done.
  unfold out_of_schedule. rewrite Hst, Hall, Hsec.
  destruct Hd as [[E _]|[E Hb1]]; rewrite E; cbn [Z.eqb Pos.eqb andb]; [by left|]. specialize (Hs0 E).
  rewrite (bool_decide_eq_false_2 (sec_s0 (tb_sections d) = [])) by done.
  change (atoi (bytes "0") =? 0) with true.
  change (negb (bool_decide (bytes "0" = bytes "0")) && negb (bool_decide (bytes "0" = bytes "1"))) with false. cbn iota.
  rewrite check_schedule_row by done. cbn zeta. destruct (CheckInternal strtime _ _); [by left|].
  destruct (negb _ && _); [by left|]. right. by exists 3.
Qed.
End answers.

(** ** A concrete database *)
#[export] Instance same_rows (rows : list row) : Database unit := {
  db_fetch d := (true, d);
  db_exec sql d := (true, d);
  db_store d := (Some rows, d);
}.

Lemma same_rows_answers rows : @answers unit (same_rows rows) rows.
Proof. by repeat split. Qed.

Definition db_start : db_state unit := mk_db tt [] None [] 0 0.

Definition sample_tb : TBDeviceEx := mk_tb_device (bytes "cam1") (bytes "door") 0 sample_sections.

Lemma connections_returned_witness :
  exists s', @run_call unit (same_rows [device_row sample_tb]) true (Call_get_user_group (bytes "17")) db_start = inl (0, s') /\
    returned db_start s'.
Proof.
  eexists. split; [vm_compute; reflexivity|].
  apply (@connections_returned unit (same_rows [device_row sample_tb]) true (Call_get_user_group (bytes "17")) db_start 0).
  vm_compute. reflexivity.
Defined.

(** [get_user_group] asks twice and frees only the second result. *)
Example user_group_leaks :
  exists s', @run_call unit (same_rows [device_row sample_tb]) true (Call_get_user_group (bytes "17")) db_start = inl (0, s') /\
    omap (fun e => match e with E_store h => Some h | _ => None end) (dh_log s') = [1; 0] /\
    omap (fun e => match e with E_free h => Some h | _ => None end) (dh_log s') = [1].
Proof. eexists. split; [vm_compute; reflexivity|]. split; vm_compute; reflexivity. Qed.

Lemma group_info_ex_exact_witness :
  @get_group_info_ex unit (same_rows (map device_row (replicate 51 sample_tb))) true (bytes "adapter1") db_start = inr OutOfBounds.
Proof.
  apply (@group_info_ex_exact unit (same_rows (map device_row (replicate 51 sample_tb))) (bytes "adapter1") (replicate 51 sample_tb) db_start).
  - apply same_rows_answers.
  - apply Forall_replicate. right. split; [done|]. intros H. by vm_compute in H.
  - vm_compute. done.
  - vm_compute. discriminate.
  - vm_compute. reflexivity.
Defined.

Lemma start_push_agrees_witness :
  exists s', @check_start_push unit (same_rows [device_row sample_tb]) true (GetCurrentTime (oclock 13)) (bytes "adapter1")
      (bytes "cam1") db_start =
    inl ((if out_of_schedule (GetCurrentTime (oclock 13)) (mk_device (bytes "cam1") [] [] 2 0 sample_sections []) then 3 else 0, tt), s').
Proof.
  apply (@start_push_agrees unit (same_rows [device_row sample_tb]) (GetCurrentTime (oclock 13)) (bytes "adapter1") (bytes "cam1")
    sample_tb (mk_device (bytes "cam1") [] [] 2 0 sample_sections []) db_start).
  - apply same_rows_answers.
  - right. split; [done|]. intros H. by vm_compute in H.
  - intros _ H. by vm_compute in H.
  - vm_compute. discriminate.
  - reflexivity.
  - reflexivity.
  - reflexivity.
Defined.

(** The text of a name goes into the statement as it is. *)
Example login_injection :
  exists s', @check_login unit (same_rows []) true (bytes "x' or '1'='1") (bytes "secret") db_start = inl ((2, []), s') /\
    E_exec (bytes "select * from xxxxxxxxxxxxxxxx where cmsid='x' or '1'='1'") ∈ dh_log s'.
Proof. eexists. split; [vm_compute; reflexivity|]. vm_compute. repeat (first [left; reflexivity | right]). Qed.

(** The codes that a login is answered with: 2 for an unknown adapter, 3 for a wrong
    password; the comment at [RespLogin] has 1 and 2 for them. *)
Example login_codes :
  match @check_login unit (same_rows []) true (bytes "nobody") (bytes "secret") db_start,
        @check_login unit (same_rows [map Some [bytes "1"; bytes "other"; []; []; []; bytes "17"]]) true (bytes "adapter1") (bytes "secret") db_start with
  | inl (unknown, _), inl (wrong, _) => Some (unknown.1, wrong.1)
  | _, _ => None
  end = Some (2, 3).
Proof. vm_compute. reflexivity. Qed.
