(* ===== verification/Log.v ===== *)
(** * Log: the configuration file and the log

    [get_config_map] of [atb_sak/src/cfg/_atb_cfg.cpp] and the log of
    [atb_sak/src/log/_atb_log.cpp].  Files live on a small disk: names lead to files,
    an open file is written at its end also when its name has changed.  What [mkdir] and
    [rename] answer, the file that a name not yet in use is given, the clock and the
    time zone are inputs; the text of a message is what its format makes of the
    arguments. *)
From stdpp Require Import gmap.
From S2P Require Import Prelude Streams Database.

(** ** Configuration *)

(** The loop over the lines; the first character of an empty line is a NUL. *)
Fixpoint read_lines (fuel : nat) (fs : istream) (configs : gmap (list Z) (list Z)) : gmap (list Z) (list Z) + fault :=
  if good fs then
    match fuel with
    | O => inr OutOfFuel
    | S fuel' =>
        let (line, fs) := getline LF [] fs in
        if bool_decide (head line = Some (chr "#")) then read_lines fuel' fs configs
        else
          let (key, ss) := getline (chr "=") [] (stream_of line) in
          let (value, _) := getline (chr "=") [] ss in
          read_lines fuel' fs (<[key := value]> configs)
    end
  else inl configs.

(** [None] is a file that cannot be opened. *)
Definition get_config_map (config_file : option (list Z)) (configs : gmap (list Z) (list Z)) : (Z * gmap (list Z) (list Z)) + fault :=
  match config_file with
  | None => inl (-1, configs)
  | Some l =>
      match read_lines (S (length l)) (stream_of l) configs with
      | inl configs => inl (0, configs)
      | inr f => inr f
      end
  end.

Inductive config_line :=
  | Comment (t : list Z)
  | Entry (key value : list Z).

Definition line_text (e : config_line) : list Z :=
  match e with Comment t => chr "#" :: t | Entry k v => k ++ chr "=" :: v end.

Definition line_ok (e : config_line) : Prop :=
  match e with
  | Comment t => LF ∉ t
  | Entry k v => LF ∉ k /\ LF ∉ v /\ chr "=" ∉ k /\ chr "=" ∉ v /\ head k <> Some (chr "#")
  end.

Definition config_text (es : list config_line) : list Z := concat (map (fun e => line_text e ++ [LF]) es).

Definition apply_line (m : gmap (list Z) (list Z)) (e : config_line) : gmap (list Z) (list Z) :=
  match e with Comment _ => m | Entry k v => <[k := v]> m end.

Lemma line_free e : line_ok e -> LF ∉ line_text e.
Proof.
  destruct e as [t|k v]; cbn [line_ok line_text].
  - intros Ht [E|?]%elem_of_cons; [discriminate E|done].
  - intros (Hk & Hv & _) [?|[E|?]%elem_of_cons]%elem_of_app; [done|discriminate E|done].
Qed.

Lemma read_line e l n m :
  line_ok e -> read_lines (S n) (stream_of (line_text e ++ LF :: l)) m = read_lines n (stream_of l) (apply_line m e).
Proof.
  intros He. cbn [read_lines]. unfold getline at 1. cbn [good is_eof is_fail stream_of is_rest negb andb].
  rewrite extract_free by by apply line_free. destruct e as [t|k v]; cbn [line_text]; [by rewrite bool_decide_true|].
  destruct He as (_ & _ & Hk & Hv & Hh). rewrite bool_decide_false by (destruct k; [done|exact Hh]).
  unfold getline at 1. cbn [good is_eof is_fail stream_of is_rest negb andb]. rewrite extract_free by done.
  unfold getline. cbn [good is_eof is_fail is_rest negb andb]. by rewrite extract_free_end.
Qed.

(** A configuration file is read as it was written, the last entry of a key winning.
    Behind the last line end one more line is read, which enters the empty key. *)
Lemma config_read es m :
  Forall line_ok es -> get_config_map (Some (config_text es)) m = inl (0, <[[] := []]> (foldl apply_line m es)).
Proof.
  intros H. assert (Hr : forall n m, (length es < n)%nat ->
    read_lines n (stream_of (config_text es)) m = inl (<[[] := []]> (foldl apply_line m es))).
  { induction H as [|e es He _ IH]; intros [|n] m' Hn; [lia|by destruct n|lia|].
    change (config_text (e :: es)) with ((line_text e ++ [LF]) ++ config_text es). rewrite <-app_assoc. cbn [app].
    rewrite read_line by done. apply IH. cbn in Hn. lia. }
  unfold get_config_map. rewrite Hr; [done|]. clear. induction es as [|e es IH]; cbn; [lia|].
  rewrite !length_app. cbn. unfold config_text in IH. lia.
Qed.

(** ** Files *)

Record Disk := mk_disk { dk_names : gmap (list Z) Z; dk_files : gmap Z (list Z) }.

(** [open] for appending; [ino] is the file made for a new name, [None] if that fails. *)
Definition open_app (ino : option Z) (path : list Z) (d : Disk) : option Z * Disk :=
  match dk_names d !! path with
  | Some i => (Some i, d)
  | None =>
      match ino with
      | Some i => (Some i, mk_disk (<[path := i]> (dk_names d)) (<[i := []]> (dk_files d)))
      | None => (None, d)
      end
  end.

(** [ok] is whether the call succeeds. *)
Definition rename (ok : bool) (from to : list Z) (d : Disk) : Disk :=
  match ok, dk_names d !! from with
  | true, Some i => mk_disk (<[to := i]> (delete from (dk_names d))) (dk_files d)
  | _, _ => d
  end.

Definition remove (path : list Z) (d : Disk) : Z * Disk :=
  match dk_names d !! path with
  | Some _ => (0, mk_disk (delete path (dk_names d)) (dk_files d))
  | None => (-1, d)
  end.

Definition append (i : Z) (t : list Z) (d : Disk) : Disk := mk_disk (dk_names d) (alter (fun l => l ++ t) i (dk_files d)).

(** ** FileAppender *)

Definition MAX_SINGLE_LOG_SIZE : Z := 2048.
Definition ONE_DAY_SECONDS : Z := 86400.

Record FileAppender := mk_appender {
  fa_fs : option Z;              (* the open file *)
  fa_log_file : list Z;
  fa_log_dir : list Z;
  fa_log_file_path : list Z;
  fa_last_sec : Z;
  fa_is_inited : bool;
  fa_retain_day : Z;
}.

Definition set_fs v a := mk_appender v (fa_log_file a) (fa_log_dir a) (fa_log_file_path a) (fa_last_sec a) (fa_is_inited a) (fa_retain_day a).
Definition set_last_sec v a := mk_appender (fa_fs a) (fa_log_file a) (fa_log_dir a) (fa_log_file_path a) v (fa_is_inited a) (fa_retain_day a).
Definition set_inited a := mk_appender (fa_fs a) (fa_log_file a) (fa_log_dir a) (fa_log_file_path a) (fa_last_sec a) true (fa_retain_day a).
Definition set_retain_day v a := mk_appender (fa_fs a) (fa_log_file a) (fa_log_dir a) (fa_log_file_path a) (fa_last_sec a) (fa_is_inited a) v.

(** The one object is global: its members are zero before it is constructed. *)
Definition FileAppender_new : FileAppender := mk_appender None [] [] [] 0 false (-1).

(** [made]: [mkdir] has made the directory or found it. *)
Definition FileAppender_init (made : bool) (ino : option Z) (dir log_file : list Z) (a : FileAppender) (d : Disk)
  : Z * FileAppender * Disk :=
  if negb (bool_decide (dir = [])) && negb made then (-1, set_inited a, d)
  else
    let dir := if bool_decide (dir = []) then bytes "." else dir in
    let path := dir ++ bytes "/" ++ log_file in
    let (fs, d) := open_app ino path d in
    (0, mk_appender fs log_file (fa_log_dir a) path (fa_last_sec a) true (fa_retain_day a), d).

(** [vsnprintf] into the buffer, which is then written up to its NUL. *)
Definition write_log (text : list Z) (a : FileAppender) (d : Disk) : Disk :=
  match fa_fs a with
  | Some i => append i (take (Z.to_nat (MAX_SINGLE_LOG_SIZE - 2)) (c_text text) ++ [LF]) d
  | None => d
  end.

(** [%0nd] of a number that is not negative. *)
Definition padded_dec (width n : Z) : list Z := let t := dec_text n in repeat (chr "0") (Z.to_nat (width - zlen t)) ++ t.

Record date := mk_date { dt_year : Z; dt_mon : Z; dt_mday : Z; dt_hour : Z; dt_min : Z; dt_sec : Z }.

Definition date_text (year mon mday : Z) : list Z := padded_dec 4 year ++ bytes "-" ++ padded_dec 2 mon ++ bytes "-" ++ padded_dec 2 mday.

(** [sprintf] into an array of 100 bytes. *)
Definition dated_name (log_file : list Z) (year mon mday : Z) : list Z + fault :=
  let t := c_text log_file ++ bytes "." ++ date_text year mon mday in
  if zlen t <? 100 then inl t else inr OutOfBounds.

Section Zone.
(** The time zone: the date of a time, and [tz_minuteswest]. *)
Context (localtime : Z -> date) (minuteswest : Z).

Definition delete_old_log (now : Z) (a : FileAppender) (d : Disk) : (Z * Disk) + fault :=
  if fa_retain_day a <=? 0 then inl (0, d)
  else
    let tm := localtime (now - s32 (fa_retain_day a * 3600 * 24)) in
    match dated_name (fa_log_file a) (dt_year tm) (dt_mon tm) (dt_mday tm - 1) with
    | inl old_file => inl (remove (fa_log_dir a ++ bytes "/" ++ old_file) d)
    | inr f => inr f
    end.

(** The part of [shift_file_if_need] under the lock. *)
Definition shift_file (renamed : bool) (ino : option Z) (now : Z) (a : FileAppender) (d : Disk) : (FileAppender * Disk) + fault :=
  let tm := localtime (now - ONE_DAY_SECONDS) in
  match dated_name (fa_log_file a) (dt_year tm) (dt_mon tm) (dt_mday tm) with
  | inr f => inr f
  | inl new_file =>
      let new_file_path := fa_log_dir a ++ bytes "/" ++ new_file in
      match dk_names d !! new_file_path with
      | Some _ => inl (a, d)
      | None =>
          let (fs, d) := open_app ino (fa_log_file_path a) (rename renamed (fa_log_file_path a) new_file_path d) in
          inl (set_fs fs a, d)
      end
  end.

Definition same_day (now last : Z) : bool :=
  Z.quot (now - minuteswest * 60) ONE_DAY_SECONDS - Z.quot (last - minuteswest * 60) ONE_DAY_SECONDS =? 0.

Definition shift_file_if_need (renamed : bool) (ino : option Z) (now : Z) (a : FileAppender) (d : Disk) : (FileAppender * Disk) + fault :=
  if fa_last_sec a =? 0 then inl (set_last_sec now a, d)
  else if same_day now (fa_last_sec a) then inl (set_last_sec now a, d)
  else
    match shift_file renamed ino now a d with
    | inr f => inr f
    | inl (a, d) =>
        match delete_old_log now a d with
        | inr f => inr f
        | inl (_, d) => inl (set_last_sec now a, d)
        end
    end.

(** ** The log *)

Record Log := mk_log {
  log_level : Z;
  g_dir : list Z;
  g_config_file : list Z;
  use_file_appender : bool;
  g_file_appender : FileAppender;
  lg_disk : Disk;
  lg_stdout : list (list Z);
}.

Definition set_appender (a : FileAppender) (d : Disk) (l : Log) : Log :=
  mk_log (log_level l) (g_dir l) (g_config_file l) (use_file_appender l) a d (lg_stdout l).

Definition ERROR_LEVEL : Z := 1.
Definition WARN_LEVEL : Z := 2.
Definition INFO_LEVEL : Z := 3.
Definition DEBUG_LEVEL : Z := 4.

Definition to_lower (c : Z) : Z := if (chr "A" <=? c) && (c <=? chr "Z") then c + 32 else c.
Definition same_nocase (a b : list Z) : bool := bool_decide (map to_lower (c_text a) = map to_lower b).

Definition get_log_level (level_str : list Z) : Z :=
  if same_nocase level_str (bytes "ERROR") then ERROR_LEVEL
  else if same_nocase level_str (bytes "WARN") then WARN_LEVEL
  else if same_nocase level_str (bytes "INFO") then INFO_LEVEL
  else DEBUG_LEVEL.

Definition set_log_level (level : list Z) (l : Log) : Log :=
  mk_log (get_log_level level) (g_dir l) (g_config_file l) (use_file_appender l) (g_file_appender l) (lg_disk l) (lg_stdout l).

Definition start_file (l : Log) : Log :=
  mk_log (log_level l) (g_dir l) (g_config_file l) true (g_file_appender l) (lg_disk l) (lg_stdout l).

(** The file is read at every SIGUSR1; an appender is set up once. *)
Definition check_config_file (made : bool) (ino : option Z) (l : Log) : (Z * Log) + fault :=
  let path := g_dir l ++ bytes "/" ++ g_config_file l in
  match get_config_map (i ← dk_names (lg_disk l) !! path; dk_files (lg_disk l) !! i) ∅ with
  | inr f => inr f
  | inl (_, configs) =>
      if bool_decide (configs = ∅) then inl (0, l)
      else
        let value name := default [] (configs !! bytes name) in
        let l := set_log_level (value "log_level") l in
        let rd := value "retain_day" in
        let l := if bool_decide (rd = []) then l else set_appender (set_retain_day (atoi rd) (g_file_appender l)) (lg_disk l) l in
        let log_file := value "log_file" in
        if bool_decide (log_file = []) then inl (0, l)
        else
          let l := start_file l in
          if fa_is_inited (g_file_appender l) then inl (0, l)
          else
            let '(ret, a, d) := FileAppender_init made ino (value "log_dir") log_file (g_file_appender l) (lg_disk l) in
            inl (ret, set_appender a d l)
  end.

Definition log_init (made : bool) (ino : option Z) (dir file : list Z) (l : Log) : (Z * Log) + fault :=
  check_config_file made ino (mk_log (log_level l) dir file (use_file_appender l) (g_file_appender l) (lg_disk l) (lg_stdout l)).

(** What [log_info] and its kin do with a message at a level; [shown] is the time. *)
Definition log_message (renamed : bool) (ino : option Z) (now : Z) (shown text : list Z) (l : Log) : Log + fault :=
  if negb (use_file_appender l) then
    inl (mk_log (log_level l) (g_dir l) (g_config_file l) (use_file_appender l) (g_file_appender l) (lg_disk l)
           (lg_stdout l ++ [text ++ [LF]]))
  else
    match shift_file_if_need renamed ino now (g_file_appender l) (lg_disk l) with
    | inr f => inr f
    | inl (a, d) => inl (set_appender a (write_log (shown ++ bytes " " ++ text) a d) l)
    end.

Definition log_at (level : Z) (renamed : bool) (ino : option Z) (now : Z) (shown text : list Z) (l : Log) : Log + fault :=
  if log_level l <? level then inl l else log_message renamed ino now shown text l.

(** ** Nothing that was logged is changed *)

(** The open file is the one of the configured name; a new file is new. *)
Record log_ok (l : Log) : Prop := {
  lo_open : exists i, fa_fs (g_file_appender l) = Some i /\ dk_names (lg_disk l) !! fa_log_file_path (g_file_appender l) = Some i;
  lo_files p i : dk_names (lg_disk l) !! p = Some i -> is_Some (dk_files (lg_disk l) !! i);
}.

(** Files only grow. *)
Definition files_grow (d d' : Disk) : Prop :=
  forall i t, dk_files d !! i = Some t -> exists more, dk_files d' !! i = Some (t ++ more).

Lemma grow_same d d' : dk_files d' = dk_files d -> files_grow d d'.
Proof. intros E i t H. exists []. by rewrite E, app_nil_r. Qed.

Lemma grow_trans d d1 d2 : files_grow d d1 -> files_grow d1 d2 -> files_grow d d2.
Proof.
  intros H1 H2 i t H. destruct (H1 i t H) as [m1 E1], (H2 i _ E1) as [m2 E2]. exists (m1 ++ m2). by rewrite E2, app_assoc.
Qed.

Definition names_live (d : Disk) : Prop := forall p i, dk_names d !! p = Some i -> is_Some (dk_files d !! i).

Lemma rename_live ok from to d : names_live d -> names_live (rename ok from to d).
Proof.
  intros H. unfold rename. destruct ok; [|done]. destruct (dk_names d !! from) as [i|] eqn:E; [|done].
  intros p j. cbn. intros [[_ <-]|[_ [_ Hp]%lookup_delete_Some]]%lookup_insert_Some; [exact (H from i E)|exact (H p j Hp)].
Qed.

Lemma rename_files ok from to d : dk_files (rename ok from to d) = dk_files d.
Proof. unfold rename. destruct ok; [|done]. by destruct (dk_names d !! from). Qed.

Lemma open_live i path d d' fs :
  names_live d -> dk_files d !! i = None -> open_app (Some i) path d = (fs, d') ->
  names_live d' /\ files_grow d d' /\ exists j, fs = Some j /\ dk_names d' !! path = Some j.
Proof.
  intros Hd Hi. unfold open_app. destruct (dk_names d !! path) as [j|] eqn:E; intros [= <- <-].
  - split; [done|]. split; [by apply grow_same|]. by exists j.
  - split; [|split].
    + intros p j. cbn. rewrite lookup_insert_is_Some. intros [[_ <-]|[Hne Hp]]%lookup_insert_Some; [by left|].
      destruct (decide (i = j)); [by left|right; split; [done|by eapply Hd]].
    + intros j t Hj. exists []. cbn. rewrite app_nil_r, lookup_insert_ne; [done|]. intros ->. by rewrite Hi in Hj.
    + exists i. cbn. by rewrite lookup_insert_eq.
Qed.

Lemma shift_file_ok renamed i now a d a' d' :
  (exists j, fa_fs a = Some j /\ dk_names d !! fa_log_file_path a = Some j) -> names_live d -> dk_files d !! i = None ->
  shift_file renamed (Some i) now a d = inl (a', d') ->
  names_live d' /\ files_grow d d' /\ fa_log_file_path a' = fa_log_file_path a /\
  exists j, fa_fs a' = Some j /\ dk_names d' !! fa_log_file_path a = Some j.
Proof.
  intros Ho Hd Hi. unfold shift_file. destruct (dated_name _ _ _ _) as [new|]; [|done].
  destruct (dk_names d !! (fa_log_dir a ++ bytes "/" ++ new));
    [intros [= <- <-]; split; [done|]; split; [by apply grow_same|done]|].
  destruct (open_app _ _ _) as [fs d1] eqn:E. intros [= <- <-].
  destruct (open_live i (fa_log_file_path a) (rename renamed (fa_log_file_path a) (fa_log_dir a ++ bytes "/" ++ new) d) d1 fs) as (H1 & H2 & H3);
    [by apply rename_live|by rewrite rename_files|done|].
  split; [done|]. split; [|done]. eapply grow_trans; [|exact H2]. apply grow_same, rename_files.
Qed.

Lemma shift_ok renamed i now a d a' d' :
  (exists j, fa_fs a = Some j /\ dk_names d !! fa_log_file_path a = Some j) -> names_live d -> dk_files d !! i = None ->
  shift_file_if_need renamed (Some i) now a d = inl (a', d') ->
  names_live d' /\ files_grow d d' /\ (exists j, fa_fs a' = Some j /\ is_Some (dk_files d' !! j)) /\
  (fa_retain_day a <= 0 -> exists j, fa_fs a' = Some j /\ dk_names d' !! fa_log_file_path a' = Some j).
Proof.
  intros (j & Hj & Hn) Hd Hi. assert (Hl : is_Some (dk_files d !! j)) by by eapply Hd. unfold shift_file_if_need.
  destruct (fa_last_sec a =? 0); [intros [= <- <-]; split; [done|]; split; [by apply grow_same|]; split; [by exists j|intros _; by exists j]|].
  destruct (same_day _ _); [intros [= <- <-]; split; [done|]; split; [by apply grow_same|]; split; [by exists j|intros _; by exists j]|].
  destruct (shift_file renamed (Some i) now a d) as [[a1 d1]|] eqn:E; [|done].
  destruct (shift_file_ok renamed i now a d a1 d1) as (H1 & H2 & Hp & k & Hk & Hkn); [by exists j|done|done|done|].
  assert (Hr : fa_retain_day a1 = fa_retain_day a).
  { unfold shift_file in E. repeat case_match; simplify_eq; done. }
  unfold delete_old_log. rewrite Hr. destruct (fa_retain_day a <=? 0) eqn:Er.
  - intros [= <- <-]. split; [done|]. split; [done|]. split; [exists k; split; [done|by eapply H1]|].
    intros _. exists k. cbn. by rewrite Hp.
  - destruct (dated_name _ _ _ _) as [old|]; [|done]. unfold remove. destruct (dk_names d1 !! (fa_log_dir a1 ++ bytes "/" ++ old)) as [o|]; intros [= <- <-].
    + split; [intros p q; cbn; intros [_ Hq]%lookup_delete_Some; by eapply H1|]. split; [exact H2|].
      split; [exists k; split; [done|by eapply H1]|]. lia.
    + split; [done|]. split; [done|]. split; [exists k; split; [done|by eapply H1]|]. lia.
Qed.

(** A message is put, with its line end, behind what the open file holds; over midnight,
    when the file may be renamed and another one begun, and whether or not that
    succeeds, no file loses anything. *)
Theorem log_appends renamed i now shown text l l' :
  log_ok l -> use_file_appender l = true -> dk_files (lg_disk l) !! i = None ->
  log_message renamed (Some i) now shown text l = inl l' ->
  files_grow (lg_disk l) (lg_disk l') /\
  (exists j before, fa_fs (g_file_appender l') = Some j /\
     dk_files (lg_disk l') !! j = Some (before ++ take 2046 (c_text (shown ++ bytes " " ++ text)) ++ [LF])) /\
  (fa_retain_day (g_file_appender l) <= 0 -> log_ok l').
Proof.
  intros [Ho Hf] Hu Hi. unfold log_message. rewrite Hu. cbn [negb].
  destruct (shift_file_if_need renamed (Some i) now (g_file_appender l) (lg_disk l)) as [[a d]|] eqn:E; [|done].
  destruct (shift_ok _ _ _ _ _ _ _ Ho Hf Hi E) as (H1 & H2 & (j & Hj & t & Ht) & H4). intros [= <-]. unfold write_log. rewrite Hj.
  change (Z.to_nat (MAX_SINGLE_LOG_SIZE - 2)) with 2046%nat. cbn [set_appender lg_disk g_file_appender].
  set (line := take 2046 _ ++ [LF]). split; [|split].
  - eapply grow_trans; [exact H2|]. intros k u Hk. unfold append. cbn. destruct (decide (j = k)) as [<-|Hne].
    + exists line. by rewrite lookup_alter_eq, Hk.
    + exists []. by rewrite lookup_alter_ne, app_nil_r.
  - exists j, t. split; [done|]. unfold append. cbn. by rewrite lookup_alter_eq, Ht.
  - intros Hr. destruct (H4 Hr) as (k & Hk & Hkn). split; [by exists k|]. intros p q Hq. cbn in *. rewrite lookup_alter_is_Some.
    by eapply H1.
Qed.
End Zone.

(** ** Examples *)

(** The dates of a month from its 28th day on; the time is UTC. *)
Definition march (t : Z) : date :=
  let day := t / 86400 in mk_date 2018 (if day <? 20 then 2 else 3) (if day <? 20 then 9 + day else day - 19) 0 0 0.

Definition configured : Log + fault :=
  let conf := bytes "log_level=INFO" ++ [LF] ++ bytes "log_dir=log" ++ [LF] ++ bytes "log_file=atb.log" ++ [LF] ++ bytes "retain_day=1" in
  let disk := mk_disk {[ bytes "./atb.conf" := 1 ]} {[ 1 := conf ]} in
  match log_init true (Some 2) (bytes ".") (bytes "atb.conf") (mk_log 4 [] [] false FileAppender_new disk []) with
  | inl (_, l) => inl l
  | inr f => inr f
  end.

Definition then_log (ino now : Z) (text : string) (l : Log + fault) : Log + fault :=
  match l with inl l => log_message march 0 true (Some ino) now (bytes "t") (bytes text) l | inr f => inr f end.

(** The directory of the log is configured but never stored: the file of the day before
    is moved to the root directory. *)
Example rotated_to_root :
  match then_log 4 (20 * 86400) "b" (then_log 3 (20 * 86400 - 1) "a" configured) with
  | inl l => dk_names (lg_disk l) !! bytes "/atb.log.2018-02-28"
  | inr _ => None
  end = Some 2.
Proof. vm_compute. reflexivity. Qed.

(** The day of the file to delete is one less than that of a date: at the first of a month
    it is 00, so the file of the last day of every month is kept for ever. *)
Example last_day_kept :
  match delete_old_log march (21 * 86400) (set_retain_day 1 FileAppender_new) (mk_disk {[ bytes "/.2018-02-28" := 7 ]} {[ 7 := [] ]}) with
  | inl (ret, _) => Some ret
  | inr _ => None
  end = Some (-1).
Proof. vm_compute. reflexivity. Qed.
