(* ===== verification/WebSocket.v ===== *)
(** * WebSocket: the base class of the web socket servers

    [WebSocketServer] of [atb_wss/WebSocketServer.cc].  Connections live on a heap,
    [ws_connections] maps a descriptor to the address of its connection, [NULL] being 0.
    What a class derived from it adds to the object is the type [X] of [ws_derived]; the
    virtual methods are the class [Callbacks].  A method is one step; where it gives up
    the lock before it has used what it found, its second half is a definition of its own.
    [ws_written] is what [lws_write] was given and what it answered, in order. *)
From stdpp Require Import gmap sorting.
From S2P Require Import Prelude Control Messages.

(** ** Data *)

Definition WS_MAX_DATA_LEN : Z := 1024.

(** A [BufferString] is the [length] bytes that it holds.  A copy of an empty one leaves
    its [length] as it was in memory. *)
Definition BufferString : Type := list Z.

Definition BufferString_new (data : list Z) : BufferString + fault :=
  if zlen data <=? WS_MAX_DATA_LEN then inl data else inr OutOfBounds.

Definition BufferString_copy (s : BufferString) : BufferString + fault :=
  match s with [] => inr OutOfBounds | _ => inl s end.

Record Connection := mk_connection {
  cn_buffer : list BufferString;
  cn_keyValueMap : gmap (list Z) (list Z);
  cn_createTime : Z;
  cn_timestamp : Z;
  cn_socketid : Z;
}.

Definition set_buffer (v : list BufferString) (c : Connection) := mk_connection v (cn_keyValueMap c) (cn_createTime c) (cn_timestamp c) (cn_socketid c).
Definition set_keyValueMap (v : gmap (list Z) (list Z)) (c : Connection) := mk_connection (cn_buffer c) v (cn_createTime c) (cn_timestamp c) (cn_socketid c).
Definition set_timestamp (v : Z) (c : Connection) := mk_connection (cn_buffer c) (cn_keyValueMap c) (cn_createTime c) v (cn_socketid c).

Record WebSocketServer {X : Type} := mk_ws {
  ws_connections : gmap Z Z;
  ws_heap : gmap Z Connection;
  ws_written : list (Z * list Z * Z);
  ws_derived : X;
}.
Arguments WebSocketServer : clear implicits.

Section Server.
Context {X : Type}.
Implicit Types (s : WebSocketServer X) (fd p : Z).

Definition set_connections (v : gmap Z Z) s := mk_ws X v (ws_heap s) (ws_written s) (ws_derived s).
Definition set_ws_heap (v : gmap Z Connection) s := mk_ws X (ws_connections s) v (ws_written s) (ws_derived s).
Definition set_written (v : list (Z * list Z * Z)) s := mk_ws X (ws_connections s) (ws_heap s) v (ws_derived s).
Definition set_derived (v : X) s := mk_ws X (ws_connections s) (ws_heap s) (ws_written s) v.

Abbreviation Op := (Ctl fault (WebSocketServer X)).

Definition lift_fault {A} (r : A + fault) : Op A := match r with inl a => mret a | inr f => exit f end.

(** ** Access *)

(** [connections.find(fd)] *)
Definition find_connection fd : Op (option Z) := gets (fun s => ws_connections s !! fd).

(** [connections[fd]], which puts in a [NULL] *)
Definition subscript fd : Op Z :=
  r ← find_connection fd;
  match r with
  | Some p => mret p
  | None => modify (fun s => set_connections (<[fd := 0]> (ws_connections s)) s) ;; mret 0
  end.

(** [*p]: neither [NULL] nor a deleted connection has an entry. *)
Definition deref p : Op Connection :=
  r ← gets (fun s => ws_heap s !! p);
  match r with Some c => mret c | None => exit OutOfBounds end.

Definition store p (c : Connection) : Op unit := modify (fun s => set_ws_heap (<[p := c]> (ws_heap s)) s).

(** [c->keyValueMap[name]] *)
Definition key_value p (name : list Z) : Op (list Z) :=
  c ← deref p;
  let v := default [] (cn_keyValueMap c !! name) in
  store p (set_keyValueMap (<[name := v]> (cn_keyValueMap c)) c) ;; mret v.

Definition set_key_value p (name value : list Z) : Op unit :=
  c ← deref p; store p (set_keyValueMap (<[name := value]> (cn_keyValueMap c)) c).

(** ** Methods *)

(** [send] once it has found the connection [c] and given up the lock. *)
Definition send_push fd c (data : list Z) : Op unit :=
  p ← subscript fd; _ ← deref p;
  buf ← lift_fault (BufferString_new data);
  b ← lift_fault (BufferString_copy buf);
  x ← deref c; store c (set_buffer (cn_buffer x ++ [b]) x) ;;
  p ← subscript fd; _ ← deref p; mret tt.

Definition send fd (data : list Z) : Op unit :=
  r ← find_connection fd;
  match r with Some c => send_push fd c data | None => mret tt end.

Definition setValue fd (name value : list Z) : Op unit :=
  r ← find_connection fd;
  match r with Some c => set_key_value c name value | None => mret tt end.

Definition getValue fd (name : list Z) : Op (list Z) :=
  r ← find_connection fd;
  match r with Some c => key_value c name | None => mret [] end.

Definition updateTimestamp fd (timestamp : Z) : Op unit :=
  r ← find_connection fd;
  match r with
  | Some c => x ← deref c; store c (set_timestamp timestamp x)
  | None => mret tt
  end.

Definition getNumberOfConnections : Op Z := gets (fun s => s32 (Z.of_nat (size (ws_connections s)))).

(** [delete] of [NULL] does nothing. *)
Definition removeConnection fd : Op unit :=
  r ← find_connection fd;
  match r with
  | None => mret tt
  | Some c =>
      when (negb (c =? 0)) (_ ← deref c; modify (fun s => set_ws_heap (delete c (ws_heap s)) s)) ;;
      modify (fun s => set_connections (delete fd (ws_connections s)) s)
  end.

(** The descriptors in the order of the map. *)
Definition descriptors s : list Z := merge_sort Z.le (elements (dom (ws_connections s))).

Fixpoint for_each {A} (l : list A) (f : A -> Op unit) : Op unit :=
  match l with [] => mret tt | x :: l' => f x ;; for_each l' f end.

Definition broadcast (data : list Z) : Op unit :=
  l ← gets descriptors; for_each l (fun fd => send fd data).

(** The destructor: [++it] on the element just erased. *)
Definition WebSocketServer_delete : Op unit :=
  n ← gets (fun s => size (ws_connections s));
  when (negb (Nat.eqb n 0)) (exit OutOfBounds).
End Server.

Abbreviation Op X := (Ctl fault (WebSocketServer X)).

(** ** The virtual methods *)
Class Callbacks (X : Type) := {
  onConnect : Z -> Op X unit;
  onMessage : Z -> list Z -> Op X unit;
  onDisconnect : Z -> Op X unit;
  onError : Z -> list Z -> Op X unit;
  onTimeout : Z -> list Z -> Op X unit;
}.

Section Virtual.
Context {X : Type} `{!Callbacks X}.
Implicit Types (s : WebSocketServer X) (fd p : Z).

(** [addr] is the address of the new connection, [junk] what its memory holds for the
    time stamp, [now] the time. *)
Definition onConnectWrapper (addr junk now : Z) fd : Op X unit :=
  modify (fun s => set_ws_heap (<[addr := mk_connection [] ∅ now junk fd]> (ws_heap s)) s) ;;
  modify (fun s => set_connections (<[fd := addr]> (ws_connections s)) s) ;;
  onConnect fd.

Definition onDisconnectWrapper fd : Op X unit := onDisconnect fd ;; removeConnection fd.

Definition onErrorWrapper fd (message : list Z) : Op X unit := onError fd message.

(** The loop of [CheckConnectionState] at one connection: after a time-out it looks at
    the same one again. *)
Definition roomid_key : list Z := bytes "roomid".
Definition expired (cur : Z) (timestamp : Z) : bool := 30 * 1000 <? u64 (cur - timestamp).

Fixpoint check_connection (fuel : nat) (cur p : Z) : Op X unit :=
  match fuel with
  | O => exit OutOfFuel
  | S fuel' =>
      c ← deref p;
      roomid ← key_value p roomid_key;
      if expired cur (cn_timestamp c) && (0 <? zlen roomid) then
        onTimeout (cn_socketid c) roomid ;;
        set_key_value p roomid_key [] ;;
        check_connection fuel' cur p
      else mret tt
  end.

Definition CheckConnectionState (cur : Z) : Op X unit :=
  l ← gets descriptors;
  for_each l (fun fd =>
    r ← find_connection fd;
    match r with Some p => check_connection 2 cur p | None => mret tt end).

(** ** The events of the library

    [sent] is what [lws_write] answers for each message - all of it, where the list is at
    its end -, [memory] what is found from [in] on. *)
Inductive lws_event :=
  | ESTABLISHED (addr junk now fd : Z)
  | SERVER_WRITEABLE (fd : Z) (sent : list Z)
  | RECEIVE (fd : Z) (memory : list Z)
  | CLOSED (fd : Z).

(** What [lws_write] answers for [buf]. *)
Definition answer (buf sent : list Z) : Z := match sent with n :: _ => n | [] => zlen buf end.

(** A message that is not taken in full is not put back: the comment in the loop, that a
    message is only popped when it was sent, is about a line that is commented out. *)
Definition lws_write fd (buf : list Z) (n : Z) : Op X Z :=
  modify (fun s => set_written (ws_written s ++ [(fd, buf, n)]) s) ;; mret n.

Fixpoint writeable_loop (fuel : nat) fd (sent : list Z) : Op X unit :=
  match fuel with
  | O => exit OutOfFuel
  | S fuel' =>
      p ← subscript fd;
      if p =? 0 then mret tt
      else
        c ← deref p;
        match cn_buffer c with
        | [] => mret tt
        | front :: rest =>
            buf ← lift_fault (BufferString_copy front);
            store p (set_buffer rest c) ;;
            n ← lws_write fd buf (answer buf sent);
            when (n <? zlen buf)
              (onErrorWrapper fd (bytes "Error writing to socket")) ;;
            writeable_loop fuel' fd (tail sent)
        end
  end.

Definition pending fd s : nat :=
  match ws_connections s !! fd with
  | Some p => match ws_heap s !! p with Some c => length (cn_buffer c) | None => O end
  | None => O
  end.

Definition callback_main (e : lws_event) : Op X unit :=
  match e with
  | ESTABLISHED addr junk now fd => onConnectWrapper addr junk now fd
  | SERVER_WRITEABLE fd sent => n ← gets (pending fd); writeable_loop (S n) fd sent
  | RECEIVE fd memory =>
      match c_str memory with Some data => onMessage fd data | None => exit OutOfBounds end
  | CLOSED fd => onDisconnectWrapper fd
  end.
End Virtual.
