(* ===== verification/WebSocketProps.v ===== *)
(** * WebSocketProps: the connections as a map

    As long as every descriptor of the table has a connection of its own, the methods of
    [WebSocketServer] are what they would be on a finite map from descriptors to
    connections, [viewers]; none of them fails. *)
From stdpp Require Import gmap sorting.
From S2P Require Import Prelude Control Messages WebSocket.

(** A text that a [BufferString] holds. *)
Definition fits (t : list Z) : Prop := t <> [] /\ zlen t <= WS_MAX_DATA_LEN.

Section Viewers.
Context {X : Type}.
Implicit Types (s : WebSocketServer X) (fd p : Z).

Definition viewers s : gmap Z Connection := omap (fun p => ws_heap s !! p) (ws_connections s).

Record conns_ok s : Prop := {
  co_null : ws_heap s !! 0 = None;
  co_valid fd p : ws_connections s !! fd = Some p ->
    exists c, ws_heap s !! p = Some c /\ cn_socketid c = fd /\ Forall fits (cn_buffer c);
}.

Lemma viewers_lookup s fd : viewers s !! fd = ws_connections s !! fd ≫= fun p => ws_heap s !! p.
Proof. unfold viewers. by rewrite lookup_omap. Qed.

Lemma viewers_some s fd p c : ws_connections s !! fd = Some p -> ws_heap s !! p = Some c -> viewers s !! fd = Some c.
Proof. intros H1 H2. by rewrite viewers_lookup, H1. Qed.

Lemma viewers_none s fd : conns_ok s -> viewers s !! fd = None -> ws_connections s !! fd = None.
Proof.
  intros Hs. rewrite viewers_lookup. destruct (ws_connections s !! fd) as [p|] eqn:E; [|done].
  destruct (co_valid s Hs fd p E) as (c & Ec & _). cbn. by rewrite Ec.
Qed.

Lemma viewers_inv s fd c : viewers s !! fd = Some c -> exists p, ws_connections s !! fd = Some p /\ ws_heap s !! p = Some c.
Proof. rewrite viewers_lookup. intros (p & E & Ec)%bind_Some. eauto. Qed.

Lemma viewers_ok s fd c : conns_ok s -> viewers s !! fd = Some c -> cn_socketid c = fd /\ Forall fits (cn_buffer c).
Proof.
  intros Hs (p & E & Ec)%viewers_inv. destruct (co_valid s Hs fd p E) as (c' & Ec' & H). by simplify_eq.
Qed.

Lemma viewers_dom s : conns_ok s -> dom (viewers s) = dom (ws_connections s).
Proof.
  intros Hs. apply set_eq. intros fd. rewrite !elem_of_dom. split.
  - intros [c (p & E & _)%viewers_inv]. by exists p.
  - intros [p E]. destruct (co_valid s Hs fd p E) as (c & Ec & _). exists c. by eapply viewers_some.
Qed.

(** Two descriptors do not share a connection. *)
Lemma conns_distinct s fd fd' p : conns_ok s -> ws_connections s !! fd = Some p -> ws_connections s !! fd' = Some p -> fd = fd'.
Proof.
  intros Hs E E'. destruct (co_valid s Hs fd p E) as (c & Ec & <- & _), (co_valid s Hs fd' p E') as (c' & Ec' & <- & _).
  by simplify_eq.
Qed.

(** ** Changes of one connection *)

Definition update fd (f : Connection -> Connection) s : WebSocketServer X :=
  match ws_connections s !! fd with
  | Some p => set_ws_heap (alter f p (ws_heap s)) s
  | None => s
  end.

(** A change that leaves a connection what it has to be. *)
Definition keeps (f : Connection -> Connection) : Prop :=
  forall c, cn_socketid (f c) = cn_socketid c /\ (Forall fits (cn_buffer c) -> Forall fits (cn_buffer (f c))).

Lemma update_ok fd f s : conns_ok s -> keeps f -> conns_ok (update fd f s).
Proof.
  intros Hs Hf. unfold update. destruct (ws_connections s !! fd) as [p|] eqn:E; [|done]. split; cbn.
  - destruct (decide (p = 0)) as [->|Hne]; [|by rewrite lookup_alter_ne, (co_null s Hs)].
    by rewrite lookup_alter_eq, (co_null s Hs).
  - intros fd' p' E'. destruct (co_valid s Hs fd' p' E') as (c & Ec & Hc & Hb).
    destruct (decide (p = p')) as [->|Hne]; [|exists c; by rewrite lookup_alter_ne].
    exists (f c). rewrite lookup_alter_eq, Ec. destruct (Hf c) as [H1 H2]. repeat split; [congruence|by apply H2].
Qed.

Lemma viewers_update fd f s : conns_ok s -> viewers (update fd f s) = alter f fd (viewers s).
Proof.
  intros Hs. apply map_eq. intros fd'. unfold update. destruct (ws_connections s !! fd) as [p|] eqn:E.
  - destruct (co_valid s Hs fd p E) as (c & Ec & _). rewrite viewers_lookup. cbn.
    destruct (decide (fd = fd')) as [<-|Hne].
    + rewrite E, lookup_alter_eq. cbn. by rewrite lookup_alter_eq, viewers_lookup, E.
    + rewrite lookup_alter_ne, viewers_lookup by done. destruct (ws_connections s !! fd') as [p'|] eqn:E'; [|done].
      cbn. rewrite lookup_alter_ne; [done|]. intros ->. by destruct Hne, (conns_distinct s fd fd' p' Hs E E').
  - destruct (decide (fd = fd')) as [<-|Hne]; [|by rewrite lookup_alter_ne].
    by rewrite lookup_alter_eq, viewers_lookup, E.
Qed.

Lemma update_derived fd f s : ws_derived (update fd f s) = ws_derived s.
Proof. unfold update. by destruct (ws_connections s !! fd). Qed.

Lemma update_written fd f s : ws_written (update fd f s) = ws_written s.
Proof. unfold update. by destruct (ws_connections s !! fd). Qed.

Lemma insert_alter_heap (h : gmap Z Connection) p c f : h !! p = Some c -> <[p := f c]> h = alter f p h.
Proof.
  intros E. apply map_eq. intros p'. destruct (decide (p = p')) as [<-|Hne].
  - by rewrite lookup_insert_eq, lookup_alter_eq, E.
  - by rewrite lookup_insert_ne, lookup_alter_ne.
Qed.

(** ** The methods *)

Definition enqueue (t : list Z) (c : Connection) : Connection := set_buffer (cn_buffer c ++ [t]) c.
Definition with_value (name value : list Z) (c : Connection) : Connection := set_keyValueMap (<[name := value]> (cn_keyValueMap c)) c.
Definition value_of (name : list Z) (c : Connection) : list Z := default [] (cn_keyValueMap c !! name).

Lemma keeps_enqueue t : fits t -> keeps (enqueue t).
Proof. intros Ht c. split; [done|]. intros Hc. by apply Forall_app_2, Forall_singleton. Qed.

Lemma keeps_with_value name value : keeps (with_value name value).
Proof. done. Qed.

Lemma keeps_timestamp t : keeps (set_timestamp t).
Proof. done. Qed.

Lemma run_subscript s fd p : ws_connections s !! fd = Some p -> subscript fd s = inl (p, s).
Proof. intros E. unfold subscript, find_connection, gets, mbind, ctl_bind. by rewrite E. Qed.

Lemma run_deref s p c : ws_heap s !! p = Some c -> deref p s = inl (c, s).
Proof. intros E. unfold deref, gets, mbind, ctl_bind. by rewrite E. Qed.

Lemma run_store s fd p c f :
  ws_connections s !! fd = Some p -> ws_heap s !! p = Some c -> store p (f c) s = inl (tt, update fd f s).
Proof. intros E Ec. unfold store, modify, update. rewrite E. by rewrite (insert_alter_heap _ _ c). Qed.

(** What a method does that looks for a connection first. *)
Lemma run_find {A} s fd (K : Z -> Op X A) (none : Op X A) r :
  conns_ok s -> (viewers s !! fd = None -> none s = r) ->
  (forall p c, ws_connections s !! fd = Some p -> ws_heap s !! p = Some c -> viewers s !! fd = Some c -> K p s = r) ->
  (r0 ← find_connection fd; match r0 with Some p => K p | None => none end) s = r.
Proof.
  intros Hs Hn Hk. eapply run_bind; [reflexivity|]. destruct (ws_connections s !! fd) as [p|] eqn:E.
  - destruct (co_valid s Hs fd p E) as (c & Ec & _). eapply Hk; [done|done|by eapply viewers_some].
  - apply Hn. by rewrite viewers_lookup, E.
Qed.

Lemma update_none s fd f : conns_ok s -> viewers s !! fd = None -> update fd f s = s.
Proof. intros Hs E. unfold update. by rewrite (viewers_none s fd Hs E). Qed.

Lemma connections_update s fd f : ws_connections (update fd f s) = ws_connections s.
Proof. unfold update. by destruct (ws_connections s !! fd). Qed.

Lemma heap_update s fd p f c :
  ws_connections s !! fd = Some p -> ws_heap s !! p = Some c -> ws_heap (update fd f s) !! p = Some (f c).
Proof. intros E Ec. unfold update. rewrite E. cbn. by rewrite lookup_alter_eq, Ec. Qed.

Lemma run_send s fd t : conns_ok s -> fits t -> send fd t s = inl (tt, update fd (enqueue t) s).
Proof.
  intros Hs [Hne Hl]. apply run_find; [done|intros E; by rewrite update_none|]. intros p c E Ec _. unfold send_push.
  assert (Eb : @BufferString_new t = inl t) by (unfold BufferString_new; by rewrite (proj2 (Z.leb_le _ _))).
  eapply run_bind; [by apply run_subscript|]. eapply run_bind; [by apply run_deref|].
  rewrite Eb. eapply run_bind; [reflexivity|]. destruct t as [|b t]; [done|]. eapply run_bind; [reflexivity|].
  eapply run_bind; [by apply run_deref|]. eapply run_bind; [by apply (run_store _ fd _ _ (enqueue (b :: t)))|].
  eapply run_bind; [by apply run_subscript; rewrite connections_update|].
  eapply run_bind; [by apply run_deref; eapply heap_update|]. done.
Qed.

Lemma run_set_value s fd name value : conns_ok s -> setValue fd name value s = inl (tt, update fd (with_value name value) s).
Proof.
  intros Hs. apply run_find; [done|intros E; by rewrite update_none|]. intros p c E Ec _. unfold set_key_value.
  eapply run_bind; [by apply run_deref|]. by apply (run_store _ fd _ _ (with_value name value)).
Qed.

Lemma run_timestamp s fd t : conns_ok s -> updateTimestamp fd t s = inl (tt, update fd (set_timestamp t) s).
Proof.
  intros Hs. apply run_find; [done|intros E; by rewrite update_none|]. intros p c E Ec _.
  eapply run_bind; [by apply run_deref|]. by apply (run_store _ fd _ _ (set_timestamp t)).
Qed.

(** Reading a value puts the key in. *)
Definition touch (name : list Z) (c : Connection) : Connection := with_value name (value_of name c) c.

Lemma run_key_value s fd p c name :
  ws_connections s !! fd = Some p -> ws_heap s !! p = Some c ->
  key_value p name s = inl (value_of name c, update fd (touch name) s).
Proof.
  intros E Ec. unfold key_value. eapply run_bind; [by apply run_deref|].
  eapply run_bind; [by apply (run_store _ fd _ _ (touch name))|]. done.
Qed.

Lemma run_get_value s fd name :
  conns_ok s -> getValue fd name s = inl (default [] (value_of name <$> viewers s !! fd), update fd (touch name) s).
Proof.
  intros Hs. apply run_find; [done|intros E; by rewrite update_none, E|]. intros p c E Ec ->. by apply run_key_value.
Qed.

(** *** Connections come and go *)

Definition forget fd s : WebSocketServer X :=
  match ws_connections s !! fd with
  | Some p => set_connections (delete fd (ws_connections s)) (set_ws_heap (delete p (ws_heap s)) s)
  | None => s
  end.

Lemma run_remove s fd : conns_ok s -> removeConnection fd s = inl (tt, forget fd s).
Proof.
  intros Hs. unfold forget. apply run_find; [done|intros E; by rewrite (viewers_none s fd Hs E)|]. intros p c E Ec _. rewrite E.
  apply (run_bind _ _ _ tt (set_ws_heap (delete p (ws_heap s)) s)); [|done].
  apply run_when; [|intros H; destr_bool; subst p; by rewrite (co_null s Hs) in Ec].
  intros _. eapply run_bind; [by apply run_deref|]. done.
Qed.

Lemma forget_ok fd s : conns_ok s -> conns_ok (forget fd s).
Proof.
  intros Hs. unfold forget. destruct (ws_connections s !! fd) as [p|] eqn:E; [|done]. split; cbn.
  - apply lookup_delete_None. right. apply Hs.
  - intros fd' p' [Hne E']%lookup_delete_Some. destruct (co_valid s Hs fd' p' E') as (c & Ec & H). exists c.
    rewrite lookup_delete_ne; [done|]. intros ->. by destruct Hne, (conns_distinct s fd fd' p' Hs E E').
Qed.

Lemma viewers_forget fd s : conns_ok s -> viewers (forget fd s) = delete fd (viewers s).
Proof.
  intros Hs. apply map_eq. intros fd'. unfold forget. destruct (ws_connections s !! fd) as [p|] eqn:E.
  - rewrite viewers_lookup. cbn. destruct (decide (fd = fd')) as [<-|Hne]; [by rewrite !lookup_delete_eq|].
    rewrite !lookup_delete_ne, viewers_lookup by done. destruct (ws_connections s !! fd') as [p'|] eqn:E'; [|done].
    cbn. rewrite lookup_delete_ne; [done|]. intros ->. by destruct Hne, (conns_distinct s fd fd' p' Hs E E').
  - destruct (decide (fd = fd')) as [<-|Hne]; [|by rewrite lookup_delete_ne].
    by rewrite lookup_delete_eq, viewers_lookup, E.
Qed.

Definition fresh_connection (junk now fd : Z) : Connection := mk_connection [] ∅ now junk fd.

(** The table after [connections[fd] = new Connection]. *)
Definition connect (addr junk now fd : Z) s : WebSocketServer X :=
  set_connections (<[fd := addr]> (ws_connections s)) (set_ws_heap (<[addr := fresh_connection junk now fd]> (ws_heap s)) s).

Lemma connect_ok addr junk now fd s : conns_ok s -> addr <> 0 -> ws_heap s !! addr = None -> conns_ok (connect addr junk now fd s).
Proof.
  intros Hs H0 Ha. split; cbn; [by rewrite lookup_insert_ne, (co_null s Hs)|].
  intros fd' p' [[<- <-]|[Hne E']]%lookup_insert_Some; [exists (fresh_connection junk now fd); by rewrite lookup_insert_eq|].
  destruct (co_valid s Hs fd' p' E') as (c & Ec & H). exists c. rewrite lookup_insert_ne; [done|]. intros ->. by rewrite Ha in Ec.
Qed.

Lemma viewers_connect addr junk now fd s :
  conns_ok s -> ws_heap s !! addr = None -> viewers (connect addr junk now fd s) = <[fd := fresh_connection junk now fd]> (viewers s).
Proof.
  intros Hs Ha. apply map_eq. intros fd'. rewrite viewers_lookup. cbn.
  destruct (decide (fd = fd')) as [<-|Hne]; [rewrite !lookup_insert_eq; cbn; by rewrite lookup_insert_eq|].
  rewrite !lookup_insert_ne, viewers_lookup by done. destruct (ws_connections s !! fd') as [p'|] eqn:E'; [|done].
  destruct (co_valid s Hs fd' p' E') as (c & Ec & _). cbn. rewrite lookup_insert_ne; [done|]. intros ->. by rewrite Ha in Ec.
Qed.
End Viewers.

(** ** The events of the library

    What the base class relies on in a derived one: an error is only logged, and a
    time-out does to the derived part what [timed_out] says, as long as it satisfies
    [derived_ok]. *)
Class CallbackLaws (X : Type) `{!Callbacks X} := {
  derived_ok : X -> Prop;
  timed_out : Z -> list Z -> X -> X;
  law_error fd message (s : WebSocketServer X) : onError fd message s = inl (tt, s);
  law_timeout fd roomid (s : WebSocketServer X) :
    derived_ok (ws_derived s) -> onTimeout fd roomid s = inl (tt, set_derived (timed_out fd roomid (ws_derived s)) s);
  law_timeout_ok fd roomid (x : X) : derived_ok x -> derived_ok (timed_out fd roomid x);
}.

Section Events.
Context {X : Type} `{!Callbacks X, !CallbackLaws X}.
Implicit Types (s : WebSocketServer X) (fd p : Z).

Lemma update_update fd f g s : update fd f (update fd g s) = update fd (fun c => f (g c)) s.
Proof.
  unfold update. destruct (ws_connections s !! fd) as [p|] eqn:E; cbn; [|by rewrite E]. rewrite E.
  unfold set_ws_heap. cbn. by rewrite alter_alter_eq.
Qed.

Lemma update_ext fd f g s : (forall c, f c = g c) -> update fd f s = update fd g s.
Proof.
  intros E. unfold update. destruct (ws_connections s !! fd); [|done]. f_equal. by apply alter_ext.
Qed.

Lemma update_set_derived fd f x s : update fd f (set_derived x s) = set_derived x (update fd f s).
Proof. unfold update. cbn. by destruct (ws_connections s !! fd). Qed.

(** *** Writing: the messages leave in the order in which they came. *)

(** What [lws_write] is given, with its answers. *)
Fixpoint handed fd (bufs : list (list Z)) (sent : list Z) : list (Z * list Z * Z) :=
  match bufs with [] => [] | b :: bufs' => (fd, b, answer b sent) :: handed fd bufs' (tail sent) end.

Definition flush fd sent s : WebSocketServer X :=
  match viewers s !! fd with
  | Some c => update fd (set_buffer []) (set_written (ws_written s ++ handed fd (cn_buffer c) sent) s)
  | None => s
  end.

Lemma run_writeable_loop fd sent bufs s c n :
  conns_ok s -> viewers s !! fd = Some c -> cn_buffer c = bufs -> (length bufs < n)%nat ->
  writeable_loop n fd sent s = inl (tt, flush fd sent s).
Proof.
  revert bufs sent s c. induction n as [|n IH]; intros bufs sent s c Hs Hc Hb Hn; [lia|]. cbn [writeable_loop].
  destruct (viewers_inv s fd c Hc) as (p & E & Ec). eapply run_bind; [by apply run_subscript|].
  assert (p <> 0) by (intros ->; by rewrite (co_null s Hs) in Ec).
  rewrite (proj2 (Z.eqb_neq _ _)) by done. eapply run_bind; [by apply run_deref|].
  destruct (viewers_ok s fd c Hs Hc) as [_ Hf]. unfold flush. rewrite Hc, Hb in *.
  destruct bufs as [|b bufs].
  - unfold mret, ctl_ret. do 2 f_equal. cbn. rewrite app_nil_r. unfold update. cbn. rewrite E.
    destruct s as [conns h w x]. cbn in *. unfold set_ws_heap, set_written. cbn. f_equal.
    rewrite <-(insert_alter_heap _ _ c) by done. replace (set_buffer [] c) with c; [by rewrite insert_id|].
    destruct c. cbn in *. by subst.
  - apply Forall_cons in Hf as [[Hne Hl] Hf]. destruct b as [|x b]; [done|]. eapply run_bind; [reflexivity|].
    eapply run_bind; [by apply (run_store _ fd _ _ (set_buffer bufs))|]. eapply run_bind; [reflexivity|].
    eapply run_bind; [apply run_when; [intros _; apply law_error|done]|].
    set (s1 := update fd (set_buffer bufs) s).
    assert (E1 : set_written (ws_written s1 ++ [(fd, x :: b, answer (x :: b) sent)]) s1 = update fd (set_buffer bufs) (set_written (ws_written s ++ [(fd, x :: b, answer (x :: b) sent)]) s)).
    { unfold s1, update. cbn. by rewrite E. }
    rewrite E1. set (s2 := set_written _ s). assert (Hs2 : conns_ok s2) by (destruct Hs; by split).
    assert (Hv : viewers (update fd (set_buffer bufs) s2) !! fd = Some (set_buffer bufs c)).
    { rewrite viewers_update by done. change (viewers s2) with (viewers s). by rewrite lookup_alter_eq, Hc. }
    rewrite (IH bufs _ _ (set_buffer bufs c)); [|apply update_ok; [done|by split]|done|done|cbn in Hn; lia].
    unfold flush. rewrite Hv. do 2 f_equal. unfold s2, update. cbn. rewrite E. cbn. rewrite E.
    unfold set_ws_heap, set_written. cbn. rewrite alter_alter_eq, <-app_assoc. done.
Qed.

Lemma run_writeable fd sent s :
  conns_ok s -> is_Some (viewers s !! fd) -> callback_main (SERVER_WRITEABLE fd sent) s = inl (tt, flush fd sent s).
Proof.
  intros Hs [c Hc]. unfold callback_main. eapply run_bind; [reflexivity|].
  destruct (viewers_inv s fd c Hc) as (p & E & Ec). unfold pending. rewrite E, Ec. eapply run_writeable_loop; eauto.
Qed.

(** *** Time-outs *)

Definition check_one cur s fd : WebSocketServer X :=
  match viewers s !! fd with
  | Some c =>
      let roomid := value_of roomid_key c in
      if expired cur (cn_timestamp c) && (0 <? zlen roomid)
      then update fd (with_value roomid_key []) (set_derived (timed_out fd roomid (ws_derived s)) s)
      else update fd (touch roomid_key) s
  | None => s
  end.

Lemma run_check_connection cur s fd p :
  conns_ok s -> derived_ok (ws_derived s) -> ws_connections s !! fd = Some p ->
  check_connection 2 cur p s = inl (tt, check_one cur s fd).
Proof.
  intros Hs Hd E. destruct (co_valid s Hs fd p E) as (c & Ec & Hc & _). unfold check_one.
  rewrite (viewers_some s fd p c) by done. cbn [check_connection].
  eapply run_bind; [by apply run_deref|]. eapply run_bind; [by apply (run_key_value _ fd)|].
  destruct (expired cur (cn_timestamp c) && (0 <? zlen (value_of roomid_key c))) eqn:Ex; [|done].
  set (k := value_of roomid_key c). set (s1 := update fd (touch roomid_key) s).
  assert (D1 : ws_derived s1 = ws_derived s) by apply update_derived.
  assert (C1 : ws_connections s1 !! fd = Some p) by (unfold s1; by rewrite connections_update).
  assert (H1 : ws_heap s1 !! p = Some (touch roomid_key c)) by (by apply heap_update).
  rewrite Hc. eapply run_bind; [apply law_timeout; by rewrite D1|]. rewrite D1. set (s2 := set_derived _ s1).
  eapply run_bind.
  { unfold set_key_value. eapply run_bind; [by apply (run_deref s2 p)|]. by apply (run_store s2 fd _ _ (with_value roomid_key [])). }
  set (s3 := update fd _ s2).
  assert (C3 : ws_connections s3 !! fd = Some p) by (unfold s3; by rewrite connections_update).
  assert (H3 : ws_heap s3 !! p = Some (with_value roomid_key [] (touch roomid_key c))) by (by apply heap_update).
  eapply run_bind; [by apply run_deref|]. eapply run_bind; [by apply (run_key_value _ fd)|].
  assert (Ev : value_of roomid_key (with_value roomid_key [] (touch roomid_key c)) = [])
    by (unfold value_of; cbn; by rewrite lookup_insert_eq).
  rewrite Ev, andb_false_r. unfold mret, ctl_ret. do 2 f_equal. unfold s3, s2, s1.
  rewrite !update_set_derived, !update_update. f_equal. apply update_ext. intros c2. unfold touch, with_value, value_of. cbn.
  destruct c2. cbn. unfold set_keyValueMap. cbn. by rewrite lookup_insert_eq, !insert_insert_eq.
Qed.

Lemma check_one_ok cur s fd : conns_ok s -> derived_ok (ws_derived s) -> conns_ok (check_one cur s fd) /\ derived_ok (ws_derived (check_one cur s fd)).
Proof.
  intros Hs Hd. unfold check_one. destruct (viewers s !! fd) as [c|]; [|done]. case_match; rewrite update_derived.
  - split; [apply update_ok; [|done]; destruct Hs; by split|by apply law_timeout_ok].
  - split; [by apply update_ok|done].
Qed.

Lemma connections_check_one cur s fd : ws_connections (check_one cur s fd) = ws_connections s.
Proof. unfold check_one. destruct (viewers s !! fd) as [c|]; [|done]. case_match; by rewrite connections_update. Qed.

Lemma run_check_state cur s :
  conns_ok s -> derived_ok (ws_derived s) ->
  CheckConnectionState cur s = inl (tt, fold_left (check_one cur) (descriptors s) s).
Proof.
  intros Hs Hd. unfold CheckConnectionState. eapply run_bind; [reflexivity|]. generalize (descriptors s). intros l.
  revert s Hs Hd. induction l as [|fd l IH]; intros s Hs Hd; [done|]. cbn [for_each fold_left].
  destruct (check_one_ok cur s fd Hs Hd) as [Hs1 Hd1]. eapply run_bind; [|by apply IH].
  eapply run_bind; [reflexivity|]. destruct (ws_connections s !! fd) as [p|] eqn:E; [by apply run_check_connection|].
  unfold check_one. by rewrite viewers_lookup, E.
Qed.
End Events.
