(* ===== verification/LiveRooms.v ===== *)
(** * LiveRooms: viewers and the streams they watch

    [LiveRoom] and [PlayMngr] of [atb_wss/LiveRoom.cc] and [atb_wss/PlayMngr.cc].  A room
    is the stream of one camera with the sockets that watch it.  Rooms live on a heap;
    [pm_rooms] maps the concatenation of the two ids to an address.  [PlayMngr] derives
    from [WebSocketServer], so its methods run on a server whose derived part is the
    record below.

    A request waits for the adapter before and between its critical sections; each
    stretch without a wait is a definition, with what the adapter answered as an input.
    [join_liveroom], [quit_liveroom] and [handle_request] put the stretches together for
    a request that no other one overlaps. *)
From stdpp Require Import gmap sorting.
From S2P Require Import Prelude Control Streams JsonValue JsonWriter JsonReader WebSocket.

(** ** LiveRoom *)

Record LiveRoom := mk_room {
  rdy_ : bool;
  cmsid_ : list Z;
  devid_ : list Z;
  token_ : list Z;
  timestamp_ : Z;
  users_ : list Z;
}.

Definition set_rdy (v : bool) r := mk_room v (cmsid_ r) (devid_ r) (token_ r) (timestamp_ r) (users_ r).
Definition set_users (t : Z) (v : list Z) r := mk_room (rdy_ r) (cmsid_ r) (devid_ r) (token_ r) t v.

Definition LiveRoom_new (cmsid devid token : list Z) : LiveRoom := mk_room false cmsid devid token 0 [].

Definition room_size (r : LiveRoom) : Z := s32 (zlen (users_ r)).

Definition room_join (fd : Z) (r : LiveRoom) : Z * LiveRoom :=
  if bool_decide (fd ∈ users_ r) then (room_size r, r)
  else
    let users := users_ r ++ [fd] in
    let size := s32 (zlen users) in
    (size, set_users (if 0 <? size then 0 else timestamp_ r) users r).

(** [now] is the tick count. *)
Definition room_quit (now fd : Z) (r : LiveRoom) : Z * LiveRoom :=
  if bool_decide (fd ∈ users_ r) then
    let users := erase fd (users_ r) in
    let size := s32 (zlen users) in
    (size, set_users (if size <? 1 then now else timestamp_ r) users r)
  else (room_size r, r).

(** ** PlayMngr

    [pm_tasks] are the tasks that the pool has taken, [pm_stops] the calls of
    [stop_play].  [pm_clock], the tick count, and [pm_pool], what [add_task] answers,
    belong to the surroundings. *)
Record PlayMngr := mk_pm {
  pm_rooms : gmap (list Z) Z;
  pm_room_heap : gmap Z LiveRoom;
  pm_tasks : list (Z * list Z);
  pm_stops : list (list Z * list Z);
  pm_clock : Z;
  pm_pool : Z;
}.

Definition set_rooms v m := mk_pm v (pm_room_heap m) (pm_tasks m) (pm_stops m) (pm_clock m) (pm_pool m).
Definition set_room_heap v m := mk_pm (pm_rooms m) v (pm_tasks m) (pm_stops m) (pm_clock m) (pm_pool m).
Definition set_tasks v m := mk_pm (pm_rooms m) (pm_room_heap m) v (pm_stops m) (pm_clock m) (pm_pool m).
Definition set_stops v m := mk_pm (pm_rooms m) (pm_room_heap m) (pm_tasks m) v (pm_clock m) (pm_pool m).
Definition set_clock v m := mk_pm (pm_rooms m) (pm_room_heap m) (pm_tasks m) (pm_stops m) v (pm_pool m).

Abbreviation Server := (WebSocketServer PlayMngr).
Abbreviation PM := (Op PlayMngr).

Definition derived (f : PlayMngr -> PlayMngr) : PM unit := modify (fun s => set_derived (f (ws_derived s)) s).
Definition ask {A} (f : PlayMngr -> A) : PM A := gets (fun s => f (ws_derived s)).
Definition GetTickCount : PM Z := ask pm_clock.

(** ** Rooms *)

Definition find_room (roomid : list Z) : PM (option Z) := ask (fun m => pm_rooms m !! roomid).

Definition deref_room (p : Z) : PM LiveRoom :=
  r ← ask (fun m => pm_room_heap m !! p);
  match r with Some r => mret r | None => exit OutOfBounds end.

Definition store_room (p : Z) (r : LiveRoom) : PM unit :=
  derived (fun m => set_room_heap (<[p := r]> (pm_room_heap m)) m).

Definition join (p fd : Z) : PM Z :=
  r ← deref_room p; let (n, r) := room_join fd r in store_room p r ;; mret n.

Definition quit (p fd : Z) : PM Z :=
  r ← deref_room p; now ← GetTickCount;
  let (n, r) := room_quit now fd r in store_room p r ;; mret n.

(** [delete pRoom; rooms_.erase(iter)] *)
Definition delete_room (roomid : list Z) (p : Z) : PM unit :=
  _ ← deref_room p;
  derived (fun m => set_rooms (delete roomid (pm_rooms m)) (set_room_heap (delete p (pm_room_heap m)) m)).

(** ** The virtual methods *)

Definition decimal (n : Z) : list Z := if n <? 0 then chr "-" :: dec_text (- n) else dec_text n.

Definition pm_onConnect (fd : Z) : PM unit :=
  setValue fd (bytes "handle") (bytes "User #" ++ decimal fd) ;;
  cur ← GetTickCount; updateTimestamp fd cur.

Definition pm_onMessage (fd : Z) (data : list Z) : PM unit :=
  ret ← ask pm_pool;
  if ret =? 0 then derived (fun m => set_tasks (pm_tasks m ++ [(fd, data)]) m)
  else removeConnection fd.

Definition leave (roomid : list Z) (fd : Z) : PM unit :=
  if zlen roomid =? 0 then mret tt
  else
    pRoom ← find_room roomid;
    match pRoom with Some p => _ ← quit p fd; mret tt | None => mret tt end.

Definition pm_onTimeout (fd : Z) (roomid : list Z) : PM unit := leave roomid fd.
Definition pm_onDisconnect (fd : Z) : PM unit := roomid ← getValue fd roomid_key; leave roomid fd.
Definition pm_onError (fd : Z) (message : list Z) : PM unit := mret tt.

#[export] Instance PlayMngr_callbacks : Callbacks PlayMngr := {
  onConnect := pm_onConnect;
  onMessage := pm_onMessage;
  onDisconnect := pm_onDisconnect;
  onError := pm_onError;
  onTimeout := pm_onTimeout;
}.

Section Requests.
Context {D : Doubles}.

(** ** Answers *)

(** [resp[key] = value] for each pair *)
Fixpoint set_members (l : list (string * Value)) (v : Value) : Js Value :=
  match l with
  | [] => mret v
  | (key, x) :: l' => v ← set_member (bytes key) x v; set_members l' v
  end.

(** [resp.toStyledString()] *)
Definition styled_text (l : list (string * Value)) : list Z + fault :=
  match set_members l Value_null with
  | inl v => toStyledString v
  | inr (Throws _) => inr Uncaught
  | inr (Faults f) => inr f
  end.

Definition reply (fd : Z) (l : list (string * Value)) : PM unit := t ← lift_fault (styled_text l); send fd t.

Definition code (n : Z) : string * Value := ("code"%string, of_int n).
Definition result (text : list Z) : string * Value := ("result"%string, of_string text).
Definition token_and_size (token : list Z) (n : Z) : list (string * Value) :=
  [("token"%string, of_string token); ("num"%string, of_int n)].

Definition unexpected : list (string * Value) := [code 900; result (bytes "fail,unexcepted situationl!")].
Definition offline : list (string * Value) := [code 103; result (bytes "camera offline!")].
Definition refused (text : list Z) : list (string * Value) := [code 104; result text].
Definition not_ready (token : list Z) (n : Z) : list (string * Value) :=
  [code 102; result (bytes "stream not ready!")] ++ token_and_size token n.
Definition ready (token : list Z) (n : Z) : list (string * Value) :=
  [code 101; result (bytes "success")] ++ token_and_size token n.
Definition stopped : list (string * Value) := [code 201; result (bytes "stop play success!")].

(** ** Joining *)

(** The end of a join that has succeeded. *)
Definition joined (fd : Z) (roomid : list Z) (answer : list (string * Value)) : PM Z :=
  reply fd answer ;; setValue fd roomid_key roomid ;;
  cur ← GetTickCount; updateTimestamp fd cur ;; mret 0.

Inductive join_next :=
  | Join_returns (ret : Z)
  | Join_starts            (* waits for [start_play] *)
  | Join_enters (p : Z).   (* has found a room and given up the lock *)

Definition drop_room (roomid : list Z) : PM unit :=
  pRoom ← find_room roomid;
  match pRoom with Some p => delete_room roomid p | None => mret tt end.

(** From the answer [ret] of [check_play_status] on. *)
Definition join_status (fd : Z) (cmsid devid : list Z) (ret : Z) : PM join_next :=
  if (ret =? 100) || (ret =? 101) then
    drop_room (cmsid ++ devid) ;; reply fd offline ;; mret (Join_returns (-1))
  else if ret =? 102 then drop_room (cmsid ++ devid) ;; mret Join_starts
  else if ret =? 200 then
    pRoom ← find_room (cmsid ++ devid);
    match pRoom with
    | Some p => mret (Join_enters p)
    | None => reply fd unexpected ;; mret (Join_returns 0)
    end
  else reply fd unexpected ;; mret (Join_returns 0).

Definition join_enters (fd : Z) (cmsid devid : list Z) (p : Z) : PM Z :=
  count ← join p fd; r ← deref_room p;
  joined fd (cmsid ++ devid) (if rdy_ r then ready (token_ r) count else not_ready (token_ r) count).

(** From the answer of [start_play] on; [addr] is the address of the new room. *)
Record start_answer := mk_start { st_ret : Z; st_result : list Z; st_token : list Z }.

Definition join_started (addr : Z) (fd : Z) (cmsid devid : list Z) (a : start_answer) : PM Z :=
  if negb (st_ret a =? 0) then reply fd (refused (st_result a)) ;; mret (-1)
  else
    let (count, r) := room_join fd (LiveRoom_new cmsid devid (st_token a)) in
    store_room addr r ;;
    derived (fun m => set_rooms (<[cmsid ++ devid := addr]> (pm_rooms m)) m) ;;
    joined fd (cmsid ++ devid) (not_ready (st_token a) count).

Definition join_liveroom (addr : Z) (fd : Z) (cmsid devid : list Z) (status : Z) (a : start_answer) : PM Z :=
  next ← join_status fd cmsid devid status;
  match next with
  | Join_returns ret => mret ret
  | Join_starts => join_started addr fd cmsid devid a
  | Join_enters p => join_enters fd cmsid devid p
  end.

(** ** Leaving *)

Inductive quit_next := Quit_returns | Quit_leaves (pRoom : option Z).

Definition quit_status (fd : Z) (cmsid devid : list Z) (ret : Z) : PM quit_next :=
  if ret =? 200 then pRoom ← find_room (cmsid ++ devid); mret (Quit_leaves pRoom)
  else drop_room (cmsid ++ devid) ;; reply fd stopped ;; mret Quit_returns.

Definition quit_leaves (fd : Z) (pRoom : option Z) : PM unit :=
  match pRoom with
  | Some p => _ ← quit p fd; setValue fd roomid_key []
  | None => mret tt
  end ;;
  reply fd stopped.

Definition quit_liveroom (fd : Z) (cmsid devid : list Z) (status : Z) : PM Z :=
  next ← quit_status fd cmsid devid status;
  match next with
  | Quit_returns => mret 0
  | Quit_leaves pRoom => quit_leaves fd pRoom ;; mret 0
  end.

(** ** Requests *)

(** The three fields; [None] if something was thrown. *)
Definition request_fields (value : Value) : option (Z * list Z * list Z) + fault :=
  let m :=
    x ← fetch_member (bytes "cmd") value; let (v, value) := (x : Value * Value) in cmd ← asInt v;
    x ← fetch_member (bytes "cmsid") value; let (v, value) := (x : Value * Value) in cmsid ← asString v;
    x ← fetch_member (bytes "devid") value; let (v, value) := (x : Value * Value) in devid ← asString v;
    mret (cmd, cmsid, devid) in
  match m with
  | inl r => inl (Some r)
  | inr (Throws _) => inl None
  | inr (Faults f) => inr f
  end.

Inductive request := Rq_join (cmsid devid : list Z) | Rq_quit (cmsid devid : list Z) | Rq_heartbeat | Rq_bad.

Definition read_request (cmdline : list Z) : request + fault :=
  match parse true cmdline Value_null with
  | inr (Faults f) => inr f
  | inr (Throws _) => inr Uncaught
  | inl (ok, value, _) =>
      if negb (ok : bool) then inl Rq_bad
      else
        match request_fields value with
        | inr f => inr f
        | inl None => inl Rq_bad
        | inl (Some (cmd, cmsid, devid)) =>
            inl (if cmd =? 100 then Rq_join cmsid devid else if cmd =? 200 then Rq_quit cmsid devid
                 else if cmd =? 300 then Rq_heartbeat else Rq_bad)
        end
  end.

Definition heartbeat_request (fd : Z) : PM Z :=
  cur ← GetTickCount; updateTimestamp fd cur ;;
  roomid ← getValue fd roomid_key;
  reply fd [code (if zlen roomid =? 0 then 302 else 301)] ;; mret 0.

(** [status] and [a] are what the adapter answers, if it is asked. *)
Definition handle_request (addr status : Z) (a : start_answer) (fd : Z) (cmdline : list Z) : PM Z :=
  r ← lift_fault (read_request cmdline);
  match r with
  | Rq_join cmsid devid => join_liveroom addr fd cmsid devid status a
  | Rq_quit cmsid devid => quit_liveroom fd cmsid devid status
  | Rq_heartbeat => heartbeat_request fd
  | Rq_bad => removeConnection fd ;; mret (-1)
  end.

(** ** A stream gets ready *)

(** The rooms in the order of the map. *)
Definition str_le (a b : list Z) : Prop := str_ltb b a = false.
#[export] Instance str_le_dec : RelDecision str_le := fun a b => decide (str_ltb b a = false).
Definition room_names (m : PlayMngr) : list (list Z) := merge_sort str_le (elements (dom (pm_rooms m))).

Fixpoint room_with_token (token : list Z) (l : list (list Z)) : PM (option Z) :=
  match l with
  | [] => mret None
  | k :: l' =>
      r ← find_room k;
      match r with
      | Some p => r ← deref_room p;
                  if bool_decide (token_ r = token) then mret (Some p) else room_with_token token l'
      | None => room_with_token token l'
      end
  end.

(** The two halves of [NotifyHls]: the room is found under the lock and used without. *)
Definition NotifyHls_find (token : list Z) : PM (option Z) := l ← ask room_names; room_with_token token l.

Definition NotifyHls_tell (p : Z) : PM Z :=
  r ← deref_room p; store_room p (set_rdy true r) ;;
  strresp ← lift_fault (styled_text (ready (token_ r) (room_size r)));
  for_each (users_ r) (fun fd => send fd strresp) ;; mret 0.

Definition NotifyHls (token : list Z) : PM Z :=
  p ← NotifyHls_find token;
  match p with Some p => NotifyHls_tell p | None => mret (-1) end.
End Requests.

(** ** The thread that looks after the rooms *)

Definition dead_time (cur : Z) (r : LiveRoom) : bool := (room_size r =? 0) && (60 * 1000 <? u64 (cur - timestamp_ r)).

Definition check_room (k : list Z) : PM unit :=
  r ← find_room k;
  match r with
  | None => mret tt
  | Some p =>
      r ← deref_room p; cur ← GetTickCount;
      when (dead_time cur r)
        (derived (fun m => set_stops (pm_stops m ++ [(cmsid_ r, devid_ r)]) m) ;; delete_room k p)
  end.

Definition check_rooms : PM unit := l ← ask room_names; for_each l check_room.

(** One round of [state_threadfunc] with its two counters. *)
Definition state_round (counts : Z * Z) : PM (Z * Z) :=
  let (iCount0, iCount1) := counts in
  iCount0 ← (if 12 <? iCount0 + 1 then cur0 ← GetTickCount; CheckConnectionState cur0 ;; mret 0 else mret (iCount0 + 1));
  if iCount1 + 1 <? 9 then mret (iCount0, iCount1 + 1) else check_rooms ;; mret (iCount0, 0).
