(* ===== verification/LiveReplies.v ===== *)
(** * LiveReplies: the texts that the live rooms send

    The answers of [PlayMngr] are objects with a few members, which [toStyledString]
    prints one to a line.  Their texts are computed here, with a bound on their length:
    they are copied to arrays of fixed size. *)
From stdpp Require Import gmap.
From S2P Require Import Prelude Control Streams JsonValue JsonWriter JsonReader JsonTrip JsonText WebSocket WebSocketProps LiveRooms.

#[local] Existing Instance styled_layout.

Section Texts.
Context {D : Doubles}.

(** ** Objects of scalars *)

(** A text after which [writeIndent] starts a new line. *)
Definition no_gap (t : list Z) : Prop := exists t' c, t = t' ++ [c] /\ c <> chr " " /\ c <> LF.

Lemma writeIndent_fresh w :
  no_gap (sw_document w) -> put_indent w = inl (tt, set_sw_document (sw_document w ++ [LF] ++ sw_indentString w) w).
Proof.
  intros (t' & c & E & H1 & H2). cbn. unfold writeIndent, modify. rewrite E, last_snoc.
  rewrite (proj2 (Z.eqb_neq c _)) by done. by rewrite (proj2 (Z.eqb_neq c _)) by done.
Qed.

Lemma no_gap_app t u : no_gap u -> no_gap (t ++ u).
Proof. intros (u' & c & -> & H). exists (t ++ u'), c. by rewrite app_assoc. Qed.

Definition member_line (ind k t : list Z) : list Z := [LF] ++ ind ++ valueToQuotedString (c_text k) ++ bytes " : " ++ t.

Lemma member_gap ind k t (b : bool) : no_gap t -> no_gap (member_line ind k t ++ if b then [] else bytes ",").
Proof.
  intros Ht. unfold member_line. destruct b; [rewrite app_nil_r, !app_assoc; by apply no_gap_app|].
  apply no_gap_app. by exists [], 44.
Qed.

Fixpoint member_lines (ind : list Z) (l : list (list Z * list Z)) : list Z :=
  match l with
  | [] => []
  | (k, t) :: l' => member_line ind k t ++ (if bool_decide (l' = []) then [] else bytes ",") ++ member_lines ind l'
  end.

Lemma member_lines_gap ind l d : no_gap d -> Forall (fun p => no_gap p.2) l -> no_gap (d ++ member_lines ind l).
Proof.
  intros Hd H. revert d Hd. induction H as [|[k t] l Ht H IH]; intros d Hd; cbn [member_lines]; [by rewrite app_nil_r|].
  cbn [snd] in Ht. rewrite !app_assoc. apply IH. rewrite <-app_assoc. by apply no_gap_app, member_gap.
Qed.

(** The child of a scalar. *)
Definition scalar_child (p : list Z * child) (q : list Z * list Z) : Prop :=
  p.1 = q.1 /\ comments_ p.2.1 = no_comments /\ p.2.2 = pushValue q.2 /\ no_gap q.2.

Lemma no_comment_before v (w : StyledWriter) : comments_ v = no_comments -> writeCommentBeforeValue v w = inl (tt, w).
Proof. intros E. unfold writeCommentBeforeValue, hasComment, getComment_opt. by rewrite E. Qed.

Lemma no_comment_after v (w : StyledWriter) : comments_ v = no_comments -> writeCommentAfterValueOnSameLine v w = inl (tt, w).
Proof. intros E. unfold writeCommentAfterValueOnSameLine, hasComment, getComment_opt. by rewrite E. Qed.

Lemma object_lines_text l ts w :
  Forall2 scalar_child l ts -> sw_addChildValues w = false -> no_gap (sw_document w) ->
  object_lines l w = inl (tt, set_sw_document (sw_document w ++ member_lines (sw_indentString w) ts) w).
Proof.
  intros H. revert w. induction H as [|[k [c wr]] [k2 t] l ts (Ek & Ec & Ew & Ht) H IH]; intros w Ha Hd; cbn -[bytes] in *.
  { rewrite app_nil_r. by destruct w. }
  subst k2 wr. unfold mbind, ctl_bind at 1. rewrite no_comment_before by done.
  unfold writeWithIndent, mbind, ctl_bind. rewrite writeIndent_fresh by done.
  unfold sw_emit at 1, sw_emit at 1, pushValue, modify. cbn -[bytes]. rewrite Ha.
  assert (E : when (bool_decide (l <> [])) (sw_emit (bytes ",")) = sw_emit (if bool_decide (ts = []) then [] else bytes ",") \/
     bool_decide (l <> []) = false /\ bool_decide (ts = []) = true).
  { destruct H; [by right|by left]. }
  assert (Hg : no_gap (sw_document w ++ member_line (sw_indentString w) k t ++ (if bool_decide (ts = []) then [] else bytes ",")))
    by (by apply no_gap_app, member_gap).
  destruct E as [E|[E1 E2]].
  - rewrite E. unfold sw_emit, modify. cbn -[bytes]. rewrite no_comment_after by done. unfold set_sw_document. cbn -[bytes].
    rewrite IH; cbn -[bytes]; [|done|]; unfold set_sw_document; cbn -[bytes].
    + unfold member_line. by rewrite <-!app_assoc.
    + unfold member_line in Hg. by rewrite <-!app_assoc in *.
  - rewrite E1, E2 in *. cbn -[bytes]. rewrite no_comment_after by done. unfold set_sw_document. cbn -[bytes].
    cbv iota in Hg. rewrite app_nil_r in Hg. rewrite IH; cbn -[bytes]; [|done|]; unfold set_sw_document; cbn -[bytes].
    + unfold member_line. by rewrite <-!app_assoc.
    + unfold member_line in Hg. by rewrite <-!app_assoc in *.
Qed.

Definition object_text (l : list (list Z * list Z)) : list Z := bytes "{" ++ member_lines (bytes "   ") l ++ [LF] ++ bytes "}" ++ [LF].

Lemma writeObjectValue_text l ts :
  Forall2 scalar_child l ts -> l <> [] ->
  (writeObjectValue l ;; sw_emit [LF]) (mk_styled [] [] [] false) = inl (tt, mk_styled (object_text ts) [] [] false).
Proof.
  intros H Hne. destruct l as [|p l]; [done|]. cbn [writeObjectValue].
  assert (Hg : no_gap (bytes "{" ++ member_lines (bytes "   ") ts)).
  { apply member_lines_gap; [by exists [], 123|]. apply Forall_forall. intros q Hq.
    apply list_elem_of_lookup in Hq as [i Hi]. destruct (Forall2_lookup_r _ _ _ _ _ H Hi) as (x & _ & Hx). apply Hx. }
  eapply run_bind.
  { do 2 (eapply run_bind; [reflexivity|]). eapply run_bind; [apply (object_lines_text _ _ _ H); [done|by exists [], 123]|].
    eapply run_bind; [reflexivity|]. eapply run_bind; [by apply writeIndent_fresh|]. reflexivity. }
  unfold sw_emit, modify, set_sw_document, object_text. cbn -[bytes]. by rewrite <-!app_assoc.
Qed.

Lemma flat_document m l ts :
  styled_value (Val no_comments (objectValue m)) = writeObjectValue l -> Forall2 scalar_child l ts -> l <> [] ->
  toStyledString (Val no_comments (objectValue m)) = inl (object_text ts).
Proof.
  intros E H Hne. unfold toStyledString, StyledWriter_write, write_document. rewrite E.
  pose proof (writeObjectValue_text l ts H Hne) as Hw. unfold mbind, ctl_bind in *.
  rewrite no_comment_before by done. destruct (writeObjectValue l _) as [[[] w]|[]]; [|done].
  rewrite no_comment_after by done. by rewrite Hw.
Qed.

(** ** Scalars *)

Lemma no_gap_quoted s : no_gap (valueToQuotedString s).
Proof. unfold valueToQuotedString. destruct (_ && _); eexists (QUOTE :: _), QUOTE; (split; [reflexivity|done]). Qed.

Lemma no_gap_int n : no_gap (valueToString_int n).
Proof.
  assert (H : forall m, 0 <= m -> no_gap (dec_text m)).
  { intros m Hm. destruct (dec_text_digits m Hm) as [[Hne Hd] _]. destruct (exists_last Hne) as (t & c & E).
    exists t, c. split; [done|]. rewrite E, Forall_app, Forall_singleton in Hd. destruct Hd as [_ Hd].
    apply is_digit_range in Hd. cbn in *. lia. }
  unfold valueToString_int, uintToString. case_match; destr_bool; [apply (no_gap_app [_])|]; apply H; [apply Z.mod_pos_bound; lia|lia].
Qed.

Ltac scalar_children :=
  repeat first [constructor | split]; try reflexivity; try apply no_gap_quoted; apply no_gap_int.

(** ** The answers *)

Definition quoted_text (s : list Z) : list Z := valueToQuotedString (c_text s).

Definition code_text (n : Z) : list Z := object_text [(bytes "code", valueToString_int n)].
Definition result_text (n : Z) (r : list Z) : list Z :=
  object_text [(bytes "code", valueToString_int n); (bytes "result", quoted_text r)].
Definition token_text (n k : Z) (r token : list Z) : list Z :=
  object_text [(bytes "code", valueToString_int n); (bytes "num", valueToString_int k);
               (bytes "result", quoted_text r); (bytes "token", quoted_text token)].

Lemma styled_code n : styled_text [code n] = inl (code_text n).
Proof. unfold styled_text. cbn -[bytes]. eapply flat_document; [reflexivity|scalar_children|done]. Qed.

Lemma styled_result n r : styled_text [code n; result r] = inl (result_text n r).
Proof. unfold styled_text. cbn -[bytes]. eapply flat_document; [reflexivity|scalar_children|done]. Qed.

Lemma styled_token n k r token : styled_text ([code n; result r] ++ token_and_size token k) = inl (token_text n k r token).
Proof. unfold styled_text. cbn -[bytes]. eapply flat_document; [reflexivity|scalar_children|done]. Qed.

(** ** Their length *)

Lemma zlen_c_text l : zlen (c_text l) <= zlen l.
Proof. induction l as [|c l IH]; cbn [c_text]; [done|]. case_match; rewrite ?zlen_cons; [pose proof (zlen_nonneg l)|]; unfold zlen in *; cbn; lia. Qed.

Lemma zlen_escaped s : zlen (concat (map escape_char s)) <= 6 * zlen s.
Proof.
  induction s as [|c s IH]; [done|]. cbn [map concat]. rewrite zlen_app, zlen_cons.
  assert (zlen (escape_char c) <= 6); [|lia]. unfold escape_char, u_escape.
  repeat (case_match; [unfold zlen; cbn; lia|]). unfold zlen; cbn; lia.
Qed.

Lemma zlen_quoted s : zlen (quoted_text s) <= 6 * zlen s + 2.
Proof.
  pose proof (zlen_c_text s). unfold quoted_text, valueToQuotedString.
  case_match; rewrite zlen_cons, zlen_app; change (zlen [_]) with 1; [|pose proof (zlen_escaped (c_text s))];
  pose proof (zlen_nonneg (c_text s)); lia.
Qed.

Lemma zlen_dec_text_loop fuel n acc : zlen (dec_text_loop fuel n acc) <= Z.of_nat fuel + zlen acc.
Proof.
  revert n acc. induction fuel as [|fuel IH]; intros n acc; cbn [dec_text_loop]; [lia|].
  case_match; [|etrans; [apply IH|]]; rewrite zlen_cons; lia.
Qed.

Lemma zlen_int n : - 2 ^ 31 <= n < 2 ^ 31 -> zlen (valueToString_int n) <= 33.
Proof.
  assert (H : forall m, 0 <= m <= 2 ^ 31 -> zlen (dec_text m) <= 32).
  { intros m Hm. unfold dec_text. etrans; [apply zlen_dec_text_loop|]. change (zlen []) with 0.
    assert (Z.log2 m <= 31) by (apply (Z.log2_le_mono m (2 ^ 31)); lia). lia. }
  intros Hn. unfold valueToString_int, uintToString. case_match; destr_bool; [rewrite zlen_cons|]; (assert (zlen (dec_text (uwrap 64 (- n))) <= 32 \/ 0 <= n)
    by (destruct (decide (0 <= n)); [by right|left; rewrite uwrap_small by lia; apply H; lia])).
  - lia.
  - specialize (H n ltac:(lia)). lia.
Qed.

Lemma object_text_fits l : zlen (member_lines (bytes "   ") l) <= 1000 -> fits (object_text l).
Proof. intros H. split; [done|]. unfold object_text, WS_MAX_DATA_LEN. rewrite !zlen_app. change (zlen (bytes _)) with 1. change (zlen [LF]) with 1. lia. Qed.

Lemma zlen_member k t : zlen (member_line (bytes "   ") k t) = 7 + zlen (valueToQuotedString (c_text k)) + zlen t.
Proof. unfold member_line. rewrite !zlen_app. change (zlen (bytes _)) with 3. change (zlen [LF]) with 1. lia. Qed.

Ltac members_length :=
  cbn [member_lines]; rewrite !zlen_app, !zlen_member;
  repeat match goal with |- context [zlen (valueToQuotedString (c_text (bytes ?x)))] =>
    let n := eval vm_compute in (zlen (valueToQuotedString (c_text (bytes x)))) in
    change (zlen (valueToQuotedString (c_text (bytes x)))) with n end;
  repeat (case_bool_decide; [|try discriminate]); change (zlen (bytes ",")) with 1; change (zlen (@nil Z)) with 0.

Lemma code_fits n : - 2 ^ 31 <= n < 2 ^ 31 -> fits (code_text n).
Proof. intros Hn%zlen_int. apply object_text_fits. members_length; lia. Qed.

Lemma result_fits n r : - 2 ^ 31 <= n < 2 ^ 31 -> zlen r <= 128 -> fits (result_text n r).
Proof.
  intros Hn%zlen_int Hr. apply object_text_fits. pose proof (zlen_quoted r). members_length; lia.
Qed.

Lemma token_fits n k r token :
  - 2 ^ 31 <= n < 2 ^ 31 -> - 2 ^ 31 <= k < 2 ^ 31 -> zlen r <= 17 -> zlen token <= 128 -> fits (token_text n k r token).
Proof.
  intros Hn%zlen_int Hk%zlen_int Hr Ht. apply object_text_fits.
  pose proof (zlen_quoted r). pose proof (zlen_quoted token). members_length; lia.
Qed.
End Texts.
