(* ===== verification/LiveView.v ===== *)
(** * LiveView: what the live rooms do, without pointers

    The server as two finite maps, from descriptors to viewers and from ids to rooms.
    Each operation has its effect on them as a definition here; [LiveRefine] shows that
    the operations of [PlayMngr] have exactly these effects. *)
From stdpp Require Import gmap sorting.
From S2P Require Import Prelude Control Streams JsonValue JsonWriter JsonReader WebSocket WebSocketProps LiveRooms LiveReplies.

Record View := mk_view {
  vw_viewers : gmap Z Connection;
  vw_rooms : gmap (list Z) LiveRoom;
  vw_written : list (Z * list Z * Z);
  vw_tasks : list (Z * list Z);
  vw_stops : list (list Z * list Z);
  vw_clock : Z;
  vw_pool : Z;
}.

Definition set_viewers v w := mk_view v (vw_rooms w) (vw_written w) (vw_tasks w) (vw_stops w) (vw_clock w) (vw_pool w).
Definition set_vrooms v w := mk_view (vw_viewers w) v (vw_written w) (vw_tasks w) (vw_stops w) (vw_clock w) (vw_pool w).
Definition set_vwritten v w := mk_view (vw_viewers w) (vw_rooms w) v (vw_tasks w) (vw_stops w) (vw_clock w) (vw_pool w).
Definition set_vtasks v w := mk_view (vw_viewers w) (vw_rooms w) (vw_written w) v (vw_stops w) (vw_clock w) (vw_pool w).
Definition set_vstops v w := mk_view (vw_viewers w) (vw_rooms w) (vw_written w) (vw_tasks w) v (vw_clock w) (vw_pool w).
Definition set_vclock v w := mk_view (vw_viewers w) (vw_rooms w) (vw_written w) (vw_tasks w) (vw_stops w) v (vw_pool w).

Definition set_vpool v w := mk_view (vw_viewers w) (vw_rooms w) (vw_written w) (vw_tasks w) (vw_stops w) (vw_clock w) v.

Definition on_viewer (fd : Z) (f : Connection -> Connection) (w : View) : View := set_viewers (alter f fd (vw_viewers w)) w.
Definition on_room (k : list Z) (f : LiveRoom -> LiveRoom) (w : View) : View := set_vrooms (alter f k (vw_rooms w)) w.
Definition put_room (k : list Z) (r : LiveRoom) (w : View) : View := set_vrooms (<[k := r]> (vw_rooms w)) w.
Definition close_room (k : list Z) (w : View) : View := set_vrooms (delete k (vw_rooms w)) w.

Definition say (fd : Z) (t : list Z) (w : View) : View := on_viewer fd (enqueue t) w.
Definition hang_up (fd : Z) (w : View) : View := set_viewers (delete fd (vw_viewers w)) w.
Definition alive (fd : Z) (w : View) : View := on_viewer fd (set_timestamp (vw_clock w)) w.

(** The room that a viewer is recorded in. *)
Definition room_of (fd : Z) (w : View) : list Z := default [] (value_of roomid_key <$> vw_viewers w !! fd).

(** ** Effects *)

Definition welcome (addr junk now fd : Z) (w : View) : View :=
  alive fd (on_viewer fd (with_value (bytes "handle") (bytes "User #" ++ decimal fd))
    (set_viewers (<[fd := fresh_connection junk now fd]> (vw_viewers w)) w)).

Definition take_message (fd : Z) (data : list Z) (w : View) : View :=
  if vw_pool w =? 0 then set_vtasks (vw_tasks w ++ [(fd, data)]) w else hang_up fd w.

Definition walk_out (k : list Z) (fd : Z) (w : View) : View :=
  if zlen k =? 0 then w else on_room k (fun r => (room_quit (vw_clock w) fd r).2) w.

Definition part (fd : Z) (w : View) : View :=
  hang_up fd (walk_out (room_of fd w) fd (on_viewer fd (touch roomid_key) w)).

Definition deliver (fd : Z) (sent : list Z) (w : View) : View :=
  match vw_viewers w !! fd with
  | Some c => on_viewer fd (set_buffer []) (set_vwritten (vw_written w ++ handed fd (cn_buffer c) sent) w)
  | None => w
  end.

Definition admitted (fd : Z) (k : list Z) (t : list Z) (w : View) : View :=
  alive fd (on_viewer fd (with_value roomid_key k) (say fd t w)).

Definition welcome_text (r : LiveRoom) (count : Z) : list Z :=
  if rdy_ r then token_text 101 count (bytes "success") (token_ r)
  else token_text 102 count (bytes "stream not ready!") (token_ r).

Definition unexpected_text : list Z := result_text 900 (bytes "fail,unexcepted situationl!").

Definition enter (fd : Z) (cmsid devid : list Z) (status : Z) (a : start_answer) (w : View) : View :=
  let k := cmsid ++ devid in
  if (status =? 100) || (status =? 101) then say fd (result_text 103 (bytes "camera offline!")) (close_room k w)
  else if status =? 102 then
    if st_ret a =? 0 then
      let (count, r) := room_join fd (LiveRoom_new cmsid devid (st_token a)) in
      admitted fd k (welcome_text r count) (put_room k r (close_room k w))
    else say fd (result_text 104 (st_result a)) (close_room k w)
  else if status =? 200 then
    match vw_rooms w !! k with
    | Some r => let (count, r) := room_join fd r in admitted fd k (welcome_text r count) (put_room k r w)
    | None => say fd unexpected_text w
    end
  else say fd unexpected_text w.

Definition stopped_text : list Z := result_text 201 (bytes "stop play success!").

Definition go (fd : Z) (cmsid devid : list Z) (status : Z) (w : View) : View :=
  let k := cmsid ++ devid in
  if status =? 200 then
    match vw_rooms w !! k with
    | Some r => say fd stopped_text (on_viewer fd (with_value roomid_key []) (put_room k (room_quit (vw_clock w) fd r).2 w))
    | None => say fd stopped_text w
    end
  else say fd stopped_text (close_room k w).

Definition life_sign (fd : Z) (w : View) : View :=
  say fd (code_text (if zlen (room_of fd w) =? 0 then 302 else 301)) (on_viewer fd (touch roomid_key) (alive fd w)).

Section Requests.
Context {D : Doubles}.

Definition serve (r : request) (fd status : Z) (a : start_answer) (w : View) : View :=
  match r with
  | Rq_join cmsid devid => enter fd cmsid devid status a w
  | Rq_quit cmsid devid => go fd cmsid devid status w
  | Rq_heartbeat => life_sign fd w
  | Rq_bad => hang_up fd w
  end.
End Requests.

(** The first room with a token, in the order of the ids. *)
Definition ids {A} (m : gmap (list Z) A) : list (list Z) := merge_sort str_le (elements (dom m)).

Fixpoint first_with (token : list Z) (l : list (list Z)) (m : gmap (list Z) LiveRoom) : option (list Z) :=
  match l with
  | [] => None
  | k :: l' =>
      match m !! k with
      | Some r => if bool_decide (token_ r = token) then Some k else first_with token l' m
      | None => first_with token l' m
      end
  end.

Definition announce (token : list Z) (w : View) : View :=
  match first_with token (ids (vw_rooms w)) (vw_rooms w) with
  | None => w
  | Some k =>
      match vw_rooms w !! k with
      | None => w
      | Some r =>
          fold_left (fun w fd => say fd (welcome_text (set_rdy true r) (room_size r)) w) (users_ r) (put_room k (set_rdy true r) w)
      end
  end.

Definition expire (cur : Z) (w : View) (fd : Z) : View :=
  match vw_viewers w !! fd with
  | Some c =>
      let k := value_of roomid_key c in
      if expired cur (cn_timestamp c) && (0 <? zlen k) then on_viewer fd (with_value roomid_key []) (walk_out k fd w)
      else on_viewer fd (touch roomid_key) w
  | None => w
  end.

Definition expire_all (cur : Z) (w : View) : View :=
  fold_left (expire cur) (merge_sort Z.le (elements (dom (vw_viewers w)))) w.

(** A room that has been empty for too long is closed, and its stream stopped. *)
Definition sweep_one (w : View) (k : list Z) : View :=
  match vw_rooms w !! k with
  | Some r => if dead_time (vw_clock w) r then close_room k (set_vstops (vw_stops w ++ [(cmsid_ r, devid_ r)]) w) else w
  | None => w
  end.

Definition sweep (w : View) : View := fold_left sweep_one (ids (vw_rooms w)) w.
