(* ===== verification/LiveRefine.v ===== *)
(** * LiveRefine: the live rooms implement their view

    As long as the tables point to what they should, every operation of [PlayMngr] and
    of its base class runs without a fault and does to [view] what [LiveView] says. *)
From stdpp Require Import gmap sorting.
From S2P Require Import Prelude Control Streams JsonValue JsonWriter JsonReader Messages WebSocket WebSocketProps LiveRooms LiveReplies LiveView.

(** ** Rooms *)

Definition rooms_of (m : PlayMngr) : gmap (list Z) LiveRoom := omap (fun p => pm_room_heap m !! p) (pm_rooms m).

(** A room keeps its ids, has nobody twice, and its token fits an answer. *)
Definition room_fine (k : list Z) (r : LiveRoom) : Prop :=
  cmsid_ r ++ devid_ r = k /\ NoDup (users_ r) /\ zlen (token_ r) <= 128.

Definition rooms_ok (m : PlayMngr) : Prop :=
  forall k p, pm_rooms m !! k = Some p -> exists r, pm_room_heap m !! p = Some r /\ room_fine k r.

Section Rooms.
Implicit Types (m : PlayMngr) (k : list Z).

Lemma rooms_lookup m k : rooms_of m !! k = pm_rooms m !! k ≫= fun p => pm_room_heap m !! p.
Proof. unfold rooms_of. by rewrite lookup_omap. Qed.

Lemma rooms_some m k p r : pm_rooms m !! k = Some p -> pm_room_heap m !! p = Some r -> rooms_of m !! k = Some r.
Proof. intros H1 H2. by rewrite rooms_lookup, H1. Qed.

Lemma rooms_none m k : pm_rooms m !! k = None -> rooms_of m !! k = None.
Proof. intros H. by rewrite rooms_lookup, H. Qed.

Lemma rooms_fine m k r : rooms_ok m -> rooms_of m !! k = Some r -> room_fine k r.
Proof. rewrite rooms_lookup. intros Hm (p & E & Er)%bind_Some. destruct (Hm k p E) as (r' & Er' & H). by simplify_eq. Qed.

Lemma rooms_dom m : rooms_ok m -> dom (rooms_of m) = dom (pm_rooms m).
Proof.
  intros Hm. apply set_eq. intros k. rewrite !elem_of_dom. split.
  - intros [r E]. rewrite rooms_lookup in E. apply bind_Some in E as (p & E & _). by exists p.
  - intros [p E]. destruct (Hm k p E) as (r & Er & _). exists r. by eapply rooms_some.
Qed.

Lemma rooms_distinct m k k' p : rooms_ok m -> pm_rooms m !! k = Some p -> pm_rooms m !! k' = Some p -> k = k'.
Proof.
  intros Hm E E'. destruct (Hm k p E) as (r & Er & <- & _), (Hm k' p E') as (r' & Er' & <- & _). by simplify_eq.
Qed.

(** *** A room changes, is closed, is put in *)

Definition put (p : Z) (r : LiveRoom) m : PlayMngr := set_room_heap (<[p := r]> (pm_room_heap m)) m.

Lemma put_ok m k p r' : rooms_ok m -> pm_rooms m !! k = Some p -> room_fine k r' -> rooms_ok (put p r' m).
Proof.
  intros Hm E Hr k' p' E'. cbn in *. destruct (decide (p = p')) as [<-|Hne].
  - rewrite (rooms_distinct m k k' p Hm E E') in Hr. exists r'. by rewrite lookup_insert_eq.
  - destruct (Hm k' p' E') as (r2 & Er & H). exists r2. by rewrite lookup_insert_ne.
Qed.

Lemma rooms_put m k p r : rooms_ok m -> pm_rooms m !! k = Some p -> rooms_of (put p r m) = <[k := r]> (rooms_of m).
Proof.
  intros Hm E. apply fin_maps.map_eq. intros k'. rewrite rooms_lookup. cbn. destruct (decide (k = k')) as [<-|Hne].
  - rewrite E, lookup_insert_eq. cbn. by rewrite lookup_insert_eq.
  - rewrite lookup_insert_ne, rooms_lookup by done. destruct (pm_rooms m !! k') as [p'|] eqn:E'; [|done]. cbn.
    rewrite lookup_insert_ne; [done|]. intros ->. by destruct Hne, (rooms_distinct m k k' p' Hm E E').
Qed.

Definition closed k p m : PlayMngr := set_rooms (delete k (pm_rooms m)) (set_room_heap (delete p (pm_room_heap m)) m).

Lemma closed_ok m k p : rooms_ok m -> pm_rooms m !! k = Some p -> rooms_ok (closed k p m).
Proof.
  intros Hm E k' p' E'. cbn in *. apply lookup_delete_Some in E' as [Hne E'].
  destruct (Hm k' p' E') as (r & Er & H). exists r. rewrite lookup_delete_ne; [done|].
  intros ->. by destruct Hne, (rooms_distinct m k k' p' Hm E E').
Qed.

Lemma rooms_closed m k p : rooms_ok m -> pm_rooms m !! k = Some p -> rooms_of (closed k p m) = delete k (rooms_of m).
Proof.
  intros Hm E. apply fin_maps.map_eq. intros k'. rewrite rooms_lookup. cbn. destruct (decide (k = k')) as [<-|Hne].
  - by rewrite !lookup_delete_eq.
  - rewrite !lookup_delete_ne, rooms_lookup by done. destruct (pm_rooms m !! k') as [p'|] eqn:E'; [|done]. cbn.
    rewrite lookup_delete_ne; [done|]. intros ->. by destruct Hne, (rooms_distinct m k k' p' Hm E E').
Qed.

Definition opened k p r m : PlayMngr := set_rooms (<[k := p]> (pm_rooms m)) (put p r m).

Lemma opened_ok m k p r : rooms_ok m -> pm_room_heap m !! p = None -> room_fine k r -> rooms_ok (opened k p r m).
Proof.
  intros Hm Hp Hr k' p' E'. cbn in *. apply lookup_insert_Some in E' as [[<- <-]|[Hne E']].
  - exists r. by rewrite lookup_insert_eq.
  - destruct (Hm k' p' E') as (r2 & Er & H). exists r2. rewrite lookup_insert_ne; [done|]. intros ->. by rewrite Hp in Er.
Qed.

Lemma rooms_opened m k p r : rooms_ok m -> pm_room_heap m !! p = None -> rooms_of (opened k p r m) = <[k := r]> (rooms_of m).
Proof.
  intros Hm Hp. apply fin_maps.map_eq. intros k'. rewrite rooms_lookup. cbn. destruct (decide (k = k')) as [<-|Hne].
  - rewrite !lookup_insert_eq. cbn. by rewrite lookup_insert_eq.
  - rewrite !lookup_insert_ne, rooms_lookup by done. destruct (pm_rooms m !! k') as [p'|] eqn:E'; [|done].
    destruct (Hm k' p' E') as (r2 & Er & H). cbn. rewrite lookup_insert_ne; [done|]. intros ->. by rewrite Hp in Er.
Qed.

(** *** Members *)

Lemma room_join_fine k fd r : room_fine k r -> room_fine k (room_join fd r).2.
Proof.
  intros (H1 & H2 & H3). unfold room_join. case_bool_decide as Hu; [done|]. split; [done|]. split; [|done]. cbn.
  apply NoDup_app. split; [done|]. split; [|apply NoDup_singleton]. intros x Hx ->%list_elem_of_singleton. done.
Qed.

Lemma room_quit_fine k now fd r : room_fine k r -> room_fine k (room_quit now fd r).2.
Proof.
  intros (H1 & H2 & H3). unfold room_quit. case_bool_decide; [|done]. split; [done|]. split; [|done]. by apply erase_NoDup.
Qed.

(** What [leave] does to the rooms. *)
Definition left_room (fd : Z) k m : PlayMngr :=
  if zlen k =? 0 then m
  else
    match pm_rooms m !! k with
    | Some p =>
        match pm_room_heap m !! p with
        | Some r => put p (room_quit (pm_clock m) fd r).2 m
        | None => m
        end
    | None => m
    end.

Lemma left_room_ok fd k m : rooms_ok m -> rooms_ok (left_room fd k m).
Proof.
  intros Hm. unfold left_room. case_match; [done|]. destruct (pm_rooms m !! k) as [p|] eqn:E; [|done].
  destruct (Hm k p E) as (r & Er & Hr). rewrite Er. eapply put_ok; [done|done|by apply room_quit_fine].
Qed.
End Rooms.

(** ** The server *)

Definition server_ok (s : Server) : Prop := conns_ok s /\ rooms_ok (ws_derived s).

Definition view (s : Server) : View :=
  let m := ws_derived s in
  mk_view (viewers s) (rooms_of m) (ws_written s) (pm_tasks m) (pm_stops m) (pm_clock m) (pm_pool m).

Section Server.
Implicit Types (s : Server).

Lemma update_server fd f s :
  server_ok s -> keeps f -> server_ok (update fd f s) /\ view (update fd f s) = on_viewer fd f (view s).
Proof.
  intros [Hs Hm] Hf. split; [split; [by apply update_ok|by rewrite update_derived]|].
  unfold view, on_viewer, set_viewers. rewrite viewers_update, update_derived, update_written by done. done.
Qed.

Lemma forget_server fd s : server_ok s -> server_ok (forget fd s) /\ view (forget fd s) = hang_up fd (view s).
Proof.
  intros [Hs Hm]. pose proof (forget_ok fd s Hs). pose proof (viewers_forget fd s Hs).
  assert (E : ws_derived (forget fd s) = ws_derived s /\ ws_written (forget fd s) = ws_written s)
    by (unfold forget; by destruct (ws_connections s !! fd)).
  destruct E as [E1 E2]. split; [split; [done|by rewrite E1]|]. unfold view, hang_up, set_viewers. by rewrite E1, E2, H0.
Qed.

Lemma derived_server x s :
  server_ok s -> rooms_ok x -> server_ok (set_derived x s).
Proof. intros [[H1 H2] Hm] Hx. by repeat split. Qed.

Lemma run_deref_room s p r : pm_room_heap (ws_derived s) !! p = Some r -> deref_room p s = inl (r, s).
Proof. intros E. unfold deref_room. eapply run_bind; [reflexivity|]. cbn. by rewrite E. Qed.

Lemma run_quit s p fd r :
  pm_room_heap (ws_derived s) !! p = Some r ->
  let x := room_quit (pm_clock (ws_derived s)) fd r in quit p fd s = inl (x.1, set_derived (put p x.2 (ws_derived s)) s).
Proof.
  intros E x. unfold quit. eapply run_bind; [by apply run_deref_room|]. eapply run_bind; [reflexivity|]. cbn. fold x. by destruct x.
Qed.

Lemma run_join s p fd r :
  pm_room_heap (ws_derived s) !! p = Some r ->
  let x := room_join fd r in join p fd s = inl (x.1, set_derived (put p x.2 (ws_derived s)) s).
Proof. intros E x. unfold join. eapply run_bind; [by apply run_deref_room|]. fold x. by destruct x. Qed.

Lemma run_leave fd k s : rooms_ok (ws_derived s) -> leave k fd s = inl (tt, set_derived (left_room fd k (ws_derived s)) s).
Proof.
  intros Hm. unfold leave, left_room. assert (Es : set_derived (ws_derived s) s = s) by (by destruct s).
  case_match; [by rewrite Es|]. eapply run_bind; [reflexivity|].
  destruct (pm_rooms (ws_derived s) !! k) as [p|] eqn:E; [|by rewrite Es].
  destruct (Hm k p E) as (r & Er & _). rewrite Er. unfold quit.
  eapply run_bind; [by apply run_quit|]. done.
Qed.

Lemma view_derived s x :
  view (set_derived x s) = mk_view (viewers s) (rooms_of x) (ws_written s) (pm_tasks x) (pm_stops x) (pm_clock x) (pm_pool x).
Proof. done. Qed.

Lemma put_server s k p r :
  server_ok s -> pm_rooms (ws_derived s) !! k = Some p -> room_fine k r ->
  let s' := set_derived (put p r (ws_derived s)) s in server_ok s' /\ view s' = put_room k r (view s).
Proof.
  intros Hs E Hr s'. destruct (Hs) as [_ Hm]. split; [apply derived_server; [done|by eapply put_ok]|].
  unfold s'. by rewrite view_derived, (rooms_put _ k).
Qed.

Lemma closed_server s k p :
  server_ok s -> pm_rooms (ws_derived s) !! k = Some p ->
  let s' := set_derived (closed k p (ws_derived s)) s in server_ok s' /\ view s' = close_room k (view s).
Proof.
  intros Hs E s'. destruct (Hs) as [_ Hm]. split; [apply derived_server; [done|by eapply closed_ok]|].
  unfold s'. by rewrite view_derived, rooms_closed.
Qed.

Lemma opened_server s k p r :
  server_ok s -> pm_room_heap (ws_derived s) !! p = None -> room_fine k r ->
  let s' := set_derived (opened k p r (ws_derived s)) s in server_ok s' /\ view s' = put_room k r (view s).
Proof.
  intros Hs E Hr s'. destruct (Hs) as [_ Hm]. split; [apply derived_server; [done|by apply opened_ok]|].
  unfold s'. by rewrite view_derived, rooms_opened.
Qed.

Lemma on_room_put k f w r : vw_rooms w !! k = Some r -> on_room k f w = put_room k (f r) w.
Proof.
  intros E. unfold on_room, put_room. f_equal. apply fin_maps.map_eq. intros k'. destruct (decide (k = k')) as [<-|Hne].
  - by rewrite lookup_insert_eq, lookup_alter_eq, E.
  - by rewrite lookup_insert_ne, lookup_alter_ne.
Qed.

Lemma on_room_none k f w : vw_rooms w !! k = None -> on_room k f w = w.
Proof. intros E. unfold on_room. rewrite alter_id' by done. by destruct w. Qed.

(** The room with an id, seen through the pointers. *)
Lemma room_at s k :
  server_ok s ->
  match pm_rooms (ws_derived s) !! k with
  | Some p => exists r, pm_room_heap (ws_derived s) !! p = Some r /\ vw_rooms (view s) !! k = Some r /\ room_fine k r
  | None => vw_rooms (view s) !! k = None
  end.
Proof.
  intros [_ Hm]. destruct (pm_rooms (ws_derived s) !! k) as [p|] eqn:E; [|by apply rooms_none].
  destruct (Hm k p E) as (r & Er & Hr). exists r. split; [done|]. split; [by eapply rooms_some|done].
Qed.

Lemma left_room_server fd k s :
  server_ok s -> server_ok (set_derived (left_room fd k (ws_derived s)) s) /\
  view (set_derived (left_room fd k (ws_derived s)) s) = walk_out k fd (view s).
Proof.
  intros Hs. pose proof (room_at s k Hs) as H. unfold left_room, walk_out. destruct (zlen k =? 0); [by destruct s|].
  destruct (pm_rooms (ws_derived s) !! k) as [p|] eqn:E; [|rewrite on_room_none; [by destruct s|done]].
  destruct H as (r & -> & Er & Hr). rewrite (on_room_put _ _ _ r) by done. apply put_server; [done|done|by apply room_quit_fine].
Qed.
End Server.

#[export] Program Instance PlayMngr_laws : CallbackLaws PlayMngr := {
  derived_ok := rooms_ok;
  timed_out fd k m := left_room fd k m;
}.
Next Obligation. done. Qed.
Next Obligation. intros fd k s Hm. by apply run_leave. Qed.
Next Obligation. intros fd k m. apply left_room_ok. Qed.

(** ** Operations and their effects *)

Section Effects.
Context {D : Doubles}.
Implicit Types (s : Server) (w : View).

(** [m] runs, yields [a], and leaves the server with the view [w]. *)
Definition does {A} (m : PM A) s (a : A) w : Prop := exists s', m s = inl (a, s') /\ server_ok s' /\ view s' = w.

Lemma does_ret {A} (a : A) s : server_ok s -> does (mret a) s a (view s).
Proof. intros Hs. by exists s. Qed.

Lemma does_run {A B} (m : PM A) (f : A -> PM B) s a s1 b w : m s = inl (a, s1) -> does (f a) s1 b w -> does (m ≫= f) s b w.
Proof. intros E (s2 & E2 & H). exists s2. split; [by eapply run_bind|done]. Qed.

Lemma does_bind {A B} (m : PM A) (f : A -> PM B) s a w1 b w :
  does m s a w1 -> (forall s1, server_ok s1 -> view s1 = w1 -> does (f a) s1 b w) -> does (m ≫= f) s b w.
Proof. intros (s1 & E & Hs & Ev) H. eapply does_run; [done|]. by apply H. Qed.

Lemma does_update (m : PM unit) fd f s :
  server_ok s -> keeps f -> m s = inl (tt, update fd f s) -> does m s tt (on_viewer fd f (view s)).
Proof. intros Hs Hf E. exists (update fd f s). split; [done|]. by apply update_server. Qed.

Lemma does_send fd t s : server_ok s -> fits t -> does (send fd t) s tt (say fd t (view s)).
Proof. intros Hs Ht. apply does_update; [done|by apply keeps_enqueue|]. apply run_send; [apply Hs|done]. Qed.

Lemma does_set_value fd name v s : server_ok s -> does (setValue fd name v) s tt (on_viewer fd (with_value name v) (view s)).
Proof. intros Hs. apply does_update; [done|apply keeps_with_value|apply run_set_value, Hs]. Qed.

Lemma does_timestamp fd s : server_ok s -> does (cur ← GetTickCount; updateTimestamp fd cur) s tt (alive fd (view s)).
Proof.
  intros Hs. apply does_update; [done|apply keeps_timestamp|]. eapply run_bind; [reflexivity|]. apply run_timestamp, Hs.
Qed.

Lemma does_roomid fd s :
  server_ok s -> does (getValue fd roomid_key) s (room_of fd (view s)) (on_viewer fd (touch roomid_key) (view s)).
Proof.
  intros Hs. exists (update fd (touch roomid_key) s). split; [apply run_get_value, Hs|].
  apply update_server; [done|]. by intros c.
Qed.

Lemma does_remove fd s : server_ok s -> does (removeConnection fd) s tt (hang_up fd (view s)).
Proof. intros Hs. exists (forget fd s). split; [apply run_remove, Hs|by apply forget_server]. Qed.

Lemma does_leave k fd s : server_ok s -> does (leave k fd) s tt (walk_out k fd (view s)).
Proof. intros Hs. eexists. split; [apply run_leave, Hs|by apply left_room_server]. Qed.

Lemma does_reply fd l t s : server_ok s -> styled_text l = inl t -> fits t -> does (reply fd l) s tt (say fd t (view s)).
Proof. intros Hs E Ht. unfold reply. rewrite E. eapply does_run; [reflexivity|]. by apply does_send. Qed.

Lemma does_joined fd k l t s :
  server_ok s -> styled_text l = inl t -> fits t -> does (joined fd k l) s 0 (admitted fd k t (view s)).
Proof.
  intros Hs E Ht. unfold joined, admitted. eapply does_bind; [by eapply does_reply|]. intros s1 H1 <-.
  eapply does_bind; [by apply does_set_value|]. intros s2 H2 <-.
  destruct (does_timestamp fd s2 H2) as (s3 & E3 & H3 & <-). exists s3. split; [|done].
  unfold mbind, ctl_bind in E3 |- *. destruct (GetTickCount s2) as [[cur s2']|]; [|done]. by rewrite E3.
Qed.

Lemma run_drop_room k s :
  server_ok s -> exists x, drop_room k s = inl (tt, set_derived x s) /\
    server_ok (set_derived x s) /\ view (set_derived x s) = close_room k (view s) /\
    forall p, pm_room_heap (ws_derived s) !! p = None -> pm_room_heap x !! p = None.
Proof.
  intros Hs. pose proof (room_at s k Hs) as H. unfold drop_room.
  destruct (pm_rooms (ws_derived s) !! k) as [p|] eqn:E.
  - destruct H as (r & Er & Ev & _). exists (closed k p (ws_derived s)). split; [|split; [|split]].
    + eapply run_bind; [reflexivity|]. rewrite E. unfold delete_room. eapply run_bind; [by apply run_deref_room|]. done.
    + by apply closed_server.
    + by apply closed_server.
    + intros p' Hp. cbn. apply lookup_delete_None. by right.
  - exists (ws_derived s). assert (Es : set_derived (ws_derived s) s = s) by (by destruct s). rewrite Es. split; [|split; [done|split; [|done]]].
    + eapply run_bind; [reflexivity|]. by rewrite E.
    + unfold close_room. rewrite delete_id by done. by destruct (view s).
Qed.

Lemma does_drop_room k s : server_ok s -> does (drop_room k) s tt (close_room k (view s)).
Proof. intros Hs. destruct (run_drop_room k s Hs) as (x & E & H1 & H2 & _). by exists (set_derived x s). Qed.

(** *** Requests *)

Lemma s32_range z : - 2 ^ 31 <= s32 z < 2 ^ 31.
Proof. unfold s32, uwrap. pose proof (Z.mod_pos_bound (z + 2 ^ 31) (2 ^ 32)). lia. Qed.

Lemma room_join_range fd r : - 2 ^ 31 <= (room_join fd r).1 < 2 ^ 31.
Proof. unfold room_join. case_bool_decide; apply s32_range. Qed.

Lemma room_join_token fd r : token_ (room_join fd r).2 = token_ r /\ rdy_ (room_join fd r).2 = rdy_ r.
Proof. unfold room_join. by case_bool_decide. Qed.

(** What a newcomer is told. *)
Lemma styled_welcome r n :
  styled_text (if rdy_ r then ready (token_ r) n else not_ready (token_ r) n) = inl (welcome_text r n).
Proof. unfold welcome_text. destruct (rdy_ r); apply styled_token. Qed.

Lemma welcome_fits k r n : room_fine k r -> - 2 ^ 31 <= n < 2 ^ 31 -> fits (welcome_text r n).
Proof. intros (_ & _ & Ht) Hn. unfold welcome_text. destruct (rdy_ r); by apply token_fits. Qed.

Lemma does_enters fd cmsid devid p r s :
  let k := cmsid ++ devid in
  server_ok s -> pm_rooms (ws_derived s) !! k = Some p -> vw_rooms (view s) !! k = Some r ->
  does (join_enters fd cmsid devid p) s 0
    (let (count, r) := room_join fd r in admitted fd k (welcome_text r count) (put_room k r (view s))).
Proof.
  intros k Hs E Ev. pose proof (room_at s k Hs) as H. rewrite E in H. destruct H as (r' & Er & Ev' & Hr). simplify_eq.
  unfold join_enters. eapply does_run; [by apply run_join|]. pose proof (room_join_range fd r). pose proof (room_join_fine k fd r Hr).
  destruct (room_join fd r) as [count r2]. cbn [fst snd] in *.
  destruct (put_server s k p r2 Hs E) as [Hs2 <-]; [done|].
  eapply does_run; [apply run_deref_room; cbn; by rewrite lookup_insert_eq|].
  apply does_joined; [done|apply styled_welcome|by eapply welcome_fits].
Qed.

Lemma does_started addr fd cmsid devid a s :
  let k := cmsid ++ devid in
  server_ok s -> pm_room_heap (ws_derived s) !! addr = None -> zlen (st_result a) <= 128 -> zlen (st_token a) <= 128 ->
  exists ret, does (join_started addr fd cmsid devid a) s ret
    (if st_ret a =? 0 then
       let (count, r) := room_join fd (LiveRoom_new cmsid devid (st_token a)) in
       admitted fd k (welcome_text r count) (put_room k r (view s))
     else say fd (result_text 104 (st_result a)) (view s)).
Proof.
  intros k Hs Ha Hr Ht. unfold join_started. destruct (st_ret a =? 0); cbn [negb].
  - assert (Hf : room_fine k (LiveRoom_new cmsid devid (st_token a))) by (split; [done|split; [constructor|done]]).
    pose proof (room_join_range fd (LiveRoom_new cmsid devid (st_token a))) as Hc. apply (room_join_fine k fd) in Hf.
    pose proof (room_join_token fd (LiveRoom_new cmsid devid (st_token a))) as [Et Ey].
    destruct (room_join fd _) as [count r]. cbn [fst snd] in *. exists 0.
    eapply does_run; [reflexivity|]. eapply does_run; [reflexivity|]. cbn [ws_derived set_derived].
    destruct (opened_server s k addr r Hs Ha Hf) as [Hs2 <-].
    eapply (does_joined fd k _ _ (set_derived (opened k addr r (ws_derived s)) s)); [done| |by eapply welcome_fits].
    unfold welcome_text. rewrite Ey, Et. apply styled_token.
  - exists (-1). eapply does_bind; [eapply does_reply; [done|apply styled_result|by apply result_fits]|].
    intros s1 H1 <-. by apply does_ret.
Qed.

Lemma does_join addr fd cmsid devid status a s :
  server_ok s -> pm_room_heap (ws_derived s) !! addr = None -> zlen (st_result a) <= 128 -> zlen (st_token a) <= 128 ->
  exists ret, does (join_liveroom addr fd cmsid devid status a) s ret (enter fd cmsid devid status a (view s)).
Proof.
  intros Hs Ha Hr Ht. set (k := cmsid ++ devid). unfold join_liveroom, join_status, enter. fold k.
  assert (Hun : does (next ← (reply fd unexpected ;; mret (Join_returns 0)); match next with
    | Join_returns ret => mret ret | Join_starts => join_started addr fd cmsid devid a | Join_enters p => join_enters fd cmsid devid p end)
    s 0 (say fd unexpected_text (view s))).
  { eapply (does_bind _ _ _ (Join_returns 0)); [|intros s1 H1 <-; by apply does_ret].
    eapply does_bind; [|intros s1 H1 <-; by apply does_ret].
    eapply (does_reply _ _ unexpected_text); [done|apply styled_result|by apply result_fits]. }
  destruct ((status =? 100) || (status =? 101)); [|destruct (status =? 102); [|destruct (status =? 200)]].
  - exists (-1). eapply (does_bind _ _ _ (Join_returns (-1))); [|intros s1 H1 <-; by apply does_ret].
    eapply does_bind; [by apply does_drop_room|]. intros s1 H1 <-.
    eapply does_bind; [eapply does_reply; [done|apply styled_result|by apply result_fits]|]. intros s2 H2 <-. by apply does_ret.
  - destruct (run_drop_room k s Hs) as (x & E & Hx & <- & Hp).
    destruct (does_started addr fd cmsid devid a (set_derived x s) Hx (Hp addr Ha) Hr Ht) as [ret H]. exists ret.
    eapply does_run; [eapply run_bind; [exact E|reflexivity]|]. exact H.
  - exists 0. pose proof (room_at s k Hs) as H. destruct (pm_rooms (ws_derived s) !! k) as [p|] eqn:E.
    + destruct H as (r & _ & Ev & _). rewrite Ev. eapply does_run; [eapply run_bind; [reflexivity|]; by rewrite E|].
      by apply (does_enters fd cmsid devid p r s Hs E Ev).
    + rewrite H. destruct Hun as (s2 & E2 & H2). exists s2. split; [|done].
      unfold mbind, ctl_bind, find_room, ask, gets in *. by rewrite E.
  - by exists 0.
Qed.

Lemma does_quit fd cmsid devid status s :
  server_ok s -> does (quit_liveroom fd cmsid devid status) s 0 (go fd cmsid devid status (view s)).
Proof.
  intros Hs. set (k := cmsid ++ devid). unfold quit_liveroom, quit_status, go. fold k.
  assert (Hr : forall s, server_ok s -> does (reply fd stopped) s tt (say fd stopped_text (view s)))
    by (intros s0 H0; eapply does_reply; [done|apply styled_result|by apply result_fits]).
  destruct (status =? 200).
  - pose proof (room_at s k Hs) as H. eapply does_run; [eapply run_bind; reflexivity|]. cbv beta iota.
    eapply (does_bind _ _ _ tt); [|intros s1 H1 <-; by apply does_ret]. unfold quit_leaves.
    destruct (pm_rooms (ws_derived s) !! k) as [p|] eqn:E.
    + destruct H as (r & Er & -> & Hf).
      destruct (put_server s k p (room_quit (pm_clock (ws_derived s)) fd r).2 Hs E) as [Hs2 E2]; [by apply room_quit_fine|].
      change (vw_clock (view s)) with (pm_clock (ws_derived s)). rewrite <-E2.
      eapply does_bind.
      * eapply does_run; [by apply run_quit|]. by apply does_set_value.
      * intros s1 H1 <-. by apply Hr.
    + rewrite H. eapply does_run; [reflexivity|]. by apply Hr.
  - eapply (does_bind _ _ _ Quit_returns); [|intros s1 H1 <-; by apply does_ret].
    eapply does_bind; [by apply does_drop_room|]. intros s1 H1 <-.
    eapply does_bind; [by apply Hr|]. intros s2 H2 <-. by apply does_ret.
Qed.

Lemma does_heartbeat fd s : server_ok s -> does (heartbeat_request fd) s 0 (life_sign fd (view s)).
Proof.
  intros Hs. unfold heartbeat_request, life_sign.
  assert (E0 : room_of fd (view s) = room_of fd (alive fd (view s))).
  { unfold room_of, alive, on_viewer. cbn. rewrite lookup_alter_eq. by destruct (viewers s !! fd). }
  rewrite E0. destruct (does_timestamp fd s Hs) as (s1 & E1 & H1 & <-).
  assert (H : does (roomid ← getValue fd roomid_key; reply fd [code (if zlen roomid =? 0 then 302 else 301)] ;; mret 0) s1 0
    (say fd (code_text (if zlen (room_of fd (view s1)) =? 0 then 302 else 301)) (on_viewer fd (touch roomid_key) (view s1)))).
  { eapply does_bind; [by apply does_roomid|]. intros s2 H2 <-.
    eapply does_bind; [eapply does_reply; [done|apply styled_code|]|intros s3 H3 <-; by apply does_ret].
    apply code_fits. by case_match. }
  destruct H as (s2 & E2 & H2). exists s2. split; [|done]. unfold mbind, ctl_bind in *.
  destruct (GetTickCount s) as [[cur s0]|]; [|done]. by rewrite E1.
Qed.

Lemma does_request addr status a fd cmdline r s :
  server_ok s -> read_request cmdline = inl r -> pm_room_heap (ws_derived s) !! addr = None ->
  zlen (st_result a) <= 128 -> zlen (st_token a) <= 128 ->
  exists ret, does (handle_request addr status a fd cmdline) s ret (serve r fd status a (view s)).
Proof.
  intros Hs E Ha Hr Ht. unfold handle_request. rewrite E.
  assert (H : exists ret, does (match r with
    | Rq_join cmsid devid => join_liveroom addr fd cmsid devid status a
    | Rq_quit cmsid devid => quit_liveroom fd cmsid devid status
    | Rq_heartbeat => heartbeat_request fd
    | Rq_bad => removeConnection fd ;; mret (-1) end) s ret (serve r fd status a (view s))).
  { destruct r; cbn [serve]; [by apply does_join|exists 0; by apply does_quit|exists 0; by apply does_heartbeat|].
    exists (-1). eapply does_bind; [by apply does_remove|]. intros s1 H1 <-. by apply does_ret. }
  destruct H as [ret H]. exists ret. by eapply does_run; [reflexivity|].
Qed.

(** *** A stream gets ready *)

Lemma run_room_with_token token l s :
  server_ok s ->
  exists r, room_with_token token l s = inl (r, s) /\
    r = first_with token l (vw_rooms (view s)) ≫= fun k => pm_rooms (ws_derived s) !! k.
Proof.
  intros Hs. induction l as [|k l IH]; cbn [room_with_token first_with]; [by exists None|].
  pose proof (room_at s k Hs) as H. destruct IH as (r' & E' & Er').
  destruct (pm_rooms (ws_derived s) !! k) as [p|] eqn:E.
  - destruct H as (r & Er & -> & _). case_bool_decide as Hd.
    + exists (Some p). split; [|by cbn]. eapply run_bind; [reflexivity|]. rewrite E.
      eapply run_bind; [by apply run_deref_room|]. by rewrite bool_decide_true.
    + exists r'. split; [|done]. eapply run_bind; [reflexivity|]. rewrite E.
      eapply run_bind; [by apply run_deref_room|]. by rewrite bool_decide_false.
  - rewrite H. exists r'. split; [|done]. eapply run_bind; [reflexivity|]. by rewrite E.
Qed.

Lemma does_for_each {A} (f : A -> PM unit) (g : View -> A -> View) l s :
  server_ok s -> (forall x s, server_ok s -> does (f x) s tt (g (view s) x)) ->
  does (for_each l f) s tt (fold_left g l (view s)).
Proof.
  intros Hs Hf. revert s Hs. induction l as [|x l IH]; intros s Hs; cbn [for_each fold_left]; [by apply does_ret|].
  eapply does_bind; [by apply Hf|]. intros s1 H1 <-. by apply IH.
Qed.

Lemma does_notify token s : server_ok s -> exists ret, does (NotifyHls token) s ret (announce token (view s)).
Proof.
  intros Hs. unfold NotifyHls, NotifyHls_find, announce.
  assert (Ei : room_names (ws_derived s) = ids (vw_rooms (view s))) by (unfold room_names, ids; cbn; by rewrite rooms_dom by apply Hs).
  destruct (run_room_with_token token (ids (vw_rooms (view s))) s Hs) as (r & E & Er).
  destruct (first_with token _ _) as [k|] eqn:Ef; cbn in Er; subst r.
  - pose proof (room_at s k Hs) as H. destruct (pm_rooms (ws_derived s) !! k) as [p|] eqn:Ek.
    + destruct H as (r & Er & -> & Hr). exists 0.
      eapply does_run; [eapply run_bind; [reflexivity|]; rewrite Ei; exact E|]. cbv beta iota. unfold NotifyHls_tell.
      eapply does_run; [by apply run_deref_room|]. eapply does_run; [reflexivity|].
      destruct (put_server s k p (set_rdy true r) Hs Ek) as [H1 E1]; [done|]. rewrite <-E1.
      rewrite (styled_token 101 (room_size r) (bytes "success") (token_ r) : styled_text (ready (token_ r) (room_size r)) = _).
      eapply does_run; [reflexivity|]. eapply does_bind; [|intros s2 H2 <-; by apply does_ret].
      apply does_for_each; [done|]. intros fd s2 H2. apply does_send; [done|]. eapply (welcome_fits k); [done|apply s32_range].
    + exists (-1). rewrite H. eapply does_run; [eapply run_bind; [reflexivity|]; rewrite Ei; exact E|]. by apply does_ret.
  - exists (-1). eapply does_run; [eapply run_bind; [reflexivity|]; rewrite Ei; exact E|]. by apply does_ret.
Qed.

(** *** Looking after connections and rooms *)

Lemma does_expire cur s : server_ok s -> does (CheckConnectionState cur) s tt (expire_all cur (view s)).
Proof.
  intros Hs. destruct (Hs) as [Hc Hm]. eexists. split; [by apply run_check_state|]. unfold expire_all, descriptors.
  cbn [vw_viewers view]. rewrite viewers_dom by done. generalize (merge_sort Z.le (elements (dom (ws_connections s)))). intros l.
  clear Hc Hm. revert s Hs. induction l as [|fd l IH]; intros s Hs; cbn [fold_left]; [done|].
  assert (H : server_ok (check_one cur s fd) /\ view (check_one cur s fd) = expire cur (view s) fd).
  { unfold check_one, expire. cbn [vw_viewers view]. destruct (viewers s !! fd) as [c|]; [|done]. case_match.
    - destruct (left_room_server fd (value_of roomid_key c) s Hs) as [H1 <-]. by apply update_server.
    - apply update_server; [done|]. by intros c2. }
  destruct H as [H1 E1]. destruct (IH _ H1) as [H2 E2]. by rewrite E2, E1.
Qed.

Lemma does_sweep s : server_ok s -> does check_rooms s tt (sweep (view s)).
Proof.
  intros Hs. unfold check_rooms, sweep.
  assert (Ei : room_names (ws_derived s) = ids (vw_rooms (view s))) by (unfold room_names, ids; cbn; by rewrite rooms_dom by apply Hs).
  eapply does_run; [reflexivity|]. rewrite Ei. apply does_for_each; [done|]. clear s Hs Ei. intros k s Hs.
  unfold check_room, sweep_one. pose proof (room_at s k Hs) as H. eapply does_run; [reflexivity|].
  destruct (pm_rooms (ws_derived s) !! k) as [p|] eqn:E; [|rewrite H; by apply does_ret].
  destruct H as (r & Er & -> & _). eapply does_run; [by apply run_deref_room|]. eapply does_run; [reflexivity|].
  change (vw_clock (view s)) with (pm_clock (ws_derived s)). destruct (dead_time _ r); [|by apply does_ret]. cbn [when].
  eapply does_run; [reflexivity|]. set (s1 := set_derived _ s).
  assert (H1 : server_ok s1) by (by apply derived_server; [|apply Hs]).
  exists (set_derived (closed k p (ws_derived s1)) s1). split.
  - unfold delete_room. eapply run_bind; [by apply run_deref_room|]. done.
  - by apply closed_server.
Qed.

(** *** Events of the library *)

Definition library (e : lws_event) w : View :=
  match e with
  | ESTABLISHED addr junk now fd => welcome addr junk now fd w
  | SERVER_WRITEABLE fd sent => deliver fd sent w
  | RECEIVE fd memory => match c_str memory with Some data => take_message fd data w | None => w end
  | CLOSED fd => part fd w
  end.

(** What the surroundings promise: an object of the allocator is a fresh one, and there is
    a NUL behind what the library has received. *)
Definition lws_ok (e : lws_event) s : Prop :=
  match e with
  | ESTABLISHED addr _ _ _ => addr <> 0 /\ ws_heap s !! addr = None
  | RECEIVE _ memory => 0 ∈ memory
  | SERVER_WRITEABLE _ _ | CLOSED _ => True
  end.

(** Nobody promises this: the program drops a viewer after a malformed request, or when
    the pool refuses his message, but leaves his socket open, and the library may find it
    writeable.  That puts a null pointer into the table (LiveExamples.malformed_crashes).
    What is shown of the server is shown up to there. *)
Definition still_served (e : lws_event) s : Prop :=
  match e with SERVER_WRITEABLE fd _ => is_Some (viewers s !! fd) | _ => True end.

Lemma c_str_some l : 0 ∈ l -> exists t, Messages.c_str l = Some t.
Proof.
  induction l as [|c l IH]; intros H; [by apply elem_of_nil in H|]. cbn. destruct (Z.eqb_spec c 0) as [->|Hne]; [by eexists|].
  apply elem_of_cons in H as [<-|H]; [done|]. destruct (IH H) as [t ->]. by eexists.
Qed.

Lemma does_library e s : server_ok s -> lws_ok e s -> still_served e s -> does (callback_main e) s tt (library e (view s)).
Proof.
  intros Hs He Hk. destruct (Hs) as [Hc Hm]. destruct e as [addr junk now fd|fd sent|fd memory|fd]; cbn [callback_main library lws_ok still_served] in *.
  - destruct He as [H0 Ha]. set (s1 := connect addr junk now fd s).
    assert (H1 : server_ok s1) by (split; [by apply connect_ok|done]).
    assert (E1 : view s1 = set_viewers (<[fd := fresh_connection junk now fd]> (vw_viewers (view s))) (view s))
      by (unfold view, s1; by rewrite viewers_connect).
    assert (H : does (pm_onConnect fd) s1 tt (welcome addr junk now fd (view s))).
    { unfold welcome. rewrite <-E1. unfold pm_onConnect.
      eapply does_bind; [by apply does_set_value|]. intros s2 H2 <-. by apply does_timestamp. }
    exact H.
  - eexists. split; [by apply run_writeable|]. unfold flush, deliver. cbn [vw_viewers view].
    destruct Hk as [c Ec]. rewrite Ec. apply (update_server fd (set_buffer []) (set_written _ s)); [destruct Hc; by split; [split|]|]. by split.
  - destruct (c_str_some memory He) as [data E]. rewrite E. change (onMessage fd data) with (pm_onMessage fd data).
    unfold pm_onMessage, take_message. eapply does_run; [reflexivity|]. change (vw_pool (view s)) with (pm_pool (ws_derived s)).
    destruct (pm_pool (ws_derived s) =? 0); [|by apply does_remove]. eexists. split; [reflexivity|]. split; [|done]. by apply derived_server.
  - unfold onDisconnectWrapper, part. change (onDisconnect fd) with (pm_onDisconnect fd). unfold pm_onDisconnect.
    destruct (does_roomid fd s Hs) as (s1 & E1 & H1 & <-). eapply does_bind.
    + eapply does_run; [exact E1|]. by apply does_leave.
    + intros s2 H2 <-. by apply does_remove.
Qed.
End Effects.

(** ** Everything that can happen

    Events of the library, requests that the pool has run with the answers that they
    got, announcements of streams, rounds of the thread that looks after connections and
    rooms, time, and what the pool answers from now on when it is given a task. *)
Inductive live_event :=
  | Library (e : lws_event)
  | Request (addr status : Z) (a : start_answer) (fd : Z) (cmdline : list Z)
  | Announce (token : list Z)
  | Check_connections (cur : Z)
  | Check_rooms
  | Tick (d : Z)
  | Pool (n : Z).

Definition set_pool n (m : PlayMngr) : PlayMngr := mk_pm (pm_rooms m) (pm_room_heap m) (pm_tasks m) (pm_stops m) (pm_clock m) n.

Section LiveEvents.
Context {D : Doubles}.

Definition live_step (e : live_event) : PM unit :=
  match e with
  | Library e => callback_main e
  | Request addr status a fd cmdline => _ ← handle_request addr status a fd cmdline; mret tt
  | Announce token => _ ← NotifyHls token; mret tt
  | Check_connections cur => CheckConnectionState cur
  | Check_rooms => check_rooms
  | Tick d => derived (fun m => set_clock (pm_clock m + d) m)
  | Pool n => derived (set_pool n)
  end.

Definition view_step (e : live_event) (w : View) : View :=
  match e with
  | Library e => library e w
  | Request addr status a fd cmdline =>
      match read_request cmdline with inl r => serve r fd status a w | inr _ => w end
  | Announce token => announce token w
  | Check_connections cur => expire_all cur w
  | Check_rooms => sweep w
  | Tick d => set_vclock (vw_clock w + d) w
  | Pool n => set_vpool n w
  end.

(** When an event is one that the server stands: the promises of the surroundings, with a
    fresh object for a room; a socket that becomes writeable while its viewer is served;
    a request that does not abort the process ([LiveRoomsProps.request_aborts] says which
    do); answers of the adapter of at most 128 bytes ([LiveExamples.long_token_overflows]). *)
Definition event_ok (e : live_event) (s : Server) : Prop :=
  match e with
  | Library e => lws_ok e s /\ still_served e s
  | Request addr _ a _ cmdline =>
      (exists r, read_request cmdline = inl r) /\ pm_room_heap (ws_derived s) !! addr = None /\
      zlen (st_result a) <= 128 /\ zlen (st_token a) <= 128
  | _ => True
  end.

Lemma live_step_view e s :
  server_ok s -> event_ok e s ->
  exists s', live_step e s = inl (tt, s') /\ server_ok s' /\ view s' = view_step e (view s).
Proof.
  intros Hs He. destruct e as [e|addr status a fd cmdline|token|cur| |d|n]; cbn [live_step view_step event_ok] in *.
  - destruct He. by apply does_library.
  - destruct He as ([r E] & Ha & Hr & Ht). rewrite E.
    destruct (does_request addr status a fd cmdline r s Hs E Ha Hr Ht) as (ret & s' & E' & H).
    exists s'. split; [|done]. by eapply run_bind.
  - destruct (does_notify token s Hs) as (ret & s' & E & H). exists s'. split; [|done]. by eapply run_bind.
  - by apply does_expire.
  - by apply does_sweep.
  - eexists. split; [reflexivity|]. split; [by apply derived_server; [|apply Hs]|done].
  - eexists. split; [reflexivity|]. split; [by apply derived_server; [|apply Hs]|done].
Qed.

(** The sockets that are served, from the events alone: established, not closed, and the
    viewer not dropped for a malformed request or by a full pool. *)
Record sockets := mk_sockets { served_fds : gset Z; pool_answer : Z }.

Definition next_sockets (e : live_event) (x : sockets) : sockets :=
  let (fds, n) := x in
  match e with
  | Library (ESTABLISHED _ _ _ fd) => mk_sockets ({[fd]} ∪ fds) n
  | Library (CLOSED fd) => mk_sockets (fds ∖ {[fd]}) n
  | Library (RECEIVE fd _) => mk_sockets (if n =? 0 then fds else fds ∖ {[fd]}) n
  | Request _ _ _ fd cmdline => mk_sockets (match read_request cmdline with inl Rq_bad => fds ∖ {[fd]} | _ => fds end) n
  | Pool n => mk_sockets fds n
  | _ => x
  end.

Definition sockets_after (es : list live_event) : sockets := fold_left (fun x e => next_sockets e x) es (mk_sockets ∅ 0).

(** A sequence of events, each allowed where it happens. *)
Inductive live_run : list live_event -> Server -> Server -> Prop :=
  | run_nil s : live_run [] s s
  | run_cons e es s s' s'' :
      event_ok e s -> live_step e s = inl (tt, s') -> live_run es s' s'' -> live_run (e :: es) s s''.

(** The viewers of a view are the sockets that are served. *)
Definition sockets_of (w : View) : sockets := mk_sockets (dom (vw_viewers w)) (vw_pool w).

Lemma sockets_viewer fd f w : sockets_of (on_viewer fd f w) = sockets_of w.
Proof. unfold sockets_of, on_viewer. cbn. by rewrite dom_alter_L. Qed.

Lemma sockets_room k f w : sockets_of (on_room k f w) = sockets_of w. Proof. done. Qed.
Lemma sockets_put k r w : sockets_of (put_room k r w) = sockets_of w. Proof. done. Qed.
Lemma sockets_close k w : sockets_of (close_room k w) = sockets_of w. Proof. done. Qed.
Lemma sockets_stops l w : sockets_of (set_vstops l w) = sockets_of w. Proof. done. Qed.
Lemma sockets_written l w : sockets_of (set_vwritten l w) = sockets_of w. Proof. done. Qed.

Lemma sockets_hang_up fd w : sockets_of (hang_up fd w) = mk_sockets (served_fds (sockets_of w) ∖ {[fd]}) (pool_answer (sockets_of w)).
Proof. unfold sockets_of. cbn. by rewrite dom_delete_L. Qed.

Lemma sockets_walk_out k fd w : sockets_of (walk_out k fd w) = sockets_of w.
Proof. unfold walk_out. by case_match. Qed.

Lemma sockets_fold {A} (f : View -> A -> View) l w :
  (forall w x, sockets_of (f w x) = sockets_of w) -> sockets_of (fold_left f l w) = sockets_of w.
Proof. intros Hf. revert w. induction l as [|x l IH]; intros w; cbn; [done|]. by rewrite IH, Hf. Qed.

Ltac same_sockets := unfold admitted, say, alive; rewrite ?sockets_viewer, ?sockets_walk_out, ?sockets_put, ?sockets_close,
  ?sockets_stops, ?sockets_written; try done.

Lemma sockets_enter fd cmsid devid status a w : sockets_of (enter fd cmsid devid status a w) = sockets_of w.
Proof. unfold enter. repeat case_match; same_sockets. Qed.

Lemma sockets_go fd cmsid devid status w : sockets_of (go fd cmsid devid status w) = sockets_of w.
Proof. unfold go. repeat case_match; same_sockets. Qed.

Lemma sockets_step e w :
  match e with Library (RECEIVE _ memory) => 0 ∈ memory | _ => True end ->
  sockets_of (view_step e w) = next_sockets e (sockets_of w).
Proof.
  intros He. destruct e as [[addr junk now fd|fd sent|fd memory|fd]|addr status a fd cmdline|token|cur| |d|n]; cbn [view_step library next_sockets].
  - unfold welcome. same_sockets. unfold sockets_of. cbn. by rewrite dom_insert_L.
  - unfold deliver. case_match; same_sockets.
  - destruct (c_str_some memory He) as [data ->]. unfold take_message. cbn. case_match; [done|]. by rewrite sockets_hang_up.
  - unfold part. by rewrite sockets_hang_up, sockets_walk_out, sockets_viewer.
  - unfold next_sockets. destruct (read_request cmdline) as [[]|]; cbn [serve]; rewrite ?sockets_enter, ?sockets_go;
      [done|done| |by rewrite sockets_hang_up|done].
    unfold life_sign. same_sockets.
  - unfold announce. case_match; [|done]. case_match; [|done]. rewrite sockets_fold; [done|]. intros. same_sockets.
  - apply sockets_fold. intros w1 fd. unfold expire. repeat case_match; same_sockets.
  - apply sockets_fold. intros w1 k. unfold sweep_one. repeat case_match; same_sockets.
  - done.
  - done.
Qed.

Lemma live_run_snoc es e s s1 s2 :
  live_run es s s1 -> event_ok e s1 -> live_step e s1 = inl (tt, s2) -> live_run (es ++ [e]) s s2.
Proof.
  intros H. induction H as [|e' es s s' s'' He' E' H IH]; intros He E; [econstructor; [done|done|constructor]|].
  econstructor; eauto.
Qed.

Lemma live_run_view es s s' :
  server_ok s -> live_run es s s' -> server_ok s' /\ view s' = fold_left (fun w e => view_step e w) es (view s).
Proof.
  intros Hs H. induction H as [|e es s s1 s2 He E H IH]; [done|].
  destruct (live_step_view e s Hs He) as (s1' & E' & H1 & Ev). rewrite E in E'. injection E' as <-.
  destruct (IH H1) as [H2 E2]. split; [done|]. cbn. by rewrite E2, Ev.
Qed.

Lemma live_run_sockets es s s' :
  server_ok s -> live_run es s s' ->
  sockets_of (view s') = fold_left (fun x e => next_sockets e x) es (sockets_of (view s)).
Proof.
  intros Hs H. induction H as [|e es s s1 s2 He E H IH]; [done|].
  destruct (live_step_view e s Hs He) as (s1' & E' & H1 & Ev). rewrite E in E'. injection E' as <-.
  rewrite (IH H1), Ev, sockets_step; [done|]. destruct e as [[]| | | | | |]; try done. apply He.
Qed.

(** The server just constructed. *)
Definition new_server (clock : Z) : Server := mk_ws _ ∅ ∅ [] (mk_pm ∅ ∅ [] [] clock 0).

Lemma new_server_ok clock : server_ok (new_server clock).
Proof. split; [split; [done|]|]; intros i p H; [destruct (lookup_empty_Some i p H)|destruct (lookup_empty_Some i p H)]. Qed.
End LiveEvents.
