(* ===== verification/LiveStart.v ===== *)
(** * LiveStart: construction, threads and end of the web socket server

    The constructors of [WebSocketServer] and [PlayMngr], [Start] with its two threads, the
    loop around [lws_service], the rounds of [state_threadfunc] with their sleep, and what
    [Stop] and [delete] leave.  The rounds keep an exact schedule; the threads never end. *)
From stdpp Require Import gmap.
From S2P Require Import Prelude Control WebSocket LiveRooms LiveRefine.

(** ** Construction

    [Util::log] and [Util::toString]. *)
Definition Util_log (message : list Z) : list Z := bytes "[cppWebSockets] " ++ message.

(** What is not zero of [lws_context_creation_info]. *)
Record creation_info := mk_info {
  ci_port : Z;
  ci_cert : option (list Z);
  ci_key : option (list Z);
  ci_gid : Z;
  ci_uid : Z;
}.

(** The constructor of [WebSocketServer] up to [lws_create_context], and what it logs. *)
Definition make_info (port : Z) (certPath keyPath : list Z) : creation_info * list Z :=
  if negb (bool_decide (certPath = [])) && negb (bool_decide (keyPath = [])) then
    (mk_info port (Some certPath) (Some keyPath) (-1) (-1),
     Util_log (bytes "Using SSL certPath=" ++ certPath ++ bytes ". keyPath=" ++ keyPath ++ bytes "."))
  else (mk_info port None None (-1) (-1), Util_log (bytes "Not using SSL")).

(** A [PlayMngr]: what is not part of [LiveRooms]. *)
Record Player := mk_player {
  py_running : bool;
  py_handler : option Z;
  py_threadpool : option Z;
  py_pid : Z;
  py_state_pid : Z;
  py_info : creation_info;
  py_server : Server;
}.

Definition set_py_server v y := mk_player (py_running y) (py_handler y) (py_threadpool y) (py_pid y) (py_state_pid y) (py_info y) v.

(** A thread of an object: in [run], and in [state_threadfunc] before the [i]-th sleep of a
    round with its two counters. *)
Inductive live_thread :=
  | Run_thread
  | State_thread (i : nat) (counts : Z * Z).

(** The objects by address, the global [self], the threads with the object they were
    created for, and the log. *)
Record live_process := mk_live {
  lp_objects : gmap Z Player;
  lp_self : option Z;
  lp_threads : list (Z * live_thread);
  lp_log : list (list Z);
}.

Definition set_objects v p := mk_live v (lp_self p) (lp_threads p) (lp_log p).
Definition set_live_threads v p := mk_live (lp_objects p) (lp_self p) v (lp_log p).

(** [PlayMngr::PlayMngr] at [addr]; [created] is the answer of [lws_create_context], whose
    failure is thrown. *)
Definition PlayMngr_new (addr clock port : Z) (created : bool) (p : live_process) : live_process + fault :=
  let (info, line) := make_info port [] [] in
  if negb created then inr Uncaught
  else
    let y := mk_player false None None 0 0 info (new_server clock) in
    inl (mk_live (<[addr := y]> (lp_objects p)) (Some addr) (lp_threads p)
           (lp_log p ++ [line; Util_log (bytes "Server started on port " ++ decimal port)])).

(** [PlayMngr::Stop] *)
Definition PlayMngr_Stop (y : Player) : Player := y.

(** [start_async]: the answers of [pthread_create], the second of which nobody looks at, and
    the threads that there are then. *)
Definition start_async (r1 pid1 r2 pid2 addr : Z) (y : Player) (threads : list (Z * live_thread))
  : Z * Player * list (Z * live_thread) :=
  if negb (r1 =? 0) then
    (r1, mk_player false (py_handler y) (py_threadpool y) pid1 (py_state_pid y) (py_info y) (py_server y), threads)
  else
    (0, mk_player true (py_handler y) (py_threadpool y) pid1 pid2 (py_info y) (py_server y),
     threads ++ [(addr, Run_thread)] ++ (if r2 =? 0 then [(addr, State_thread 0 (0, 0))] else [])).

Definition PlayMngr_Start (handler threadpool r1 pid1 r2 pid2 addr : Z) (y : Player) (threads : list (Z * live_thread))
  : Z * Player * list (Z * live_thread) :=
  let y := mk_player (py_running y) (Some handler) (Some threadpool) (py_pid y) (py_state_pid y) (py_info y) (py_server y) in
  let '(ret, y, threads) := start_async r1 pid1 r2 pid2 addr y threads in
  if negb (ret =? 0) then (-1, PlayMngr_Stop y, threads) else (0, y, threads).

(** ** The threads *)

(** [wait]: [lws_service] fails, which is thrown out of the thread, or it has called back,
    always for [self]. *)
Definition wait (ret : Z) (events : list lws_event) (p : live_process) : live_process + fault :=
  if ret <? 0 then inr Uncaught
  else
    match lp_self p with
    | None => inr OutOfBounds
    | Some self =>
        match events, lp_objects p !! self with
        | [], _ => inl p
        | _, None => inr OutOfBounds
        | _, Some y =>
            match for_each events callback_main (py_server y) with
            | inl (_, s) => inl (set_objects (<[self := set_py_server s y]> (lp_objects p)) p)
            | inr (f, _) => inr f
            end
        end
    end.

(** One step of [state_threadfunc]: a sleep of 10 ms, the way past the sleeps when the
    server does not run, or the rest of a round. *)
Definition state_step (i : nat) (counts : Z * Z) (y : Player) : (live_thread * Player) + fault :=
  if (i <? 100)%nat then inl (State_thread (if py_running y then S i else 100) counts, y)
  else
    match state_round counts (py_server y) with
    | inl (counts, s) => inl (State_thread 0 counts, set_py_server s y)
    | inr (f, _) => inr f
    end.

(** The [k]-th thread goes on; its object must be there. *)
Definition thread_goes_on (k : nat) (ret : Z) (events : list lws_event) (p : live_process)
  : option (live_process + fault) :=
  match lp_threads p !! k with
  | None => None
  | Some (addr, th) =>
      Some (match lp_objects p !! addr with
            | None => inr OutOfBounds
            | Some y =>
                match th with
                | Run_thread => wait ret events p
                | State_thread i counts =>
                    match state_step i counts y with
                    | inl (th, y) =>
                        inl (set_live_threads (<[k := (addr, th)]> (lp_threads p))
                               (set_objects (<[addr := y]> (lp_objects p)) p))
                    | inr f => inr f
                    end
                end
            end)
  end.

(** ** The whole *)
Inductive live_op :=
  | Live_new (addr clock port : Z) (created : bool)
  | Live_start (addr handler threadpool r1 pid1 r2 pid2 : Z)
  | Live_stop (addr : Z)
  | Live_delete (addr : Z)
  | Live_thread (k : nat) (ret : Z) (events : list lws_event)
  | Live_event (addr : Z) (m : PM unit).    (* a task, a notification, the clock *)

Definition on_player (addr : Z) (p : live_process) (f : Player -> live_process + fault) : live_process + fault :=
  match lp_objects p !! addr with Some y => f y | None => inr OutOfBounds end.

Definition live_step (op : live_op) (p : live_process) : option (live_process + fault) :=
  match op with
  | Live_new addr clock port created => Some (PlayMngr_new addr clock port created p)
  | Live_start addr handler threadpool r1 pid1 r2 pid2 =>
      Some (on_player addr p (fun y =>
        let '(_, y, threads) := PlayMngr_Start handler threadpool r1 pid1 r2 pid2 addr y (lp_threads p) in
        inl (set_live_threads threads (set_objects (<[addr := y]> (lp_objects p)) p))))
  | Live_stop addr => Some (on_player addr p (fun y => inl (set_objects (<[addr := PlayMngr_Stop y]> (lp_objects p)) p)))
  | Live_delete addr =>
      Some (on_player addr p (fun y =>
        match WebSocketServer_delete (py_server y) with
        | inl _ => inl (set_objects (delete addr (lp_objects p)) p)
        | inr (f, _) => inr f
        end))
  | Live_thread k ret events => thread_goes_on k ret events p
  | Live_event addr m =>
      Some (on_player addr p (fun y =>
        match m (py_server y) with
        | inl (_, s) => inl (set_objects (<[addr := set_py_server s y]> (lp_objects p)) p)
        | inr (f, _) => inr f
        end))
  end.

Inductive live_run p0 : live_process -> Prop :=
  | live_begin : live_run p0 p0
  | live_goes_on op p p' : live_run p0 p -> live_step op p = Some (inl p') -> live_run p0 p'.

(** ** The schedule of the state thread *)

(** [n] rounds, from the counters that [state_threadfunc] begins with. *)
Fixpoint state_rounds (n : nat) (counts : Z * Z) : PM (Z * Z) :=
  match n with
  | O => mret counts
  | S n' => counts ← state_round counts; state_rounds n' counts
  end.

(** What is due in the [k]-th round: the connections every thirteenth time, the rooms every
    ninth. *)
Definition due (k : Z) : PM unit :=
  (if k mod 13 =? 0 then cur0 ← GetTickCount; CheckConnectionState cur0 else mret tt) ;;
  if k mod 9 =? 0 then check_rooms else mret tt.

(** The rounds behind the [k]-th. *)
Fixpoint schedule (n : nat) (k : Z) : PM unit :=
  match n with
  | O => mret tt
  | S n' => due (k + 1) ;; schedule n' (k + 1)
  end.

Lemma next_mod k m : 0 <= k -> 0 < m ->
  ((k + 1) mod m = 0 /\ k mod m + 1 = m) \/ ((k + 1) mod m = k mod m + 1 /\ k mod m + 1 < m).
Proof.
  intros Hk Hm. pose proof (Z.mod_pos_bound k m Hm) as Hb. rewrite <-(Zplus_mod_idemp_l k 1 m).
  destruct (Z.eq_dec (k mod m + 1) m) as [->|Hne]; [left; rewrite Z.mod_same; lia|right; rewrite Z.mod_small; lia].
Qed.

(** One round from the counters of the [k]-th. *)
Lemma state_round_due k s : 0 <= k ->
  state_round (k mod 13, k mod 9) s = (due (k + 1) ;; mret ((k + 1) mod 13, (k + 1) mod 9)) s.
Proof.
  intros Hk. unfold state_round, due, mbind, ctl_bind.
  destruct (next_mod k 13 Hk ltac:(lia)) as [[E1 F1]|[E1 F1]], (next_mod k 9 Hk ltac:(lia)) as [[E2 F2]|[E2 F2]];
    rewrite E1, E2; destruct (Z.ltb_spec 12 (k mod 13 + 1)); try lia; destruct (Z.ltb_spec (k mod 9 + 1) 9); try lia;
    rewrite ?Z.eqb_refl, ?(proj2 (Z.eqb_neq _ 0)) by (pose proof (Z.mod_pos_bound k 13); pose proof (Z.mod_pos_bound k 9); lia);
    unfold GetTickCount, ask, gets, mret, ctl_ret; try done.
  - by destruct (CheckConnectionState _ s) as [[[] s1]|]; [destruct (check_rooms s1) as [[[] s2]|]|].
  - by destruct (CheckConnectionState _ s) as [[[] s1]|].
Qed.

Lemma state_rounds_from n : forall k s, 0 <= k ->
  state_rounds n (k mod 13, k mod 9) s = (schedule n k ;; mret ((k + Z.of_nat n) mod 13, (k + Z.of_nat n) mod 9)) s.
Proof.
  induction n as [|n IH]; intros k s Hk; [by rewrite Z.add_0_r|].
  cbn [state_rounds schedule]. unfold mbind, ctl_bind. pose proof (state_round_due k s Hk) as E.
  unfold mbind, ctl_bind in E. rewrite E. destruct (due (k + 1) s) as [[[] s1]|]; [|done].
  unfold mret, ctl_ret. replace (k + Z.of_nat (S n)) with ((k + 1) + Z.of_nat n) by lia. apply (IH (k + 1) s1). lia.
Qed.

(** C39. The state thread keeps an exact schedule: its rounds, with two counters, are the
    rounds of which the connections are looked over in every thirteenth and the rooms in
    every ninth, up to the first that fails, and its counters are the number of rounds modulo
    13 and 9. *)
Theorem schedule_kept n s :
  state_rounds n (0, 0) s = (schedule n 0 ;; mret (Z.of_nat n mod 13, Z.of_nat n mod 9)) s.
Proof. exact (state_rounds_from n 0 s ltac:(lia)). Qed.

(** ** The threads and the end of the object *)

(** A thread keeps its object, and what it runs. *)
Definition same_thread (t t' : Z * live_thread) : Prop :=
  t'.1 = t.1 /\ match t.2, t'.2 with Run_thread, Run_thread | State_thread _ _, State_thread _ _ => True | _, _ => False end.

Lemma same_thread_refl t : same_thread t t.
Proof. by destruct t as [a []]. Qed.

Lemma same_thread_trans t1 t2 t3 : same_thread t1 t2 -> same_thread t2 t3 -> same_thread t1 t3.
Proof. destruct t1 as [? []], t2 as [? []], t3 as [? []]; intros [??] [??]; cbn in *; try done; split; cbn; congruence. Qed.

Lemma thread_keeps k' ret events p p' k t : thread_goes_on k' ret events p = Some (inl p') -> lp_threads p !! k = Some t ->
  exists t', lp_threads p' !! k = Some t' /\ same_thread t t'.
Proof.
  unfold thread_goes_on. intros E Hk. destruct (lp_threads p !! k') as [[a th]|] eqn:Ek'; [|done].
  destruct (lp_objects p !! a) as [y|]; [|done]. destruct th as [|i counts].
  - exists t. split; [|apply same_thread_refl]. unfold wait in E. destruct (ret <? 0); [done|]. destruct (lp_self p); [|done].
    destruct events; [by injection E as <-|]. destruct (lp_objects p !! z) as [y'|]; [|done].
    destruct (for_each _ _ _) as [[]|[]]; [|done]. by injection E as <-.
  - unfold state_step in E.
    assert (Hst : exists i' counts' y', p' = set_live_threads (<[k' := (a, State_thread i' counts')]> (lp_threads p))
      (set_objects (<[a := y']> (lp_objects p)) p)).
    { destruct (i <? 100)%nat; [injection E as <-; by eexists _, _, _|].
      destruct (state_round counts (py_server y)) as [[c s]|[]]; [|done]. injection E as <-. by eexists _, _, _. }
    destruct Hst as (i' & counts' & y' & ->). cbn. destruct (decide (k = k')) as [->|Hne].
    + rewrite Ek' in Hk. injection Hk as <-. exists (a, State_thread i' counts'). split; [|by split]. apply list_lookup_insert_eq. by eapply lookup_lt_Some.
    + exists t. split; [by rewrite list_lookup_insert_ne|apply same_thread_refl].
Qed.

Lemma live_step_threads op p p' k t : live_step op p = Some (inl p') -> lp_threads p !! k = Some t ->
  exists t', lp_threads p' !! k = Some t' /\ same_thread t t'.
Proof.
  intros E Hk. assert (Hsame : lp_threads p' = lp_threads p -> exists t', lp_threads p' !! k = Some t' /\ same_thread t t').
  { intros ->. exists t. split; [done|apply same_thread_refl]. }
  destruct op as [addr clock port created|addr handler tp r1 pid1 r2 pid2|addr|addr|k' ret events|addr m]; cbn in E.
  - unfold PlayMngr_new in E. destruct created; [|done]. injection E as <-. by apply Hsame.
  - unfold on_player, PlayMngr_Start, start_async in E. destruct (lp_objects p !! addr); [|done].
    destruct (r1 =? 0) eqn:Er; cbn in E; rewrite ?Er in E; injection E as <-; [|by apply Hsame].
    exists t. split; [by apply lookup_app_l_Some|apply same_thread_refl].
  - unfold on_player in E. destruct (lp_objects p !! addr); [|done]. injection E as <-. by apply Hsame.
  - unfold on_player in E. destruct (lp_objects p !! addr) as [y|]; [|done].
    destruct (WebSocketServer_delete (py_server y)) as [|[]]; [|done]. injection E as <-. by apply Hsame.
  - by eapply thread_keeps.
  - unfold on_player in E. destruct (lp_objects p !! addr) as [y|]; [|done].
    destruct (m (py_server y)) as [[]|[]]; [|done]. injection E as <-. by apply Hsame.
Qed.

(** The threads of a server never end, neither by [Stop] nor by [delete]: in every run
    a thread that has been created goes on with the object that it was created for, and once
    that object is deleted its next step, whatever it is, uses the deleted object. *)
Theorem threads_outlive p0 p k addr th :
  lp_threads p0 !! k = Some (addr, th) -> live_run p0 p ->
  (exists th', lp_threads p !! k = Some (addr, th') /\ same_thread (addr, th) (addr, th')) /\
  (lp_objects p !! addr = None -> forall ret events, live_step (Live_thread k ret events) p = Some (inr OutOfBounds)).
Proof.
  intros Hk Hr. assert (Ht : exists t', lp_threads p !! k = Some t' /\ same_thread (addr, th) t').
  { induction Hr as [|op p p' _ (t & Ht & Hs) E]; [exists (addr, th); split; [done|apply same_thread_refl]|].
    destruct (live_step_threads op p p' k t E Ht) as (t' & Ht' & Hs'). exists t'. split; [done|]. by eapply same_thread_trans. }
  destruct Ht as ([a th'] & Ht & Hs). destruct Hs as [Ha Hs]. cbn in Ha. subst a. split; [by exists th'|].
  intros Hn ret events. cbn. unfold thread_goes_on. by rewrite Ht, Hn.
Qed.


(** ** Runs *)
Definition no_process : live_process := mk_live ∅ None [] [].

Fixpoint live_ops (ops : list live_op) (p : live_process) : option (live_process + fault) :=
  match ops with
  | [] => Some (inl p)
  | op :: ops' => match live_step op p with Some (inl p') => live_ops ops' p' | r => r end
  end.

Lemma live_ops_run ops p0 : forall p p', live_run p0 p -> live_ops ops p = Some (inl p') -> live_run p0 p'.
Proof.
  induction ops as [|op ops IH]; intros p p' Hr; cbn; [by intros [= <-]|].
  destruct (live_step op p) as [[p1|f]|] eqn:E; try done. intros H. by eapply IH; [eapply live_goes_on|].
Qed.

Definition live_after (ops : list live_op) : live_process :=
  match live_ops ops no_process with Some (inl p) => p | _ => no_process end.

Definition service_start : list live_op := [Live_new 64 0 8091 true; Live_start 64 1 2 0 7 0 8].

(** What [AdapterService::Stop] does with it. *)
Lemma threads_outlive_witness :
  let p := live_after (service_start ++ [Live_stop 64; Live_delete 64]) in
  lp_objects p !! 64 = None /\ live_step (Live_thread 0 0 []) p = Some (inr OutOfBounds).
Proof.
  intros p. assert (Hn : lp_objects p !! 64 = None) by by vm_compute. split; [exact Hn|].
  destruct (threads_outlive (live_after service_start) p 0 64 Run_thread) as [_ H].
  - by vm_compute.
  - apply (live_ops_run [Live_stop 64; Live_delete 64] _ (live_after service_start)); [apply live_begin|by vm_compute].
  - exact (H Hn 0 []).
Defined.

(** [Start] does not look at the second [pthread_create]: it reports success without a thread
    that looks after the rooms. *)
Example no_state_thread :
  (PlayMngr_Start 1 2 0 7 11 0 64 (mk_player false None None 0 0 (mk_info 8091 None None (-1) (-1)) (new_server 0)) []).1.1 = 0 /\
  lp_threads (live_after [Live_new 64 0 8091 true; Live_start 64 1 2 0 7 11 0]) = [(64, Run_thread)].
Proof. by vm_compute. Qed.

(** The library calls back for the server made last, whoever waits. *)
Example callbacks_for_the_last :
  let p := live_after ([Live_new 64 0 8091 true; Live_new 65 0 8092 true; Live_start 64 1 2 0 7 0 8;
                        Live_thread 0 0 [ESTABLISHED 4096 0 0 5]]) in
  ((fun y => size (ws_connections (py_server y))) <$> lp_objects p !! 64) = Some 0%nat /\
  ((fun y => size (ws_connections (py_server y))) <$> lp_objects p !! 65) = Some 1%nat.
Proof. by vm_compute. Qed.

(** A port in use ends the process: nothing catches what the constructor throws. *)
Example port_in_use : live_step (Live_new 64 0 8091 false) no_process = Some (inr Uncaught).
Proof. done. Qed.

(** While the server runs a round has a hundred sleeps of 10 ms. *)
Lemma sleeps_of_a_round n counts y : py_running y = true -> (n <= 100)%nat ->
  Nat.iter n (fun r => match r with inl (State_thread i c, y) => state_step i c y | _ => r end)
    (inl (State_thread 0 counts, y)) = inl (State_thread n counts, y).
Proof.
  intros Hr. induction n as [|n IH]; intros Hn; [done|]. rewrite Nat.iter_succ, IH by lia. unfold state_step.
  destruct (Nat.ltb_spec n 100); [by rewrite Hr|lia].
Qed.
