(* ===== verification/LivePresence.v ===== *)
(** * LivePresence: who is in which room

    For clients that keep to the protocol - one room at a time, no malformed request -
    the members of a room are viewers that are connected and recorded in it, so that a
    room that everybody has left is empty and is closed after its dead time. *)
From stdpp Require Import gmap sorting.
From S2P Require Import Prelude Control Streams JsonValue JsonWriter JsonReader Messages WebSocket WebSocketProps LiveRooms LiveReplies LiveView LiveRefine.

Definition is_fd (fd : Z) : Prop := 0 <= fd < 2 ^ 31 - 1.

Record presence (w : View) : Prop := {
  pr_rooms k r : vw_rooms w !! k = Some r -> room_fine k r;
  pr_members k r u : vw_rooms w !! k = Some r -> u ∈ users_ r -> k <> [] /\ room_of u w = k /\ is_Some (vw_viewers w !! u);
  pr_since k r : vw_rooms w !! k = Some r -> users_ r = [] -> 0 <= timestamp_ r <= vw_clock w;
  pr_fds fd : is_Some (vw_viewers w !! fd) -> is_fd fd;
  pr_clock : 0 <= vw_clock w;
}.

Section Presence.
Implicit Types (w : View) (k : list Z) (r : LiveRoom).

(** ** Sizes are exact *)

Lemma room_count w k r : presence w -> vw_rooms w !! k = Some r -> zlen (users_ r) < 2 ^ 31.
Proof.
  intros Hw Hr. destruct (pr_rooms w Hw k r Hr) as (_ & Hnd & _).
  assert (H : users_ r ⊆+ seqZ 0 (2 ^ 31 - 1)).
  { apply NoDup_submseteq; [done|]. intros u Hu. destruct (pr_members w Hw k r u Hr Hu) as (_ & _ & Hv).
    apply (pr_fds w Hw) in Hv. unfold is_fd in Hv. apply elem_of_seqZ. lia. }
  apply submseteq_length in H. rewrite length_seqZ in H. unfold zlen. lia.
Qed.

Lemma size_zero w k r : presence w -> vw_rooms w !! k = Some r -> (room_size r = 0 <-> users_ r = []).
Proof.
  intros Hw Hr. pose proof (room_count w k r Hw Hr). pose proof (zlen_nonneg (users_ r)). unfold room_size.
  rewrite s32_small by lia. destruct (users_ r); [done|]. rewrite zlen_cons. pose proof (zlen_nonneg l). split; [lia|done].
Qed.

(** ** Effects preserve it *)

Lemma room_of_viewer u fd f w :
  room_of u (on_viewer fd f w) = (if bool_decide (u = fd) then default [] ((fun c => value_of roomid_key (f c)) <$> vw_viewers w !! fd) else room_of u w).
Proof.
  unfold room_of, on_viewer. cbn. case_bool_decide as E; [subst; rewrite lookup_alter_eq; by destruct (vw_viewers w !! fd)|].
  by rewrite lookup_alter_ne.
Qed.

(** A change of a viewer that is not about its room. *)
Definition quiet (f : Connection -> Connection) : Prop := forall c, value_of roomid_key (f c) = value_of roomid_key c.

Lemma room_of_quiet u fd f w : quiet f -> room_of u (on_viewer fd f w) = room_of u w.
Proof.
  intros Hf. rewrite room_of_viewer. case_bool_decide; [|done]. subst. unfold room_of.
  destruct (vw_viewers w !! fd); cbn; [by rewrite Hf|done].
Qed.

Lemma on_viewer_presence fd f w :
  presence w -> (forall u, room_of u (on_viewer fd f w) = room_of u w \/ forall k r, vw_rooms w !! k = Some r -> u ∉ users_ r) ->
  presence (on_viewer fd f w).
Proof.
  intros Hw Hf. split; [exact (pr_rooms w Hw)| |exact (pr_since w Hw)| |exact (pr_clock w Hw)].
  - intros k r u Hr Hu. destruct (pr_members w Hw k r u Hr Hu) as (H1 & H2 & H3).
    destruct (Hf u) as [->|H]; [|by destruct (H k r Hr)]. split; [done|]. split; [done|]. cbn. by apply lookup_alter_is_Some.
  - intros u. cbn. rewrite lookup_alter_is_Some. exact (pr_fds w Hw u).
Qed.

Lemma quiet_presence fd f w : presence w -> quiet f -> presence (on_viewer fd f w).
Proof. intros Hw Hf. apply on_viewer_presence; [done|]. intros u. left. by apply room_of_quiet. Qed.

Lemma quiet_enqueue t : quiet (enqueue t). Proof. done. Qed.
Lemma quiet_timestamp t : quiet (set_timestamp t). Proof. done. Qed.
Lemma quiet_buffer b : quiet (set_buffer b). Proof. done. Qed.
Lemma quiet_touch : quiet (touch roomid_key).
Proof. intros c. unfold touch, value_of. cbn. by rewrite lookup_insert_eq. Qed.
Lemma quiet_handle v : quiet (with_value (bytes "handle") v).
Proof. intros c. unfold value_of. cbn. by rewrite lookup_insert_ne by by vm_compute. Qed.

Lemma say_presence fd t w : presence w -> presence (say fd t w).
Proof. intros Hw. by apply quiet_presence. Qed.

Lemma alive_presence fd w : presence w -> presence (alive fd w).
Proof. intros Hw. by apply quiet_presence. Qed.

(** A room is replaced by one with no new member but [fd], who is recorded in it. *)
Lemma put_room_presence k r w :
  presence w -> room_fine k r -> (users_ r = [] -> 0 <= timestamp_ r <= vw_clock w) ->
  (forall u, u ∈ users_ r -> k <> [] /\ room_of u w = k /\ is_Some (vw_viewers w !! u)) ->
  presence (put_room k r w).
Proof.
  intros Hw Hr Ht Hu. split; [| | |exact (pr_fds w Hw)|exact (pr_clock w Hw)].
  - cbn; intros k2 r2 [[<- <-]|[_ H]]%lookup_insert_Some; [done|by apply (pr_rooms w Hw)].
  - cbn; intros k2 r2 u [[<- <-]|[_ H]]%lookup_insert_Some; [by apply Hu|by apply (pr_members w Hw k2 r2 u)].
  - cbn; intros k2 r2 [[<- <-]|[_ H]]%lookup_insert_Some; [done|by apply (pr_since w Hw k2)].
Qed.

Lemma close_room_presence k w : presence w -> presence (close_room k w).
Proof.
  intros Hw. split; [| | |exact (pr_fds w Hw)|exact (pr_clock w Hw)]; cbn; intros k2 r2; [|intros u|];
    intros [_ H]%lookup_delete_Some; first [by apply (pr_rooms w Hw)|by apply (pr_members w Hw k2 r2 u)|by apply (pr_since w Hw k2)].
Qed.

(** Nobody is in a room but where he is recorded. *)
Lemma member_room w k r u : presence w -> vw_rooms w !! k = Some r -> room_of u w <> k -> u ∉ users_ r.
Proof. intros Hw Hr Hne Hu. by destruct (pr_members w Hw k r u Hr Hu) as (_ & H & _). Qed.

Lemma quit_users now fd r :
  NoDup (users_ r) -> zlen (users_ r) < 2 ^ 31 ->
  (forall u, u ∈ users_ (room_quit now fd r).2 <-> u ∈ users_ r /\ u <> fd) /\
  (users_ (room_quit now fd r).2 = [] -> timestamp_ (room_quit now fd r).2 = now \/ room_quit now fd r = (room_size r, r)).
Proof.
  intros Hnd Hz. unfold room_quit. case_bool_decide as Hfd; cbn.
  - split; [intros u; by apply elem_of_erase|]. intros E. left. rewrite E. done.
  - split; [|by right]. intros u. split; [intros Hu; split; [done|congruence]|tauto].
Qed.

Lemma room_quit_presence k r fd w :
  presence w -> vw_rooms w !! k = Some r -> presence (put_room k (room_quit (vw_clock w) fd r).2 w).
Proof.
  intros Hw Hr. pose proof (pr_rooms w Hw k r Hr) as Hf. pose proof (room_count w k r Hw Hr) as Hz.
  destruct (quit_users (vw_clock w) fd r (proj1 (proj2 Hf)) Hz) as [Hu He].
  apply put_room_presence; [done|by apply room_quit_fine| |].
  - intros H. destruct (He H) as [->|E]; [pose proof (pr_clock w Hw); lia|]. rewrite E in *. by apply (pr_since w Hw k).
  - intros u Hm. apply Hu in Hm as [Hm _]. by apply (pr_members w Hw k r).
Qed.

Lemma walk_out_presence k fd w : presence w -> presence (walk_out k fd w).
Proof.
  intros Hw. unfold walk_out. destruct (zlen k =? 0); [done|]. destruct (vw_rooms w !! k) as [r|] eqn:E.
  - rewrite (on_room_put k _ w r E). by apply room_quit_presence.
  - by rewrite on_room_none.
Qed.

(** After leaving the room that he is recorded in, a viewer is in none. *)
Lemma walked_out fd w k r :
  presence w -> vw_rooms (walk_out (room_of fd w) fd w) !! k = Some r -> fd ∉ users_ r.
Proof.
  intros Hw. unfold walk_out. set (h := room_of fd w). destruct (Z.eqb_spec (zlen h) 0) as [E|_].
  - intros Hr Hu. destruct (pr_members w Hw k r fd Hr Hu) as (H1 & H2 & _). fold h in H2. subst k. by destruct h.
  - destruct (vw_rooms w !! h) as [rh|] eqn:Eh; [rewrite (on_room_put h _ w rh Eh)|rewrite on_room_none by done].
    + cbn. intros [[<- <-]|[Hne Hr]]%lookup_insert_Some; [|by eapply member_room].
      destruct (quit_users (vw_clock w) fd rh) as [Hu _];
        [apply (pr_rooms w Hw h rh Eh)|by eapply room_count|]. intros H. apply Hu in H. naive_solver.
    + intros Hr. eapply member_room; [done|done|]. intros Ek. fold h in Ek. subst k. by rewrite Eh in Hr.
Qed.

Lemma hang_up_presence fd w :
  presence w -> (forall k r, vw_rooms w !! k = Some r -> fd ∉ users_ r) -> presence (hang_up fd w).
Proof.
  intros Hw Hn. split; [exact (pr_rooms w Hw)| |exact (pr_since w Hw)| |exact (pr_clock w Hw)].
  - intros k r u Hr Hu. destruct (pr_members w Hw k r u Hr Hu) as (H1 & H2 & H3).
    assert (Hne : fd <> u) by (intros ->; by destruct (Hn k r Hr)).
    split; [done|]. unfold room_of. cbn. by rewrite lookup_delete_ne.
  - cbn. intros u [c [_ Hc]%lookup_delete_Some]. apply (pr_fds w Hw). by exists c.
Qed.
End Presence.

(** ** Clients that keep to the protocol *)
Section Behaved.
Context {D : Doubles}.
Implicit Types (w : View) (k : list Z).

Definition own_room (k : list Z) (fd : Z) w : Prop := k <> [] /\ (room_of fd w = [] \/ room_of fd w = k).

(** The requests of a connected viewer name the room that he is in, if he is in one; the
    pool takes every message; a descriptor is not given away twice. *)
Definition behaved (e : live_event) w : Prop :=
  match e with
  | Library (ESTABLISHED _ _ _ fd) => vw_viewers w !! fd = None /\ is_fd fd
  | Library (RECEIVE _ _) => vw_pool w = 0
  | Request _ _ _ fd cmdline =>
      is_Some (vw_viewers w !! fd) /\
      match read_request cmdline with
      | inl (Rq_join cmsid devid) | inl (Rq_quit cmsid devid) => own_room (cmsid ++ devid) fd w
      | inl Rq_heartbeat => True
      | inl Rq_bad | inr _ => False
      end
  | Tick d => 0 <= d
  | _ => True
  end.

Lemma no_room_member w fd k r : presence w -> room_of fd w = [] -> vw_rooms w !! k = Some r -> fd ∉ users_ r.
Proof. intros Hw E Hr Hu. destruct (pr_members w Hw k r fd Hr Hu) as (H1 & H2 & _). congruence. Qed.

(** A viewer is recorded in the room that he is the new member of. *)
Lemma admitted_presence fd k t r w :
  presence w -> own_room k fd w -> is_Some (vw_viewers w !! fd) -> room_fine k r -> fd ∈ users_ r ->
  (forall u, u ∈ users_ r -> u = fd \/ exists r0, vw_rooms w !! k = Some r0 /\ u ∈ users_ r0) ->
  presence (admitted fd k t (put_room k r w)).
Proof.
  intros Hw [Hk Ho] [c Hc] Hr Hfd Hu. unfold admitted. apply alive_presence. unfold say.
  assert (Er : forall u, room_of u (on_viewer fd (with_value roomid_key k) (on_viewer fd (enqueue t) (put_room k r w))) =
    if bool_decide (u = fd) then k else room_of u w).
  { intros u. rewrite room_of_viewer. case_bool_decide; [|rewrite room_of_quiet; done]. cbn.
    rewrite lookup_alter_eq, Hc. cbn. unfold value_of. cbn. by rewrite lookup_insert_eq. }
  assert (Ev : forall u, is_Some (vw_viewers (on_viewer fd (with_value roomid_key k) (on_viewer fd (enqueue t) (put_room k r w))) !! u) <-> is_Some (vw_viewers w !! u)).
  { intros u. cbn. by rewrite !lookup_alter_is_Some. }
  split; [| | |intros u Hv; by apply (pr_fds w Hw), Ev|exact (pr_clock w Hw)]; cbn.
  - intros k2 r2 [[<- <-]|[_ H]]%lookup_insert_Some; [done|by apply (pr_rooms w Hw)].
  - intros k2 r2 u Hl Hm. rewrite Er, Ev. revert Hl Hm. intros [[<- <-]|[Hne H]]%lookup_insert_Some Hm.
    + case_bool_decide as Eu; [subst u; by rewrite Hc|]. destruct (Hu u Hm) as [?|(r0 & H0 & Hm0)]; [done|].
      by apply (pr_members w Hw k r0).
    + destruct (pr_members w Hw k2 r2 u H Hm) as (H1 & H2 & H3). case_bool_decide; [|done]. subst u.
      destruct Ho as [Ho|Ho]; congruence.
  - intros k2 r2 [[<- <-]|[_ H]]%lookup_insert_Some E2; [rewrite E2 in Hfd; by apply elem_of_nil in Hfd|by apply (pr_since w Hw k2)].
Qed.

Lemma join_users fd r : fd ∈ users_ (room_join fd r).2 /\ forall u, u ∈ users_ (room_join fd r).2 -> u = fd \/ u ∈ users_ r.
Proof.
  unfold room_join. case_bool_decide; cbn; [by split; [|right]|]. split; [set_solver|]. intros u. set_solver.
Qed.

Lemma enter_presence fd cmsid devid status a w :
  presence w -> own_room (cmsid ++ devid) fd w -> is_Some (vw_viewers w !! fd) -> zlen (st_token a) <= 128 ->
  presence (enter fd cmsid devid status a w).
Proof.
  intros Hw Ho Hv Ht. unfold enter. set (k := cmsid ++ devid) in *.
  destruct ((status =? 100) || (status =? 101)); [by apply say_presence, close_room_presence|].
  destruct (status =? 102).
  - destruct (st_ret a =? 0); [|by apply say_presence, close_room_presence].
    assert (Hf : room_fine k (LiveRoom_new cmsid devid (st_token a))) by (split; [done|split; [constructor|done]]).
    apply (room_join_fine k fd) in Hf. destruct (join_users fd (LiveRoom_new cmsid devid (st_token a))) as [H1 H2].
    destruct (room_join fd _) as [count r]. cbn [snd] in *. apply admitted_presence; [by apply close_room_presence|done|done|done|done|].
    intros u [->|Hu]%H2; [by left|by apply elem_of_nil in Hu].
  - destruct (status =? 200); [|by apply say_presence]. destruct (vw_rooms w !! k) as [r|] eqn:Er; [|by apply say_presence].
    pose proof (room_join_fine k fd r (pr_rooms w Hw k r Er)) as Hf. destruct (join_users fd r) as [H1 H2].
    destruct (room_join fd r) as [count r2]. cbn [snd] in *. apply admitted_presence; [done|done|done|done|done|].
    intros u [->|Hu]%H2; [by left|right; by exists r].
Qed.

Lemma go_presence fd cmsid devid status w :
  presence w -> own_room (cmsid ++ devid) fd w -> presence (go fd cmsid devid status w).
Proof.
  intros Hw [Hk Ho]. unfold go. set (k := cmsid ++ devid) in *.
  destruct (status =? 200); [|by apply say_presence, close_room_presence].
  destruct (vw_rooms w !! k) as [r|] eqn:Er; [|by apply say_presence].
  apply say_presence, on_viewer_presence; [by apply room_quit_presence|]. intros u.
  rewrite room_of_viewer. case_bool_decide; [|by left]. subst u. right. cbn.
  intros k2 r2 [[<- <-]|[Hne H]]%lookup_insert_Some.
  - destruct (quit_users (vw_clock w) fd r) as [Hu _]; [apply (pr_rooms w Hw k r Er)|by eapply room_count|].
    intros H. apply Hu in H. tauto.
  - destruct Ho as [Ho|Ho]; [by eapply no_room_member|]. eapply member_room; [done|done|congruence].
Qed.

Lemma announce_presence token w : presence w -> presence (announce token w).
Proof.
  intros Hw. unfold announce. destruct (first_with _ _ _) as [k|]; [|done].
  destruct (vw_rooms w !! k) as [r|] eqn:Er; [|done].
  assert (H : presence (put_room k (set_rdy true r) w)).
  { apply put_room_presence; [done|exact (pr_rooms w Hw k r Er)|exact (pr_since w Hw k r Er)|]. intros u. exact (pr_members w Hw k r u Er). }
  generalize (users_ r), H. generalize (put_room k (set_rdy true r) w). intros w2 l. revert w2.
  induction l as [|fd l IH]; intros w2 H2; cbn [fold_left]; [done|]. by apply IH, say_presence.
Qed.

Lemma expire_presence cur fd w : presence w -> presence (expire cur w fd).
Proof.
  intros Hw. unfold expire. destruct (vw_viewers w !! fd) as [c|] eqn:Ec; [|done].
  case_match; [|by apply quiet_presence, quiet_touch].
  assert (E : value_of roomid_key c = room_of fd w) by (unfold room_of; by rewrite Ec). rewrite E.
  apply on_viewer_presence; [by apply walk_out_presence|]. intros u. rewrite room_of_viewer. case_bool_decide; [|by left].
  subst u. right. intros k r. by apply walked_out.
Qed.

Lemma sweep_presence w : presence w -> presence (sweep w).
Proof.
  unfold sweep. generalize (ids (vw_rooms w)). intros l. revert w. induction l as [|k l IH]; intros w Hw; cbn [fold_left]; [done|].
  apply IH. unfold sweep_one. destruct (vw_rooms w !! k) as [r|]; [|done]. destruct (dead_time _ r); [|done].
  apply close_room_presence. by destruct Hw; split.
Qed.

Lemma part_presence fd w : presence w -> presence (part fd w).
Proof.
  intros Hw. unfold part. set (w1 := on_viewer fd (touch roomid_key) w).
  assert (H1 : presence w1) by by apply quiet_presence, quiet_touch.
  assert (E : room_of fd w = room_of fd w1) by (unfold w1; rewrite room_of_quiet; [done|apply quiet_touch]). rewrite E.
  apply hang_up_presence; [by apply walk_out_presence|]. intros k r. by apply walked_out.
Qed.

Lemma welcome_presence addr junk now fd w :
  presence w -> vw_viewers w !! fd = None -> is_fd fd -> presence (welcome addr junk now fd w).
Proof.
  intros Hw Hn Hfd. unfold welcome. apply alive_presence, quiet_presence; [|apply quiet_handle].
  split; [exact (pr_rooms w Hw)| |exact (pr_since w Hw)| |exact (pr_clock w Hw)]; cbn.
  - intros k r u Hr Hu. destruct (pr_members w Hw k r u Hr Hu) as (H1 & H2 & [c H3]). split; [done|].
    assert (fd <> u) by (intros ->; by rewrite Hn in H3). unfold room_of in *. cbn. by rewrite lookup_insert_ne, H3 in *.
  - intros u [c Hc]. apply lookup_insert_Some in Hc as [[<- _]|[_ Hc]]; [done|]. apply (pr_fds w Hw). by exists c.
Qed.

Lemma behaved_step e s :
  event_ok e s -> presence (view s) -> behaved e (view s) -> presence (view_step e (view s)).
Proof.
  intros He Hw Hb. set (w := view s) in *. clearbody w.
  destruct e as [[addr junk now fd|fd sent|fd memory|fd]|addr status a fd cmdline|token|cur| |d|n]; cbn [view_step library behaved event_ok] in *.
  - destruct Hb as [Hn Hfd]. by apply welcome_presence.
  - unfold deliver. destruct (vw_viewers w !! fd) as [c|]; [|done]. apply quiet_presence; [|apply quiet_buffer]. by destruct Hw; split.
  - destruct (Messages.c_str memory) as [data|]; [|done]. unfold take_message. rewrite Hb. cbn. by destruct Hw; split.
  - by apply part_presence.
  - destruct Hb as [Hv Hb], He as (_ & _ & _ & Ht). destruct (read_request cmdline) as [[cmsid devid|cmsid devid| |]|]; [| | |done|done]; cbn [serve].
    + by apply enter_presence.
    + by apply go_presence.
    + unfold life_sign. apply say_presence, quiet_presence; [by apply alive_presence|apply quiet_touch].
  - by apply announce_presence.
  - unfold expire_all. generalize (merge_sort Z.le (elements (dom (vw_viewers w)))). intros l. clear Hb He. revert w Hw.
    induction l as [|fd l IH]; intros w Hw; cbn [fold_left]; [done|]. by apply IH, expire_presence.
  - by apply sweep_presence.
  - destruct Hw as [H1 H2 H3 H4 H5]. split; [done|exact H2| |done|cbn; lia]. intros k r Hr E. specialize (H3 k r Hr E). cbn. lia.
  - by destruct Hw; split.
Qed.
End Behaved.

(** ** Since when a room is empty

    From the history of the views, and not from what the server has recorded. *)
Definition deserted (w : View) (k : list Z) : bool :=
  match vw_rooms w !! k with Some r => bool_decide (users_ r = []) | None => false end.

Section Deserted.
Implicit Types (w : View) (k : list Z) (r : LiveRoom).

(** A change in which nobody joins. *)
Definition leaves w w' : Prop :=
  vw_clock w' = vw_clock w /\
  forall k r', vw_rooms w' !! k = Some r' -> exists r, vw_rooms w !! k = Some r /\
    (users_ r = [] -> users_ r' = [] /\ timestamp_ r' = timestamp_ r) /\
    (users_ r <> [] -> users_ r' = [] -> timestamp_ r' = vw_clock w).

Lemma leaves_same w w' : vw_clock w' = vw_clock w -> vw_rooms w' = vw_rooms w -> leaves w w'.
Proof. intros E1 E2. split; [done|]. rewrite E2. intros k r Hr. by exists r. Qed.

Lemma leaves_trans w w1 w2 : leaves w w1 -> leaves w1 w2 -> leaves w w2.
Proof.
  intros [E1 H1] [E2 H2]. split; [congruence|]. intros k r2 Hr2.
  destruct (H2 k r2 Hr2) as (r1 & Hr1 & A1 & B1), (H1 k r1 Hr1) as (r & Hr & A & B). exists r. split; [done|]. split.
  - intros E. destruct (A E) as [E' T], (A1 E') as [E'' T']. split; [done|congruence].
  - intros Hne E. destruct (decide (users_ r1 = [])) as [E'|E']; [|rewrite <-E1; auto].
    destruct (A1 E') as [_ ->]. auto.
Qed.

Lemma leaves_put w k r r' :
  vw_rooms w !! k = Some r -> (users_ r = [] -> users_ r' = [] /\ timestamp_ r' = timestamp_ r) ->
  (users_ r <> [] -> users_ r' = [] -> timestamp_ r' = vw_clock w) -> leaves w (put_room k r' w).
Proof.
  intros Hr A B. split; [done|]. cbn. intros k2 r2 [[<- <-]|[_ H]]%lookup_insert_Some; [by exists r|by exists r2].
Qed.

Lemma leaves_quit w k fd r : vw_rooms w !! k = Some r -> leaves w (put_room k (room_quit (vw_clock w) fd r).2 w).
Proof.
  intros Hr. eapply leaves_put; [done| |]; unfold room_quit; case_bool_decide as Hfd; cbn; try done.
  - intros E. rewrite E in Hfd. by apply elem_of_nil in Hfd.
  - by intros _ ->.
Qed.

Lemma leaves_walk_out k fd w : leaves w (walk_out k fd w).
Proof.
  unfold walk_out. case_match; [by apply leaves_same|]. destruct (vw_rooms w !! k) as [r|] eqn:E.
  - rewrite (on_room_put k _ w r E). by apply leaves_quit.
  - rewrite on_room_none by done. by apply leaves_same.
Qed.

Lemma leaves_close k w : leaves w (close_room k w).
Proof. split; [done|]. cbn. intros k2 r2 [_ H]%lookup_delete_Some. by exists r2. Qed.

Lemma leaves_fold {A} (f : View -> A -> View) l w : (forall w x, leaves w (f w x)) -> leaves w (fold_left f l w).
Proof. intros Hf. revert w. induction l as [|x l IH]; intros w; cbn; [by apply leaves_same|]. by eapply leaves_trans. Qed.

Lemma leaves_expire cur fd w : leaves w (expire cur w fd).
Proof.
  unfold expire. case_match; [|by apply leaves_same]. case_match; [|by apply leaves_same].
  eapply leaves_trans; [apply leaves_walk_out|by apply leaves_same].
Qed.

Lemma leaves_sweep_one w k : leaves w (sweep_one w k).
Proof.
  unfold sweep_one. case_match; [|by apply leaves_same]. case_match; [|by apply leaves_same].
  eapply leaves_trans; [|apply leaves_close]. by apply leaves_same.
Qed.

Lemma leaves_part fd w : leaves w (part fd w).
Proof.
  unfold part. eapply leaves_trans; [|by apply leaves_same]. eapply leaves_trans; [|apply leaves_walk_out]. by apply leaves_same.
Qed.

Lemma leaves_go fd cmsid devid status w : leaves w (go fd cmsid devid status w).
Proof.
  unfold go. case_match; [|eapply leaves_trans; [apply leaves_close|by apply leaves_same]].
  destruct (vw_rooms w !! _) as [r|] eqn:E; [|by apply leaves_same].
  eapply leaves_trans; [by apply leaves_quit|by apply leaves_same].
Qed.

Lemma leaves_announce token w : leaves w (announce token w).
Proof.
  unfold announce. case_match; [|by apply leaves_same]. destruct (vw_rooms w !! _) as [r|] eqn:Er; [|by apply leaves_same].
  eapply leaves_trans; [by eapply (leaves_put w _ r (set_rdy true r))|]. apply leaves_fold. intros. by apply leaves_same.
Qed.

(** After an event the empty rooms were empty before, with the same time stamp, or have
    lost their last member now. *)
Definition ages w w' : Prop :=
  forall k r', vw_rooms w' !! k = Some r' -> users_ r' = [] -> exists r, vw_rooms w !! k = Some r /\
    (users_ r = [] -> timestamp_ r' = timestamp_ r) /\ (users_ r <> [] -> timestamp_ r' = vw_clock w).

Lemma leaves_ages w w' : leaves w w' -> ages w w'.
Proof. intros [_ H] k r' Hr E. destruct (H k r' Hr) as (r & Hr' & A & B). exists r. naive_solver. Qed.

(** Rooms are replaced only by rooms with somebody in them. *)
Lemma ages_admitted fd k t r w : users_ r <> [] -> ages w (admitted fd k t (put_room k r w)).
Proof.
  intros Hr k2 r2. change (vw_rooms (admitted fd k t (put_room k r w))) with (<[k := r]> (vw_rooms w)).
  intros [[<- <-]|[_ H]]%lookup_insert_Some E; [done|by exists r2].
Qed.

Lemma joined_member fd r : users_ (room_join fd r).2 <> [].
Proof. destruct (join_users fd r) as [H _]. intros E. rewrite E in H. by apply elem_of_nil in H. Qed.

Lemma ages_enter fd cmsid devid status a w : ages w (enter fd cmsid devid status a w).
Proof.
  unfold enter. set (k := cmsid ++ devid).
  assert (Hc : forall t, ages w (say fd t (close_room k w))).
  { intros t. apply leaves_ages. eapply leaves_trans; [apply leaves_close|by apply leaves_same]. }
  assert (Hs : forall t, ages w (say fd t w)) by (intros t; by apply leaves_ages, leaves_same).
  case_match; [done|]. case_match.
  - case_match; [|done]. pose proof (joined_member fd (LiveRoom_new cmsid devid (st_token a))).
    destruct (room_join fd _) as [count r]. intros k2 r2 Hr E.
    destruct (ages_admitted fd k (welcome_text r count) r (close_room k w) ltac:(done) k2 r2 Hr E) as (r0 & Hr0 & H').
    exists r0. split; [|done]. cbn in Hr0. by apply lookup_delete_Some in Hr0 as [_ ?].
  - case_match; [|done]. destruct (vw_rooms w !! k) as [r|]; [|done]. pose proof (joined_member fd r).
    destruct (room_join fd r) as [count r2]. by apply ages_admitted.
Qed.
End Deserted.

Section Since.
Context {D : Doubles}.

Lemma ages_step e w : ages w (view_step e w).
Proof.
  assert (Hsame : forall w', vw_rooms w' = vw_rooms w -> ages w w').
  { intros w' E k r Hr H. rewrite E in Hr. exists r. naive_solver. }
  destruct e as [[addr junk now fd|fd sent|fd memory|fd]|addr status a fd cmdline|token|cur| |d|n]; cbn [view_step library]; try by apply Hsame.
  - apply Hsame. unfold deliver. by case_match.
  - apply Hsame. unfold take_message. repeat case_match; done.
  - apply leaves_ages, leaves_part.
  - destruct (read_request cmdline) as [[]|]; cbn [serve]; [apply ages_enter|apply leaves_ages, leaves_go| | |]; by apply Hsame.
  - apply leaves_ages, leaves_announce.
  - apply leaves_ages, leaves_fold. intros. apply leaves_expire.
  - apply leaves_ages, leaves_fold. intros. apply leaves_sweep_one.
Qed.

(** The clock when the room last had a viewer, or was not there, with the views that the
    events go through; [since] says it for the first of them. *)
Fixpoint empty_since (es : list live_event) (w : View) (since : list Z -> Z) (k : list Z) : Z :=
  match es with
  | [] => since k
  | e :: es' => empty_since es' (view_step e w) (fun k => if deserted w k then since k else vw_clock w) k
  end.

(** The time stamp of an empty room is right. *)
Definition dated (w : View) (since : list Z -> Z) : Prop :=
  forall k r, vw_rooms w !! k = Some r -> users_ r = [] -> timestamp_ r = since k.

Lemma dated_run es w since :
  dated w since -> dated (fold_left (fun w e => view_step e w) es w) (empty_since es w since).
Proof.
  revert w since. induction es as [|e es IH]; intros w since Hd; cbn; [done|]. apply IH.
  intros k r' Hr E. destruct (ages_step e w k r' Hr E) as (r & Hr0 & A & B). unfold deserted. rewrite Hr0.
  case_bool_decide as Hu; [by rewrite A, (Hd k r)|by apply B].
Qed.
End Since.
