(* ===== verification/LiveRoomsProps.v ===== *)
(** * LiveRoomsProps: what the live rooms guarantee *)
From stdpp Require Import gmap sorting.
From S2P Require Import Prelude Control Streams JsonValue JsonWriter JsonReader JsonPaths JsonSafety JsonProps Messages.
From S2P Require Import WebSocket WebSocketProps LiveRooms LiveReplies LiveView LiveRefine LivePresence.

(** ** Closing rooms *)

Definition dead (w : View) (k : list Z) : bool :=
  match vw_rooms w !! k with Some r => dead_time (vw_clock w) r | None => false end.

Definition names (w : View) (k : list Z) : list (list Z * list Z) :=
  match vw_rooms w !! k with Some r => [(cmsid_ r, devid_ r)] | None => [] end.

Lemma sweep_loop l w :
  NoDup l ->
  vw_stops (fold_left sweep_one l w) = vw_stops w ++ concat (map (names w) (filter (fun k => dead w k = true) l)) /\
  forall k, vw_rooms (fold_left sweep_one l w) !! k = if bool_decide (k ∈ l /\ dead w k = true) then None else vw_rooms w !! k.
Proof.
  intros Hnd. revert w. induction Hnd as [|k l Hk Hnd IH]; intros w; cbn [fold_left].
  { split; [by rewrite app_nil_r|]. intros k. rewrite bool_decide_false; [done|]. intros [[]%elem_of_nil _]. }
  assert (E : sweep_one w k = if dead w k then close_room k (set_vstops (vw_stops w ++ names w k) w) else w).
  { unfold sweep_one, dead, names. destruct (vw_rooms w !! k); [by case_match|done]. }
  rewrite E. clear E. destruct (dead w k) eqn:Ed.
  - set (w1 := close_room k _). assert (Hd : forall k', k' <> k -> dead w1 k' = dead w k' /\ names w1 k' = names w k').
    { intros k' Hne. unfold dead, names, w1. cbn. by rewrite lookup_delete_ne. }
    destruct (IH w1) as [E1 E2]. split.
    + rewrite E1. cbn [w1 close_room set_vstops set_vrooms vw_stops]. rewrite filter_cons_True by done. cbn. rewrite <-app_assoc. do 2 f_equal.
      assert (H : forall l', k ∉ l' -> map (names w1) (filter (fun k => dead w1 k = true) l') = map (names w) (filter (fun k => dead w k = true) l')).
      { induction l' as [|k' l' IH']; [done|]. intros [Hne Hn]%not_elem_of_cons. rewrite !filter_cons.
        destruct (Hd k' ltac:(congruence)) as [-> En]. case_decide; cbn; [by rewrite En, IH'|by apply IH']. }
      by rewrite H.
    + intros k'. rewrite E2. cbn [w1 close_room set_vstops set_vrooms vw_rooms]. destruct (decide (k' = k)) as [->|Hne].
      * rewrite bool_decide_false by tauto. rewrite bool_decide_true by (split; [by left|done]). by rewrite lookup_delete_eq.
      * destruct (Hd k' Hne) as [-> _]. rewrite lookup_delete_ne by done. erewrite bool_decide_ext; [reflexivity|].
        rewrite elem_of_cons. naive_solver.
  - destruct (IH w) as [E1 E2]. split; [by rewrite E1, filter_cons_False by (by rewrite Ed)|].
    intros k'. rewrite E2. erewrite bool_decide_ext; [reflexivity|]. rewrite elem_of_cons.
    split; [tauto|]. intros [[->|H] H2]; [congruence|done].
Qed.

Section Properties.
Context {D : Doubles}.

(** ** Refinement *)

(** C3. Whatever happens to the server - connections, messages, requests that join, quit
    or are malformed, time-outs, announcements of streams, rounds of the state thread -
    the next operation runs without touching freed memory, [NULL] or the outside of a
    buffer, the tables of pointers behave like the two finite maps of [LiveView], and the
    viewers known are those whose sockets are established, not closed and not dropped for
    a malformed request or by a full pool.  This as long as the events are allowed by
    [event_ok]: objects are fresh and messages end in a NUL; no request is one of those
    that abort the process (C20); result and token of the adapter have at most 128 bytes;
    and no socket becomes writeable after the program has dropped its viewer, which
    libwebsockets does not promise. *)
Theorem rooms_refine clock es s e :
  live_run es (new_server clock) s -> event_ok e s ->
  exists s', live_step e s = inl (tt, s') /\
    view s' = fold_left (fun w e => view_step e w) (es ++ [e]) (view (new_server clock)) /\
    dom (vw_viewers (view s')) = served_fds (sockets_after (es ++ [e])).
Proof.
  intros H He. destruct (live_run_view _ _ _ (new_server_ok clock) H) as [Hs Ev].
  destruct (live_step_view e s Hs He) as (s' & E & _ & Ev'). exists s'. split; [done|].
  split; [by rewrite Ev', Ev, fold_left_app|].
  assert (H' : live_run (es ++ [e]) (new_server clock) s') by by eapply live_run_snoc.
  pose proof (live_run_sockets _ _ _ (new_server_ok clock) H') as Es.
  change (sockets_of (view (new_server clock))) with (mk_sockets (dom (∅ : gmap Z Connection)) 0) in Es. rewrite dom_empty_L in Es.
  unfold sockets_after. by rewrite <-Es.
Qed.

(** ** Presence *)

Inductive behaved_run : list live_event -> Server -> Server -> Prop :=
  | behaved_nil s : behaved_run [] s s
  | behaved_cons e es s s' s'' :
      event_ok e s -> behaved e (view s) -> live_step e s = inl (tt, s') -> behaved_run es s' s'' -> behaved_run (e :: es) s s''.

Lemma new_server_presence clock : 0 <= clock -> presence (view (new_server clock)).
Proof.
  intros Hc. split; [| | | |exact Hc].
  - intros k r H. destruct (lookup_empty_Some k r H).
  - intros k r u H. destruct (lookup_empty_Some k r H).
  - intros k r H. destruct (lookup_empty_Some k r H).
  - intros fd [c H]. destruct (lookup_empty_Some fd c H).
Qed.

Lemma behaved_live es s s' : behaved_run es s s' -> live_run es s s'.
Proof. induction 1; econstructor; eauto. Qed.

Lemma behaved_views es s s' :
  server_ok s -> behaved_run es s s' -> view s' = fold_left (fun w e => view_step e w) es (view s).
Proof. intros Hs H. by apply live_run_view, behaved_live. Qed.

Lemma behaved_presence es s s' :
  server_ok s -> presence (view s) -> behaved_run es s s' -> server_ok s' /\ presence (view s').
Proof.
  intros Hs Hw H. induction H as [|e es s s1 s2 He Hb E H IH]; [done|].
  destruct (live_step_view e s Hs He) as (s1' & E' & H1 & Ev). rewrite E in E'. injection E' as <-.
  apply IH; [done|]. rewrite Ev. by apply behaved_step.
Qed.

Lemma behaved_reached clock es s :
  0 <= clock -> behaved_run es (new_server clock) s -> server_ok s /\ presence (view s).
Proof. intros Hc. by apply behaved_presence; [apply new_server_ok|apply new_server_presence]. Qed.

(** A room is dead if it has been empty for more than a minute. *)
Lemma dead_exact w k r :
  presence w -> vw_clock w < 2 ^ 64 -> vw_rooms w !! k = Some r ->
  dead w k = bool_decide (users_ r = [] /\ 60 * 1000 < vw_clock w - timestamp_ r).
Proof.
  intros Hw Hc Hr. unfold dead, dead_time. rewrite Hr. pose proof (size_zero w k r Hw Hr) as Hz.
  destruct (Z.eqb_spec (room_size r) 0) as [E|E]; cbn.
  - apply Hz in E. destruct (pr_since w Hw k r Hr E). rewrite uwrap_small by lia.
    destruct (Z.ltb_spec (60 * 1000) (vw_clock w - timestamp_ r)); [by rewrite bool_decide_true|].
    rewrite bool_decide_false; [done|]. intros [_ ?]. lia.
  - rewrite bool_decide_false; [done|]. intros [? _]. by apply E, Hz.
Qed.

Lemma ids_NoDup {A} (m : gmap (list Z) A) : NoDup (ids m).
Proof. unfold ids. rewrite merge_sort_Permutation. apply NoDup_elements. Qed.

Lemma elem_of_ids {A} (m : gmap (list Z) A) k : k ∈ ids m <-> is_Some (m !! k).
Proof. unfold ids. by rewrite merge_sort_Permutation, elem_of_elements, elem_of_dom. Qed.

(** C19. With clients that keep to the protocol ([behaved]), a round of the state thread
    closes exactly the rooms that have been without a viewer for more than a minute,
    counted from the event with which the last one left: [empty_since] reads it off the
    history of the run and not off what the server has noted.  Everybody else keeps his
    stream. *)
Theorem rooms_closed_exactly clock es s :
  0 <= clock -> behaved_run es (new_server clock) s -> vw_clock (view s) < 2 ^ 64 ->
  exists s', check_rooms s = inl (tt, s') /\
    forall k, vw_rooms (view s') !! k =
      match vw_rooms (view s) !! k with
      | Some r =>
          if bool_decide (users_ r = [] /\ 60 * 1000 < vw_clock (view s) - empty_since es (view (new_server clock)) (fun _ => clock) k)
          then None else Some r
      | None => None
      end.
Proof.
  intros Hc H Hz. destruct (behaved_reached clock es s Hc H) as [Hs Hw].
  destruct (does_sweep s Hs) as (s' & E & _ & Ev). exists s'. split; [done|]. intros k. rewrite Ev.
  destruct (sweep_loop (ids (vw_rooms (view s))) (view s) (ids_NoDup _)) as [_ E2]. unfold sweep. rewrite E2.
  destruct (vw_rooms (view s) !! k) as [r|] eqn:Er; [|by case_bool_decide].
  assert (Hd : dated (view s) (empty_since es (view (new_server clock)) (fun _ => clock))).
  { rewrite (behaved_views _ _ _ (new_server_ok clock) H). apply dated_run. intros k0 r0 H0. destruct (lookup_empty_Some k0 r0 H0). }
  erewrite bool_decide_ext; [reflexivity|]. rewrite (dead_exact (view s) k r Hw Hz Er), bool_decide_eq_true, elem_of_ids, Er.
  specialize (Hd k r Er). split; [intros (_ & Hu & Ht)|intros [Hu Ht]]; rewrite (Hd Hu) in *; eauto.
Qed.

(** C4. With clients that keep to the protocol - [behaved]: they are in one room at a time,
    send nothing malformed and do not close their socket while a request waits - and
    events that [event_ok] allows, no stream is left running: once no connected viewer is
    recorded in a room - they have quit, closed their connections or timed out - the first
    round of the state thread more than a minute later closes the room and stops its
    stream.  Of other clients this does not hold ([LiveExamples.second_room_stays],
    [malformed_stays], [closed_while_waiting_stays]). *)
Theorem abandoned_room_stopped clock es s k r d :
  0 <= clock -> behaved_run es (new_server clock) s ->
  vw_rooms (view s) !! k = Some r -> (forall fd, is_Some (vw_viewers (view s) !! fd) -> room_of fd (view s) <> k) ->
  60 * 1000 < d -> vw_clock (view s) + d < 2 ^ 64 ->
  exists s' l, live_run [Tick d; Check_rooms] s s' /\
    vw_rooms (view s') !! k = None /\ vw_stops (view s') = vw_stops (view s) ++ l /\ (cmsid_ r, devid_ r) ∈ l.
Proof.
  intros Hc H Hr Hn Hd Hz. destruct (behaved_reached clock es s Hc H) as [Hs Hw].
  destruct (live_step_view (Tick d) s Hs I) as (s1 & E1 & H1 & Ev1).
  destruct (live_step_view Check_rooms s1 H1 I) as (s2 & E2 & H2 & Ev2). cbn [view_step] in Ev1, Ev2.
  assert (Hw1 : presence (view s1)) by (rewrite Ev1; apply (behaved_step (Tick d)); [done|done|cbn; lia]).
  assert (Hr1 : vw_rooms (view s1) !! k = Some r) by by rewrite Ev1.
  assert (Hu : users_ r = []).
  { destruct (users_ r) as [|u us] eqn:Eu; [done|]. destruct (pr_members _ Hw k r u Hr) as (_ & H3 & H4); [rewrite Eu; by left|].
    by destruct (Hn u H4). }
  assert (Hdead : dead (view s1) k = true).
  { destruct (pr_since _ Hw k r Hr Hu). rewrite (dead_exact _ k r Hw1); [|by rewrite Ev1|done].
    apply bool_decide_eq_true. rewrite Ev1. cbn [set_vclock vw_clock]. split; [done|lia]. }
  destruct (sweep_loop (ids (vw_rooms (view s1))) (view s1) (ids_NoDup _)) as [E3 E4].
  assert (Hk : k ∈ ids (vw_rooms (view s1))) by (apply elem_of_ids; by rewrite Hr1).
  eexists s2, _. split; [by repeat (eapply run_cons; [done|eassumption|]); constructor|].
  rewrite Ev2. unfold sweep. rewrite E4, E3, bool_decide_true by done. split; [done|].
  assert (Es : vw_stops (view s1) = vw_stops (view s)) by by rewrite Ev1. rewrite Es. split; [done|].
  apply list_elem_of_In, in_concat. exists (names (view s1) k). split; [|unfold names; rewrite Hr1; by left].
  apply in_map, list_elem_of_In, list_elem_of_filter. done.
Qed.

(** ** Messages *)

(** What [lws_write] was given for a viewer. *)
Definition written_to (fd : Z) (l : list (Z * list Z * Z)) : list (list Z) :=
  map (fun p => p.1.2) (filter (fun p => p.1.1 = fd) l).

(** The messages that were handed to [lws_write] and those that wait. *)
Definition outbox (fd : Z) (w : View) : list (list Z) :=
  written_to fd (vw_written w) ++ default [] (cn_buffer <$> vw_viewers w !! fd).

(** From one view to a later one of the same connection. *)
Definition onward (fd : Z) (w w' : View) : Prop :=
  is_Some (vw_viewers w' !! fd) -> is_Some (vw_viewers w !! fd) /\ exists more, outbox fd w' = outbox fd w ++ more.

Lemma onward_same fd w w' : vw_viewers w' = vw_viewers w -> vw_written w' = vw_written w -> onward fd w w'.
Proof. intros E1 E2 Hv. rewrite E1 in Hv. split; [done|]. exists []. unfold outbox. by rewrite E1, E2, app_nil_r. Qed.

Lemma onward_trans fd w w1 w2 : onward fd w w1 -> onward fd w1 w2 -> onward fd w w2.
Proof.
  intros H1 H2 Hv. destruct (H2 Hv) as [Hv1 [m2 E2]], (H1 Hv1) as [Hv0 [m1 E1]]. split; [done|].
  exists (m1 ++ m2). by rewrite E2, E1, app_assoc.
Qed.

(** A change that at most adds to the messages that wait. *)
Definition adds (f : Connection -> Connection) : Prop := forall c, exists more, cn_buffer (f c) = cn_buffer c ++ more.

Lemma adds_none f : (forall c, cn_buffer (f c) = cn_buffer c) -> adds f.
Proof. intros H c. exists []. by rewrite H, app_nil_r. Qed.

Lemma onward_viewer fd fd' f w : adds f -> onward fd w (on_viewer fd' f w).
Proof.
  intros Hf. unfold onward, outbox, on_viewer. cbn. rewrite lookup_alter_is_Some. intros [c Hc]. split; [by exists c|].
  destruct (decide (fd' = fd)) as [->|Hne].
  - rewrite lookup_alter_eq, Hc. cbn. destruct (Hf c) as [more ->]. exists more. by rewrite app_assoc.
  - exists []. by rewrite lookup_alter_ne, app_nil_r.
Qed.

Lemma onward_say fd fd' t w : onward fd w (say fd' t w).
Proof. apply onward_viewer. intros c. by exists [t]. Qed.

Lemma onward_quiet fd fd' f w : (forall c, cn_buffer (f c) = cn_buffer c) -> onward fd w (on_viewer fd' f w).
Proof. intros H. by apply onward_viewer, adds_none. Qed.

Lemma onward_hang_up fd fd' w : onward fd w (hang_up fd' w).
Proof.
  unfold onward, outbox. cbn. intros [c [Hne Hc]%lookup_delete_Some]. split; [by exists c|]. exists [].
  by rewrite lookup_delete_ne, app_nil_r.
Qed.

Lemma onward_walk_out fd k fd' w : onward fd w (walk_out k fd' w).
Proof. unfold walk_out. case_match; by apply onward_same. Qed.

Lemma onward_admitted fd fd' k t w : onward fd w (admitted fd' k t w).
Proof.
  unfold admitted, alive. eapply onward_trans; [apply onward_say|]. eapply onward_trans; by apply onward_quiet.
Qed.

Lemma onward_room fd w w1 w2 : vw_viewers w1 = vw_viewers w -> vw_written w1 = vw_written w -> onward fd w1 w2 -> onward fd w w2.
Proof. intros E1 E2. apply onward_trans. by apply onward_same. Qed.

Lemma onward_fold {A} fd (g : View -> A -> View) l w : (forall w x, onward fd w (g w x)) -> onward fd w (fold_left g l w).
Proof.
  intros Hg. revert w. induction l as [|x l IH]; intros w; cbn; [by apply onward_same|]. by eapply onward_trans.
Qed.

Lemma onward_enter fd fd' cmsid devid status a w : onward fd w (enter fd' cmsid devid status a w).
Proof.
  unfold enter. destruct (_ || _); [by eapply onward_room; [| |apply onward_say]|].
  destruct (status =? 102).
  - destruct (st_ret a =? 0); [|by eapply onward_room; [| |apply onward_say]].
    destruct (room_join _ _) as [count r]. by eapply onward_room; [| |apply onward_admitted].
  - destruct (status =? 200); [|apply onward_say]. destruct (vw_rooms w !! _) as [r|]; [|apply onward_say].
    destruct (room_join _ _) as [count r2]. by eapply onward_room; [| |apply onward_admitted].
Qed.

Lemma onward_go fd fd' cmsid devid status w : onward fd w (go fd' cmsid devid status w).
Proof.
  unfold go. destruct (status =? 200); [|by eapply onward_room; [| |apply onward_say]].
  destruct (vw_rooms w !! _) as [r|]; [|apply onward_say].
  eapply onward_trans; [|apply onward_say]. eapply onward_trans; [|by apply onward_quiet]. by apply onward_same.
Qed.

Lemma written_handed fd fd' l bufs sent :
  written_to fd (l ++ handed fd' bufs sent) = written_to fd l ++ (if decide (fd' = fd) then bufs else []).
Proof.
  unfold written_to. rewrite filter_app, map_app. f_equal. revert sent.
  induction bufs as [|b bufs IH]; intros sent; cbn [handed]; [by case_decide|].
  destruct (decide (fd' = fd)) as [E|E]; [rewrite filter_cons_True by done; cbn; by rewrite IH|].
  by rewrite filter_cons_False.
Qed.

Lemma onward_deliver fd fd' sent w : onward fd w (deliver fd' sent w).
Proof.
  unfold deliver. destruct (vw_viewers w !! fd') as [c|] eqn:Ec; [|by apply onward_same].
  unfold onward, outbox. cbn [on_viewer set_viewers set_vwritten vw_viewers vw_written].
  rewrite lookup_alter_is_Some, written_handed. intros Hv. split; [done|]. exists [].
  destruct (decide (fd' = fd)) as [->|Hne].
  - rewrite lookup_alter_eq, Ec. cbn. by rewrite !app_nil_r.
  - rewrite lookup_alter_ne by done. by rewrite !app_nil_r.
Qed.

Lemma onward_step fd e w :
  match e with Library (ESTABLISHED _ _ _ fd') => fd' <> fd | _ => True end -> onward fd w (view_step e w).
Proof.
  intros He. destruct e as [[addr junk now fd'|fd' sent|fd' memory|fd']|addr status a fd' cmdline|token|cur| |d|n]; cbn [view_step library].
  - unfold welcome, alive. eapply onward_trans; [|eapply onward_trans; by apply onward_quiet].
    unfold onward, outbox. cbn. rewrite lookup_insert_ne by done. intros Hv. split; [done|]. exists []. by rewrite app_nil_r.
  - apply onward_deliver.
  - case_match; [|by apply onward_same]. unfold take_message. case_match; [by apply onward_same|apply onward_hang_up].
  - unfold part. eapply onward_trans; [|apply onward_hang_up]. eapply onward_trans; [|apply onward_walk_out]. by apply onward_quiet.
  - case_match; [|by apply onward_same]. destruct r; cbn [serve]; [apply onward_enter|apply onward_go| |apply onward_hang_up].
    unfold life_sign. eapply onward_trans; [|apply onward_say]. eapply onward_trans; by apply onward_quiet.
  - unfold announce. case_match; [|by apply onward_same]. case_match; [|by apply onward_same].
    eapply onward_trans; [|apply onward_fold; intros; apply onward_say]. by apply onward_same.
  - apply onward_fold. intros w1 fd1. unfold expire. case_match; [|by apply onward_same].
    case_match; [eapply onward_trans; [apply onward_walk_out|]|]; by apply onward_quiet.
  - apply onward_fold. intros w1 k. unfold sweep_one. repeat (case_match; [|by apply onward_same]). by apply onward_same.
  - by apply onward_same.
  - by apply onward_same.
Qed.

(** C18. While a viewer stays connected his messages are handed to [lws_write] each once,
    unchanged and in the order in which they were queued: those that it was given,
    followed by those that wait, only grow at the end.  What [lws_write] does not take is
    lost: the message is neither repeated nor put back ([LiveExamples.failed_write_loses],
    against the comment in the code). *)
Theorem messages_in_order clock es s e s' fd :
  live_run es (new_server clock) s -> event_ok e s -> live_step e s = inl (tt, s') ->
  match e with Library (ESTABLISHED _ _ _ fd') => fd' <> fd | _ => True end ->
  is_Some (vw_viewers (view s') !! fd) ->
  exists more, outbox fd (view s') = outbox fd (view s) ++ more.
Proof.
  intros H He E Hfd Hv. destruct (live_run_view _ _ _ (new_server_ok clock) H) as [Hs _].
  destruct (live_step_view e s Hs He) as (s1 & E1 & _ & Ev). rewrite E in E1. injection E1 as <-.
  rewrite Ev in *. by apply (onward_step fd e (view s) Hfd).
Qed.

(** ** Requests that abort the process *)

Lemma fetch_object key v : isObject v = true -> exists c v', fetch_member key v = inl (c, v') /\ isObject v' = true.
Proof.
  intros Hv. unfold fetch_member, alter_member, JSON_ASSERT. rewrite Hv.
  destruct v as [c d], d; try discriminate; do 2 eexists; split; reflexivity.
Qed.

Lemma asInt_total v : (exists n, asInt v = inl n) \/ exists t, asInt v = inr (Throws t).
Proof.
  unfold asInt, JSON_ASSERT_MESSAGE. destruct (value_ v); try (by left; eexists); try (by right; eexists);
    case_match; try (by left; eexists); by right; eexists.
Qed.

Lemma asString_total v : (exists t, asString v = inl t) \/ exists t, asString v = inr (Throws t).
Proof. unfold asString. destruct (value_ v); try (by left; eexists); by right; eexists. Qed.

Lemma request_fields_object v : isObject v = true -> exists r, request_fields v = inl r.
Proof.
  intros Hv. unfold request_fields.
  destruct (fetch_object (bytes "cmd") v Hv) as (c1 & v1 & -> & H1). cbn -[bytes fetch_member].
  destruct (asInt_total c1) as [[n ->]|[t ->]]; cbn -[bytes fetch_member]; [|by eexists].
  destruct (fetch_object (bytes "cmsid") v1 H1) as (c2 & v2 & -> & H2). cbn -[bytes fetch_member].
  destruct (asString_total c2) as [[cmsid ->]|[t ->]]; cbn -[bytes fetch_member]; [|by eexists].
  destruct (fetch_object (bytes "devid") v2 H2) as (c3 & v3 & -> & H3). cbn -[bytes fetch_member].
  destruct (asString_total c3) as [[devid ->]|[t ->]]; cbn -[bytes fetch_member]; by eexists.
Qed.

(** C20. Of all messages that a viewer can send, exactly those abort the server that are a
    JSON value but not an object and not null: the subscript of the value fails an
    assertion before any handler can catch it.  Every other message, well-formed or not,
    is taken for one of the four kinds of request. *)
Theorem request_aborts cmdline f :
  read_request cmdline = inr f <->
  f = AssertFailed /\ exists v errors, parse true cmdline Value_null = inl (true, v, errors) /\ isObject v = false.
Proof.
  destruct (parse_returns true false true cmdline Value_null) as (ok & v & errors & E).
  change (parse true cmdline Value_null = inl (ok, v, errors)) in E. unfold read_request. rewrite E.
  destruct ok; cbn [negb]; [|by split; [|intros (_ & ? & ? & ? & _)]].
  destruct (isObject v) eqn:Ho.
  - destruct (request_fields_object v Ho) as [[[[cmd cmsid] devid]|] ->];
      (split; [done|]); intros (_ & v' & errors' & E' & Hv); injection E' as <- <-; congruence.
  - assert (Er : request_fields v = inr AssertFailed).
    { unfold request_fields, fetch_member, alter_member, JSON_ASSERT. by rewrite Ho. }
    rewrite Er. split; [intros [= <-]; eauto|]. by intros (-> & _).
Qed.
End Properties.

(** ** A session *)
Section Sessions.
#[local] Existing Instance integral_doubles.

Lemma decided (P : Prop) `{Decision P} : bool_decide P = true -> P.
Proof. apply bool_decide_eq_true. Qed.

#[local] Instance lws_ok_dec e s : Decision (lws_ok e s /\ still_served e s).
Proof. destruct e; cbn; apply _. Defined.

#[local] Instance event_ok_dec e s : Decision (event_ok e s).
Proof.
  destruct e as [e|addr status a fd cmdline|token|cur| |d|n]; cbn; try apply _.
  destruct (read_request cmdline) as [r|f]; [|right; abstract (intros [[r E] _]; discriminate E)].
  destruct (decide (pm_room_heap (ws_derived s) !! addr = None /\ zlen (st_result a) <= 128 /\ zlen (st_token a) <= 128)) as [H|H];
    [left; abstract (split; [by eexists|exact H])|right; abstract (intros [_ H']; by apply H)].
Defined.

#[local] Instance behaved_dec e w : Decision (behaved e w).
Proof.
  destruct e as [[addr junk now fd|fd sent|fd memory|fd]|addr status a fd cmdline|token|cur| |d|n]; cbn; unfold is_fd, own_room;
    try apply _. destruct (read_request cmdline) as [[| | |]|]; apply _.
Defined.

Fixpoint try_run (es : list live_event) (s : Server) : option Server :=
  match es with
  | [] => Some s
  | e :: es' =>
      if decide (event_ok e s /\ behaved e (view s)) then
        match live_step e s with inl (_, s') => try_run es' s' | inr _ => None end
      else None
  end.

Lemma try_behaved es s s' : try_run es s = Some s' -> behaved_run es s s' /\ live_run es s s'.
Proof.
  revert s. induction es as [|e es IH]; intros s; cbn [try_run]; [intros [= ->]; split; constructor|].
  case_decide as H; [|done]. destruct (live_step e s) as [[[] s1]|] eqn:E; [|done]. intros H1. destruct H, (IH s1 H1).
  by split; econstructor.
Qed.

(** Where a sequence of events ends. *)
Definition ends (es : list live_event) : Server := default (new_server 0) (try_run es (new_server 0)).

Lemma ends_run es :
  bool_decide (is_Some (try_run es (new_server 0))) = true -> behaved_run es (new_server 0) (ends es) /\ live_run es (new_server 0) (ends es).
Proof. intros [s E]%bool_decide_eq_true. apply try_behaved. unfold ends. by rewrite E. Qed.

Lemma try_run_snoc es e s s2 :
  try_run (es ++ [e]) s = Some s2 -> exists s1, try_run es s = Some s1 /\ live_step e s1 = inl (tt, s2).
Proof.
  revert s. induction es as [|e' es IH]; intros s; cbn [try_run app]; case_decide as H; [|done| |done].
  - destruct (live_step e s) as [[[] s1]|] eqn:E; [|done]. intros [= <-]. by exists s.
  - destruct (live_step e' s) as [[[] s1]|]; [|done]. apply IH.
Qed.

Lemma last_step es e :
  bool_decide (is_Some (try_run (es ++ [e]) (new_server 0))) = true -> live_step e (ends es) = inl (tt, ends (es ++ [e])).
Proof.
  intros [s2 E]%bool_decide_eq_true. unfold ends. rewrite E. by destruct (try_run_snoc es e _ s2 E) as (s1 & -> & E1).
Qed.

(** A JSON text, written with single quotes. *)
Definition json (s : string) : list Z := map (fun c => if c =? 39 then 34 else c) (bytes s).

Definition asks (addr status fd : Z) (cmdline : list Z) : live_event := Request addr status (mk_start 0 [] (bytes "t1")) fd cmdline.
Definition room_a : list Z := bytes "A1".
Definition join_a : list Z := json "{'cmd':100,'cmsid':'A','devid':'1'}".
Definition quit_a : list Z := json "{'cmd':200,'cmsid':'A','devid':'1'}".
Definition joined_a : list live_event := [Library (ESTABLISHED 4096 0 0 5); asks 512 102 5 join_a].
Definition left_a : list live_event := joined_a ++ [asks 513 200 5 quit_a].

Ltac session := apply ends_run; vm_compute; reflexivity.

Lemma rooms_refine_witness :
  exists s', live_step Check_rooms (ends left_a) = inl (tt, s') /\
    view s' = fold_left (fun w e => view_step e w) (left_a ++ [Check_rooms]) (view (new_server 0)) /\
    dom (vw_viewers (view s')) = served_fds (sockets_after (left_a ++ [Check_rooms])).
Proof. apply (rooms_refine 0 left_a (ends left_a) Check_rooms); [session|exact I]. Defined.

Lemma rooms_closed_exactly_witness :
  let s := ends (left_a ++ [Tick 60001]) in
  exists s', check_rooms s = inl (tt, s') /\
    forall k, vw_rooms (view s') !! k =
      match vw_rooms (view s) !! k with
      | Some r =>
          if bool_decide (users_ r = [] /\ 60 * 1000 < vw_clock (view s) - empty_since (left_a ++ [Tick 60001]) (view (new_server 0)) (fun _ => 0) k)
          then None else Some r
      | None => None
      end.
Proof. apply (rooms_closed_exactly 0 (left_a ++ [Tick 60001])); [done|session|vm_compute; reflexivity]. Defined.

Definition room_left : LiveRoom := default (LiveRoom_new [] [] []) (vw_rooms (view (ends left_a)) !! room_a).

Lemma abandoned_room_stopped_witness :
  exists s' l, live_run [Tick 60001; Check_rooms] (ends left_a) s' /\
    vw_rooms (view s') !! room_a = None /\ vw_stops (view s') = vw_stops (view (ends left_a)) ++ l /\ (cmsid_ room_left, devid_ room_left) ∈ l.
Proof.
  apply (abandoned_room_stopped 0 left_a); [done|session|vm_compute; reflexivity| |lia|vm_compute; reflexivity].
  intros fd H E. assert (Hfd : fd = 5).
  { destruct (decide (fd = 5)) as [->|Hne]; [done|]. exfalso. destruct H as [c H].
    assert (Hd : elements (dom (vw_viewers (view (ends left_a)))) = [5]) by (vm_compute; reflexivity).
    apply (elem_of_dom_2 (D := gset Z)), elem_of_elements in H. rewrite Hd in H. by apply Hne, list_elem_of_singleton. }
  rewrite Hfd in E. vm_compute in E. discriminate E.
Defined.

Lemma messages_in_order_witness :
  exists more, outbox 5 (view (ends left_a)) = outbox 5 (view (ends joined_a)) ++ more.
Proof.
  apply (messages_in_order 0 joined_a (ends joined_a) (asks 513 200 5 quit_a)); [session| | |done|apply (decided _); vm_compute; reflexivity].
  - apply (decided _). vm_compute. reflexivity.
  - apply (last_step joined_a). vm_compute. reflexivity.
Defined.
End Sessions.
