(* ===== verification/LiveThreads.v ===== *)
(** * LiveThreads: the live rooms with all their threads

    The thread of the library, the workers of the pool, the thread that looks after the
    rooms and the HTTP side run at once.  A request is a sequence of stretches between
    its waits and unlocked passages; stretches of different requests interleave in any
    order, and clients may do what they like.  What is done to the table of rooms under
    its lock stays right; the examples show what happens to pointers that are used after
    the lock has been given up. *)
From stdpp Require Import gmap sorting.
From S2P Require Import Prelude Control Streams JsonValue JsonWriter JsonReader JsonProps Messages WebSocket WebSocketProps LiveRooms LiveReplies LiveView LiveRefine.

Section Threads.
Context {D : Doubles}.

(** ** Stretches *)
Inductive work :=
  | Requested (fd : Z) (cmdline : list Z)
  | Joining (fd : Z) (cmsid devid : list Z)          (* waits for [check_play_status] *)
  | Entering (fd : Z) (cmsid devid : list Z) (p : Z)
  | Starting (fd : Z) (cmsid devid : list Z)         (* waits for [start_play] *)
  | Quitting (fd : Z) (cmsid devid : list Z)         (* waits for [check_play_status] *)
  | Leaving (fd : Z) (pRoom : option Z)
  | Announcing (token : list Z)
  | Telling (p : Z).

(** The next stretch, with what the adapter has answered and the address that [new]
    yields; it returns what is left to do. *)
Definition stretch (addr status : Z) (a : start_answer) (w : work) : PM (option work) :=
  match w with
  | Requested fd cmdline =>
      r ← lift_fault (read_request cmdline);
      match r with
      | Rq_join cmsid devid => mret (Some (Joining fd cmsid devid))
      | Rq_quit cmsid devid => mret (Some (Quitting fd cmsid devid))
      | Rq_heartbeat => _ ← heartbeat_request fd; mret None
      | Rq_bad => removeConnection fd ;; mret None
      end
  | Joining fd cmsid devid =>
      next ← join_status fd cmsid devid status;
      mret (match next with
            | Join_returns _ => None
            | Join_starts => Some (Starting fd cmsid devid)
            | Join_enters p => Some (Entering fd cmsid devid p)
            end)
  | Entering fd cmsid devid p => _ ← join_enters fd cmsid devid p; mret None
  | Starting fd cmsid devid => _ ← join_started addr fd cmsid devid a; mret None
  | Quitting fd cmsid devid =>
      next ← quit_status fd cmsid devid status;
      mret (match next with Quit_returns => None | Quit_leaves pRoom => Some (Leaving fd pRoom) end)
  | Leaving fd pRoom => quit_leaves fd pRoom ;; mret None
  | Announcing token => p ← NotifyHls_find token; mret (Telling <$> p)
  | Telling p => _ ← NotifyHls_tell p; mret None
  end.

Definition left_over (w : option work) : list work := match w with Some w => [w] | None => [] end.

(** Run to its end by one thread, a request is [handle_request]. *)
Fixpoint finish (n : nat) (addr status : Z) (a : start_answer) (w : option work) : PM unit :=
  match n, w with
  | S n', Some w => w' ← stretch addr status a w; finish n' addr status a w'
  | _, _ => mret tt
  end.

Lemma finish_request addr status a fd cmdline s :
  finish 3 addr status a (Some (Requested fd cmdline)) s = (_ ← handle_request addr status a fd cmdline; mret tt) s.
Proof.
  cbn [finish stretch]. unfold handle_request, join_liveroom, quit_liveroom, lift_fault, mbind, ctl_bind.
  destruct (read_request cmdline) as [r|f]; [|done]. cbn -[join_status join_started join_enters quit_status quit_leaves].
  destruct r as [cmsid devid|cmsid devid| |]; cbn -[join_status join_started join_enters quit_status quit_leaves heartbeat_request removeConnection];
    unfold mbind, ctl_bind.
  - destruct (join_status fd cmsid devid status s) as [[[ret| |p] s1]|]; cbn -[join_started join_enters]; try done; unfold mbind, ctl_bind.
    + by destruct (join_started addr fd cmsid devid a s1) as [[]|].
    + by destruct (join_enters fd cmsid devid p s1) as [[]|].
  - destruct (quit_status fd cmsid devid status s) as [[[|pRoom] s1]|]; cbn -[quit_leaves]; try done; unfold mbind, ctl_bind.
    by destruct (quit_leaves fd pRoom s1) as [[]|].
  - by destruct (heartbeat_request fd s) as [[]|].
  - by destruct (removeConnection fd s) as [[]|].
Qed.

(** ** Interleavings *)

Record System := mk_system { sy_server : Server; sy_work : list work }.

Inductive thread_step : System -> System -> Prop :=
  | step_library e s s' ws :
      match e with ESTABLISHED addr _ _ _ => ws_heap s !! addr = None | _ => True end ->
      callback_main e s = inl (tt, s') -> thread_step (mk_system s ws) (mk_system s' ws)
  | step_take fd data rest s ws :
      pm_tasks (ws_derived s) = (fd, data) :: rest ->
      thread_step (mk_system s ws) (mk_system (set_derived (set_tasks rest (ws_derived s)) s) (Requested fd data :: ws))
  | step_hls token s ws : thread_step (mk_system s ws) (mk_system s (Announcing token :: ws))
  | step_stretch addr status a w r ws1 ws2 s s' :
      pm_room_heap (ws_derived s) !! addr = None -> stretch addr status a w s = inl (r, s') ->
      thread_step (mk_system s (ws1 ++ w :: ws2)) (mk_system s' (ws1 ++ left_over r ++ ws2))
  | step_check cur s s' ws : CheckConnectionState cur s = inl (tt, s') -> thread_step (mk_system s ws) (mk_system s' ws)
  | step_rooms s s' ws : check_rooms s = inl (tt, s') -> thread_step (mk_system s ws) (mk_system s' ws)
  | step_time clock s ws : thread_step (mk_system s ws) (mk_system (set_derived (set_clock clock (ws_derived s)) s) ws)
  | step_pool answer s ws :
      thread_step (mk_system s ws)
        (mk_system (set_derived (mk_pm (pm_rooms (ws_derived s)) (pm_room_heap (ws_derived s)) (pm_tasks (ws_derived s))
                                   (pm_stops (ws_derived s)) (pm_clock (ws_derived s)) answer) s) ws).

Inductive reachable (clock : Z) : System -> Prop :=
  | reach_start : reachable clock (mk_system (new_server clock) [])
  | reach_step y y' : reachable clock y -> thread_step y y' -> reachable clock y'.

(** ** The table of rooms *)

(** Every entry points to a room with the ids of its key; nobody is in a room twice. *)
Record table_ok (m : PlayMngr) : Prop := {
  to_entry k p : pm_rooms m !! k = Some p -> exists r, pm_room_heap m !! p = Some r /\ cmsid_ r ++ devid_ r = k;
  to_users p r : pm_room_heap m !! p = Some r -> NoDup (users_ r);
}.

(** A computation that leaves the table right whenever it returns. *)
Definition stable {A} (m : PM A) : Prop :=
  forall s, table_ok (ws_derived s) -> wp m s (fun _ s' => table_ok (ws_derived s')) (fun _ _ => True).

(** One that always returns besides. *)
Definition sound {A} (m : PM A) : Prop :=
  forall s, table_ok (ws_derived s) -> wp m s (fun _ s' => table_ok (ws_derived s')) (fun _ _ => False).

Implicit Types (s : Server).

Lemma sound_stable {A} (m : PM A) : sound m -> stable m.
Proof. intros Hm s Hs. eapply wp_mono; [| |by apply Hm]; [done|by intros]. Qed.

Lemma sound_bind {A B} (m : PM A) (f : A -> PM B) : sound m -> (forall a, sound (f a)) -> sound (m ≫= f).
Proof. intros Hm Hf s Hs. apply wp_bind. eapply wp_mono; [| |by apply Hm]; [|done]. intros a s' H. by apply Hf. Qed.

Lemma sound_ret {A} (a : A) : sound (mret a).
Proof. intros s Hs. by apply wp_ret. Qed.

Lemma sound_gets {A} (f : Server -> A) : sound (gets f).
Proof. intros s Hs. by apply wp_gets. Qed.

Lemma sound_for_each {A} (l : list A) (f : A -> PM unit) : (forall x, sound (f x)) -> sound (for_each l f).
Proof. intros Hf. induction l as [|x l IH]; cbn [for_each]; [apply sound_ret|]. by apply sound_bind. Qed.

Lemma stable_run {A} (m : PM A) s a s' : stable m -> table_ok (ws_derived s) -> m s = inl (a, s') -> table_ok (ws_derived s').
Proof. intros Hm Hs E. exact (wp_inl m s a s' _ _ E (Hm s Hs)). Qed.

Lemma stable_ret {A} (a : A) : stable (mret a).
Proof. intros s Hs. by apply wp_ret. Qed.

Lemma stable_exit {A} f : stable (exit (A := A) f).
Proof. intros s Hs. by apply wp_exit. Qed.

Lemma stable_bind {A B} (m : PM A) (f : A -> PM B) : stable m -> (forall a, stable (f a)) -> stable (m ≫= f).
Proof. intros Hm Hf s Hs. apply wp_bind. eapply wp_mono; [| |by apply Hm]; [|done]. intros a s' H. by apply Hf. Qed.

Lemma stable_gets {A} (f : Server -> A) : stable (gets f).
Proof. intros s Hs. by apply wp_gets. Qed.

Lemma stable_when b (m : PM unit) : stable m -> stable (when b m).
Proof. intros Hm. destruct b; [done|apply stable_ret]. Qed.

(** A change of the connections. *)
Lemma stable_server (f : Server -> Server) : (forall s, ws_derived (f s) = ws_derived s) -> stable (modify f).
Proof. intros H s Hs. apply wp_modify. by rewrite H. Qed.

Lemma stable_derived (f : PlayMngr -> PlayMngr) : (forall m, table_ok m -> table_ok (f m)) -> stable (derived f).
Proof. intros H s Hs. apply wp_modify. by apply H. Qed.

Lemma stable_for_each {A} (l : list A) (f : A -> PM unit) : (forall x, stable (f x)) -> stable (for_each l f).
Proof. intros Hf. induction l as [|x l IH]; cbn [for_each]; [apply stable_ret|]. by apply stable_bind. Qed.

Lemma stable_lift {A} (r : A + fault) : stable (lift_fault r).
Proof. destruct r; [apply stable_ret|apply stable_exit]. Qed.

Create HintDb stable.
Hint Resolve stable_ret stable_exit stable_gets stable_lift stable_when stable_for_each : stable.
Hint Extern 1 (stable (modify _)) => by apply stable_server : stable.

(** Everything about connections. *)
Ltac stable_step :=
  match goal with
  | |- stable (_ ≫= _) => apply stable_bind; [|intros ?]
  | |- stable (match ?x with _ => _ end) => destruct x
  | |- stable (if ?b then _ else _) => destruct b
  | _ => solve [auto with stable | apply sound_stable; auto with stable]
  end.
Ltac stably := repeat stable_step.

Lemma stable_find fd : stable (find_connection fd). Proof. apply stable_gets. Qed.
Lemma stable_subscript fd : stable (subscript fd). Proof. unfold subscript, find_connection. stably. Qed.
Lemma stable_deref p : stable (deref p). Proof. unfold deref. stably. Qed.
Lemma stable_store p c : stable (store p c). Proof. by apply stable_server. Qed.
Hint Resolve stable_find stable_subscript stable_deref stable_store : stable.

Lemma stable_send fd t : stable (send fd t). Proof. unfold send, send_push. stably. Qed.
Lemma stable_setValue fd name v : stable (setValue fd name v). Proof. unfold setValue, set_key_value. stably. Qed.
Lemma stable_key_value p name : stable (key_value p name). Proof. unfold key_value. stably. Qed.
Lemma stable_timestamp fd t : stable (updateTimestamp fd t). Proof. unfold updateTimestamp. stably. Qed.
Hint Resolve stable_key_value stable_send stable_setValue stable_timestamp : stable.
Lemma stable_getValue fd name : stable (getValue fd name). Proof. unfold getValue. stably. Qed.
Lemma stable_remove fd : stable (removeConnection fd).
Proof. unfold removeConnection. stably. apply stable_when. stably. Qed.
Lemma stable_reply fd l : stable (reply fd l). Proof. unfold reply. stably. Qed.
Hint Resolve stable_getValue stable_remove stable_reply : stable.
Lemma stable_joined fd k l : stable (joined fd k l). Proof. unfold joined, GetTickCount, ask. stably. Qed.
Hint Resolve stable_joined : stable.

(** *** Operations on rooms *)

Lemma table_put m p r r' :
  table_ok m -> pm_room_heap m !! p = Some r -> cmsid_ r' ++ devid_ r' = cmsid_ r ++ devid_ r -> NoDup (users_ r') ->
  table_ok (set_room_heap (<[p := r']> (pm_room_heap m)) m).
Proof.
  intros [H1 H2] Hr Hk Hu. split; cbn.
  - intros k p' E. destruct (H1 k p' E) as (r2 & E2 & Ek). destruct (decide (p = p')) as [<-|Hne].
    + exists r'. rewrite lookup_insert_eq. split; [done|]. rewrite Hk. by simplify_eq.
    + exists r2. by rewrite lookup_insert_ne.
  - intros p' r2 [[<- <-]|[_ E]]%lookup_insert_Some; [done|by eapply H2].
Qed.

Lemma table_same m m' : pm_rooms m' = pm_rooms m -> pm_room_heap m' = pm_room_heap m -> table_ok m -> table_ok m'.
Proof. intros E1 E2 [H1 H2]. split; rewrite ?E1, E2; done. Qed.

(** A method of the room at an address. *)
Lemma stable_room {A} p (f : LiveRoom -> PM A) :
  (forall s r, table_ok (ws_derived s) -> pm_room_heap (ws_derived s) !! p = Some r ->
    wp (f r) s (fun _ s' => table_ok (ws_derived s')) (fun _ _ => True)) -> stable (deref_room p ≫= f).
Proof.
  intros Hf s Hs. apply wp_bind. unfold deref_room, ask. apply wp_bind, wp_gets.
  destruct (pm_room_heap (ws_derived s) !! p) as [r|] eqn:E; [apply wp_ret; by apply Hf|by apply wp_exit].
Qed.

Lemma room_quit_table now fd r : NoDup (users_ r) ->
  let r' := (room_quit now fd r).2 in cmsid_ r' ++ devid_ r' = cmsid_ r ++ devid_ r /\ NoDup (users_ r').
Proof. intros H. unfold room_quit. case_bool_decide; cbn; [|done]. split; [done|by apply erase_NoDup]. Qed.

Lemma stable_quit p fd : stable (quit p fd).
Proof.
  apply stable_room. intros s r Hs Hr. apply wp_bind, wp_gets.
  pose proof (room_quit_table (pm_clock (ws_derived s)) fd r (to_users _ Hs p r Hr)) as H.
  destruct (room_quit _ fd r) as [n r']. cbn in H. apply wp_bind, wp_modify, wp_ret. destruct H. by apply (table_put _ p r).
Qed.

Lemma room_join_table fd r : NoDup (users_ r) ->
  let r' := (room_join fd r).2 in cmsid_ r' ++ devid_ r' = cmsid_ r ++ devid_ r /\ NoDup (users_ r').
Proof.
  intros H. unfold room_join. case_bool_decide as Hu; cbn; [done|]. split; [done|]. apply NoDup_app. split; [done|].
  split; [|apply NoDup_singleton]. intros x Hx ->%list_elem_of_singleton. done.
Qed.

Lemma stable_join p fd : stable (join p fd).
Proof.
  apply stable_room. intros s r Hs Hr. pose proof (room_join_table fd r (to_users _ Hs p r Hr)) as H.
  destruct (room_join fd r) as [n r']. cbn in H. apply wp_bind, wp_modify, wp_ret. destruct H. by apply (table_put _ p r).
Qed.

Lemma stable_find_room k : stable (find_room k). Proof. apply stable_gets. Qed.
Lemma stable_deref_room p : stable (deref_room p). Proof. unfold deref_room, ask. stably. Qed.
Hint Resolve stable_quit stable_join stable_find_room stable_deref_room : stable.

(** *** What is done under the lock *)

Lemma sound_leave k fd : sound (leave k fd).
Proof.
  intros s Hs. unfold leave. apply wp_if; intros _; [by apply wp_ret|]. apply wp_bind, wp_gets.
  destruct (pm_rooms (ws_derived s) !! k) as [p|] eqn:E; [|by apply wp_ret].
  destruct (to_entry _ Hs k p E) as (r & Er & _). unfold quit, deref_room, ask, GetTickCount.
  apply wp_bind, wp_bind, wp_bind, wp_gets. rewrite Er. apply wp_ret, wp_bind, wp_gets.
  pose proof (room_quit_table (pm_clock (ws_derived s)) fd r (to_users _ Hs p r Er)) as H.
  destruct (room_quit _ fd r) as [n r']. cbn in H. apply wp_bind, wp_modify, wp_ret, wp_ret. destruct H. by apply (table_put _ p r).
Qed.
Hint Resolve sound_leave : stable.

(** The table after the room of a key has been deleted. *)
Lemma table_closed m k p : table_ok m -> pm_rooms m !! k = Some p -> table_ok (closed k p m).
Proof.
  intros [H1 H2] E. split; cbn.
  - intros k' p' [Hne E']%lookup_delete_Some. destruct (H1 k' p' E') as (r & Er & Ek). exists r.
    rewrite lookup_delete_ne; [done|]. intros ->. destruct (H1 k p' E) as (r2 & Er2 & Ek2). congruence.
  - intros p' r [_ Er]%lookup_delete_Some. by eapply H2.
Qed.

Lemma wp_delete_room s k p :
  table_ok (ws_derived s) -> pm_rooms (ws_derived s) !! k = Some p ->
  wp (delete_room k p) s (fun _ s' => table_ok (ws_derived s')) (fun _ _ => False).
Proof.
  intros Hs E. destruct (to_entry _ Hs k p E) as (r & Er & _). unfold delete_room, deref_room, ask.
  apply wp_bind, wp_bind, wp_gets. rewrite Er. apply wp_ret, wp_modify. by apply table_closed.
Qed.

Lemma sound_drop_room k : sound (drop_room k).
Proof.
  intros s Hs. unfold drop_room, find_room, ask. apply wp_bind, wp_gets.
  destruct (pm_rooms (ws_derived s) !! k) as [p|] eqn:E; [by apply wp_delete_room|by apply wp_ret].
Qed.
Hint Resolve sound_drop_room : stable.

Lemma sound_check_room k : sound (check_room k).
Proof.
  intros s Hs. unfold check_room, find_room, ask. apply wp_bind, wp_gets.
  destruct (pm_rooms (ws_derived s) !! k) as [p|] eqn:E; [|by apply wp_ret].
  destruct (to_entry _ Hs k p E) as (r & Er & _). unfold deref_room, ask, GetTickCount.
  apply wp_bind, wp_bind, wp_gets. rewrite Er. apply wp_ret, wp_bind, wp_gets, wp_when; [intros _|done].
  apply wp_bind, wp_modify. apply wp_delete_room; [|done]. by apply (table_same (ws_derived s)).
Qed.

Lemma sound_check_rooms : sound check_rooms.
Proof. apply sound_bind; [apply sound_gets|]. intros l. apply sound_for_each, sound_check_room. Qed.

Lemma sound_find token : sound (NotifyHls_find token).
Proof.
  apply sound_bind; [apply sound_gets|]. intros l. induction l as [|k l IH]; cbn [room_with_token]; [apply sound_ret|].
  intros s Hs. apply wp_bind, wp_gets. destruct (pm_rooms (ws_derived s) !! k) as [p|] eqn:E; [|by apply IH].
  destruct (to_entry _ Hs k p E) as (r & Er & _). unfold deref_room, ask. apply wp_bind, wp_bind, wp_gets. rewrite Er.
  apply wp_ret, wp_if; intros _; [by apply wp_ret|by apply IH].
Qed.

Lemma stable_tell p : stable (NotifyHls_tell p).
Proof.
  apply stable_room. intros s r Hs Hr. apply wp_bind, wp_modify.
  match goal with |- wp ?m ?s' _ _ => assert (Hm : stable m) by stably; apply Hm end.
  apply (table_put _ p r); [done|done|done|]. exact (to_users _ Hs p r Hr).
Qed.

Lemma stable_started s addr fd cmsid devid a :
  table_ok (ws_derived s) -> pm_room_heap (ws_derived s) !! addr = None ->
  wp (join_started addr fd cmsid devid a) s (fun _ s' => table_ok (ws_derived s')) (fun _ _ => True).
Proof.
  intros Hs Ha. unfold join_started. destruct (st_ret a =? 0); cbn [negb].
  - pose proof (room_join_table fd (LiveRoom_new cmsid devid (st_token a)) ltac:(constructor)) as [Hk Hu].
    destruct (room_join fd _) as [n r]. cbn [snd] in *. apply wp_bind, wp_modify, wp_bind, wp_modify.
    match goal with |- wp ?m ?s' _ _ => assert (Hm : stable m) by stably; apply Hm end. cbn.
    destruct Hs as [H1 H2]. split; cbn.
    + intros k p [[<- <-]|[Hne E]]%lookup_insert_Some; [exists r; by rewrite lookup_insert_eq|].
      destruct (H1 k p E) as (r2 & Er & Ek). exists r2. rewrite lookup_insert_ne; [done|]. intros ->. by rewrite Ha in Er.
    + intros p r2 [[<- <-]|[_ E]]%lookup_insert_Some; [done|by eapply H2].
  - match goal with |- wp ?m ?s' _ _ => assert (Hm : stable m) by stably; by apply Hm end.
Qed.

Lemma stable_stretch s addr status a w r s' :
  table_ok (ws_derived s) -> pm_room_heap (ws_derived s) !! addr = None ->
  stretch addr status a w s = inl (r, s') -> table_ok (ws_derived s').
Proof.
  intros Hs Ha E. destruct w as [fd cmdline|fd cmsid devid|fd cmsid devid p|fd cmsid devid|fd cmsid devid|fd pRoom|token|p];
    cbn [stretch] in E.
  - eapply stable_run; [|done|exact E]. unfold heartbeat_request, GetTickCount, ask. stably.
  - eapply stable_run; [|done|exact E]. unfold join_status. stably.
  - eapply stable_run; [|done|exact E]. unfold join_enters. stably.
  - apply (wp_inl _ _ _ _ (fun _ s' => table_ok (ws_derived s')) (fun _ _ => True) E). apply wp_bind. eapply wp_mono; [| |by apply stable_started]; [|done].
    intros x s2 H. by apply wp_ret.
  - eapply stable_run; [|done|exact E]. unfold quit_status. stably.
  - eapply stable_run; [|done|exact E]. unfold quit_leaves. stably.
  - eapply stable_run; [|done|exact E]. apply stable_bind; [|intros; apply stable_ret].
    apply sound_stable, sound_find.
  - eapply stable_run; [|done|exact E]. apply stable_bind; [apply stable_tell|intros; apply stable_ret].
Qed.

Lemma stable_onTimeout fd k : stable (onTimeout fd k). Proof. apply sound_stable, sound_leave. Qed.
Hint Resolve stable_onTimeout : stable.

Lemma stable_check_connection n cur p : stable (check_connection n cur p).
Proof.
  induction n as [|n IH]; cbn [check_connection]; [apply stable_exit|]. unfold set_key_value. stably.
Qed.

Lemma stable_onError fd t : stable (onError fd t). Proof. apply stable_ret. Qed.
Hint Resolve stable_onError : stable.

Lemma stable_writeable n fd sent : stable (writeable_loop n fd sent).
Proof.
  revert sent. induction n as [|n IH]; intros sent; cbn [writeable_loop]; [apply stable_exit|]. unfold lws_write, onErrorWrapper.
  stably; apply stable_when; apply stable_onError.
Qed.

Lemma stable_callback e : stable (callback_main e).
Proof.
  destruct e as [addr junk now fd|fd sent|fd memory|fd]; cbn [callback_main].
  - unfold onConnectWrapper. change (onConnect fd) with (pm_onConnect fd). unfold pm_onConnect, GetTickCount, ask. stably.
  - apply stable_bind; [apply stable_gets|intros; apply stable_writeable].
  - destruct (Messages.c_str memory) as [data|]; [|apply stable_exit]. change (onMessage fd data) with (pm_onMessage fd data).
    unfold pm_onMessage, ask. stably. apply stable_derived. intros m. by apply table_same.
  - unfold onDisconnectWrapper. change (onDisconnect fd) with (pm_onDisconnect fd). unfold pm_onDisconnect. stably.
Qed.

Lemma reachable_table clock y : reachable clock y -> table_ok (ws_derived (sy_server y)).
Proof.
  induction 1 as [|y y' Hy IH Hstep]; [split; intros ? ? H; destruct (lookup_empty_Some _ _ H)|].
  destruct Hstep; cbn [sy_server] in *.
  - by eapply stable_run; [apply stable_callback| |].
  - revert IH. by apply table_same.
  - done.
  - by eapply stable_stretch.
  - eapply stable_run; [|done|eassumption]. apply stable_bind; [apply stable_gets|]. intros l. apply stable_for_each.
    intros fd. stably. apply stable_check_connection.
  - eapply stable_run; [|done|eassumption]. apply sound_stable, sound_check_rooms.
  - revert IH. by apply table_same.
  - revert IH. by apply table_same.
Qed.
(** C16. However the threads interleave and whatever clients do, every entry of the table
    of rooms points to a room that exists and whose ids are its key, with nobody in it
    twice; so everything that works on the table under its lock - a viewer leaving by
    closing his socket or by timing out, closing a room, the round over the rooms, the
    search for a stream - runs to its end without touching freed memory. *)
Theorem room_table_sound clock y :
  reachable clock y ->
  let s := sy_server y in
  (forall k p, pm_rooms (ws_derived s) !! k = Some p ->
     exists r, pm_room_heap (ws_derived s) !! p = Some r /\ cmsid_ r ++ devid_ r = k /\ NoDup (users_ r)) /\
  (forall k fd, exists a s', leave k fd s = inl (a, s')) /\
  (forall k, exists a s', drop_room k s = inl (a, s')) /\
  (exists a s', check_rooms s = inl (a, s')) /\
  (forall token, exists a s', NotifyHls_find token s = inl (a, s')).
Proof.
  intros H s. pose proof (reachable_table clock y H) as Ht. fold s in Ht. split; [|repeat split].
  - intros k p E. destruct (to_entry _ Ht k p E) as (r & Er & Ek). exists r. split; [done|]. split; [done|]. by apply (to_users _ Ht p).
  - intros k fd. eapply wp_returns. by apply sound_leave.
  - intros k. eapply wp_returns. by apply sound_drop_room.
  - eapply wp_returns. by apply sound_check_rooms.
  - intros token. eapply wp_returns. by apply sound_find.
Qed.
End Threads.

Lemma room_table_sound_witness :
  exists a s', check_rooms (new_server 0) = inl (a, s').
Proof.
  refine (proj1 (proj2 (proj2 (proj2 (@room_table_sound integral_doubles 0 (mk_system (new_server 0) [Announcing []]) _))))).
  apply (reach_step 0 (mk_system (new_server 0) [])); [apply reach_start|apply step_hls].
Defined.
