(* ===== verification/LiveExamples.v ===== *)
(** * LiveExamples: the live rooms on concrete inputs

    Sessions of a few events, run on the model.  The first is one as it should be; the
    others show what viewers, the timing of requests or the adapter can do to the
    server. *)
From stdpp Require Import gmap sorting.
From S2P Require Import Prelude Control Streams JsonValue JsonWriter JsonReader JsonProps Messages.
From S2P Require Import WebSocket WebSocketProps LiveRooms LiveReplies LiveView LiveRefine LivePresence LiveRoomsProps LiveThreads.

#[local] Existing Instance integral_doubles.

Definition join_b : list Z := json "{'cmd':100,'cmsid':'B','devid':'1'}".
Definition room_b : list Z := bytes "B1".

Definition playing : start_answer := mk_start 0 [] (bytes "t1").

Definition connects (addr fd : Z) : live_event := Library (ESTABLISHED addr 0 0 fd).

Fixpoint run_events (l : list live_event) : PM unit :=
  match l with [] => mret tt | e :: l' => live_step e ;; run_events l' end.

(** What can be seen of the server: who watches each room, the rooms that the viewers
    are recorded in, the streams stopped. *)
Definition watchers (s : Server) : list (list Z * list Z) :=
  omap (fun k => (fun r => (k, users_ r)) <$> vw_rooms (view s) !! k) (ids (vw_rooms (view s))).

Definition observe (l : list live_event) : (list (list Z * list Z) * list (list Z * list Z)) + fault :=
  match run_events l (new_server 100000) with
  | inl (_, s) => inl (watchers s, pm_stops (ws_derived s))
  | inr (f, _) => inr f
  end.

(** A viewer joins, another one joins, both leave in their ways; the stream is stopped
    after its dead time and not before. *)
Definition session : list live_event :=
  [connects 4096 5; asks 512 102 5 join_a; connects 4097 6; asks 513 200 6 join_a; Announce (bytes "t1");
   Library (SERVER_WRITEABLE 5 [1000; 1000]); asks 514 200 5 quit_a; Library (CLOSED 6)].

Example session_watched : observe (take 4 session) = inl ([(room_a, [5; 6])], []).
Proof. vm_compute. reflexivity. Qed.

Example session_kept : observe (session ++ [Tick 60000; Check_rooms]) = inl ([(room_a, [])], []).
Proof. vm_compute. reflexivity. Qed.

Example session_stopped : observe (session ++ [Tick 60001; Check_rooms]) = inl ([], [(bytes "A", bytes "1")]).
Proof. vm_compute. reflexivity. Qed.

(** ** Viewers *)

(** After a malformed message the connection is forgotten but the viewer stays in the
    room, also when his socket is closed: the stream is never stopped. *)
Example malformed_stays :
  observe [connects 4096 5; asks 512 102 5 join_a; asks 513 200 5 (bytes "?"); Library (CLOSED 5); Tick 1000000; Check_rooms]
  = inl ([(room_a, [5])], []).
Proof. vm_compute. reflexivity. Qed.

(** The socket itself is left open.  When the library calls back because it is writeable,
    the subscript puts a null pointer into the table, which the next round of the state
    thread follows. *)
Example malformed_crashes :
  observe [connects 4096 5; asks 513 200 5 (bytes "?"); Library (SERVER_WRITEABLE 5 []); Check_connections 100000] = inr OutOfBounds.
Proof. vm_compute. reflexivity. Qed.

(** One message that is an array, a number or a string aborts the process. *)
Example array_aborts : observe [connects 4096 5; asks 512 102 5 (bytes "[]")] = inr AssertFailed.
Proof. vm_compute. reflexivity. Qed.

(** Who joins a second room without leaving the first stays in both; only the second
    notices when he goes. *)
Example second_room_stays :
  observe [connects 4096 5; asks 512 102 5 join_a; asks 513 102 5 join_b; Library (CLOSED 5); Tick 1000000; Check_rooms]
  = inl ([(room_a, [5])], [(bytes "B", bytes "1")]).
Proof. vm_compute. reflexivity. Qed.

(** So does who closes his socket while his request waits for the adapter. *)
Example closed_while_waiting_stays :
  observe [connects 4096 5; Library (CLOSED 5); asks 512 102 5 join_a; Tick 1000000; Check_rooms] = inl ([(room_a, [5])], []).
Proof. vm_compute. reflexivity. Qed.

(** Two pairs of ids with the same concatenation are one room. *)
Example ids_run_together :
  observe [connects 4096 5; asks 512 102 5 join_a; connects 4097 6; asks 513 200 6 (json "{'cmd':100,'cmsid':'A1','devid':''}")]
  = inl ([(room_a, [5; 6])], []).
Proof. vm_compute. reflexivity. Qed.

(** ** Timing *)

(** The state thread reads the clock, then waits for the lock; a life sign that comes in
    between is later than the time it compares with, and the difference wraps around:
    the viewer is taken for silent for more than thirty seconds. *)
Example early_timeout :
  observe [connects 4096 5; asks 512 102 5 join_a; Tick 1; asks 513 200 5 (json "{'cmd':300}"); Check_connections 100000]
  = inl ([(room_a, [])], []).
Proof. vm_compute. reflexivity. Qed.

(** Work of several threads: each step takes one stretch of the work at an index. *)
Definition advance (addr status : Z) (i : nat) (y : Server * list work) : (Server * list work) + fault :=
  match y.2 !! i with
  | None => inl y
  | Some w =>
      match stretch addr status playing w y.1 with
      | inl (r, s) => inl (s, take i y.2 ++ left_over r ++ drop (S i) y.2)
      | inr (f, _) => inr f
      end
  end.

Fixpoint schedule (l : list (Z * Z * nat)) (y : Server * list work) : (Server * list work) + fault :=
  match l with
  | [] => inl y
  | (addr, status, i) :: l' => match advance addr status i y with inl y => schedule l' y | inr f => inr f end
  end.

Definition with_two_viewers (l : list live_event) : Server :=
  match run_events ([connects 4096 5; connects 4097 6] ++ l) (new_server 100000) with inl (_, s) => s | inr _ => new_server 0 end.

(** A viewer has found the room and given up the lock; before he joins, the camera goes
    offline and another request deletes the room. *)
Example join_deleted_room :
  schedule [(513, 200, 0%nat); (513, 200, 0%nat); (514, 101, 1%nat); (514, 101, 1%nat); (513, 200, 0%nat)]
    (with_two_viewers [asks 512 102 5 join_a], [Requested 6 join_a; Requested 5 join_a]) = inr OutOfBounds.
Proof. vm_compute. reflexivity. Qed.

(** Two viewers start the same stream: the second room takes the place of the first,
    whose viewer is in no room of the table and hears nothing any more. *)
Example rooms_overwritten :
  match schedule [(512, 102, 0%nat); (512, 102, 0%nat); (513, 102, 1%nat); (513, 102, 1%nat); (512, 102, 0%nat); (513, 102, 0%nat)]
    (with_two_viewers [], [Requested 5 join_a; Requested 6 join_a]) with
  | inl (s, ws) => Some (watchers s, users_ <$> pm_room_heap (ws_derived s) !! 512, length ws)
  | inr _ => None
  end = Some ([(room_a, [6])], Some [5], 0%nat).
Proof. vm_compute. reflexivity. Qed.

(** ** The socket and the adapter *)

(** A message that [lws_write] refuses is gone. *)
Example failed_write_loses :
  match run_events [connects 4096 5; asks 512 102 5 (json "{'cmd':300}"); Library (SERVER_WRITEABLE 5 [-1])] (new_server 0) with
  | inl (_, s) => Some (cn_buffer <$> viewers s !! 5, ws_written s)
  | inr _ => None
  end = Some (Some [], [(5, code_text 302, -1)]).
Proof. vm_compute. reflexivity. Qed.

(** A token longer than the protocol allows would run over the buffer of a message. *)
Example long_token_overflows :
  observe [connects 4096 5; Request 512 102 (mk_start 0 [] (repeat 1 160)) 5 join_a] = inr OutOfBounds.
Proof. vm_compute. reflexivity. Qed.
