(* ===== verification/LiveLocks.v ===== *)
(** * LiveLocks: the locks of the live rooms

    Four kinds of locks are at work: [slocker_] of the server over the table of
    connections, [roomlock_] over the table of rooms, the lock of each room and that of
    each connection.  An operation is the sequence in which it takes and gives up locks,
    with the rooms and connections that it comes across as arguments; threads that run
    such sequences are interleaved. *)
From stdpp Require Import base list sets.
From S2P Require Import Prelude.

Inductive lock :=
  | Conns              (* [WebSocketServer::slocker_] *)
  | Rooms              (* [PlayMngr::roomlock_] *)
  | Room (p : Z)       (* [LiveRoom::slocker_] *)
  | Conn (p : Z).      (* [Connection::locker] *)

#[export] Instance lock_eq_dec : EqDecision lock.
Proof. solve_decision. Defined.

Inductive action := Acquire (l : lock) | Release (l : lock).

Definition locked (l : lock) (body : list action) : list action := [Acquire l] ++ body ++ [Release l].

(** ** Sequences *)

(** The connection is looked up; [c] is what was found. *)
Definition found (c : option Z) (f : Z -> list action) : list action :=
  match c with Some p => f p | None => [] end.

Definition value_locks : list action := locked Conns [].   (* [setValue], [getValue], [updateTimestamp] *)
Definition remove_locks : list action := locked Conns [].
Definition send_locks (c : option Z) : list action := locked Conns [] ++ found c (fun p => locked (Conn p) []).
Definition room_locks (p : Z) : list action := locked (Room p) [].   (* [join], [quit], [size], [show_users] *)
Definition leave_locks (room : option Z) : list action := locked Rooms (found room room_locks).

Definition connect_locks : list action := locked Conns [] ++ value_locks ++ value_locks.
Definition disconnect_locks (room : option Z) : list action := value_locks ++ leave_locks room ++ remove_locks.
Definition writeable_locks (p : Z) (n : nat) : list action := concat (repeat (locked (Conn p) []) n).

(** [rooms]: the room of each connection that has timed out. *)
Definition check_state_locks (rooms : list (option Z)) : list action := locked Conns (concat (map leave_locks rooms)).

(** Each room is asked for its size and, unless it is deleted, shown; [rooms] says which
    ones are deleted.  The locks that [stop_play] takes belong to the adapters, who never
    call the live rooms. *)
Definition check_rooms_locks (rooms : list (Z * bool)) : list action :=
  locked Rooms (concat (map (fun r : Z * bool => room_locks r.1 ++ if r.2 then [] else room_locks r.1) rooms)).

Definition joined_locks (c : option Z) : list action := send_locks c ++ value_locks ++ value_locks.
Definition join_locks (room : option Z) (c : option Z) : list action :=
  locked Rooms [] ++ found room room_locks ++ joined_locks c.
(** A stream is started: a room that was left over is deleted under [roomlock_], the new one
    is entered under it.  (A camera that is offline or does not start: the locks of leaving
    no room.) *)
Definition start_locks (p : Z) (c : option Z) : list action :=
  locked Rooms [] ++ room_locks p ++ locked Rooms [] ++ joined_locks c.
Definition quit_locks (room : option Z) (c : option Z) : list action :=
  locked Rooms [] ++ found room (fun p => room_locks p ++ value_locks) ++ send_locks c.
Definition heartbeat_locks (c : option Z) : list action := value_locks ++ value_locks ++ send_locks c.

(** [NotifyHls] sends to every user of the room under the lock of the room. *)
Definition hls_locks (p : Z) (users : list (option Z)) : list action :=
  locked Rooms [] ++ room_locks p ++ locked (Room p) (concat (map send_locks users)).

Inductive operation :=
  | Op_connect | Op_disconnect (room : option Z) | Op_writeable (p : Z) (n : nat) | Op_remove
  | Op_check_state (rooms : list (option Z)) | Op_check_rooms (rooms : list (Z * bool))
  | Op_join (room c : option Z) | Op_start (p : Z) (c : option Z) | Op_quit (room c : option Z) | Op_heartbeat (c : option Z)
  | Op_hls (p : Z) (users : list (option Z)).

Definition locks_of (o : operation) : list action :=
  match o with
  | Op_connect => connect_locks
  | Op_disconnect room => disconnect_locks room
  | Op_writeable p n => writeable_locks p n
  | Op_remove => remove_locks
  | Op_check_state rooms => check_state_locks rooms
  | Op_check_rooms rooms => check_rooms_locks rooms
  | Op_join room c => join_locks room c
  | Op_start p c => start_locks p c
  | Op_quit room c => quit_locks room c
  | Op_heartbeat c => heartbeat_locks c
  | Op_hls p users => hls_locks p users
  end.

(** ** Threads *)

Record thread := mk_thread { th_held : list lock; th_todo : list action }.

Definition is_free (l : lock) (ts : list thread) : Prop := Forall (fun t => l ∉ th_held t) ts.

(** A mutex is not recursive: its owner waits for himself, too. *)
Inductive lock_step : list thread -> list thread -> Prop :=
  | step_acquire ts i held l todo :
      ts !! i = Some (mk_thread held (Acquire l :: todo)) -> is_free l ts ->
      lock_step ts (<[i := mk_thread (l :: held) todo]> ts)
  | step_release ts i held l todo :
      ts !! i = Some (mk_thread held (Release l :: todo)) ->
      lock_step ts (<[i := mk_thread (filter (fun k => k <> l) held) todo]> ts).

Inductive lock_steps : list thread -> list thread -> Prop :=
  | steps_none ts : lock_steps ts ts
  | steps_more ts ts' ts'' : lock_step ts ts' -> lock_steps ts' ts'' -> lock_steps ts ts''.

Definition start_thread (os : list operation) : thread := mk_thread [] (concat (map locks_of os)).
Definition finished (t : thread) : Prop := th_todo t = [].

(** ** The order of the locks *)

Definition rank (l : lock) : nat := match l with Conns => 0 | Rooms => 1 | Room _ => 2 | Conn _ => 3 end.

(** Locks are taken in ascending order, given up in the opposite one, and none is kept. *)
Fixpoint ordered (held : list lock) (todo : list action) : Prop :=
  match todo with
  | [] => held = []
  | Acquire l :: todo' => Forall (fun k => (rank k < rank l)%nat) held /\ ordered (l :: held) todo'
  | Release l :: todo' => match held with k :: held' => k = l /\ Forall (fun k => k <> l) held' /\ ordered held' todo' | [] => False end
  end.

(** A piece of a sequence that leaves the locks as it found them. *)
Definition tidy (n : nat) (body : list action) : Prop :=
  forall held rest, Forall (fun k => (rank k < n)%nat) held -> ordered held rest -> ordered held (body ++ rest).

Lemma tidy_nil n : tidy n [].
Proof. by intros held rest. Qed.

Lemma tidy_app n b1 b2 : tidy n b1 -> tidy n b2 -> tidy n (b1 ++ b2).
Proof. intros H1 H2 held rest Hh Hr. rewrite <-app_assoc. by apply H1, H2. Qed.

Lemma tidy_mono n m body : (n <= m)%nat -> tidy m body -> tidy n body.
Proof. intros Hn H held rest Hh. apply H. eapply Forall_impl; [exact Hh|]. intros k Hk. cbn in *. lia. Qed.

Lemma tidy_locked n l body : (n <= rank l)%nat -> tidy (S (rank l)) body -> tidy n (locked l body).
Proof.
  intros Hn Hb held rest Hh Hr. unfold locked. rewrite <-!app_assoc. cbn [app ordered].
  assert (Hl : Forall (fun k => (rank k < rank l)%nat) held) by (eapply Forall_impl; [exact Hh|]; intros k Hk; cbn in *; lia).
  split; [done|]. apply Hb.
  - constructor; [lia|]. eapply Forall_impl; [exact Hl|]. intros k Hk. cbn in *. lia.
  - cbn [ordered]. split; [done|]. split; [|done]. eapply Forall_impl; [exact Hl|]. intros k Hk ->. cbn in Hk. lia.
Qed.

Lemma tidy_concat {A} n (f : A -> list action) l : (forall x, tidy n (f x)) -> tidy n (concat (map f l)).
Proof. intros H. induction l as [|x l IH]; cbn; [apply tidy_nil|by apply tidy_app]. Qed.

Lemma tidy_found n c f : (forall p, tidy n (f p)) -> tidy n (found c f).
Proof. destruct c; cbn; [auto|intros _; apply tidy_nil]. Qed.

Ltac tidy_up :=
  repeat first [ progress unfold room_locks, value_locks, leave_locks, send_locks, joined_locks, remove_locks
               | apply tidy_nil | apply tidy_locked; [cbn; lia|] | apply tidy_app | apply tidy_found; intros ?
               | apply tidy_concat; intros ? | case_match ].

Definition not_hls (o : operation) : Prop := match o with Op_hls _ _ => False | _ => True end.

Lemma tidy_operation o : not_hls o -> tidy 0 (locks_of o).
Proof.
  destruct o as [|room|p n| |rooms|rooms|room c|p c|room c|c|p users]; cbn [locks_of not_hls]; intros H; [..|done].
  - unfold connect_locks. tidy_up.
  - unfold disconnect_locks. tidy_up.
  - unfold writeable_locks. clear H. induction n as [|n IH]; cbn [repeat concat]; [apply tidy_nil|]. apply tidy_app; [tidy_up|done].
  - tidy_up.
  - unfold check_state_locks. tidy_up.
  - unfold check_rooms_locks. tidy_up.
  - unfold join_locks. tidy_up.
  - unfold start_locks. tidy_up.
  - unfold quit_locks. tidy_up.
  - unfold heartbeat_locks. tidy_up.
Qed.

Lemma start_ordered os : Forall not_hls os -> ordered (th_held (start_thread os)) (th_todo (start_thread os)).
Proof.
  intros H. cbn. rewrite <-(app_nil_r (concat _)).
  assert (Ht : tidy 0 (concat (map locks_of os))); [|by apply Ht].
  induction H; cbn; [apply tidy_nil|]. apply tidy_app; [by apply tidy_operation|done].
Qed.

(** ** Threads in order do not wait for each other for ever *)

Definition in_order (ts : list thread) : Prop := Forall (fun t => ordered (th_held t) (th_todo t)) ts.

Lemma in_order_step ts ts' : in_order ts -> lock_step ts ts' -> in_order ts'.
Proof.
  intros Ho H. destruct H as [ts i held l todo Hi Hf|ts i held l todo Hi]; pose proof (Forall_lookup_1 _ _ _ _ Ho Hi) as Ht;
    cbn in Ht; apply Forall_insert; try done; cbn.
  - by destruct Ht.
  - destruct held as [|k held]; [done|]. destruct Ht as (-> & Hne & Ht). rewrite filter_cons_False by tauto.
    by rewrite filter_keeps.
Qed.

Lemma in_order_steps ts ts' : in_order ts -> lock_steps ts ts' -> in_order ts'.
Proof. intros Ho H. induction H as [|ts ts' ts'' Hs H IH]; [done|]. by eapply IH, in_order_step. Qed.

(** Whoever waits waits for one who holds a lower lock than he waits for himself. *)
Lemma waiting_steps n ts i held l todo :
  in_order ts -> ts !! i = Some (mk_thread held (Acquire l :: todo)) -> (4 - rank l <= n)%nat -> exists ts', lock_step ts ts'.
Proof.
  revert i held l todo. induction n as [|n IH]; intros i held l todo Ho Hi Hn; [destruct l; cbn in Hn; lia|].
  destruct (decide (is_free l ts)) as [Hf|Hf]; [eexists; by eapply step_acquire|].
  unfold is_free in Hf. apply not_Forall_Exists in Hf; [|intros t; apply _].
  apply Exists_exists in Hf as (t & Ht & Hl). apply list_elem_of_lookup in Ht as [j Hj].
  assert (Hl' : l ∈ th_held t) by (destruct (decide (l ∈ th_held t)); [done|by destruct Hl]).
  pose proof (Forall_lookup_1 _ _ _ _ Ho Hj) as Hto. destruct t as [held2 [|[l2|l2] todo2]]; cbn in *.
  - subst held2. by apply elem_of_nil in Hl'.
  - destruct Hto as [Hr _]. rewrite Forall_forall in Hr. specialize (Hr l Hl'). apply (IH j held2 l2 todo2 Ho Hj). lia.
  - eexists. by eapply step_release.
Qed.

Lemma progress ts : in_order ts -> Forall finished ts \/ exists ts', lock_step ts ts'.
Proof.
  intros Ho. destruct (decide (Forall finished ts)) as [|Hn]; [by left|right].
  apply not_Forall_Exists in Hn; [|intros t; unfold finished; apply _].
  apply Exists_exists in Hn as (t & Ht & Hf). apply list_elem_of_lookup in Ht as [i Hi].
  destruct t as [held [|[l|l] todo]]; [by destruct Hf| |eexists; by eapply step_release].
  eapply (waiting_steps 4); [done|exact Hi|lia].
Qed.

(** Each step does one action. *)
Definition actions_left (ts : list thread) : nat := sum_list_with (fun t => length (th_todo t)) ts.

Lemma actions_insert ts i t t' :
  ts !! i = Some t -> length (th_todo t) = S (length (th_todo t')) -> actions_left ts = S (actions_left (<[i := t']> ts)).
Proof.
  intros Hi E. unfold actions_left. revert i Hi. induction ts as [|x ts IH]; intros [|i] Hi; cbn in *; try done.
  - injection Hi as ->. lia.
  - rewrite (IH i Hi). by rewrite Nat.add_succ_r.
Qed.

Lemma actions_step ts ts' : lock_step ts ts' -> actions_left ts = S (actions_left ts').
Proof. intros H. destruct H; by eapply actions_insert. Qed.

(** C17. Threads that run any sequences of operations other than [NotifyHls] never
    deadlock: under every schedule there is a next step until all of them are done, and
    they are done after as many steps as they have actions on locks. *)
Theorem no_deadlock threads ts :
  Forall (Forall not_hls) threads -> lock_steps (map start_thread threads) ts ->
  (Forall finished ts \/ exists ts', lock_step ts ts') /\ (actions_left ts <= actions_left (map start_thread threads))%nat /\
  forall ts', lock_step ts ts' -> (actions_left ts' < actions_left ts)%nat.
Proof.
  intros Ht H. assert (Ho : in_order (map start_thread threads)).
  { apply Forall_map. eapply Forall_impl; [exact Ht|]. intros os. apply start_ordered. }
  split; [by apply progress; eapply in_order_steps|]. split; [|intros ts' Hs; apply actions_step in Hs; lia].
  clear Ho Ht. induction H as [|ts1 ts2 ts3 Hs H IH]; [done|]. apply actions_step in Hs. lia.
Qed.

Definition two_viewers : list (list operation) :=
  [[Op_check_state [Some 512; None]; Op_check_rooms [(512, false)]]; [Op_join (Some 512) (Some 4096); Op_disconnect (Some 512)]].

Lemma no_deadlock_witness :
  Forall (Forall not_hls) two_viewers /\
  (Forall finished (map start_thread two_viewers) \/ exists ts', lock_step (map start_thread two_viewers) ts') /\
  actions_left (map start_thread two_viewers) = 34%nat.
Proof.
  assert (H : Forall (Forall not_hls) two_viewers) by (repeat constructor).
  split; [exact H|]. split; [|by vm_compute]. exact (proj1 (no_deadlock two_viewers _ H (steps_none _))).
Defined.

(** With [NotifyHls] there is a deadlock: a stream that gets ready while a viewer of its
    room has just timed out stops the server.  The one thread holds the lock of the room
    and waits for that of the connections, the other the reverse. *)
Definition ready_and_timeout : list thread := [start_thread [Op_hls 512 [Some 4096]]; start_thread [Op_check_state [Some 512]]].

Definition stuck : list thread :=
  [mk_thread [Room 512] ([Acquire Conns; Release Conns] ++ locked (Conn 4096) [] ++ [Release (Room 512)]);
   mk_thread [Rooms; Conns] [Acquire (Room 512); Release (Room 512); Release Rooms; Release Conns]].

Lemma hls_deadlocks :
  lock_steps ready_and_timeout stuck /\ ~ Forall finished stuck /\ forall ts', ~ lock_step stuck ts'.
Proof.
  split; [|split].
  - eapply steps_more; [by apply (step_acquire _ 0 [] Rooms); [reflexivity|repeat constructor; apply not_elem_of_nil]|].
    eapply steps_more; [by apply (step_release _ 0 [Rooms] Rooms)|].
    eapply steps_more; [by apply (step_acquire _ 0 [] (Room 512)); [reflexivity|repeat constructor; apply not_elem_of_nil]|].
    eapply steps_more; [by apply (step_release _ 0 [Room 512] (Room 512))|].
    eapply steps_more; [by apply (step_acquire _ 0 [] (Room 512)); [reflexivity|repeat constructor; apply not_elem_of_nil]|].
    eapply steps_more; [apply (step_acquire _ 1 [] Conns); [reflexivity|repeat constructor; cbn; set_solver]|].
    eapply steps_more; [apply (step_acquire _ 1 [Conns] Rooms); [reflexivity|repeat constructor; cbn; set_solver]|].
    apply steps_none.
  - intros H%Forall_cons. by destruct H as [H _].
  - intros ts' H. inversion H as [ts i held l todo Hi Hf|ts i held l todo Hi]; subst;
      destruct i as [|[|i]]; cbn in Hi; simplify_eq; unfold is_free in Hf;
      repeat (apply Forall_cons in Hf as [? Hf]); cbn in *; set_solver.
Qed.
