(* ===== verification/Service.v ===== *)
(** * Service: the web side, the adapters and the live rooms together

    [AdapterService] of [AdapterService.cpp]: the interface that the live rooms ask
    ([check_play_status], [start_play], [stop_play]), the handlers of HTTP requests,
    start-up and shut-down; and the loop of [main.cpp].

    A handler gets the request and the response of the HTTP server and works on the
    objects of the service; [None] is a [NULL] pointer.  What the database, the clock,
    [rand], [new] and the network yield are inputs, as in [Adapter]; a request to an
    adapter is answered before anything else happens. *)
From stdpp Require Import gmap.
From S2P Require Import Prelude Control Streams JsonValue JsonWriter JsonReader SimParam SimRequest SimResponse.
From S2P Require Import Messages CmsClient Adapter Database WebSocket LiveRooms.

Record AdapterService := mk_service {
  sv_adapters : option TcpServer;   (* behind pAdapterServer_ *)
  sv_play : option Server;          (* pPlayMngr_ *)
}.

Definition SV (A : Type) : Type := AdapterService -> (A * AdapterService) + fault.

Definition adapters {A} (f : TcpServer -> (A * TcpServer) + fault) : SV A := fun sv =>
  match sv_adapters sv with
  | None => inr OutOfBounds
  | Some s => match f s with inl (a, s) => inl (a, mk_service (Some s) (sv_play sv)) | inr e => inr e end
  end.

Definition play {A} (m : PM A) : SV A := fun sv =>
  match sv_play sv with
  | None => inr OutOfBounds
  | Some s => match m s with inl (a, s) => inl (a, mk_service (sv_adapters sv) (Some s)) | inr (e, _) => inr e end
  end.

(** ** The interface to the live rooms *)

Definition check_play_status (cmsid devid : list Z) : SV Z := fun sv =>
  match sv_adapters sv with
  | None => inl (-1, sv)
  | Some _ => adapters (CheckStatus cmsid devid) sv
  end.

(** What becomes of a request to an adapter: it could not be sent; or it was, and this is
    the structure that came back, if one did. *)
Inductive notice := Unsent | Sent (resp : option (list Z)).

Definition finish_notice (network : list Z)
  (finish : Z -> list Z -> option (list Z) -> CMSClient -> (push_answer * CMSClient) + fault)
  (n : notice) (st : Z * push_step) (s : TcpServer) : (push_answer * TcpServer) + fault :=
  match st.2, n with
  | Push_answered a, _ => inl (a, s)
  | Push_waiting _ _ _, Unsent =>
      match after_send false st.1 s with inl s => inl (mk_answer (-1) network [], s) | inr f => inr f end
  | Push_waiting pItem key _, Sent resp => with_client st.1 (finish pItem key resp) s
  end.

Definition NotifyStartPush (db_ret seq : Z) (rands : list Z) (n : notice) (cmsid devid : list Z) (s : TcpServer)
  : (push_answer * TcpServer) + fault :=
  match AS_NotifyStartPush db_ret seq rands cmsid devid s with
  | inl (st, s) => finish_notice (bytes "network error!") NotifyPush_end n st s
  | inr f => inr f
  end.

Definition NotifyStopPush (seq : Z) (n : notice) (cmsid devid : list Z) (s : TcpServer)
  : (push_answer * TcpServer) + fault :=
  match AS_NotifyStopPush seq cmsid devid s with
  | inl (st, s) =>
      finish_notice (bytes "adapter client network error!") (fun pItem _ => NotifyStopPush_end pItem) n st s
  | inr f => inr f
  end.

Definition quitting : push_answer := mk_answer (-1) (bytes "system quit!") [].

Definition start_play (db_ret seq : Z) (rands : list Z) (n : notice) (cmsid devid : list Z) : SV push_answer := fun sv =>
  match sv_adapters sv with
  | None => inl (quitting, sv)
  | Some _ => adapters (NotifyStartPush db_ret seq rands n cmsid devid) sv
  end.

Definition stop_play (seq : Z) (n : notice) (cmsid devid : list Z) : SV push_answer := fun sv =>
  match sv_adapters sv with
  | None => inl (quitting, sv)
  | Some _ => adapters (NotifyStopPush seq n cmsid devid) sv
  end.

(** What the live rooms see of an answer. *)
Definition as_start (a : push_answer) : start_answer := mk_start (pa_ret a) (pa_result a) (pa_token a).

(** ** Viewers

    The requests of [PlayMngr] with the service behind [handler_]: what it answers is no
    input any more.  [addr] is the address of a new room; [db_ret] to [n] are the inputs
    of [start_play]. *)
#[export] Instance sv_ret : MRet SV := fun A a sv => inl (a, sv).
#[export] Instance sv_bind : MBind SV := fun A B f m sv =>
  match m sv with inl (a, sv) => f a sv | inr e => inr e end.

Section Viewers.
Context {D : Doubles}.

Definition viewer_joins (addr db_ret seq : Z) (rands : list Z) (n : notice) (fd : Z) (cmsid devid : list Z) : SV Z :=
  status ← check_play_status cmsid devid;
  next ← play (join_status fd cmsid devid status);
  match next with
  | Join_returns ret => mret ret
  | Join_starts =>
      a ← start_play db_ret seq rands n cmsid devid;
      play (join_started addr fd cmsid devid (as_start a))
  | Join_enters p => play (join_enters fd cmsid devid p)
  end.

Definition viewer_quits (fd : Z) (cmsid devid : list Z) : SV Z :=
  status ← check_play_status cmsid devid;
  next ← play (quit_status fd cmsid devid status);
  match next with
  | Quit_returns => mret 0
  | Quit_leaves pRoom => _ ← play (quit_leaves fd pRoom); mret 0
  end.

Definition viewer_request (addr db_ret seq : Z) (rands : list Z) (n : notice) (fd : Z) (cmdline : list Z) : SV Z :=
  r ← play (lift_fault (read_request cmdline));
  match r with
  | Rq_join cmsid devid => viewer_joins addr db_ret seq rands n fd cmsid devid
  | Rq_quit cmsid devid => viewer_quits fd cmsid devid
  | Rq_heartbeat => play (heartbeat_request fd)
  | Rq_bad => _ ← play (removeConnection fd); mret (-1)
  end.
End Viewers.

(** ** The handlers *)
Section Handlers.
Context {D : Doubles}.

(** [response.set_body(root)]; [_body] becomes the styled text of the value. *)
Definition set_body (root : Value) (res : Response) : Response + fault :=
  match toStyledString root with inl t => inl (set_strbody t res) | inr f => inr f end.

Definition body_text (t : list Z + fault) (res : Response) : Response + fault :=
  match t with inl t => inl (set_strbody t res) | inr f => inr f end.

(** The text that a method of [AdapterServer] returns; [more] are the members that a
    successful query adds. *)
Definition web_text (more : list (string * Value)) (r : web_reply) : list Z + fault :=
  match r with
  | Web_empty => inl []
  | Web_invalid => inl INVALID
  | Web_json n desc => styled_text ([code n; result desc] ++ if n =? 100 then more else [])
  end.

(** [root = text; response.set_body(root)]: the text becomes a JSON string. *)
Definition set_text (more : list (string * Value)) (r : web_reply) (res : Response) : Response + fault :=
  match web_text more r with
  | inl t => set_body (of_string t) res
  | inr f => inr f
  end.

Definition respond {A} (m : SV A) (f : A -> Response + fault) : SV Response := fun sv =>
  match m sv with
  | inl (a, sv) => match f a with inl res => inl (res, sv) | inr e => inr e end
  | inr e => inr e
  end.

Definition param (req : Request) (name : string) : list Z := request_get_param req (bytes name).

(** [num] and [list] are what the database has found. *)
Definition HandleGetCMSClientList (db_ret num : Z) (list : list Z) (req : Request) (res : Response) : SV Response :=
  respond (adapters (fun s => inl (GetCMSClientList db_ret (param req "kid"), s)))
    (fun r => set_text [("num"%string, of_int num); ("list"%string, of_string list)] r res).

Definition HandleGetCMSClientInfo (db_ret num : Z) (devs : Value) (req : Request) (res : Response) : SV Response :=
  respond (adapters (fun s => inl (GetCMSClientInfo db_ret (param req "kid") (param req "cmsid"), s)))
    (fun r => set_text [("num"%string, of_int num); ("list"%string, devs)] r res).

Definition invalid_param : list (string * Value) := [code 200; result (bytes "param invalid!")].

Definition HandlePush (db_ret seq : Z) (rands : list Z) (n : notice) (req : Request) (res : Response) : SV Response :=
  let cmsid := param req "cmsid" in
  let devid := param req "devid" in
  if empty cmsid || empty devid then respond (fun sv => inl (tt, sv)) (fun _ => body_text (styled_text invalid_param) res)
  else
    respond (adapters (NotifyStartPush db_ret seq rands n cmsid devid)) (fun a =>
      body_text (styled_text
        (if negb (pa_ret a =? 0) then [code 200; result (pa_result a)]
         else [code 100; result (pa_result a); ("token"%string, of_string (pa_token a))])) res).

Definition HandleStopPush (seq : Z) (n : notice) (req : Request) (res : Response) : SV Response :=
  let cmsid := param req "cmsid" in
  let devid := param req "devid" in
  if empty cmsid || empty devid then respond (fun sv => inl (tt, sv)) (fun _ => body_text (styled_text invalid_param) res)
  else
    respond (adapters (NotifyStopPush seq n cmsid devid)) (fun a =>
      body_text (styled_text
        (if negb (pa_ret a =? 0) then [code 200; result (bytes "notify stop push stream fail!")]
         else [code 100; result (pa_result a)])) res).

Definition HandleRegistCMSClient (db_ret : Z) (req : Request) (res : Response) : SV Response :=
  respond (adapters (fun s => inl (RegistCMSClientAccount db_ret (param req "kid") (param req "password") (param req "name"), s)))
    (fun r => set_text [] r res).

Definition HandleWriteoffCMSClient (req : Request) (res : Response) : SV Response :=
  respond (adapters (WriteoffCMSClientAccount (param req "cmsid"))) (fun r => set_text [] r res).

Definition HandleModifyCMSClient (db_ret : Z) (req : Request) (res : Response) : SV Response :=
  respond (adapters (fun s =>
      inl (ModifyCMSClientAccount db_ret (param req "kid") (param req "cmsid") (atoi (str (param req "type"))) (param req "value"), s)))
    (fun r => set_text [] r res).

(** The three operations on cameras: a [clienttype] of 1 is answered, any other one only
    tells the adapter. *)
Definition camera_handler (req : Request) (res : Response) (f : bool -> TcpServer -> (web_reply * TcpServer) + fault) : SV Response :=
  if bool_decide (param req "clienttype" = bytes "1")
  then respond (adapters (f false)) (fun r => set_text [] r res)
  else respond (adapters (f true)) (fun _ => inl res).

Definition HandleAddCamera (db_ret addr seq : Z) (sent : bool) (req : Request) (res : Response) : SV Response :=
  camera_handler req res (fun fromweb =>
    AS_AddCamera fromweb db_ret addr seq sent (param req "kid") (param req "cmsid") (param req "devid") (param req "name")
      (atoi (str (param req "allday"))) (param req "time_sec0") (param req "time_sec1")).

Definition HandleDelCamera (db_ret seq : Z) (sent : bool) (req : Request) (res : Response) : SV Response :=
  camera_handler req res (fun fromweb =>
    AS_DelCamera fromweb db_ret seq sent (param req "kid") (param req "cmsid") (param req "devid")).

Definition HandleModifyCamera (db_ret : Z) (req : Request) (res : Response) : SV Response :=
  camera_handler req res (fun fromweb =>
    AS_ModifyCamera fromweb db_ret (param req "kid") (param req "cmsid") (param req "devid") (param req "name")
      (atoi (str (param req "allday"))) (param req "time_sec0") (param req "time_sec1")).

(** *** The callbacks of the media server *)

(** [str.find(pattern)]; [npos] is the largest [size_t]. *)
Fixpoint find_from (pattern l : list Z) (i : Z) : Z :=
  if is_prefix pattern l then i
  else match l with [] => 2 ^ 64 - 1 | _ :: l' => find_from pattern l' (i + 1) end.
Definition find (pattern l : list Z) : Z := s32 (find_from pattern l 0).

(** [str.substr(pos)] with an [int] *)
Definition substr_from (l : list Z) (pos : Z) : list Z + fault := substr l (uwrap 64 pos) (zlen l).

Definition CheckPushParser (src : list Z) : option (list Z * list Z * list Z) + fault :=
  let pos1 := find (bytes "cmsid=") src in
  if pos1 =? -1 then inl None
  else
    match substr_from src (pos1 + 6) with
    | inr f => inr f
    | inl tmp =>
        let pos2 := find (bytes "&devid=") tmp in
        if pos2 =? -1 then inl None
        else
          match substr tmp 0 (uwrap 64 pos2), substr_from tmp (pos2 + 7) with
          | inr f, _ | _, inr f => inr f
          | inl cmsid, inl tmp =>
              let pos3 := find (bytes "&key=") tmp in
              if pos3 =? -1 then inl None
              else
                match substr tmp 0 (uwrap 64 pos3), substr_from tmp (pos3 + 5) with
                | inr f, _ | _, inr f => inr f
                | inl devid, inl key => inl (Some (cmsid, devid, key))
                end
          end
    end.

(** [value[name].asString()] of the body, which is read up to a NUL; [None] if it is not
    JSON.  Nobody catches what [asString] throws. *)
Definition body_member (name : string) (req : Request) : option (list Z) + fault :=
  match parse true (c_text (rb_raw_string (rq_body req))) Value_null with
  | inr (Faults f) => inr f
  | inr (Throws _) => inr Uncaught
  | inl (ok, value, _) =>
      if negb (ok : bool) then inl None
      else
        match (x ← fetch_member (bytes name) value; asString (x : Value * Value).1) with
        | inl t => inl (Some t)
        | inr (Throws _) => inr Uncaught
        | inr (Faults f) => inr f
        end
  end.

Definition HandleHls (req : Request) (res : Response) : SV Response := fun sv =>
  match body_member "stream" req with
  | inr f => inr f
  | inl None => inl (res, sv)
  | inl (Some token) => respond (play (NotifyHls token)) (fun _ => inl res) sv
  end.

Definition HandlePushCheck (req : Request) (res : Response) : SV Response := fun sv =>
  match body_member "tcUrl" req with
  | inr f => inr f
  | inl None => inl (set_strbody (bytes "1") res, sv)
  | inl (Some tcUrl) =>
      match CheckPushParser tcUrl with
      | inr f => inr f
      | inl None => inl (set_strbody (bytes "1") res, sv)
      | inl (Some (cmsid, devid, key)) =>
          respond (adapters (AS_CheckPush cmsid devid key)) (fun t => inl (set_strbody t res)) sv
      end
  end.
End Handlers.

(** ** Start-up and shut-down

    Which of the objects exist; what each step of the start answers. *)
Record Objects := mk_objects {
  ob_exit : bool;
  ob_mysql : bool; ob_pool : bool; ob_http : bool; ob_adapters : bool; ob_play : bool;
}.

Definition AdapterService_new : Objects := mk_objects true false false false false false.

Record start_results := mk_starts {
  sr_init : Z; sr_open : Z; sr_pool : Z; sr_http : Z; sr_adapters : Z; sr_play : Z;
}.

Definition Stop (o : Objects) : Objects := mk_objects true false false false false false.

(** The [do ... while(0)]: [iRet] and the objects made so far. *)
Definition start_objects (r : start_results) (o : Objects) : Z * Objects :=
  let o := mk_objects (ob_exit o) true (ob_pool o) (ob_http o) (ob_adapters o) (ob_play o) in
  if negb (sr_init r =? 0) then (-4, o)
  else if negb (sr_open r =? 0) then (-4, o)
  else
    let o := mk_objects (ob_exit o) (ob_mysql o) true (ob_http o) (ob_adapters o) (ob_play o) in
    if negb (sr_pool r =? 0) then (0, o)
    else
      let o := mk_objects (ob_exit o) (ob_mysql o) (ob_pool o) true (ob_adapters o) (ob_play o) in
      if negb (sr_http r =? 0) then (-3, o)
      else
        let o := mk_objects (ob_exit o) (ob_mysql o) (ob_pool o) (ob_http o) true (ob_play o) in
        if negb (sr_adapters r =? 0) then (-4, o)
        else
          let o := mk_objects (ob_exit o) (ob_mysql o) (ob_pool o) (ob_http o) (ob_adapters o) true in
          if negb (sr_play r =? 0) then (-6, o) else (0, o).

Definition Start (r : start_results) (o : Objects) : Z * Objects :=
  if negb (ob_exit o) then (-1, o)
  else
    let (iRet, o) := start_objects r o in
    if iRet <? 0 then (-1, Stop o)
    else (0, mk_objects false (ob_mysql o) (ob_pool o) (ob_http o) (ob_adapters o) (ob_play o)).

(** The loop of [main], which is to end when [quit] is typed: the condition assigns the
    result of the comparison to the array. *)
Fixpoint main_loop (input : list Z) (quit : list Z) (i : Z) : bool :=
  match input with
  | [] => false
  | c :: input' =>
      let b := if c =? chr "t" then 1 else 0 in
      let quit' := <[Z.to_nat (Z.land i 3) := b]> quit in
      let at_ k := default 0 (quit' !! Z.to_nat (Z.land (i + k) 3)) in
      if (b =? 1) && ((at_ 1 =? chr "q") && (at_ 2 =? chr "u") && (at_ 3 =? chr "i")) then true
      else main_loop input' quit' (i + 1)
  end.
