(* ===== verification/ServiceProps.v ===== *)
(** * ServiceProps: what the service promises as a whole

    A stream that the server has asked for is let through by the media server's check,
    whatever lies between; what the web side answers reads back; starting and stopping. *)
From stdpp Require Import gmap.
From S2P Require Import Prelude Control Streams JsonValue JsonWriter JsonReader JsonTrip JsonText JsonProps SimParam SimRequest SimResponse.
From S2P Require Import Messages TimeSection CmsClient CmsClientProps Adapter AdapterProps WebSocket LiveRooms LiveReplies Service.

(** ** The parameters of a push *)

(** A text in which a pattern does not occur. *)
Definition absent (pattern l : list Z) : Prop := forall a b, l <> a ++ pattern ++ b.

Lemma absent_tail pattern c l : absent pattern (c :: l) -> absent pattern l.
Proof. intros H a b ->. by apply (H (c :: a) b). Qed.

Lemma is_prefix_spec p l : is_prefix p l = true <-> exists b, l = p ++ b.
Proof.
  revert l. induction p as [|x p IH]; intros [|y l]; cbn; try (split; [eauto|done]); [split; [done|by intros [? ?]]|].
  rewrite andb_true_iff, Z.eqb_eq, IH. split; [intros [-> [b ->]]; by exists b|intros [b [= -> ->]]; eauto].
Qed.

(** A pattern whose first character does not recur in it is found where it first stands. *)
Lemma find_from_first p0 p l r i :
  p0 ∉ p -> absent (p0 :: p) l -> find_from (p0 :: p) (l ++ (p0 :: p) ++ r) i = i + zlen l.
Proof.
  intros Hp. revert i. induction l as [|c l IH]; intros i Ha.
  - cbn [app find_from]. rewrite (proj2 (is_prefix_spec _ _)) by (by exists r). unfold zlen. cbn. lia.
  - change ((c :: l) ++ (p0 :: p) ++ r) with (c :: (l ++ (p0 :: p) ++ r)). cbn [find_from].
    destruct (is_prefix (p0 :: p) (c :: l ++ (p0 :: p) ++ r)) eqn:E.
    + exfalso. apply is_prefix_spec in E as [b E]. injection E as -> E.
      apply app_eq_app in E as (k & [[-> E]|[-> E]]).
      * by apply (Ha [] k).
      * destruct k as [|x k]; [rewrite app_nil_r in Ha; by apply (Ha [] []); rewrite app_nil_r|].
        injection E as <- E. apply Hp. apply elem_of_app. right. left.
    + rewrite IH by (by eapply absent_tail). rewrite zlen_cons. lia.
Qed.

Lemma find_from_none p l i : i + zlen l < 2 ^ 64 - 1 -> find_from p l i = 2 ^ 64 - 1 -> absent p l.
Proof.
  revert i. induction l as [|c l IH]; intros i Hl; cbn [find_from]; destruct (is_prefix p _) eqn:E.
  1: change (zlen []) with 0 in Hl; lia.
  - intros _ [|? ?] b Eb; [|done]. by rewrite (proj2 (is_prefix_spec p [])) in E by eauto.
  - pose proof (zlen_nonneg (c :: l)). lia.
  - rewrite zlen_cons in Hl. intros H [|x a] b Eb; [by rewrite (proj2 (is_prefix_spec p (c :: l))) in E by eauto|].
    injection Eb as -> ->. by apply (IH (i + 1) ltac:(lia) H a b).
Qed.

Lemma find_from_some p l i :
  p <> [] -> find_from p l i <> 2 ^ 64 - 1 -> exists a b, l = a ++ p ++ b /\ absent p a /\ find_from p l i = i + zlen a.
Proof.
  intros Hp. revert i. induction l as [|c l IH]; intros i; cbn [find_from]; destruct (is_prefix p _) eqn:E.
  1, 3: intros _; apply is_prefix_spec in E as [b ->]; exists [], b; (split; [done|]); split; [|change (zlen []) with 0; lia];
    intros x y Ex; symmetry in Ex; apply app_eq_nil in Ex as [_ [? _]%app_eq_nil]; done.
  - done.
  - intros H. destruct (IH (i + 1) H) as (a & b & -> & Ha & ->). exists (c :: a), b. rewrite zlen_cons.
    split; [done|]. split; [|lia]. intros [|x x'] y Ex; [|injection Ex as -> ->; by apply (Ha x' y)].
    cbn in Ex. rewrite (proj2 (is_prefix_spec p _)) in E; [done|]. exists (y ++ p ++ b).
    change (c :: a ++ p ++ b) with ((c :: a) ++ p ++ b). by rewrite Ex, <-app_assoc.
Qed.

(** [find] as the code uses it: the place, or -1. *)
Lemma find_cases p l :
  p <> [] -> zlen l < 2 ^ 31 ->
  (find p l = -1 /\ absent p l) \/ exists a b, l = a ++ p ++ b /\ absent p a /\ find p l = zlen a.
Proof.
  intros Hp Hl. unfold find. destruct (Z.eq_dec (find_from p l 0) (2 ^ 64 - 1)) as [E|E].
  - left. split; [by rewrite E|]. by apply (find_from_none p l 0); [lia|].
  - right. destruct (find_from_some p l 0 Hp E) as (a & b & -> & Ha & Ef). exists a, b. split; [done|]. split; [done|].
    rewrite Ef. rewrite !zlen_app in Hl. pose proof (zlen_nonneg a). pose proof (zlen_nonneg p). pose proof (zlen_nonneg b).
    rewrite s32_small by lia. lia.
Qed.

(** A text has one first occurrence of such a pattern. *)
Lemma first_unique p0 p a b a' b' :
  p0 ∉ p -> absent (p0 :: p) a -> absent (p0 :: p) a' -> a ++ (p0 :: p) ++ b = a' ++ (p0 :: p) ++ b' -> a = a' /\ b = b'.
Proof.
  intros Hp Ha Ha' E. pose proof (find_from_first p0 p a b 0 Hp Ha) as H1. rewrite E in H1.
  rewrite (find_from_first p0 p a' b' 0 Hp Ha') in H1.
  assert (Hl : length a = length a') by (unfold zlen in H1; lia).
  apply app_inj_1 in E as [-> E]; [|done]. by apply app_inv_head in E as ->.
Qed.

Lemma substr_from_app a b : zlen (a ++ b) < 2 ^ 31 -> substr_from (a ++ b) (zlen a) = inl b.
Proof.
  intros H. pose proof (zlen_nonneg a). pose proof (zlen_nonneg b). rewrite zlen_app in H. unfold substr_from, substr.
  rewrite uwrap_small by lia. rewrite zlen_app, (proj2 (Z.ltb_ge _ _)) by lia. f_equal. unfold slice.
  rewrite zlen_to_nat, drop_app_length, take_ge; [done|]. unfold zlen. lia.
Qed.

Lemma substr_head a b : zlen a < 2 ^ 31 -> substr (a ++ b) 0 (uwrap 64 (zlen a)) = inl a.
Proof.
  intros H. pose proof (zlen_nonneg a). pose proof (zlen_nonneg b). unfold substr. rewrite uwrap_small by lia.
  rewrite zlen_app, (proj2 (Z.ltb_ge _ _)) by lia. f_equal. unfold slice. rewrite zlen_to_nat. cbn. apply take_app_length.
Qed.

Definition push_url (pre cmsid devid key : list Z) : list Z :=
  pre ++ bytes "cmsid=" ++ cmsid ++ bytes "&devid=" ++ devid ++ bytes "&key=" ++ key.

Definition url_parts (pre cmsid devid : list Z) : Prop :=
  absent (bytes "cmsid=") pre /\ absent (bytes "&devid=") cmsid /\ absent (bytes "&key=") devid.

(** One step of the parser: it finds a pattern and takes what is behind it. *)
Lemma find_step p src :
  p <> [] -> zlen src < 2 ^ 31 ->
  (find p src = -1 /\ absent p src) \/
  exists a b, src = a ++ p ++ b /\ absent p a /\ (find p src =? -1) = false /\
    substr src 0 (uwrap 64 (find p src)) = inl a /\ substr_from src (find p src + zlen p) = inl b /\ zlen b < 2 ^ 31.
Proof.
  intros Hp Hl. destruct (find_cases p src Hp Hl) as [H|(a & b & -> & Ha & ->)]; [by left|right]. exists a, b.
  assert (Hz : zlen (a ++ p ++ b) = zlen a + zlen p + zlen b) by (rewrite !zlen_app; lia).
  pose proof (zlen_nonneg a). pose proof (zlen_nonneg p). pose proof (zlen_nonneg b).
  split; [done|]. split; [done|]. split; [lia|]. split; [apply substr_head; lia|]. split; [|lia].
  rewrite app_assoc, <-zlen_app. apply substr_from_app. by rewrite <-app_assoc.
Qed.

Lemma CheckPushParser_cases src :
  zlen src < 2 ^ 31 ->
  (CheckPushParser src = inl None /\ forall pre c d k, url_parts pre c d -> src <> push_url pre c d k) \/
  exists pre c d k, CheckPushParser src = inl (Some (c, d, k)) /\ src = push_url pre c d k /\ url_parts pre c d.
Proof.
  intros Hl. unfold CheckPushParser, url_parts, push_url.
  destruct (find_step (bytes "cmsid=") src ltac:(done) Hl) as [[-> Hn]|(pre & t1 & -> & H1 & -> & _ & Es & Hl1)].
  { left. split; [done|]. intros pre c d k _ ->. by eapply Hn. }
  change (find _ _ + 6) with (find (bytes "cmsid=") (pre ++ bytes "cmsid=" ++ t1) + zlen (bytes "cmsid=")). rewrite Es. clear Es Hl.
  destruct (find_step (bytes "&devid=") t1 ltac:(done) Hl1) as [[-> Hn]|(c & t2 & -> & H2 & -> & Ec & Es & Hl2)].
  { left. split; [done|]. intros pre' c d k (P1 & _) E.
    apply (first_unique (chr "c") (bytes "msid=")) in E as [-> ->]; [by eapply Hn|by apply (bool_decide_unpack _)|done|done]. }
  change (find _ _ + 7) with (find (bytes "&devid=") (c ++ bytes "&devid=" ++ t2) + zlen (bytes "&devid=")). rewrite Ec, Es. clear Ec Es Hl1.
  destruct (find_step (bytes "&key=") t2 ltac:(done) Hl2) as [[-> Hn]|(d & k & -> & H3 & -> & Ed & Es & _)].
  { left. split; [done|]. intros pre' c' d k (P1 & P2 & _) E.
    apply (first_unique (chr "c") (bytes "msid=")) in E as [-> E]; [|by apply (bool_decide_unpack _)|done|done].
    apply (first_unique (chr "&") (bytes "devid=")) in E as [-> ->]; [by eapply Hn|by apply (bool_decide_unpack _)|done|done]. }
  change (find _ _ + 5) with (find (bytes "&key=") (d ++ bytes "&key=" ++ k) + zlen (bytes "&key=")). rewrite Ed, Es.
  right. by exists pre, c, d, k.
Qed.

Lemma url_unique pre c d k pre' c' d' k' :
  url_parts pre c d -> url_parts pre' c' d' -> push_url pre c d k = push_url pre' c' d' k' -> c = c' /\ d = d' /\ k = k'.
Proof.
  intros (H1 & H2 & H3) (H1' & H2' & H3') E.
  apply (first_unique (chr "c") (bytes "msid=")) in E as [_ E]; [|by apply (bool_decide_unpack _)|done|done].
  apply (first_unique (chr "&") (bytes "devid=")) in E as [-> E]; [|by apply (bool_decide_unpack _)|done|done].
  by apply (first_unique (chr "&") (bytes "key=")) in E as [-> ->]; [|by apply (bool_decide_unpack _)|..].
Qed.

Lemma parser_url pre c d k :
  zlen (push_url pre c d k) < 2 ^ 31 -> url_parts pre c d -> CheckPushParser (push_url pre c d k) = inl (Some (c, d, k)).
Proof.
  intros Hl Hp. destruct (CheckPushParser_cases _ Hl) as [[_ H]|(pre' & c' & d' & k' & -> & E & Hp')]; [by destruct (H pre c d k Hp)|].
  by destruct (url_unique _ _ _ _ _ _ _ _ Hp Hp' E) as (-> & -> & ->).
Qed.

(** ** A stream that has been asked for *)

Lemma GetClient_by p c s : server_ok s -> ts_heap s !! p = Some c -> GetClient (cc_cmsid c) s = inl (Some p).
Proof.
  intros Hs Hc. unfold GetClient. pose proof (find_client_ok (by_cmsid (cc_cmsid c)) s Hs) as H.
  destruct (find_client _ _ _) as [[q|]|]; [|specialize (H p c Hc); unfold by_cmsid in H; by rewrite bool_decide_true in H|done].
  destruct H as (d & Hd & E). unfold by_cmsid in E. apply bool_decide_eq_true in E. do 2 f_equal. by eapply (so_cmsids s Hs).
Qed.

Lemma GetClient_some cmsid p s : server_ok s -> GetClient cmsid s = inl (Some p) -> exists c, ts_heap s !! p = Some c /\ cc_cmsid c = cmsid.
Proof.
  intros Hs E. unfold GetClient in E. pose proof (find_client_ok (by_cmsid cmsid) s Hs) as H. rewrite E in H.
  destruct H as (c & Hc & Hb). exists c. split; [done|]. by apply bool_decide_eq_true in Hb.
Qed.

Lemma set_heap_same s : set_heap (ts_heap s) s = s.
Proof. by destruct s. Qed.

(** What waiting for the adapter to push means. *)
Lemma start_waiting db_ret seq rands cmsid devid s p item key msg s1 :
  server_ok s -> AS_NotifyStartPush db_ret seq rands cmsid devid s = inl ((p, Push_waiting item key msg), s1) ->
  s1 = s /\ key = GeneralToken rands /\ exists c, ts_heap s !! p = Some c /\ cc_cmsid c = cmsid /\ cc_devlist c !! devid = Some item.
Proof.
  intros Hs. unfold AS_NotifyStartPush, for_client. destruct (_ || _); [done|]. destruct (negb _); [done|].
  destruct (GetClient cmsid s) as [[q|]|] eqn:E; [|done|done]. destruct (GetClient_some _ _ _ Hs E) as (c & Hc & Hid).
  unfold with_client. rewrite Hc. destruct (NotifyPush_begin seq rands devid c) as [st|] eqn:Eb; [|done].
  intros [= <- -> <-]. destruct (NotifyPush_begin_waiting _ _ _ _ _ _ _ Eb) as [Hi ->]. rewrite insert_id by done.
  by rewrite set_heap_same; eauto 10.
Qed.

Lemma push_end_keeps item key mem token c devid :
  devices_ok c -> cc_devlist c !! devid = Some item -> pp_result (of_bytes mem) = 100 -> c_str (drop 264 mem) = Some token ->
  exists c', NotifyPush_end item key (Some mem) c = inl (mk_answer 0 (bytes "success!") token, c') /\ client_keeps c c' /\
    exists d, device c' devid = Some d /\ dv_key d = key.
Proof.
  intros Hc Hi Hr Ht. unfold NotifyPush_end. rewrite Hr, Ht. cbn [Z.eqb Pos.eqb].
  destruct (do_live c Hc devid item Hi) as [d Hd]. rewrite Hd. eexists. split; [done|].
  split; [split; [by apply update_device_ok|done]|].
  exists (set_dv_push token key d). rewrite (update_device_device _ item devid), decide_True by done.
  unfold device. rewrite Hi. cbn. by rewrite Hd.
Qed.

Section Admission.
Context {D : Doubles}.

(** C15. The sessions of streams, from end to end.  When the server has asked an adapter
    to push a camera and got a good answer, the media server's question whether a stream
    with that camera's ids may come in - a JSON document with the URL of the stream - is
    answered 0, yes, for the key that was sent to that adapter, and 1, no, for every other
    key; asking changes nothing. *)
Theorem push_admitted db_ret seq rands cmsid devid s p item key msg mem token :
  server_run s ->
  AS_NotifyStartPush db_ret seq rands cmsid devid s = inl ((p, Push_waiting item key msg), s) ->
  pp_result (of_bytes mem) = 100 -> c_str (drop 264 mem) = Some token ->
  exists s', NotifyStartPush db_ret seq rands (Sent (Some mem)) cmsid devid s = inl (mk_answer 0 (bytes "success!") token, s') /\
    forall req res pre k sv,
      sv_adapters sv = Some s' ->
      body_member "tcUrl" req = inl (Some (push_url pre cmsid devid k)) ->
      zlen (push_url pre cmsid devid k) < 2 ^ 31 -> url_parts pre cmsid devid ->
      HandlePushCheck req res sv = inl (set_strbody (if bool_decide (GeneralToken rands = k) then bytes "0" else bytes "1") res, sv).
Proof.
  intros Hs%server_run_ok E Hr Ht. destruct (start_waiting _ _ _ _ _ _ _ _ _ _ _ Hs E) as (_ & -> & c & Hc & <- & Hi).
  destruct (push_end_keeps item (GeneralToken rands) mem token c devid (so_devices s Hs p c Hc) Hi Hr Ht) as (c' & Ee & Hk & d & Hd & Hkey).
  exists (set_heap (<[p := c']> (ts_heap s)) s). split.
  - unfold NotifyStartPush. rewrite E. cbn. unfold with_client. by rewrite Hc, Ee.
  - intros req res pre k sv Hsv Hb Hl Hu. unfold HandlePushCheck. rewrite Hb, parser_url by done.
    unfold respond, adapters. rewrite Hsv. unfold AS_CheckPush, for_client.
    assert (H' : server_ok (set_heap (<[p := c']> (ts_heap s)) s)) by by eapply server_ok_update.
    assert (Hp : ts_heap (set_heap (<[p := c']> (ts_heap s)) s) !! p = Some c') by (cbn; by rewrite lookup_insert_eq).
    pose proof (GetClient_by p c' _ H' Hp) as Hg. destruct Hk as (_ & _ & Hid). rewrite Hid in Hg. rewrite Hg.
    unfold with_client. rewrite Hp, insert_id, set_heap_same by done. unfold CheckPush. rewrite Hd, Hkey.
    destruct sv as [ad pl]. cbn in *. by subst.
Qed.
End Admission.

(** A request whose body is a JSON document. *)
Definition json_request (body : list Z) : Request := SimRequest.set_body (mk_body body (rb_req_params (rq_body Request_new.2)) []) Request_new.2.

Definition check_body (url : list Z) : list Z := bytes "{" ++ quoted (bytes "tcUrl") ++ bytes ":" ++ quoted url ++ bytes "}".

Definition sample_url (key : list Z) : list Z := push_url (bytes "rtmp://host/live?") (bytes "adapter1") (bytes "cam1") key.

Definition asked_for : TcpServer :=
  match NotifyStartPush 0 42 sample_rands (Sent (Some sample_resp)) (bytes "adapter1") (bytes "cam1") served with
  | inl (_, s) => s
  | inr _ => TcpServer_new
  end.

(** A pattern does not occur where a search does not find it. *)
Lemma absent_find p l : p <> [] -> zlen l < 2 ^ 31 -> find p l = -1 -> absent p l.
Proof.
  intros Hp Hl E. destruct (find_cases p l Hp Hl) as [[_ H]|(a & b & _ & _ & H)]; [done|]. pose proof (zlen_nonneg a). lia.
Qed.

Lemma push_admitted_witness :
  let sv := mk_service (Some asked_for) None in
  let res := Response_new STATUS_OK in
  HandlePushCheck (D := integral_doubles) (json_request (check_body (sample_url sample_key))) res sv = inl (set_strbody (bytes "0") res, sv) /\
  HandlePushCheck (D := integral_doubles) (json_request (check_body (sample_url (bytes "x")))) res sv = inl (set_strbody (bytes "1") res, sv).
Proof.
  destruct (@push_admitted integral_doubles 0 42 sample_rands (bytes "adapter1") (bytes "cam1") served 4096 100 sample_key
    (frame REQ_PUSH 42 (to_bytes (mk_req_push (chars 20 (bytes "cam1")) (chars 20 sample_key) (zeros 64)))) sample_resp (bytes "tok")) as (s' & E & H).
  - apply serve_all_run; [apply run_new|]. vm_compute. reflexivity.
  - vm_compute. reflexivity.
  - vm_compute. reflexivity.
  - vm_compute. reflexivity.
  - assert (Es : s' = asked_for) by (unfold asked_for; by rewrite E). rewrite Es in H.
    assert (Hu : url_parts (bytes "rtmp://host/live?") (bytes "adapter1") (bytes "cam1"))
      by (split; [|split]; (apply absent_find; [discriminate|vm_compute; reflexivity|vm_compute; reflexivity])).
    split.
    + apply (H _ (Response_new STATUS_OK) (bytes "rtmp://host/live?") sample_key (mk_service (Some asked_for) None));
        [reflexivity|vm_compute; reflexivity|vm_compute; reflexivity|exact Hu].
    + apply (H _ (Response_new STATUS_OK) (bytes "rtmp://host/live?") (bytes "x") (mk_service (Some asked_for) None));
        [reflexivity|vm_compute; reflexivity|vm_compute; reflexivity|exact Hu].
Defined.

(** ** What the web side answers *)
Section Replies.
Context {D : Doubles}.

Lemma c_string_app a b : c_string a -> c_string b -> c_string (a ++ b).
Proof. intros [H1 H2] [H3 H4]. split; [by apply Forall_app|]. rewrite elem_of_app. tauto. Qed.

Lemma c_string_quoted s : c_string s -> c_string (valueToQuotedString s).
Proof.
  intros Hs. assert (Hc : forall c, 0 < c < 256 -> c_string [c]).
  { intros c Hc. split; [apply Forall_singleton; unfold is_byte; lia|]. rewrite list_elem_of_singleton. lia. }
  assert (He : c_string (concat (map escape_char s))).
  { destruct Hs as [Hb H0]. induction Hb as [|c s Hb _ IH]; [by apply c_stringb_ok|]. apply not_elem_of_cons in H0 as [Hne H0].
    cbn [map concat]. apply c_string_app; [|by apply IH]. unfold is_byte in Hb. unfold escape_char.
    repeat (case_match; [by apply c_stringb_ok|]). case_match; [|apply Hc; lia].
    unfold u_escape. assert (Hh : forall d, 0 <= d < 16 -> c_string [hex_upper d]).
    { intros d Hd. apply Hc. unfold hex_upper. change (chr "0") with 48. change (chr "A") with 65. case_match; lia. }
    apply (c_string_app [BACKSLASH; chr "u"]); [by apply c_stringb_ok|].
    do 3 (apply (c_string_app [_]); [apply Hh, Z.mod_pos_bound; lia|]). apply Hh, Z.mod_pos_bound; lia. }
  unfold valueToQuotedString. case_match; apply (c_string_app [QUOTE]); try by apply c_stringb_ok.
  all: apply c_string_app; [done|by apply c_stringb_ok].
Qed.

Lemma c_string_int n : c_string (valueToString_int n).
Proof.
  assert (H : forall m, 0 <= m -> c_string (dec_text m)).
  { intros m Hm. destruct (dec_text_digits m Hm) as [[_ Hd] _]. split.
    - eapply Forall_impl; [exact Hd|]. intros c Hc%is_digit_range. unfold is_byte. lia.
    - intros H0. rewrite Forall_forall in Hd. by apply Hd in H0. }
  unfold valueToString_int, uintToString. case_match; destr_bool; [apply (c_string_app [_]); [by apply c_stringb_ok|]|];
    apply H; [apply Z.mod_pos_bound; lia|lia].
Qed.

Lemma c_text_id s : 0 ∉ s -> c_text s = s.
Proof.
  induction s as [|c s IH]; [done|]. intros [Hc Hs]%not_elem_of_cons. cbn [c_text].
  rewrite (proj2 (Z.eqb_neq c 0)) by done. by rewrite IH.
Qed.

Lemma c_string_result n r : c_string r -> c_string (result_text n r).
Proof.
  intros Hr. unfold result_text, object_text, quoted_text. rewrite (c_text_id r) by apply Hr. cbn [member_lines].
  unfold member_line. repeat (apply c_string_app; try (by apply c_stringb_ok)); try apply c_string_int.
  by apply c_string_quoted.
Qed.

(** What an answer means. *)
Definition reply_value (n : Z) (desc : list Z) : Value :=
  Val no_comments (objectValue [(bytes "code", of_int n); (bytes "result", of_string desc)]).

Lemma reply_reads n desc :
  c_string desc -> - 2 ^ 31 <= n < 2 ^ 31 ->
  styled_text [code n; result desc] = inl (result_text n desc) /\
  parse true (result_text n desc) Value_null = inl (true, normal (reply_value n desc), []).
Proof.
  intros Hd Hn. assert (E : styled_text [code n; result desc] = toStyledString (reply_value n desc)).
  { reflexivity. }
  destruct (styled_reads (reply_value n desc) true) as (t & Et & Ep).
  - cbn -[bytes]. split; [|split; [|split; [|split; [|done]]]].
    + repeat constructor.
    + repeat (constructor; [by apply c_stringb_ok|]). constructor.
    + unfold minInt64, maxInt64. lia.
    + rewrite (c_text_id desc) by apply Hd. done.
  - cbn. tauto.
  - split; [done|]. split; [reflexivity|]. cbn. tauto.
  - pose proof (styled_result n desc) as Es. rewrite E, Et in Es. injection Es as <-. by rewrite E, Et.
Qed.

Lemma string_reads t :
  c_string t -> exists body, toStyledString (of_string t) = inl body /\ parse true body Value_null = inl (true, of_string t, []).
Proof.
  intros Ht. destruct (styled_reads (of_string t) true) as (body & Eb & Ep); [|done|done|by exists body].
  cbn. by rewrite (c_text_id t) by apply Ht.
Qed.
(** Codes are [int]s, descriptions are C strings. *)
Definition reply_ok (r : web_reply) : Prop :=
  match r with Web_json n desc => c_string desc /\ - 2 ^ 31 <= n < 2 ^ 31 | _ => True end.

Definition reads_as (r : web_reply) (text : list Z) : Prop :=
  match r with
  | Web_empty => text = []
  | Web_invalid => parse true text Value_null = inl (true, normal (reply_value 200 (bytes "invalid parameter!")), [])
  | Web_json n desc => parse true text Value_null = inl (true, normal (reply_value n desc), [])
  end.

(** What the web side answers about accounts and cameras reads back, but only when it
    is read twice: the body is a JSON document for every answer, whatever characters the
    description has; its value is not the object but a string, whose text is the document
    with the code and the description. *)
Theorem web_reply_reads r res :
  reply_ok r ->
  exists text body, set_text [] r res = inl (set_strbody body res) /\
    parse true body Value_null = inl (true, of_string text, []) /\ reads_as r text.
Proof.
  intros Hr. assert (H : exists text, web_text [] r = inl text /\ c_string text /\ reads_as r text).
  { destruct r as [| |n desc]; cbn [web_text reads_as].
    - exists []. split; [done|]. split; [by apply c_stringb_ok|done].
    - exists INVALID. split; [done|]. split; [by apply c_stringb_ok|]. vm_compute. reflexivity.
    - destruct Hr as [Hd Hn]. destruct (reply_reads n desc Hd Hn) as [E Ep]. exists (result_text n desc).
      split; [|split; [by apply c_string_result|done]]. by destruct (n =? 100). }
  destruct H as (text & Et & Hc & Hm). destruct (string_reads text Hc) as (body & Eb & Ep). exists text, body.
  split; [|done]. unfold set_text. rewrite Et. unfold set_body. by rewrite Eb.
Qed.
End Replies.

Lemma web_reply_reads_witness :
  exists text body, set_text (D := integral_doubles) [] (Web_json 200 (bytes "camera not exist!")) (Response_new STATUS_OK) =
      inl (set_strbody body (Response_new STATUS_OK)) /\
    parse (D := integral_doubles) true body Value_null = inl (true, of_string text, []) /\
    reads_as (D := integral_doubles) (Web_json 200 (bytes "camera not exist!")) text.
Proof.
  apply (@web_reply_reads integral_doubles (Web_json 200 (bytes "camera not exist!")) (Response_new STATUS_OK)).
  split; [apply c_stringb_ok; vm_compute; reflexivity|lia].
Defined.

(** ** Starting, stopping *)

Definition all_running : Objects := mk_objects false true true true true true.
Definition without_pool : Objects := mk_objects false true true false false false.

(** What [Start] makes of the answers of its steps.  That the thread pool does not start
    counts as success, with no server running. *)
Lemma Start_exact r :
  Start r AdapterService_new =
    if negb (sr_init r =? 0) || negb (sr_open r =? 0) then (-1, AdapterService_new)
    else if negb (sr_pool r =? 0) then (0, without_pool)
    else if negb (sr_http r =? 0) || negb (sr_adapters r =? 0) || negb (sr_play r =? 0) then (-1, AdapterService_new)
    else (0, all_running).
Proof.
  unfold Start, start_objects. cbn.
  by destruct (sr_init r =? 0), (sr_open r =? 0), (sr_pool r =? 0), (sr_http r =? 0), (sr_adapters r =? 0), (sr_play r =? 0).
Qed.

(** Whatever is typed, [main] does not leave its loop: it stores whether the character is
    a [t], never the character. *)
Lemma main_never_quits input quit i : chr "q" ∉ quit -> main_loop input quit i = false.
Proof.
  revert quit i. induction input as [|c input IH]; intros quit i Hq; cbn [main_loop]; [done|].
  set (b := if c =? chr "t" then 1 else 0). set (quit' := <[Z.to_nat (Z.land i 3) := b]> quit).
  assert (Hq' : chr "q" ∉ quit').
  { intros [j Hj]%list_elem_of_lookup. unfold quit' in Hj. apply list_lookup_insert_Some in Hj as [(_ & E & _)|[_ Hj]].
    - unfold b in E. change (chr "q") with 113 in E. case_match; done.
    - apply Hq. by eapply list_elem_of_lookup_2. }
  rewrite (IH quit' (i + 1) Hq'). destruct (default 0 (quit' !! Z.to_nat (Z.land (i + 1) 3)) =? chr "q") eqn:E.
  - exfalso. apply Z.eqb_eq in E. destruct (quit' !! Z.to_nat (Z.land (i + 1) 3)) as [x|] eqn:Ex; [|done]. cbn in E. subst x.
    apply Hq'. by eapply list_elem_of_lookup_2.
  - by destruct (b =? 1).
Qed.
