(* ===== verification/ServiceRefine.v ===== *)
(** * ServiceRefine: viewers, rooms and adapters together

    A request of a viewer is served by the live rooms, which ask the adapters.  The
    promises that [LiveRefine] demands of the answers of [PlayctrlHandler] - that they
    come, and that they fit the buffers - are kept by the adapters. *)
From stdpp Require Import gmap.
From S2P Require Import Prelude Control Streams JsonValue JsonWriter JsonReader JsonProps Messages TimeSection CmsClient CmsClientProps.
From S2P Require Import Adapter AdapterProps WebSocket WebSocketProps LiveRooms LiveReplies LiveView LiveRefine LivePresence LiveRoomsProps Service ServiceProps.








Section Adapters.
Implicit Types (s : TcpServer) (c : CMSClient).







End Adapters.

(** ** Requests of viewers *)
Section Viewers.
Context {D : Doubles}.







End Viewers.

(** ** A viewer of a camera *)
#[local] Existing Instance integral_doubles.

Definition one_viewer : Server := ends [Library (ESTABLISHED 4096 0 0 5)].
Definition joins (devid : string) : list Z := json ("{'cmd':100,'cmsid':'adapter1','devid':'" ++ devid ++ "'}").




(** An answer whose token fills its array to the last byte. *)
Example unended_token_overreads :
  NotifyStartPush 0 42 sample_rands (Sent (Some (take 264 sample_resp ++ repeat 65 84))) (bytes "adapter1") (bytes "cam1") served = inr OutOfBounds.
Proof. vm_compute. reflexivity. Qed.

(** One message of a viewer who names a camera that a connected adapter does not have:
    the state of the camera is read through a null pointer. *)
Example unknown_camera_crashes :
  viewer_request 512 0 42 sample_rands (Sent (Some sample_resp)) 5 (joins "cam7") (mk_service (Some served) (Some one_viewer)) = inr OutOfBounds.
Proof. vm_compute. reflexivity. Qed.
