(* ===== verification/Main.v ===== *)
(** * Main: the program and its signals

    [main.cpp]: the service object from [new] to [delete], the loop that reads characters,
    and the handlers of SIGINT, SIGTERM and SIGSEGV, which can come between any two steps.
    What a step of the start of the service answers is an input; the objects that the service
    owns are those of [Service]. *)
From stdpp Require Import base list.
From S2P Require Import Prelude Service ServiceProps.

(** [pService]: [nullptr], an object, or the address of a deleted one. *)
Inductive service_ptr :=
  | No_service
  | Serves (o : Objects)
  | Dangling.

(** Before [log_init]; before [new]; before [Start]; in the loop with [quit] and [i]; at
    [Stop], at [delete] and at the assignment of [nullptr] of the end with its result. *)
Inductive main_pc :=
  | At_log
  | At_new
  | At_start
  | At_loop (quit : list Z) (i : Z)
  | At_stop (ret : Z)
  | At_delete (ret : Z)
  | At_null (ret : Z).

Record program := mk_program { pg_service : service_ptr; pg_pc : main_pc }.

(** [memory] is what the array [quit] is in memory. *)
Inductive main_input :=
  | In_log (ret : Z)
  | In_start (r : start_results) (memory : list Z)
  | In_char (c : Z)
  | In_go
  | In_signal (signo : Z).

(** How a step ends: the program goes on, it exits, or a signal kills it. *)
Inductive outcome :=
  | Goes_on (p : program)
  | Exits (ret : Z) (service : service_ptr)
  | Killed (signo : Z).

Definition SIGINT : Z := 2.
Definition SIGSEGV : Z := 11.
Definition SIGTERM : Z := 15.

(** [p->Stop()] and [delete p], whose destructor calls [Stop] again. *)
Definition stop_service (p : service_ptr) : service_ptr + fault :=
  match p with
  | Serves o => inl (Serves (Stop o))
  | _ => inr OutOfBounds
  end.
Definition delete_service (p : service_ptr) : service_ptr + fault :=
  match p with
  | No_service => inl No_service
  | Serves o => inl Dangling
  | Dangling => inr OutOfBounds
  end.

(** [sig_handler] and [sig_term_handler] *)
Definition exit_handler (p : service_ptr) : outcome + fault :=
  match p with
  | No_service => inl (Exits 0 No_service)
  | _ =>
      match stop_service p with
      | inr f => inr f
      | inl p =>
          match delete_service p with
          | inr f => inr f
          | inl _ => inl (Exits 0 No_service)
          end
      end
  end.

(** [signal_handler] restores the default and raises the signal again. *)
Definition signal_handler (signo : Z) : outcome := Killed signo.

(** SIGSEGV has its handler from the first statement on, the others behind [log_init]; the
    default of these signals is to kill the process. *)
Definition deliver (signo : Z) (p : program) : outcome + fault :=
  if signo =? SIGSEGV then inl (signal_handler signo)
  else if (signo =? SIGINT) || (signo =? SIGTERM) then
    match pg_pc p with
    | At_log => inl (Killed signo)
    | _ => exit_handler (pg_service p)
    end
  else inl (Killed signo).

(** One character: whether the loop is left, and the array. *)
Definition read_char (c : Z) (quit : list Z) (i : Z) : bool * list Z :=
  (main_loop [c] quit i, <[Z.to_nat (Z.land i 3) := (if c =? chr "t" then 1 else 0)]> quit).

Definition main_step (i : main_input) (p : program) : option (outcome + fault) :=
  match i, pg_pc p with
  | In_signal signo, _ => Some (deliver signo p)
  | In_log ret, At_log => Some (inl (if negb (ret =? 0) then Exits 0 (pg_service p) else Goes_on (mk_program (pg_service p) At_new)))
  | In_go, At_new => Some (inl (Goes_on (mk_program (Serves AdapterService_new) At_start)))
  | In_start r memory, At_start =>
      match pg_service p with
      | Serves o =>
          let (ret, o) := Start r o in
          Some (inl (Goes_on (mk_program (Serves o) (if negb (ret =? 0) then At_stop (-1) else At_loop memory 0))))
      | _ => Some (inr OutOfBounds)
      end
  | In_char c, At_loop quit i =>
      let (leave, quit) := read_char c quit i in
      Some (inl (Goes_on (mk_program (pg_service p) (if leave then At_stop 0 else At_loop quit (i + 1)))))
  | In_go, At_stop ret =>
      Some (match stop_service (pg_service p) with inl s => inl (Goes_on (mk_program s (At_delete ret))) | inr f => inr f end)
  | In_go, At_delete ret =>
      Some (match delete_service (pg_service p) with inl s => inl (Goes_on (mk_program s (At_null ret))) | inr f => inr f end)
  | In_go, At_null ret => Some (inl (Exits ret No_service))
  | _, _ => None
  end.

Definition program_new : program := mk_program No_service At_log.

Inductive program_run : program -> Prop :=
  | program_begins : program_run program_new
  | program_steps i p p' : program_run p -> main_step i p = Some (inl (Goes_on p')) -> program_run p'.

(** ** What is always so *)
Definition program_ok (p : program) : Prop :=
  match pg_pc p with
  | At_log | At_new => pg_service p = No_service
  | At_null _ => pg_service p = Dangling
  | _ => exists o, pg_service p = Serves o
  end.

Lemma main_step_ok i p p' : program_ok p -> main_step i p = Some (inl (Goes_on p')) -> program_ok p'.
Proof.
  unfold program_ok. destruct p as [s pc]. destruct i as [ret|r mem|c| |signo]; cbn.
  - destruct pc; try done. destruct (ret =? 0); [|done]. by intros ? [= <-].
  - destruct pc; try done. intros [o ->]. destruct (Start r o) as [ret o']. intros [= <-]. cbn. by destruct (ret =? 0); eexists.
  - destruct pc; try done. intros [o ->]. case_match; intros [= <-]; cbn; by eexists.
  - destruct pc; try done.
    + intros _ [= <-]. by eexists.
    + intros [o ->] [= <-]. by eexists.
    + by intros [o ->] [= <-].
  - intros _. unfold deliver, exit_handler. cbn. destruct (signo =? SIGSEGV); [done|]. destruct (_ || _); [|done].
    destruct pc; try done; destruct s as [|o|]; done.
Qed.

Lemma program_run_ok p : program_run p -> program_ok p.
Proof. induction 1 as [|i p p' _ IH E]; [done|]. by eapply main_step_ok. Qed.

(** Ctrl-C and SIGTERM at any time behind [log_init]: the program exits with 0, and the
    service that there is has been stopped and deleted once; the only exception is the moment
    between [delete] and the assignment of [nullptr] behind it, at which the handler uses
    and deletes the object again.  No other step of [main] is a fault. *)
Theorem interrupt_exits p : program_run p ->
  (forall signo, signo = SIGINT \/ signo = SIGTERM ->
    deliver signo p =
      match pg_pc p with
      | At_log => inl (Killed signo)
      | At_null _ => inr OutOfBounds
      | _ => inl (Exits 0 No_service)
      end) /\
  (forall i f, main_step i p = Some (inr f) -> exists signo ret, i = In_signal signo /\ pg_pc p = At_null ret).
Proof.
  intros Hok%program_run_ok. destruct p as [s pc]. split.
  - intros signo Hs. unfold deliver, program_ok in *. cbn in *.
    assert (E : (signo =? SIGSEGV) = false /\ (signo =? SIGINT) || (signo =? SIGTERM) = true) by (by destruct Hs as [-> | -> ]).
    destruct E as [-> ->]. destruct pc; cbn in *; subst; try done; by destruct Hok as [o ->].
  - intros i f. unfold program_ok in Hok. cbn in Hok. destruct i as [ret|r mem|c| |signo]; cbn.
    + by destruct pc.
    + destruct pc; try done. destruct Hok as [o ->]. by destruct (Start r o).
    + by destruct pc.
    + destruct pc; try done; by destruct Hok as [o ->].
    + unfold deliver, exit_handler. cbn. destruct (signo =? SIGSEGV); [done|]. destruct (_ || _); [|done].
      destruct pc; subst; try done; try by destruct Hok as [o ->]. intros _. by eexists _, _.
Qed.

(** A start that fails, up to the moment behind [delete]. *)
Definition failed_start : start_results := mk_starts 1 0 0 0 0 0.

Lemma failed_start_run : program_run (mk_program Dangling (At_null (-1))).
Proof.
  apply (program_steps In_go (mk_program (Serves (Stop AdapterService_new)) (At_delete (-1)))); [|done].
  apply (program_steps In_go (mk_program (Serves (Stop AdapterService_new)) (At_stop (-1)))); [|done].
  apply (program_steps (In_start failed_start []) (mk_program (Serves AdapterService_new) At_start)); [|done].
  apply (program_steps In_go (mk_program No_service At_new)); [|done].
  by apply (program_steps (In_log 0) program_new); [apply program_begins|].
Qed.

Lemma interrupt_exits_witness : deliver SIGINT (mk_program Dangling (At_null (-1))) = inr OutOfBounds.
Proof. exact (proj1 (interrupt_exits (mk_program Dangling (At_null (-1))) failed_start_run) SIGINT (or_introl eq_refl)). Defined.

(** What is typed never ends the loop: behind it only a signal does. *)
Lemma loop_goes_on c quit i p : chr "q" ∉ quit -> pg_pc p = At_loop quit i ->
  exists quit', main_step (In_char c) p = Some (inl (Goes_on (mk_program (pg_service p) (At_loop quit' (i + 1))))).
Proof. intros Hq E. unfold main_step, read_char. rewrite E, main_never_quits by done. by eexists. Qed.
